(* ===== verification/_CoqProject ===== *)
-Q . S2P
Prelude.v
Cobs.v
UsbHeader.v
UsbMessages.v
UsbIpc.v
UsbReader.v
UsbCrc.v
Arena.v
ArenaSpec.v
ArenaOps.v
ArenaTheorems.v
IpcServer.v
LogFormat.v
LogDecoder.v
LogCodec.v
LogSafety.v
LogRing.v
LogWriter.v
LogService.v
LogPipeline.v
LogSink.v
Memfns.v
Places.v
PlacesBuild.v
PlacesProps.v
Ftab.v
Boot.v
BootProps.v
BTree.v
Layout.v
LayoutProps.v
Link.v
LinkProps.v
Nor.v
Storage.v
StorageProps.v
StorageTable.v
Ring.v
RingProps.v
LogStore.v
Flash.v
FlashProps.v
FlashRun.v
Heap.v
HeapProps.v
Graphics.v
GraphicsProps.v
ImageProps.v
Text.v
Compositor.v
CompositorProps.v
Proxy.v
ProxyProps.v
Tunnel.v
TunnelProps.v
TunnelSerial.v
Reactor.v
ReactorProps.v
KernAccess.v
KernState.v
KernMem.v
KernIrq.v
KernTask.v
KernSyscalls.v
KernKipc.v
KernEntry.v
KernInv.v
KernSafe.v
KernKipcSafe.v
KernRun.v
KernRunKipc.v
KernDesc.v
KernSched.v
KernProps.v
KernReply.v
KernWitness.v
Supervisor.v
SupervisorProps.v
Hibernation.v
SupervisorKernel.v
