(* ===== verification/Prelude.v ===== *)
(** * The rcard firmware and its host: kernel, boot chain and communication

    rcard is a small device and the host software that talks to it. The device
    runs tasks on a Hubris-derived kernel ([src/firmware/hubris]). The host links
    the tasks into an image, writes it to flash behind a table, and a bootloader
    starts it ([src/shared/places], [src/host/tfw], [src/firmware/bootloader]).
    Tasks offer resources to each other over a typed IPC layer
    ([src/firmware/modules/ipc]), log through a log service
    ([src/firmware/sysmodule/log]), show pictures through a compositor
    ([src/firmware/sysmodule/compositor], [src/shared/lilla-oxid]), are restarted by a
    supervisor ([src/firmware/tasks/supervisor]) and reach the host over USB and a serial
    line with one framing ([src/shared/usb-proto]). This library models these parts,
    from the source, and proves what makes them correct.

    ** The parts and their files

    - The kernel, [src/firmware/hubris]. [KernAccess]: the check of a slice against
      a region table ([kerncore]). [KernState]: the data of [abi], [descs.rs],
      [task.rs] and [hibernate.rs]. [KernMem]: user slices and copies between tasks
      ([umem.rs], [util.rs], [Task::try_read], [try_write]). [KernIrq]: the
      interrupt controller. [KernTask]: the methods of a task, the scheduler and
      timers ([task.rs]). [KernSyscalls]: the system calls ([syscalls.rs],
      [err.rs]). [KernKipc]: the messages to the kernel ([kipc.rs]), with the two of
      the feature [dump]. [KernEntry]: the machine with its current
      task, and the entry points ([arch/arm_m.rs], [startup.rs]). [KernInv],
      [KernSafe], [KernKipcSafe]: the invariant, and that no handler panics or
      breaks it. [KernRun], [KernRunKipc]: which task may run next. [KernDesc]:
      what never changes. [KernSched]: the scheduler. [KernProps]: reachable
      machines. [KernReply]: replies to suspended tasks and hibernation events.
      [KernWitness]: a small system, on which the theorems are applied.
    - The boot chain. [Memfns]: the memory functions ([modules/memfns]). [Places]:
      the image format, builder and parser ([shared/places]); [PlacesBuild]: what is
      built and that it parses; [PlacesProps]: corruption, safety, selection.
      [Ftab]: the flash table ([host/tfw/src/pack.rs]). [Boot]: the bootloader;
      [BootProps]: from the flashed files to the loaded image. [BTree]: the ordered
      maps and sorting of the build tool; [Layout]: where the regions of an image go,
      and the order of tasks ([host/tfw/src/layout.rs], [config.rs]); [LayoutProps]:
      the invariant of the allocator, and the theorems. [Link]: the linking of an
      image ([host/tfw/src/link.rs]); [LinkProps]: from ELF files to the running image.
    - Storage. [Nor]: the flash chip, and the driver that reads, programs and erases
      it ([sysmodule/mpi]). [Storage]: the storage service with its partitions
      ([sysmodule/storage]). [StorageProps]: what a client gets, and histories of
      calls. [StorageTable]: the table of partitions it reports. [Ring]: the writer of
      framed messages on a partition ([sysmodule/storage/api/src/ring.rs]);
      [RingProps]: its encoding, and what is on the flash. [Flash]: flashing a
      device from the host ([host/app/src/state.rs]); [FlashProps]: a partition that
      has been flashed; [FlashRun]: archives.
    - The wire protocol, [src/shared/usb-proto]. [UsbHeader]: the five-byte frame
      header ([header.rs], [frame.rs]). [UsbMessages]: simple frames ([simple.rs],
      [writer.rs]) against the class [Message] of message types, with the
      instances of [messages/] (awake, moshi_moshi, tunnel_error). [UsbIpc]: IPC
      requests with leases, and replies ([ipc_request.rs], [ipc_reply.rs]).
      [UsbReader]: the stream reader ([reader.rs]) and the drain loop of the host
      ([host/usb/src/fob_reader.rs]). [UsbCrc]: the checksum and packets of a
      bulk transfer ([host/usb/src/crc.rs], [usb_protocol_host], [usb_protocol_fob]).
      [Cobs]: byte stuffing, which the ring writer and the serial line use.
    - Calls of the host. [Proxy]: executing a request within the buffer it came in
      ([sysmodule/host_proxy]), with the kernel call as a parameter; [ProxyProps]: the
      call and the reply of a request, and where data is lost. [Tunnel]: the buffer
      that the tasks share and its lock ([usb-proto/src/tunnel.rs]), the transports over
      USB ([sysmodule/usb_protocol_host]) and the serial line
      ([sysmodule/log/src/transport.rs]) as instances of the class [HostTransport], and
      the handler of the proxy. [TunnelProps], [TunnelSerial]: a call from the bytes that
      arrive to the bytes sent back, proved once against the class [TransportLaws].
    - The IPC server, [src/firmware/modules/ipc]. [Arena]: the resource arena
      ([arena.rs]), every operation, and the full period of its key
      generator. [ArenaSpec]: the invariant and that each operation keeps it.
      [ArenaOps]: histories of calls. [ArenaTheorems]: what handle holders may
      rely on. [IpcServer]: opcodes ([handle.rs]), the router ([server.rs])
      against the class [ResourceDispatch], the implicit methods
      ([SharedArena::dispatch_implicit]) and the arena-backed dispatcher the
      macros generate, as the instance.
    - Notifications. [Reactor]: the queue of notifications with a cursor per task
      ([sysmodule/reactor]), over the class of the tables that the build generates;
      [ReactorProps]: what becomes of a notification.
    - Supervision. [Supervisor]: the supervisor's handling of faults, with what it writes
      of a task, and of the requests to hibernate memory ([tasks/supervisor],
      [hubris/userlib]'s kernel calls). [Hibernation]: the service whose guards stand for
      hibernated regions ([sysmodule/region_hibernation]), through the supervisor to the
      kernel, with its theorems. [SupervisorProps]: faults. Both are proved against what
      they need of the kernel, the classes [FaultWorld] and [RegionWorld].
      [SupervisorKernel] gives their instances from the model of the kernel: the
      supervisor's calls about faults are system calls, from the registers that
      [sys_send_to_kernel] loads through [safe_syscall_entry] and
      [handle_kernel_message] to those it reads, with the buffers in its memory; of the
      calls about regions the table of regions is taken.
    - The display. [Heap]: the allocator of the compositor
      ([sysmodule/compositor/src/heap.rs]), on the bytes of its region; [HeapProps]: its
      free list. [Graphics]: surfaces, shapes, copies, masks and image files
      ([lilla-oxid/src/graphics.rs]); [GraphicsProps]: what operations paint;
      [ImageProps]: image files and masks. [Text]: fonts and text
      ([lilla-oxid/src/text.rs]), with its theorems. [Compositor]: frame buffers, layers
      and the rendering of a frame ([sysmodule/compositor/src/main.rs] and its [api]);
      [CompositorProps]: what the display shows.
    - Logging. [LogFormat]: values, tags, integers and the device's formatter
      ([shared/log/src/formatter], [owned.rs]). [LogDecoder]: the host's decoder
      ([shared/log/src/decoder]). [LogCodec]: their round trip. [LogSafety]: the
      decoder on arbitrary bytes. [LogRing]: the ring buffer
      ([sysmodule/log/src/ringbuf.rs]). [LogWriter]: the buffering writer of log
      statements ([shared/log/src/log_writer.rs]). [LogService]: the service
      ([sysmodule/log/src/server.rs]) and the host's reading of a dump.
      [LogPipeline]: from a call on the service to the event on the host.
      [LogSink]: the USB sink ([sysmodule/log_sink_usb]). [LogStore]: the storage sink
      ([sysmodule/log_sink_storage]), which composes the service and the ring.

    ** How the code is modelled

    Functions are translated one to one. A [w]-bit integer is a [Z], with [wrap w]
    where the source wraps; bytes are 8-bit integers and buffers lists of them.
    Mutable state is a record passed through the operations; the memory of the
    device is a function from addresses to bytes. A panic is a value: code that
    indexes, slices or subtracts returns [exec], its checked accesses go
    through [idx], [slice], [set_idx], [copy_at] and [usub] of this file, and a
    theorem that concludes with [Ret] excludes the panic. Unsafe reads and copies
    are checked in the same way. Loops that are not structural take fuel; the
    theorems fix a fuel that is enough (a bound on the bytes or entries left), so
    that running out is excluded and not assumed away. The formatter's loops take
    ten and nineteen rounds, enough for 64 and 128 bits by the round trip; the
    kernel's search for senders takes one round per task and runs out of tasks
    first, by the theorem that it never panics. The heap takes fuel for the bytes of its
    region, as each block takes some; a line for its longer extent, an arc for its radius,
    and a frame, which is cleared in rows, for the width of the display; the supervisor's
    scan for one step per task; the lookup of a kerning pair and the breaking of lines for
    one step per byte or character.

    What the flash chip does with a command (completing it, failing, dying half-way)
    is a list of events given from outside, over which the theorems quantify; so is
    what becomes of the host's calls when it flashes a device.

    Code outside the repository is a parameter: the decoding of implicit-method
    arguments (the postcard crate) in [IpcServer], the zip archive and its parsed
    information in [Flash], the COBS encoder in
    [LogService] (with the bound on its output that the crate documents), the
    memory sizes of a decoded value in [LogDecoder], the serialisation of kernel
    messages (the ssmarshal crate, class [Marshal]) in [KernKipc], the kernel's
    answers to lease accesses and the timer as arguments of the operations. So are
    the tables the build generates for the kernel: the interrupt owners, the image
    id, the layout of a task's control block for dumps; [build_ok] states what the
    build promises of the tasks' descriptors.

    ** What is proved

    - Kernel: in every reachable state every system call, kernel message, fault,
      tick, interrupt and deferred switch is handled without a panic; the current
      task is runnable and its regions are in the protection unit; memory of a
      hibernated region can be reached by nobody, by slices that do not wrap around the
      top of the address space (a lease can make one that does), and a task is
      suspended exactly while a region it needs is hibernated or a debugger holds it; the
      access check is exact, copies stay within what both tasks may access, and one
      that fails blames exactly the tasks whose part was refused; a reply kept for
      a suspended task has the effect of an immediate one; the scheduler picks
      the most important runnable task, round-robin.
    - Boot chain: images are read back as built; one changed byte is noticed, but
      for the version byte; the parser stays inside of an image on the host; a
      recorded concern takes an image out of the selection; what the host flashes is
      what runs, each segment at its address and nothing else changed; the memory
      functions compute what C promises. No two regions of a layout overlap, but for
      shared groups; tasks are ordered behind the tasks they depend on. After linking,
      flashing and booting, every loadable segment is in memory at its address; a place
      may be mapped at several addresses, as the flash and the PSRAM of the boards are,
      of which the segments of the place use one. Memory being a function of the
      address, that two mappings show the same bytes is not modelled.
    - Storage: a write that reports success is what a read returns, although the
      driver may fail and die between and within commands; a partition has one
      holder, who is entitled to it and changes nothing else; the table reported is
      the one in the installed image. A message of the ring writer that starts at an
      erased page is stored as a frame that decodes to it, also round the end of the
      partition, as long as it does not come round to the sector it started in; the next
      one in the same page is lost. An archive that the host has flashed completely,
      over a link that may lose calls and replies, is what the bootloader starts.
    - Frames: encoding and parsing are inverse for headers, simple frames,
      requests with leases and replies, with the limits under which encoders
      refuse; views of arbitrary payloads stay inside them; however a stream is
      cut into chunks that have room in the reader when their turn comes, the reader
      reports every frame once and in order, and steps over oversized ones; a transfer's checksum wrapping is undone by the host, a
      changed byte outside the length field is rejected, and the two packet
      writers of the firmware are compared with the host's format.
    - Calls of the host: a request that arrives over USB or the serial line, while its
      transport is between requests, makes one call, with its arguments and its first
      four leases, or none and an error when these do not fit in the proxy's pool; the
      leases hold the data of the request if it can be compacted in place; the host reads
      the answer as the reply to it, or as an error, and the buffer is free again. Not so
      when transports meet at the buffer, bytes follow a request in the same batch of the
      serial line, replies are asked for again or requests are malformed.
    - Arena and server: along every history no panic, exact reference counts; a
      handle resolves for its owner only until released and never again, since
      keys do not repeat; transfers are two-phase; what a task does leaves the
      handles of others alone; a restarted task's handles are revoked; the
      router answers every message once and tracks every client's generation.
    - Notifications: each one accepted is for each subscriber delivered once and in
      order, still pending, reported as dropped or replaced, and no task with a pending
      one is left without a signal.
    - Supervision: on a fault notification the supervisor ends with no task faulted,
      itself included, by the kernel's own handlers of its calls, unless a task has
      panicked with a message in the supervisor's buffer; the hibernated regions are those of the guards that are alive; a transfer
      reports four bytes however many were copied.
    - The display: the heap gives memory that is free and apart from all other, and is one
      block again when all is returned; drawing keeps a well-formed surface and does not
      panic, within the limits that it does not check itself (the sources of clipped
      copies, areas to be cleared or inverted, scrolling down); a line is drawn from its start to its end; saved images are read back; a
      text is drawn word for word in filled lines; a frame shows the topmost visible layer
      at each pixel.
    - Logging: the ring is the queue of the newest chunks; the service refines a
      queue of entries; a statement's bytes are delivered exactly; the decoder
      inverts the formatter, does not depend on chunking and is total on arbitrary
      bytes but for unallocatable lengths; a message logged on the device is the
      event the host reports; draining delivers single-shot messages once and in
      order, to the host or as one ring message per entry.

    Examples beside the theorems show where the code falls short of what it
    says: see [oversized_chunk_swallows_next], [fob_write_usb_panics_iff],
    [length_corruption_can_pass], [three_full_messages_lose_one],
    [stream_tail_never_drained], [oversized_string_panics],
    [wrapping_lease_granted], [dump_of_tcb_part], [panic_message_not_hibernated],
    [empty_region_refused], [parse_wraps_on_device], [version_downgrade_boots],
    [lone_image_boots_unchecked], [code_overlaps_in_dual_mapping],
    [second_slot_never_written], [ring_next_message_lost], [ring_sector_not_erased],
    [ring_without_geometry], [read_lease_zeroed], [usb_takes_foreign_buffer],
    [retransmission_echoes_request], [usart_overwrites_staged],
    [short_request_blocks_serial], [heap_misaligns], [later_layer_below],
    [failed_read_ignored], [eight_bits_white], [clear_view_clears_image],
    [fill_rect_wide], [scroll_down_panics], [beyond_panics],
    [panic_message_faults_supervisor], [pbm_size_wraps], [grey_font_draws_blocks],
    [small_sheet_panics], [kern_length_wraps], [restarted_peer_unnamed],
    [strangers_only_print], [transfers_report_four].

    ** What is not modelled

    Of the kernel: the assembly that saves and restores registers, the encoding of
    the protection unit's registers, profiling and start-up diagnostics, and the
    build scripts. Of the bootloader: messages on the serial line and the cache
    registers. Of the flash driver: the discovery of the chip and the register
    accesses. Of the drawing library: reading images and fonts from files. The
    hardware drivers (display, touch, radio, USB controller), the file system and the
    clock, the manager of the USB protocols, the task executor and the code generation of
    the IPC macros beyond the dispatcher; and of the host the asynchronous runtime of its
    connections, the decoder of the serial line, the emulator and the applications.
    Concurrency is at the grain of IPC messages: servers handle one message at a
    time, and histories are sequences of calls; the drains of the sinks run without
    other calls between.

    ** Plan

    Left are the decoder of the serial line and the IPC runtime on the host, the manager of
    the USB protocols, and the file system and clock services of the device.

    This file holds what the others share: machine integers, results, panics and
    checked accesses, little-endian strings, and the automation for them. *)

From stdpp Require Export base list list_numbers numbers.
From Stdlib Require Export ZArith Lia.

(** * Machine integers

    A [w]-bit unsigned integer is a [Z] in [0, 2^w); the arithmetic of the
    source that wraps is written with [wrap w]. A byte is an 8-bit integer, a
    byte slice or buffer is a [list Z]. *)

Definition wrap (w x : Z) : Z := (x mod 2 ^ w)%Z.

Definition is_u (w x : Z) : Prop := (0 <= x < 2 ^ w)%Z.

Definition bytes_ok (l : list Z) : Prop := Forall (is_u 8) l.

#[export] Instance is_u_dec w x : Decision (is_u w x).
Proof. unfold is_u. apply _. Defined.

(** Two's complement view of a [w]-bit word ([as i8], [as i64], ...). *)
Definition to_signed (w x : Z) : Z :=
  let y := wrap w x in if (y <? 2 ^ (w - 1))%Z then y else (y - 2 ^ w)%Z.

Definition is_i (w x : Z) : Prop := (- 2 ^ (w - 1) <= x < 2 ^ (w - 1))%Z.

(** ** Little-endian byte strings: [to_le_bytes] and [from_le_bytes]. *)

Fixpoint le_bytes (n : nat) (z : Z) : list Z :=
  match n with
  | O => []
  | S n' => (z mod 256)%Z :: le_bytes n' (z / 256)%Z
  end.

Fixpoint le_val (l : list Z) : Z :=
  match l with
  | [] => 0%Z
  | b :: l' => (b + 256 * le_val l')%Z
  end.

(** * Results

    Rust's [Result<A, E>]; Rust's [Option] is [option]. *)

Inductive result (A E : Type) : Type :=
  | Ok (a : A)
  | Err (e : E).
Arguments Ok {A E} _.
Arguments Err {A E} _.

(** * Panics

    Rust checks slice indices and ranges at run time and panics when they are
    out of bounds. [exec A] is the outcome of such code: a value, or the panic.
    Every checked access of the source goes through the primitives below, so a
    theorem that concludes with [Ret] also says that the code does not panic. *)

Inductive exec (A : Type) : Type :=
  | Ret (a : A)
  | Panic.
Arguments Ret {A} _.
Arguments Panic {A}.

Definition ebind {A B} (m : exec A) (k : A → exec B) : exec B :=
  match m with Ret a => k a | Panic => Panic end.

Declare Scope exec_scope.
Delimit Scope exec_scope with exec.
Notation "'let!' x := m 'in' k" := (ebind m (λ x, k))
  (at level 10, x pattern, m at level 100, k at level 200) : exec_scope.
Open Scope exec_scope.

Section primitives.
Context {A : Type}.
Implicit Types (l src : list A).

(** [l[i]] *)
Definition idx (l : list A) (i : nat) : exec A :=
  match l !! i with Some a => Ret a | None => Panic end.

(** [l[a..b]] *)
Definition slice (l : list A) (a b : nat) : exec (list A) :=
  if decide (a ≤ b ∧ b ≤ length l) then Ret (take (b - a) (drop a l)) else Panic.

(** [l[i] = v] *)
Definition set_idx (l : list A) (i : nat) (v : A) : exec (list A) :=
  if decide (i < length l) then Ret (<[i := v]> l) else Panic.

(** The buffer after [src] has been copied over the bytes at [off..]. *)
Definition splice (l : list A) (off : nat) (src : list A) : list A :=
  take off l ++ src ++ drop (off + length src) l.

(** [l[off..off + src.len()].copy_from_slice(src)] *)
Definition copy_at (l : list A) (off : nat) (src : list A) : exec (list A) :=
  if decide (off + length src ≤ length l) then Ret (splice l off src) else Panic.

(** [l.copy_within(a..b, dst)] *)
Definition copy_within (l : list A) (a b dst : nat) : exec (list A) :=
  let! src := slice l a b in copy_at l dst src.
End primitives.

(** [a - b] on [usize]; an underflow is reported as a panic (what a build with
    overflow checks does), so that a theorem ending in [Ret] excludes it. *)
Definition usub (a b : nat) : exec nat :=
  if decide (b ≤ a) then Ret (a - b)%nat else Panic.

(** * Automation

    [len] normalises list lengths and closes linear goals; the database [exec]
    executes the checked primitives once their bounds are provable. *)

Create Rewrite HintDb len.
Create Rewrite HintDb exec.

#[export] Hint Rewrite @length_app @length_take @length_drop @length_insert
  @length_replicate @length_fmap @length_reverse : len.

Ltac len_simpl := repeat (progress (autorewrite with len in *; cbn [length] in * )).
Ltac len := try solve [ lia | len_simpl; lia ].

(** Closes [is_u w c] for a constant [c]. *)
Ltac const_u := solve [ split; [discriminate | reflexivity] ].

(** Linear arithmetic with divisions and remainders by constants. *)
Ltac dlia := Z.to_euclidean_division_equations; lia.

Create HintDb words.

Section exec_lemmas.
Context {A : Type}.
Implicit Types (l src w rest : list A).

Lemma ebind_Ret {B} (a : A) (k : A → exec B) : ebind (Ret a) k = k a.
Proof. reflexivity. Qed.

Lemma ebind_inv {B} (m : exec A) (k : A → exec B) b :
  ebind m k = Ret b → ∃ a, m = Ret a ∧ k a = Ret b.
Proof. destruct m; simpl; [eauto | discriminate]. Qed.

Lemma slice_ok l a b :
  a ≤ b → b ≤ length l → slice l a b = Ret (take (b - a) (drop a l)).
Proof. intros. unfold slice. by rewrite decide_True by lia. Qed.

Lemma idx_ok l i x : l !! i = Some x → idx l i = Ret x.
Proof. unfold idx. by intros ->. Qed.

Lemma idx_lt l i : i < length l → ∃ x, l !! i = Some x ∧ idx l i = Ret x.
Proof.
  intros [x Hx]%lookup_lt_is_Some. exists x. by rewrite (idx_ok _ _ x).
Qed.

Lemma set_idx_ok l i v : i < length l → set_idx l i v = Ret (<[i := v]> l).
Proof. intros. unfold set_idx. by rewrite decide_True by lia. Qed.

Lemma copy_at_ok l off src :
  off + length src ≤ length l → copy_at l off src = Ret (splice l off src).
Proof. intros. unfold copy_at. by rewrite decide_True by lia. Qed.

Lemma length_splice l off src :
  off + length src ≤ length l → length (splice l off src) = length l.
Proof. intros. unfold splice. len. Qed.

(** Writing right behind an already written prefix extends the prefix: the
    lemma every encoder of the protocol is proved with. *)
Lemma splice_app w rest src :
  splice (w ++ rest) (length w) src = (w ++ src) ++ drop (length src) rest.
Proof.
  unfold splice. rewrite take_app_length, drop_app_ge by lia.
  rewrite <- app_assoc. do 3 f_equal. lia.
Qed.

Lemma splice_0 l src : splice l 0 src = src ++ drop (length src) l.
Proof. reflexivity. Qed.

Lemma copy_at_app w rest src off :
  off = length w → length src ≤ length rest →
  copy_at (w ++ rest) off src = Ret ((w ++ src) ++ drop (length src) rest).
Proof. intros -> ?. rewrite copy_at_ok by len. by rewrite splice_app. Qed.

Lemma copy_at_0 l src :
  length src ≤ length l → copy_at l 0 src = Ret (src ++ drop (length src) l).
Proof. intros. by rewrite copy_at_ok by lia. Qed.

Lemma set_idx_app w rest x off :
  off = length w → 1 ≤ length rest →
  set_idx (w ++ rest) off x = Ret ((w ++ [x]) ++ drop 1 rest).
Proof.
  intros -> ?. rewrite set_idx_ok by len.
  destruct rest as [|y rest]; [simpl in *; lia|].
  rewrite insert_app_r_alt, Nat.sub_diag by lia. simpl.
  by rewrite <- app_assoc.
Qed.

(** Slicing the middle, or the end, out of a concatenation. *)
Lemma slice_app l1 l2 l3 i j :
  i = length l1 → j = i + length l2 → slice (l1 ++ l2 ++ l3) i j = Ret l2.
Proof.
  intros -> ->. rewrite slice_ok by len. f_equal.
  rewrite drop_app_length, take_app_length'; [done|lia].
Qed.

Lemma slice_app_end l1 l2 i j :
  i = length l1 → j = i + length l2 → slice (l1 ++ l2) i j = Ret l2.
Proof. intros. rewrite <- (slice_app l1 l2 [] i j) by done. by rewrite app_nil_r. Qed.

Lemma usub_ok a b : b ≤ a → usub a b = Ret (a - b).
Proof. intros. unfold usub. by rewrite decide_True. Qed.

Lemma take_app_le' l l' n : n ≤ length l → take n (l ++ l') = take n l.
Proof. intros. rewrite take_app. replace (n - length l) with 0 by lia. by rewrite take_0, app_nil_r. Qed.
End exec_lemmas.

#[export] Hint Rewrite @ebind_Ret : exec.
#[export] Hint Rewrite @slice_ok @copy_at_ok @set_idx_ok usub_ok using len : exec.

(** Executes checked accesses whose bounds [len] can prove. *)
Ltac exec_step := repeat (progress (autorewrite with exec; cbn beta iota)).

(** ** Little-endian lemmas *)

Lemma length_le_bytes n z : length (le_bytes n z) = n.
Proof. revert z; induction n; simpl; auto. Qed.
#[export] Hint Rewrite length_le_bytes : len.

Lemma le_bytes_ok n z : bytes_ok (le_bytes n z).
Proof.
  revert z; induction n as [|n IH]; intros z; simpl; constructor; [|apply IH].
  unfold is_u. apply Z.mod_pos_bound. lia.
Qed.
#[export] Hint Resolve le_bytes_ok : words.

Lemma le_val_le_bytes n z : le_val (le_bytes n z) = (z mod 256 ^ Z.of_nat n)%Z.
Proof.
  revert z; induction n as [|n IH]; intros z; simpl le_bytes; simpl le_val.
  { by rewrite Z.mod_1_r. }
  rewrite IH, Nat2Z.inj_succ, Z.pow_succ_r by lia.
  rewrite Z.rem_mul_r by (try apply Z.pow_nonzero; lia). lia.
Qed.

Lemma le_val_bound l : bytes_ok l → (0 <= le_val l < 256 ^ Z.of_nat (length l))%Z.
Proof.
  induction 1 as [|b l Hb _ IH]; cbn [le_val length]; [lia|].
  unfold is_u in Hb. rewrite Nat2Z.inj_succ, Z.pow_succ_r by lia. nia.
Qed.

Lemma le_bytes_le_val l : bytes_ok l → le_bytes (length l) (le_val l) = l.
Proof.
  induction 1 as [|b l Hb _ IH]; simpl; [done|]. unfold is_u in Hb.
  replace ((b + 256 * le_val l) mod 256)%Z with b.
  2:{ rewrite Z.mul_comm, Z_mod_plus_full. symmetry. apply Z.mod_small. lia. }
  replace ((b + 256 * le_val l) / 256)%Z with (le_val l); [by rewrite IH|].
  rewrite Z.mul_comm, Z_div_plus_full by lia. rewrite Z.div_small by lia. lia.
Qed.

(** [from_le_bytes (to_le_bytes x) = x] at a word width of [8 * n] bits. *)
Lemma le_roundtrip n z : is_u (8 * Z.of_nat n) z → le_val (le_bytes n z) = z.
Proof.
  unfold is_u. rewrite le_val_le_bytes. intros H.
  rewrite Z.mod_small; [done|]. by rewrite (Z.pow_mul_r 2 8) in H by lia.
Qed.

Lemma bytes_ok_app l1 l2 : bytes_ok (l1 ++ l2) ↔ bytes_ok l1 ∧ bytes_ok l2.
Proof. apply Forall_app. Qed.

Lemma bytes_ok_take n l : bytes_ok l → bytes_ok (take n l).
Proof. apply Forall_take. Qed.

Lemma bytes_ok_drop n l : bytes_ok l → bytes_ok (drop n l).
Proof. apply Forall_drop. Qed.
#[export] Hint Resolve bytes_ok_take bytes_ok_drop : words.

Lemma wrap_small w x : is_u w x → wrap w x = x.
Proof. apply Z.mod_small. Qed.

Lemma wrap_is_u w x : (0 <= w)%Z → is_u w (wrap w x).
Proof. intros. apply Z.mod_pos_bound. by apply Z.pow_pos_nonneg. Qed.
