(* ===== verification/Cobs.v ===== *)
(** Consistent overhead byte stuffing, the encoding that the ring writer and the serial
    transport produce byte by byte: what it is, a decoder, and that the decoder inverts
    it. *)

From S2P Require Import Prelude.

Open Scope Z_scope.

(** A group has at most 254 bytes. *)
Definition COBS_GROUP : nat := 254.

(** * Consistent overhead byte stuffing *)

(** The groups that are complete after [data], and the bytes of the next one. *)
Fixpoint cobs_run (pend data : list Z) : list Z * list Z :=
  match data with
  | [] => ([], pend)
  | b :: data =>
      if decide (b = 0) then
        let '(out, rest) := cobs_run [] data in ((Z.of_nat (length pend) + 1) :: pend ++ out, rest)
      else if decide (length pend + 1 = COBS_GROUP)%nat then
        let '(out, rest) := cobs_run [] data in (0xFF :: pend ++ [b] ++ out, rest)
      else cobs_run (pend ++ [b]) data
  end.

Definition cobs (data : list Z) : list Z :=
  let '(out, rest) := cobs_run [] data in out ++ (Z.of_nat (length rest) + 1) :: rest.

(** A decoder: each group is followed by a zero, except for full groups and the last
    one. *)
Fixpoint uncobs_from (fuel : nat) (enc : list Z) : option (list Z) :=
  match fuel, enc with
  | _, [] => Some []
  | O, _ => None
  | S fuel, code :: enc =>
      let n := Z.to_nat (code - 1) in
      if decide (code = 0 ∨ (length enc < n)%nat) then None else
      match drop n enc with
      | [] => Some (take n enc)
      | rest => match uncobs_from fuel rest with
                | Some data => Some (take n enc ++ (if decide (code = 0xFF) then [] else [0]) ++ data)
                | None => None
                end
      end
  end.

Definition uncobs (enc : list Z) : option (list Z) := uncobs_from (length enc) enc.

Lemma cobs_run_app pend d1 d2 :
  cobs_run pend (d1 ++ d2) = ((cobs_run pend d1).1 ++ (cobs_run (cobs_run pend d1).2 d2).1, (cobs_run (cobs_run pend d1).2 d2).2).
Proof.
  revert pend. induction d1 as [|b d1 IH]; intros pend; cbn [cobs_run app fst snd]; [by destruct (cobs_run pend d2)|].
  destruct (decide (b = 0)); [|destruct (decide (length pend + 1 = COBS_GROUP)%nat)]; rewrite IH; [..|done].
  all: destruct (cobs_run [] d1) as [o1 p1]; cbn [fst snd]; destruct (cobs_run p1 d2); cbn [fst snd app]; by rewrite <- !app_assoc.
Qed.

(** The bytes of an unfinished group: not zero, and fewer than a full group. *)
Definition pend_ok (pend : list Z) : Prop := Forall (λ b, is_u 8 b ∧ b ≠ 0) pend ∧ (length pend < COBS_GROUP)%nat.

Lemma pend_nil : pend_ok [].
Proof. split; [constructor|unfold COBS_GROUP; cbn; lia]. Qed.

Lemma pend_snoc pend b : pend_ok pend → is_u 8 b → b ≠ 0 → (length pend + 1 ≠ COBS_GROUP)%nat → pend_ok (pend ++ [b]).
Proof. intros [H1 H2] Hb H0 Hn. split; [apply Forall_app; split; [done|by apply Forall_singleton]|rewrite length_app; cbn; lia]. Qed.

Lemma cobs_run_ok data pend :
  bytes_ok data → pend_ok pend →
  pend_ok (cobs_run pend data).2 ∧ Forall (λ b, is_u 8 b ∧ b ≠ 0) (cobs_run pend data).1.
Proof.
  intros Hd. revert pend. induction Hd as [|b data Hb _ IH]; intros pend Hp; cbn [cobs_run]; [split; [done|constructor]|].
  destruct (IH [] pend_nil) as [I1 I2]. destruct (cobs_run [] data) as [out rest]. cbn [fst snd] in *. destruct Hp as [P1 P2].
  repeat case_decide; cbn [fst snd].
  - split; [done|]. constructor; [unfold COBS_GROUP, is_u in *; lia|]. by apply Forall_app.
  - split; [done|]. constructor; [unfold is_u; lia|]. apply Forall_app. split; [done|]. by constructor.
  - by apply IH, pend_snoc.
Qed.

(** One group, then the rest. *)
Lemma uncobs_group fuel code group rest data :
  code = Z.of_nat (length group) + 1 → rest ≠ [] → uncobs_from fuel rest = Some data →
  uncobs_from (S fuel) (code :: group ++ rest) = Some (group ++ (if decide (code = 0xFF) then [] else [0]) ++ data).
Proof.
  intros -> Hr Hd. cbn [uncobs_from]. replace (Z.to_nat _) with (length group) by lia.
  rewrite decide_False by (rewrite length_app; lia). rewrite drop_app_length, take_app_length. destruct rest; [done|]. by rewrite Hd.
Qed.

Lemma uncobs_run data pend fuel :
  bytes_ok data → pend_ok pend → let '(out, rest) := cobs_run pend data in
  (length (out ++ (Z.of_nat (length rest) + 1)%Z :: rest) <= fuel)%nat →
  uncobs_from fuel (out ++ (Z.of_nat (length rest) + 1) :: rest) = Some (pend ++ data).
Proof.
  intros Hd. revert pend fuel. induction Hd as [|b data Hb _ IH]; intros pend fuel Hp; cbn [cobs_run].
  { cbn [app]. intros Hf. destruct fuel as [|fuel]; [cbn in Hf; lia|]. cbn [uncobs_from]. replace (Z.to_nat _) with (length pend) by lia.
    rewrite decide_False by lia. by rewrite drop_all, take_ge, app_nil_r by lia. }
  specialize (IH [] (pred fuel) pend_nil) as I1. destruct (cobs_run [] data) as [out rest] eqn:E. destruct Hp as [P1 P2].
  assert (out ++ (Z.of_nat (length rest) + 1) :: rest ≠ []) as Hne by (by destruct out).
  destruct (decide (b = 0)) as [->|Hb0]; [|case_decide as Hfull].
  - cbn [app]. rewrite <- app_assoc. intros Hf. cbn in Hf. destruct fuel as [|fuel]; [lia|]. cbn [pred] in I1.
    rewrite (uncobs_group fuel _ pend _ data); [|done|done|apply I1; rewrite !length_app in *; cbn in *; lia].
    rewrite decide_False by (unfold COBS_GROUP in *; lia). done.
  - rewrite (app_assoc pend). cbn [app]. rewrite <- app_assoc. intros Hf. cbn in Hf. destruct fuel as [|fuel]; [lia|]. cbn [pred] in I1.
    rewrite (uncobs_group fuel _ (pend ++ [b]) _ data); [|rewrite length_app; cbn; unfold COBS_GROUP in *; lia|done|apply I1; rewrite !length_app in *; cbn in *; lia].
    rewrite decide_True by done. cbn [app]. by rewrite <- app_assoc.
  - pose proof (IH (pend ++ [b]) fuel) as I2. destruct (cobs_run (pend ++ [b]) data) as [o2 r2]. intros Hf. rewrite I2; [by rewrite <- app_assoc| |done].
    apply pend_snoc; done.
Qed.

(** Frames contain no zero and decode. *)
Lemma cobs_ok data : bytes_ok data → Forall (λ b, is_u 8 b ∧ b ≠ 0) (cobs data) ∧ uncobs (cobs data) = Some data.
Proof.
  intros Hd. pose proof (cobs_run_ok data [] Hd pend_nil) as [H1 H2]. pose proof (uncobs_run data [] (length (cobs data)) Hd pend_nil) as H3.
  unfold uncobs, cobs in *. destruct (cobs_run [] data) as [out rest]. cbn [fst snd] in *. split; [|by apply H3].
  destruct H1 as [H1 H1l]. apply Forall_app. split; [done|]. constructor; [|done]. unfold COBS_GROUP, is_u in *. lia.
Qed.
