(* ===== verification/UsbHeader.v ===== *)
(** The frame header of the host protocol: [shared/usb-proto/src/header.rs],
    [frame.rs] ([FrameType]) and [error.rs] ([HeaderError]).

    Every frame starts with five bytes, [frame_type][seq LE][length LE]. The
    codec is modelled with its buffer writes and its error values; the theorems
    say that it is a bijection between well-formed headers and the five-byte
    strings that start with a known type. *)

From S2P Require Import Prelude.

Definition HEADER_SIZE : nat := 5.

Inductive FrameType := IpcRequestT | IpcReplyT | SimpleT.

#[export] Instance FrameType_eq_dec : EqDecision FrameType.
Proof. solve_decision. Defined.

Inductive HeaderError := TooShort | BadFrameType (b : Z).

(** [self.frame_type as u8]: the discriminants of the enum. *)
Definition frame_type_as_u8 (t : FrameType) : Z :=
  match t with IpcRequestT => 0x01 | IpcReplyT => 0x02 | SimpleT => 0x03 end.

(** [FrameType::from_u8] *)
Definition frame_type_from_u8 (v : Z) : result FrameType HeaderError :=
  match v with
  | 0x01%Z => Ok IpcRequestT
  | 0x02%Z => Ok IpcReplyT
  | 0x03%Z => Ok SimpleT
  | other => Err (BadFrameType other)
  end.

Record FrameHeader := mkHeader {
  frame_type : FrameType;
  seq : Z;        (* u16 *)
  length16 : Z;   (* u16: number of payload bytes *)
}.

(** The ranges the Rust field types guarantee. *)
Definition header_ok (h : FrameHeader) : Prop :=
  is_u 16 (seq h) ∧ is_u 16 (length16 h).

(** [FrameHeader::frame_size] *)
Definition frame_size (h : FrameHeader) : nat := HEADER_SIZE + Z.to_nat (length16 h).

(** [FrameHeader::encode]: writes into a caller-supplied five-byte buffer. *)
Definition header_encode (h : FrameHeader) (buf : list Z) : exec (list Z) :=
  let! buf := set_idx buf 0 (frame_type_as_u8 (frame_type h)) in
  let! buf := copy_at buf 1 (le_bytes 2 (seq h)) in
  copy_at buf 3 (le_bytes 2 (length16 h)).

(** [FrameHeader::decode] *)
Definition header_decode (buf : list Z) : exec (result FrameHeader HeaderError) :=
  if decide (length buf < HEADER_SIZE) then Ret (Err TooShort) else
  let! b0 := idx buf 0 in
  match frame_type_from_u8 b0 with
  | Err e => Ret (Err e)
  | Ok t =>
      let! b1 := idx buf 1 in
      let! b2 := idx buf 2 in
      let! b3 := idx buf 3 in
      let! b4 := idx buf 4 in
      Ret (Ok (mkHeader t (le_val [b1; b2]) (le_val [b3; b4])))
  end.

(** The bytes of a header on the wire. *)
Definition header_bytes (h : FrameHeader) : list Z :=
  frame_type_as_u8 (frame_type h) :: le_bytes 2 (seq h) ++ le_bytes 2 (length16 h).

(** A zeroed header buffer, as the encoders declare it: [[0u8; HEADER_SIZE]]. *)
Definition hdr0 : list Z := replicate HEADER_SIZE 0%Z.

(** ** Lemmas *)

Lemma length_header_bytes h : length (header_bytes h) = 5.
Proof. reflexivity. Qed.
#[export] Hint Rewrite length_header_bytes : len.

Lemma frame_type_roundtrip t : frame_type_from_u8 (frame_type_as_u8 t) = Ok t.
Proof. by destruct t. Qed.

Lemma frame_type_from_inv v t : frame_type_from_u8 v = Ok t → v = frame_type_as_u8 t.
Proof. unfold frame_type_from_u8. intros. repeat case_match; by simplify_eq. Qed.

Lemma frame_type_as_u8_ok t : is_u 8 (frame_type_as_u8 t).
Proof. destruct t; split; simpl; lia. Qed.

Lemma header_bytes_ok h : bytes_ok (header_bytes h).
Proof.
  constructor; [apply frame_type_as_u8_ok|].
  apply bytes_ok_app. auto with words.
Qed.
#[export] Hint Resolve header_bytes_ok frame_type_as_u8_ok : words.

Lemma header_encode_ok h buf :
  length buf = HEADER_SIZE → header_encode h buf = Ret (header_bytes h).
Proof.
  intros Hl. do 5 (destruct buf as [|? buf]; [discriminate|]).
  destruct buf; [|discriminate]. reflexivity.
Qed.

Lemma header_encode_hdr0 h : header_encode h hdr0 = Ret (header_bytes h).
Proof. by apply header_encode_ok. Qed.

Lemma header_decode_app h rest :
  header_ok h → header_decode (header_bytes h ++ rest) = Ret (Ok h).
Proof.
  intros [Hs Hl]. unfold header_decode, header_bytes. rewrite decide_False by (unfold HEADER_SIZE; simpl; lia).
  assert (∀ z, is_u 16 z → le_val [z mod 256; (z / 256) mod 256]%Z = z) as Hle
    by (intros z Hz; exact (le_roundtrip 2 z Hz)).
  cbn -[le_val Z.modulo Z.div frame_type_from_u8 frame_type_as_u8].
  rewrite frame_type_roundtrip, !Hle by done. by destruct h.
Qed.

Lemma header_decode_short buf :
  length buf < HEADER_SIZE → header_decode buf = Ret (Err TooShort).
Proof. intros. unfold header_decode. by rewrite decide_True. Qed.

(** A successful decode accounts for the first five bytes exactly. *)
Lemma header_decode_inv buf h :
  bytes_ok buf → header_decode buf = Ret (Ok h) →
  header_ok h ∧ buf = header_bytes h ++ drop HEADER_SIZE buf.
Proof.
  unfold header_decode. intros Hb H. case_decide as Hlen; [discriminate|].
  unfold HEADER_SIZE in Hlen.
  do 5 (destruct buf as [|? buf]; [simpl in Hlen; lia|]).
  cbn -[le_val frame_type_from_u8] in H.
  destruct (frame_type_from_u8 z) as [t|] eqn:Ht; [|discriminate].
  injection H as <-. apply frame_type_from_inv in Ht as ->.
  apply (bytes_ok_app [_] _) in Hb as [_ Hb].
  apply (bytes_ok_app [_; _] _) in Hb as [H1 Hb].
  apply (bytes_ok_app [_; _] _) in Hb as [H2 _].
  split; [split; by apply (le_val_bound [_; _])|].
  unfold header_bytes. cbn [frame_type seq length16].
  apply le_bytes_le_val in H1, H2. cbn [length le_val] in H1, H2. by rewrite H1, H2.
Qed.

(** [decode] never panics, whatever the input. *)
Lemma header_decode_total buf : ∃ r, header_decode buf = Ret r.
Proof.
  unfold header_decode. case_decide as Hlen; [eauto|]. unfold HEADER_SIZE in Hlen.
  do 5 (destruct buf as [|? buf]; [simpl in Hlen; lia|]). simpl.
  destruct (frame_type_from_u8 z); eauto.
Qed.

(** ** Properties *)

(** The header codec is a bijection on well-formed headers: decoding what
    [encode] wrote into any five-byte buffer gives back the header, whatever
    bytes follow it; and every buffer that decodes starts with exactly the
    encoding of the header it decodes to. *)
Theorem header_codec_bijective (h : FrameHeader) (buf rest : list Z) :
  header_ok h → length buf = HEADER_SIZE →
  (let! w := header_encode h buf in header_decode (w ++ rest)) = Ret (Ok h) ∧
  (∀ l, bytes_ok l → header_decode l = Ret (Ok h) →
        header_encode h buf = Ret (take HEADER_SIZE l)).
Proof.
  intros Hh Hb. rewrite header_encode_ok by done. simpl. split.
  - by apply header_decode_app.
  - intros l Hl Hd. destruct (header_decode_inv l h Hl Hd) as [_ E].
    rewrite E. rewrite take_app_le' by done. by rewrite take_ge.
Qed.

Lemma header_codec_bijective_witness :
  (let! w := header_encode (mkHeader SimpleT 7 300) hdr0 in header_decode (w ++ [9%Z]))
    = Ret (Ok (mkHeader SimpleT 7 300)).
Proof.
  refine (proj1 (header_codec_bijective (mkHeader SimpleT 7 300) hdr0 [9%Z] _ _)).
  - split; split; simpl; lia.
  - reflexivity.
Defined.
