(* ===== verification/UsbMessages.v ===== *)
(** Typed messages and simple frames: [shared/usb-proto/src/messages/*.rs] and
    [simple.rs].

    Rust's trait [Message] is the class [Message]; what an implementation owes
    its clients is the class [MessageSpec]. The simple-frame encoder and parser
    are proved correct once, against the interface; the three message types of
    the protocol ([TunnelError], [Awake], [MoshiMoshi]) discharge it. *)

From S2P Require Import Prelude UsbHeader.

(** * The [Message] trait *)

Class Message (M : Type) := {
  OPCODE : Z;
  from_payload : list Z → exec (option M);
  (** The result of [to_payload] and the buffer it leaves behind. *)
  to_payload : M → list Z → exec (option nat * list Z);
}.
Arguments OPCODE M {_}.

(** The contract of a message type: [payload_bytes] is what [to_payload] writes
    at the start of the buffer when it fits (and nothing is written otherwise),
    [from_payload] reads it back and tolerates trailing bytes, and neither
    panics. *)
Class MessageSpec (M : Type) `{Message M} := {
  msg_ok : M → Prop;
  payload_bytes : M → list Z;
  opcode_u8 : is_u 8 (OPCODE M);
  payload_bytes_ok m : msg_ok m → bytes_ok (payload_bytes m);
  payload_small m : msg_ok m → length (payload_bytes m) < 1024;
  to_payload_spec m buf : msg_ok m →
    to_payload m buf =
      Ret (if decide (length (payload_bytes m) ≤ length buf)
           then (Some (length (payload_bytes m)),
                 payload_bytes m ++ drop (length (payload_bytes m)) buf)
           else (None, buf));
  from_payload_spec m rest : msg_ok m →
    from_payload (payload_bytes m ++ rest) = Ret (Some m);
  from_payload_total p : ∃ r, from_payload p = Ret (A := option M) r;
}.

(** * Simple frames *)

Record SimpleFrameView := mkSimple { opcode : Z; simple_payload : list Z }.

(** [SimpleFrameView::from_bytes] *)
Definition simple_from_bytes (payload : list Z) : option SimpleFrameView :=
  match payload with
  | [] => None
  | b :: rest => Some (mkSimple b rest)
  end.

(** [SimpleFrameView::parse] *)
Definition simple_parse (M : Type) `{Message M} (v : SimpleFrameView) : exec (option M) :=
  if decide (opcode v ≠ OPCODE M) then Ret None else from_payload (simple_payload v).

Definition U16_MAX : Z := 65535.

(** [encode_simple] *)
Definition encode_simple `{Message M} (msg : M) (buf : list Z) (sq : Z)
  : exec (option nat * list Z) :=
  if decide (length buf < HEADER_SIZE + 1) then Ret (None, buf) else
  let payload_start := HEADER_SIZE + 1 in
  let! r := to_payload msg (drop payload_start buf) in
  let buf := take payload_start buf ++ snd r in
  match fst r with
  | None => Ret (None, buf)
  | Some msg_len =>
      let payload_len := 1 + msg_len in
      if decide (U16_MAX < Z.of_nat payload_len)%Z then Ret (None, buf) else
      let header := mkHeader SimpleT sq (Z.of_nat payload_len) in
      let! hdr := header_encode header hdr0 in
      let! buf := copy_at buf 0 hdr in
      let! buf := set_idx buf HEADER_SIZE (OPCODE M) in
      Ret (Some (HEADER_SIZE + payload_len), buf)
  end.

(** [encode_simple_raw] *)
Definition encode_simple_raw (op : Z) (payload buf : list Z) (sq : Z)
  : exec (option nat * list Z) :=
  let payload_len := 1 + length payload in
  if decide (U16_MAX < Z.of_nat payload_len)%Z then Ret (None, buf) else
  let total := HEADER_SIZE + payload_len in
  if decide (length buf < total) then Ret (None, buf) else
  let header := mkHeader SimpleT sq (Z.of_nat payload_len) in
  let! hdr := header_encode header hdr0 in
  let! buf := copy_at buf 0 hdr in
  let! buf := set_idx buf HEADER_SIZE op in
  let! buf := copy_at buf (HEADER_SIZE + 1) payload in
  Ret (Some total, buf).

(** The wire image of a frame with the given type, sequence number and payload. *)
Definition frame_wire (t : FrameType) (sq : Z) (payload : list Z) : list Z :=
  header_bytes (mkHeader t sq (Z.of_nat (length payload))) ++ payload.

Lemma length_frame_wire t sq p : length (frame_wire t sq p) = 5 + length p.
Proof. unfold frame_wire. len. Qed.
#[export] Hint Rewrite length_frame_wire : len.

Lemma frame_wire_ok t sq p : bytes_ok p → bytes_ok (frame_wire t sq p).
Proof. intros. apply bytes_ok_app. auto with words. Qed.
#[export] Hint Resolve frame_wire_ok : words.

(** * The messages of the protocol *)

(** ** [messages/tunnel_error.rs] *)

Inductive TunnelErrorCode :=
  | TaskDead | LeasePoolFull | BadRequest | NoHostForwarding | Busy
  | RequestCorrupted | ReplyCorrupted | Internal.

#[export] Instance TunnelErrorCode_eq_dec : EqDecision TunnelErrorCode.
Proof. solve_decision. Defined.

Definition OP_TUNNEL_ERROR : Z := 0x01.

(** [code as u8] *)
Definition tunnel_code_as_u8 (c : TunnelErrorCode) : Z :=
  match c with
  | TaskDead => 0x01 | LeasePoolFull => 0x02 | BadRequest => 0x03
  | NoHostForwarding => 0x04 | Busy => 0x05 | RequestCorrupted => 0x06
  | ReplyCorrupted => 0x07 | Internal => 0xFF
  end.

(** [TunnelErrorCode::from_byte] *)
Definition tunnel_code_from_byte (v : Z) : TunnelErrorCode :=
  match v with
  | 0x01%Z => TaskDead
  | 0x02%Z => LeasePoolFull
  | 0x03%Z => BadRequest
  | 0x04%Z => NoHostForwarding
  | 0x05%Z => Busy
  | 0x06%Z => RequestCorrupted
  | 0x07%Z => ReplyCorrupted
  | _ => Internal
  end.

Record TunnelError := mkTunnelError { code : TunnelErrorCode }.

Definition tunnel_from_payload (payload : list Z) : exec (option TunnelError) :=
  match payload with
  | [] => Ret None
  | b :: _ => Ret (Some (mkTunnelError (tunnel_code_from_byte b)))
  end.

Definition tunnel_to_payload (m : TunnelError) (buf : list Z) : exec (option nat * list Z) :=
  match buf with
  | [] => Ret (None, buf)
  | _ => let! buf := set_idx buf 0 (tunnel_code_as_u8 (code m)) in Ret (Some 1, buf)
  end.

#[export] Instance TunnelError_Message : Message TunnelError := {|
  OPCODE := OP_TUNNEL_ERROR;
  from_payload := tunnel_from_payload;
  to_payload := tunnel_to_payload;
|}.

(** ** [messages/awake.rs] *)

Definition OP_AWAKE : Z := 0x02.
Definition AWAKE_FIELD_SIZE : nat := 16.
Definition AWAKE_LEGACY_SIZE : nat := AWAKE_FIELD_SIZE * 2.
Definition AWAKE_PAYLOAD_SIZE : nat := AWAKE_FIELD_SIZE * 3.

(** Each field is a [[u8; 16]]. *)
Record Awake := mkAwake {
  uid : list Z;
  firmware_id : list Z;
  session_id : list Z;
}.

Definition awake_from_payload (payload : list Z) : exec (option Awake) :=
  if decide (length payload < AWAKE_LEGACY_SIZE) then Ret None else
  let zero := replicate AWAKE_FIELD_SIZE 0%Z in
  let! f1 := slice payload 0 AWAKE_FIELD_SIZE in
  let! uid := copy_at zero 0 f1 in
  let! f2 := slice payload AWAKE_FIELD_SIZE AWAKE_LEGACY_SIZE in
  let! fw := copy_at zero 0 f2 in
  let! sess :=
    if decide (AWAKE_PAYLOAD_SIZE ≤ length payload)
    then let! f3 := slice payload AWAKE_LEGACY_SIZE AWAKE_PAYLOAD_SIZE in copy_at zero 0 f3
    else Ret zero in
  Ret (Some (mkAwake uid fw sess)).

Definition awake_to_payload (m : Awake) (buf : list Z) : exec (option nat * list Z) :=
  if decide (length buf < AWAKE_PAYLOAD_SIZE) then Ret (None, buf) else
  let! buf := copy_at buf 0 (uid m) in
  let! buf := copy_at buf AWAKE_FIELD_SIZE (firmware_id m) in
  let! buf := copy_at buf AWAKE_LEGACY_SIZE (session_id m) in
  Ret (Some AWAKE_PAYLOAD_SIZE, buf).

#[export] Instance Awake_Message : Message Awake := {|
  OPCODE := OP_AWAKE;
  from_payload := awake_from_payload;
  to_payload := awake_to_payload;
|}.

(** ** [messages/moshi_moshi.rs] *)

Definition OP_MOSHI_MOSHI : Z := 0x03.

Inductive MoshiMoshi := moshi_moshi.

#[export] Instance MoshiMoshi_Message : Message MoshiMoshi := {|
  OPCODE := OP_MOSHI_MOSHI;
  from_payload := λ _, Ret (Some moshi_moshi);
  to_payload := λ _ buf, Ret (Some 0, buf);
|}.

(** * The messages meet the contract *)

Lemma tunnel_code_roundtrip c : tunnel_code_from_byte (tunnel_code_as_u8 c) = c.
Proof. by destruct c. Qed.

#[export, refine] Instance TunnelError_MessageSpec : MessageSpec TunnelError := {|
  msg_ok := λ _, True;
  payload_bytes := λ m, [tunnel_code_as_u8 (code m)];
|}.
Proof.
  - const_u.
  - intros [c] _. constructor; [destruct c; const_u|constructor].
  - simpl. lia.
  - intros m [|b buf] _; [done|]. rewrite decide_True by (simpl; lia). done.
  - intros [c] rest _. simpl. by rewrite tunnel_code_roundtrip.
  - intros [|b p]; simpl; eauto.
Defined.

(** What the [[u8; 16]] field types of [Awake] guarantee. *)
Definition awake_ok (m : Awake) : Prop :=
  (length (uid m) = AWAKE_FIELD_SIZE ∧ bytes_ok (uid m)) ∧
  (length (firmware_id m) = AWAKE_FIELD_SIZE ∧ bytes_ok (firmware_id m)) ∧
  (length (session_id m) = AWAKE_FIELD_SIZE ∧ bytes_ok (session_id m)).

Definition awake_payload (m : Awake) : list Z := uid m ++ firmware_id m ++ session_id m.

Lemma length_awake_payload m : awake_ok m → length (awake_payload m) = AWAKE_PAYLOAD_SIZE.
Proof.
  intros ((Hu & _) & (Hf & _) & (Hs & _)). unfold awake_payload.
  rewrite !length_app, Hu, Hf, Hs. reflexivity.
Qed.

Lemma awake_to_payload_spec m buf :
  awake_ok m →
  awake_to_payload m buf =
    Ret (if decide (length (awake_payload m) ≤ length buf)
         then (Some (length (awake_payload m)),
               awake_payload m ++ drop (length (awake_payload m)) buf)
         else (None, buf)).
Proof.
  intros Hm. rewrite (length_awake_payload m Hm). destruct Hm as ((Hu & _) & (Hf & _) & (Hs & _)).
  unfold awake_to_payload, awake_payload. case_decide; case_decide; try lia; [done|].
  change AWAKE_PAYLOAD_SIZE with 48 in *. change AWAKE_FIELD_SIZE with 16 in *.
  change AWAKE_LEGACY_SIZE with 32.
  rewrite copy_at_0 by len. simpl.
  rewrite (copy_at_app (uid m)) by len. simpl.
  rewrite copy_at_app by len. simpl.
  rewrite Hu, Hf, Hs, !drop_drop. by rewrite <- !app_assoc.
Qed.

Lemma awake_from_payload_spec m rest :
  awake_ok m → awake_from_payload (awake_payload m ++ rest) = Ret (Some m).
Proof.
  intros Hm. pose proof (length_awake_payload m Hm) as Hl.
  destruct Hm as ((Hu & _) & (Hf & _) & (Hs & _)).
  unfold awake_from_payload. change AWAKE_PAYLOAD_SIZE with 48 in *.
  change AWAKE_FIELD_SIZE with 16 in *. change AWAKE_LEGACY_SIZE with 32.
  rewrite decide_False, decide_True by len.
  rewrite !slice_ok by len. cbn [ebind Nat.sub].
  rewrite !copy_at_ok by len. cbn [ebind].
  unfold awake_payload. rewrite !splice_0, <- !app_assoc.
  rewrite (drop_app_length' (uid m) _ 16) by lia.
  change 32 with (16 + 16). rewrite <- drop_drop, (drop_app_length' (uid m) _ 16) by lia.
  rewrite (drop_app_length' (firmware_id m) _ 16) by lia. rewrite drop_0, !take_app_length' by lia.
  rewrite Hu, Hf, Hs. rewrite !drop_ge by len. rewrite !app_nil_r. by destruct m.
Qed.

Lemma awake_from_payload_total p : ∃ r, awake_from_payload p = Ret r.
Proof.
  unfold awake_from_payload. case_decide; [eauto|].
  change AWAKE_LEGACY_SIZE with 32 in *. change AWAKE_FIELD_SIZE with 16.
  change AWAKE_PAYLOAD_SIZE with 48.
  rewrite !slice_ok by len. cbn [ebind]. rewrite !copy_at_ok by len. cbn [ebind].
  case_decide; [|eauto].
  rewrite !slice_ok by len. cbn [ebind]. rewrite !copy_at_ok by len. simpl. eauto.
Qed.

#[export, refine] Instance Awake_MessageSpec : MessageSpec Awake := {|
  msg_ok := awake_ok;
  payload_bytes := awake_payload;
|}.
Proof.
  - const_u.
  - intros m ((_ & Hu) & (_ & Hf) & (_ & Hs)). unfold awake_payload. by rewrite !bytes_ok_app.
  - intros m Hm. rewrite length_awake_payload by done. by vm_compute; lia.
  - intros m buf Hm. by apply awake_to_payload_spec.
  - intros m rest Hm. by apply awake_from_payload_spec.
  - apply awake_from_payload_total.
Defined.

#[export, refine] Instance MoshiMoshi_MessageSpec : MessageSpec MoshiMoshi := {|
  msg_ok := λ _, True;
  payload_bytes := λ _, [];
|}.
Proof.
  - const_u.
  - constructor.
  - simpl. lia.
  - intros m buf _. rewrite decide_True by (simpl; lia). done.
  - intros [] rest _. done.
  - simpl. eauto.
Defined.

(** * Simple frames over the interface *)

(** The bytes a frame with header [h] carries at the start of [buf]. *)
Definition frame_payload (h : FrameHeader) (buf : list Z) : list Z :=
  take (Z.to_nat (length16 h)) (drop HEADER_SIZE buf).

Lemma frame_wire_header_ok t sq (p : list Z) :
  is_u 16 sq → is_u 16 (Z.of_nat (length p)) → header_ok (mkHeader t sq (Z.of_nat (length p))).
Proof. by split. Qed.

(** Decoding the header of a wire image, and cutting its payload out again. *)
Lemma frame_wire_decode t sq p rest :
  is_u 16 sq → is_u 16 (Z.of_nat (length p)) →
  let h := mkHeader t sq (Z.of_nat (length p)) in
  header_decode (frame_wire t sq p ++ rest) = Ret (Ok h) ∧
  frame_size h = length (frame_wire t sq p) ∧
  frame_payload h (frame_wire t sq p ++ rest) = p.
Proof.
  intros Hs Hp h. unfold frame_wire. rewrite <- app_assoc. split; [|split].
  - by apply header_decode_app, frame_wire_header_ok.
  - unfold frame_size, HEADER_SIZE. subst h. simpl length16. rewrite Nat2Z.id. len.
  - unfold frame_payload. subst h. simpl length16. rewrite Nat2Z.id.
    rewrite drop_app_length' by done. by rewrite take_app_length.
Qed.

Section simple_frames.
Context `{MessageSpec M}.
Implicit Types (m : M) (buf : list Z).

Definition simple_len m : nat := HEADER_SIZE + 1 + length (payload_bytes m).

Lemma encode_simple_ok m buf sq :
  msg_ok m →
  encode_simple m buf sq =
    Ret (if decide (simple_len m ≤ length buf)
         then (Some (simple_len m),
               frame_wire SimpleT sq (OPCODE M :: payload_bytes m) ++ drop (simple_len m) buf)
         else (None, buf)).
Proof.
  intros Hm. pose proof (payload_small m Hm). unfold encode_simple, simple_len.
  change HEADER_SIZE with 5. case_decide as Hb; [by rewrite decide_False by lia|].
  rewrite (to_payload_spec m _ Hm), length_drop. cbn [ebind].
  case_decide as Hf; case_decide; try lia; cbn [fst snd].
  2:{ by rewrite take_drop. }
  rewrite decide_False by (unfold U16_MAX; lia).
  rewrite header_encode_hdr0. cbn [ebind].
  rewrite copy_at_0 by len. cbn [ebind].
  rewrite set_idx_app by len. cbn [ebind].
  rewrite length_header_bytes.
  rewrite !drop_drop, drop_app_ge by len.
  replace (5 + 1 - length (take (5 + 1) buf)) with 0 by len. rewrite drop_0.
  unfold frame_wire. by rewrite <- !app_assoc.
Qed.

(** The parser accepts what the encoder wrote, under its own opcode only. *)
Lemma simple_parse_own m rest :
  msg_ok m → simple_parse M (mkSimple (OPCODE M) (payload_bytes m ++ rest)) = Ret (Some m).
Proof.
  intros Hm. unfold simple_parse. cbn. rewrite decide_False by tauto.
  by apply from_payload_spec.
Qed.

Lemma simple_parse_other v : opcode v ≠ OPCODE M → simple_parse M v = Ret None.
Proof. intros. unfold simple_parse. by rewrite decide_True. Qed.

(** Simple frames round-trip for every message type that meets the
    contract. With room in the buffer, [encode_simple] writes a frame in front
    of the untouched rest; its header decodes to a simple frame of the given
    sequence number and of exactly that size, and its payload parses to the
    message under its own type and to nothing under a type with another
    opcode. Without room it reports [None] and leaves the buffer as it was. *)
Theorem simple_frame_roundtrip m buf sq :
  msg_ok m → is_u 16 sq →
  (length buf < simple_len m → encode_simple m buf sq = Ret (None, buf)) ∧
  (simple_len m ≤ length buf →
   ∃ buf' h v,
     encode_simple m buf sq = Ret (Some (simple_len m), buf') ∧
     drop (simple_len m) buf' = drop (simple_len m) buf ∧
     header_decode buf' = Ret (Ok h) ∧
     frame_type h = SimpleT ∧ seq h = sq ∧ frame_size h = simple_len m ∧
     simple_from_bytes (frame_payload h buf') = Some v ∧
     simple_parse M v = Ret (Some m) ∧
     (∀ M' `(Message M'), OPCODE M' ≠ OPCODE M → simple_parse M' v = Ret None)).
Proof.
  intros Hm Hs. pose proof (payload_small m Hm). rewrite encode_simple_ok by done.
  split; intros Hb; [by rewrite decide_False by lia|]. rewrite decide_True by done.
  destruct (frame_wire_decode SimpleT sq (OPCODE M :: payload_bytes m)
              (drop (simple_len m) buf)) as (Hd & Hz & Hp); [done|unfold is_u; simpl length; lia|].
  eexists _, _, (mkSimple (OPCODE M) (payload_bytes m ++ [])).
  rewrite Hd, Hp, Hz. repeat split.
  - rewrite drop_app_length'; [done|]. unfold simple_len, HEADER_SIZE. len.
  - by rewrite app_nil_r.
  - by apply simple_parse_own.
  - intros M' HM' Hne. unfold simple_parse. by rewrite decide_True by (simpl; congruence).
Qed.
End simple_frames.

Lemma simple_frame_roundtrip_witness :
  ∃ buf' h v,
    encode_simple (mkTunnelError Busy) (replicate 16 0%Z) 0xFFFF = Ret (Some 7, buf') ∧
    drop 7 buf' = replicate 9 0%Z ∧
    header_decode buf' = Ret (Ok h) ∧
    frame_type h = SimpleT ∧ seq h = 0xFFFF%Z ∧ frame_size h = 7 ∧
    simple_from_bytes (frame_payload h buf') = Some v ∧
    simple_parse TunnelError v = Ret (Some (mkTunnelError Busy)) ∧
    (∀ M' `(Message M'), OPCODE M' ≠ OP_TUNNEL_ERROR → simple_parse M' v = Ret None).
Proof.
  refine (proj2 (simple_frame_roundtrip (mkTunnelError Busy) (replicate 16 0%Z) 0xFFFF _ _) _).
  - exact I.
  - const_u.
  - vm_compute. lia.
Defined.
