(* ===== verification/UsbIpc.v ===== *)
(** IPC requests and replies on the wire: [shared/usb-proto/src/ipc_request.rs]
    and [ipc_reply.rs].

    A request carries packed lease descriptors, the arguments and the data of
    the leases the server reads; a reply carries the return code, the return
    value and the data written back. The zero-copy views parse untrusted bytes,
    so their theorems cover arbitrary input (no panic, no access outside the
    payload) besides the round trips. *)

From S2P Require Import Prelude UsbHeader UsbMessages.

(** * Leases *)

Definition MAX_ARGS : nat := 256.
Definition LEASE_DESCRIPTOR_SIZE : nat := 2.
Definition MAX_LEASE_LENGTH : Z := (Z.shiftl 1 14 - 1)%Z.
Definition REQ_FIXED : nat := 6.

Inductive LeaseKind := LRead | LWrite | LReadWrite.

#[export] Instance LeaseKind_eq_dec : EqDecision LeaseKind.
Proof. solve_decision. Defined.

(** [kind as u16] *)
Definition lease_kind_bits (k : LeaseKind) : Z :=
  match k with LRead => 0 | LWrite => 1 | LReadWrite => 2 end.

(** [LeaseKind::from_bits] *)
Definition lease_kind_from_bits (v : Z) : option LeaseKind :=
  match v with
  | 0%Z => Some LRead
  | 1%Z => Some LWrite
  | 2%Z => Some LReadWrite
  | _ => None
  end.

Definition has_request_data (k : LeaseKind) : bool :=
  match k with LRead | LReadWrite => true | LWrite => false end.

Definition has_reply_data (k : LeaseKind) : bool :=
  match k with LWrite | LReadWrite => true | LRead => false end.

Record LeaseDescriptor := mkLease { lkind : LeaseKind; llength : Z (* u16 *) }.

(** [LeaseDescriptor::from_wire] *)
Definition lease_from_wire (wire : Z) : option LeaseDescriptor :=
  let kind_bits := wrap 8 (Z.shiftr wire 14) in
  let len := Z.land wire 0x3FFF in
  match lease_kind_from_bits kind_bits with
  | Some k => Some (mkLease k len)
  | None => None
  end.

(** [LeaseDescriptor::to_wire] *)
Definition lease_to_wire (d : LeaseDescriptor) : option Z :=
  if (MAX_LEASE_LENGTH <? llength d)%Z then None
  else Some (Z.lor (Z.shiftl (lease_kind_bits (lkind d)) 14) (llength d)).

(** * Requests: the zero-copy view *)

Record IpcRequestView := mkReqView {
  rv_task_id : Z;
  rv_resource_kind : Z;
  rv_method : Z;
  rv_lease_count : nat;
  rv_descriptors : list Z;
  rv_args : list Z;
  rv_lease_data : list Z;
}.

(** [u16::from_le_bytes([descriptors[off], descriptors[off + 1]])] at the offset
    of descriptor [i]. *)
Definition wire_at (descriptors : list Z) (i : nat) : exec Z :=
  let off := i * LEASE_DESCRIPTOR_SIZE in
  let! b0 := idx descriptors off in
  let! b1 := idx descriptors (off + 1) in
  Ret (le_val [b0; b1]).

(** The validation loop of [from_bytes]: [n] descriptors are left, starting at
    index [i]; [acc] is [expected_lease_data] so far. *)
Fixpoint expected_lease_data (descriptors : list Z) (n i acc : nat) : exec (option nat) :=
  match n with
  | O => Ret (Some acc)
  | S n' =>
      let! wire := wire_at descriptors i in
      match lease_from_wire wire with
      | None => Ret None
      | Some desc =>
          expected_lease_data descriptors n' (S i)
            (if has_request_data (lkind desc) then acc + Z.to_nat (llength desc) else acc)
      end
  end.

(** [IpcRequestView::from_bytes] *)
Definition request_from_bytes (payload : list Z) : exec (option IpcRequestView) :=
  if decide (length payload < REQ_FIXED) then Ret None else
  let! b0 := idx payload 0 in
  let! b1 := idx payload 1 in
  let! resource_kind := idx payload 2 in
  let! method := idx payload 3 in
  let! count := idx payload 4 in
  let! alen := idx payload 5 in
  let lease_count := Z.to_nat count in
  let args_len := Z.to_nat alen + 1 in
  let descriptors_start := REQ_FIXED in
  let descriptors_size := lease_count * LEASE_DESCRIPTOR_SIZE in
  let args_start := descriptors_start + descriptors_size in
  if decide (length payload < args_start + args_len) then Ret None else
  let! descriptors := slice payload descriptors_start (descriptors_start + descriptors_size) in
  let! args := slice payload args_start (args_start + args_len) in
  let! lease_data := slice payload (args_start + args_len) (length payload) in
  let! expected := expected_lease_data descriptors lease_count 0 0 in
  match expected with
  | None => Ret None
  | Some expected =>
      if decide (length lease_data < expected) then Ret None else
      Ret (Some (mkReqView (le_val [b0; b1]) resource_kind method lease_count
                   descriptors args lease_data))
  end.

(** [IpcRequestView::lease] *)
Definition view_lease (v : IpcRequestView) (index : nat) : exec (option LeaseDescriptor) :=
  if decide (rv_lease_count v ≤ index) then Ret None else
  let! wire := wire_at (rv_descriptors v) index in
  Ret (lease_from_wire wire).

(** The offset loop of [lease_data]: the [n] leases from [i] on. *)
Fixpoint lease_data_offset (v : IpcRequestView) (n i acc : nat) : exec nat :=
  match n with
  | O => Ret acc
  | S n' =>
      let! prev := view_lease v i in
      let acc := match prev with
                 | Some d => if has_request_data (lkind d) then acc + Z.to_nat (llength d) else acc
                 | None => acc
                 end in
      lease_data_offset v n' (S i) acc
  end.

(** [IpcRequestView::lease_data] *)
Definition view_lease_data (v : IpcRequestView) (index : nat) : exec (option (list Z)) :=
  let! desc := view_lease v index in
  match desc with
  | None => Ret None
  | Some desc =>
      if negb (has_request_data (lkind desc)) then Ret None else
      let! data_offset := lease_data_offset v index 0 0 in
      let stop := data_offset + Z.to_nat (llength desc) in
      if decide (length (rv_lease_data v) < stop) then Ret None else
      let! data := slice (rv_lease_data v) data_offset stop in
      Ret (Some data)
  end.

(** * Requests: the encoder *)

Record IpcRequest := mkRequest {
  rq_task_id : Z;
  rq_resource_kind : Z;
  rq_method : Z;
  rq_args : list Z;
  rq_leases : list LeaseDescriptor;
  rq_lease_data : list (list Z);
}.

(** The validation loop of [encode_into]: the [data_idx] it ends with. *)
Fixpoint validate_leases (leases : list LeaseDescriptor) (data : list (list Z))
    (data_idx : nat) : option nat :=
  match leases with
  | [] => Some data_idx
  | desc :: rest =>
      match lease_to_wire desc with
      | None => None
      | Some _ =>
          if has_request_data (lkind desc) then
            match data !! data_idx with
            | None => None
            | Some s =>
                if decide (length s ≠ Z.to_nat (llength desc)) then None
                else validate_leases rest data (S data_idx)
            end
          else validate_leases rest data data_idx
      end
  end.

(** The descriptor-writing loop; returns the buffer and the next offset. *)
Fixpoint write_descriptors (leases : list LeaseDescriptor) (p : list Z) (offset : nat)
    : exec (list Z * nat) :=
  match leases with
  | [] => Ret (p, offset)
  | desc :: rest =>
      let wire := default 0%Z (lease_to_wire desc) in
      let! p := copy_at p offset (le_bytes 2 wire) in
      write_descriptors rest p (offset + LEASE_DESCRIPTOR_SIZE)
  end.

Fixpoint write_lease_data (data : list (list Z)) (p : list Z) (offset : nat)
    : exec (list Z * nat) :=
  match data with
  | [] => Ret (p, offset)
  | d :: rest =>
      let! p := copy_at p offset d in
      write_lease_data rest p (offset + length d)
  end.

(** The arguments of a request, or the return value of a reply: one zero byte on
    the wire when empty. *)
Definition write_padded (l p : list Z) (offset : nat) : exec (list Z) :=
  if decide (l = []) then set_idx p offset 0%Z else copy_at p offset l.

(** [IpcRequest::encode_into] *)
Definition request_encode_into (r : IpcRequest) (buf : list Z) (sq : Z)
  : exec (option nat * list Z) :=
  if decide (MAX_ARGS < length (rq_args r)) then Ret (None, buf) else
  if decide (255 < length (rq_leases r)) then Ret (None, buf) else
  match validate_leases (rq_leases r) (rq_lease_data r) 0 with
  | None => Ret (None, buf)
  | Some data_idx =>
      if decide (data_idx ≠ length (rq_lease_data r)) then Ret (None, buf) else
      let wire_args_len := Nat.max (length (rq_args r)) 1 in
      let lease_count := length (rq_leases r) in
      let descriptors_size := lease_count * LEASE_DESCRIPTOR_SIZE in
      let lease_data_size := sum_list (length <$> rq_lease_data r) in
      let payload_len := REQ_FIXED + descriptors_size + wire_args_len + lease_data_size in
      if decide (U16_MAX < Z.of_nat payload_len)%Z then Ret (None, buf) else
      let total := HEADER_SIZE + payload_len in
      if decide (length buf < total) then Ret (None, buf) else
      let header := mkHeader IpcRequestT sq (Z.of_nat payload_len) in
      let! hdr := header_encode header hdr0 in
      let! buf := copy_at buf 0 hdr in
      let head := take HEADER_SIZE buf in
      let p := drop HEADER_SIZE buf in
      let! p := copy_at p 0 (le_bytes 2 (rq_task_id r)) in
      let! p := set_idx p 2 (rq_resource_kind r) in
      let! p := set_idx p 3 (rq_method r) in
      let! p := set_idx p 4 (Z.of_nat lease_count) in
      let! p := set_idx p 5 (Z.of_nat (wire_args_len - 1)) in
      let! po := write_descriptors (rq_leases r) p REQ_FIXED in
      let '(p, offset) := po in
      let! p := write_padded (rq_args r) p offset in
      let offset := offset + wire_args_len in
      let! po := write_lease_data (rq_lease_data r) p offset in
      Ret (Some total, head ++ fst po)
  end.

(** * Replies *)

Definition REP_FIXED : nat := 5.

Record IpcReplyView := mkRepView {
  pv_rc : Z;
  pv_return_value : list Z;
  pv_lease_writeback : list Z;
}.

(** [IpcReplyView::from_bytes] *)
Definition reply_from_bytes (payload : list Z) : exec (option IpcReplyView) :=
  if decide (length payload < REP_FIXED) then Ret None else
  let! rcb := slice payload 0 4 in
  let! w := idx payload 4 in
  let reply_len := Z.to_nat w + 1 in
  let return_start := REP_FIXED in
  if decide (length payload < return_start + reply_len) then Ret None else
  let! return_value := slice payload return_start (return_start + reply_len) in
  let! writeback := slice payload (return_start + reply_len) (length payload) in
  Ret (Some (mkRepView (le_val rcb) return_value writeback)).

Record IpcReply := mkReply {
  rp_rc : Z;
  rp_return_value : list Z;
  rp_lease_writeback : list Z;
}.

(** [IpcReply::encode_into] *)
Definition reply_encode_into (r : IpcReply) (buf : list Z) (sq : Z)
  : exec (option nat * list Z) :=
  if decide (256 < length (rp_return_value r)) then Ret (None, buf) else
  let wire_return_len := Nat.max (length (rp_return_value r)) 1 in
  let payload_len := REP_FIXED + wire_return_len + length (rp_lease_writeback r) in
  if decide (U16_MAX < Z.of_nat payload_len)%Z then Ret (None, buf) else
  let total := HEADER_SIZE + payload_len in
  if decide (length buf < total) then Ret (None, buf) else
  let header := mkHeader IpcReplyT sq (Z.of_nat payload_len) in
  let! hdr := header_encode header hdr0 in
  let! buf := copy_at buf 0 hdr in
  let head := take HEADER_SIZE buf in
  let p := drop HEADER_SIZE buf in
  let! p := copy_at p 0 (le_bytes 4 (rp_rc r)) in
  let! p := set_idx p 4 (Z.of_nat (wire_return_len - 1)) in
  let offset := REP_FIXED in
  let! p := write_padded (rp_return_value r) p offset in
  let offset := offset + wire_return_len in
  let! p := copy_at p offset (rp_lease_writeback r) in
  Ret (Some total, head ++ p).

(** * The wire images *)

Definition pad_empty (l : list Z) : list Z := match l with [] => [0%Z] | _ => l end.

Definition desc_wire (d : LeaseDescriptor) : Z := default 0%Z (lease_to_wire d).

Definition desc_bytes (leases : list LeaseDescriptor) : list Z :=
  concat ((λ d, le_bytes 2 (desc_wire d)) <$> leases).

Definition request_payload (r : IpcRequest) : list Z :=
  le_bytes 2 (rq_task_id r) ++
  [rq_resource_kind r; rq_method r; Z.of_nat (length (rq_leases r));
   Z.of_nat (Nat.max (length (rq_args r)) 1 - 1)] ++
  desc_bytes (rq_leases r) ++ pad_empty (rq_args r) ++ concat (rq_lease_data r).

Definition reply_payload (r : IpcReply) : list Z :=
  le_bytes 4 (rp_rc r) ++ [Z.of_nat (Nat.max (length (rp_return_value r)) 1 - 1)] ++
  pad_empty (rp_return_value r) ++ rp_lease_writeback r.

Lemma length_pad_empty l : length (pad_empty l) = Nat.max (length l) 1.
Proof. destruct l; simpl; lia. Qed.

Lemma length_desc_bytes leases : length (desc_bytes leases) = length leases * 2.
Proof.
  unfold desc_bytes. induction leases as [|d l IH]; [done|]. rewrite fmap_cons. cbn [concat].
  rewrite length_app, IH, length_le_bytes. simpl. lia.
Qed.

Lemma length_concat_sum {A} (ls : list (list A)) : length (concat ls) = sum_list (length <$> ls).
Proof.
  induction ls as [|l ls IH]; [done|]. rewrite fmap_cons. cbn [concat].
  rewrite length_app, IH. done.
Qed.
#[export] Hint Rewrite length_pad_empty length_desc_bytes @length_concat_sum : len.

Lemma length_request_payload r :
  length (request_payload r) =
    REQ_FIXED + length (rq_leases r) * LEASE_DESCRIPTOR_SIZE
    + Nat.max (length (rq_args r)) 1 + sum_list (length <$> rq_lease_data r).
Proof. unfold request_payload, REQ_FIXED, LEASE_DESCRIPTOR_SIZE. len. Qed.

Lemma length_reply_payload r :
  length (reply_payload r) =
    REP_FIXED + Nat.max (length (rp_return_value r)) 1 + length (rp_lease_writeback r).
Proof. unfold reply_payload, REP_FIXED. len. Qed.

(** The writing loops extend the written prefix. *)
Lemma write_descriptors_app leases w rest off :
  off = length w → length leases * 2 ≤ length rest →
  write_descriptors leases (w ++ rest) off =
    Ret ((w ++ desc_bytes leases) ++ drop (length leases * 2) rest, off + length leases * 2).
Proof.
  revert w rest off. induction leases as [|d leases IH]; intros w rest off -> Hl.
  { simpl. by rewrite app_nil_r, drop_0, Nat.add_0_r. }
  cbn [write_descriptors length] in *. rewrite copy_at_app by len. cbn [ebind].
  rewrite IH by (unfold LEASE_DESCRIPTOR_SIZE; len).
  unfold desc_bytes. rewrite fmap_cons. cbn [concat]. rewrite drop_drop, length_le_bytes.
  rewrite <- !app_assoc. do 2 f_equal. unfold LEASE_DESCRIPTOR_SIZE. lia.
Qed.

Lemma write_lease_data_app data w rest off :
  off = length w → sum_list (length <$> data) ≤ length rest →
  write_lease_data data (w ++ rest) off =
    Ret ((w ++ concat data) ++ drop (sum_list (length <$> data)) rest,
         off + sum_list (length <$> data)).
Proof.
  revert w rest off. induction data as [|d data IH]; intros w rest off -> Hl.
  { simpl. by rewrite app_nil_r, drop_0, Nat.add_0_r. }
  cbn [write_lease_data] in *. rewrite fmap_cons in *. cbn [concat].
  change (sum_list (length d :: ?l)) with (length d + sum_list l) in *.
  rewrite copy_at_app by len. cbn [ebind].
  rewrite IH by len. rewrite drop_drop. rewrite <- !app_assoc. do 2 f_equal. lia.
Qed.

(** Writing one possibly padded block, as both encoders do for their payload. *)
Lemma write_padded_app l w rest off :
  off = length w → Nat.max (length l) 1 ≤ length rest →
  write_padded l (w ++ rest) off = Ret ((w ++ pad_empty l) ++ drop (Nat.max (length l) 1) rest).
Proof.
  intros -> Hl. unfold write_padded. destruct l as [|a l].
  - rewrite decide_True by done. by rewrite set_idx_app by (simpl in *; lia).
  - rewrite decide_False by done. rewrite copy_at_app by (simpl in *; lia). simpl. by rewrite Nat.max_l by lia.
Qed.

(** What [encode_into] checks before it writes anything. *)
Definition request_valid (r : IpcRequest) : Prop :=
  length (rq_args r) ≤ MAX_ARGS ∧ length (rq_leases r) ≤ 255 ∧
  validate_leases (rq_leases r) (rq_lease_data r) 0 = Some (length (rq_lease_data r)) ∧
  (Z.of_nat (length (request_payload r)) <= U16_MAX)%Z.

#[export] Instance request_valid_dec r : Decision (request_valid r).
Proof. unfold request_valid. apply _. Defined.

Lemma request_encode_into_ok r buf sq :
  request_encode_into r buf sq =
    Ret (if decide (request_valid r ∧ HEADER_SIZE + length (request_payload r) ≤ length buf)
         then (Some (HEADER_SIZE + length (request_payload r)),
               frame_wire IpcRequestT sq (request_payload r)
                 ++ drop (HEADER_SIZE + length (request_payload r)) buf)
         else (None, buf)).
Proof.
  unfold request_encode_into.
  case_decide as Ha; [by rewrite decide_False by (unfold request_valid; lia)|].
  case_decide as Hc; [by rewrite decide_False by (unfold request_valid; lia)|].
  destruct (validate_leases _ _ _) as [k|] eqn:Hv;
    [|by rewrite decide_False by (intros ((?&?&?&?)&?); congruence)].
  case_decide as Hk; [by rewrite decide_False by (intros ((?&?&?&?)&?); congruence)|].
  rewrite <- length_request_payload.
  case_decide as Hp; [by rewrite decide_False by (unfold request_valid; lia)|].
  case_decide as Hb; [by rewrite decide_False by (unfold request_valid; lia)|].
  assert (k = length (rq_lease_data r)) as -> by lia.
  rewrite decide_True by (unfold request_valid; split_and!; try lia; auto).
  pose proof (length_request_payload r) as Hlen.
  change HEADER_SIZE with 5 in *. change REQ_FIXED with 6 in *.
  change LEASE_DESCRIPTOR_SIZE with 2 in *.
  rewrite header_encode_hdr0. cbn [ebind]. rewrite copy_at_0 by len. cbn [ebind].
  rewrite take_app_length' by done. rewrite drop_app_length' by done.
  rewrite copy_at_0 by len. cbn [ebind].
  do 4 (rewrite set_idx_app by len; cbn [ebind]).
  rewrite write_descriptors_app by len. cbn [ebind].
  rewrite write_padded_app by len. cbn [ebind].
  rewrite write_lease_data_app by len. cbn [ebind fst].
  rewrite !drop_drop, length_le_bytes, length_header_bytes.
  unfold frame_wire. rewrite <- !app_assoc.
  match goal with |- context [drop (5 + (2 + ?n)) buf] =>
    replace (5 + (2 + n)) with (5 + length (request_payload r)) by lia end.
  generalize (length (request_payload r)). intros n. unfold request_payload. by rewrite <- !app_assoc.
Qed.

Definition reply_valid (r : IpcReply) : Prop :=
  length (rp_return_value r) ≤ 256 ∧ (Z.of_nat (length (reply_payload r)) <= U16_MAX)%Z.

#[export] Instance reply_valid_dec r : Decision (reply_valid r).
Proof. unfold reply_valid. apply _. Defined.

Lemma reply_encode_into_ok r buf sq :
  reply_encode_into r buf sq =
    Ret (if decide (reply_valid r ∧ HEADER_SIZE + length (reply_payload r) ≤ length buf)
         then (Some (HEADER_SIZE + length (reply_payload r)),
               frame_wire IpcReplyT sq (reply_payload r)
                 ++ drop (HEADER_SIZE + length (reply_payload r)) buf)
         else (None, buf)).
Proof.
  unfold reply_encode_into. rewrite <- length_reply_payload.
  case_decide as Ha; [by rewrite decide_False by (unfold reply_valid; lia)|].
  case_decide as Hp; [by rewrite decide_False by (unfold reply_valid; lia)|].
  case_decide as Hb; [by rewrite decide_False by lia|].
  rewrite decide_True by (unfold reply_valid; lia).
  pose proof (length_reply_payload r) as Hlen.
  change HEADER_SIZE with 5 in *. change REP_FIXED with 5 in *.
  rewrite header_encode_hdr0. cbn [ebind]. rewrite copy_at_0 by len. cbn [ebind].
  rewrite take_app_length' by done. rewrite drop_app_length' by done.
  rewrite copy_at_0 by len. cbn [ebind].
  rewrite set_idx_app by len. cbn [ebind].
  rewrite write_padded_app by len. cbn [ebind].
  rewrite copy_at_app by len. cbn [ebind].
  rewrite !drop_drop, length_le_bytes, length_header_bytes.
  unfold frame_wire. rewrite <- !app_assoc.
  match goal with |- context [drop (5 + (4 + ?n)) buf] =>
    replace (5 + (4 + n)) with (5 + length (reply_payload r)) by lia end.
  generalize (length (reply_payload r)). intros n. unfold reply_payload. by rewrite <- !app_assoc.
Qed.

(** * Lease descriptors *)

Definition lease_ok (d : LeaseDescriptor) : Prop := is_u 16 (llength d).

Lemma lease_to_wire_ok d w :
  lease_ok d → lease_to_wire d = Some w →
  (llength d < 2 ^ 14)%Z ∧ w = (lease_kind_bits (lkind d) * 2 ^ 14 + llength d)%Z ∧ is_u 16 w.
Proof.
  unfold lease_ok, is_u, lease_to_wire. change MAX_LEASE_LENGTH with 16383%Z.
  intros Hd H. destruct (Z.ltb_spec 16383 (llength d)); [discriminate|]. injection H as <-.
  assert (Z.lor (Z.shiftl (lease_kind_bits (lkind d)) 14) (llength d)
          = lease_kind_bits (lkind d) * 2 ^ 14 + llength d)%Z as ->.
  { rewrite <- Z.shiftl_mul_pow2 by lia. symmetry. apply Z.add_nocarry_lor.
    apply Z.bits_inj'. intros i Hi. rewrite Z.land_spec, Z.bits_0.
    destruct (Z.ltb_spec i 14).
    - by rewrite Z.shiftl_spec_low.
    - rewrite (Z.bits_above_log2 (llength d) i), andb_false_r; [done|lia|].
      destruct (decide (llength d = 0%Z)) as [->|]; [simpl; lia|].
      apply Z.log2_lt_pow2; [lia|]. eapply Z.lt_le_trans; [|apply (Z.pow_le_mono_r 2 14); lia].
      lia. }
  destruct (lkind d); simpl lease_kind_bits; lia.
Qed.

(** Packing a descriptor and unpacking it gives it back. *)
Lemma lease_roundtrip d w : lease_ok d → lease_to_wire d = Some w → lease_from_wire w = Some d.
Proof.
  intros Hd Hw. destruct (lease_to_wire_ok d w Hd Hw) as (Hl & -> & _).
  unfold lease_ok, is_u in Hd. unfold lease_from_wire.
  rewrite Z.shiftr_div_pow2 by lia. change 0x3FFF%Z with (Z.ones 14).
  rewrite Z.land_ones by lia.
  rewrite Z.div_add_l, Z.div_small, Z.add_0_r by lia.
  rewrite Z.add_comm, Z_mod_plus_full, Z.mod_small by lia.
  destruct d as [[] n]; done.
Qed.

Lemma validate_leases_wire leases data k n :
  validate_leases leases data k = Some n → Forall (λ d, is_Some (lease_to_wire d)) leases.
Proof.
  revert k. induction leases as [|d leases IH]; intros k; simpl; [constructor|].
  destruct (lease_to_wire d) eqn:E; [|discriminate].
  intros H. constructor; [eauto|]. repeat case_match; try discriminate; eauto.
Qed.


(** ** Reading descriptors back *)

Lemma wire_at_total l i : i * 2 + 1 < length l → ∃ w, wire_at l i = Ret w.
Proof.
  intros Hi. unfold wire_at. change LEASE_DESCRIPTOR_SIZE with 2.
  destruct (idx_lt l (i * 2)) as (b0 & _ & ->); [lia|].
  destruct (idx_lt l (i * 2 + 1)) as (b1 & _ & ->); [lia|]. simpl. eauto.
Qed.

Lemma wire_at_desc_bytes leases i d :
  leases !! i = Some d → is_u 16 (desc_wire d) →
  wire_at (desc_bytes leases) i = Ret (desc_wire d).
Proof.
  intros Hi Hd. rewrite <- (le_roundtrip 2 (desc_wire d) Hd). unfold wire_at.
  change LEASE_DESCRIPTOR_SIZE with 2. revert i Hi.
  induction leases as [|d' leases IH]; intros [|i] Hi; try discriminate.
  - injection Hi as ->. reflexivity.
  - simpl in Hi. rewrite <- (IH i Hi). unfold desc_bytes. rewrite fmap_cons. reflexivity.
Qed.

(** A descriptor that [encode_into] accepts: its fields fit their types and its
    length fits 14 bits. *)
Definition lease_encodable (d : LeaseDescriptor) : Prop :=
  lease_ok d ∧ is_Some (lease_to_wire d).

Lemma lease_encodable_wire d :
  lease_encodable d → is_u 16 (desc_wire d) ∧ lease_from_wire (desc_wire d) = Some d.
Proof.
  intros [Hd [w Hw]]. unfold desc_wire. rewrite Hw. simpl. split.
  - by apply (lease_to_wire_ok d w).
  - by apply lease_roundtrip.
Qed.

Definition req_len (d : LeaseDescriptor) : nat :=
  if has_request_data (lkind d) then Z.to_nat (llength d) else 0.

Definition req_total (leases : list LeaseDescriptor) : nat := sum_list (req_len <$> leases).

Definition is_req (d : LeaseDescriptor) : bool := has_request_data (lkind d).

(** The position, among the data slices, of the data of lease [i]. *)
Fixpoint req_count (leases : list LeaseDescriptor) : nat :=
  match leases with [] => 0 | d :: ls => (if is_req d then 1 else 0) + req_count ls end.

Lemma expected_lease_data_ok leases n i acc :
  Forall lease_encodable leases → i + n = length leases →
  expected_lease_data (desc_bytes leases) n i acc
    = Ret (Some (acc + req_total (drop i leases))).
Proof.
  intros Hf. revert i acc. induction n as [|n IH]; intros i acc Hi.
  - rewrite drop_ge by lia. simpl. do 2 f_equal. unfold req_total. simpl. lia.
  - destruct (lookup_lt_is_Some_2 leases i) as [d Hd]; [lia|].
    pose proof (Forall_lookup_1 _ _ _ _ Hf Hd) as [Hw Hr]%lease_encodable_wire.
    cbn [expected_lease_data]. rewrite (wire_at_desc_bytes leases i d) by done. cbn [ebind].
    rewrite Hr, IH by lia. rewrite (drop_S leases d i) by done.
    unfold req_total. rewrite fmap_cons.
    change (sum_list (req_len d :: ?l)) with (req_len d + sum_list l).
    unfold req_len at 2. do 2 f_equal. destruct (has_request_data (lkind d)); lia.
Qed.

(** The leases and the data slices of a request agree: one slice, of the
    declared length, per lease that carries request data. *)
Inductive lease_match : list LeaseDescriptor → list (list Z) → Prop :=
  | lm_nil : lease_match [] []
  | lm_data d ls s ss :
      is_req d = true → length s = Z.to_nat (llength d) →
      lease_match ls ss → lease_match (d :: ls) (s :: ss)
  | lm_none d ls ss : is_req d = false → lease_match ls ss → lease_match (d :: ls) ss.

Lemma validate_leases_match leases data k :
  k ≤ length data → validate_leases leases data k = Some (length data) →
  lease_match leases (drop k data).
Proof.
  revert k. induction leases as [|d leases IH]; intros k Hk; simpl.
  { intros [= ->]. rewrite drop_all. constructor. }
  destruct (lease_to_wire d); [|discriminate].
  destruct (has_request_data (lkind d)) eqn:Hr.
  - destruct (data !! k) as [s|] eqn:Hs; [|discriminate].
    case_decide as Hl; [discriminate|]. intros H.
    pose proof (lookup_lt_Some _ _ _ Hs). rewrite (drop_S data s k) by done.
    apply lm_data; [done| |apply IH; [lia|done]]. destruct (decide (length s = Z.to_nat (llength d))); tauto.
  - intros H. apply lm_none; [done|auto].
Qed.

Lemma lease_match_total ls ss : lease_match ls ss → length (concat ss) = req_total ls.
Proof.
  unfold req_total. induction 1 as [|d ls s ss Hr Hl _ IH|d ls ss Hr _ IH]; [done| |];
    rewrite fmap_cons; change (sum_list (?x :: ?l)) with (x + sum_list l); unfold req_len at 1;
    unfold is_req in Hr; rewrite Hr; [|done].
  cbn [concat]. rewrite length_app. lia.
Qed.

(** Cutting the data of lease [i] out of the concatenated data. *)
Lemma lease_match_data ls ss i d :
  lease_match ls ss → ls !! i = Some d → is_req d = true →
  ∃ s, ss !! req_count (take i ls) = Some s ∧ length s = Z.to_nat (llength d) ∧
       take (length s) (drop (req_total (take i ls)) (concat ss)) = s.
Proof.
  intros Hm. revert i. induction Hm as [|d' ls s ss Hr Hl _ IH|d' ls ss Hr _ IH];
    intros [|i] Hi Hd; try discriminate; cbn in Hi; simplify_eq; try congruence.
  - exists s. cbn. split_and!; [done..|]. by rewrite drop_0, take_app_length.
  - destruct (IH i Hi Hd) as (s' & Hs' & Hl' & Ht). exists s'.
    cbn [take req_count]. rewrite Hr. split_and!; [done..|].
    unfold req_total in *. rewrite fmap_cons. change (sum_list (?x :: ?l)) with (x + sum_list l).
    unfold req_len at 1. unfold is_req in Hr. rewrite Hr. cbn [concat].
    rewrite drop_app_ge by lia.
    by replace (Z.to_nat (llength d') + sum_list (req_len <$> take i ls) - length s)
      with (sum_list (req_len <$> take i ls)) by lia.
  - destruct (IH i Hi Hd) as (s' & Hs' & Hl' & Ht). exists s'.
    cbn [take req_count]. rewrite Hr. split_and!; [done..|].
    unfold req_total in *. rewrite fmap_cons. change (sum_list (?x :: ?l)) with (x + sum_list l).
    unfold req_len at 1. unfold is_req in Hr. by rewrite Hr.
Qed.

(** ** Views over encoded descriptors *)

Lemma view_lease_ok v leases i :
  rv_lease_count v = length leases → rv_descriptors v = desc_bytes leases →
  Forall lease_encodable leases → view_lease v i = Ret (leases !! i).
Proof.
  intros Hcount Hdesc Henc. unfold view_lease. rewrite Hcount, Hdesc. case_decide as Hi.
  { by rewrite lookup_ge_None_2. }
  destruct (lookup_lt_is_Some_2 leases i) as [d Hd]; [lia|].
  pose proof (Forall_lookup_1 _ _ _ _ Henc Hd) as [Hw Hr]%lease_encodable_wire.
  rewrite (wire_at_desc_bytes leases i d) by done. cbn [ebind]. by rewrite Hr, Hd.
Qed.

Lemma req_total_split leases i d :
  leases !! i = Some d → req_total (take i leases) + req_len d ≤ req_total leases.
Proof.
  intros Hi. unfold req_total. rewrite <- (take_drop_middle leases i d Hi) at 2.
  rewrite fmap_app, fmap_cons, sum_list_with_app. simpl. lia.
Qed.

(** A view whose descriptors read as [leases]. *)
Section views.
Context (v : IpcRequestView) (leases : list LeaseDescriptor).
Hypothesis Hview : ∀ i, view_lease v i = Ret (leases !! i).

Lemma lease_data_offset_ok n i acc :
  i + n ≤ length leases →
  lease_data_offset v n i acc = Ret (acc + req_total (take n (drop i leases))).
Proof.
  revert i acc. induction n as [|n IH]; intros i acc Hi.
  { cbn. f_equal. unfold req_total. simpl. lia. }
  destruct (lookup_lt_is_Some_2 leases i) as [d Hd]; [lia|].
  cbn [lease_data_offset]. rewrite Hview, Hd. cbn [ebind].
  rewrite IH by lia. rewrite (drop_S leases d i) by done. cbn [take].
  unfold req_total. rewrite fmap_cons. change (sum_list (?x :: ?l)) with (x + sum_list l).
  f_equal. unfold req_len at 2. destruct (has_request_data (lkind d)); lia.
Qed.

(** The data of a lease lies inside the view's data whenever that is as long
    as the descriptors say. *)
Lemma view_lease_data_slice i d :
  leases !! i = Some d → req_total leases ≤ length (rv_lease_data v) →
  view_lease_data v i =
    Ret (if is_req d
         then Some (take (req_len d) (drop (req_total (take i leases)) (rv_lease_data v)))
         else None).
Proof.
  intros Hi Hle. pose proof (req_total_split leases i d Hi) as Hs.
  unfold view_lease_data. rewrite Hview, Hi. cbn [ebind].
  unfold is_req, req_len in *. destruct (has_request_data (lkind d)) eqn:Hr; [|done].
  pose proof (lookup_lt_Some _ _ _ Hi). cbn [negb].
  rewrite lease_data_offset_ok by lia. cbn [ebind Nat.add]. rewrite drop_0.
  rewrite decide_False by lia. rewrite slice_ok by lia. cbn [ebind]. do 3 f_equal. lia.
Qed.

Lemma view_lease_data_ok ss i d :
  rv_lease_data v = concat ss → lease_match leases ss → leases !! i = Some d →
  view_lease_data v i =
    Ret (if is_req d then ss !! req_count (take i leases) else None).
Proof.
  intros Hdata Hm Hi. rewrite (view_lease_data_slice i d) by
    (rewrite ?Hdata, ?(lease_match_total leases ss Hm); done).
  destruct (is_req d) eqn:Hr; [|done].
  destruct (lease_match_data leases ss i d Hm Hi Hr) as (s & -> & Hl & Ht).
  unfold req_len. unfold is_req in Hr. by rewrite Hr, <- Hl, Hdata, Ht.
Qed.
End views.

(** * Parsing encoded payloads *)

(** What the Rust field types of a request guarantee. *)
Definition request_typed (r : IpcRequest) : Prop :=
  is_u 16 (rq_task_id r) ∧ is_u 8 (rq_resource_kind r) ∧ is_u 8 (rq_method r) ∧
  Forall lease_ok (rq_leases r).

Lemma request_leases_encodable r :
  request_typed r → request_valid r → Forall lease_encodable (rq_leases r).
Proof.
  intros (_ & _ & _ & Hl) (_ & _ & Hv & _). apply validate_leases_wire in Hv.
  unfold lease_encodable. by apply Forall_and.
Qed.

Lemma request_from_bytes_payload r :
  request_typed r → request_valid r →
  request_from_bytes (request_payload r) =
    Ret (Some (mkReqView (rq_task_id r) (rq_resource_kind r) (rq_method r)
                 (length (rq_leases r)) (desc_bytes (rq_leases r))
                 (pad_empty (rq_args r)) (concat (rq_lease_data r)))).
Proof.
  intros Ht Hv. pose proof (request_leases_encodable r Ht Hv) as Henc.
  destruct Ht as (Htid & _ & _ & _). destruct Hv as (Ha & Hc & Hval & _).
  apply validate_leases_match in Hval; [|lia]. rewrite drop_0 in Hval.
  pose proof (length_request_payload r) as Hlen. unfold request_from_bytes.
  change REQ_FIXED with 6 in *. change LEASE_DESCRIPTOR_SIZE with 2 in *.
  rewrite decide_False by lia.
  set (n := length (request_payload r)) in *.
  change (request_payload r) with
    ([rq_task_id r mod 256; rq_task_id r / 256 mod 256; rq_resource_kind r; rq_method r;
      Z.of_nat (length (rq_leases r)); Z.of_nat (Nat.max (length (rq_args r)) 1 - 1)]%Z ++
     desc_bytes (rq_leases r) ++ pad_empty (rq_args r) ++ concat (rq_lease_data r)) in *.
  set (hd := [_; _; _; _; _; _]%Z). unfold hd at 1 2 3 4 5 6.
  cbn [idx lookup list_lookup app ebind]. rewrite !Nat2Z.id.
  rewrite decide_False by lia.
  pose proof (length_pad_empty (rq_args r)) as Hpad.
  pose proof (length_desc_bytes (rq_leases r)) as Hdesc.
  replace (Nat.max (length (rq_args r)) 1 - 1 + 1) with (length (pad_empty (rq_args r))) by lia.
  assert (length hd = 6) as Hhd by done.
  rewrite slice_app by lia. cbn [ebind].
  rewrite (app_assoc hd), slice_app by len. cbn [ebind].
  rewrite (app_assoc (hd ++ _)), slice_app_end by (subst n; len). cbn [ebind].
  rewrite expected_lease_data_ok by done. cbn [ebind Nat.add]. rewrite drop_0.
  rewrite (lease_match_total _ _ Hval), decide_False by lia.
  do 3 f_equal. exact (le_roundtrip 2 _ Htid).
Qed.

Lemma reply_from_bytes_payload r :
  is_u 32 (rp_rc r) → reply_valid r →
  reply_from_bytes (reply_payload r) =
    Ret (Some (mkRepView (rp_rc r) (pad_empty (rp_return_value r)) (rp_lease_writeback r))).
Proof.
  intros Hrc (Ha & _). pose proof (length_reply_payload r) as Hlen.
  pose proof (length_pad_empty (rp_return_value r)) as Hpad.
  unfold reply_from_bytes. change REP_FIXED with 5 in *. rewrite decide_False by lia.
  set (n := length (reply_payload r)) in *. unfold reply_payload.
  rewrite slice_ok by (subst n; len). change (4 - 0) with 4. rewrite drop_0.
  rewrite take_app_length' by len. cbn [ebind].
  rewrite (idx_ok _ 4 (Z.of_nat (length (pad_empty (rp_return_value r)) - 1)))
    by (rewrite Hpad; reflexivity).
  cbn [ebind]. rewrite Nat2Z.id, decide_False by lia.
  rewrite app_assoc, slice_app by len. cbn [ebind].
  rewrite app_assoc, slice_app_end by (subst n; len). cbn [ebind].
  do 3 f_equal. by apply (le_roundtrip 4).
Qed.

(** * Properties *)

(** C30: an IPC request survives the wire. [encode_into] either rejects the
    request (too many arguments or leases, a lease longer than 14 bits, data
    that does not match the descriptors, a payload over 65535 bytes, or a buffer
    that is too small) and leaves the buffer untouched, or it writes a frame
    whose header carries the sequence number and exact size, and whose payload
    parses back to the same task, resource, method, arguments (one zero byte for
    empty ones), lease descriptors and, lease by lease, the same data. *)
Theorem request_roundtrip (r : IpcRequest) (buf : list Z) (sq : Z) :
  request_typed r → is_u 16 sq →
  let n := HEADER_SIZE + length (request_payload r) in
  (¬ (request_valid r ∧ n ≤ length buf) →
     request_encode_into r buf sq = Ret (None, buf)) ∧
  (request_valid r → n ≤ length buf →
   ∃ buf' h v,
     request_encode_into r buf sq = Ret (Some n, buf') ∧
     drop n buf' = drop n buf ∧
     header_decode buf' = Ret (Ok h) ∧
     frame_type h = IpcRequestT ∧ seq h = sq ∧ frame_size h = n ∧
     request_from_bytes (frame_payload h buf') = Ret (Some v) ∧
     rv_task_id v = rq_task_id r ∧ rv_resource_kind v = rq_resource_kind r ∧
     rv_method v = rq_method r ∧ rv_args v = pad_empty (rq_args r) ∧
     rv_lease_count v = length (rq_leases r) ∧
     (∀ i, view_lease v i = Ret (rq_leases r !! i)) ∧
     (∀ i d, rq_leases r !! i = Some d →
        view_lease_data v i =
          Ret (if is_req d then rq_lease_data r !! req_count (take i (rq_leases r)) else None))).
Proof.
  intros Ht Hs n. rewrite request_encode_into_ok. fold n.
  split; [intros Hn; by rewrite decide_False|]. intros Hv Hb. rewrite decide_True by done.
  pose proof (request_leases_encodable r Ht Hv) as Henc.
  destruct (frame_wire_decode IpcRequestT sq (request_payload r) (drop n buf))
    as (Hd & Hz & Hp); [done|destruct Hv as (_ & _ & _ & ?); unfold is_u, U16_MAX in *; lia|].
  eexists _, _, _. split; [done|]. rewrite Hd, Hp, Hz, request_from_bytes_payload by done.
  split_and!; try done; cbn -[view_lease view_lease_data].
  - rewrite drop_app_length'; [done|]. unfold n, HEADER_SIZE. len.
  - intros i. by apply view_lease_ok.
  - intros i d Hi. eapply view_lease_data_ok; [intros; by apply view_lease_ok|done| |done].
    destruct Hv as (_ & _ & Hval & _). by apply (validate_leases_match _ _ 0) in Hval; [|lia].
Qed.

Definition example_request : IpcRequest :=
  mkRequest 0x0203 4 5 [] [mkLease LRead 2; mkLease LWrite 100; mkLease LReadWrite 3]
    [[10; 11]; [20; 21; 22]]%Z.

Lemma request_roundtrip_witness :
  ∃ buf' h v,
     request_encode_into example_request (replicate 40 0%Z) 9 = Ret (Some 23, buf') ∧
     header_decode buf' = Ret (Ok h) ∧
     request_from_bytes (frame_payload h buf') = Ret (Some v) ∧
     view_lease_data v 2 = Ret (Some [20; 21; 22]%Z).
Proof.
  destruct (request_roundtrip example_request (replicate 40 0%Z) 9) as [_ H].
  - split_and!; try const_u. repeat (constructor; [const_u|]). constructor.
  - const_u.
  - destruct H as (buf' & h & v & He & _ & Hd & _ & _ & _ & Hp & _ & _ & _ & _ & _ & _ & Hl).
    + vm_compute. repeat split; try lia; discriminate.
    + vm_compute. lia.
    + exists buf', h, v. split_and!; [exact He|exact Hd|exact Hp|].
      exact (Hl 2 (mkLease LReadWrite 3) eq_refl).
Defined.

(** ** Untrusted payloads *)

(** What a successful run of the validation loop establishes: descriptors
    [i .. i + n) all decode, and their request data adds up to the result. *)
Lemma expected_lease_data_inv l n i acc e :
  expected_lease_data l n i acc = Ret (Some e) →
  ∃ leases, length leases = n ∧ e = acc + req_total leases ∧
    ∀ k d, leases !! k = Some d → ∃ w, wire_at l (i + k) = Ret w ∧ lease_from_wire w = Some d.
Proof.
  revert i acc. induction n as [|n IH]; intros i acc; cbn [expected_lease_data].
  { intros [= ->]. exists []. unfold req_total. simpl. split_and!; [done|lia|done]. }
  intros (w & Hw & H)%ebind_inv. destruct (lease_from_wire w) as [d|] eqn:Hd; [|discriminate].
  destruct (IH _ _ H) as (ls & Hl & -> & Hls). exists (d :: ls). split_and!.
  - simpl. lia.
  - unfold req_total. rewrite fmap_cons. change (sum_list (?x :: ?l)) with (x + sum_list l).
    unfold req_len at 2. destruct (has_request_data (lkind d)); lia.
  - intros [|k] d' Hk; simpl in Hk; simplify_eq.
    + exists w. by rewrite Nat.add_0_r.
    + destruct (Hls k d' Hk) as (w' & ? & ?). exists w'. by replace (i + S k) with (S i + k) by lia.
Qed.

Lemma expected_lease_data_total l n i acc :
  (i + n) * 2 ≤ length l → ∃ r, expected_lease_data l n i acc = Ret r.
Proof.
  revert i acc. induction n as [|n IH]; intros i acc Hl; cbn [expected_lease_data]; [eauto|].
  destruct (wire_at_total l i) as [w ->]; [lia|]. cbn [ebind].
  destruct (lease_from_wire w); [|eauto]. apply IH. lia.
Qed.

Lemma request_from_bytes_total payload : ∃ r, request_from_bytes payload = Ret r.
Proof.
  unfold request_from_bytes. change REQ_FIXED with 6. change LEASE_DESCRIPTOR_SIZE with 2.
  case_decide as H6; [eauto|].
  do 6 (destruct payload as [|? payload]; [simpl in H6; lia|]).
  cbn [idx lookup list_lookup ebind]. case_decide as Hl; [eauto|].
  rewrite !slice_ok by lia. cbn [ebind].
  match goal with |- context [expected_lease_data ?l ?n 0 0] =>
    destruct (expected_lease_data_total l n 0 0) as [e ->] end.
  { len. }
  cbn [ebind]. destruct e; [|eauto]. case_decide; eauto.
Qed.

Lemma request_from_bytes_leases payload v :
  request_from_bytes payload = Ret (Some v) →
  ∃ leases, length leases = rv_lease_count v ∧ (∀ i, view_lease v i = Ret (leases !! i)) ∧
    req_total leases ≤ length (rv_lease_data v).
Proof.
  unfold request_from_bytes. case_decide; [discriminate|].
  do 6 (intros (? & _ & Hk)%ebind_inv; revert Hk). case_decide as Hl; [discriminate|].
  do 3 (intros (? & _ & Hk)%ebind_inv; revert Hk).
  intros ([e|] & He & Hk)%ebind_inv; [|discriminate].
  case_decide as Hd; [discriminate|]. injection Hk as <-. cbn [rv_lease_count rv_lease_data].
  destruct (expected_lease_data_inv _ _ _ _ _ He) as (leases & Hn & -> & Hls).
  exists leases. split_and!; [done| |lia].
  intros i. unfold view_lease. cbn [rv_lease_count rv_descriptors]. rewrite <- Hn.
  case_decide as Hi; [by rewrite lookup_ge_None_2|].
  destruct (lookup_lt_is_Some_2 leases i) as [d Hd']; [lia|].
  destruct (Hls i d Hd') as (w & Hw & Hwd). cbn [Nat.add] in Hw. rewrite Hw. cbn [ebind].
  by rewrite Hwd, Hd'.
Qed.

(** Parsing an untrusted request never panics and never reads outside the
    payload. On arbitrary bytes [from_bytes] returns; and on every view it
    accepts, [lease] decodes every index below [lease_count] (and rejects the
    others), and [lease_data] returns exactly the declared number of bytes for
    each lease that carries request data and [None] for the write-only ones. *)
Theorem request_view_safe (payload : list Z) :
  ∃ r, request_from_bytes payload = Ret r ∧
  ∀ v, r = Some v →
    ∀ i, (rv_lease_count v ≤ i →
            view_lease v i = Ret None ∧ view_lease_data v i = Ret None) ∧
         (i < rv_lease_count v → ∃ d, view_lease v i = Ret (Some d) ∧
            ∃ o, view_lease_data v i = Ret o ∧
              length <$> o = if is_req d then Some (Z.to_nat (llength d)) else None).
Proof.
  destruct (request_from_bytes_total payload) as [r Hr]. exists r. split; [done|].
  intros v -> i. destruct (request_from_bytes_leases payload v Hr) as (ls & Hn & Hv & Hle).
  rewrite <- Hn. split; intros Hi.
  - unfold view_lease_data. by rewrite Hv, lookup_ge_None_2.
  - destruct (lookup_lt_is_Some_2 ls i Hi) as [d Hd]. exists d. rewrite Hv, Hd.
    split; [done|]. rewrite (view_lease_data_slice v ls Hv i d) by done.
    eexists. split; [done|]. pose proof (req_total_split ls i d Hd) as Hs.
    unfold is_req, req_len in *. destruct (has_request_data (lkind d)); [|done].
    simpl. f_equal. len.
Qed.

Lemma reply_from_bytes_total payload : ∃ r, reply_from_bytes payload = Ret r.
Proof.
  unfold reply_from_bytes. change REP_FIXED with 5. case_decide; [eauto|].
  rewrite slice_ok by lia. cbn [ebind].
  destruct (idx_lt payload 4) as (w & _ & ->); [lia|]. cbn [ebind].
  case_decide; [eauto|]. rewrite !slice_ok by lia. simpl. eauto.
Qed.

(** An IPC reply survives the wire: encoding rejects return values over 256
    bytes, payloads over 65535 bytes and small buffers without touching the
    buffer; otherwise the frame's payload parses to the same return code, return
    value (one zero byte when empty) and write-back data. Parsing arbitrary
    bytes as a reply never panics. *)
Theorem reply_roundtrip (r : IpcReply) (buf : list Z) (sq : Z) :
  is_u 32 (rp_rc r) → is_u 16 sq →
  let n := HEADER_SIZE + length (reply_payload r) in
  (¬ (reply_valid r ∧ n ≤ length buf) → reply_encode_into r buf sq = Ret (None, buf)) ∧
  (reply_valid r → n ≤ length buf →
   ∃ buf' h,
     reply_encode_into r buf sq = Ret (Some n, buf') ∧
     drop n buf' = drop n buf ∧
     header_decode buf' = Ret (Ok h) ∧
     frame_type h = IpcReplyT ∧ seq h = sq ∧ frame_size h = n ∧
     reply_from_bytes (frame_payload h buf') =
       Ret (Some (mkRepView (rp_rc r) (pad_empty (rp_return_value r)) (rp_lease_writeback r)))) ∧
  (∀ payload, ∃ o, reply_from_bytes payload = Ret o).
Proof.
  intros Hrc Hs n. rewrite reply_encode_into_ok. fold n.
  split; [intros Hn; by rewrite decide_False|]. split; [|apply reply_from_bytes_total].
  intros Hv Hb. rewrite decide_True by done.
  destruct (frame_wire_decode IpcReplyT sq (reply_payload r) (drop n buf))
    as (Hd & Hz & Hp); [done|destruct Hv as (_ & ?); unfold is_u, U16_MAX in *; lia|].
  eexists _, _. split; [done|]. rewrite Hd, Hp, Hz, reply_from_bytes_payload by done.
  split_and!; try done. rewrite drop_app_length'; [done|]. unfold n, HEADER_SIZE. len.
Qed.

Lemma reply_roundtrip_witness :
  ∃ buf' h,
    reply_encode_into (mkReply 7 [1; 2]%Z [3]%Z) (replicate 20 0%Z) 9 = Ret (Some 13, buf') ∧
    header_decode buf' = Ret (Ok h) ∧
    reply_from_bytes (frame_payload h buf') = Ret (Some (mkRepView 7 [1; 2]%Z [3]%Z)).
Proof.
  destruct (reply_roundtrip (mkReply 7 [1; 2]%Z [3]%Z) (replicate 20 0%Z) 9) as [_ [H _]].
  - const_u.
  - const_u.
  - destruct H as (buf' & h & He & _ & Hd & _ & _ & _ & Hp).
    + vm_compute. split; [lia|discriminate].
    + vm_compute. lia.
    + exists buf', h. split_and!; [exact He|exact Hd|exact Hp].
Defined.
