(* ===== verification/UsbReader.v ===== *)
(** Frames over a byte stream: [shared/usb-proto/src/frame.rs] (accessors),
    [writer.rs] ([FrameWriter]), [reader.rs] ([FrameReader]) and the drain loop
    the host runs over the reader ([host/usb/src/fob_reader.rs]).

    The reader is an incremental parser over a fixed buffer with a skip mode for
    frames that can never fit. Its contract is stated against the stream itself:
    however the bytes are cut into chunks, the frames come out once each, in
    order, and an oversized frame is reported and stepped over. *)

From S2P Require Import Prelude UsbHeader UsbMessages UsbIpc.

(** * Frames *)

Record RawFrame := mkFrame { fheader : FrameHeader; fpayload : list Z }.

(** [RawFrame::as_ipc_request] *)
Definition as_ipc_request (f : RawFrame) : exec (option IpcRequestView) :=
  if decide (frame_type (fheader f) ≠ IpcRequestT) then Ret None
  else request_from_bytes (fpayload f).

(** [IpcResponse]: the reply, or the simple frame sent in its place. *)
Record IpcResponse := mkResponse {
  inner : result IpcReplyView SimpleFrameView;
  resp_seq : Z;
}.

(** [RawFrame::as_ipc_response] *)
Definition as_ipc_response (f : RawFrame) : exec (option IpcResponse) :=
  match frame_type (fheader f) with
  | IpcReplyT =>
      let! view := reply_from_bytes (fpayload f) in
      Ret (match view with
           | Some v => Some (mkResponse (Ok v) (seq (fheader f)))
           | None => None
           end)
  | SimpleT =>
      Ret (match simple_from_bytes (fpayload f) with
           | Some v => Some (mkResponse (Err v) (seq (fheader f)))
           | None => None
           end)
  | _ => Ret None
  end.

(** [RawFrame::as_simple] *)
Definition as_simple (f : RawFrame) : option SimpleFrameView :=
  if decide (frame_type (fheader f) ≠ SimpleT) then None
  else simple_from_bytes (fpayload f).

(** [RawFrame::parse_simple] *)
Definition frame_parse_simple (M : Type) `{Message M} (f : RawFrame) : exec (option M) :=
  match as_simple f with None => Ret None | Some v => simple_parse M v end.

(** [IpcResponse::parse_simple] *)
Definition response_parse_simple (M : Type) `{Message M} (r : IpcResponse) : exec (option M) :=
  match inner r with Ok _ => Ret None | Err v => simple_parse M v end.

(** [IpcResponse::as_reply], [as_simple] and [is_reply] *)
Definition response_as_reply (r : IpcResponse) : option IpcReplyView :=
  match inner r with Ok v => Some v | Err _ => None end.

Definition response_as_simple (r : IpcResponse) : option SimpleFrameView :=
  match inner r with Ok _ => None | Err v => Some v end.

Definition response_is_reply (r : IpcResponse) : bool :=
  match inner r with Ok _ => true | Err _ => false end.

(** * The writer *)

Record FrameWriter := mkWriter { wseq : Z (* u16 *) }.

Definition writer_new : FrameWriter := mkWriter 0.

(** [FrameWriter::next_seq] *)
Definition next_seq (w : FrameWriter) : Z * FrameWriter :=
  (wseq w, mkWriter (wrap 16 (wseq w + 1))).

(** Encoding advances the counter only for frames the writer numbers itself;
    the [_to] variants echo the sequence number of the request. *)
Definition write_ipc_request (w : FrameWriter) (r : IpcRequest) (buf : list Z)
  : exec (option nat * list Z * FrameWriter) :=
  let '(s, w') := next_seq w in
  let! o := request_encode_into r buf s in Ret (o, w').

Definition write_ipc_reply (w : FrameWriter) (r : IpcReply) (buf : list Z)
  : exec (option nat * list Z * FrameWriter) :=
  let '(s, w') := next_seq w in
  let! o := reply_encode_into r buf s in Ret (o, w').

Definition write_ipc_reply_to (w : FrameWriter) (r : IpcReply) (request_seq : Z) (buf : list Z)
  : exec (option nat * list Z * FrameWriter) :=
  let! o := reply_encode_into r buf request_seq in Ret (o, w).

Definition write_simple `{Message M} (w : FrameWriter) (m : M) (buf : list Z)
  : exec (option nat * list Z * FrameWriter) :=
  let '(s, w') := next_seq w in
  let! o := encode_simple m buf s in Ret (o, w').

Definition write_simple_to `{Message M} (w : FrameWriter) (m : M) (request_seq : Z) (buf : list Z)
  : exec (option nat * list Z * FrameWriter) :=
  let! o := encode_simple m buf request_seq in Ret (o, w).

Definition write_simple_raw (w : FrameWriter) (op : Z) (payload buf : list Z)
  : exec (option nat * list Z * FrameWriter) :=
  let '(s, w') := next_seq w in
  let! o := encode_simple_raw op payload buf s in Ret (o, w').

(** * The reader *)

Inductive ReaderError := HeaderErr (e : HeaderError) | Oversized (declared_size : nat).

(** [FrameReader<N>] *)
Record FrameReader := mkReader {
  rbuf : list Z;           (* [u8; N] *)
  rlen : nat;
  skip_remaining : nat;
}.

Section reader.
Context (N : nat).

(** [FrameReader::new] *)
Definition reader_new : FrameReader := mkReader (replicate N 0%Z) 0 0.

(** [FrameReader::push]; [fuel] bounds the recursion, of which two levels are
    enough: the recursive call is not in skip mode any more. *)
Fixpoint reader_push_rec (fuel : nat) (r : FrameReader) (data : list Z)
  : exec (nat * FrameReader) :=
  match fuel with
  | O => Panic
  | S fuel =>
      if decide (0 < skip_remaining r) then
        let discard := Nat.min (length data) (skip_remaining r) in
        let! skip := usub (skip_remaining r) discard in
        let r := mkReader (rbuf r) (rlen r) skip in
        if decide (discard < length data) then
          let! rest := slice data discard (length data) in
          let! nr := reader_push_rec fuel r rest in
          Ret (discard + fst nr, snd nr)
        else Ret (discard, r)
      else
        let! space := usub N (rlen r) in
        let n := Nat.min (length data) space in
        let! src := slice data 0 n in
        let! buf := copy_at (rbuf r) (rlen r) src in
        Ret (n, mkReader buf (rlen r + n) (skip_remaining r))
  end.

Definition reader_push := reader_push_rec 2.

(** [FrameReader::next_frame] *)
Definition next_frame (r : FrameReader) : exec (result (option RawFrame) ReaderError) :=
  if decide (0 < skip_remaining r) then Ret (Ok None) else
  if decide (rlen r < HEADER_SIZE) then Ret (Ok None) else
  let! filled := slice (rbuf r) 0 (rlen r) in
  let! header := header_decode filled in
  match header with
  | Err e => Ret (Err (HeaderErr e))
  | Ok header =>
      let total := frame_size header in
      if decide (N < total) then Ret (Err (Oversized total)) else
      if decide (rlen r < total) then Ret (Ok None) else
      let! payload := slice (rbuf r) HEADER_SIZE total in
      Ret (Ok (Some (mkFrame header payload)))
  end.

(** [FrameReader::consume] *)
Definition consume (r : FrameReader) (size : nat) : exec FrameReader :=
  let n := Nat.min size (rlen r) in
  if decide (rlen r ≤ n) then Ret (mkReader (rbuf r) 0 (skip_remaining r)) else
  let! buf := copy_within (rbuf r) n (rlen r) 0 in
  let! len := usub (rlen r) n in
  Ret (mkReader buf len (skip_remaining r)).

(** [FrameReader::skip_frame] *)
Definition skip_frame (r : FrameReader) (declared_size : nat) : exec FrameReader :=
  if decide (declared_size ≤ rlen r) then consume r declared_size
  else
    let! skip := usub declared_size (rlen r) in
    Ret (mkReader (rbuf r) 0 skip).

(** [FrameReader::reset] *)
Definition reader_reset (r : FrameReader) : FrameReader := mkReader (rbuf r) 0 0.

(** [FrameReader::buffered] and [is_skipping] *)
Definition buffered (r : FrameReader) : nat := rlen r.
Definition is_skipping (r : FrameReader) : bool := bool_decide (0 < skip_remaining r).

(** * The host's loop over the reader *)

Inductive Event := EvFrame (f : RawFrame) | EvOversize (declared_size : nat)
                 | EvBadHeader (e : HeaderError).

(** The inner loop: deliver complete frames, step over oversized ones, reset
    on a malformed header. [fuel] bounds the iterations. *)
Fixpoint drain (fuel : nat) (r : FrameReader) : exec (list Event * FrameReader) :=
  match fuel with
  | O => Panic
  | S fuel =>
      let! o := next_frame r in
      match o with
      | Ok (Some f) =>
          let size := frame_size (fheader f) in
          let! r := consume r size in
          let! er := drain fuel r in
          Ret (EvFrame f :: fst er, snd er)
      | Ok None => Ret ([], r)
      | Err (Oversized n) =>
          let! r := skip_frame r n in
          let! er := drain fuel r in
          Ret (EvOversize n :: fst er, snd er)
      | Err (HeaderErr e) => Ret ([EvBadHeader e], reader_reset r)
      end
  end.

(** One completed transfer: push its bytes (the callers ignore how many were
    taken), then drain. *)
Definition pump (r : FrameReader) (chunk : list Z) : exec (list Event * FrameReader) :=
  let! nr := reader_push r chunk in
  drain (S (S (rlen (snd nr)))) (snd nr).

Fixpoint pump_all (r : FrameReader) (chunks : list (list Z)) : exec (list Event * FrameReader) :=
  match chunks with
  | [] => Ret ([], r)
  | c :: cs =>
      let! er := pump r c in
      let! er' := pump_all (snd er) cs in
      Ret (fst er ++ fst er', snd er')
  end.
End reader.

(** * The reader's invariant and the abstract view *)

Section reader_proofs.
Context (N : nat).
Implicit Types (r : FrameReader) (data : list Z).

Definition reader_inv r : Prop :=
  length (rbuf r) = N ∧ rlen r ≤ N ∧ (0 < skip_remaining r → rlen r = 0).

(** The bytes the reader holds. *)
Definition reader_view r : list Z := take (rlen r) (rbuf r).

Lemma length_reader_view r : reader_inv r → length (reader_view r) = rlen r.
Proof. intros (? & ? & _). unfold reader_view. len. Qed.

Lemma reader_new_inv : reader_inv (reader_new N).
Proof. split_and!; simpl; len. Qed.

Lemma reader_reset_inv r : reader_inv r → reader_inv (reader_reset r).
Proof. intros (? & ? & _). split_and!; simpl; lia. Qed.

Lemma push_plain fuel r data :
  reader_inv r → skip_remaining r = 0 →
  ∃ r', reader_push_rec N (S fuel) r data = Ret (Nat.min (length data) (N - rlen r), r') ∧
    reader_inv r' ∧ skip_remaining r' = 0 ∧
    reader_view r' = reader_view r ++ take (N - rlen r) data.
Proof.
  intros (Hl & Hn & Hs) H0. cbn [reader_push_rec]. rewrite decide_False by lia.
  rewrite usub_ok by lia. cbn [ebind]. rewrite slice_ok by lia. cbn [ebind].
  rewrite Nat.sub_0_r, drop_0.
  set (src := take _ data). assert (length src = Nat.min (length data) (N - rlen r)) as Hsrc
    by (subst src; len).
  rewrite copy_at_ok by lia. cbn [ebind]. eexists. split; [done|].
  unfold reader_view, reader_inv. cbn [rbuf rlen skip_remaining]. split_and!; [by rewrite length_splice by lia|lia|lia|done|].
  unfold splice. rewrite take_app_ge by len.
  replace (length (take (rlen r) (rbuf r))) with (rlen r) by len.
  rewrite take_app_length' by lia. f_equal. subst src.
  rewrite <- (firstn_all data) at 3. rewrite take_take. f_equal. lia.
Qed.

(** [push] appends what fits behind the bytes it still has to skip. *)
Lemma push_spec r data :
  reader_inv r →
  ∃ r', reader_push N r data
          = Ret (Nat.min (length data) (skip_remaining r + (N - rlen r)), r') ∧
    reader_inv r' ∧ skip_remaining r' = skip_remaining r - length data ∧
    reader_view r' = reader_view r ++ take (N - rlen r) (drop (skip_remaining r) data).
Proof.
  intros Hi. pose proof Hi as (Hl & Hn & Hs). unfold reader_push.
  destruct (decide (skip_remaining r = 0)) as [H0|H0].
  { destruct (push_plain 1 r data Hi H0) as (r' & Hp & Hi' & Hs' & Hv).
    exists r'. rewrite Hp, H0, Hs', Hv, drop_0. done. }
  remember 1 as k eqn:Hk. cbn [reader_push_rec]. subst k.
  rewrite decide_True by lia. rewrite usub_ok by lia. cbn [ebind].
  specialize (Hs ltac:(lia)). case_decide as Hd.
  - rewrite slice_ok by lia. cbn [ebind].
    set (r1 := mkReader _ _ _). set (rest := take _ _).
    assert (reader_inv r1) as Hi1 by (split_and!; simpl; lia).
    destruct (push_plain 0 r1 rest Hi1) as (r' & Hp & Hi' & Hs' & Hv); [simpl; lia|].
    rewrite Hp. cbn [ebind fst snd]. exists r'.
    assert (length rest = length data - skip_remaining r) as Hr by (subst rest; len).
    split_and!; [do 2 f_equal; simpl rlen; lia|done|lia|].
    rewrite Hv. unfold reader_view. simpl. do 2 f_equal. subst rest.
    rewrite Nat.min_r by lia. by rewrite take_ge by len.
  - eexists. split; [do 2 f_equal; lia|]. unfold reader_view, reader_inv.
    cbn [rbuf rlen skip_remaining].
    rewrite drop_ge, take_nil, app_nil_r by lia. split_and!; try done; lia.
Qed.

Lemma consume_spec r n :
  reader_inv r →
  ∃ r', consume r n = Ret r' ∧ reader_inv r' ∧
    skip_remaining r' = skip_remaining r ∧ reader_view r' = drop n (reader_view r).
Proof.
  intros Hi. pose proof Hi as (Hl & Hn & Hs). unfold consume. case_decide as Hd.
  - eexists. split; [done|]. unfold reader_inv, reader_view. cbn [rbuf rlen skip_remaining].
    split_and!; try done; try lia. by rewrite drop_ge by len.
  - unfold copy_within. rewrite slice_ok by lia. cbn [ebind].
    rewrite copy_at_0 by len. cbn [ebind]. rewrite usub_ok by lia. cbn [ebind].
    eexists. split; [done|]. unfold reader_view, reader_inv. simpl.
    rewrite Nat.min_l by lia. split_and!; [len|lia|lia|done|].
    rewrite take_app_length' by len. by rewrite skipn_firstn_comm.
Qed.

Lemma skip_frame_spec r n :
  reader_inv r → ∃ r', skip_frame r n = Ret r' ∧ reader_inv r' ∧
    (rlen r < n → skip_remaining r' = n - rlen r ∧ reader_view r' = []).
Proof.
  intros Hi. pose proof Hi as (Hl & Hn & Hs). unfold skip_frame. case_decide as Hd.
  - destruct (consume_spec r n Hi) as (r' & Hc & Hi' & _). exists r'. split_and!; [done..|lia].
  - rewrite usub_ok by lia. eexists. split; [done|]. unfold reader_inv, reader_view.
    cbn [rbuf rlen skip_remaining]. split_and!; try done; lia.
Qed.

(** [next_frame] reads the view only. *)
Lemma next_frame_view r :
  reader_inv r → skip_remaining r = 0 →
  next_frame N r =
    if decide (length (reader_view r) < HEADER_SIZE) then Ret (Ok None) else
    let! header := header_decode (reader_view r) in
    match header with
    | Err e => Ret (Err (HeaderErr e))
    | Ok h =>
        if decide (N < frame_size h) then Ret (Err (Oversized (frame_size h))) else
        if decide (length (reader_view r) < frame_size h) then Ret (Ok None) else
        Ret (Ok (Some (mkFrame h (frame_payload h (reader_view r)))))
    end.
Proof.
  intros Hi H0. pose proof Hi as (Hl & Hn & _). unfold next_frame.
  rewrite length_reader_view by done. rewrite decide_False by lia. case_decide; [done|].
  rewrite slice_ok by lia. cbn [ebind]. rewrite Nat.sub_0_r, drop_0. fold (reader_view r).
  destruct (header_decode_total (reader_view r)) as [o ->]. cbn [ebind].
  destruct o as [h|]; [|done]. case_decide as Hz; [done|]. case_decide as Hz'; [done|].
  rewrite slice_ok by (unfold frame_size in *; lia). cbn [ebind]. do 4 f_equal.
  unfold frame_payload, reader_view, frame_size in *.
  replace (HEADER_SIZE + Z.to_nat (length16 h) - HEADER_SIZE)
    with (Z.to_nat (length16 h)) by lia.
  rewrite skipn_firstn_comm, take_take. f_equal. lia.
Qed.

Lemma next_frame_skipping r : 0 < skip_remaining r → next_frame N r = Ret (Ok None).
Proof. intros. unfold next_frame. by rewrite decide_True. Qed.

Lemma drain_skipping fuel r : 0 < skip_remaining r → drain N (S fuel) r = Ret ([], r).
Proof. intros. cbn [drain]. by rewrite next_frame_skipping. Qed.

Lemma drain_empty fuel r :
  reader_inv r → reader_view r = [] → drain N (S fuel) r = Ret ([], r).
Proof.
  intros Hi Hv. destruct (decide (skip_remaining r = 0)) as [H0|H0].
  2:{ apply drain_skipping. lia. }
  cbn [drain]. rewrite next_frame_view by done.
  by rewrite decide_True by (rewrite Hv; unfold HEADER_SIZE; simpl; lia).
Qed.

(** The drain loop terminates without a panic, whatever the reader holds: each
    frame it delivers frees at least a header, and an oversized frame ends
    it. *)
Lemma drain_total fuel r :
  reader_inv r → rlen r + 1 < fuel →
  ∃ er, drain N fuel r = Ret er ∧ reader_inv (snd er).
Proof.
  revert r. induction fuel as [|fuel IH]; intros r Hi Hf; [lia|].
  destruct (decide (skip_remaining r = 0)) as [H0|H0].
  2:{ rewrite drain_skipping by lia. eauto. }
  cbn [drain]. rewrite next_frame_view by done. case_decide as Hh; [simpl; eauto|].
  destruct (header_decode_total (reader_view r)) as [o ->]. cbn [ebind].
  destruct o as [h|e]; [|simpl; eauto using reader_reset_inv].
  rewrite length_reader_view in * by done.
  case_decide as Hz; [|case_decide as Hl; [simpl; eauto|]]; cbn [ebind fheader].
  - destruct (skip_frame_spec r (frame_size h) Hi) as (r' & -> & Hi' & Hs'). cbn [ebind].
    destruct Hi as (_ & ? & _). destruct Hs' as [Hs' _]; [lia|].
    destruct fuel; [lia|]. rewrite drain_skipping by lia. simpl. eauto.
  - destruct (consume_spec r (frame_size h) Hi) as (r' & -> & Hi' & Hs' & Hv). cbn [ebind].
    destruct (IH r' Hi') as ([evs r''] & -> & Hi'').
    + pose proof (length_reader_view r' Hi') as E. rewrite Hv, length_drop in E.
      rewrite length_reader_view in E by done. unfold frame_size, HEADER_SIZE in *. lia.
    + simpl. eauto.
Qed.

Lemma pump_total r chunk :
  reader_inv r → ∃ er, pump N r chunk = Ret er ∧ reader_inv (snd er).
Proof.
  intros Hi. unfold pump. destruct (push_spec r chunk Hi) as (r' & -> & Hi' & _). cbn [ebind snd].
  apply drain_total; [done|lia].
Qed.
End reader_proofs.

(** The operations a client may perform on a reader, in any order and with any
    argument. *)
Inductive ReaderOp :=
  | OpPush (data : list Z) | OpNext | OpConsume (n : nat) | OpSkip (n : nat) | OpReset
  | OpPump (chunk : list Z).

Definition run_op (N : nat) (r : FrameReader) (op : ReaderOp) : exec FrameReader :=
  match op with
  | OpPush data => let! nr := reader_push N r data in Ret (snd nr)
  | OpNext => let! _ := next_frame N r in Ret r
  | OpConsume n => consume r n
  | OpSkip n => skip_frame r n
  | OpReset => Ret (reader_reset r)
  | OpPump chunk => let! er := pump N r chunk in Ret (snd er)
  end.

Fixpoint run_ops (N : nat) (r : FrameReader) (ops : list ReaderOp) : exec FrameReader :=
  match ops with
  | [] => Ret r
  | op :: ops => let! r := run_op N r op in run_ops N r ops
  end.

Lemma next_frame_total N r : reader_inv N r → ∃ o, next_frame N r = Ret o.
Proof.
  intros Hi. destruct (decide (skip_remaining r = 0)) as [H0|H0].
  2:{ rewrite next_frame_skipping by lia. eauto. }
  rewrite next_frame_view by done. case_decide; [eauto|].
  destruct (header_decode_total (reader_view r)) as [[h|e] ->]; simpl; [|eauto].
  repeat case_decide; eauto.
Qed.

Lemma run_op_inv N r op :
  reader_inv N r → ∃ r', run_op N r op = Ret r' ∧ reader_inv N r'.
Proof.
  intros Hi. destruct op as [data| |n|n| |chunk]; simpl.
  - destruct (push_spec N r data Hi) as (r' & -> & Hi' & _). simpl. eauto.
  - destruct (next_frame_total N r Hi) as [o ->]. simpl. eauto.
  - destruct (consume_spec N r n Hi) as (r' & -> & Hi' & _). eauto.
  - destruct (skip_frame_spec N r n Hi) as (r' & -> & Hi' & _). eauto.
  - eauto using reader_reset_inv.
  - destruct (pump_total N r chunk Hi) as ([evs r'] & -> & Hi'). simpl. eauto.
Qed.

(** The frame reader is memory-safe and terminating on untrusted input. For
    every buffer size, any sequence of pushes, frame reads,
    consumes, skips, resets and whole drain loops, with arbitrary bytes and
    sizes, runs without an out-of-bounds access or a length underflow and keeps
    the invariant (at most [N] bytes held, none while skipping). *)
Theorem reader_ops_safe (N : nat) (ops : list ReaderOp) :
  ∃ r, run_ops N (reader_new N) ops = Ret r ∧ reader_inv N r.
Proof.
  assert (∀ r, reader_inv N r → ∃ r', run_ops N r ops = Ret r' ∧ reader_inv N r') as H.
  { induction ops as [|op ops IH]; intros r Hi; simpl; [eauto|].
    destruct (run_op_inv N r op Hi) as (r' & -> & Hi'). simpl. auto. }
  apply H, reader_new_inv.
Qed.

Example reader_ops_demo :
  (let! r := run_ops 8 (reader_new 8)
               [OpPush [3; 0; 0; 1; 0; 9; 3; 7]%Z; OpNext; OpConsume 6; OpPush [0; 9; 0]%Z] in
   Ret (reader_view r)) = Ret [3; 7; 0; 9; 0]%Z.
Proof. reflexivity. Qed.

(** * The stream contract *)

(** A frame as the sender built it: the header's length is the payload's. *)
Definition raw_ok (f : RawFrame) : Prop :=
  header_ok (fheader f) ∧ length16 (fheader f) = Z.of_nat (length (fpayload f)).

Definition raw_wire (f : RawFrame) : list Z := header_bytes (fheader f) ++ fpayload f.

Definition raw_size (f : RawFrame) : nat := frame_size (fheader f).

Definition wires (fs : list RawFrame) : list Z := concat (raw_wire <$> fs).

Lemma length_raw_wire f : raw_ok f → length (raw_wire f) = raw_size f.
Proof.
  intros [_ H]. unfold raw_wire, raw_size, frame_size, HEADER_SIZE. rewrite H, Nat2Z.id. len.
Qed.

(** Two ways to cut the same bytes. *)
Lemma app_eq_prefix {A} (a b c d : list A) :
  a ++ b = c ++ d → length c ≤ length a → ∃ x, a = c ++ x ∧ d = x ++ b.
Proof.
  intros H Hl. exists (drop (length c) a). split.
  - rewrite <- (take_drop (length c) a) at 1. f_equal.
    apply (f_equal (take (length c))) in H.
    rewrite take_app_length, take_app_le' in H by done. done.
  - apply (f_equal (drop (length c))) in H. rewrite drop_app_length, drop_app_le in H by done. done.
Qed.

Section stream.
Context (N : nat).
Implicit Types (r : FrameReader) (f : RawFrame) (fs : list RawFrame) (rest : list Z).

(** What the host should see for a frame: itself, or a report that it can
    never be assembled. *)
Definition frame_event f : Event :=
  if decide (N < raw_size f) then EvOversize (raw_size f) else EvFrame f.

(** Bytes the reader must hold before it can tell. *)
Definition needed f : nat := if decide (N < raw_size f) then HEADER_SIZE else raw_size f.

(** [steady past r fs rest]: the reader waits for more bytes; the stream still to
    come is [rest], [past] are the frames it has reported and [fs] those it has not.
    When it skips, the last one reported is an oversized one. *)
Definition steady (past : list RawFrame) r fs rest : Prop :=
  reader_inv N r ∧
  ((skip_remaining r = 0 ∧ reader_view r ++ rest = wires fs ∧
    match fs with [] => True | f :: _ => length (reader_view r) < needed f end) ∨
   (0 < skip_remaining r ∧
    (∃ past' f, past = past' ++ [f] ∧ N < raw_size f ∧ skip_remaining r + HEADER_SIZE ≤ raw_size f) ∧
    ∃ junk, rest = junk ++ wires fs ∧ length junk = skip_remaining r)).

Lemma next_frame_short r f fs rest :
  reader_inv N r → skip_remaining r = 0 → raw_ok f →
  reader_view r ++ rest = raw_wire f ++ wires fs → length (reader_view r) < needed f →
  next_frame N r = Ret (Ok None).
Proof.
  intros Hi H0 [Hh Hlen] Heq Hl. rewrite next_frame_view by done. case_decide as H5; [done|].
  unfold raw_wire in Heq. rewrite <- app_assoc in Heq.
  destruct (app_eq_prefix _ _ _ _ Heq) as (x & Hx & _); [len; unfold HEADER_SIZE in *; len|].
  unfold needed, raw_size in Hl. rewrite Hx, header_decode_app by done. cbn [ebind].
  rewrite <- Hx. case_decide; [lia|]. by rewrite decide_True.
Qed.

Lemma next_frame_full r f x :
  reader_inv N r → skip_remaining r = 0 → raw_ok f → raw_size f ≤ N →
  reader_view r = raw_wire f ++ x → next_frame N r = Ret (Ok (Some f)).
Proof.
  intros Hi H0 Hf Hz Hx. pose proof (length_raw_wire f Hf) as Hlen. destruct Hf as [Hh Hl].
  rewrite next_frame_view by done.
  assert (HEADER_SIZE ≤ raw_size f) by (unfold raw_size, frame_size; lia).
  rewrite Hx. rewrite decide_False by len.
  unfold raw_wire at 1. rewrite <- app_assoc, header_decode_app by done. cbn [ebind].
  unfold raw_size in *. rewrite decide_False by lia. rewrite decide_False by len.
  do 3 f_equal. destruct f as [h p]. f_equal. unfold frame_payload, raw_wire.
  simpl fheader in *. simpl fpayload in *. rewrite <- app_assoc, drop_app_length' by done.
  rewrite Hl, Nat2Z.id. by rewrite take_app_length.
Qed.

Lemma next_frame_oversized r f fs rest :
  reader_inv N r → skip_remaining r = 0 → raw_ok f → N < raw_size f →
  reader_view r ++ rest = raw_wire f ++ wires fs → HEADER_SIZE ≤ length (reader_view r) →
  next_frame N r = Ret (Err (Oversized (raw_size f))).
Proof.
  intros Hi H0 [Hh Hlen] Hz Heq Hl. rewrite next_frame_view by done.
  rewrite decide_False by lia. unfold raw_wire in Heq. rewrite <- app_assoc in Heq.
  destruct (app_eq_prefix _ _ _ _ Heq) as (x & -> & _); [by rewrite length_header_bytes|].
  rewrite header_decode_app by done. cbn [ebind]. unfold raw_size in *. by rewrite decide_True.
Qed.

(** The drain loop reports a prefix of the pending frames and stops steady. *)
Lemma drain_stream past fs fuel r rest :
  reader_inv N r → skip_remaining r = 0 → Forall raw_ok fs →
  reader_view r ++ rest = wires fs → rlen r + 1 < fuel →
  ∃ fs1 fs2 r', fs = fs1 ++ fs2 ∧ drain N fuel r = Ret (frame_event <$> fs1, r') ∧
    steady (past ++ fs1) r' fs2 rest.
Proof.
  revert past fuel r. induction fs as [|f fs IH]; intros past [|fuel] r Hi H0 Hf Heq Hfuel; try lia.
  { apply app_eq_nil in Heq as [Hv ->]. exists [], [], r. rewrite drain_empty by done.
    split; [done|]. split; [done|]. split; [done|]. left. by rewrite Hv. }
  cbn [drain].
  apply Forall_cons_1 in Hf as [Hf Hfs]. pose proof (length_raw_wire f Hf) as Hlen.
  pose proof (length_reader_view N r Hi) as Hrv. pose proof Hi as (_ & Hr & _).
  unfold wires in Heq. rewrite fmap_cons in Heq. cbn [concat] in Heq. fold (wires fs) in Heq.
  destruct (decide (length (reader_view r) < needed f)) as [Hs|Hs].
  { exists [], (f :: fs), r. split; [done|].
    rewrite (next_frame_short r f fs rest) by done. split; [done|]. split; [done|]. by left. }
  unfold needed in Hs. destruct (decide (N < raw_size f)) as [Hz|Hz].
  - rewrite (next_frame_oversized r f fs rest) by (done || lia).
    cbn [ebind]. destruct (skip_frame_spec N r (raw_size f) Hi) as (r' & -> & Hi' & Hsk).
    destruct Hsk as [Hsk Hv']; [lia|]. cbn [ebind].
    exists [f], fs, r'. split; [done|]. destruct fuel as [|fuel]; [lia|].
    rewrite drain_skipping by lia. simpl. unfold frame_event at 1. rewrite decide_True by done.
    split; [done|]. split; [done|]. right. split; [lia|]. split; [exists past, f; split_and!; [done|done|lia]|].
    symmetry in Heq. destruct (app_eq_prefix _ _ _ _ Heq) as (x & Hx & ->); [lia|].
    exists x. split; [done|]. apply (f_equal length) in Hx. rewrite length_app in Hx. lia.
  - destruct (app_eq_prefix _ _ _ _ Heq) as (x & Hx & Hrest); [lia|].
    rewrite (next_frame_full r f x) by (done || lia).
    cbn [ebind fheader]. fold (raw_size f).
    destruct (consume_spec N r (raw_size f) Hi) as (r' & -> & Hi' & Hs' & Hv'). cbn [ebind].
    rewrite Hx, drop_app_length' in Hv' by done.
    destruct (IH (past ++ [f]) fuel r' Hi') as (fs1 & fs2 & r'' & -> & Hd & Hst);
      [lia|done|by rewrite Hv', <- Hrest| |].
    { rewrite <- (length_reader_view N r' Hi'), Hv'. apply (f_equal length) in Hx.
      rewrite length_app in Hx. unfold raw_size, frame_size, HEADER_SIZE in *. lia. }
    rewrite Hd. exists (f :: fs1), fs2, r''. cbn [ebind fst snd]. rewrite <- app_assoc in Hst. split_and!; [done| |done].
    rewrite fmap_cons. unfold frame_event at 2. by rewrite decide_False by lia.
Qed.

(** With nothing left to come, a steady reader has reported everything. *)
Lemma steady_done past r fs :
  steady past r fs [] → Forall raw_ok fs →
  fs = [] ∧ skip_remaining r = 0 ∧ reader_view r = [].
Proof.
  intros (Hi & [(H0 & Heq & Hfs)|(Hs & _ & junk & Heq & Hj)]) Hok.
  - rewrite app_nil_r in Heq. destruct fs as [|f fs]; [done|]. exfalso.
    apply Forall_cons_1 in Hok as [Hok _]. pose proof (length_raw_wire f Hok) as Hlen.
    rewrite Heq in Hfs. unfold wires in Hfs. rewrite fmap_cons in Hfs. cbn [concat] in Hfs.
    rewrite length_app, Hlen in Hfs. unfold needed, raw_size, frame_size in Hfs.
    case_decide; lia.
  - symmetry in Heq. apply app_eq_nil in Heq as [-> _]. simpl in Hj. lia.
Qed.

(** An empty reader and one whole frame. *)
Lemma pump_one r f :
  reader_inv N r → skip_remaining r = 0 → reader_view r = [] → raw_ok f → raw_size f ≤ N →
  ∃ r', pump N r (raw_wire f) = Ret ([EvFrame f], r') ∧
    reader_inv N r' ∧ skip_remaining r' = 0 ∧ reader_view r' = [].
Proof.
  intros Hi H0 Hv Hf Hz. pose proof (length_raw_wire f Hf) as Hlen.
  pose proof (length_reader_view N r Hi) as Hr. rewrite Hv in Hr. simpl in Hr.
  unfold pump. destruct (push_spec N r (raw_wire f) Hi) as (r1 & -> & Hi1 & Hs1 & Hv1).
  cbn [ebind snd]. rewrite Hv, H0, drop_0, take_ge in Hv1 by lia.
  destruct (drain_stream [] [f] (S (S (rlen r1))) r1 []) as (fs1 & fs2 & r' & Hfs & Hd & Hst);
    try done; try lia.
  { by apply Forall_singleton. }
  { rewrite Hv1. unfold wires. simpl. by rewrite !app_nil_r. }
  pose proof Hst as (Hi' & _). assert (Forall raw_ok fs2) as Hok.
  { assert (Forall raw_ok (fs1 ++ fs2)) as H by (rewrite <- Hfs; by apply Forall_singleton).
    by apply Forall_app in H as [_ ?]. }
  destruct (steady_done _ r' fs2 Hst Hok) as (-> & ? & ?). rewrite app_nil_r in Hfs. subst fs1.
  exists r'. rewrite Hd. simpl. unfold frame_event. by rewrite decide_False by lia.
Qed.

(** The room a reader has for the next chunk once [n] bytes of the frames have
    arrived: the buffer less the part of a frame that is in it, and, while an
    oversized frame is stepped over, all of the buffer behind what is left of it. *)
Fixpoint room (fs : list RawFrame) (n : nat) : nat :=
  match fs with
  | [] => N
  | f :: fs =>
      if decide (raw_size f ≤ n) then room fs (n - raw_size f) else
      if decide (N < raw_size f ∧ HEADER_SIZE ≤ n) then (raw_size f - n) + N else N - n
  end.

(** Every chunk fits when its turn comes. *)
Fixpoint chunks_fit (fs : list RawFrame) (n : nat) (chunks : list (list Z)) : Prop :=
  match chunks with
  | [] => True
  | c :: cs => length c ≤ room fs n ∧ chunks_fit fs (n + length c) cs
  end.

Lemma wires_cons f fs : wires (f :: fs) = raw_wire f ++ wires fs.
Proof. reflexivity. Qed.

Lemma wires_one f : wires [f] = raw_wire f.
Proof. unfold wires. cbn [fmap list_fmap concat]. apply app_nil_r. Qed.

Lemma wires_app fs fs' : wires (fs ++ fs') = wires fs ++ wires fs'.
Proof. unfold wires. by rewrite fmap_app, concat_app. Qed.

Lemma room_past past fs k : Forall raw_ok past → room (past ++ fs) (length (wires past) + k) = room fs k.
Proof.
  induction past as [|f past IH]; intros Hok; [done|]. apply Forall_cons_1 in Hok as [Hf Hok].
  cbn [app room]. rewrite wires_cons, length_app, (length_raw_wire f Hf). rewrite decide_True by lia.
  rewrite <- (IH Hok). f_equal. lia.
Qed.

(** A steady reader has the room that the stream says. *)
Lemma steady_room past r fs rest n :
  steady past r fs rest → Forall raw_ok (past ++ fs) → n + length rest = length (wires (past ++ fs)) → HEADER_SIZE ≤ N →
  room (past ++ fs) n = skip_remaining r + (N - rlen r).
Proof.
  intros (Hi & Hst) Hok Hn HN. pose proof Hok as [Hp Hf]%Forall_app. rewrite wires_app, length_app in Hn. pose proof (length_reader_view N r Hi) as Hl.
  destruct Hst as [(H0 & Heq & Hfs)|(Hs & (past' & f & -> & Hz & Hh) & junk & -> & Hj)].
  - apply (f_equal length) in Heq. rewrite length_app in Heq. replace n with (length (wires past) + rlen r) by lia. rewrite room_past by done. rewrite H0.
    destruct fs as [|f fs]; cbn [room]; [cbn in Heq; lia|]. unfold needed in Hfs. case_decide as Hz.
    + rewrite (decide_False (P := raw_size f ≤ _)) by lia. rewrite decide_False by lia. lia.
    + rewrite (decide_False (P := raw_size f ≤ _)) by lia. rewrite decide_False by lia. lia.
  - apply Forall_app in Hp as [Hp Hf1]. apply Forall_cons_1 in Hf1 as [Hf1 _].
    rewrite wires_app, wires_one, !length_app, (length_raw_wire f Hf1) in Hn. pose proof Hi as (_ & _ & Hr). specialize (Hr Hs).
    replace n with (length (wires past') + (raw_size f - skip_remaining r)) by lia. rewrite <- app_assoc, room_past by done. cbn [app room].
    rewrite (decide_False (P := raw_size f ≤ _)) by lia. rewrite decide_True by lia. lia.
Qed.

Lemma pump_steady past r fs chunk rest :
  steady past r fs (chunk ++ rest) → Forall raw_ok fs → length chunk ≤ skip_remaining r + (N - rlen r) →
  ∃ fs1 fs2 r', fs = fs1 ++ fs2 ∧ pump N r chunk = Ret (frame_event <$> fs1, r') ∧
    steady (past ++ fs1) r' fs2 rest.
Proof.
  intros Hst Hok Hc. destruct Hst as (Hi & Hst).
  unfold pump. destruct (push_spec N r chunk Hi) as (r1 & -> & Hi1 & Hs1 & Hv1).
  cbn [ebind snd]. destruct Hst as [(H0 & Heq & _)|(Hs & (past' & f & Ep & Hz & Hh) & junk & Heq & Hj)].
  - apply drain_stream; try done; try lia. rewrite Hv1, H0, drop_0, take_ge by lia.
    by rewrite <- app_assoc.
  - destruct (decide (skip_remaining r ≤ length chunk)) as [Hle|Hgt].
    + apply drain_stream; try done; try lia.
      destruct (app_eq_prefix _ _ _ _ Heq) as (x & -> & ->); [lia|].
      pose proof Hi as (_ & _ & Hl). rewrite Hv1. unfold reader_view at 1. rewrite (Hl Hs).
      rewrite <- Hj, drop_app_length. simpl. rewrite length_app in *. by rewrite take_ge by lia.
    + rewrite drain_skipping by lia. exists [], fs, r1. split; [done|]. split; [done|]. rewrite app_nil_r.
      split; [done|]. right. split; [lia|]. split; [exists past', f; split_and!; [done|done|lia]|]. symmetry in Heq.
      destruct (app_eq_prefix _ _ _ _ Heq) as (x & -> & ->); [lia|].
      exists x. split; [done|]. rewrite length_app in Hj. lia.
Qed.

Lemma pump_all_steady chunks past r fs n :
  HEADER_SIZE ≤ N → steady past r fs (concat chunks) → Forall raw_ok (past ++ fs) →
  n + length (concat chunks) = length (wires (past ++ fs)) → chunks_fit (past ++ fs) n chunks →
  ∃ r', pump_all N r chunks = Ret (frame_event <$> fs, r') ∧
    skip_remaining r' = 0 ∧ reader_view r' = [].
Proof.
  intros HN. revert past r fs n. induction chunks as [|c chunks IH]; intros past r fs n Hst Hok Hn Hc; pose proof Hok as [_ Hf]%Forall_app.
  - cbn [concat pump_all] in *. destruct (steady_done _ r fs Hst Hf) as (-> & ? & ?).
    by exists r.
  - cbn [chunks_fit concat] in *. destruct Hc as [Hc Hcs].
    rewrite (steady_room past r fs _ n Hst Hok Hn HN) in Hc.
    destruct (pump_steady past r fs c (concat chunks)) as (fs1 & fs2 & r1 & -> & Hp & Hst1); try done.
    rewrite length_app in Hn. rewrite app_assoc in Hok, Hn, Hcs.
    destruct (IH (past ++ fs1) r1 fs2 (n + length c) Hst1 Hok ltac:(lia) Hcs) as (r' & Ha & ? & ?).
    exists r'. cbn [pump_all]. rewrite Hp. cbn [ebind snd fst]. rewrite Ha. cbn [ebind fst snd].
    by rewrite fmap_app.
Qed.

(** Whole frames that fit the buffer always fit: the use the host makes of it. *)
Lemma whole_frames_fit past fs :
  Forall raw_ok (past ++ fs) → Forall (λ f, raw_size f ≤ N) fs → chunks_fit (past ++ fs) (length (wires past)) (raw_wire <$> fs).
Proof.
  revert past. induction fs as [|f fs IH]; intros past Hok Hs; [done|]. pose proof Hok as [Hp Hf]%Forall_app.
  apply Forall_cons_1 in Hs as [Hs1 Hs]. apply Forall_cons_1 in Hf as [Hf1 Hf]. cbn [fmap list_fmap chunks_fit]. split.
  - rewrite <- (Nat.add_0_r (length (wires past))), room_past by done. cbn [room]. rewrite (length_raw_wire f Hf1).
    rewrite decide_False by (unfold raw_size, frame_size, HEADER_SIZE; lia). rewrite decide_False by lia. lia.
  - specialize (IH (past ++ [f])). rewrite <- app_assoc, wires_app, length_app in IH. cbn [app] in IH. rewrite wires_one in IH. by apply IH.
Qed.

(** So do chunks that leave room for a frame of the largest size [F] that fits. *)
Lemma small_chunks_fit F fs n chunks :
  HEADER_SIZE ≤ F → Forall (λ f, raw_size f ≤ F ∨ N < raw_size f) fs → Forall (λ c, length c + F ≤ N + 1) chunks → chunks_fit fs n chunks.
Proof.
  intros HF Hfs Hc. revert n. induction Hc as [|c chunks Hc _ IH]; intros n; cbn [chunks_fit]; [done|]. split; [|apply IH]. clear IH. revert n.
  induction Hfs as [|f fs Hf _ IHf]; intros n; cbn [room]; [unfold HEADER_SIZE in HF; lia|]. case_decide; [apply IHf|]. case_decide; lia.
Qed.
End stream.

(** C27: the reader implements the stream. Take any frames, fitting the buffer or
    not, and cut their concatenated wire images into chunks in any way in which every
    chunk has room in the reader when its turn comes ([chunks_fit]: it is no longer
    than the buffer less the part of a frame that has arrived before it, plus what is
    left of an oversized frame that is being stepped over). Then pushing and draining
    chunk by chunk reports every frame exactly once and in order, as itself or, when
    oversized, as an [Oversized] report after which the reader is back in step; it
    ends empty and out of skip mode, and nothing on the way panics. Whole frames that
    fit the buffer, which is what the host pushes, always have room; a longer chunk
    than the room loses bytes ([oversized_chunk_swallows_next]). *)
Theorem reader_refines_stream (N : nat) (frames : list RawFrame) :
  HEADER_SIZE ≤ N → Forall raw_ok frames →
  (∀ chunks, concat chunks = wires frames → chunks_fit N frames 0 chunks →
    ∃ r, pump_all N (reader_new N) chunks = Ret (frame_event N <$> frames, r) ∧
      skip_remaining r = 0 ∧ reader_view r = []) ∧
  (Forall (λ f, raw_size f ≤ N) frames → chunks_fit N frames 0 (raw_wire <$> frames)).
Proof.
  intros HN Hok. split; [|intros Hs; by apply (whole_frames_fit N [])].
  intros chunks Heq Hc. apply (pump_all_steady N chunks [] _ frames 0); try done; cbn [app].
  - rewrite Heq. split; [apply reader_new_inv|]. left. unfold reader_view. simpl. split_and!; [done..|].
    destruct frames as [|f frames]; [done|].
    unfold needed, raw_size, frame_size, HEADER_SIZE in *. case_decide; lia.
  - by rewrite Heq.
Qed.

Definition demo_small : RawFrame := mkFrame (mkHeader SimpleT 1 2) [0x20; 7]%Z.
Definition demo_large : RawFrame := mkFrame (mkHeader IpcReplyT 2 30) (replicate 30 9%Z).

Lemma reader_refines_stream_witness :
  ∃ r, pump_all 16 (reader_new 16)
         [[3; 1]; [0; 2; 0; 0x20; 7; 2]; [2; 0; 30; 0] ++ replicate 6 9; replicate 10 9;
          replicate 10 9; replicate 4 9 ++ [3; 1; 0; 2; 0; 0x20]; [7]]%Z
       = Ret ([EvFrame demo_small; EvOversize 35; EvFrame demo_small], r) ∧
    skip_remaining r = 0 ∧ reader_view r = [].
Proof.
  apply (reader_refines_stream 16 [demo_small; demo_large; demo_small]).
  - unfold HEADER_SIZE. lia.
  - repeat (constructor; [split; [split; const_u|reflexivity]|]). constructor.
  - reflexivity.
  - apply (small_chunks_fit 16 7); [unfold HEADER_SIZE; lia|..].
    + repeat (constructor; [unfold raw_size; vm_compute; lia|]). constructor.
    + repeat (constructor; [simpl; lia|]). constructor.
Defined.

(** The converse, for a transfer that is larger than the buffer, as the host
    callers push it in one piece and ignore how many bytes were taken. A frame
    [f] with [N < raw_size f] in one chunk is reported as oversized, but the
    bytes of it that did not fit are already lost: the reader still waits to
    skip [raw_size f - N] of them, so a following well-formed frame [g] of at
    most that size is swallowed without any report. *)
Theorem oversized_chunk_swallows_next (N : nat) (f g : RawFrame) :
  HEADER_SIZE ≤ N → raw_ok f → raw_ok g →
  N < raw_size f → N + raw_size g ≤ raw_size f →
  ∃ r, pump_all N (reader_new N) [raw_wire f; raw_wire g]
         = Ret ([EvOversize (raw_size f)], r) ∧
    skip_remaining r = raw_size f - N - raw_size g.
Proof.
  intros HN Hf Hg Hz Hgz. pose proof (length_raw_wire f Hf) as Hlf.
  pose proof (length_raw_wire g Hg) as Hlg. cbn [pump_all]. unfold pump at 1.
  destruct (push_spec N (reader_new N) (raw_wire f)) as (r1 & -> & Hi1 & Hs1 & Hv1);
    [apply reader_new_inv|]. cbn [ebind snd].
  change (skip_remaining (reader_new N)) with 0 in *. change (rlen (reader_new N)) with 0 in *.
  rewrite Nat.sub_0_r, drop_0 in Hv1. change (reader_view (reader_new N)) with (@nil Z) in Hv1.
  simpl app in Hv1.
  assert (length (reader_view r1) = N) as Hl1 by (rewrite Hv1; len).
  pose proof (length_reader_view N r1 Hi1) as Hr1. rewrite Hl1 in Hr1.
  cbn [drain]. rewrite (next_frame_oversized N r1 f [] (drop N (raw_wire f)));
    [|done|lia|done|done| |lia].
  2:{ rewrite Hv1, take_drop. unfold wires. simpl. by rewrite app_nil_r. }
  cbn [ebind]. destruct (skip_frame_spec N r1 (raw_size f) Hi1) as (r2 & -> & Hi2 & Hsk).
  destruct Hsk as [Hs2 Hv2]; [lia|]. cbn [ebind].
  rewrite next_frame_skipping by lia. cbn [ebind fst snd app].
  unfold pump. destruct (push_spec N r2 (raw_wire g) Hi2) as (r3 & -> & Hi3 & Hs3 & Hv3).
  cbn [ebind snd fst]. rewrite Hv2, drop_ge, take_nil in Hv3 by lia.
  rewrite drain_empty by done. eexists. split; [done|]. simpl. lia.
Qed.

Lemma oversized_chunk_swallows_next_witness :
  ∃ r, pump_all 16 (reader_new 16) [raw_wire demo_large; raw_wire demo_small]
         = Ret ([EvOversize 35], r) ∧ skip_remaining r = 12.
Proof.
  apply (oversized_chunk_swallows_next 16 demo_large demo_small).
  - unfold HEADER_SIZE. lia.
  - split; [split; const_u|reflexivity].
  - split; [split; const_u|reflexivity].
  - vm_compute. lia.
  - vm_compute. lia.
Defined.
