(* ===== verification/UsbCrc.v ===== *)
(** Transfer integrity on the USB bulk channel: the host's [crc16],
    [wrap_frame] and [unwrap_frame] ([host/usb/src/crc.rs]), and the packets the
    firmware emits for one transfer ([deliver_reply] of
    [firmware/sysmodule/usb_protocol_host/src/main.rs] and [write_usb] of
    [firmware/sysmodule/usb_protocol_fob/src/main.rs]).

    A transfer is the frame, its CRC-16 (big-endian), and a pad byte when the
    total would otherwise be a multiple of the packet size: the receiver takes a
    short packet as the end of the transfer. *)

From S2P Require Import Prelude UsbHeader UsbMessages UsbIpc UsbReader.

Definition MAX_PACKET_SIZE : nat := 64.

(** * CRC-16/CCITT-FALSE *)

(** One step of the inner loop: [if crc & 0x8000 != 0 { (crc << 1) ^ 0x1021 }
    else { crc << 1 }] on [u16]. *)
Definition crc_bit (crc : Z) : Z :=
  if decide (Z.land crc 0x8000 ≠ 0%Z) then Z.lxor (wrap 16 (Z.shiftl crc 1)) 0x1021
  else wrap 16 (Z.shiftl crc 1).

(** The body of the outer loop. *)
Definition crc_byte (crc b : Z) : Z :=
  Nat.iter 8 crc_bit (Z.lxor crc (Z.shiftl b 8)).

(** [crc16_update] of the firmware; the host inlines it. *)
Definition crc16_update (crc : Z) (data : list Z) : Z := foldl crc_byte crc data.

Definition crc16 (data : list Z) : Z := crc16_update 0xFFFF data.

(** [crc.to_be_bytes()] *)
Definition be_bytes2 (x : Z) : list Z := [(x / 256) mod 256; x mod 256]%Z.

(** [u16::from_be_bytes] *)
Definition be_val2 (hi lo : Z) : Z := (256 * hi + lo)%Z.

(** * Host side *)

(** [wrap_frame] *)
Definition wrap_frame (frame : list Z) : list Z :=
  let crc := crc16 frame in
  let needs_pad := bool_decide ((length frame + 2) mod MAX_PACKET_SIZE = 0) in
  frame ++ be_bytes2 crc ++ (if needs_pad then [0%Z] else []).

Inductive CrcError := CrcTooShort | CrcMismatch.

(** [unwrap_frame] *)
Definition unwrap_frame (buf : list Z) : exec (result (list Z) CrcError) :=
  if decide (length buf < HEADER_SIZE + 2) then Ret (Err CrcTooShort) else
  let! b3 := idx buf 3 in
  let! b4 := idx buf 4 in
  let len := Z.to_nat (le_val [b3; b4]) in
  let size := HEADER_SIZE + len in
  if decide (length buf < size + 2) then Ret (Err CrcTooShort) else
  let! hi := idx buf size in
  let! lo := idx buf (size + 1) in
  let expected := be_val2 hi lo in
  let! frame := slice buf 0 size in
  let actual := crc16 frame in
  if decide (expected ≠ actual) then Ret (Err CrcMismatch) else Ret (Ok frame).

(** One completed bulk IN transfer in the fob reader's loop: validate and push,
    or reset the reader; then drain. *)
Definition on_transfer (N : nat) (r : FrameReader) (buf : list Z)
  : exec (option CrcError * list Event * FrameReader) :=
  let! u := unwrap_frame buf in
  match u with
  | Ok frame_bytes => let! er := pump N r frame_bytes in Ret (None, fst er, snd er)
  | Err e =>
      let r := reader_reset r in
      let! er := drain N (S (S (rlen r))) r in Ret (Some e, fst er, snd er)
  end.

(** * Device side

    The packets of one transfer, in the order they are handed to the endpoint
    (both writers stop at the first endpoint error, which is not modelled: the
    packets below are what a working endpoint carries). *)

Fixpoint full_packets (n i : nat) (data : list Z) : exec (list (list Z)) :=
  match n with
  | O => Ret []
  | S n' =>
      let! p := slice data (i * 64) ((i + 1) * 64) in
      let! ps := full_packets n' (S i) data in
      Ret (p :: ps)
  end.

(** The tail of a transfer: the last partial packet with the CRC behind it, in a
    scratch array of [scratch] bytes. *)
Definition tail_packets (scratch : nat) (data : list Z) (full tail : nat) (crc : Z)
  : exec (list (list Z)) :=
  let crc_hi := wrap 8 (Z.shiftr crc 8) in
  let crc_lo := wrap 8 crc in
  if decide (0 < tail) then
    let packet := replicate scratch 0%Z in
    let! rest := slice data (full * 64) (length data) in
    let! packet := copy_at packet 0 rest in
    let! packet := set_idx packet tail crc_hi in
    let! packet := set_idx packet (tail + 1) crc_lo in
    let total := tail + 2 in
    if decide (total ≤ 64) then
      let! p := slice packet 0 total in
      Ret (if decide (total = 64) then [p; [0%Z]] else [p])
    else
      let! p1 := slice packet 0 64 in
      let! p2 := slice packet 64 total in
      Ret [p1; p2]
  else Ret [[crc_hi; crc_lo]].

Definition transfer_packets (scratch : nat) (data : list Z) : exec (list (list Z)) :=
  let crc := crc16 data in
  let full := length data / 64 in
  let! tail := usub (length data) (full * 64) in
  let! ps := full_packets full 0 data in
  let! last := tail_packets scratch data full tail crc in
  Ret (ps ++ last).

(** [deliver_reply] of [usb_protocol_host]: [let mut packet = [0u8; 66]]. *)
Definition deliver_reply_packets (data : list Z) : exec (list (list Z)) :=
  transfer_packets 66 data.

(** [write_usb] of [usb_protocol_fob]: [let mut last = [0u8; 64]]. *)
Definition fob_write_usb_packets (data : list Z) : exec (list (list Z)) :=
  transfer_packets 64 data.

(** * CRC lemmas *)

(** The catalogue's check value: the CRC of the ASCII digits 1 to 9. *)
Example crc16_check : crc16 [49; 50; 51; 52; 53; 54; 55; 56; 57]%Z = 0x29B1%Z.
Proof. reflexivity. Qed.

Lemma crc_bit_u16 x : is_u 16 (crc_bit x).
Proof.
  assert (is_u 16 (wrap 16 (Z.shiftl x 1))) as H by (apply wrap_is_u; lia).
  unfold crc_bit. case_decide; [|done].
  unfold is_u in *. split; [apply Z.lxor_nonneg; lia|].
  destruct (decide (Z.lxor (wrap 16 (Z.shiftl x 1)) 0x1021 = 0%Z)) as [->|Hn]; [lia|].
  apply Z.log2_lt_pow2; [pose proof (Z.lxor_nonneg (wrap 16 (Z.shiftl x 1)) 0x1021); lia|].
  eapply Z.le_lt_trans; [apply Z.log2_lxor; lia|]. apply Z.max_lub_lt; [|reflexivity].
  destruct (decide (wrap 16 (Z.shiftl x 1) = 0%Z)) as [->|]; [simpl; lia|].
  apply Z.log2_lt_pow2; lia.
Qed.

Lemma crc_byte_iter x b : crc_byte x b = Nat.iter 8 crc_bit (Z.lxor x (Z.shiftl b 8)).
Proof. reflexivity. Qed.

Lemma crc_byte_u16 x b : is_u 16 (crc_byte x b).
Proof. apply crc_bit_u16. Qed.

Lemma crc16_update_u16 x data : is_u 16 x → is_u 16 (crc16_update x data).
Proof.
  unfold crc16_update. revert x. induction data; simpl; intros x Hx; [done|].
  apply IHdata, crc_byte_u16.
Qed.

Lemma crc16_u16 data : is_u 16 (crc16 data).
Proof. apply crc16_update_u16. const_u. Qed.

Lemma land_8000 x : is_u 16 x → Z.land x 0x8000 ≠ 0%Z ↔ (2 ^ 15 <= x)%Z.
Proof.
  unfold is_u. intros Hx.
  assert (Z.testbit x 15 = (2 ^ 15 <=? x)%Z) as Hb.
  { destruct (Z.leb_spec (2 ^ 15) x).
    - apply Z.testbit_true; [lia|]. by rewrite <- (Z.div_unique x (2 ^ 15) 1 (x - 2 ^ 15)) by lia.
    - apply Z.testbit_false; [lia|]. by rewrite Z.div_small by lia. }
  change 0x8000%Z with (Z.shiftl 1 15). split; intros H.
  - destruct (Z.leb_spec (2 ^ 15) x); [done|]. destruct H. apply Z.bits_inj'. intros n Hn.
    rewrite Z.land_spec, Z.bits_0. destruct (decide (n = 15%Z)) as [->|]; [by rewrite Hb|].
    rewrite Z.shiftl_1_l, Z.pow2_bits_false by lia. by rewrite andb_false_r.
  - intros E. apply (f_equal (λ z, Z.testbit z 15)) in E.
    rewrite Z.land_spec, Z.bits_0, Hb in E.
    by destruct (Z.leb_spec (2 ^ 15) x); [|lia].
Qed.

Lemma lxor_inj_r a b p : Z.lxor a p = Z.lxor b p → a = b.
Proof.
  intros H. apply (f_equal (λ z, Z.lxor z p)) in H.
  by rewrite !Z.lxor_assoc, Z.lxor_nilpotent, !Z.lxor_0_r in H.
Qed.

(** The shift register is reversible: bit 0 of the result tells which branch was
    taken, because the polynomial is odd. *)
Lemma crc_bit_inj x y : is_u 16 x → is_u 16 y → crc_bit x = crc_bit y → x = y.
Proof.
  intros Hx Hy. unfold crc_bit. pose proof (land_8000 x Hx). pose proof (land_8000 y Hy).
  assert (∀ z, Z.testbit (wrap 16 (Z.shiftl z 1)) 0 = false) as Hev.
  { intros z. unfold wrap. rewrite Z.mod_pow2_bits_low by lia. by rewrite Z.shiftl_spec_low. }
  assert (∀ z, wrap 16 (Z.shiftl z 1) = (2 * z) mod 65536)%Z as Hw.
  { intros z. unfold wrap. rewrite Z.shiftl_mul_pow2 by lia. f_equal; lia. }
  unfold is_u in *. case_decide; case_decide; intros E.
  - apply lxor_inj_r in E. rewrite !Hw in E. Z.div_mod_to_equations. lia.
  - apply (f_equal (λ z, Z.testbit z 0)) in E. by rewrite Z.lxor_spec, !Hev in E.
  - apply (f_equal (λ z, Z.testbit z 0)) in E. by rewrite Z.lxor_spec, !Hev in E.
  - rewrite !Hw in E. Z.div_mod_to_equations. lia.
Qed.

Lemma lxor_u16 x b : is_u 16 x → is_u 8 b → is_u 16 (Z.lxor x (Z.shiftl b 8)).
Proof.
  intros Hx Hb. assert (is_u 16 (Z.shiftl b 8)) as Hb'
    by (unfold is_u in *; rewrite Z.shiftl_mul_pow2; lia).
  assert (∀ z, is_u 16 z ↔ (0 <= z)%Z ∧ ∀ i, (16 <= i)%Z → Z.testbit z i = false) as Hch.
  { intros z. unfold is_u. split.
    - intros Hz. split; [lia|]. intros i Hi.
      rewrite <- (Z.mod_small z (2 ^ 16)) by lia. by apply Z.mod_pow2_bits_high.
    - intros [H0 Hi]. split; [done|]. destruct (decide (z = 0%Z)) as [->|]; [lia|].
      apply Z.log2_lt_pow2; [lia|]. destruct (Z.lt_ge_cases (Z.log2 z) 16) as [|Hl]; [done|].
      specialize (Hi _ Hl). rewrite Z.bit_log2 in Hi by lia. done. }
  apply Hch in Hx as [Hx0 Hx]. apply Hch in Hb' as [Hb0 Hb']. apply Hch. split.
  - by apply Z.lxor_nonneg.
  - intros i Hi. by rewrite Z.lxor_spec, Hx, Hb'.
Qed.

Lemma iter_crc_bit_inj n x y :
  is_u 16 x → is_u 16 y → Nat.iter n crc_bit x = Nat.iter n crc_bit y → x = y.
Proof.
  revert x y. induction n as [|n IH]; [done|]. intros x y Hx Hy E. simpl in E.
  assert (∀ z, is_u 16 z → is_u 16 (Nat.iter n crc_bit z)) as Hit.
  { intros z Hz. destruct n; [done|]. apply crc_bit_u16. }
  apply crc_bit_inj in E; auto.
Qed.

(** For a fixed byte the register update is injective; for a fixed register it
    is injective in the byte. *)
Lemma crc_byte_inj x y b :
  is_u 16 x → is_u 16 y → is_u 8 b → crc_byte x b = crc_byte y b → x = y.
Proof.
  intros Hx Hy Hb E. rewrite !crc_byte_iter in E.
  pose proof (iter_crc_bit_inj 8 _ _ (lxor_u16 x b Hx Hb) (lxor_u16 y b Hy Hb) E) as E'.
  exact (lxor_inj_r _ _ _ E').
Qed.

Lemma crc_byte_inj_byte x b b' :
  is_u 16 x → is_u 8 b → is_u 8 b' → crc_byte x b = crc_byte x b' → b = b'.
Proof.
  intros Hx Hb Hb' E. rewrite !crc_byte_iter in E.
  pose proof (iter_crc_bit_inj 8 _ _ (lxor_u16 x b Hx Hb) (lxor_u16 x b' Hx Hb') E) as E'.
  clear E. rewrite !(Z.lxor_comm x) in E'. apply lxor_inj_r in E'.
  rewrite !Z.shiftl_mul_pow2 in E' by lia. lia.
Qed.

#[local] Opaque crc_byte.

Lemma crc16_update_inj x y data :
  is_u 16 x → is_u 16 y → bytes_ok data → crc16_update x data = crc16_update y data → x = y.
Proof.
  intros Hx Hy Hd. revert x y Hx Hy. unfold crc16_update.
  induction Hd as [|b data Hb _ IH]; [done|]. simpl. intros x y Hx Hy E.
  apply IH in E; [|apply crc_byte_u16..]. by apply (crc_byte_inj x y b).
Qed.

(** Changing one byte changes the CRC. *)
Lemma crc16_one_byte l1 l2 b b' :
  bytes_ok l1 → bytes_ok l2 → is_u 8 b → is_u 8 b' → b ≠ b' →
  crc16 (l1 ++ b :: l2) ≠ crc16 (l1 ++ b' :: l2).
Proof.
  intros H1 H2 Hb Hb' Hne E. unfold crc16, crc16_update in E. rewrite !foldl_app in E. simpl in E.
  apply (crc16_update_inj _ _ l2) in E; [|apply crc_byte_u16..|done].
  apply crc_byte_inj_byte in E; [done| |done..]. apply crc16_u16.
Qed.

Lemma be_roundtrip x : is_u 16 x → be_val2 ((x / 256) mod 256)%Z (x mod 256)%Z = x.
Proof. unfold is_u, be_val2. intros. Z.div_mod_to_equations. lia. Qed.

(** * Transfers *)

Lemma wire_length_field f :
  raw_ok f → ∃ b3 b4, raw_wire f !! 3 = Some b3 ∧ raw_wire f !! 4 = Some b4 ∧
    le_val [b3; b4] = length16 (fheader f).
Proof.
  intros [[_ Hl] _]. unfold raw_wire, header_bytes. eexists _, _. split; [reflexivity|].
  split; [reflexivity|]. exact (le_roundtrip 2 _ Hl).
Qed.

Lemma unwrap_frame_total buf : ∃ r, unwrap_frame buf = Ret r.
Proof.
  unfold unwrap_frame, HEADER_SIZE. case_decide; [eauto|].
  destruct (idx_lt buf 3) as (b3 & _ & ->); [lia|].
  destruct (idx_lt buf 4) as (b4 & _ & ->); [lia|]. cbn [ebind]. case_decide; [eauto|].
  destruct (idx_lt buf (5 + Z.to_nat (le_val [b3; b4]))) as (hi & _ & ->); [lia|].
  destruct (idx_lt buf (5 + Z.to_nat (le_val [b3; b4]) + 1)) as (lo & _ & ->); [lia|].
  cbn [ebind]. rewrite slice_ok by lia. cbn [ebind]. case_decide; eauto.
Qed.

(** Unwrapping a buffer whose declared size is [n] compares its first [n] bytes
    with the two that follow. *)
Lemma unwrap_frame_split frame hi lo rest b3 b4 :
  frame !! 3 = Some b3 → frame !! 4 = Some b4 →
  length frame = HEADER_SIZE + Z.to_nat (le_val [b3; b4]) →
  unwrap_frame (frame ++ hi :: lo :: rest) =
    Ret (if decide (be_val2 hi lo ≠ crc16 frame) then Err CrcMismatch else Ok frame).
Proof.
  intros H3 H4 Hlen. unfold unwrap_frame. rewrite decide_False by len.
  rewrite (idx_ok _ 3 b3) by (by apply lookup_app_l_Some). cbn [ebind].
  rewrite (idx_ok _ 4 b4) by (by apply lookup_app_l_Some). cbn [ebind].
  rewrite <- Hlen. rewrite decide_False by len.
  rewrite (idx_ok _ (length frame) hi)
    by (rewrite lookup_app_r, Nat.sub_diag by lia; reflexivity). cbn [ebind].
  rewrite (idx_ok _ (length frame + 1) lo)
    by (rewrite lookup_app_r by lia; by replace (length frame + 1 - length frame) with 1 by lia).
  cbn [ebind]. rewrite slice_ok by len. cbn [ebind].
  rewrite Nat.sub_0_r, drop_0, take_app_length. by case_decide.
Qed.

Lemma wrap_frame_cons frame :
  ∃ pad, wrap_frame frame =
    frame ++ (crc16 frame / 256 mod 256)%Z :: (crc16 frame mod 256)%Z :: pad.
Proof. eexists. reflexivity. Qed.

Lemma unwrap_wrap f rest :
  raw_ok f → unwrap_frame (wrap_frame (raw_wire f) ++ rest) = Ret (Ok (raw_wire f)).
Proof.
  intros Hf. destruct (wrap_frame_cons (raw_wire f)) as [pad ->].
  destruct (wire_length_field f Hf) as (b3 & b4 & H3 & H4 & Hl).
  rewrite <- app_assoc. cbn [app]. rewrite (unwrap_frame_split _ _ _ _ b3 b4) by
    (try done; rewrite length_raw_wire by done; unfold raw_size, frame_size; by rewrite Hl).
  rewrite be_roundtrip by apply crc16_u16. by rewrite decide_False by tauto.
Qed.

(** A bulk transfer carries one frame intact. What [wrap_frame] produces for
    any well-formed frame is never a whole number of 64-byte packets (so it ends
    in a short packet), [unwrap_frame] gives the frame back whatever follows the
    CRC, and an empty reader that processes the transfer delivers exactly that
    frame (or reports it as oversized). *)
Theorem transfer_roundtrip (N : nat) (r : FrameReader) (f : RawFrame) (rest : list Z) :
  raw_ok f → reader_inv N r → skip_remaining r = 0 → reader_view r = [] → raw_size f ≤ N →
  length (wrap_frame (raw_wire f)) mod MAX_PACKET_SIZE ≠ 0 ∧
  unwrap_frame (wrap_frame (raw_wire f) ++ rest) = Ret (Ok (raw_wire f)) ∧
  ∃ r', on_transfer N r (wrap_frame (raw_wire f) ++ rest) = Ret (None, [EvFrame f], r') ∧
    reader_inv N r' ∧ skip_remaining r' = 0 ∧ reader_view r' = [].
Proof.
  intros Hf Hi H0 Hv Hz. split; [|split; [by apply unwrap_wrap|]].
  - unfold wrap_frame, MAX_PACKET_SIZE. rewrite !length_app.
    change (length (be_bytes2 _)) with 2.
    generalize (length (raw_wire f)). intros n.
    pose proof (Nat.div_mod_eq (n + 2) 64). pose proof (Nat.div_mod_eq (n + 3) 64).
    case_bool_decide; cbn [length Nat.add]; lia.
  - unfold on_transfer. rewrite unwrap_wrap by done. cbn [ebind].
    destruct (pump_one N r f) as (r' & -> & ?); try done. simpl. eauto.
Qed.

Lemma transfer_roundtrip_witness :
  ∃ r', on_transfer 16 (reader_new 16) (wrap_frame (raw_wire demo_small) ++ [1; 2]%Z)
          = Ret (None, [EvFrame demo_small], r') ∧
    reader_inv 16 r' ∧ skip_remaining r' = 0 ∧ reader_view r' = [].
Proof.
  destruct (transfer_roundtrip 16 (reader_new 16) demo_small [1; 2]%Z) as (_ & _ & H).
  - split; [split; const_u|reflexivity].
  - apply reader_new_inv.
  - reflexivity.
  - reflexivity.
  - vm_compute. lia.
  - exact H.
Defined.

Lemma raw_wire_bytes f : bytes_ok (fpayload f) → bytes_ok (raw_wire f).
Proof. intros. apply bytes_ok_app. auto with words. Qed.

(** A change inside the frame, away from the length field. *)
Lemma unwrap_frame_corrupt f i b b' pad :
  raw_ok f → bytes_ok (fpayload f) → is_u 8 b' → i ≠ 3 → i ≠ 4 →
  raw_wire f !! i = Some b → b ≠ b' →
  let crc := crc16 (raw_wire f) in
  unwrap_frame (<[i := b']> (raw_wire f) ++ (crc / 256 mod 256)%Z :: (crc mod 256)%Z :: pad)
    = Ret (Err CrcMismatch).
Proof.
  intros Hf Hb Hb' H3 H4 Hi Hne crc.
  destruct (wire_length_field f Hf) as (b3 & b4 & E3 & E4 & Hl).
  rewrite (unwrap_frame_split _ _ _ _ b3 b4).
  2-3: by rewrite list_lookup_insert_ne.
  2:{ rewrite length_insert, length_raw_wire by done. unfold raw_size, frame_size. by rewrite Hl. }
  rewrite be_roundtrip by apply crc16_u16. rewrite decide_True; [done|].
  pose proof (raw_wire_bytes f Hb) as Hw. pose proof (lookup_lt_Some _ _ _ Hi).
  subst crc. rewrite insert_take_drop by done.
  rewrite <- (take_drop_middle (raw_wire f) i b Hi) at 1.
  apply crc16_one_byte; auto with words. by apply (Forall_lookup_1 _ _ i b) in Hw.
Qed.

(** Corruption of one byte is always caught. For a well-formed frame, if any
    single byte of the transfer other than the two bytes of the header's length
    field arrives changed (in the frame or in the CRC), [unwrap_frame] answers
    [Mismatch]; and whenever it accepts a buffer, the frame it returns is a
    prefix of it that carries its own CRC. *)
Theorem crc_detects_byte_error (f : RawFrame) (i : nat) (b b' : Z) :
  raw_ok f → bytes_ok (fpayload f) → is_u 8 b' →
  i < raw_size f + 2 → i ≠ 3 → i ≠ 4 →
  wrap_frame (raw_wire f) !! i = Some b → b ≠ b' →
  unwrap_frame (<[i := b']> (wrap_frame (raw_wire f))) = Ret (Err CrcMismatch).
Proof.
  intros Hf Hb Hb' Hi H3 H4. pose proof (length_raw_wire f Hf) as Hlen.
  destruct (wire_length_field f Hf) as (b3 & b4 & E3 & E4 & Hl).
  destruct (wrap_frame_cons (raw_wire f)) as [pad ->].
  pose proof (crc16_u16 (raw_wire f)) as Hc. pose proof (be_roundtrip _ Hc) as Hbe.
  destruct (decide (i < raw_size f)) as [Hlt|Hge].
  { rewrite lookup_app_l by lia. intros Hw Hne. rewrite insert_app_l by lia.
    by apply (unwrap_frame_corrupt f i b b'). }
  rewrite lookup_app_r by lia. intros Hw Hne. rewrite insert_app_r_alt by lia.
  assert (length (raw_wire f) = HEADER_SIZE + Z.to_nat (le_val [b3; b4])) as Hsz
    by (rewrite Hlen; unfold raw_size, frame_size; by rewrite Hl).
  unfold be_val2, is_u in *.
  assert (i = raw_size f ∨ i = raw_size f + 1) as [->| ->] by lia.
  - rewrite Hlen, Nat.sub_diag in Hw |- *. injection Hw as Hw. cbn [insert list_insert].
    rewrite (unwrap_frame_split _ _ _ _ b3 b4) by done.
    rewrite decide_True; [done|]. unfold be_val2. lia.
  - rewrite Hlen in Hw |- *. replace (raw_size f + 1 - raw_size f) with 1 in * by lia.
    injection Hw as Hw. cbn [insert list_insert].
    rewrite (unwrap_frame_split _ _ _ _ b3 b4) by done.
    rewrite decide_True; [done|]. unfold be_val2. lia.
Qed.

Lemma crc_detects_byte_error_witness :
  unwrap_frame (<[6 := 8%Z]> (wrap_frame (raw_wire demo_small))) = Ret (Err CrcMismatch).
Proof.
  apply (crc_detects_byte_error demo_small 6 7%Z 8%Z).
  - split; [split; const_u|reflexivity].
  - repeat (constructor; [const_u|]). constructor.
  - const_u.
  - vm_compute. lia.
  - lia.
  - lia.
  - reflexivity.
  - lia.
Defined.

(** A corrupted length field is not always caught: one flipped bit of the length
    makes the receiver check another, shorter frame, and the two bytes it finds
    there can be that frame's CRC. *)
Example length_corruption_can_pass :
  let f := mkFrame (mkHeader SimpleT 0 3) [0x20; 211; 162]%Z in
  raw_ok f ∧
  unwrap_frame (<[3 := 1%Z]> (wrap_frame (raw_wire f))) = Ret (Ok [3; 0; 0; 1; 0; 0x20]%Z).
Proof. split; [split; [split; const_u|reflexivity]|vm_compute; reflexivity]. Qed.

(** * The packets of a transfer *)

Lemma full_packets_ok n i data :
  (i + n) * 64 ≤ length data →
  ∃ ps, full_packets n i data = Ret ps ∧ concat ps = take (n * 64) (drop (i * 64) data) ∧
    Forall (λ p, length p = 64) ps.
Proof.
  revert i. induction n as [|n IH]; intros i Hl; cbn [full_packets].
  { exists []. split_and!; [done..|constructor]. }
  rewrite slice_ok by lia. cbn [ebind]. destruct (IH (S i)) as (ps & -> & Hc & Hf); [lia|].
  cbn [ebind]. eexists. split; [done|]. split.
  - cbn [concat]. rewrite Hc. replace ((i + 1) * 64 - i * 64) with 64 by lia.
    replace (S i * 64) with (i * 64 + 64) by lia. rewrite <- drop_drop.
    change (S n * 64) with (64 + n * 64). generalize (drop (i * 64) data). intros l.
    by rewrite <- (take_take_drop l 64 (n * 64)).
  - constructor; [len|done].
Qed.

Lemma shiftr8 x : is_u 16 x → wrap 8 (Z.shiftr x 8) = (x / 256 mod 256)%Z.
Proof. intros. unfold wrap. by rewrite Z.shiftr_div_pow2 by lia. Qed.

(** The last packets when they need no second array half: independent of the
    size of the scratch array. *)
Lemma tail_packets_small scratch data full tail :
  length data = full * 64 + tail → tail + 2 ≤ 64 → 64 ≤ scratch →
  tail_packets scratch data full tail (crc16 data) =
    let last := drop (full * 64) data ++ be_bytes2 (crc16 data) in
    Ret (if decide (tail + 2 = 64) then [last; [0%Z]] else [last]).
Proof.
  intros Hl Ht Hs. pose proof (crc16_u16 data) as Hc. unfold tail_packets, be_bytes2.
  rewrite shiftr8 by done. change (wrap 8 (crc16 data)) with (crc16 data mod 256)%Z.
  case_decide as H0.
  2:{ rewrite decide_False by lia. by rewrite drop_ge by lia. }
  rewrite slice_ok by lia. cbn [ebind]. rewrite (take_ge (drop _ _)) by len.
  rewrite copy_at_0 by len. cbn [ebind]. rewrite set_idx_app by len. cbn [ebind].
  rewrite set_idx_app by len. cbn [ebind]. rewrite decide_True by done.
  rewrite slice_ok by len. cbn [ebind]. rewrite Nat.sub_0_r, drop_0.
  rewrite take_app_length' by len. by rewrite <- app_assoc.
Qed.

(** A tail of 63 bytes needs 65 bytes of scratch. *)
Lemma tail_packets_63 scratch data full :
  length data = full * 64 + 63 → 64 ≤ scratch →
  tail_packets scratch data full 63 (crc16 data) =
    if decide (65 ≤ scratch)
    then Ret [drop (full * 64) data ++ take 1 (be_bytes2 (crc16 data));
              drop 1 (be_bytes2 (crc16 data))]
    else Panic.
Proof.
  intros Hl Hs. pose proof (crc16_u16 data) as Hc. unfold tail_packets, be_bytes2.
  rewrite shiftr8 by done. change (wrap 8 (crc16 data)) with (crc16 data mod 256)%Z.
  rewrite decide_True by lia.
  rewrite slice_ok by lia. cbn [ebind]. rewrite (take_ge (drop _ _)) by len.
  rewrite copy_at_0 by len. cbn [ebind]. rewrite set_idx_app by len. cbn [ebind].
  destruct (decide (65 ≤ scratch)) as [H65|H65].
  - rewrite set_idx_app by len. cbn [ebind]. rewrite decide_False by lia.
    rewrite <- app_assoc, !slice_ok by len. cbn [ebind]. rewrite Nat.sub_0_r, drop_0.
    set (d := drop (full * 64) data). assert (length d = 63) as Hd by (subst d; len).
    rewrite take_app_length' by len. rewrite drop_app_length' by len. done.
  - unfold set_idx. rewrite decide_False by len. done.
Qed.

Lemma length_be_bytes2 x : length (be_bytes2 x) = 2.
Proof. reflexivity. Qed.
#[local] Hint Rewrite length_be_bytes2 : len.

(** The last packets, when the scratch array has room for the CRC. *)
Lemma tail_packets_ok scratch data full tail :
  length data = full * 64 + tail → tail < 64 → 66 ≤ scratch →
  ∃ init last, tail_packets scratch data full tail (crc16 data) = Ret (init ++ [last]) ∧
    concat (init ++ [last]) = drop (full * 64) data ++ be_bytes2 (crc16 data)
      ++ (if bool_decide (tail = 62) then [0%Z] else []) ∧
    Forall (λ p, length p = 64) init ∧ 0 < length last < 64.
Proof.
  intros Hl Ht Hs. destruct (decide (tail = 63)) as [->|Hne].
  - rewrite tail_packets_63, decide_True by lia. eexists [_], _. split; [done|].
    split_and!; [|constructor; [len|constructor]|simpl; lia..].
    simpl. by rewrite <- app_assoc.
  - rewrite tail_packets_small by lia. cbv zeta.
    assert (length (drop (full * 64) data ++ be_bytes2 (crc16 data)) = tail + 2) as Hlen by len.
    case_decide as E; [eexists [_], _|eexists [], _]; (split; [done|]).
    + rewrite bool_decide_true by lia. split_and!; [|constructor; [lia|constructor]|simpl; lia..].
      cbn [concat app]. by rewrite <- app_assoc.
    + rewrite bool_decide_false by lia. split_and!; [|constructor|lia..].
      cbn [concat app]. by rewrite !app_nil_r.
Qed.

Lemma pad_condition n full tail :
  n = full * 64 + tail → tail < 64 → (n + 2) mod MAX_PACKET_SIZE = 0 ↔ tail = 62.
Proof.
  intros -> Ht. unfold MAX_PACKET_SIZE.
  pose proof (Nat.div_mod_eq (full * 64 + tail + 2) 64).
  pose proof (Nat.mod_upper_bound (full * 64 + tail + 2) 64). lia.
Qed.

Lemma transfer_packets_ok scratch data :
  66 ≤ scratch →
  ∃ init last, transfer_packets scratch data = Ret (init ++ [last]) ∧
    concat (init ++ [last]) = wrap_frame data ∧
    Forall (λ p, length p = 64) init ∧ 0 < length last < 64.
Proof.
  intros Hs. pose proof (Nat.div_mod_eq (length data) 64) as Hdm.
  pose proof (Nat.mod_upper_bound (length data) 64 ltac:(lia)) as Hub.
  unfold transfer_packets. rewrite usub_ok by lia. cbn [ebind].
  destruct (full_packets_ok (length data / 64) 0 data) as (ps & -> & Hc & Hf); [lia|].
  cbn [ebind].
  destruct (tail_packets_ok scratch data (length data / 64) (length data - length data / 64 * 64))
    as (init & last & -> & Ht & Hi & Hl); [lia..|].
  cbn [ebind]. exists (ps ++ init), last. split_and!.
  - by rewrite app_assoc.
  - rewrite <- app_assoc, concat_app, Hc, Ht. cbn [Nat.mul]. rewrite drop_0.
    rewrite app_assoc, take_drop. unfold wrap_frame. do 2 f_equal.
    pose proof (pad_condition (length data) (length data / 64)
                  (length data - length data / 64 * 64) ltac:(lia) ltac:(lia)).
    repeat case_bool_decide; done || tauto.
  - by apply Forall_app.
  - lia.
  - lia.
Qed.

(** The device sends what the host expects. For every reply, the packets
    [deliver_reply] hands to the endpoint concatenate to exactly the host's
    [wrap_frame] of the frame, every packet but the last is full, and the last
    one is a non-empty short packet, the host's end-of-transfer mark. *)
Theorem deliver_reply_is_wrap_frame (data : list Z) :
  ∃ init last, deliver_reply_packets data = Ret (init ++ [last]) ∧
    concat (init ++ [last]) = wrap_frame data ∧
    Forall (λ p, length p = 64) init ∧ 0 < length last < 64.
Proof.
  by apply transfer_packets_ok.
Qed.

(** The fob channel's writer agrees with [deliver_reply] on every frame
    except those of length [63 mod 64], on which it panics: its scratch array
    has 64 bytes, and the low CRC byte goes to index 64. *)
Theorem fob_write_usb_panics_iff (data : list Z) :
  (length data mod 64 = 63 → fob_write_usb_packets data = Panic) ∧
  (length data mod 64 ≠ 63 → fob_write_usb_packets data = deliver_reply_packets data).
Proof.
  pose proof (Nat.div_mod_eq (length data) 64) as Hdm.
  pose proof (Nat.mod_upper_bound (length data) 64 ltac:(lia)) as Hub.
  unfold fob_write_usb_packets, deliver_reply_packets, transfer_packets.
  rewrite usub_ok by lia. cbn [ebind].
  destruct (full_packets_ok (length data / 64) 0 data) as (ps & -> & _); [lia|]. cbn [ebind].
  replace (length data - length data / 64 * 64) with (length data mod 64) by lia.
  split; intros H.
  - rewrite H, tail_packets_63, decide_False by lia. done.
  - by rewrite !tail_packets_small by lia.
Qed.

Lemma fob_write_usb_panics_iff_witness :
  fob_write_usb_packets (replicate 63 7%Z) = Panic ∧
  fob_write_usb_packets (replicate 62 7%Z) = deliver_reply_packets (replicate 62 7%Z).
Proof.
  split.
  - apply (fob_write_usb_panics_iff (replicate 63 7%Z)). reflexivity.
  - apply (fob_write_usb_panics_iff (replicate 62 7%Z)). vm_compute. discriminate.
Defined.
