(* ===== verification/Arena.v ===== *)
(** The resource arena of the IPC servers, [firmware/modules/ipc/src/arena.rs]:
    a fixed-size generational arena with reference-counted slots, opaque 64-bit
    handle keys, priority eviction and two-phase handle transfer.

    The [Cell]s of the source are fields of the state, and an operation returns
    its result with the new state. Array accesses are checked, so a theorem that
    ends in [Ret] excludes a panic. [AllocError], [CloneError] and the protocol
    codes keep the source's constructors. *)

From S2P Require Import Prelude.

Inductive AllocError := NoFreeSlot | NoFreeEntry.
Inductive CloneError := InvalidHandle | ArenaFull | ServerDied.

Record HandleEntry := mkHEntry {
  h_key : Z;
  h_slot : nat;
  h_gen : Z;
  h_occupied : bool;
  h_owner : Z;
  h_priority : Z;
  h_pending_to : option Z;
}.

Record Slot (T : Type) := mkSlot {
  s_value : option T;
  s_gen : Z;
  s_refcount : Z;
}.
Arguments mkSlot {T} _ _ _.
Arguments s_value {T} _.
Arguments s_gen {T} _.
Arguments s_refcount {T} _.

Record Arena (T : Type) := mkArena {
  a_slots : list (Slot T);
  a_map : list HandleEntry;
  a_next_key : Z;
}.
Arguments mkArena {T} _ _ _.
Arguments a_slots {T} _.
Arguments a_map {T} _.
Arguments a_next_key {T} _.

(** [usize as u8] *)
Definition as_u8 (n : nat) : nat := n mod 256.

(** The key generator, a 64-bit linear congruential generator. *)
Definition LCG_MUL : Z := 6364136223846793005.
Definition LCG_ADD : Z := 1442695040888963407.
Definition lcg (key : Z) : Z := wrap 64 (wrap 64 (key * LCG_MUL) + LCG_ADD).

Definition U16_MAX : Z := 65535.
Definition I8_MIN : Z := -128.

(** ** Entry updates *)

Definition entry_free (e : HandleEntry) : HandleEntry :=
  mkHEntry (h_key e) (h_slot e) (h_gen e) false (h_owner e) (h_priority e) None.

Definition entry_pending (e : HandleEntry) (p : option Z) : HandleEntry :=
  mkHEntry (h_key e) (h_slot e) (h_gen e) (h_occupied e) (h_owner e) (h_priority e) p.

Definition EMPTY_ENTRY : HandleEntry := mkHEntry 0 0 0 false 0 0 None.

(** The predicates the source's searches use. *)
Definition has_key (h : Z) (e : HandleEntry) : bool :=
  h_occupied e && bool_decide (h_key e = h).
Definition has_key_owner (h owner : Z) (e : HandleEntry) : bool :=
  has_key h e && bool_decide (h_owner e = owner).
Definition not_pending (e : HandleEntry) : bool := bool_decide (h_pending_to e = None).
Definition key_free (h : Z) (e : HandleEntry) : bool := has_key h e && not_pending e.
Definition owned_free (h owner : Z) (e : HandleEntry) : bool :=
  has_key_owner h owner e && not_pending e.
Definition owned_pending (h owner : Z) (e : HandleEntry) : bool :=
  has_key_owner h owner e && negb (not_pending e).
Definition pending_for (h acquirer : Z) (e : HandleEntry) : bool :=
  has_key h e && bool_decide (h_pending_to e = Some acquirer).

Section arena.
Context {T : Type}.
Implicit Types (a : Arena T) (s : Slot T) (e : HandleEntry).

Definition EMPTY_SLOT : Slot T := mkSlot None 0 0.

(** [Arena::new], with [N] as an argument; the assertion bounds [N]. *)
Definition arena_new (N : nat) (kind : Z) : exec (Arena T) :=
  if decide (N ≤ 255) then
    Ret (mkArena (replicate N EMPTY_SLOT) (replicate N EMPTY_ENTRY)
                 (Z.lor (Z.shiftl kind 56) 1))
  else Panic.

Definition set_entry a (i : nat) e : Arena T :=
  mkArena (a_slots a) (<[i := e]> (a_map a)) (a_next_key a).
Definition set_slot a (i : nat) s : Arena T :=
  mkArena (<[i := s]> (a_slots a)) (a_map a) (a_next_key a).

(** [next_key]: the key handed out, and the advanced generator. *)
Definition next_key a : Z * Arena T :=
  (a_next_key a, mkArena (a_slots a) (a_map a) (lcg (a_next_key a))).

(** [slot.generation == e.generation && slot.value.is_some()] *)
Definition live s e : bool :=
  bool_decide (s_gen s = h_gen e) && bool_decide (is_Some (s_value s)).

Definition release_entry a (entry_idx : nat) : exec (option T * Arena T) :=
  let! e := idx (a_map a) entry_idx in
  let a := set_entry a entry_idx (entry_free e) in
  let! s := idx (a_slots a) (h_slot e) in
  if negb (live s e) then Ret (None, a) else
  let refcount := Z.max 0 (s_refcount s - 1) in
  if decide (refcount = 0%Z) then
    Ret (s_value s, set_slot a (h_slot e) (mkSlot None (wrap 32 (s_gen s + 1)) refcount))
  else
    Ret (None, set_slot a (h_slot e) (mkSlot (s_value s) (s_gen s) refcount)).

(** A loop [for i in ixs { if cond(i) { self.release_entry(i); } }], the
    condition being evaluated on the state the earlier rounds left. *)
Fixpoint release_where (cond : Arena T → HandleEntry → exec bool) (ixs : list nat) a
  : exec (Arena T) :=
  match ixs with
  | [] => Ret a
  | i :: ixs =>
      let! e := idx (a_map a) i in
      let! c := cond a e in
      if (c : bool) then
        let! r := release_entry a i in release_where cond ixs (snd r)
      else release_where cond ixs a
  end.

(** The highest priority of the entries that refer to slot [i], the inner loop
    of [evict_slot]'s first pass. *)
Definition max_prio (map : list HandleEntry) (i : nat) s : Z :=
  foldl (λ m e,
    if h_occupied e && bool_decide (h_slot e = as_u8 i) && bool_decide (h_gen e = s_gen s)
       && bool_decide (m < h_priority e)%Z
    then h_priority e else m) I8_MIN map.

(** The first pass of [evict_slot]: [best] is (slot, max priority, refcount). *)
Fixpoint evict_scan (map : list HandleEntry) (prio : Z) (i : nat) (slots : list (Slot T))
    (best : option (nat * Z * Z)) : option (nat * Z * Z) :=
  match slots with
  | [] => best
  | s :: slots =>
      if bool_decide (s_value s = None) then evict_scan map prio (S i) slots best else
      let mp := max_prio map i s in
      if decide (prio ≤ mp)%Z then evict_scan map prio (S i) slots best else
      let dominated :=
        match best with
        | None => true
        | Some (_, bp, br) =>
            bool_decide (s_refcount s < br)%Z
            || (bool_decide (s_refcount s = br) && bool_decide (mp < bp)%Z)
        end in
      evict_scan map prio (S i) slots
        (if dominated then Some (as_u8 i, mp, s_refcount s) else best)
  end.

Definition victim_cond (victim : nat) a e : exec bool :=
  let! s := idx (a_slots a) victim in
  Ret (h_occupied e && bool_decide (h_slot e = victim) && bool_decide (h_gen e = s_gen s)).

(** [evict_slot]; its closing [debug_assert!] is checked. *)
Definition evict_slot a (requester_priority : Z) : exec (option nat * Arena T) :=
  match evict_scan (a_map a) requester_priority 0 (a_slots a) None with
  | None => Ret (None, a)
  | Some (victim, _, _) =>
      let! a := release_where (victim_cond victim) (seq 0 (length (a_map a))) a in
      let! s := idx (a_slots a) victim in
      if bool_decide (s_value s = None) then Ret (Some victim, a) else Panic
  end.

(** The write of a fresh map entry that ends [alloc] and [clone_handle]. *)
Definition install a (map_idx slot_idx : nat) (generation owner priority : Z)
  : exec (Z * Arena T) :=
  let (key, a) := next_key a in
  let! m := set_idx (a_map a) map_idx
              (mkHEntry key slot_idx generation true owner priority None) in
  Ret (key, mkArena (a_slots a) m (a_next_key a)).

Definition free_entry a : option nat :=
  fst <$> list_find (λ e, h_occupied e = false) (a_map a).
Definition free_slot a : option nat :=
  fst <$> list_find (λ s, s_value s = None) (a_slots a).

Definition alloc a (value : T) (owner priority : Z) : exec (result Z AllocError * Arena T) :=
  let! found :=
    match free_slot a with
    | Some i => Ret (Some i, a)
    | None => evict_slot a priority
    end in
  let a := snd found in
  match fst found with
  | None => Ret (Err NoFreeSlot, a)
  | Some slot_idx =>
      match free_entry a with
      | None => Ret (Err NoFreeEntry, a)
      | Some map_idx =>
          let! s := idx (a_slots a) slot_idx in
          let a := set_slot a slot_idx (mkSlot (Some value) (s_gen s) 1) in
          let! ka := install a map_idx (as_u8 slot_idx) (s_gen s) owner priority in
          Ret (Ok (fst ka), snd ka)
      end
  end.

(** The loop of [find_eviction_victim], at index [i] of the map. *)
Fixpoint victim_scan (prio : Z) (exclude : option (nat * Z)) (i : nat)
    (es : list HandleEntry) (best : option (nat * Z)) : option (nat * Z) :=
  match es with
  | [] => best
  | e :: es =>
      let skip := match exclude with
                  | Some (slot, gen) => bool_decide (h_slot e = slot) && bool_decide (h_gen e = gen)
                  | None => false
                  end in
      victim_scan prio exclude (S i) es
        (if h_occupied e && negb skip && bool_decide (h_priority e < prio)%Z then
           match best with
           | None => Some (i, h_priority e)
           | Some (_, best_p) =>
               if decide (h_priority e < best_p)%Z then Some (i, h_priority e) else best
           end
         else best)
  end.

Definition find_eviction_victim a (prio : Z) (exclude : option (nat * Z)) : option nat :=
  fst <$> victim_scan prio exclude 0 (a_map a) None.

(** The [find_map] of [lookup] and [lookup_owned] over the map. *)
Fixpoint lookup_in (slots : list (Slot T)) (p : HandleEntry → bool) (es : list HandleEntry)
  : exec (option nat) :=
  match es with
  | [] => Ret None
  | e :: es =>
      if p e then
        let! s := idx slots (h_slot e) in
        if live s e then Ret (Some (h_slot e)) else lookup_in slots p es
      else lookup_in slots p es
  end.

Definition lookup a (h : Z) : exec (option nat) :=
  lookup_in (a_slots a) (key_free h) (a_map a).
Definition lookup_owned a (h owner : Z) : exec (option nat) :=
  lookup_in (a_slots a) (owned_free h owner) (a_map a).

(** [get] and [get_mut]: the value a handle gives access to. *)
Definition value_at a (o : option nat) : exec (option T) :=
  match o with
  | None => Ret None
  | Some i => let! s := idx (a_slots a) i in Ret (s_value s)
  end.
Definition get a (h : Z) : exec (option T) :=
  let! o := lookup a h in value_at a o.
Definition get_mut_owned a (h owner : Z) : exec (option T) :=
  let! o := lookup_owned a h owner in value_at a o.

Definition remove_at a (o : option nat) : exec (option T * Arena T) :=
  match o with None => Ret (None, a) | Some i => release_entry a i end.
Definition remove a (h : Z) : exec (option T * Arena T) :=
  remove_at a (fst <$> list_find (λ e, has_key h e = true) (a_map a)).
Definition remove_owned a (h owner : Z) : exec (option T * Arena T) :=
  remove_at a (fst <$> list_find (λ e, has_key_owner h owner e = true) (a_map a)).

Definition remove_by_owner a (task_index : Z) : exec (Arena T) :=
  release_where (λ _ e, Ret (h_occupied e && bool_decide (h_owner e = task_index)))
    (seq 0 (length (a_map a))) a.

Definition clone_handle a (h owner new_owner priority : Z)
  : exec (result Z CloneError * Arena T) :=
  match list_find (λ e, owned_free h owner e = true) (a_map a) with
  | None => Ret (Err InvalidHandle, a)
  | Some (_, src) =>
      let! s := idx (a_slots a) (h_slot src) in
      if negb (live s src) then Ret (Err InvalidHandle, a) else
      if decide (s_refcount s = U16_MAX) then Ret (Err ArenaFull, a) else
      let! found :=
        match free_entry a with
        | Some i => Ret (Some i, a)
        | None =>
            match find_eviction_victim a priority (Some (h_slot src, h_gen src)) with
            | None => Ret (None, a)
            | Some victim => let! r := release_entry a victim in Ret (Some victim, snd r)
            end
        end in
      let a := snd found in
      match fst found with
      | None => Ret (Err ArenaFull, a)
      | Some map_idx =>
          let! s := idx (a_slots a) (h_slot src) in
          if decide (s_refcount s = U16_MAX) then Panic else
          let a := set_slot a (h_slot src) (mkSlot (s_value s) (s_gen s) (s_refcount s + 1)) in
          let! ka := install a map_idx (h_slot src) (h_gen src) new_owner priority in
          Ret (Ok (fst ka), snd ka)
      end
  end.

(** ** Two-phase transfer *)

Definition prepare_transfer a (h owner target : Z) : exec (bool * Arena T) :=
  match list_find (λ e, owned_free h owner e = true) (a_map a) with
  | None => Ret (false, a)
  | Some (i, e) =>
      let! s := idx (a_slots a) (h_slot e) in
      if negb (live s e) then Ret (false, a)
      else Ret (true, set_entry a i (entry_pending e (Some target)))
  end.

Definition cancel_transfer a (h owner : Z) : bool * Arena T :=
  match list_find (λ e, owned_pending h owner e = true) (a_map a) with
  | None => (false, a)
  | Some (i, e) => (true, set_entry a i (entry_pending e None))
  end.

Definition acquire a (h acquirer new_priority : Z) : exec (bool * Arena T) :=
  match list_find (λ e, pending_for h acquirer e = true) (a_map a) with
  | None => Ret (false, a)
  | Some (i, e) =>
      let! s := idx (a_slots a) (h_slot e) in
      if negb (live s e) then Ret (false, a)
      else Ret (true, set_entry a i
             (mkHEntry (h_key e) (h_slot e) (h_gen e) (h_occupied e) acquirer new_priority None))
  end.

Definition try_drop a (h owner : Z) : exec (bool * Arena T) :=
  match list_find (λ e, has_key_owner h owner e = true) (a_map a) with
  | Some (i, _) => let! r := release_entry a i in Ret (true, snd r)
  | None => Ret (false, a)
  end.

(** The loop of [cancel_transfers_to], over the indices [ixs]. *)
Fixpoint cancel_loop (target : Z) (ixs : list nat) a : exec (Arena T) :=
  match ixs with
  | [] => Ret a
  | i :: ixs =>
      let! e := idx (a_map a) i in
      if h_occupied e && bool_decide (h_pending_to e = Some target) then
        let! s := idx (a_slots a) (h_slot e) in
        cancel_loop target ixs (if live s e then set_entry a i (entry_pending e None) else a)
      else cancel_loop target ixs a
  end.
Definition cancel_transfers_to a (target : Z) : exec (Arena T) :=
  cancel_loop target (seq 0 (length (a_map a))) a.
End arena.

(** * Keys

    The handle keys of the arena do not repeat: the 64-bit linear congruential
    generator of [Arena::next_key] has full period. *)

#[local] Open Scope Z_scope.

(** [sum_pow a n] is [1 + a + ... + a^(n-1)]. *)
Fixpoint sum_pow (a : Z) (n : nat) : Z :=
  match n with O => 0 | S n => sum_pow a n + a ^ Z.of_nat n end.

(** The [n]-th key from seed [x]. *)
Definition key_at (x : Z) (n : nat) : Z := Nat.iter n lcg x.

Lemma sum_pow_add a n m : sum_pow a (n + m) = sum_pow a n + a ^ Z.of_nat n * sum_pow a m.
Proof.
  induction m as [|m IH]; [rewrite Nat.add_0_r; cbn; lia|].
  rewrite Nat.add_succ_r. cbn [sum_pow]. rewrite IH, Nat2Z.inj_add, Z.pow_add_r by lia. lia.
Qed.

Lemma sum_pow_double a n : sum_pow a (n + n) = sum_pow a n * (1 + a ^ Z.of_nat n).
Proof. rewrite sum_pow_add. lia. Qed.

Lemma pow_mod4 a n : a mod 4 = 1 → a ^ Z.of_nat n mod 4 = 1.
Proof.
  intros Ha. induction n as [|n IH]; [done|].
  rewrite Nat2Z.inj_succ, Z.pow_succ_r by lia. by rewrite Z.mul_mod, Ha, IH.
Qed.

Lemma sum_pow_mod2 a n : a mod 4 = 1 → sum_pow a n mod 2 = Z.of_nat n mod 2.
Proof.
  intros Ha. induction n as [|n IH]; [done|]. cbn [sum_pow].
  pose proof (pow_mod4 a n Ha). dlia.
Qed.

(** An odd factor does not contribute to divisibility by a power of two. *)
Lemma odd_cancel k o x : o mod 2 = 1 →
  (2 ^ Z.of_nat k | x * o) → (2 ^ Z.of_nat k | x).
Proof.
  intros Ho. revert x. induction k as [|k IH]; intros x Hd; [apply Z.divide_1_l|].
  rewrite Nat2Z.inj_succ, Z.pow_succ_r in * by lia.
  assert (x mod 2 = 0) as Hx.
  { destruct Hd as [q Hq]. apply (f_equal (λ z, z mod 2)) in Hq.
    rewrite Z.mul_mod, Ho, Z.mul_shuffle3, Z.mul_1_r, Z.mod_mod in Hq by lia.
    rewrite Hq, Z.mul_comm. apply Z_mod_mult. }
  assert (∃ y, x = 2 * y) as [y ->] by (exists (x / 2); dlia).
  rewrite <- Z.mul_assoc in Hd. apply Z.mul_divide_mono_l, IH.
  by apply Z.mul_divide_cancel_l in Hd.
Qed.

(** The 2-adic valuation of [sum_pow a d] is that of [d], for [a = 1 mod 4]. *)
Lemma sum_pow_divide a k d : a mod 4 = 1 →
  (2 ^ Z.of_nat k | sum_pow a d) → (2 ^ Z.of_nat k | Z.of_nat d).
Proof.
  intros Ha. revert d. induction k as [|k IH]; intros d Hd; [apply Z.divide_1_l|].
  assert (Z.of_nat d mod 2 = 0) as Heven.
  { rewrite <- (sum_pow_mod2 a) by done. destruct Hd as [q ->].
    rewrite Nat2Z.inj_succ, Z.pow_succ_r, Z.mul_shuffle3, Z.mul_comm by lia. apply Z_mod_mult. }
  assert (∃ m, d = (m + m)%nat) as [m ->] by (exists (Z.to_nat (Z.of_nat d / 2)); dlia).
  rewrite sum_pow_double in Hd. pose proof (pow_mod4 a m Ha) as Hp.
  set (p := a ^ Z.of_nat m) in *. assert (1 + p = 2 * (2 * (p / 4) + 1)) as E by dlia.
  rewrite E, Nat2Z.inj_succ, Z.pow_succ_r in * by lia.
  replace (sum_pow a m * (2 * (2 * (p / 4) + 1))) with (2 * (sum_pow a m * (2 * (p / 4) + 1))) in Hd by lia.
  apply Z.mul_divide_cancel_l in Hd; [|lia].
  apply odd_cancel in Hd; [|dlia].
  destruct (IH m Hd) as [q Hq]. exists q. lia.
Qed.

Lemma lcg_mod x : lcg x = (x * LCG_MUL + LCG_ADD) mod 2 ^ 64.
Proof. unfold lcg, wrap. by rewrite Zplus_mod_idemp_l. Qed.

(** The closed form of the generator. *)
Lemma key_at_closed x n : is_u 64 x →
  key_at x n = (x * LCG_MUL ^ Z.of_nat n + LCG_ADD * sum_pow LCG_MUL n) mod 2 ^ 64.
Proof.
  intros Hx. induction n as [|n IH].
  { cbn [key_at Nat.iter sum_pow]. rewrite Z.mul_0_r, Z.add_0_r, Z.mul_1_r.
    symmetry. by apply Z.mod_small. }
  change (key_at x (S n)) with (lcg (key_at x n)). rewrite IH, lcg_mod.
  rewrite <- Z.add_mod_idemp_l, Z.mul_mod_idemp_l, Z.add_mod_idemp_l by done. f_equal.
  rewrite <- Nat.add_1_l, sum_pow_add, Nat2Z.inj_add, Z.pow_add_r by lia. cbn [sum_pow].
  change (Z.of_nat 1) with 1. change (Z.of_nat 0) with 0. rewrite Z.pow_1_r, Z.pow_0_r. ring.
Qed.

Lemma pow_sum_pow a n : a ^ Z.of_nat n - 1 = (a - 1) * sum_pow a n.
Proof.
  induction n as [|n IH]; [cbn; lia|].
  rewrite Nat2Z.inj_succ, Z.pow_succ_r by lia. cbn [sum_pow]. lia.
Qed.

Lemma odd_mul x y : x mod 2 = 1 → y mod 2 = 1 → (x * y) mod 2 = 1.
Proof. intros Hx Hy. by rewrite Z.mul_mod, Hx, Hy. Qed.

(** Two keys less than a full period apart differ. *)
Lemma key_at_step_inj x i d : is_u 64 x → 0 < Z.of_nat d < 2 ^ 64 → key_at x i ≠ key_at x (i + d).
Proof.
  intros Hx Hd E. rewrite !key_at_closed in E by done. apply eq_sym, Z.sub_move_0_r in E.
  assert (LCG_MUL mod 4 = 1) as HM by reflexivity.
  assert (2 ^ Z.of_nat 64 | Z.of_nat d) as Hdiv.
  { apply (sum_pow_divide LCG_MUL); [done|].
    apply (odd_cancel _ (LCG_MUL ^ Z.of_nat i * (x * (LCG_MUL - 1) + LCG_ADD))).
    { apply odd_mul; [pose proof (pow_mod4 LCG_MUL i HM); dlia|]. unfold LCG_MUL, LCG_ADD. dlia. }
    change (2 ^ Z.of_nat 64) with (2 ^ 64). apply Z.mod_divide; [done|].
    apply (f_equal (λ z, z mod 2 ^ 64)) in E. rewrite <- Zminus_mod in E.
    change (0 mod 2 ^ 64) with 0 in E. rewrite <- E. f_equal. rewrite sum_pow_add, Nat2Z.inj_add, Z.pow_add_r by lia.
    replace (LCG_MUL ^ Z.of_nat d) with ((LCG_MUL - 1) * sum_pow LCG_MUL d + 1)
      by (rewrite <- pow_sum_pow; lia). ring. }
  apply Z.divide_pos_le in Hdiv; [|lia]. change (2 ^ Z.of_nat 64) with (2 ^ 64) in Hdiv. lia.
Qed.

Lemma key_at_inj x i j : is_u 64 x → Z.of_nat i < 2 ^ 64 → Z.of_nat j < 2 ^ 64 →
  key_at x i = key_at x j → i = j.
Proof.
  intros Hx Hi Hj E. destruct (Nat.lt_trichotomy i j) as [H|[H|H]]; [|done|]; exfalso.
  - apply (key_at_step_inj x i (j - i)); [done|lia|]. by replace (i + (j - i))%nat with j by lia.
  - apply (key_at_step_inj x j (i - j)); [done|lia|]. by replace (j + (i - j))%nat with i by lia.
Qed.
