(* ===== verification/ArenaSpec.v ===== *)
(** The arena's invariant, that every operation keeps it without panicking, and
    what the operations mean to the holders of handles. *)

From stdpp Require Import sets.
From S2P Require Import Prelude Arena.

(** * The invariant *)

(** How many occupied map entries refer to slot [i]. *)
Definition points (i : nat) (e : HandleEntry) : nat :=
  if h_occupied e && bool_decide (h_slot e = i) then 1 else 0.

Fixpoint refs (m : list HandleEntry) (i : nat) : nat :=
  match m with [] => 0 | e :: m => points i e + refs m i end.

Lemma has_key_true h e : has_key h e = true ↔ h_occupied e = true ∧ h_key e = h.
Proof. unfold has_key. by rewrite andb_true_iff, bool_decide_eq_true. Qed.

Lemma has_key_owner_true h o e :
  has_key_owner h o e = true ↔ h_occupied e = true ∧ h_key e = h ∧ h_owner e = o.
Proof.
  unfold has_key_owner. rewrite andb_true_iff, has_key_true, bool_decide_eq_true. tauto.
Qed.

Lemma key_free_true h e :
  key_free h e = true ↔ h_occupied e = true ∧ h_key e = h ∧ h_pending_to e = None.
Proof.
  unfold key_free, not_pending. rewrite andb_true_iff, has_key_true, bool_decide_eq_true. tauto.
Qed.

Lemma owned_free_true h w e : owned_free h w e = true ↔
  h_occupied e = true ∧ h_key e = h ∧ h_owner e = w ∧ h_pending_to e = None.
Proof.
  unfold owned_free, not_pending.
  rewrite andb_true_iff, has_key_owner_true, bool_decide_eq_true. tauto.
Qed.

Lemma pending_for_true h t e : pending_for h t e = true ↔
  h_occupied e = true ∧ h_key e = h ∧ h_pending_to e = Some t.
Proof.
  unfold pending_for. rewrite andb_true_iff, has_key_true, bool_decide_eq_true. tauto.
Qed.

Lemma owned_pending_true h w e : owned_pending h w e = true ↔
  h_occupied e = true ∧ h_key e = h ∧ h_owner e = w ∧ h_pending_to e ≠ None.
Proof.
  unfold owned_pending, not_pending.
  rewrite andb_true_iff, has_key_owner_true, negb_true_iff, bool_decide_eq_false. tauto.
Qed.

Section wf.
Context {T : Type}.
Implicit Types (a : Arena T) (s : Slot T) (e : HandleEntry) (m : list HandleEntry).

Record arena_wf (N : nat) (a : Arena T) : Prop := {
  wf_N : N ≤ 255;
  wf_slots : length (a_slots a) = N;
  wf_map : length (a_map a) = N;
  wf_live : ∀ j e, a_map a !! j = Some e → h_occupied e = true →
    ∃ s, a_slots a !! h_slot e = Some s ∧ live s e = true;
  wf_count : ∀ i s, a_slots a !! i = Some s → is_Some (s_value s) →
    s_refcount s = Z.of_nat (refs (a_map a) i) ∧ 0 < refs (a_map a) i;
  wf_prio : ∀ j e, a_map a !! j = Some e → h_occupied e = true → is_i 8 (h_priority e);
}.

Lemma live_true s e : live s e = true ↔ s_gen s = h_gen e ∧ is_Some (s_value s).
Proof. unfold live. by rewrite andb_true_iff, !bool_decide_eq_true. Qed.

Lemma refs_insert m j e e' i : m !! j = Some e →
  refs (<[j := e']> m) i + points i e = refs m i + points i e'.
Proof.
  revert j. induction m as [|x m IH]; intros [|j] Hj; simplify_eq/=; [lia|].
  specialize (IH j Hj). lia.
Qed.

Lemma refs_elem m j e i : m !! j = Some e → h_occupied e = true → h_slot e = i → 0 < refs m i.
Proof.
  intros Hj Ho Hi. pose proof (refs_insert m j e (entry_free e) i Hj) as H.
  unfold points in H at 1. rewrite Ho, bool_decide_true in H by done. cbn in H. lia.
Qed.

Lemma refs_pos m i : 0 < refs m i → ∃ j e, m !! j = Some e ∧ h_occupied e = true ∧ h_slot e = i.
Proof.
  induction m as [|e m IH]; cbn [refs]; [lia|]. intros H.
  destruct (decide (points i e = 0)) as [Hp|Hp].
  - destruct IH as (j & e' & ?); [lia|]. by exists (S j), e'.
  - exists 0, e. unfold points in Hp. destruct (h_occupied e) eqn:Ho; [|done]. cbn in Hp.
    by case_bool_decide.
Qed.

Lemma refs_length m i : refs m i ≤ length m.
Proof.
  induction m as [|e m IH]; cbn; [lia|]. unfold points. destruct (_ && _); lia.
Qed.

(** A slot without a value has no entries. *)
Lemma wf_free N a i s : arena_wf N a → a_slots a !! i = Some s → s_value s = None →
  refs (a_map a) i = 0.
Proof.
  intros Hwf Hs Hv. destruct (refs (a_map a) i) eqn:E; [done|].
  destruct (refs_pos (a_map a) i) as (j & e & Hj & Ho & Hi); [lia|].
  destruct (wf_live N a Hwf j e Hj Ho) as (s' & Hs' & Hl). apply live_true in Hl as [_ Hl].
  rewrite Hi in Hs'. simplify_eq. rewrite Hv in Hl. by destruct Hl.
Qed.

(** ** Releasing one entry *)

(** The slot after one of its [n] entries has been released. *)
Definition released (n : nat) s : Slot T :=
  if decide (n = 1) then mkSlot None (wrap 32 (s_gen s + 1)) 0
  else mkSlot (s_value s) (s_gen s) (s_refcount s - 1).

Lemma wf_release N a j e s :
  arena_wf N a → a_map a !! j = Some e → h_occupied e = true →
  a_slots a !! h_slot e = Some s →
  arena_wf N (mkArena (<[h_slot e := released (refs (a_map a) (h_slot e)) s]> (a_slots a))
                      (<[j := entry_free e]> (a_map a)) (a_next_key a)).
Proof.
  intros Hwf Hj Ho Hs. destruct (wf_live N a Hwf j e Hj Ho) as (s0 & Hs0 & Hl).
  rewrite Hs in Hs0. injection Hs0 as <-. apply live_true in Hl as [Hg Hv].
  destruct (wf_count N a Hwf _ _ Hs Hv) as [Hrc Hpos].
  assert (∀ i, refs (<[j := entry_free e]> (a_map a)) i =
               refs (a_map a) i - (if decide (h_slot e = i) then 1 else 0)) as Hrefs.
  { intros i. pose proof (refs_insert (a_map a) j e (entry_free e) i Hj) as H.
    unfold points in H. rewrite Ho in H. cbn in H. 
    case_bool_decide; [rewrite decide_True by done|rewrite decide_False by done]; lia. }
  split; cbn [a_slots a_map].
  - apply Hwf.
  - rewrite length_insert. apply Hwf.
  - rewrite length_insert. apply Hwf.
  - intros k e' Hk Ho'. destruct (decide (k = j)) as [->|Hkj].
    { rewrite list_lookup_insert_eq in Hk by (by eapply lookup_lt_Some). by simplify_eq. }
    rewrite list_lookup_insert_ne in Hk by done.
    destruct (wf_live N a Hwf k e' Hk Ho') as (s' & Hs' & Hl').
    destruct (decide (h_slot e' = h_slot e)) as [E|E].
    + rewrite E in *. simplify_eq. rewrite list_lookup_insert_eq by (by eapply lookup_lt_Some).
      eexists. split; [done|]. unfold released. case_decide as H1; [|done].
      exfalso. pose proof (Hrefs (h_slot e)) as H. rewrite decide_True in H by done.
      pose proof (refs_elem (<[j := entry_free e]> (a_map a)) k e' (h_slot e)) as H'.
      rewrite list_lookup_insert_ne in H' by done. specialize (H' Hk Ho' E). lia.
    + rewrite list_lookup_insert_ne by done. eauto.
  - intros i s' Hi Hv'. rewrite Hrefs. destruct (decide (h_slot e = i)) as [<-|E].
    + rewrite list_lookup_insert_eq in Hi by (by eapply lookup_lt_Some). simplify_eq.
      unfold released in *. case_decide; [by destruct Hv'|]. cbn. lia.
    + rewrite list_lookup_insert_ne in Hi by done. rewrite Nat.sub_0_r.
      by apply (wf_count N a Hwf).
  - intros k e' Hk Ho'. destruct (decide (k = j)) as [->|Hkj].
    { rewrite list_lookup_insert_eq in Hk by (by eapply lookup_lt_Some). by simplify_eq. }
    rewrite list_lookup_insert_ne in Hk by done. by apply (wf_prio N a Hwf k).
Qed.

Lemma release_entry_ok N a j e :
  arena_wf N a → a_map a !! j = Some e → h_occupied e = true →
  ∃ s, a_slots a !! h_slot e = Some s ∧ live s e = true ∧
    release_entry a j =
      Ret (if decide (refs (a_map a) (h_slot e) = 1) then s_value s else None,
           mkArena (<[h_slot e := released (refs (a_map a) (h_slot e)) s]> (a_slots a))
                   (<[j := entry_free e]> (a_map a)) (a_next_key a)).
Proof.
  intros Hwf Hj Ho. destruct (wf_live N a Hwf j e Hj Ho) as (s & Hs & Hl).
  exists s. split; [done|]. split; [done|].
  pose proof Hl as [_ Hv]%live_true. destruct (wf_count N a Hwf _ _ Hs Hv) as [Hrc Hpos].
  unfold release_entry. rewrite (idx_ok _ _ _ Hj). cbn [ebind].
  unfold set_entry, set_slot. cbn [a_slots a_map a_next_key].
  rewrite (idx_ok _ _ _ Hs). cbn [ebind]. rewrite Hl. cbn [negb].
  unfold released. destruct (decide (refs _ _ = 1)) as [H1|H1].
  - rewrite decide_True by lia. by rewrite H1, Z.max_l in * by lia.
  - rewrite decide_False by lia. by rewrite Z.max_r by lia.
Qed.

(** ** Release loops *)

(** [a'] only lost values: those it has are [a]'s. *)
Definition kept (a a' : Arena T) : Prop :=
  a_next_key a' = a_next_key a ∧
  ∀ i s', a_slots a' !! i = Some s' → is_Some (s_value s') →
    ∃ s, a_slots a !! i = Some s ∧ s_value s = s_value s' ∧ s_gen s = s_gen s'.

#[export] Instance kept_preorder : PreOrder kept.
Proof.
  split; [intros a; split; eauto|]. intros a1 a2 a3 [Hk1 H1] [Hk2 H2]. split; [congruence|].
  intros i s3 Hi Hv. destruct (H2 i s3 Hi Hv) as (s2 & Hi2 & Hv2 & Hg2).
  destruct (H1 i s2 Hi2) as (s1 & ? & ? & ?); [by rewrite Hv2|]. exists s1. split_and!; congruence.
Qed.

Lemma kept_release a j e s : a_slots a !! h_slot e = Some s →
  kept a (mkArena (<[h_slot e := released (refs (a_map a) (h_slot e)) s]> (a_slots a))
                  (<[j := entry_free e]> (a_map a)) (a_next_key a)).
Proof.
  intros Hs. split; [done|]. cbn [a_slots]. intros i s' Hi Hv.
  destruct (decide (h_slot e = i)) as [<-|E].
  - rewrite list_lookup_insert_eq in Hi by (by eapply lookup_lt_Some). simplify_eq.
    exists s. unfold released in *. case_decide; [by destruct Hv|done].
  - rewrite list_lookup_insert_ne in Hi by done. eauto.
Qed.

Definition free_if (p : HandleEntry → bool) (e : HandleEntry) : HandleEntry :=
  if p e then entry_free e else e.

Lemma free_if_occupied p e : h_occupied (free_if p e) = true → p e = false ∧ free_if p e = e.
Proof. unfold free_if. by destruct (p e). Qed.

Lemma release_where_ok N cond p ixs a :
  (∀ a j e, arena_wf N a → a_map a !! j = Some e → cond a e = Ret (p e)) →
  (∀ e, p e = true → h_occupied e = true) →
  arena_wf N a → NoDup ixs → Forall (λ i, i < N) ixs →
  ∃ a', release_where cond ixs a = Ret a' ∧ arena_wf N a' ∧ kept a a' ∧
    ∀ j, a_map a' !! j = (if decide (j ∈ ixs) then free_if p else id) <$> a_map a !! j.
Proof.
  intros Hcond Hp. revert a. induction ixs as [|i ixs IH]; intros a Hwf Hnd Hlt.
  { exists a. split_and!; try done. intros j.
    rewrite decide_False by set_solver. by rewrite option_fmap_id. }
  inversion_clear Hnd as [|?? Hni Hnd']. rename Hnd' into Hnd. apply Forall_cons_1 in Hlt as [Hi Hlt].
  destruct (idx_lt (a_map a) i) as (e & He & Hidx); [by rewrite (wf_map N a Hwf)|].
  cbn [release_where]. rewrite Hidx. cbn [ebind]. rewrite (Hcond a i e) by done. cbn [ebind].
  destruct (p e) eqn:Hpe.
  - destruct (release_entry_ok N a i e Hwf He (Hp e Hpe)) as (s & Hs & Hl & ->).
    cbn [ebind snd]. pose proof (wf_release N a i e s Hwf He (Hp e Hpe) Hs) as Hwf1.
    destruct (IH _ Hwf1 Hnd Hlt) as (a' & -> & Hwf' & Hk & Hm). exists a'.
    split_and!; try done. { etrans; [by apply kept_release|done]. }
    intros j. rewrite Hm. cbn [a_map]. destruct (decide (j = i)) as [->|Hji].
    + rewrite list_lookup_insert_eq by (by eapply lookup_lt_Some).
      rewrite decide_False by done. rewrite decide_True by set_solver.
      rewrite He. cbn. unfold free_if. by rewrite Hpe.
    + rewrite list_lookup_insert_ne by done. by rewrite (decide_ext (j ∈ ixs) (j ∈ i :: ixs)) by (rewrite elem_of_cons; tauto).
  - destruct (IH a Hwf Hnd Hlt) as (a' & -> & Hwf' & Hk & Hm). exists a'.
    split_and!; try done. intros j. rewrite Hm. destruct (decide (j = i)) as [->|Hji].
    + rewrite decide_False by done. rewrite decide_True by set_solver.
      rewrite He. cbn. unfold free_if. by rewrite Hpe.
    + by rewrite (decide_ext (j ∈ ixs) (j ∈ i :: ixs)) by (rewrite elem_of_cons; tauto).
Qed.

Lemma release_all_ok N cond p a :
  (∀ a j e, arena_wf N a → a_map a !! j = Some e → cond a e = Ret (p e)) →
  (∀ e, p e = true → h_occupied e = true) →
  arena_wf N a →
  ∃ a', release_where cond (seq 0 (length (a_map a))) a = Ret a' ∧ arena_wf N a' ∧
    kept a a' ∧ a_map a' = free_if p <$> a_map a.
Proof.
  intros Hcond Hp Hwf.
  destruct (release_where_ok N cond p (seq 0 (length (a_map a))) a) as (a' & ? & ? & ? & Hm);
    try done.
  { apply NoDup_seq. }
  { apply Forall_seq. intros j Hj. rewrite <- (wf_map N a Hwf). lia. }
  exists a'. split_and!; try done. apply list_eq. intros j. rewrite Hm, list_lookup_fmap.
  destruct (a_map a !! j) as [e|] eqn:E; [|done]. cbn. rewrite decide_True; [done|].
  apply elem_of_seq. apply lookup_lt_Some in E. lia.
Qed.

Lemma remove_by_owner_ok N a o : arena_wf N a →
  ∃ a', remove_by_owner a o = Ret a' ∧ arena_wf N a' ∧ kept a a' ∧
    a_map a' = free_if (λ e, h_occupied e && bool_decide (h_owner e = o)) <$> a_map a.
Proof. intros Hwf. apply release_all_ok; [done| |done]. by intros e [? _]%andb_true_iff. Qed.

(** ** Eviction *)

Definition victim_pred (victim : nat) e : bool :=
  h_occupied e && bool_decide (h_slot e = victim).

Lemma victim_cond_ok N victim a j e :
  victim < N → arena_wf N a → a_map a !! j = Some e →
  victim_cond victim a e = Ret (victim_pred victim e).
Proof.
  intros Hv Hwf Hj. unfold victim_cond, victim_pred.
  destruct (idx_lt (a_slots a) victim) as (s & Hs & ->); [by rewrite (wf_slots N a Hwf)|].
  cbn [ebind]. f_equal. destruct (h_occupied e) eqn:Ho; [|done]. cbn [andb].
  case_bool_decide as E; [|done]. destruct (wf_live N a Hwf j e Hj Ho) as (s' & Hs' & Hl).
  rewrite E in Hs'. simplify_eq. apply live_true in Hl as [Hg _]. by rewrite bool_decide_true.
Qed.

Definition refers (i : nat) s e : Prop :=
  h_occupied e = true ∧ h_slot e = as_u8 i ∧ h_gen e = s_gen s.

(** [max_prio] is the maximum of the priorities of the entries of a slot. *)
Lemma max_prio_spec m i s :
  (∀ j e, m !! j = Some e → refers i s e → (h_priority e <= max_prio m i s)%Z) ∧
  (max_prio m i s = I8_MIN ∨
   ∃ j e, m !! j = Some e ∧ refers i s e ∧ max_prio m i s = h_priority e).
Proof.
  induction m as [|e m [IHge IHin]] using rev_ind; [split; [done|by left]|].
  unfold max_prio in *. rewrite foldl_snoc. set (mp := foldl _ _ m) in *.
  assert (∀ e', refers i s e' ↔ h_occupied e' && bool_decide (h_slot e' = as_u8 i)
            && bool_decide (h_gen e' = s_gen s) = true) as Hr.
  { intros e'. unfold refers. rewrite !andb_true_iff, !bool_decide_eq_true. tauto. }
  destruct (decide (refers i s e)) as [He|He]; rewrite Hr in He;
    [rewrite He|apply not_true_is_false in He; rewrite He]; cbn [andb]; split.
  - clear He. intros j e' [[_ Hj]|[-> [= ->]]]%lookup_snoc_Some Hre; [|case_bool_decide; lia].
    specialize (IHge j e' Hj Hre). case_bool_decide; lia.
  - apply Hr in He. case_bool_decide.
    + right. exists (length m), e. by rewrite list_lookup_middle.
    + destruct IHin as [|(j & e' & ? & ?)]; [by left|]. right. exists j, e'.
      rewrite lookup_app_l by (by eapply lookup_lt_Some). done.
  - intros j e' [Hj|[-> [= ->]]]%lookup_snoc_Some Hre; [by eapply IHge; [apply Hj|]|].
    apply Hr in Hre. congruence.
  - destruct IHin as [|(j & e' & ? & ?)]; [by left|]. right. exists j, e'.
    rewrite lookup_app_l by (by eapply lookup_lt_Some). done.
Qed.

(** Slot [k] may be evicted for a requester of priority [prio]. *)
Definition eligible (m : list HandleEntry) (prio : Z) (k : nat) s : Prop :=
  is_Some (s_value s) ∧ (max_prio m k s < prio)%Z.

(** The preference of [evict_slot]: fewer references first, then lower priority. *)
Definition prefer (rp rp' : Z * Z) : Prop :=
  (rp.1 < rp'.1 ∨ rp.1 = rp'.1 ∧ rp.2 <= rp'.2)%Z.

Lemma evict_scan_app m prio (l1 l2 : list (Slot T)) i best :
  evict_scan m prio i (l1 ++ l2) best =
    evict_scan m prio (i + length l1) l2 (evict_scan m prio i l1 best).
Proof.
  revert i best. induction l1 as [|s l1 IH]; intros i best; cbn [app evict_scan length].
  { f_equal. lia. }
  rewrite Nat.add_succ_r, <- Nat.add_succ_l. repeat case_match; apply IH.
Qed.

Lemma evict_scan_spec m prio (slots : list (Slot T)) :
  match evict_scan m prio 0 slots None with
  | None => ∀ k s, slots !! k = Some s → ¬ eligible m prio k s
  | Some (v, mp, rc) =>
      (∃ k s, slots !! k = Some s ∧ eligible m prio k s ∧
         v = as_u8 k ∧ mp = max_prio m k s ∧ rc = s_refcount s) ∧
      (∀ k s, slots !! k = Some s → eligible m prio k s →
         prefer (rc, mp) (s_refcount s, max_prio m k s))
  end.
Proof.
  induction slots as [|s slots IH] using rev_ind; [done|].
  rewrite evict_scan_app. cbn [evict_scan Nat.add]. set (k0 := length slots).
  assert (bool_decide (s_value s = None) = false ∧ (max_prio m k0 s < prio)%Z
    ↔ eligible m prio k0 s) as Hel.
  { unfold eligible. rewrite bool_decide_eq_false, <- not_eq_None_Some. tauto. }
  destruct (decide (eligible m prio k0 s)) as [He|He].
  - pose proof He as [Hv Hlt]%Hel. rewrite Hv, decide_False by lia.
    destruct (evict_scan m prio 0 slots None) as [[[v mp] rc]|].
    + destruct IH as [(k & s0 & Hk & IH1) IH2].
      destruct (_ || _) eqn:Hd.
      * rewrite orb_true_iff, andb_true_iff, !bool_decide_eq_true in Hd. split.
        { exists k0, s. by rewrite list_lookup_middle. }
        intros k' s' [[_ Hk']|[-> [= ->]]]%lookup_snoc_Some He'; [|by right].
        specialize (IH2 k' s' Hk' He'). unfold prefer in *. cbn in *. lia.
      * rewrite orb_false_iff, andb_false_iff, !bool_decide_eq_false in Hd. split.
        { exists k, s0. by rewrite lookup_app_l by (by eapply lookup_lt_Some). }
        intros k' s' [[_ Hk']|[-> [= ->]]]%lookup_snoc_Some He'; [by apply IH2|].
        fold k0. unfold prefer. cbn. lia.
    + split; [exists k0, s; by rewrite list_lookup_middle|].
      intros k' s' [[_ Hk']|[-> [= ->]]]%lookup_snoc_Some He'; [by destruct (IH k' s')|by right].
  - assert (∀ b, (if bool_decide (s_value s = None) then b else
      if decide (prio ≤ max_prio m k0 s)%Z then b else
      if match b with None => true | Some (_, bp, br) => bool_decide (s_refcount s < br)%Z
           || (bool_decide (s_refcount s = br) && bool_decide (max_prio m k0 s < bp)%Z) end
      then Some (as_u8 k0, max_prio m k0 s, s_refcount s) else b) = b) as ->.
    { intros b. destruct (bool_decide (s_value s = None)); [done|]. case_decide; [done|].
      exfalso. apply He, Hel. split; [done|lia]. }
    destruct (evict_scan m prio 0 slots None) as [[[v mp] rc]|].
    + destruct IH as [(k & s0 & Hk & IH1) IH2]. split.
      { exists k, s0. by rewrite lookup_app_l by (by eapply lookup_lt_Some). }
      intros k' s' [[_ Hk']|[-> [= ->]]]%lookup_snoc_Some He'; [by apply IH2|done].
    + intros k' s' [[_ Hk']|[-> [= ->]]]%lookup_snoc_Some He'; [by destruct (IH k' s')|done].
Qed.

Lemma as_u8_small N a i : arena_wf N a → i < N → as_u8 i = i.
Proof. intros Hwf Hi. pose proof (wf_N N a Hwf). unfold as_u8. apply Nat.mod_small. lia. Qed.

(** [evict_slot] either leaves everything alone because every slot holds an
    entry of at least the requester's priority, or frees one whose entries are
    all below it, by releasing exactly its entries. *)
Lemma evict_slot_ok N a prio : arena_wf N a →
  (evict_slot a prio = Ret (None, a) ∧
   ∀ k s, a_slots a !! k = Some s → ¬ eligible (a_map a) prio k s) ∨
  ∃ v s s' a', evict_slot a prio = Ret (Some v, a') ∧ arena_wf N a' ∧ kept a a' ∧
    a_slots a !! v = Some s ∧ eligible (a_map a) prio v s ∧
    (∀ k s', a_slots a !! k = Some s' → eligible (a_map a) prio k s' →
       prefer (s_refcount s, max_prio (a_map a) v s) (s_refcount s', max_prio (a_map a) k s')) ∧
    a_slots a' !! v = Some s' ∧ s_value s' = None ∧
    a_map a' = free_if (victim_pred v) <$> a_map a.
Proof.
  intros Hwf. unfold evict_slot. pose proof (evict_scan_spec (a_map a) prio (a_slots a)) as Hspec.
  destruct (evict_scan _ _ _ _ _) as [[[v mp] rc]|]; [right|by left].
  destruct Hspec as [(k & s & Hk & Hel & -> & -> & ->) Hpref].
  assert (k < N) as HkN by (rewrite <- (wf_slots N a Hwf); by eapply lookup_lt_Some).
  rewrite (as_u8_small N a k) by done.
  destruct (release_all_ok N (victim_cond k) (victim_pred k) a) as (a' & -> & Hwf' & Hkept & Hm);
    [by intros; eapply victim_cond_ok|by intros e [? _]%andb_true_iff|done|].
  cbn [ebind]. destruct (idx_lt (a_slots a') k) as (s' & Hs' & Hidx); [by rewrite (wf_slots N a' Hwf')|].
  rewrite Hidx. cbn [ebind]. assert (s_value s' = None) as Hnone.
  { apply eq_None_not_Some. intros Hv. destruct (wf_count N a' Hwf' k s' Hs' Hv) as [_ Hpos].
    apply refs_pos in Hpos as (j & e & Hj & Ho & Hsl). rewrite Hm, list_lookup_fmap in Hj.
    destruct (a_map a !! j) as [e0|]; [|done]. cbn in Hj. injection Hj as <-.
    apply free_if_occupied in Ho as Hf. destruct Hf as [Hf E]. rewrite E in *.
    unfold victim_pred in Hf. by rewrite Ho, Hsl, bool_decide_true in Hf. }
  rewrite bool_decide_true by done. exists k, s, s', a'. by split_and!.
Qed.

(** ** Installing an entry: the common end of [alloc] and [clone_handle] *)

Lemma wf_install N a v s s' j e0 e' k :
  arena_wf N a → a_slots a !! v = Some s → a_map a !! j = Some e0 → h_occupied e0 = false →
  h_occupied e' = true → h_slot e' = v → live s' e' = true → is_i 8 (h_priority e') →
  s_refcount s' = (Z.of_nat (refs (a_map a) v) + 1)%Z →
  (∀ e, live s e = true → live s' e = true) →
  arena_wf N (mkArena (<[v := s']> (a_slots a)) (<[j := e']> (a_map a)) k).
Proof.
  intros Hwf Hs Hj Ho0 Ho' Hsl Hl' Hp Hrc Hlive.
  assert (∀ i, refs (<[j := e']> (a_map a)) i =
               refs (a_map a) i + (if decide (v = i) then 1 else 0)) as Hrefs.
  { intros i. pose proof (refs_insert (a_map a) j e0 e' i Hj) as H.
    unfold points in H. rewrite Ho0, Ho', Hsl in H. cbn in H.
    case_bool_decide; [rewrite decide_True by done|rewrite decide_False by done]; lia. }
  assert (∀ k' x, <[j := e']> (a_map a) !! k' = Some x → h_occupied x = true →
            x = e' ∨ k' ≠ j ∧ a_map a !! k' = Some x) as Hlook.
  { intros k' x Hx Hox. destruct (decide (k' = j)) as [->|Hne].
    - rewrite list_lookup_insert_eq in Hx by (by eapply lookup_lt_Some). left. congruence.
    - rewrite list_lookup_insert_ne in Hx by done. auto. }
  assert (<[v := s']> (a_slots a) !! v = Some s') as Hv'.
  { apply list_lookup_insert_eq. by eapply lookup_lt_Some. }
  split; cbn [a_slots a_map].
  - apply Hwf.
  - rewrite length_insert. apply Hwf.
  - rewrite length_insert. apply Hwf.
  - intros k' x Hx Hox. destruct (Hlook k' x Hx Hox) as [->|[_ Hx']]; [rewrite Hsl; eauto|].
    destruct (wf_live N a Hwf k' x Hx' Hox) as (sx & Hsx & Hlx).
    destruct (decide (h_slot x = v)) as [E|E].
    + rewrite E in *. simplify_eq. eauto.
    + rewrite list_lookup_insert_ne by done. eauto.
  - intros i si Hi Hvi. rewrite Hrefs. destruct (decide (v = i)) as [<-|E].
    + rewrite Hv' in Hi. simplify_eq. lia.
    + rewrite list_lookup_insert_ne in Hi by done. rewrite Nat.add_0_r.
      by apply (wf_count N a Hwf).
  - intros k' x Hx Hox. destruct (Hlook k' x Hx Hox) as [->|[_ Hx']]; [done|].
    by apply (wf_prio N a Hwf k').
Qed.

Lemma free_entry_spec a :
  match free_entry a with
  | Some j => ∃ e, a_map a !! j = Some e ∧ h_occupied e = false
  | None => ∀ j e, a_map a !! j = Some e → h_occupied e = true
  end.
Proof.
  unfold free_entry. destruct (list_find _ (a_map a)) as [[j e]|] eqn:E; cbn.
  - apply list_find_Some in E as (? & ? & _). eauto.
  - apply list_find_None in E. intros j e Hj.
    apply (Forall_lookup_1 _ _ j e) in E; [|done]. apply not_false_is_true. exact E.
Qed.

Lemma free_slot_spec a :
  match free_slot a with
  | Some i => ∃ s, a_slots a !! i = Some s ∧ s_value s = None
  | None => ∀ i s, a_slots a !! i = Some s → is_Some (s_value s)
  end.
Proof.
  unfold free_slot. destruct (list_find _ (a_slots a)) as [[j e]|] eqn:E; cbn.
  - apply list_find_Some in E as (? & ? & _). eauto.
  - apply list_find_None in E. intros j e Hj.
    apply (Forall_lookup_1 _ _ j e) in E; [|done]. by apply not_eq_None_Some.
Qed.

Lemma install_ok a j v g owner prio : j < length (a_map a) →
  install a j v g owner prio = Ret (a_next_key a,
    mkArena (a_slots a) (<[j := mkHEntry (a_next_key a) v g true owner prio None]> (a_map a))
            (lcg (a_next_key a))).
Proof. intros Hj. unfold install, next_key. cbn [a_map]. by rewrite set_idx_ok. Qed.

(** ** Eviction as seen by the other entries *)

(** An entry is kept, or it was below priority [prio] and has been freed. *)
Definition evicted (prio : Z) (e e1 : HandleEntry) : Prop :=
  e1 = e ∨ h_occupied e = true ∧ (h_priority e < prio)%Z ∧ e1 = entry_free e.

Definition evicts (prio : Z) (a a1 : Arena T) : Prop :=
  kept a a1 ∧ Forall2 (evicted prio) (a_map a) (a_map a1).

Lemma evicts_refl prio a : evicts prio a a.
Proof. split; [done|]. apply Forall_Forall2_diag, Forall_forall. by left. Qed.

Lemma evict_slot_evicts N a prio v s a' :
  arena_wf N a → kept a a' → a_slots a !! v = Some s → eligible (a_map a) prio v s →
  a_map a' = free_if (victim_pred v) <$> a_map a → evicts prio a a'.
Proof.
  intros Hwf Hk Hs [Hv Hmp] Hm. split; [done|]. rewrite Hm. apply Forall2_fmap_r, Forall_Forall2_diag.
  apply Forall_lookup. intros j e Hj. hnf. unfold free_if.
  destruct (victim_pred v e) eqn:E; [right|by left].
  apply andb_true_iff in E as [Ho E%bool_decide_eq_true]. split_and!; try done.
  destruct (wf_live N a Hwf j e Hj Ho) as (s' & Hs' & [Hg _]%live_true). rewrite E in Hs'.
  simplify_eq. destruct (max_prio_spec (a_map a) (h_slot e) s) as [Hge _].
  assert (h_slot e < N) by (rewrite <- (wf_slots N a Hwf); by eapply lookup_lt_Some).
  enough (h_priority e <= max_prio (a_map a) (h_slot e) s)%Z by lia.
  apply (Hge j); [done|]. split_and!; [done| |done]. by rewrite (as_u8_small N a).
Qed.

(** ** [alloc] *)

(** What a successful [alloc] leaves: room was made in [a1], slot [v] and map
    entry [j] were free there, and now hold the value and its handle. *)
Definition alloc_done (N : nat) (value : T) (owner prio : Z) (a a' : Arena T) : Prop :=
  ∃ a1 v s j e0, evicts prio a a1 ∧ arena_wf N a1 ∧
    a_slots a1 !! v = Some s ∧ s_value s = None ∧
    a_map a1 !! j = Some e0 ∧ h_occupied e0 = false ∧
    a' = mkArena (<[v := mkSlot (Some value) (s_gen s) 1]> (a_slots a1))
           (<[j := mkHEntry (a_next_key a) v (s_gen s) true owner prio None]> (a_map a1))
           (lcg (a_next_key a)).

Lemma alloc_done_wf N value owner prio a a' :
  is_i 8 prio → alloc_done N value owner prio a a' → arena_wf N a'.
Proof.
  intros Hp (a1 & v & s & j & e0 & _ & Hwf & Hs & Hv & Hj & Ho & ->).
  eapply wf_install; try done.
  - apply live_true. by cbn.
  - by rewrite (wf_free N a1 v s).
  - intros e [_ Hl]%live_true. rewrite Hv in Hl. by destruct Hl.
Qed.

Lemma alloc_ok N a value owner prio : arena_wf N a →
  ∃ r a', alloc a value owner prio = Ret (r, a') ∧
    match r with
    | Err NoFreeSlot => a' = a ∧ ∀ k s, a_slots a !! k = Some s →
        is_Some (s_value s) ∧ (prio <= max_prio (a_map a) k s)%Z
    | Err NoFreeEntry => a' = a ∧ (∃ k s, a_slots a !! k = Some s ∧ s_value s = None) ∧
        ∀ j e, a_map a !! j = Some e → h_occupied e = true
    | Ok key => key = a_next_key a ∧ alloc_done N value owner prio a a'
    end.
Proof.
  intros Hwf. unfold alloc.
  assert (∀ a1 v s, evicts prio a a1 → arena_wf N a1 → a_slots a1 !! v = Some s →
    s_value s = None → ∀ j e0, a_map a1 !! j = Some e0 → h_occupied e0 = false →
    ∃ a', (let! s := idx (a_slots a1) v in
       let! ka := install (set_slot a1 v (mkSlot (Some value) (s_gen s) 1)) j (as_u8 v)
                    (s_gen s) owner prio in
       Ret (@Ok _ AllocError (fst ka), snd ka)) = Ret (Ok (a_next_key a), a') ∧
      alloc_done N value owner prio a a') as Hdone.
  { intros a1 v s Hev Hwf1 Hs Hv j e0 Hj Ho. rewrite (idx_ok _ _ _ Hs). cbn [ebind].
    assert (v < N) by (rewrite <- (wf_slots N a1 Hwf1); by eapply lookup_lt_Some).
    rewrite (as_u8_small N a1), install_ok by (done || by eapply lookup_lt_Some).
    cbn [ebind fst snd set_slot a_slots a_map a_next_key].
    pose proof Hev as [[Hkey _] _]. rewrite Hkey. eexists. split; [done|].
    by exists a1, v, s, j, e0. }
  pose proof (free_slot_spec a) as Hfs. destruct (free_slot a) as [v|].
  - destruct Hfs as (s & Hs & Hv). cbn [ebind fst snd].
    pose proof (free_entry_spec a) as Hfe. destruct (free_entry a) as [j|].
    + destruct Hfe as (e0 & Hj & Ho).
      destruct (Hdone a v s (evicts_refl prio a) Hwf Hs Hv j e0 Hj Ho) as (a' & -> & ?).
      by eexists _, _.
    + eexists _, _. split; [done|]. split; [done|]. split; [by exists v, s|done].
  - destruct (evict_slot_ok N a prio Hwf) as [[-> Hnone]|Hev]; cbn [ebind fst snd].
    { eexists _, _. split; [done|]. split; [done|]. intros k s Hk. split; [eauto|].
      specialize (Hnone k s Hk). apply Z.nlt_ge. intros Hlt. apply Hnone. split; eauto. }
    destruct Hev as (v & s & s' & a1 & -> & Hwf1 & Hk & Hs & Hel & _ & Hs' & Hv & Hm).
    cbn [ebind fst snd]. pose proof (evict_slot_evicts N a prio v s a1 Hwf Hk Hs Hel Hm) as Hev.
    pose proof (free_entry_spec a1) as Hfe. destruct (free_entry a1) as [j|].
    + destruct Hfe as (e0 & Hj & Ho).
      destruct (Hdone a1 v s' Hev Hwf1 Hs' Hv j e0 Hj Ho) as (a' & -> & ?).
      by eexists _, _.
    + exfalso. destruct (wf_count N a Hwf v s Hs (proj1 Hel)) as [_ Hpos].
      apply refs_pos in Hpos as (j & e & Hj & Ho & Hsl).
      assert (a_map a1 !! j = Some (entry_free e)) as Hj1.
      { rewrite Hm, list_lookup_fmap, Hj. cbn. unfold free_if, victim_pred.
        by rewrite Ho, bool_decide_true. }
      apply Hfe in Hj1. done.
Qed.

(** ** [clone_handle] *)

(** An entry [find_eviction_victim] may pick. *)
Definition evictable (prio : Z) (exclude : option (nat * Z)) e : bool :=
  h_occupied e
  && negb (match exclude with
           | Some (slot, gen) => bool_decide (h_slot e = slot) && bool_decide (h_gen e = gen)
           | None => false
           end)
  && bool_decide (h_priority e < prio)%Z.

Lemma victim_scan_app prio ex l1 l2 i best :
  victim_scan prio ex i (l1 ++ l2) best =
    victim_scan prio ex (i + length l1) l2 (victim_scan prio ex i l1 best).
Proof.
  revert i best. induction l1 as [|e l1 IH]; intros i best; cbn [app victim_scan length].
  { f_equal. lia. }
  rewrite Nat.add_succ_r, <- Nat.add_succ_l. apply IH.
Qed.

Lemma victim_scan_spec prio ex es :
  match victim_scan prio ex 0 es None with
  | None => ∀ j e, es !! j = Some e → evictable prio ex e = false
  | Some (i, p) => ∃ e, es !! i = Some e ∧ evictable prio ex e = true ∧ p = h_priority e ∧
      ∀ j e', es !! j = Some e' → evictable prio ex e' = true → (p <= h_priority e')%Z
  end.
Proof.
  induction es as [|e es IH] using rev_ind; [done|].
  rewrite victim_scan_app. cbn [victim_scan Nat.add]. fold (evictable prio ex e).
  destruct (victim_scan prio ex 0 es None) as [[i p]|].
  - destruct IH as (e0 & Hi & He0 & -> & Hmin).
    assert ((es ++ [e]) !! i = Some e0) as Hi'
      by (by rewrite lookup_app_l by (by eapply lookup_lt_Some)).
    destruct (evictable prio ex e) eqn:E; [case_decide as Hlt|].
    + exists e. rewrite list_lookup_middle by done. split_and!; try done.
      intros j e' [[_ Hj]|[-> [= ->]]]%lookup_snoc_Some He'; [|done].
      specialize (Hmin j e' Hj He'). lia.
    + exists e0. split_and!; try done.
      intros j e' [[_ Hj]|[-> [= ->]]]%lookup_snoc_Some He'; [by eapply Hmin|lia].
    + exists e0. split_and!; try done.
      intros j e' [[_ Hj]|[-> [= ->]]]%lookup_snoc_Some He'; [by eapply Hmin|congruence].
  - destruct (evictable prio ex e) eqn:E.
    + exists e. rewrite list_lookup_middle by done. split_and!; try done.
      intros j e' [[_ Hj]|[-> [= ->]]]%lookup_snoc_Some He'; [|done].
      by rewrite (IH j e' Hj) in He'.
    + intros j e' [[_ Hj]|[-> [= ->]]]%lookup_snoc_Some; [by eapply IH|done].
Qed.

(** What a successful [clone_handle] of entry [src] leaves. *)
Definition clone_done (N js : nat) (src : HandleEntry) (new_owner prio : Z)
    (a a' : Arena T) : Prop :=
  ∃ a1 s j e0, evicts prio a a1 ∧ arena_wf N a1 ∧
    a_map a1 !! js = Some src ∧ a_slots a1 !! h_slot src = Some s ∧ live s src = true ∧
    a_map a1 !! j = Some e0 ∧ h_occupied e0 = false ∧
    a' = mkArena (<[h_slot src := mkSlot (s_value s) (s_gen s) (s_refcount s + 1)]> (a_slots a1))
           (<[j := mkHEntry (a_next_key a) (h_slot src) (h_gen src) true new_owner prio None]>
              (a_map a1))
           (lcg (a_next_key a)).

Lemma clone_done_wf N js src new_owner prio a a' :
  is_i 8 prio → clone_done N js src new_owner prio a a' → arena_wf N a'.
Proof.
  intros Hp (a1 & s & j & e0 & _ & Hwf & _ & Hs & Hl & Hj & Ho & ->).
  eapply wf_install; try done. pose proof Hl as [_ Hv]%live_true.
  destruct (wf_count N a1 Hwf _ s Hs Hv) as [Hrc _]. cbn. by rewrite Hrc.
Qed.

(** A single evicted entry. *)
Lemma evicts_release a prio j e s :
  a_map a !! j = Some e → h_occupied e = true → (h_priority e < prio)%Z →
  a_slots a !! h_slot e = Some s →
  evicts prio a (mkArena (<[h_slot e := released (refs (a_map a) (h_slot e)) s]> (a_slots a))
                         (<[j := entry_free e]> (a_map a)) (a_next_key a)).
Proof.
  intros Hj Ho Hp Hs. split; [by apply kept_release|]. cbn [a_map].
  rewrite <- (list_insert_id (a_map a) j e) at 1 by done.
  apply Forall2_insert; [apply (evicts_refl prio a)|by right].
Qed.

Lemma clone_handle_ok N a h owner new_owner prio : arena_wf N a →
  ∃ r a', clone_handle a h owner new_owner prio = Ret (r, a') ∧
    match r with
    | Err InvalidHandle => a' = a ∧
        ∀ j e, a_map a !! j = Some e → owned_free h owner e = false
    | Err ArenaFull => a' = a ∧ ∃ js src, a_map a !! js = Some src ∧
        owned_free h owner src = true ∧
        ∀ j e, a_map a !! j = Some e →
          h_occupied e = true ∧ (h_slot e = h_slot src ∨ (prio <= h_priority e)%Z)
    | Err ServerDied => False
    | Ok key => key = a_next_key a ∧ ∃ js src, a_map a !! js = Some src ∧
        owned_free h owner src = true ∧
        clone_done N js src new_owner prio a a'
    end.
Proof.
  intros Hwf. unfold clone_handle.
  destruct (list_find _ (a_map a)) as [[js src]|] eqn:Hf.
  2:{ eexists _, _. split; [done|]. split; [done|]. intros j e Hj.
      apply list_find_None in Hf. apply (Forall_lookup_1 _ _ j e) in Hf; [|done].
      apply not_true_is_false. exact Hf. }
  apply list_find_Some in Hf as (Hjs & Hsrc & _). assert (h_occupied src = true) as Hso.
  { by apply owned_free_true in Hsrc as (? & _). }
  destruct (wf_live N a Hwf js src Hjs Hso) as (s & Hs & Hl).
  rewrite (idx_ok _ _ _ Hs). cbn [ebind]. rewrite Hl. cbn [negb].
  pose proof Hl as [Hg Hv]%live_true. pose proof (wf_N N a Hwf) as HN.
  assert (∀ a1 s, arena_wf N a1 → a_slots a1 !! h_slot src = Some s → live s src = true →
    (s_refcount s <= 255)%Z) as Hrc.
  { intros a1 s1 Hwf1 Hs1 [_ Hv1]%live_true. destruct (wf_count N a1 Hwf1 _ s1 Hs1 Hv1) as [-> _].
    pose proof (refs_length (a_map a1) (h_slot src)) as Hlen. rewrite (wf_map N a1 Hwf1) in Hlen. lia. }
  rewrite decide_False by (specialize (Hrc a s Hwf Hs Hl); unfold U16_MAX; lia).
  assert (∀ a1, evicts prio a a1 → arena_wf N a1 → a_map a1 !! js = Some src →
    a_slots a1 !! h_slot src = Some s → ∀ j e0, a_map a1 !! j = Some e0 → h_occupied e0 = false →
    ∃ a', (let! s := idx (a_slots a1) (h_slot src) in
       if decide (s_refcount s = U16_MAX) then Panic else
       let! ka := install (set_slot a1 (h_slot src) (mkSlot (s_value s) (s_gen s) (s_refcount s + 1)))
                    j (h_slot src) (h_gen src) new_owner prio in
       Ret (@Ok _ CloneError (fst ka), snd ka)) = Ret (Ok (a_next_key a), a') ∧
      clone_done N js src new_owner prio a a') as Hdone.
  { intros a1 Hev Hwf1 Hjs1 Hs1 j e0 Hj Ho. rewrite (idx_ok _ _ _ Hs1). cbn [ebind].
    rewrite decide_False by (specialize (Hrc a1 s Hwf1 Hs1 Hl); unfold U16_MAX; lia).
    rewrite install_ok by (by eapply lookup_lt_Some).
    cbn [ebind fst snd set_slot a_slots a_map a_next_key].
    pose proof Hev as [[Hkey _] _]. rewrite Hkey. eexists. split; [done|].
    by exists a1, s, j, e0. }
  pose proof (free_entry_spec a) as Hfe. destruct (free_entry a) as [j|].
  - destruct Hfe as (e0 & Hj & Ho). cbn [ebind fst snd].
    destruct (Hdone a (evicts_refl prio a) Hwf Hjs Hs j e0 Hj Ho) as (a' & -> & ?).
    eexists _, _. split; [done|]. split; [done|]. by exists js, src.
  - unfold find_eviction_victim.
    pose proof (victim_scan_spec prio (Some (h_slot src, h_gen src)) (a_map a)) as Hvs.
    destruct (victim_scan _ _ _ _ _) as [[i p]|]; cbn [fmap option_fmap option_map fst].
    + destruct Hvs as (e & Hi & Hev & -> & _). unfold evictable in Hev.
      rewrite !andb_true_iff, negb_true_iff, bool_decide_eq_true in Hev. destruct Hev as [[Ho Hex] Hp].
      destruct (release_entry_ok N a i e Hwf Hi Ho) as (s1 & Hs1 & Hl1 & ->).
      assert (h_slot e ≠ h_slot src) as Hne.
      { intros E. rewrite E in Hs1. simplify_eq. apply live_true in Hl1 as [Hg1 _].
        rewrite andb_false_iff, !bool_decide_eq_false in Hex.
        destruct Hex as [Hex|Hex]; apply Hex; congruence. }
      assert (i ≠ js) by congruence. cbn [ebind fst snd].
      edestruct Hdone as (a' & -> & ?); [by apply evicts_release|by apply wf_release| | | | |].
      * cbn [a_map]. by rewrite list_lookup_insert_ne.
      * cbn [a_slots]. by rewrite list_lookup_insert_ne.
      * cbn [a_map]. apply list_lookup_insert_eq. by eapply lookup_lt_Some.
      * done.
      * eexists _, _. split; [done|]. split; [done|]. by exists js, src.
    + cbn [ebind fst snd]. eexists _, _. split; [done|]. split; [done|]. exists js, src.
      split_and!; try done. intros j e Hj. specialize (Hfe j e Hj). split; [done|].
      specialize (Hvs j e Hj). unfold evictable in Hvs. rewrite Hfe in Hvs. cbn [andb] in Hvs.
      rewrite andb_false_iff, negb_false_iff, andb_true_iff, !bool_decide_eq_true,
        bool_decide_eq_false in Hvs. destruct Hvs as [[? _]|?]; [by left|right; lia].
Qed.
End wf.
