(* ===== verification/ArenaOps.v ===== *)
(** Histories of arena operations: the invariant and the handle keys along
    every sequence of calls, and the arena's guarantees to handle holders. *)

From stdpp Require Import sets.
From S2P Require Import Prelude Arena ArenaSpec.

(** * Calls *)

Inductive arena_op (T : Type) :=
  | OAlloc (value : T) (owner priority : Z)
  | ORemove (h : Z)
  | ORemoveOwned (h owner : Z)
  | ORemoveByOwner (task_index : Z)
  | OClone (h owner new_owner priority : Z)
  | OPrepare (h owner target : Z)
  | OCancel (h owner : Z)
  | OAcquire (h acquirer new_priority : Z)
  | OTryDrop (h owner : Z)
  | OCancelTo (target : Z).
Arguments OAlloc {T}. Arguments ORemove {T}. Arguments ORemoveOwned {T}.
Arguments ORemoveByOwner {T}. Arguments OClone {T}. Arguments OPrepare {T}.
Arguments OCancel {T}. Arguments OAcquire {T}. Arguments OTryDrop {T}. Arguments OCancelTo {T}.

(** The priorities passed are [i8]s. *)
Definition op_ok {T} (o : arena_op T) : Prop :=
  match o with
  | OAlloc _ _ p | OClone _ _ _ p | OAcquire _ _ p => is_i 8 p
  | _ => True
  end.

Section ops.
Context {T : Type}.
Implicit Types (a : Arena T) (s : Slot T) (e : HandleEntry) (o : arena_op T).

(** The state one call leaves. *)
Definition run_op o a : exec (Arena T) :=
  match o with
  | OAlloc v w p => let! r := alloc a v w p in Ret (snd r)
  | ORemove h => let! r := remove a h in Ret (snd r)
  | ORemoveOwned h w => let! r := remove_owned a h w in Ret (snd r)
  | ORemoveByOwner t => remove_by_owner a t
  | OClone h w n p => let! r := clone_handle a h w n p in Ret (snd r)
  | OPrepare h w t => let! r := prepare_transfer a h w t in Ret (snd r)
  | OCancel h w => Ret (snd (cancel_transfer a h w))
  | OAcquire h w p => let! r := acquire a h w p in Ret (snd r)
  | OTryDrop h w => let! r := try_drop a h w in Ret (snd r)
  | OCancelTo t => cancel_transfers_to a t
  end.

Fixpoint run_ops (os : list (arena_op T)) a : exec (Arena T) :=
  match os with
  | [] => Ret a
  | o :: os => let! a := run_op o a in run_ops os a
  end.

(** The arena after a history of calls on a new one. *)
Definition reach (N : nat) (kind : Z) (os : list (arena_op T)) : exec (Arena T) :=
  let! a := arena_new N kind in run_ops os a.

(** * The keys along a call *)

(** Entries keep their keys, or are freed. *)
Definition keys_kept a a' : Prop :=
  a_next_key a' = a_next_key a ∧
  Forall2 (λ e e', h_occupied e' = true → h_occupied e = true ∧ h_key e' = h_key e)
    (a_map a) (a_map a').

(** A call keeps the keys, or draws one new key for one entry. *)
Definition key_step a a' : Prop :=
  keys_kept a a' ∨
  ∃ a1 j e0 e', keys_kept a a1 ∧ a_map a1 !! j = Some e0 ∧ h_occupied e0 = false ∧
    h_occupied e' = true ∧ h_key e' = a_next_key a ∧
    a_map a' = <[j := e']> (a_map a1) ∧ a_next_key a' = lcg (a_next_key a).

Lemma keys_kept_refl a : keys_kept a a.
Proof. split; [done|]. apply Forall_Forall2_diag, Forall_forall. auto. Qed.

Lemma keys_kept_trans a1 a2 a3 : keys_kept a1 a2 → keys_kept a2 a3 → keys_kept a1 a3.
Proof.
  intros [H1 F1] [H2 F2]. split; [congruence|]. rewrite Forall2_lookup in *.
  intros j. specialize (F1 j). specialize (F2 j).
  destruct (a_map a1 !! j), (a_map a2 !! j), (a_map a3 !! j);
    inversion F1 as [?? Hxy|]; inversion F2 as [?? Hyz|]; subst; constructor.
  intros Hz. destruct (Hyz Hz) as [Hy ->]. auto.
Qed.

Lemma evicts_keys prio a a1 : evicts prio a a1 → keys_kept a a1.
Proof.
  intros [[Hk _] Hf]. split; [done|]. eapply Forall2_impl; [|exact Hf].
  intros e e1 [->|(_ & _ & ->)]; [auto|discriminate].
Qed.

Lemma free_if_keys p a a' : a_next_key a' = a_next_key a →
  a_map a' = free_if p <$> a_map a → keys_kept a a'.
Proof.
  intros Hk Hm. split; [done|]. rewrite Hm. apply Forall2_fmap_r, Forall_Forall2_diag, Forall_forall.
  intros e _ Ho. apply free_if_occupied in Ho as Hf. destruct Hf as [_ E]. by rewrite E in *.
Qed.

(** Replacing one entry by one with the same key, or a freed one. *)
Lemma insert_keys a a' j e e' :
  a_map a !! j = Some e → (h_occupied e' = true → h_occupied e = true ∧ h_key e' = h_key e) →
  a_map a' = <[j := e']> (a_map a) → a_next_key a' = a_next_key a → keys_kept a a'.
Proof.
  intros Hj He Hm Hk. split; [done|]. rewrite Hm, <- (list_insert_id (a_map a) j e) at 1 by done.
  apply Forall2_insert; [apply (keys_kept_refl a)|done].
Qed.

(** * Each call keeps the invariant *)

Lemma wf_update N a j e e' :
  arena_wf N a → a_map a !! j = Some e →
  h_slot e' = h_slot e → h_gen e' = h_gen e → h_occupied e' = h_occupied e →
  is_i 8 (h_priority e') → arena_wf N (set_entry a j e').
Proof.
  intros Hwf Hj Hs Hg Ho Hp.
  assert (∀ k x, <[j := e']> (a_map a) !! k = Some x →
            k = j ∧ x = e' ∨ a_map a !! k = Some x) as Hlook.
  { intros k x [(-> & -> & _)|[_ ?]]%list_lookup_insert_Some; auto. }
  assert (∀ i, refs (<[j := e']> (a_map a)) i = refs (a_map a) i) as Hrefs.
  { intros i. pose proof (refs_insert (a_map a) j e e' i Hj) as H.
    unfold points in H. rewrite Hs, Ho in H. lia. }
  split; cbn [set_entry a_slots a_map].
  - apply Hwf.
  - apply Hwf.
  - rewrite length_insert. apply Hwf.
  - intros k x [[-> ->]|Hx]%Hlook Hox; [|by eapply (wf_live N a Hwf)].
    rewrite Hs. rewrite Ho in Hox. destruct (wf_live N a Hwf j e Hj Hox) as (s & ? & Hl).
    exists s. split; [done|]. rewrite live_true in *. by rewrite Hg.
  - intros i s Hi Hv. rewrite Hrefs. by apply (wf_count N a Hwf).
  - intros k x [[-> ->]|Hx]%Hlook Hox; [done|by eapply (wf_prio N a Hwf)].
Qed.

(** Freeing the entry a search found, if any. *)
Lemma remove_at_ok N a (P : HandleEntry → Prop) `{!∀ e, Decision (P e)} :
  (∀ e, P e → h_occupied e = true) → arena_wf N a →
  ∃ v a', remove_at a (fst <$> list_find P (a_map a)) = Ret (v, a') ∧ arena_wf N a' ∧
    match list_find P (a_map a) with
    | None => v = None ∧ a' = a
    | Some (j, e) => a_map a !! j = Some e ∧ P e ∧ kept a a' ∧
        a_map a' = <[j := entry_free e]> (a_map a) ∧
        ∃ s, a_slots a !! h_slot e = Some s ∧
          v = if decide (refs (a_map a) (h_slot e) = 1) then s_value s else None
    end.
Proof.
  intros HP Hwf. destruct (list_find P (a_map a)) as [[j e]|] eqn:E; cbn [fmap option_fmap option_map fst remove_at].
  - apply list_find_Some in E as (Hj & He & _).
    destruct (release_entry_ok N a j e Hwf Hj (HP e He)) as (s & Hs & Hl & ->).
    eexists _, _. split; [done|]. split; [by apply wf_release; auto|].
    split_and!; try done; [by apply kept_release|]. by exists s.
  - by eexists _, _.
Qed.

Lemma cancel_loop_ok N target ixs a :
  arena_wf N a → Forall (λ i, i < N) ixs →
  ∃ a', cancel_loop target ixs a = Ret a' ∧ arena_wf N a' ∧ keys_kept a a'.
Proof.
  revert a. induction ixs as [|i ixs IH]; intros a Hwf Hlt; cbn [cancel_loop].
  { exists a. split_and!; try done. apply keys_kept_refl. }
  apply Forall_cons_1 in Hlt as [Hi Hlt].
  destruct (idx_lt (a_map a) i) as (e & He & ->); [by rewrite (wf_map N a Hwf)|]. cbn [ebind].
  destruct (h_occupied e) eqn:Ho; cbn [andb]; [|by apply IH].
  case_bool_decide as Hpend; [|by apply IH].
  destruct (wf_live N a Hwf i e He Ho) as (s & Hs & Hl). rewrite (idx_ok _ _ _ Hs). cbn [ebind].
  rewrite Hl. destruct (IH (set_entry a i (entry_pending e None))) as (a' & -> & Hwf' & Hk); try done.
  { eapply wf_update; try done. exact (wf_prio N a Hwf i e He Ho). }
  exists a'. split_and!; try done. refine (keys_kept_trans _ _ _ _ Hk).
  by apply (insert_keys a _ i e (entry_pending e None)).
Qed.

Lemma prepare_ok N a h w t : arena_wf N a →
  ∃ b a', prepare_transfer a h w t = Ret (b, a') ∧ arena_wf N a' ∧
    match list_find (λ e, owned_free h w e = true) (a_map a) with
    | None => b = false ∧ a' = a
    | Some (j, e) => b = true ∧ a_map a !! j = Some e ∧ owned_free h w e = true ∧
        a' = set_entry a j (entry_pending e (Some t))
    end.
Proof.
  intros Hwf. unfold prepare_transfer.
  destruct (list_find _ (a_map a)) as [[j e]|] eqn:E; [|by eexists _, _].
  apply list_find_Some in E as (Hj & He & _).
  pose proof He as (Ho & _)%owned_free_true. destruct (wf_live N a Hwf j e Hj Ho) as (s & Hs & Hl).
  rewrite (idx_ok _ _ _ Hs). cbn [ebind]. rewrite Hl. cbn [negb].
  eexists _, _. split; [done|]. split; [|done]. eapply wf_update; try done.
  exact (wf_prio N a Hwf j e Hj Ho).
Qed.

Lemma cancel_ok N a h w : arena_wf N a →
  ∃ b a', cancel_transfer a h w = (b, a') ∧ arena_wf N a' ∧
    match list_find (λ e, owned_pending h w e = true) (a_map a) with
    | None => b = false ∧ a' = a
    | Some (j, e) => b = true ∧ a_map a !! j = Some e ∧ owned_pending h w e = true ∧
        a' = set_entry a j (entry_pending e None)
    end.
Proof.
  intros Hwf. unfold cancel_transfer.
  destruct (list_find _ (a_map a)) as [[j e]|] eqn:E; [|by eexists _, _].
  apply list_find_Some in E as (Hj & He & _). pose proof He as (Ho & _)%owned_pending_true.
  eexists _, _. split; [done|]. split; [|done]. eapply wf_update; try done.
  exact (wf_prio N a Hwf j e Hj Ho).
Qed.

Lemma acquire_ok N a h t p : is_i 8 p → arena_wf N a →
  ∃ b a', acquire a h t p = Ret (b, a') ∧ arena_wf N a' ∧
    match list_find (λ e, pending_for h t e = true) (a_map a) with
    | None => b = false ∧ a' = a
    | Some (j, e) => b = true ∧ a_map a !! j = Some e ∧ pending_for h t e = true ∧
        a' = set_entry a j (mkHEntry (h_key e) (h_slot e) (h_gen e) (h_occupied e) t p None)
    end.
Proof.
  intros Hp Hwf. unfold acquire.
  destruct (list_find _ (a_map a)) as [[j e]|] eqn:E; [|by eexists _, _].
  apply list_find_Some in E as (Hj & He & _).
  pose proof He as (Ho & _)%pending_for_true. destruct (wf_live N a Hwf j e Hj Ho) as (s & Hs & Hl).
  rewrite (idx_ok _ _ _ Hs). cbn [ebind]. rewrite Hl. cbn [negb].
  eexists _, _. split; [done|]. split; [|done]. by eapply wf_update.
Qed.

Lemma remove_ok N a h : arena_wf N a →
  ∃ v a', remove a h = Ret (v, a') ∧ arena_wf N a' ∧
    match list_find (λ e, has_key h e = true) (a_map a) with
    | None => v = None ∧ a' = a
    | Some (j, e) => a_map a !! j = Some e ∧ has_key h e = true ∧ kept a a' ∧
        a_map a' = <[j := entry_free e]> (a_map a) ∧
        ∃ s, a_slots a !! h_slot e = Some s ∧
          v = if decide (refs (a_map a) (h_slot e) = 1) then s_value s else None
    end.
Proof. intros Hwf. apply remove_at_ok; [|done]. by intros e (? & _)%has_key_true. Qed.

Lemma remove_owned_ok N a h w : arena_wf N a →
  ∃ v a', remove_owned a h w = Ret (v, a') ∧ arena_wf N a' ∧
    match list_find (λ e, has_key_owner h w e = true) (a_map a) with
    | None => v = None ∧ a' = a
    | Some (j, e) => a_map a !! j = Some e ∧ has_key_owner h w e = true ∧ kept a a' ∧
        a_map a' = <[j := entry_free e]> (a_map a) ∧
        ∃ s, a_slots a !! h_slot e = Some s ∧
          v = if decide (refs (a_map a) (h_slot e) = 1) then s_value s else None
    end.
Proof. intros Hwf. apply remove_at_ok; [|done]. by intros e (? & _)%has_key_owner_true. Qed.

(** [try_drop] is [remove_owned] with another result. *)
Lemma try_drop_remove_owned a h w : ∃ b,
  try_drop a h w = (let! r := remove_owned a h w in Ret (b, snd r)).
Proof.
  unfold try_drop, remove_owned, remove_at.
  destruct (list_find _ (a_map a)) as [[j e]|]; cbn [fmap option_fmap option_map fst];
    [exists true|exists false]; done.
Qed.

Lemma free_one_keys a a' j e : a_map a !! j = Some e → kept a a' →
  a_map a' = <[j := entry_free e]> (a_map a) → keys_kept a a'.
Proof. intros Hj [Hk _] Hm. eapply insert_keys; [done| |done..]; done. Qed.

Lemma run_op_ok N o a : op_ok o → arena_wf N a →
  ∃ a', run_op o a = Ret a' ∧ arena_wf N a' ∧ key_step a a'.
Proof.
  intros Hok Hwf. destruct o as [v w p|h|h w|t|h w n p|h w t|h w|h w p|h w|t]; cbn [run_op] in *.
  - destruct (alloc_ok N a v w p Hwf) as (r & a' & -> & Hr). exists a'. split; [done|].
    destruct r as [key|[]]; [|destruct Hr as [-> _]; split; [done|left; apply keys_kept_refl]..].
    destruct Hr as [-> Hr]. split; [by eapply alloc_done_wf|]. right.
    destruct Hr as (a1 & i & s & j & e0 & Hev & _ & _ & _ & Hj & Ho & ->).
    eexists a1, j, e0, _. split_and!; cycle 5; [done|done|by eapply evicts_keys|done..].
  - destruct (remove_ok N a h Hwf) as (v & a' & -> & Hwf' & Hr). exists a'. split_and!; try done.
    left. destruct (list_find _ _) as [[j e]|]; [|destruct Hr as [_ ->]; apply keys_kept_refl].
    destruct Hr as (? & _ & ? & ? & _). by eapply free_one_keys.
  - destruct (remove_owned_ok N a h w Hwf) as (v & a' & -> & Hwf' & Hr). exists a'.
    split_and!; try done.
    left. destruct (list_find _ _) as [[j e]|]; [|destruct Hr as [_ ->]; apply keys_kept_refl].
    destruct Hr as (? & _ & ? & ? & _). by eapply free_one_keys.
  - destruct (remove_by_owner_ok N a t Hwf) as (a' & -> & Hwf' & [Hk _] & Hm). exists a'.
    split_and!; try done. left. by eapply free_if_keys.
  - destruct (clone_handle_ok N a h w n p Hwf) as (r & a' & -> & Hr). exists a'. split; [done|].
    destruct r as [key|[]]; [|destruct Hr as [-> _]; split; [done|left; apply keys_kept_refl]..|done].
    destruct Hr as (-> & js & src & _ & _ & Hr). split; [by eapply clone_done_wf|]. right.
    destruct Hr as (a1 & s & j & e0 & Hev & _ & _ & _ & _ & Hj & Ho & ->).
    eexists a1, j, e0, _. split_and!; cycle 5; [done|done|by eapply evicts_keys|done..].
  - destruct (prepare_ok N a h w t Hwf) as (b & a' & -> & Hwf' & Hr). exists a'.
    split_and!; try done. left.
    destruct (list_find _ _) as [[j e]|]; [|destruct Hr as [_ ->]; apply keys_kept_refl].
    destruct Hr as (_ & Hj & _ & ->). eapply insert_keys; [done| |done..]; auto.
  - destruct (cancel_ok N a h w Hwf) as (b & a' & -> & Hwf' & Hr). exists a'.
    split_and!; try done. left.
    destruct (list_find _ _) as [[j e]|]; [|destruct Hr as [_ ->]; apply keys_kept_refl].
    destruct Hr as (_ & Hj & _ & ->). eapply insert_keys; [done| |done..]; auto.
  - destruct (acquire_ok N a h w p Hok Hwf) as (b & a' & -> & Hwf' & Hr). exists a'.
    split_and!; try done. left.
    destruct (list_find _ _) as [[j e]|]; [|destruct Hr as [_ ->]; apply keys_kept_refl].
    destruct Hr as (_ & Hj & _ & ->). eapply insert_keys; [done| |done..]; auto.
  - destruct (try_drop_remove_owned a h w) as [b ->].
    destruct (remove_owned_ok N a h w Hwf) as (v & a' & -> & Hwf' & Hr). exists a'.
    split_and!; try done.
    left. destruct (list_find _ _) as [[j e]|]; [|destruct Hr as [_ ->]; apply keys_kept_refl].
    destruct Hr as (? & _ & ? & ? & _). by eapply free_one_keys.
  - unfold cancel_transfers_to.
    destruct (cancel_loop_ok N t (seq 0 (length (a_map a))) a Hwf) as (a' & -> & ? & ?).
    { apply Forall_seq. intros j Hj. rewrite <- (wf_map N a Hwf). lia. }
    exists a'. split_and!; try done. by left.
Qed.

(** * Histories *)

Definition seed (kind : Z) : Z := Z.lor (Z.shiftl kind 56) 1.

Lemma seed_eq kind : seed kind = (kind * 2 ^ 56 + 1)%Z.
Proof.
  unfold seed. rewrite <- Z.shiftl_mul_pow2 by lia. symmetry. apply Z.add_nocarry_lor.
  change 1%Z with (Z.ones 1). rewrite Z.land_ones, Z.shiftl_mul_pow2 by lia.
  replace (kind * 2 ^ 56)%Z with (kind * 2 ^ 55 * 2 ^ 1)%Z by lia. apply Z_mod_mult.
Qed.

Lemma seed_u64 kind : is_u 8 kind → is_u 64 (seed kind).
Proof. unfold is_u. rewrite seed_eq. lia. Qed.

(** The keys of the occupied entries are distinct and among the first [n]
    keys of the generator. *)
Definition keys_ok (x : Z) (n : nat) a : Prop :=
  a_next_key a = key_at x n ∧
  (∀ j e, a_map a !! j = Some e → h_occupied e = true → ∃ k, k < n ∧ h_key e = key_at x k) ∧
  (∀ j j' e e', a_map a !! j = Some e → a_map a !! j' = Some e' →
     h_occupied e = true → h_occupied e' = true → h_key e = h_key e' → j = j').

Lemma keys_ok_kept x n a a' : keys_kept a a' → keys_ok x n a → keys_ok x n a'.
Proof.
  intros [Hn Hf] (Hk & Hin & Hinj).
  assert (∀ j e', a_map a' !! j = Some e' → h_occupied e' = true →
    ∃ e, a_map a !! j = Some e ∧ h_occupied e = true ∧ h_key e' = h_key e) as Hback.
  { intros j e' Hj Ho. destruct (Forall2_lookup_r _ _ _ _ _ Hf Hj) as (e & He & Himp).
    destruct (Himp Ho). eauto. }
  split_and!; [congruence|..].
  - intros j e' Hj Ho. destruct (Hback j e' Hj Ho) as (e & He & Hoe & ->). eauto.
  - intros j j' e e' Hj Hj' Ho Ho' E. destruct (Hback j e Hj Ho) as (x1 & ? & ? & Hx1).
    destruct (Hback j' e' Hj' Ho') as (x2 & ? & ? & Hx2). eapply Hinj; try done. congruence.
Qed.

Lemma keys_ok_step x n a a' : is_u 64 x → (Z.of_nat n < 2 ^ 64)%Z →
  key_step a a' → keys_ok x n a → ∃ n', n ≤ n' ≤ S n ∧ keys_ok x n' a'.
Proof.
  intros Hx Hn [Hk|(a1 & j & e0 & e' & Hk & Hj & Ho0 & Ho' & Hkey & Hm & Hnext)] Hok.
  { exists n. split; [lia|]. by eapply keys_ok_kept. }
  exists (S n). split; [lia|]. pose proof (keys_ok_kept x n a a1 Hk Hok) as (_ & Hin & Hinj).
  destruct Hok as (Hn0 & _). assert (h_key e' = key_at x n) as Hke by congruence.
  assert (∀ k y, a_map a1 !! k = Some y → h_occupied y = true → h_key y ≠ h_key e') as Hfresh.
  { intros k y Hy Hoy. destruct (Hin k y Hy Hoy) as (i & Hi & ->). rewrite Hke.
    intros E. apply key_at_inj in E; [lia|done|lia..]. }
  assert (∀ k y, a_map a' !! k = Some y → h_occupied y = true →
    k = j ∧ y = e' ∨ k ≠ j ∧ a_map a1 !! k = Some y) as Hlook.
  { intros k y. rewrite Hm. intros [(-> & -> & _)|[? ?]]%list_lookup_insert_Some _; auto. }
  split_and!.
  - rewrite Hnext, Hn0. done.
  - intros k y Hy Hoy. destruct (Hlook k y Hy Hoy) as [[-> ->]|[_ Hy']].
    + exists n. split; [lia|done].
    + destruct (Hin k y Hy' Hoy) as (i & ? & ?). exists i. split; [lia|done].
  - intros k k' y y' Hy Hy' Hoy Hoy' E.
    destruct (Hlook k y Hy Hoy) as [[-> ->]|[Hne Hy1]];
      destruct (Hlook k' y' Hy' Hoy') as [[-> ->]|[Hne' Hy1']]; try done.
    + by destruct (Hfresh k' y' Hy1' Hoy').
    + by destruct (Hfresh k y Hy1 Hoy).
    + by eapply (Hinj k k' y y').
Qed.

Lemma run_ops_ok N x os n a : is_u 64 x → Forall op_ok os → arena_wf N a → keys_ok x n a →
  (Z.of_nat (n + length os) ≤ 2 ^ 64)%Z →
  ∃ a' n', run_ops os a = Ret a' ∧ arena_wf N a' ∧ n ≤ n' ≤ n + length os ∧ keys_ok x n' a'.
Proof.
  intros Hx Hos. revert n a. induction Hos as [|o os Ho _ IH]; intros n a Hwf Hk Hn.
  { exists a, n. split_and!; try done; cbn; lia. }
  cbn [length] in Hn. destruct (run_op_ok N o a Ho Hwf) as (a1 & Hr & Hwf1 & Hstep).
  destruct (keys_ok_step x n a a1) as (n1 & Hn1 & Hk1); [done|lia|done..|].
  destruct (IH n1 a1 Hwf1 Hk1) as (a' & n' & ? & ? & ? & ?); [lia|].
  exists a', n'. cbn [run_ops length]. rewrite Hr. cbn [ebind]. split_and!; try done; lia.
Qed.

Lemma arena_new_ok N kind : N ≤ 255 →
  ∃ a, arena_new (T:=T) N kind = Ret a ∧ arena_wf N a ∧ keys_ok (seed kind) 0 a.
Proof.
  intros HN. unfold arena_new. rewrite decide_True by lia. eexists. split; [done|].
  assert (∀ j e, replicate N EMPTY_ENTRY !! j = Some e → h_occupied e = false) as Hemp.
  { intros j e [-> _]%lookup_replicate. done. }
  assert (∀ i (s : Slot T), replicate N EMPTY_SLOT !! i = Some s → s_value s = None) as Hemps.
  { intros i s [-> _]%lookup_replicate. done. }
  split; [split; cbn [a_slots a_map]|split_and!; cbn [a_map]].
  - done.
  - apply length_replicate.
  - apply length_replicate.
  - intros j e Hj Ho. apply Hemp in Hj. congruence.
  - intros i s Hi Hv. apply Hemps in Hi. rewrite Hi in Hv. by destruct Hv.
  - intros j e Hj Ho. apply Hemp in Hj. congruence.
  - done.
  - intros j e Hj Ho. apply Hemp in Hj. congruence.
  - intros j j' e e' Hj _ Ho. apply Hemp in Hj. congruence.
Qed.

Lemma reach_ok N kind os : N ≤ 255 → is_u 8 kind → Forall op_ok os →
  (Z.of_nat (length os) ≤ 2 ^ 64)%Z →
  ∃ a n, reach N kind os = Ret a ∧ arena_wf N a ∧ n ≤ length os ∧ keys_ok (seed kind) n a.
Proof.
  intros HN Hk Hos Hlen. unfold reach. destruct (arena_new_ok N kind HN) as (a0 & -> & Hwf & Hk0).
  cbn [ebind]. destruct (run_ops_ok N (seed kind) os 0 a0) as (a & n & ? & ? & ? & ?); try done.
  - by apply seed_u64.
  - exists a, n. split_and!; try done. lia.
Qed.
End ops.
