(* ===== verification/ArenaTheorems.v ===== *)
(** What the arena guarantees: no panic and a sound reference count along every
    history of calls, handles that resolve to their value until released and
    never again after, isolation between owners, and atomic transfer. *)

From S2P Require Import Prelude Arena ArenaSpec ArenaOps.

(** * Resolution of handles *)

Lemma list_find_agree {A} (p : A → bool) (l l' : list A) :
  Forall2 (λ x y, y = x ∨ p x = false ∧ p y = false) l l' →
  list_find (λ x, p x = true) l' = list_find (λ x, p x = true) l.
Proof.
  induction 1 as [|x y l l' [->|[Hx Hy]] _ IH]; cbn [list_find]; [done| |].
  - by rewrite IH.
  - rewrite !decide_False by congruence. by rewrite IH.
Qed.

Lemma list_find_unique {A} (p : A → bool) (l : list A) j x :
  l !! j = Some x → p x = true →
  (∀ j' x', l !! j' = Some x' → p x' = true → j' = j) →
  list_find (λ x, p x = true) l = Some (j, x).
Proof.
  intros Hj Hp Hu. apply list_find_Some. split_and!; try done.
  intros j' x' Hj' Hlt Hp'. specialize (Hu j' x' Hj' Hp'). lia.
Qed.

Lemma list_find_absent {A} (p : A → bool) (l : list A) :
  (∀ j x, l !! j = Some x → p x = false) → list_find (λ x, p x = true) l = None.
Proof.
  intros H. apply list_find_None, Forall_lookup. intros j x Hj. by rewrite (H j x Hj).
Qed.

Section theorems.
Context {T : Type}.
Implicit Types (a : Arena T) (s : Slot T) (e : HandleEntry).

(** The value behind the first entry that satisfies [p]. *)
Definition resolve (p : HandleEntry → bool) a : option T :=
  match list_find (λ e, p e = true) (a_map a) with
  | Some (_, e) => a_slots a !! h_slot e ≫= s_value
  | None => None
  end.

Lemma lookup_in_resolve N a p : (∀ e, p e = true → h_occupied e = true) → arena_wf N a →
  (let! o := lookup_in (a_slots a) p (a_map a) in value_at a o) = Ret (resolve p a).
Proof.
  intros Hp Hwf. unfold resolve.
  assert (∀ es, (∀ e, e ∈ es → p e = true → ∃ s, a_slots a !! h_slot e = Some s ∧ live s e = true) →
    lookup_in (a_slots a) p es =
      Ret (h_slot ∘ snd <$> list_find (λ e, p e = true) es)) as Hlook.
  { induction es as [|e es IH]; intros Hes; cbn [lookup_in list_find]; [done|].
    destruct (p e) eqn:E.
    - destruct (Hes e) as (s & Hs & Hl); [left|done|].
      rewrite (idx_ok _ _ _ Hs). cbn [ebind]. by rewrite Hl.
    - rewrite IH by (intros; apply Hes; [by right|done]).
      rewrite decide_False by congruence. by destruct (list_find _ es) as [[? ?]|]. }
  rewrite Hlook.
  - cbn [ebind]. destruct (list_find _ (a_map a)) as [[j e]|] eqn:E; [|done].
    apply list_find_Some in E as (Hj & He & _).
    destruct (wf_live N a Hwf j e Hj (Hp e He)) as (s & Hs & _).
    cbn. rewrite (idx_ok _ _ _ Hs), Hs. done.
  - intros e [j Hj]%list_elem_of_lookup He. by eapply (wf_live N a Hwf); eauto.
Qed.

Lemma get_resolve N a h : arena_wf N a → get a h = Ret (resolve (key_free h) a).
Proof. intros. eapply lookup_in_resolve; [|done]. by intros e (? & _)%key_free_true. Qed.

Lemma get_owned_resolve N a h w : arena_wf N a →
  get_mut_owned a h w = Ret (resolve (owned_free h w) a).
Proof. intros. eapply lookup_in_resolve; [|done]. by intros e (? & _)%owned_free_true. Qed.

(** Changes of entries that do not satisfy [p] do not change what [p] resolves to. *)
Lemma resolve_frame N p a a' : (∀ e, p e = true → h_occupied e = true) →
  arena_wf N a' → kept a a' →
  Forall2 (λ e e', e' = e ∨ p e = false ∧ p e' = false) (a_map a) (a_map a') →
  resolve p a' = resolve p a.
Proof.
  intros Hp Hwf' [_ Hk] Hf. unfold resolve. rewrite (list_find_agree p _ _ Hf).
  destruct (list_find _ (a_map a)) as [[j e]|] eqn:E; [|done].
  rewrite <- (list_find_agree p _ _ Hf) in E. apply list_find_Some in E as (Hj & He & _).
  destruct (wf_live N a' Hwf' j e Hj (Hp e He)) as (s' & Hs' & [_ Hv]%live_true).
  destruct (Hk _ s' Hs' Hv) as (s & Hs & Hvs & _). rewrite Hs, Hs'. cbn. by rewrite Hvs.
Qed.

(** One entry replaced; nothing it did or does satisfies [p]. *)
Lemma insert_frame (p : HandleEntry → bool) (m : list HandleEntry) j e e' :
  m !! j = Some e → p e = false → p e' = false →
  Forall2 (λ x y, y = x ∨ p x = false ∧ p y = false) m (<[j := e']> m).
Proof.
  intros Hj He He'. rewrite <- (list_insert_id m j e) at 1 by done.
  apply Forall2_insert; [|by right]. apply Forall_Forall2_diag, Forall_forall. by left.
Qed.

Lemma free_if_frame (p q : HandleEntry → bool) (m : list HandleEntry) :
  (∀ e, p e = true → h_occupied e = true) → (∀ e, q e = true → p e = false) →
  Forall2 (λ x y, y = x ∨ p x = false ∧ p y = false) m (free_if q <$> m).
Proof.
  intros Hp Hq. apply Forall2_fmap_r, Forall_Forall2_diag, Forall_forall. intros e _.
  unfold compose, free_if. destruct (q e) eqn:E; [right|by left]. split; [auto|].
  apply not_true_is_false. intros H. apply Hp in H. done.
Qed.

(** ** Eviction and installation *)

Definition at_most_one (p : HandleEntry → bool) a : Prop :=
  ∀ j j' e e', a_map a !! j = Some e → a_map a !! j' = Some e' →
    p e = true → p e' = true → j = j'.

Lemma keys_unique x n a (p : HandleEntry → bool) h :
  keys_ok x n a → (∀ e, p e = true → h_occupied e = true ∧ h_key e = h) → at_most_one p a.
Proof.
  intros (_ & _ & Hinj) Hp j j' e e' Hj Hj' He He'.
  destruct (Hp e He), (Hp e' He'). apply (Hinj j j' e e'); try done. congruence.
Qed.

Lemma resolve_found N a (p : HandleEntry → bool) j e s :
  arena_wf N a → at_most_one p a → a_map a !! j = Some e → p e = true →
  a_slots a !! h_slot e = Some s → resolve p a = s_value s.
Proof.
  intros Hwf H1 Hj He Hs. unfold resolve. rewrite (list_find_unique p _ j e); try done.
  - by rewrite Hs.
  - intros. by eapply H1.
Qed.

Lemma resolve_absent a (p : HandleEntry → bool) :
  (∀ j e, a_map a !! j = Some e → p e = false) → resolve p a = None.
Proof. intros H. unfold resolve. by rewrite list_find_absent. Qed.

Lemma evicts_resolve N prio a a1 (p : HandleEntry → bool) x :
  (∀ e, p e = true → h_occupied e = true) → arena_wf N a1 → evicts prio a a1 →
  at_most_one p a → resolve p a = Some x →
  resolve p a1 = Some x ∨
  resolve p a1 = None ∧ ∃ j e, a_map a !! j = Some e ∧ p e = true ∧ (h_priority e < prio)%Z.
Proof.
  intros Hp Hwf1 [[_ Hk] Hf] Hone Hx. unfold resolve in Hx.
  destruct (list_find _ (a_map a)) as [[j e]|] eqn:E; [|done].
  apply list_find_Some in E as (Hj & He & _).
  assert (∀ e, p (entry_free e) = false) as Hpf.
  { intros e'. apply not_true_is_false. intros H%Hp. done. }
  assert (∀ j' e', a_map a1 !! j' = Some e' → p e' = true → j' = j ∧ a_map a !! j' = Some e') as Hback.
  { intros j' e' Hj' He'. destruct (Forall2_lookup_r _ _ _ _ _ Hf Hj') as (e0 & He0 & [->|(_ & _ & ->)]).
    - split; [by eapply Hone|done].
    - by rewrite Hpf in He'. }
  destruct (Forall2_lookup_l _ _ _ _ _ Hf Hj) as (e1 & He1 & [->|(_ & Hprio & ->)]).
  - left. destruct (wf_live N a1 Hwf1 j e He1 (Hp e He)) as (s1 & Hs1 & [_ Hv1]%live_true).
    destruct (Hk _ s1 Hs1 Hv1) as (s & Hs & Hv & _).
    rewrite (resolve_found N a1 p j e s1); try done.
    + rewrite Hs in Hx. cbn in Hx. congruence.
    + intros j1 j2 x1 x2 H1 H2 P1 P2. destruct (Hback _ _ H1 P1), (Hback _ _ H2 P2). congruence.
  - right. split; [|eauto]. apply resolve_absent. intros j' e' Hj'. apply not_true_is_false.
    intros He'. destruct (Hback j' e' Hj' He') as [-> _]. simplify_eq. by rewrite Hpf in He'.
Qed.

(** Installing an entry that does not satisfy [p] changes nothing for [p]. *)
Lemma install_frame N a1 v s s' j e0 e' k (p : HandleEntry → bool) :
  (∀ e, p e = true → h_occupied e = true) → arena_wf N a1 →
  a_slots a1 !! v = Some s → (s_value s = None ∨ s_value s' = s_value s) →
  a_map a1 !! j = Some e0 → h_occupied e0 = false → p e' = false →
  resolve p (mkArena (<[v := s']> (a_slots a1)) (<[j := e']> (a_map a1)) k) = resolve p a1.
Proof.
  intros Hp Hwf Hs Hvs Hj Ho He'. unfold resolve. cbn [a_map a_slots].
  rewrite (list_find_agree p (a_map a1)).
  2:{ eapply insert_frame; [done| |done]. apply not_true_is_false. intros H%Hp. congruence. }
  destruct (list_find _ (a_map a1)) as [[i e]|] eqn:E; [|done].
  apply list_find_Some in E as (Hi & He & _).
  destruct (wf_live N a1 Hwf i e Hi (Hp e He)) as (si & Hsi & [_ Hvi]%live_true).
  destruct (decide (h_slot e = v)) as [Hev|Hne].
  - rewrite Hev in *. simplify_eq. rewrite list_lookup_insert_eq by (by eapply lookup_lt_Some).
    rewrite Hs. cbn. destruct Hvs as [Hn|Hn]; [|done]. rewrite Hn in Hvi. by destruct Hvi.
  - by rewrite list_lookup_insert_ne.
Qed.

(** * Safety *)

Lemma run_ops_wf N os a : Forall op_ok os → arena_wf N a →
  ∃ a', run_ops os a = Ret a' ∧ arena_wf N a'.
Proof.
  intros Hos. revert a. induction Hos as [|o os Ho _ IH]; intros a Hwf; cbn [run_ops]; [eauto|].
  destruct (run_op_ok N o a Ho Hwf) as (a1 & -> & Hwf1 & _). cbn [ebind]. auto.
Qed.
End theorems.

Lemma reach_wf {T} N kind (os : list (arena_op T)) a :
  N ≤ 255 → Forall op_ok os → reach N kind os = Ret a → arena_wf N a.
Proof.
  unfold reach. intros HN Hos Hr.
  destruct (arena_new_ok (T:=T) N kind HN) as (a0 & Hn & Hwf & _). rewrite Hn in Hr. cbn [ebind] in Hr.
  destruct (run_ops_wf N os a0 Hos Hwf) as (a1 & Hr1 & Hwf1). rewrite Hr1 in Hr. by injection Hr as <-.
Qed.

(** C29: the arena is safe along every history. From [Arena::new] with at most
    255 slots, every sequence of calls runs without an out-of-bounds access, a
    refcount overflow or a failed assertion, every [get] afterwards returns, and
    the state satisfies the invariant: each occupied entry refers to a slot that
    holds a value of the same generation, and the reference count of a slot with
    a value is the number of its entries. *)
Theorem arena_history_safe {T} (N : nat) (kind : Z) (os : list (arena_op T)) :
  N ≤ 255 → Forall op_ok os →
  ∃ a, reach N kind os = Ret a ∧ arena_wf N a ∧
    ∀ h w, ∃ o o', get a h = Ret o ∧ get_mut_owned a h w = Ret o'.
Proof.
  intros HN Hos. unfold reach. destruct (arena_new_ok (T:=T) N kind HN) as (a0 & -> & Hwf & _).
  cbn [ebind]. destruct (run_ops_wf N os a0 Hos Hwf) as (a & ? & Hwf').
  exists a. split_and!; try done. intros h w.
  rewrite (get_resolve N), (get_owned_resolve N) by done. eauto.
Qed.

Lemma arena_history_safe_witness :
  ∃ a, reach 2 7 [OAlloc 10 1 5; OAlloc 11 2 3; OAlloc 12 3 4; OAcquire 0 9 1]%Z = Ret a ∧
    arena_wf 2 a ∧ ∀ h w, ∃ o o', get a h = Ret o ∧ get_mut_owned a h w = Ret o'.
Proof.
  apply (arena_history_safe 2 7 [OAlloc 10 1 5; OAlloc 11 2 3; OAlloc 12 3 4; OAcquire 0 9 1]%Z).
  - lia.
  - repeat (constructor; [vm_compute; split; [discriminate|reflexivity]|]). constructor.
Defined.

Section reachable.
Context {T : Type} (N : nat) (kind : Z) (os : list (arena_op T)) (a : Arena T).
Context (HN : N ≤ 255) (Hkind : is_u 8 kind) (Hos : Forall op_ok os).
Context (Hlen : (Z.of_nat (length os) < 2 ^ 64)%Z) (Hreach : reach N kind os = Ret a).

Lemma reachable_ok : ∃ n, arena_wf N a ∧ (Z.of_nat n < 2 ^ 64)%Z ∧ n ≤ length os ∧
  keys_ok (seed kind) n a.
Proof.
  destruct (reach_ok N kind os) as (a' & n & Hr & ? & ? & ?); try done; [lia|].
  rewrite Hreach in Hr. injection Hr as <-. exists n. split_and!; try done. lia.
Qed.

Lemma reachable_unique (p : HandleEntry → bool) h :
  (∀ e, p e = true → h_occupied e = true ∧ h_key e = h) → at_most_one p a.
Proof. destruct reachable_ok as (n & _ & _ & _ & Hk). by eapply keys_unique. Qed.

(** The next key is in no entry. *)
Lemma reachable_fresh j e : a_map a !! j = Some e → has_key (a_next_key a) e = false.
Proof.
  destruct reachable_ok as (n & _ & Hn & _ & Hkey & Hin & _). intros Hj.
  apply not_true_is_false. intros [Ho Hk]%has_key_true. destruct (Hin j e Hj Ho) as (i & Hi & E).
  rewrite Hk, Hkey in E. apply key_at_inj in E; [lia|by apply seed_u64|lia..].
Qed.
End reachable.

Lemma key_free_key h e : key_free h e = true → h_occupied e = true ∧ h_key e = h.
Proof. intros (? & ? & _)%key_free_true. done. Qed.

Lemma owned_free_key h w e : owned_free h w e = true → h_occupied e = true ∧ h_key e = h.
Proof. intros (? & ? & _)%owned_free_true. done. Qed.

(** Two searches by different keys do not meet. *)
Lemma key_free_ne h h' e : h_key e = h → h' ≠ h → key_free h' e = false.
Proof. intros Hk Hne. apply not_true_is_false. intros (_ & ? & _)%key_free_true. congruence. Qed.

Section alloc.
Context {T : Type} (N : nat) (kind : Z) (os : list (arena_op T)) (a : Arena T).
Context (HN : N ≤ 255) (Hkind : is_u 8 kind) (Hos : Forall op_ok os).
Context (Hlen : (Z.of_nat (length os) < 2 ^ 64)%Z) (Hreach : reach N kind os = Ret a).

(** A new handle resolves to its value by every search its entry satisfies. *)
Lemma alloc_done_new value owner prio a' (p : HandleEntry → bool) :
  is_i 8 prio → alloc_done N value owner prio a a' →
  (∀ e, p e = true → has_key (a_next_key a) e = true) →
  (∀ e, h_occupied e = true → h_key e = a_next_key a → h_owner e = owner →
     h_pending_to e = None → p e = true) →
  resolve p a' = Some value.
Proof.
  intros Hp Hd Hpk Hpe. pose proof (alloc_done_wf N _ _ _ _ _ Hp Hd) as Hwf'.
  destruct Hd as (a1 & v & s & j & e0 & Hev & Hwf1 & Hs & Hv & Hj & Ho & ->).
  set (e' := mkHEntry _ _ _ _ _ _ _).
  assert (∀ j' x, <[j := e']> (a_map a1) !! j' = Some x → p x = true → j' = j) as Honly.
  { intros j' x [(-> & _)|[Hne Hx]]%list_lookup_insert_Some Hpx; [done|]. exfalso.
    destruct (Forall2_lookup_r _ _ _ _ _ (proj2 Hev) Hx) as (e1 & He1 & [->|(_ & _ & ->)]).
    - apply Hpk in Hpx. by rewrite (reachable_fresh N kind os a HN Hkind Hos Hlen Hreach j') in Hpx.
    - apply Hpk, has_key_true in Hpx as [? _]. done. }
  eapply (resolve_found N _ p j e' (mkSlot (Some value) (s_gen s) 1)); try done.
  - intros j1 j2 x1 x2 H1 H2 P1 P2. cbn [a_map] in *.
    by rewrite (Honly j1 x1 H1 P1), (Honly j2 x2 H2 P2).
  - cbn [a_map]. apply list_lookup_insert_eq. by eapply lookup_lt_Some.
  - by apply Hpe.
  - cbn [a_slots h_slot e']. apply list_lookup_insert_eq. by eapply lookup_lt_Some.
Qed.

(** Another handle keeps its value unless its entry was evicted. *)
Lemma alloc_done_other value owner prio a' h' x :
  alloc_done N value owner prio a a' → h' ≠ a_next_key a → resolve (key_free h') a = Some x →
  resolve (key_free h') a' = Some x ∨
  resolve (key_free h') a' = None ∧
    ∃ j e, a_map a !! j = Some e ∧ key_free h' e = true ∧ (h_priority e < prio)%Z.
Proof.
  intros (a1 & v & s & j & e0 & Hev & Hwf1 & Hs & Hv & Hj & Ho & ->) Hne Hx.
  rewrite (install_frame N a1 v s _ j e0); try done; [|by intros e [? _]%key_free_key|by left|by eapply key_free_ne].
  eapply (evicts_resolve N); try done; [by intros e [? _]%key_free_key|].
  eapply (reachable_unique N kind os a); try done. intros e. apply key_free_key.
Qed.
End alloc.

(** Allocation is a round trip, and takes nothing from stronger handles.
    On a reachable arena, a successful [alloc] returns a handle that was free,
    that resolves to the value, for its owner and for no other owner; any other
    handle that resolved before still resolves to the same value, except one
    whose priority is strictly below the requester's, which may be evicted. *)
Theorem alloc_handle_resolves {T} (N : nat) (kind : Z) (os : list (arena_op T)) (a a' : Arena T)
    (value : T) (owner prio h : Z) :
  N ≤ 255 → is_u 8 kind → Forall op_ok os → (Z.of_nat (length os) < 2 ^ 64)%Z → is_i 8 prio →
  reach N kind os = Ret a → alloc a value owner prio = Ret (Ok h, a') →
  get a h = Ret None ∧ get a' h = Ret (Some value) ∧
  get_mut_owned a' h owner = Ret (Some value) ∧
  (∀ w, w ≠ owner → get_mut_owned a' h w = Ret None) ∧
  (∀ h' x, h' ≠ h → get a h' = Ret (Some x) →
     get a' h' = Ret (Some x) ∨
     get a' h' = Ret None ∧
       ∃ j e, a_map a !! j = Some e ∧ key_free h' e = true ∧ (h_priority e < prio)%Z).
Proof.
  intros HN Hkind Hos Hlen Hp Hreach Halloc.
  destruct (reachable_ok N kind os a) as (n & Hwf & _); try done.
  destruct (alloc_ok N a value owner prio Hwf) as (r & a2 & Hr & Hspec).
  rewrite Halloc in Hr. injection Hr as <- <-. destruct Hspec as [-> Hd].
  pose proof (alloc_done_wf N _ _ _ _ _ Hp Hd) as Hwf'.
  pose proof (reachable_fresh N kind os a HN Hkind Hos Hlen Hreach) as Hfresh.
  rewrite !(get_resolve N), !(get_owned_resolve N) by done. split_and!.
  - rewrite resolve_absent; [done|]. intros j e Hj. unfold key_free. by rewrite (Hfresh j e Hj).
  - f_equal. apply (alloc_done_new N kind os a HN Hkind Hos Hlen Hreach value owner prio); try done.
    + intros e He. by apply has_key_true, key_free_key.
    + intros. by apply key_free_true.
  - f_equal. apply (alloc_done_new N kind os a HN Hkind Hos Hlen Hreach value owner prio); try done.
    + intros e He. by eapply has_key_true, owned_free_key.
    + intros. by apply owned_free_true.
  - intros w Hw. rewrite (get_owned_resolve N) by done. rewrite resolve_absent; [done|].
    destruct Hd as (a1 & v & s & j & e0 & Hev & _ & _ & _ & _ & _ & ->). intros i e Hi.
    apply not_true_is_false. intros (Ho & Hk & Hw' & _)%owned_free_true.
    apply list_lookup_insert_Some in Hi as [(_ & <- & _)|[_ Hi]]; [done|].
    destruct (Forall2_lookup_r _ _ _ _ _ (proj2 Hev) Hi) as (e1 & He1 & [->|(_ & _ & ->)]); [|done].
    specialize (Hfresh i e1 He1). by rewrite (proj2 (has_key_true _ _) (conj Ho Hk)) in Hfresh.
  - intros h' x Hne. rewrite !(get_resolve N) by done. intros [= Hx].
    destruct (alloc_done_other N kind os a HN Hkind Hos Hlen Hreach value owner prio a' h' x)
      as [->|[-> ?]]; auto.
Qed.

(** A two-slot arena holding 10 (owner 1, priority 5) and 11 (owner 2, priority 3). *)
Definition demo_ops : list (arena_op Z) := [OAlloc 10 1 5; OAlloc 11 2 3]%Z.

Lemma demo_ops_ok : Forall op_ok demo_ops.
Proof. repeat (constructor; [vm_compute; split; [discriminate|reflexivity]|]). constructor. Qed.

(** The state an outcome holds, for the examples. *)
Definition run_state (m : exec (Arena Z)) : Arena Z :=
  match m with Ret a => a | Panic => mkArena [] [] 0 end.
Definition demo_arena : Arena Z := Eval vm_compute in run_state (reach 2 7 demo_ops).
(** The handles of 10 and 11, and the one the next [alloc] returns. *)
Definition demo_h1 : Z := Eval vm_compute in key_at (seed 7) 0.
Definition demo_h2 : Z := Eval vm_compute in key_at (seed 7) 1.
Definition demo_h3 : Z := Eval vm_compute in key_at (seed 7) 2.
Definition demo_alloc : Arena Z := Eval vm_compute in run_state (run_op (OAlloc 12 3 4)%Z demo_arena).

Lemma alloc_handle_resolves_witness :
  get demo_arena demo_h3 = Ret None ∧ get demo_alloc demo_h3 = Ret (Some 12%Z).
Proof.
  destruct (alloc_handle_resolves 2 7 demo_ops demo_arena demo_alloc 12%Z 3 4 demo_h3)
    as (H1 & H2 & _);
    [lia|const_u|apply demo_ops_ok|reflexivity|split; [discriminate|reflexivity]
    |vm_compute; reflexivity|vm_compute; reflexivity|].
  split; [exact H1|exact H2].
Defined.

(** * Released handles *)

(** Some occupied entry carries the handle. *)
Definition has_handle {T} (a : Arena T) (h : Z) : Prop :=
  ∃ j e, a_map a !! j = Some e ∧ has_key h e = true.

Section stale.
Context {T : Type}.
Implicit Types a : Arena T.

Lemma no_handle_absent N a h w : arena_wf N a → ¬ has_handle a h →
  get a h = Ret None ∧ get_mut_owned a h w = Ret None.
Proof.
  intros Hwf Hno. rewrite (get_resolve N), (get_owned_resolve N) by done.
  rewrite !resolve_absent; [done|..]; intros j e Hj; apply not_true_is_false; intros He;
    apply Hno; exists j, e; (split; [done|]); apply has_key_true;
    [by eapply owned_free_key|by apply key_free_key].
Qed.

Lemma no_handle_kept a a' h : keys_kept a a' → ¬ has_handle a h → ¬ has_handle a' h.
Proof.
  intros [_ Hf] Hno (j & e & Hj & [Ho Hk]%has_key_true). apply Hno.
  destruct (Forall2_lookup_r _ _ _ _ _ Hf Hj) as (e0 & He0 & Himp).
  destruct (Himp Ho) as [Ho0 Hk0]. exists j, e0. split; [done|]. apply has_key_true.
  split; [done|congruence].
Qed.

Lemma no_handle_step x n k a a' : is_u 64 x → (Z.of_nat n < 2 ^ 64)%Z → k < n →
  key_step a a' → keys_ok x n a → ¬ has_handle a (key_at x k) → ¬ has_handle a' (key_at x k).
Proof.
  intros Hx Hn Hk [Hs|(a1 & j & e0 & e' & Hs & _ & _ & Ho' & Hkey & Hm & _)] Hok Hno.
  { by eapply no_handle_kept. }
  pose proof (no_handle_kept a a1 _ Hs Hno) as Hno1. destruct Hok as (Hnext & _).
  intros (i & e & Hi & He). rewrite Hm in Hi.
  apply list_lookup_insert_Some in Hi as [(_ & <- & _)|[_ Hi]]; [|apply Hno1; by exists i, e].
  apply has_key_true in He as [_ He]. rewrite Hkey, Hnext in He.
  apply key_at_inj in He; [lia|done|lia..].
Qed.

Lemma no_handle_ops N x k os n a : is_u 64 x → Forall op_ok os → arena_wf N a → keys_ok x n a →
  (Z.of_nat (n + length os) ≤ 2 ^ 64)%Z → k < n → ¬ has_handle a (key_at x k) →
  ∃ a', run_ops os a = Ret a' ∧ arena_wf N a' ∧ ¬ has_handle a' (key_at x k).
Proof.
  intros Hx Hos. revert n a. induction Hos as [|o os Ho _ IH]; intros n a Hwf Hk Hn Hkn Hno.
  { by exists a. }
  cbn [length] in Hn. destruct (run_op_ok N o a Ho Hwf) as (a1 & Hr & Hwf1 & Hstep).
  destruct (keys_ok_step x n a a1) as (n1 & Hn1 & Hk1); [done|lia|done..|].
  pose proof (no_handle_step x n k a a1 Hx ltac:(lia) Hkn Hstep Hk Hno) as Hno1.
  destruct (IH n1 a1 Hwf1 Hk1) as (a' & ? & ? & ?); [lia..|done|].
  exists a'. cbn [run_ops]. rewrite Hr. done.
Qed.
End stale.

Lemma run_ops_app {T} (os os' : list (arena_op T)) a :
  run_ops (os ++ os') a = (let! a := run_ops os a in run_ops os' a).
Proof.
  revert a. induction os as [|o os IH]; intros a; cbn [app run_ops]; [done|].
  destruct (run_op o a); cbn [ebind]; auto.
Qed.

(** C31: a released handle stays dead. If a handle had an entry at some point
    of a history and has none at a later point, however it was released
    (removed, revoked with its owner, dropped, evicted), then no further calls,
    up to [2^64] in all, make it resolve again, for anybody: its key is not
    handed out a second time. *)
Theorem stale_handle_never_resolves {T} (N : nat) (kind : Z) (os1 os2 os3 : list (arena_op T))
    (a1 a2 : Arena T) (h : Z) :
  N ≤ 255 → is_u 8 kind → Forall op_ok (os1 ++ os2 ++ os3) →
  (Z.of_nat (length (os1 ++ os2 ++ os3)) < 2 ^ 64)%Z →
  reach N kind os1 = Ret a1 → has_handle a1 h →
  run_ops os2 a1 = Ret a2 → ¬ has_handle a2 h →
  ∃ a3, run_ops os3 a2 = Ret a3 ∧ ¬ has_handle a3 h ∧
    ∀ w, get a3 h = Ret None ∧ get_mut_owned a3 h w = Ret None.
Proof.
  intros HN Hkind Hos Hlen Hr1 Hh Hr2 Hno. rewrite !length_app in Hlen.
  rewrite !Forall_app in Hos. destruct Hos as (Hos1 & Hos2 & Hos3).
  destruct (reachable_ok N kind os1 a1) as (n1 & Hwf1 & _ & Hn1 & Hk1); try done; [lia|].
  pose proof (seed_u64 kind Hkind) as Hx.
  destruct (run_ops_ok N (seed kind) os2 n1 a1) as (a2' & n2 & Hr & Hwf2 & Hn2 & Hk2); try done; [lia|].
  rewrite Hr2 in Hr. injection Hr as <-.
  destruct Hh as (j & e & Hj & [Ho Hkey]%has_key_true).
  destruct Hk1 as (_ & Hin & _). destruct (Hin j e Hj Ho) as (k & Hk & Hek). subst h.
  rewrite Hek in *.
  destruct (no_handle_ops N (seed kind) k os3 n2 a2) as (a3 & ? & ? & ?); try done; [lia..|].
  exists a3. split_and!; try done. intros w. by eapply no_handle_absent.
Qed.

Definition demo_revoked : Arena Z := Eval vm_compute in run_state (remove_by_owner demo_arena 1).

Lemma stale_handle_never_resolves_witness :
  get demo_arena demo_h1 = Ret (Some 10%Z) ∧
  ∃ a3, run_ops [OAlloc 20 5 5; OAlloc 21 5 6]%Z demo_revoked = Ret a3 ∧
    get a3 demo_h1 = Ret None.
Proof.
  split; [vm_compute; reflexivity|].
  destruct (stale_handle_never_resolves 2 7 demo_ops [ORemoveByOwner 1%Z]
    [OAlloc 20 5 5; OAlloc 21 5 6]%Z demo_arena demo_revoked demo_h1) as (a3 & H1 & _ & H2);
    [lia|const_u| |reflexivity|vm_compute; reflexivity| |vm_compute; reflexivity| |].
  - repeat (constructor; [vm_compute; (exact I || (split; [discriminate|reflexivity]))|]). constructor.
  - exists 0. eexists. split; vm_compute; reflexivity.
  - intros ([|[|[]]] & e & [= <-] & [=]).
  - exists a3. split; [exact H1|exact (proj1 (H2 0%Z))].
Defined.

(** * Ownership *)

(** The calls an owner [w] makes on its own handles. *)
Definition owner_op {T} (w : Z) (o : arena_op T) : Prop :=
  match o with
  | ORemoveOwned _ x | ORemoveByOwner x | OPrepare _ x _ | OCancel _ x | OTryDrop _ x => x = w
  | _ => False
  end.

Section owners.
Context {T : Type}.
Implicit Types (a : Arena T) (e : HandleEntry).

Lemma owned_free_other h w w' e : h_owner e = w → w' ≠ w → owned_free h w' e = false.
Proof. intros Ho Hne. apply not_true_is_false. intros (_ & _ & ? & _)%owned_free_true. congruence. Qed.

(** Replacing an entry of [w] by one of [w] is invisible to other owners. *)
Lemma owner_insert_frame N a a' j e e' h' w w' :
  arena_wf N a' → kept a a' → a_map a !! j = Some e → a_map a' = <[j := e']> (a_map a) →
  h_owner e = w → h_owner e' = w → w' ≠ w →
  resolve (owned_free h' w') a' = resolve (owned_free h' w') a.
Proof.
  intros Hwf' Hk Hj Hm Hw Hw' Hne. eapply (resolve_frame N); try done.
  - by intros x (? & _)%owned_free_true.
  - rewrite Hm. eapply insert_frame; [done|by eapply owned_free_other..].
Qed.

Lemma kept_set_entry a j e : kept a (set_entry a j e).
Proof. split; [done|]. eauto. Qed.

Lemma owner_op_frame N o a a' w w' h' :
  arena_wf N a → owner_op w o → run_op o a = Ret a' → w' ≠ w →
  get_mut_owned a' h' w' = get_mut_owned a h' w'.
Proof.
  intros Hwf Ho Hr Hne.
  assert (arena_wf N a' ∧ resolve (owned_free h' w') a' = resolve (owned_free h' w') a) as [Hwf' E].
  2:{ rewrite !(get_owned_resolve N) by done. by rewrite E. }
  assert (∀ h, ∃ v a2, remove_owned a h w = Ret (v, a2) ∧ arena_wf N a2 ∧
    resolve (owned_free h' w') a2 = resolve (owned_free h' w') a) as Hrem.
  { intros h. destruct (remove_owned_ok N a h w Hwf) as (v & a2 & -> & Hwf2 & Hf).
    exists v, a2. split_and!; try done.
    destruct (list_find _ _) as [[j e]|]; [|by destruct Hf as [_ ->]].
    destruct Hf as (Hj & (_ & _ & Hw)%has_key_owner_true & Hk & Hm & _).
    by eapply (owner_insert_frame N). }
  destruct o as [| |h x|t| |h x t|h x| |h x|]; cbn [owner_op run_op] in *; try done; subst.
  - destruct (Hrem h) as (v & a2 & Hr' & ? & ?). rewrite Hr' in Hr. by injection Hr as <-.
  - destruct (remove_by_owner_ok N a w Hwf) as (a2 & Hr' & Hwf2 & Hk & Hm).
    rewrite Hr' in Hr. injection Hr as <-. split; [done|]. eapply (resolve_frame N); try done.
    + by intros e (? & _)%owned_free_true.
    + rewrite Hm. apply free_if_frame; [by intros e (? & _)%owned_free_true|].
      intros e [_ ?%bool_decide_eq_true]%andb_true_iff. by eapply owned_free_other.
  - destruct (prepare_ok N a h w t Hwf) as (b & a2 & Hr' & Hwf2 & Hf). rewrite Hr' in Hr.
    injection Hr as <-. split; [done|].
    destruct (list_find _ _) as [[j e]|]; [|by destruct Hf as [_ ->]].
    destruct Hf as (_ & Hj & (_ & _ & Hw & _)%owned_free_true & ->).
    by eapply (owner_insert_frame N _ _ j e); try apply kept_set_entry.
  - destruct (cancel_ok N a h w Hwf) as (b & a2 & Hr' & Hwf2 & Hf). rewrite Hr' in Hr.
    injection Hr as <-. split; [done|].
    destruct (list_find _ _) as [[j e]|]; [|by destruct Hf as [_ ->]].
    destruct Hf as (_ & Hj & (_ & _ & Hw & _)%owned_pending_true & ->).
    by eapply (owner_insert_frame N _ _ j e); try apply kept_set_entry.
  - destruct (try_drop_remove_owned a h w) as [b Hb]. rewrite Hb in Hr.
    destruct (Hrem h) as (v & a2 & Hr' & ? & ?). rewrite Hr' in Hr. by injection Hr as <-.
Qed.
End owners.

(** Owners are isolated. On a reachable arena, whatever a task does with
    its own handles (destroy, revoke all, prepare or cancel a transfer, drop),
    with any handle value it makes up, leaves what every handle gives every
    other owner access to unchanged. *)
Theorem owner_isolation {T} (N : nat) (kind : Z) (os : list (arena_op T)) (a a' : Arena T)
    (o : arena_op T) (w w' h' : Z) :
  N ≤ 255 → Forall op_ok os → reach N kind os = Ret a →
  owner_op w o → run_op o a = Ret a' → w' ≠ w →
  get_mut_owned a' h' w' = get_mut_owned a h' w'.
Proof.
  intros HN Hos Hr. apply (owner_op_frame N). by eapply reach_wf.
Qed.

Lemma owner_isolation_witness :
  get_mut_owned demo_arena demo_h2 2 = Ret (Some 11%Z) ∧
  get_mut_owned demo_revoked demo_h2 2 = get_mut_owned demo_arena demo_h2 2.
Proof.
  split; [vm_compute; reflexivity|].
  apply (owner_isolation 2 7 demo_ops demo_arena demo_revoked (ORemoveByOwner 1%Z) 1 2 demo_h2);
    [lia|apply demo_ops_ok|vm_compute; reflexivity|reflexivity|vm_compute; reflexivity|discriminate].
Defined.

(** * Two-phase transfer *)

Section transfer.
Context {T : Type} (N : nat) (kind : Z) (os : list (arena_op T)) (a : Arena T).
Context (HN : N ≤ 255) (Hkind : is_u 8 kind) (Hos : Forall op_ok os).
Context (Hlen : (Z.of_nat (length os) < 2 ^ 64)%Z) (Hreach : reach N kind os = Ret a).
Context (j : nat) (e : HandleEntry) (Hj : a_map a !! j = Some e) (Ho : h_occupied e = true).

(** In an arena that differs from [a] in entry [j] only, and there by an entry
    with the same key, a search by that key finds entry [j] or nothing. *)
Lemma find_updated e' (p : HandleEntry → bool) :
  h_key e' = h_key e → (∀ x, p x = true → h_occupied x = true ∧ h_key x = h_key e) →
  list_find (λ x, p x = true) (<[j := e']> (a_map a)) = if p e' then Some (j, e') else None.
Proof.
  intros Hk Hp. destruct (reachable_ok N kind os a) as (n & _ & _ & _ & _ & _ & Hinj); try done.
  assert (∀ i x, <[j := e']> (a_map a) !! i = Some x → p x = true → i = j) as Honly.
  { intros i x [(-> & _)|[Hne Hx]]%list_lookup_insert_Some Hpx; [done|].
    destruct (Hp x Hpx) as [Hox Hkx]. by apply (Hinj i j x e). }
  assert (<[j := e']> (a_map a) !! j = Some e') as Hj'.
  { apply list_lookup_insert_eq. by eapply lookup_lt_Some. }
  destruct (p e') eqn:E.
  - by apply list_find_unique.
  - apply list_find_absent. intros i x Hx. apply not_true_is_false. intros Hpx.
    rewrite (Honly i x Hx Hpx) in Hx. congruence.
Qed.

Lemma find_here (p : HandleEntry → bool) :
  (∀ x, p x = true → h_occupied x = true ∧ h_key x = h_key e) →
  list_find (λ x, p x = true) (a_map a) = if p e then Some (j, e) else None.
Proof.
  intros Hp. rewrite <- (find_updated e p) by done. f_equal. symmetry. by apply list_insert_id.
Qed.
End transfer.

Lemma resolve_some {T} (p : HandleEntry → bool) (a : Arena T) x : resolve p a = Some x →
  ∃ j e s, a_map a !! j = Some e ∧ p e = true ∧ a_slots a !! h_slot e = Some s ∧ s_value s = Some x.
Proof.
  unfold resolve. destruct (list_find _ _) as [[j e]|] eqn:E; [|done].
  apply list_find_Some in E as (Hj & He & _). destruct (a_slots a !! h_slot e) as [s|] eqn:Hs; [|done].
  intros Hx. by exists j, e, s.
Qed.

Lemma set_entry_back {T} (a : Arena T) j e e' :
  a_map a !! j = Some e → set_entry (set_entry a j e') j e = a.
Proof.
  intros Hj. destruct a as [sl m k]. unfold set_entry. cbn in *. f_equal.
  rewrite list_insert_insert_eq. by apply list_insert_id.
Qed.

Section held.
Context {T : Type} (N : nat) (kind : Z) (os : list (arena_op T)) (a : Arena T).
Context (HN : N ≤ 255) (Hkind : is_u 8 kind) (Hos : Forall op_ok os).
Context (Hlen : (Z.of_nat (length os) < 2 ^ 64)%Z) (Hreach : reach N kind os = Ret a).
Context (Hwf : arena_wf N a) (h w : Z) (j : nat) (e : HandleEntry) (s : Slot T).
Context (Hj : a_map a !! j = Some e) (He : owned_free h w e = true).
Context (Hs : a_slots a !! h_slot e = Some s).

(** The handle frozen for [t], and moved to [t]. *)
Definition frozen (t : Z) : Arena T := set_entry a j (entry_pending e (Some t)).
Definition moved (t p : Z) : Arena T :=
  set_entry a j (mkHEntry (h_key e) (h_slot e) (h_gen e) (h_occupied e) t p None).

Lemma held_facts :
  h_occupied e = true ∧ h_key e = h ∧ h_owner e = w ∧ h_pending_to e = None ∧ live s e = true.
Proof.
  apply owned_free_true in He as (Ho & Hk & Hw & Hp). split_and!; try done.
  destruct (wf_live N a Hwf j e Hj Ho) as (s0 & Hs0 & ?). congruence.
Qed.

Lemma held_find e' (p : HandleEntry → bool) :
  h_key e' = h_key e → (∀ x, p x = true → h_occupied x = true ∧ h_key x = h) →
  list_find (λ x, p x = true) (<[j := e']> (a_map a)) = if p e' then Some (j, e') else None.
Proof.
  intros Hk' Hp. destruct held_facts as (Ho & Hk & _).
  apply (find_updated N kind os a HN Hkind Hos Hlen Hreach j e Hj Ho); [done|by rewrite Hk].
Qed.

Lemma held_lookup e' : <[j := e']> (a_map a) !! j = Some e'.
Proof. apply list_lookup_insert_eq. by eapply lookup_lt_Some. Qed.

Lemma pending_for_key u x : pending_for h u x = true → h_occupied x = true ∧ h_key x = h.
Proof. by intros (? & ? & _)%pending_for_true. Qed.
Lemma owned_pending_key x : owned_pending h w x = true → h_occupied x = true ∧ h_key x = h.
Proof. by intros (? & ? & _)%owned_pending_true. Qed.

(** The slot of an updated entry is still live. *)
Lemma held_live e' : h_gen e' = h_gen e → live s e' = true.
Proof.
  destruct held_facts as (_ & _ & _ & _ & Hl). rewrite !live_true in *. intros ->. done.
Qed.

Lemma prepare_held t : prepare_transfer a h w t = Ret (true, frozen t).
Proof.
  unfold prepare_transfer. rewrite <- (list_insert_id (a_map a) j e) by done.
  rewrite (held_find e) by (done || apply owned_free_key). rewrite He, (idx_ok _ _ _ Hs).
  cbn [ebind]. by rewrite (held_live e).
Qed.

Lemma frozen_wf t : arena_wf N (frozen t).
Proof.
  destruct held_facts as (Ho & _). eapply wf_update; try done. exact (wf_prio N a Hwf j e Hj Ho).
Qed.

Lemma moved_wf t p : is_i 8 p → arena_wf N (moved t p).
Proof. intros. by eapply wf_update. Qed.

(** Searches over one updated entry, when it does not qualify. *)
Lemma updated_resolve_none e' (p : HandleEntry → bool) :
  h_key e' = h_key e → (∀ x, p x = true → h_occupied x = true ∧ h_key x = h) →
  p e' = false → resolve p (set_entry a j e') = None.
Proof. intros. unfold resolve. cbn [set_entry a_map]. by rewrite held_find, H1. Qed.

Lemma acquire_miss e' u q : h_key e' = h_key e → h_pending_to e' ≠ Some u →
  acquire (set_entry a j e') h u q = Ret (false, set_entry a j e').
Proof.
  intros Hk Hp. unfold acquire. cbn [set_entry a_map].
  rewrite held_find by (done || apply pending_for_key).
  destruct (pending_for h u e') eqn:E; [|done]. by apply pending_for_true in E as (_ & _ & E).
Qed.

Lemma frozen_prepare t t' : prepare_transfer (frozen t) h w t' = Ret (false, frozen t).
Proof.
  unfold prepare_transfer. cbn [frozen set_entry a_map].
  rewrite held_find by (done || apply owned_free_key).
  destruct (owned_free h w (entry_pending e (Some t))) eqn:E; [|done].
  apply owned_free_true in E as (_ & _ & _ & E). discriminate E.
Qed.

Lemma frozen_cancel t : cancel_transfer (frozen t) h w = (true, a).
Proof.
  destruct held_facts as (Ho & Hk & Hw & Hp & _). unfold cancel_transfer.
  cbn [frozen set_entry a_map]. rewrite held_find by (done || apply owned_pending_key).
  rewrite (proj2 (owned_pending_true h w _)) by done. f_equal.
  change (entry_pending (entry_pending e (Some t)) None) with (entry_pending e None).
  replace (entry_pending e None) with e by (destruct e; cbn in *; by subst).
  by apply set_entry_back.
Qed.

Lemma frozen_acquire t p : acquire (frozen t) h t p = Ret (true, moved t p).
Proof.
  destruct held_facts as (Ho & Hk & Hw & Hp & _). unfold acquire.
  cbn [frozen set_entry a_map a_slots]. rewrite held_find by (done || apply pending_for_key).
  rewrite (proj2 (pending_for_true h t _)) by done. cbn [entry_pending h_slot].
  rewrite (idx_ok _ _ _ Hs). cbn [ebind]. rewrite held_live by done. cbn [negb].
  unfold moved, frozen, set_entry. cbn [a_map a_slots a_next_key entry_pending h_key h_gen h_occupied].
  by rewrite list_insert_insert_eq.
Qed.

Lemma moved_resolve t p : resolve (owned_free h t) (moved t p) = s_value s.
Proof.
  destruct held_facts as (Ho & Hk & _). unfold resolve. cbn [moved set_entry a_map a_slots].
  rewrite held_find by (done || apply owned_free_key).
  rewrite (proj2 (owned_free_true h t _)) by done. cbn [h_slot]. by rewrite Hs.
Qed.

Lemma moved_cancel t p : cancel_transfer (moved t p) h w = (false, moved t p).
Proof.
  unfold cancel_transfer. cbn [moved set_entry a_map].
  rewrite held_find by (done || apply owned_pending_key).
  destruct (owned_pending h w _) eqn:E; [|done]. by apply owned_pending_true in E as (_ & _ & _ & E).
Qed.
End held.

(** A handle transfer is atomic. On a reachable arena, when [w] holds a
    handle, [prepare_transfer] to [t] succeeds and freezes it: nobody can use it
    and it cannot be prepared again. From there, cancelling by [w] restores the
    arena exactly, nobody but [t] can acquire it, and [acquire] by [t] hands the
    value over whole: [t] has access, [w] has none and can no longer cancel, and
    the handle cannot be acquired a second time. *)
Theorem transfer_two_phase {T} (N : nat) (kind : Z) (os : list (arena_op T)) (a : Arena T)
    (value : T) (h w t p : Z) :
  N ≤ 255 → is_u 8 kind → Forall op_ok os → (Z.of_nat (length os) < 2 ^ 64)%Z → is_i 8 p →
  reach N kind os = Ret a → get_mut_owned a h w = Ret (Some value) →
  ∃ a1 a2, prepare_transfer a h w t = Ret (true, a1) ∧
    get a1 h = Ret None ∧ get_mut_owned a1 h w = Ret None ∧
    (∀ t', prepare_transfer a1 h w t' = Ret (false, a1)) ∧
    cancel_transfer a1 h w = (true, a) ∧
    (∀ u q, u ≠ t → acquire a1 h u q = Ret (false, a1)) ∧
    acquire a1 h t p = Ret (true, a2) ∧
    get_mut_owned a2 h t = Ret (Some value) ∧
    (w ≠ t → get_mut_owned a2 h w = Ret None) ∧
    cancel_transfer a2 h w = (false, a2) ∧ (∀ u q, acquire a2 h u q = Ret (false, a2)).
Proof.
  intros HN Hkind Hos Hlen Hp Hreach Hget.
  destruct (reachable_ok N kind os a) as (n & Hwf & _); try done.
  rewrite (get_owned_resolve N) in Hget by done. injection Hget as Hget.
  destruct (resolve_some _ _ _ Hget) as (j & e & s & Hj & He & Hs & Hv).
  pose proof (frozen_wf N a Hwf h w j e s Hj He Hs t) as Hwf1.
  pose proof (moved_wf N a Hwf j e Hj t p Hp) as Hwf2.
  exists (frozen a j e t), (moved a j e t p).
  rewrite (get_resolve N), !(get_owned_resolve N) by done.
  split_and!; try (by eapply prepare_held); try (by eapply frozen_acquire);
    try (by eapply frozen_cancel); try (by eapply moved_cancel).
  - f_equal. eapply (updated_resolve_none N kind os a) with (h := h); try done; [apply key_free_key|].
    apply not_true_is_false. intros (_ & _ & E)%key_free_true. discriminate E.
  - f_equal. eapply (updated_resolve_none N kind os a) with (h := h); try done; [apply owned_free_key|].
    apply not_true_is_false. intros (_ & _ & _ & E)%owned_free_true. discriminate E.
  - intros t'. by eapply frozen_prepare.
  - intros u q Hu. eapply acquire_miss; try done. cbn. congruence.
  - f_equal. erewrite moved_resolve; try done. 
  - intros Hwt. f_equal. eapply (updated_resolve_none N kind os a) with (h := h); try done; [apply owned_free_key|].
    apply not_true_is_false. intros (_ & _ & ? & _)%owned_free_true. cbn in *. congruence.
  - intros u q. by eapply acquire_miss.
Qed.

Lemma transfer_two_phase_witness :
  get_mut_owned demo_arena demo_h1 1 = Ret (Some 10%Z) ∧
  ∃ a1 a2, prepare_transfer demo_arena demo_h1 1 9 = Ret (true, a1) ∧
    get a1 demo_h1 = Ret None ∧ cancel_transfer a1 demo_h1 1 = (true, demo_arena) ∧
    acquire a1 demo_h1 9 4 = Ret (true, a2) ∧ get_mut_owned a2 demo_h1 9 = Ret (Some 10%Z).
Proof.
  split; [vm_compute; reflexivity|].
  destruct (transfer_two_phase 2 7 demo_ops demo_arena 10%Z demo_h1 1 9 4)
    as (a1 & a2 & H1 & H2 & _ & _ & H3 & _ & H4 & H5 & _);
    [lia|const_u|apply demo_ops_ok|reflexivity|split; [discriminate|reflexivity]
    |vm_compute; reflexivity|vm_compute; reflexivity|].
  exists a1, a2. exact (conj H1 (conj H2 (conj H3 (conj H4 H5)))).
Defined.

(** * Reference counting *)

Lemma owned_free_ne h h' w' e : h_key e = h → h' ≠ h → owned_free h' w' e = false.
Proof. intros Hk Hne. apply not_true_is_false. intros (_ & ? & _)%owned_free_true. congruence. Qed.

(** Releasing one reference. On a reachable arena, when [w] holds a handle
    to [value], [remove_owned] kills the handle and returns the value exactly if
    this was the last entry that referred to its slot, and [None] while others
    remain; every other handle keeps giving every owner what it gave before. *)
Theorem release_drops_last {T} (N : nat) (kind : Z) (os : list (arena_op T)) (a : Arena T)
    (value : T) (h w : Z) :
  N ≤ 255 → is_u 8 kind → Forall op_ok os → (Z.of_nat (length os) < 2 ^ 64)%Z →
  reach N kind os = Ret a → get_mut_owned a h w = Ret (Some value) →
  ∃ j e a', a_map a !! j = Some e ∧ owned_free h w e = true ∧
    remove_owned a h w =
      Ret (if decide (refs (a_map a) (h_slot e) = 1) then Some value else None, a') ∧
    ¬ has_handle a' h ∧
    ∀ h' w', h' ≠ h → get_mut_owned a' h' w' = get_mut_owned a h' w'.
Proof.
  intros HN Hkind Hos Hlen Hreach Hget.
  destruct (reachable_ok N kind os a) as (n & Hwf & _); try done.
  rewrite (get_owned_resolve N) in Hget by done. injection Hget as Hget.
  destruct (resolve_some _ _ _ Hget) as (j & e & s & Hj & He & Hs & Hv).
  destruct (held_facts N a Hwf h w j e s Hj He Hs) as (Ho & Hk & Hw & _).
  destruct (remove_owned_ok N a h w Hwf) as (v & a' & Hr & Hwf' & Hf).
  rewrite (find_here N kind os a HN Hkind Hos Hlen Hreach j e Hj Ho (has_key_owner h w)) in Hf
    by (rewrite Hk; by intros x (? & ? & _)%has_key_owner_true).
  rewrite (proj2 (has_key_owner_true h w e)) in Hf by done.
  destruct Hf as (_ & _ & Hkept & Hm & s' & Hs' & ->). rewrite Hs in Hs'. injection Hs' as <-.
  exists j, e, a'. split_and!; try done.
  - by rewrite Hr, Hv.
  - intros (i & x & Hi & Hx). rewrite Hm in Hi. apply has_key_true in Hx as [Hox Hkx].
    apply list_lookup_insert_Some in Hi as [(_ & <- & _)|[Hne Hi]]; [done|]. apply Hne.
    apply (reachable_unique N kind os a HN Hkind Hos Hlen Hreach (has_key h) h) with (e := e) (e' := x);
      try done; [by intros y Hy%has_key_true|by apply has_key_true..].
  - intros h' w' Hne. rewrite !(get_owned_resolve N) by done. f_equal.
    eapply (resolve_frame N); try done; [by intros x (? & _)%owned_free_true|].
    rewrite Hm. eapply insert_frame; [done|by eapply owned_free_ne..].
Qed.

Lemma release_drops_last_witness : ∃ j e a',
  a_map demo_arena !! j = Some e ∧ owned_free demo_h1 1 e = true ∧
  remove_owned demo_arena demo_h1 1 =
    Ret (if decide (refs (a_map demo_arena) (h_slot e) = 1) then Some 10%Z else None, a') ∧
  ¬ has_handle a' demo_h1 ∧
  ∀ h' w', h' ≠ demo_h1 → get_mut_owned a' h' w' = get_mut_owned demo_arena h' w'.
Proof.
  apply (release_drops_last 2 7 demo_ops demo_arena 10%Z demo_h1 1);
    [lia|const_u|apply demo_ops_ok|reflexivity|vm_compute; reflexivity|vm_compute; reflexivity].
Defined.

Lemma clone_done_entries {T} N js src n p (a a' : Arena T) s :
  clone_done N js src n p a a' → h_occupied src = true → a_slots a !! h_slot src = Some s →
  ∃ jn s', js ≠ jn ∧ a_map a' !! js = Some src ∧
    a_map a' !! jn = Some (mkHEntry (a_next_key a) (h_slot src) (h_gen src) true n p None) ∧
    a_slots a' !! h_slot src = Some s' ∧ s_value s' = s_value s ∧
    2 ≤ refs (a_map a') (h_slot src).
Proof.
  intros (a1 & s1 & jn & e0 & [[_ Hkept] _] & Hwf1 & Hjs & Hs1 & Hl & Hjn & Ho0 & ->) Ho Hs.
  cbn [a_map a_slots]. assert (js ≠ jn) as Hne by congruence.
  apply live_true in Hl as [_ Hv1]. destruct (Hkept _ s1 Hs1 Hv1) as (s0 & Hs0 & Hv & _).
  rewrite Hs in Hs0. injection Hs0 as <-.
  eexists jn, _. split_and!; [done|by rewrite list_lookup_insert_ne| | | |].
  - apply list_lookup_insert_eq. by eapply lookup_lt_Some.
  - apply list_lookup_insert_eq. by eapply lookup_lt_Some.
  - done.
  - set (e2 := mkHEntry _ _ _ _ _ _ _).
    pose proof (refs_insert (a_map a1) jn e0 e2 (h_slot src) Hjn) as Hi.
    pose proof (refs_elem (a_map a1) js src (h_slot src) Hjs Ho eq_refl) as Hpos.
    unfold points in Hi. rewrite Ho0 in Hi. cbn [andb h_occupied e2 h_slot] in Hi.
    rewrite bool_decide_true in Hi by done. lia.
Qed.

(** a clone shares the value. On a reachable arena, when [w] holds a handle
    to [value] and cloning it for [n] succeeds, both the new handle, for [n], and
    the old one, for [w], resolve to [value], the new handle was free before, and
    the slot has at least two references, so that releasing either one of the two
    handles does not drop the value. *)
Theorem clone_shares_value {T} (N : nat) (kind : Z) (os : list (arena_op T)) (a a' : Arena T)
    (value : T) (h w n p h2 : Z) :
  N ≤ 255 → is_u 8 kind → Forall op_ok os → (Z.of_nat (length os) < 2 ^ 64)%Z → is_i 8 p →
  reach N kind os = Ret a → get_mut_owned a h w = Ret (Some value) →
  clone_handle a h w n p = Ret (Ok h2, a') →
  ¬ has_handle a h2 ∧
  get_mut_owned a' h2 n = Ret (Some value) ∧ get_mut_owned a' h w = Ret (Some value) ∧
  ∃ j j' e e', j ≠ j' ∧ a_map a' !! j = Some e ∧ owned_free h w e = true ∧
    a_map a' !! j' = Some e' ∧ owned_free h2 n e' = true ∧
    h_slot e' = h_slot e ∧ 2 ≤ refs (a_map a') (h_slot e).
Proof.
  intros HN Hkind Hos Hlen Hp Hreach Hget Hclone.
  destruct (reachable_ok N kind os a) as (m & Hwf & Hm & _ & Hkeys); try done.
  rewrite (get_owned_resolve N) in Hget by done. injection Hget as Hget.
  destruct (resolve_some _ _ _ Hget) as (j & e & s & Hj & He & Hs & Hv).
  destruct (clone_handle_ok N a h w n p Hwf) as (r & a2 & Hr & Hspec).
  rewrite Hclone in Hr. injection Hr as <- <-. destruct Hspec as (-> & js & src & Hjs & Hsrc & Hd).
  assert (js = j) as -> by (eapply (keys_unique _ _ _ (owned_free h w) h Hkeys); eauto using owned_free_key).
  rewrite Hj in Hjs. injection Hjs as <-.
  pose proof (clone_done_wf N _ _ _ _ _ _ Hp Hd) as Hwf'.
  assert (∃ k, keys_ok (seed kind) k a') as [k Hkeys'].
  { destruct (keys_ok_step (seed kind) m a a') as (k & _ & ?); try done; [by apply seed_u64| |eauto].
    destruct (run_op_ok N (OClone h w n p) a Hp Hwf) as (a3 & Hr3 & _ & ?). cbn [run_op] in Hr3.
    rewrite Hclone in Hr3. by injection Hr3 as <-. }
  pose proof (owned_free_key _ _ _ He) as [Ho Hk].
  destruct (clone_done_entries N j e n p a a' s Hd Ho Hs) as (jn & s' & Hne & Hj' & Hjn & Hs' & Hv' & Hrefs).
  rewrite !(get_owned_resolve N) by done. split_and!.
  - intros (i & x & Hi & Hx).
    by rewrite (reachable_fresh N kind os a HN Hkind Hos Hlen Hreach i x Hi) in Hx.
  - f_equal. erewrite (resolve_found N a' _ jn _ s' Hwf'); [congruence| |exact Hjn|by apply owned_free_true|done].
    apply (keys_unique _ _ _ _ _ Hkeys' (owned_free_key (a_next_key a) n)).
  - f_equal. rewrite (resolve_found N a' _ j e s' Hwf'); try done; [congruence|].
    apply (keys_unique _ _ _ _ _ Hkeys' (owned_free_key h w)).
  - exists j, jn, e. eexists. split_and!; try done. by apply owned_free_true.
Qed.

Definition demo_clone : Arena Z :=
  Eval vm_compute in run_state (run_op (OClone demo_h1 1 4 4)%Z demo_arena).

Lemma clone_shares_value_witness :
  get_mut_owned demo_clone demo_h3 4 = Ret (Some 10%Z) ∧
  get_mut_owned demo_clone demo_h1 1 = Ret (Some 10%Z).
Proof.
  destruct (clone_shares_value 2 7 demo_ops demo_arena demo_clone 10%Z demo_h1 1 4 4 demo_h3)
    as (_ & H1 & H2 & _);
    [lia|const_u|apply demo_ops_ok|reflexivity|split; [discriminate|reflexivity]
    |vm_compute; reflexivity|vm_compute; reflexivity|vm_compute; reflexivity|].
  exact (conj H1 H2).
Defined.

(** When allocation succeeds and fails. On a reachable arena, [alloc] fails
    with [NoFreeSlot] exactly when every slot is in use by some handle whose
    priority reaches the requester's, and with [NoFreeEntry] exactly when a slot
    is free but the handle map is full; in both cases the arena is unchanged.
    Otherwise it succeeds. *)
Theorem alloc_outcomes {T} (N : nat) (kind : Z) (os : list (arena_op T)) (a : Arena T)
    (value : T) (owner prio : Z) :
  N ≤ 255 → Forall op_ok os → is_i 8 prio → reach N kind os = Ret a →
  ∃ r a', alloc a value owner prio = Ret (r, a') ∧
    match r with
    | Err NoFreeSlot => a' = a ∧ ∀ i s, a_slots a !! i = Some s →
        ∃ j e, a_map a !! j = Some e ∧ h_occupied e = true ∧ h_slot e = i ∧ (prio <= h_priority e)%Z
    | Err NoFreeEntry => a' = a ∧ (∃ i s, a_slots a !! i = Some s ∧ s_value s = None) ∧
        ∀ j e, a_map a !! j = Some e → h_occupied e = true
    | Ok h => ∃ j e, a_map a' !! j = Some e ∧ has_key h e = true ∧ h_owner e = owner ∧
        h_priority e = prio
    end.
Proof.
  intros HN Hos Hp Hr. assert (arena_wf N a) as Hwf by (by eapply reach_wf).
  destruct (alloc_ok N a value owner prio Hwf) as (r & a' & Halloc & Hspec).
  exists r, a'. split; [done|]. destruct r as [h|[|]].
  - destruct Hspec as (-> & a1 & v & s & j & e0 & _ & _ & _ & _ & Hj & _ & ->).
    eexists j, _. split; [apply list_lookup_insert_eq; by eapply lookup_lt_Some|].
    split; [by apply has_key_true|done].
  - destruct Hspec as [-> Hall]. split; [done|]. intros i s Hi. destruct (Hall i s Hi) as [Hv Hge].
    destruct (wf_count N a Hwf i s Hi Hv) as [_ (j0 & e0 & Hj0 & Ho0 & Hi0)%refs_pos].
    assert (i < N) as HiN by (rewrite <- (wf_slots N a Hwf); by eapply lookup_lt_Some).
    assert (as_u8 i = i) as Hu by (by eapply as_u8_small).
    destruct (max_prio_spec (a_map a) i s) as [Hmax [Hmin|(j & e & Hj & (Ho & Hsl & _) & Hm)]].
    + exists j0, e0. split_and!; try done. pose proof (wf_prio N a Hwf j0 e0 Hj0 Ho0) as Hp0.
      unfold is_i, I8_MIN in *. lia.
    + exists j, e. split_and!; try done; [congruence|lia].
  - done.
Qed.

Lemma alloc_outcomes_witness :
  ∃ r a', alloc demo_arena 12%Z 3 3 = Ret (r, a') ∧ r = Err NoFreeSlot ∧ a' = demo_arena.
Proof.
  destruct (alloc_outcomes 2 7 demo_ops demo_arena 12%Z 3 3) as (r & a' & Hr & Hspec);
    [lia|apply demo_ops_ok|split; [discriminate|reflexivity]|vm_compute; reflexivity|].
  assert (alloc demo_arena 12%Z 3 3 = Ret (Err NoFreeSlot, demo_arena)) as E
    by (vm_compute; reflexivity).
  exists r, a'. split; [exact Hr|]. rewrite E in Hr. injection Hr as <- <-. auto.
Defined.
