(* ===== verification/IpcServer.v ===== *)
(** The IPC server of [firmware/modules/ipc]: the request router of [server.rs],
    the opcodes of [handle.rs], and the implicit protocol methods that
    [SharedArena::dispatch_implicit] serves from the arena.

    The interface between the router and the resources is the class
    [ResourceDispatch] (the trait of the same name); the arena-backed dispatcher
    that the [ipc] macros generate is an instance, with the user's own methods as
    a parameter. A reply token is consumed once, so a dispatch returns exactly
    one [Reply]. *)

From stdpp Require Import sets.
From S2P Require Import Prelude Arena ArenaSpec ArenaOps ArenaTheorems.

(** * Opcodes, [handle.rs] *)

Definition IMPLICIT_DESTROY_METHOD : Z := 0xFF.
Definition CLONE_METHOD : Z := 0xFD.
Definition PREPARE_TRANSFER_METHOD : Z := 0xFC.
Definition CANCEL_TRANSFER_METHOD : Z := 0xFB.
Definition ACQUIRE_METHOD : Z := 0xFA.
Definition TRY_DROP_METHOD : Z := 0xF9.
Definition NOTIFY_DEAD_METHOD : Z := 0xF8.
Definition REVOKE_ALL_METHOD : Z := 0xF7.

Definition opcode (kind method : Z) : Z := Z.lor (wrap 16 (Z.shiftl kind 8)) method.
Definition split_opcode (op : Z) : Z * Z := (wrap 8 (Z.shiftr op 8), wrap 8 op).

(** * Replies *)

Inductive Error := ErrServerDied | ErrArenaFull | ErrHandleLost | ErrTransferFailed.

Definition error_u8 (e : Error) : Z :=
  match e with
  | ErrServerDied => 0 | ErrArenaFull => 1 | ErrHandleLost => 2 | ErrTransferFailed => 3
  end.

Definition SUCCESS : Z := 0.
Definition MALFORMED_MESSAGE : Z := 1.
Definition ACCESS_VIOLATION : Z := 2.

Inductive ReplyFaultReason := BadMessageSize | BadMessageContents | BadLeases.

(** What becomes of a reply token: [sys_reply] or [sys_reply_fault]. *)
Inductive Reply :=
  | Replied (code : Z) (data : list Z)
  | Faulted (reason : ReplyFaultReason).

Definition reply_ok (data : list Z) : Reply := Replied SUCCESS data.
Definition reply_error (code : Z) (data : list Z) : Reply := Replied code data.

(** * Messages *)

Record TaskId := mkTask { task_index : Z; generation : Z }.

(** [kern::Message]; the data is an error when the message exceeded the buffer. *)
Record Message := mkMessage {
  m_sender : TaskId;
  m_operation : Z;
  m_data : option (list Z);
  m_lease_count : nat;
}.

Record MessageData := mkData {
  d_sender : TaskId;
  d_operation : Z;
  d_data : list Z;
  d_lease_count : nat;
}.

Definition split_message (m : Message) : result MessageData ReplyFaultReason :=
  match m_data m with
  | Some d => Ok (mkData (m_sender m) (m_operation m) d (m_lease_count m))
  | None => Err BadMessageSize
  end.

(** * The router, [server.rs] *)

Class ResourceDispatch (D : Type) := {
  dispatch : D → Z → MessageData → exec (Reply * D);
  cleanup_client : D → Z → exec D;
}.

Record ClientGen := mkClient { c_task_index : Z; c_generation : Z; c_active : bool }.

Record Server (D : Type) := mkServer {
  dispatchers : list (option (Z * D));
  srv_count : nat;
  clients : list ClientGen;
}.
Arguments mkServer {D} _ _ _.
Arguments dispatchers {D} _.
Arguments srv_count {D} _.
Arguments clients {D} _.

Section server.
Context {D : Type} `{ResourceDispatch D} (TASK_COUNT MAX_RESOURCES : nat) (acl_fn : Z → bool).

Definition server_new : Server D :=
  mkServer (replicate MAX_RESOURCES None) 0 (replicate TASK_COUNT (mkClient 0 0 false)).

(** [register]: panics on a duplicate kind or a full table. *)
Definition register (s : Server D) (kind : Z) (d : D) : exec (Server D) :=
  if existsb (λ o, match o with Some (k, _) => bool_decide (k = kind) | None => false end)
       (take (srv_count s) (dispatchers s)) then Panic else
  if decide (MAX_RESOURCES ≤ srv_count s) then Panic else
  Ret (mkServer (<[srv_count s := Some (kind, d)]> (dispatchers s)) (srv_count s + 1) (clients s)).

(** [for entry in self.dispatchers.iter_mut() { d.cleanup_client(task_index) }] *)
Fixpoint cleanup_all (ds : list (option (Z * D))) (t : Z) : exec (list (option (Z * D))) :=
  match ds with
  | [] => Ret []
  | None :: ds => let! ds := cleanup_all ds t in Ret (None :: ds)
  | Some (k, d) :: ds =>
      let! d := cleanup_client d t in
      let! ds := cleanup_all ds t in
      Ret (Some (k, d) :: ds)
  end.

Definition check_client_generation (s : Server D) (sender : TaskId) : exec (Server D) :=
  let t := task_index sender in
  match list_find (λ c, c_active c = true ∧ c_task_index c = t) (clients s) with
  | Some (i, c) =>
      if decide (c_generation c = generation sender) then Ret s else
      let! ds := cleanup_all (dispatchers s) t in
      Ret (mkServer ds (srv_count s) (<[i := mkClient t (generation sender) true]> (clients s)))
  | None =>
      match list_find (λ c, c_active c = false) (clients s) with
      | Some (i, _) =>
          Ret (mkServer (dispatchers s) (srv_count s)
                 (<[i := mkClient t (generation sender) true]> (clients s)))
      | None => Panic
      end
  end.

(** The [find_map] over the dispatchers, and the call. *)
Fixpoint dispatch_to (ds : list (option (Z * D))) (kind method : Z) (md : MessageData)
  : exec (Reply * list (option (Z * D))) :=
  match ds with
  | [] => Ret (reply_error MALFORMED_MESSAGE [], [])
  | None :: ds => let! r := dispatch_to ds kind method md in Ret (fst r, None :: snd r)
  | Some (k, d) :: ds =>
      if decide (k = kind) then
        let! r := dispatch d method md in Ret (fst r, Some (k, snd r) :: ds)
      else
        let! r := dispatch_to ds kind method md in Ret (fst r, Some (k, d) :: snd r)
  end.

Definition dispatch_message (s : Server D) (m : Message) : exec (Reply * Server D) :=
  let! s := check_client_generation s (m_sender m) in
  if negb (acl_fn (task_index (m_sender m))) then Ret (Replied ACCESS_VIOLATION [], s) else
  let (kind, method) := split_opcode (m_operation m) in
  if decide (method = NOTIFY_DEAD_METHOD) then
    let! ds := cleanup_all (dispatchers s) (task_index (m_sender m)) in
    Ret (Replied SUCCESS [], mkServer ds (srv_count s) (clients s))
  else
  match split_message m with
  | Err reason => Ret (Faulted reason, s)
  | Ok md =>
      let! r := dispatch_to (dispatchers s) kind method md in
      Ret (fst r, mkServer (snd r) (srv_count s) (clients s))
  end.
End server.

(** * The implicit methods, [SharedArena::dispatch_implicit] *)

Section implicit.
Context {T : Type}.

(** postcard's decoding of a handle and of a handle with a task index, and its
    encoding of a handle into a buffer of the given size. *)
Context (take_handle : list Z → option Z) (take_handle_u16 : list Z → option (Z * Z)).
Context (to_slice : Z → nat → option (list Z)).

(** [None] in the reply position: not an implicit method, the caller goes on. *)
Definition dispatch_implicit (a : Arena T) (method_id : Z) (msg : list Z) (sender_index : Z)
    (priority_fn : Z → Z) : exec (option Reply * Arena T) :=
  let malformed := Ret (Some (reply_error MALFORMED_MESSAGE []), a) in
  if decide (method_id = IMPLICIT_DESTROY_METHOD) then
    match take_handle msg with
    | None => malformed
    | Some h => let! r := remove_owned a h sender_index in Ret (Some (reply_ok []), snd r)
    end
  else if decide (method_id = CLONE_METHOD) then
    match take_handle_u16 msg with
    | None => malformed
    | Some (h, new_owner) =>
        let! r := clone_handle a h sender_index new_owner (priority_fn new_owner) in
        match fst r with
        | Ok h2 =>
            match to_slice h2 10 with
            | Some bytes => Ret (Some (reply_ok (0%Z :: bytes)), snd r)
            | None => Ret (Some (reply_error MALFORMED_MESSAGE []), snd r)
            end
        | Err InvalidHandle => Ret (Some (reply_ok [1%Z; error_u8 ErrHandleLost]), snd r)
        | Err ArenaFull => Ret (Some (reply_ok [1%Z; error_u8 ErrArenaFull]), snd r)
        | Err ServerDied => Panic
        end
    end
  else if decide (method_id = PREPARE_TRANSFER_METHOD) then
    match take_handle_u16 msg with
    | None => malformed
    | Some (h, target) =>
        let! r := prepare_transfer a h sender_index target in
        Ret (Some (reply_ok (if fst r then [0%Z] else [1%Z; error_u8 ErrHandleLost])), snd r)
    end
  else if decide (method_id = CANCEL_TRANSFER_METHOD) then
    match take_handle msg with
    | None => malformed
    | Some h => Ret (Some (reply_ok []), snd (cancel_transfer a h sender_index))
    end
  else if decide (method_id = ACQUIRE_METHOD) then
    match take_handle msg with
    | None => malformed
    | Some h =>
        let! r := acquire a h sender_index (priority_fn sender_index) in
        Ret (Some (reply_ok (if fst r then [0%Z] else [1%Z; error_u8 ErrTransferFailed])), snd r)
    end
  else if decide (method_id = TRY_DROP_METHOD) then
    match take_handle msg with
    | None => malformed
    | Some h => let! r := try_drop a h sender_index in Ret (Some (reply_ok []), snd r)
    end
  else if decide (method_id = REVOKE_ALL_METHOD) then
    let! a := remove_by_owner a sender_index in Ret (Some (reply_ok []), a)
  else Ret (None, a).

(** The generated dispatcher: implicit methods from the arena, others from the
    resource's own handlers. *)
Context (priority_fn : Z → Z) (user : Arena T → Z → MessageData → exec (Reply * Arena T)).

Definition arena_dispatch (a : Arena T) (method_id : Z) (msg : MessageData)
  : exec (Reply * Arena T) :=
  let! r := dispatch_implicit a method_id (d_data msg) (task_index (d_sender msg)) priority_fn in
  match fst r with
  | Some reply => Ret (reply, snd r)
  | None => user (snd r) method_id msg
  end.

Definition arena_cleanup (a : Arena T) (t : Z) : exec (Arena T) :=
  let! a := remove_by_owner a t in cancel_transfers_to a t.

Definition arena_dispatcher : ResourceDispatch (Arena T) :=
  {| dispatch := arena_dispatch; cleanup_client := arena_cleanup |}.
End implicit.

(** * The client table *)

(** What the router asks of a dispatcher whose state satisfies [I]: cleaning up
    and dispatching return, and keep [I]. *)
Class DispatchLaws (D : Type) `{ResourceDispatch D} (I : D → Prop) := {
  cleanup_law : ∀ d t, I d → ∃ d', cleanup_client d t = Ret d' ∧ I d';
  dispatch_law : ∀ d m md, I d → ∃ r d', dispatch d m md = Ret (r, d') ∧ I d';
}.

(** The generation the table records for task [t]. *)
Definition table_gen (cs : list ClientGen) (t : Z) : option Z :=
  c_generation ∘ snd <$> list_find (λ c, c_active c = true ∧ c_task_index c = t) cs.

(** The generation of the last message from task [t]. *)
Fixpoint last_gen (ms : list Message) (t : Z) : option Z :=
  match ms with
  | [] => None
  | m :: ms =>
      match last_gen ms t with
      | Some g => Some g
      | None => if decide (task_index (m_sender m) = t) then Some (generation (m_sender m)) else None
      end
  end.

(** Active rows have distinct task indices, below the number of tasks. *)
Record table_ok (TASK_COUNT : nat) (cs : list ClientGen) : Prop := {
  tbl_len : length cs = TASK_COUNT;
  tbl_range : ∀ i c, cs !! i = Some c → c_active c = true →
    (0 <= c_task_index c < Z.of_nat TASK_COUNT)%Z;
  tbl_inj : ∀ i j c c', cs !! i = Some c → cs !! j = Some c' → c_active c = true →
    c_active c' = true → c_task_index c = c_task_index c' → i = j;
}.

Section table.
Context (TASK_COUNT : nat).
Implicit Types (cs : list ClientGen) (t g : Z).

(** A task that is not in the table finds a free row: there are not more active
    rows than tasks. *)
Lemma table_has_room cs t :
  table_ok TASK_COUNT cs → (0 <= t < Z.of_nat TASK_COUNT)%Z →
  (∀ i c, cs !! i = Some c → c_active c = true → c_task_index c ≠ t) →
  ∃ i c, cs !! i = Some c ∧ c_active c = false.
Proof.
  intros [Hlen Hrange Hinj] Ht Hnew.
  destruct (list_find (λ c, c_active c = false) cs) as [[i c]|] eqn:E.
  { apply list_find_Some in E as (? & ? & _). eauto. }
  exfalso. apply list_find_None in E.
  assert (∀ i c, cs !! i = Some c → c_active c = true) as Hact.
  { intros i c Hi. apply (Forall_lookup_1 _ _ i c) in E; [|done]. by apply not_false_is_true. }
  set (f := λ i, match cs !! i with Some c => Z.to_nat (c_task_index c) | None => Z.to_nat t end).
  destruct (finite.nat_pigeonhole f (S TASK_COUNT) TASK_COUNT) as (i & j & Hij & Hf); [lia| |].
  - intros i Hi. unfold f. destruct (cs !! i) as [c|] eqn:Ei; [|lia].
    pose proof (Hrange i c Ei (Hact i c Ei)). lia.
  - unfold f in Hf. destruct (lookup_lt_is_Some_2 cs i) as [c Ei]; [lia|]. rewrite Ei in Hf.
    pose proof (Hrange i c Ei (Hact i c Ei)). destruct (cs !! j) as [c'|] eqn:Ej.
    + pose proof (Hrange j c' Ej (Hact j c' Ej)).
      assert (i = j) by (apply (Hinj i j c c'); eauto; lia). lia.
    + apply (Hnew i c Ei (Hact i c Ei)). lia.
Qed.

(** The row of a task that is in the table. *)
Lemma table_row cs t i c : table_ok TASK_COUNT cs → cs !! i = Some c → c_active c = true →
  c_task_index c = t →
  list_find (λ c, c_active c = true ∧ c_task_index c = t) cs = Some (i, c).
Proof.
  intros Hok Hi Ha Ht. apply list_find_Some. split_and!; try done.
  intros j c' Hj Hlt [Ha' Ht']. assert (j = i) by (apply (tbl_inj _ _ Hok j i c' c); congruence). lia.
Qed.

(** Writing the row of [t], found or fresh. *)
Lemma table_set cs t g i c0 : table_ok TASK_COUNT cs → (0 <= t < Z.of_nat TASK_COUNT)%Z →
  cs !! i = Some c0 → (c_active c0 = true → c_task_index c0 = t) →
  (∀ j c, cs !! j = Some c → c_active c = true → c_task_index c = t → j = i) →
  table_ok TASK_COUNT (<[i := mkClient t g true]> cs) ∧
  ∀ t', table_gen (<[i := mkClient t g true]> cs) t' =
    if decide (t' = t) then Some g else table_gen cs t'.
Proof.
  intros Hok Ht Hi H0 Hother.
  assert (∀ j c, <[i := mkClient t g true]> cs !! j = Some c →
    j = i ∧ c = mkClient t g true ∨ j ≠ i ∧ cs !! j = Some c) as Hlook.
  { intros j c [(-> & <- & _)|[? ?]]%list_lookup_insert_Some; auto. }
  assert (table_ok TASK_COUNT (<[i := mkClient t g true]> cs)) as Hok'.
  { split.
    - rewrite length_insert. apply Hok.
    - intros j c [[-> ->]|[_ Hj]]%Hlook Ha; [done|by eapply (tbl_range _ _ Hok)].
    - intros j j' c c' [[-> ->]|[Hne Hj]]%Hlook [[-> ->]|[Hne' Hj']]%Hlook Ha Ha' E; try done.
      + cbn in E. symmetry. by apply (Hother j' c').
      + cbn in E. by apply (Hother j c).
      + by apply (tbl_inj _ _ Hok j j' c c'). }
  split; [done|]. intros t'. unfold table_gen. case_decide as Hd.
  - subst t'. erewrite table_row; [|done|apply list_lookup_insert_eq; by eapply lookup_lt_Some|done|done].
    done.
  - destruct (list_find (λ c, c_active c = true ∧ c_task_index c = t') cs) as [[j c]|] eqn:E.
    + apply list_find_Some in E as (Hj & [Ha Hc] & _).
      assert (j ≠ i) by (intros ->; rewrite Hi in Hj; injection Hj as ->; specialize (H0 Ha); congruence).
      erewrite table_row; [|done|by rewrite list_lookup_insert_ne|done|done]. done.
    + replace (list_find _ (<[i := _]> cs)) with (@None (nat * ClientGen)); [done|].
      symmetry. apply list_find_None, Forall_lookup. intros j c [[-> ->]|[Hne Hj]]%Hlook [Ha Hc].
      * cbn in Hc. congruence.
      * apply list_find_None in E. apply (Forall_lookup_1 _ _ j c) in E; [|done]. by apply E.
Qed.

Lemma table_init : table_ok TASK_COUNT (replicate TASK_COUNT (mkClient 0 0 false)) ∧
  ∀ t, table_gen (replicate TASK_COUNT (mkClient 0 0 false)) t = None.
Proof.
  assert (∀ i c, replicate TASK_COUNT (mkClient 0 0 false) !! i = Some c → c_active c = false) as H.
  { intros i c [-> _]%lookup_replicate. done. }
  split; [split|].
  - apply length_replicate.
  - intros i c Hi Ha. apply H in Hi. congruence.
  - intros i j c c' Hi _ Ha. apply H in Hi. congruence.
  - intros t. unfold table_gen. replace (list_find _ _) with (@None (nat * ClientGen)); [done|].
    symmetry. apply list_find_None, Forall_lookup. intros i c Hi [Ha _]. apply H in Hi. congruence.
Qed.
End table.

(** * The router *)

Section cleaning.
Context {D : Type} `{ResourceDispatch D} (I : D → Prop).
Context (Hclean : ∀ d t, I d → ∃ d', cleanup_client d t = Ret d' ∧ I d').

Definition dispatchers_ok (ds : list (option (Z * D))) : Prop :=
  ∀ i k d, ds !! i = Some (Some (k, d)) → I d.

Lemma dispatchers_ok_cons o ds : dispatchers_ok (o :: ds) ↔
  (∀ k d, o = Some (k, d) → I d) ∧ dispatchers_ok ds.
Proof.
  split.
  - intros Hok. split; [intros k d ->; by apply (Hok 0 k)|intros i k d; apply (Hok (S i))].
  - intros [H0 Hds] [|i] k d Hi; [injection Hi as ->; by eapply H0|by eapply (Hds i)].
Qed.

(** [cleanup_all] cleans every dispatcher once. *)
Lemma cleanup_all_ok ds t : dispatchers_ok ds →
  ∃ ds', cleanup_all ds t = Ret ds' ∧ dispatchers_ok ds' ∧
    Forall2 (λ o o', match o, o' with
                     | None, None => True
                     | Some (k, d), Some (k', d') => k' = k ∧ cleanup_client d t = Ret d'
                     | _, _ => False
                     end) ds ds'.
Proof.
  induction ds as [|[[k d]|] ds IH]; intros Hok; cbn [cleanup_all].
  - by exists [].
  - apply dispatchers_ok_cons in Hok as [Hd Hds].
    destruct (Hclean d t) as (d' & Hc & Hd'); [by eapply Hd|].
    rewrite Hc. cbn [ebind]. destruct (IH Hds) as (ds' & -> & Hok' & Hf). cbn [ebind].
    exists (Some (k, d') :: ds'). split_and!; [done| |by constructor].
    apply dispatchers_ok_cons. split; [|done]. intros ?? [= <- <-]. done.
  - apply dispatchers_ok_cons in Hok as [_ Hds].
    destruct (IH Hds) as (ds' & -> & Hok' & Hf). cbn [ebind].
    exists (None :: ds'). split_and!; [done| |by constructor].
    by apply dispatchers_ok_cons.
Qed.
End cleaning.

Section router.
Context {D : Type} `{ResourceDispatch D} (I : D → Prop) `{!DispatchLaws D I}.
Context (TASK_COUNT : nat) (acl_fn : Z → bool).

Lemma dispatch_to_ok ds kind m md : dispatchers_ok I ds →
  ∃ r ds', dispatch_to ds kind m md = Ret (r, ds') ∧ dispatchers_ok I ds'.
Proof.
  induction ds as [|[[k d]|] ds IH]; intros Hok; cbn [dispatch_to].
  - by eexists _, _.
  - apply dispatchers_ok_cons in Hok as [Hd Hds]. case_decide as E.
    + destruct (dispatch_law d m md) as (r & d' & -> & Hd'); [by eapply Hd|]. cbn [ebind fst snd].
      eexists _, _. split; [done|]. apply dispatchers_ok_cons. split; [|done].
      intros ?? [= <- <-]. done.
    + destruct (IH Hds) as (r & ds' & -> & Hok'). cbn [ebind fst snd]. eexists _, _.
      split; [done|]. by apply dispatchers_ok_cons.
  - apply dispatchers_ok_cons in Hok as [Hd Hds].
    destruct (IH Hds) as (r & ds' & -> & Hok'). cbn [ebind fst snd]. eexists _, _.
    split; [done|]. by apply dispatchers_ok_cons.
Qed.

Definition server_ok (s : Server D) : Prop :=
  table_ok TASK_COUNT (clients s) ∧ dispatchers_ok I (dispatchers s).

(** One call of [check_client_generation]. *)
Lemma check_client_ok s sender :
  server_ok s → (0 <= task_index sender < Z.of_nat TASK_COUNT)%Z →
  ∃ s', check_client_generation s sender = Ret s' ∧ server_ok s' ∧
    (∀ t, table_gen (clients s') t =
       if decide (t = task_index sender) then Some (generation sender) else table_gen (clients s) t) ∧
    match table_gen (clients s) (task_index sender) with
    | Some g => if decide (g = generation sender) then s' = s
                else cleanup_all (dispatchers s) (task_index sender) = Ret (dispatchers s')
    | None => dispatchers s' = dispatchers s
    end.
Proof.
  intros [Htbl Hds] Ht. unfold check_client_generation, table_gen at 3.
  set (t := task_index sender) in *.
  destruct (list_find (λ c, c_active c = true ∧ c_task_index c = t) (clients s)) as [[i c]|] eqn:E;
    cbn [fmap option_fmap option_map compose snd].
  - apply list_find_Some in E as (Hi & [Ha Hc] & _). case_decide as Hg.
    + exists s. split_and!; try done. intros t'. case_decide; [|done]. subst t'.
      unfold table_gen. erewrite table_row; try done. cbn. by rewrite Hg.
    + destruct (cleanup_all_ok I cleanup_law (dispatchers s) t Hds) as (ds' & -> & Hds' & _). cbn [ebind].
      destruct (table_set TASK_COUNT (clients s) t (generation sender) i c) as [Hok' Hgen']; try done.
      { intros j c' Hj Ha' Hc'. apply (tbl_inj _ _ Htbl j i c' c); congruence. }
      eexists. split_and!; try done.
  - assert (∀ i c, clients s !! i = Some c → c_active c = true → c_task_index c ≠ t) as Hnew.
    { intros i c Hi Ha Hc. apply list_find_None in E.
      apply (Forall_lookup_1 _ _ i c) in E; [|done]. apply E. done. }
    destruct (list_find (λ c, c_active c = false) (clients s)) as [[i c]|] eqn:E2.
    + apply list_find_Some in E2 as (Hi & Ha & _).
      destruct (table_set TASK_COUNT (clients s) t (generation sender) i c) as [Hok' Hgen']; try done.
      { intros Ha'. congruence. }
      { intros j c' Hj Ha' Hc'. exfalso. by eapply Hnew. }
      eexists. split_and!; try done.
    + exfalso. destruct (table_has_room TASK_COUNT (clients s) t) as (i & c & Hi & Ha); try done.
      apply list_find_None in E2. apply (Forall_lookup_1 _ _ i c) in E2; [|done]. by apply E2.
Qed.

Lemma dispatch_message_ok s m :
  server_ok s → (0 <= task_index (m_sender m) < Z.of_nat TASK_COUNT)%Z →
  ∃ r s', dispatch_message acl_fn s m = Ret (r, s') ∧ server_ok s' ∧
    ∀ t, table_gen (clients s') t =
      if decide (t = task_index (m_sender m)) then Some (generation (m_sender m))
      else table_gen (clients s) t.
Proof.
  intros Hok Ht. destruct (check_client_ok s (m_sender m) Hok Ht) as (s1 & Hc & [Htbl Hds] & Hgen & _).
  unfold dispatch_message. rewrite Hc. cbn [ebind].
  destruct (acl_fn _); cbn [negb]; [|by eexists _, _].
  destruct (split_opcode _) as [kind method]. case_decide.
  - destruct (cleanup_all_ok I cleanup_law (dispatchers s1) (task_index (m_sender m)) Hds) as (ds' & -> & ? & _).
    cbn [ebind]. by eexists _, _.
  - destruct (split_message m) as [md|reason]; [|by eexists _, _].
    destruct (dispatch_to_ok (dispatchers s1) kind method md Hds) as (r & ds' & -> & ?).
    cbn [ebind fst snd]. by eexists _, _.
Qed.

(** The server loop over the messages received, with the reply to each. *)
Fixpoint serve (s : Server D) (ms : list Message) : exec (list Reply * Server D) :=
  match ms with
  | [] => Ret ([], s)
  | m :: ms =>
      let! r := dispatch_message acl_fn s m in
      let! rs := serve (snd r) ms in
      Ret (fst r :: fst rs, snd rs)
  end.

Lemma serve_ok ms s :
  server_ok s → Forall (λ m, 0 <= task_index (m_sender m) < Z.of_nat TASK_COUNT)%Z ms →
  ∃ rs s', serve s ms = Ret (rs, s') ∧ server_ok s' ∧ length rs = length ms ∧
    ∀ t, table_gen (clients s') t =
      match last_gen ms t with Some g => Some g | None => table_gen (clients s) t end.
Proof.
  intros Hok Hms. revert s Hok. induction Hms as [|m ms Hm _ IH]; intros s Hok; cbn [serve last_gen].
  { by eexists _, _. }
  destruct (dispatch_message_ok s m Hok Hm) as (r & s1 & -> & Hok1 & Hgen). cbn [ebind fst snd].
  destruct (IH s1 Hok1) as (rs & s' & -> & Hok' & Hlen & Hgen'). cbn [ebind fst snd].
  eexists _, s'. split_and!; [done|done|cbn; lia|]. intros t. rewrite Hgen', Hgen.
  destruct (last_gen ms t); [done|]. repeat case_decide; done || congruence.
Qed.
End router.

(** C32: the router serves every message and tracks every client. For any
    dispatchers that meet [DispatchLaws], any access list and any messages from
    tasks below [TASK_COUNT], the server loop from a fresh server never reaches
    its "TASK_COUNT exceeded" panic, answers each message exactly once, and
    records for every task the generation of its latest message. *)
Theorem server_tracks_clients {D : Type} `{ResourceDispatch D} (I : D → Prop) `{!DispatchLaws D I}
    (TASK_COUNT : nat) (acl_fn : Z → bool) (s : Server D) (ms : list Message) :
  clients s = clients (server_new (D:=D) TASK_COUNT 0) → dispatchers_ok I (dispatchers s) →
  Forall (λ m, 0 <= task_index (m_sender m) < Z.of_nat TASK_COUNT)%Z ms →
  ∃ rs s', serve acl_fn s ms = Ret (rs, s') ∧ length rs = length ms ∧
    dispatchers_ok I (dispatchers s') ∧
    ∀ t, table_gen (clients s') t = last_gen ms t.
Proof.
  intros Hcl Hds Hms. destruct (table_init TASK_COUNT) as [Htbl Hnone].
  destruct (serve_ok I TASK_COUNT acl_fn ms s) as (rs & s' & ? & [_ ?] & ? & Hgen); try done.
  { split; [by rewrite Hcl|done]. }
  exists rs, s'. split_and!; try done. intros t. rewrite Hgen, Hcl. cbn [server_new clients].
  rewrite Hnone. by destruct (last_gen ms t).
Qed.

(** * The arena as a dispatcher *)

(** [cancel_transfers_to] on one entry. *)
Definition unfreeze (t : Z) (e : HandleEntry) : HandleEntry :=
  if h_occupied e && bool_decide (h_pending_to e = Some t) then entry_pending e None else e.

Section cleanup.
Context {T : Type}.
Implicit Types (a : Arena T).

Lemma cancel_loop_map N t ixs a :
  arena_wf N a → NoDup ixs → Forall (λ i, i < N) ixs →
  ∃ a', cancel_loop t ixs a = Ret a' ∧ a_slots a' = a_slots a ∧
    ∀ j, a_map a' !! j = (if decide (j ∈ ixs) then unfreeze t else id) <$> a_map a !! j.
Proof.
  revert a. induction ixs as [|i ixs IH]; intros a Hwf Hnd Hlt; cbn [cancel_loop].
  { exists a. split_and!; try done. intros j. rewrite decide_False by set_solver.
    by rewrite option_fmap_id. }
  inversion_clear Hnd as [|?? Hni Hnd']. apply Forall_cons_1 in Hlt as [Hi Hlt].
  destruct (idx_lt (a_map a) i) as (e & He & ->); [by rewrite (wf_map N a Hwf)|]. cbn [ebind].
  assert (∀ a1, arena_wf N a1 → a_slots a1 = a_slots a → a_map a1 = <[i := unfreeze t e]> (a_map a) →
    ∃ a', cancel_loop t ixs a1 = Ret a' ∧ a_slots a' = a_slots a ∧
      ∀ j, a_map a' !! j = (if decide (j ∈ i :: ixs) then unfreeze t else id) <$> a_map a !! j) as Hgo.
  { intros a1 Hwf1 Hs1 Hm1. destruct (IH a1 Hwf1 Hnd' Hlt) as (a' & -> & Hs & Hm).
    exists a'. split_and!; [done|congruence|]. intros j. rewrite Hm, Hm1.
    destruct (decide (j = i)) as [->|Hne].
    - rewrite list_lookup_insert_eq by (by eapply lookup_lt_Some). rewrite He.
      rewrite decide_False by done. by rewrite decide_True by (by left).
    - rewrite list_lookup_insert_ne by done.
      by rewrite (decide_ext (j ∈ ixs) (j ∈ i :: ixs)) by (rewrite elem_of_cons; tauto). }
  unfold unfreeze in Hgo at 1. destruct (h_occupied e && bool_decide (h_pending_to e = Some t)) eqn:Hc.
  - apply andb_true_iff in Hc as [Ho _]. destruct (wf_live N a Hwf i e He Ho) as (s & Hs & Hl).
    rewrite (idx_ok _ _ _ Hs). cbn [ebind]. rewrite Hl. apply Hgo; [|done|done].
    eapply wf_update; try done. exact (wf_prio N a Hwf i e He Ho).
  - apply Hgo; [done|done|]. by rewrite list_insert_id.
Qed.

Lemma cancel_transfers_map N t a : arena_wf N a →
  ∃ a', cancel_transfers_to a t = Ret a' ∧ a_slots a' = a_slots a ∧
    a_map a' = unfreeze t <$> a_map a.
Proof.
  intros Hwf. unfold cancel_transfers_to.
  destruct (cancel_loop_map N t (seq 0 (length (a_map a))) a Hwf) as (a' & ? & ? & Hm).
  { apply NoDup_seq. }
  { apply Forall_seq. intros j Hj. rewrite <- (wf_map N a Hwf). lia. }
  exists a'. split_and!; try done. apply list_eq. intros j. rewrite Hm, list_lookup_fmap.
  destruct (a_map a !! j) as [e|] eqn:E; [|done]. cbn. rewrite decide_True; [done|].
  apply elem_of_seq. apply lookup_lt_Some in E. lia.
Qed.

Lemma arena_cleanup_ok N a t : arena_wf N a →
  ∃ a', arena_cleanup a t = Ret a' ∧ arena_wf N a' ∧ keys_kept a a' ∧ kept a a' ∧
    a_map a' = unfreeze t ∘ free_if (λ e, h_occupied e && bool_decide (h_owner e = t)) <$> a_map a.
Proof.
  intros Hwf. unfold arena_cleanup.
  destruct (remove_by_owner_ok N a t Hwf) as (a1 & -> & Hwf1 & Hkept & Hm1). cbn [ebind].
  pose proof Hkept as [Hk Hvals].
  destruct (run_op_ok N (OCancelTo t) a1 I Hwf1) as (a' & Hr & Hwf' & _). cbn [run_op] in Hr.
  destruct (cancel_transfers_map N t a1 Hwf1) as (a2 & Hr2 & Hsl & Hm2).
  rewrite Hr in Hr2. injection Hr2 as <-.
  assert (keys_kept a1 a') as Hkk.
  { unfold cancel_transfers_to in Hr.
    destruct (cancel_loop_ok N t (seq 0 (length (a_map a1))) a1 Hwf1) as (a3 & Hr3 & _ & ?).
    { apply Forall_seq. intros j Hj. rewrite <- (wf_map N a1 Hwf1). lia. }
    rewrite Hr in Hr3. by injection Hr3 as <-. }
  exists a'. split_and!; try done.
  - refine (keys_kept_trans a a1 a' _ Hkk). by eapply free_if_keys.
  - split; [rewrite (proj1 Hkk); done|]. by rewrite Hsl.
  - rewrite Hm2, Hm1. by rewrite list_fmap_compose.
Qed.
End cleanup.

Section arena_server.
Context {T : Type} (N : nat).
Context (take_handle : list Z → option Z) (take_handle_u16 : list Z → option (Z * Z)).
Context (to_slice : Z → nat → option (list Z)) (priority_fn : Z → Z).
Context (user : Arena T → Z → MessageData → exec (Reply * Arena T)).
Implicit Types (a : Arena T).

(** An implicit request is at most one arena call, on the sender's behalf. *)
Definition sender_op (w : Z) (o : arena_op T) : Prop :=
  owner_op w o ∨ (∃ h n, o = OClone h w n (priority_fn n)) ∨ (∃ h, o = OAcquire h w (priority_fn w)).

Lemma dispatch_implicit_op a m msg w : arena_wf N a →
  ∃ r o, match o with Some op => sender_op w op | None => True end ∧
    (m ≠ CLONE_METHOD → ∀ h n p, o ≠ Some (OClone h w n p)) ∧
    dispatch_implicit take_handle take_handle_u16 to_slice a m msg w priority_fn =
      (let! a' := match o with Some op => run_op op a | None => Ret a end in Ret (r, a')).
Proof.
  intros Hwf. unfold dispatch_implicit, sender_op.
  case_decide; [destruct (take_handle msg) as [h|]; [eexists _, (Some (ORemoveOwned h w))|by eexists _, None]|].
  { split_and!; [by left|done|]. cbn [run_op]. by destruct (remove_owned a h w). }
  case_decide as Hcl; [destruct (take_handle_u16 msg) as [[h n]|]; [|by eexists _, None]|].
  { destruct (clone_handle_ok N a h w n (priority_fn n) Hwf) as (r & a' & Hr & Hspec).
    cbn [ebind]. destruct r as [h2|[]]; [|eexists _, (Some (OClone h w n (priority_fn n)))..|done].
    - eexists (Some (match to_slice h2 10 with Some bytes => reply_ok (0%Z :: bytes)
                     | None => reply_error MALFORMED_MESSAGE [] end)), (Some (OClone h w n (priority_fn n))).
      split_and!; [by eauto|done|]. cbn [run_op]. rewrite Hr. cbn [ebind fst snd].
      by destruct (to_slice h2 10).
    - split_and!; [by eauto|done|]. cbn [run_op]. by rewrite Hr.
    - split_and!; [by eauto|done|]. cbn [run_op]. by rewrite Hr. }
  case_decide; [destruct (take_handle_u16 msg) as [[h n]|]; [|by eexists _, None]|].
  { destruct (prepare_ok N a h w n Hwf) as (b & a' & Hr & _).
    eexists _, (Some (OPrepare h w n)). split_and!; [by left|done|]. cbn [run_op]. by rewrite Hr. }
  case_decide; [destruct (take_handle msg) as [h|]; [|by eexists _, None]|].
  { eexists _, (Some (OCancel h w)). split_and!; [by left|done|]. done. }
  case_decide; [destruct (take_handle msg) as [h|]; [|by eexists _, None]|].
  { destruct (acquire a h w (priority_fn w)) as [[b a']|] eqn:E;
      eexists _, (Some (OAcquire h w (priority_fn w))); (split_and!; [by eauto|done|]);
      cbn [run_op]; rewrite E; [done|]. exact eq_refl. }
  case_decide; [destruct (take_handle msg) as [h|]; [|by eexists _, None]|].
  { eexists _, (Some (OTryDrop h w)). split_and!; [by left|done|]. cbn [run_op].
    by destruct (try_drop a h w). }
  case_decide; [|by eexists _, None].
  eexists _, (Some (ORemoveByOwner w)). split_and!; [by left|done|]. cbn [run_op]. done.
  Unshelve. exact None.
Qed.

Context (Hprio : ∀ t, is_i 8 (priority_fn t)).

Lemma sender_op_ok w o : sender_op w o → op_ok o.
Proof.
  intros [Ho|[(h & n & ->)|(h & ->)]]; cbn [op_ok]; [|apply Hprio..].
  by destruct o; cbn [owner_op op_ok] in *.
Qed.

Lemma dispatch_implicit_ok a m msg w : arena_wf N a →
  ∃ r a', dispatch_implicit take_handle take_handle_u16 to_slice a m msg w priority_fn = Ret (r, a') ∧
    arena_wf N a'.
Proof.
  intros Hwf. destruct (dispatch_implicit_op a m msg w Hwf) as (r & o & Ho & _ & ->).
  destruct o as [op|]; cbn [ebind]; [|by eexists _, _].
  destruct (run_op_ok N op a (sender_op_ok w op Ho) Hwf) as (a' & -> & ? & _). by eexists _, _.
Qed.

(** The generated dispatcher meets the router's interface, for handlers that keep
    the arena's invariant. *)
Context (Huser : ∀ a m md, arena_wf N a → ∃ r a', user a m md = Ret (r, a') ∧ arena_wf N a').

Lemma arena_dispatcher_laws :
  @DispatchLaws (Arena T)
    (arena_dispatcher take_handle take_handle_u16 to_slice priority_fn user) (arena_wf N).
Proof.
  split.
  - intros a t Hwf. destruct (arena_cleanup_ok N a t Hwf) as (a' & ? & ? & _). by exists a'.
  - intros a m md Hwf. cbn [dispatch arena_dispatcher]. unfold arena_dispatch.
    destruct (dispatch_implicit_ok a m (d_data md) (task_index (d_sender md)) Hwf)
      as ([r|] & a' & -> & Hwf'); cbn [ebind fst snd]; [by eexists _, _|by apply Huser].
Qed.
End arena_server.

(** ** What other owners see *)

Section frames.
Context {T : Type} (N : nat) (kind : Z) (os : list (arena_op T)) (a : Arena T).
Context (HN : N ≤ 255) (Hkind : is_u 8 kind) (Hos : Forall op_ok os).
Context (Hlen : (Z.of_nat (length os) < 2 ^ 64)%Z) (Hreach : reach N kind os = Ret a).

(** Acquiring takes a handle that was frozen for everyone. *)
Lemma acquire_frame h w p a' h' w' : is_i 8 p → run_op (OAcquire h w p) a = Ret a' → w' ≠ w →
  get_mut_owned a' h' w' = get_mut_owned a h' w'.
Proof.
  intros Hp Hr Hne. destruct (reachable_ok N kind os a) as (n & Hwf & _); try done.
  destruct (acquire_ok N a h w p Hp Hwf) as (b & a2 & Hr2 & Hwf2 & Hf). cbn [run_op] in Hr.
  rewrite Hr2 in Hr. injection Hr as <-. rewrite !(get_owned_resolve N) by done. f_equal.
  destruct (list_find _ _) as [[j e]|]; [|by destruct Hf as [_ ->]].
  destruct Hf as (_ & Hj & (_ & _ & Hpend)%pending_for_true & ->).
  eapply (resolve_frame N); try done; [by intros x (? & _)%owned_free_true|apply kept_set_entry|].
  cbn [set_entry a_map]. eapply insert_frame; [done| |by eapply owned_free_other].
  apply not_true_is_false. intros (_ & _ & _ & ?)%owned_free_true. congruence.
Qed.

(** Cloning may evict handles below the new owner's priority, nothing else. *)
Lemma clone_frame h w n p a' h' w' x : run_op (OClone h w n p) a = Ret a' → h' ≠ a_next_key a →
  resolve (owned_free h' w') a = Some x → arena_wf N a' →
  get_mut_owned a' h' w' = Ret (Some x) ∨
  get_mut_owned a' h' w' = Ret None ∧
    ∃ j e, a_map a !! j = Some e ∧ owned_free h' w' e = true ∧ (h_priority e < p)%Z.
Proof.
  intros Hr Hne Hx Hwf'. destruct (reachable_ok N kind os a) as (m & Hwf & _); try done.
  rewrite (get_owned_resolve N) by done.
  destruct (clone_handle_ok N a h w n p Hwf) as (r & a2 & Hr2 & Hspec). cbn [run_op] in Hr.
  rewrite Hr2 in Hr. injection Hr as <-. destruct r as [h2|[]]; [|destruct Hspec as [-> _]; left; by f_equal..|done].
  destruct Hspec as (-> & js & src & _ & _ & a1 & s & j & e0 & Hev & Hwf1 & _ & Hs & _ & Hj & Ho & ->).
  rewrite (install_frame N a1 (h_slot src) s _ j e0); try done;
    [|by intros e (? & _)%owned_free_true|by right|by eapply owned_free_ne].
  destruct (evicts_resolve N p a a1 (owned_free h' w') x) as [->|[-> ?]]; try done; auto.
  - by intros e (? & _)%owned_free_true.
  - eapply (reachable_unique N kind os a); try done. intros e. apply owned_free_key.
Qed.

(** Unfreezing and revoking for [t] keeps every usable handle of others. *)
Lemma cleanup_frame t a' h' w' x : arena_cleanup a t = Ret a' → w' ≠ t →
  resolve (owned_free h' w') a = Some x → resolve (owned_free h' w') a' = Some x.
Proof.
  intros Hr Hne Hx. destruct (reachable_ok N kind os a) as (m & Hwf & _ & _ & Hkeys); try done.
  destruct (arena_cleanup_ok N a t Hwf) as (a2 & Hr2 & Hwf' & Hkk & [_ Hkept] & Hm).
  rewrite Hr in Hr2. injection Hr2 as <-.
  destruct (resolve_some _ _ _ Hx) as (j & e & s & Hj & He & Hs & Hv).
  pose proof He as (Ho & Hk & Hw & Hp)%owned_free_true.
  assert (a_map a' !! j = Some e) as Hj'.
  { rewrite Hm, list_lookup_fmap, Hj. cbn. f_equal. unfold free_if. rewrite Ho.
    rewrite bool_decide_false by congruence. cbn [andb]. unfold unfreeze. rewrite Hp.
    by rewrite andb_false_r. }
  destruct (wf_live N a' Hwf' j e Hj' Ho) as (s' & Hs' & [_ Hv']%live_true).
  destruct (Hkept _ s' Hs' Hv') as (s0 & Hs0 & Hvs & _). rewrite Hs in Hs0. injection Hs0 as <-.
  rewrite (resolve_found N a' _ j e s'); try done; [congruence|].
  eapply keys_unique; [by eapply keys_ok_kept|]. intros y. apply owned_free_key.
Qed.
End frames.

(** The implicit methods cannot be used against other tasks. On a reachable
    arena, whatever request bytes a task [w] sends for a destroy, clone, prepare,
    cancel, acquire, drop or revoke-all, the request is served without a panic,
    and what another owner's handle gives access to stays as it was, except that
    a clone may evict a handle whose priority is below the new owner's. *)
Theorem implicit_isolation {T} (N : nat) (kind : Z) (os : list (arena_op T)) (a : Arena T)
    (take_handle : list Z → option Z) (take_handle_u16 : list Z → option (Z * Z))
    (to_slice : Z → nat → option (list Z)) (priority_fn : Z → Z) (m w : Z) (msg : list Z) :
  N ≤ 255 → is_u 8 kind → Forall op_ok os → (Z.of_nat (length os) < 2 ^ 64)%Z →
  reach N kind os = Ret a → (∀ t, is_i 8 (priority_fn t)) →
  ∃ r a', dispatch_implicit take_handle take_handle_u16 to_slice a m msg w priority_fn = Ret (r, a') ∧
    ∀ w' h' x, w' ≠ w → get_mut_owned a h' w' = Ret (Some x) →
      get_mut_owned a' h' w' = Ret (Some x) ∨
      m = CLONE_METHOD ∧ get_mut_owned a' h' w' = Ret None ∧
        ∃ j e n, a_map a !! j = Some e ∧ owned_free h' w' e = true ∧ (h_priority e < priority_fn n)%Z.
Proof.
  intros HN Hkind Hos Hlen Hreach Hprio. assert (arena_wf N a) as Hwf by (by eapply reach_wf).
  destruct (dispatch_implicit_op N take_handle take_handle_u16 to_slice priority_fn a m msg w Hwf)
    as (r & o & Ho & Hcl & ->).
  destruct o as [op|]; cbn [ebind]; [|eexists _, _; split; [done|by auto]].
  destruct (run_op_ok N op a) as (a' & Hr & Hwf' & _); [by eapply sender_op_ok|done|].
  rewrite Hr. cbn [ebind]. exists r, a'. split; [done|]. intros w' h' x Hne Hx.
  destruct Ho as [Ho|[(h & n & ->)|(h & ->)]].
  - left. by rewrite (owner_op_frame N op a a' w w' h').
  - assert (m = CLONE_METHOD) as Hm.
    { destruct (decide (m = CLONE_METHOD)) as [|Hd]; [done|]. by destruct (Hcl Hd h n (priority_fn n)). }
    rewrite (get_owned_resolve N) in Hx by done. injection Hx as Hx.
    destruct (clone_frame N kind os a HN Hkind Hos Hlen Hreach h w n (priority_fn n) a' h' w' x)
      as [?|[? (j & e & ? & ? & ?)]]; try done; [|by left|right; split_and!; try done; by exists j, e, n].
    intros ->. destruct (resolve_some _ _ _ Hx) as (j & e & s & Hj & He & _).
    pose proof (reachable_fresh N kind os a HN Hkind Hos Hlen Hreach j e Hj) as Hf.
    apply owned_free_key in He. by rewrite (proj2 (has_key_true _ _) He) in Hf.
  - left. by rewrite (acquire_frame N kind os a HN Hkind Hos Hlen Hreach h w (priority_fn w) a').
Qed.

Definition demo_take (msg : list Z) : option Z := Some demo_h1.
Definition demo_take2 (msg : list Z) : option (Z * Z) := Some (demo_h1, 4%Z).
Definition demo_slice (h : Z) (n : nat) : option (list Z) := Some (le_bytes 8 h).
Definition demo_prio (t : Z) : Z := 4%Z.

Lemma implicit_isolation_witness :
  ∃ r a', dispatch_implicit demo_take demo_take2 demo_slice demo_arena CLONE_METHOD [] 1 demo_prio
            = Ret (r, a') ∧
    ∀ w' h' x, w' ≠ 1%Z → get_mut_owned demo_arena h' w' = Ret (Some x) →
      get_mut_owned a' h' w' = Ret (Some x) ∨
      CLONE_METHOD = CLONE_METHOD ∧ get_mut_owned a' h' w' = Ret None ∧
        ∃ j e n, a_map demo_arena !! j = Some e ∧ owned_free h' w' e = true ∧
          (h_priority e < demo_prio n)%Z.
Proof.
  apply (implicit_isolation 2 7 demo_ops demo_arena demo_take demo_take2 demo_slice demo_prio
           CLONE_METHOD 1 []);
    [lia|const_u|apply demo_ops_ok|reflexivity|vm_compute; reflexivity|].
  intros t. split; [discriminate|reflexivity].
Defined.

(** A server whose only resource is the arena of the example, for eight tasks. *)
Definition demo_user (a : Arena Z) (m : Z) (md : MessageData) : exec (Reply * Arena Z) :=
  Ret (reply_ok [], a).
#[local] Instance demo_dispatch : ResourceDispatch (Arena Z) :=
  arena_dispatcher demo_take demo_take2 demo_slice demo_prio demo_user.
#[local] Instance demo_laws : DispatchLaws (Arena Z) (arena_wf 2).
Proof.
  apply arena_dispatcher_laws.
  - intros t. split; [discriminate|reflexivity].
  - intros a m md Hwf. by eexists _, _.
Qed.

Definition demo_server : Server (Arena Z) :=
  mkServer [Some (3%Z, demo_arena)] 1 (clients (server_new (D:=Arena Z) 8 0)).

Lemma demo_arena_wf : arena_wf 2 demo_arena.
Proof.
  apply (reach_wf 2 7 demo_ops); [lia|apply demo_ops_ok|vm_compute; reflexivity].
Qed.

Lemma demo_dispatchers_ok : dispatchers_ok (arena_wf 2) (dispatchers demo_server).
Proof. intros [|[|i]] k d [=]. subst d. apply demo_arena_wf. Qed.

(** Task 1 calls "revoke all", restarts, and calls again. *)
Definition demo_messages : list Message :=
  [mkMessage (mkTask 1 0) (opcode 3 REVOKE_ALL_METHOD) (Some []) 0;
   mkMessage (mkTask 1 1) (opcode 3 TRY_DROP_METHOD) (Some [1%Z]) 0].

Lemma server_tracks_clients_witness :
  ∃ rs s', serve (λ _, true) demo_server demo_messages = Ret (rs, s') ∧ length rs = 2 ∧
    dispatchers_ok (arena_wf 2) (dispatchers s') ∧
    ∀ t, table_gen (clients s') t = last_gen demo_messages t.
Proof.
  apply (server_tracks_clients (arena_wf 2) 8 (λ _, true) demo_server demo_messages).
  - reflexivity.
  - apply demo_dispatchers_ok.
  - repeat (constructor; [cbn; lia|]). constructor.
Defined.

(** * Restarted clients *)

Definition arena_reachable {T} (N : nat) (a : Arena T) : Prop :=
  ∃ kind os, is_u 8 kind ∧ Forall op_ok os ∧ (Z.of_nat (length os) < 2 ^ 64)%Z ∧
    reach N kind os = Ret a.

Lemma cleaned_entry t (e : HandleEntry) :
  let e' := unfreeze t (free_if (λ e, h_occupied e && bool_decide (h_owner e = t)) e) in
  h_occupied e' = true → h_owner e' ≠ t ∧ h_pending_to e' ≠ Some t.
Proof.
  cbn zeta. unfold free_if. destruct (h_occupied e && bool_decide (h_owner e = t)) eqn:E.
  { unfold unfreeze. cbn. done. }
  unfold unfreeze. destruct (h_occupied e) eqn:Ho; cbn [andb] in *; [|congruence].
  apply bool_decide_eq_false in E. case_bool_decide as Hp; cbn; intros _; split; congruence.
Qed.

(** A restarted task inherits nothing. When a message comes from a task
    whose recorded generation differs, then before it is dispatched every arena
    of the server has dropped all entries the task owned and thawed the handles
    that were being transferred to it; the task can use no handle of its former
    life, and every usable handle of every other task still gives the same
    value. *)
Theorem restart_revokes {T} (N TASK_COUNT : nat)
    (take_handle : list Z → option Z) (take_handle_u16 : list Z → option (Z * Z))
    (to_slice : Z → nat → option (list Z)) (priority_fn : Z → Z)
    (user : Arena T → Z → MessageData → exec (Reply * Arena T))
    (s : Server (Arena T)) (sender : TaskId) (g : Z) :
  let _ := arena_dispatcher take_handle take_handle_u16 to_slice priority_fn user in
  N ≤ 255 → table_ok TASK_COUNT (clients s) →
  (∀ i k a, dispatchers s !! i = Some (Some (k, a)) → arena_reachable N a) →
  table_gen (clients s) (task_index sender) = Some g → g ≠ generation sender →
  ∃ s', check_client_generation s sender = Ret s' ∧
    table_gen (clients s') (task_index sender) = Some (generation sender) ∧
    ∀ i k a, dispatchers s !! i = Some (Some (k, a)) →
      ∃ a', dispatchers s' !! i = Some (Some (k, a')) ∧
        (∀ j e, a_map a' !! j = Some e → h_occupied e = true →
           h_owner e ≠ task_index sender ∧ h_pending_to e ≠ Some (task_index sender)) ∧
        (∀ h, get_mut_owned a' h (task_index sender) = Ret None) ∧
        (∀ h w x, w ≠ task_index sender → get_mut_owned a h w = Ret (Some x) →
           get_mut_owned a' h w = Ret (Some x)).
Proof.
  intros Hdisp HN Htbl Hreach Hg Hne. set (t := task_index sender) in *.
  assert (∀ i k a, dispatchers s !! i = Some (Some (k, a)) → arena_wf N a) as Hds.
  { intros i k a Hi. destruct (Hreach i k a Hi) as (kind & os & ? & ? & ? & ?). by eapply reach_wf. }
  assert (∀ (d : Arena T) t, arena_wf N d → ∃ d', cleanup_client d t = Ret d' ∧ arena_wf N d') as Hcln.
  { intros d t0 Hd. destruct (arena_cleanup_ok N d t0 Hd) as (d' & ? & ? & _). by exists d'. }
  destruct (cleanup_all_ok (arena_wf N) Hcln (dispatchers s) t Hds) as (ds' & Hcl & _ & Hf).
  unfold table_gen in Hg. unfold check_client_generation. fold t.
  destruct (list_find (λ c, c_active c = true ∧ c_task_index c = t) (clients s)) as [[i c]|] eqn:E;
    [|done]. cbn in Hg. injection Hg as <-. apply list_find_Some in E as (Hi & [Ha Hc] & _).
  rewrite decide_False by done. rewrite Hcl. cbn [ebind]. eexists. split; [done|].
  destruct (table_set TASK_COUNT (clients s) t (generation sender) i c) as [_ Hgen]; try done.
  { pose proof (tbl_range _ _ Htbl i c Hi Ha). lia. }
  { intros j c' Hj Ha' Hc'. apply (tbl_inj _ _ Htbl j i c' c); congruence. }
  split; [cbn [clients]; by rewrite Hgen, decide_True|]. cbn [dispatchers]. intros j k a Hj.
  destruct (Forall2_lookup_l _ _ _ _ _ Hf Hj) as ([[k' a']|] & Hj' & Hcase); [|done].
  destruct Hcase as [-> Hclean]. cbn in Hclean. exists a'.
  pose proof (Hds j k a Hj) as Hwf. destruct (arena_cleanup_ok N a t Hwf) as (a2 & Hr & Hwf' & _ & _ & Hm).
  rewrite Hclean in Hr. injection Hr as <-.
  assert (∀ j e, a_map a' !! j = Some e → h_occupied e = true →
     h_owner e ≠ t ∧ h_pending_to e ≠ Some t) as Hno.
  { intros j' e He Ho. rewrite Hm, list_lookup_fmap in He.
    destruct (a_map a !! j') as [e0|]; [|done]. cbn in He. injection He as <-. by apply cleaned_entry. }
  split_and!; try done.
  - intros h. rewrite (get_owned_resolve N) by done. rewrite resolve_absent; [done|].
    intros j' e He. apply not_true_is_false. intros (Ho & _ & Hw & _)%owned_free_true.
    by destruct (Hno j' e He Ho).
  - intros h w x Hw Hx. rewrite (get_owned_resolve N) in Hx |- * by done. injection Hx as Hx. f_equal.
    destruct (Hreach j k a Hj) as (kind & os & ? & ? & ? & ?).
    by eapply (cleanup_frame N kind os a).
Qed.

Lemma demo_arena_reachable : arena_reachable 2 demo_arena.
Proof.
  exists 7%Z, demo_ops. split; [const_u|]. split; [apply demo_ops_ok|]. split; [reflexivity|].
  vm_compute. reflexivity.
Qed.

Definition demo_restarted : Server (Arena Z) :=
  mkServer [Some (3%Z, demo_arena)] 1
    (<[2 := mkClient 1 0 true]> (clients (server_new (D:=Arena Z) 8 0))).

Lemma restart_revokes_witness :
  ∃ s' a', check_client_generation demo_restarted (mkTask 1 1) = Ret s' ∧
    dispatchers s' !! 0 = Some (Some (3%Z, a')) ∧
    get_mut_owned demo_arena demo_h1 1 = Ret (Some 10%Z) ∧
    get_mut_owned a' demo_h1 1 = Ret None ∧
    get_mut_owned a' demo_h2 2 = Ret (Some 11%Z).
Proof.
  destruct (restart_revokes 2 8 demo_take demo_take2 demo_slice demo_prio demo_user
              demo_restarted (mkTask 1 1) 0) as (s' & H1 & _ & H2).
  - lia.
  - split.
    + reflexivity.
    + intros [|[|[|[|[|[|[|[|i]]]]]]]] c [= <-]; cbn; done || lia.
    + intros [|[|[|[|[|[|[|[|i]]]]]]]] [|[|[|[|[|[|[|[|j]]]]]]]] c c' [= <-] [= <-]; cbn; done || congruence.
  - intros [|[|i]] k a [=]. subst a. exact demo_arena_reachable.
  - reflexivity.
  - discriminate.
  - destruct (H2 0 3%Z demo_arena eq_refl) as (a' & H3 & _ & H4 & H5).
    exists s', a'. split; [exact H1|]. split; [exact H3|]. split; [vm_compute; reflexivity|].
    split; [exact (H4 demo_h1)|]. apply H5; [discriminate|vm_compute; reflexivity].
Defined.
