(* ===== verification/LogFormat.v ===== *)
(** The structured-log wire format: the values of [shared/log/src/owned.rs], the
    tags, the variable-length integers and the [Formatter] that writes values on
    the device ([shared/log/src/formatter]).

    A [Writer] only appends, so a formatting call is the list of bytes it writes.
    Floats are their bit patterns. *)

From S2P Require Import Prelude.

(** * Tags *)

Definition TAG_UNIT : Z := 0x00.
Definition TAG_BOOL : Z := 0x01.
Definition TAG_U8 : Z := 0x02.
Definition TAG_I8 : Z := 0x03.
Definition TAG_U16 : Z := 0x04.
Definition TAG_I16 : Z := 0x05.
Definition TAG_U32 : Z := 0x06.
Definition TAG_I32 : Z := 0x07.
Definition TAG_U64 : Z := 0x08.
Definition TAG_I64 : Z := 0x09.
Definition TAG_U128 : Z := 0x0A.
Definition TAG_I128 : Z := 0x0B.
Definition TAG_F32 : Z := 0x0C.
Definition TAG_F64 : Z := 0x0D.
Definition TAG_CHAR : Z := 0x0E.
Definition TAG_STR : Z := 0x0F.
Definition TAG_ARRAY : Z := 0x10.
Definition TAG_SLICE : Z := 0x11.
Definition TAG_TUPLE : Z := 0x12.
Definition TAG_STRUCT : Z := 0x13.
Definition TAG_STACK_DUMP : Z := 0x14.
Definition TAG_END_OF_STREAM : Z := 0xFF.

(** * Values, [owned.rs] *)

#[local] Unset Elimination Schemes.
Inductive OwnedValue :=
  | VU8 (n : Z) | VI8 (n : Z)
  | VU16 (n : Z) | VI16 (n : Z)
  | VU32 (n : Z) | VI32 (n : Z)
  | VU64 (n : Z) | VI64 (n : Z)
  | VU128 (n : Z) | VI128 (n : Z)
  | VF32 (bits : Z) | VF64 (bits : Z)
  | VChar (c : Z)
  | VBool (b : bool)
  | VStr (s : list Z)
  | VUnit
  | VArray (children : list OwnedValue)
  | VSlice (children : list OwnedValue)
  | VTuple (type_id : Z) (fields : list OwnedValue)
  | VStruct (type_id : Z) (fields : list (Z * OwnedValue))
  | VStackDump (sp stack_top lr pc : Z) (registers : list Z) (xpsr : Z) (stack : list Z).
#[local] Set Elimination Schemes.

(** The standard library's [char::from_u32]: a Unicode scalar value. *)
Definition is_char (c : Z) : bool :=
  bool_decide (0 <= c < 0xD800)%Z || bool_decide (0xE000 <= c < 0x110000)%Z.

(** The standard library's [str] validity: well-formed UTF-8. *)
Definition in_range (lo hi b : Z) : bool := bool_decide (lo <= b <= hi)%Z.

Fixpoint utf8_valid (s : list Z) : bool :=
  match s with
  | [] => true
  | b0 :: s1 =>
      if in_range 0x00 0x7F b0 then utf8_valid s1 else
      match s1 with
      | [] => false
      | b1 :: s2 =>
          if in_range 0xC2 0xDF b0 then in_range 0x80 0xBF b1 && utf8_valid s2 else
          match s2 with
          | [] => false
          | b2 :: s3 =>
              let second3 :=
                if decide (b0 = 0xE0%Z) then in_range 0xA0 0xBF b1
                else if decide (b0 = 0xED%Z) then in_range 0x80 0x9F b1
                else in_range 0x80 0xBF b1 in
              if in_range 0xE0 0xEF b0 then second3 && in_range 0x80 0xBF b2 && utf8_valid s3 else
              match s3 with
              | [] => false
              | b3 :: s4 =>
                  let second4 :=
                    if decide (b0 = 0xF0%Z) then in_range 0x90 0xBF b1
                    else if decide (b0 = 0xF4%Z) then in_range 0x80 0x8F b1
                    else in_range 0x80 0xBF b1 in
                  in_range 0xF0 0xF4 b0 && second4 && in_range 0x80 0xBF b2
                  && in_range 0x80 0xBF b3 && utf8_valid s4
              end
          end
      end
  end.

(** * Variable-length integers, [varint.rs]

    [fuel] bounds the iterations of the loop: ten for 64 bits, nineteen for 128. *)

Fixpoint encode_varint (fuel : nat) (value : Z) : list Z :=
  match fuel with
  | O => []
  | S fuel =>
      let byte := Z.land value 0x7F in
      let value := Z.shiftr value 7 in
      if decide (value = 0%Z) then [byte] else Z.lor byte 0x80 :: encode_varint fuel value
  end.

Definition encode_u64 (value : Z) : list Z := encode_varint 10 value.
Definition encode_u128 (value : Z) : list Z := encode_varint 19 value.

Definition encode_i64 (value : Z) : list Z :=
  encode_u64 (wrap 64 (Z.lxor (Z.shiftl value 1) (Z.shiftr value 63))).
Definition encode_i128 (value : Z) : list Z :=
  encode_u128 (wrap 128 (Z.lxor (Z.shiftl value 1) (Z.shiftr value 127))).

(** * The formatter, [formatter/mod.rs] *)

Definition write_u8 (n : Z) : list Z := [TAG_U8; n].
Definition write_i8 (n : Z) : list Z := [TAG_I8; wrap 8 n].
Definition write_u16 (n : Z) : list Z := TAG_U16 :: encode_u64 n.
Definition write_i16 (n : Z) : list Z := TAG_I16 :: encode_i64 n.
Definition write_u32 (n : Z) : list Z := TAG_U32 :: encode_u64 n.
Definition write_i32 (n : Z) : list Z := TAG_I32 :: encode_i64 n.
Definition write_u64 (n : Z) : list Z := TAG_U64 :: encode_u64 n.
Definition write_i64 (n : Z) : list Z := TAG_I64 :: encode_i64 n.
Definition write_u128 (n : Z) : list Z := TAG_U128 :: encode_u128 n.
Definition write_i128 (n : Z) : list Z := TAG_I128 :: encode_i128 n.
Definition write_f32 (bits : Z) : list Z := TAG_F32 :: le_bytes 4 bits.
Definition write_f64 (bits : Z) : list Z := TAG_F64 :: le_bytes 8 bits.
Definition write_char (c : Z) : list Z := TAG_CHAR :: encode_u64 c.
Definition write_bool (b : bool) : list Z := [TAG_BOOL; if b then 1%Z else 0%Z].
Definition write_str (s : list Z) : list Z :=
  TAG_STR :: encode_u64 (wrap 64 (Z.of_nat (length s))) ++ s.
Definition write_unit : list Z := [TAG_UNIT].

(** Containers: [items] are the bytes the items' own [format] calls write. *)
Definition write_array (count : nat) (items : list Z) : list Z :=
  TAG_ARRAY :: encode_u64 (wrap 64 (Z.of_nat count)) ++ items.
Definition write_slice (count : nat) (items : list Z) : list Z :=
  TAG_SLICE :: encode_u64 (wrap 64 (Z.of_nat count)) ++ items.
Definition with_tuple (type_id field_count : Z) (f : list Z) : list Z :=
  TAG_TUPLE :: encode_u64 type_id ++ encode_u64 field_count ++ f.
Definition with_struct (type_id field_count : Z) (f : list Z) : list Z :=
  TAG_STRUCT :: encode_u64 type_id ++ encode_u64 field_count ++ f.
Definition write_field_id (field_id : Z) : list Z := encode_u64 field_id.
Definition write_stack_dump (header stack : list Z) : list Z :=
  TAG_STACK_DUMP :: header ++ le_bytes 4 (wrap 32 (Z.of_nat (length stack))) ++ stack.
Definition write_end_of_stream : list Z := [TAG_END_OF_STREAM].

(** The 72-byte register header of [stack_dump.rs]: eighteen words. *)
Definition dump_header (sp stack_top lr pc : Z) (registers : list Z) (xpsr : Z) : list Z :=
  concat (le_bytes 4 <$> [sp; stack_top; lr; pc] ++ registers ++ [xpsr]).

(** The bytes a value formats to: each constructor by its [write_] method, the
    way the [Format] instances of [builtins.rs] call them. *)
Fixpoint format_value (v : OwnedValue) : list Z :=
  match v with
  | VU8 n => write_u8 n
  | VI8 n => write_i8 n
  | VU16 n => write_u16 n
  | VI16 n => write_i16 n
  | VU32 n => write_u32 n
  | VI32 n => write_i32 n
  | VU64 n => write_u64 n
  | VI64 n => write_i64 n
  | VU128 n => write_u128 n
  | VI128 n => write_i128 n
  | VF32 b => write_f32 b
  | VF64 b => write_f64 b
  | VChar c => write_char c
  | VBool b => write_bool b
  | VStr s => write_str s
  | VUnit => write_unit
  | VArray cs => write_array (length cs) (concat (format_value <$> cs))
  | VSlice cs => write_slice (length cs) (concat (format_value <$> cs))
  | VTuple t fs => with_tuple t (Z.of_nat (length fs)) (concat (format_value <$> fs))
  | VStruct t fs =>
      with_struct t (Z.of_nat (length fs))
        (concat ((λ p, write_field_id (fst p) ++ format_value (snd p)) <$> fs))
  | VStackDump sp top lr pc regs xpsr stack =>
      write_stack_dump (dump_header sp top lr pc regs xpsr) stack
  end.

(** * The slice writer, [SliceWriter]: silent truncation *)

Record SliceWriter := mkSW { sw_buf : list Z; sw_pos : nat }.

Definition sw_write (w : SliceWriter) (bytes : list Z) : exec SliceWriter :=
  let! remaining := usub (length (sw_buf w)) (sw_pos w) in
  let n := Nat.min (length bytes) remaining in
  let! src := slice bytes 0 n in
  let! buf := copy_at (sw_buf w) (sw_pos w) src in
  Ret (mkSW buf (sw_pos w + n)).

Definition sw_written (w : SliceWriter) : exec (list Z) := slice (sw_buf w) 0 (sw_pos w).

Fixpoint sw_write_all (w : SliceWriter) (bss : list (list Z)) : exec SliceWriter :=
  match bss with
  | [] => Ret w
  | bs :: bss => let! w := sw_write w bs in sw_write_all w bss
  end.

(** [w] has been given the bytes [t]: it holds the first of them that fit. *)
Definition sw_holds (w : SliceWriter) (t : list Z) : Prop :=
  sw_pos w = Nat.min (length t) (length (sw_buf w)) ∧ take (sw_pos w) (sw_buf w) = take (length (sw_buf w)) t.

Lemma sw_write_ok w t bs : sw_holds w t →
  ∃ w', sw_write w bs = Ret w' ∧ sw_holds w' (t ++ bs) ∧ length (sw_buf w') = length (sw_buf w).
Proof.
  intros [Hp Ht]. unfold sw_write. set (N := length (sw_buf w)) in *.
  rewrite usub_ok by lia. cbn [ebind]. set (n := Nat.min (length bs) (N - sw_pos w)).
  rewrite slice_ok by lia. cbn [ebind]. rewrite drop_0, Nat.sub_0_r.
  assert (length (take n bs) = n) as Hn by (rewrite length_take; unfold n; lia).
  rewrite copy_at_ok by (rewrite Hn; unfold n; lia). cbn [ebind].
  eexists. split; [done|]. unfold sw_holds. cbn [sw_buf sw_pos].
  rewrite length_splice by (rewrite Hn; unfold n; lia). fold N. split; [|done].
  split; [rewrite length_app; unfold n; lia|]. unfold splice.
  rewrite app_assoc, take_app_length' by (rewrite length_app, Hn, length_take; lia).
  rewrite Ht, take_app. f_equal. unfold n. destruct (decide (N ≤ length t)).
  - replace (N - length t) with 0 by lia. by replace (Nat.min _ _) with 0 by lia.
  - replace (sw_pos w) with (length t) by lia. destruct (decide (length bs ≤ N - length t)).
    + rewrite Nat.min_l, firstn_all by lia. by rewrite take_ge by lia.
    + by rewrite Nat.min_r by lia.
Qed.

(** The slice writer truncates silently and nothing else: whatever is written,
    in whatever pieces, it never panics and ends up holding the longest prefix of
    the bytes written that fits its slice. *)
Theorem slice_writer_truncates buf bss :
  ∃ w, sw_write_all (mkSW buf 0) bss = Ret w ∧ length (sw_buf w) = length buf ∧
    sw_written w = Ret (take (length buf) (concat bss)).
Proof.
  assert (∀ w t, sw_holds w t → ∃ w', sw_write_all w bss = Ret w' ∧ sw_holds w' (t ++ concat bss) ∧
    length (sw_buf w') = length (sw_buf w)) as Hall.
  { induction bss as [|bs bss IH]; intros w t Hw; cbn [sw_write_all concat].
    - exists w. by rewrite app_nil_r.
    - destruct (sw_write_ok w t bs Hw) as (w1 & -> & H1 & Hl1). cbn [ebind].
      destruct (IH w1 _ H1) as (w2 & -> & H2 & Hl2). exists w2. rewrite app_assoc, Hl2, Hl1. done. }
  destruct (Hall (mkSW buf 0) []) as (w & -> & [Hp Ht] & Hl); [by split; [|cbn; rewrite take_nil]|].
  exists w. split; [done|]. split; [done|]. unfold sw_written. rewrite slice_ok by lia.
  rewrite drop_0, Nat.sub_0_r, Ht, Hl. done.
Qed.
