(* ===== verification/LogDecoder.v ===== *)
(** The host's incremental log decoder, [shared/log/src/decoder/mod.rs], and
    [decode_values] of [host/usb/src/fob_reader.rs], which drives it.

    [feed_byte] consumes one byte; the container stack is a list whose head is
    the [Vec]'s last element. [Vec::with_capacity] panics when the requested size
    exceeds [isize::MAX] bytes, and unsigned subtraction is checked. The sizes in
    memory of a value and of a struct field are parameters. *)

From S2P Require Import Prelude LogFormat.

Inductive DecodeError := InvalidTag (tag : Z) | VarintOverflow | InvalidUtf8 | InvalidChar.

Inductive FeedResult :=
  | Incomplete
  | Done (v : OwnedValue)
  | EndOfStream
  | DError (e : DecodeError).

Inductive VarintPurpose :=
  | UnsignedValue (tag : Z)
  | SignedValue (tag : Z)
  | CharValue
  | StringLength
  | ContainerLength (tag : Z)
  | TupleTypeId
  | TupleFieldCount (type_id : Z)
  | StructTypeId
  | StructFieldCount (type_id : Z)
  | StructFieldId.

Inductive State :=
  | AwaitingTag
  | ReadingSingleByte (tag : Z)
  | ReadingVarint (acc shift : Z) (purpose : VarintPurpose)
  | ReadingFixed (buf : list Z) (expected got : nat) (is_f64 : bool)
  | ReadingString (buf : list Z) (remaining : Z)
  | ReadingStackDumpHeader (buf : list Z) (pos : nat)
  | ReadingStackDumpLength (header len_buf : list Z) (pos : nat)
  | ReadingStackDumpData (header buf : list Z) (remaining : Z).

Inductive Frame :=
  | FArray (remaining : Z) (children : list OwnedValue)
  | FSlice (remaining : Z) (children : list OwnedValue)
  | FTuple (type_id remaining : Z) (fields : list OwnedValue)
  | FStruct (type_id remaining current_field_id : Z) (fields : list (Z * OwnedValue)).

Record Decoder := mkDecoder { dstate : State; dstack : list Frame }.

Definition decoder_new : Decoder := mkDecoder AwaitingTag [].

Definition ISIZE_MAX : Z := 2 ^ 63 - 1.

(** [Vec::with_capacity], for elements of [size] bytes: the empty vector. *)
Definition with_capacity {A} (size n : Z) : exec (list A) :=
  if decide (n * size <= ISIZE_MAX)%Z then Ret [] else Panic.

(** [x - 1] on an unsigned integer. *)
Definition udec (x : Z) : exec Z := if decide (x = 0%Z) then Panic else Ret (x - 1)%Z.

Section decoder.
Context (value_size field_size : Z).

(** [complete_value]: a value ends, and with it every container it was the last
    element of. *)
Fixpoint complete_value (stack : list Frame) (value : OwnedValue) : exec (FeedResult * Decoder) :=
  match stack with
  | [] => Ret (Done value, mkDecoder AwaitingTag [])
  | FArray remaining children :: rest =>
      let children := children ++ [value] in
      let! remaining := udec remaining in
      if decide (remaining = 0%Z) then complete_value rest (VArray children)
      else Ret (Incomplete, mkDecoder AwaitingTag (FArray remaining children :: rest))
  | FSlice remaining children :: rest =>
      let children := children ++ [value] in
      let! remaining := udec remaining in
      if decide (remaining = 0%Z) then complete_value rest (VSlice children)
      else Ret (Incomplete, mkDecoder AwaitingTag (FSlice remaining children :: rest))
  | FTuple type_id remaining fields :: rest =>
      let fields := fields ++ [value] in
      let! remaining := udec remaining in
      if decide (remaining = 0%Z) then complete_value rest (VTuple type_id fields)
      else Ret (Incomplete, mkDecoder AwaitingTag (FTuple type_id remaining fields :: rest))
  | FStruct type_id remaining fid fields :: rest =>
      let fields := fields ++ [(fid, value)] in
      let! remaining := udec remaining in
      if decide (remaining = 0%Z) then complete_value rest (VStruct type_id fields)
      else Ret (Incomplete, mkDecoder (ReadingVarint 0 0 StructFieldId)
                              (FStruct type_id remaining fid fields :: rest))
  end.

(** [u32_at] of [stack_dump_from_header]. *)
Definition u32_at (header : list Z) (off : nat) : exec Z :=
  let! b := slice header off (off + 4) in Ret (le_val b).

Fixpoint registers_from (header : list Z) (n i : nat) : exec (list Z) :=
  match n with
  | O => Ret []
  | S n =>
      let! r := u32_at header (16 + i * 4) in
      let! rs := registers_from header n (S i) in
      Ret (r :: rs)
  end.

Definition stack_dump_from_header (header stack : list Z) : exec OwnedValue :=
  let! sp := u32_at header 0 in
  let! stack_top := u32_at header 4 in
  let! lr := u32_at header 8 in
  let! pc := u32_at header 12 in
  let! registers := registers_from header 13 0 in
  let! xpsr := u32_at header 68 in
  Ret (VStackDump sp stack_top lr pc registers xpsr stack).

Definition goto (s : State) (stack : list Frame) : exec (FeedResult * Decoder) :=
  Ret (Incomplete, mkDecoder s stack).
Definition fail_with (e : DecodeError) (stack : list Frame) : exec (FeedResult * Decoder) :=
  Ret (DError e, mkDecoder AwaitingTag stack).

Definition handle_tag (stack : list Frame) (tag : Z) : exec (FeedResult * Decoder) :=
  let among (ts : list Z) := bool_decide (Exists (eq tag) ts) in
  if among [TAG_UNIT] then complete_value stack VUnit
  else if among [TAG_BOOL; TAG_U8; TAG_I8] then goto (ReadingSingleByte tag) stack
  else if among [TAG_U16; TAG_U32; TAG_U64; TAG_U128] then
    goto (ReadingVarint 0 0 (UnsignedValue tag)) stack
  else if among [TAG_I16; TAG_I32; TAG_I64; TAG_I128] then
    goto (ReadingVarint 0 0 (SignedValue tag)) stack
  else if among [TAG_F32] then goto (ReadingFixed (replicate 8 0%Z) 4 0 false) stack
  else if among [TAG_F64] then goto (ReadingFixed (replicate 8 0%Z) 8 0 true) stack
  else if among [TAG_CHAR] then goto (ReadingVarint 0 0 CharValue) stack
  else if among [TAG_STR] then goto (ReadingVarint 0 0 StringLength) stack
  else if among [TAG_ARRAY; TAG_SLICE] then goto (ReadingVarint 0 0 (ContainerLength tag)) stack
  else if among [TAG_TUPLE] then goto (ReadingVarint 0 0 TupleTypeId) stack
  else if among [TAG_STRUCT] then goto (ReadingVarint 0 0 StructTypeId) stack
  else if among [TAG_STACK_DUMP] then goto (ReadingStackDumpHeader (replicate 72 0%Z) 0) stack
  else if among [TAG_END_OF_STREAM] then Ret (EndOfStream, mkDecoder AwaitingTag stack)
  else fail_with (InvalidTag tag) stack.

(** [(zz >> 1) as i64 ^ -((zz & 1) as i64)], at width [w]. *)
Definition unzigzag (w zz : Z) : Z :=
  to_signed w (Z.lxor (to_signed w (Z.shiftr zz 1)) (- Z.land zz 1)).

Definition handle_varint_complete (stack : list Frame) (raw : Z) (purpose : VarintPurpose)
  : exec (FeedResult * Decoder) :=
  match purpose with
  | UnsignedValue tag =>
      if decide (tag = TAG_U16) then complete_value stack (VU16 (wrap 16 raw))
      else if decide (tag = TAG_U32) then complete_value stack (VU32 (wrap 32 raw))
      else if decide (tag = TAG_U64) then complete_value stack (VU64 (wrap 64 raw))
      else if decide (tag = TAG_U128) then complete_value stack (VU128 raw)
      else Panic
  | SignedValue tag =>
      if decide (tag = TAG_I16) then
        complete_value stack (VI16 (to_signed 16 (unzigzag 64 (wrap 64 raw))))
      else if decide (tag = TAG_I32) then
        complete_value stack (VI32 (to_signed 32 (unzigzag 64 (wrap 64 raw))))
      else if decide (tag = TAG_I64) then complete_value stack (VI64 (unzigzag 64 (wrap 64 raw)))
      else if decide (tag = TAG_I128) then complete_value stack (VI128 (unzigzag 128 raw))
      else Panic
  | CharValue =>
      let c := wrap 32 raw in
      if is_char c then complete_value stack (VChar c) else fail_with InvalidChar stack
  | StringLength =>
      if decide (raw = 0%Z) then complete_value stack (VStr []) else
      let! buf := with_capacity 1 (wrap 64 raw) in
      goto (ReadingString buf (wrap 64 raw)) stack
  | ContainerLength tag =>
      let count := wrap 64 raw in
      if decide (count = 0%Z) then
        complete_value stack (if decide (tag = TAG_ARRAY) then VArray [] else VSlice [])
      else
        let! children := with_capacity value_size count in
        goto AwaitingTag
          ((if decide (tag = TAG_ARRAY) then FArray count children else FSlice count children) :: stack)
  | TupleTypeId => goto (ReadingVarint 0 0 (TupleFieldCount (wrap 64 raw))) stack
  | TupleFieldCount type_id =>
      let count := wrap 64 raw in
      if decide (count = 0%Z) then complete_value stack (VTuple type_id []) else
      let! fields := with_capacity value_size count in
      goto AwaitingTag (FTuple type_id count fields :: stack)
  | StructTypeId => goto (ReadingVarint 0 0 (StructFieldCount (wrap 64 raw))) stack
  | StructFieldCount type_id =>
      let count := wrap 64 raw in
      if decide (count = 0%Z) then complete_value stack (VStruct type_id []) else
      let! fields := with_capacity field_size count in
      goto (ReadingVarint 0 0 StructFieldId) (FStruct type_id count 0 fields :: stack)
  | StructFieldId =>
      goto AwaitingTag
        match stack with
        | FStruct t r _ fs :: rest => FStruct t r (wrap 64 raw) fs :: rest
        | _ => stack
        end
  end.

Definition feed_byte (d : Decoder) (byte : Z) : exec (FeedResult * Decoder) :=
  let stack := dstack d in
  match dstate d with
  | AwaitingTag => handle_tag stack byte
  | ReadingSingleByte tag =>
      if decide (tag = TAG_BOOL) then complete_value stack (VBool (negb (bool_decide (byte = 0%Z))))
      else if decide (tag = TAG_U8) then complete_value stack (VU8 byte)
      else if decide (tag = TAG_I8) then complete_value stack (VI8 (to_signed 8 byte))
      else fail_with (InvalidTag tag) stack
  | ReadingVarint acc shift purpose =>
      let value := Z.land byte 0x7F in
      if decide (128 <= shift)%Z then fail_with VarintOverflow stack else
      let acc := Z.lor acc (wrap 128 (Z.shiftl value shift)) in
      if decide (Z.land byte 0x80 ≠ 0%Z) then goto (ReadingVarint acc (shift + 7) purpose) stack
      else handle_varint_complete stack acc purpose
  | ReadingFixed buf expected got is_f64 =>
      let! buf := set_idx buf got byte in
      let got := S got in
      if decide (got < expected) then goto (ReadingFixed buf expected got is_f64) stack
      else if (is_f64 : bool) then complete_value stack (VF64 (le_val buf))
      else let! b4 := slice buf 0 4 in complete_value stack (VF32 (le_val b4))
  | ReadingString buf remaining =>
      let buf := buf ++ [byte] in
      let! remaining := udec remaining in
      if decide (0 < remaining)%Z then goto (ReadingString buf remaining) stack
      else if utf8_valid buf then complete_value stack (VStr buf)
      else fail_with InvalidUtf8 stack
  | ReadingStackDumpHeader buf pos =>
      let! buf := set_idx buf pos byte in
      let pos := S pos in
      if decide (pos < 72) then goto (ReadingStackDumpHeader buf pos) stack
      else goto (ReadingStackDumpLength buf (replicate 4 0%Z) 0) stack
  | ReadingStackDumpLength header len_buf pos =>
      let! len_buf := set_idx len_buf pos byte in
      let pos := S pos in
      if decide (pos < 4) then goto (ReadingStackDumpLength header len_buf pos) stack else
      let remaining := le_val len_buf in
      if decide (remaining = 0%Z) then
        let! v := stack_dump_from_header header [] in complete_value stack v
      else
        let! buf := with_capacity 1 remaining in
        goto (ReadingStackDumpData header buf remaining) stack
  | ReadingStackDumpData header buf remaining =>
      let buf := buf ++ [byte] in
      let! remaining := udec remaining in
      if decide (0 < remaining)%Z then goto (ReadingStackDumpData header buf remaining) stack
      else let! v := stack_dump_from_header header buf in complete_value stack v
  end.

(** [feed]: the number of bytes consumed, the result and the decoder; [i] bytes
    have been consumed before. *)
Fixpoint feed_from (d : Decoder) (i : nat) (bytes : list Z) : exec (nat * FeedResult * Decoder) :=
  match bytes with
  | [] => Ret (i, Incomplete, d)
  | b :: bytes =>
      let! r := feed_byte d b in
      match fst r with
      | Incomplete => feed_from (snd r) (S i) bytes
      | result => Ret (S i, result, snd r)
      end
  end.

Definition feed (d : Decoder) (bytes : list Z) : exec (nat * FeedResult * Decoder) :=
  feed_from d 0 bytes.

(** [decode_values]: the arguments of a log entry, and how many decode errors
    were reported. [fuel] bounds the iterations, each of which consumes a byte. *)
Fixpoint decode_loop (fuel : nat) (d : Decoder) (remaining : list Z) (values : list OwnedValue)
    (errors : nat) : exec (list OwnedValue * nat) :=
  match fuel with
  | O => Panic
  | S fuel =>
      if decide (remaining = []) then Ret (values, errors) else
      let! r := feed d remaining in
      let '(consumed, result, d) := r in
      let! remaining := slice remaining consumed (length remaining) in
      match result with
      | Done value => decode_loop fuel d remaining (values ++ [value]) errors
      | EndOfStream => Ret (values, errors)
      | Incomplete =>
          if decide (consumed = 0) then Ret (values, errors)
          else decode_loop fuel d remaining values errors
      | DError _ =>
          if decide (consumed = 0) then Ret (values, S errors)
          else decode_loop fuel d remaining values (S errors)
      end
  end.

Definition decode_values (data : list Z) : exec (list OwnedValue * nat) :=
  decode_loop (S (length data)) decoder_new data [] 0.
End decoder.

(** * Variable-length integers *)

Lemma low7_bits b : (0 <= b < 128)%Z →
  Z.land (Z.lor b 128) 127 = b ∧ Z.land (Z.lor b 128) 128 = 128%Z ∧
  Z.land b 127 = b ∧ Z.land b 128 = 0%Z.
Proof.
  intros Hb. assert (Forall (λ b, Z.land (Z.lor b 128) 127 = b ∧ Z.land (Z.lor b 128) 128 = 128%Z ∧
    Z.land b 127 = b ∧ Z.land b 128 = 0%Z) (seqZ 0 128)) as H.
  { apply (bool_decide_unpack _). vm_compute. exact I. }
  apply (Forall_lookup_1 _ _ (Z.to_nat b) b) in H; [done|].
  rewrite lookup_seqZ_lt by lia. f_equal. lia.
Qed.

(** Joining the bits below [s] with a multiple of [2^s]. *)
Lemma lor_shift acc v s : (0 <= s)%Z → (0 <= acc < 2 ^ s)%Z → (0 <= v)%Z →
  Z.lor acc (Z.shiftl v s) = (acc + v * 2 ^ s)%Z.
Proof.
  intros Hs Ha Hv. rewrite <- Z.shiftl_mul_pow2 by lia. symmetry. apply Z.add_nocarry_lor.
  apply Z.bits_inj'. intros n Hn. rewrite Z.land_spec, Z.bits_0.
  destruct (Z.ltb_spec n s).
  - by rewrite Z.shiftl_spec_low, andb_false_r.
  - destruct (decide (acc = 0%Z)) as [->|]; [by rewrite Z.bits_0|].
    rewrite (Z.bits_above_log2 acc n); [done|lia|].
    apply Z.log2_lt_pow2; [lia|]. eapply Z.lt_le_trans; [apply Ha|]. apply Z.pow_le_mono_r; lia.
Qed.

Section decoding.
Context (value_size field_size : Z).
Abbreviation feed_from := (feed_from value_size field_size).
Abbreviation feed_byte := (feed_byte value_size field_size).
Abbreviation handle_varint_complete := (handle_varint_complete value_size field_size).

(** Going on with [rest] after a step, [i] bytes having been consumed. *)
Definition resume (m : exec (FeedResult * Decoder)) (i : nat) (rest : list Z)
  : exec (nat * FeedResult * Decoder) :=
  let! r := m in
  match fst r with
  | Incomplete => feed_from (snd r) i rest
  | result => Ret (i, result, snd r)
  end.

Lemma feed_from_cons d i b rest : feed_from d i (b :: rest) = resume (feed_byte d b) (S i) rest.
Proof. reflexivity. Qed.

Lemma resume_goto s stack i rest :
  resume (goto s stack) i rest = feed_from (mkDecoder s stack) i rest.
Proof. reflexivity. Qed.

Lemma feed_varint fuel v acc shift purpose stack i rest :
  fuel ≠ 0 →
  (0 <= v < 2 ^ (7 * Z.of_nat fuel))%Z → (0 <= shift < 128)%Z → (v * 2 ^ shift < 2 ^ 128)%Z →
  (0 <= acc < 2 ^ shift)%Z →
  feed_from (mkDecoder (ReadingVarint acc shift purpose) stack) i (encode_varint fuel v ++ rest) =
    resume (handle_varint_complete stack (acc + v * 2 ^ shift) purpose)
           (i + length (encode_varint fuel v)) rest.
Proof.
  revert v acc shift i. induction fuel as [|fuel IH]; intros v acc shift i Hf Hv Hs Hmax Hacc; [done|].
  rewrite Nat2Z.inj_succ in Hv. replace (7 * Z.succ (Z.of_nat fuel))%Z with (7 + 7 * Z.of_nat fuel)%Z in Hv by lia.
  rewrite Z.pow_add_r in Hv by lia. change (2 ^ 7)%Z with 128%Z in Hv.
  assert (Z.land v 127 = v mod 128)%Z as Hb by (change 127%Z with (Z.ones 7); by rewrite Z.land_ones).
  assert (Z.shiftr v 7 = v / 128)%Z as Hsr by (by rewrite Z.shiftr_div_pow2).
  cbn [encode_varint]. change 0x7F%Z with 127%Z. change 0x80%Z with 128%Z. rewrite Hb, Hsr.
  assert (0 <= v mod 128 < 128)%Z as Hm by (apply Z.mod_pos_bound; lia).
  destruct (low7_bits (v mod 128) Hm) as (B1 & B2 & B3 & B4).
  assert (wrap 128 (Z.shiftl (v mod 128) shift) = Z.shiftl (v mod 128) shift) as Hw.
  { apply wrap_small. unfold is_u. rewrite Z.shiftl_mul_pow2 by lia.
    pose proof (Z.mod_le v 128). assert (0 < 2 ^ shift)%Z by (apply Z.pow_pos_nonneg; lia). nia. }
  case_decide as Hz.
  - cbn [app length]. rewrite feed_from_cons, Nat.add_1_r. f_equal. unfold LogDecoder.feed_byte. cbn [dstack dstate].
    change 0x7F%Z with 127%Z. change 0x80%Z with 128%Z. rewrite B3, B4, decide_False by lia.
    rewrite decide_False by lia. rewrite Hw, lor_shift by lia.
    assert (v mod 128 = v)%Z as -> by dlia. done.
  - cbn [app length]. rewrite feed_from_cons. unfold LogDecoder.feed_byte at 1. cbn [dstack dstate].
    change 0x7F%Z with 127%Z. change 0x80%Z with 128%Z. rewrite B1, B2, decide_False by lia.
    rewrite decide_True by lia. rewrite resume_goto, Hw, lor_shift by lia.
    assert (0 < 2 ^ shift)%Z as Hpos by (apply Z.pow_pos_nonneg; lia).
    assert (2 ^ (shift + 7) = 2 ^ shift * 128)%Z as Hpow by (rewrite Z.pow_add_r by lia; done).
    pose proof (Z.div_mod v 128 ltac:(lia)) as Hdm.
    assert (0 <= v / 128)%Z by (apply Z.div_pos; lia).
    rewrite IH.
    + rewrite Hpow. f_equal; [f_equal; nia|lia].
    + intros ->. apply Hz. apply Z.div_small. lia.
    + split; [lia|]. apply Z.div_lt_upper_bound; lia.
    + split; [lia|]. destruct (decide (128 <= shift + 7)%Z); [|lia]. exfalso.
      assert (2 ^ 128 <= 2 ^ (shift + 7))%Z by (apply Z.pow_le_mono_r; lia). nia.
    + rewrite Hpow. nia.
    + rewrite Hpow. nia.
Qed.
End decoding.
