(* ===== verification/LogCodec.v ===== *)
(** The log codec's round trip: what the device's [Formatter] writes, the host's
    [Decoder] reads back, however the bytes are cut into chunks.

    [value_ok] is what the Rust types of a value guarantee, with the sizes that
    [Vec::with_capacity] accepts. *)

From S2P Require Import Prelude LogFormat LogDecoder.

(** * Induction on values *)

Definition is_container (v : OwnedValue) : bool :=
  match v with VArray _ | VSlice _ | VTuple _ _ | VStruct _ _ => true | _ => false end.

Section value_induction.
Context (P : OwnedValue → Prop).
Hypothesis leaf : ∀ v, is_container v = false → P v.
Hypothesis array : ∀ cs, Forall P cs → P (VArray cs).
Hypothesis slice : ∀ cs, Forall P cs → P (VSlice cs).
Hypothesis tuple : ∀ t fs, Forall P fs → P (VTuple t fs).
Hypothesis struct : ∀ t fs, Forall (λ p, P (snd p)) fs → P (VStruct t fs).

Fixpoint OwnedValue_nested_ind (v : OwnedValue) : P v.
Proof.
  destruct v as [| | | | | | | | | | | | | | | |cs|cs|t fs|t fs|]; try (apply leaf; reflexivity).
  - apply array. induction cs; constructor; auto.
  - apply slice. induction cs; constructor; auto.
  - apply tuple. induction fs; constructor; auto.
  - apply struct. induction fs; constructor; auto.
Qed.
End value_induction.

(** * Zigzag *)

Definition zigzag (w v : Z) : Z := wrap w (Z.lxor (Z.shiftl v 1) (Z.shiftr v (w - 1))).

Lemma lxor_m1 x : Z.lxor x (-1) = (- x - 1)%Z.
Proof. rewrite Z.lxor_m1_r. unfold Z.lnot. lia. Qed.

Lemma zigzag_spec w v : (1 < w)%Z → is_i w v →
  zigzag w v = if decide (0 <= v)%Z then (2 * v)%Z else (- 2 * v - 1)%Z.
Proof.
  unfold is_i, zigzag. intros Hw Hv. rewrite Z.shiftl_mul_pow2 by lia. change (2 ^ 1)%Z with 2%Z.
  assert (2 ^ w = 2 * 2 ^ (w - 1))%Z as Hp by (rewrite <- Z.pow_succ_r by lia; f_equal; lia).
  rewrite Z.shiftr_div_pow2 by lia. case_decide.
  - rewrite Z.div_small by lia. rewrite Z.lxor_0_r. rewrite wrap_small; [lia|unfold is_u; lia].
  - assert (v / 2 ^ (w - 1) = -1)%Z as ->.
    { symmetry. apply (Z.div_unique_pos _ _ _ (v + 2 ^ (w - 1))); lia. }
    rewrite lxor_m1. rewrite wrap_small; [lia|unfold is_u; lia].
Qed.

Lemma zigzag_is_u w v : (0 <= w)%Z → is_u w (zigzag w v).
Proof. apply wrap_is_u. Qed.

Lemma to_signed_id w v : (1 < w)%Z → is_i w v → to_signed w v = v.
Proof.
  unfold is_i, to_signed. intros Hw Hv.
  assert (2 ^ w = 2 * 2 ^ (w - 1))%Z as Hp by (rewrite <- Z.pow_succ_r by lia; f_equal; lia).
  destruct (decide (0 <= v)%Z).
  - rewrite wrap_small by (unfold is_u; lia). destruct (Z.ltb_spec v (2 ^ (w - 1))); lia.
  - assert (wrap w v = v + 2 ^ w)%Z as ->.
    { unfold wrap. symmetry. apply (Z.mod_unique_pos _ _ (-1)); lia. }
    destruct (Z.ltb_spec (v + 2 ^ w) (2 ^ (w - 1))); lia.
Qed.

Lemma is_i_mono w w' v : (0 < w <= w')%Z → is_i w v → is_i w' v.
Proof.
  unfold is_i. intros Hw Hv. assert (2 ^ (w - 1) <= 2 ^ (w' - 1))%Z by (apply Z.pow_le_mono_r; lia). lia.
Qed.

Lemma is_u_mono w w' v : (0 <= w <= w')%Z → is_u w v → is_u w' v.
Proof.
  unfold is_u. intros Hw Hv. assert (2 ^ w <= 2 ^ w')%Z by (apply Z.pow_le_mono_r; lia). lia.
Qed.

Lemma land_1 z : Z.land z 1 = (z mod 2)%Z.
Proof. change 1%Z with (Z.ones 1). by rewrite Z.land_ones. Qed.

Lemma unzigzag_zigzag w v : (1 < w)%Z → is_i w v → unzigzag w (zigzag w v) = v.
Proof.
  intros Hw Hv. rewrite zigzag_spec by done. unfold unzigzag. rewrite Z.shiftr_div_pow2 by lia.
  change (2 ^ 1)%Z with 2%Z. rewrite land_1.
  unfold is_i in Hv. case_decide.
  - assert (2 * v / 2 = v)%Z as -> by dlia. assert ((2 * v) mod 2 = 0)%Z as -> by dlia.
    rewrite Z.lxor_0_r. by rewrite !to_signed_id by (unfold is_i in *; rewrite ?to_signed_id; unfold is_i; lia).
  - assert ((-2 * v - 1) / 2 = - v - 1)%Z as -> by dlia.
    assert ((-2 * v - 1) mod 2 = 1)%Z as -> by dlia. change (- (1))%Z with (-1)%Z.
    rewrite lxor_m1, (to_signed_id w (- v - 1)) by (unfold is_i; lia).
    rewrite to_signed_id; unfold is_i; lia.
Qed.

(** * Well-formed values *)

#[export] Instance is_i_dec w x : Decision (is_i w x).
Proof. unfold is_i. apply _. Defined.

#[export] Instance bytes_ok_dec l : Decision (bytes_ok l).
Proof. unfold bytes_ok. apply _. Defined.

Section codec.
Context (value_size field_size : Z).

Fixpoint value_ok (v : OwnedValue) : bool :=
  match v with
  | VU8 n => bool_decide (is_u 8 n)
  | VI8 n => bool_decide (is_i 8 n)
  | VU16 n => bool_decide (is_u 16 n)
  | VI16 n => bool_decide (is_i 16 n)
  | VU32 n => bool_decide (is_u 32 n)
  | VI32 n => bool_decide (is_i 32 n)
  | VU64 n => bool_decide (is_u 64 n)
  | VI64 n => bool_decide (is_i 64 n)
  | VU128 n => bool_decide (is_u 128 n)
  | VI128 n => bool_decide (is_i 128 n)
  | VF32 b => bool_decide (is_u 32 b)
  | VF64 b => bool_decide (is_u 64 b)
  | VChar c => is_char c
  | VBool _ | VUnit => true
  | VStr s => utf8_valid s && bool_decide (Z.of_nat (length s) <= ISIZE_MAX)%Z
  | VArray cs | VSlice cs =>
      bool_decide (Z.of_nat (length cs) * value_size <= ISIZE_MAX)%Z && forallb value_ok cs
  | VTuple t fs =>
      bool_decide (is_u 64 t) && bool_decide (Z.of_nat (length fs) * value_size <= ISIZE_MAX)%Z &&
      forallb value_ok fs
  | VStruct t fs =>
      bool_decide (is_u 64 t) && bool_decide (Z.of_nat (length fs) * field_size <= ISIZE_MAX)%Z &&
      forallb (λ p, bool_decide (is_u 64 (fst p)) && value_ok (snd p)) fs
  | VStackDump sp top lr pc regs xpsr stack =>
      bool_decide (length regs = 13) &&
      bool_decide (Forall (is_u 32) ([sp; top; lr; pc] ++ regs ++ [xpsr])) &&
      bool_decide (is_u 32 (Z.of_nat (length stack))) && bool_decide (bytes_ok stack)
  end.

Hypothesis value_size_pos : (0 < value_size)%Z.
Hypothesis field_size_pos : (0 < field_size)%Z.

Abbreviation feed_from := (feed_from value_size field_size).
Abbreviation resume := (resume value_size field_size).
Abbreviation handle_varint_complete := (handle_varint_complete value_size field_size).

Lemma with_capacity_ok {A} size n : (n * size <= ISIZE_MAX)%Z → with_capacity (A:=A) size n = Ret [].
Proof. intros. unfold with_capacity. by rewrite decide_True. Qed.

(** A complete variable-length integer. *)
Lemma feed_u64 v purpose stack i rest : is_u 64 v →
  feed_from (mkDecoder (ReadingVarint 0 0 purpose) stack) i (encode_u64 v ++ rest) =
    resume (handle_varint_complete stack v purpose) (i + length (encode_u64 v)) rest.
Proof.
  unfold is_u. intros Hv. unfold encode_u64. rewrite feed_varint; [|lia..]. by rewrite Z.mul_1_r.
Qed.

Lemma feed_u128 v purpose stack i rest : is_u 128 v →
  feed_from (mkDecoder (ReadingVarint 0 0 purpose) stack) i (encode_u128 v ++ rest) =
    resume (handle_varint_complete stack v purpose) (i + length (encode_u128 v)) rest.
Proof.
  unfold is_u. intros Hv. unfold encode_u128. rewrite feed_varint; [|lia..]. by rewrite Z.mul_1_r.
Qed.

(** Bytes of a string, and of a stack dump's stack. *)
Lemma feed_string s buf stack i rest : s ≠ [] →
  feed_from (mkDecoder (ReadingString buf (Z.of_nat (length s))) stack) i (s ++ rest) =
    resume (if utf8_valid (buf ++ s) then complete_value stack (VStr (buf ++ s))
            else fail_with InvalidUtf8 stack) (i + length s) rest.
Proof.
  revert buf i. induction s as [|b s IH]; intros buf i Hs; [done|].
  cbn [app length]. rewrite feed_from_cons. unfold feed_byte. cbn [dstate dstack].
  unfold udec. rewrite decide_False by lia. cbn [ebind].
  destruct s as [|b' s].
  - cbn [length]. rewrite decide_False by lia. by rewrite Nat.add_1_r.
  - rewrite decide_True by (cbn [length]; lia). rewrite resume_goto.
    replace (Z.of_nat (S (length (b' :: s))) - 1)%Z with (Z.of_nat (length (b' :: s))) by lia.
    rewrite IH by done. rewrite <- app_assoc. cbn [app length]. f_equal. lia.
Qed.

Lemma feed_dump_data s header buf stack i rest : s ≠ [] →
  feed_from (mkDecoder (ReadingStackDumpData header buf (Z.of_nat (length s))) stack) i (s ++ rest) =
    resume (let! v := stack_dump_from_header header (buf ++ s) in complete_value stack v)
           (i + length s) rest.
Proof.
  revert buf i. induction s as [|b s IH]; intros buf i Hs; [done|].
  cbn [app length]. rewrite feed_from_cons. unfold feed_byte. cbn [dstate dstack].
  unfold udec. rewrite decide_False by lia. cbn [ebind].
  destruct s as [|b' s].
  - cbn [length]. rewrite decide_False by lia. by rewrite Nat.add_1_r.
  - rewrite decide_True by (cbn [length]; lia). rewrite resume_goto.
    replace (Z.of_nat (S (length (b' :: s))) - 1)%Z with (Z.of_nat (length (b' :: s))) by lia.
    rewrite IH by done. rewrite <- app_assoc. cbn [app length]. f_equal. lia.
Qed.

(** The 72-byte header of a stack dump. *)
Lemma feed_dump_header bs pre tail stack i rest :
  bs ≠ [] → length pre + length bs = 72 → length tail = length bs →
  feed_from (mkDecoder (ReadingStackDumpHeader (pre ++ tail) (length pre)) stack) i (bs ++ rest) =
    feed_from (mkDecoder (ReadingStackDumpLength (pre ++ bs) (replicate 4 0%Z) 0) stack)
              (i + length bs) rest.
Proof.
  revert pre tail i. induction bs as [|b bs IH]; intros pre tail i Hbs Hl Ht; [done|].
  cbn [app length] in *. rewrite feed_from_cons. unfold feed_byte. cbn [dstate dstack].
  rewrite set_idx_app by lia. cbn [ebind]. destruct tail as [|t tail]; [done|]. cbn [drop].
  destruct bs as [|b' bs].
  - cbn [length] in *. rewrite decide_False by lia. rewrite resume_goto.
    destruct tail; [|done]. rewrite app_nil_r. f_equal; lia.
  - rewrite decide_True by (cbn [length] in *; lia). rewrite resume_goto.
    replace (S (length pre)) with (length (pre ++ [b])) by len.
    rewrite IH; [|done|len..]. rewrite <- app_assoc. cbn [app length]. f_equal. lia.
Qed.

(** The words of a dump's header. *)
Lemma drop_words k ws : drop (4 * k) (concat (le_bytes 4 <$> ws)) = concat (le_bytes 4 <$> drop k ws).
Proof.
  revert ws. induction k as [|k IH]; intros ws; [done|]. destruct ws as [|w ws]; [by rewrite drop_nil|].
  rewrite fmap_cons. cbn [concat skipn]. rewrite <- IH, drop_app_ge by len. f_equal. len.
Qed.

Lemma length_words ws : length (concat (le_bytes 4 <$> ws)) = 4 * length ws.
Proof.
  induction ws as [|w ws IH]; [done|]. rewrite fmap_cons. cbn [concat]. rewrite length_app, IH. len.
Qed.

Lemma u32_at_word ws off k w : off = 4 * k → Forall (is_u 32) ws → ws !! k = Some w →
  u32_at (concat (le_bytes 4 <$> ws)) off = Ret w.
Proof.
  intros -> Hws Hk. pose proof (lookup_lt_Some _ _ _ Hk). unfold u32_at.
  rewrite slice_ok by (rewrite ?length_words; lia). cbn [ebind]. f_equal.
  rewrite drop_words, (drop_S _ _ _ Hk), fmap_cons. cbn [concat].
  rewrite take_app_length' by len. apply le_roundtrip. by eapply Forall_lookup_1 in Hk.
Qed.

Lemma registers_from_words ws n i : Forall (is_u 32) ws → 4 + i + n ≤ length ws →
  registers_from (concat (le_bytes 4 <$> ws)) n i = Ret (take n (drop (4 + i) ws)).
Proof.
  intros Hws. revert i. induction n as [|n IH]; intros i Hn; cbn [registers_from]; [done|].
  destruct (lookup_lt_is_Some_2 ws (4 + i)) as [w Hw]; [lia|].
  rewrite (u32_at_word _ _ (4 + i) w) by (done || lia).
  cbn [ebind]. rewrite IH by lia. cbn [ebind]. by rewrite (drop_S _ _ _ Hw).
Qed.

Lemma stack_dump_header sp top lr pc regs xpsr stack :
  length regs = 13 → Forall (is_u 32) ([sp; top; lr; pc] ++ regs ++ [xpsr]) →
  stack_dump_from_header (dump_header sp top lr pc regs xpsr) stack =
    Ret (VStackDump sp top lr pc regs xpsr stack).
Proof.
  intros Hr Hws. unfold stack_dump_from_header, dump_header.
  set (ws := [sp; top; lr; pc] ++ regs ++ [xpsr]) in *.
  rewrite (u32_at_word ws 0 0 sp), (u32_at_word ws 4 1 top), (u32_at_word ws 8 2 lr),
    (u32_at_word ws 12 3 pc) by done. cbn [ebind].
  rewrite (registers_from_words ws 13 0) by (done || (unfold ws; len)). cbn [ebind].
  rewrite (u32_at_word ws 68 17 xpsr); [|done|done|].
  - cbn [ebind]. do 2 f_equal. unfold ws. by apply take_app_length'.
  - unfold ws. rewrite lookup_app_r by (cbn; lia). cbn [length]. rewrite lookup_app_r by lia. by rewrite Hr.
Qed.

(** A value is read back from its encoding, wherever it stands. *)
Definition reads (v : OwnedValue) : Prop := ∀ stack i rest,
  feed_from (mkDecoder AwaitingTag stack) i (format_value v ++ rest) =
    resume (complete_value stack v) (i + length (format_value v)) rest.

Lemma feed_tag tag s stack i bs : handle_tag stack tag = goto s stack →
  feed_from (mkDecoder AwaitingTag stack) i (tag :: bs) = feed_from (mkDecoder s stack) (S i) bs.
Proof. intros H. rewrite feed_from_cons. unfold feed_byte. cbn [dstate dstack]. by rewrite H, resume_goto. Qed.

Lemma feed_dump_length header bs stack i rest : length bs = 4 →
  feed_from (mkDecoder (ReadingStackDumpLength header (replicate 4 0%Z) 0) stack) i (bs ++ rest) =
  resume (let remaining := le_val bs in
    if decide (remaining = 0%Z) then
      let! v := stack_dump_from_header header [] in complete_value stack v
    else
      let! buf := with_capacity 1 remaining in
      goto (ReadingStackDumpData header buf remaining) stack) (4 + i) rest.
Proof. destruct bs as [|b0 [|b1 [|b2 [|b3 [|]]]]]; try discriminate. reflexivity. Qed.

Lemma reads_dump sp top lr pc regs xpsr stk :
  value_ok (VStackDump sp top lr pc regs xpsr stk) → reads (VStackDump sp top lr pc regs xpsr stk).
Proof.
  cbn [value_ok]. intros [[[H1%bool_decide_spec H2%bool_decide_spec]%andb_True H3%bool_decide_spec]%andb_True _]%andb_True.
  intros stack i rest. cbn [format_value]. unfold write_stack_dump. cbn [app].
  erewrite feed_tag by reflexivity. rewrite <- app_assoc.
  assert (length (dump_header sp top lr pc regs xpsr) = 72) as Hlh
    by (unfold dump_header; rewrite length_words; len).
  rewrite (feed_dump_header _ [] (replicate 72 0%Z)); [|by intros E; rewrite E in Hlh|done|by rewrite Hlh].
  rewrite app_nil_l, (wrap_small 32) by done. pose proof (le_roundtrip 4 _ H3) as Hle.
  rewrite <- app_assoc. rewrite feed_dump_length by len. rewrite Hle. cbn zeta.
  destruct stk as [|b stk].
  - rewrite decide_True by done. rewrite stack_dump_header by done. cbn [ebind]. f_equal. len.
  - rewrite decide_False by done. unfold is_u in H3. rewrite with_capacity_ok by (unfold ISIZE_MAX; lia).
    cbn [ebind]. rewrite resume_goto, feed_dump_data by done. cbn [app].
    rewrite stack_dump_header by done. cbn [ebind]. f_equal. len.
Qed.

(** A value that is a tag and one variable-length integer. *)
Lemma reads_varint v tag purpose raw bs :
  format_value v = tag :: bs →
  (∀ stack, handle_tag stack tag = goto (ReadingVarint 0 0 purpose) stack) →
  bs = encode_u64 raw ∧ is_u 64 raw ∨ bs = encode_u128 raw ∧ is_u 128 raw →
  (∀ stack, handle_varint_complete stack raw purpose = complete_value stack v) →
  reads v.
Proof.
  intros Hf Ht Hbs Hv stack i rest. rewrite Hf. cbn [app length]. rewrite (feed_tag _ _ _ _ _ (Ht stack)).
  destruct Hbs as [[-> ?]|[-> ?]]; [rewrite feed_u64 by done|rewrite feed_u128 by done];
    rewrite Hv; f_equal; lia.
Qed.

Lemma zigzag_64 w v : (1 < w <= 64)%Z → is_i w v →
  unzigzag 64 (wrap 64 (zigzag 64 v)) = v ∧ to_signed w v = v.
Proof.
  intros Hw Hv. assert (is_i 64 v) by (eapply is_i_mono; [|done]; lia).
  rewrite wrap_small by (apply zigzag_is_u; lia). rewrite unzigzag_zigzag, to_signed_id by (done || lia). done.
Qed.

Ltac becomes s e :=
  lazymatch goal with |- _ = ?r => change (complete_value s e = r) end.

Lemma reads_unsigned v : value_ok v →
  match v with VU16 _ | VU32 _ | VU64 _ | VU128 _ | VChar _ => True | _ => False end → reads v.
Proof.
  destruct v as [| |n| |n| |n| |n| | | |c| | | | | | | |]; intros Hv []; cbn [value_ok] in Hv;
    try apply bool_decide_unpack in Hv.
  - apply (reads_varint _ TAG_U16 (UnsignedValue TAG_U16) n (encode_u64 n)); [done..| |].
    { left. split; [done|]. by eapply is_u_mono; [|done]. }
    intros stack. becomes stack (VU16 (wrap 16 n)). by rewrite wrap_small.
  - apply (reads_varint _ TAG_U32 (UnsignedValue TAG_U32) n (encode_u64 n)); [done..| |].
    { left. split; [done|]. by eapply is_u_mono; [|done]. }
    intros stack. becomes stack (VU32 (wrap 32 n)). by rewrite wrap_small.
  - apply (reads_varint _ TAG_U64 (UnsignedValue TAG_U64) n (encode_u64 n)); [done..|by left|].
    intros stack. becomes stack (VU64 (wrap 64 n)). by rewrite wrap_small.
  - apply (reads_varint _ TAG_U128 (UnsignedValue TAG_U128) n (encode_u128 n)); [done..|by right|done].
  - assert (is_u 32 c) as Hc.
    { unfold is_char in Hv. unfold is_u. apply orb_True in Hv as [?%bool_decide_unpack|?%bool_decide_unpack]; lia. }
    apply (reads_varint _ TAG_CHAR CharValue c (encode_u64 c)); [done..| |].
    { left. split; [done|]. by eapply is_u_mono; [|done]. }
    intros stack. cbn [LogDecoder.handle_varint_complete]. rewrite wrap_small by done. by destruct (is_char c).
Qed.

Lemma reads_signed v : value_ok v →
  match v with VI16 _ | VI32 _ | VI64 _ | VI128 _ => True | _ => False end → reads v.
Proof.
  destruct v as [| | |n| |n| |n| |n| | | | | | | | | | |]; intros Hv []; cbn [value_ok] in Hv;
    apply bool_decide_unpack in Hv.
  - apply (reads_varint _ TAG_I16 (SignedValue TAG_I16) (zigzag 64 n) (encode_i64 n)); [done..| |].
    { left. split; [done|by apply zigzag_is_u]. }
    intros stack. becomes stack (VI16 (to_signed 16 (unzigzag 64 (wrap 64 (zigzag 64 n))))). destruct (zigzag_64 16 n) as [-> ->]; [lia|done|done].
  - apply (reads_varint _ TAG_I32 (SignedValue TAG_I32) (zigzag 64 n) (encode_i64 n)); [done..| |].
    { left. split; [done|by apply zigzag_is_u]. }
    intros stack. becomes stack (VI32 (to_signed 32 (unzigzag 64 (wrap 64 (zigzag 64 n))))). destruct (zigzag_64 32 n) as [-> ->]; [lia|done|done].
  - apply (reads_varint _ TAG_I64 (SignedValue TAG_I64) (zigzag 64 n) (encode_i64 n)); [done..| |].
    { left. split; [done|by apply zigzag_is_u]. }
    intros stack. becomes stack (VI64 (unzigzag 64 (wrap 64 (zigzag 64 n)))). destruct (zigzag_64 64 n) as [-> _]; [lia|done|done].
  - apply (reads_varint _ TAG_I128 (SignedValue TAG_I128) (zigzag 128 n) (encode_i128 n)); [done..| |].
    { right. split; [done|by apply zigzag_is_u]. }
    intros stack. becomes stack (VI128 (unzigzag 128 (zigzag 128 n))). by rewrite unzigzag_zigzag.
Qed.

Lemma length_le_ISIZE {A} (l : list A) size : (0 < size)%Z →
  (Z.of_nat (length l) * size <= ISIZE_MAX)%Z → is_u 64 (Z.of_nat (length l)).
Proof. unfold ISIZE_MAX, is_u. nia. Qed.

Lemma reads_str s : value_ok (VStr s) → reads (VStr s).
Proof.
  cbn [value_ok]. intros [Hu Hl%bool_decide_unpack]%andb_True stack i rest.
  assert (is_u 64 (Z.of_nat (length s))) as Hs by (unfold is_u, ISIZE_MAX in *; lia).
  cbn [format_value]. unfold write_str. cbn [app]. erewrite feed_tag by reflexivity.
  rewrite wrap_small, <- app_assoc, feed_u64 by done. destruct s as [|b s].
  { f_equal. cbn [app length]. rewrite app_nil_r. lia. }
  cbn [LogDecoder.handle_varint_complete]. rewrite decide_False by done. rewrite wrap_small by done.
  rewrite with_capacity_ok by lia. cbn [ebind]. rewrite resume_goto, feed_string by done. cbn [app].
  destruct (utf8_valid (b :: s)); [|done]. f_equal. len.
Qed.

(** One byte after the tag, and the floats' four or eight. *)
Lemma reads_single v tag b : format_value v = [tag; b] →
  (∀ stack, handle_tag stack tag = goto (ReadingSingleByte tag) stack) →
  (∀ stack, feed_byte value_size field_size (mkDecoder (ReadingSingleByte tag) stack) b = complete_value stack v) →
  reads v.
Proof.
  intros Hf Ht Hb stack i rest. rewrite Hf. cbn [app length].
  rewrite (feed_tag _ _ _ _ _ (Ht stack)), feed_from_cons, Hb. f_equal. lia.
Qed.

Lemma feed_f32 bs stack i rest : length bs = 4 →
  feed_from (mkDecoder AwaitingTag stack) i (TAG_F32 :: bs ++ rest) =
    resume (complete_value stack (VF32 (le_val bs))) (5 + i) rest.
Proof. destruct bs as [|b0 [|b1 [|b2 [|b3 [|]]]]]; try discriminate. reflexivity. Qed.

Lemma feed_f64 bs stack i rest : length bs = 8 →
  feed_from (mkDecoder AwaitingTag stack) i (TAG_F64 :: bs ++ rest) =
    resume (complete_value stack (VF64 (le_val bs))) (9 + i) rest.
Proof. destruct bs as [|b0 [|b1 [|b2 [|b3 [|b4 [|b5 [|b6 [|b7 [|]]]]]]]]]; try discriminate. reflexivity. Qed.

Lemma to_signed_wrap w v : (1 < w)%Z → is_i w v → to_signed w (wrap w v) = v.
Proof.
  intros Hw Hv. rewrite <- (to_signed_id w v Hw Hv) at 2. unfold to_signed, wrap.
  by rewrite Z.mod_mod by (apply Z.pow_nonzero; lia).
Qed.

Lemma reads_leaf v : value_ok v → is_container v = false → reads v.
Proof.
  intros Hv Hc. destruct v as [n|n| | | | | | | | |b|b| |b| | | | | | |]; try discriminate Hc;
    try exact (reads_unsigned _ Hv I); try exact (reads_signed _ Hv I);
    try exact (reads_str _ Hv); try exact (reads_dump _ _ _ _ _ _ _ Hv); cbn [value_ok] in Hv;
    try apply bool_decide_unpack in Hv.
  - by apply (reads_single _ TAG_U8 n).
  - apply (reads_single _ TAG_I8 (wrap 8 n)); [done..|]. intros stack.
    becomes stack (VI8 (to_signed 8 (wrap 8 n))). by rewrite to_signed_wrap.
  - intros stack i rest. cbn [format_value]. unfold write_f32. cbn [app]. rewrite feed_f32 by len.
    rewrite le_roundtrip by done. f_equal. len.
  - intros stack i rest. cbn [format_value]. unfold write_f64. cbn [app]. rewrite feed_f64 by len.
    rewrite le_roundtrip by done. f_equal. len.
  - apply (reads_single _ TAG_BOOL (if b then 1 else 0)%Z); [done..|]. by destruct b.
  - intros stack i rest. cbn [format_value]. unfold write_unit. cbn [app length]. rewrite feed_from_cons.
    by rewrite Nat.add_1_r.
Qed.

(** * Containers *)

(** The elements of an open container whose frame is [mk remaining read]. *)
Lemma feed_elements (mk : Z → list OwnedValue → Frame) (whole : list OwnedValue → OwnedValue) stack :
  (∀ r acc v, complete_value (mk r acc :: stack) v =
     let! r := udec r in
     if decide (r = 0%Z) then complete_value stack (whole (acc ++ [v]))
     else goto AwaitingTag (mk r (acc ++ [v]) :: stack)) →
  ∀ cs acc i rest, Forall reads cs → cs ≠ [] →
  feed_from (mkDecoder AwaitingTag (mk (Z.of_nat (length cs)) acc :: stack)) i
    (concat (format_value <$> cs) ++ rest) =
  resume (complete_value stack (whole (acc ++ cs))) (i + length (concat (format_value <$> cs))) rest.
Proof.
  intros Hmk. induction cs as [|c cs IH]; intros acc i rest Hcs Hne; [done|].
  apply Forall_cons_1 in Hcs as [Hc Hcs]. rewrite fmap_cons. cbn [concat]. rewrite <- app_assoc, Hc, Hmk.
  unfold udec. rewrite decide_False by (cbn [length]; lia). cbn [ebind length]. destruct cs as [|c' cs].
  - rewrite decide_True by (cbn; lia). cbn [fmap list_fmap concat app]. by rewrite app_nil_r.
  - rewrite decide_False by (cbn [length]; lia). rewrite resume_goto.
    replace (Z.of_nat (S (length (c' :: cs))) - 1)%Z with (Z.of_nat (length (c' :: cs))) by lia.
    rewrite IH by done. rewrite <- app_assoc. cbn [app]. f_equal. rewrite length_app. lia.
Qed.

Lemma feed_fields t stack fs fid acc i rest : Forall (λ p, is_u 64 (fst p) ∧ reads (snd p)) fs → fs ≠ [] →
  feed_from (mkDecoder (ReadingVarint 0 0 StructFieldId)
      (FStruct t (Z.of_nat (length fs)) fid acc :: stack)) i
    (concat ((λ p, write_field_id (fst p) ++ format_value (snd p)) <$> fs) ++ rest) =
  resume (complete_value stack (VStruct t (acc ++ fs)))
    (i + length (concat ((λ p, write_field_id (fst p) ++ format_value (snd p)) <$> fs))) rest.
Proof.
  revert fid acc i. induction fs as [|[id c] fs IH]; intros fid acc i Hfs Hne; [done|].
  apply Forall_cons_1 in Hfs as [[Hid Hc] Hfs]. rewrite fmap_cons. cbn [concat fst snd] in *.
  unfold write_field_id at 1. rewrite <- !app_assoc, feed_u64 by done.
  cbn [LogDecoder.handle_varint_complete]. rewrite resume_goto, Hc, wrap_small by done.
  cbn [complete_value]. unfold udec. rewrite decide_False by (cbn [length]; lia). cbn [ebind length].
  destruct fs as [|f fs].
  - rewrite decide_True by (cbn; lia). f_equal. cbn [fmap list_fmap concat app].
    unfold write_field_id. rewrite app_nil_r, length_app. lia.
  - rewrite decide_False by (cbn [length]; lia).
    change (Ret (Incomplete, mkDecoder ?s ?k)) with (goto s k). rewrite resume_goto.
    replace (Z.of_nat (S (length (f :: fs))) - 1)%Z with (Z.of_nat (length (f :: fs))) by lia.
    rewrite IH by done. rewrite <- app_assoc. cbn [app]. f_equal. unfold write_field_id at 2.
    rewrite !length_app. lia.
Qed.

Lemma reads_sequence tag (mk : Z → list OwnedValue → Frame) (whole : list OwnedValue → OwnedValue) cs :
  format_value (whole cs) = tag :: encode_u64 (wrap 64 (Z.of_nat (length cs))) ++ concat (format_value <$> cs) →
  (∀ stack, handle_tag stack tag = goto (ReadingVarint 0 0 (ContainerLength tag)) stack) →
  (∀ stack n, is_u 64 n → (n * value_size <= ISIZE_MAX)%Z →
     handle_varint_complete stack n (ContainerLength tag) =
     if decide (n = 0%Z) then complete_value stack (whole [])
     else goto AwaitingTag (mk n [] :: stack)) →
  (∀ stack r acc v, complete_value (mk r acc :: stack) v =
     let! r := udec r in
     if decide (r = 0%Z) then complete_value stack (whole (acc ++ [v]))
     else goto AwaitingTag (mk r (acc ++ [v]) :: stack)) →
  (Z.of_nat (length cs) * value_size <= ISIZE_MAX)%Z → Forall reads cs → reads (whole cs).
Proof.
  intros Hf Ht Hl Hmk Hn Hcs stack i rest. pose proof (length_le_ISIZE cs _ value_size_pos Hn) as Hu.
  rewrite Hf. cbn [app length]. rewrite (feed_tag _ _ _ _ _ (Ht stack)), wrap_small, <- app_assoc, feed_u64 by done.
  rewrite Hl by done. destruct cs as [|c cs].
  - f_equal. cbn [fmap list_fmap concat]. len.
  - rewrite decide_False by done. rewrite resume_goto.
    rewrite (feed_elements mk whole stack) by done. f_equal. len.
Qed.

Lemma reads_tuple t fs : is_u 64 t → (Z.of_nat (length fs) * value_size <= ISIZE_MAX)%Z →
  Forall reads fs → reads (VTuple t fs).
Proof.
  intros Ht Hn Hfs stack i rest. pose proof (length_le_ISIZE fs _ value_size_pos Hn) as Hu.
  cbn [format_value]. unfold with_tuple. cbn [app]. erewrite feed_tag by reflexivity.
  rewrite <- app_assoc, feed_u64 by done. cbn [LogDecoder.handle_varint_complete]. rewrite resume_goto.
  rewrite <- app_assoc, feed_u64 by done. cbn [LogDecoder.handle_varint_complete]. rewrite !wrap_small by done.
  destruct fs as [|f fs].
  - rewrite decide_True by done. f_equal. cbn [fmap list_fmap concat]. len.
  - rewrite decide_False by done. rewrite with_capacity_ok by done. cbn [ebind]. rewrite resume_goto.
    rewrite (feed_elements (FTuple t) (VTuple t) stack) by done. f_equal. len.
Qed.

Lemma reads_struct t fs : is_u 64 t → (Z.of_nat (length fs) * field_size <= ISIZE_MAX)%Z →
  Forall (λ p, is_u 64 (fst p) ∧ reads (snd p)) fs → reads (VStruct t fs).
Proof.
  intros Ht Hn Hfs stack i rest. pose proof (length_le_ISIZE fs _ field_size_pos Hn) as Hu.
  cbn [format_value]. unfold with_struct. cbn [app]. erewrite feed_tag by reflexivity.
  rewrite <- app_assoc, feed_u64 by done. cbn [LogDecoder.handle_varint_complete]. rewrite resume_goto.
  rewrite <- app_assoc, feed_u64 by done. cbn [LogDecoder.handle_varint_complete]. rewrite !wrap_small by done.
  destruct fs as [|f fs].
  - rewrite decide_True by done. f_equal. cbn [fmap list_fmap concat]. len.
  - rewrite decide_False by done. rewrite with_capacity_ok by done. cbn [ebind]. rewrite resume_goto.
    rewrite feed_fields by done. f_equal. len.
Qed.

Lemma forallb_mp {A} (f : A → bool) (P : A → Prop) l :
  Forall (λ a, f a → P a) l → forallb f l → Forall P l.
Proof. induction 1; cbn [forallb]; [done|]. intros [? ?]%andb_True. constructor; auto. Qed.

(** Every well-formed value is read back. *)
Lemma reads_value v : value_ok v → reads v.
Proof.
  induction v as [v Hv|cs IH|cs IH|t fs IH|t fs IH] using OwnedValue_nested_ind; intros Hok;
    [by apply reads_leaf|..]; cbn [value_ok] in Hok.
  - apply andb_True in Hok as [Hn%bool_decide_unpack Hcs%(forallb_mp _ _ _ IH)].
    apply (reads_sequence TAG_ARRAY FArray VArray); try done.
    intros stack n Hu Hb. cbn [LogDecoder.handle_varint_complete]. rewrite wrap_small by done.
    case_decide; [done|]. by rewrite with_capacity_ok.
  - apply andb_True in Hok as [Hn%bool_decide_unpack Hcs%(forallb_mp _ _ _ IH)].
    apply (reads_sequence TAG_SLICE FSlice VSlice); try done.
    intros stack n Hu Hb. cbn [LogDecoder.handle_varint_complete]. rewrite wrap_small by done.
    case_decide; [done|]. by rewrite with_capacity_ok.
  - apply andb_True in Hok as [[Ht%bool_decide_unpack Hn%bool_decide_unpack]%andb_True
      Hcs%(forallb_mp _ _ _ IH)]. by apply reads_tuple.
  - apply andb_True in Hok as [[Ht%bool_decide_unpack Hn%bool_decide_unpack]%andb_True Hcs].
    apply reads_struct; [done..|]. refine (forallb_mp _ _ _ _ Hcs). refine (Forall_impl _ _ IH).
    intros [id v] Hv [Hid%bool_decide_unpack ?]%andb_True. auto.
Qed.

(** * Chunks *)

Lemma feed_from_app d i bs1 bs2 :
  feed_from d i (bs1 ++ bs2) =
    let! r := feed_from d i bs1 in
    let '(n, result, d) := r in
    match result with Incomplete => feed_from d n bs2 | _ => Ret (n, result, d) end.
Proof.
  revert d i. induction bs1 as [|b bs1 IH]; intros d i; [done|]. cbn [app LogDecoder.feed_from].
  destruct (feed_byte value_size field_size d b) as [[r d']|]; [|done]. cbn [ebind fst snd].
  destruct r; [apply IH|done..].
Qed.

Lemma feed_from_shift d i bs :
  feed_from d i bs = let! r := feed_from d 0 bs in Ret (i + r.1.1, r.1.2, r.2).
Proof.
  revert d i. induction bs as [|b bs IH]; intros d i; cbn [LogDecoder.feed_from].
  { cbn. by rewrite Nat.add_0_r. }
  destruct (feed_byte value_size field_size d b) as [[r d']|]; [|done]. cbn [ebind fst snd].
  destruct r; try (cbn; by rewrite Nat.add_1_r). rewrite IH, (IH _ 1).
  destruct (feed_from d' 0 bs) as [[[n r] d'']|]; [|done]. cbn. do 2 f_equal. f_equal. lia.
Qed.

Lemma feed_from_consumes d i bs n d' :
  feed_from d i bs = Ret (n, Incomplete, d') → n = i + length bs.
Proof.
  revert d i. induction bs as [|b bs IH]; intros d i; cbn [LogDecoder.feed_from length]; [intros; simplify_eq; lia|].
  destruct (feed_byte value_size field_size d b) as [[r d1]|]; [|done]. cbn [ebind fst snd].
  destruct r; try done. intros ->%IH. lia.
Qed.

(** Feeding a chunk and then another is feeding their concatenation: unless
    the first chunk already produced a result, in which case the second is not
    looked at, the outcome and the decoder reached are the same, and all of the
    first chunk was consumed. *)
Theorem feed_chunks d bs1 bs2 :
  feed value_size field_size d (bs1 ++ bs2) =
    let! r := feed value_size field_size d bs1 in
    let '(n, result, d1) := r in
    match result with
    | Incomplete =>
        let! r2 := feed value_size field_size d1 bs2 in
        let '(n2, result2, d2) := r2 in
        Ret (length bs1 + n2, result2, d2)
    | _ => Ret (n, result, d1)
    end.
Proof.
  unfold feed. rewrite feed_from_app. destruct (feed_from d 0 bs1) as [[[n r] d1]|] eqn:E; [|done].
  cbn [ebind]. destruct r; try done. apply feed_from_consumes in E as ->.
  rewrite feed_from_shift. by destruct (feed_from d1 0 bs2) as [[[n2 r2] d2]|].
Qed.

(** * Streams *)

Lemma format_value_cons v : ∃ b bs, format_value v = b :: bs.
Proof. destruct v; cbn [format_value]; eexists _, _; reflexivity. Qed.

Lemma feed_value v rest : value_ok v →
  feed value_size field_size decoder_new (format_value v ++ rest) =
    Ret (length (format_value v), Done v, decoder_new).
Proof. intros Hv. unfold feed, decoder_new. by rewrite (reads_value v Hv). Qed.

Lemma decode_loop_stream vs trailing fuel acc :
  length vs < fuel → Forall value_ok vs →
  decode_loop value_size field_size fuel decoder_new
    (concat (format_value <$> vs) ++ write_end_of_stream ++ trailing) acc 0 = Ret (acc ++ vs, 0).
Proof.
  revert fuel acc. induction vs as [|v vs IH]; intros fuel acc Hf Hvs; (destruct fuel as [|fuel]; [cbn in Hf; lia|]).
  - rewrite app_nil_r. cbn [decode_loop]. rewrite decide_False by done.
    change (feed value_size field_size decoder_new _) with (Ret (1, EndOfStream, decoder_new)).
    cbn [ebind]. rewrite slice_ok by (cbn; lia). done.
  - apply Forall_cons_1 in Hvs as [Hv Hvs]. rewrite fmap_cons. cbn [concat decode_loop]. rewrite <- app_assoc.
    destruct (format_value_cons v) as (b & bs & E).
    rewrite decide_False by (rewrite E; done).
    rewrite feed_value by done. cbn [ebind].
    rewrite slice_app_end by (done || len). cbn [ebind]. rewrite IH by (done || (cbn in Hf; lia)).
    by rewrite <- app_assoc.
Qed.

Lemma decode_loop_stream_values vs trailing :
  Forall value_ok vs →
  decode_values value_size field_size
    (concat (format_value <$> vs) ++ write_end_of_stream ++ trailing) = Ret (vs, 0).
Proof.
  intros Hvs. unfold decode_values. rewrite decode_loop_stream; [done| |done].
  rewrite !length_app. cbn [length write_end_of_stream].
  assert (length vs ≤ length (concat (format_value <$> vs))); [|lia].
  clear Hvs. induction vs as [|v vs IH]; [done|]. rewrite fmap_cons. cbn [concat length].
  destruct (format_value_cons v) as (b & bs & ->). len.
Qed.

(** C33: The host reads back the arguments the device logged: for well-formed
    values [vs], decoding the bytes the formatter writes for them, closed by the
    end-of-stream tag, gives exactly [vs] and reports no error, whatever follows. *)
Theorem log_values_roundtrip vs trailing :
  Forall value_ok vs →
  decode_values value_size field_size
    (concat (format_value <$> vs) ++ write_end_of_stream ++ trailing) = Ret (vs, 0).
Proof. apply decode_loop_stream_values. Qed.
End codec.

(** Every kind of value at once, nested. *)
Definition demo_values : list OwnedValue :=
  [ VI16 (-300); VU128 (2 ^ 100); VStr [72; 105; 0xC3; 0xA9]%Z; VChar 0x1F600; VF32 0x3F800000;
    VArray [VTuple 7 [VBool true; VUnit]; VTuple 8 []];
    VStruct 9 [(1%Z, VI8 (-5)); (2%Z, VSlice [VU64 (2 ^ 63)])];
    VStackDump 1 2 3 4 (replicate 13 5%Z) 6 [1; 2; 3]%Z ].

Lemma log_values_roundtrip_witness :
  Forall (value_ok 96 104) demo_values ∧
  decode_values 96 104 (concat (format_value <$> demo_values) ++ write_end_of_stream ++ [1; 2]%Z)
    = Ret (demo_values, 0).
Proof.
  assert (Forall (value_ok 96 104) demo_values) as H by (repeat constructor; vm_compute; exact I).
  split; [exact H|]. apply (log_values_roundtrip 96 104 eq_refl eq_refl demo_values [1; 2]%Z H).
Defined.
