(* ===== verification/LogSafety.v ===== *)
(** The log decoder on arbitrary input: an invariant of its states, that a byte
    never makes it panic unless it completes a length that cannot be allocated,
    and that every value it returns is well-formed. *)

From S2P Require Import Prelude LogFormat LogDecoder LogCodec.

Section safety.
Context (value_size field_size : Z).
Abbreviation value_ok := (value_ok value_size field_size).
Abbreviation feed_byte := (feed_byte value_size field_size).
Abbreviation handle_varint_complete := (handle_varint_complete value_size field_size).

(** * The invariant *)

(** Whether a length, as it is about to be used, can be allocated; a string
    length must also not vanish when it is cut to 64 bits. *)
Definition length_ok (p : VarintPurpose) (raw : Z) : bool :=
  match p with
  | StringLength =>
      bool_decide (wrap 64 raw <= ISIZE_MAX)%Z && bool_decide (wrap 64 raw = 0%Z → raw = 0%Z)
  | ContainerLength _ | TupleFieldCount _ => bool_decide (wrap 64 raw * value_size <= ISIZE_MAX)%Z
  | StructFieldCount _ => bool_decide (wrap 64 raw * field_size <= ISIZE_MAX)%Z
  | _ => true
  end.

(** The byte does not complete a length that cannot be allocated. *)
Definition lengths_ok (d : Decoder) (byte : Z) : bool :=
  match dstate d with
  | ReadingVarint acc shift p =>
      bool_decide (128 <= shift)%Z || bool_decide (Z.land byte 0x80 ≠ 0%Z) ||
      length_ok p (Z.lor acc (wrap 128 (Z.shiftl (Z.land byte 0x7F) shift)))
  | _ => true
  end.

Definition items_ok (size remaining : Z) (n : nat) : Prop :=
  (0 < remaining)%Z ∧ ((remaining + Z.of_nat n) * size <= ISIZE_MAX)%Z.

Definition frame_ok (f : Frame) : Prop :=
  match f with
  | FArray r cs | FSlice r cs => items_ok value_size r (length cs) ∧ Forall value_ok cs
  | FTuple t r fs => is_u 64 t ∧ items_ok value_size r (length fs) ∧ Forall value_ok fs
  | FStruct t r fid fs =>
      is_u 64 t ∧ is_u 64 fid ∧ items_ok field_size r (length fs) ∧
      Forall (λ p, is_u 64 (fst p) ∧ value_ok (snd p)) fs
  end.

Definition purpose_ok (p : VarintPurpose) : Prop :=
  match p with
  | UnsignedValue tag => tag ∈ [TAG_U16; TAG_U32; TAG_U64; TAG_U128]
  | SignedValue tag => tag ∈ [TAG_I16; TAG_I32; TAG_I64; TAG_I128]
  | TupleFieldCount t | StructFieldCount t => is_u 64 t
  | _ => True
  end.

Definition state_ok (s : State) : Prop :=
  match s with
  | AwaitingTag => True
  | ReadingSingleByte tag => tag ∈ [TAG_BOOL; TAG_U8; TAG_I8]
  | ReadingVarint acc shift p => is_u 128 acc ∧ (0 <= shift)%Z ∧ purpose_ok p
  | ReadingFixed buf expected got is_f64 =>
      length buf = 8 ∧ bytes_ok buf ∧ expected = (if is_f64 then 8 else 4) ∧ got < expected
  | ReadingString buf r => (0 < r)%Z ∧ (r + Z.of_nat (length buf) <= ISIZE_MAX)%Z
  | ReadingStackDumpHeader buf pos => length buf = 72 ∧ bytes_ok buf ∧ pos < 72
  | ReadingStackDumpLength header len_buf pos =>
      length header = 72 ∧ bytes_ok header ∧ length len_buf = 4 ∧ bytes_ok len_buf ∧ pos < 4
  | ReadingStackDumpData header buf r =>
      length header = 72 ∧ bytes_ok header ∧ bytes_ok buf ∧ (0 < r)%Z ∧
      is_u 32 (r + Z.of_nat (length buf))
  end.

Definition decoder_ok (d : Decoder) : Prop := state_ok (dstate d) ∧ Forall frame_ok (dstack d).

Definition result_ok (r : FeedResult) : Prop := match r with Done v => value_ok v | _ => True end.

(** The outcome of a step: a result and a decoder, both well-formed. *)
Definition step_ok (m : exec (FeedResult * Decoder)) : Prop :=
  match m with Ret (r, d) => result_ok r ∧ decoder_ok d | Panic => False end.

Create HintDb decoder.

Lemma to_signed_is_i w v : (1 < w)%Z → is_i w (to_signed w v).
Proof.
  intros Hw. unfold to_signed, is_i. pose proof (wrap_is_u w v ltac:(lia)) as H. unfold is_u in H.
  assert (2 ^ w = 2 * 2 ^ (w - 1))%Z as Hp by (rewrite <- Z.pow_succ_r by lia; f_equal; lia).
  destruct (Z.ltb_spec (wrap w v) (2 ^ (w - 1))); lia.
Qed.

Lemma wrap_ok w v : (0 <= w)%Z → is_u w (wrap w v).
Proof. apply wrap_is_u. Qed.
#[local] Hint Extern 1 (1 < _)%Z => lia : decoder.
#[local] Hint Extern 1 (0 <= _)%Z => lia : decoder.
#[local] Hint Resolve to_signed_is_i wrap_ok : decoder.

(** * Steps preserve it *)

Lemma goto_ok s stack : state_ok s → Forall frame_ok stack → step_ok (goto s stack).
Proof. done. Qed.

Lemma fail_ok e stack : Forall frame_ok stack → step_ok (fail_with e stack).
Proof. done. Qed.
#[local] Hint Resolve goto_ok fail_ok : decoder.

Lemma udec_ok r : (0 < r)%Z → udec r = Ret (r - 1)%Z.
Proof. intros. unfold udec. by rewrite decide_False by lia. Qed.

Lemma items_ok_push {A} size r (l : list A) x : items_ok size r (length l) →
  (r - 1 ≠ 0)%Z → items_ok size (r - 1) (length (l ++ [x])).
Proof. unfold items_ok. intros [? ?] ?. rewrite length_app. cbn [length]. split; [lia|]. nia. Qed.

Lemma items_ok_last {A} size r (l : list A) x : items_ok size r (length l) →
  (r - 1 = 0)%Z → (Z.of_nat (length (l ++ [x])) * size <= ISIZE_MAX)%Z.
Proof. unfold items_ok. intros [? ?] ?. rewrite length_app. cbn [length]. nia. Qed.

Lemma Forall_snoc {A} (P : A → Prop) l x : Forall P l → P x → Forall P (l ++ [x]).
Proof. intros. apply Forall_app. auto. Qed.

Lemma forallb_Forall {A} (f : A → bool) l : Forall f l → forallb f l.
Proof. induction 1; cbn [forallb]; [done|]. by apply andb_True. Qed.

Lemma items_ok_pos size r n : items_ok size r n → (0 < r)%Z.
Proof. by intros [? ?]. Qed.

Lemma start_varint_ok p : purpose_ok p → state_ok (ReadingVarint 0 0 p).
Proof. intros. by repeat split. Qed.
#[local] Hint Resolve start_varint_ok items_ok_push Forall_snoc items_ok_pos : decoder.

Lemma complete_value_ok stack v : Forall frame_ok stack → value_ok v → step_ok (complete_value stack v).
Proof.
  revert v. induction stack as [|f stack IH]; intros v Hs Hv; [by split|].
  apply Forall_cons_1 in Hs as [Hf Hs].
  destruct f as [r cs|r cs|t r fs|t r fid fs]; cbn [complete_value frame_ok] in *.
  - destruct Hf as (Hr & Hcs). rewrite udec_ok by eauto with decoder. cbn [ebind]. case_decide.
    + apply IH; [done|]. cbn. apply andb_True. split; [|by apply forallb_Forall, Forall_snoc].
      apply bool_decide_spec. by eapply items_ok_last.
    + apply goto_ok; [done|]. constructor; [|done]. cbn. auto with decoder.
  - destruct Hf as (Hr & Hcs). rewrite udec_ok by eauto with decoder. cbn [ebind]. case_decide.
    + apply IH; [done|]. cbn. apply andb_True. split; [|by apply forallb_Forall, Forall_snoc].
      apply bool_decide_spec. by eapply items_ok_last.
    + apply goto_ok; [done|]. constructor; [|done]. cbn. auto with decoder.
  - destruct Hf as (Ht & Hr & Hcs). rewrite udec_ok by eauto with decoder. cbn [ebind]. case_decide.
    + apply IH; [done|]. cbn. rewrite !andb_True, !bool_decide_spec.
      repeat split; [apply Ht..|by eapply items_ok_last|by apply forallb_Forall, Forall_snoc].
    + apply goto_ok; [done|]. constructor; [|done]. cbn. auto with decoder.
  - destruct Hf as (Ht & Hid & Hr & Hcs). rewrite udec_ok by eauto with decoder. cbn [ebind]. case_decide.
    + apply IH; [done|]. cbn. rewrite !andb_True, !bool_decide_spec.
      repeat split; [apply Ht..|by eapply items_ok_last|].
      apply forallb_Forall, Forall_snoc; [|by rewrite andb_True, bool_decide_spec].
      refine (Forall_impl _ _ Hcs). intros p [? ?]. by rewrite andb_True, bool_decide_spec.
    + apply goto_ok; [by apply start_varint_ok|]. constructor; [|done]. cbn. auto 6 with decoder.
Qed.

Lemma among_elem (tag : Z) ts : bool_decide (Exists (eq tag) ts) = true → tag ∈ ts.
Proof. intros (x & Hx & ->)%bool_decide_eq_true%list.Exists_exists. done. Qed.

Lemma zeros_ok n : bytes_ok (replicate n 0%Z).
Proof. apply Forall_replicate. const_u. Qed.
#[local] Hint Resolve zeros_ok : decoder.

Lemma handle_tag_ok stack tag : Forall frame_ok stack → step_ok (handle_tag stack tag).
Proof.
  intros Hs. unfold handle_tag. cbn zeta.
  repeat match goal with
  | |- step_ok (if bool_decide ?P then _ else _) => destruct (bool_decide P) eqn:?
  end; try (apply goto_ok; [|done]); try (by apply fail_ok); try (by apply complete_value_ok);
    try apply start_varint_ok; try done; try (by apply among_elem); cbn [state_ok];
    rewrite length_replicate; repeat split; auto with decoder; lia.
Qed.

Lemma unzigzag_is_i w zz : (1 < w)%Z → is_i w (unzigzag w zz).
Proof. intros. by apply to_signed_is_i. Qed.
#[local] Hint Resolve unzigzag_is_i : decoder.

Lemma handle_varint_complete_ok stack raw p :
  is_u 128 raw → purpose_ok p → length_ok p raw → Forall frame_ok stack →
  step_ok (handle_varint_complete stack raw p).
Proof.
  intros Hraw Hp Hl Hs.
  destruct p as [tag|tag| | |tag| |t| |t|]; cbn [LogDecoder.handle_varint_complete purpose_ok length_ok] in *.
  - repeat case_decide; try (apply complete_value_ok; [done|]; cbn; apply bool_decide_spec; auto with decoder).
    rewrite !elem_of_cons, elem_of_nil in Hp. tauto.
  - repeat case_decide; try (apply complete_value_ok; [done|]; cbn; apply bool_decide_spec; auto with decoder).
    rewrite !elem_of_cons, elem_of_nil in Hp. tauto.
  - destruct (is_char (wrap 32 raw)) eqn:E; [|by apply fail_ok]. apply complete_value_ok; [done|].
    cbn. by rewrite E.
  - apply andb_True in Hl as [H1%bool_decide_unpack H2%bool_decide_unpack].
    case_decide; [by apply complete_value_ok|]. rewrite with_capacity_ok by lia. cbn [ebind].
    apply goto_ok; [|done]. cbn. pose proof (wrap_is_u 64 raw). unfold is_u in *.
    split; [|lia]. destruct (decide (wrap 64 raw = 0%Z)) as [E|]; [by apply H2 in E|lia].
  - apply bool_decide_unpack in Hl. pose proof (wrap_is_u 64 raw) as Hw. unfold is_u in Hw.
    case_decide; [apply complete_value_ok; [done|by case_decide]|].
    rewrite with_capacity_ok by done. cbn [ebind]. apply goto_ok; [done|]. constructor; [|done].
    case_decide; cbn; split; [split; [lia|]; lia|done|split; [lia|]; lia|done].
  - apply goto_ok; [|done]. apply start_varint_ok. cbn. by apply wrap_is_u.
  - apply bool_decide_unpack in Hl. pose proof (wrap_is_u 64 raw) as Hw. unfold is_u in Hw.
    case_decide; [apply complete_value_ok; [done|cbn; by rewrite bool_decide_true]|].
    rewrite with_capacity_ok by done. cbn [ebind]. apply goto_ok; [done|]. constructor; [|done].
    cbn. split; [done|]. split; [split; lia|done].
  - apply goto_ok; [|done]. apply start_varint_ok. cbn. by apply wrap_is_u.
  - apply bool_decide_unpack in Hl. pose proof (wrap_is_u 64 raw) as Hw. unfold is_u in Hw.
    case_decide; [apply complete_value_ok; [done|cbn; by rewrite bool_decide_true]|].
    rewrite with_capacity_ok by done. cbn [ebind]. apply goto_ok; [by apply start_varint_ok|].
    constructor; [|done]. cbn. split; [done|]. split; [const_u|]. split; [split; lia|done].
  - apply goto_ok; [done|]. destruct stack as [|[| | |t r fid fs] stack]; try done.
    apply Forall_cons_1 in Hs as [(Ht & _ & Hf) Hs]. constructor; [|done]. cbn.
    split; [done|]. split; [by apply wrap_is_u|done].
Qed.

Lemma u32_at_ok header off : length header = 72 → bytes_ok header → off + 4 ≤ 72 →
  ∃ w, u32_at header off = Ret w ∧ is_u 32 w.
Proof.
  intros Hl Hb Ho. unfold u32_at. rewrite slice_ok by lia. cbn [ebind]. eexists. split; [done|].
  pose proof (le_val_bound (take (off + 4 - off) (drop off header))) as H.
  rewrite length_take, length_drop in H. replace (_ `min` _) with 4 in H by lia. apply H. auto with words.
Qed.

Lemma registers_from_ok header n i : length header = 72 → bytes_ok header → i + n ≤ 13 →
  ∃ rs, registers_from header n i = Ret rs ∧ length rs = n ∧ Forall (is_u 32) rs.
Proof.
  intros Hl Hb. revert i. induction n as [|n IH]; intros i Hi; cbn [registers_from]; [by exists []|].
  destruct (u32_at_ok header (16 + i * 4) Hl Hb ltac:(lia)) as (w & -> & Hw). cbn [ebind].
  destruct (IH (S i)) as (rs & -> & Hn & Hrs); [lia|]. cbn [ebind length].
  eexists. split; [done|]. split; [cbn [length]; lia|]. by constructor.
Qed.

Lemma stack_dump_ok header stk : length header = 72 → bytes_ok header → bytes_ok stk →
  is_u 32 (Z.of_nat (length stk)) → ∃ v, stack_dump_from_header header stk = Ret v ∧ value_ok v.
Proof.
  intros Hl Hb Hs Hn. unfold stack_dump_from_header.
  destruct (u32_at_ok header 0 Hl Hb ltac:(lia)) as (w1 & -> & ?).
  destruct (u32_at_ok header 4 Hl Hb ltac:(lia)) as (w2 & -> & ?).
  destruct (u32_at_ok header 8 Hl Hb ltac:(lia)) as (w3 & -> & ?).
  destruct (u32_at_ok header 12 Hl Hb ltac:(lia)) as (w4 & -> & ?).
  destruct (registers_from_ok header 13 0) as (rs & -> & Hr & ?); [done..|].
  destruct (u32_at_ok header 68 Hl Hb ltac:(lia)) as (w5 & -> & ?). cbn [ebind].
  eexists. split; [done|]. cbn [LogCodec.value_ok]. rewrite !andb_True, !bool_decide_spec.
  split; [split; [split|]|]; try done. rewrite !Forall_app. auto 8.
Qed.

Lemma complete_dump_ok header stk stack : length header = 72 → bytes_ok header → bytes_ok stk →
  is_u 32 (Z.of_nat (length stk)) → Forall frame_ok stack →
  step_ok (let! v := stack_dump_from_header header stk in complete_value stack v).
Proof.
  intros. destruct (stack_dump_ok header stk) as (v & -> & Hv); [done..|]. cbn [ebind].
  by apply complete_value_ok.
Qed.

Lemma bytes_ok_insert l i b : bytes_ok l → is_u 8 b → bytes_ok (<[i := b]> l).
Proof. intros. by apply Forall_insert. Qed.
#[local] Hint Resolve bytes_ok_insert : decoder.

Lemma acc_ok acc x : is_u 128 acc → is_u 128 (Z.lor acc (wrap 128 x)).
Proof.
  intros Ha. rewrite <- (wrap_small 128 acc Ha). unfold wrap. rewrite <- !Z.land_ones, <- Z.land_lor_distr_l by lia.
  rewrite Z.land_ones by lia. by apply wrap_is_u.
Qed.

Lemma feed_byte_ok d b : decoder_ok d → is_u 8 b → lengths_ok d b → step_ok (feed_byte d b).
Proof.
  destruct d as [s stack]. intros [Hst Hs] Hb Hl. unfold LogDecoder.feed_byte, lengths_ok in *. cbn [dstate dstack] in *.
  destruct s as [|tag|acc shift p|buf expected got f64|buf r|buf pos|header lb pos|header buf r]; cbn [state_ok] in Hst.
  - by apply handle_tag_ok.
  - repeat case_decide; try (by apply complete_value_ok); [| |by apply fail_ok];
      (apply complete_value_ok; [done|]; cbn; apply bool_decide_spec; auto with decoder).
  - destruct Hst as (Ha & Hsh & Hp). destruct (decide (128 <= shift)%Z); [by apply fail_ok|].
    rewrite bool_decide_false in Hl by done. cbn [orb] in Hl. destruct (decide (Z.land b 128 ≠ 0%Z)).
    + apply goto_ok; [|done]. split; [by apply acc_ok|]. split; [lia|done].
    + rewrite bool_decide_false in Hl by done. apply handle_varint_complete_ok; try done. by apply acc_ok.
  - destruct Hst as (Hn & Hbb & He & Hg). rewrite set_idx_ok by (destruct f64; lia). cbn [ebind].
    assert (bytes_ok (<[got := b]> buf)) by auto with decoder. case_decide.
    + apply goto_ok; [|done]. cbn. rewrite length_insert. auto.
    + destruct f64.
      * apply complete_value_ok; [done|]. cbn. apply bool_decide_spec.
        pose proof (le_val_bound (<[got := b]> buf)) as Hv. rewrite length_insert, Hn in Hv. by apply Hv.
      * rewrite slice_ok by (rewrite ?length_insert; lia). cbn [ebind]. apply complete_value_ok; [done|].
        cbn. apply bool_decide_spec. pose proof (le_val_bound (take 4 (<[got := b]> buf))) as Hv.
        rewrite length_take, length_insert, Hn in Hv. apply Hv. auto with words.
  - destruct Hst as (Hr & Hn). rewrite udec_ok by lia. cbn [ebind]. case_decide.
    + apply goto_ok; [|done]. cbn. rewrite length_app. cbn [length]. lia.
    + destruct (utf8_valid (buf ++ [b])) eqn:E; [|by apply fail_ok]. apply complete_value_ok; [done|].
      cbn. rewrite E. apply bool_decide_spec. rewrite length_app. cbn [length]. lia.
  - destruct Hst as (Hn & Hbb & Hp). rewrite set_idx_ok by lia. cbn [ebind].
    assert (bytes_ok (<[pos := b]> buf)) by auto with decoder.
    case_decide; (apply goto_ok; [|done]); cbn [state_ok]; rewrite ?length_insert, ?length_replicate;
      auto 6 with decoder lia.
  - destruct Hst as (Hn & Hbb & Hn4 & Hb4 & Hp). rewrite set_idx_ok by lia. cbn [ebind].
    assert (bytes_ok (<[pos := b]> lb)) as Hlb by auto with decoder. case_decide.
    + apply goto_ok; [|done]. cbn [state_ok]. rewrite length_insert. auto 6.
    + pose proof (le_val_bound _ Hlb) as Hv. rewrite length_insert, Hn4 in Hv. case_decide.
      * apply complete_dump_ok; try done. by apply Forall_nil.
      * change (256 ^ Z.of_nat 4)%Z with (2 ^ 32)%Z in Hv.
        rewrite with_capacity_ok by (unfold ISIZE_MAX; lia). cbn [ebind]. apply goto_ok; [|done].
        cbn [state_ok length]. unfold is_u. repeat split; try done; try lia. by apply Forall_nil.
  - destruct Hst as (Hn & Hbb & Hbuf & Hr & Hu). rewrite udec_ok by lia. cbn [ebind].
    assert (bytes_ok (buf ++ [b])) by by apply Forall_snoc. unfold is_u in Hu. case_decide.
    + apply goto_ok; [|done]. cbn [state_ok]. unfold is_u. rewrite length_app. cbn [length].
      repeat split; try done; lia.
    + apply complete_dump_ok; try done. unfold is_u. rewrite length_app. cbn [length]. lia.
Qed.

(** * Whole inputs *)

(** The decoder reached after [bytes], results being ignored. *)
Fixpoint run (d : Decoder) (bytes : list Z) : exec Decoder :=
  match bytes with
  | [] => Ret d
  | b :: bytes => let! r := feed_byte d b in run (snd r) bytes
  end.

(** Somewhere in the input a length is completed that cannot be allocated. *)
Definition overrun (d : Decoder) (bytes : list Z) : Prop :=
  ∃ pre b post d', bytes = pre ++ b :: post ∧ run d pre = Ret d' ∧ ¬ lengths_ok d' b.

Lemma run_app d bs1 bs2 d1 : run d bs1 = Ret d1 → run d (bs1 ++ bs2) = run d1 bs2.
Proof.
  revert d. induction bs1 as [|b bs1 IH]; intros d; cbn [run app]; [by intros [= ->]|].
  destruct (feed_byte d b); [|done]. apply IH.
Qed.

Lemma overrun_app d bs1 bs2 d1 : run d bs1 = Ret d1 → overrun d1 bs2 → overrun d (bs1 ++ bs2).
Proof.
  intros Hr (pre & b & post & d' & -> & Hp & Hl). exists (bs1 ++ pre), b, post, d'.
  rewrite (run_app _ _ _ _ Hr). by rewrite <- app_assoc.
Qed.

Lemma overrun_cons d b bs r d1 : feed_byte d b = Ret (r, d1) → overrun d1 bs → overrun d (b :: bs).
Proof. intros E. apply (overrun_app d [b] bs d1). cbn. by rewrite E. Qed.

Lemma feed_from_ok d i bs : decoder_ok d → bytes_ok bs →
  overrun d bs ∨
  ∃ n r d', LogDecoder.feed_from value_size field_size d i bs = Ret (i + n, r, d') ∧ n ≤ length bs ∧
    (bs ≠ [] → 0 < n) ∧ run d (take n bs) = Ret d' ∧ decoder_ok d' ∧ result_ok r.
Proof.
  intros Hd Hbs. revert d i Hd. induction Hbs as [|b bs Hb Hbs IH]; intros d i Hd.
  { right. exists 0, Incomplete, d. cbn. by rewrite Nat.add_0_r. }
  destruct (lengths_ok d b) eqn:E; cycle 1.
  { left. exists [], b, bs, d. rewrite E. split_and!; [done..|intros []]. }
  pose proof (feed_byte_ok d b Hd Hb ltac:(by rewrite E)) as Hs. cbn [LogDecoder.feed_from].
  destruct (feed_byte d b) as [[r d1]|] eqn:Ef; [|done]. destruct Hs as [Hr Hd1]. cbn [ebind fst snd].
  destruct r; [|right; eexists 1, _, d1; rewrite Nat.add_1_r; cbn [take run length]; rewrite Ef;
    (split; [done|]; split; [lia|]; split; [lia|]; done)..].
  destruct (IH d1 (S i) Hd1) as [Ho|(n & r & d' & Hf & Hn & Hpos & Hrun & Hd' & Hr')];
    [left; by eapply overrun_cons|right].
  exists (S n), r, d'. rewrite Hf. cbn [take run length]. rewrite Ef.
  split; [do 3 f_equal; lia|]. split; [lia|]. split; [lia|done].
Qed.

Lemma decode_loop_ok fuel d bs vs errors :
  length bs < fuel → decoder_ok d → bytes_ok bs → Forall value_ok vs →
  overrun d bs ∨
  ∃ vs' errors', decode_loop value_size field_size fuel d bs vs errors = Ret (vs', errors') ∧
    Forall value_ok vs' ∧ length vs' + errors' ≤ length vs + errors + length bs.
Proof.
  revert d bs vs errors. induction fuel as [|fuel IH]; intros d bs vs errors Hf Hd Hbs Hvs; [lia|].
  cbn [decode_loop]. case_decide as Hne; [right; exists vs, errors; auto with lia|].
  unfold feed. destruct (feed_from_ok d 0 bs Hd Hbs) as [Ho|(n & r & d' & -> & Hn & Hpos & Hrun & Hd' & Hr)];
    [by left|]. specialize (Hpos Hne). cbn [ebind Nat.add]. rewrite slice_ok by lia. cbn [ebind].
  rewrite take_ge by len.
  assert (∀ vs errors, Forall value_ok vs → overrun d bs ∨
    ∃ vs' errors', decode_loop value_size field_size fuel d' (drop n bs) vs errors = Ret (vs', errors') ∧
      Forall value_ok vs' ∧ length vs' + errors' ≤ length vs + errors + (length bs - n)) as Hnext.
  { intros vs1 e1 Hvs1. destruct (IH d' (drop n bs) vs1 e1) as [Ho|(vs2 & e2 & -> & Hv2 & Hl2)]; auto with words; [len| |].
    - left. rewrite <- (take_drop n bs). by eapply overrun_app.
    - right. exists vs2, e2. split; [done|]. split; [done|]. len. }
  destruct r as [|v| |e]; try (rewrite decide_False by lia).
  - destruct (Hnext vs errors Hvs) as [|(vs2 & e2 & -> & ? & ?)]; [by left|right]. exists vs2, e2. auto with lia.
  - destruct (Hnext (vs ++ [v]) errors) as [|(vs2 & e2 & -> & ? & Hl)]; [by apply Forall_snoc|by left|right].
    exists vs2, e2. split; [done|]. split; [done|]. len.
  - right. exists vs, errors. auto with lia.
  - destruct (Hnext vs (S errors) Hvs) as [|(vs2 & e2 & -> & ? & ?)]; [by left|right]. exists vs2, e2. auto with lia.
Qed.

(** C34: On arbitrary bytes the decoder returns: unless somewhere in the input a
    length is completed that cannot be allocated, decoding reaches the end (or
    the end-of-stream tag) without panicking, every value it returns is
    well-formed, and values and errors together are at most one per byte. *)
Theorem decode_values_total data :
  bytes_ok data →
  overrun decoder_new data ∨
  ∃ vs errors, decode_values value_size field_size data = Ret (vs, errors) ∧
    Forall value_ok vs ∧ length vs + errors ≤ length data.
Proof. intros Hd. apply (decode_loop_ok _ decoder_new data [] 0); try done; auto with lia. Qed.
End safety.

(** Garbage: an unknown tag, an overlong integer, a string that is not UTF-8. *)
Definition demo_garbage : list Z :=
  [0x55; 0x04]%Z ++ replicate 20 0x80%Z ++ [0x0F; 1; 0xC3; 0x02; 7; 0xFF]%Z.

Lemma decode_values_total_witness :
  bytes_ok demo_garbage ∧ ¬ overrun 96 104 decoder_new (take 2 demo_garbage) ∧
  (overrun 96 104 decoder_new demo_garbage ∨
   ∃ vs errors, decode_values 96 104 demo_garbage = Ret (vs, errors) ∧
     Forall (value_ok 96 104) vs ∧ length vs + errors ≤ length demo_garbage).
Proof.
  assert (bytes_ok demo_garbage) as H by (apply (bool_decide_unpack _); vm_compute; exact I).
  split; [exact H|]. split; [|exact (decode_values_total 96 104 demo_garbage H)].
  intros (pre & b & post & d & E & Hrun & Hl).
  destruct pre as [|p0 [|p1 [|p2 pre]]]; try discriminate E; vm_compute in E; simplify_eq.
  - vm_compute in Hrun. simplify_eq. by apply Hl.
  - vm_compute in Hrun. simplify_eq. by apply Hl.
Defined.

(** A string length of 2^63 asks for more than any allocation may have, and a
    length of 2^64 passes the test for zero but leaves a counter of zero. *)
Example oversized_string_panics :
  decode_values 96 104 (TAG_STR :: encode_u64 (2 ^ 63)) = Panic ∧
  decode_values 96 104 (TAG_STR :: encode_u128 (2 ^ 64) ++ [65%Z]) = Panic.
Proof. split; vm_compute; reflexivity. Qed.
