(* ===== verification/LogRing.v ===== *)
(** The log service's ring buffer, [firmware/sysmodule/log/src/ringbuf.rs].

    [LogRing] stores variable-length chunks [id: 8][len: 1][idx: 1][data: len]
    in a circular byte array, evicting the oldest ones to make room. The
    definitions follow the source on the raw array, with every slice access
    checked; the theorems relate them to a bounded queue of entries. *)

From S2P Require Import Prelude.

Definition BUF_SIZE : nat := Z.to_nat 4096.
Definition LOG_HEADER_SIZE : nat := 10.

Record LogRing := mkRing {
  ring_buf : list Z;
  ring_head : nat;
  ring_used : nat;
  ring_count : nat;
}.

Record LogChunk := mkChunk {
  chunk_id : Z;
  chunk_idx : Z;
  chunk_data : list Z * list Z;
}.

Record LogIter := mkIter {
  it_ring : LogRing;
  it_offset : nat;
  it_remaining : nat;
}.

Definition ring_new : LogRing := mkRing (replicate BUF_SIZE 0%Z) 0 0 0.

(** [read_at]: the destination, an array of [len] zeroes, after the read. *)
Definition read_at (r : LogRing) (offset len : nat) : exec (list Z) :=
  let start := offset mod BUF_SIZE in
  let! room := usub BUF_SIZE start in
  let first := Nat.min room len in
  let! src := slice (ring_buf r) start (start + first) in
  let! dst := copy_at (replicate len 0%Z) 0 src in
  if decide (first < len) then
    let! src := slice (ring_buf r) 0 (len - first) in
    copy_at dst first src
  else Ret dst.

(** [write_at], on the array. *)
Definition write_at (buf : list Z) (offset : nat) (src : list Z) : exec (list Z) :=
  let start := offset mod BUF_SIZE in
  let! room := usub BUF_SIZE start in
  let first := Nat.min room (length src) in
  let! s1 := slice src 0 first in
  let! buf := copy_at buf start s1 in
  if decide (first < length src) then
    let! s2 := slice src first (length src) in
    copy_at buf 0 s2
  else Ret buf.

Definition evict_oldest (r : LogRing) : exec LogRing :=
  if decide (ring_count r = 0) then Ret r else
  let! hdr := read_at r (ring_head r) LOG_HEADER_SIZE in
  let! b := idx hdr 8 in
  let data_len := Z.to_nat b in
  let frame_size := LOG_HEADER_SIZE + data_len in
  let! used := usub (ring_used r) frame_size in
  Ret (mkRing (ring_buf r) ((ring_head r + frame_size) mod BUF_SIZE) used (ring_count r - 1)).

(** The loop [while self.used + frame_size > BUF_SIZE { self.evict_oldest(); }].
    Running out of [fuel] is reported like a panic, so the theorems exclude it. *)
Fixpoint evict_until (fuel : nat) (r : LogRing) (frame_size : nat) : exec LogRing :=
  if decide (BUF_SIZE < ring_used r + frame_size) then
    match fuel with
    | O => Panic
    | S fuel => let! r := evict_oldest r in evict_until fuel r frame_size
    end
  else Ret r.

Definition ring_push (r : LogRing) (id index : Z) (data : list Z) : exec LogRing :=
  let data_len := Nat.min (length data) 255 in
  let frame_size := LOG_HEADER_SIZE + data_len in
  if decide (BUF_SIZE < frame_size) then Ret r else
  let! r := evict_until (ring_count r) r frame_size in
  let write_pos := (ring_head r + ring_used r) mod BUF_SIZE in
  let hdr := le_bytes 8 id ++ [wrap 8 (Z.of_nat data_len); index] in
  let! buf := write_at (ring_buf r) write_pos hdr in
  let! d := slice data 0 data_len in
  let! buf := write_at buf ((write_pos + LOG_HEADER_SIZE) mod BUF_SIZE) d in
  Ret (mkRing buf (ring_head r) (ring_used r + frame_size) (ring_count r + 1)).

(** The two slices of a chunk's data: its part up to the end of the array, and
    the part that wrapped around. *)
Definition data_slices (buf : list Z) (data_start data_len : nat) : exec (list Z * list Z) :=
  if decide (data_start + data_len ≤ BUF_SIZE) then
    let! a := slice buf data_start (data_start + data_len) in Ret (a, [])
  else
    let! a := slice buf data_start (length buf) in
    let! n := usub data_len (BUF_SIZE - data_start) in
    let! b := slice buf 0 n in Ret (a, b).

(** [Iter::next] *)
Definition iter_next (it : LogIter) : exec (option (LogChunk * LogIter)) :=
  if decide (it_remaining it = 0) then Ret None else
  let buf := ring_buf (it_ring it) in
  let! hdr := read_at (it_ring it) (it_offset it) LOG_HEADER_SIZE in
  let! idb := slice hdr 0 8 in
  let! lenb := idx hdr 8 in
  let! index := idx hdr 9 in
  let data_len := Z.to_nat lenb in
  let data_start := (it_offset it + LOG_HEADER_SIZE) mod BUF_SIZE in
  let! data := data_slices buf data_start data_len in
  Ret (Some (mkChunk (le_val idb) index data,
             mkIter (it_ring it) ((it_offset it + LOG_HEADER_SIZE + data_len) mod BUF_SIZE)
                    (it_remaining it - 1))).

Definition ring_iter (r : LogRing) : LogIter := mkIter r (ring_head r) (ring_count r).

(** The [for i in 0..self.count] loop of [iter_since], over [n] remaining
    entries; [found] is [found_offset] with [found_remaining]. *)
Fixpoint since_loop (n : nat) (r : LogRing) (id : Z) (offset : nat)
    (found : option (nat * nat)) : exec (option (nat * nat)) :=
  match n with
  | O => Ret found
  | S n' =>
      let! hdr := read_at r offset LOG_HEADER_SIZE in
      let! idb := slice hdr 0 8 in
      let! lenb := idx hdr 8 in
      let frame_size := LOG_HEADER_SIZE + Z.to_nat lenb in
      let offset := (offset + frame_size) mod BUF_SIZE in
      since_loop n' r id offset
        (if decide (le_val idb = id) then Some (offset, n') else found)
  end.

Definition iter_since (r : LogRing) (id : Z) : exec LogIter :=
  if decide (id = 0%Z) then Ret (ring_iter r) else
  let! found := since_loop (ring_count r) r id (ring_head r) None in
  Ret match found with
      | Some (off, n) => mkIter r off n
      | None => ring_iter r
      end.

(** Everything an iterator yields: [next] until it returns [None]. *)
Fixpoint iter_collect (fuel : nat) (it : LogIter) : exec (list LogChunk) :=
  match fuel with
  | O => Panic
  | S fuel =>
      let! o := iter_next it in
      match o with
      | None => Ret []
      | Some (c, it) => let! cs := iter_collect fuel it in Ret (c :: cs)
      end
  end.

(** * The queue it implements *)

Record Entry := mkEntry { e_id : Z; e_idx : Z; e_data : list Z }.

Definition entry_ok (e : Entry) : Prop :=
  is_u 64 (e_id e) ∧ length (e_data e) ≤ 255.

Definition entry_bytes (e : Entry) : list Z :=
  le_bytes 8 (e_id e) ++ [Z.of_nat (length (e_data e)); e_idx e] ++ e_data e.

Definition queue_bytes (q : list Entry) : list Z := concat (entry_bytes <$> q).

(** A chunk shows an entry when its two slices, joined, are the entry's data. *)
Definition chunk_entry (c : LogChunk) : Entry :=
  mkEntry (chunk_id c) (chunk_idx c) (fst (chunk_data c) ++ snd (chunk_data c)).

(** The specification of [push]: drop the oldest entries until the new one fits. *)
Fixpoint q_evict (q : list Entry) (size : nat) : list Entry :=
  if decide (BUF_SIZE < length (queue_bytes q) + size) then
    match q with [] => [] | _ :: q => q_evict q size end
  else q.

Definition q_push (q : list Entry) (e : Entry) : list Entry :=
  q_evict q (length (entry_bytes e)) ++ [e].

(** The specification of [iter_since]: what follows the last entry with [id]. *)
Fixpoint after_last (id : Z) (q : list Entry) : option (list Entry) :=
  match q with
  | [] => None
  | e :: q =>
      match after_last id q with
      | Some s => Some s
      | None => if decide (e_id e = id) then Some q else None
      end
  end.

Definition q_since (id : Z) (q : list Entry) : list Entry :=
  if decide (id = 0%Z) then q else default q (after_last id q).

(** The array as seen from position [s]. *)
Definition rot (s : nat) (buf : list Z) : list Z := drop s buf ++ take s buf.

(** The ring [r] holds the queue [q]. *)
Definition ring_repr (r : LogRing) (q : list Entry) : Prop :=
  length (ring_buf r) = BUF_SIZE ∧ ring_head r < BUF_SIZE ∧
  ring_count r = length q ∧ ring_used r = length (queue_bytes q) ∧
  ring_used r ≤ BUF_SIZE ∧ Forall entry_ok q ∧
  ∃ free, rot (ring_head r) (ring_buf r) = queue_bytes q ++ free.

(** * Circular accesses *)

Lemma BUF_SIZE_Z : Z.of_nat BUF_SIZE = 4096%Z.
Proof. reflexivity. Qed.
#[local] Opaque BUF_SIZE.

(** Arithmetic about the buffer size. *)
Ltac ring_lia := pose proof BUF_SIZE_Z; unfold LOG_HEADER_SIZE in *; len.

Lemma mod_ring x : x < 2 * BUF_SIZE →
  x mod BUF_SIZE = if decide (x < BUF_SIZE) then x else x - BUF_SIZE.
Proof.
  intros Hx. case_decide as H; [by apply Nat.mod_small|].
  pose proof BUF_SIZE_Z. symmetry. apply (Nat.mod_unique _ _ 1); lia.
Qed.

Lemma mod_ring_lt x : x mod BUF_SIZE < BUF_SIZE.
Proof. apply Nat.mod_upper_bound. ring_lia. Qed.

Lemma length_rot s buf : length (rot s buf) = length buf.
Proof. unfold rot. len. Qed.
#[local] Hint Rewrite length_rot : len.

Lemma rot_rot s k buf : length buf = BUF_SIZE → s < BUF_SIZE → k ≤ BUF_SIZE →
  rot k (rot s buf) = rot ((s + k) mod BUF_SIZE) buf.
Proof.
  intros Hb Hs Hk. rewrite mod_ring by lia. unfold rot. case_decide as H.
  - rewrite drop_app_le, take_app_le, drop_drop, <- app_assoc by len.
    by rewrite take_take_drop.
  - rewrite drop_app_ge, take_app_ge by len. rewrite length_drop, Hb.
    replace (k - (BUF_SIZE - s)) with (s + k - BUF_SIZE) by lia.
    set (j := s + k - BUF_SIZE). assert (j ≤ s) by lia.
    rewrite take_take, Nat.min_l, app_assoc by lia. f_equal.
    rewrite <- (take_drop s buf) at 3. rewrite (drop_app_le (take s buf)) by len. done.
Qed.

Lemma rot_inv k l : length l = BUF_SIZE → k ≤ BUF_SIZE → rot (BUF_SIZE - k) (rot k l) = l.
Proof.
  intros Hl Hk. unfold rot at 1, rot. rewrite drop_app_length', take_app_length' by len.
  apply take_drop.
Qed.

Lemma take_rot s k n buf : length buf = BUF_SIZE → s < BUF_SIZE → k + n ≤ BUF_SIZE →
  take n (rot ((s + k) mod BUF_SIZE) buf) = take n (drop k (rot s buf)).
Proof.
  intros Hb Hs Hk. rewrite <- rot_rot by lia. unfold rot at 1.
  by rewrite take_app_le by len.
Qed.

(** The two halves of a list cut at a position. *)
Lemma list_cut {A} n (l : list A) : n ≤ length l → ∃ a b, l = a ++ b ∧ length a = n.
Proof. intros. exists (take n l), (drop n l). by rewrite take_drop, length_take_le. Qed.

Lemma copy_at_mid {A} (a b c src : list A) off :
  off = length a → length b = length src → copy_at (a ++ b ++ c) off src = Ret (a ++ src ++ c).
Proof.
  intros -> Hl. rewrite copy_at_app by len. rewrite <- Hl, drop_app_length. by rewrite <- app_assoc.
Qed.

Lemma rot_app a b : rot (length a) (a ++ b) = b ++ a.
Proof. unfold rot. by rewrite drop_app_length, take_app_length. Qed.

(** [read_at] reads a stretch of the rotated array. *)
Lemma read_at_rot r s k n off :
  length (ring_buf r) = BUF_SIZE → s < BUF_SIZE → k + n ≤ BUF_SIZE →
  off mod BUF_SIZE = (s + k) mod BUF_SIZE →
  read_at r off n = Ret (take n (drop k (rot s (ring_buf r)))).
Proof.
  intros Hb Hs Hk Hoff. rewrite <- take_rot by done. rewrite <- Hoff.
  pose proof (mod_ring_lt off) as Hst. unfold read_at. set (st := off mod BUF_SIZE) in *.
  rewrite usub_ok by lia. cbn [ebind]. rewrite slice_ok by len. cbn [ebind].
  rewrite copy_at_0 by len. cbn [ebind].
  destruct (list_cut st (ring_buf r)) as (a & b & Hab & Ha); [lia|]. rewrite Hab in *.
  rewrite length_app in Hb. rewrite <- Ha, rot_app, drop_app_length. case_decide as H.
  - rewrite slice_ok by len. cbn [ebind]. rewrite (take_ge b) by len.
    rewrite copy_at_app by len. rewrite (drop_ge (drop _ _)), app_nil_r by len.
    rewrite drop_0, take_app_le', (take_app_ge b) by len. do 3 f_equal. lia.
  - rewrite (drop_ge (replicate _ _)), app_nil_r by len.
    rewrite (take_app_le' b) by len. do 2 f_equal. lia.
Qed.

Lemma write_at_start buf off src :
  length buf = BUF_SIZE → length src ≤ BUF_SIZE →
  ∃ buf', write_at buf off src = Ret buf' ∧ length buf' = BUF_SIZE ∧
    rot (off mod BUF_SIZE) buf' = src ++ drop (length src) (rot (off mod BUF_SIZE) buf).
Proof.
  intros Hb Hk. pose proof (mod_ring_lt off) as Hst. unfold write_at.
  set (st := off mod BUF_SIZE) in *. rewrite usub_ok by lia. cbn [ebind].
  rewrite slice_ok by len. cbn [ebind]. rewrite Nat.sub_0_r, drop_0.
  destruct (list_cut st buf) as (b01 & b2 & -> & Hb01); [lia|]. rewrite length_app in Hb.
  rewrite <- Hb01. case_decide as H.
  - destruct (list_cut (BUF_SIZE - st) src) as (s1 & s2 & -> & Hs1); [lia|].
    rewrite length_app in *.
    destruct (list_cut (length s2) b01) as (b0 & b1 & -> & Hb0); [lia|].
    rewrite Nat.min_l, take_app_length' by lia.
    rewrite copy_at_app, (drop_ge b2), app_nil_r by lia. cbn [ebind].
    rewrite slice_app_end by lia. cbn [ebind]. rewrite <- app_assoc, copy_at_0 by len.
    rewrite drop_app_length' by lia. rewrite rot_app, length_app in *.
    eexists. split; [done|]. split; [len|]. rewrite app_assoc.
    replace (length b0 + length b1) with (length (s2 ++ b1)) by len.
    rewrite rot_app, <- app_assoc. do 2 f_equal.
    rewrite app_assoc, drop_app_length' by len. done.
  - rewrite Nat.min_r, take_ge by lia.
    destruct (list_cut (length src) b2) as (b & c & -> & Hbl); [lia|].
    rewrite copy_at_mid by lia. eexists. split; [done|]. split; [len|].
    rewrite !rot_app, <- !app_assoc. by rewrite drop_app_length' by len.
Qed.

(** [write_at] splices into the rotated array. *)
Lemma write_at_rot buf s k src off :
  length buf = BUF_SIZE → s < BUF_SIZE → k + length src ≤ BUF_SIZE →
  off mod BUF_SIZE = (s + k) mod BUF_SIZE →
  ∃ buf', write_at buf off src = Ret buf' ∧ length buf' = BUF_SIZE ∧
    rot s buf' = splice (rot s buf) k src.
Proof.
  intros Hb Hs Hk Hoff.
  destruct (write_at_start buf off src) as (buf' & Hw & Hl & Hr); [lia..|].
  exists buf'. split; [done|]. split; [done|]. rewrite Hoff, <- !rot_rot in Hr by lia.
  rewrite <- (rot_inv k (rot s buf')) by len. rewrite Hr.
  set (R := rot s buf). assert (length R = BUF_SIZE) as HR by (subst R; len).
  unfold rot at 2. rewrite drop_app_le, drop_drop, app_assoc by len.
  unfold splice.
  replace (BUF_SIZE - k) with (length (src ++ drop (k + length src) R)) by len.
  apply rot_app.
Qed.

Lemma data_slices_rot buf st n : length buf = BUF_SIZE → st < BUF_SIZE → n ≤ BUF_SIZE →
  ∃ a b, data_slices buf st n = Ret (a, b) ∧ a ++ b = take n (rot st buf).
Proof.
  intros Hb Hs Hn. unfold data_slices.
  destruct (list_cut st buf) as (x & y & -> & Hx); [lia|]. rewrite length_app in Hb.
  rewrite <- Hx, rot_app. case_decide as H.
  - rewrite slice_ok by len. cbn [ebind]. eexists _, _. split; [done|].
    rewrite drop_app_length, app_nil_r, take_app_le' by len. f_equal. lia.
  - rewrite slice_app_end, usub_ok by len. cbn [ebind]. rewrite slice_ok by len. cbn [ebind].
    eexists _, _. split; [done|].
    rewrite drop_0, take_app_le', take_app_ge by len. do 2 f_equal. lia.
Qed.

(** * Entries in the array *)

Definition entry_header (e : Entry) : list Z :=
  le_bytes 8 (e_id e) ++ [Z.of_nat (length (e_data e)); e_idx e].

Lemma entry_bytes_split e : entry_bytes e = entry_header e ++ e_data e.
Proof. unfold entry_bytes, entry_header. by rewrite <- app_assoc. Qed.

Lemma length_entry_header e : length (entry_header e) = LOG_HEADER_SIZE.
Proof. unfold entry_header, LOG_HEADER_SIZE. len. Qed.

Lemma length_entry_bytes e : length (entry_bytes e) = LOG_HEADER_SIZE + length (e_data e).
Proof. by rewrite entry_bytes_split, length_app, length_entry_header. Qed.
#[local] Hint Rewrite length_entry_header length_entry_bytes : len.

Lemma queue_bytes_app q1 q2 : queue_bytes (q1 ++ q2) = queue_bytes q1 ++ queue_bytes q2.
Proof. unfold queue_bytes. by rewrite fmap_app, concat_app. Qed.

Lemma queue_bytes_cons e q : queue_bytes (e :: q) = entry_bytes e ++ queue_bytes q.
Proof. reflexivity. Qed.

Lemma length_queue_cons e q :
  length (queue_bytes (e :: q)) = LOG_HEADER_SIZE + length (e_data e) + length (queue_bytes q).
Proof. rewrite queue_bytes_cons. len. Qed.
#[local] Hint Rewrite queue_bytes_app length_queue_cons : len.

(** [off] is where the ring stores the entries [q2] that follow [q1]. *)
Definition at_entry (r : LogRing) (q1 : list Entry) (off : nat) : Prop :=
  off mod BUF_SIZE = (ring_head r + length (queue_bytes q1)) mod BUF_SIZE.

Lemma at_entry_next r q1 e off :
  at_entry r q1 off →
  at_entry r (q1 ++ [e]) ((off + (LOG_HEADER_SIZE + length (e_data e))) mod BUF_SIZE).
Proof.
  unfold at_entry. intros H. rewrite Nat.Div0.mod_mod.
  rewrite <- Nat.Div0.add_mod_idemp_l, H, Nat.Div0.add_mod_idemp_l. f_equal.
  rewrite queue_bytes_app, length_app, length_queue_cons. cbn [queue_bytes concat fmap list_fmap length]. lia.
Qed.

Section stored.
Context (r : LogRing) (q1 q2 : list Entry) (e : Entry) (off : nat).
Context (Hr : ring_repr r (q1 ++ e :: q2)) (Hoff : at_entry r q1 off).

Lemma stored_ok : entry_ok e.
Proof. destruct Hr as (_&_&_&_&_&Hq&_). apply Forall_app in Hq as [_ Hq]. by inversion Hq. Qed.

Lemma stored_rot : ∃ rest,
  drop (length (queue_bytes q1)) (rot (ring_head r) (ring_buf r)) =
    entry_header e ++ e_data e ++ rest.
Proof.
  destruct Hr as (_&_&_&_&_&_&free&Hf). exists (queue_bytes q2 ++ free).
  rewrite Hf, queue_bytes_app, queue_bytes_cons, <- !app_assoc, drop_app_length.
  by rewrite entry_bytes_split, <- !app_assoc.
Qed.

Lemma stored_header : read_at r off LOG_HEADER_SIZE = Ret (entry_header e).
Proof.
  destruct Hr as (Hb & Hh & _ & Hu & Hub & _). destruct stored_rot as [rest Hrot].
  rewrite (read_at_rot r (ring_head r) (length (queue_bytes q1))); try done.
  - rewrite Hrot. by rewrite take_app_length' by len.
  - rewrite Hu, queue_bytes_app, length_app, length_queue_cons in Hub. lia.
Qed.

Lemma stored_data : ∃ a b,
  data_slices (ring_buf r) ((off + LOG_HEADER_SIZE) mod BUF_SIZE) (length (e_data e)) =
    Ret (a, b) ∧ a ++ b = e_data e.
Proof.
  destruct Hr as (Hb & Hh & _ & Hu & Hub & _). destruct stored_rot as [rest Hrot].
  rewrite Hu, queue_bytes_app, length_app, length_queue_cons in Hub.
  destruct (data_slices_rot (ring_buf r) ((off + LOG_HEADER_SIZE) mod BUF_SIZE)
              (length (e_data e))) as (a & b & Hs & Hab); [done|apply mod_ring_lt|lia|].
  exists a, b. split; [done|]. rewrite Hab.
  rewrite <- Nat.Div0.add_mod_idemp_l, Hoff, Nat.Div0.add_mod_idemp_l, <- Nat.add_assoc.
  rewrite take_rot, <- drop_drop, Hrot, drop_app_length' by len. apply take_app_length.
Qed.
End stored.

(** * The operations on the queue *)

Lemma ring_new_repr : ring_repr ring_new [].
Proof.
  unfold ring_repr, ring_new. cbn [ring_buf ring_head ring_count ring_used].
  split_and!; try done; try len; try ring_lia. by eexists.
Qed.

Lemma header_len e : entry_header e !! 8 = Some (Z.of_nat (length (e_data e))).
Proof. unfold entry_header. by rewrite lookup_app_r by len. Qed.

Lemma header_idx e : entry_header e !! 9 = Some (e_idx e).
Proof. unfold entry_header. by rewrite lookup_app_r by len. Qed.

Lemma header_id e : entry_ok e → ∃ b, slice (entry_header e) 0 8 = Ret b ∧ le_val b = e_id e.
Proof.
  intros [Hid _]. exists (le_bytes 8 (e_id e)). split.
  - apply (slice_app [] (le_bytes 8 (e_id e))); [done|len].
  - by apply le_roundtrip.
Qed.

Lemma evict_oldest_ok r e q : ring_repr r (e :: q) →
  ∃ r', evict_oldest r = Ret r' ∧ ring_repr r' q.
Proof.
  intros Hr. pose proof (stored_header r [] q e (ring_head r) Hr) as Hh.
  destruct Hr as (Hb & Hhd & Hc & Hu & Hub & Hok & free & Hf).
  rewrite length_queue_cons in Hu. cbn [length] in Hc. unfold evict_oldest.
  rewrite decide_False by lia. rewrite Hh by (unfold at_entry; cbn; f_equal; lia). cbn [ebind].
  rewrite (idx_ok _ _ _ (header_len e)). cbn [ebind]. rewrite Nat2Z.id, usub_ok by lia.
  cbn [ebind]. eexists. split; [done|]. unfold ring_repr. cbn [ring_buf ring_head ring_count ring_used].
  split_and!; try done; [apply mod_ring_lt|lia..|by inversion Hok|].
  exists (free ++ entry_bytes e). rewrite <- rot_rot, Hf, queue_bytes_cons, <- app_assoc by lia.
  rewrite <- length_entry_bytes, rot_app. by rewrite <- app_assoc.
Qed.

Lemma q_evict_fits q size : size ≤ BUF_SIZE →
  length (queue_bytes (q_evict q size)) + size ≤ BUF_SIZE.
Proof.
  intros Hs. induction q as [|e q IH]; cbn [q_evict]; case_decide as H; done || lia.
Qed.

Lemma evict_until_ok r q size : size ≤ BUF_SIZE → ring_repr r q →
  ∃ r', evict_until (length q) r size = Ret r' ∧ ring_repr r' (q_evict q size).
Proof.
  intros Hs. revert r. induction q as [|e q IH]; intros r Hr;
    pose proof Hr as (_ & _ & _ & Hu & _); cbn [evict_until q_evict length]; rewrite <- Hu.
  - rewrite !decide_False by (cbn in Hu; lia). eauto.
  - case_decide as H; [|eauto]. destruct (evict_oldest_ok _ _ _ Hr) as (r1 & -> & Hr1).
    cbn [ebind]. by apply IH.
Qed.

Lemma ring_push_ok r q id index data : ring_repr r q → is_u 64 id →
  ∃ r', ring_push r id index data = Ret r' ∧
    ring_repr r' (q_push q (mkEntry id index (take 255 data))).
Proof.
  intros Hr Hid. set (e := mkEntry id index (take 255 data)).
  assert (length (e_data e) = Nat.min (length data) 255) as Hde by (subst e; cbn; len).
  unfold ring_push, q_push. rewrite <- Hde, length_entry_bytes.
  rewrite decide_False by (ring_lia). pose proof Hr as (_ & _ & -> & _).
  destruct (evict_until_ok r q (LOG_HEADER_SIZE + length (e_data e))) as (r1 & -> & Hr1);
    [ring_lia|done|]. cbn [ebind].
  pose proof (q_evict_fits q (LOG_HEADER_SIZE + length (e_data e)) ltac:(ring_lia)) as Hfit.
  set (q1 := q_evict q _) in *. destruct Hr1 as (Hb & Hh & Hc & Hu & Hub & Hok & free & Hf).
  assert (length free = BUF_SIZE - ring_used r1) as Hfree.
  { apply (f_equal length) in Hf. len_simpl. lia. }
  rewrite wrap_small by (unfold is_u; lia). fold (entry_header e).
  change (le_bytes 8 id ++ _) with (entry_header e).
  destruct (write_at_rot (ring_buf r1) (ring_head r1) (ring_used r1) (entry_header e)
    ((ring_head r1 + ring_used r1) mod BUF_SIZE)) as (b1 & -> & Hb1 & Hw1); try done; [len|..].
  { apply Nat.Div0.mod_mod. }
  cbn [ebind]. rewrite slice_ok by lia. cbn [ebind]. rewrite Nat.sub_0_r, drop_0.
  replace (take (length (e_data e)) data) with (e_data e).
  2:{ subst e. cbn [e_data]. by rewrite length_take, <- take_take, firstn_all. }
  destruct (write_at_rot b1 (ring_head r1) (ring_used r1 + LOG_HEADER_SIZE) (e_data e)
    (((ring_head r1 + ring_used r1) mod BUF_SIZE + LOG_HEADER_SIZE) mod BUF_SIZE))
    as (b2 & -> & Hb2 & Hw2); try done; [lia|..].
  { rewrite Nat.Div0.mod_mod, Nat.Div0.add_mod_idemp_l. f_equal. lia. }
  cbn [ebind]. eexists. split; [done|]. unfold ring_repr. cbn [ring_buf ring_head ring_count ring_used].
  rewrite queue_bytes_app, queue_bytes_cons, !length_app, length_entry_bytes. cbn [length queue_bytes concat fmap list_fmap].
  split_and!; try done; try lia.
  - apply Forall_app. split; [done|]. constructor; [split; [done|lia]|constructor].
  - rewrite Hw2, Hw1, Hf, Hu, splice_app.
    rewrite <- length_entry_header with (e := e), <- length_app, splice_app, app_nil_r.
    eexists. rewrite entry_bytes_split, <- !app_assoc. done.
Qed.

(** * Iteration *)

Lemma iter_next_ok r q1 e q2 off :
  ring_repr r (q1 ++ e :: q2) → at_entry r q1 off →
  ∃ c off', iter_next (mkIter r off (length (e :: q2))) = Ret (Some (c, mkIter r off' (length q2))) ∧
    chunk_entry c = e ∧ at_entry r (q1 ++ [e]) off'.
Proof.
  intros Hr Hoff. destruct (header_id e (stored_ok r q1 q2 e Hr)) as (b & Hsl & Hb).
  destruct (stored_data r q1 q2 e off Hr Hoff) as (x & y & Hd & Hxy).
  unfold iter_next. cbn [it_remaining it_ring it_offset]. rewrite decide_False by done.
  rewrite (stored_header r q1 q2 e off Hr Hoff). cbn [ebind]. rewrite Hsl. cbn [ebind].
  rewrite (idx_ok _ _ _ (header_len e)), (idx_ok _ _ _ (header_idx e)). cbn [ebind].
  rewrite Nat2Z.id, Hd. cbn [ebind]. eexists _, _. split; [|split].
  - cbn [length]. rewrite Nat.sub_succ, Nat.sub_0_r. done.
  - unfold chunk_entry. cbn. rewrite Hxy, Hb. by destruct e.
  - rewrite <- Nat.add_assoc. by apply at_entry_next.
Qed.

Lemma iter_collect_S fuel it :
  iter_collect (S fuel) it =
    let! o := iter_next it in
    match o with
    | None => Ret []
    | Some (c, it) => let! cs := iter_collect fuel it in Ret (c :: cs)
    end.
Proof. reflexivity. Qed.

Lemma iter_collect_ok r q1 q2 off :
  ring_repr r (q1 ++ q2) → at_entry r q1 off →
  ∃ cs, iter_collect (S (length q2)) (mkIter r off (length q2)) = Ret cs ∧ chunk_entry <$> cs = q2.
Proof.
  revert q1 off. induction q2 as [|e q2 IH]; intros q1 off Hr Hoff.
  { exists []. done. }
  destruct (iter_next_ok r q1 e q2 off Hr Hoff) as (c & off' & Hn & Hc & Hoff').
  rewrite (cons_middle _ q1), app_assoc in Hr. destruct (IH _ _ Hr Hoff') as (cs & Hcs & Hq).
  exists (c :: cs). split; [|by rewrite fmap_cons, Hc, Hq].
  rewrite iter_collect_S, Hn. cbn [ebind]. change (length (e :: q2)) with (S (length q2)).
  by rewrite Hcs.
Qed.

Lemma since_loop_ok r id q1 q2 off found :
  ring_repr r (q1 ++ q2) → at_entry r q1 off →
  ∃ f, since_loop (length q2) r id off found = Ret f ∧
    match after_last id q2 with
    | Some s => ∃ q0 off', q1 ++ q2 = q0 ++ s ∧ f = Some (off', length s) ∧ at_entry r q0 off'
    | None => f = found
    end.
Proof.
  revert q1 off found. induction q2 as [|e q2 IH]; intros q1 off found Hr Hoff.
  { exists found. done. }
  destruct (header_id e (stored_ok r q1 q2 e Hr)) as (b & Hsl & Hb).
  cbn [since_loop length after_last]. rewrite (stored_header r q1 q2 e off Hr Hoff). cbn [ebind].
  rewrite Hsl. cbn [ebind]. rewrite (idx_ok _ _ _ (header_len e)). cbn [ebind].
  rewrite Nat2Z.id, Hb. pose proof (at_entry_next r q1 e off Hoff) as Hoff'.
  rewrite (cons_middle _ q1), app_assoc in Hr.
  destruct (IH _ _ (if decide (e_id e = id) then
     Some ((off + (LOG_HEADER_SIZE + length (e_data e))) mod BUF_SIZE, length q2) else found)
     Hr Hoff') as (f & -> & Hf). exists f. split; [done|]. rewrite (cons_middle e q1), app_assoc.
  destruct (after_last id q2) as [s|]; [done|]. case_decide; [|done]. subst f. eauto 6.
Qed.

Lemma at_entry_head r : at_entry r [] (ring_head r).
Proof. unfold at_entry. f_equal. cbn. lia. Qed.

Lemma ring_iter_ok r q : ring_repr r q →
  ∃ cs, iter_collect (S (length q)) (ring_iter r) = Ret cs ∧ chunk_entry <$> cs = q.
Proof.
  intros Hr. unfold ring_iter. pose proof Hr as (_ & _ & -> & _).
  exact (iter_collect_ok r [] q _ Hr (at_entry_head r)).
Qed.

Lemma iter_since_ok r q id : ring_repr r q →
  ∃ it cs, iter_since r id = Ret it ∧ iter_collect (S (length (q_since id q))) it = Ret cs ∧
    chunk_entry <$> cs = q_since id q.
Proof.
  intros Hr. destruct (ring_iter_ok r q Hr) as (cs & Hcs & Hq). unfold iter_since, q_since.
  case_decide; [eauto|]. pose proof Hr as (_ & _ & -> & _).
  destruct (since_loop_ok r id [] q _ None Hr (at_entry_head r)) as (f & -> & Hf). cbn [ebind].
  destruct (after_last id q) as [s|] eqn:E; cbn [default].
  - destruct Hf as (q0 & off' & Hs & -> & Hat). cbn [app] in Hs. rewrite Hs in Hr.
    destruct (iter_collect_ok r q0 s off' Hr Hat) as (cs' & ? & ?). eauto.
  - subst f. eauto.
Qed.

(** [after_last] is what it says: the entries behind the last one with [id]. *)
Lemma after_last_spec id q :
  match after_last id q with
  | Some s => ∃ q0 e, q = q0 ++ e :: s ∧ e_id e = id ∧ Forall (λ e, e_id e ≠ id) s
  | None => Forall (λ e, e_id e ≠ id) q
  end.
Proof.
  induction q as [|e q IH]; cbn [after_last]; [done|].
  destruct (after_last id q) as [s|].
  - destruct IH as (q0 & e' & -> & ? & ?). by exists (e :: q0), e'.
  - case_decide; [by exists [], e|by constructor].
Qed.

(** * Histories *)

(** A sequence of [push] calls. *)
Fixpoint push_all (r : LogRing) (ps : list (Z * Z * list Z)) : exec LogRing :=
  match ps with
  | [] => Ret r
  | (id, index, data) :: ps => let! r := ring_push r id index data in push_all r ps
  end.

(** The entries a sequence of [push] calls asks to store. *)
Definition pushed (ps : list (Z * Z * list Z)) : list Entry :=
  (λ '(id, index, data), mkEntry id index (take 255 data)) <$> ps.

(** [q] is the longest run of most recent entries of [all] that fits. *)
Definition newest_fitting (q all : list Entry) : Prop :=
  q `suffix_of` all ∧ length (queue_bytes q) ≤ BUF_SIZE ∧
  ∀ q', q' `suffix_of` all → length (queue_bytes q') ≤ BUF_SIZE → q' `suffix_of` q.

Lemma q_evict_suffix q size : q_evict q size `suffix_of` q.
Proof.
  induction q as [|e q IH]; cbn [q_evict]; case_decide; try done. by apply suffix_cons_r.
Qed.

Lemma q_evict_longest q q' size : q' `suffix_of` q → length (queue_bytes q') + size ≤ BUF_SIZE →
  q' `suffix_of` q_evict q size.
Proof.
  induction q as [|e q IH]; cbn [q_evict]; intros Hs Hl; case_decide as H; try done.
  destruct q' as [|x q']; [apply suffix_nil|].
  apply suffix_cons_inv in Hs as [Hs|Hs]; [rewrite Hs in Hl; lia|auto].
Qed.

Lemma q_push_newest q all e : length (entry_bytes e) ≤ BUF_SIZE →
  newest_fitting q all → newest_fitting (q_push q e) (all ++ [e]).
Proof.
  intros He (Hs & Hl & Hmax). unfold q_push.
  pose proof (q_evict_fits q _ He) as Hfit. split; [|split].
  - apply suffix_app. by rewrite q_evict_suffix.
  - rewrite queue_bytes_app, length_app, queue_bytes_cons, app_nil_r. done.
  - intros q' Hs' Hl'. destruct q' as [|x q' _] using rev_ind; [apply suffix_nil|].
    pose proof (suffix_snoc_inv_1 _ _ _ _ Hs') as ->. apply suffix_snoc_inv_2 in Hs'.
    rewrite queue_bytes_app, length_app, queue_bytes_cons, app_nil_r in Hl'.
    apply suffix_app. apply q_evict_longest; [|done]. apply Hmax; [done|lia].
Qed.

Lemma push_all_ok r q all ps :
  ring_repr r q → newest_fitting q all → Forall (λ p, is_u 64 p.1.1) ps →
  ∃ r' q', push_all r ps = Ret r' ∧ ring_repr r' q' ∧ newest_fitting q' (all ++ pushed ps).
Proof.
  revert r q all. induction ps as [|[[id index] data] ps IH]; intros r q all Hr Hn Hps.
  { exists r, q. by rewrite app_nil_r. }
  apply Forall_cons_1 in Hps as [Hid Hps]. cbn [fst] in Hid.
  destruct (ring_push_ok r q id index data Hr Hid) as (r1 & Hp & Hr1).
  assert (length (entry_bytes (mkEntry id index (take 255 data))) ≤ BUF_SIZE) as He.
  { rewrite length_entry_bytes. cbn [e_data]. rewrite length_take. ring_lia. }
  destruct (IH r1 _ _ Hr1 (q_push_newest _ all _ He Hn) Hps) as (r' & q' & ? & ? & ?).
  exists r', q'. cbn [push_all]. rewrite Hp. cbn [ebind].
  change (pushed (_ :: ps)) with ([mkEntry id index (take 255 data)] ++ pushed ps).
  by rewrite app_assoc.
Qed.

Lemma newest_fitting_nil : newest_fitting [] [].
Proof. split; [done|]. split; [apply Nat.le_0_l|done]. Qed.

(** The ring is the queue of the newest chunks. After any sequence of
    [push] calls on a fresh ring, nothing has panicked, the eviction loops have
    ended, and iterating yields exactly the longest run of most recent chunks
    that fits the 4096 bytes, oldest first, each with its id, its index and its
    data (cut to 255 bytes), whole even where it wraps around the array. *)
Theorem log_ring_keeps_newest (ps : list (Z * Z * list Z)) :
  Forall (λ p, is_u 64 p.1.1) ps →
  ∃ r q cs, push_all ring_new ps = Ret r ∧ newest_fitting q (pushed ps) ∧
    ring_count r = length q ∧
    iter_collect (S (length q)) (ring_iter r) = Ret cs ∧ chunk_entry <$> cs = q.
Proof.
  intros Hps. destruct (push_all_ok ring_new [] [] ps ring_new_repr newest_fitting_nil Hps)
    as (r & q & ? & Hr & ?). destruct (ring_iter_ok r q Hr) as (cs & ? & ?).
  exists r, q, cs. split_and!; try done. apply Hr.
Qed.

Lemma log_ring_keeps_newest_witness :
  ∃ r q cs, push_all ring_new [(7, 0, [1; 2; 3]); (8, 1, replicate 300 9)]%Z = Ret r ∧
    newest_fitting q (pushed [(7, 0, [1; 2; 3]); (8, 1, replicate 300 9)]%Z) ∧
    ring_count r = length q ∧
    iter_collect (S (length q)) (ring_iter r) = Ret cs ∧ chunk_entry <$> cs = q.
Proof.
  apply (log_ring_keeps_newest [(7, 0, [1; 2; 3]); (8, 1, replicate 300 9)]%Z).
  repeat (constructor; [const_u|]). constructor.
Defined.

(** a client that remembers the last id it saw resumes right behind it.
    [iter_since id] on a ring reached by pushes yields all chunks when [id] is
    0 or no stored chunk carries it (it was evicted), and otherwise the chunks
    behind the last one that carries it. *)
Theorem iter_since_resumes (ps : list (Z * Z * list Z)) (id : Z) :
  Forall (λ p, is_u 64 p.1.1) ps →
  ∃ r q it cs, push_all ring_new ps = Ret r ∧ newest_fitting q (pushed ps) ∧
    iter_since r id = Ret it ∧ iter_collect (S (length cs)) it = Ret cs ∧
    ((id = 0%Z ∨ Forall (λ e, e_id e ≠ id) q) ∧ chunk_entry <$> cs = q ∨
     id ≠ 0%Z ∧ ∃ q0 e s, q = q0 ++ e :: s ∧ e_id e = id ∧ Forall (λ e, e_id e ≠ id) s ∧
       chunk_entry <$> cs = s).
Proof.
  intros Hps. destruct (push_all_ok ring_new [] [] ps ring_new_repr newest_fitting_nil Hps)
    as (r & q & ? & Hr & ?). destruct (iter_since_ok r q id Hr) as (it & cs & ? & Hcs & Hq).
  exists r, q, it, cs. rewrite <- Hq, length_fmap in Hcs. split_and!; try done. rewrite Hq.
  unfold q_since. case_decide; [auto|]. pose proof (after_last_spec id q) as Hspec.
  destruct (after_last id q) as [s|]; cbn [default]; [|auto].
  right. split; [done|]. destruct Hspec as (q0 & e & ? & ? & ?). by exists q0, e, s.
Qed.

Lemma iter_since_resumes_witness :
  ∃ r q it cs, push_all ring_new [(7, 0, [1]); (8, 0, []); (7, 1, [2]); (9, 0, [3])]%Z = Ret r ∧
    newest_fitting q (pushed [(7, 0, [1]); (8, 0, []); (7, 1, [2]); (9, 0, [3])]%Z) ∧
    iter_since r 7 = Ret it ∧ iter_collect (S (length cs)) it = Ret cs ∧
    ((7%Z = 0%Z ∨ Forall (λ e, e_id e ≠ 7%Z) q) ∧ chunk_entry <$> cs = q ∨
     7%Z ≠ 0%Z ∧ ∃ q0 e s, q = q0 ++ e :: s ∧ e_id e = 7%Z ∧ Forall (λ e, e_id e ≠ 7%Z) s ∧
       chunk_entry <$> cs = s).
Proof.
  apply (iter_since_resumes [(7, 0, [1]); (8, 0, []); (7, 1, [2]); (9, 0, [3])]%Z 7).
  repeat (constructor; [const_u|]). constructor.
Defined.
