(* ===== verification/LogWriter.v ===== *)
(** The buffering log writer of the device, [shared/log/src/log_writer.rs].

    A log statement formats its arguments into a [LogWriter]. Bytes gather in the
    static [LOG_BUF]; a message that fits is sent in one call when the writer is
    dropped, a longer one opens a streaming session. The calls into the logging
    backend are recorded in order; what the backend answers to
    [__rcard_log_start] is a parameter. The unsafe copies and slices are checked:
    reading or writing outside [LOG_BUF] is a [Panic]. *)

From S2P Require Import Prelude.

Definition LOG_BUF_SIZE : nat := Z.to_nat 128.

Inductive LogCall :=
  | log_send (level species : Z) (data : list Z)
  | log_start (level species : Z)
  | log_write (handle : Z) (data : list Z)
  | log_end (handle : Z).

Inductive Session := Buffered | Active (handle : Z) | Rejected.

Record LogWriter := mkWriter { w_level : Z; w_species : Z; w_pos : nat; w_session : Session }.

(** The writer, [LOG_BUF] and the calls made so far. *)
Record WState := mkWS { ws_writer : LogWriter; ws_buf : list Z; ws_calls : list LogCall }.

Definition log_writer_new (level species : Z) : LogWriter := mkWriter level species 0 Buffered.

Section writer.
(** The backend's answer to [__rcard_log_start]. *)
Context (start_answer : Z → Z → option Z).

Definition flush_buf (s : WState) : exec WState :=
  let w := ws_writer s in
  if decide (w_pos w = 0) then Ret s else
  let started :=
    match w_session w with
    | Active h => (Active h, Some h, ws_calls s)
    | Rejected => (Rejected, None, ws_calls s)
    | Buffered =>
        let calls := ws_calls s ++ [log_start (w_level w) (w_species w)] in
        match start_answer (w_level w) (w_species w) with
        | Some h => (Active h, Some h, calls)
        | None => (Rejected, None, calls)
        end
    end in
  let '(session, handle, calls) := started in
  match handle with
  | None => Ret (mkWS (mkWriter (w_level w) (w_species w) 0 session) (ws_buf s) calls)
  | Some h =>
      let! data := slice (ws_buf s) 0 (w_pos w) in
      Ret (mkWS (mkWriter (w_level w) (w_species w) 0 session) (ws_buf s) (calls ++ [log_write h data]))
  end.

Definition set_pos (w : LogWriter) (pos : nat) : LogWriter :=
  mkWriter (w_level w) (w_species w) pos (w_session w).

(** The loop of [write]; [fuel] bounds its iterations. *)
Fixpoint write_loop (fuel : nat) (s : WState) (bytes : list Z) (offset : nat) : exec WState :=
  match fuel with
  | O => Panic
  | S fuel =>
      if decide (offset < length bytes) then
        let pos := w_pos (ws_writer s) in
        let! remaining_buf := usub LOG_BUF_SIZE pos in
        let chunk := length bytes - offset in
        if decide (chunk ≤ remaining_buf) then
          let! src := slice bytes offset (offset + chunk) in
          let! buf := copy_at (ws_buf s) pos src in
          write_loop fuel (mkWS (set_pos (ws_writer s) (pos + chunk)) buf (ws_calls s)) bytes (offset + chunk)
        else
          let! src := slice bytes offset (offset + remaining_buf) in
          let! buf := copy_at (ws_buf s) pos src in
          let! s := flush_buf (mkWS (set_pos (ws_writer s) LOG_BUF_SIZE) buf (ws_calls s)) in
          match w_session (ws_writer s) with
          | Rejected => Ret s
          | _ => write_loop fuel s bytes (offset + remaining_buf)
          end
      else Ret s
  end.

Definition writer_write (s : WState) (bytes : list Z) : exec WState :=
  match w_session (ws_writer s) with
  | Rejected => Ret s
  | _ => write_loop (length bytes + 2) s bytes 0
  end.

Definition writer_drop (s : WState) : exec WState :=
  let w := ws_writer s in
  match w_session w with
  | Rejected => Ret s
  | Active h =>
      let! s := if decide (0 < w_pos w) then flush_buf s else Ret s in
      Ret (mkWS (ws_writer s) (ws_buf s) (ws_calls s ++ [log_end h]))
  | Buffered =>
      let! data := slice (ws_buf s) 0 (w_pos w) in
      Ret (mkWS w (ws_buf s) (ws_calls s ++ [log_send (w_level w) (w_species w) data]))
  end.

(** A log statement: [bss] are the [Writer::write] calls the formatter makes. *)
Fixpoint write_all (s : WState) (bss : list (list Z)) : exec WState :=
  match bss with
  | [] => Ret s
  | bs :: bss => let! s := writer_write s bs in write_all s bss
  end.

Definition log_statement (level species : Z) (buf : list Z) (bss : list (list Z)) : exec (list LogCall) :=
  let! s := write_all (mkWS (log_writer_new level species) buf []) bss in
  let! s := writer_drop s in
  Ret (ws_calls s).

(** * What has been written *)

Section delivery.
Context (level species : Z).

(** [s] is the writer after the bytes [t], [more] bytes being still to come. *)
Definition holds (more : nat) (s : WState) (t : list Z) : Prop :=
  let w := ws_writer s in
  w_level w = level ∧ w_species w = species ∧ length (ws_buf s) = LOG_BUF_SIZE ∧ w_pos w ≤ LOG_BUF_SIZE ∧
  match w_session w with
  | Buffered => ws_calls s = [] ∧ take (w_pos w) (ws_buf s) = t
  | Active h =>
      start_answer level species = Some h ∧ LOG_BUF_SIZE < length t + more ∧
      ∃ cs, ws_calls s = log_start level species :: (log_write h <$> cs) ∧
        concat cs ++ take (w_pos w) (ws_buf s) = t ∧ Forall (λ c, length c = LOG_BUF_SIZE) cs
  | Rejected =>
      start_answer level species = None ∧ LOG_BUF_SIZE < length t + more ∧ ws_calls s = [log_start level species]
  end.

Lemma BUF_128 : Z.of_nat LOG_BUF_SIZE = 128%Z.
Proof. reflexivity. Qed.
#[local] Opaque LOG_BUF_SIZE.
Ltac proj := cbn [ws_writer ws_buf ws_calls w_level w_species w_pos w_session].
Ltac buf_lia := pose proof BUF_128; len.

(** Appending to the buffer. *)
Lemma take_splice buf pos (src : list Z) : pos + length src ≤ length buf →
  take (pos + length src) (splice buf pos src) = take pos buf ++ src.
Proof.
  intros H. unfold splice. rewrite app_assoc. apply take_app_length'. len.
Qed.

Lemma holds_le more s t : holds more s t → w_pos (ws_writer s) ≤ LOG_BUF_SIZE ∧ length (ws_buf s) = LOG_BUF_SIZE.
Proof. intros (_ & _ & ? & ? & _). done. Qed.

(** Bytes that fit are appended. *)
Lemma holds_append more s t src :
  holds more s t → w_session (ws_writer s) ≠ Rejected →
  w_pos (ws_writer s) + length src ≤ LOG_BUF_SIZE → length src ≤ more →
  holds (more - length src)
    (mkWS (set_pos (ws_writer s) (w_pos (ws_writer s) + length src))
      (splice (ws_buf s) (w_pos (ws_writer s)) src) (ws_calls s)) (t ++ src).
Proof.
  destruct s as [[l sp pos ses] buf calls]. unfold holds, set_pos. proj.
  intros (-> & -> & Hb & Hp & Hs) Hr Hfit Hm. rewrite length_splice by lia.
  split_and!; try done. rewrite take_splice by lia. destruct ses as [|h|]; [| |done].
  - destruct Hs as [-> <-]. done.
  - destruct Hs as (Ha & Hl & cs & -> & <- & Hcs). split; [done|]. rewrite length_app.
    split; [lia|]. exists cs. by rewrite <- app_assoc.
Qed.

(** A full buffer is flushed, more bytes being about to follow. *)
Lemma holds_flush more s t :
  holds more s t → w_session (ws_writer s) ≠ Rejected → w_pos (ws_writer s) = LOG_BUF_SIZE → 0 < more →
  ∃ s', flush_buf s = Ret s' ∧ holds more s' t ∧ w_pos (ws_writer s') = 0.
Proof.
  destruct s as [[l sp pos ses] buf calls]. unfold holds, flush_buf. proj.
  intros (-> & -> & Hb & Hp & Hs) Hr -> Hm. rewrite decide_False by buf_lia.
  assert (take LOG_BUF_SIZE buf = buf) as Htake by (apply take_ge; lia).
  destruct ses as [|h|]; [| |done].
  - destruct Hs as [-> <-]. rewrite Htake. destruct (start_answer level species) as [h|] eqn:Ea; cbn.
    + rewrite slice_ok by lia. rewrite drop_0, Nat.sub_0_r, Htake. cbn [ebind]. eexists. split; [done|]. cbn.
      split_and!; try done; [lia..|]. exists [buf]. cbn. rewrite !app_nil_r. auto.
    + eexists. split; [done|]. cbn. split_and!; try done; lia.
  - destruct Hs as (Ha & Hl & cs & -> & <- & Hcs). rewrite Htake in *. cbn.
    rewrite slice_ok by lia. rewrite drop_0, Nat.sub_0_r, Htake. cbn [ebind]. eexists. split; [done|]. cbn.
    split_and!; try done; [lia|]. exists (cs ++ [buf]). rewrite fmap_app, concat_app. cbn.
    rewrite !app_nil_r. split; [done|]. split; [done|]. apply Forall_app. auto.
Qed.

(** Enough fuel: the first round fills the buffer, each later one takes at least
    a byte. *)
Lemma write_loop_ok fuel s t bytes offset :
  holds (length bytes - offset) s (t ++ take offset bytes) → w_session (ws_writer s) ≠ Rejected →
  offset ≤ length bytes →
  length bytes - offset + 
    (if decide (offset < length bytes ∧ w_pos (ws_writer s) = LOG_BUF_SIZE) then 1 else 0) < fuel →
  ∃ s', write_loop fuel s bytes offset = Ret s' ∧ holds 0 s' (t ++ bytes).
Proof.
  revert s offset. induction fuel as [|fuel IH]; intros s offset Hh Hr Ho Hf; [lia|]. cbn [write_loop].
  destruct (holds_le _ _ _ Hh) as [Hp Hb]. destruct (decide (offset < length bytes)) as [Hlt|Hlt]; cycle 1.
  { exists s. split; [done|]. rewrite take_ge in Hh by lia. by replace (length bytes - offset) with 0 in Hh by lia. }
  rewrite usub_ok by done. cbn [ebind]. set (pos := w_pos (ws_writer s)) in *.
  destruct (decide (length bytes - offset ≤ LOG_BUF_SIZE - pos)) as [Hfit|Hfit].
  - rewrite slice_ok by lia. cbn [ebind]. set (src := take _ (drop offset bytes)).
    assert (length src = length bytes - offset) as Hsrc by (unfold src; len).
    rewrite copy_at_ok by lia. cbn [ebind]. apply IH; cycle 1.
    { done. } { lia. } { rewrite decide_False by lia. lia. }
    replace (offset + (length bytes - offset)) with (length bytes) by lia.
    pose proof (holds_append _ _ _ src Hh Hr ltac:(lia) ltac:(lia)) as Ha.
    rewrite Hsrc, Nat.sub_diag in Ha. rewrite Nat.sub_diag, firstn_all. rewrite <- app_assoc in Ha.
    assert (take offset bytes ++ src = bytes) as E.
    { unfold src. rewrite (take_ge (drop offset bytes)) by (rewrite length_drop; lia). apply take_drop. }
    by rewrite E in Ha.
  - rewrite slice_ok by lia. cbn [ebind]. set (src := take _ (drop offset bytes)).
    assert (length src = LOG_BUF_SIZE - pos) as Hsrc by (unfold src; len).
    rewrite copy_at_ok by lia. cbn [ebind].
    pose proof (holds_append _ _ _ src Hh Hr ltac:(lia) ltac:(lia)) as Ha.
    fold pos in Ha. rewrite Hsrc in Ha. replace (pos + (LOG_BUF_SIZE - pos)) with LOG_BUF_SIZE in Ha by lia.
    assert (take offset bytes ++ src = take (offset + (LOG_BUF_SIZE - pos)) bytes) as E.
    { unfold src. rewrite take_take_drop. f_equal. lia. }
    rewrite <- app_assoc, E in Ha.
    destruct (holds_flush _ _ _ Ha Hr eq_refl ltac:(lia)) as (s' & -> & Hs' & Hp0). cbn [ebind].
    replace (length bytes - offset - (LOG_BUF_SIZE - pos)) with (length bytes - (offset + (LOG_BUF_SIZE - pos))) in Hs' by lia.
    destruct (w_session (ws_writer s')) eqn:Es.
    + apply IH; try done; try lia; [by rewrite Es|]. rewrite Hp0, decide_False by buf_lia.
      destruct (decide (offset < length bytes ∧ pos = LOG_BUF_SIZE)); buf_lia.
    + apply IH; try done; try lia; [by rewrite Es|]. rewrite Hp0, decide_False by buf_lia.
      destruct (decide (offset < length bytes ∧ pos = LOG_BUF_SIZE)); buf_lia.
    + exists s'. split; [done|]. destruct Hs' as (? & ? & ? & ? & Hm). unfold holds. rewrite Es in *.
      destruct Hm as (? & Hl & ?). split_and!; try done. rewrite !length_app, length_take in *. lia.
Qed.

Lemma holds_more more s t : holds 0 s t → holds more s t.
Proof.
  intros (? & ? & ? & ? & H). unfold holds. split_and!; try done.
  destruct (w_session (ws_writer s)); [done|..]; destruct H as (? & ? & ?); split_and!; done || lia.
Qed.

Lemma writer_write_ok s t bytes : holds 0 s t →
  ∃ s', writer_write s bytes = Ret s' ∧ holds 0 s' (t ++ bytes).
Proof.
  intros Hh. unfold writer_write. destruct (w_session (ws_writer s)) eqn:Es.
  1-2: apply write_loop_ok; [|by rewrite Es|lia|case_decide; lia];
    rewrite Nat.sub_0_r, take_0, app_nil_r; by apply holds_more.
  exists s. split; [done|]. destruct Hh as (? & ? & ? & ? & H). unfold holds. rewrite Es in *.
  destruct H as (? & ? & ?). split_and!; try done. rewrite length_app. lia.
Qed.

Lemma write_all_ok s t bss : holds 0 s t → ∃ s', write_all s bss = Ret s' ∧ holds 0 s' (t ++ concat bss).
Proof.
  revert s t. induction bss as [|bs bss IH]; intros s t Hh; cbn [write_all concat].
  { exists s. by rewrite app_nil_r. }
  destruct (writer_write_ok s t bs Hh) as (s1 & -> & H1). cbn [ebind].
  destruct (IH s1 _ H1) as (s2 & -> & H2). exists s2. by rewrite app_assoc.
Qed.

(** What a log statement that wrote [t] must have called. *)
Definition delivered (t : list Z) (calls : list LogCall) : Prop :=
  if decide (length t ≤ LOG_BUF_SIZE) then calls = [log_send level species t]
  else match start_answer level species with
       | None => calls = [log_start level species]
       | Some h => ∃ cs, concat cs = t ∧ Forall (λ c, 0 < length c ≤ LOG_BUF_SIZE) cs ∧
           calls = log_start level species :: (log_write h <$> cs) ++ [log_end h]
       end.

Lemma full_chunks cs : Forall (λ c : list Z, length c = LOG_BUF_SIZE) cs →
  Forall (λ c, 0 < length c ≤ LOG_BUF_SIZE) cs.
Proof. apply Forall_impl. intros c ->. buf_lia. Qed.

Lemma writer_drop_ok s t : holds 0 s t → ∃ s', writer_drop s = Ret s' ∧ delivered t (ws_calls s').
Proof.
  destruct s as [[l sp pos ses] buf calls]. unfold holds, writer_drop, delivered. proj.
  intros (-> & -> & Hb & Hp & Hs). destruct ses as [|h|].
  - destruct Hs as [-> <-]. rewrite slice_ok by lia. cbn [ebind]. eexists. split; [done|].
    rewrite decide_True by len. proj. by rewrite drop_0, Nat.sub_0_r.
  - destruct Hs as (Ha & Hl & cs & -> & <- & Hcs%full_chunks). destruct (decide (0 < pos)) as [Hpos|Hpos].
    + unfold flush_buf. proj. rewrite decide_False by lia. rewrite slice_ok by lia. cbn [ebind].
      eexists. split; [done|]. rewrite decide_False, Ha by lia. proj. rewrite drop_0, Nat.sub_0_r.
      exists (cs ++ [take pos buf]). rewrite concat_app, fmap_app, <- !app_assoc. cbn. rewrite app_nil_r.
      split; [done|]. split; [|done]. apply Forall_app. split; [done|]. constructor; [len|done].
    + cbn [ebind]. eexists. split; [done|]. rewrite decide_False, Ha by lia. proj. exists cs. replace pos with 0 by lia.
      by rewrite take_0, app_nil_r.
  - destruct Hs as (Ha & Hl & ->). eexists. split; [done|]. by rewrite decide_False, Ha by lia.
Qed.

(** A log statement delivers exactly its bytes. Whatever the writes the
    formatter makes and whatever [LOG_BUF] held before: no access leaves the
    buffer and the loop ends; a message of at most 128 bytes is one [send] of
    those bytes; a longer one starts one session and, unless it is rejected,
    sends chunks of 1 to 128 bytes whose concatenation is the message, in order,
    and ends the session. *)
Theorem log_statement_delivers buf bss :
  length buf = LOG_BUF_SIZE →
  ∃ calls, log_statement level species buf bss = Ret calls ∧ delivered (concat bss) calls.
Proof.
  intros Hb. unfold log_statement.
  destruct (write_all_ok (mkWS (log_writer_new level species) buf []) [] bss) as (s & -> & Hs).
  { unfold holds. proj. cbn. split_and!; try done. lia. }
  cbn [ebind]. destruct (writer_drop_ok s _ Hs) as (s' & -> & Hd). cbn [ebind]. by exists (ws_calls s').
Qed.
End delivery.
End writer.

Lemma log_statement_delivers_witness :
  length (replicate 128 0%Z) = LOG_BUF_SIZE ∧
  ∃ calls, log_statement (λ _ _, Some 7%Z) 3 42 (replicate 128 0%Z) [replicate 100 1%Z; replicate 200 2%Z]
    = Ret calls ∧
    delivered (λ _ _, Some 7%Z) 3 42 (concat [replicate 100 1%Z; replicate 200 2%Z]) calls.
Proof.
  split; [reflexivity|].
  apply (log_statement_delivers (λ _ _, Some 7%Z) 3 42 (replicate 128 0%Z)). reflexivity.
Defined.
