(* ===== verification/LogService.v ===== *)
(** The log service, [firmware/sysmodule/log/src/server.rs], and the host's
    reading of a dump of its entries ([host/usb/src/fob_reader.rs]).

    The static buffers and the counters are the service's state, together with
    what it wrote to the USART and the reactor notifications it sent. The COBS
    encoder is a third-party crate and a parameter. A lease is what the kernel
    lets the server see of the client's memory: its length, and its bytes unless
    the borrow fails. *)

From S2P Require Import Prelude LogRing LogFormat LogDecoder LogCodec.

(** * Levels and metadata: [log_level.rs], [metadata.rs] *)

Inductive LogLevel := LPanic | LError | LWarn | LInfo | LDebug | LTrace.

Definition level_u8 (l : LogLevel) : Z :=
  match l with LPanic => 0 | LError => 1 | LWarn => 2 | LInfo => 3 | LDebug => 4 | LTrace => 5 end%Z.

(** The valid bit patterns of [LogLevel]. *)
Definition level_try_from (b : Z) : option LogLevel :=
  match b with
  | 0 => Some LPanic | 1 => Some LError | 2 => Some LWarn | 3 => Some LInfo | 4 => Some LDebug
  | 5 => Some LTrace | _ => None
  end%Z.

Record LogMetadata := mkMeta {
  m_level : LogLevel;
  m_timestamp : Z;
  m_source : Z;
  m_generation : Z;
  m_log_id : Z;
  m_log_species : Z;
}.

Definition META_SIZE : nat := 29.

(** [IntoBytes::as_bytes] of the packed structure, and [try_read_from_bytes]. *)
Definition metadata_bytes (m : LogMetadata) : list Z :=
  level_u8 (m_level m) :: le_bytes 8 (m_timestamp m) ++ le_bytes 2 (m_source m) ++
  le_bytes 2 (m_generation m) ++ le_bytes 8 (m_log_id m) ++ le_bytes 8 (m_log_species m).

Definition metadata_try_read (b : list Z) : option LogMetadata :=
  match b with
  | level :: rest =>
      if decide (length b = META_SIZE) then
        match level_try_from level with
        | Some l => Some (mkMeta l (le_val (take 8 rest)) (le_val (take 2 (drop 8 rest)))
                        (le_val (take 2 (drop 10 rest))) (le_val (take 8 (drop 12 rest)))
                        (le_val (take 8 (drop 20 rest))))
        | None => None
        end
      else None
  | [] => None
  end.

(** * Leases *)

Record Lease := mkLease { lease_len : nat; lease_bytes : option (list Z) }.

(** [read_range(0, dest)], the result of which is ignored: [dest] afterwards. *)
Definition read_range (l : Lease) (dest : list Z) : list Z :=
  match lease_bytes l with
  | Some bs => take (length dest) bs ++ drop (length bs) dest
  | None => dest
  end.

(** A leased buffer to write to; a failing borrow leaves it alone. *)
Record WLease := mkWLease { wl_ok : bool; wl_bytes : list Z }.

Definition write_range (l : WLease) (off : nat) (src : list Z) : WLease :=
  if wl_ok l && bool_decide (off ≤ length (wl_bytes l)) then
    mkWLease true (splice (wl_bytes l) off (take (length (wl_bytes l) - off) src))
  else l.

(** * The service *)

Definition MAX_INLINE_LOG_SIZE : nat := Z.to_nat 128.
Definition MAX_RAW_CHUNK : nat := Z.to_nat 265.
Definition METHOD_BUF_SIZE : nat := META_SIZE + MAX_INLINE_LOG_SIZE + 1.
Definition TYPE_LOG_FRAGMENT : Z := 0x01.

(** [cobs::max_encoding_length]. *)
Definition max_encoding_length (n : nat) : nat :=
  n + n / 254 + (if decide (0 < n mod 254) then 1 else 0).
Definition MAX_ENCODED_CHUNK : nat := max_encoding_length MAX_RAW_CHUNK + 1.

Record LogState := mkLog {
  ring : LogRing;
  next_stream_id : Z;
  next_log_id : Z;
  method_buf : list Z;
  frame_raw : list Z;
  usart : list (list Z);
  notified : list Z;
}.

Definition log_state_new : LogState :=
  mkLog ring_new 1 1 (replicate METHOD_BUF_SIZE 0%Z) (replicate MAX_RAW_CHUNK 0%Z) [] [].

Record LogResource := mkResource { r_metadata : LogMetadata; r_stream_id : Z; r_idx : Z }.

(** The sender of a message. *)
Record Sender := mkSender { task_index : Z; sender_generation : Z }.

Definition level_priority (l : LogLevel) : Z :=
  match l with LPanic => 5 | LError => 4 | LWarn => 3 | LInfo => 2 | LDebug => 1 | LTrace => 0 end%Z.

Definition notify_logs (s : LogState) (l : LogLevel) : LogState :=
  mkLog (ring s) (next_stream_id s) (next_log_id s) (method_buf s) (frame_raw s) (usart s)
    (notified s ++ [level_priority l]).

Section service.
Context (cobs_encode : list Z → list Z).

(** One round of [send_frame]. *)
Definition send_chunk (s : LogState) (stream_id : Z) (chunk : list Z) : exec LogState :=
  let chunk_len := length chunk in
  let raw_len := 1 + 9 + chunk_len in
  let! raw := set_idx (frame_raw s) 0 TYPE_LOG_FRAGMENT in
  let! raw := copy_at raw 1 (le_bytes 8 stream_id) in
  let! raw := set_idx raw 9 (wrap 8 (Z.of_nat chunk_len)) in
  let! raw := copy_at raw 10 chunk in
  let! src := slice raw 0 raw_len in
  let encoded := cobs_encode src in
  if decide (length encoded < MAX_ENCODED_CHUNK) then
    Ret (mkLog (ring s) (next_stream_id s) (next_log_id s) (method_buf s) raw
           (usart s ++ [encoded ++ [0%Z]]) (notified s))
  else Panic.

Fixpoint send_loop (fuel : nat) (s : LogState) (stream_id : Z) (data : list Z) (offset : nat)
  : exec LogState :=
  match fuel with
  | O => Panic
  | S fuel =>
      if decide (offset < length data) then
        let chunk_len := Nat.min (length data - offset) 255 in
        let! chunk := slice data offset (offset + chunk_len) in
        let! s := send_chunk s stream_id chunk in
        send_loop fuel s stream_id data (offset + chunk_len)
      else Ret s
  end.

Definition send_frame (s : LogState) (stream_id : Z) (data : list Z) : exec LogState :=
  send_loop (S (length data)) s stream_id data 0.

Definition alloc_ids (s : LogState) : Z * Z * LogState :=
  (next_stream_id s, next_log_id s,
   mkLog (ring s) (wrap 64 (next_stream_id s + 1)) (wrap 64 (next_log_id s + 1)) (method_buf s)
     (frame_raw s) (usart s) (notified s)).

Definition set_ring (s : LogState) (r : LogRing) : LogState :=
  mkLog r (next_stream_id s) (next_log_id s) (method_buf s) (frame_raw s) (usart s) (notified s).

Definition set_method_buf (s : LogState) (b : list Z) : LogState :=
  mkLog (ring s) (next_stream_id s) (next_log_id s) b (frame_raw s) (usart s) (notified s).

(** The body of [Log::log]'s [METHOD_BUF.with]: the buffer, and the message in it. *)
Definition fill_method_buf (buf : list Z) (m : LogMetadata) (data : Lease) : exec (list Z * list Z) :=
  let! buf := copy_at buf 0 (metadata_bytes m) in
  let! room := usub (length buf) META_SIZE in
  let! room := usub room 1 in
  let data_len := Nat.min (lease_len data) room in
  let! dest := slice buf META_SIZE (META_SIZE + data_len) in
  let! buf := copy_at buf META_SIZE (read_range data dest) in
  let! buf := set_idx buf (META_SIZE + data_len) TAG_END_OF_STREAM in
  let! msg := slice buf 0 (META_SIZE + data_len + 1) in
  Ret (buf, msg).

(** [Log::log]; [now] is the kernel's timer. *)
Definition svc_log (s : LogState) (now : Z) (sender : Sender) (level : LogLevel) (species : Z)
    (data : Lease) : exec LogState :=
  let '(stream_id, log_id, s) := alloc_ids s in
  let m := mkMeta level now (wrap 16 (task_index sender)) (sender_generation sender) log_id species in
  let! r := fill_method_buf (method_buf s) m data in
  let '(buf, msg) := r in
  let! s := send_frame (set_method_buf s buf) stream_id msg in
  let! r := ring_push (ring s) log_id 0 msg in
  Ret (notify_logs (set_ring s r) level).

(** [Log::start]. *)
Definition svc_start (s : LogState) (now : Z) (sender : Sender) (level : LogLevel) (species : Z)
  : exec (LogResource * LogState) :=
  let '(stream_id, log_id, s) := alloc_ids s in
  let m := mkMeta level now (wrap 16 (task_index sender)) (sender_generation sender) log_id species in
  let! s := send_frame s stream_id (metadata_bytes m) in
  let! r := ring_push (ring s) log_id 0 (metadata_bytes m) in
  Ret (mkResource m stream_id 1, set_ring s r).

(** [Log::write]. *)
Definition svc_write (s : LogState) (res : LogResource) (data : Lease) : exec (LogResource * LogState) :=
  let len := Nat.min (lease_len data) MAX_INLINE_LOG_SIZE in
  let! dest := slice (method_buf s) 0 len in
  let! buf := copy_at (method_buf s) 0 (read_range data dest) in
  let! msg := slice buf 0 len in
  let! s := send_frame (set_method_buf s buf) (r_stream_id res) msg in
  let! r := ring_push (ring s) (m_log_id (r_metadata res)) (r_idx res) msg in
  Ret (mkResource (r_metadata res) (r_stream_id res) (Z.min 255 (r_idx res + 1)), set_ring s r).

(** [Drop for LogResource]. *)
Definition svc_drop (s : LogState) (res : LogResource) : exec LogState :=
  let! s := send_frame s (r_stream_id res) [TAG_END_OF_STREAM] in
  let! r := ring_push (ring s) (m_log_id (r_metadata res)) (r_idx res) [TAG_END_OF_STREAM] in
  Ret (set_ring s r).
End service.

(** [Log::consume_since]: the loop over the chunks, and the call. *)
Fixpoint consume_loop (fuel : nat) (it : LogIter) (buf : WLease) (offset : nat) : exec (nat * WLease) :=
  match fuel with
  | O => Panic
  | S fuel =>
      let! next := iter_next it in
      match next with
      | None => Ret (offset, buf)
      | Some (chunk, it) =>
          let '(d0, d1) := chunk_data chunk in
          let data_len := length d0 + length d1 in
          if decide (length (wl_bytes buf) < offset + (LOG_HEADER_SIZE + data_len)) then Ret (offset, buf) else
          let header := le_bytes 8 (chunk_id chunk) ++ [wrap 8 (Z.of_nat data_len); chunk_idx chunk] in
          let buf := write_range buf offset header in
          let offset := offset + LOG_HEADER_SIZE in
          let '(offset, buf) :=
            if decide (d0 = []) then (offset, buf) else (offset + length d0, write_range buf offset d0) in
          let '(offset, buf) :=
            if decide (d1 = []) then (offset, buf) else (offset + length d1, write_range buf offset d1) in
          consume_loop fuel it buf offset
      end
  end.

Inductive LogError := Unauthorized.

Definition consume_since (subscribers : list Z) (s : LogState) (sender : Sender) (since_id : Z)
    (buf : WLease) : exec (result nat LogError * WLease) :=
  if bool_decide (task_index sender ∈ subscribers) then
    let! it := iter_since (ring s) since_id in
    let! r := consume_loop (S (it_remaining it)) it buf 0 in
    Ret (Ok (fst r), snd r)
  else Ret (Err Unauthorized, buf).

(** * The host: [parse_log_entries] *)

(** [LogEntry] of [host/device/src/logs.rs]. *)
Record LogEntry := mkLogEntry {
  le_level : LogLevel;
  le_timestamp : Z;
  le_source : Z;
  le_log_id : Z;
  le_log_species : Z;
  le_values : list OwnedValue;
  le_truncated : bool;
}.

Definition log_entry_of (m : LogMetadata) (values : list OwnedValue) : LogEntry :=
  mkLogEntry (m_level m) (m_timestamp m) (m_source m) (m_log_id m) (m_log_species m) values false.

Inductive SinkEvent :=
  | Structured (e : LogEntry)
  | LogMetadataError
  | LogDecodeError.

Section host.
Context (value_size field_size : Z).

(** What is reported for an entry. *)
Definition entry_events (idx : Z) (payload : list Z) : exec (list SinkEvent) :=
  if decide (idx = 0%Z ∧ META_SIZE ≤ length payload) then
    let! head := slice payload 0 META_SIZE in
    match metadata_try_read head with
    | Some m =>
        let! arg_data := slice payload META_SIZE (length payload) in
        let! r := decode_values value_size field_size arg_data in
        Ret (replicate (snd r) LogDecodeError ++ [Structured (log_entry_of m (fst r))])
    | None => Ret [LogMetadataError]
    end
  else Ret [].

Fixpoint parse_loop (fuel : nat) (data : list Z) (offset : nat) : exec (list SinkEvent) :=
  match fuel with
  | O => Panic
  | S fuel =>
      if decide (offset + LOG_HEADER_SIZE ≤ length data) then
        let! b := idx data (offset + 8) in
        let data_len := Z.to_nat b in
        let! index := idx data (offset + 9) in
        if decide (length data < offset + LOG_HEADER_SIZE + data_len) then Ret [] else
        let! payload := slice data (offset + LOG_HEADER_SIZE) (offset + LOG_HEADER_SIZE + data_len) in
        let! events := entry_events index payload in
        let! rest := parse_loop fuel data (offset + (LOG_HEADER_SIZE + data_len)) in
        Ret (events ++ rest)
      else Ret []
  end.

Definition parse_log_entries (data : list Z) : exec (list SinkEvent) :=
  parse_loop (S (length data)) data 0.
End host.
