(* ===== verification/LogPipeline.v ===== *)
(** From a task's log statement to the host: the log service keeps its invariant
    over any history of calls, and what it stores is what the host reports. *)

From S2P Require Import Prelude LogRing LogFormat LogDecoder LogCodec LogService.

(** * Metadata *)

Definition meta_ok (m : LogMetadata) : Prop :=
  is_u 64 (m_timestamp m) ∧ is_u 16 (m_source m) ∧ is_u 16 (m_generation m) ∧
  is_u 64 (m_log_id m) ∧ is_u 64 (m_log_species m).

Lemma length_metadata_bytes m : length (metadata_bytes m) = META_SIZE.
Proof. unfold metadata_bytes. len. unfold META_SIZE. cbn [length]. len. Qed.

Lemma metadata_roundtrip m : meta_ok m → metadata_try_read (metadata_bytes m) = Some m.
Proof.
  destruct m as [l ts src gen id sp]. unfold meta_ok. cbn [m_timestamp m_source m_generation m_log_id m_log_species].
  intros (H1 & H2 & H3 & H4 & H5). unfold metadata_try_read.
  assert (length (metadata_bytes (mkMeta l ts src gen id sp)) = META_SIZE) as Hl by apply length_metadata_bytes.
  unfold metadata_bytes in *. cbn [m_level m_timestamp m_source m_generation m_log_id m_log_species] in *.
  rewrite decide_True by done.
  rewrite take_app_length' by len. rewrite (drop_app_length' _ _ 8) by len.
  rewrite take_app_length' by len.
  rewrite (drop_app_ge _ _ 10), (drop_app_ge _ _ 12), (drop_app_ge _ _ 20) by len. autorewrite with len.
  cbn [Nat.sub].
  rewrite (drop_app_length' _ _ 2) by len. rewrite take_app_length' by len.
  rewrite (drop_app_ge _ _ 4), (drop_app_ge _ _ 12) by len. autorewrite with len. cbn [Nat.sub].
  rewrite (drop_app_length' _ _ 2) by len. rewrite take_app_length' by len.
  rewrite (drop_app_ge _ _ 10) by len. autorewrite with len. cbn [Nat.sub].
  rewrite (drop_app_length' _ _ 8) by len. rewrite (take_ge (le_bytes 8 sp)) by len.
  rewrite !le_roundtrip by done. by destruct l.
Qed.

(** * The wire *)

Definition log_fragment (stream_id : Z) (chunk : list Z) : list Z :=
  TYPE_LOG_FRAGMENT :: le_bytes 8 stream_id ++ [Z.of_nat (length chunk)] ++ chunk.

Lemma max_encoding_fits n : n ≤ MAX_RAW_CHUNK → max_encoding_length n < MAX_ENCODED_CHUNK.
Proof.
  intros Hn. change MAX_ENCODED_CHUNK with 268. change MAX_RAW_CHUNK with 265 in Hn.
  unfold max_encoding_length. assert (n / 254 ≤ 1) by (apply Nat.lt_succ_r, Nat.Div0.div_lt_upper_bound; lia).
  case_decide; lia.
Qed.

(** The state of the service but for its scratch frame and the USART. *)
Definition sent (s : LogState) (raw : list Z) (frames : list (list Z)) : LogState :=
  mkLog (ring s) (next_stream_id s) (next_log_id s) (method_buf s) raw (usart s ++ frames) (notified s).

Section wire.
Context (cobs_encode : list Z → list Z).
Hypothesis cobs_bound : ∀ raw, length (cobs_encode raw) ≤ max_encoding_length (length raw).

Definition wire_frame (stream_id : Z) (chunk : list Z) : list Z :=
  cobs_encode (log_fragment stream_id chunk) ++ [0%Z].

Lemma send_chunk_ok s sid chunk : length (frame_raw s) = MAX_RAW_CHUNK → length chunk ≤ 255 →
  ∃ raw, send_chunk cobs_encode s sid chunk = Ret (sent s raw [wire_frame sid chunk]) ∧
    length raw = MAX_RAW_CHUNK.
Proof.
  intros Hr Hc. unfold send_chunk. destruct (frame_raw s) as [|r0 rest] eqn:Er; [done|].
  assert (length rest = 264) as Hrest by (change MAX_RAW_CHUNK with 265 in Hr; cbn [length] in Hr; lia).
  rewrite set_idx_ok by (cbn [length]; lia). cbn [ebind].
  change (<[0:=TYPE_LOG_FRAGMENT]> (r0 :: rest)) with ([TYPE_LOG_FRAGMENT] ++ rest).
  rewrite copy_at_app by len. cbn [ebind]. rewrite set_idx_app by len. cbn [ebind].
  rewrite copy_at_app by len. cbn [ebind].
  rewrite wrap_small by (unfold is_u; lia). autorewrite with len.
  set (w := ((([TYPE_LOG_FRAGMENT] ++ le_bytes 8 sid) ++ [Z.of_nat (length chunk)]) ++ chunk)).
  assert (w = log_fragment sid chunk) as Hw by (unfold w, log_fragment; by rewrite <- !app_assoc).
  assert (length w = 1 + 9 + length chunk) as Hlw by (unfold w; len).
  rewrite slice_ok by len. cbn [ebind]. rewrite drop_0, take_app_length' by lia.
  rewrite decide_True.
  - eexists. rewrite Hw. split; [done|]. rewrite length_app, <- Hw, Hlw. change MAX_RAW_CHUNK with 265. len.
  - eapply Nat.le_lt_trans; [apply cobs_bound|]. apply max_encoding_fits. change MAX_RAW_CHUNK with 265. lia.
Qed.

Lemma send_loop_ok fuel s sid data offset : length (frame_raw s) = MAX_RAW_CHUNK →
  length data - offset < fuel →
  ∃ raw cs, send_loop cobs_encode fuel s sid data offset = Ret (sent s raw (wire_frame sid <$> cs)) ∧
    length raw = MAX_RAW_CHUNK ∧ concat cs = drop offset data ∧ Forall (λ c, 0 < length c ≤ 255) cs.
Proof.
  revert s offset. induction fuel as [|fuel IH]; intros s offset Hr Hf; [lia|]. cbn [send_loop].
  case_decide as Ho; cycle 1.
  { exists (frame_raw s), []. rewrite drop_ge by lia. destruct s. unfold sent. cbn. by rewrite app_nil_r. }
  rewrite slice_ok by lia. cbn [ebind]. set (chunk := take _ _).
  assert (length chunk = Nat.min (length data - offset) 255) as Hc by (unfold chunk; len).
  destruct (send_chunk_ok s sid chunk Hr) as (raw & -> & Hraw); [lia|]. cbn [ebind].
  destruct (IH (sent s raw [wire_frame sid chunk]) (offset + Nat.min (length data - offset) 255))
    as (raw2 & cs & -> & Hr2 & Hcs & Hl); [done|lia|].
  exists raw2, (chunk :: cs). split; [unfold sent; cbn; by rewrite <- app_assoc|]. split; [done|].
  split; [|constructor; [lia|done]]. cbn [concat]. rewrite Hcs. unfold chunk.
  replace (offset + Nat.min (length data - offset) 255 - offset) with (Nat.min (length data - offset) 255) by lia.
  rewrite <- drop_drop. apply take_drop.
Qed.

Lemma send_frame_ok s sid data : length (frame_raw s) = MAX_RAW_CHUNK →
  ∃ raw cs, send_frame cobs_encode s sid data = Ret (sent s raw (wire_frame sid <$> cs)) ∧
    length raw = MAX_RAW_CHUNK ∧ concat cs = data ∧ Forall (λ c, 0 < length c ≤ 255) cs.
Proof. intros Hr. apply (send_loop_ok _ s sid data 0 Hr). lia. Qed.
End wire.

(** * The service's invariant *)

(** [s] stores the entries [q], oldest first. *)
Definition svc_ok (s : LogState) (q : list Entry) : Prop :=
  ring_repr (ring s) q ∧ length (method_buf s) = METHOD_BUF_SIZE ∧
  length (frame_raw s) = MAX_RAW_CHUNK ∧ (0 < next_log_id s < 2 ^ 64)%Z ∧
  Forall (λ e, 0 < e_id e < next_log_id s)%Z q.

Definition res_ok (s : LogState) (r : LogResource) : Prop :=
  (0 < m_log_id (r_metadata r) < next_log_id s)%Z.

(** A well-behaved client: the borrow fails, or gives the bytes the lease covers. *)
Definition lease_ok (l : Lease) : Prop :=
  match lease_bytes l with Some bs => length bs = lease_len l | None => True end.

(** The bytes the server takes from a lease, [old] being in its buffer. *)
Definition taken (l : Lease) (n : nat) (old : list Z) : list Z :=
  match lease_bytes l with Some bs => take n bs | None => take n old end.

Lemma svc_ok_new : svc_ok log_state_new [].
Proof. split; [apply ring_new_repr|]. by repeat split. Qed.

Lemma length_read_range l dest : length (read_range l dest) = length dest.
Proof. unfold read_range. destruct (lease_bytes l); [|done]. len. Qed.

Lemma ids_grow (q : list Entry) (n n' : Z) : (n <= n')%Z →
  Forall (λ e, 0 < e_id e < n)%Z q → Forall (λ e, 0 < e_id e < n')%Z q.
Proof. intros Hn. apply Forall_impl. intros e. lia. Qed.

Lemma q_push_ids q e (n : Z) : Forall (λ e, 0 < e_id e < n)%Z q → (0 < e_id e < n)%Z →
  Forall (λ e, 0 < e_id e < n)%Z (q_push q e).
Proof.
  intros Hq He. unfold q_push. apply Forall_app. split; [|by constructor].
  destruct (q_evict_suffix q (length (entry_bytes e))) as [k Hk]. rewrite Hk in Hq.
  by apply Forall_app in Hq as [_ ?].
Qed.

Section operations.
Context (cobs_encode : list Z → list Z).
Hypothesis cobs_bound : ∀ raw, length (cobs_encode raw) ≤ max_encoding_length (length raw).

(** Sending a message and storing it, the step every operation ends with. *)
Lemma send_push_ok s q sid id idx msg :
  svc_ok s q → (0 < id < next_log_id s)%Z →
  ∃ raw cs r, send_frame cobs_encode s sid msg = Ret (sent s raw (wire_frame cobs_encode sid <$> cs)) ∧
    ring_push (ring s) id idx msg = Ret r ∧ concat cs = msg ∧
    svc_ok (set_ring (sent s raw (wire_frame cobs_encode sid <$> cs)) r)
      (q_push q (mkEntry id idx (take 255 msg))).
Proof.
  intros (Hr & Hm & Hf & Hn & Hq) Hid.
  destruct (send_frame_ok _ cobs_bound s sid msg Hf) as (raw & cs & Hs & Hraw & Hcs & _).
  destruct (ring_push_ok (ring s) q id idx msg Hr) as (r & Hp & Hr'); [unfold is_u; lia|].
  exists raw, cs, r. split; [exact Hs|]. split; [exact Hp|]. split; [done|].
  split; [exact Hr'|]. split; [done|]. split; [done|]. split; [exact Hn|]. by apply q_push_ids.
Qed.

(** The message [log] builds in [METHOD_BUF]. *)
Lemma log_message m l buf : length buf = METHOD_BUF_SIZE →
  let n := Nat.min (lease_len l) MAX_INLINE_LOG_SIZE in
  lease_ok l →
  ∃ buf', length buf' = METHOD_BUF_SIZE ∧
    fill_method_buf buf m l =
      Ret (buf', metadata_bytes m ++ taken l n (drop META_SIZE buf) ++ [TAG_END_OF_STREAM]).
Proof.
  intros Hb n Hl. unfold fill_method_buf. change METHOD_BUF_SIZE with 158 in *. pose proof (length_metadata_bytes m) as Hm.
  change META_SIZE with 29 in *. rewrite copy_at_0 by lia. rewrite Hm. cbn [ebind].
  set (rest := drop 29 buf). assert (length rest = 129) as Hrest by (unfold rest; len).
  rewrite usub_ok by len. cbn [ebind]. rewrite usub_ok by len. cbn [ebind].
  replace (Nat.min (lease_len l) _) with n by (unfold n; change MAX_INLINE_LOG_SIZE with 128; len).
  assert (n ≤ 128) by (unfold n; change MAX_INLINE_LOG_SIZE with 128; lia).
  rewrite slice_ok by len. cbn [ebind]. rewrite drop_app_length' by lia.
  set (dest := take (29 + n - 29) rest). assert (length dest = n) as Hdest by (unfold dest; len).
  rewrite (copy_at_app (metadata_bytes m) rest) by (rewrite ?length_read_range; lia). cbn [ebind].
  rewrite length_read_range, Hdest.
  assert (read_range l dest = taken l n rest) as Hread.
  { unfold read_range, taken. unfold lease_ok in Hl. destruct (lease_bytes l) as [bs|].
    - rewrite Hdest. rewrite (drop_ge dest), app_nil_r; [done|]. rewrite Hdest, Hl. unfold n. lia.
    - unfold dest. f_equal. lia. }
  assert (length (taken l n rest) = n) as Htk by (rewrite <- Hread; by rewrite length_read_range).
  rewrite Hread. rewrite set_idx_app by len. cbn [ebind]. rewrite slice_ok by len. cbn [ebind].
  rewrite drop_0, take_app_length' by len. rewrite <- app_assoc.
  eexists. split; [|done]. len.
Qed.

(** The metadata of the next message. *)
Definition next_meta (s : LogState) (now : Z) (sender : Sender) (level : LogLevel) (species : Z) : LogMetadata :=
  mkMeta level now (wrap 16 (task_index sender)) (sender_generation sender) (next_log_id s) species.

Lemma alloc_ids_ok s q : svc_ok s q → (next_log_id s < 2 ^ 64 - 1)%Z →
  ∃ s', alloc_ids s = (next_stream_id s, next_log_id s, s') ∧ svc_ok s' q ∧
    next_log_id s' = (next_log_id s + 1)%Z ∧ method_buf s' = method_buf s ∧ usart s' = usart s.
Proof.
  intros (Hr & Hm & Hf & Hn & Hq) Hlt. eexists. split; [done|].
  assert (wrap 64 (next_log_id s + 1) = next_log_id s + 1)%Z as E by (apply wrap_small; unfold is_u; lia).
  split; [|split_and!; [exact E|done..]]. split_and!; try done; cbn [next_log_id]; rewrite ?E; try lia.
  eapply ids_grow; [|done]. lia.
Qed.

(** Storing with another [METHOD_BUF]. *)
Lemma svc_ok_method_buf s q buf : svc_ok s q → length buf = METHOD_BUF_SIZE → svc_ok (set_method_buf s buf) q.
Proof. intros (Hr & _ & Hrest) Hb. exact (conj Hr (conj Hb Hrest)). Qed.

Lemma svc_log_ok s q now sender level species l :
  svc_ok s q → (next_log_id s < 2 ^ 64 - 1)%Z → lease_ok l →
  let msg := metadata_bytes (next_meta s now sender level species) ++
    taken l (Nat.min (lease_len l) MAX_INLINE_LOG_SIZE)
      (drop META_SIZE (method_buf s)) ++ [TAG_END_OF_STREAM] in
  ∃ s', svc_log cobs_encode s now sender level species l = Ret s' ∧
    svc_ok s' (q_push q (mkEntry (next_log_id s) 0 (take 255 msg))) ∧
    next_log_id s' = (next_log_id s + 1)%Z ∧
    (∃ cs, usart s' = usart s ++ (wire_frame cobs_encode (next_stream_id s) <$> cs) ∧ concat cs = msg).
Proof.
  intros Hs Hlt Hl msg. destruct (alloc_ids_ok s q Hs Hlt) as (s1 & Ha & Hs1 & Hid & Hmb & Hu).
  unfold svc_log. rewrite Ha. cbn [ebind].
  destruct (log_message (next_meta s now sender level species) l (method_buf s1)) as (buf & Hbuf & Hfill);
    [apply Hs1|done|]. fold (next_meta s now sender level species). rewrite Hfill. cbn [ebind].
  rewrite Hmb. fold msg.
  destruct (send_push_ok (set_method_buf s1 buf) q (next_stream_id s) (next_log_id s) 0 msg)
    as (raw & cs & r & -> & Hp & Hcs & Hok); [by apply svc_ok_method_buf| |].
  { cbn. pose proof Hs as (_ & _ & _ & ? & _). lia. }
  cbn [ebind]. change (ring (sent _ _ _)) with (ring (set_method_buf s1 buf)). rewrite Hp. cbn [ebind].
  eexists. split; [done|]. split; [exact Hok|]. split; [done|]. exists cs. cbn. by rewrite Hu.
Qed.

Lemma svc_start_ok s q now sender level species :
  svc_ok s q → (next_log_id s < 2 ^ 64 - 1)%Z →
  let m := next_meta s now sender level species in
  ∃ s', svc_start cobs_encode s now sender level species = Ret (mkResource m (next_stream_id s) 1, s') ∧
    svc_ok s' (q_push q (mkEntry (next_log_id s) 0 (metadata_bytes m))) ∧
    next_log_id s' = (next_log_id s + 1)%Z.
Proof.
  intros Hs Hlt m. destruct (alloc_ids_ok s q Hs Hlt) as (s1 & Ha & Hs1 & Hid & Hmb & Hu).
  unfold svc_start. rewrite Ha. fold (next_meta s now sender level species). fold m.
  destruct (send_push_ok s1 q (next_stream_id s) (next_log_id s) 0 (metadata_bytes m))
    as (raw & cs & r & -> & Hp & Hcs & Hok); [done|pose proof Hs as (_ & _ & _ & ? & _); lia|].
  cbn [ebind]. change (ring (sent _ _ _)) with (ring s1). rewrite Hp. cbn [ebind].
  eexists. split; [done|]. split; [|done]. rewrite take_ge in Hok; [exact Hok|].
  rewrite length_metadata_bytes. change META_SIZE with 29. lia.
Qed.

Lemma svc_write_ok s q res l : svc_ok s q → res_ok s res → lease_ok l →
  let msg := taken l (Nat.min (lease_len l) MAX_INLINE_LOG_SIZE) (method_buf s) in
  ∃ s' res', svc_write cobs_encode s res l = Ret (res', s') ∧
    svc_ok s' (q_push q (mkEntry (m_log_id (r_metadata res)) (r_idx res) msg)) ∧
    next_log_id s' = next_log_id s ∧ r_metadata res' = r_metadata res ∧ r_idx res' = Z.min 255 (r_idx res + 1).
Proof.
  intros Hs Hres Hl msg. unfold svc_write. set (n := Nat.min (lease_len l) MAX_INLINE_LOG_SIZE) in *.
  assert (n ≤ 128) by (unfold n; change MAX_INLINE_LOG_SIZE with 128; lia).
  assert (length (method_buf s) = 158) as Hb by apply Hs.
  rewrite slice_ok by lia. cbn [ebind]. rewrite drop_0, Nat.sub_0_r.
  set (dest := take n (method_buf s)). assert (length dest = n) as Hd by (unfold dest; len).
  rewrite copy_at_0 by (rewrite length_read_range; lia). cbn [ebind]. rewrite length_read_range, Hd.
  assert (read_range l dest = msg) as Hread.
  { unfold read_range, msg, taken. unfold lease_ok in Hl. destruct (lease_bytes l) as [bs|]; [|done].
    rewrite Hd, drop_ge, app_nil_r; [done|]. rewrite Hd, Hl. unfold n. lia. }
  rewrite Hread. assert (length msg = n) as Hn by (rewrite <- Hread; by rewrite length_read_range).
  rewrite slice_ok by len. cbn [ebind]. rewrite drop_0, Nat.sub_0_r, take_app_length' by lia.
  set (buf := msg ++ drop n (method_buf s)).
  destruct (send_push_ok (set_method_buf s buf) q (r_stream_id res) (m_log_id (r_metadata res)) (r_idx res) msg)
    as (raw & cs & r & -> & Hp & Hcs & Hok); [|done|].
  { apply svc_ok_method_buf; [done|]. change METHOD_BUF_SIZE with 158. unfold buf. len. }
  cbn [ebind]. change (ring (sent _ _ _)) with (ring (set_method_buf s buf)). rewrite Hp. cbn [ebind].
  eexists _, _. split; [done|]. split; [|done]. rewrite take_ge in Hok by lia. exact Hok.
Qed.

Lemma svc_drop_ok s q res : svc_ok s q → res_ok s res →
  ∃ s', svc_drop cobs_encode s res = Ret s' ∧
    svc_ok s' (q_push q (mkEntry (m_log_id (r_metadata res)) (r_idx res) [TAG_END_OF_STREAM])) ∧
    next_log_id s' = next_log_id s.
Proof.
  intros Hs Hres. unfold svc_drop.
  destruct (send_push_ok s q (r_stream_id res) (m_log_id (r_metadata res)) (r_idx res) [TAG_END_OF_STREAM])
    as (raw & cs & r & -> & Hp & Hcs & Hok); [done..|].
  cbn [ebind]. change (ring (sent _ _ _)) with (ring s). rewrite Hp. cbn [ebind].
  eexists. split; [done|]. split; [exact Hok|done].
Qed.
End operations.

(** * Reading the log *)

(** The longest run of entries that fits [room] bytes. *)
Fixpoint fit_prefix (q : list Entry) (room : nat) : list Entry :=
  match q with
  | [] => []
  | e :: q =>
      if decide (length (entry_bytes e) ≤ room) then e :: fit_prefix q (room - length (entry_bytes e))
      else []
  end.

Lemma fit_prefix_all q room : length (queue_bytes q) ≤ room → fit_prefix q room = q.
Proof.
  revert room. induction q as [|e q IH]; intros room; [done|]. rewrite queue_bytes_cons, length_app.
  cbn [fit_prefix]. intros Hl. rewrite decide_True by lia. rewrite IH by lia. done.
Qed.

(** [iter_since] stands where the entries of [q_since] begin. *)
Lemma iter_since_at r q id : ring_repr r q →
  ∃ q0 off, iter_since r id = Ret (mkIter r off (length (q_since id q))) ∧
    q = q0 ++ q_since id q ∧ at_entry r q0 off.
Proof.
  intros Hr. unfold iter_since, q_since. pose proof Hr as (_ & _ & Hc & _).
  assert (ring_iter r = mkIter r (ring_head r) (length q)) as Hi by (unfold ring_iter; by rewrite Hc).
  case_decide; [exists [], (ring_head r); rewrite Hi; auto using at_entry_head|]. rewrite Hc.
  destruct (since_loop_ok r id [] q _ None Hr (at_entry_head r)) as (f & -> & Hf). cbn [ebind].
  destruct (after_last id q) as [s|] eqn:E; cbn [default].
  - destruct Hf as (q0 & off' & Hs & -> & Hat). by exists q0, off'.
  - subst f. rewrite Hi. exists [], (ring_head r). auto using at_entry_head.
Qed.

Lemma write_range_app w rest src off : off = length w → length src ≤ length rest →
  write_range (mkWLease true (w ++ rest)) off src = mkWLease true ((w ++ src) ++ drop (length src) rest).
Proof.
  intros -> Hl. unfold write_range. cbn [wl_ok wl_bytes andb]. rewrite bool_decide_true by len.
  rewrite take_ge by len. by rewrite splice_app.
Qed.

Lemma consume_loop_ok r q1 q2 off w rest :
  ring_repr r (q1 ++ q2) → at_entry r q1 off →
  ∃ rest', consume_loop (S (length q2)) (mkIter r off (length q2)) (mkWLease true (w ++ rest)) (length w) =
    Ret (length (w ++ queue_bytes (fit_prefix q2 (length rest))),
         mkWLease true ((w ++ queue_bytes (fit_prefix q2 (length rest))) ++ rest')) ∧
    length (queue_bytes (fit_prefix q2 (length rest)) ++ rest') = length rest.
Proof.
  revert q1 off w rest. induction q2 as [|e q2 IH]; intros q1 off w rest Hr Hoff.
  { exists rest. cbn. by rewrite !app_nil_r. }
  destruct (iter_next_ok r q1 e q2 off Hr Hoff) as (c & off' & Hn & Hc & Hoff').
  pose proof (stored_ok r q1 q2 e Hr) as [Hid Hlen]. rewrite (cons_middle _ q1), app_assoc in Hr.
  change (S (length (e :: q2))) with (S (S (length q2))).
  remember (S (length q2)) as fuel eqn:Hfuel. cbn [consume_loop]. rewrite Hn. cbn [ebind].
  destruct c as [id cidx [d0 d1]]. cbn [chunk_data chunk_id chunk_idx] in *. unfold chunk_entry in Hc.
  cbn in Hc. subst e. cbn [e_data e_id e_idx] in *. cbn [wl_bytes]. rewrite <- (length_app d0 d1).
  cbn [fit_prefix]. rewrite (length_entry_bytes (mkEntry _ _ _)). cbn [e_data].
  destruct (decide (LOG_HEADER_SIZE + length (d0 ++ d1) ≤ length rest)) as [Hfit|Hfit]; cycle 1.
  { rewrite decide_True by len. exists rest. cbn. by rewrite !app_nil_r. }
  rewrite decide_False by len. rewrite wrap_small by (unfold is_u; lia).
  set (e := mkEntry id cidx (d0 ++ d1)) in *. fold (entry_header e).
  change (le_bytes 8 id ++ [Z.of_nat (length (d0 ++ d1)); cidx]) with (entry_header e).
  pose proof (length_entry_header e) as Hh. unfold LOG_HEADER_SIZE in *.
  rewrite write_range_app by (done || lia). rewrite Hh.
  assert (∀ w' d rest', length d ≤ length rest' →
    (if decide (d = []) then (length w', mkWLease true (w' ++ rest'))
     else (length w' + length d, write_range (mkWLease true (w' ++ rest')) (length w') d)) =
    (length (w' ++ d), mkWLease true ((w' ++ d) ++ drop (length d) rest'))) as Hw.
  { intros w' d rest' Hd. case_decide as Hnil; [subst d; by rewrite app_nil_r|].
    rewrite write_range_app by done. by rewrite length_app. }
  replace (length w + 10) with (length (w ++ entry_header e)) by len.
  rewrite Hw by len. rewrite Hw by len. rewrite !drop_drop.
  replace (((w ++ entry_header e) ++ d0) ++ d1) with (w ++ entry_bytes e)
    by (rewrite entry_bytes_split; by rewrite <- !app_assoc).
  set (rest1 := drop _ rest). assert (length rest1 = length rest - (10 + length (d0 ++ d1))) as Hr1
    by (unfold rest1; len).
  destruct (IH (q1 ++ [e]) off' (w ++ entry_bytes e) rest1 Hr Hoff') as (rest2 & H2 & Hl2).
  rewrite H2. rewrite Hr1 in *. exists rest2. rewrite queue_bytes_cons. split; [by rewrite !app_assoc|].
  rewrite <- app_assoc, length_app, Hl2, length_entry_bytes. cbn [e_data e]. unfold LOG_HEADER_SIZE. lia.
Qed.

Lemma consume_since_ok subscribers s q sender since buf :
  svc_ok s q → task_index sender ∈ subscribers →
  let out := queue_bytes (fit_prefix (q_since since q) (length buf)) in
  ∃ rest, consume_since subscribers s sender since (mkWLease true buf) =
    Ret (Ok (length out), mkWLease true (out ++ rest)) ∧ length (out ++ rest) = length buf.
Proof.
  intros (Hr & _) Hin out. unfold consume_since. rewrite bool_decide_true by done.
  destruct (iter_since_at (ring s) q since Hr) as (q0 & off & -> & Hq & Hat). cbn [ebind it_remaining].
  rewrite Hq in Hr.
  destruct (consume_loop_ok (ring s) q0 (q_since since q) off [] buf Hr Hat) as (rest & Hc & Hl).
  cbn [app length] in Hc. rewrite Hc. cbn [ebind fst snd]. by exists rest.
Qed.

(** * The host *)

Section host.
Context (value_size field_size : Z).

(** What the host reports for a list of entries. *)
Fixpoint queue_events (q : list Entry) : exec (list SinkEvent) :=
  match q with
  | [] => Ret []
  | e :: q =>
      let! events := entry_events value_size field_size (e_idx e) (e_data e) in
      let! rest := queue_events q in
      Ret (events ++ rest)
  end.

Lemma parse_loop_ok q fuel pre :
  length q < fuel →
  parse_loop value_size field_size fuel (pre ++ queue_bytes q) (length pre) = queue_events q.
Proof.
  revert fuel pre. induction q as [|e q IH]; intros fuel pre Hf; (destruct fuel as [|fuel]; [cbn in Hf; lia|]);
    cbn [parse_loop queue_events].
  { rewrite decide_False; [done|]. rewrite length_app. change (length (queue_bytes [])) with 0. unfold LOG_HEADER_SIZE. lia. }
  rewrite queue_bytes_cons, entry_bytes_split. pose proof (length_entry_header e) as Hh.
  rewrite <- app_assoc. rewrite decide_True by (rewrite !length_app; lia).
  assert (∀ k, k < 10 → (pre ++ entry_header e ++ e_data e ++ queue_bytes q) !! (length pre + k) = entry_header e !! k) as Hlk.
  { intros k Hk. rewrite lookup_app_r by lia. replace (length pre + k - length pre) with k by lia.
    rewrite lookup_app_l; [done|]. rewrite Hh. done. }
  rewrite (idx_ok _ _ (Z.of_nat (length (e_data e)))) by (rewrite Hlk by lia; apply header_len). cbn [ebind].
  rewrite (idx_ok _ _ (e_idx e)) by (rewrite Hlk by lia; apply header_idx). cbn [ebind]. rewrite Nat2Z.id.
  rewrite decide_False by (rewrite !length_app; lia).
  rewrite app_assoc, slice_app by (rewrite ?length_app; lia). cbn [ebind].
  destruct (entry_events value_size field_size (e_idx e) (e_data e)) as [ev|]; [|done]. cbn [ebind].
  rewrite app_assoc. replace (length pre + (LOG_HEADER_SIZE + length (e_data e)))
    with (length ((pre ++ entry_header e) ++ e_data e)) by (rewrite !length_app; lia).
  rewrite IH; [done|]. cbn in Hf. lia.
Qed.

Lemma length_queue_bytes q : length q ≤ length (queue_bytes q).
Proof. induction q as [|e q IH]; [done|]. rewrite length_queue_cons. cbn [length]. unfold LOG_HEADER_SIZE. lia. Qed.

Lemma parse_log_entries_ok q :
  parse_log_entries value_size field_size (queue_bytes q) = queue_events q.
Proof. apply (parse_loop_ok q _ []). pose proof (length_queue_bytes q). lia. Qed.

(** The report for the entry of a message of well-formed values. *)
Lemma entry_events_message m vs :
  (0 < value_size)%Z → (0 < field_size)%Z →
  meta_ok m → Forall (value_ok value_size field_size) vs →
  entry_events value_size field_size 0
    (metadata_bytes m ++ concat (format_value <$> vs) ++ [TAG_END_OF_STREAM]) =
    Ret [Structured (log_entry_of m vs)].
Proof.
  intros Hv Hf Hm Hvs. unfold entry_events. pose proof (length_metadata_bytes m) as Hl.
  rewrite decide_True by (split; [done|rewrite length_app; lia]).
  rewrite slice_ok by (rewrite ?length_app; lia). cbn [ebind].
  rewrite drop_0, take_app_length', metadata_roundtrip by (done || lia).
  rewrite slice_app_end by (rewrite ?length_app; lia). cbn [ebind].
  change [TAG_END_OF_STREAM] with (write_end_of_stream ++ []).
  rewrite decode_loop_stream_values by done. done.
Qed.
End host.

(** * Histories *)

Inductive SvcOp :=
  | OpLog (now : Z) (sender : Sender) (level : LogLevel) (species : Z) (data : Lease)
  | OpStart (now : Z) (sender : Sender) (level : LogLevel) (species : Z)
  | OpWrite (k : nat) (data : Lease)
  | OpDrop (k : nat).

Definition op_ok (op : SvcOp) : Prop :=
  match op with OpLog _ _ _ _ l | OpWrite _ l => lease_ok l | _ => True end.

Section history.
Context (cobs_encode : list Z → list Z).

(** A call on the service, whose clients hold the streams [rs]. *)
Definition svc_step (st : LogState * list LogResource) (op : SvcOp) : exec (LogState * list LogResource) :=
  let '(s, rs) := st in
  match op with
  | OpLog now sender level species l =>
      let! s := svc_log cobs_encode s now sender level species l in Ret (s, rs)
  | OpStart now sender level species =>
      let! r := svc_start cobs_encode s now sender level species in Ret (snd r, rs ++ [fst r])
  | OpWrite k l =>
      match rs !! k with
      | None => Ret (s, rs)
      | Some res => let! r := svc_write cobs_encode s res l in Ret (snd r, <[k := fst r]> rs)
      end
  | OpDrop k =>
      match rs !! k with
      | None => Ret (s, rs)
      | Some res => let! s := svc_drop cobs_encode s res in Ret (s, delete k rs)
      end
  end.

Fixpoint svc_run (st : LogState * list LogResource) (ops : list SvcOp) : exec (LogState * list LogResource) :=
  match ops with
  | [] => Ret st
  | op :: ops => let! st := svc_step st op in svc_run st ops
  end.

Hypothesis cobs_bound : ∀ raw, length (cobs_encode raw) ≤ max_encoding_length (length raw).

Lemma res_ok_grow s s' rs : (next_log_id s <= next_log_id s')%Z → Forall (res_ok s) rs → Forall (res_ok s') rs.
Proof. intros H. apply Forall_impl. intros r. unfold res_ok. lia. Qed.

Lemma svc_step_ok s rs q op :
  svc_ok s q → Forall (res_ok s) rs → (next_log_id s < 2 ^ 64 - 1)%Z → op_ok op →
  ∃ s' rs' q', svc_step (s, rs) op = Ret (s', rs') ∧ svc_ok s' q' ∧ Forall (res_ok s') rs' ∧
    (next_log_id s' <= next_log_id s + 1)%Z.
Proof.
  intros Hs Hrs Hlt Hop. destruct op as [now sender level species l|now sender level species|k l|k];
    cbn [svc_step op_ok] in *.
  - destruct (svc_log_ok _ cobs_bound s q now sender level species l Hs Hlt Hop) as (s' & -> & Hs' & Hn & _).
    cbn [ebind]. eexists _, _, _. split; [done|]. split; [done|]. split; [|lia].
    eapply res_ok_grow; [|done]. lia.
  - destruct (svc_start_ok _ cobs_bound s q now sender level species Hs Hlt) as (s' & -> & Hs' & Hn).
    cbn [ebind fst snd]. eexists _, _, _. split; [done|]. split; [done|]. split; [|lia].
    apply Forall_app. split; [eapply res_ok_grow; [|done]; lia|]. constructor; [|done].
    unfold res_ok. cbn. rewrite Hn. pose proof Hs as (_ & _ & _ & ? & _). lia.
  - destruct (rs !! k) as [res|] eqn:Hk; [|by exists s, rs, q; auto with lia].
    pose proof (Forall_lookup_1 _ _ _ _ Hrs Hk) as Hres.
    destruct (svc_write_ok _ cobs_bound s q res l Hs Hres Hop) as (s' & res' & -> & Hs' & Hn & Hm & _).
    cbn [ebind fst snd]. eexists _, _, _. split; [done|]. split; [done|]. split; [|lia].
    apply Forall_insert; [eapply res_ok_grow; [|done]; lia|]. unfold res_ok. rewrite Hm, Hn. apply Hres.
  - destruct (rs !! k) as [res|] eqn:Hk; [|by exists s, rs, q; auto with lia].
    pose proof (Forall_lookup_1 _ _ _ _ Hrs Hk) as Hres.
    destruct (svc_drop_ok _ cobs_bound s q res Hs Hres) as (s' & -> & Hs' & Hn).
    cbn [ebind fst snd]. eexists _, _, _. split; [done|]. split; [done|]. split; [|lia].
    apply Forall_delete. eapply res_ok_grow; [|done]. lia.
Qed.

Lemma svc_run_ok s rs q ops :
  svc_ok s q → Forall (res_ok s) rs → Forall op_ok ops →
  (next_log_id s + Z.of_nat (length ops) < 2 ^ 64)%Z →
  ∃ s' rs' q', svc_run (s, rs) ops = Ret (s', rs') ∧ svc_ok s' q' ∧ Forall (res_ok s') rs' ∧
    (next_log_id s' <= next_log_id s + Z.of_nat (length ops))%Z.
Proof.
  intros Hs Hrs Hops. revert s rs q Hs Hrs. induction Hops as [|op ops Hop _ IH]; intros s rs q Hs Hrs Hn;
    cbn [svc_run length] in *.
  { exists s, rs, q. auto with lia. }
  destruct (svc_step_ok s rs q op Hs Hrs) as (s1 & rs1 & q1 & -> & Hs1 & Hrs1 & Hn1); [lia|done|]. cbn [ebind].
  destruct (IH s1 rs1 q1 Hs1 Hrs1) as (s2 & rs2 & q2 & -> & ? & ? & ?); [lia|].
  exists s2, rs2, q2. auto with lia.
Qed.

(** Over any history of [log], [start], [write] and [drop] calls (fewer than
    2^63 of them, so that the ids do not wrap), the service never panics, and
    [consume_since] hands a subscriber exactly the stored entries behind the last
    one with [since_id], as many as fit its buffer, each header and payload as
    stored; a task that is not a subscriber gets [Unauthorized] and its buffer
    is left alone. *)
Theorem consume_since_dump subscribers ops :
  Forall op_ok ops → (Z.of_nat (length ops) < 2 ^ 63)%Z →
  ∃ s rs q, svc_run (log_state_new, []) ops = Ret (s, rs) ∧ svc_ok s q ∧
    ∀ sender since buf,
      let out := queue_bytes (fit_prefix (q_since since q) (length buf)) in
      (task_index sender ∈ subscribers →
        ∃ rest, consume_since subscribers s sender since (mkWLease true buf) =
          Ret (Ok (length out), mkWLease true (out ++ rest)) ∧ length (out ++ rest) = length buf) ∧
      (task_index sender ∉ subscribers →
        consume_since subscribers s sender since (mkWLease true buf) =
          Ret (Err Unauthorized, mkWLease true buf)).
Proof.
  intros Hops Hn. destruct (svc_run_ok log_state_new [] [] ops svc_ok_new) as (s & rs & q & Hrun & Hs & _ & _);
    [done|done|cbn; lia|]. exists s, rs, q. split; [done|]. split; [done|]. intros sender since buf out.
  split; intros Hin; [by apply consume_since_ok|]. unfold consume_since. by rewrite bool_decide_false.
Qed.
End history.

(** * The service as a queue

    The specification forgets the ring, the buffers and the wire: a queue of
    entries, the next id, and for each open stream its id and next index. *)

Record LogSpec := mkSpec { sp_queue : list Entry; sp_next : Z; sp_streams : list (Z * Z) }.

Definition spec_new : LogSpec := mkSpec [] 1 [].

Definition leased (l : Lease) : list Z := default [] (lease_bytes l).

Definition spec_meta (sp : LogSpec) (now : Z) (sender : Sender) (level : LogLevel) (species : Z) : LogMetadata :=
  mkMeta level now (wrap 16 (task_index sender)) (sender_generation sender) (sp_next sp) species.

Definition spec_step (sp : LogSpec) (op : SvcOp) : LogSpec :=
  match op with
  | OpLog now sender level species l =>
      let msg := metadata_bytes (spec_meta sp now sender level species) ++
        take MAX_INLINE_LOG_SIZE (leased l) ++ [TAG_END_OF_STREAM] in
      mkSpec (q_push (sp_queue sp) (mkEntry (sp_next sp) 0 msg)) (sp_next sp + 1) (sp_streams sp)
  | OpStart now sender level species =>
      mkSpec (q_push (sp_queue sp)
          (mkEntry (sp_next sp) 0 (metadata_bytes (spec_meta sp now sender level species))))
        (sp_next sp + 1) (sp_streams sp ++ [(sp_next sp, 1%Z)])
  | OpWrite k l =>
      match sp_streams sp !! k with
      | None => sp
      | Some (id, idx) =>
          mkSpec (q_push (sp_queue sp) (mkEntry id idx (take MAX_INLINE_LOG_SIZE (leased l))))
            (sp_next sp) (<[k := (id, Z.min 255 (idx + 1))]> (sp_streams sp))
      end
  | OpDrop k =>
      match sp_streams sp !! k with
      | None => sp
      | Some (id, idx) =>
          mkSpec (q_push (sp_queue sp) (mkEntry id idx [TAG_END_OF_STREAM])) (sp_next sp)
            (delete k (sp_streams sp))
      end
  end.

Definition spec_run (sp : LogSpec) (ops : list SvcOp) : LogSpec := foldl spec_step sp ops.

(** A lease the server can read. *)
Definition readable (l : Lease) : Prop := ∃ bs, lease_bytes l = Some bs ∧ length bs = lease_len l.

Definition op_readable (op : SvcOp) : Prop :=
  match op with OpLog _ _ _ _ l | OpWrite _ l => readable l | _ => True end.

Definition stream_of (r : LogResource) : Z * Z := (m_log_id (r_metadata r), r_idx r).

(** The simulation relation. *)
Definition refines (st : LogState * list LogResource) (sp : LogSpec) : Prop :=
  svc_ok (fst st) (sp_queue sp) ∧ next_log_id (fst st) = sp_next sp ∧
  sp_streams sp = stream_of <$> snd st ∧ Forall (res_ok (fst st)) (snd st).

Lemma taken_readable l old : readable l →
  lease_ok l ∧ taken l (Nat.min (lease_len l) MAX_INLINE_LOG_SIZE) old = take MAX_INLINE_LOG_SIZE (leased l).
Proof.
  intros (bs & Hb & Hl). unfold lease_ok, taken, leased. rewrite Hb. split; [done|]. cbn [from_option id].
  rewrite <- Hl, Nat.min_comm, <- take_take. by rewrite firstn_all.
Qed.

Section refinement.
Context (cobs_encode : list Z → list Z).
Hypothesis cobs_bound : ∀ raw, length (cobs_encode raw) ≤ max_encoding_length (length raw).

Lemma svc_step_refines st sp op :
  refines st sp → op_readable op → (sp_next sp < 2 ^ 64 - 1)%Z →
  ∃ st', svc_step cobs_encode st op = Ret st' ∧ refines st' (spec_step sp op).
Proof.
  destruct st as [s rs], sp as [q n streams]. intros (Hs & Hn & Hst & Hrs) Hop Hlt.
  cbn [fst snd sp_queue sp_next sp_streams] in *. subst n streams.
  destruct op as [now sender level species l|now sender level species|k l|k]; cbn [svc_step spec_step op_readable sp_queue sp_next sp_streams] in *.
  - destruct (taken_readable l (drop META_SIZE (method_buf s)) Hop) as [Hl Ht].
    destruct (svc_log_ok _ cobs_bound s q now sender level species l Hs Hlt Hl) as (s' & -> & Hs' & Hn & _).
    rewrite Ht in Hs'. cbn [ebind]. eexists. split; [done|]. split_and!; cbn [fst snd sp_queue sp_next sp_streams].
    + rewrite take_ge in Hs'; [exact Hs'|]. rewrite !length_app, length_metadata_bytes, length_take.
      change META_SIZE with 29. change MAX_INLINE_LOG_SIZE with 128. cbn [length]. lia.
    + done.
    + done.
    + eapply res_ok_grow; [|done]. lia.
  - destruct (svc_start_ok _ cobs_bound s q now sender level species Hs Hlt) as (s' & -> & Hs' & Hn).
    cbn [ebind fst snd]. eexists. split; [done|]. split_and!; cbn [fst snd sp_queue sp_next sp_streams]; try done.
    + by rewrite fmap_app.
    + apply Forall_app. split; [eapply res_ok_grow; [|done]; lia|]. constructor; [|done].
      unfold res_ok. cbn. rewrite Hn. pose proof Hs as (_ & _ & _ & ? & _). lia.
  - rewrite list_lookup_fmap. destruct (rs !! k) as [res|] eqn:Hk; cbn [fmap option_fmap option_map];
      [|by exists (s, rs)]. unfold stream_of at 1.
    destruct (taken_readable l (method_buf s) Hop) as [Hl Ht].
    pose proof (Forall_lookup_1 _ _ _ _ Hrs Hk) as Hres.
    destruct (svc_write_ok _ cobs_bound s q res l Hs Hres Hl) as (s' & res' & -> & Hs' & Hn & Hm & Hi).
    rewrite Ht in Hs'. cbn [ebind fst snd]. eexists. split; [done|].
    split_and!; cbn [fst snd sp_queue sp_next sp_streams]; try done.
    + rewrite list_fmap_insert. f_equal. unfold stream_of. by rewrite Hm, Hi.
    + apply Forall_insert; [eapply res_ok_grow; [|done]; lia|]. unfold res_ok. rewrite Hm, Hn. apply Hres.
  - rewrite list_lookup_fmap. destruct (rs !! k) as [res|] eqn:Hk; cbn [fmap option_fmap option_map];
      [|by exists (s, rs)]. unfold stream_of at 1.
    pose proof (Forall_lookup_1 _ _ _ _ Hrs Hk) as Hres.
    destruct (svc_drop_ok _ cobs_bound s q res Hs Hres) as (s' & -> & Hs' & Hn).
    cbn [ebind fst snd]. eexists. split; [done|].
    split_and!; cbn [fst snd sp_queue sp_next sp_streams]; try done.
    + by rewrite list_fmap_delete.
    + apply Forall_delete. eapply res_ok_grow; [|done]. lia.
Qed.

Lemma spec_next_bound sp op : (sp_next sp <= sp_next (spec_step sp op) <= sp_next sp + 1)%Z.
Proof.
  destruct op as [| |k l|k]; cbn [spec_step sp_next]; [lia..| |];
    destruct (sp_streams sp !! k) as [[id idx]|]; cbn [sp_next]; lia.
Qed.

Lemma svc_run_refines st sp ops :
  refines st sp → Forall op_readable ops → (sp_next sp + Z.of_nat (length ops) < 2 ^ 64)%Z →
  ∃ st', svc_run cobs_encode st ops = Ret st' ∧ refines st' (spec_run sp ops) ∧
    (sp_next (spec_run sp ops) <= sp_next sp + Z.of_nat (length ops))%Z.
Proof.
  intros Hr Hops. revert st sp Hr. induction Hops as [|op ops Hop _ IH]; intros st sp Hr Hn;
    cbn [svc_run length] in *.
  { exists st. split; [done|]. split; [done|]. cbn. lia. }
  destruct (svc_step_refines st sp op Hr Hop) as (st1 & -> & Hr1); [lia|]. cbn [ebind].
  pose proof (spec_next_bound sp op). destruct (IH st1 (spec_step sp op) Hr1) as (st2 & -> & Hr2 & Hb); [lia|].
  exists st2. split; [done|]. split; [exact Hr2|]. change (spec_run sp (op :: ops)) with (spec_run (spec_step sp op) ops). lia.
Qed.

Lemma refines_new : refines (log_state_new, []) spec_new.
Proof. split; [apply svc_ok_new|]. by split_and!. Qed.

(** C39: The log service implements the queue. Over any history of calls with
    readable leases (fewer than 2^63), it never panics, and the entries, ids and
    stream indices are those of the specification: each call appends exactly one
    entry with the data it was given (cut to 128 bytes), evicting only the oldest
    entries and only as many as the new one needs. *)
Theorem log_service_refines ops :
  Forall op_readable ops → (Z.of_nat (length ops) < 2 ^ 63)%Z →
  ∃ st, svc_run cobs_encode (log_state_new, []) ops = Ret st ∧ refines st (spec_run spec_new ops).
Proof.
  intros Hops Hn. destruct (svc_run_refines (log_state_new, []) spec_new ops refines_new Hops) as (st & ? & ? & _);
    [cbn; lia|]. by exists st.
Qed.
End refinement.

(** * End to end *)

Lemma after_last_snoc id k e0 e : e_id e0 = id → e_id e ≠ id → after_last id (k ++ [e0; e]) = Some [e].
Proof.
  intros H0 He. induction k as [|x k IH]; cbn [app after_last].
  - rewrite decide_False by done. by rewrite decide_True.
  - by rewrite IH.
Qed.

(** A sink that has seen every stored entry gets exactly the new one. *)
Lemma q_since_push q e since :
  e_id e ≠ since →
  q = [] ∨ (∃ k e0, q = k ++ [e0] ∧ e_id e0 = since ∧ since ≠ 0%Z) →
  q_since since (q_push q e) = [e].
Proof.
  intros He Hq. unfold q_push. set (q1 := q_evict q _).
  assert (q1 = [] ∨ ∃ k e0, q1 = k ++ [e0] ∧ e_id e0 = since ∧ since ≠ 0%Z) as [->|(k & e0 & -> & H0 & Hz)].
  { destruct (q_evict_suffix q (length (entry_bytes e))) as [p Hp]. fold q1 in Hp.
    destruct Hq as [->|(k & e0 & -> & H0 & Hz)].
    - left. by destruct p, q1.
    - destruct q1 as [|x q1] using rev_ind; [by left|right]. exists q1, x. split; [done|].
      rewrite app_assoc in Hp. apply app_inj_tail in Hp as [_ ->]. done. }
  - unfold q_since. case_decide; [done|]. cbn [app after_last]. by rewrite decide_False.
  - unfold q_since. rewrite decide_False by done. rewrite <- app_assoc. cbn [app].
    by rewrite after_last_snoc.
Qed.

Lemma log_then_read cobs_encode value_size field_size subscribers s q
    now sender level species vs reader since buf :
  (∀ raw, length (cobs_encode raw) ≤ max_encoding_length (length raw)) →
  (0 < value_size)%Z → (0 < field_size)%Z →
  svc_ok s q →
  (next_log_id s < 2 ^ 64 - 1)%Z →
  is_u 64 now → is_u 16 (sender_generation sender) → is_u 64 species →
  Forall (value_ok value_size field_size) vs →
  length (concat (format_value <$> vs)) ≤ MAX_INLINE_LOG_SIZE →
  task_index reader ∈ subscribers →
  q = [] ∧ since = 0%Z ∨ (∃ k e0, q = k ++ [e0] ∧ e_id e0 = since) →
  168 ≤ length buf →
  let data := concat (format_value <$> vs) in
  ∃ s' n out, svc_log cobs_encode s now sender level species (mkLease (length data) (Some data)) = Ret s' ∧
    consume_since subscribers s' reader since (mkWLease true buf) = Ret (Ok n, mkWLease true out) ∧
    parse_log_entries value_size field_size (take n out) =
      Ret [Structured (log_entry_of (next_meta s now sender level species) vs)].
Proof.
  intros Hcobs Hvs0 Hfs0 Hs Hlt Hnow Hgen Hsp Hvs Hlen Hin Hsince Hbuf data.
  change MAX_INLINE_LOG_SIZE with 128 in Hlen. fold data in Hlen.
  destruct (svc_log_ok _ Hcobs s q now sender level species (mkLease (length data) (Some data)) Hs Hlt)
    as (s' & Hlog & Hs' & _ & _); [done|]. cbn [lease_len lease_bytes taken] in Hs'.
  rewrite take_ge in Hs' by (change MAX_INLINE_LOG_SIZE with 128; rewrite Nat.min_l by lia;
    rewrite !length_app, length_metadata_bytes; change META_SIZE with 29; unfold taken; cbn [lease_bytes];
    rewrite take_ge by done; cbn [length]; lia).
  unfold taken in Hs'. cbn [lease_bytes] in Hs'. rewrite (take_ge data) in Hs'
    by (change MAX_INLINE_LOG_SIZE with 128; lia).
  set (m := next_meta s now sender level species) in *.
  set (e := mkEntry (next_log_id s) 0 (metadata_bytes m ++ data ++ [TAG_END_OF_STREAM])) in *.
  destruct (consume_since_ok subscribers s' (q_push q e) reader since buf Hs' Hin) as (rest & Hcons & _).
  pose proof Hs as (_ & _ & _ & Hid & Hq).
  assert (q_since since (q_push q e) = [e]) as Hq1.
  { apply q_since_push.
    - unfold e. cbn. destruct Hsince as [[_ ->]|(k & e0 & -> & <-)]; [lia|].
      apply Forall_app in Hq as [_ Hq]. apply Forall_cons_1 in Hq as [? _]. lia.
    - destruct Hsince as [[-> _]|(k & e0 & -> & <-)]; [by left|right]. exists k, e0. split; [done|]. split; [done|].
      apply Forall_app in Hq as [_ Hq]. apply Forall_cons_1 in Hq as [? _]. lia. }
  rewrite Hq1 in Hcons. rewrite fit_prefix_all in Hcons.
  2:{ rewrite length_queue_cons. unfold e. cbn [e_data]. rewrite !length_app, length_metadata_bytes.
      change (length (queue_bytes [])) with 0. change META_SIZE with 29. change LOG_HEADER_SIZE with 10. cbn [length]. lia. }
  exists s', (length (queue_bytes [e])), (queue_bytes [e] ++ rest). split; [done|]. split; [done|].
  rewrite take_app_length, parse_log_entries_ok. cbn [queue_events]. unfold e at 1 2. cbn [e_idx e_data].
  unfold data. rewrite entry_events_message; try done. unfold meta_ok, m, next_meta. cbn.
  split_and!; try done; try (by apply Hnow); try (by apply Hgen); try (by apply Hsp); try apply wrap_is_u; unfold is_u; lia.
Qed.

(** C28: A message reaches the host as it was logged. After any history of calls
    with readable leases, let a task log the well-formed values [vs], formatted to
    at most 128 bytes, and let a subscriber that has seen every stored entry
    ([since] is the id of the newest one, unless there is none) read with a buffer
    of at least 168 bytes. Then the host reports exactly one event for what was
    read: the message, with its level, time, source, id and species, and the
    values [vs]. *)
Theorem log_reaches_host cobs_encode value_size field_size subscribers ops :
  (∀ raw, length (cobs_encode raw) ≤ max_encoding_length (length raw)) →
  (0 < value_size)%Z → (0 < field_size)%Z →
  Forall op_readable ops → (Z.of_nat (length ops) < 2 ^ 63)%Z →
  let sp := spec_run spec_new ops in
  ∃ s rs, svc_run cobs_encode (log_state_new, []) ops = Ret (s, rs) ∧
  ∀ now sender level species vs reader since buf,
  let data := concat (format_value <$> vs) in
  is_u 64 now → is_u 16 (sender_generation sender) → is_u 64 species →
  Forall (value_ok value_size field_size) vs → length data ≤ MAX_INLINE_LOG_SIZE →
  task_index reader ∈ subscribers →
  since = default 0%Z (e_id <$> list.last (sp_queue sp)) →
  168 ≤ length buf →
  ∃ s' n out, svc_log cobs_encode s now sender level species (mkLease (length data) (Some data)) = Ret s' ∧
    consume_since subscribers s' reader since (mkWLease true buf) = Ret (Ok n, mkWLease true out) ∧
    parse_log_entries value_size field_size (take n out) =
      Ret [Structured (log_entry_of (spec_meta sp now sender level species) vs)].
Proof.
  intros Hcobs Hvs Hfs Hops Hn sp.
  destruct (svc_run_refines _ Hcobs (log_state_new, []) spec_new ops refines_new Hops)
    as ([s rs] & Hrun & (Hs & Hnext & _) & Hid); [cbn; lia|]. fold sp in Hs, Hnext, Hid. cbn [fst] in *.
  exists s, rs. split; [done|]. intros now sender level species vs reader since buf data **.
  assert (spec_meta sp now sender level species = next_meta s now sender level species) as ->
    by (unfold spec_meta, next_meta; by rewrite Hnext).
  apply (log_then_read cobs_encode value_size field_size subscribers s (sp_queue sp)); try done.
  - rewrite Hnext. change (sp_next spec_new) with 1%Z in Hid. lia.
  - destruct (sp_queue sp) as [|e q _] using rev_ind; [by left|right]. exists q, e. split; [done|].
    subst since. by rewrite last_snoc.
Qed.

(** Two messages and a stream, with the identity in the encoder's place. *)
Definition demo_history : list SvcOp :=
  [ OpLog 5 (mkSender 2 0) LInfo 77 (mkLease 2 (Some [TAG_U8; 9%Z]));
    OpStart 6 (mkSender 3 1) LWarn 78; OpWrite 0 (mkLease 3 None); OpDrop 0 ].

(** The same, the write's lease being readable. *)
Definition demo_readable : list SvcOp :=
  [ OpLog 5 (mkSender 2 0) LInfo 77 (mkLease 2 (Some [TAG_U8; 9%Z]));
    OpStart 6 (mkSender 3 1) LWarn 78; OpWrite 0 (mkLease 1 (Some [TAG_UNIT])); OpDrop 0 ].

Lemma demo_readable_ok : Forall op_readable demo_readable.
Proof. repeat constructor; by eexists. Qed.

Lemma demo_history_ok : Forall op_ok demo_history.
Proof. by repeat constructor. Qed.

Lemma identity_bound (raw : list Z) : length raw ≤ max_encoding_length (length raw).
Proof. unfold max_encoding_length. lia. Qed.

Lemma consume_since_dump_witness :
  Forall op_ok demo_history ∧ (Z.of_nat (length demo_history) < 2 ^ 63)%Z ∧
  ∃ s rs q, svc_run (λ raw, raw) (log_state_new, []) demo_history = Ret (s, rs) ∧ svc_ok s q.
Proof.
  split; [exact demo_history_ok|]. split; [reflexivity|].
  destruct (consume_since_dump (λ raw, raw) identity_bound [4%Z] demo_history demo_history_ok)
    as (s & rs & q & Hrun & Hok & _); [reflexivity|]. exists s, rs, q. exact (conj Hrun Hok).
Defined.

Lemma log_service_refines_witness :
  Forall op_readable demo_readable ∧
  length (sp_queue (spec_run spec_new demo_readable)) = 4 ∧
  ∃ st, svc_run (λ raw, raw) (log_state_new, []) demo_readable = Ret st ∧
    refines st (spec_run spec_new demo_readable).
Proof.
  split; [exact demo_readable_ok|]. split; [reflexivity|].
  apply (log_service_refines (λ raw, raw) identity_bound demo_readable demo_readable_ok). reflexivity.
Defined.

Lemma log_reaches_host_witness :
  ∃ s rs, svc_run (λ raw, raw) (log_state_new, []) demo_readable = Ret (s, rs) ∧
    ∃ s' n out,
      svc_log (λ raw, raw) s 10 (mkSender 1 0) LError 80
        (mkLease 6 (Some (concat (format_value <$> [VBool true; VU32 300; VUnit])))) = Ret s' ∧
      consume_since [4%Z] s' (mkSender 4 0) 2 (mkWLease true (replicate 512 0%Z)) = Ret (Ok n, mkWLease true out) ∧
      parse_log_entries 96 104 (take n out) =
        Ret [Structured (mkLogEntry LError 10 1 3 80 [VBool true; VU32 300; VUnit] false)].
Proof.
  destruct (log_reaches_host (λ raw, raw) 96 104 [4%Z] demo_readable identity_bound eq_refl eq_refl
    demo_readable_ok eq_refl) as (s & rs & Hrun & H).
  exists s, rs. split; [exact Hrun|].
  apply (H 10%Z (mkSender 1 0) LError 80%Z [VBool true; VU32 300; VUnit] (mkSender 4 0) 2%Z (replicate 512 0%Z));
    try const_u.
  - by repeat constructor.
  - vm_compute. lia.
  - apply list_elem_of_here.
  - reflexivity.
  - vm_compute. lia.
Defined.
