(* ===== verification/LogSink.v ===== *)
(** The USB log sink, [firmware/sysmodule/log_sink_usb/src/main.rs]: draining the
    log service in batches and sending each over the fob channel, whose server
    ([firmware/sysmodule/usb_protocol_fob/src/main.rs]) copies at most 500 bytes.

    The drain is modelled without other tasks logging while it runs. *)

From S2P Require Import Prelude LogRing LogFormat LogDecoder LogCodec LogService LogPipeline.

Definition SINK_BUF_SIZE : nat := Z.to_nat 512.
Definition FOB_DATA_SIZE : nat := Z.to_nat 500.

(** [FobResource::send]: the payload that is framed, for a readable lease. *)
Definition fob_send_payload (fob_data payload : list Z) : exec (list Z) :=
  let len := Nat.min (length payload) (length fob_data) in
  let! dest := slice fob_data 0 len in
  let! data := copy_at fob_data 0 (read_range (mkLease (length payload) (Some payload)) dest) in
  slice data 0 len.

(** The walk over a batch of [n] bytes: the last id, where it stopped and how
    many entries it saw. *)
Fixpoint walk (fuel : nat) (buf : list Z) (n offset : nat) (last : Z) (count : nat) : exec (Z * nat * nat) :=
  match fuel with
  | O => Panic
  | S fuel =>
      if decide (offset + LOG_HEADER_SIZE ≤ n) then
        let! idb := slice buf offset (offset + 8) in
        let! b := idx buf (offset + 8) in
        let data_len := Z.to_nat b in
        if decide (n < offset + LOG_HEADER_SIZE + data_len) then Ret (last, offset, count)
        else walk fuel buf n (offset + (LOG_HEADER_SIZE + data_len)) (le_val idb) (S count)
      else Ret (last, offset, count)
  end.

Record Drained := mkDrained { sent_batches : list (list Z); last_id : Z; drained : nat }.

(** [drain_logs]; [buf] is the stack buffer, [fuel] bounds the batches. *)
Fixpoint drain_loop (fuel : nat) (subscribers : list Z) (s : LogState) (self : Sender) (buf : list Z)
    (d : Drained) : exec Drained :=
  match fuel with
  | O => Panic
  | S fuel =>
      let! r := consume_since subscribers s self (last_id d) (mkWLease true buf) in
      let n := match fst r with Ok n => n | Err _ => 0 end in
      let buf := wl_bytes (snd r) in
      if decide (n = 0) then Ret d else
      let! w := walk (S n) buf n 0 (last_id d) (drained d) in
      let '(last, offset, count) := w in
      let! batch := slice buf 0 offset in
      drain_loop fuel subscribers s self buf (mkDrained (sent_batches d ++ [batch]) last count)
  end.

Definition drain_logs (fuel : nat) (subscribers : list Z) (s : LogState) (self : Sender) (last : Z)
  : exec Drained :=
  drain_loop fuel subscribers s self (replicate SINK_BUF_SIZE 0%Z) (mkDrained [] last 0).

(** * Walking a batch *)

Lemma walk_ok p rest fuel pre last count :
  Forall entry_ok p → length p < fuel →
  walk fuel (pre ++ queue_bytes p ++ rest) (length (pre ++ queue_bytes p)) (length pre) last count =
    Ret (default last (e_id <$> list.last p), length (pre ++ queue_bytes p), count + length p).
Proof.
  intros Hp. revert fuel pre last count. induction Hp as [|e p He _ IH]; intros fuel pre last count Hf;
    (destruct fuel as [|fuel]; [cbn in Hf; lia|]); cbn [walk].
  { rewrite decide_False by (rewrite length_app; change (length (queue_bytes [])) with 0;
      unfold LOG_HEADER_SIZE; lia). cbn. by rewrite app_nil_r, Nat.add_0_r. }
  rewrite queue_bytes_cons, entry_bytes_split. pose proof (length_entry_header e) as Hh.
  rewrite decide_True by (rewrite !length_app; lia).
  destruct (header_id e He) as (b & Hsl & Hb).
  rewrite slice_ok in Hsl by (rewrite ?Hh; unfold LOG_HEADER_SIZE; lia). injection Hsl as Hsl.
  rewrite <- !app_assoc. rewrite slice_ok by (rewrite ?length_app, ?Hh; unfold LOG_HEADER_SIZE; lia). cbn [ebind].
  rewrite drop_app_length. replace (length pre + 8 - length pre) with 8 by lia.
  rewrite take_app_le' by (rewrite ?Hh; unfold LOG_HEADER_SIZE; lia).
  change (take 8 (entry_header e) = b) in Hsl. rewrite Hsl, Hb.
  rewrite (idx_ok _ _ (Z.of_nat (length (e_data e)))); cycle 1.
  { rewrite lookup_app_r by lia. replace (length pre + 8 - length pre) with 8 by lia.
    rewrite lookup_app_l by (rewrite ?Hh; unfold LOG_HEADER_SIZE; lia). apply header_len. }
  cbn [ebind]. rewrite Nat2Z.id, decide_False by (rewrite !length_app; lia).
  replace (length pre + (LOG_HEADER_SIZE + length (e_data e))) with (length (pre ++ entry_bytes e))
    by (rewrite length_app, length_entry_bytes; lia).
  pose proof (IH fuel (pre ++ entry_bytes e) (e_id e) (S count) ltac:(cbn in Hf; lia)) as IH1.
  rewrite entry_bytes_split in *. rewrite <- !app_assoc in IH1. rewrite IH1. cbn [length].
  rewrite Nat.add_succ_r. do 3 f_equal. destruct p as [|e' p]; [done|]. cbn [list.last].
  by destruct (list.last (e' :: p)) eqn:E; [|apply last_None in E].
Qed.

(** * Draining *)

(** Every entry has an id of its own: single-shot messages only. *)
Fixpoint ids_distinct (q : list Entry) : Prop :=
  match q with [] => True | e :: q => Forall (λ x, e_id x ≠ e_id e) q ∧ ids_distinct q end.

Lemma ids_distinct_app q1 q2 : ids_distinct (q1 ++ q2) → ids_distinct q2.
Proof. induction q1 as [|e q1 IH]; [done|]. intros [_ ?]. auto. Qed.

Lemma after_last_none id q : Forall (λ x, e_id x ≠ id) q → after_last id q = None.
Proof.
  induction 1 as [|e q He _ IH]; [done|]. cbn [after_last]. rewrite IH. by rewrite decide_False.
Qed.

Lemma after_last_distinct a e0 rest :
  ids_distinct (a ++ e0 :: rest) → after_last (e_id e0) (a ++ e0 :: rest) = Some rest.
Proof.
  intros Hd%ids_distinct_app. destruct Hd as [Hr _].
  induction a as [|x a IH]; cbn [app after_last]; [|by rewrite IH].
  rewrite after_last_none by done. by rewrite decide_True.
Qed.

Lemma fit_prefix_split q room : ∃ rest, q = fit_prefix q room ++ rest.
Proof.
  revert room. induction q as [|e q IH]; intros room; cbn [fit_prefix]; [by exists []|].
  case_decide; [|by exists (e :: q)]. destruct (IH (room - length (entry_bytes e))) as [rest Hr].
  exists rest. cbn [app]. by rewrite <- Hr.
Qed.

Lemma fit_prefix_fits q room : length (queue_bytes (fit_prefix q room)) ≤ room.
Proof.
  revert room. induction q as [|e q IH]; intros room; cbn [fit_prefix]; [cbn; lia|].
  case_decide; [|cbn; lia]. rewrite queue_bytes_cons, length_app.
  specialize (IH (room - length (entry_bytes e))). lia.
Qed.

Lemma fit_prefix_last q room : q ≠ [] → Forall entry_ok q → 265 ≤ room →
  ∃ p e rest, fit_prefix q room = p ++ [e] ∧ q = p ++ e :: rest.
Proof.
  intros Hne Hq Hroom. destruct (fit_prefix_split q room) as [rest Hr].
  destruct (fit_prefix q room) as [|e p _] eqn:E using rev_ind.
  - exfalso. destruct q as [|e q]; [done|]. apply Forall_cons_1 in Hq as [[_ He] _].
    cbn [fit_prefix] in E. rewrite decide_True in E; [done|].
    rewrite length_entry_bytes. unfold LOG_HEADER_SIZE. lia.
  - exists p, e, rest. split; [done|]. by rewrite Hr, <- app_assoc.
Qed.

Section drain.
Context (subscribers : list Z) (self : Sender) (s : LogState) (q : list Entry).
Hypothesis subscribed : task_index self ∈ subscribers.
Hypothesis stored : svc_ok s q.
Hypothesis distinct : ids_distinct q.

Lemma drain_loop_ok fuel seen todo buf d :
  q = seen ++ todo → q_since (last_id d) q = todo → length buf = SINK_BUF_SIZE → length todo < fuel →
  ∃ d' bs, drain_loop fuel subscribers s self buf d = Ret d' ∧
    sent_batches d' = sent_batches d ++ bs ∧ concat bs = queue_bytes todo ∧
    Forall (λ b, length b ≤ SINK_BUF_SIZE) bs ∧ drained d' = drained d + length todo.
Proof.
  revert seen todo buf d. induction fuel as [|fuel IH]; intros seen todo buf d Hq Hsince Hbuf Hf; [lia|].
  cbn [drain_loop]. destruct (consume_since_ok subscribers s q self (last_id d) buf stored subscribed)
    as (rest & -> & Hl). rewrite Hsince, Hbuf in *. cbn [ebind fst snd wl_bytes].
  assert (Forall entry_ok todo) as Hok.
  { destruct stored as ((_ & _ & _ & _ & _ & Hq0 & _) & _). rewrite Hq in Hq0. by apply Forall_app in Hq0 as [_ ?]. }
  destruct todo as [|e1 todo1] eqn:Etodo.
  { cbn [fit_prefix]. rewrite decide_True by done. exists d, []. by rewrite app_nil_r, Nat.add_0_r. }
  rewrite <- Etodo in *. pose proof (fit_prefix_fits todo SINK_BUF_SIZE) as Hfits.
  destruct (fit_prefix_last todo SINK_BUF_SIZE) as (p & e & r & Hfp & Htodo); [by subst todo|done| |].
  { change SINK_BUF_SIZE with 512. lia. }
  rewrite Hfp in *. set (out := queue_bytes (p ++ [e])) in *.
  assert (0 < length out) as Hout by (unfold out; pose proof (length_queue_bytes (p ++ [e])) as Hq1; rewrite length_app in Hq1; cbn [length] in Hq1; lia).
  rewrite decide_False by lia.
  assert (Forall entry_ok (p ++ [e])) as Hpe.
  { rewrite Htodo in Hok. rewrite (cons_middle e p), app_assoc in Hok. by apply Forall_app in Hok as [? _]. }
  pose proof (walk_ok (p ++ [e]) rest (S (length out)) [] (last_id d) (drained d) Hpe) as Hw.
  cbn [app length] in Hw. fold out in Hw. rewrite Hw; [|pose proof (length_queue_bytes (p ++ [e])) as Hq1; unfold out; lia].
  cbn [ebind]. rewrite last_snoc. cbn [fmap option_fmap option_map from_option id].
  rewrite slice_ok by len. cbn [ebind]. rewrite drop_0, Nat.sub_0_r, take_app_length.
  assert (0 < e_id e)%Z as Hpos.
  { destruct stored as (_ & _ & _ & _ & Hids). rewrite Hq, Htodo in Hids. apply Forall_app in Hids as [_ Hids].
    apply Forall_app in Hids as [_ Hids]. apply Forall_cons_1 in Hids as [? _]. lia. }
  destruct (IH (seen ++ p ++ [e]) r (out ++ rest) (mkDrained (sent_batches d ++ [out]) (e_id e) (drained d + length (p ++ [e]))))
    as (d' & bs & -> & Hs1 & Hc & Hb & Hn).
  - rewrite Hq, Htodo, <- !app_assoc. done.
  - cbn [last_id]. unfold q_since. rewrite decide_False by lia. rewrite Hq, Htodo, app_assoc.
    rewrite after_last_distinct; [done|]. rewrite <- app_assoc, <- Htodo, <- Hq. exact distinct.
  - done.
  - rewrite Htodo, length_app in Hf. cbn [length] in Hf. lia.
  - exists d', (out :: bs). split; [done|]. cbn [sent_batches drained] in *. rewrite Hs1, <- app_assoc.
    split; [done|]. cbn [concat]. rewrite Hc. split.
    { unfold out. rewrite Htodo, <- queue_bytes_app. by rewrite <- app_assoc. }
    split; [by constructor|]. rewrite Hn, Htodo, !length_app. cbn [length]. lia.
Qed.
End drain.

(** Draining delivers everything once. When the stored entries have distinct
    ids (single-shot messages), a drain by a subscriber that has seen the entries
    up to [last] (or none, [last] being 0 or evicted) ends, and the batches it
    takes, each of at most 512 bytes, concatenate to exactly the entries behind
    [last], in order. *)
Theorem drain_logs_delivers subscribers self s q last :
  task_index self ∈ subscribers → svc_ok s q → ids_distinct q →
  ∃ d, drain_logs (S (length (q_since last q))) subscribers s self last = Ret d ∧
    concat (sent_batches d) = queue_bytes (q_since last q) ∧
    Forall (λ b, length b ≤ SINK_BUF_SIZE) (sent_batches d) ∧ drained d = length (q_since last q).
Proof.
  intros Hin Hs Hd.
  destruct (iter_since_at (ring s) q last (proj1 Hs)) as (seen & off & _ & Hq & _).
  destruct (drain_loop_ok subscribers self s q Hin Hs Hd (S (length (q_since last q))) seen
    (q_since last q) (replicate SINK_BUF_SIZE 0%Z) (mkDrained [] last 0)) as (d & bs & Hr & Hb & ? & ? & ?);
    try done; try lia.
  exists d. cbn [sent_batches app] in Hb. subst bs. by split_and!.
Qed.

(** ** Concrete drains *)

(** The state after a history, the identity standing for the COBS encoder. *)
Definition demo_log (payload : list Z) : SvcOp :=
  OpLog 5 (mkSender 2 0) LInfo 77 (mkLease (length payload) (Some payload)).

Definition demo_state (ops : list SvcOp) : LogState :=
  match svc_run (λ raw, raw) (log_state_new, []) ops with Ret (s, _) => s | Panic => log_state_new end.

Definition sink : Sender := mkSender 4 0.

(** The host's reports for a drain whose batches went through the fob server. *)
Definition host_reports (d : Drained) : exec (list SinkEvent) :=
  foldr (λ batch rest,
    let! payload := fob_send_payload (replicate FOB_DATA_SIZE 0%Z) batch in
    let! events := parse_log_entries 96 104 payload in
    let! rest := rest in Ret (events ++ rest)) (Ret []) (sent_batches d).

Definition reported (ops : list SvcOp) : exec (nat * nat) :=
  let! d := drain_logs 50 [4%Z] (demo_state ops) sink 0 in
  let! events := host_reports d in
  Ret (drained d, length events).

Definition full_message : list Z := write_str (replicate 126 65%Z).

(** Two messages of the maximal inline size arrive; of three, which fill a batch
    of 504 bytes, the fob server's 500-byte copy cuts the last, and the host
    drops it although the sink counts it as delivered. *)
Example three_full_messages_lose_one :
  reported [demo_log full_message; demo_log full_message] = Ret (2, 2) ∧
  reported [demo_log full_message; demo_log full_message; demo_log full_message] = Ret (3, 2).
Proof. split; vm_compute; reflexivity. Qed.

(** A stream of six fragments, four of which fill the first batch: the two that
    are left carry the id the sink has just recorded, and are never drained. *)
Example stream_tail_never_drained :
  let ops := [OpStart 5 (mkSender 2 0) LInfo 77] ++
    replicate 4 (OpWrite 0 (mkLease 128 (Some (replicate 128 65%Z)))) ++ [OpDrop 0] in
  ring_count (ring (demo_state ops)) = 6 ∧
  (let! d := drain_logs 50 [4%Z] (demo_state ops) sink 0 in Ret (last_id d, drained d)) = Ret (1%Z, 4) ∧
  (let! d := drain_logs 50 [4%Z] (demo_state ops) sink 1 in Ret (last_id d, drained d)) = Ret (1%Z, 0).
Proof. repeat split; vm_compute; reflexivity. Qed.

Lemma drain_logs_delivers_witness :
  ∃ s q, svc_log (λ raw, raw) log_state_new 5 (mkSender 2 0) LInfo 77 (mkLease 1 (Some [TAG_UNIT])) = Ret s ∧
    q ≠ [] ∧ ∃ d, drain_logs (S (length (q_since 0 q))) [4%Z] s sink 0 = Ret d ∧
    concat (sent_batches d) = queue_bytes (q_since 0 q) ∧
    Forall (λ b, length b ≤ SINK_BUF_SIZE) (sent_batches d) ∧ drained d = length (q_since 0 q).
Proof.
  destruct (svc_log_ok (λ raw, raw) identity_bound log_state_new [] 5 (mkSender 2 0) LInfo 77
    (mkLease 1 (Some [TAG_UNIT])) svc_ok_new eq_refl eq_refl) as (s & Hlog & Hs & _).
  eexists s, _. split; [exact Hlog|]. split; [|apply (drain_logs_delivers [4%Z] sink s _ 0); [|exact Hs|]].
  - vm_compute. discriminate.
  - apply list_elem_of_here.
  - vm_compute. split; constructor.
Defined.
