(* ===== verification/Memfns.v ===== *)
(** The memory functions of the firmware ([firmware/modules/memfns/src/lib.rs]):
    [memcpy], [memmove], [memset], their [__aeabi] entry points, and [memcmp].

    A memory maps addresses to bytes. Word accesses are checked for alignment: a
    misaligned one is a panic of the model, so that the theorems exclude it.
    Objects do not wrap around the address space, and pointers are integers. *)

From S2P Require Import Prelude.

Open Scope Z_scope.

Definition Mem : Type := Z → Z.

Definition mem_ok (m : Mem) : Prop := ∀ a, is_u 8 (m a).

(** [*d = b] *)
Definition store8 (m : Mem) (a v : Z) : Mem := λ x, if decide (x = a) then v else m x.

(** [*(p as *const u32)] *)
Definition load32 (m : Mem) (a : Z) : exec Z :=
  if decide (Z.land a 3 = 0) then Ret (le_val [m a; m (a + 1); m (a + 2); m (a + 3)]) else Panic.

(** [*(p as *mut u32) = v] *)
Definition store32 (m : Mem) (a v : Z) : exec Mem :=
  if decide (Z.land a 3 = 0) then
    Ret (λ x, if decide (a <= x < a + 4) then nth (Z.to_nat (x - a)) (le_bytes 4 v) 0 else m x)
  else Panic.

(** ** memcpy *)

(** [while n >= 16]: four words are read before the four are written. *)
Fixpoint copy_blocks (fuel : nat) (m : Mem) (dw sw : Z) (n : nat) : exec (Mem * Z * Z * nat) :=
  if decide (16 ≤ n)%nat then
    match fuel with
    | O => Panic
    | S fuel =>
        let! a := load32 m sw in
        let! b := load32 m (sw + 4) in
        let! c := load32 m (sw + 8) in
        let! d := load32 m (sw + 12) in
        let! m := store32 m dw a in
        let! m := store32 m (dw + 4) b in
        let! m := store32 m (dw + 8) c in
        let! m := store32 m (dw + 12) d in
        copy_blocks fuel m (dw + 16) (sw + 16) (n - 16)
    end
  else Ret (m, dw, sw, n).

(** [while n >= 4] *)
Fixpoint copy_words (fuel : nat) (m : Mem) (dw sw : Z) (n : nat) : exec (Mem * Z * Z * nat) :=
  if decide (4 ≤ n)%nat then
    match fuel with
    | O => Panic
    | S fuel =>
        let! a := load32 m sw in
        let! m := store32 m dw a in
        copy_words fuel m (dw + 4) (sw + 4) (n - 4)
    end
  else Ret (m, dw, sw, n).

(** [while n > 0] *)
Fixpoint copy_bytes (n : nat) (m : Mem) (d s : Z) : Mem :=
  match n with
  | O => m
  | S n => copy_bytes n (store8 m d (m s)) (d + 1) (s + 1)
  end.

Definition copy_aligned_tail (m : Mem) (d s : Z) (n : nat) : exec Mem :=
  if decide (Z.land s 3 = 0) then
    let! (m, dw, sw, n) := copy_blocks n m d s n in
    let! (m, d, s, n) := copy_words n m dw sw n in
    Ret (copy_bytes n m d s)
  else Ret (copy_bytes n m d s).

(** [while remaining > 0 && (d as usize & 3) != 0] *)
Fixpoint copy_head (remaining : nat) (m : Mem) (d s : Z) : Mem * Z * Z * nat :=
  match remaining with
  | O => (m, d, s, O)
  | S r =>
      if decide (Z.land d 3 ≠ 0) then copy_head r (store8 m d (m s)) (d + 1) (s + 1)
      else (m, d, s, remaining)
  end.

Definition aeabi_memcpy (m : Mem) (dest src : Z) (n : nat) : exec Mem :=
  let '(m, d, s, remaining) := copy_head n m dest src in
  copy_aligned_tail m d s remaining.

Definition aeabi_memcpy8 (m : Mem) (dest src : Z) (n : nat) : exec Mem := copy_aligned_tail m dest src n.
Definition aeabi_memcpy4 (m : Mem) (dest src : Z) (n : nat) : exec Mem := copy_aligned_tail m dest src n.

Definition memcpy (m : Mem) (dest src : Z) (n : nat) : exec (Z * Mem) :=
  let! m := aeabi_memcpy m dest src n in Ret (dest, m).

(** ** memmove *)

(** [while i > 0 { i -= 1; *dest.add(i) = *src.add(i); }] *)
Fixpoint move_back (i : nat) (m : Mem) (dest src : Z) : Mem :=
  match i with
  | O => m
  | S i => move_back i (store8 m (dest + Z.of_nat i) (m (src + Z.of_nat i))) dest src
  end.

Definition aeabi_memmove (m : Mem) (dest src : Z) (n : nat) : exec Mem :=
  if decide (dest <= src) then aeabi_memcpy m dest src n else Ret (move_back n m dest src).

Definition aeabi_memmove4 (m : Mem) (dest src : Z) (n : nat) : exec Mem := aeabi_memmove m dest src n.
Definition aeabi_memmove8 (m : Mem) (dest src : Z) (n : nat) : exec Mem := aeabi_memmove m dest src n.

Definition memmove (m : Mem) (dest src : Z) (n : nat) : exec (Z * Mem) :=
  let! m := aeabi_memmove m dest src n in Ret (dest, m).

(** ** memset *)

Fixpoint set_head (remaining : nat) (m : Mem) (d byte : Z) : Mem * Z * nat :=
  match remaining with
  | O => (m, d, O)
  | S r =>
      if decide (Z.land d 3 ≠ 0) then set_head r (store8 m d byte) (d + 1) byte else (m, d, remaining)
  end.

Fixpoint set_words (fuel : nat) (m : Mem) (dw word : Z) (remaining : nat) : exec (Mem * Z * nat) :=
  if decide (4 ≤ remaining)%nat then
    match fuel with
    | O => Panic
    | S fuel => let! m := store32 m dw word in set_words fuel m (dw + 4) word (remaining - 4)
    end
  else Ret (m, dw, remaining).

Fixpoint set_bytes (remaining : nat) (m : Mem) (d byte : Z) : Mem :=
  match remaining with
  | O => m
  | S r => set_bytes r (store8 m d byte) (d + 1) byte
  end.

Definition aeabi_memset (m : Mem) (dest : Z) (n : nat) (c : Z) : exec Mem :=
  let byte := wrap 8 c in
  let '(m, d, remaining) := set_head n m dest byte in
  if decide (4 ≤ remaining)%nat then
    let word := le_val [byte; byte; byte; byte] in
    let! (m, d, remaining) := set_words remaining m d word remaining in
    Ret (set_bytes remaining m d byte)
  else Ret (set_bytes remaining m d byte).

Definition aeabi_memset4 (m : Mem) (dest : Z) (n : nat) (c : Z) : exec Mem := aeabi_memset m dest n c.
Definition aeabi_memset8 (m : Mem) (dest : Z) (n : nat) (c : Z) : exec Mem := aeabi_memset m dest n c.
Definition aeabi_memclr (m : Mem) (dest : Z) (n : nat) : exec Mem := aeabi_memset m dest n 0.
Definition aeabi_memclr4 (m : Mem) (dest : Z) (n : nat) : exec Mem := aeabi_memset m dest n 0.
Definition aeabi_memclr8 (m : Mem) (dest : Z) (n : nat) : exec Mem := aeabi_memset m dest n 0.

Definition memset (m : Mem) (dest c : Z) (n : nat) : exec (Z * Mem) :=
  let! m := aeabi_memset m dest n c in Ret (dest, m).

(** ** memcmp *)

(** [rest] bytes are left to compare, from offset [i]. *)
Fixpoint memcmp_from (rest : nat) (m : Mem) (a b i : Z) : Z :=
  match rest with
  | O => 0
  | S rest =>
      let av := m (a + i) in
      let bv := m (b + i) in
      if decide (av ≠ bv) then av - bv else memcmp_from rest m a b (i + 1)
  end.

Definition memcmp (m : Mem) (a b : Z) (n : nat) : Z := memcmp_from n m a b 0.

(** * What they compute *)

(** The memory after [n] bytes at [src] have been copied to [dest] at once. *)
Definition copied (m : Mem) (dest src n : Z) : Mem :=
  λ a, if decide (dest <= a < dest + n) then m (src + (a - dest)) else m a.

(** The memory after [n] bytes at [dest] have been set to [v]. *)
Definition filled (m : Mem) (dest n v : Z) : Mem :=
  λ a, if decide (dest <= a < dest + n) then v else m a.

(** The bytes of an object in memory. *)
Definition bytes_at (m : Mem) (a : Z) (n : nat) : list Z := (λ i, m (a + Z.of_nat i)) <$> seq 0 n.

(** Forward copying is right when the destination is not inside the source
    behind its start. *)
Definition forward_ok (d s n : Z) : Prop := d <= s ∨ s + n <= d.

(** [m'] is [m] with [n] bytes copied; the pieces of a forward copy compose. *)
Definition is_copy (m m' : Mem) (d s n : Z) : Prop := ∀ a, m' a = copied m d s n a.
Definition is_fill (m m' : Mem) (d n v : Z) : Prop := ∀ a, m' a = filled m d n v a.

Ltac mem_cases := repeat (case_decide; try lia); try lia; try (f_equal; lia); auto.

Lemma is_copy_0 m d s : is_copy m m d s 0.
Proof. intros a. unfold copied. mem_cases. Qed.

Lemma is_copy_app m m1 m2 d s k j :
  0 <= k → 0 <= j → forward_ok d s (k + j) →
  is_copy m m1 d s k → is_copy m1 m2 (d + k) (s + k) j → is_copy m m2 d s (k + j).
Proof.
  intros Hk Hj Hf H1 H2 a. rewrite H2. unfold copied. destruct Hf.
  all: case_decide; rewrite H1; unfold copied; mem_cases.
Qed.

Lemma forward_ok_weak d s n k : 0 <= k <= n → forward_ok d s n → forward_ok d s k.
Proof. unfold forward_ok. lia. Qed.

Lemma forward_ok_drop d s n k : 0 <= k <= n → forward_ok d s n → forward_ok (d + k) (s + k) (n - k).
Proof. unfold forward_ok. lia. Qed.

Lemma copied_ok m m' d s n : mem_ok m → is_copy m m' d s n → mem_ok m'.
Proof. intros Hm H a. rewrite H. unfold copied. case_decide; apply Hm. Qed.

Lemma is_copy_store8 m d s : is_copy m (store8 m d (m s)) d s 1.
Proof.
  intros a. unfold store8, copied. case_decide; [subst|mem_cases].
  rewrite decide_True by lia. f_equal. lia.
Qed.

(** A word store of four given bytes. *)
Lemma load32_ok m a : Z.land a 3 = 0 → load32 m a = Ret (le_val [m a; m (a + 1); m (a + 2); m (a + 3)]).
Proof. intros. unfold load32. by rewrite decide_True. Qed.

Lemma store32_ok m a b0 b1 b2 b3 :
  Z.land a 3 = 0 → bytes_ok [b0; b1; b2; b3] →
  ∃ m', store32 m a (le_val [b0; b1; b2; b3]) = Ret m' ∧
    ∀ x, m' x = if decide (x = a) then b0 else if decide (x = a + 1) then b1 else
                if decide (x = a + 2) then b2 else if decide (x = a + 3) then b3 else m x.
Proof.
  intros Ha Hb. unfold store32. rewrite decide_True by done. eexists. split; [done|]. intros x. cbn beta.
  change 4%nat with (length [b0; b1; b2; b3]). rewrite le_bytes_le_val by done.
  case_decide as H; [|repeat (rewrite decide_False by lia); done].
  assert (x - a = 0 ∨ x - a = 1 ∨ x - a = 2 ∨ x - a = 3) as E by lia.
  destruct E as [E|[E|[E|E]]]; rewrite E; repeat case_decide; try lia; done.
Qed.

Lemma land3_add a k : Z.land (a + 4 * k) 3 = Z.land a 3.
Proof.
  change 3 with (Z.ones 2). rewrite !Z.land_ones by lia. rewrite Z.mul_comm. apply Z_mod_plus_full.
Qed.

Ltac aligned := rewrite <- ?Z.add_assoc; try done;
  match goal with |- Z.land (?a + ?c) 3 = 0 => let k := eval cbv in (c / 4) in
    change c with (4 * k); by rewrite land3_add end.

Lemma load_quad_ok m a : mem_ok m → bytes_ok [m a; m (a + 1); m (a + 2); m (a + 3)].
Proof. intros Hm. repeat constructor; apply Hm. Qed.

Lemma word_copied m d s :
  mem_ok m → Z.land d 3 = 0 → Z.land s 3 = 0 →
  ∃ w m', load32 m s = Ret w ∧ store32 m d w = Ret m' ∧ is_copy m m' d s 4.
Proof.
  intros Hm Hd Hs. rewrite load32_ok by done.
  edestruct (store32_ok m d) as (m' & E & H); [done|by apply load_quad_ok|].
  eexists _, m'. split; [done|]. split; [exact E|]. intros a. rewrite H. unfold copied. mem_cases.
Qed.

(** Four words read and then written are sixteen bytes copied, also when the
    two blocks overlap. *)
Lemma block_copied m d s :
  mem_ok m → Z.land d 3 = 0 → Z.land s 3 = 0 →
  ∃ w0 w1 w2 w3 m1 m2 m3 m4,
    load32 m s = Ret w0 ∧ load32 m (s + 4) = Ret w1 ∧ load32 m (s + 8) = Ret w2 ∧ load32 m (s + 12) = Ret w3 ∧
    store32 m d w0 = Ret m1 ∧ store32 m1 (d + 4) w1 = Ret m2 ∧ store32 m2 (d + 8) w2 = Ret m3 ∧
    store32 m3 (d + 12) w3 = Ret m4 ∧ is_copy m m4 d s 16.
Proof.
  intros Hm Hd Hs. rewrite !load32_ok by aligned.
  edestruct (store32_ok m d) as (m1 & E1 & H1); [done|by apply load_quad_ok|].
  edestruct (store32_ok m1 (d + 4)) as (m2 & E2 & H2); [aligned|by apply load_quad_ok|].
  edestruct (store32_ok m2 (d + 8)) as (m3 & E3 & H3); [aligned|by apply load_quad_ok|].
  edestruct (store32_ok m3 (d + 12)) as (m4 & E4 & H4); [aligned|by apply load_quad_ok|].
  eexists _, _, _, _, m1, m2, m3, m4. do 4 (split; [done|]). do 3 (split; [eassumption|]). split; [eassumption|].
  intros a. rewrite H4, H3, H2, H1. unfold copied. repeat (case_decide; try lia); f_equal; lia.
Qed.

(** What a copying loop has done when it stops with [n'] of [n] bytes left. *)
Definition copy_progress (m m' : Mem) (d s d' s' : Z) (n n' : nat) : Prop :=
  ∃ k, 0 <= k ∧ d' = d + k ∧ s' = s + k ∧ Z.of_nat n = k + Z.of_nat n' ∧ is_copy m m' d s k.

Lemma copy_progress_refl m d s n : copy_progress m m d s d s n n.
Proof. exists 0. split_and!; try lia. apply is_copy_0. Qed.

Lemma copy_progress_step m m1 m2 d s d' s' (n n' : nat) c :
  (Z.to_nat c ≤ n)%nat → 0 <= c → forward_ok d s (Z.of_nat n) → is_copy m m1 d s c →
  copy_progress m1 m2 (d + c) (s + c) d' s' (n - Z.to_nat c) n' → copy_progress m m2 d s d' s' n n'.
Proof.
  intros Hn Hc Hf H1 (k & Hk & -> & -> & E & H2). exists (c + k). split_and!; try lia.
  eapply is_copy_app; [lia..| |done|done]. eapply forward_ok_weak; [|done]. lia.
Qed.

Lemma copy_blocks_ok fuel n m d s :
  (n ≤ fuel)%nat → mem_ok m → Z.land d 3 = 0 → Z.land s 3 = 0 → forward_ok d s (Z.of_nat n) →
  ∃ m' d' s' n', copy_blocks fuel m d s n = Ret (m', d', s', n') ∧ copy_progress m m' d s d' s' n n' ∧
    Z.land d' 3 = 0 ∧ Z.land s' 3 = 0.
Proof.
  revert n m d s. induction fuel as [|fuel IH]; intros n m d s Hfuel Hm Hd Hs Hf; cbn [copy_blocks].
  all: case_decide; [|by eauto 10 using copy_progress_refl].
  1: lia.
  destruct (block_copied m d s) as (w0 & w1 & w2 & w3 & m1 & m2 & m3 & m4 & -> & -> & -> & -> & E1 & E2 & E3 & E4 & Hc); [done..|].
  cbn [ebind]. rewrite E1; cbn [ebind]. rewrite E2; cbn [ebind]. rewrite E3; cbn [ebind]. rewrite E4; cbn [ebind].
  destruct (IH (n - 16)%nat m4 (d + 16) (s + 16)) as (m' & d' & s' & n' & -> & Hp & Ha); [lia| | | | |].
  - by eapply copied_ok.
  - by aligned.
  - by aligned.
  - replace (Z.of_nat (n - 16)) with (Z.of_nat n - 16) by lia. apply forward_ok_drop; [lia|done].
  - exists m', d', s', n'. split; [done|]. split; [|done].
    eapply (copy_progress_step m m4 m' d s d' s' n n' 16); [lia|lia|done|done|done].
Qed.

Lemma copy_words_ok fuel n m d s :
  (n ≤ fuel)%nat → mem_ok m → Z.land d 3 = 0 → Z.land s 3 = 0 → forward_ok d s (Z.of_nat n) →
  ∃ m' d' s' n', copy_words fuel m d s n = Ret (m', d', s', n') ∧ copy_progress m m' d s d' s' n n'.
Proof.
  revert n m d s. induction fuel as [|fuel IH]; intros n m d s Hfuel Hm Hd Hs Hf; cbn [copy_words].
  all: case_decide; [|by eauto 10 using copy_progress_refl].
  1: lia.
  destruct (word_copied m d s) as (w & m1 & -> & E1 & Hc); [done..|]. cbn [ebind]. rewrite E1; cbn [ebind].
  destruct (IH (n - 4)%nat m1 (d + 4) (s + 4)) as (m' & d' & s' & n' & -> & Hp); [lia| | | | |].
  - by eapply copied_ok.
  - by aligned.
  - by aligned.
  - replace (Z.of_nat (n - 4)) with (Z.of_nat n - 4) by lia. apply forward_ok_drop; [lia|done].
  - exists m', d', s', n'. split; [done|].
    eapply (copy_progress_step m m1 m' d s d' s' n n' 4); [lia|lia|done|done|done].
Qed.

Lemma copy_bytes_ok n m d s :
  forward_ok d s (Z.of_nat n) → is_copy m (copy_bytes n m d s) d s (Z.of_nat n).
Proof.
  revert m d s. induction n as [|n IH]; intros m d s Hf; cbn [copy_bytes]; [apply is_copy_0|].
  replace (Z.of_nat (S n)) with (1 + Z.of_nat n) in * by lia.
  eapply is_copy_app; [lia..|done|apply is_copy_store8|]. apply IH.
  replace (Z.of_nat n) with (1 + Z.of_nat n - 1) by lia. apply forward_ok_drop; [lia|done].
Qed.

Lemma copy_progress_done m m' d s d' s' n n' :
  forward_ok d s (Z.of_nat n) → copy_progress m m' d s d' s' n n' →
  is_copy m (copy_bytes n' m' d' s') d s (Z.of_nat n).
Proof.
  intros Hf (k & Hk & -> & -> & E & H). rewrite E in *. eapply is_copy_app; [lia..|done|done|]. apply copy_bytes_ok.
  replace (Z.of_nat n') with (k + Z.of_nat n' - k) by lia. apply forward_ok_drop; [lia|done].
Qed.

Lemma copy_progress_trans m m1 m2 d s d1 s1 d2 s2 n n1 n2 :
  forward_ok d s (Z.of_nat n) → copy_progress m m1 d s d1 s1 n n1 →
  copy_progress m1 m2 d1 s1 d2 s2 n1 n2 → copy_progress m m2 d s d2 s2 n n2.
Proof.
  intros Hf (k & Hk & -> & -> & E & H) (j & Hj & -> & -> & E' & H'). exists (k + j). split_and!; try lia.
  eapply is_copy_app; [lia..| |done|done]. eapply forward_ok_weak; [|done]. lia.
Qed.

Lemma copy_progress_left m m1 d s d1 s1 n n1 :
  forward_ok d s (Z.of_nat n) → mem_ok m → copy_progress m m1 d s d1 s1 n n1 →
  forward_ok d1 s1 (Z.of_nat n1) ∧ mem_ok m1.
Proof.
  intros Hf Hm (k & Hk & -> & -> & E & H). split; [|by eapply copied_ok].
  replace (Z.of_nat n1) with (Z.of_nat n - k) by lia. apply forward_ok_drop; [lia|done].
Qed.

Lemma copy_aligned_tail_ok m d s n :
  mem_ok m → Z.land d 3 = 0 → forward_ok d s (Z.of_nat n) →
  ∃ m', copy_aligned_tail m d s n = Ret m' ∧ is_copy m m' d s (Z.of_nat n).
Proof.
  intros Hm Hd Hf. unfold copy_aligned_tail. case_decide as Hs; [|by eauto using copy_bytes_ok].
  destruct (copy_blocks_ok n n m d s) as (m1 & d1 & s1 & n1 & -> & P1 & Hd1 & Hs1); [lia|done..|]. cbn [ebind].
  destruct (copy_progress_left _ _ _ _ _ _ _ _ Hf Hm P1).
  destruct (copy_words_ok n1 n1 m1 d1 s1) as (m2 & d2 & s2 & n2 & -> & P2); [lia|done..|]. cbn [ebind].
  eexists. split; [done|]. eapply copy_progress_done; [done|]. by eapply copy_progress_trans.
Qed.

Lemma copy_head_ok n m d s m' d' s' n' :
  forward_ok d s (Z.of_nat n) → copy_head n m d s = (m', d', s', n') →
  copy_progress m m' d s d' s' n n' ∧ (n' = O ∨ Z.land d' 3 = 0).
Proof.
  revert m d s. induction n as [|n IH]; intros m d s Hf; cbn [copy_head].
  { intros [= <- <- <- <-]. split; [apply copy_progress_refl|by left]. }
  case_decide as E; [|intros [= <- <- <- <-]; split; [apply copy_progress_refl|right; lia]].
  intros H. apply IH in H as [H ?].
  - split; [|done]. eapply (copy_progress_step _ _ _ _ _ _ _ _ _ 1); [lia|lia|done|apply is_copy_store8|].
    change (Z.to_nat 1) with 1%nat. by rewrite Nat.sub_1_r.
  - replace (Z.of_nat n) with (Z.of_nat (S n) - 1) by lia. apply forward_ok_drop; [lia|done].
Qed.

Lemma memcpy_ok m d s n :
  mem_ok m → forward_ok d s (Z.of_nat n) →
  ∃ m', aeabi_memcpy m d s n = Ret m' ∧ is_copy m m' d s (Z.of_nat n).
Proof.
  intros Hm Hf. unfold aeabi_memcpy. destruct (copy_head n m d s) as [[[m1 d1] s1] n1] eqn:E.
  apply copy_head_ok in E as [P [-> | Hd]]; [| |done].
  - exists (copy_bytes 0 m1 d1 s1). split; [unfold copy_aligned_tail; by case_decide|].
    by eapply copy_progress_done.
  - destruct (copy_progress_left _ _ _ _ _ _ _ _ Hf Hm P) as [Hf1 Hm1].
    destruct (copy_aligned_tail_ok m1 d1 s1 n1) as (m' & -> & H); [done..|]. exists m'. split; [done|].
    destruct P as (k & ? & -> & -> & E & P). rewrite E in *. eapply is_copy_app; [lia..|done|done|done].
Qed.

Lemma move_back_ok i m m0 d s n :
  d > s → (i ≤ n)%nat →
  (∀ a, m a = if decide (d + Z.of_nat i <= a < d + Z.of_nat n) then m0 (s + (a - d)) else m0 a) →
  is_copy m0 (move_back i m d s) d s (Z.of_nat n).
Proof.
  intros Hd. revert m. induction i as [|i IH]; intros m Hi Hm a; cbn [move_back].
  { rewrite Hm. unfold copied. mem_cases. }
  apply IH; [lia|]. intros x. unfold store8. case_decide as E; rewrite Hm.
  - subst x. rewrite decide_False by lia. rewrite decide_True by lia. f_equal. lia.
  - mem_cases.
Qed.

Lemma memmove_ok m d s n :
  mem_ok m → ∃ m', aeabi_memmove m d s n = Ret m' ∧ is_copy m m' d s (Z.of_nat n).
Proof.
  intros Hm. unfold aeabi_memmove. case_decide.
  - apply memcpy_ok; [done|by left].
  - eexists. split; [done|]. apply move_back_ok; [lia|lia|]. intros a. by rewrite decide_False by lia.
Qed.

(** ** memset *)

Lemma is_fill_0 m d v : is_fill m m d 0 v.
Proof. intros a. unfold filled. mem_cases. Qed.

Lemma is_fill_app m m1 m2 d k j v :
  0 <= k → 0 <= j → is_fill m m1 d k v → is_fill m1 m2 (d + k) j v → is_fill m m2 d (k + j) v.
Proof. intros Hk Hj H1 H2 a. rewrite H2. unfold filled. case_decide; [|rewrite H1; unfold filled]; mem_cases. Qed.

Lemma is_fill_store8 m d v : is_fill m (store8 m d v) d 1 v.
Proof. intros a. unfold store8, filled. mem_cases. Qed.

Lemma set_bytes_ok n m d v : is_fill m (set_bytes n m d v) d (Z.of_nat n) v.
Proof.
  revert m d. induction n as [|n IH]; intros m d; cbn [set_bytes]; [apply is_fill_0|].
  replace (Z.of_nat (S n)) with (1 + Z.of_nat n) by lia.
  eapply is_fill_app; [lia..|apply is_fill_store8|apply IH].
Qed.

Lemma set_head_ok n m d v m' d' n' :
  set_head n m d v = (m', d', n') →
  ∃ k, 0 <= k ∧ d' = d + k ∧ Z.of_nat n = k + Z.of_nat n' ∧ is_fill m m' d k v ∧ (n' = O ∨ Z.land d' 3 = 0).
Proof.
  revert m d. induction n as [|n IH]; intros m d; cbn [set_head].
  { intros [= <- <- <-]. exists 0. split_and!; auto using is_fill_0; lia. }
  case_decide; [|intros [= <- <- <-]; exists 0; split_and!; auto using is_fill_0; lia].
  intros (k & Hk & -> & E & Hfill & Hd)%IH. exists (1 + k). split_and!; try lia.
  - eapply is_fill_app; [lia..|apply is_fill_store8|done].
Qed.

Lemma set_words_ok fuel n m d v :
  (n ≤ fuel)%nat → is_u 8 v → Z.land d 3 = 0 →
  ∃ m' d' n' k, set_words fuel m d (le_val [v; v; v; v]) n = Ret (m', d', n') ∧
    0 <= k ∧ d' = d + k ∧ Z.of_nat n = k + Z.of_nat n' ∧ is_fill m m' d k v.
Proof.
  intros Hfuel Hv. revert n m d Hfuel. induction fuel as [|fuel IH]; intros n m d Hfuel Hd; cbn [set_words].
  all: case_decide; [|by exists m, d, n, 0; split_and!; auto using is_fill_0; lia].
  1: lia.
  destruct (store32_ok m d v v v v) as (m1 & -> & H1); [done|by repeat (constructor; [exact Hv|])|]. cbn [ebind].
  destruct (IH (n - 4)%nat m1 (d + 4)) as (m' & d' & n' & k & -> & Hk & -> & E & Hfill); [lia|aligned|].
  exists m', (d + 4 + k), n', (4 + k). split_and!; try lia; [done|].
  eapply is_fill_app; [lia..| |done]. intros a. rewrite H1. unfold filled. mem_cases.
Qed.

Lemma memset_ok m d n c :
  ∃ m', aeabi_memset m d n c = Ret m' ∧ is_fill m m' d (Z.of_nat n) (wrap 8 c).
Proof.
  unfold aeabi_memset. set (v := wrap 8 c). destruct (set_head n m d v) as [[m1 d1] n1] eqn:E.
  apply set_head_ok in E as (k & Hk & -> & E & H & Hd). rewrite E. case_decide.
  - destruct (set_words_ok n1 n1 m1 (d + k) v) as (m2 & d2 & n2 & j & -> & Hj & -> & E2 & H2).
    + lia.
    + by apply wrap_is_u.
    + destruct Hd; [lia|done].
    + cbn [ebind]. eexists. split; [done|]. rewrite E2. eapply is_fill_app; [lia..|done|].
      eapply is_fill_app; [lia..|done|apply set_bytes_ok].
  - eexists. split; [done|]. eapply is_fill_app; [lia..|done|apply set_bytes_ok].
Qed.

(** ** memcmp *)

(** Lexicographic order on byte strings of the same length. *)
Fixpoint lex_compare (l k : list Z) : comparison :=
  match l, k with
  | x :: l, y :: k => match x ?= y with Eq => lex_compare l k | c => c end
  | _, _ => Eq
  end.

Lemma memcmp_from_ok rest m a b i :
  (memcmp_from rest m a b i ?= 0) = lex_compare (bytes_at m (a + i) rest) (bytes_at m (b + i) rest).
Proof.
  revert i. induction rest as [|rest IH]; intros i; [done|]. unfold bytes_at in *. cbn [memcmp_from seq fmap list_fmap lex_compare].
  rewrite !Z.add_0_r. case_decide as E.
  - destruct (Z.compare_spec (m (a + i)) (m (b + i))) as [?|?|?]; [done| |].
    + rewrite Z.compare_lt_iff. lia.
    + rewrite Z.compare_gt_iff. lia.
  - replace (m (a + i) ?= m (b + i)) with Eq by (symmetry; apply Z.compare_eq_iff; lia).
    rewrite IH. rewrite <- !fmap_S_seq, <- !list_fmap_compose. f_equal; apply list_fmap_ext; intros ???; cbn; f_equal; lia.
Qed.

Lemma lex_compare_eq l k : length l = length k → lex_compare l k = Eq ↔ l = k.
Proof.
  revert k. induction l as [|x l IH]; intros [|y k]; try done. cbn. intros [= E].
  destruct (Z.compare_spec x y) as [->|?|?]; [|split; [done|intros [= ? ?]; lia]..].
  rewrite IH by done. split; congruence.
Qed.

Lemma length_bytes_at m a n : length (bytes_at m a n) = n.
Proof. unfold bytes_at. by rewrite length_fmap, length_seq. Qed.
#[export] Hint Rewrite length_bytes_at : len.

(** C25: the memory functions compute what C promises. On any memory of bytes,
    [memmove] leaves the destination with exactly the bytes the source had before
    the call, whatever the overlap and the alignments, and changes nothing else;
    so does [memcpy], and its entry points for aligned destinations, unless the
    destination starts inside the source; [memset] fills exactly its range with
    the low byte of its argument; the sign of [memcmp] is the lexicographic order
    of the two strings, and it is zero exactly when they are equal. No word access
    is misaligned. *)
Theorem memory_functions_exact (m : Mem) (dest src c : Z) (n : nat) :
  mem_ok m →
  (∃ m', memmove m dest src n = Ret (dest, m') ∧ ∀ a, m' a = copied m dest src (Z.of_nat n) a) ∧
  (dest <= src ∨ src + Z.of_nat n <= dest →
     (∃ m', memcpy m dest src n = Ret (dest, m') ∧ ∀ a, m' a = copied m dest src (Z.of_nat n) a) ∧
     (Z.land dest 3 = 0 → ∃ m', aeabi_memcpy4 m dest src n = Ret m' ∧ aeabi_memcpy8 m dest src n = Ret m' ∧
        ∀ a, m' a = copied m dest src (Z.of_nat n) a)) ∧
  (∃ m', memset m dest c n = Ret (dest, m') ∧ ∀ a, m' a = filled m dest (Z.of_nat n) (wrap 8 c) a) ∧
  (memcmp m dest src n ?= 0) = lex_compare (bytes_at m dest n) (bytes_at m src n) ∧
  (memcmp m dest src n = 0 ↔ bytes_at m dest n = bytes_at m src n).
Proof.
  intros Hm. pose proof (memcmp_from_ok n m dest src 0) as Hcmp. rewrite !Z.add_0_r in Hcmp. split_and!.
  - destruct (memmove_ok m dest src n Hm) as (m' & E & H). exists m'. unfold memmove. by rewrite E.
  - intros Hf. split.
    + destruct (memcpy_ok m dest src n Hm Hf) as (m' & E & H). exists m'. unfold memcpy. by rewrite E.
    + intros Ha. destruct (copy_aligned_tail_ok m dest src n Hm Ha Hf) as (m' & E & H). by exists m'.
  - destruct (memset_ok m dest n c) as (m' & E & H). exists m'. unfold memset. by rewrite E.
  - exact Hcmp.
  - rewrite <- lex_compare_eq by len. rewrite <- Hcmp. by rewrite Z.compare_eq_iff.
Qed.

(** A memory whose bytes are the low bytes of the addresses. *)
Definition ramp : Mem := λ a, wrap 8 a.

Lemma memory_functions_exact_witness :
  (∃ m', memmove ramp 1001 1000 40 = Ret (1001, m') ∧ m' 1001 = 232 ∧ m' 1040 = 15 ∧ m' 1041 = 17) ∧
  (∃ m', memcpy ramp 1002 1006 40 = Ret (1002, m') ∧ m' 1002 = 238) ∧
  memcmp ramp 1000 1256 9 = 0.
Proof.
  assert (mem_ok ramp) as Hm by (intros a; by apply wrap_is_u).
  destruct (memory_functions_exact ramp 1001 1000 7 40 Hm) as ((m' & E & H) & _).
  destruct (memory_functions_exact ramp 1002 1006 7 40 Hm) as (_ & Hc & _).
  destruct Hc as ((m2 & E2 & H2) & _); [lia|].
  destruct (memory_functions_exact ramp 1000 1256 7 9 Hm) as (_ & _ & _ & _ & Heq).
  split; [exists m'; split; [exact E|rewrite !H; vm_compute; auto]|].
  split; [exists m2; split; [exact E2|rewrite !H2; reflexivity]|].
  apply Heq. reflexivity.
Defined.
