(* ===== verification/Places.v ===== *)
(** The firmware image format ([shared/places/src/lib.rs]): the checksum, the
    parser and its views, the firmware state, the builder, and the choice between
    two images.

    The parser runs on the host and on the device, so the width [usz] of [usize]
    is an argument; its sums wrap as those of an optimised build do. Reads are
    unchecked in the source: here a read outside of the image is a panic, so that
    a theorem ending in [Ret] excludes it. The builder runs on the host only,
    where sizes do not overflow. *)

From S2P Require Import Prelude.

Open Scope Z_scope.

Definition MAGIC : Z := 0x504C4342.
Definition VERSION_1 : Z := 1.
Definition VERSION_2 : Z := 2.
Definition FOOTER_V1_SIZE : Z := 24.
Definition FOOTER_V2_SIZE : Z := 48.
Definition PARTITION_SIZE : Z := 16.
Definition SEGMENT_SIZE : Z := 16.

Definition PART_UNMAPPED : Z := 1.
Definition PART_MANAGED : Z := 2.

(** * The checksum *)

Definition CRC32_POLY : Z := 0xEDB88320.
Definition CRC32_INIT : Z := 0xFFFFFFFF.

Definition crc32_bit (crc : Z) : Z :=
  if decide (Z.land crc 1 ≠ 0) then Z.lxor (Z.shiftr crc 1) CRC32_POLY else Z.shiftr crc 1.

Definition CRC32_TABLE : list Z := Nat.iter 8 crc32_bit <$> seqZ 0 256.

Definition crc32_byte (crc b : Z) : Z :=
  let index := Z.land (Z.lxor crc b) 0xFF in
  Z.lxor (Z.shiftr crc 8) (nth (Z.to_nat index) CRC32_TABLE 0).

Definition crc32_update (crc : Z) (data : list Z) : Z := foldl crc32_byte crc data.

Definition crc32 (data : list Z) : Z := Z.lxor (crc32_update CRC32_INIT data) CRC32_INIT.

(** [data.get_unchecked(a..b)] *)
Definition get_range (data : list Z) (a b : Z) : exec (list Z) :=
  if decide (0 <= a <= b ∧ b <= Z.of_nat (length data)) then
    Ret (take (Z.to_nat (b - a)) (drop (Z.to_nat a) data))
  else Panic.

Definition compute_checksum_v2 (data : list Z) : exec Z :=
  let len := Z.of_nat (length data) in
  if decide (len < FOOTER_V2_SIZE) then Ret 0 else
  let fb := len - FOOTER_V2_SIZE in
  let! r1 := get_range data 0 fb in
  let! r2 := get_range data (fb + 4) (fb + 20) in
  let! r3 := get_range data (fb + 24) len in
  let c := crc32_update CRC32_INIT r1 in
  let c := crc32_update c r2 in
  let c := crc32_update c r3 in
  Ret (Z.lxor c CRC32_INIT).

(** * Names *)

Definition FNV_OFFSET : Z := 0x811c9dc5.
Definition FNV_PRIME : Z := 0x01000193.

Definition name_hash (name : list Z) : Z :=
  foldl (λ h b, wrap 32 (Z.lxor h b * FNV_PRIME)) FNV_OFFSET name.

(** * Firmware state *)

Definition STATE_DEFAULT_RAW : Z := 0xFFFFFFFF.

Inductive ConcernSource := Watchdog | Kernel | Supervisor | Runtime.

Definition source_tag (s : ConcernSource) : Z :=
  match s with Watchdog => 1 | Kernel => 2 | Supervisor => 3 | Runtime => 4 end.

Definition from_tag (tag : Z) : option ConcernSource :=
  if decide (tag = 1) then Some Watchdog else
  if decide (tag = 2) then Some Kernel else
  if decide (tag = 3) then Some Supervisor else
  if decide (tag = 4) then Some Runtime else None.

Inductive FirmwareState :=
  | IntegrityCompromised
  | WatchdogConcern
  | KernelConcern
  | SupervisorConcern
  | RuntimeConcern
  | Default.

#[export] Instance FirmwareState_eq_dec : EqDecision FirmwareState.
Proof. solve_decision. Defined.

Definition is_bootable (s : FirmwareState) : bool := match s with Default => true | _ => false end.

Definition encode_concern (source : ConcernSource) : Z := Z.shiftl (source_tag source) 24.

Definition concern_source (s : FirmwareState) : option ConcernSource :=
  match s with
  | WatchdogConcern => Some Watchdog
  | KernelConcern => Some Kernel
  | SupervisorConcern => Some Supervisor
  | RuntimeConcern => Some Runtime
  | _ => None
  end.

Definition decode_stored (raw : Z) : FirmwareState :=
  if decide (raw = STATE_DEFAULT_RAW) then Default else
  let tag := wrap 8 (Z.shiftr raw 24) in
  match from_tag tag with
  | Some Watchdog => WatchdogConcern
  | Some Kernel => KernelConcern
  | Some Supervisor => SupervisorConcern
  | Some Runtime => RuntimeConcern
  | None => RuntimeConcern
  end.

(** * The reader *)

Record PlacesImage := mkImage {
  pi_data : list Z;
  format_version : Z;
  entry_point : Z;
  partition_count : Z;
  segment_count : Z;
  tables_offset : Z;
  checksum : Z;
  version : Z * Z * Z;
  flash_timestamp : Z;
  state_raw : Z;
}.

Record Partition := mkPartition {
  p_name_hash : Z;
  p_offset : Z;
  p_size : Z;
  p_flags : Z;
}.

Record Segment := mkSegment {
  seg_data : list Z;
  seg_dest : Z;
  seg_file_offset : Z;
  seg_file_size : Z;
  seg_mem_size : Z;
}.

Inductive ParseError := TooSmall | BadMagic | BadVersion | SegmentOutOfBounds | TablesOutOfBounds.

(** [read_u16], [read_u32], [read_u64]: an unchecked little-endian read. *)
Definition read_le (n : Z) (data : list Z) (offset : Z) : exec Z :=
  let! b := get_range data offset (offset + n) in Ret (le_val b).

Definition read_u16 := read_le 2.
Definition read_u32 := read_le 4.
Definition read_u64 := read_le 8.

Section reader.
(** The width of [usize]. *)
Context (usz : Z).

Definition uadd (a b : Z) : Z := wrap usz (a + b).
Definition umul (a b : Z) : Z := wrap usz (a * b).

(** The footer fields that depend on the version: the size of the footer, the
    checksum, the version, the time stamp and the state. *)
Definition read_version_fields (data : list Z) (format_version : Z)
  : exec (result (Z * Z * (Z * Z * Z) * Z * Z) ParseError) :=
  let len := Z.of_nat (length data) in
  if decide (format_version = VERSION_1) then
    Ret (Ok (FOOTER_V1_SIZE, 0, (0, 0, 0), 0, STATE_DEFAULT_RAW))
  else if decide (format_version = VERSION_2) then
    if decide (len < FOOTER_V2_SIZE) then Ret (Err TooSmall) else
    let fb := len - FOOTER_V2_SIZE in
    let! checksum := read_u32 data fb in
    let! major := read_u16 data (fb + 4) in
    let! minor := read_u16 data (fb + 6) in
    let! patch := read_u16 data (fb + 8) in
    let! flash_timestamp := read_u64 data (fb + 12) in
    let! state_raw := read_u32 data (fb + 20) in
    Ret (Ok (FOOTER_V2_SIZE, checksum, (major, minor, patch), flash_timestamp, state_raw))
  else Ret (Err BadVersion).

(** [for i in 0..segment_count]: the segments' data must be in the data region. *)
Fixpoint check_segments (rest : nat) (i : Z) (data : list Z) (part_table_end tables_offset : Z) : exec bool :=
  match rest with
  | O => Ret true
  | S rest =>
      let base := uadd part_table_end (umul i SEGMENT_SIZE) in
      let! file_offset := read_u32 data (uadd base 4) in
      let! file_size := read_u32 data (uadd base 8) in
      if decide (uadd file_offset file_size > tables_offset) then Ret false
      else check_segments rest (i + 1) data part_table_end tables_offset
  end.

Definition parse (data : list Z) : exec (result PlacesImage ParseError) :=
  let len := Z.of_nat (length data) in
  if decide (len < FOOTER_V1_SIZE) then Ret (Err TooSmall) else
  let! magic := read_u32 data (len - 4) in
  if decide (magic ≠ MAGIC) then Ret (Err BadMagic) else
  let! format_version := read_u32 data (len - 8) in
  let! fields := read_version_fields data format_version in
  match fields with
  | Err e => Ret (Err e)
  | Ok (footer_size, checksum, version, flash_timestamp, state_raw) =>
      let core_base := len - FOOTER_V1_SIZE in
      let! tables_offset := read_u32 data core_base in
      let! segment_count := read_u32 data (core_base + 4) in
      let! partition_count := read_u32 data (core_base + 8) in
      let! entry_point := read_u32 data (core_base + 12) in
      let part_table_end := uadd tables_offset (umul partition_count PARTITION_SIZE) in
      let seg_table_end := uadd part_table_end (umul segment_count SEGMENT_SIZE) in
      if decide (uadd seg_table_end footer_size > len) then Ret (Err TablesOutOfBounds) else
      let! fits := check_segments (Z.to_nat segment_count) 0 data part_table_end tables_offset in
      if negb fits then Ret (Err SegmentOutOfBounds) else
      Ret (Ok (mkImage data format_version entry_point partition_count segment_count tables_offset
                 checksum version flash_timestamp state_raw))
  end.

Definition checksum_valid (img : PlacesImage) : exec bool :=
  if decide (format_version img = VERSION_1) then Ret true else
  if decide (format_version img = VERSION_2) then
    let! c := compute_checksum_v2 (pi_data img) in Ret (bool_decide (c = checksum img))
  else Ret false.

Definition firmware_state (img : PlacesImage) : exec FirmwareState :=
  if decide (format_version img >= VERSION_2) then
    let! valid := checksum_valid img in
    if negb valid then Ret IntegrityCompromised else Ret (decode_stored (state_raw img))
  else Ret (decode_stored (state_raw img)).

Definition partition (img : PlacesImage) (i : Z) : exec Partition :=
  let base := uadd (tables_offset img) (umul i PARTITION_SIZE) in
  let! name_hash := read_u32 (pi_data img) base in
  let! offset := read_u32 (pi_data img) (uadd base 4) in
  let! size := read_u32 (pi_data img) (uadd base 8) in
  let! flags := read_u32 (pi_data img) (uadd base 12) in
  Ret (mkPartition name_hash offset size flags).

Fixpoint find_partition_from (rest : nat) (i : Z) (img : PlacesImage) (hash : Z) : exec (option Partition) :=
  match rest with
  | O => Ret None
  | S rest =>
      let! p := partition img i in
      if decide (p_name_hash p = hash) then Ret (Some p) else find_partition_from rest (i + 1) img hash
  end.

Definition find_partition (img : PlacesImage) (hash : Z) : exec (option Partition) :=
  find_partition_from (Z.to_nat (partition_count img)) 0 img hash.

Definition segment (img : PlacesImage) (i : Z) : exec Segment :=
  let seg_table_base := uadd (tables_offset img) (umul (partition_count img) PARTITION_SIZE) in
  let base := uadd seg_table_base (umul i SEGMENT_SIZE) in
  let! dest := read_u32 (pi_data img) base in
  let! file_offset := read_u32 (pi_data img) (uadd base 4) in
  let! file_size := read_u32 (pi_data img) (uadd base 8) in
  let! mem_size := read_u32 (pi_data img) (uadd base 12) in
  let start := file_offset in
  let end_ := uadd start file_size in
  let! data := get_range (pi_data img) start end_ in
  Ret (mkSegment data dest file_offset file_size mem_size).

(** [SegmentIter::next] and [PartitionIter::next]: the item and the new index. *)
Definition segment_next (img : PlacesImage) (index : Z) : exec (option Segment * Z) :=
  if decide (index >= segment_count img) then Ret (None, index) else
  let! seg := segment img index in
  Ret (Some seg, index + 1).

Definition partition_next (img : PlacesImage) (index : Z) : exec (option Partition * Z) :=
  if decide (index >= partition_count img) then Ret (None, index) else
  let! part := partition img index in
  Ret (Some part, index + 1).
End reader.

(** [saturating_sub] *)
Definition zero_fill (seg : Segment) : Z := Z.max 0 (seg_mem_size seg - seg_file_size seg).

Definition STATE_OFFSET_FROM_END : Z := 28.

(** * Choosing an image *)

Inductive Slot := A | B.

Inductive SelectionReason :=
  | OtherConcerned (s : FirmwareState)
  | HigherVersion
  | NewerFlash
  | Tiebreak.

Inductive SelectionError := BothConcerned (a b : FirmwareState).

Definition then_ (c d : comparison) : comparison := match c with Eq => d | _ => c end.

Definition cmp_version (a b : Z * Z * Z) : comparison :=
  let '(a0, a1, a2) := a in
  let '(b0, b1, b2) := b in
  then_ (then_ (a0 ?= b0) (a1 ?= b1)) (a2 ?= b2).

Definition select_firmware (a b : PlacesImage) : exec (result (Slot * SelectionReason) SelectionError) :=
  let! a_state := firmware_state a in
  let! b_state := firmware_state b in
  match is_bootable a_state, is_bootable b_state with
  | true, false => Ret (Ok (A, OtherConcerned b_state))
  | false, true => Ret (Ok (B, OtherConcerned a_state))
  | false, false => Ret (Err (BothConcerned a_state b_state))
  | true, true =>
      match cmp_version (version a) (version b) with
      | Gt => Ret (Ok (A, HigherVersion))
      | Lt => Ret (Ok (B, HigherVersion))
      | Eq =>
          match flash_timestamp a ?= flash_timestamp b with
          | Gt => Ret (Ok (A, NewerFlash))
          | Lt => Ret (Ok (B, NewerFlash))
          | Eq => Ret (Ok (A, Tiebreak))
          end
      end
  end.

(** * The builder *)

Record BuilderSegment := mkBSeg {
  bs_dest : Z;
  bs_file_offset : Z;
  bs_data : list Z;
  bs_mem_size : Z;
}.

Record PlacesBuilder := mkBuilder {
  b_entry_point : Z;
  b_version : Z * Z * Z;
  b_flash_timestamp : Z;
  b_partitions : list Partition;
  b_segments : list BuilderSegment;
}.

Definition builder_new (entry_point : Z) : PlacesBuilder := mkBuilder entry_point (0, 0, 0) 0 [] [].

Definition set_version (b : PlacesBuilder) (major minor patch : Z) : PlacesBuilder :=
  mkBuilder (b_entry_point b) (major, minor, patch) (b_flash_timestamp b) (b_partitions b) (b_segments b).

Definition set_flash_timestamp (b : PlacesBuilder) (secs : Z) : PlacesBuilder :=
  mkBuilder (b_entry_point b) (b_version b) secs (b_partitions b) (b_segments b).

Definition add_partition (b : PlacesBuilder) (name_hash offset size flags : Z) : PlacesBuilder :=
  mkBuilder (b_entry_point b) (b_version b) (b_flash_timestamp b)
    (b_partitions b ++ [mkPartition name_hash offset size flags]) (b_segments b).

Definition add_segment (b : PlacesBuilder) (dest file_offset : Z) (data : list Z) (mem_size : Z)
  : exec PlacesBuilder :=
  if decide (mem_size >= Z.of_nat (length data)) then
    Ret (mkBuilder (b_entry_point b) (b_version b) (b_flash_timestamp b) (b_partitions b)
           (b_segments b ++ [mkBSeg dest file_offset data mem_size]))
  else Panic.

(** [write_u16], [write_u32], [write_u64] *)
Definition write_le (n : nat) (out : list Z) (offset : Z) (v : Z) : exec (list Z) :=
  copy_at out (Z.to_nat offset) (le_bytes n v).

Definition write_u16 := write_le 2.
Definition write_u32 := write_le 4.
Definition write_u64 := write_le 8.

Fixpoint write_segments (out : list Z) (tables_offset : Z) (segs : list BuilderSegment) : exec (list Z) :=
  match segs with
  | [] => Ret out
  | seg :: segs =>
      let off := bs_file_offset seg in
      let end_ := off + Z.of_nat (length (bs_data seg)) in
      if decide (end_ <= tables_offset) then
        let! out := copy_at out (Z.to_nat off) (bs_data seg) in
        write_segments out tables_offset segs
      else Panic
  end.

Fixpoint write_partition_table (out : list Z) (base : Z) (parts : list Partition) : exec (list Z) :=
  match parts with
  | [] => Ret out
  | part :: parts =>
      let! out := write_u32 out base (p_name_hash part) in
      let! out := write_u32 out (base + 4) (p_offset part) in
      let! out := write_u32 out (base + 8) (p_size part) in
      let! out := write_u32 out (base + 12) (p_flags part) in
      write_partition_table out (base + PARTITION_SIZE) parts
  end.

Fixpoint write_segment_table (out : list Z) (base : Z) (segs : list BuilderSegment) : exec (list Z) :=
  match segs with
  | [] => Ret out
  | seg :: segs =>
      let! out := write_u32 out base (bs_dest seg) in
      let! out := write_u32 out (base + 4) (bs_file_offset seg) in
      let! out := write_u32 out (base + 8) (wrap 32 (Z.of_nat (length (bs_data seg)))) in
      let! out := write_u32 out (base + 12) (bs_mem_size seg) in
      write_segment_table out (base + SEGMENT_SIZE) segs
  end.

(** [.map(|s| s.file_offset as usize + s.data.len()).max().unwrap_or(0)] *)
Definition data_end (segs : list BuilderSegment) : Z :=
  foldr Z.max 0 ((λ s, bs_file_offset s + Z.of_nat (length (bs_data s))) <$> segs).

(** [(data_end + 3) & !3] *)
Definition align4 (n : Z) : Z := Z.land (n + 3) (Z.lnot 3).

Definition build (b : PlacesBuilder) : exec (list Z) :=
  let partition_count := Z.of_nat (length (b_partitions b)) in
  let segment_count := Z.of_nat (length (b_segments b)) in
  let tables_offset := align4 (data_end (b_segments b)) in
  let part_table_size := partition_count * PARTITION_SIZE in
  let seg_table_size := segment_count * SEGMENT_SIZE in
  let total := tables_offset + part_table_size + seg_table_size + FOOTER_V2_SIZE in
  let out := replicate (Z.to_nat total) 0xFF in
  let! out := write_segments out tables_offset (b_segments b) in
  let! out := write_partition_table out tables_offset (b_partitions b) in
  let! out := write_segment_table out (tables_offset + part_table_size) (b_segments b) in
  let fb := total - FOOTER_V2_SIZE in
  let '(major, minor, patch) := b_version b in
  let! out := write_u32 out fb 0 in
  let! out := write_u16 out (fb + 4) major in
  let! out := write_u16 out (fb + 6) minor in
  let! out := write_u16 out (fb + 8) patch in
  let! out := write_u16 out (fb + 10) 0xFFFF in
  let! out := write_u64 out (fb + 12) (b_flash_timestamp b) in
  let! out := write_u32 out (fb + 20) STATE_DEFAULT_RAW in
  let! out := write_u32 out (fb + 24) (wrap 32 tables_offset) in
  let! out := write_u32 out (fb + 28) (wrap 32 segment_count) in
  let! out := write_u32 out (fb + 32) (wrap 32 partition_count) in
  let! out := write_u32 out (fb + 36) (b_entry_point b) in
  let! out := write_u32 out (fb + 40) VERSION_2 in
  let! out := write_u32 out (fb + 44) MAGIC in
  let! checksum := compute_checksum_v2 out in
  write_u32 out fb checksum.
