(* ===== verification/PlacesBuild.v ===== *)
(** What the builder of firmware images writes, and that the parser reads it
    back: the layout of a built image as a concatenation, its checksum, and the
    fields, partitions and segments a reader finds in it. *)

From S2P Require Import Prelude Places.

Open Scope Z_scope.

(** * Reading a concatenation *)

Lemma get_range_app l1 l2 l3 a b :
  a = Z.of_nat (length l1) → b = a + Z.of_nat (length l2) → get_range (l1 ++ l2 ++ l3) a b = Ret l2.
Proof.
  intros -> ->. unfold get_range. rewrite decide_True by (rewrite !length_app; lia). f_equal.
  replace (Z.to_nat _) with (length l2) by lia. rewrite Nat2Z.id, drop_app_length. by rewrite take_app_length.
Qed.

Lemma get_range_ok data a b :
  0 <= a <= b → b <= Z.of_nat (length data) →
  get_range data a b = Ret (take (Z.to_nat (b - a)) (drop (Z.to_nat a) data)).
Proof. intros. unfold get_range. by rewrite decide_True. Qed.

Lemma get_range_inv data a b r :
  get_range data a b = Ret r → 0 <= a <= b ∧ b <= Z.of_nat (length data) ∧ r = take (Z.to_nat (b - a)) (drop (Z.to_nat a) data).
Proof. unfold get_range. case_decide; [|done]. intros [= <-]. split_and!; try done; lia. Qed.

Lemma read_le_app n l1 v l3 a :
  a = Z.of_nat (length l1) → is_u (8 * Z.of_nat n) v →
  read_le (Z.of_nat n) (l1 ++ le_bytes n v ++ l3) a = Ret v.
Proof.
  intros -> Hv. unfold read_le. erewrite get_range_app; [|done|by rewrite length_le_bytes].
  cbn. by rewrite le_roundtrip.
Qed.

Lemma read_le_ok n data a :
  0 <= n → 0 <= a → a + n <= Z.of_nat (length data) → bytes_ok data →
  ∃ v, read_le n data a = Ret v ∧ 0 <= v < 256 ^ n.
Proof.
  intros Hn Ha Hl Hd. unfold read_le. rewrite get_range_ok by lia. eexists. split; [done|].
  set (l := take _ _). assert (bytes_ok l) as Hb by (subst l; eauto with words).
  pose proof (le_val_bound l Hb) as E. replace n with (Z.of_nat (length l)); [done|].
  subst l. rewrite length_take, length_drop. lia.
Qed.

(** * Writing *)

Lemma write_le_app n w rest off v :
  off = Z.of_nat (length w) → (n ≤ length rest)%nat →
  write_le n (w ++ rest) off v = Ret ((w ++ le_bytes n v) ++ drop n rest).
Proof.
  intros -> Hn. unfold write_le. rewrite copy_at_app by (len; lia). by rewrite length_le_bytes.
Qed.

Lemma write_le_mid n w old rest off v :
  off = Z.of_nat (length w) → length old = n →
  write_le n (w ++ old ++ rest) off v = Ret (w ++ le_bytes n v ++ rest).
Proof.
  intros Ho <-. rewrite write_le_app by len. rewrite drop_app_length. by rewrite <- app_assoc.
Qed.

(** The data region: the segments written over an erased region. *)
Definition put_segment (D : list Z) (s : BuilderSegment) : list Z :=
  splice D (Z.to_nat (bs_file_offset s)) (bs_data s).

Definition data_region (segs : list BuilderSegment) (n : Z) : list Z :=
  foldl put_segment (replicate (Z.to_nat n) 0xFF) segs.

Definition part_row (p : Partition) : list Z :=
  le_bytes 4 (p_name_hash p) ++ le_bytes 4 (p_offset p) ++ le_bytes 4 (p_size p) ++ le_bytes 4 (p_flags p).

Definition seg_row (s : BuilderSegment) : list Z :=
  le_bytes 4 (bs_dest s) ++ le_bytes 4 (bs_file_offset s) ++
  le_bytes 4 (wrap 32 (Z.of_nat (length (bs_data s)))) ++ le_bytes 4 (bs_mem_size s).

Definition seg_fits (n : Z) (s : BuilderSegment) : Prop :=
  0 <= bs_file_offset s ∧ bs_file_offset s + Z.of_nat (length (bs_data s)) <= n.

Lemma put_segment_length D s :
  seg_fits (Z.of_nat (length D)) s → length (put_segment D s) = length D.
Proof. intros [? ?]. apply length_splice. lia. Qed.

Lemma foldl_put_length segs D :
  Forall (seg_fits (Z.of_nat (length D))) segs → length (foldl put_segment D segs) = length D.
Proof.
  intros H. remember (length D) as n eqn:E. revert D E. induction H as [|s segs Hs _ IH]; intros D E; cbn [foldl]; [done|].
  apply IH. by rewrite put_segment_length by (rewrite <- E; done).
Qed.

Lemma splice_app_l D rest off (src : list Z) :
  (off + length src ≤ length D)%nat → splice (D ++ rest) off src = splice D off src ++ rest.
Proof.
  intros H. unfold splice. rewrite take_app_le by lia. rewrite drop_app_le by lia. by rewrite <- !app_assoc.
Qed.

Lemma write_segments_ok segs D rest :
  Forall (seg_fits (Z.of_nat (length D))) segs →
  write_segments (D ++ rest) (Z.of_nat (length D)) segs = Ret (foldl put_segment D segs ++ rest).
Proof.
  intros H. remember (length D) as n eqn:E. revert D E. induction H as [|s segs [Ho Hs] _ IH]; intros D E; cbn [write_segments foldl]; [done|].
  rewrite decide_True by done. rewrite copy_at_ok by len. cbn [ebind].
  rewrite splice_app_l by lia. apply IH. rewrite <- (put_segment_length D s) in E; [done|]. by rewrite <- E.
Qed.

Ltac row_step := rewrite write_le_app by len; cbn [ebind].

Lemma write_row a b c d w rest base k :
  base = Z.of_nat (length w) → (16 ≤ length rest)%nat →
  (let! out := write_u32 (w ++ rest) base a in
   let! out := write_u32 out (base + 4) b in
   let! out := write_u32 out (base + 8) c in
   let! out := write_u32 out (base + 12) d in k out) =
  k ((w ++ le_bytes 4 a ++ le_bytes 4 b ++ le_bytes 4 c ++ le_bytes 4 d) ++ drop 16 rest) :> exec (list Z).
Proof.
  intros -> Hr. unfold write_u32. do 4 row_step. rewrite !drop_drop. f_equal. by rewrite <- !app_assoc.
Qed.

Lemma write_partition_table_ok parts w rest base :
  base = Z.of_nat (length w) → (16 * length parts ≤ length rest)%nat →
  write_partition_table (w ++ rest) base parts =
  Ret ((w ++ concat (part_row <$> parts)) ++ drop (16 * length parts) rest).
Proof.
  revert w rest base. induction parts as [|p parts IH]; intros w rest base E Hl; cbn [write_partition_table fmap list_fmap concat].
  { by rewrite app_nil_r. }
  cbn [length] in *. rewrite write_row by (done || lia). rewrite IH; [|unfold part_row, PARTITION_SIZE; len|len].
  rewrite drop_drop. f_equal. change (le_bytes 4 (p_name_hash p) ++ _) with (part_row p).
  rewrite <- !app_assoc. do 4 f_equal. lia.
Qed.

Lemma write_segment_table_ok segs w rest base :
  base = Z.of_nat (length w) → (16 * length segs ≤ length rest)%nat →
  write_segment_table (w ++ rest) base segs =
  Ret ((w ++ concat (seg_row <$> segs)) ++ drop (16 * length segs) rest).
Proof.
  revert w rest base. induction segs as [|s segs IH]; intros w rest base E Hl; cbn [write_segment_table fmap list_fmap concat].
  { by rewrite app_nil_r. }
  cbn [length] in *. rewrite write_row by (done || lia). rewrite IH; [|unfold seg_row, SEGMENT_SIZE; len|len].
  rewrite drop_drop. f_equal. change (le_bytes 4 (bs_dest s) ++ _) with (seg_row s).
  rewrite <- !app_assoc. do 4 f_equal. lia.
Qed.

(** * The built image *)

Lemma align4_spec n : align4 n = (n + 3) / 4 * 4.
Proof.
  unfold align4. rewrite <- Z.ldiff_land. change (Z.ldiff (n + 3) (Z.ones 2) = (n + 3) / 4 * 4).
  rewrite Z.ldiff_ones_r by lia. by rewrite Z.shiftl_mul_pow2, Z.shiftr_div_pow2 by lia.
Qed.

Lemma align4_bounds n : n <= align4 n < n + 4.
Proof. rewrite align4_spec. dlia. Qed.

Lemma data_end_fits segs :
  Forall (λ s, 0 <= bs_file_offset s) segs → 0 <= data_end segs ∧ Forall (seg_fits (data_end segs)) segs.
Proof.
  unfold data_end. induction 1 as [|s segs Hs _ [IH1 IH2]]; cbn [fmap list_fmap foldr]; [split; [lia|constructor]|].
  split; [lia|]. constructor; [split; lia|]. eapply Forall_impl; [|exact IH2]. intros s' [? ?]. split; lia.
Qed.

Definition tables_at (b : PlacesBuilder) : Z := align4 (data_end (b_segments b)).

Definition part_table (b : PlacesBuilder) : list Z := concat (part_row <$> b_partitions b).
Definition seg_table (b : PlacesBuilder) : list Z := concat (seg_row <$> b_segments b).

Definition footer_mid (b : PlacesBuilder) : list Z :=
  let '(major, minor, patch) := b_version b in
  le_bytes 2 major ++ le_bytes 2 minor ++ le_bytes 2 patch ++ le_bytes 2 0xFFFF ++ le_bytes 8 (b_flash_timestamp b).

Definition footer_core (b : PlacesBuilder) : list Z :=
  le_bytes 4 (wrap 32 (tables_at b)) ++ le_bytes 4 (wrap 32 (Z.of_nat (length (b_segments b)))) ++
  le_bytes 4 (wrap 32 (Z.of_nat (length (b_partitions b)))) ++ le_bytes 4 (b_entry_point b) ++
  le_bytes 4 VERSION_2 ++ le_bytes 4 MAGIC.

(** Everything before the footer. *)
Definition image_body (b : PlacesBuilder) : list Z :=
  data_region (b_segments b) (tables_at b) ++ part_table b ++ seg_table b.

Definition image_bytes (b : PlacesBuilder) (ck state : Z) : list Z :=
  image_body b ++ le_bytes 4 ck ++ footer_mid b ++ le_bytes 4 state ++ footer_core b.

(** The checksum does not cover itself nor the state. *)
Definition image_checksum (b : PlacesBuilder) : Z := crc32 (image_body b ++ footer_mid b ++ footer_core b).

Lemma length_rows {X} (f : X → list Z) l : (∀ x, length (f x) = 16%nat) → length (concat (f <$> l)) = (16 * length l)%nat.
Proof. intros Hf. induction l as [|x l IH]; [done|]. cbn [fmap list_fmap concat length]. rewrite length_app, Hf, IH. lia. Qed.

Lemma length_part_table b : length (part_table b) = (16 * length (b_partitions b))%nat.
Proof. apply length_rows. intros x. unfold part_row. len. Qed.

Lemma length_seg_table b : length (seg_table b) = (16 * length (b_segments b))%nat.
Proof. apply length_rows. intros x. unfold seg_row. len. Qed.

Lemma length_footer_mid b : length (footer_mid b) = 16%nat.
Proof. unfold footer_mid. destruct (b_version b) as [[? ?] ?]. len. Qed.

Lemma length_footer_core b : length (footer_core b) = 24%nat.
Proof. unfold footer_core. len. Qed.

#[export] Hint Rewrite length_part_table length_seg_table length_footer_mid length_footer_core : len.

Definition offsets_ok (b : PlacesBuilder) : Prop := Forall (λ s, 0 <= bs_file_offset s) (b_segments b).

Lemma tables_at_ok b :
  offsets_ok b → 0 <= tables_at b ∧ Forall (seg_fits (tables_at b)) (b_segments b).
Proof.
  intros H. unfold tables_at. pose proof (align4_bounds (data_end (b_segments b))).
  destruct (data_end_fits _ H) as [Hd0 Hf]. split; [lia|].
  eapply Forall_impl; [|exact Hf]. intros s [? ?]. split; lia.
Qed.

Lemma length_data_region b :
  offsets_ok b → length (data_region (b_segments b) (tables_at b)) = Z.to_nat (tables_at b).
Proof.
  intros H. destruct (tables_at_ok b H) as [H0 Hf]. unfold data_region. rewrite foldl_put_length, length_replicate; [done|].
  rewrite length_replicate. by rewrite Z2Nat.id.
Qed.

Lemma length_image_body b :
  offsets_ok b → length (image_body b) =
    (Z.to_nat (tables_at b) + 16 * length (b_partitions b) + 16 * length (b_segments b))%nat.
Proof. intros H. unfold image_body. rewrite !length_app, length_data_region by done. len. Qed.

(** [compute_checksum_v2] of an image cut at its footer fields. *)
Lemma checksum_v2_ok body ck mid st core :
  length ck = 4%nat → length mid = 16%nat → length st = 4%nat → length core = 24%nat →
  compute_checksum_v2 (body ++ ck ++ mid ++ st ++ core) = Ret (crc32 (body ++ mid ++ core)).
Proof.
  intros H1 H2 H3 H4. unfold compute_checksum_v2, FOOTER_V2_SIZE.
  set (data := body ++ ck ++ mid ++ st ++ core).
  assert (Z.of_nat (length data) = Z.of_nat (length body) + 48) as -> by (unfold data; rewrite !length_app; lia).
  rewrite decide_False by lia. replace (_ + 48 - 48) with (Z.of_nat (length body)) by lia.
  rewrite (get_range_app [] body (ck ++ mid ++ st ++ core) 0) by (cbn; lia). cbn [ebind].
  replace data with ((body ++ ck) ++ mid ++ (st ++ core)) by (unfold data; by rewrite <- !app_assoc).
  rewrite get_range_app by (rewrite ?length_app; lia). cbn [ebind].
  replace ((body ++ ck) ++ mid ++ st ++ core) with ((body ++ ck ++ mid ++ st) ++ core ++ []) by (rewrite app_nil_r; by rewrite <- !app_assoc).
  rewrite get_range_app by (rewrite ?length_app; lia). cbn [ebind].
  unfold crc32, crc32_update. by rewrite !foldl_app.
Qed.

Lemma build_ok b :
  offsets_ok b → build b = Ret (image_bytes b (image_checksum b) STATE_DEFAULT_RAW).
Proof.
  intros Hoff. destruct (tables_at_ok b Hoff) as [Hto Hf]. pose proof (length_data_region b Hoff) as Hd.
  unfold build. fold (tables_at b). set (total := tables_at b + _ + _ + FOOTER_V2_SIZE).
  set (R := replicate (16 * length (b_partitions b) + 16 * length (b_segments b) + 48)%nat 0xFF).
  replace (replicate (Z.to_nat total) 0xFF) with (replicate (Z.to_nat (tables_at b)) 0xFF ++ R).
  2:{ unfold R. rewrite <- replicate_add. f_equal. unfold total, PARTITION_SIZE, SEGMENT_SIZE, FOOTER_V2_SIZE. lia. }
  pose proof (write_segments_ok (b_segments b) (replicate (Z.to_nat (tables_at b)) 0xFF) R) as W.
  rewrite length_replicate, Z2Nat.id in W by done. rewrite W by done. cbn [ebind].
  fold (data_region (b_segments b) (tables_at b)).
  rewrite write_partition_table_ok by (unfold R; len). cbn [ebind]. fold (part_table b).
  rewrite write_segment_table_ok by (unfold R, PARTITION_SIZE; len). cbn [ebind]. fold (seg_table b).
  rewrite drop_drop. set (R' := drop _ R).
  assert (length R' = 48%nat) as HR by (unfold R', R; len).
  rewrite <- (app_assoc (data_region _ _)). fold (image_body b).
  assert (total - FOOTER_V2_SIZE = Z.of_nat (length (image_body b))) as ->.
  { rewrite length_image_body by done. unfold total, PARTITION_SIZE, SEGMENT_SIZE, FOOTER_V2_SIZE. lia. }
  pose proof (length_footer_mid b) as Hmid. unfold footer_mid in Hmid.
  destruct (b_version b) as [[major minor] patch] eqn:Ev.
  unfold write_u16, write_u32, write_u64. do 13 row_step. rewrite !drop_drop.
  rewrite drop_ge by len. rewrite app_nil_r.
  rewrite <- !app_assoc.
  match goal with |- context [compute_checksum_v2 (?x ++ ?ck ++ ?a ++ ?b1 ++ ?c ++ ?d ++ ?e ++ ?st ++ ?core)] =>
    replace (x ++ ck ++ a ++ b1 ++ c ++ d ++ e ++ st ++ core) with (x ++ ck ++ footer_mid b ++ st ++ core)
      by (unfold footer_mid; rewrite Ev; by rewrite <- !app_assoc) end.
  fold (footer_core b). rewrite checksum_v2_ok by len. cbn [ebind].
  by rewrite write_le_mid by len.
Qed.

(** * Parsing *)

Lemma uadd_small usz a b : 32 <= usz → 0 <= a + b < 2 ^ 32 → uadd usz a b = a + b.
Proof. intros Hu H. unfold uadd. apply wrap_small. split; [lia|]. pose proof (Z.pow_le_mono_r 2 32 usz). lia. Qed.

Lemma umul_small usz a b : 32 <= usz → 0 <= a * b < 2 ^ 32 → umul usz a b = a * b.
Proof. intros Hu H. unfold umul. apply wrap_small. split; [lia|]. pose proof (Z.pow_le_mono_r 2 32 usz). lia. Qed.

Lemma get_range_skip l data a b :
  Z.of_nat (length l) <= a → a <= b →
  get_range (l ++ data) a b = get_range data (a - Z.of_nat (length l)) (b - Z.of_nat (length l)).
Proof.
  intros Ha Hb. unfold get_range. rewrite length_app.
  case_decide; [rewrite decide_True by lia|by rewrite decide_False by lia].
  rewrite drop_app_ge by lia. do 2 f_equal; [lia|]. f_equal. lia.
Qed.

Lemma read_le_skip n l data a :
  0 <= n → Z.of_nat (length l) <= a → read_le n (l ++ data) a = read_le n data (a - Z.of_nat (length l)).
Proof.
  intros Hn Ha. unfold read_le. rewrite get_range_skip by lia. do 2 f_equal. lia.
Qed.

Lemma read_le_here n k v l3 a :
  a = 0 → n = Z.of_nat k → is_u (8 * n) v → read_le n (le_bytes k v ++ l3) a = Ret v.
Proof. intros -> -> Hv. by apply (read_le_app k [] v l3). Qed.

Lemma read_le_last n k v a :
  a = 0 → n = Z.of_nat k → is_u (8 * n) v → read_le n (le_bytes k v) a = Ret v.
Proof. intros. rewrite <- (app_nil_r (le_bytes k v)). by apply read_le_here. Qed.

(** Reads a field of a concatenation of little-endian fields. *)
Ltac read_field :=
  unfold read_u16, read_u32, read_u64;
  repeat (rewrite read_le_skip by (len; lia));
  first [rewrite read_le_here by (first [done | len; lia | assumption | const_u])
        |rewrite read_le_last by (first [done | len; lia | assumption | const_u])]; cbn [ebind].

Definition core_fields (to sc pc ep fv : Z) : list Z :=
  le_bytes 4 to ++ le_bytes 4 sc ++ le_bytes 4 pc ++ le_bytes 4 ep ++ le_bytes 4 fv ++ le_bytes 4 MAGIC.

Definition mid_fields (v : Z * Z * Z) (resv ts : Z) : list Z :=
  let '(major, minor, patch) := v in
  le_bytes 2 major ++ le_bytes 2 minor ++ le_bytes 2 patch ++ le_bytes 2 resv ++ le_bytes 8 ts.

Definition version_ok (v : Z * Z * Z) : Prop :=
  let '(major, minor, patch) := v in is_u 16 major ∧ is_u 16 minor ∧ is_u 16 patch.

(** The parser on a version 2 image cut at its footer: what is left are the checks. *)
Lemma parse_v2 usz body ck v resv ts st to sc pc ep :
  is_u 32 ck → version_ok v → is_u 64 ts → is_u 32 st →
  is_u 32 to → is_u 32 sc → is_u 32 pc → is_u 32 ep →
  let data := body ++ le_bytes 4 ck ++ mid_fields v resv ts ++ le_bytes 4 st ++ core_fields to sc pc ep VERSION_2 in
  let part_table_end := uadd usz to (umul usz pc PARTITION_SIZE) in
  let seg_table_end := uadd usz part_table_end (umul usz sc SEGMENT_SIZE) in
  parse usz data =
    if decide (uadd usz seg_table_end FOOTER_V2_SIZE > Z.of_nat (length data)) then Ret (Err TablesOutOfBounds) else
    let! fits := check_segments usz (Z.to_nat sc) 0 data part_table_end to in
    if negb fits then Ret (Err SegmentOutOfBounds) else Ret (Ok (mkImage data VERSION_2 ep pc sc to ck v ts st)).
Proof.
  intros Hck Hv Hts Hst Hto Hsc Hpc Hep data. destruct v as [[major minor] patch]. destruct Hv as (Hma & Hmi & Hpa).
  assert (Z.of_nat (length data) = Z.of_nat (length body) + 48) as Hlen by (unfold data, mid_fields, core_fields; len).
  set (L := Z.of_nat (length body)) in *.
  assert (∀ k off x, nth_error [(0, ck); (20, st); (24, to); (28, sc); (32, pc); (36, ep); (40, VERSION_2); (44, MAGIC)] k = Some (off, x) →
    read_u32 data (L + off) = Ret x) as R4.
  { intros k off x Hx. do 8 (destruct k as [|k]; [injection Hx as <- <-; subst L; unfold data, mid_fields, core_fields;
      rewrite <- ?app_assoc; by read_field|]). by destruct k. }
  assert (∀ k off x, nth_error [(4, major); (6, minor); (8, patch)] k = Some (off, x) → read_u16 data (L + off) = Ret x) as R2.
  { intros k off x Hx. do 3 (destruct k as [|k]; [injection Hx as <- <-; subst L; unfold data, mid_fields, core_fields;
      rewrite <- ?app_assoc; by read_field|]). by destruct k. }
  assert (read_u64 data (L + 12) = Ret ts) as R8.
  { subst L. unfold data, mid_fields, core_fields. rewrite <- ?app_assoc. by read_field. }
  cbv zeta. unfold parse, read_version_fields. rewrite Hlen. unfold FOOTER_V1_SIZE, FOOTER_V2_SIZE. rewrite decide_False by lia.
  replace (L + 48 - 4) with (L + 44) by lia. rewrite (R4 7%nat 44 MAGIC) by done. cbn [ebind].
  rewrite decide_False by (intros H; by apply H).
  replace (L + 48 - 8) with (L + 40) by lia. rewrite (R4 6%nat 40 VERSION_2) by done. cbn [ebind].
  rewrite (decide_False (P := VERSION_2 = VERSION_1)) by done. rewrite (decide_True (P := VERSION_2 = VERSION_2)) by done.
  rewrite decide_False by lia. replace (L + 48 - 48) with (L + 0) by lia. rewrite (R4 0%nat 0 ck) by done. cbn [ebind].
  rewrite Z.add_0_r. rewrite (R2 0%nat 4 major), (R2 1%nat 6 minor), (R2 2%nat 8 patch) by done. cbn [ebind].
  rewrite R8, (R4 1%nat 20 st) by done. cbn [ebind].
  replace (L + 48 - 24) with (L + 24) by lia. rewrite (R4 2%nat 24 to) by done. cbn [ebind].
  replace (L + 24 + 4) with (L + 28) by lia. replace (L + 24 + 8) with (L + 32) by lia.
  replace (L + 24 + 12) with (L + 36) by lia.
  rewrite (R4 3%nat 28 sc), (R4 4%nat 32 pc), (R4 5%nat 36 ep) by done. cbn [ebind]. reflexivity.
Qed.

(** * Built images parse *)

Definition part_ok (p : Partition) : Prop :=
  is_u 32 (p_name_hash p) ∧ is_u 32 (p_offset p) ∧ is_u 32 (p_size p) ∧ is_u 32 (p_flags p).

Definition bseg_ok (s : BuilderSegment) : Prop :=
  is_u 32 (bs_dest s) ∧ is_u 32 (bs_file_offset s) ∧ is_u 32 (bs_mem_size s) ∧ bytes_ok (bs_data s) ∧
  Z.of_nat (length (bs_data s)) <= bs_mem_size s.

(** The size of the image. *)
Definition total_size (b : PlacesBuilder) : Z :=
  tables_at b + Z.of_nat (length (b_partitions b)) * PARTITION_SIZE +
  Z.of_nat (length (b_segments b)) * SEGMENT_SIZE + FOOTER_V2_SIZE.

(** The fields have the widths of their types, and the image is below 4 GiB. *)
Definition builder_ok (b : PlacesBuilder) : Prop :=
  is_u 32 (b_entry_point b) ∧ version_ok (b_version b) ∧ is_u 64 (b_flash_timestamp b) ∧
  Forall part_ok (b_partitions b) ∧ Forall bseg_ok (b_segments b) ∧ total_size b < 2 ^ 32.

Lemma builder_offsets b : builder_ok b → offsets_ok b.
Proof.
  intros (_ & _ & _ & _ & H & _). unfold offsets_ok. eapply Forall_impl; [|exact H]. intros s (_ & [? _] & _). done.
Qed.

(** The four fields of a row of a table. *)
Lemma read_row a b c d w post :
  is_u 32 a → is_u 32 b → is_u 32 c → is_u 32 d →
  let data := w ++ (le_bytes 4 a ++ le_bytes 4 b ++ le_bytes 4 c ++ le_bytes 4 d) ++ post in
  let base := Z.of_nat (length w) in
  read_u32 data base = Ret a ∧ read_u32 data (base + 4) = Ret b ∧
  read_u32 data (base + 8) = Ret c ∧ read_u32 data (base + 12) = Ret d.
Proof. intros Ha Hb Hc Hd. cbv zeta. rewrite <- !app_assoc. split_and!; by read_field. Qed.

Lemma read_seg_row s w post :
  bseg_ok s →
  let data := w ++ seg_row s ++ post in
  let base := Z.of_nat (length w) in
  read_u32 data base = Ret (bs_dest s) ∧ read_u32 data (base + 4) = Ret (bs_file_offset s) ∧
  read_u32 data (base + 8) = Ret (Z.of_nat (length (bs_data s))) ∧ read_u32 data (base + 12) = Ret (bs_mem_size s).
Proof.
  intros (Hd & Ho & Hm & Hb & Hl). unfold seg_row.
  assert (is_u 32 (Z.of_nat (length (bs_data s)))) by (unfold is_u in *; lia).
  rewrite (wrap_small 32 (Z.of_nat (length (bs_data s)))) by done. by apply read_row.
Qed.

Lemma check_segments_ok usz segs w post i pte to :
  32 <= usz → Forall bseg_ok segs → Forall (seg_fits to) segs → 0 <= i → 0 <= pte → pte + 16 * i = Z.of_nat (length w) →
  Z.of_nat (length w) + 16 * Z.of_nat (length segs) < 2 ^ 32 → to < 2 ^ 32 →
  check_segments usz (length segs) i (w ++ concat (seg_row <$> segs) ++ post) pte to = Ret true.
Proof.
  intros Hu Hok Hfit Hi Hp Hpte. revert w i Hi Hpte Hok Hfit.
  induction segs as [|s segs IH]; intros w i Hi Hpte Hok Hfit Hlen Hto; cbn [length check_segments]; [done|].
  apply Forall_cons_1 in Hok as [Hs Hok]. apply Forall_cons_1 in Hfit as [[Hf1 Hf2] Hfit].
  cbn [length] in Hlen. unfold SEGMENT_SIZE.
  rewrite (umul_small usz i 16), (uadd_small usz pte), (Z.mul_comm i 16), Hpte, !uadd_small by lia.
  cbn [fmap list_fmap concat]. rewrite <- (app_assoc (seg_row s)).
  destruct (read_seg_row s w (concat (seg_row <$> segs) ++ post) Hs) as (_ & -> & -> & _). cbn [ebind].
  rewrite uadd_small by lia. rewrite decide_False by lia.
  rewrite app_assoc. apply IH; try done; try lia; rewrite length_app; unfold seg_row; len.
Qed.

Definition built_image (b : PlacesBuilder) (ck st : Z) : PlacesImage :=
  mkImage (image_bytes b ck st) VERSION_2 (b_entry_point b) (Z.of_nat (length (b_partitions b)))
    (Z.of_nat (length (b_segments b))) (tables_at b) ck (b_version b) (b_flash_timestamp b) st.

Lemma length_image_bytes b ck st : offsets_ok b → Z.of_nat (length (image_bytes b ck st)) = total_size b.
Proof.
  intros H. destruct (tables_at_ok b H). unfold image_bytes, total_size, PARTITION_SIZE, SEGMENT_SIZE, FOOTER_V2_SIZE.
  rewrite !length_app, length_image_body by done. len.
Qed.

Lemma parse_built usz b ck st :
  32 <= usz → builder_ok b → is_u 32 ck → is_u 32 st → parse usz (image_bytes b ck st) = Ret (Ok (built_image b ck st)).
Proof.
  intros Hu Hb Hck Hst. pose proof (builder_offsets b Hb) as Hoff. destruct (tables_at_ok b Hoff) as [Hto Hfit].
  pose proof (length_image_bytes b ck st Hoff) as Hlen. destruct Hb as (Hep & Hv & Hts & Hparts & Hsegs & Htot).
  pose proof Htot as Htot'. unfold total_size, PARTITION_SIZE, SEGMENT_SIZE, FOOTER_V2_SIZE in Htot'.
  assert (image_bytes b ck st = image_body b ++ le_bytes 4 ck ++ mid_fields (b_version b) 0xFFFF (b_flash_timestamp b) ++
    le_bytes 4 st ++ core_fields (tables_at b) (Z.of_nat (length (b_segments b))) (Z.of_nat (length (b_partitions b)))
      (b_entry_point b) VERSION_2) as E.
  { unfold image_bytes, footer_core, core_fields. rewrite !wrap_small by (unfold is_u; lia). done. }
  rewrite E, parse_v2 by (first [done | unfold is_u; lia]). rewrite <- E. cbv zeta.
  rewrite Hlen. unfold PARTITION_SIZE, SEGMENT_SIZE, FOOTER_V2_SIZE.
  rewrite !umul_small by lia. rewrite (uadd_small usz (tables_at b)) by lia. rewrite (uadd_small usz (_ + _)) by lia.
  rewrite uadd_small by lia. rewrite decide_False by (unfold total_size, PARTITION_SIZE, SEGMENT_SIZE, FOOTER_V2_SIZE; lia).
  rewrite Nat2Z.id.
  assert (image_bytes b ck st = (data_region (b_segments b) (tables_at b) ++ part_table b) ++
    concat (seg_row <$> b_segments b) ++ (le_bytes 4 ck ++ footer_mid b ++ le_bytes 4 st ++ footer_core b)) as E2.
  { unfold image_bytes, image_body. by rewrite <- !app_assoc. }
  rewrite E2 at 1. rewrite check_segments_ok; [cbn [ebind negb]; done|done..|lia|lia| | |lia].
  all: rewrite length_app, length_data_region, length_part_table by done; lia.
Qed.

(** * The views of a built image *)

Lemma lookup_splice {X} (l src : list X) off i :
  (off + length src ≤ length l)%nat →
  splice l off src !! i = if decide (off ≤ i < off + length src)%nat then src !! (i - off)%nat else l !! i.
Proof.
  intros H. unfold splice. case_decide as Hi.
  - rewrite lookup_app_r by (rewrite length_take; lia). rewrite length_take, Nat.min_l by lia.
    by rewrite lookup_app_l by lia.
  - destruct (decide (i < off)%nat) as [Hl|Hl].
    + rewrite lookup_app_l by (rewrite length_take; lia). by rewrite lookup_take_lt by lia.
    + rewrite lookup_app_r by (rewrite length_take; lia). rewrite length_take, Nat.min_l by lia.
      rewrite lookup_app_r by lia. rewrite lookup_drop. f_equal. lia.
Qed.

Definition file_end (s : BuilderSegment) : Z := bs_file_offset s + Z.of_nat (length (bs_data s)).

Definition file_disjoint (s t : BuilderSegment) : Prop :=
  file_end s <= bs_file_offset t ∨ file_end t <= bs_file_offset s.

(** Segments occupy different bytes of the file. *)
Definition segs_disjoint (segs : list BuilderSegment) : Prop :=
  ∀ i j s t, segs !! i = Some s → segs !! j = Some t → i ≠ j → file_disjoint s t.

Definition region_of (D : list Z) (s : BuilderSegment) : list Z :=
  take (length (bs_data s)) (drop (Z.to_nat (bs_file_offset s)) D).

Lemma region_of_same D s : seg_fits (Z.of_nat (length D)) s → region_of (put_segment D s) s = bs_data s.
Proof.
  intros [Ho Hf]. apply list_eq. intros i. unfold region_of, put_segment.
  destruct (decide (i < length (bs_data s))%nat) as [Hi|Hi].
  - rewrite lookup_take_lt, lookup_drop, lookup_splice by lia. rewrite decide_True by lia. f_equal. lia.
  - rewrite lookup_take_ge by lia. by rewrite lookup_ge_None_2 by lia.
Qed.

Lemma region_of_other D s t :
  file_disjoint s t → seg_fits (Z.of_nat (length D)) s → seg_fits (Z.of_nat (length D)) t →
  region_of (put_segment D t) s = region_of D s.
Proof.
  intros Hd [Ho Hf] [Ho' Hf']. apply list_eq. intros i. unfold region_of, put_segment.
  destruct (decide (i < length (bs_data s))%nat) as [Hi|Hi]; [|by rewrite !lookup_take_ge by lia].
  rewrite !lookup_take_lt, !lookup_drop, lookup_splice by lia. rewrite decide_False; [done|].
  unfold file_disjoint, file_end in Hd. lia.
Qed.

Lemma region_of_foldl later D s :
  Forall (file_disjoint s) later → seg_fits (Z.of_nat (length D)) s → Forall (seg_fits (Z.of_nat (length D))) later →
  region_of (foldl put_segment D later) s = region_of D s.
Proof.
  intros Hd Hs. revert D Hs. induction Hd as [|t later Ht _ IH]; intros D Hs Hf; cbn [foldl]; [done|].
  apply Forall_cons_1 in Hf as [Hft Hf]. pose proof (put_segment_length D t Hft) as E.
  rewrite IH by (by rewrite E). by apply region_of_other.
Qed.

(** Every segment's bytes are found at its offset of the data region. *)
Lemma region_of_built b i s :
  offsets_ok b → segs_disjoint (b_segments b) → b_segments b !! i = Some s →
  region_of (data_region (b_segments b) (tables_at b)) s = bs_data s.
Proof.
  intros Hoff Hd Hi. destruct (tables_at_ok b Hoff) as [Hto Hf]. pose proof (take_drop_middle _ _ _ Hi) as E.
  assert (Forall (file_disjoint s) (drop (S i) (b_segments b))) as Hlater.
  { apply Forall_lookup. intros j t Hj. rewrite lookup_drop in Hj. eapply Hd; [exact Hi|exact Hj|lia]. }
  unfold data_region. set (n := Z.to_nat (tables_at b)).
  assert (Z.of_nat n = tables_at b) as En by (unfold n; lia).
  rewrite <- En in Hf. rewrite <- E in Hf |- *. apply Forall_app in Hf as [Hf1 Hf2]. apply Forall_cons_1 in Hf2 as [Hs Hf2].
  rewrite foldl_app. cbn [foldl]. set (D := foldl put_segment (replicate n 255) (take i (b_segments b))).
  assert (length D = n) as HD by (unfold D; rewrite foldl_put_length; rewrite length_replicate; done).
  rewrite region_of_foldl; rewrite ?put_segment_length; rewrite ?HD; try done. by apply region_of_same; rewrite HD.
Qed.

Lemma concat_rows_lookup {X} (f : X → list Z) l i x :
  (∀ x, length (f x) = 16%nat) → l !! i = Some x →
  ∃ w post, concat (f <$> l) = w ++ f x ++ post ∧ length w = (16 * i)%nat.
Proof.
  intros Hf Hi. exists (concat (f <$> take i l)), (concat (f <$> drop (S i) l)).
  rewrite length_rows by done. rewrite length_take. split; [|apply lookup_lt_Some in Hi; lia].
  rewrite <- (take_drop_middle l i x Hi) at 1. rewrite fmap_app, concat_app. by rewrite fmap_cons.
Qed.

Section views.
Context (usz : Z) (b : PlacesBuilder) (ck st : Z).
Context (Hu : 32 <= usz) (Hb : builder_ok b).

#[local] Lemma built_sizes :
  offsets_ok b ∧ 0 <= tables_at b ∧
  tables_at b + Z.of_nat (length (b_partitions b)) * 16 + Z.of_nat (length (b_segments b)) * 16 + 48 < 2 ^ 32.
Proof.
  pose proof (builder_offsets b Hb) as Ho. destruct (tables_at_ok b Ho). split; [done|]. split; [done|]. apply Hb.
Qed.

Lemma partition_built i p :
  b_partitions b !! i = Some p → partition usz (built_image b ck st) (Z.of_nat i) = Ret p.
Proof.
  intros Hi. destruct built_sizes as (Ho & Hto & Ht). pose proof (lookup_lt_Some _ _ _ Hi) as Hlt.
  destruct Hb as (_ & _ & _ & Hparts & _). pose proof (Forall_lookup_1 _ _ _ _ Hparts Hi) as (H1 & H2 & H3 & H4).
  destruct (concat_rows_lookup part_row (b_partitions b) i p) as (w & post & E & Hw); [intros; unfold part_row; len|done|].
  unfold partition. cbn [tables_offset pi_data built_image]. unfold PARTITION_SIZE.
  rewrite umul_small, (uadd_small usz (tables_at b)), !uadd_small by lia.
  assert (image_bytes b ck st = (data_region (b_segments b) (tables_at b) ++ w) ++ part_row p ++
    (post ++ seg_table b ++ le_bytes 4 ck ++ footer_mid b ++ le_bytes 4 st ++ footer_core b)) as ->.
  { unfold image_bytes, image_body, part_table. rewrite E. by rewrite <- !app_assoc. }
  replace (tables_at b + Z.of_nat i * 16) with (Z.of_nat (length (data_region (b_segments b) (tables_at b) ++ w)))
    by (rewrite length_app, length_data_region by done; lia).
  unfold part_row. set (D := _ ++ w). destruct (read_row _ _ _ _ D (post ++ seg_table b ++ le_bytes 4 ck ++ footer_mid b ++ le_bytes 4 st ++ footer_core b) H1 H2 H3 H4) as (-> & -> & -> & ->).
  cbn. by destruct p.
Qed.

Lemma segment_built i s :
  segs_disjoint (b_segments b) → b_segments b !! i = Some s →
  segment usz (built_image b ck st) (Z.of_nat i) =
    Ret (mkSegment (bs_data s) (bs_dest s) (bs_file_offset s) (Z.of_nat (length (bs_data s))) (bs_mem_size s)).
Proof.
  intros Hd Hi. destruct built_sizes as (Ho & Hto & Ht). pose proof (lookup_lt_Some _ _ _ Hi) as Hlt.
  destruct (tables_at_ok b Ho) as [_ Hfit]. pose proof (Forall_lookup_1 _ _ _ _ Hfit Hi) as [Hf1 Hf2].
  destruct Hb as (_ & _ & _ & _ & Hsegs & _). pose proof (Forall_lookup_1 _ _ _ _ Hsegs Hi) as Hs.
  destruct (concat_rows_lookup seg_row (b_segments b) i s) as (w & post & E & Hw); [intros; unfold seg_row; len|done|].
  unfold segment. cbn [tables_offset pi_data partition_count built_image]. unfold PARTITION_SIZE, SEGMENT_SIZE.
  rewrite !umul_small, (uadd_small usz (tables_at b)), (uadd_small usz (_ + _)), !uadd_small by lia.
  set (R := post ++ le_bytes 4 ck ++ footer_mid b ++ le_bytes 4 st ++ footer_core b).
  set (D := data_region (b_segments b) (tables_at b) ++ part_table b ++ w).
  assert (image_bytes b ck st = D ++ seg_row s ++ R) as Eimg.
  { unfold image_bytes, image_body, seg_table, D, R. rewrite E. by rewrite <- !app_assoc. }
  rewrite Eimg. replace (tables_at b + _ + _) with (Z.of_nat (length D))
    by (unfold D; rewrite !length_app, length_data_region, length_part_table by done; lia).
  destruct (read_seg_row s D R Hs) as (-> & -> & -> & ->). cbn [ebind]. rewrite uadd_small by lia.
  rewrite get_range_ok by (unfold D; rewrite ?length_app, ?length_data_region by done; lia).
  cbn [ebind]. do 2 f_equal. rewrite <- Eimg. unfold image_bytes, image_body. rewrite <- !app_assoc.
  replace (Z.to_nat (_ + _ - _)) with (length (bs_data s)) by lia.
  pose proof (length_data_region b Ho) as Hdl.
  rewrite drop_app_le, take_app_le by (rewrite ?length_drop; lia). by apply (region_of_built b i s).
Qed.
End views.

Lemma total_size_bin b bin : offsets_ok b → build b = Ret bin → bin = image_bytes b (image_checksum b) STATE_DEFAULT_RAW ∧ Z.of_nat (length bin) = total_size b.
Proof. intros Ho. rewrite build_ok by done. intros [= <-]. split; [done|]. by apply length_image_bytes. Qed.
