(* ===== verification/PlacesProps.v ===== *)
(** What firmware images guarantee: built images are read back, one corrupted
    byte is noticed, the parser stays inside the image where [usize] does not
    wrap, and the better of two images is chosen. *)

From S2P Require Import Prelude Places PlacesBuild.

Open Scope Z_scope.

(** * The checksum notices one changed byte *)

Lemma crc32_table_tops : NoDup ((λ t, Z.shiftr t 24) <$> CRC32_TABLE) ∧ Forall (is_u 32) CRC32_TABLE ∧ length CRC32_TABLE = 256%nat.
Proof.
  split; [apply (bool_decide_eq_true_1 _); vm_compute; reflexivity|].
  split; [apply (bool_decide_eq_true_1 _); vm_compute; reflexivity|reflexivity].
Qed.

Definition table_at (i : Z) : Z := nth (Z.to_nat i) CRC32_TABLE 0.

Lemma table_at_u32 i : is_u 32 (table_at i).
Proof.
  unfold table_at. destruct (decide (Z.to_nat i < length CRC32_TABLE)%nat) as [H|H].
  - eapply Forall_nth; [|exact H]. apply crc32_table_tops.
  - rewrite nth_overflow by lia. const_u.
Qed.

Lemma table_at_inj i j :
  0 <= i < 256 → 0 <= j < 256 → Z.shiftr (table_at i) 24 = Z.shiftr (table_at j) 24 → i = j.
Proof.
  intros Hi Hj E. destruct crc32_table_tops as (Hnd & _ & Hlen).
  assert (∀ k, 0 <= k < 256 → ((λ t, Z.shiftr t 24) <$> CRC32_TABLE) !! Z.to_nat k = Some (Z.shiftr (table_at k) 24)) as Hl.
  { intros k Hk. rewrite list_lookup_fmap. unfold table_at.
    destruct (lookup_lt_is_Some_2 CRC32_TABLE (Z.to_nat k)) as [t Ht]; [lia|]. rewrite Ht. cbn.
    by rewrite (nth_lookup_Some _ _ _ _ Ht). }
  assert (Z.to_nat i = Z.to_nat j); [|lia]. eapply NoDup_lookup; [exact Hnd|by apply Hl|]. rewrite E. by apply Hl.
Qed.

Lemma land_ff x : Z.land x 0xFF = x mod 256.
Proof. change 0xFF with (Z.ones 8). by rewrite Z.land_ones by lia. Qed.

Lemma lxor_cancel_r a b c : Z.lxor a c = Z.lxor b c → a = b.
Proof.
  intros E. apply (f_equal (λ z, Z.lxor z c)) in E. rewrite !Z.lxor_assoc, Z.lxor_nilpotent, !Z.lxor_0_r in E. done.
Qed.

Lemma lxor_cancel_l a b c : Z.lxor c a = Z.lxor c b → a = b.
Proof. rewrite !(Z.lxor_comm c). apply lxor_cancel_r. Qed.

Lemma is_u_lxor w x y : 0 <= w → is_u w x → is_u w y → is_u w (Z.lxor x y).
Proof.
  unfold is_u. intros Hw Hx Hy. assert (0 <= Z.lxor x y) as H0 by (apply Z.lxor_nonneg; lia). split; [done|].
  destruct (decide (Z.lxor x y = 0)) as [->|Hn]; [by apply Z.pow_pos_nonneg|].
  apply Z.log2_lt_pow2; [lia|]. pose proof (Z.log2_lxor x y).
  assert (∀ z, 0 <= z < 2 ^ w → w = 0 ∨ Z.log2 z < w) as Hl.
  { intros z Hz. destruct (decide (w = 0)); [by left|]. right. destruct (decide (z = 0)) as [->|]; [cbn; lia|].
    apply Z.log2_lt_pow2; lia. }
  destruct (Hl x), (Hl y); try done; try lia; subst w; cbn in *; assert (x = 0 ∧ y = 0) as [-> ->] by lia; done.
Qed.

Lemma crc32_byte_u32 x b : is_u 32 x → is_u 32 (crc32_byte x b).
Proof.
  intros Hx. unfold crc32_byte. apply is_u_lxor; [done| |apply table_at_u32].
  unfold is_u in *. rewrite Z.shiftr_div_pow2 by done. dlia.
Qed.

Lemma crc32_update_u32 data x : is_u 32 x → is_u 32 (crc32_update x data).
Proof. unfold crc32_update. revert x. induction data; cbn; auto using crc32_byte_u32. Qed.

(** The new register determines the table index that was used. *)
Lemma crc32_byte_index x y b c :
  is_u 32 x → is_u 32 y → crc32_byte x b = crc32_byte y c →
  Z.land (Z.lxor x b) 0xFF = Z.land (Z.lxor y c) 0xFF ∧ Z.shiftr x 8 = Z.shiftr y 8.
Proof.
  intros Hx Hy E. unfold crc32_byte in E. fold (table_at (Z.land (Z.lxor x b) 0xFF)) (table_at (Z.land (Z.lxor y c) 0xFF)) in E.
  assert (Z.land (Z.lxor x b) 0xFF = Z.land (Z.lxor y c) 0xFF) as Ei.
  { apply table_at_inj; [rewrite land_ff; dlia|rewrite land_ff; dlia|].
    apply (f_equal (λ z, Z.shiftr z 24)) in E. rewrite !Z.shiftr_lxor, !Z.shiftr_shiftr in E by done.
    replace (Z.shiftr x (8 + 24)) with 0 in E by (rewrite Z.shiftr_div_pow2 by done; unfold is_u in Hx; symmetry; apply Z.div_small; lia).
    replace (Z.shiftr y (8 + 24)) with 0 in E by (rewrite Z.shiftr_div_pow2 by done; unfold is_u in Hy; symmetry; apply Z.div_small; lia).
    by rewrite !Z.lxor_0_l in E. }
  split; [done|]. rewrite Ei in E. by apply lxor_cancel_r in E.
Qed.

Lemma land_lxor_ff x b : Z.land (Z.lxor x b) 0xFF = Z.lxor (Z.land x 0xFF) (Z.land b 0xFF).
Proof. apply Z.bits_inj'. intros n Hn. rewrite !Z.land_spec, !Z.lxor_spec, !Z.land_spec. by destruct (Z.testbit x n), (Z.testbit b n), (Z.testbit 255 n). Qed.

Lemma crc32_byte_inj x y b : is_u 32 x → is_u 32 y → crc32_byte x b = crc32_byte y b → x = y.
Proof.
  intros Hx Hy [E1 E2]%crc32_byte_index; [|done..]. rewrite !land_lxor_ff in E1. apply lxor_cancel_r in E1.
  rewrite !land_ff in E1. rewrite !Z.shiftr_div_pow2 in E2 by done. change (2 ^ 8) with 256 in E2. dlia.
Qed.

Lemma crc32_byte_inj_byte x b c : is_u 32 x → is_u 8 b → is_u 8 c → crc32_byte x b = crc32_byte x c → b = c.
Proof.
  intros Hx Hb Hc [E1 _]%crc32_byte_index; [|done..]. rewrite !land_lxor_ff in E1. apply lxor_cancel_l in E1.
  rewrite !land_ff in E1. unfold is_u in *. change (2 ^ 8) with 256 in *. rewrite !Z.mod_small in E1 by lia. done.
Qed.

Lemma crc32_update_inj data x y :
  is_u 32 x → is_u 32 y → crc32_update x data = crc32_update y data → x = y.
Proof.
  unfold crc32_update. revert x y. induction data as [|b data IH]; cbn; intros x y Hx Hy E; [done|].
  apply IH in E; [|by apply crc32_byte_u32..]. by apply crc32_byte_inj in E.
Qed.

Lemma crc32_one_byte l1 l2 b c :
  is_u 8 b → is_u 8 c → b ≠ c → crc32 (l1 ++ b :: l2) ≠ crc32 (l1 ++ c :: l2).
Proof.
  intros Hb Hc Hne E. apply lxor_cancel_r in E. unfold crc32_update in E. rewrite !foldl_app in E. cbn [foldl] in E.
  assert (is_u 32 (foldl crc32_byte CRC32_INIT l1)) as Hx by (apply crc32_update_u32; const_u).
  apply crc32_update_inj in E; [|by apply crc32_byte_u32..]. by apply crc32_byte_inj_byte in E.
Qed.

Lemma crc32_u32 data : is_u 32 (crc32 data).
Proof. apply is_u_lxor; [done|apply crc32_update_u32; const_u|const_u]. Qed.

(** * Built images are read back *)

Lemma checksum_built b st :
  checksum_valid (built_image b (image_checksum b) st) = Ret true.
Proof.
  unfold checksum_valid. cbn [built_image format_version pi_data checksum].
  rewrite decide_False by done. rewrite decide_True by done. unfold image_bytes.
  rewrite checksum_v2_ok by len. cbn [ebind]. by rewrite bool_decide_eq_true_2.
Qed.

Lemma state_built b st : firmware_state (built_image b (image_checksum b) st) = Ret (decode_stored st).
Proof. unfold firmware_state. rewrite checksum_built. cbn. by case_decide. Qed.

Definition usize_ok (usz : Z) : Prop := usz = 32 ∨ usz = 64.

(** C24: an image is what was put into it. On the host and on the device, the
    bytes [PlacesBuilder::build] writes parse, with the entry point, version and
    time stamp that were set; every partition and every segment, its bytes
    included, is found at its index when the segments do not share bytes of the
    file; the checksum is valid and the image bootable. *)
Theorem image_roundtrip (usz : Z) (b : PlacesBuilder) :
  usize_ok usz → builder_ok b → segs_disjoint (b_segments b) →
  ∃ bytes img, build b = Ret bytes ∧ Z.of_nat (length bytes) = total_size b ∧ parse usz bytes = Ret (Ok img) ∧
    entry_point img = b_entry_point b ∧ version img = b_version b ∧ flash_timestamp img = b_flash_timestamp b ∧
    partition_count img = Z.of_nat (length (b_partitions b)) ∧ segment_count img = Z.of_nat (length (b_segments b)) ∧
    (∀ i p, b_partitions b !! i = Some p → partition usz img (Z.of_nat i) = Ret p) ∧
    (∀ i s, b_segments b !! i = Some s → segment usz img (Z.of_nat i) =
       Ret (mkSegment (bs_data s) (bs_dest s) (bs_file_offset s) (Z.of_nat (length (bs_data s))) (bs_mem_size s))) ∧
    firmware_state img = Ret Default.
Proof.
  intros Hu Hb Hd. pose proof (builder_offsets b Hb) as Ho. assert (32 <= usz) by (destruct Hu; lia).
  eexists _, _. split; [by apply build_ok|]. split; [by apply length_image_bytes|].
  split; [apply parse_built; [done|done|apply crc32_u32|const_u]|]. do 5 (split; [done|]).
  split; [intros i p; by apply partition_built|]. split; [intros i s; by apply segment_built|]. apply state_built.
Qed.

(** An image with a partition, an execute-in-place segment and one for RAM. *)
Definition sample_builder : PlacesBuilder :=
  mkBuilder 0x10000100 (1, 4, 2) 1700000000 [mkPartition (name_hash [105; 109; 103]) 0x5000 0x100000 PART_MANAGED]
    [mkBSeg 0x12005000 0 [1; 2; 3; 4; 5; 6] 6; mkBSeg 0x20000000 8 [9; 8; 7] 16].

Lemma sample_builder_ok : builder_ok sample_builder ∧ segs_disjoint (b_segments sample_builder).
Proof.
  split.
  - unfold builder_ok, part_ok, bseg_ok. split_and!; try const_u; try done.
    + repeat constructor; try const_u; done.
    + repeat constructor; try const_u; done.
  - intros i j s t Hi Hj Hne. unfold file_disjoint, file_end.
    destruct i as [|[|?]], j as [|[|?]]; try done; cbn in Hi, Hj; injection Hi as <-; injection Hj as <-; cbn; lia.
Qed.

Lemma image_roundtrip_witness :
  ∃ bytes img, build sample_builder = Ret bytes ∧ length bytes = 108%nat ∧ parse 32 bytes = Ret (Ok img) ∧
    segment 32 img 1 = Ret (mkSegment [9; 8; 7] 0x20000000 8 3 16) ∧ firmware_state img = Ret Default.
Proof.
  destruct sample_builder_ok as [Hb Hd].
  destruct (image_roundtrip 32 sample_builder) as (bytes & img & E & Hl & Hp & _ & _ & _ & _ & _ & _ & Hs & Hf);
    [by left|exact Hb|exact Hd|].
  exists bytes, img. split; [exact E|]. split; [apply Nat2Z.inj; rewrite Hl; reflexivity|].
  split; [exact Hp|]. split; [|exact Hf]. exact (Hs 1%nat _ eq_refl).
Defined.

(** The state field is written in place: the rest of the image stays, so that
    the checksum still matches and the concern is what a reader finds. *)
Lemma state_write b st st' off :
  offsets_ok b → off = total_size b - STATE_OFFSET_FROM_END →
  write_u32 (image_bytes b (image_checksum b) st) off st' = Ret (image_bytes b (image_checksum b) st').
Proof.
  intros Ho ->. unfold image_bytes, write_u32.
  rewrite (app_assoc (image_body b)), (app_assoc (_ ++ _) (footer_mid b)).
  rewrite write_le_mid; [by rewrite <- !app_assoc| |len].
  rewrite <- (length_image_bytes b 0 0 Ho). unfold image_bytes, STATE_OFFSET_FROM_END. rewrite !length_app. len.
Qed.

Lemma encode_concern_u32 src : is_u 32 (encode_concern src).
Proof. destruct src; const_u. Qed.

Lemma decode_concern src : concern_source (decode_stored (encode_concern src)) = Some src.
Proof. by destruct src. Qed.

(** * What a parsed image was read from *)

Lemma parse_inv usz data img :
  parse usz data = Ret (Ok img) →
  24 <= Z.of_nat (length data) ∧ pi_data img = data ∧
  read_u32 data (Z.of_nat (length data) - 4) = Ret MAGIC ∧
  read_u32 data (Z.of_nat (length data) - 8) = Ret (format_version img) ∧
  (format_version img = VERSION_1 ∨
   format_version img = VERSION_2 ∧ 48 <= Z.of_nat (length data) ∧
   read_u32 data (Z.of_nat (length data) - 48) = Ret (checksum img) ∧
   read_u32 data (Z.of_nat (length data) - 28) = Ret (state_raw img)).
Proof.
  unfold parse. case_decide as Hlen; [done|]. intros (magic & Hm & H)%ebind_inv. case_decide as Hmg; [done|].
  apply ebind_inv in H as (fv & Hfv & H). apply ebind_inv in H as (fields & Hf & H).
  destruct fields as [[[[[fs ck] v] ts] st]|e]; [|done].
  do 4 (apply ebind_inv in H as (? & ? & H)). case_decide; [done|].
  apply ebind_inv in H as (fits & _ & H). destruct fits; [|done]. injection H as <-. cbn [pi_data format_version checksum state_raw].
  unfold FOOTER_V1_SIZE in *. split; [lia|]. split; [done|]. split; [rewrite Hm; f_equal; lia|]. split; [done|].
  unfold read_version_fields in Hf. case_decide as E1; [by left|]. case_decide as E2; [|done]. right.
  case_decide as Hl; [done|]. unfold FOOTER_V2_SIZE in *.
  apply ebind_inv in Hf as (ck' & Hck & Hf). do 4 (apply ebind_inv in Hf as (? & _ & Hf)). apply ebind_inv in Hf as (st' & Hst & Hf).
  injection Hf as <- -> _ _ ->. split; [done|]. split; [lia|]. split; [done|].
  rewrite <- Hst. f_equal. lia.
Qed.

(** An image cut at the fields of its footer. *)
Record cut := mkCut {
  cut_body : list Z; cut_ck : list Z; cut_mid : list Z; cut_st : list Z;
  cut_core : list Z; cut_ver : list Z; cut_magic : list Z;
}.

Definition cut_bytes (c : cut) : list Z :=
  cut_body c ++ cut_ck c ++ cut_mid c ++ cut_st c ++ cut_core c ++ cut_ver c ++ cut_magic c.

(** The bytes the checksum covers. *)
Definition covered (c : cut) : list Z := cut_body c ++ cut_mid c ++ cut_core c ++ cut_ver c ++ cut_magic c.

Definition cut_ok (c : cut) : Prop :=
  length (cut_ck c) = 4%nat ∧ length (cut_mid c) = 16%nat ∧ length (cut_st c) = 4%nat ∧
  length (cut_core c) = 16%nat ∧ length (cut_ver c) = 4%nat ∧ length (cut_magic c) = 4%nat.

Lemma cut_exists data : 48 <= Z.of_nat (length data) → ∃ c, cut_ok c ∧ data = cut_bytes c.
Proof.
  intros H. set (n := (length data - 48)%nat).
  exists (mkCut (take n data) (take 4 (drop n data)) (take 16 (drop 4 (drop n data))) (take 4 (drop 16 (drop 4 (drop n data))))
    (take 16 (drop 4 (drop 16 (drop 4 (drop n data))))) (take 4 (drop 16 (drop 4 (drop 16 (drop 4 (drop n data))))))
    (drop 4 (drop 16 (drop 4 (drop 16 (drop 4 (drop n data))))))).
  split; [unfold cut_ok; cbn; subst n; split_and!; len|]. unfold cut_bytes. cbn. by rewrite !take_drop.
Qed.

Lemma length_cut c : cut_ok c → Z.of_nat (length (cut_bytes c)) = Z.of_nat (length (cut_body c)) + 48.
Proof. intros (? & ? & ? & ? & ? & ?). unfold cut_bytes. rewrite !length_app. lia. Qed.

Lemma read_cut n l1 l2 l3 a :
  a = Z.of_nat (length l1) → n = Z.of_nat (length l2) → read_le n (l1 ++ l2 ++ l3) a = Ret (le_val l2).
Proof. intros -> ->. unfold read_le. by rewrite get_range_app. Qed.

(** The state of a parsed version 2 image, by the pieces of the cut. *)
Lemma parse_cut usz c img :
  cut_ok c → parse usz (cut_bytes c) = Ret (Ok img) →
  format_version img = le_val (cut_ver c) ∧
  (format_version img = VERSION_1 ∨
   format_version img = VERSION_2 ∧ state_raw img = le_val (cut_st c) ∧ checksum img = le_val (cut_ck c) ∧
   checksum_valid img = Ret (bool_decide (crc32 (covered c) = le_val (cut_ck c)))).
Proof.
  intros Hc (_ & Hd & _ & Hv & Hf)%parse_inv. rewrite length_cut in Hv, Hf by done. destruct Hc as (H1 & H2 & H3 & H4 & H5 & H6).
  assert (format_version img = le_val (cut_ver c)) as Ev.
  { unfold cut_bytes, read_u32 in Hv. rewrite !(app_assoc _ _ (cut_ver c ++ _)) in Hv.
    rewrite read_cut in Hv; [by injection Hv as <-| |lia]. rewrite !length_app. lia. }
  split; [done|]. destruct Hf as [Hf|(Hf & _ & Hck & Hst)]; [by left|right]. split; [done|]. split; [|split].
  - unfold cut_bytes, read_u32 in Hst. rewrite !(app_assoc _ _ (cut_st c ++ _)) in Hst.
    rewrite read_cut in Hst; [by injection Hst as <-| |lia]. rewrite !length_app. lia.
  - unfold cut_bytes, read_u32 in Hck. rewrite read_cut in Hck; [by injection Hck as <-|lia|lia].
  - assert (checksum img = le_val (cut_ck c)) as Eck.
    { unfold cut_bytes, read_u32 in Hck. rewrite read_cut in Hck; [by injection Hck as <-|lia|lia]. }
    unfold checksum_valid. rewrite Hf. rewrite decide_False by done. rewrite decide_True by done. rewrite Hd.
    unfold cut_bytes. rewrite checksum_v2_ok by (done || rewrite !length_app; lia). cbn [ebind]. by rewrite Eck.
Qed.

(** * One changed byte *)

Definition change1 (l l' : list Z) (b b' : Z) : Prop := ∃ l1 l2, l = l1 ++ b :: l2 ∧ l' = l1 ++ b' :: l2.

Lemma change1_insert l q b b' : l !! q = Some b → change1 l (<[q := b']> l) b b'.
Proof.
  intros H. exists (take q l), (drop (S q) l). split; [by rewrite take_drop_middle|].
  rewrite insert_take_drop; [done|]. by eapply lookup_lt_Some.
Qed.

Lemma change1_app x y l l' b b' : change1 l l' b b' → change1 (x ++ l ++ y) (x ++ l' ++ y) b b'.
Proof. intros (l1 & l2 & -> & ->). exists (x ++ l1), (l2 ++ y). by rewrite <- !app_assoc. Qed.

Lemma change1_crc l l' b b' : is_u 8 b → is_u 8 b' → b ≠ b' → change1 l l' b b' → crc32 l ≠ crc32 l'.
Proof. intros ??? (l1 & l2 & -> & ->). by apply crc32_one_byte. Qed.

Lemma change1_le_val l l' b b' : is_u 8 b → is_u 8 b' → bytes_ok l → b ≠ b' → change1 l l' b b' → le_val l ≠ le_val l'.
Proof.
  intros Hb Hb' Hl Hne (l1 & l2 & -> & ->) E. apply bytes_ok_app in Hl as [Hl1 Hl2]. apply Forall_cons_1 in Hl2 as [_ Hl2].
  apply Hne. assert (l1 ++ b :: l2 = l1 ++ b' :: l2) as E2.
  { rewrite <- (le_bytes_le_val (l1 ++ b :: l2)), <- (le_bytes_le_val (l1 ++ b' :: l2)).
    - rewrite E. by rewrite !length_app.
    - apply bytes_ok_app. split; [done|by constructor].
    - apply bytes_ok_app. split; [done|by constructor]. }
  by simplify_list_eq.
Qed.

(** A byte of a concatenation is a byte of one of the pieces. *)
Lemma insert_concat (ps : list (list Z)) p b b' :
  concat ps !! p = Some b →
  ∃ k q l, ps !! k = Some l ∧ l !! q = Some b ∧ p = (length (concat (take k ps)) + q)%nat ∧
    <[p := b']> (concat ps) = concat (<[k := <[q := b']> l]> ps).
Proof.
  revert p. induction ps as [|l ps IH]; intros p; cbn [concat]; [done|]. intros Hp.
  destruct (decide (p < length l)%nat) as [C|C].
  - exists O, p, l. rewrite lookup_app_l in Hp by done. split_and!; try done. cbn. by rewrite insert_app_l.
  - rewrite lookup_app_r in Hp by lia. destruct (IH _ Hp) as (k & q & l' & Hk & Hq & E & Hi).
    exists (S k), q, l'. split_and!; [done|done|cbn; rewrite length_app; lia|].
    rewrite insert_app_r_alt by lia. by rewrite Hi.
Qed.

Definition cut_list (c : cut) : list (list Z) :=
  [cut_body c; cut_ck c; cut_mid c; cut_st c; cut_core c; cut_ver c; cut_magic c].

Lemma cut_bytes_list c : cut_bytes c = concat (cut_list c).
Proof. unfold cut_list. cbn. by rewrite app_nil_r. Qed.

(** Where in the cut a byte lies, and what changing it changes. *)
Lemma flip_cut c p b b' :
  cut_ok c → cut_bytes c !! p = Some b →
  ∃ c', cut_ok c' ∧ <[p := b']> (cut_bytes c) = cut_bytes c' ∧
    (covered c' = covered c ∧ cut_ver c' = cut_ver c ∧
       (change1 (cut_ck c) (cut_ck c') b b' ∨ (length (cut_body c) + 20 ≤ p < length (cut_body c) + 24)%nat) ∨
     cut_ck c' = cut_ck c ∧ change1 (covered c) (covered c') b b' ∧
       (cut_ver c' = cut_ver c ∨
        ∃ q, p = (length (cut_body c) + 40 + q)%nat ∧ cut_ver c !! q = Some b ∧ cut_ver c' = <[q := b']> (cut_ver c))).
Proof.
  intros Hc Hp. pose proof Hc as (H1 & H2 & H3 & H4 & H5 & H6). rewrite cut_bytes_list in Hp |- *.
  destruct (insert_concat _ p b b' Hp) as (k & q & l & Hk & Hq & Ep & ->).
  pose proof (change1_insert l q b b' Hq) as Hch. pose proof (lookup_lt_Some _ _ _ Hq) as Hlt. unfold cut_list in *.
  destruct k as [|[|[|[|[|[|[|k]]]]]]]; [injection Hk as <-..|done]; cbn in Ep |- *; repeat rewrite ?length_app, ?length_nil in Ep.
  - exists (mkCut (<[q := b']> (cut_body c)) (cut_ck c) (cut_mid c) (cut_st c) (cut_core c) (cut_ver c) (cut_magic c)).
    split; [done|]. split; [by rewrite cut_bytes_list|]. right. split; [done|]. split; [|by left]. by apply (change1_app []).
  - exists (mkCut (cut_body c) (<[q := b']> (cut_ck c)) (cut_mid c) (cut_st c) (cut_core c) (cut_ver c) (cut_magic c)).
    split; [by unfold cut_ok; cbn; rewrite length_insert|]. split; [by rewrite cut_bytes_list|]. left. eauto.
  - exists (mkCut (cut_body c) (cut_ck c) (<[q := b']> (cut_mid c)) (cut_st c) (cut_core c) (cut_ver c) (cut_magic c)).
    split; [by unfold cut_ok; cbn; rewrite length_insert|]. split; [by rewrite cut_bytes_list|]. right.
    split; [done|]. split; [|by left]. by apply change1_app.
  - exists (mkCut (cut_body c) (cut_ck c) (cut_mid c) (<[q := b']> (cut_st c)) (cut_core c) (cut_ver c) (cut_magic c)).
    split; [by unfold cut_ok; cbn; rewrite length_insert|]. split; [by rewrite cut_bytes_list|]. left.
    split; [done|]. split; [done|]. right. lia.
  - exists (mkCut (cut_body c) (cut_ck c) (cut_mid c) (cut_st c) (<[q := b']> (cut_core c)) (cut_ver c) (cut_magic c)).
    split; [by unfold cut_ok; cbn; rewrite length_insert|]. split; [by rewrite cut_bytes_list|]. right.
    split; [done|]. split; [|by left]. unfold covered; cbn. rewrite !(app_assoc (cut_body c)). by apply change1_app.
  - exists (mkCut (cut_body c) (cut_ck c) (cut_mid c) (cut_st c) (cut_core c) (<[q := b']> (cut_ver c)) (cut_magic c)).
    split; [by unfold cut_ok; cbn; rewrite length_insert|]. split; [by rewrite cut_bytes_list|]. right.
    split; [done|]. split; [|right; exists q; split; [lia|done]]. unfold covered; cbn.
    rewrite !(app_assoc (cut_body c)), !(app_assoc _ (cut_core c)). by apply change1_app.
  - exists (mkCut (cut_body c) (cut_ck c) (cut_mid c) (cut_st c) (cut_core c) (cut_ver c) (<[q := b']> (cut_magic c))).
    split; [by unfold cut_ok; cbn; rewrite length_insert|]. split; [by rewrite cut_bytes_list|]. right. split; [done|]. split; [|by left].
    pose proof (change1_app (cut_body c ++ cut_mid c ++ cut_core c ++ cut_ver c) [] _ _ _ _ Hch) as Hcov.
    rewrite !app_nil_r, <- !app_assoc in Hcov. exact Hcov.
Qed.

(** C23: an image with one wrong byte is not booted, but for one byte. Take bytes
    that parse as a version 2 image with a valid checksum and change one byte
    outside of the state field. If the result still parses, its state is
    [IntegrityCompromised]; the only exception is the version field turned from 2
    into 1, for which the parser looks for no checksum. *)
Theorem corruption_detected (usz : Z) (data : list Z) (img img' : PlacesImage) (p : nat) (b b' : Z) :
  bytes_ok data → parse usz data = Ret (Ok img) → format_version img = VERSION_2 → checksum_valid img = Ret true →
  data !! p = Some b → is_u 8 b' → b' ≠ b → ~ (length data - 28 ≤ p < length data - 24)%nat →
  parse usz (<[p := b']> data) = Ret (Ok img') →
  firmware_state img' = Ret IntegrityCompromised ∨
  p = (length data - 8)%nat ∧ b' = 1 ∧ format_version img' = VERSION_1.
Proof.
  intros Hd Hparse Hv Hck Hp Hb' Hne Hstate Hparse'. pose proof (Forall_lookup_1 _ _ _ _ Hd Hp) as Hb.
  pose proof (parse_inv _ _ _ Hparse) as (_ & _ & _ & _ & [Hv1|(_ & Hlen & _)]); [by rewrite Hv1 in Hv|].
  destruct (cut_exists data Hlen) as (c & Hc & ->). pose proof (length_cut c Hc) as Hl.
  destruct (flip_cut c p b b' Hc Hp) as (c' & Hc' & E & Hch). rewrite E in Hparse'.
  destruct (parse_cut _ _ _ Hc Hparse) as [Ev [Hv1|(_ & _ & Ek & Hcv)]]; [by rewrite Hv1 in Hv|].
  rewrite Hck in Hcv. injection Hcv as Hcv. symmetry in Hcv. apply bool_decide_eq_true_1 in Hcv.
  destruct (parse_cut _ _ _ Hc' Hparse') as [Ev' [Hv1|(Hv2 & _ & Ek' & Hcv')]].
  - right. rewrite Hv in Ev. rewrite Hv1 in Ev'.
    destruct Hch as [(_ & Hver & _)|(_ & _ & [Hver|(q & Hq & Hbq & Hver)])]; [rewrite Hver, <- Ev in Ev'; done..|].
    pose proof Hc as (_ & _ & _ & _ & H5 & _).
    assert (bytes_ok (cut_ver c)) as Hvb.
    { apply Forall_lookup. intros i x Hx. eapply (Forall_lookup_1 _ _ (length (cut_body c) + 40 + i)%nat); [exact Hd|].
      destruct Hc as (? & ? & ? & ? & ? & ?). unfold cut_bytes. rewrite !app_assoc.
      pose proof (lookup_lt_Some _ _ _ Hx). rewrite <- !app_assoc. do 5 rewrite lookup_app_r by lia.
      rewrite lookup_app_l by lia. rewrite <- Hx. f_equal. lia. }
    assert (cut_ver c = [2; 0; 0; 0]) as Ec by (rewrite <- (le_bytes_le_val (cut_ver c)), H5, <- Ev by done; reflexivity).
    assert (bytes_ok (<[q := b']> (cut_ver c))) as Hvb' by (by apply Forall_insert).
    assert (<[q := b']> (cut_ver c) = [1; 0; 0; 0]) as Ec'.
    { rewrite <- Hver in *. rewrite <- (le_bytes_le_val (cut_ver c')) by done. rewrite <- Ev'.
      destruct Hc' as (_ & _ & _ & _ & -> & _). reflexivity. }
    rewrite Ec in Ec', Hbq. destruct q as [|[|[|[|q]]]]; try done; cbn in Ec'; [|injection Ec'; lia..].
    injection Ec' as ->. split; [lia|done].
  - left. unfold firmware_state. rewrite Hv2. rewrite decide_True by done. rewrite Hcv'. cbn [ebind].
    rewrite bool_decide_eq_false_2; [done|]. intros Eq.
    destruct Hch as [(Hcov & _ & [Hch|?])|(Hk & Hch & _)]; [|lia|].
    + rewrite Hcov, Hcv in Eq. eapply (change1_le_val (cut_ck c) (cut_ck c') b b'); try done.
      unfold cut_bytes in Hd. apply bytes_ok_app in Hd as [_ Hd]. by apply bytes_ok_app in Hd as [? _].
    + rewrite Hk, <- Hcv in Eq. eapply (change1_crc (covered c) (covered c') b b'); done.
Qed.

(** The bytes of the sample image, and the outcome of parsing some bytes. *)
Definition sample_bytes : list Z := match build sample_builder with Ret d => d | Panic => [] end.

Definition parsed (usz : Z) (data : list Z) : option PlacesImage :=
  match parse usz data with Ret (Ok img) => Some img | _ => None end.

Lemma parsed_Some usz data img : parsed usz data = Some img → parse usz data = Ret (Ok img).
Proof. unfold parsed. destruct (parse usz data) as [[?|?]|]; congruence. Qed.

Definition sample_image : PlacesImage := built_image sample_builder (image_checksum sample_builder) STATE_DEFAULT_RAW.

(** The first byte of the sample changed. *)
Definition sample_corrupt : PlacesImage :=
  match parsed 32 (<[0%nat := 77]> sample_bytes) with Some img => img | None => sample_image end.

Lemma corruption_detected_witness :
  parse 32 (<[0%nat := 77]> sample_bytes) = Ret (Ok sample_corrupt) ∧
  firmware_state sample_corrupt = Ret IntegrityCompromised.
Proof.
  assert (parse 32 (<[0%nat := 77]> sample_bytes) = Ret (Ok sample_corrupt)) as E by (vm_compute; reflexivity).
  split; [exact E|].
  destruct (corruption_detected 32 sample_bytes sample_image sample_corrupt 0 1 77) as [H|(H & _)]; [..|exact H|].
  - apply (bool_decide_eq_true_1 _). vm_compute. reflexivity.
  - vm_compute. reflexivity.
  - reflexivity.
  - vm_compute. reflexivity.
  - vm_compute. reflexivity.
  - const_u.
  - discriminate.
  - vm_compute. lia.
  - exact E.
  - vm_compute in H. discriminate.
Defined.

(** The exception is real: the version byte of the sample changed from 2 to 1
    gives an image of version 0.0.0 that is bootable without a checksum. *)
Example version_downgrade_boots :
  ∃ img, parse 32 (<[(length sample_bytes - 8)%nat := 1]> sample_bytes) = Ret (Ok img) ∧
    firmware_state img = Ret Default ∧ version img = (0, 0, 0).
Proof. eexists. split; [vm_compute; reflexivity|]. split; reflexivity. Qed.

(** * The parser stays inside of the image *)

(** The sums of the parser do not wrap. *)
Definition sums_fit (usz : Z) : Prop := 2 ^ 38 <= 2 ^ usz.

Lemma uadd_fit usz a b : sums_fit usz → 0 <= a + b < 2 ^ 38 → uadd usz a b = a + b.
Proof. intros Hu H. apply wrap_small. unfold is_u, sums_fit in *. lia. Qed.

Lemma umul_fit usz a b : sums_fit usz → 0 <= a * b < 2 ^ 38 → umul usz a b = a * b.
Proof. intros Hu H. apply wrap_small. unfold is_u, sums_fit in *. lia. Qed.

Lemma read_u32_ok data a :
  0 <= a → a + 4 <= Z.of_nat (length data) → bytes_ok data → ∃ v, read_u32 data a = Ret v ∧ is_u 32 v.
Proof.
  intros. destruct (read_le_ok 4 data a) as (v & E & Hv); [done..|]. exists v. split; [done|]. exact Hv.
Qed.

Lemma read_u16_ok data a :
  0 <= a → a + 2 <= Z.of_nat (length data) → bytes_ok data → ∃ v, read_u16 data a = Ret v.
Proof. intros. destruct (read_le_ok 2 data a) as (v & E & Hv); [done..|]. eauto. Qed.

Lemma read_u64_ok data a :
  0 <= a → a + 8 <= Z.of_nat (length data) → bytes_ok data → ∃ v, read_u64 data a = Ret v.
Proof. intros. destruct (read_le_ok 8 data a) as (v & E & Hv); [done..|]. eauto. Qed.

(** [read x from data at a] executes a read that is in bounds. *)
Ltac read_in x Hx := match goal with
  | |- context [read_u32 ?d ?a] => destruct (read_u32_ok d a) as (x & -> & Hx); [lia|lia|done|]; cbn [ebind]
  | |- context [read_u16 ?d ?a] => destruct (read_u16_ok d a) as (x & ->); [lia|lia|done|]; cbn [ebind]
  | |- context [read_u64 ?d ?a] => destruct (read_u64_ok d a) as (x & ->); [lia|lia|done|]; cbn [ebind]
  end.

(** What [check_segments] establishes for the row of each segment. *)
Definition row_in (data : list Z) (pte to i : Z) : Prop :=
  ∃ fo fs, read_u32 data (pte + 16 * i + 4) = Ret fo ∧ read_u32 data (pte + 16 * i + 8) = Ret fs ∧
    is_u 32 fo ∧ is_u 32 fs ∧ fo + fs <= to.

Lemma check_segments_safe usz n i data pte to :
  sums_fit usz → bytes_ok data → 0 <= i → 0 <= pte → pte + 16 * (i + Z.of_nat n) <= Z.of_nat (length data) →
  pte + 16 * (i + Z.of_nat n) < 2 ^ 37 + 2 ^ 33 →
  ∃ ok, check_segments usz n i data pte to = Ret ok ∧
    (ok = true → ∀ j, i <= j < i + Z.of_nat n → row_in data pte to j).
Proof.
  intros Hu Hd. revert i. induction n as [|n IH]; intros i Hi Hp Hl Hb; cbn [check_segments].
  { exists true. split; [done|]. lia. }
  unfold SEGMENT_SIZE. rewrite umul_fit, (uadd_fit usz pte), !uadd_fit by (done || lia).
  destruct (read_u32_ok data (pte + i * 16 + 4)) as (fo & Efo & Hfo); [lia|lia|done|]. rewrite Efo. cbn [ebind].
  destruct (read_u32_ok data (pte + i * 16 + 8)) as (fs & Efs & Hfs); [lia|lia|done|]. rewrite Efs. cbn [ebind].
  assert (is_u 32 fo) as Hfo' by done. assert (is_u 32 fs) as Hfs' by done. unfold is_u in Hfo', Hfs'.
  rewrite uadd_fit by (done || lia). case_decide as C; [by exists false|].
  destruct (IH (i + 1)) as (ok & E & Hok); [lia..|]. exists ok. split; [done|]. intros -> j Hj.
  destruct (decide (j = i)) as [->|]; [|apply Hok; [done|lia]].
  exists fo, fs. replace (16 * i) with (i * 16) by lia. split_and!; [done|done|done|done|lia].
Qed.

(** What the parser has checked of an image it returns. *)
Definition image_wf (img : PlacesImage) : Prop :=
  bytes_ok (pi_data img) ∧ is_u 32 (tables_offset img) ∧ is_u 32 (partition_count img) ∧ is_u 32 (segment_count img) ∧
  tables_offset img + 16 * partition_count img + 16 * segment_count img + 24 <= Z.of_nat (length (pi_data img)) ∧
  (∀ j, 0 <= j < segment_count img → row_in (pi_data img) (tables_offset img + 16 * partition_count img) (tables_offset img) j) ∧
  (format_version img = VERSION_1 ∨ format_version img = VERSION_2 ∧ 48 <= Z.of_nat (length (pi_data img))).

Lemma read_version_fields_safe data fv :
  bytes_ok data → ∃ r, read_version_fields data fv = Ret r ∧
    (∀ fs ck v ts st, r = Ok (fs, ck, v, ts, st) → 24 <= fs <= 48 ∧ (fv = VERSION_1 ∨ fv = VERSION_2 ∧ 48 <= Z.of_nat (length data))).
Proof.
  intros Hd. unfold read_version_fields. case_decide as C1.
  { eexists. split; [done|]. intros * [= <- <- <- <- <-]. split; [done|by left]. }
  case_decide as C2; [|by eexists]. case_decide as C3; [by eexists|]. unfold FOOTER_V2_SIZE in *.
  read_in ck Hck. read_in v1 Hv1. read_in v2 Hv2. read_in v3 Hv3. read_in ts Hts. read_in st Hst.
  eexists. split; [done|]. intros * [= <- <- <- <- <-]. split; [lia|]. right. split; [done|lia].
Qed.

Lemma parse_safe usz data :
  sums_fit usz → bytes_ok data →
  ∃ r, parse usz data = Ret r ∧ ∀ img, r = Ok img → image_wf img ∧ pi_data img = data.
Proof.
  intros Hu Hd. unfold parse. unfold FOOTER_V1_SIZE. case_decide as C; [by eexists|].
  read_in magic Hm. case_decide; [by eexists|]. read_in fv Hfv.
  destruct (read_version_fields_safe data fv Hd) as (r & -> & Hr). cbn [ebind].
  destruct r as [[[[[fs ck] v] ts] st]|e]; [|by eexists]. destruct (Hr _ _ _ _ _ eq_refl) as [Hfs Hver].
  destruct (read_u32_ok data (Z.of_nat (length data) - 24)) as (to & -> & Hto); [lia|lia|done|]. cbn [ebind].
  read_in sc Hsc. read_in pc Hpc. read_in ep Hep. unfold is_u in Hto, Hsc, Hpc. unfold PARTITION_SIZE, SEGMENT_SIZE.
  rewrite !umul_fit, (uadd_fit usz to), (uadd_fit usz (to + _)), (uadd_fit usz (to + _ + _)) by (done || lia).
  case_decide as C2; [by eexists|].
  destruct (check_segments_safe usz (Z.to_nat sc) 0 data (to + pc * 16) to) as (ok & -> & Hok); [done|done|lia..|].
  cbn [ebind]. destruct ok; cbn [negb]; [|by eexists].
  eexists. split; [done|]. intros img [= <-]. split; [|done]. unfold image_wf. cbn.
  split_and!; try done; try lia. intros j Hj. replace (16 * pc) with (pc * 16) by lia. apply Hok; [done|lia].
Qed.

Section safe_views.
Context (usz : Z) (img : PlacesImage) (Hu : sums_fit usz) (Hwf : image_wf img).

Lemma partition_safe i : 0 <= i < partition_count img → ∃ p, partition usz img i = Ret p.
Proof.
  destruct Hwf as (Hd & Hto & Hpc & Hsc & Hlen & _). intros Hi. unfold is_u in Hto, Hpc, Hsc.
  unfold partition, PARTITION_SIZE. rewrite umul_fit, (uadd_fit usz (tables_offset img)), !uadd_fit by (done || lia).
  read_in a Ha. read_in b Hb. read_in c Hc. read_in d Hd'. by eexists.
Qed.

Lemma find_partition_safe hash : ∃ o, find_partition usz img hash = Ret o.
Proof.
  unfold find_partition. pose proof Hwf as (_ & _ & [Hpc _] & _).
  assert (∀ n i, 0 <= i → i + Z.of_nat n <= partition_count img → ∃ o, find_partition_from usz n i img hash = Ret o) as H.
  { induction n as [|n IH]; intros i Hi Hn; cbn [find_partition_from]; [by eexists|].
    destruct (partition_safe i) as [p ->]; [lia|]. cbn [ebind]. case_decide; [by eexists|]. apply IH; lia. }
  apply H; lia.
Qed.

Lemma segment_safe i :
  0 <= i < segment_count img →
  ∃ s, segment usz img i = Ret s ∧ seg_file_size s = Z.of_nat (length (seg_data s)) ∧
    0 <= seg_file_offset s ∧ seg_file_offset s + seg_file_size s <= tables_offset img ∧
    seg_data s = take (length (seg_data s)) (drop (Z.to_nat (seg_file_offset s)) (pi_data img)).
Proof.
  destruct Hwf as (Hd & Hto & Hpc & Hsc & Hlen & Hrows & _). intros Hi. unfold is_u in Hto, Hpc, Hsc.
  destruct (Hrows i Hi) as (fo & fs & Efo & Efs & Hfo & Hfs & Hin).
  replace (16 * partition_count img) with (partition_count img * 16) in Efo, Efs by lia. replace (16 * i) with (i * 16) in Efo, Efs by lia.
  unfold segment, PARTITION_SIZE, SEGMENT_SIZE.
  rewrite !umul_fit, (uadd_fit usz (tables_offset img)), (uadd_fit usz (_ + _)), !uadd_fit by (done || lia).
  destruct (read_u32_ok (pi_data img) (tables_offset img + partition_count img * 16 + i * 16)) as (dest & -> & Hdest); [lia|lia|done|].
  cbn [ebind]. rewrite Efo. cbn [ebind]. rewrite Efs. cbn [ebind]. read_in ms Hms. unfold is_u in Hfo, Hfs.
  rewrite uadd_fit by (done || lia). rewrite get_range_ok by lia. cbn [ebind]. eexists. split; [done|]. cbn.
  replace (Z.to_nat (fo + fs - fo)) with (Z.to_nat fs) by lia.
  assert (length (take (Z.to_nat fs) (drop (Z.to_nat fo) (pi_data img))) = Z.to_nat fs) as El by (rewrite length_take, length_drop; lia).
  rewrite El. split_and!; [lia|lia|lia|done].
Qed.

Lemma firmware_state_safe : ∃ s, firmware_state img = Ret s.
Proof.
  destruct Hwf as (Hd & _ & _ & _ & _ & _ & Hv). unfold firmware_state, checksum_valid. case_decide as C; [|by eexists].
  destruct Hv as [Hv|[Hv Hlen]]; rewrite Hv in *; [done|]. rewrite decide_False by done. rewrite decide_True by done. destruct (cut_exists _ Hlen) as (c & Hc & ->).
  destruct Hc as (? & ? & ? & ? & ? & ?). unfold cut_bytes. rewrite checksum_v2_ok by (done || rewrite !length_app; lia).
  cbn [ebind]. case_bool_decide; cbn; by eexists.
Qed.
End safe_views.

Lemma sums_fit_64 : sums_fit 64.
Proof. unfold sums_fit. by vm_compute. Qed.

(** On the host nothing outside of an image is read. With a 64-bit [usize],
    [parse] returns on arbitrary bytes, and of an image it accepts every segment
    and partition below the count, every search by name and the state can be
    read; a segment's data has the length the segment states and is a range of
    the image in front of the tables. *)
Theorem places_parse_safe (data : list Z) :
  bytes_ok data →
  ∃ r, parse 64 data = Ret r ∧ ∀ img, r = Ok img →
    (∀ i, 0 <= i < partition_count img → ∃ p, partition 64 img i = Ret p) ∧
    (∀ hash, ∃ o, find_partition 64 img hash = Ret o) ∧
    (∀ i, 0 <= i < segment_count img → ∃ s, segment 64 img i = Ret s ∧
       seg_file_size s = Z.of_nat (length (seg_data s)) ∧ seg_file_offset s + seg_file_size s <= tables_offset img ∧
       seg_data s = take (length (seg_data s)) (drop (Z.to_nat (seg_file_offset s)) data)) ∧
    ∃ s, firmware_state img = Ret s.
Proof.
  intros Hd. destruct (parse_safe 64 data sums_fit_64 Hd) as (r & E & Hr). exists r. split; [done|]. intros img Hi.
  destruct (Hr img Hi) as [Hwf Hdata]. split_and!.
  - intros i. by apply partition_safe; [apply sums_fit_64|].
  - intros hash. by apply find_partition_safe; [apply sums_fit_64|].
  - intros i H. destruct (segment_safe 64 img sums_fit_64 Hwf i H) as (s & Es & H1 & _ & H2 & H3). rewrite Hdata in H3. eauto 10.
  - by apply firmware_state_safe.
Qed.

Lemma places_parse_safe_witness :
  ∃ r, parse 64 (le_bytes 4 0 ++ le_bytes 4 0xFFFFFFFF ++ le_bytes 4 0 ++ le_bytes 4 0 ++ le_bytes 4 1 ++ le_bytes 4 MAGIC) = Ret r ∧
    r = Err TablesOutOfBounds.
Proof.
  destruct (places_parse_safe (le_bytes 4 0 ++ le_bytes 4 0xFFFFFFFF ++ le_bytes 4 0 ++ le_bytes 4 0 ++ le_bytes 4 1 ++ le_bytes 4 MAGIC)) as (r & E & _).
  - apply (bool_decide_eq_true_1 _). vm_compute. reflexivity.
  - exists r. split; [exact E|]. vm_compute in E. congruence.
Defined.

(** On the device [usize] has 32 bits and the sums wrap: the parser accepts the
    table offset of these 24 bytes, and reads the row of the only segment in front
    of the image. On the host the same bytes are refused. *)
Example parse_wraps_on_device :
  let data := le_bytes 4 0xFFFFFFF0 ++ le_bytes 4 1 ++ le_bytes 4 0 ++ le_bytes 4 0 ++ le_bytes 4 VERSION_1 ++ le_bytes 4 MAGIC in
  parse 32 data = Panic ∧ parse 64 data = Ret (Err TablesOutOfBounds).
Proof. vm_compute. done. Qed.

(** * Choosing between two images *)

(** Version and time stamp as one number, the version first. *)
Definition rank (v : Z * Z * Z) (ts : Z) : Z :=
  let '(major, minor, patch) := v in ((major * 2 ^ 16 + minor) * 2 ^ 16 + patch) * 2 ^ 64 + ts.

Lemma cmp_version_rank v w ts us :
  version_ok v → version_ok w → is_u 64 ts → is_u 64 us →
  match cmp_version v w with
  | Lt => rank v ts < rank w us
  | Gt => rank w us < rank v ts
  | Eq => rank v ts - rank w us = ts - us
  end.
Proof.
  destruct v as [[v0 v1] v2], w as [[w0 w1] w2]. intros (H0 & H1 & H2) (K0 & K1 & K2) Ht Hu. unfold is_u in *.
  unfold cmp_version, rank, then_.
  destruct (Z.compare_spec v0 w0), (Z.compare_spec v1 w1), (Z.compare_spec v2 w2); subst; nia.
Qed.

(** The bootable image with the higher version is chosen, then the one
    flashed later, then slot A. Given the states of two images, selection returns;
    the chosen image is bootable, and when both are, no better ranked one was
    passed over; there is an error exactly when neither is bootable, and it names
    both states; the reason says what decided. *)
Theorem select_firmware_best (a b : PlacesImage) (sa sb : FirmwareState) :
  firmware_state a = Ret sa → firmware_state b = Ret sb →
  version_ok (version a) → version_ok (version b) → is_u 64 (flash_timestamp a) → is_u 64 (flash_timestamp b) →
  let ra := rank (version a) (flash_timestamp a) in
  let rb := rank (version b) (flash_timestamp b) in
  ∃ r, select_firmware a b = Ret r ∧
    match r with
    | Ok (A, reason) => sa = Default ∧ (sb = Default → rb <= ra) ∧
        match reason with
        | OtherConcerned s => s = sb ∧ sb ≠ Default
        | Tiebreak => sb = Default ∧ ra = rb
        | _ => sb = Default ∧ rb < ra
        end
    | Ok (B, reason) => sb = Default ∧ (sa = Default → ra < rb) ∧
        match reason with OtherConcerned s => s = sa ∧ sa ≠ Default | Tiebreak => False | _ => sa = Default end
    | Err (BothConcerned x y) => x = sa ∧ y = sb ∧ sa ≠ Default ∧ sb ≠ Default
    end.
Proof.
  intros Ha Hb Hva Hvb Hta Htb. cbv zeta. unfold select_firmware. rewrite Ha. cbn [ebind]. rewrite Hb. cbn [ebind].
  pose proof (cmp_version_rank _ _ _ _ Hva Hvb Hta Htb) as Hc.
  destruct sa, sb; cbn [is_bootable]; try (eexists; split; [reflexivity|]; cbn beta iota; by split_and!).
  destruct (cmp_version (version a) (version b)).
  - destruct (Z.compare_spec (flash_timestamp a) (flash_timestamp b)); eexists; (split; [reflexivity|]); cbn; split_and!; try done; lia.
  - eexists. split; [reflexivity|]. cbn. split_and!; done.
  - eexists. split; [reflexivity|]. cbn. split_and!; try done; lia.
Qed.

Lemma select_firmware_best_witness :
  select_firmware sample_image sample_corrupt = Ret (Ok (A, OtherConcerned IntegrityCompromised)) ∧ rank (1, 4, 2) 0 < rank (1, 5, 0) 0.
Proof.
  destruct (select_firmware_best sample_image sample_corrupt Default IntegrityCompromised) as (r & E & H).
  - vm_compute. reflexivity.
  - vm_compute. reflexivity.
  - vm_compute. split_and!; done.
  - vm_compute. split_and!; done.
  - const_u.
  - vm_compute. done.
  - split; [|reflexivity]. rewrite E. destruct r as [[[|] reason]|[x y]].
    + destruct H as (_ & _ & H). destruct reason as [s| | |]; destruct H as [H1 H2]; [rewrite H1; exact eq_refl|discriminate H1..].
    + destruct H as (H & _). discriminate H.
    + destruct H as (_ & _ & H & _). destruct (H eq_refl).
Defined.

(** A concern written by the running firmware takes an image out of the
    selection. Writing the code of a concern into the state field of a built
    image, in place, leaves a parsable image with a valid checksum, of the same
    version and segments, whose state is that concern; the other slot is then
    chosen whenever it is bootable, whatever its version, on either side, and
    nothing is booted when it is not. *)
Theorem concern_excludes_image (usz : Z) (b : PlacesBuilder) (src : ConcernSource) (other : PlacesImage) (so : FirmwareState) :
  usize_ok usz → builder_ok b → firmware_state other = Ret so →
  ∃ bytes bytes' img st, build b = Ret bytes ∧
    write_u32 bytes (Z.of_nat (length bytes) - STATE_OFFSET_FROM_END) (encode_concern src) = Ret bytes' ∧
    parse usz bytes' = Ret (Ok img) ∧ checksum_valid img = Ret true ∧ firmware_state img = Ret st ∧
    concern_source st = Some src ∧ version img = b_version b ∧ segment_count img = Z.of_nat (length (b_segments b)) ∧
    select_firmware img other =
      Ret (if is_bootable so then Ok (B, OtherConcerned st) else Err (BothConcerned st so)) ∧
    select_firmware other img =
      Ret (if is_bootable so then Ok (A, OtherConcerned st) else Err (BothConcerned so st)).
Proof.
  intros Hu Hb Hso. pose proof (builder_offsets b Hb) as Ho. assert (32 <= usz) by (destruct Hu; lia).
  eexists _, _, _, (decode_stored (encode_concern src)). split; [by apply build_ok|].
  split; [apply state_write; [done|by rewrite length_image_bytes]|].
  split; [apply parse_built; [done|done|apply crc32_u32|apply encode_concern_u32]|].
  split; [apply checksum_built|]. split; [apply state_built|]. split; [apply decode_concern|]. do 2 (split; [done|]).
  unfold select_firmware. rewrite Hso, state_built. cbn [ebind].
  destruct src, so; split; reflexivity.
Qed.

Lemma concern_excludes_image_witness :
  ∃ bytes bytes' img st, build sample_builder = Ret bytes ∧ write_u32 bytes 80 0x03000000 = Ret bytes' ∧
    parse 32 bytes' = Ret (Ok img) ∧ firmware_state img = Ret st ∧ select_firmware img sample_image = Ret (Ok (B, OtherConcerned st)).
Proof.
  destruct sample_builder_ok as [Hb _].
  destruct (concern_excludes_image 32 sample_builder Supervisor sample_image Default) as (bytes & bytes' & img & st & E & Hw & Hp & _ & Hs & _ & _ & _ & Hsel & _);
    [by left|exact Hb|vm_compute; reflexivity|].
  exists bytes, bytes', img, st. split; [exact E|]. split; [|split; [exact Hp|split; [exact Hs|exact Hsel]]].
  rewrite <- Hw. f_equal. vm_compute in E. injection E as <-. reflexivity.
Defined.
