(* ===== verification/Ftab.v ===== *)
(** The flash table the host writes for the boot ROM and the bootloader
    ([host/tfw/src/pack.rs], [build_ftab]): the [SecConfiguration] structure, field
    by field as it is laid out in flash, and its population. *)

From S2P Require Import Prelude.

Open Scope Z_scope.

Definition FTAB_SIZE : Z := 20 * 1024.
Definition SEC_CONFIG_MAGIC : Z := 0x53454346.
Definition DFU_FLASH_PARTITION : nat := 16.
Definition DFU_FLASH_IMG_LCPU : nat := 2.
Definition DFU_FLASH_IMG_BL : nat := 3.
Definition DFU_FLASH_IMG_IDX_BL : nat := DFU_FLASH_IMG_BL - DFU_FLASH_IMG_LCPU.
Definition IMG_COUNT : nat := DFU_FLASH_PARTITION - DFU_FLASH_IMG_LCPU.
Definition FTAB_PLACES_SLOT_A : nat := 14.
Definition FTAB_PLACES_SLOT_B : nat := 15.
Definition CORE_MAX : nat := 4.
Definition CORE_BL : nat := 1.
Definition DFU_SIG_KEY_SIZE : nat := 294.
Definition DFU_KEY_SIZE : nat := 32.
Definition DFU_SIG_SIZE : nat := 256.
Definition DFU_VERSION_LEN : nat := 20.

Record FlashTable := mkFT {
  ft_base : Z;
  ft_size : Z;
  ft_xip_base : Z;
  ft_flags : Z;
}.

Record ImageHeaderEnc := mkImg {
  ih_length : Z;
  ih_blksize : Z;
  ih_flags : Z;
  ih_key : list Z;
  ih_sig : list Z;
  ih_ver : list Z;
  ih_reserved : list Z;
}.

(** [size_of] the two structures, which the source asserts. *)
Definition sizeof_FlashTable : nat := 16.
Definition sizeof_ImageHeaderEnc : nat := 512.

Definition SIGKEY_OFFSET : nat := 4 + DFU_FLASH_PARTITION * sizeof_FlashTable.
Definition SEC_RESERVED_SIZE : nat := 4096 - (SIGKEY_OFFSET + DFU_SIG_KEY_SIZE).

Record SecConfiguration := mkSec {
  sc_magic : Z;
  sc_ftab : list FlashTable;
  sc_sig_pub_key : list Z;
  sc_reserved : list Z;
  sc_imgs : list ImageHeaderEnc;
  sc_running_imgs : list Z;
}.

(** [offset_of!(SecConfiguration, imgs)] *)
Definition imgs_offset : nat := 4 + DFU_FLASH_PARTITION * sizeof_FlashTable + DFU_SIG_KEY_SIZE + SEC_RESERVED_SIZE.

(** ** [as_bytes] *)

Definition ft_bytes (t : FlashTable) : list Z :=
  le_bytes 4 (ft_base t) ++ le_bytes 4 (ft_size t) ++ le_bytes 4 (ft_xip_base t) ++ le_bytes 4 (ft_flags t).

Definition img_bytes (i : ImageHeaderEnc) : list Z :=
  le_bytes 4 (ih_length i) ++ le_bytes 2 (ih_blksize i) ++ le_bytes 2 (ih_flags i) ++
  ih_key i ++ ih_sig i ++ ih_ver i ++ ih_reserved i.

Definition sec_bytes (s : SecConfiguration) : list Z :=
  le_bytes 4 (sc_magic s) ++ concat (ft_bytes <$> sc_ftab s) ++ sc_sig_pub_key s ++ sc_reserved s ++
  concat (img_bytes <$> sc_imgs s) ++ concat (le_bytes 4 <$> sc_running_imgs s).

(** ** [sec.as_mut_bytes().fill(0xFF)] *)

Definition erased (n : nat) : list Z := replicate n 0xFF.

Definition erased_ft : FlashTable := mkFT 0xFFFFFFFF 0xFFFFFFFF 0xFFFFFFFF 0xFFFFFFFF.

Definition erased_img : ImageHeaderEnc :=
  mkImg 0xFFFFFFFF 0xFFFF 0xFFFF (erased DFU_KEY_SIZE) (erased DFU_SIG_SIZE) (erased DFU_VERSION_LEN)
    (erased (256 - DFU_KEY_SIZE - 8 - DFU_VERSION_LEN)).

Definition erased_sec : SecConfiguration :=
  mkSec 0xFFFFFFFF (replicate DFU_FLASH_PARTITION erased_ft) (erased DFU_SIG_KEY_SIZE) (erased SEC_RESERVED_SIZE)
    (replicate IMG_COUNT erased_img) (replicate CORE_MAX 0xFFFFFFFF).

(** ** [build_ftab] *)

(** [for &(slot, base, size) in images] *)
Definition put_image (ftab : list FlashTable) (image : nat * Z * Z) : list FlashTable :=
  let '(slot, base, size) := image in
  if decide (slot < DFU_FLASH_PARTITION)%nat then <[slot := mkFT base size 0 0]> ftab else ftab.

Definition fill_sec (ftab_base loader_flash_src loader_xip_dest loader_size : Z) (images : list (nat * Z * Z))
  : SecConfiguration :=
  let sec := erased_sec in
  let ftab := <[0%nat := mkFT ftab_base FTAB_SIZE 0 0]> (sc_ftab sec) in
  let ftab := <[DFU_FLASH_IMG_BL := mkFT loader_flash_src loader_size loader_xip_dest 0]> ftab in
  let ftab := foldl put_image ftab images in
  let imgs := alter (λ img, mkImg loader_size 0 0 (ih_key img) (ih_sig img) (ih_ver img) (ih_reserved img))
                DFU_FLASH_IMG_IDX_BL (sc_imgs sec) in
  let running_img_ptr := wrap 32 (ftab_base + Z.of_nat imgs_offset +
                           Z.of_nat DFU_FLASH_IMG_IDX_BL * Z.of_nat sizeof_ImageHeaderEnc) in
  mkSec SEC_CONFIG_MAGIC ftab (sc_sig_pub_key sec) (sc_reserved sec) imgs
    (<[CORE_BL := running_img_ptr]> (sc_running_imgs sec)).

Definition build_ftab (ftab_base loader_flash_src loader_xip_dest loader_size : Z) (images : list (nat * Z * Z))
  : exec (list Z) :=
  let sec := fill_sec ftab_base loader_flash_src loader_xip_dest loader_size images in
  copy_at (replicate (Z.to_nat FTAB_SIZE) 0xFF) 0 (sec_bytes sec).

(** * The layout *)

Lemma length_ft_bytes t : length (ft_bytes t) = 16%nat.
Proof. unfold ft_bytes. len. Qed.

(** The entry of a slot of the table. *)
Definition slot_entry (images : list (nat * Z * Z)) (ftab_base src dest size : Z) (slot : nat) : option FlashTable :=
  sc_ftab (fill_sec ftab_base src dest size images) !! slot.

Lemma put_images_length images ftab : length (foldl put_image ftab images) = length ftab.
Proof.
  revert ftab. induction images as [|[[s b] z] images IH]; intros ftab; cbn [foldl]; [done|].
  rewrite IH. unfold put_image. case_decide; [apply length_insert|done].
Qed.

Definition img_size_ok (i : ImageHeaderEnc) : Prop := length (img_bytes i) = 512%nat.

Lemma concat_length {X} (f : X → list Z) n l :
  Forall (λ x, length (f x) = n) l → length (concat (f <$> l)) = (n * length l)%nat.
Proof. induction 1 as [|x l Hx _ IH]; [cbn; lia|]. cbn [fmap list_fmap concat length]. rewrite length_app, Hx, IH. lia. Qed.

Lemma fill_imgs_ok ftab_base src dest size images :
  Forall img_size_ok (sc_imgs (fill_sec ftab_base src dest size images)) ∧
  length (sc_imgs (fill_sec ftab_base src dest size images)) = 14%nat.
Proof.
  unfold fill_sec, erased_sec, img_size_ok. cbn [sc_imgs]. split; [|by rewrite length_alter, length_replicate].
  apply Forall_alter; [apply Forall_replicate; reflexivity|]. intros i _ H. revert H. unfold img_bytes. cbn. rewrite !length_app. cbn. lia.
Qed.

(** The structure has the size and the offsets that the source asserts. *)
Lemma length_sec_bytes ftab_base src dest size images :
  Z.of_nat (length (sec_bytes (fill_sec ftab_base src dest size images))) = 11280.
Proof.
  destruct (fill_imgs_ok ftab_base src dest size images) as [Hi Hl].
  unfold sec_bytes. rewrite !length_app, length_le_bytes.
  rewrite (concat_length ft_bytes 16) by (apply Forall_true; intros; apply length_ft_bytes).
  rewrite (concat_length img_bytes 512) by exact Hi. rewrite Hl.
  rewrite (concat_length (le_bytes 4) 4) by (apply Forall_true; intros; apply length_le_bytes).
  unfold fill_sec. cbn [sc_ftab sc_sig_pub_key sc_reserved sc_running_imgs].
  rewrite put_images_length, !length_insert. unfold erased_sec, erased. cbn [sc_ftab sc_sig_pub_key sc_reserved sc_running_imgs].
  rewrite !length_replicate. vm_compute. reflexivity.
Qed.

Lemma build_ftab_ok ftab_base src dest size images :
  build_ftab ftab_base src dest size images =
    Ret (sec_bytes (fill_sec ftab_base src dest size images) ++ replicate (Z.to_nat 9200) 0xFF).
Proof.
  pose proof (length_sec_bytes ftab_base src dest size images) as Hl.
  unfold build_ftab. rewrite copy_at_0 by (rewrite length_replicate; unfold FTAB_SIZE; lia).
  rewrite drop_replicate. do 3 f_equal. unfold FTAB_SIZE. lia.
Qed.

Lemma build_ftab_app ftab_base src dest size images l :
  build_ftab ftab_base src dest size images = Ret l →
  ∃ pad, l = sec_bytes (fill_sec ftab_base src dest size images) ++ pad.
Proof.
  rewrite build_ftab_ok. generalize (replicate (Z.to_nat 9200) 255). intros pad [= <-]. by exists pad.
Qed.
