(* ===== verification/Boot.v ===== *)
(** The bootloader ([firmware/bootloader/src/main.rs]): it reads the flash table
    the host wrote, parses the images of the two slots, chooses one, copies its
    segments to their places and jumps to the kernel.

    Flash and RAM are one memory, as the processor sees them. The image that is
    parsed lies in that memory, so every step of the segment loop reads it as it is
    then. [ptr::copy] and [ptr::write_bytes] have the meaning [Memfns] proves of the
    firmware's functions. The messages on the serial line and the cache registers
    are left out. *)

From S2P Require Import Prelude Memfns Places PlacesBuild PlacesProps Ftab.

Open Scope Z_scope.

Definition FTAB_ADDR : Z := 0x12000000.
Definition FTAB_SLOT_A : Z := 14.
Definition FTAB_SLOT_B : Z := 15.

(** [usize] on the device. *)
Definition USIZE : Z := 32.

(** [ptr::read_volatile(addr as *const u32)] *)
Definition read_word (m : Mem) (addr : Z) : Z := le_val (bytes_at m addr 4).

Definition read_ftab_slot (m : Mem) (slot : Z) : Z * Z :=
  let entry_addr := FTAB_ADDR + 4 + slot * 16 in
  (read_word m entry_addr, read_word m (entry_addr + 4)).

(** [core::slice::from_raw_parts(base, size)] *)
Definition raw_parts (m : Mem) (base size : Z) : list Z := bytes_at m base (Z.to_nat size).

Definition try_parse_slot (m : Mem) (slot : Z) : exec (option PlacesImage) :=
  let '(base, size) := read_ftab_slot m slot in
  if decide (base = 0xFFFFFFFF ∨ size = 0 ∨ size = 0xFFFFFFFF) then Ret None else
  let! r := parse USIZE (raw_parts m base size) in
  match r with
  | Ok img => Ret (Some img)
  | Err _ => Ret None
  end.

Inductive Halt :=
  | FatalBothConcerned (a b : FirmwareState)
  | FatalNoFirmware
  | BadPlaces (e : ParseError).

Inductive BootOutcome :=
  | Halted (why : Halt)
  | Jump (entry : Z) (m : Mem).

(** The slot, or the reason to stop. *)
Definition select_slot (m : Mem) : exec (result Slot Halt) :=
  let! slot_a := try_parse_slot m FTAB_SLOT_A in
  let! slot_b := try_parse_slot m FTAB_SLOT_B in
  match slot_a, slot_b with
  | Some a, Some b =>
      let! r := select_firmware a b in
      match r with
      | Ok (slot, _) => Ret (Ok slot)
      | Err (BothConcerned a b) => Ret (Err (FatalBothConcerned a b))
      end
  | Some _, None => Ret (Ok A)
  | None, Some _ => Ret (Ok B)
  | None, None => Ret (Err FatalNoFirmware)
  end.

(** The image, read in memory [m]. *)
Definition image_in (img : PlacesImage) (m : Mem) (base size : Z) : PlacesImage :=
  mkImage (raw_parts m base size) (format_version img) (entry_point img) (partition_count img) (segment_count img)
    (tables_offset img) (checksum img) (version img) (flash_timestamp img) (state_raw img).

(** The body of [for seg in image.segments()]. *)
Definition load_segment (m : Mem) (places_base : Z) (seg : Segment) : Mem :=
  let dest := seg_dest seg in
  let src := wrap 32 (places_base + seg_file_offset seg) in
  let self_resident := bool_decide (dest = src) in
  if self_resident then m else
  let m := copied m dest src (seg_file_size seg) in
  let bss_start := wrap 32 (dest + seg_file_size seg) in
  let bss_len := zero_fill seg in
  if decide (bss_len > 0) then filled m bss_start bss_len 0 else m.

(** At most [rest] more segments, from [index]. *)
Fixpoint load_loop (rest : nat) (m : Mem) (img : PlacesImage) (base size index : Z) : exec Mem :=
  match rest with
  | O => Ret m
  | S rest =>
      let! (item, index) := segment_next USIZE (image_in img m base size) index in
      match item with
      | None => Ret m
      | Some seg => load_loop rest (load_segment m base seg) img base size index
      end
  end.

Definition bootloader_main (m : Mem) : exec BootOutcome :=
  let! selected := select_slot m in
  match selected with
  | Err why => Ret (Halted why)
  | Ok slot =>
      let selected_slot := match slot with A => FTAB_SLOT_A | B => FTAB_SLOT_B end in
      let '(places_base, places_size) := read_ftab_slot m selected_slot in
      let! r := parse USIZE (raw_parts m places_base places_size) in
      match r with
      | Err e => Ret (Halted (BadPlaces e))
      | Ok image =>
          let! m := load_loop (Z.to_nat (segment_count image)) m image places_base places_size 0 in
          Ret (Jump (entry_point image) m)
      end
  end.

(** ** The serial line *)

Definition HEX : list Z := [48; 49; 50; 51; 52; 53; 54; 55; 56; 57; 97; 98; 99; 100; 101; 102].

(** [while shift >= 0] *)
Fixpoint hex_loop (rest : nat) (buf : list Z) (val : Z) (i : nat) (shift : Z) : exec (list Z) :=
  match rest with
  | O => Ret buf
  | S rest =>
      if decide (shift >= 0) then
        let! h := idx HEX (Z.to_nat (Z.land (Z.shiftr val shift) 0xF)) in
        let! buf := set_idx buf i h in
        hex_loop rest buf val (i + 1) (shift - 4)
      else Ret buf
  end.

(** What [usart1_write_hex] sends. *)
Definition hex_text (val : Z) : exec (list Z) :=
  let! buf := set_idx (replicate 10 0) 0 48 in
  let! buf := set_idx buf 1 120 in
  hex_loop 9 buf val 2 28.

(** * Memory as bytes *)

Lemma lookup_bytes_at m a n i : (i < n)%nat → bytes_at m a n !! i = Some (m (a + Z.of_nat i)).
Proof. intros Hi. unfold bytes_at. rewrite list_lookup_fmap, lookup_seq_lt by done. done. Qed.

Lemma bytes_at_eq m a l :
  bytes_at m a (length l) = l ↔ ∀ i x, l !! i = Some x → m (a + Z.of_nat i) = x.
Proof.
  split.
  - intros E i x Hi. pose proof (lookup_lt_Some _ _ _ Hi) as Hlt. rewrite <- E in Hi. rewrite lookup_bytes_at in Hi by done. congruence.
  - intros H. apply list_eq. intros i. destruct (decide (i < length l)%nat) as [C|C].
    + destruct (lookup_lt_is_Some_2 l i C) as [x Hx]. rewrite lookup_bytes_at by done. rewrite Hx. f_equal. by apply H.
    + rewrite !lookup_ge_None_2; [done|lia|]. rewrite length_bytes_at. lia.
Qed.

(** A piece of what the memory holds. *)
Lemma bytes_at_piece m a l1 l2 l3 :
  bytes_at m a (length (l1 ++ l2 ++ l3)) = l1 ++ l2 ++ l3 → bytes_at m (a + Z.of_nat (length l1)) (length l2) = l2.
Proof.
  intros H. apply bytes_at_eq. intros i x Hi. rewrite (bytes_at_eq m a) in H.
  rewrite <- Z.add_assoc, <- Nat2Z.inj_add. apply H. rewrite lookup_app_r by lia.
  replace (length l1 + i - length l1)%nat with i by lia. apply lookup_app_l_Some. done.
Qed.

Lemma bytes_at_ext m m' a n : (∀ x, a <= x < a + Z.of_nat n → m x = m' x) → bytes_at m a n = bytes_at m' a n.
Proof. intros H. unfold bytes_at. apply list_fmap_ext. intros i x Hx. apply lookup_seq in Hx as [-> ?]. apply H. lia. Qed.

(** The memory with the bytes [l] stored at [a]. *)
Definition store_bytes (m : Mem) (a : Z) (l : list Z) : Mem :=
  λ x, if decide (a <= x < a + Z.of_nat (length l)) then nth (Z.to_nat (x - a)) l 0 else m x.

Lemma bytes_at_store m a l : bytes_at (store_bytes m a l) a (length l) = l.
Proof.
  apply bytes_at_eq. intros i x Hi. pose proof (lookup_lt_Some _ _ _ Hi). unfold store_bytes. rewrite decide_True by lia.
  replace (Z.to_nat _) with i by lia. by apply nth_lookup_Some.
Qed.

Lemma bytes_at_store_other m a l b n :
  b + Z.of_nat n <= a ∨ a + Z.of_nat (length l) <= b → bytes_at (store_bytes m a l) b n = bytes_at m b n.
Proof. intros H. apply bytes_at_ext. intros x Hx. unfold store_bytes. rewrite decide_False by lia. done. Qed.
