(* ===== verification/BootProps.v ===== *)
(** From the files the host writes to the running kernel: the bootloader finds
    the slots in the flash table, picks the right image and puts every segment
    where it belongs. *)

From S2P Require Import Prelude Memfns Places PlacesBuild PlacesProps Ftab Boot.

Open Scope Z_scope.

(** * The flash table *)

Definition ft_ok (t : FlashTable) : Prop := is_u 32 (ft_base t) ∧ is_u 32 (ft_size t).

Lemma read_word_ok m a v : is_u 32 v → bytes_at m a 4 = le_bytes 4 v → read_word m a = v.
Proof. intros Hv E. unfold read_word. rewrite E. by apply le_roundtrip. Qed.

(** Reading back an entry of the table. *)
Lemma ftab_entry m ftab_base src dest size images l (slot : nat) t :
  build_ftab ftab_base src dest size images = Ret l → bytes_at m FTAB_ADDR (length l) = l →
  sc_ftab (fill_sec ftab_base src dest size images) !! slot = Some t → ft_ok t →
  read_ftab_slot m (Z.of_nat slot) = (ft_base t, ft_size t).
Proof.
  intros Hl Hm Ht [Hb Hs]. apply build_ftab_app in Hl as [pad ->].
  remember (fill_sec ftab_base src dest size images) as sec eqn:Esec. clear Esec. unfold sec_bytes in Hm.
  destruct (concat_rows_lookup ft_bytes (sc_ftab sec) slot t) as (w & post & E & Hw); [apply length_ft_bytes|done|].
  rewrite E in Hm. unfold ft_bytes in Hm. rewrite <- !app_assoc in Hm.
  rewrite (app_assoc (le_bytes 4 (sc_magic sec)) w) in Hm. pose proof Hm as Hm'.
  apply bytes_at_piece in Hm. rewrite (app_assoc (_ ++ w)) in Hm'. apply bytes_at_piece in Hm'.
  rewrite !length_app, !length_le_bytes, Hw in Hm. rewrite !length_app, !length_le_bytes in Hm'. rewrite Hw in Hm'. unfold read_ftab_slot.
  f_equal; apply read_word_ok; try done; [rewrite <- Hm; f_equal; lia|rewrite <- Hm'; f_equal; lia].
Qed.

Lemma put_images_other images ftab slot :
  Forall (λ i, i.1.1 ≠ slot) images → foldl put_image ftab images !! slot = ftab !! slot.
Proof.
  intros H. revert ftab. induction H as [|[[s b] z] images Hs _ IH]; intros ftab; cbn [foldl]; [done|].
  rewrite IH. unfold put_image. case_decide; [by apply list_lookup_insert_ne|done].
Qed.

(** The last image given for a slot is the one in the table. *)
Lemma ftab_slot_image ftab_base src dest size l1 l2 (slot : nat) base z :
  (slot < 16)%nat → Forall (λ i, i.1.1 ≠ slot) l2 →
  sc_ftab (fill_sec ftab_base src dest size (l1 ++ (slot, base, z) :: l2)) !! slot = Some (mkFT base z 0 0).
Proof.
  intros Hs Hl. unfold fill_sec. cbn [sc_ftab]. rewrite foldl_app. cbn [foldl]. rewrite put_images_other by done.
  unfold put_image at 1. rewrite decide_True by (unfold DFU_FLASH_PARTITION; lia). apply list_lookup_insert_eq.
  rewrite put_images_length, !length_insert. cbn [sc_ftab erased_sec]. by rewrite length_replicate.
Qed.

Lemma ftab_slot_erased ftab_base src dest size images (slot : nat) :
  (slot < 16)%nat → slot ≠ O → slot ≠ DFU_FLASH_IMG_BL → Forall (λ i, i.1.1 ≠ slot) images →
  sc_ftab (fill_sec ftab_base src dest size images) !! slot = Some erased_ft.
Proof.
  intros Hs H0 H3 Hl. unfold fill_sec. cbn [sc_ftab]. rewrite put_images_other by done.
  rewrite !list_lookup_insert_ne by done. by apply lookup_replicate_2.
Qed.

(** The boot ROM computes the number of an image from the pointer to its header;
    for the pointer in the table it finds the bootloader's. *)
Lemma running_image_is_bootloader ftab_base src dest size images :
  is_u 32 ftab_base → ftab_base + 8192 < 2 ^ 32 →
  ∃ ptr, sc_running_imgs (fill_sec ftab_base src dest size images) !! CORE_BL = Some ptr ∧
    (ptr - ftab_base - 0x1000) / 512 + 2 = Z.of_nat DFU_FLASH_IMG_BL.
Proof.
  intros Hb Hlt. eexists. split; [reflexivity|].
  replace (Z.of_nat imgs_offset) with 4096 by (vm_compute; reflexivity).
  replace (Z.of_nat DFU_FLASH_IMG_IDX_BL * Z.of_nat sizeof_ImageHeaderEnc) with 512 by (vm_compute; reflexivity).
  rewrite wrap_small by (unfold is_u in *; lia).
  replace (ftab_base + 4096 + 512 - ftab_base - 0x1000) with 512 by lia. reflexivity.
Qed.

(** * Loading an image *)

Definition seg_view (s : BuilderSegment) : Segment :=
  mkSegment (bs_data s) (bs_dest s) (bs_file_offset s) (Z.of_nat (length (bs_data s))) (bs_mem_size s).

Definition mem_end (s : BuilderSegment) : Z := bs_dest s + bs_mem_size s.

Section load.
Context (b : PlacesBuilder) (base ck st : Z) (m0 : Mem).

(** The segment is executed in place, from flash. *)
Definition resident (s : BuilderSegment) : Prop := bs_dest s = base + bs_file_offset s.

(** Segments run from flash, or their memory is neither the image's nor
    another segment's. *)
Definition placement_ok : Prop :=
  base + total_size b <= 2 ^ 32 ∧ 0 <= base ∧
  (∀ i s, b_segments b !! i = Some s → resident s ∨
     mem_end s <= 2 ^ 32 ∧ (mem_end s <= base ∨ base + total_size b <= bs_dest s)) ∧
  (∀ i j s t, b_segments b !! i = Some s → b_segments b !! j = Some t → i ≠ j →
     resident s ∨ resident t ∨ mem_end s <= bs_dest t ∨ mem_end t <= bs_dest s).

Context (Hb : builder_ok b) (Hd : segs_disjoint (b_segments b)) (Hp : placement_ok).
Context (Hm0 : raw_parts m0 base (total_size b) = image_bytes b ck st).

(** The image is still as it was flashed. *)
Definition intact (m : Mem) : Prop := ∀ x, base <= x < base + total_size b → m x = m0 x.

Lemma total_size_pos : 48 <= total_size b.
Proof.
  pose proof (builder_offsets b Hb) as Ho. destruct (tables_at_ok b Ho) as [? _].
  unfold total_size, PARTITION_SIZE, SEGMENT_SIZE, FOOTER_V2_SIZE. lia.
Qed.

Lemma intact_raw m : intact m → raw_parts m base (total_size b) = image_bytes b ck st.
Proof.
  intros H. rewrite <- Hm0. apply bytes_at_ext. intros x Hx. apply H. pose proof total_size_pos. lia.
Qed.

(** The segment's bytes are in the image. *)
Lemma seg_bytes_in_image m i s :
  intact m → b_segments b !! i = Some s →
  bytes_at m (base + bs_file_offset s) (length (bs_data s)) = bs_data s ∧
  0 <= bs_file_offset s ∧ bs_file_offset s + Z.of_nat (length (bs_data s)) + 48 <= total_size b.
Proof.
  intros Hi Hs. pose proof (builder_offsets b Hb) as Ho. destruct (tables_at_ok b Ho) as [Hto Hfit].
  pose proof (Forall_lookup_1 _ _ _ _ Hfit Hs) as [Hf1 Hf2]. pose proof (region_of_built b i s Ho Hd Hs) as Hr.
  split; [|unfold total_size, PARTITION_SIZE, SEGMENT_SIZE, FOOTER_V2_SIZE; lia].
  pose proof (intact_raw m Hi) as Hraw. unfold raw_parts in Hraw. unfold image_bytes, image_body in Hraw.
  set (D := data_region (b_segments b) (tables_at b)) in *. pose proof (length_data_region b Ho) as HlD. fold D in HlD.
  assert (D = take (Z.to_nat (bs_file_offset s)) D ++ bs_data s ++ drop (length (bs_data s)) (drop (Z.to_nat (bs_file_offset s)) D)) as ED.
  { rewrite <- Hr at 1. unfold region_of. by rewrite !take_drop. }
  rewrite ED in Hraw at 1. rewrite <- !app_assoc in Hraw.
  match type of Hraw with _ = ?l => assert (Z.to_nat (total_size b) = length l) as El by (by rewrite <- Hraw, length_bytes_at) end.
  rewrite El in Hraw. apply bytes_at_piece in Hraw. rewrite <- Hraw at 2. f_equal. rewrite length_take. lia.
Qed.

Lemma load_segment_spec m i s x :
  intact m → b_segments b !! i = Some s →
  load_segment m base (seg_view s) x =
    if decide (resident s) then m x else
    if decide (bs_dest s <= x < mem_end s) then
      nth (Z.to_nat (x - bs_dest s)) (bs_data s) 0
    else m x.
Proof.
  intros Hi Hs. destruct (seg_bytes_in_image m i s Hi Hs) as (Hbytes & Hf1 & Hf2).
  pose proof Hp as (Hfit & Hbase & Hpl & _). destruct Hb as (_ & _ & _ & _ & Hsegs & _).
  pose proof (Forall_lookup_1 _ _ _ _ Hsegs Hs) as (Hdest & _ & _ & _ & Hmem).
  unfold load_segment. cbn [seg_dest seg_file_offset seg_file_size seg_mem_size seg_view].
  rewrite (wrap_small 32 (base + _)) by (unfold is_u; lia). unfold resident, mem_end.
  case_bool_decide as C; [by rewrite decide_True|]. rewrite (decide_False (P := bs_dest s = base + bs_file_offset s)) by done.
  destruct (Hpl i s Hs) as [Hr|[He Hout]]; [by destruct C|]. unfold mem_end in *. unfold zero_fill. cbn [seg_mem_size seg_file_size seg_view].
  assert (∀ y, bs_dest s <= y < bs_dest s + Z.of_nat (length (bs_data s)) →
    copied m (bs_dest s) (base + bs_file_offset s) (Z.of_nat (length (bs_data s))) y = nth (Z.to_nat (y - bs_dest s)) (bs_data s) 0) as Hcopy.
  { intros y Hy. unfold copied. rewrite decide_True by lia.
    destruct (lookup_lt_is_Some_2 (bs_data s) (Z.to_nat (y - bs_dest s))) as [v Hv]; [lia|].
    rewrite (nth_lookup_Some _ _ _ _ Hv). rewrite <- (proj1 (bytes_at_eq m _ (bs_data s)) Hbytes _ _ Hv). f_equal. lia. }
  destruct (decide (Z.of_nat (length (bs_data s)) = bs_mem_size s)) as [E|E].
  - rewrite decide_False by lia. rewrite <- E. case_decide; [by apply Hcopy|]. unfold copied. by rewrite decide_False by lia.
  - rewrite decide_True by lia. unfold is_u in Hdest. rewrite wrap_small by (unfold is_u; lia). unfold filled.
    destruct (decide (bs_dest s <= x < bs_dest s + bs_mem_size s)) as [Hx|Hx].
    + case_decide; [|apply Hcopy; lia]. by rewrite nth_overflow by lia.
    + rewrite decide_False by lia. unfold copied. by rewrite decide_False by lia.
Qed.

Lemma load_segment_intact m i s : intact m → b_segments b !! i = Some s → intact (load_segment m base (seg_view s)).
Proof.
  intros Hi Hs x Hx. rewrite (load_segment_spec m i s) by done. case_decide as Hr; [by apply Hi|].
  pose proof Hp as (_ & _ & Hpl & _). destruct (Hpl i s Hs) as [?|[_ Hout]]; [done|].
  rewrite decide_False by lia. by apply Hi.
Qed.

Definition load_all (m : Mem) (segs : list BuilderSegment) : Mem := foldl (λ m s, load_segment m base (seg_view s)) m segs.

Lemma load_loop_ok suf pre m :
  b_segments b = pre ++ suf → intact m →
  load_loop (length suf) m (built_image b ck st) base (total_size b) (Z.of_nat (length pre)) =
    Ret (load_all m suf).
Proof.
  revert pre m. induction suf as [|s suf IH]; intros pre m E Hi; cbn [length load_loop]; [done|].
  assert (image_in (built_image b ck st) m base (total_size b) = built_image b ck st) as ->.
  { unfold image_in. rewrite intact_raw by done. done. }
  assert (b_segments b !! length pre = Some s) as Hs by (rewrite E; by apply list_lookup_middle).
  unfold segment_next. rewrite decide_False by (cbn [segment_count built_image]; pose proof (lookup_lt_Some _ _ _ Hs); lia).
  rewrite (segment_built USIZE b _ _ ltac:(done) Hb (length pre) s Hd Hs). cbn [ebind]. fold (seg_view s).
  specialize (IH (pre ++ [s]) (load_segment m base (seg_view s))). rewrite length_app in IH. cbn [length] in IH.
  replace (Z.of_nat (length pre) + 1) with (Z.of_nat (length pre + 1)) by lia.
  apply IH; [by rewrite <- app_assoc|]. by eapply load_segment_intact.
Qed.
Lemma load_all_outside suf pre m x :
  b_segments b = pre ++ suf → intact m →
  (∀ s, s ∈ suf → resident s ∨ ~ (bs_dest s <= x < mem_end s)) → load_all m suf x = m x.
Proof.
  revert pre m. induction suf as [|s suf IH]; intros pre m E Hi Hx; [done|].
  assert (b_segments b !! length pre = Some s) as Hs by (rewrite E; by apply list_lookup_middle).
  unfold load_all. cbn [foldl]. fold (load_all (load_segment m base (seg_view s)) suf).
  rewrite (IH (pre ++ [s])).
  - rewrite (load_segment_spec m (length pre) s) by done. case_decide; [done|].
    destruct (Hx s) as [?|?]; [by constructor|done|]. by rewrite decide_False.
  - by rewrite <- app_assoc.
  - by eapply load_segment_intact.
  - intros t Ht. apply Hx. by constructor.
Qed.

Lemma load_all_inside suf pre m x k s :
  b_segments b = pre ++ suf → intact m → suf !! k = Some s → ~ resident s → bs_dest s <= x < mem_end s →
  load_all m suf x = nth (Z.to_nat (x - bs_dest s)) (bs_data s) 0.
Proof.
  revert pre m k. induction suf as [|t suf IH]; intros pre m k E Hi Hk Hr Hx; [done|].
  assert (b_segments b !! length pre = Some t) as Ht by (rewrite E; by apply list_lookup_middle).
  assert (intact (load_segment m base (seg_view t))) as Hi' by (by eapply load_segment_intact).
  assert (b_segments b = (pre ++ [t]) ++ suf) as E' by (by rewrite <- app_assoc).
  unfold load_all. cbn [foldl]. fold (load_all (load_segment m base (seg_view t)) suf).
  destruct k as [|k]; cbn in Hk.
  - injection Hk as ->. rewrite (load_all_outside suf (pre ++ [s])); [|done..|].
    + rewrite (load_segment_spec m (length pre) s) by done. rewrite decide_False by done. by rewrite decide_True.
    + intros u [j Hj]%list_elem_of_lookup. pose proof Hp as (_ & _ & _ & Hdis).
      destruct (Hdis (length pre) (length pre + S j)%nat s u) as [?|[?|?]]; [done| |lia|done|by left|right; lia].
      rewrite E, lookup_app_r by lia. replace (length pre + S j - length pre)%nat with (S j) by lia. done.
  - by apply (IH (pre ++ [t]) _ k).
Qed.

(** Every segment is where it belongs, the rest of its memory is zero, and nothing
    else has changed. *)
Definition loaded (m' : Mem) : Prop :=
  (∀ i s, b_segments b !! i = Some s →
     bytes_at m' (bs_dest s) (length (bs_data s)) = bs_data s ∧
     (resident s ∨ ∀ x, bs_dest s + Z.of_nat (length (bs_data s)) <= x < mem_end s → m' x = 0)) ∧
  (∀ x, (∀ s, s ∈ b_segments b → resident s ∨ ~ (bs_dest s <= x < mem_end s)) → m' x = m0 x).

Lemma load_all_loaded : loaded (load_all m0 (b_segments b)).
Proof.
  assert (intact m0) as Hi0 by done. split.
  - intros i s Hs. destruct (seg_bytes_in_image m0 i s Hi0 Hs) as (Hbytes & Hf1 & Hf2).
    destruct Hb as (_ & _ & _ & _ & Hsegs & _). pose proof (Forall_lookup_1 _ _ _ _ Hsegs Hs) as (_ & _ & _ & _ & Hmem).
    destruct (decide (resident s)) as [Hr|Hr].
    + split; [|by left]. unfold resident in Hr. rewrite <- Hbytes at 2. rewrite <- Hr. apply bytes_at_ext. intros x Hx.
      apply (load_all_outside _ []); [done|done|]. intros t [j Hj]%list_elem_of_lookup.
      pose proof Hp as (_ & _ & Hpl & _). destruct (Hpl j t Hj) as [?|[_ Hout]]; [by left|right]. lia.
    + assert (∀ x, bs_dest s <= x < mem_end s →
        load_all m0 (b_segments b) x = nth (Z.to_nat (x - bs_dest s)) (bs_data s) 0) as Hin
        by (intros x Hx; by apply (load_all_inside _ [] _ _ i)).
      split.
      * apply bytes_at_eq. intros k v Hk. pose proof (lookup_lt_Some _ _ _ Hk). rewrite Hin by (unfold mem_end; lia).
        replace (Z.to_nat _) with k by lia. by apply nth_lookup_Some.
      * right. intros x Hx. rewrite Hin by lia. by rewrite nth_overflow by lia.
  - intros x Hx. by apply (load_all_outside _ []).
Qed.
End load.

(** * Booting *)

(** An image in flash: what it was built from, where it lies, and its checksum and
    state fields. *)
Record Flashed := mkFlashed {
  fl_builder : PlacesBuilder;
  fl_base : Z;
  fl_checksum : Z;
  fl_state : Z;
}.

Definition fl_size (f : Flashed) : Z := total_size (fl_builder f).

Definition fl_rank (f : Flashed) : Z := rank (b_version (fl_builder f)) (b_flash_timestamp (fl_builder f)).

Definition fl_image (f : Flashed) : PlacesImage := built_image (fl_builder f) (fl_checksum f) (fl_state f).

(** The image is in memory [m], and its segments have memory of their own. *)
Definition flashed_in (m : Mem) (f : Flashed) : Prop :=
  builder_ok (fl_builder f) ∧ segs_disjoint (b_segments (fl_builder f)) ∧ placement_ok (fl_builder f) (fl_base f) ∧
  fl_size f < 0xFFFFFFFF ∧ is_u 32 (fl_checksum f) ∧ is_u 32 (fl_state f) ∧
  raw_parts m (fl_base f) (fl_size f) = image_bytes (fl_builder f) (fl_checksum f) (fl_state f).

(** The kernel of [f] runs: its segments are loaded and the entry point is its. *)
Definition boots (m : Mem) (f : Flashed) (o : BootOutcome) : Prop :=
  ∃ m', o = Jump (b_entry_point (fl_builder f)) m' ∧ loaded (fl_builder f) (fl_base f) m m'.

Lemma flashed_bounds m f : flashed_in m f → is_u 32 (fl_base f) ∧ is_u 32 (fl_size f) ∧ fl_base f ≠ 0xFFFFFFFF ∧ fl_size f ≠ 0.
Proof.
  intros (Hb & _ & (Hfit & H0 & _) & Hs & _). pose proof (total_size_pos _ Hb). unfold is_u, fl_size in *. lia.
Qed.

Lemma parse_flashed m f : flashed_in m f → parse USIZE (raw_parts m (fl_base f) (fl_size f)) = Ret (Ok (fl_image f)).
Proof.
  intros (Hb & _ & _ & _ & Hck & Hst & E). rewrite E. by apply parse_built.
Qed.

Lemma try_parse_flashed m f slot :
  flashed_in m f → read_ftab_slot m slot = (fl_base f, fl_size f) → try_parse_slot m slot = Ret (Some (fl_image f)).
Proof.
  intros Hf E. destruct (flashed_bounds m f Hf) as (_ & _ & H1 & H2). pose proof Hf as (_ & _ & _ & H3 & _).
  unfold try_parse_slot. rewrite E. rewrite decide_False by (unfold fl_size in *; lia). by rewrite parse_flashed.
Qed.

Lemma boot_selected m f slot :
  flashed_in m f → select_slot m = Ret (Ok slot) →
  read_ftab_slot m (match slot with A => FTAB_SLOT_A | B => FTAB_SLOT_B end) = (fl_base f, fl_size f) →
  ∃ o, bootloader_main m = Ret o ∧ boots m f o.
Proof.
  intros Hf Hsel Er. unfold bootloader_main. rewrite Hsel. cbn [ebind]. rewrite Er, parse_flashed by done. cbn [ebind].
  destruct Hf as (Hb & Hd & Hp & _ & Hck & Hst & E). cbn [fl_image built_image segment_count entry_point].
  rewrite Nat2Z.id.
  pose proof (load_loop_ok _ (fl_base f) _ _ m Hb Hd Hp E (b_segments (fl_builder f)) [] m eq_refl) as Hload.
  change (Z.of_nat (length [])) with 0 in Hload. unfold fl_size, fl_image. rewrite Hload by done. cbn [ebind]. eexists. split; [done|]. eexists. split; [done|]. by eapply load_all_loaded.
Qed.

(** The entries the host gives [build_ftab] for the two slots. *)
Definition slot_a (fa : Flashed) : nat * Z * Z := (FTAB_PLACES_SLOT_A, fl_base fa, fl_size fa).
Definition slot_b (fb : Flashed) : nat * Z * Z := (FTAB_PLACES_SLOT_B, fl_base fb, fl_size fb).

Section table.
Context (m : Mem) (ftab_base src dest size : Z) (l : list Z).

Lemma read_slot_a fa images :
  build_ftab ftab_base src dest size (slot_a fa :: images) = Ret l → bytes_at m FTAB_ADDR (length l) = l →
  flashed_in m fa → Forall (λ i, i.1.1 ≠ FTAB_PLACES_SLOT_A) images →
  read_ftab_slot m FTAB_SLOT_A = (fl_base fa, fl_size fa).
Proof.
  intros El Hl Ha Hi. destruct (flashed_bounds m fa Ha) as (A1 & A2 & _).
  pose proof (ftab_slot_image ftab_base src dest size [] images FTAB_PLACES_SLOT_A (fl_base fa) (fl_size fa)
    ltac:(unfold FTAB_PLACES_SLOT_A; lia) Hi) as Ht.
  exact (ftab_entry m _ _ _ _ _ l FTAB_PLACES_SLOT_A _ El Hl Ht (conj A1 A2)).
Qed.

Lemma read_slot_b fb images :
  build_ftab ftab_base src dest size (images ++ [slot_b fb]) = Ret l → bytes_at m FTAB_ADDR (length l) = l →
  flashed_in m fb → read_ftab_slot m FTAB_SLOT_B = (fl_base fb, fl_size fb).
Proof.
  intros El Hl Hb. destruct (flashed_bounds m fb Hb) as (B1 & B2 & _).
  pose proof (ftab_slot_image ftab_base src dest size images [] FTAB_PLACES_SLOT_B (fl_base fb) (fl_size fb)
    ltac:(unfold FTAB_PLACES_SLOT_B; lia) (Forall_nil_2 _)) as Ht.
  exact (ftab_entry m _ _ _ _ _ l FTAB_PLACES_SLOT_B _ El Hl Ht (conj B1 B2)).
Qed.

Lemma read_slot_b_erased images :
  build_ftab ftab_base src dest size images = Ret l → bytes_at m FTAB_ADDR (length l) = l →
  Forall (λ i, i.1.1 ≠ FTAB_PLACES_SLOT_B) images →
  read_ftab_slot m FTAB_SLOT_B = (0xFFFFFFFF, 0xFFFFFFFF).
Proof.
  intros El Hl Hi.
  pose proof (ftab_slot_erased ftab_base src dest size images FTAB_PLACES_SLOT_B ltac:(unfold FTAB_PLACES_SLOT_B; lia)
    ltac:(discriminate) ltac:(discriminate) Hi) as Ht.
  refine (ftab_entry m _ _ _ _ _ l FTAB_PLACES_SLOT_B _ El Hl Ht _). split; const_u.
Qed.
End table.

Lemma select_two m fa fb :
  flashed_in m fa → flashed_in m fb →
  read_ftab_slot m FTAB_SLOT_A = (fl_base fa, fl_size fa) → read_ftab_slot m FTAB_SLOT_B = (fl_base fb, fl_size fb) →
  ∃ r, select_firmware (fl_image fa) (fl_image fb) = r ∧
    select_slot m = let! r := r in
      match r with Ok (slot, _) => Ret (Ok slot) | Err (BothConcerned a b) => Ret (Err (FatalBothConcerned a b)) end.
Proof.
  intros Ha Hb Ea Eb. eexists. split; [done|]. unfold select_slot.
  rewrite (try_parse_flashed m fa), (try_parse_flashed m fb) by done. done.
Qed.

(** C11: what the host flashes is what runs. The flash table is the one
    [build_ftab] makes for two images, the images are as [PlacesBuilder::build] wrote
    them, but for their state fields, and their segments have memory of their
    own. Then the bootloader starts an image whose state is [Default], of the
    two the one with the higher version and then the later time stamp: it jumps to
    its entry point with every segment at its address, its zero-initialised memory
    zero (but for segments run in place), and no other byte of memory changed. It
    stops, naming both states, exactly when neither image is bootable. *)
Theorem flash_then_boot (m : Mem) (fa fb : Flashed) (ftab_base src dest size : Z) (l : list Z) :
  build_ftab ftab_base src dest size [slot_a fa; slot_b fb] = Ret l → bytes_at m FTAB_ADDR (length l) = l →
  flashed_in m fa → flashed_in m fb →
  fl_checksum fa = image_checksum (fl_builder fa) → fl_checksum fb = image_checksum (fl_builder fb) →
  let sa := decode_stored (fl_state fa) in
  let sb := decode_stored (fl_state fb) in
  ∃ o, bootloader_main m = Ret o ∧
    ((sa = Default ∧ (sb = Default → fl_rank fb <= fl_rank fa) ∧ boots m fa o) ∨
     (sb = Default ∧ (sa = Default → fl_rank fa < fl_rank fb) ∧ boots m fb o) ∨
     (sa ≠ Default ∧ sb ≠ Default ∧ o = Halted (FatalBothConcerned sa sb))).
Proof.
  intros El Hl Ha Hb Ca Cb. cbv zeta.
  pose proof (read_slot_a m _ _ _ _ l fa [slot_b fb] El Hl Ha ltac:(repeat constructor; discriminate)) as Ea.
  pose proof (read_slot_b m _ _ _ _ l fb [slot_a fa] El Hl Hb) as Eb.
  destruct (select_two m fa fb Ha Hb Ea Eb) as (r & Er & Es).
  pose proof Ha as ((_ & Va & Ta & _) & _). pose proof Hb as ((_ & Vb & Tb & _) & _).
  assert (firmware_state (fl_image fa) = Ret (decode_stored (fl_state fa))) as Fa by (unfold fl_image; rewrite Ca; apply state_built).
  assert (firmware_state (fl_image fb) = Ret (decode_stored (fl_state fb))) as Fb by (unfold fl_image; rewrite Cb; apply state_built).
  destruct (select_firmware_best _ _ _ _ Fa Fb Va Vb Ta Tb) as (o & Eo & Ho).
  rewrite <- Er, Eo in Es. cbn [ebind] in Es. destruct o as [[[|] reason]|[x y]].
  - destruct (boot_selected m fa A Ha Es Ea) as (o & Ho' & Hboots). exists o. split; [exact Ho'|]. left.
    destruct Ho as (H1 & H2 & _). exact (conj H1 (conj H2 Hboots)).
  - destruct (boot_selected m fb B Hb Es Eb) as (o & Ho' & Hboots). exists o. split; [exact Ho'|]. right. left.
    destruct Ho as (H1 & H2 & _). exact (conj H1 (conj H2 Hboots)).
  - destruct Ho as (-> & -> & Hsa & Hsb). eexists. split; [unfold bootloader_main; rewrite Es; reflexivity|].
    right. right. exact (conj Hsa (conj Hsb eq_refl)).
Qed.

(** An image alone in the flash table is started. *)
Lemma lone_image_boots (m : Mem) (fa : Flashed) (ftab_base src dest size : Z) (l : list Z) :
  build_ftab ftab_base src dest size [slot_a fa] = Ret l → bytes_at m FTAB_ADDR (length l) = l → flashed_in m fa →
  ∃ o, bootloader_main m = Ret o ∧ boots m fa o.
Proof.
  intros El Hl Ha. pose proof (read_slot_a m _ _ _ _ l fa [] El Hl Ha (Forall_nil_2 _)) as Ea.
  apply (boot_selected m fa A); [done| |done]. unfold select_slot. rewrite (try_parse_flashed m fa) by done. cbn [ebind].
  unfold try_parse_slot.
  rewrite (read_slot_b_erased m _ _ _ _ l [slot_a fa] El Hl ltac:(repeat constructor; discriminate)).
  rewrite decide_True by (by left). done.
Qed.

(** A lone image is started without a look at its state. When the flash table
    names an image for slot A only, the bootloader starts it also when its checksum
    is wrong or a concern has been recorded: the format says that only an image
    whose state is [Default] is bootable, but the state is only computed to choose
    between two. *)
Theorem lone_image_boots_unchecked (m : Mem) (fa : Flashed) (ftab_base src dest size : Z) (l : list Z) :
  build_ftab ftab_base src dest size [slot_a fa] = Ret l → bytes_at m FTAB_ADDR (length l) = l → flashed_in m fa →
  (fl_checksum fa ≠ image_checksum (fl_builder fa) → firmware_state (fl_image fa) = Ret IntegrityCompromised) ∧
  ∃ o, bootloader_main m = Ret o ∧ boots m fa o.
Proof.
  intros El Hl Ha. pose proof (read_slot_a m _ _ _ _ l fa [] El Hl Ha (Forall_nil_2 _)) as Ea. split.
  - intros Hne. unfold firmware_state, fl_image, checksum_valid. cbn [format_version built_image pi_data checksum].
    rewrite decide_True by done. rewrite decide_False by done. rewrite decide_True by done.
    unfold image_bytes. rewrite checksum_v2_ok by len. cbn [ebind]. rewrite bool_decide_eq_false_2; [done|].
    intros E. apply Hne. symmetry. exact E.
  - by eapply lone_image_boots.
Qed.

(** * A device with two images *)

(** The sample image at the start of the flash after the table, and a newer one. *)
Definition newer_builder : PlacesBuilder :=
  mkBuilder 0x10000200 (1, 5, 0) 1700000000 [] [mkBSeg 0x20000100 0 [4; 4] 8].

Definition device_a : Flashed := mkFlashed sample_builder 0x12005000 (image_checksum sample_builder) STATE_DEFAULT_RAW.
Definition device_b : Flashed := mkFlashed newer_builder 0x12105000 (image_checksum newer_builder) STATE_DEFAULT_RAW.

Definition fl_bytes (f : Flashed) : list Z := image_bytes (fl_builder f) (fl_checksum f) (fl_state f).

(** Flash that holds a table and the images. *)
Definition flash (ftab : list Z) (fs : list Flashed) : Mem :=
  foldl (λ m f, store_bytes m (fl_base f) (fl_bytes f)) (store_bytes (λ _, 0xFF) FTAB_ADDR ftab) fs.

Lemma flashed_intro m b base ck st :
  builder_ok b → segs_disjoint (b_segments b) → placement_ok b base → total_size b < 0xFFFFFFFF →
  is_u 32 ck → is_u 32 st → bytes_at m base (length (image_bytes b ck st)) = image_bytes b ck st →
  flashed_in m (mkFlashed b base ck st).
Proof.
  intros Hb Hd Hp Ht Hck Hst E. split_and!; try done. unfold raw_parts, fl_size. cbn [fl_builder fl_base fl_checksum fl_state].
  rewrite <- (length_image_bytes b ck st (builder_offsets b Hb)), Nat2Z.id. exact E.
Qed.

Lemma sample_placement : placement_ok sample_builder 0x12005000.
Proof.
  unfold placement_ok, resident, mem_end. split; [by vm_compute|]. split; [done|]. split.
  - intros i s Hi. destruct i as [|[|?]]; try done; cbn in Hi; injection Hi as <-; [by left|right].
    split; [by vm_compute|right; by vm_compute].
  - intros i j s t Hi Hj Hne. destruct i as [|[|?]], j as [|[|?]]; try done; cbn in Hi, Hj; injection Hi as <-; injection Hj as <-; [by left|by right; left].
Qed.

Lemma newer_ok : builder_ok newer_builder ∧ segs_disjoint (b_segments newer_builder) ∧ placement_ok newer_builder 0x12105000.
Proof.
  split_and!.
  - unfold builder_ok, part_ok, bseg_ok. split_and!; try const_u; try done. repeat constructor; try const_u; done.
  - intros i j s t Hi Hj Hne. destruct i as [|?], j as [|?]; done.
  - unfold placement_ok, resident, mem_end. split; [by vm_compute|]. split; [done|]. split.
    + intros i s Hi. destruct i as [|?]; [|done]. cbn in Hi. injection Hi as <-. right. split; [by vm_compute|right; by vm_compute].
    + intros i j s t Hi Hj Hne. destruct i as [|?], j as [|?]; done.
Qed.

Definition device_images : list (nat * Z * Z) := [slot_a device_a; slot_b device_b].
Definition device_ftab : list Z := sec_bytes (fill_sec FTAB_ADDR 0x12005000 0x20040000 6 device_images) ++ replicate (Z.to_nat 9200) 0xFF.
Definition device : Mem := flash device_ftab [device_a; device_b].

Lemma length_device_ftab : Z.of_nat (length device_ftab) = 20480.
Proof. unfold device_ftab. rewrite length_app, length_replicate. pose proof (length_sec_bytes FTAB_ADDR 0x12005000 0x20040000 6 device_images). lia. Qed.

Lemma length_fl_bytes f : builder_ok (fl_builder f) → Z.of_nat (length (fl_bytes f)) = fl_size f.
Proof. intros H. apply length_image_bytes. by apply builder_offsets. Qed.

Lemma device_ftab_read : bytes_at device FTAB_ADDR (length device_ftab) = device_ftab.
Proof.
  pose proof length_device_ftab as Hl. unfold device, flash. cbn [foldl].
  rewrite bytes_at_store_other by (left; rewrite Hl; by vm_compute).
  rewrite bytes_at_store_other by (left; rewrite Hl; by vm_compute). apply bytes_at_store.
Qed.

Lemma device_a_flashed : flashed_in device device_a.
Proof.
  destruct sample_builder_ok as [Hb Hd]. pose proof (length_fl_bytes device_a Hb) as Hl.
  apply flashed_intro; [done|done|apply sample_placement|by vm_compute|apply crc32_u32|const_u|].
  unfold device, flash. cbn [foldl].
  change (image_bytes sample_builder (image_checksum sample_builder) STATE_DEFAULT_RAW) with (fl_bytes device_a).
  rewrite bytes_at_store_other by (left; rewrite Hl; by vm_compute). apply (bytes_at_store _ (fl_base device_a)).
Qed.

Lemma device_b_flashed : flashed_in device device_b.
Proof.
  destruct newer_ok as (Hb & Hd & Hp).
  apply flashed_intro; [done|done|done|by vm_compute|apply crc32_u32|const_u|].
  apply (bytes_at_store _ (fl_base device_b)).
Qed.

Lemma flash_then_boot_witness : ∃ o, bootloader_main device = Ret o ∧ boots device device_b o.
Proof.
  destruct (flash_then_boot device device_a device_b FTAB_ADDR 0x12005000 0x20040000 6 device_ftab) as (o & E & H).
  - apply build_ftab_ok.
  - apply device_ftab_read.
  - apply device_a_flashed.
  - apply device_b_flashed.
  - reflexivity.
  - reflexivity.
  - exists o. split; [exact E|]. destruct H as [(_ & H & _)|[(_ & _ & H)|(H & _)]].
    + specialize (H eq_refl). vm_compute in H. destruct (H eq_refl).
    + exact H.
    + destruct (H eq_refl).
Defined.

(** The same device with only the first image, its checksum field wrong. *)
Definition lone_a : Flashed := mkFlashed sample_builder 0x12005000 0 STATE_DEFAULT_RAW.
Definition lone_ftab : list Z := sec_bytes (fill_sec FTAB_ADDR 0x12005000 0x20040000 6 [slot_a lone_a]) ++ replicate (Z.to_nat 9200) 0xFF.
Definition lone_device : Mem := flash lone_ftab [lone_a].

Lemma lone_ftab_read : bytes_at lone_device FTAB_ADDR (length lone_ftab) = lone_ftab.
Proof.
  assert (Z.of_nat (length lone_ftab) = 20480) as Hl.
  { unfold lone_ftab. rewrite length_app, length_replicate. pose proof (length_sec_bytes FTAB_ADDR 0x12005000 0x20040000 6 [slot_a lone_a]). lia. }
  unfold lone_device, flash. cbn [foldl]. rewrite bytes_at_store_other by (left; rewrite Hl; by vm_compute). apply bytes_at_store.
Qed.

Lemma lone_a_flashed : flashed_in lone_device lone_a.
Proof.
  destruct sample_builder_ok as [Hb Hd].
  apply flashed_intro; [done|done|apply sample_placement|by vm_compute|const_u|const_u|].
  apply (bytes_at_store _ (fl_base lone_a)).
Qed.

Lemma lone_image_boots_unchecked_witness :
  firmware_state (fl_image lone_a) = Ret IntegrityCompromised ∧ ∃ o, bootloader_main lone_device = Ret o ∧ boots lone_device lone_a o.
Proof.
  destruct (lone_image_boots_unchecked lone_device lone_a FTAB_ADDR 0x12005000 0x20040000 6 lone_ftab) as [H1 H2].
  - apply build_ftab_ok.
  - apply lone_ftab_read.
  - apply lone_a_flashed.
  - split; [apply H1; vm_compute; discriminate|exact H2].
Defined.

(** ** The numbers on the serial line *)

Lemma hex_digit val shift : ∃ h, idx HEX (Z.to_nat (Z.land (Z.shiftr val shift) 0xF)) = Ret h ∧ h = nth (Z.to_nat (Z.land (Z.shiftr val shift) 0xF)) HEX 0.
Proof.
  destruct (idx_lt HEX (Z.to_nat (Z.land (Z.shiftr val shift) 0xF))) as (h & Hl & E).
  { change 0xF with (Z.ones 4). rewrite Z.land_ones by done. cbn. pose proof (Z.mod_pos_bound (Z.shiftr val shift) (2 ^ 4)). lia. }
  exists h. split; [done|]. symmetry. by apply nth_lookup_Some.
Qed.

(** [usart1_write_hex] stays inside its buffer and sends the eight hexadecimal
    digits of the value, the most significant first. *)
Lemma hex_text_ok val :
  hex_text val = Ret (48 :: 120 :: ((λ shift, nth (Z.to_nat (Z.land (Z.shiftr val shift) 0xF)) HEX 0) <$> [28; 24; 20; 16; 12; 8; 4; 0])).
Proof.
  unfold hex_text. cbn [replicate set_idx]. rewrite !set_idx_ok by (cbn; lia). cbn [ebind insert list_insert].
  rewrite set_idx_ok by (cbn; lia). cbn [ebind list_insert hex_loop].
  do 8 (rewrite decide_True by done;
    match goal with |- context [idx HEX (Z.to_nat (Z.land (Z.shiftr val ?s) 0xF))] => destruct (hex_digit val s) as (? & -> & ->) end;
    cbn [ebind]; rewrite set_idx_ok by (cbn; lia); cbn [ebind insert list_insert hex_loop Nat.add];
    match goal with |- context [hex_loop _ _ _ _ (?x - 4)] => let v := eval vm_compute in (x - 4) in change (x - 4) with v | _ => idtac end).
  reflexivity.
Qed.
