(* ===== verification/BTree.v ===== *)
(** [BTreeMap] and [slice::sort_by] of the Rust library, as the host's build tool
    uses them: a map is an association list in the order of its keys, so that
    iterating over it is iterating over the list; sorting is stable. *)

From stdpp Require Export sorting strings.
From S2P Require Import Prelude.
From Stdlib Require Import String Ascii.

(** * Ordered keys: Rust's [Ord] *)

Class Ord (K : Type) := {
  cmp : K → K → comparison;
  cmp_eq : ∀ a b, cmp a b = Eq → a = b;
  cmp_refl : ∀ a, cmp a a = Eq;
  cmp_antisym : ∀ a b, cmp b a = CompOpp (cmp a b);
  cmp_trans : ∀ a b c, cmp a b = Lt → cmp b c = Lt → cmp a c = Lt;
}.

#[export] Instance Ord_Z : Ord Z.
Proof.
  refine {| cmp := Z.compare |}; [apply Z.compare_eq|apply Z.compare_refl|intros; apply Z.compare_antisym|].
  intros a b c. rewrite !Z.compare_lt_iff. apply Z.lt_trans.
Defined.

Lemma ascii_compare_trans a b c : Ascii.compare a b = Lt → Ascii.compare b c = Lt → Ascii.compare a c = Lt.
Proof. unfold Ascii.compare. rewrite !N.compare_lt_iff. apply N.lt_trans. Qed.

Lemma string_compare_trans a b c : String.compare a b = Lt → String.compare b c = Lt → String.compare a c = Lt.
Proof.
  revert b c. induction a as [|x a IH]; intros [|y b] [|z c]; try done. cbn.
  destruct (Ascii.compare x y) eqn:E1; [|..]; try done; destruct (Ascii.compare y z) eqn:E2; try done; intros H1 H2.
  - apply Ascii.compare_eq_iff in E1 as ->. rewrite E2. by eapply IH.
  - apply Ascii.compare_eq_iff in E1 as ->. by rewrite E2.
  - apply Ascii.compare_eq_iff in E2 as ->. by rewrite E1.
  - by rewrite (ascii_compare_trans x y z).
Qed.

#[export] Instance Ord_string : Ord string.
Proof.
  refine {| cmp := String.compare |}; [apply String.compare_eq_iff| |intros; apply String.compare_antisym|apply string_compare_trans].
  induction a as [|c a IH]; cbn; [done|]. unfold Ascii.compare. rewrite N.compare_refl. exact IH.
Defined.

(** The derived order of a tuple: lexicographic. *)
#[export] Instance Ord_pair {K L} `{Ord K, Ord L} : Ord (K * L).
Proof.
  refine {| cmp := λ a b, match cmp a.1 b.1 with Eq => cmp a.2 b.2 | c => c end |}.
  - intros [a1 a2] [b1 b2]. cbn. destruct (cmp a1 b1) eqn:E1; try done. intros E2. f_equal; by apply cmp_eq.
  - intros [a1 a2]. cbn. by rewrite !cmp_refl.
  - intros [a1 a2] [b1 b2]. cbn. rewrite (cmp_antisym a1 b1), (cmp_antisym a2 b2). by destruct (cmp a1 b1).
  - intros [a1 a2] [b1 b2] [c1 c2]. cbn. destruct (cmp a1 b1) eqn:E1; try done; destruct (cmp b1 c1) eqn:E2; try done; intros H1 H2.
    + apply cmp_eq in E1 as ->. rewrite E2. by eapply cmp_trans.
    + apply cmp_eq in E1 as ->. by rewrite E2.
    + apply cmp_eq in E2 as ->. by rewrite E1.
    + by rewrite (cmp_trans a1 b1 c1).
Defined.

(** * BTreeMap *)

Definition BTree (K V : Type) : Type := list (K * V).

Section btree.
Context {K V : Type} `{Ord K}.
Implicit Types m : BTree K V.

(** [map.insert(k, v)] *)
Fixpoint bt_insert (k : K) (v : V) (m : BTree K V) : BTree K V :=
  match m with
  | [] => [(k, v)]
  | (k', v') :: m' =>
      match cmp k k' with
      | Lt => (k, v) :: m
      | Eq => (k, v) :: m'
      | Gt => (k', v') :: bt_insert k v m'
      end
  end.

(** [map.get(&k)] *)
Fixpoint bt_get (k : K) (m : BTree K V) : option V :=
  match m with
  | [] => None
  | (k', v') :: m' => match cmp k k' with Eq => Some v' | _ => bt_get k m' end
  end.

(** [map.entry(k).or_insert(v)], the map afterwards *)
Definition bt_or_insert (k : K) (v : V) (m : BTree K V) : BTree K V :=
  match bt_get k m with Some _ => m | None => bt_insert k v m end.

(** [map.retain(p)] *)
Definition bt_retain (p : K → V → bool) (m : BTree K V) : BTree K V := base.filter (λ kv, p kv.1 kv.2 = true) m.

Lemma bt_get_insert k v m : bt_get k (bt_insert k v m) = Some v.
Proof.
  induction m as [|[k' v'] m IH]; cbn; [by rewrite cmp_refl|].
  destruct (cmp k k') eqn:E; cbn; [by rewrite cmp_refl|by rewrite cmp_refl|by rewrite E].
Qed.

Lemma bt_get_insert_ne k k' v m : k ≠ k' → bt_get k (bt_insert k' v m) = bt_get k m.
Proof.
  intros Hne. assert (∀ v, bt_get k [(k', v)] = None) as Hskip.
  { intros w. cbn. destruct (cmp k k') eqn:E; try done. by apply cmp_eq in E. }
  induction m as [|[k2 v2] m IH]; cbn [bt_insert]; [apply Hskip|].
  destruct (cmp k' k2) eqn:E2.
  - apply cmp_eq in E2 as <-. cbn in Hskip |- *. destruct (cmp k k') eqn:E; [by apply cmp_eq in E|done|done].
  - specialize (Hskip v). cbn in Hskip |- *. destruct (cmp k k'); [done|done|done].
  - cbn. destruct (cmp k k2); [done|apply IH|apply IH].
Qed.

(** What [bt_get] finds is in the list. *)
Lemma bt_get_elem k v m : bt_get k m = Some v → (k, v) ∈ m.
Proof.
  induction m as [|[k' v'] m IH]; cbn; [done|]. destruct (cmp k k') eqn:E.
  - intros [= ->]. apply cmp_eq in E as ->. constructor.
  - intros ?. constructor. by apply IH.
  - intros ?. constructor. by apply IH.
Qed.

Lemma bt_insert_elem k v m kv : kv ∈ bt_insert k v m → kv = (k, v) ∨ kv ∈ m.
Proof.
  induction m as [|[k' v'] m IH]; cbn; [intros ?%list_elem_of_singleton; by left|].
  destruct (cmp k k'); rewrite !elem_of_cons; tauto.
Qed.

(** ** Keys are in order *)

Definition key_lt (a b : K * V) : Prop := cmp a.1 b.1 = Lt.

Definition ordered m : Prop := StronglySorted key_lt m.

Lemma bt_insert_ordered k v m : ordered m → ordered (bt_insert k v m).
Proof.
  unfold ordered. induction 1 as [|[k' v'] m Hm IH Hk]; cbn; [by repeat constructor|]. destruct (cmp k k') eqn:E.
  - apply cmp_eq in E as <-. by constructor.
  - constructor; [by constructor|]. constructor; [done|]. eapply Forall_impl; [|exact Hk]. intros [k2 v2] H2. by eapply cmp_trans.
  - constructor; [done|]. apply list.Forall_forall. rewrite list.Forall_forall in Hk. intros kv [->|Hkv]%bt_insert_elem; [|by apply Hk].
    unfold key_lt. cbn. by rewrite (cmp_antisym k k'), E.
Qed.

Lemma ordered_get k v m : ordered m → (k, v) ∈ m → bt_get k m = Some v.
Proof.
  unfold ordered. induction 1 as [|[k' v'] m Hm IH Hk]; [by intros ?%elem_of_nil|].
  intros [[= -> ->]|Hin]%elem_of_cons; cbn; [by rewrite cmp_refl|]. rewrite list.Forall_forall in Hk. specialize (Hk _ Hin). unfold key_lt in Hk. cbn in Hk.
  rewrite (cmp_antisym k' k), Hk. by apply IH.
Qed.

Lemma ordered_nodup m : ordered m → NoDup m.*1.
Proof.
  unfold ordered. induction 1 as [|[k v] m Hm IH Hk]; cbn; constructor; [|done]. intros ([k' v'] & E & Hin)%list_elem_of_fmap. cbn in E. subst k'.
  rewrite list.Forall_forall in Hk. specialize (Hk _ Hin). unfold key_lt in Hk. cbn in Hk. by rewrite cmp_refl in Hk.
Qed.
End btree.

(** * Sorting

    [sort_by] and [sort_by_key] are stable: equal elements keep their order. *)

Section sort.
Context {A : Type} (le : A → A → bool).

Fixpoint sort_insert (x : A) (l : list A) : list A :=
  match l with
  | [] => [x]
  | y :: l' => if le x y then x :: l else y :: sort_insert x l'
  end.

Definition sort_by (l : list A) : list A := foldr sort_insert [] l.

Lemma sort_insert_perm x l : sort_insert x l ≡ₚ x :: l.
Proof. induction l as [|y l IH]; cbn; [done|]. destruct (le x y); [done|]. rewrite IH. constructor. Qed.

Lemma sort_by_perm l : sort_by l ≡ₚ l.
Proof. induction l as [|x l IH]; cbn; [done|]. rewrite sort_insert_perm. by rewrite IH. Qed.

Lemma sort_insert_sorted x l :
  (∀ a b, le a b = false → le b a = true) → (∀ a b c, le a b = true → le b c = true → le a c = true) →
  StronglySorted (λ a b, le a b = true) l → StronglySorted (λ a b, le a b = true) (sort_insert x l).
Proof.
  intros Htot Htrans. induction 1 as [|y l Hl IH Hy]; cbn; [by repeat constructor|].
  destruct (le x y) eqn:E.
  - constructor; [by constructor|]. constructor; [done|]. eapply Forall_impl; [|exact Hy]. intros z Hz. by eapply Htrans.
  - constructor; [done|]. rewrite sort_insert_perm. constructor; [by apply Htot|done].
Qed.

Lemma sort_by_sorted l :
  (∀ a b, le a b = false → le b a = true) → (∀ a b c, le a b = true → le b c = true → le a c = true) →
  StronglySorted (λ a b, le a b = true) (sort_by l).
Proof. intros ??. induction l as [|x l IH]; cbn; [constructor|]. by apply sort_insert_sorted. Qed.

(** Elements that the order does not distinguish keep their order. *)
Lemma sort_by_stable (R : A → A → Prop) l :
  (∀ a b, le a b = false → le b a = true) → (∀ a b c, le a b = true → le b c = true → le a c = true) → StronglySorted R l →
  StronglySorted (λ a b, le a b = true ∧ (le b a = true → R a b)) (sort_by l).
Proof.
  intros Htot Htrans. induction 1 as [|x l Hl IH Hx]; cbn; [constructor|]. assert (Forall (R x) (sort_by l)) as Hx' by (by rewrite sort_by_perm). fold (sort_by l). clear Hx Hl. revert Hx'.
  induction IH as [|y t Ht IH Hy]; intros Hx'; cbn; [repeat constructor|]. apply Forall_cons_1 in Hx' as [Hxy Hx']. destruct (le x y) eqn:E.
  - constructor; [by constructor|]. constructor; [done|]. apply Forall_forall. intros z Hz. rewrite Forall_forall in Hy, Hx'. split; [eapply Htrans; [done|by apply Hy]|]. intros _. by apply Hx'.
  - constructor; [by apply IH|]. rewrite sort_insert_perm. constructor; [|done]. split; [by apply Htot|congruence].
Qed.

(** Without transitivity: neighbours are in order. *)
Lemma sort_insert_locally_sorted x l :
  (∀ a b, le a b = false → le b a = true) → Sorted (λ a b, le a b = true) l → Sorted (λ a b, le a b = true) (sort_insert x l).
Proof.
  intros Htot. induction 1 as [|y l Hl IH Hy]; cbn; [by repeat constructor|].
  destruct (le x y) eqn:E; [by repeat constructor|]. constructor; [done|]. destruct l as [|z l]; cbn; [constructor; by apply Htot|].
  destruct (le x z); constructor; [by apply Htot|by apply HdRel_inv in Hy].
Qed.

Lemma sort_by_locally_sorted l :
  (∀ a b, le a b = false → le b a = true) → Sorted (λ a b, le a b = true) (sort_by l).
Proof. intros Htot. induction l as [|x l IH]; cbn; [constructor|]. by apply sort_insert_locally_sorted. Qed.
End sort.

Lemma Sorted_weaken {A} (R S : A → A → Prop) l : (∀ a b, R a b → S a b) → Sorted R l → Sorted S l.
Proof. intros H. induction 1 as [|x l _ IH Hx]; constructor; [done|]. destruct Hx; constructor. by apply H. Qed.

Lemma StronglySorted_lookup {A} (R : A → A → Prop) l i j x y :
  StronglySorted R l → l !! i = Some x → l !! j = Some y → (i < j)%nat → R x y.
Proof.
  intros Hs. revert i j. induction Hs as [|z l _ IH Hz]; intros i j Hi Hj Hij; [done|]. destruct j as [|j]; [lia|]. destruct i as [|i]; cbn in *.
  - injection Hi as ->. by eapply Forall_lookup_1.
  - apply (IH i j); [done|done|lia].
Qed.
