(* ===== verification/Layout.v ===== *)
(** The memory layout of an image ([host/tfw/src/layout.rs]): every region that
    the bootloader, the kernel and the tasks ask for is put at an address of its
    place. Regions of known size are placed by [solve]; those the linker sizes are
    placed later, by the three [resolve_*deferred] calls.

    Addresses and sizes are far below [2^64], where the sums of the source do not
    wrap; an alignment of 0, for which it underflows, is a panic. The rendering of
    errors as text is left out. *)

From S2P Require Import Prelude BTree.

Open Scope Z_scope.

(** * Configuration ([config.rs]) *)

Record Mapping := mkMapping {
  mp_address : Z;
  mp_size : Z;
  mp_read : bool;
  mp_write : bool;
  mp_execute : bool;
}.

Record Place := mkPlace {
  pl_size : Z;
  pl_mappings : list Mapping;
  pl_offset : option Z;
  pl_unmapped : bool;
  pl_name : option string;
}.

Record RegionRequest := mkRequest {
  rq_place : option Place;
  rq_size : option Z;
  rq_align : option Z;
  rq_shared : option string;
  rq_execute : bool;
}.

(** A task with the tree of the tasks it depends on. *)
Inductive TaskConfig := mkTask (name : string) (priority : Z) (regions : BTree string RegionRequest) (depends_on : list TaskConfig).

Definition task_name (t : TaskConfig) : string := let '(mkTask n _ _ _) := t in n.
Definition task_priority (t : TaskConfig) : Z := let '(mkTask _ p _ _) := t in p.
Definition task_regions (t : TaskConfig) : BTree string RegionRequest := let '(mkTask _ _ r _) := t in r.
Definition depends_on (t : TaskConfig) : list TaskConfig := let '(mkTask _ _ _ d) := t in d.

(** Where the partitions of a file system come from. *)
Record FsMount := mkMount {
  fs_name : string;
  fs_source : string;
}.

Record AppConfig := mkApp {
  ac_version : option string;
  ac_places : BTree string Place;
  ac_filesystems : BTree string (list FsMount);
  ac_bootloader : option (BTree string RegionRequest);
  ac_kernel : BTree string RegionRequest;
  ac_entries : list TaskConfig;
}.

Record Allocation := mkAlloc {
  al_base : Z;
  al_size : Z;
}.

Definition RegionKey : Type := string * string.

Record Layout := mkLayout {
  ly_placed : BTree RegionKey Allocation;
  ly_deferred : BTree RegionKey RegionRequest;
  ly_acl_only : list RegionKey;
}.

(** [collect_tasks]: every task of the trees, the first of a name. *)
Fixpoint walk (task : TaskConfig) (out : BTree string TaskConfig) : BTree string TaskConfig :=
  match task with
  | mkTask name _ _ deps =>
      match bt_get name out with
      | Some _ => out
      | None =>
          (fix walk_all (deps : list TaskConfig) (out : BTree string TaskConfig) :=
             match deps with
             | [] => out
             | dep :: deps => walk_all deps (walk dep out)
             end) deps (bt_insert name task out)
      end
  end.

Definition collect_tasks (config : AppConfig) : BTree string TaskConfig :=
  foldl (λ out entry, walk entry out) [] (ac_entries config).

(** * Addresses of places *)

Definition offset_of (place : Place) : Z := default 0 (pl_offset place).

Definition fits_mapping (place : Place) (m : Mapping) : bool := bool_decide (offset_of place + pl_size place <= mp_size m).

Definition resolve_cpu_address (place : Place) (needs_execute : bool) : option Z :=
  let prefer := find (λ m, Bool.eqb (mp_execute m) needs_execute && fits_mapping place m) (pl_mappings place) in
  match prefer with
  | Some m => Some (mp_address m + offset_of place)
  | None =>
      match find (fits_mapping place) (pl_mappings place) with
      | Some m => Some (mp_address m + offset_of place)
      | None => None
      end
  end.

Definition is_cpu_mapped (place : Place) : bool :=
  negb (pl_unmapped place) && match pl_mappings place with [] => false | _ => true end.

(** [find_place_name]: the place of an address. *)
Definition address_in (place : Place) (addr : Z) (m : Mapping) : bool :=
  let start := mp_address m + offset_of place in
  bool_decide (start <= addr) && bool_decide (addr < start + pl_size place).

Definition find_place_name (config : AppConfig) (addr : Z) : option string :=
  fst <$> find (λ np, is_cpu_mapped np.2 && existsb (address_in np.2 addr) (pl_mappings np.2)) (ac_places config).

Definition place_key (place : Place) : Z := default (offset_of place) (resolve_cpu_address place false).

(** * The allocator *)

Record PlaceCursor := mkCursor {
  pc_base : Z;
  pc_cursor : Z;
  pc_end : Z;
}.

Definition CursorMap : Type := BTree Z PlaceCursor.
Definition Reservations : Type := BTree Z Z.

Definition PLCB_TRAILER_RESERVATION : Z := 1024.

Definition compute_reservations (image_places : list Place) : Reservations :=
  foldl (λ out place,
    match resolve_cpu_address place false with
    | Some _ => bt_insert (place_key place) PLCB_TRAILER_RESERVATION out
    | None => out
    end) [] image_places.

Definition cursor_end (cpu_base : Z) (place : Place) (reservations : Reservations) : Z :=
  let reserve := default 0 (bt_get (place_key place) reservations) in
  cpu_base + Z.max 0 (pl_size place - reserve).

Definition new_cursor (cpu_base : Z) (place : Place) (reservations : Reservations) : PlaceCursor :=
  mkCursor cpu_base cpu_base (cursor_end cpu_base place reservations).

Definition ensure_cursor (place : Place) (cursors : CursorMap) (reservations : Reservations) : CursorMap :=
  match resolve_cpu_address place false with
  | Some cpu_base => bt_or_insert (place_key place) (new_cursor cpu_base place reservations) cursors
  | None => cursors
  end.

(** [for pc in cursors.values_mut()] of [advance_cursors_past]. *)
Definition advance_one (alloc : Allocation) (pc : PlaceCursor) : PlaceCursor :=
  let alloc_end := al_base alloc + al_size alloc in
  if decide (pc_base pc <= al_base alloc ∧ al_base alloc < pc_end pc ∧ alloc_end > pc_cursor pc)
  then mkCursor (pc_base pc) alloc_end (pc_end pc) else pc.

Definition advance_cursors_past (placed : BTree RegionKey Allocation) (cursors : CursorMap) : CursorMap :=
  foldl (λ cursors ka, (λ kc, (kc.1, advance_one ka.2 kc.2)) <$> cursors) cursors placed.

Definition try_allocate (place : Place) (size align : Z) (needs_execute : bool) (cursors : CursorMap)
    (reservations : Reservations) : exec (option Allocation * CursorMap) :=
  match resolve_cpu_address place false with
  | None => Ret (None, cursors)
  | Some canonical_base =>
      let pk := place_key place in
      let cursors := bt_or_insert pk (new_cursor canonical_base place reservations) cursors in
      match bt_get pk cursors with
      | None => Panic
      | Some pc =>
          if decide (align = 0) then Panic else
          let aligned := Z.land (pc_cursor pc + align - 1) (Z.lnot (align - 1)) in
          let end_ := aligned + size in
          if decide (end_ > pc_end pc) then Ret (None, cursors) else
          let cursors := bt_insert pk (mkCursor (pc_base pc) end_ (pc_end pc)) cursors in
          let target_base := default canonical_base (resolve_cpu_address place needs_execute) in
          let offset := aligned - canonical_base in
          Ret (Some (mkAlloc (target_base + offset) size), cursors)
      end
  end.

Definition remaining_in_place (place : Place) (cursors : CursorMap) : Z :=
  match bt_get (place_key place) cursors with
  | Some pc => Z.max 0 (pc_end pc - pc_cursor pc)
  | None => pl_size place
  end.

Record PlaceOccupant := mkOccupant {
  oc_owner : string;
  oc_region : string;
  oc_size : Z;
}.

Definition occupants_in_place (placed : BTree RegionKey Allocation) (place : Place) : list PlaceOccupant :=
  let inside := base.filter (λ ka, (0 < al_size ka.2) ∧ existsb (address_in place (al_base ka.2)) (pl_mappings place) = true) placed in
  sort_by (λ a b, bool_decide (oc_size b <= oc_size a))
    ((λ ka, mkOccupant ka.1.1 ka.1.2 (al_size ka.2)) <$> inside).

Record OutOfSpaceDetail := mkDetail {
  od_owner : string;
  od_region : string;
  od_needed : Z;
  od_available : Z;
  od_place_name : string;
  od_place_size : Z;
  od_occupants : list PlaceOccupant;
}.

Inductive LayoutError :=
  | NoMapping (owner region : string)
  | OutOfSpace (detail : OutOfSpaceDetail)
  | DeferredNotMeasured (owner region : string)
  | SharedConflict (group field owner region : string)
  | SharedMissing (group field : string).

Definition out_of_space (owner region : string) (size : Z) (place : Place) (cursors : CursorMap)
    (placed : BTree RegionKey Allocation) : LayoutError :=
  OutOfSpace (mkDetail owner region size (remaining_in_place place cursors) (default "?"%string (pl_name place))
                (pl_size place) (occupants_in_place placed place)).

(** * [solve] *)

Definition requests_of (config : AppConfig) : list (RegionKey * RegionRequest) :=
  (match ac_bootloader config with
   | Some regions => (λ nr, (("bootloader"%string, nr.1), nr.2)) <$> regions
   | None => []
   end) ++
  ((λ nr, (("kernel"%string, nr.1), nr.2)) <$> ac_kernel config) ++
  concat ((λ ct, (λ nr, ((ct.1, nr.1), nr.2)) <$> task_regions ct.2) <$> collect_tasks config).

Record SharedGroup := mkGroup {
  sg_place : option Place;
  sg_size : option Z;
  sg_align : option Z;
  sg_members : list RegionKey;
}.

(** A field two members may not disagree on. *)
Definition merge_field {X} (same : X → X → bool) (existing req : option X) : option (option X) :=
  match req, existing with
  | None, _ => Some existing
  | Some r, None => Some (Some r)
  | Some r, Some e => if same e r then Some existing else None
  end.

Definition same_place (a b : Place) : bool := bool_decide (place_key a = place_key b).
Definition same_Z (a b : Z) : bool := bool_decide (a = b).

Definition coalesce_one (group : string) (key : RegionKey) (req : RegionRequest) (entry : SharedGroup)
  : result SharedGroup LayoutError :=
  let members := sg_members entry ++ [key] in
  match merge_field same_place (sg_place entry) (rq_place req) with
  | None => Err (SharedConflict group "place"%string key.1 key.2)
  | Some place =>
      match merge_field same_Z (sg_size entry) (rq_size req) with
      | None => Err (SharedConflict group "size"%string key.1 key.2)
      | Some size =>
          match merge_field same_Z (sg_align entry) (rq_align req) with
          | None => Err (SharedConflict group "align"%string key.1 key.2)
          | Some align => Ok (mkGroup place size align members)
          end
      end
  end.

Fixpoint coalesce (requests : list (RegionKey * RegionRequest)) (groups : BTree string SharedGroup)
  : result (BTree string SharedGroup) LayoutError :=
  match requests with
  | [] => Ok groups
  | (key, req) :: requests =>
      match rq_shared req with
      | None => coalesce requests groups
      | Some group =>
          let entry := default (mkGroup None None None []) (bt_get group groups) in
          match coalesce_one group key req entry with
          | Err e => Err e
          | Ok entry => coalesce requests (bt_insert group entry groups)
          end
      end
  end.

(** The state of the allocation loops. *)
Record SolveState := mkSolve {
  sv_placed : BTree RegionKey Allocation;
  sv_acl_only : list RegionKey;
  sv_cursors : CursorMap;
}.

Fixpoint place_groups (groups : BTree string SharedGroup) (reservations : Reservations) (s : SolveState)
  : exec (result SolveState LayoutError) :=
  match groups with
  | [] => Ret (Ok s)
  | (group_name, group) :: groups =>
      match sg_place group with
      | None => Ret (Err (SharedMissing group_name "place"%string))
      | Some place =>
          match sg_size group with
          | None => Ret (Err (SharedMissing group_name "size"%string))
          | Some size =>
              let align := default 4 (sg_align group) in
              if negb (is_cpu_mapped place) then
                place_groups groups reservations
                  (mkSolve (sv_placed s) (sv_acl_only s ++ sg_members group) (sv_cursors s))
              else
                let! (alloc, cursors) := try_allocate place size align false (sv_cursors s) reservations in
                match alloc with
                | None => Ret (Err (out_of_space ("shared:" +:+ group_name)%string group_name size place cursors (sv_placed s)))
                | Some alloc =>
                    place_groups groups reservations
                      (mkSolve (foldl (λ placed key, bt_insert key alloc placed) (sv_placed s) (sg_members group))
                         (sv_acl_only s) cursors)
                end
          end
      end
  end.


Definition fixed_le (a b : RegionKey * (Place * Z * RegionRequest)) : bool :=
  let '(_, (pa, sa, _)) := a in
  let '(_, (pb, sb, _)) := b in
  bool_decide (place_key pa < place_key pb) || bool_decide (place_key pa = place_key pb) && bool_decide (sb <= sa).

(** The private requests of known size; a request without a place is a panic. *)
Fixpoint fixed_requests (requests : list (RegionKey * RegionRequest))
  : exec (list (RegionKey * (Place * Z * RegionRequest))) :=
  match requests with
  | [] => Ret []
  | (key, req) :: requests =>
      let! rest := fixed_requests requests in
      match rq_shared req, rq_size req with
      | None, Some size =>
          match rq_place req with
          | Some place => Ret ((key, (place, size, req)) :: rest)
          | None => Panic
          end
      | _, _ => Ret rest
      end
  end.

Fixpoint place_fixed (fixed : list (RegionKey * (Place * Z * RegionRequest))) (reservations : Reservations) (s : SolveState)
  : exec (result SolveState LayoutError) :=
  match fixed with
  | [] => Ret (Ok s)
  | (key, (place, size, req)) :: fixed =>
      if negb (is_cpu_mapped place) then
        place_fixed fixed reservations (mkSolve (sv_placed s) (sv_acl_only s ++ [key]) (sv_cursors s))
      else
        let align := default 4 (rq_align req) in
        let! (alloc, cursors) := try_allocate place size align (rq_execute req) (sv_cursors s) reservations in
        match alloc with
        | None => Ret (Err (out_of_space key.1 key.2 size place cursors (sv_placed s)))
        | Some alloc => place_fixed fixed reservations (mkSolve (bt_insert key alloc (sv_placed s)) (sv_acl_only s) cursors)
        end
  end.

(** The regions the linker sizes. *)
Fixpoint defer_requests (requests : list (RegionKey * RegionRequest)) (deferred : BTree RegionKey RegionRequest)
    (acl_only : list RegionKey) : exec (BTree RegionKey RegionRequest * list RegionKey) :=
  match requests with
  | [] => Ret (deferred, acl_only)
  | (key, req) :: requests =>
      match rq_shared req, rq_size req with
      | None, None =>
          match rq_place req with
          | None => Panic
          | Some place =>
              if is_cpu_mapped place then defer_requests requests (bt_insert key req deferred) acl_only
              else defer_requests requests deferred (acl_only ++ [key])
          end
      | _, _ => defer_requests requests deferred acl_only
      end
  end.

Definition solve (config : AppConfig) (reservations : Reservations) : exec (result Layout LayoutError) :=
  let requests := requests_of config in
  match coalesce requests [] with
  | Err e => Ret (Err e)
  | Ok shared_groups =>
      let! r := place_groups shared_groups reservations (mkSolve [] [] []) in
      match r with
      | Err e => Ret (Err e)
      | Ok s =>
          let! fixed := fixed_requests requests in
          let! r := place_fixed (sort_by fixed_le fixed) reservations s in
          match r with
          | Err e => Ret (Err e)
          | Ok s =>
              let! (deferred, acl_only) := defer_requests requests [] (sv_acl_only s) in
              Ret (Ok (mkLayout (sv_placed s) deferred acl_only))
          end
      end
  end.

(** * Regions sized by the linker *)

Record Region := mkRegion {
  rg_key : RegionKey;
  rg_size : Z;
  rg_align : Z;
  rg_place : Place;
  rg_execute : bool;
}.

(** The regions to place now; code that was not measured is an error. *)
Fixpoint measured_regions (deferred : BTree RegionKey RegionRequest) (measured : BTree RegionKey Z)
    (filter : RegionKey → bool) : result (list Region) LayoutError :=
  match deferred with
  | [] => Ok []
  | (key, req) :: deferred =>
      if negb (filter key) then measured_regions deferred measured filter else
      match bt_get key measured, bool_decide (key.2 = "code"%string) with
      | None, true => Err (DeferredNotMeasured key.1 key.2)
      | size, _ =>
          let size := default 0 size in
          match measured_regions deferred measured filter with
          | Err e => Err e
          | Ok regions =>
              match rq_place req with
              | None => Ok regions
              | Some place =>
                  if negb (is_cpu_mapped place) then Ok regions
                  else Ok (mkRegion key size (default 32 (rq_align req)) place (rq_execute req) :: regions)
              end
          end
      end
  end.

Definition region_le (a b : Region) : bool :=
  bool_decide (place_key (rg_place a) < place_key (rg_place b)) ||
  bool_decide (place_key (rg_place a) = place_key (rg_place b)) && bool_decide (rg_size b <= rg_size a).

(** The base of an empty region: the cursor, so that the linker has an address. *)
Definition empty_base (r : Region) (cursors : CursorMap) : Z :=
  let canonical := default 0 (resolve_cpu_address (rg_place r) false) in
  let target := default canonical (resolve_cpu_address (rg_place r) (rg_execute r)) in
  let cursor := match bt_get (place_key (rg_place r)) cursors with Some pc => pc_cursor pc | None => canonical end in
  target + (cursor - canonical).

Fixpoint place_regions (regions : list Region) (reservations : Reservations) (cursors : CursorMap)
    (placed : BTree RegionKey Allocation) : exec (result (BTree RegionKey Allocation) LayoutError) :=
  match regions with
  | [] => Ret (Ok placed)
  | r :: regions =>
      if decide (rg_size r = 0) then
        place_regions regions reservations cursors (bt_insert (rg_key r) (mkAlloc (empty_base r cursors) 0) placed)
      else
        let! (alloc, cursors) := try_allocate (rg_place r) (rg_size r) (rg_align r) (rg_execute r) cursors reservations in
        match alloc with
        | None => Ret (Err (out_of_space (rg_key r).1 (rg_key r).2 (rg_size r) (rg_place r) cursors placed))
        | Some alloc => place_regions regions reservations cursors (bt_insert (rg_key r) alloc placed)
        end
  end.

Definition resolve_deferred_filtered (l : Layout) (measured : BTree RegionKey Z) (reservations : Reservations)
    (filter : RegionKey → bool) : exec (result Layout LayoutError) :=
  match measured_regions (ly_deferred l) measured filter with
  | Err e => Ret (Err e)
  | Ok regions =>
      let cursors := foldl (λ cursors r, ensure_cursor (rg_place r) cursors reservations) [] regions in
      let cursors := advance_cursors_past (ly_placed l) cursors in
      let! r := place_regions (sort_by region_le regions) reservations cursors (ly_placed l) in
      match r with
      | Err e => Ret (Err e)
      | Ok placed => Ret (Ok (mkLayout placed (ly_deferred l) (ly_acl_only l)))
      end
  end.

Definition is_owner (owner : string) (key : RegionKey) : bool := bool_decide (key.1 = owner).

(** The deferred regions that stay, after a call that resolved some. *)
Definition retain_deferred (keep : RegionKey → bool) (l : Layout) : Layout :=
  mkLayout (ly_placed l) (bt_retain (λ key _, keep key) (ly_deferred l)) (ly_acl_only l).

Definition then_retain (keep : RegionKey → bool) (r : exec (result Layout LayoutError)) : exec (result Layout LayoutError) :=
  let! r := r in
  match r with Err e => Ret (Err e) | Ok l => Ret (Ok (retain_deferred keep l)) end.

Definition resolve_deferred (l : Layout) (measured : BTree RegionKey Z) (reservations : Reservations) :=
  then_retain (λ key, is_owner "kernel" key || is_owner "bootloader" key)
    (resolve_deferred_filtered l measured reservations (λ key, negb (is_owner "kernel" key) && negb (is_owner "bootloader" key))).

Definition resolve_bootloader_deferred (l : Layout) (measured : BTree RegionKey Z) (reservations : Reservations) :=
  then_retain (λ key, negb (is_owner "bootloader" key))
    (resolve_deferred_filtered l measured reservations (is_owner "bootloader")).

Definition resolve_kernel_deferred (l : Layout) (measured : BTree RegionKey Z) (reservations : Reservations) :=
  then_retain (λ key, negb (is_owner "kernel" key))
    (resolve_deferred_filtered l measured reservations (is_owner "kernel")).

Definition regions_for (l : Layout) (owner : string) : list (string * Allocation) :=
  (λ ka, (ka.1.2, ka.2)) <$> base.filter (λ ka, ka.1.1 = owner) (ly_placed l).

(** [task_names]: the owners of regions, the kernel apart, in order. *)
Definition task_names (l : Layout) : list string :=
  let keys := (ly_placed l).*1 ++ (ly_deferred l).*1 ++ ly_acl_only l in
  (foldl (λ names owner, bt_insert owner tt names) [] (base.filter (λ o, o ≠ "kernel"%string) keys.*1)).*1.

(** * The order of tasks *)

(** One step of the depth of a task: one more than that of its deepest
    dependency, up to 255; unknown tasks have depth 0. The recursion goes through
    the table of tasks, so it takes fuel; without it the stack overflows. *)
Fixpoint dep_depth (fuel : nat) (name : string) (all : BTree string TaskConfig) (cache : BTree string Z)
  : option (Z * BTree string Z) :=
  match fuel with
  | O => None
  | S fuel =>
      match bt_get name cache with
      | Some d => Some (d, cache)
      | None =>
          match bt_get name all with
          | None => Some (0, bt_insert name 0 cache)
          | Some task =>
              let step (acc : option (Z * BTree string Z)) (dep : TaskConfig) :=
                match acc with
                | None => None
                | Some (best, cache) =>
                    match dep_depth fuel (task_name dep) all cache with
                    | None => None
                    | Some (d, cache) => Some (Z.max best d, cache)
                    end
                end in
              match foldl step (Some (0, cache)) (depends_on task) with
              | None => None
              | Some (max_dep, cache) =>
                  let d := Z.min 255 (max_dep + 1) in
                  Some (d, bt_insert name d cache)
              end
          end
      end
  end.

Definition dep_depths (fuel : nat) (all_tasks : BTree string TaskConfig) : option (BTree string Z) :=
  foldl (λ acc nt, match acc with
                   | None => None
                   | Some depths => match dep_depth fuel nt.1 all_tasks depths with None => None | Some (_, depths) => Some depths end
                   end) (Some []) all_tasks.

(** Work group, then depth, then name. *)
Definition entry_le (a b : string * Z * Z) : bool :=
  let '(na, pa, da) := a in
  let '(nb, pb, db) := b in
  match pa ?= pb with
  | Lt => true
  | Gt => false
  | Eq => match da ?= db with
          | Lt => true
          | Gt => false
          | Eq => match cmp na nb with Gt => false | _ => true end
          end
  end.

Definition ordered_task_names (fuel : nat) (all_tasks : BTree string TaskConfig) : option (list string) :=
  match dep_depths fuel all_tasks with
  | None => None
  | Some depths =>
      let entries := (λ nt, (nt.1, task_priority nt.2, default 0 (bt_get nt.1 depths))) <$> all_tasks in
      Some ((λ e, e.1.1) <$> sort_by entry_le entries)
  end.
