(* ===== verification/LayoutProps.v ===== *)
(** No two regions of a layout overlap: the invariant of the allocator's cursors,
    and that [solve] and the later resolutions keep it. *)

From S2P Require Import Prelude BTree Layout.

Open Scope Z_scope.

(** * Rounding up *)

Lemma land_le_r x m : 0 <= m → Z.land x m <= m.
Proof.
  intros Hm. assert (0 <= m - Z.land x m); [|lia]. rewrite Z.sub_nocarry_ldiff.
  - apply Z.ldiff_nonneg. by left.
  - apply Z.bits_inj'. intros n Hn. rewrite Z.ldiff_spec, Z.land_spec, Z.bits_0. by destruct (Z.testbit x n), (Z.testbit m n).
Qed.

Lemma ldiff_split x m : x = Z.land x (Z.lnot m) + Z.land x m.
Proof.
  rewrite <- Z.add_lor_land. replace (Z.land (Z.land x (Z.lnot m)) (Z.land x m)) with 0.
  - rewrite Z.add_0_r. apply Z.bits_inj'. intros n Hn. rewrite Z.lor_spec, !Z.land_spec, Z.lnot_spec by done.
    by destruct (Z.testbit x n), (Z.testbit m n).
  - apply Z.bits_inj'. intros n Hn. rewrite !Z.land_spec, Z.lnot_spec, Z.bits_0 by done. by destruct (Z.testbit x n), (Z.testbit m n).
Qed.

(** [(cursor + align - 1) & !(align - 1)] is not before the cursor, for any
    alignment. *)
Lemma aligned_ge c align : 0 < align → c <= Z.land (c + align - 1) (Z.lnot (align - 1)).
Proof.
  intros Ha. pose proof (ldiff_split (c + align - 1) (align - 1)). pose proof (land_le_r (c + align - 1) (align - 1)). lia.
Qed.

Lemma aligned_pow2 c k : 0 <= k → Z.land (c + 2 ^ k - 1) (Z.lnot (2 ^ k - 1)) mod 2 ^ k = 0.
Proof.
  intros Hk. rewrite <- Z.ldiff_land. replace (2 ^ k - 1) with (Z.ones k) by (rewrite Z.ones_equiv; lia).
  rewrite Z.ldiff_ones_r by done. rewrite Z.shiftl_mul_pow2 by done. apply Z_mod_mult.
Qed.

(** * Overlap *)

Definition overlap_free (a b : Allocation) : Prop :=
  al_size a = 0 ∨ al_size b = 0 ∨ al_base a + al_size a <= al_base b ∨ al_base b + al_size b <= al_base a.

Lemma overlap_free_sym a b : overlap_free a b → overlap_free b a.
Proof. unfold overlap_free. lia. Qed.

(** The allocations of a table. *)
Definition has (placed : BTree RegionKey Allocation) (a : Allocation) : Prop := ∃ k, bt_get k placed = Some a.

(** [placed'] has the allocations of [placed] and perhaps [al]. *)
Definition grows (placed : BTree RegionKey Allocation) (al : Allocation) (placed' : BTree RegionKey Allocation) : Prop :=
  ∀ b, has placed' b → b = al ∨ has placed b.

Section allocator.
(** The places of the configuration, and the bytes reserved in them. *)
Context (P : Place → Prop) (res : Reservations).

(** [p] starts at the address [pk]. *)
Definition starts_at (p : Place) (pk : Z) : Prop := P p ∧ resolve_cpu_address p false = Some pk.

(** Code and data of a place have the same addresses; places are apart, or the
    same memory under two names. *)
Definition places_ok : Prop :=
  (∀ p, P p → 0 < pl_size p ∧ resolve_cpu_address p true = resolve_cpu_address p false) ∧
  (∀ p q a b, starts_at p a → starts_at q b →
     a = b ∧ pl_size p = pl_size q ∨ a + pl_size p <= b ∨ b + pl_size q <= a).

Context (Hplaces : places_ok) (Hres : ∀ pk r, bt_get pk res = Some r → 0 <= r).

Definition limit (p : Place) (pk : Z) : Z := cursor_end pk p res.

Lemma place_key_starts p pk : resolve_cpu_address p false = Some pk → place_key p = pk.
Proof. unfold place_key. by intros ->. Qed.

Lemma limit_bounds p pk : starts_at p pk → pk <= limit p pk <= pk + pl_size p.
Proof.
  intros [Hp Hr]. unfold limit, cursor_end. rewrite (place_key_starts p pk Hr).
  assert (0 <= default 0 (bt_get pk res)) by (destruct (bt_get pk res) eqn:E; cbn; [by eapply Hres|lia]).
  pose proof (proj1 (proj1 Hplaces p Hp)). lia.
Qed.

(** Places that start at the same address have the same limit. *)
Lemma limit_same p q pk : starts_at p pk → starts_at q pk → limit p pk = limit q pk.
Proof.
  intros Hp Hq. pose proof (proj1 (proj1 Hplaces p (proj1 Hp))). pose proof (proj1 (proj1 Hplaces q (proj1 Hq))).
  destruct (proj2 Hplaces p q pk pk Hp Hq) as [[_ E]|[?|?]]; [|lia|lia].
  unfold limit, cursor_end. destruct Hp as [_ Hp], Hq as [_ Hq]. by rewrite (place_key_starts p pk Hp), (place_key_starts q pk Hq), E.
Qed.

(** An allocation lies in a place, in front of what is reserved there. *)
Definition in_place (a : Allocation) : Prop :=
  al_size a = 0 ∨ 0 < al_size a ∧ ∃ p pk, starts_at p pk ∧ pk <= al_base a ∧ al_base a + al_size a <= limit p pk.

(** A cursor is behind every allocation of its place. *)
Definition cursor_ok (placed : BTree RegionKey Allocation) (pk : Z) (pc : PlaceCursor) : Prop :=
  pc_base pc = pk ∧ (∃ p, starts_at p pk ∧ pc_end pc = limit p pk) ∧ pk <= pc_cursor pc ∧
  ∀ a, has placed a → 0 < al_size a → pk <= al_base a → al_base a < pc_end pc → al_base a + al_size a <= pc_cursor pc.

Definition cursors_ok (placed : BTree RegionKey Allocation) (cursors : CursorMap) : Prop :=
  ∀ pk pc, bt_get pk cursors = Some pc → cursor_ok placed pk pc.

(** Every place of [S] with an allocation has a cursor. *)
Definition covered (S : Z → Prop) (placed : BTree RegionKey Allocation) (cursors : CursorMap) : Prop :=
  ∀ a p pk, S pk → has placed a → 0 < al_size a → starts_at p pk → pk <= al_base a → al_base a < limit p pk →
    is_Some (bt_get pk cursors).

Definition cursors_inv (S : Z → Prop) (placed : BTree RegionKey Allocation) (cursors : CursorMap) : Prop :=
  (∀ a, has placed a → in_place a) ∧ cursors_ok placed cursors ∧ covered S placed cursors.

Lemma seed_ok S placed cursors p pk :
  S pk → starts_at p pk → cursors_inv S placed cursors →
  cursors_inv S placed (bt_or_insert pk (new_cursor pk p res) cursors) ∧
  is_Some (bt_get pk (bt_or_insert pk (new_cursor pk p res) cursors)).
Proof.
  intros HS Hp (Hin & Hc & Hcov). unfold bt_or_insert. destruct (bt_get pk cursors) as [pc|] eqn:E; [split; [split_and!|]; done|].
  rewrite bt_get_insert. split; [|by eexists]. split_and!; [done| |].
  - intros pk' pc' Hg. destruct (decide (pk' = pk)) as [->|Hne]; [|rewrite bt_get_insert_ne in Hg by done; by apply Hc].
    rewrite bt_get_insert in Hg. injection Hg as <-. unfold cursor_ok. cbn. split; [done|]. split; [by exists p|]. split; [lia|].
    intros a Ha Hs Hb He. destruct (Hcov a p pk HS Ha Hs Hp Hb He) as [? ?]. congruence.
  - intros a q qk HS' Ha Hs Hq Hb He. destruct (decide (qk = pk)) as [->|Hne]; [by rewrite bt_get_insert|].
    rewrite bt_get_insert_ne by done. by eapply Hcov.
Qed.

(** Moving a cursor past [al], which lies behind it, and adding [al]. *)
Lemma advance_ok S placed cursors pk pc q al placed' :
  cursors_inv S placed cursors → bt_get pk cursors = Some pc → starts_at q pk → pc_end pc = limit q pk →
  pc_cursor pc <= al_base al → 0 <= al_size al → al_base al + al_size al <= pc_end pc → grows placed al placed' →
  cursors_inv S placed' (bt_insert pk (mkCursor (pc_base pc) (al_base al + al_size al) (pc_end pc)) cursors).
Proof.
  intros (Hin & Hc & Hcov) Hpc Hq Hend Hcur Hsize Hfit Hgrow. pose proof (limit_bounds q pk Hq).
  destruct (Hc pk pc Hpc) as (Hbase & _ & Hpk & Hbehind).
  assert (∀ r rk, starts_at r rk → 0 < al_size al → rk <= al_base al → al_base al < limit r rk → rk = pk) as Huniq.
  { intros r rk Hr Hs Hb He. pose proof (limit_bounds r rk Hr). destruct (proj2 Hplaces r q rk pk Hr Hq) as [[? _]|[?|?]]; [done|lia|lia]. }
  split_and!.
  - intros a Ha. destruct (Hgrow a Ha) as [->|Ha']; [|by apply Hin]. unfold in_place.
    destruct (decide (al_size al = 0)); [by left|]. right. split; [lia|]. exists q, pk. split; [done|]. lia.
  - intros pk' pc' Hg. destruct (decide (pk' = pk)) as [->|Hne].
    + rewrite bt_get_insert in Hg. injection Hg as <-. unfold cursor_ok. cbn. split; [done|]. split; [by exists q|]. split; [lia|].
      intros a Ha Hs Hb He. destruct (Hgrow a Ha) as [->|Ha']; [lia|]. specialize (Hbehind a Ha' Hs Hb He). lia.
    + rewrite bt_get_insert_ne in Hg by done. destruct (Hc pk' pc' Hg) as (H1 & (r & Hr & Er) & H3 & H4). unfold cursor_ok.
      split; [done|]. split; [by exists r|]. split; [done|]. intros a Ha Hs Hb He.
      destruct (Hgrow a Ha) as [->|Ha']; [|by apply H4]. rewrite Er in He. by destruct Hne; eapply Huniq.
  - intros a r rk HS Ha Hs Hr Hb He. destruct (decide (rk = pk)) as [->|Hne]; [by rewrite bt_get_insert|].
    rewrite bt_get_insert_ne by done. destruct (Hgrow a Ha) as [->|Ha']; [|by eapply Hcov]. by destruct Hne; eapply Huniq.
Qed.

(** What a successful allocation gives: memory that nobody has. *)
Lemma try_allocate_ok S placed p size align ex cursors al cursors' :
  P p → (∀ pk, starts_at p pk → S pk) → 0 <= size → 0 < align → cursors_inv S placed cursors →
  try_allocate p size align ex cursors res = Ret (Some al, cursors') →
  al_size al = size ∧ (∀ b, has placed b → overlap_free al b) ∧
  ∀ placed', grows placed al placed' → cursors_inv S placed' cursors'.
Proof.
  intros HP HS Hsize Halign Hinv. unfold try_allocate. destruct (resolve_cpu_address p false) as [pk|] eqn:Er; [|done].
  assert (starts_at p pk) as Hp by done. rewrite (place_key_starts p pk Er).
  destruct (seed_ok S placed cursors p pk (HS pk Hp) Hp Hinv) as (Hinv' & [pc Hpc]).
  set (cs := bt_or_insert pk (new_cursor pk p res) cursors) in *. rewrite Hpc. rewrite decide_False by lia.
  set (aligned := Z.land _ _). assert (pc_cursor pc <= aligned) as Hal by (apply aligned_ge; lia).
  case_decide as Hfit; [done|].
  intros H. assert (default pk (resolve_cpu_address p ex) = pk) as Et.
  { destruct ex; [rewrite (proj2 (proj1 Hplaces p HP))|]; by rewrite Er. }
  rewrite Et in H. replace (pk + (aligned - pk)) with aligned in H by lia. injection H as <- <-.
  pose proof Hinv' as (Hin & Hc & _). destruct (Hc pk pc Hpc) as (Hbase & (q & Hq & Hend) & Hcur & Hbehind).
  pose proof (limit_bounds q pk Hq) as Hlim. split; [done|]. split.
  - intros b Hb. unfold overlap_free. cbn. destruct (Hin b Hb) as [?|(Hs & r & rk & Hr & Hlo & Hhi)]; [lia|].
    destruct (decide (size = 0)) as [|Hnz]; [by left|]. pose proof (limit_bounds r rk Hr).
    destruct (proj2 Hplaces r q rk pk Hr Hq) as [[-> _]|[?|?]]; [|lia|lia].
    rewrite (limit_same r q pk Hr Hq) in Hhi. specialize (Hbehind b Hb Hs Hlo). lia.
  - intros placed' Hgrow. apply (advance_ok S placed cs pk pc q (mkAlloc aligned size) placed'); cbn; try done; lia.
Qed.

(** Adding an empty allocation changes nothing. *)
Lemma empty_ok S placed cursors al placed' :
  al_size al = 0 → cursors_inv S placed cursors → grows placed al placed' → cursors_inv S placed' cursors.
Proof.
  intros H0 (Hin & Hc & Hcov) Hgrow. split_and!.
  - intros a Ha. destruct (Hgrow a Ha) as [->|?]; [by left|by apply Hin].
  - intros pk pc Hg. destruct (Hc pk pc Hg) as (? & ? & ? & H4). split_and!; try done.
    intros a Ha Hs. destruct (Hgrow a Ha) as [->|?]; [lia|by apply H4].
  - intros a p pk HS Ha Hs. destruct (Hgrow a Ha) as [->|?]; [lia|by eapply Hcov].
Qed.
(** * The loops of [solve] *)

Section requests.
Context (requests : list (RegionKey * RegionRequest)).

Definition request_ok (r : RegionRequest) : Prop :=
  (∀ p, rq_place r = Some p → P p) ∧ (∀ s, rq_size r = Some s → 0 <= s) ∧ (∀ a, rq_align r = Some a → 0 < a).

Context (Hreq : ∀ k r, (k, r) ∈ requests → request_ok r).

(** Two regions asked to be the same memory. *)
Definition shares (k1 k2 : RegionKey) : Prop :=
  ∃ g r1 r2, (k1, r1) ∈ requests ∧ (k2, r2) ∈ requests ∧ rq_shared r1 = Some g ∧ rq_shared r2 = Some g.

Definition apart (placed : BTree RegionKey Allocation) : Prop :=
  ∀ k1 k2 a b, k1 ≠ k2 → bt_get k1 placed = Some a → bt_get k2 placed = Some b → overlap_free a b ∨ shares k1 k2.

Definition placed_inv (S : Z → Prop) (placed : BTree RegionKey Allocation) (cursors : CursorMap) : Prop :=
  cursors_inv S placed cursors ∧ apart placed.

Definition assign (keys : list RegionKey) (al : Allocation) (placed : BTree RegionKey Allocation) :=
  foldl (λ placed key, bt_insert key al placed) placed keys.

Lemma get_assign keys al placed k :
  bt_get k (assign keys al placed) = if decide (k ∈ keys) then Some al else bt_get k placed.
Proof.
  revert placed. induction keys as [|key keys IH]; intros placed; cbn; [done|].
  fold (assign keys al (bt_insert key al placed)). rewrite IH. destruct (decide (k ∈ keys)) as [Hk|Hk].
  - rewrite decide_True; [done|]. by constructor.
  - destruct (decide (k = key)) as [->|Hne]; [rewrite bt_get_insert, decide_True; [done|constructor]|].
    rewrite bt_get_insert_ne, decide_False by (rewrite ?elem_of_cons; naive_solver). done.
Qed.

Lemma assign_grows keys al placed : grows placed al (assign keys al placed).
Proof. intros b [k Hk]. rewrite get_assign in Hk. case_decide; [left; congruence|right; by exists k]. Qed.

Lemma assign_apart keys al placed :
  apart placed → (∀ b, has placed b → overlap_free al b) → (∀ k1 k2, k1 ∈ keys → k2 ∈ keys → k1 ≠ k2 → shares k1 k2) →
  apart (assign keys al placed).
Proof.
  intros Hap Hfree Hsh k1 k2 a b Hne. rewrite !get_assign. do 2 case_decide; intros H1 H2.
  - right. by apply Hsh.
  - left. injection H1 as <-. apply Hfree. by exists k2.
  - left. injection H2 as <-. apply overlap_free_sym, Hfree. by exists k1.
  - by apply (Hap k1 k2).
Qed.

(** Placing one allocation under the keys of a group. *)
Lemma allocate_keys_ok S placed cursors p size align ex al cursors' keys :
  placed_inv S placed cursors → P p → (∀ pk, starts_at p pk → S pk) → 0 <= size → 0 < align →
  (∀ k1 k2, k1 ∈ keys → k2 ∈ keys → k1 ≠ k2 → shares k1 k2) →
  try_allocate p size align ex cursors res = Ret (Some al, cursors') →
  placed_inv S (assign keys al placed) cursors'.
Proof.
  intros [Hinv Hap] HP HS Hs Ha Hsh Htry. destruct (try_allocate_ok _ _ _ _ _ _ _ _ _ HP HS Hs Ha Hinv Htry) as (_ & Hfree & Hnew).
  split; [apply Hnew, assign_grows|by apply assign_apart].
Qed.

Lemma allocate_one_ok S placed cursors p size align ex al cursors' key :
  placed_inv S placed cursors → P p → (∀ pk, starts_at p pk → S pk) → 0 <= size → 0 < align →
  try_allocate p size align ex cursors res = Ret (Some al, cursors') →
  placed_inv S (bt_insert key al placed) cursors'.
Proof.
  intros Hinv HP HS Hs Ha Htry. apply (allocate_keys_ok S placed cursors p size align ex al cursors' [key]); try done.
  intros k1 k2 ->%list_elem_of_singleton ->%list_elem_of_singleton. done.
Qed.

Lemma empty_one_ok S placed cursors base key :
  placed_inv S placed cursors → placed_inv S (bt_insert key (mkAlloc base 0) placed) cursors.
Proof.
  intros [Hinv Hap]. split.
  - eapply empty_ok; [|exact Hinv|apply (assign_grows [key])]. done.
  - apply (assign_apart [key]); [done|intros b _; by left|]. intros k1 k2 ->%list_elem_of_singleton ->%list_elem_of_singleton. done.
Qed.

Definition group_ok (g : string) (group : SharedGroup) : Prop :=
  (∀ p, sg_place group = Some p → P p) ∧ (∀ s, sg_size group = Some s → 0 <= s) ∧ (∀ a, sg_align group = Some a → 0 < a) ∧
  ∀ k, k ∈ sg_members group → ∃ r, (k, r) ∈ requests ∧ rq_shared r = Some g.

Lemma merge_field_ok {X} (same : X → X → bool) e r m (Q : X → Prop) :
  merge_field same e r = Some m → (∀ x, e = Some x → Q x) → (∀ x, r = Some x → Q x) → ∀ x, m = Some x → Q x.
Proof.
  unfold merge_field. destruct r as [r|], e as [e|]; [destruct (same e r)| | |]; intros [= <-] He Hr; auto.
Qed.

Lemma coalesce_one_ok g k r entry entry' :
  (k, r) ∈ requests → rq_shared r = Some g → group_ok g entry → coalesce_one g k r entry = Ok entry' → group_ok g entry'.
Proof.
  intros Hk Hg (Hp & Hs & Ha & Hm). destruct (Hreq k r Hk) as (Rp & Rs & Ra). unfold coalesce_one.
  destruct (merge_field same_place _ _) as [mp|] eqn:E1; [|done]. destruct (merge_field same_Z (sg_size entry) _) as [ms|] eqn:E2; [|done].
  destruct (merge_field same_Z (sg_align entry) _) as [ma|] eqn:E3; [|done]. intros [= <-]. unfold group_ok. cbn.
  split; [by eapply merge_field_ok|]. split; [by apply (merge_field_ok _ _ _ _ (λ x, 0 <= x) E2)|].
  split; [by apply (merge_field_ok _ _ _ _ (λ x, 0 < x) E3)|].
  intros k' [?|Hk']%elem_of_app; [by apply Hm|]. apply list_elem_of_singleton in Hk' as ->. by exists r.
Qed.

Lemma coalesce_ok rs groups groups' :
  (∀ k r, (k, r) ∈ rs → (k, r) ∈ requests) → (∀ g group, (g, group) ∈ groups → group_ok g group) →
  coalesce rs groups = Ok groups' → ∀ g group, (g, group) ∈ groups' → group_ok g group.
Proof.
  revert groups. induction rs as [|[k r] rs IH]; intros groups Hsub Hok; cbn; [intros [= <-]; done|].
  assert (∀ k r, (k, r) ∈ rs → (k, r) ∈ requests) as Hsub' by (intros; apply Hsub; by constructor).
  destruct (rq_shared r) as [g|] eqn:Eg; [|by apply IH]. destruct (coalesce_one _ _ _ _) as [entry|e] eqn:E; [|done].
  apply IH; [done|]. intros g' group [[= -> ->]|?]%bt_insert_elem; [|by apply Hok].
  eapply coalesce_one_ok; [apply Hsub; constructor|done| |exact E]. destruct (bt_get g groups) as [old|] eqn:Eold; cbn.
  - by apply Hok, bt_get_elem.
  - unfold group_ok. cbn. split_and!; try done. by intros k' ?%elem_of_nil.
Qed.
Definition all_places : Z → Prop := λ _, True.

Definition solve_inv (s : SolveState) : Prop := placed_inv all_places (sv_placed s) (sv_cursors s).

Lemma place_groups_ok groups s s' :
  (∀ g group, (g, group) ∈ groups → group_ok g group) → solve_inv s → place_groups groups res s = Ret (Ok s') → solve_inv s'.
Proof.
  revert s. induction groups as [|[g group] groups IH]; intros s Hok Hs; cbn; [intros [= <-]; done|].
  assert (∀ g group, (g, group) ∈ groups → group_ok g group) as Hok' by (intros; apply Hok; by constructor).
  destruct (Hok g group) as (Hp & Hsz & Hal & Hm); [constructor|].
  destruct (sg_place group) as [p|]; [|done]. destruct (sg_size group) as [size|]; [|done].
  destruct (negb (is_cpu_mapped p)); [by apply IH|].
  destruct (try_allocate p size _ false (sv_cursors s) res) as [[[al|] cs]|] eqn:E; cbn; [|done|done].
  apply IH; [done|]. apply (allocate_keys_ok all_places _ _ _ _ _ _ _ _ (sg_members group) Hs (Hp p eq_refl) (λ _ _, I) (Hsz size eq_refl)) in E; [done| |].
  - destruct (sg_align group); cbn; [by apply Hal|lia].
  - intros k1 k2 H1 H2 _. destruct (Hm k1 H1) as (r1 & ? & ?), (Hm k2 H2) as (r2 & ? & ?). exists g, r1, r2. done.
Qed.

Definition fixed_ok (f : RegionKey * (Place * Z * RegionRequest)) : Prop :=
  let '(_, (p, size, r)) := f in P p ∧ 0 <= size ∧ request_ok r.

Lemma fixed_requests_ok rs fixed :
  (∀ k r, (k, r) ∈ rs → request_ok r) → fixed_requests rs = Ret fixed → Forall fixed_ok fixed.
Proof.
  revert fixed. induction rs as [|[k r] rs IH]; intros fixed Hok; cbn; [intros [= <-]; constructor|].
  destruct (fixed_requests rs) as [rest|] eqn:E; cbn; [|done].
  assert (Forall fixed_ok rest) as Hrest by (apply IH; [intros; eapply Hok; by constructor|done]).
  pose proof (Hok k r) as (Hp & Hs & Ha); [constructor|].
  destruct (rq_shared r); [intros [= <-]; done|]. destruct (rq_size r) as [size|]; [|intros [= <-]; done].
  destruct (rq_place r) as [p|]; [|done]. intros [= <-]. constructor; [|done]. cbn. split_and!; [by apply Hp|by apply Hs|].
  apply (Hok k r). constructor.
Qed.

Lemma place_fixed_ok fixed s s' :
  Forall fixed_ok fixed → solve_inv s → place_fixed fixed res s = Ret (Ok s') → solve_inv s'.
Proof.
  revert s. induction fixed as [|[k [[p size] r]] fixed IH]; intros s Hok Hs; cbn; [intros [= <-]; done|].
  apply Forall_cons_1 in Hok as [(Hp & Hsz & _ & _ & Hal) Hok]. destruct (negb (is_cpu_mapped p)); [by apply IH|].
  destruct (try_allocate p size _ (rq_execute r) (sv_cursors s) res) as [[[al|] cs]|] eqn:E; cbn; [|done|done].
  apply IH; [done|]. apply (allocate_one_ok all_places _ _ _ _ _ _ _ _ k Hs Hp (λ _ _, I) Hsz) in E; [done|].
  destruct (rq_align r); cbn; [by apply Hal|lia].
Qed.

(** The invariant of a layout: its regions are apart, in their places, and what is
    deferred was asked for. *)
Definition layout_inv (l : Layout) : Prop :=
  (∀ a, has (ly_placed l) a → in_place a) ∧ apart (ly_placed l) ∧ ∀ k r, (k, r) ∈ ly_deferred l → request_ok r.

Lemma defer_requests_ok rs deferred acl d a :
  (∀ k r, (k, r) ∈ rs → request_ok r) → (∀ k r, (k, r) ∈ deferred → request_ok r) →
  defer_requests rs deferred acl = Ret (d, a) → ∀ k r, (k, r) ∈ d → request_ok r.
Proof.
  revert deferred acl. induction rs as [|[k r] rs IH]; intros deferred acl Hok Hd; cbn; [intros [= <- <-]; done|].
  assert (∀ k r, (k, r) ∈ rs → request_ok r) as Hok' by (intros; eapply Hok; by constructor).
  destruct (rq_shared r); [by apply IH|]. destruct (rq_size r); [by apply IH|].
  destruct (rq_place r) as [p|] eqn:Ep; [|done]. destruct (is_cpu_mapped p); [|by apply IH].
  apply IH; [done|]. intros k' r' [[= -> ->]|?]%bt_insert_elem; [apply (Hok k r); constructor|by eapply Hd].
Qed.

(** ** Regions sized by the linker *)

Definition region_ok (r : Region) : Prop := P (rg_place r) ∧ 0 <= rg_size r ∧ 0 < rg_align r.

Lemma measured_regions_ok deferred measured f regions :
  (∀ k r, (k, r) ∈ deferred → request_ok r) → (∀ k z, bt_get k measured = Some z → 0 <= z) →
  measured_regions deferred measured f = Ok regions → Forall region_ok regions.
Proof.
  intros Hok Hm. revert regions. induction deferred as [|[k r] deferred IH]; intros regions; cbn; [intros [= <-]; constructor|].
  assert (∀ k r, (k, r) ∈ deferred → request_ok r) as Hok' by (intros; eapply Hok; by constructor). specialize (IH Hok').
  destruct (Hok k r) as (Hp & _ & Ha); [constructor|]. destruct (negb (f k)); [by apply IH|].
  assert (0 <= default 0 (bt_get k measured)) as Hsz by (destruct (bt_get k measured) eqn:E; cbn; [by eapply Hm|lia]).
  intros Hr. assert (match measured_regions deferred measured f with
    | Err e => Err e
    | Ok regions =>
        match rq_place r with
        | None => Ok regions
        | Some place =>
            if negb (is_cpu_mapped place) then Ok regions
            else Ok (mkRegion k (default 0 (bt_get k measured)) (default 32 (rq_align r)) place (rq_execute r) :: regions)
        end
    end = Ok regions) as Hr'.
  { destruct (bt_get k measured); [done|]. by destruct (bool_decide (k.2 = _)). }
  clear Hr. destruct (measured_regions deferred measured f) as [rest|e]; [|done]. specialize (IH rest eq_refl).
  destruct (rq_place r) as [p|]; [|by injection Hr' as <-]. destruct (negb (is_cpu_mapped p)); injection Hr' as <-; [done|].
  constructor; [|done]. unfold region_ok. cbn. split_and!; [by apply Hp|done|]. destruct (rq_align r); cbn; [by apply Ha|lia].
Qed.

Lemma place_regions_ok S regions cursors placed placed' :
  Forall region_ok regions → Forall (λ r, ∀ pk, starts_at (rg_place r) pk → S pk) regions → placed_inv S placed cursors →
  place_regions regions res cursors placed = Ret (Ok placed') →
  (∀ a, has placed' a → in_place a) ∧ apart placed'.
Proof.
  revert cursors placed. induction regions as [|r regions IH]; intros cursors placed Hok HS Hinv; cbn.
  - intros [= <-]. destruct Hinv as [(? & _ & _) ?]. done.
  - apply Forall_cons_1 in Hok as [(Hp & Hsz & Hal) Hok], HS as [HS1 HS]. case_decide.
    + apply IH; [done|done|]. by apply empty_one_ok.
    + destruct (try_allocate _ _ _ _ cursors res) as [[[al|] cs]|] eqn:E; cbn; [|done|done].
      apply IH; [done|done|]. by apply (allocate_one_ok S _ _ _ _ _ _ _ _ (rg_key r) Hinv Hp HS1 Hsz Hal E).
Qed.
(** The cursor of a place after [advance_cursors_past]. *)
Definition advanced (placed : BTree RegionKey Allocation) (pc : PlaceCursor) : PlaceCursor :=
  foldl (λ pc ka, advance_one ka.2 pc) pc placed.

Lemma get_advance_cursors placed cursors pk :
  bt_get pk (advance_cursors_past placed cursors) = advanced placed <$> bt_get pk cursors.
Proof.
  assert (∀ (f : PlaceCursor → PlaceCursor) (m : CursorMap),
    bt_get pk ((λ kc, (kc.1, f kc.2)) <$> m) = f <$> bt_get pk m) as Hmap.
  { intros f m. induction m as [|[k pc] m IH]; cbn [fmap list_fmap bt_get fst snd]; [done|]. by destruct (cmp pk k). }
  unfold advance_cursors_past, advanced. revert cursors. induction placed as [|ka placed IH]; intros cursors; cbn [foldl].
  - by destruct (bt_get pk cursors).
  - rewrite IH, (Hmap (advance_one ka.2)). by destruct (bt_get pk cursors).
Qed.

Lemma advanced_spec placed pc :
  pc_base (advanced placed pc) = pc_base pc ∧ pc_end (advanced placed pc) = pc_end pc ∧
  pc_cursor pc <= pc_cursor (advanced placed pc) ∧
  ∀ ka, ka ∈ placed → pc_base pc <= al_base ka.2 → al_base ka.2 < pc_end pc →
    al_base ka.2 + al_size ka.2 <= pc_cursor (advanced placed pc).
Proof.
  revert pc. induction placed as [|ka placed IH]; intros pc; unfold advanced; cbn [foldl].
  - split_and!; [done|done|lia|]. by intros ka ?%elem_of_nil.
  - fold (advanced placed (advance_one ka.2 pc)). destruct (IH (advance_one ka.2 pc)) as (H1 & H2 & H3 & H4).
    assert (pc_base (advance_one ka.2 pc) = pc_base pc ∧ pc_end (advance_one ka.2 pc) = pc_end pc ∧
      pc_cursor pc <= pc_cursor (advance_one ka.2 pc) ∧ (pc_base pc <= al_base ka.2 → al_base ka.2 < pc_end pc →
        al_base ka.2 + al_size ka.2 <= pc_cursor (advance_one ka.2 pc))) as (A1 & A2 & A3 & A4).
    { unfold advance_one. case_decide; cbn; lia. }
    rewrite A1 in *. rewrite A2 in *. split_and!; [done|done|lia|]. intros ka' [->|Hka]%elem_of_cons; [|by apply H4]. lia.
Qed.

(** Seeding the cursors of the places of [regions]. *)
Definition seeded (cursors : CursorMap) : Prop :=
  ∀ pk pc, bt_get pk cursors = Some pc → ∃ p, starts_at p pk ∧ pc = mkCursor pk pk (limit p pk).

Lemma ensure_cursors_ok regions cursors :
  Forall region_ok regions → seeded cursors →
  let cursors' := foldl (λ cursors r, ensure_cursor (rg_place r) cursors res) cursors regions in
  seeded cursors' ∧ (∀ pk, is_Some (bt_get pk cursors) → is_Some (bt_get pk cursors')) ∧
  Forall (λ r, ∀ pk, starts_at (rg_place r) pk → is_Some (bt_get pk cursors')) regions.
Proof.
  revert cursors. induction regions as [|r regions IH]; intros cursors Hok Hseed; cbn [foldl]; [split_and!; [done|done|constructor]|].
  apply Forall_cons_1 in Hok as [(Hp & _ & _) Hok]. set (cs := ensure_cursor _ cursors res).
  assert (seeded cs ∧ (∀ pk, is_Some (bt_get pk cursors) → is_Some (bt_get pk cs)) ∧
    ∀ pk, starts_at (rg_place r) pk → is_Some (bt_get pk cs)) as (Hs & Hm & Hr).
  { subst cs. unfold ensure_cursor. destruct (resolve_cpu_address _ false) as [pk|] eqn:E.
    2:{ split_and!; [done|done|]. intros pk [_ ?]. congruence. }
    rewrite (place_key_starts _ pk E). unfold bt_or_insert. destruct (bt_get pk cursors) eqn:Eg.
    - split_and!; [done|done|]. intros pk' [_ ?]. assert (pk' = pk) as -> by congruence. by eexists.
    - split_and!.
      + intros pk' pc. destruct (decide (pk' = pk)) as [->|Hne]; [|rewrite bt_get_insert_ne by done; apply Hseed].
        rewrite bt_get_insert. intros [= <-]. exists (rg_place r). done.
      + intros pk'. destruct (decide (pk' = pk)) as [->|Hne]; [by rewrite bt_get_insert|by rewrite bt_get_insert_ne].
      + intros pk' [_ ?]. assert (pk' = pk) as -> by congruence. by rewrite bt_get_insert. }
  destruct (IH cs Hok Hs) as (H1 & H2 & H3). split_and!; [done|by auto|]. constructor; [|done]. intros pk Hpk. by apply H2, Hr.
Qed.

Lemma resolve_filtered_ok l measured f l' :
  layout_inv l → (∀ k z, bt_get k measured = Some z → 0 <= z) →
  resolve_deferred_filtered l measured res f = Ret (Ok l') → layout_inv l'.
Proof.
  intros (Hin & Hap & Hdef) Hm. unfold resolve_deferred_filtered.
  destruct (measured_regions _ _ _) as [regions|e] eqn:Er; [|done]. apply measured_regions_ok in Er; [|done|done].
  destruct (ensure_cursors_ok regions [] Er) as (Hseed & _ & Hdom); [done|].
  set (cs := foldl (λ cursors r, ensure_cursor (rg_place r) cursors res) [] regions) in *. set (S := λ pk, is_Some (bt_get pk cs)).
  assert (placed_inv S (ly_placed l) (advance_cursors_past (ly_placed l) cs)) as Hinv.
  { split; [|done]. split_and!; [done| |].
    - intros pk pc. rewrite get_advance_cursors. destruct (bt_get pk cs) as [pc0|] eqn:Eg; cbn; [|done]. intros [= <-].
      destruct (Hseed pk pc0 Eg) as (p & Hp & ->). destruct (advanced_spec (ly_placed l) (mkCursor pk pk (limit p pk))) as (H1 & H2 & H3 & H4).
      unfold cursor_ok. rewrite H1, H2. cbn in *. split; [done|]. split; [by exists p|]. split; [done|].
      intros a [k Hk%bt_get_elem] _. by apply (H4 (k, a)).
    - intros a p pk [pc Hpc] _ _ _ _ _. rewrite get_advance_cursors, Hpc. by eexists. }
  destruct (place_regions _ res _ _) as [[placed|e]|] eqn:Ep; cbn; [|done|done]. intros [= <-].
  assert (Forall region_ok (sort_by region_le regions)) as Hok' by (by rewrite sort_by_perm).
  destruct (place_regions_ok S _ _ _ _ Hok' ltac:(by rewrite sort_by_perm) Hinv Ep) as [? ?]. split_and!; done.
Qed.

Lemma then_retain_ok keep r l' :
  (∀ l, r = Ret (Ok l) → layout_inv l) → then_retain keep r = Ret (Ok l') → layout_inv l'.
Proof.
  intros Hr. unfold then_retain. destruct r as [[l|e]|]; cbn; [|done|done]. intros [= <-].
  destruct (Hr l eq_refl) as (H1 & H2 & H3). split_and!; [done|done|]. cbn. unfold bt_retain. intros k r [_ ?]%list_elem_of_filter. by eapply H3.
Qed.
End requests.
End allocator.

(** * Building a layout *)

(** The layouts the build goes through: [solve], then resolutions. *)
Inductive built (config : AppConfig) (res : Reservations) : Layout → Prop :=
  | built_solve l : solve config res = Ret (Ok l) → built config res l
  | built_tasks l measured l' :
      built config res l → (∀ k z, bt_get k measured = Some z → 0 <= z) →
      resolve_deferred l measured res = Ret (Ok l') → built config res l'
  | built_bootloader l measured l' :
      built config res l → (∀ k z, bt_get k measured = Some z → 0 <= z) →
      resolve_bootloader_deferred l measured res = Ret (Ok l') → built config res l'
  | built_kernel l measured l' :
      built config res l → (∀ k z, bt_get k measured = Some z → 0 <= z) →
      resolve_kernel_deferred l measured res = Ret (Ok l') → built config res l'.

(** The places that the regions of a configuration ask for. *)
Definition requested (config : AppConfig) (p : Place) : Prop :=
  ∃ k r, (k, r) ∈ requests_of config ∧ rq_place r = Some p.

(** Sizes are not negative, alignments are positive. *)
Definition config_ok (config : AppConfig) : Prop :=
  ∀ k r, (k, r) ∈ requests_of config → (∀ s, rq_size r = Some s → 0 <= s) ∧ (∀ a, rq_align r = Some a → 0 < a).

Section building.
Context (config : AppConfig) (res : Reservations).
Context (Hplaces : places_ok (requested config)) (Hres : ∀ pk r, bt_get pk res = Some r → 0 <= r) (Hconfig : config_ok config).

Lemma requests_ok k r : (k, r) ∈ requests_of config → request_ok (requested config) r.
Proof. intros Hk. destruct (Hconfig k r Hk) as [? ?]. split_and!; [|done|done]. intros p Hp. by exists k, r. Qed.

Lemma solve_ok l : solve config res = Ret (Ok l) → layout_inv (requested config) res (requests_of config) l.
Proof.
  unfold solve. destruct (coalesce _ []) as [groups|e] eqn:Eg; [|done].
  pose proof (coalesce_ok _ _ requests_ok _ _ _ (λ _ _ H, H) ltac:(by intros ?? ?%elem_of_nil) Eg) as Hg.
  destruct (place_groups groups res _) as [[s|e]|] eqn:E1; cbn; [|done|done].
  apply place_groups_ok with (1 := Hplaces) (2 := Hres) (requests := requests_of config) in E1; [|done|].
  2:{ split; [split_and!|]; cbn; try done; [intros a [k Hk]|intros a p pk _ [k Hk]]; done. }
  destruct (fixed_requests _) as [fixed|] eqn:E2; cbn; [|done]. apply fixed_requests_ok with (1 := requests_ok) in E2.
  destruct (place_fixed _ res s) as [[s'|e]|] eqn:E3; cbn; [|done|done].
  apply place_fixed_ok with (1 := Hplaces) (2 := Hres) (requests := requests_of config) in E3; [|by rewrite sort_by_perm|done].
  destruct (defer_requests _ [] _) as [[d acl]|] eqn:E4; cbn; [|done]. intros [= <-].
  destruct E3 as [(Hin & _ & _) Hap]. split_and!; [done|done|]. cbn.
  eapply defer_requests_ok; [exact requests_ok| |exact E4]. by intros ?? ?%elem_of_nil.
Qed.

Lemma built_inv l : built config res l → layout_inv (requested config) res (requests_of config) l.
Proof.
  induction 1 as [l Hl|l measured l' _ IH Hm Hl|l measured l' _ IH Hm Hl|l measured l' _ IH Hm Hl]; [by apply solve_ok| | |];
    (eapply then_retain_ok; [|exact Hl]; intros l2 Hl2; eapply resolve_filtered_ok; done).
Qed.
End building.

(** C15: a layout puts no two regions on the same memory. For a configuration whose
    places are apart and have one address for code and data, and in every layout the
    build goes through (after [solve] and after any of the resolutions of regions
    sized by the linker, in any order), two regions do not overlap unless they asked
    for the same shared group, and every region lies in a place, in front of the
    bytes reserved for the image's tables. *)
Theorem layout_regions_apart config res l :
  places_ok (requested config) → (∀ pk r, bt_get pk res = Some r → 0 <= r) → config_ok config → built config res l →
  (∀ k1 k2 a b, k1 ≠ k2 → bt_get k1 (ly_placed l) = Some a → bt_get k2 (ly_placed l) = Some b →
     overlap_free a b ∨ shares (requests_of config) k1 k2) ∧
  (∀ k a, bt_get k (ly_placed l) = Some a → in_place (requested config) res a).
Proof.
  intros Hp Hr Hc Hb. destruct (built_inv config res Hp Hr Hc l Hb) as (Hin & Hap & _). split; [exact Hap|].
  intros k a Hk. apply Hin. by exists k.
Qed.

(** * The order of tasks *)

(** The height of the tree of dependencies. *)
Fixpoint height (t : TaskConfig) : nat :=
  match t with
  | mkTask _ _ _ deps => S ((fix heights (deps : list TaskConfig) := match deps with [] => O | d :: deps => Nat.max (height d) (heights deps) end) deps)
  end.

Definition depth (t : TaskConfig) : Z := Z.min 255 (Z.of_nat (height t)).

(** The table has the tasks under their names, and with each task the tasks it
    depends on. *)
Definition consistent (all : BTree string TaskConfig) : Prop :=
  ∀ n t, bt_get n all = Some t → task_name t = n ∧ ∀ dep, dep ∈ depends_on t → bt_get (task_name dep) all = Some dep.

Definition heights (deps : list TaskConfig) : nat := foldr (λ d h, Nat.max (height d) h) O deps.

Lemma height_eq t : height t = S (heights (depends_on t)).
Proof. by destruct t. Qed.

Lemma heights_dep d deps : d ∈ deps → (height d <= heights deps)%nat.
Proof. unfold heights. induction 1; cbn [foldr]; lia. Qed.

Section depths.
Context (all : BTree string TaskConfig) (Hall : consistent all).

Definition cache_ok (cache : BTree string Z) : Prop :=
  ∀ n d, bt_get n cache = Some d → ∃ t, bt_get n all = Some t ∧ d = depth t.

Definition keeps (cache cache' : BTree string Z) : Prop := ∀ n, is_Some (bt_get n cache) → is_Some (bt_get n cache').

Lemma cache_insert cache n t :
  cache_ok cache → bt_get n all = Some t → cache_ok (bt_insert n (depth t) cache) ∧ keeps cache (bt_insert n (depth t) cache).
Proof.
  intros Hc Hn. split; intros m.
  - intros d. destruct (decide (m = n)) as [->|Hne]; [|rewrite bt_get_insert_ne by done; apply Hc].
    rewrite bt_get_insert. intros [= <-]. by exists t.
  - destruct (decide (m = n)) as [->|Hne]; [by rewrite bt_get_insert|by rewrite bt_get_insert_ne].
Qed.

Lemma dep_depth_ok fuel n t cache :
  bt_get n all = Some t → (height t <= fuel)%nat → cache_ok cache →
  ∃ cache', dep_depth fuel n all cache = Some (depth t, cache') ∧ cache_ok cache' ∧ keeps cache cache' ∧ is_Some (bt_get n cache').
Proof.
  revert n t cache. induction fuel as [|fuel IH]; intros n t cache Hn Hf Hc; [rewrite height_eq in Hf; lia|]. cbn [dep_depth].
  destruct (bt_get n cache) as [d|] eqn:Ec.
  { destruct (Hc n d Ec) as (t' & Ht & ->). assert (t' = t) as -> by congruence. exists cache. rewrite Ec. split_and!; [done|done|by intros m|done]. }
  rewrite Hn. set (step := λ acc dep, _). rewrite height_eq in Hf.
  assert (∀ deps best cache, 0 <= best → (∀ d, d ∈ deps → d ∈ depends_on t) → cache_ok cache →
    ∃ cache', foldl step (Some (best, cache)) deps = Some (Z.max best (Z.min 255 (Z.of_nat (heights deps))), cache') ∧
      cache_ok cache' ∧ keeps cache cache') as Hfold.
  { intros deps. induction deps as [|d deps IHd]; intros best cache0 Hbest Hsub Hc0; cbn [foldl].
    - exists cache0. split_and!; [|done|by intros m]. do 2 f_equal. cbn. lia.
    - assert (d ∈ depends_on t) as Hd by (apply Hsub; constructor). pose proof (heights_dep d _ Hd).
      destruct (IH (task_name d) d cache0) as (cache1 & E1 & Hc1 & Hk1 & _); [by apply (Hall n t Hn)|lia|done|].
      assert (step (Some (best, cache0)) d = Some (Z.max best (depth d), cache1)) as -> by (unfold step; by rewrite E1).
      destruct (IHd (Z.max best (depth d)) cache1) as (cache2 & E2 & Hc2 & Hk2); [lia|intros; apply Hsub; by constructor|done|].
      rewrite E2. exists cache2. split_and!; [|done|intros m ?; by apply Hk2, Hk1]. do 2 f_equal. unfold depth, heights. cbn [foldr]. lia. }
  destruct (Hfold (depends_on t) 0 cache ltac:(done) ltac:(done) Hc) as (cache' & E & Hc' & Hk). rewrite E.
  assert (Z.min 255 (Z.max 0 (Z.min 255 (Z.of_nat (heights (depends_on t)))) + 1) = depth t) as ->.
  { unfold depth. rewrite height_eq. lia. }
  destruct (cache_insert cache' n t Hc' Hn) as [H1 H2]. eexists. split_and!; [done|done|intros m ?; by apply H2, Hk|by rewrite bt_get_insert].
Qed.

Lemma dep_depths_ok fuel :
  (∀ n t, (n, t) ∈ all → bt_get n all = Some t ∧ (height t <= fuel)%nat) →
  ∃ depths, dep_depths fuel all = Some depths ∧ ∀ n t, (n, t) ∈ all → bt_get n depths = Some (depth t).
Proof.
  intros Hf. unfold dep_depths. set (step := λ acc nt, _).
  assert (∀ l cache, (∀ nt, nt ∈ l → nt ∈ all) → cache_ok cache →
    ∃ cache', foldl step (Some cache) l = Some cache' ∧ cache_ok cache' ∧ keeps cache cache' ∧ ∀ nt, nt ∈ l → is_Some (bt_get nt.1 cache')) as Hfold.
  { intros l. induction l as [|[n t] l IHl]; intros cache Hsub Hc; cbn; [exists cache; split_and!; [done|done|by intros m|by intros nt ?%elem_of_nil]|].
    destruct (Hf n t) as [Hn Hh]; [apply Hsub; constructor|]. destruct (dep_depth_ok fuel n t cache Hn Hh Hc) as (c1 & -> & Hc1 & Hk1 & Hg1).
    destruct (IHl c1) as (c2 & -> & Hc2 & Hk2 & Hg2); [intros; apply Hsub; by constructor|done|].
    exists c2. split_and!; [done|done|intros m ?; by apply Hk2, Hk1|]. intros nt [->|?]%elem_of_cons; [by apply Hk2|by apply Hg2]. }
  destruct (Hfold all [] ltac:(done)) as (depths & E & Hc & _ & Hg); [by intros n d|]. exists depths. split; [exact E|].
  intros n t Hn. destruct (Hg _ Hn) as [d Hd]. destruct (Hc _ d Hd) as (t' & Ht & ->). destruct (Hf n t Hn). cbn in *. congruence.
Qed.
End depths.

(** [x] comes before [y]. *)
Definition before {A} (x y : A) (l : list A) : Prop := ∃ l1 l2 l3, l = l1 ++ x :: l2 ++ y :: l3.

Lemma before_cons {A} (x y z : A) l : before x y l → before x y (z :: l).
Proof. intros (l1 & l2 & l3 & ->). by exists (z :: l1), l2, l3. Qed.

Lemma sorted_before {A} (R : A → A → Prop) l x y :
  StronglySorted R l → x ∈ l → y ∈ l → x ≠ y → ¬ R y x → before x y l.
Proof.
  induction 1 as [|z l Hl IH Hz]; [by intros ?%elem_of_nil|]. intros [->|Hx]%elem_of_cons [->|Hy]%elem_of_cons Hne Hr.
  - done.
  - apply list_elem_of_split in Hy as (l2 & l3 & ->). by exists [], l2, l3.
  - destruct Hr. rewrite Forall_forall in Hz. by apply Hz.
  - apply before_cons. by apply IH.
Qed.

Lemma before_fmap {A B} (f : A → B) x y l : before x y l → before (f x) (f y) (f <$> l).
Proof. intros (l1 & l2 & l3 & ->). exists (f <$> l1), (f <$> l2), (f <$> l3). by rewrite fmap_app, fmap_cons, fmap_app, fmap_cons. Qed.

(** The order of entries, without the names. *)
Definition rank_le (a b : string * Z * Z) : Prop := a.1.2 < b.1.2 ∨ a.1.2 = b.1.2 ∧ a.2 <= b.2.

Lemma entry_le_rank a b : entry_le a b = true → rank_le a b.
Proof.
  destruct a as [[na pa] da], b as [[nb pb] db]. unfold rank_le, entry_le. cbn. destruct (Z.compare_spec pa pb); [|by left|done].
  destruct (Z.compare_spec da db); [| |done]; intros _; right; lia.
Qed.

Lemma entry_le_total a b : entry_le a b = false → entry_le b a = true.
Proof.
  destruct a as [[na pa] da], b as [[nb pb] db]. unfold entry_le. rewrite (Z.compare_antisym pa pb), (Z.compare_antisym da db).
  destruct (pa ?= pb); [|done|done]. cbn [CompOpp]. destruct (da ?= db); [|done|done]. cbn [CompOpp cmp Ord_string].
  rewrite (String.compare_antisym nb na). by destruct (String.compare na nb).
Qed.

(** With fuel for the deepest task the order of the tasks is computed; it lists
    every task once, and every task after the tasks it depends on that are not in a
    later work group (lower numbers are more important), so a server gets its slot
    and its priority before its clients. Depths are bytes, so a tree of
    dependencies is at most 255 deep. *)
Theorem dependencies_come_first fuel all :
  consistent all → (∀ n t, (n, t) ∈ all → bt_get n all = Some t ∧ (height t <= fuel)%nat) →
  ∃ names, ordered_task_names fuel all = Some names ∧ names ≡ₚ all.*1 ∧
    ∀ n t dep, (n, t) ∈ all → dep ∈ depends_on t → task_priority dep <= task_priority t → (height t <= 255)%nat →
      before (task_name dep) n names.
Proof.
  intros Hall Hf. destruct (dep_depths_ok all Hall fuel Hf) as (depths & Ed & Hd). unfold ordered_task_names. rewrite Ed.
  set (entry := λ nt : string * TaskConfig, (nt.1, task_priority nt.2, default 0 (bt_get nt.1 depths))).
  eexists. split; [done|]. split.
  { rewrite sort_by_perm, <- list_fmap_compose. apply reflexive_eq, list_fmap_ext. done. }
  intros n t dep Ht Hdep Hprio Hh. destruct (Hf n t Ht) as [Hn _]. destruct (Hall n t Hn) as [Hname Hdeps].
  pose proof (heights_dep dep _ Hdep) as Hlt. pose proof (height_eq t) as Hht.
  pose proof (bt_get_elem _ _ _ (Hdeps dep Hdep)) as Hdin. pose proof (Hd _ _ Ht) as Et. pose proof (Hd _ _ Hdin) as Edep.
  apply (before_fmap (λ e : string * Z * Z, e.1.1) (entry (task_name dep, dep)) (entry (n, t))).
  assert (entry (task_name dep, dep) = (task_name dep, task_priority dep, depth dep)) as -> by (unfold entry; cbn; by rewrite Edep).
  assert (entry (n, t) = (n, task_priority t, depth t)) as E2 by (unfold entry; cbn; by rewrite Et).
  apply (sorted_before rank_le).
  - apply Sorted_StronglySorted; [intros a b c; unfold rank_le; lia|].
    eapply Sorted_weaken; [|apply sort_by_locally_sorted, entry_le_total]. apply entry_le_rank.
  - rewrite sort_by_perm. apply list_elem_of_fmap. exists (task_name dep, dep). split; [unfold entry; cbn; by rewrite Edep|done].
  - rewrite sort_by_perm. by apply list_elem_of_fmap_2.
  - rewrite E2. intros [= _ _ E]. unfold depth in E. lia.
  - rewrite E2. unfold rank_le, depth. cbn. lia.
Qed.

(** * A build *)

Section example.
Open Scope string_scope.

Definition sram : Place := mkPlace 16384 [mkMapping 0x20000000 131072 true true true] (Some 4096) false (Some "sram").
Definition private (size : option Z) (execute : bool) : RegionRequest := mkRequest (Some sram) size None None execute.
Definition ring : RegionRequest := mkRequest (Some sram) (Some 256) (Some 32) (Some "log_ring") false.

Definition example_log : TaskConfig := mkTask "log" 1 [("code", private None true); ("data", private (Some 512) false); ("ring", ring)] [].
Definition example_app : TaskConfig := mkTask "app" 1 [("code", private None true); ("ring", ring)] [example_log].
Definition example_config : AppConfig :=
  mkApp (Some "1.2.0") [("sram", sram)] [] None [("code", private None true); ("data", private (Some 1024) false)] [example_app].

Definition example_res : Reservations := compute_reservations [sram].

Definition example_measured : BTree RegionKey Z := [(("app", "code"), 1000); (("log", "code"), 3000)].

Definition example_layout : Layout :=
  match solve example_config example_res with
  | Ret (Ok l) => match resolve_deferred l example_measured example_res with
                  | Ret (Ok l) => match resolve_kernel_deferred l [(("kernel", "code"), 5000)] example_res with
                                  | Ret (Ok l) => l
                                  | _ => mkLayout [] [] []
                                  end
                  | _ => mkLayout [] [] []
                  end
  | _ => mkLayout [] [] []
  end.

(** The ring is the same memory for both tasks; everything else is apart. *)
Example example_placed : ly_placed example_layout =
  [(("app", "code"), mkAlloc 0x200022c0 1000); (("app", "ring"), mkAlloc 0x20001000 256); (("kernel", "code"), mkAlloc 0x200026c0 5000);
   (("kernel", "data"), mkAlloc 0x20001100 1024); (("log", "code"), mkAlloc 0x20001700 3000); (("log", "data"), mkAlloc 0x20001500 512);
   (("log", "ring"), mkAlloc 0x20001000 256)].
Proof. vm_compute. reflexivity. Qed.
Lemma example_requested p : requested example_config p → p = sram.
Proof.
  intros (k & r & Hk & Hr). assert (Forall (λ kr, ∀ p, rq_place kr.2 = Some p → p = sram) (requests_of example_config)) as Hall.
  { vm_compute. repeat constructor; intros q [= <-]; reflexivity. }
  rewrite Forall_forall in Hall. by apply (Hall (k, r)).
Qed.

Lemma example_places_ok : places_ok (requested example_config).
Proof.
  split.
  - intros p ->%example_requested. split; reflexivity.
  - intros p q a b [->%example_requested Ha] [->%example_requested Hb]. left. split; [congruence|reflexivity].
Qed.

Lemma example_config_ok : config_ok example_config.
Proof.
  assert (Forall (λ kr, (∀ s, rq_size kr.2 = Some s → 0 <= s) ∧ (∀ a, rq_align kr.2 = Some a → 0 < a)) (requests_of example_config)) as Hall.
  { vm_compute. repeat constructor; intros q [= <-]; discriminate || reflexivity. }
  rewrite Forall_forall in Hall. intros k r Hk. by apply (Hall (k, r)).
Qed.

Lemma measured_nonneg (m : BTree RegionKey Z) : forallb (λ kz, bool_decide (0 <= kz.2)) m = true → ∀ k z, bt_get k m = Some z → 0 <= z.
Proof.
  intros Hm k z Hk%bt_get_elem. rewrite forallb_forall in Hm. apply list_elem_of_In, Hm in Hk. by apply bool_decide_eq_true in Hk.
Qed.

Lemma example_built : built example_config example_res example_layout.
Proof.
  eapply built_kernel with (measured := [(("kernel", "code"), 5000)]); [|apply measured_nonneg; reflexivity|].
  - eapply built_tasks with (measured := example_measured); [|apply measured_nonneg; reflexivity|].
    + apply built_solve. vm_compute. reflexivity.
    + vm_compute. reflexivity.
  - vm_compute. reflexivity.
Qed.

Lemma example_res_ok : ∀ pk r, bt_get pk example_res = Some r → 0 <= r.
Proof.
  intros pk r Hk%bt_get_elem. assert (Forall (λ kz, 0 <= kz.2) example_res) as H by (vm_compute; repeat constructor; discriminate).
  rewrite Forall_forall in H. by apply (H (pk, r)).
Qed.

Lemma layout_regions_apart_witness :
  overlap_free (mkAlloc 0x200022c0 1000) (mkAlloc 0x200026c0 5000) ∨ shares (requests_of example_config) ("app", "code") ("kernel", "code").
Proof.
  apply (proj1 (layout_regions_apart example_config example_res example_layout example_places_ok example_res_ok example_config_ok example_built)
    ("app", "code") ("kernel", "code")); [discriminate| |]; vm_compute; reflexivity.
Defined.

Lemma consistent_example : consistent (collect_tasks example_config).
Proof.
  assert (Forall (λ nt, task_name nt.2 = nt.1 ∧ Forall (λ dep, bt_get (task_name dep) (collect_tasks example_config) = Some dep) (depends_on nt.2))
    (collect_tasks example_config)) as H by (vm_compute; repeat constructor).
  rewrite Forall_forall in H. intros n t Hn%bt_get_elem. destruct (H _ Hn) as [? Hd]. rewrite Forall_forall in Hd. done.
Qed.

Lemma dependencies_come_first_witness :
  ∃ names, ordered_task_names 2 (collect_tasks example_config) = Some names ∧ names ≡ₚ (collect_tasks example_config).*1 ∧
    ∀ n t dep, (n, t) ∈ collect_tasks example_config → dep ∈ depends_on t → task_priority dep <= task_priority t → (height t <= 255)%nat →
      before (task_name dep) n names.
Proof.
  apply (dependencies_come_first 2 (collect_tasks example_config) consistent_example).
  assert (Forall (λ nt, bt_get nt.1 (collect_tasks example_config) = Some nt.2 ∧ (height nt.2 <= 2)%nat) (collect_tasks example_config)) as H
    by (vm_compute; repeat constructor).
  rewrite Forall_forall in H. intros n t Hn. exact (H _ Hn).
Defined.

Example example_order : ordered_task_names 2 (collect_tasks example_config) = Some ["log"; "app"].
Proof. vm_compute. reflexivity. Qed.

(** A chip's external memory has one mapping for code and one for data. *)
Definition psram : Place :=
  mkPlace 0x800000 [mkMapping 0x10000000 0x800000 true true true; mkMapping 0x60000000 0x800000 true true false] None false (Some "psram").
Definition psram_code : RegionRequest := mkRequest (Some psram) None None None true.
Definition psram_config : AppConfig := mkApp None [("psram", psram)] [] None [("code", psram_code)] [mkTask "app" 1 [("code", psram_code)] []].

(** Where a place has one mapping for code and one for data, the resolutions
    do not see each other's code: [advance_cursors_past] compares the addresses of
    the existing allocations, which are in the mapping for code, with the cursor,
    which is in the mapping for data. The code of the kernel is put on that of a
    task. *)
Theorem code_overlaps_in_dual_mapping :
  ∃ l l' base, solve psram_config [] = Ret (Ok l) ∧
    resolve_deferred l [(("app", "code"), 4096)] [] = Ret (Ok l') ∧
    ∃ l'', resolve_kernel_deferred l' [(("kernel", "code"), 8192)] [] = Ret (Ok l'') ∧
      bt_get ("app", "code") (ly_placed l'') = Some (mkAlloc base 4096) ∧
      bt_get ("kernel", "code") (ly_placed l'') = Some (mkAlloc base 8192).
Proof.
  eexists _, _, 0x10000000. split; [vm_compute; reflexivity|]. split; [vm_compute; reflexivity|].
  eexists. split; [vm_compute; reflexivity|]. split; vm_compute; reflexivity.
Qed.
End example.
