(* ===== verification/Link.v ===== *)
(** Linking an image ([host/tfw/src/link.rs]): the loadable segments of the ELF
    files are grouped by place, merged into one blob per place and put into the
    image, those of the place the image is flashed to at their own addresses.

    The parser of ELF files is a library: the program headers of a file are a
    parameter. Files are their contents, an unreadable file is [None]; the
    events for the user interface and the writing of the image are left out. *)

From Stdlib Require Import Ascii String.
From S2P Require Import Prelude BTree Layout Places.

Open Scope Z_scope.

(** What the [object] crate gives for a program header. *)
Record ProgramHeader := mkPhdr {
  ph_type : Z;
  ph_offset : Z;
  ph_paddr : Z;
  ph_filesz : Z;
}.

Definition PT_LOAD : Z := 1.

Record CompileArtifact := mkArtifact {
  crate_name : string;
  elf_file : option (list Z);
}.

Record LinkSegment := mkLink {
  ls_paddr : Z;
  ls_data : list Z;
  ls_owner : string;
}.

Inductive LinkError :=
  | LinkIo
  | LinkElf (crate_name : string)
  | NoSegments
  | Overlap (a_owner : string) (a_addr : Z) (b_owner : string) (b_addr : Z)
  | UnmappedSegment (owner : string) (addr : Z)
  | LinkOther (message : string).

Record PlaceLayout := mkPlaceLayout {
  lp_file_offset : Z;
  lp_blob_base : Z;
}.

(** * Places and addresses *)

Definition PlaceRange : Type := (Z * Z) * string.

Definition range_le (a b : PlaceRange) : bool := bool_decide (a.1.1 <= b.1.1).

Definition ranges_of (name : string) (place : Place) : list PlaceRange :=
  (λ m, let start := mp_address m + offset_of place in ((start, start + pl_size place), name)) <$> pl_mappings place.

Definition build_place_ranges (config : AppConfig) : list PlaceRange :=
  sort_by range_le (concat ((λ np, if is_cpu_mapped np.2 then ranges_of np.1 np.2 else []) <$> ac_places config)).

Definition in_range (addr : Z) (r : PlaceRange) : bool := bool_decide (r.1.1 <= addr) && bool_decide (addr < r.1.2).

Definition find_place (ranges : list PlaceRange) (addr : Z) : option string := snd <$> find (in_range addr) ranges.

(** The ranges of the image's place, where they are not there yet. *)
Definition add_image_place (image_place : option Place) (ranges : list PlaceRange) : list PlaceRange :=
  match image_place with
  | None => ranges
  | Some ip =>
      let add ranges r := if existsb (λ s, bool_decide (s.1.1 = r.1.1)) ranges then ranges else ranges ++ [r] in
      sort_by range_le (foldl add ranges (ranges_of (default "code_generic"%string (pl_name ip)) ip))
  end.

(** * Loadable segments *)

Section link.
Context (program_headers : list Z → option (list ProgramHeader)).

Definition skipped (h : ProgramHeader) : bool :=
  bool_decide (ph_type h ≠ PT_LOAD) || bool_decide (ph_filesz h = 0) || bool_decide (ph_offset h < 64).

Fixpoint load_segments (owner : string) (data : list Z) (phdrs : list ProgramHeader) : result (list LinkSegment) LinkError :=
  match phdrs with
  | [] => Ok []
  | h :: phdrs =>
      if skipped h then load_segments owner data phdrs else
      if decide (ph_offset h + ph_filesz h <= Z.of_nat (length data)) then
        match load_segments owner data phdrs with
        | Err e => Err e
        | Ok rest =>
            Ok (mkLink (ph_paddr h) (take (Z.to_nat (ph_filesz h)) (drop (Z.to_nat (ph_offset h)) data)) owner :: rest)
        end
      else Err (LinkElf owner)
  end.

Fixpoint collect_segments (artifacts : list CompileArtifact) : result (list LinkSegment) LinkError :=
  match artifacts with
  | [] => Ok []
  | a :: artifacts =>
      match elf_file a with
      | None => Err LinkIo
      | Some data =>
          match program_headers data with
          | None => Err (LinkElf (crate_name a))
          | Some phdrs =>
              match load_segments (crate_name a) data phdrs with
              | Err e => Err e
              | Ok segs =>
                  match collect_segments artifacts with
                  | Err e => Err e
                  | Ok rest => Ok (segs ++ rest)
                  end
              end
          end
      end
  end.

(** [measure_flat_binary_size]: the span of the loadable segments. *)
Definition measure_flat_binary_size (a : CompileArtifact) : result Z LinkError :=
  match elf_file a with
  | None => Err LinkIo
  | Some data =>
      match program_headers data with
      | None => Err (LinkElf (crate_name a))
      | Some phdrs =>
          match base.filter (λ h, skipped h = false) phdrs with
          | [] => Err NoSegments
          | loads =>
              let min_addr := foldl (λ m h, Z.min m (ph_paddr h)) (2 ^ 64 - 1) loads in
              let max_addr := foldl (λ m h, Z.max m (ph_paddr h + ph_filesz h)) 0 loads in
              Ok (wrap 32 (max_addr - min_addr))
          end
      end
  end.

(** * Grouping *)

(** [by_place.entry(name).or_default().push(seg)] *)
Definition push_segment (name : string) (seg : LinkSegment) (by_place : BTree string (list LinkSegment)) :=
  bt_insert name (default [] (bt_get name by_place) ++ [seg]) by_place.

Fixpoint group_segments (ranges : list PlaceRange) (segs : list LinkSegment) (by_place : BTree string (list LinkSegment))
  : result (BTree string (list LinkSegment)) LinkError :=
  match segs with
  | [] => Ok by_place
  | seg :: segs =>
      match find_place ranges (ls_paddr seg) with
      | None => Err (UnmappedSegment (ls_owner seg) (ls_paddr seg))
      | Some name => group_segments ranges segs (push_segment name seg by_place)
      end
  end.

(** * The version *)

Definition digit (c : ascii) : option Z :=
  let n := Z.of_N (N_of_ascii c) in if decide (48 <= n <= 57) then Some (n - 48) else None.

Fixpoint parse_digits (s : string) (acc : Z) : option Z :=
  match s with
  | EmptyString => Some acc
  | String c s =>
      match digit c with
      | None => None
      | Some d => let acc := acc * 10 + d in if decide (acc < 2 ^ 16) then parse_digits s acc else None
      end
  end.

(** [str::parse::<u16>] *)
Definition parse_u16 (s : string) : option Z :=
  match s with
  | EmptyString => None
  | String c s' =>
      if Ascii.eqb c "+"%char then match s' with EmptyString => None | _ => parse_digits s' 0 end
      else parse_digits s 0
  end.

(** [str::split('.')] *)
Fixpoint split_dot (s : string) : list string :=
  match s with
  | EmptyString => [EmptyString]
  | String c s =>
      match split_dot s with
      | [] => []
      | part :: parts => if Ascii.eqb c "."%char then EmptyString :: part :: parts else String c part :: parts
      end
  end.

Definition with_version (version : option string) (b : PlacesBuilder) : PlacesBuilder :=
  match version with
  | None => b
  | Some ver_str =>
      match omap parse_u16 (split_dot ver_str) with
      | major :: minor :: patch :: _ => set_version b major minor patch
      | _ => b
      end
  end.

(** * Partitions *)

Definition string_bytes (s : string) : list Z := (λ c, Z.of_N (N_of_ascii c)) <$> list_ascii_of_string s.

Definition fs_sources (config : AppConfig) : list string := fs_source <$> concat (ac_filesystems config).*2.

Definition add_place_partition (config : AppConfig) (b : PlacesBuilder) (np : string * Place) : PlacesBuilder :=
  match pl_offset np.2 with
  | None => b
  | Some offset =>
      let flags := 0 in
      let flags := if pl_unmapped np.2 then Z.lor flags PART_UNMAPPED else flags in
      let flags := if bool_decide (np.1 ∈ fs_sources config) then Z.lor flags PART_MANAGED else flags in
      add_partition b (name_hash (string_bytes np.1)) (wrap 32 offset) (wrap 32 (pl_size np.2)) flags
  end.

(** * Blobs *)

(** The range of the place that the image is flashed to. *)
Definition host_range (image_place : option Place) : option (Z * Z) :=
  match image_place with
  | None => None
  | Some ip =>
      match pl_mappings ip with
      | [] => None
      | m :: _ => Some (mp_address m + offset_of ip, mp_address m + offset_of ip + pl_size ip)
      end
  end.

Definition is_host_resident (host : option (Z * Z)) (paddr : Z) : bool :=
  match host with None => false | Some (h, e) => bool_decide (h <= paddr) && bool_decide (paddr < e) end.

Definition paddr_le (a b : LinkSegment) : bool := bool_decide (ls_paddr a <= ls_paddr b).

Definition seg_end (s : LinkSegment) : Z := ls_paddr s + Z.of_nat (length (ls_data s)).

(** [segs.windows(2)]: the first two neighbours that overlap. *)
Fixpoint find_overlap (segs : list LinkSegment) : option LinkError :=
  match segs with
  | a :: ((b :: _) as rest) =>
      if decide (seg_end a > ls_paddr b) then Some (Overlap (ls_owner a) (ls_paddr a) (ls_owner b) (ls_paddr b))
      else find_overlap rest
  | _ => None
  end.

Definition max_end (segs : list LinkSegment) : Z := foldr Z.max 0 (seg_end <$> segs).

(** [blob[offset..offset + data.len()].copy_from_slice(&data)], for each segment. *)
Fixpoint fill_blob (base : Z) (segs : list LinkSegment) (blob : list Z) : exec (list Z) :=
  match segs with
  | [] => Ret blob
  | s :: segs => let! blob := copy_at blob (Z.to_nat (ls_paddr s - base)) (ls_data s) in fill_blob base segs blob
  end.

(** The end of the last allocation of the place. *)
Definition mem_end_of (placed : BTree RegionKey Allocation) (range : Z * Z) (end_ : Z) : Z :=
  match (λ ka, al_base ka.2 + al_size ka.2) <$> base.filter (λ ka, range.1 <= al_base ka.2 ∧ al_base ka.2 < range.2) placed with
  | [] => end_
  | e :: es => foldl Z.max e es
  end.

(** [a + b] on [u32], with overflow checks. *)
Definition add32 (a b : Z) : exec Z := if decide (a + b < 2 ^ 32) then Ret (a + b) else Panic.

Record LinkState := mkLinkState {
  lk_builder : PlacesBuilder;
  lk_tail_cursor : Z;
  lk_layouts : BTree string PlaceLayout;
}.

(** The offset of a blob in the file, and the cursor behind what is packed. *)
Definition file_offset_of (host : option (Z * Z)) (base total tail_cursor : Z) : exec (Z * Z) :=
  match host, is_host_resident host base with
  | Some (h, _), true =>
      let off := wrap 32 (base - h) in
      let! e := add32 off (wrap 32 total) in
      Ret (off, Z.max tail_cursor e)
  | _, _ =>
      let! t := add32 tail_cursor 3 in
      let off := Z.land t (Z.lnot 3) in
      let! e := add32 off (wrap 32 total) in
      Ret (off, e)
  end.

(** One place. *)
Definition link_place (ranges : list PlaceRange) (placed : BTree RegionKey Allocation) (host : option (Z * Z))
    (place_name : string) (segs : list LinkSegment) (st : LinkState) : exec (result LinkState LinkError) :=
  let segs := sort_by paddr_le segs in
  match find_overlap segs with
  | Some e => Ret (Err e)
  | None =>
      match segs with
      | [] => Panic
      | first :: _ =>
          let base := ls_paddr first in
          let end_ := max_end segs in
          let total := end_ - base in
          let! blob := fill_blob base segs (replicate (Z.to_nat total) 0xFF) in
          match find (λ r, bool_decide (r.2 = place_name)) ranges with
          | None => Panic
          | Some (range, _) =>
              let mem_end := mem_end_of placed range end_ in
              if decide (mem_end < base) then Panic else
              let mem_size := wrap 32 (mem_end - base) in
              let! (file_offset, tail_cursor) := file_offset_of host base total (lk_tail_cursor st) in
              let layouts := bt_insert place_name (mkPlaceLayout file_offset base) (lk_layouts st) in
              let! b := add_segment (lk_builder st) (wrap 32 base) file_offset blob mem_size in
              Ret (Ok (mkLinkState b tail_cursor layouts))
          end
      end
  end.

Fixpoint link_places (ranges : list PlaceRange) (placed : BTree RegionKey Allocation) (host : option (Z * Z))
    (groups : list (string * list LinkSegment)) (st : LinkState) : exec (result LinkState LinkError) :=
  match groups with
  | [] => Ret (Ok st)
  | (name, segs) :: groups =>
      let! r := link_place ranges placed host name segs st in
      match r with
      | Err e => Ret (Err e)
      | Ok st => link_places ranges placed host groups st
      end
  end.

(** Places that are run from flash come first. *)
Definition min_paddr (segs : list LinkSegment) : Z :=
  match segs with [] => 0 | s :: segs => foldl Z.min (ls_paddr s) (ls_paddr <$> segs) end.

Definition host_le (host : option (Z * Z)) (a b : string * list LinkSegment) : bool :=
  is_host_resident host (min_paddr a.2) || negb (is_host_resident host (min_paddr b.2)).

(** The builder of the image, before [build]. *)
Definition link_builder (artifacts : list CompileArtifact) (config : AppConfig) (layout : Layout)
    (image_place : option Place) (now : Z) : exec (result LinkState LinkError) :=
  let place_ranges := add_image_place image_place (build_place_ranges config) in
  match collect_segments artifacts with
  | Err e => Ret (Err e)
  | Ok [] => Ret (Err NoSegments)
  | Ok segments =>
      match group_segments place_ranges segments [] with
      | Err e => Ret (Err e)
      | Ok by_place =>
          match bt_get ("kernel"%string, "code"%string) (ly_placed layout) with
          | None => Ret (Err (LinkOther "kernel.code not in layout"))
          | Some kernel_code =>
              let b := builder_new (wrap 32 (al_base kernel_code)) in
              let b := set_flash_timestamp (with_version (ac_version config) b) now in
              let b := foldl (add_place_partition config) b (ac_places config) in
              let host := host_range image_place in
              link_places place_ranges (ly_placed layout) host (sort_by (host_le host) by_place) (mkLinkState b 0 [])
          end
      end
  end.

Definition link_image (artifacts : list CompileArtifact) (config : AppConfig) (layout : Layout)
    (image_place : option Place) (now : Z) : exec (result (list Z * BTree string PlaceLayout) LinkError) :=
  let! r := link_builder artifacts config layout image_place now in
  match r with
  | Err e => Ret (Err e)
  | Ok st => let! places_bin := build (lk_builder st) in Ret (Ok (places_bin, lk_layouts st))
  end.
End link.
