(* ===== verification/LinkProps.v ===== *)
(** What the linked image holds: every loadable segment of every ELF file is in
    the blob of its place, the blobs do not overlap in the file, and when the
    bootloader has started the image every segment is in memory at its address. *)

From S2P Require Import Prelude BTree Layout Memfns Places PlacesBuild PlacesProps.
From S2P Require Import Ftab Boot BootProps Link.

Open Scope Z_scope.

(** * Blobs *)

(** [a] ends before [b]. *)
Definition precedes (a b : LinkSegment) : Prop := seg_end a <= ls_paddr b.

Lemma precedes_trans : Transitive precedes.
Proof. intros a b c. unfold precedes, seg_end. lia. Qed.

Lemma find_overlap_none segs : find_overlap segs = None → StronglySorted precedes segs.
Proof.
  intros H. apply Sorted_StronglySorted; [exact precedes_trans|]. induction segs as [|a segs IH]; [constructor|].
  destruct segs as [|b segs]; [by repeat constructor|]. cbn in H. case_decide; [done|]. constructor; [exact (IH H)|].
  constructor. unfold precedes. lia.
Qed.

Lemma max_end_ge segs s : s ∈ segs → seg_end s <= max_end segs.
Proof. unfold max_end. induction 1 as [|x s segs _ IH]; cbn; lia. Qed.

Lemma max_end_le segs z : 0 <= z → (∀ s, s ∈ segs → seg_end s <= z) → max_end segs <= z.
Proof.
  unfold max_end. intros Hz. induction segs as [|s segs IH]; intros H; cbn; [done|].
  pose proof (H s ltac:(constructor)). specialize (IH ltac:(intros; apply H; by constructor)). lia.
Qed.

(** Index [i] of the blob is not of the segment. *)
Definition off_segment (base : Z) (i : nat) (s : LinkSegment) : Prop :=
  Z.of_nat i < ls_paddr s - base ∨ seg_end s - base <= Z.of_nat i.

Lemma fill_blob_ok base segs blob :
  StronglySorted precedes segs →
  (∀ s, s ∈ segs → base <= ls_paddr s ∧ seg_end s <= base + Z.of_nat (length blob)) →
  ∃ blob', fill_blob base segs blob = Ret blob' ∧ length blob' = length blob ∧
    (∀ s k v, s ∈ segs → ls_data s !! k = Some v → blob' !! (Z.to_nat (ls_paddr s - base) + k)%nat = Some v) ∧
    (∀ i, (∀ s, s ∈ segs → off_segment base i s) → blob' !! i = blob !! i) ∧
    (bytes_ok blob → (∀ s, s ∈ segs → bytes_ok (ls_data s)) → bytes_ok blob').
Proof.
  intros Hs. revert blob. induction Hs as [|s segs Hs IH Hp]; intros blob Hin; cbn [fill_blob].
  { exists blob. split_and!; [done|done|by intros ??? ?%elem_of_nil|done|done]. }
  destruct (Hin s) as [Hlo Hhi]; [constructor|]. unfold seg_end in Hhi. rewrite copy_at_ok by lia. cbn [ebind].
  assert (length (splice blob (Z.to_nat (ls_paddr s - base)) (ls_data s)) = length blob) as Hl by (apply length_splice; lia).
  destruct (IH (splice blob (Z.to_nat (ls_paddr s - base)) (ls_data s))) as (blob' & -> & Hl' & Hd & Ho & Hbytes).
  { intros t Ht. rewrite Hl. apply Hin. by constructor. }
  rewrite Hl in Hl'. exists blob'. split_and!; [done|done| | |].
  - intros t k v [->|Ht]%elem_of_cons Hk; [|by apply Hd]. pose proof (lookup_lt_Some _ _ _ Hk). rewrite Ho.
    + rewrite lookup_splice by lia. rewrite decide_True by lia. rewrite <- Hk. f_equal. lia.
    + intros u Hu. rewrite Forall_forall in Hp. specialize (Hp u Hu). unfold precedes, seg_end, off_segment in *. left. lia.
  - intros i Hi. rewrite Ho by (intros; apply Hi; by constructor). destruct (Hi s) as [H|H]; [constructor| |];
      unfold seg_end in *; rewrite lookup_splice by lia; by rewrite decide_False by lia.
  - intros Hb Hds. apply Hbytes; [|intros; apply Hds; by constructor]. unfold bytes_ok, splice in *.
    rewrite !Forall_app. split_and!; [by apply Forall_take|apply Hds; constructor|by apply Forall_drop].
Qed.

(** The lowest address of a group is the first of the sorted segments. *)
Lemma paddr_le_total a b : paddr_le a b = false → paddr_le b a = true.
Proof. unfold paddr_le. rewrite bool_decide_eq_false, bool_decide_eq_true. lia. Qed.

Lemma min_paddr_spec segs :
  segs ≠ [] → (∀ s, s ∈ segs → min_paddr segs <= ls_paddr s) ∧ ∃ s, s ∈ segs ∧ ls_paddr s = min_paddr segs.
Proof.
  destruct segs as [|x segs]; [done|]. intros _. unfold min_paddr.
  assert (∀ l m, foldl Z.min m l <= m ∧ (∀ z, z ∈ l → foldl Z.min m l <= z) ∧ (foldl Z.min m l = m ∨ foldl Z.min m l ∈ l)) as H.
  { intros l. induction l as [|y l IH]; intros m; cbn; [split_and!; [lia|by intros ? ?%elem_of_nil|by left]|].
    destruct (IH (Z.min m y)) as (H1 & H2 & H3). split_and!; [lia|intros z [->|?]%elem_of_cons; [lia|by apply H2]|].
    destruct H3 as [->|?]; [|right; by constructor]. destruct (Z.min_spec m y) as [[_ ->]|[_ ->]]; [by left|right; constructor]. }
  destruct (H (ls_paddr <$> segs) (ls_paddr x)) as (H1 & H2 & H3). split.
  - intros s [->|Hs]%elem_of_cons; [done|]. apply H2. by apply list_elem_of_fmap_2.
  - destruct H3 as [->|(s & -> & Hs)%list_elem_of_fmap]; [exists x; split; [constructor|done]|exists s; split; [by constructor|done]].
Qed.

Lemma sorted_first segs first rest : sort_by paddr_le segs = first :: rest → ls_paddr first = min_paddr segs.
Proof.
  intros E. assert (segs ≡ₚ first :: rest) as Hp by (by rewrite <- E, sort_by_perm).
  assert (StronglySorted (λ a b, paddr_le a b = true) (first :: rest)) as Hs.
  { rewrite <- E. apply sort_by_sorted; [exact paddr_le_total|]. intros a b c. unfold paddr_le. rewrite !bool_decide_eq_true. lia. }
  destruct (min_paddr_spec segs) as [Hle (s & Hs1 & Hs2)]; [intros ->; by apply Permutation_nil in Hp|].
  assert (first ∈ segs) as Hf by (rewrite Hp; constructor). specialize (Hle first Hf). rewrite Hp in Hs1.
  inversion Hs as [|?? _ Hall]; subst. apply elem_of_cons in Hs1 as [->|Hs1]; [done|].
  rewrite Forall_forall in Hall. specialize (Hall s Hs1). unfold paddr_le in Hall. rewrite bool_decide_eq_true in Hall. lia.
Qed.

Lemma max_end_perm segs segs' : segs ≡ₚ segs' → max_end segs = max_end segs'.
Proof. unfold max_end. induction 1; cbn in *; lia. Qed.

(** * A place *)

Definition link_seg_ok (s : LinkSegment) : Prop :=
  0 <= ls_paddr s ∧ (0 < length (ls_data s))%nat ∧ seg_end s <= 2 ^ 32 ∧ bytes_ok (ls_data s).

(** The segment of the image made from the segments of a place. *)
Definition blob_of (segs : list LinkSegment) (s : BuilderSegment) : Prop :=
  bs_dest s = min_paddr segs ∧ bs_dest s + Z.of_nat (length (bs_data s)) = max_end segs ∧ bytes_ok (bs_data s) ∧
  ∀ g k v, g ∈ segs → ls_data g !! k = Some v → bs_data s !! (Z.to_nat (ls_paddr g - bs_dest s) + k)%nat = Some v.

(** Where the blob goes in the file. *)
Definition packed (host : option (Z * Z)) (tail : Z) (s : BuilderSegment) (tail' : Z) : Prop :=
  tail <= tail' ∧ file_end s <= tail' ∧ 0 <= bs_file_offset s ∧ tail' < 2 ^ 32 ∧
  (is_host_resident host (bs_dest s) = true ∧ (∃ h e, host = Some (h, e) ∧ bs_file_offset s = bs_dest s - h) ∨
   is_host_resident host (bs_dest s) = false ∧ tail <= bs_file_offset s).

Definition push_bseg (b : PlacesBuilder) (s : BuilderSegment) : PlacesBuilder :=
  mkBuilder (b_entry_point b) (b_version b) (b_flash_timestamp b) (b_partitions b) (b_segments b ++ [s]).

Lemma file_offset_of_ok host base total tail off tail' dest data mem :
  0 <= base < 2 ^ 32 → 0 <= total < 2 ^ 32 → 0 <= tail < 2 ^ 32 → Z.of_nat (length data) = total → dest = base →
  (∀ h e, host = Some (h, e) → 0 <= h) →
  file_offset_of host base total tail = Ret (off, tail') → packed host tail (mkBSeg dest off data mem) tail'.
Proof.
  intros Hb Ht Htail Hl -> Hh. unfold file_offset_of, packed, file_end. cbn [bs_dest bs_file_offset bs_data].
  rewrite (wrap_small 32 total) by (unfold is_u; lia). rewrite Hl.
  assert ((let! t := add32 tail 3 in let! e := add32 (Z.land t (Z.lnot 3)) total in Ret (Z.land t (Z.lnot 3), e)) = Ret (off, tail') →
    tail <= off ∧ tail' = off + total ∧ tail' < 2 ^ 32) as Htailcase.
  { unfold add32. case_decide; cbn [ebind]; [|done]. fold (align4 tail). pose proof (align4_bounds tail).
    case_decide; cbn [ebind]; [|done]. intros [= <- <-]. lia. }
  destruct host as [[h e]|]; [destruct (is_host_resident (Some (h, e)) base) eqn:Er|].
  - cbn in Er. rewrite andb_true_iff, !bool_decide_eq_true in Er. specialize (Hh h e eq_refl).
    rewrite wrap_small by (unfold is_u; lia). unfold add32. case_decide; cbn [ebind]; [|done]. intros [= <- <-].
    split_and!; try lia. left. split; [done|]. by exists h, e.
  - intros H%Htailcase. split_and!; lia.
  - intros H%Htailcase. split_and!; try lia. right. split; [done|lia].
Qed.

Lemma link_place_ok ranges placed host name segs st st' :
  segs ≠ [] → Forall link_seg_ok segs → 0 <= lk_tail_cursor st < 2 ^ 32 → (∀ h e, host = Some (h, e) → 0 <= h) →
  (∀ r, find (λ r, bool_decide (r.2 = name)) ranges = Some r → mem_end_of placed r.1 (max_end segs) <= 2 ^ 32) →
  link_place ranges placed host name segs st = Ret (Ok st') →
  ∃ s r, find (λ r, bool_decide (r.2 = name)) ranges = Some r ∧ blob_of segs s ∧ lk_builder st' = push_bseg (lk_builder st) s ∧
    packed host (lk_tail_cursor st) s (lk_tail_cursor st') ∧
    mem_end s = mem_end_of placed r.1 (max_end segs) ∧ Z.of_nat (length (bs_data s)) <= bs_mem_size s < 2 ^ 32.
Proof.
  intros Hne Hok Htail Hh Hmem. unfold link_place. pose proof (sort_by_perm paddr_le segs) as Hperm.
  set (sorted := sort_by paddr_le segs) in *. destruct (find_overlap sorted) as [|] eqn:Eo; [done|]. apply find_overlap_none in Eo.
  destruct sorted as [|first rest] eqn:Es; [done|]. rewrite <- Es in *. cbv beta iota zeta.
  pose proof (sorted_first segs first rest Es) as Hfirst. rewrite (max_end_perm _ _ Hperm). rewrite Hfirst.
  destruct (min_paddr_spec segs Hne) as [Hmin (s0 & Hs0 & E0)]. rewrite Forall_forall in Hok. destruct (Hok s0 Hs0) as (H01 & H02 & H03 & _).
  pose proof (max_end_ge segs s0 Hs0) as Hge. pose proof (max_end_le segs (2 ^ 32) ltac:(lia) (λ s Hs, proj1 (proj2 (proj2 (Hok s Hs))))) as Hle.
  unfold seg_end in Hge, H03. set (base := min_paddr segs) in *. set (end_ := max_end segs) in *.
  destruct (fill_blob_ok base sorted (replicate (Z.to_nat (end_ - base)) 0xFF) Eo) as (blob & Eb & Hlb & Hd & _ & Hbytes).
  { intros s Hs. rewrite Hperm in Hs. rewrite length_replicate. split; [by apply Hmin|]. pose proof (max_end_ge segs s Hs). unfold end_. lia. }
  rewrite Eb. cbn [ebind]. rewrite length_replicate in Hlb.
  destruct (find _ ranges) as [[range nm]|] eqn:Er; [|done]. specialize (Hmem _ eq_refl). cbn [fst] in Hmem.
  case_decide as Hlt; [done|]. set (mend := mem_end_of placed range end_) in *.
  destruct (file_offset_of host base (end_ - base) (lk_tail_cursor st)) as [[off tail']|] eqn:Ef; cbn [ebind]; [|done].
  unfold add_segment. destruct (decide (wrap 32 (mend - base) >= Z.of_nat (length blob))) as [Hge2|]; cbn [ebind]; [|done].
  intros [= <-]. cbn [lk_builder lk_tail_cursor].
  pose proof (wrap_is_u 32 (mend - base) ltac:(lia)) as Hwu. unfold is_u in Hwu.
  assert (mend - base < 2 ^ 32) as Hms.
  { destruct (decide (mend - base < 2 ^ 32)); [done|]. exfalso. assert (mend - base = 2 ^ 32) as E by lia. rewrite E in Hge2.
    change (wrap 32 (2 ^ 32)) with 0 in Hge2. lia. }
  rewrite (wrap_small 32 (mend - base)) in * by (unfold is_u; lia). rewrite (wrap_small 32 base) by (unfold is_u; lia).
  exists (mkBSeg base off blob (mend - base)), (range, nm). split; [done|]. split.
  { unfold blob_of. cbn [bs_dest bs_data]. split; [done|]. split; [unfold end_ in *; lia|]. split.
    - apply Hbytes; [apply Forall_replicate; unfold is_u; lia|]. intros s Hs. rewrite Hperm in Hs. by apply (Hok s Hs).
    - intros g k v Hg. apply Hd. by rewrite Hperm. }
  split; [done|]. split; [eapply file_offset_of_ok; [| | | | |exact Hh|exact Ef]; try done; unfold end_ in *; lia|].
  unfold mem_end. cbn [bs_dest bs_mem_size bs_data fst]. split; lia.
Qed.

(** * Grouping *)

(** The groups made so far hold exactly the segments [done_], each under the name of
    its place. *)
Definition grouped (ranges : list PlaceRange) (done_ : list LinkSegment) (by_place : BTree string (list LinkSegment)) : Prop :=
  ordered by_place ∧
  (∀ name segs, (name, segs) ∈ by_place → segs ≠ [] ∧ ∀ s, s ∈ segs → s ∈ done_ ∧ find_place ranges (ls_paddr s) = Some name) ∧
  (∀ s, s ∈ done_ → ∃ name segs, (name, segs) ∈ by_place ∧ s ∈ segs).

Lemma push_segment_ok ranges done_ by_place s name :
  grouped ranges done_ by_place → find_place ranges (ls_paddr s) = Some name →
  grouped ranges (done_ ++ [s]) (push_segment name s by_place).
Proof.
  intros (Ho & Hg & Hall) Hf. unfold push_segment. set (old := default [] (bt_get name by_place)).
  assert (∀ t, t ∈ old → t ∈ done_ ∧ find_place ranges (ls_paddr t) = Some name) as Hold.
  { intros t Ht. unfold old in Ht. destruct (bt_get name by_place) as [segs|] eqn:E; cbn in Ht; [|by apply elem_of_nil in Ht].
    apply bt_get_elem in E. by apply (Hg name segs). }
  split_and!; [by apply bt_insert_ordered| |].
  - intros n segs [[= -> ->]|Hin]%bt_insert_elem.
    + split; [by destruct old|]. intros t [Ht|Ht]%elem_of_app.
      * destruct (Hold t Ht). split; [apply elem_of_app; by left|done].
      * apply list_elem_of_singleton in Ht as ->. split; [apply elem_of_app; right; constructor|done].
    + destruct (Hg n segs Hin) as [Hne Hs]. split; [done|]. intros t Ht. destruct (Hs t Ht). split; [apply elem_of_app; by left|done].
  - assert ((name, old ++ [s]) ∈ bt_insert name (old ++ [s]) by_place) as Hnew by (apply bt_get_elem, bt_get_insert).
    intros t [Ht|Ht]%elem_of_app.
    + destruct (Hall t Ht) as (n & segs & Hin & Hts). destruct (decide (n = name)) as [->|Hne].
      * exists name, (old ++ [s]). split; [done|]. apply elem_of_app. left. unfold old. by rewrite (ordered_get name segs by_place).
      * exists n, segs. split; [|done]. apply bt_get_elem. rewrite bt_get_insert_ne by done. by apply ordered_get.
    + apply list_elem_of_singleton in Ht as ->. exists name, (old ++ [s]). split; [done|]. apply elem_of_app. right. constructor.
Qed.

Lemma group_segments_ok ranges segs done_ by_place by_place' :
  grouped ranges done_ by_place → group_segments ranges segs by_place = Ok by_place' → grouped ranges (done_ ++ segs) by_place'.
Proof.
  revert done_ by_place. induction segs as [|s segs IH]; intros done_ by_place Hg; cbn.
  - intros [= <-]. by rewrite app_nil_r.
  - destruct (find_place ranges (ls_paddr s)) as [name|] eqn:E; [|done]. intros H. replace (done_ ++ s :: segs) with ((done_ ++ [s]) ++ segs) by by rewrite <- app_assoc.
    eapply IH; [|exact H]. by apply push_segment_ok.
Qed.

(** * The places of an image *)

Fixpoint packed_all (host : option (Z * Z)) (tail : Z) (segs : list BuilderSegment) : Prop :=
  match segs with
  | [] => True
  | s :: segs => ∃ tail', packed host tail s tail' ∧ packed_all host tail' segs
  end.

Definition place_blob (ranges : list PlaceRange) (placed : BTree RegionKey Allocation) (g : string * list LinkSegment)
    (s : BuilderSegment) : Prop :=
  ∃ r, find (λ r, bool_decide (r.2 = g.1)) ranges = Some r ∧ blob_of g.2 s ∧
    mem_end s = mem_end_of placed r.1 (max_end g.2) ∧ Z.of_nat (length (bs_data s)) <= bs_mem_size s < 2 ^ 32.

Definition append_segments (b : PlacesBuilder) (segs : list BuilderSegment) : PlacesBuilder :=
  mkBuilder (b_entry_point b) (b_version b) (b_flash_timestamp b) (b_partitions b) (b_segments b ++ segs).

Section places.
Context (ranges : list PlaceRange) (placed : BTree RegionKey Allocation) (host : option (Z * Z)).

Definition group_ok (g : string * list LinkSegment) : Prop :=
  g.2 ≠ [] ∧ Forall link_seg_ok g.2 ∧
  ∀ r, find (λ r, bool_decide (r.2 = g.1)) ranges = Some r → mem_end_of placed r.1 (max_end g.2) <= 2 ^ 32.

Lemma link_places_ok groups st st' :
  Forall group_ok groups → 0 <= lk_tail_cursor st < 2 ^ 32 → (∀ h e, host = Some (h, e) → 0 <= h) →
  link_places ranges placed host groups st = Ret (Ok st') →
  ∃ segs, lk_builder st' = append_segments (lk_builder st) segs ∧ Forall2 (place_blob ranges placed) groups segs ∧
    packed_all host (lk_tail_cursor st) segs.
Proof.
  intros Hg. revert st. induction Hg as [|[name segs] groups (Hne & Hok & Hmem) Hg IH]; intros st Htail Hh; cbn [link_places].
  - intros [= <-]. exists []. split_and!; [|constructor|done]. unfold append_segments. rewrite app_nil_r. by destruct (lk_builder st).
  - destruct (link_place ranges placed host name segs st) as [[st1|e]|] eqn:E; cbn [ebind]; [|done|done]. intros Hrest.
    destruct (link_place_ok _ _ _ _ _ _ _ Hne Hok Htail Hh Hmem E) as (s & r & Hr & Hb & Eb & Hpk & Hme & Hlen).
    destruct Hpk as (P1 & P2 & P3 & P4 & P5).
    destruct (IH st1 ltac:(lia) Hh Hrest) as (rest & Eb' & Hf & Hp). exists (s :: rest). split_and!.
    + rewrite Eb', Eb. unfold append_segments, push_bseg. cbn. by rewrite <- app_assoc.
    + constructor; [|done]. exists r. done.
    + exists (lk_tail_cursor st1). done.
Qed.
End places.

(** Segments packed behind the cursor start behind it. *)
Lemma packed_all_behind host tail segs s :
  packed_all host tail segs → s ∈ segs → is_host_resident host (bs_dest s) = false → tail <= bs_file_offset s.
Proof.
  intros Hp Hs Hh. revert tail Hp. induction Hs as [s segs|s t segs _ IH]; intros tail (tail' & (H1 & _ & _ & _ & H5) & Hp).
  - destruct H5 as [[? _]|[_ ?]]; [congruence|done].
  - specialize (IH Hh tail' Hp). lia.
Qed.

Lemma packed_all_disjoint host tail segs :
  packed_all host tail segs →
  (∀ i j s t, segs !! i = Some s → segs !! j = Some t → (i < j)%nat → is_host_resident host (bs_dest t) = true →
     is_host_resident host (bs_dest s) = true ∧
     (bs_dest s + Z.of_nat (length (bs_data s)) <= bs_dest t ∨ bs_dest t + Z.of_nat (length (bs_data t)) <= bs_dest s)) →
  segs_disjoint segs.
Proof.
  intros Hp Hh. assert (∀ i j s t, segs !! i = Some s → segs !! j = Some t → (i < j)%nat → file_disjoint s t) as Hlt.
  { revert tail Hp Hh. induction segs as [|x segs IH]; intros tail Hp Hh i j s t Hi Hj Hij; [done|].
    destruct Hp as (tail' & (P1 & P2 & P3 & P4 & P5) & Hp). destruct j as [|j]; [lia|]. cbn in Hj. destruct i as [|i]; cbn in Hi.
    - injection Hi as ->. destruct (is_host_resident host (bs_dest t)) eqn:Et.
      + destruct (Hh O (S j) s t eq_refl Hj ltac:(lia) Et) as [Es Hd]. destruct P5 as [[_ (h & e & -> & E1)]|[? _]]; [|congruence].
        clear IH Hh. revert tail' P1 P2 P4 Hp. assert (t ∈ segs) as Ht by (by eapply list_elem_of_lookup_2). intros tail' _ _ _ Hp.
        assert (bs_file_offset t = bs_dest t - h) as E2.
        { clear - Ht Hp Et. revert tail' Hp. induction Ht as [t segs|t u segs _ IH]; intros tail' (tl & (_ & _ & _ & _ & H5) & Hp).
          - destruct H5 as [[_ (h' & e' & [= <- <-] & ->)]|[? _]]; [done|congruence].
          - by eapply IH. }
        unfold file_disjoint, file_end. lia.
      + left. pose proof (packed_all_behind host tail' segs t Hp ltac:(by eapply list_elem_of_lookup_2) Et). lia.
    - apply (IH tail' Hp) with (i := i) (j := j); [|done|done|lia]. intros i' j' s' t' Hi' Hj' Hij'. apply (Hh (S i') (S j')); [done|done|lia]. }
  intros i j s t Hi Hj Hne. destruct (decide (i < j)%nat); [by apply (Hlt i j)|]. unfold file_disjoint in *.
  destruct (Hlt j i t s Hj Hi ltac:(lia)); [by right|by left].
Qed.

(** * The whole image *)

(** The ranges of the places of the configuration are in the address space and apart. A
    place may have several of them, one for each of its mappings. *)
Definition ranges_ok (ranges : list PlaceRange) : Prop :=
  (∀ r, r ∈ ranges → 0 <= r.1.1 ∧ r.1.2 <= 2 ^ 32) ∧
  ∀ r1 r2, r1 ∈ ranges → r2 ∈ ranges → r1 = r2 ∨ r1.1.2 <= r2.1.1 ∨ r2.1.2 <= r1.1.1.

(** The loadable segments of a place are all addressed through the same mapping of it. *)
Definition one_mapping (ranges : list PlaceRange) (segs : list LinkSegment) : Prop :=
  ∀ s1 s2 r1 r2, s1 ∈ segs → s2 ∈ segs → r1 ∈ ranges → r2 ∈ ranges →
    in_range (ls_paddr s1) r1 = true → in_range (ls_paddr s2) r2 = true → r1.2 = r2.2 → r1 = r2.

(** A loadable segment does not leave the place it starts in. *)
Definition segment_ok (ranges : list PlaceRange) (s : LinkSegment) : Prop :=
  link_seg_ok s ∧ ∀ r, r ∈ ranges → in_range (ls_paddr s) r = true → seg_end s <= r.1.2.

(** Neither does a region of the layout. *)
Definition regions_ok (ranges : list PlaceRange) (placed : BTree RegionKey Allocation) : Prop :=
  ∀ k a r, (k, a) ∈ placed → r ∈ ranges → in_range (al_base a) r = true → al_base a + al_size a <= r.1.2.

Lemma in_range_iff a r : in_range a r = true ↔ r.1.1 <= a < r.1.2.
Proof. unfold in_range. rewrite andb_true_iff, !bool_decide_eq_true. done. Qed.

Lemma find_place_range ranges a name : find_place ranges a = Some name → ∃ r, r ∈ ranges ∧ in_range a r = true ∧ r.2 = name.
Proof.
  unfold find_place. destruct (find (in_range a) ranges) as [r|] eqn:E; cbn; [|done]. intros [= <-].
  apply find_some in E as [Hin Hr]. exists r. split_and!; [by apply list_elem_of_In|done|done].
Qed.

Lemma mem_end_of_le placed range end_ z :
  end_ <= z → (∀ k a, (k, a) ∈ placed → range.1 <= al_base a < range.2 → al_base a + al_size a <= z) → mem_end_of placed range end_ <= z.
Proof.
  intros He Hp. unfold mem_end_of.
  assert (∀ e, e ∈ ((λ ka : RegionKey * Allocation, al_base ka.2 + al_size ka.2) <$>
    base.filter (λ ka, range.1 <= al_base ka.2 ∧ al_base ka.2 < range.2) placed) → e <= z) as Hall.
  { intros e ([k a] & -> & [Hr Hin]%list_elem_of_filter)%list_elem_of_fmap. by apply (Hp k a). }
  destruct (_ <$> _) as [|e es]; [done|].
  assert (∀ es e, e <= z → (∀ x, x ∈ es → x <= z) → foldl Z.max e es <= z) as Hf.
  { clear. induction es as [|x es IH]; intros e He Hx; cbn; [done|]. apply IH; [pose proof (Hx x ltac:(constructor)); lia|]. intros; apply Hx; by constructor. }
  apply Hf; [apply Hall; constructor|]. intros; apply Hall; by constructor.
Qed.

(** Without an allocation the memory ends with the data; else with an allocation. *)
Lemma mem_end_of_alloc placed range end_ z :
  (∀ k a, (k, a) ∈ placed → range.1 <= al_base a < range.2 → al_base a + al_size a <= z) → mem_end_of placed range end_ = end_ ∨ mem_end_of placed range end_ <= z.
Proof.
  intros Hp. destruct (decide (end_ <= z)) as [He|He]; [right; by apply mem_end_of_le|]. unfold mem_end_of.
  assert (∀ e, e ∈ ((λ ka : RegionKey * Allocation, al_base ka.2 + al_size ka.2) <$>
    base.filter (λ ka, range.1 <= al_base ka.2 ∧ al_base ka.2 < range.2) placed) → e <= z) as Hall.
  { intros e ([k a] & -> & [Hr Hin]%list_elem_of_filter)%list_elem_of_fmap. by apply (Hp k a). }
  destruct (_ <$> _) as [|e es]; [by left|right]. pose proof (Hall e ltac:(constructor)) as H0. assert (∀ x, x ∈ es → x <= z) as H by (intros; apply Hall; by constructor). clear Hall.
  revert e H0. induction es as [|x es IH]; intros e He0; cbn; [done|]. apply IH; [intros; apply H; by constructor|]. pose proof (H x ltac:(constructor)). lia.
Qed.

(** The ranges are sorted, and the first of a name is the lowest. *)
Definition ranges_sorted (ranges : list PlaceRange) : Prop := StronglySorted (λ a b, range_le a b = true) ranges.

Lemma add_image_place_sorted ip ranges : ranges_sorted (add_image_place (Some ip) ranges).
Proof.
  apply sort_by_sorted; unfold range_le.
  - intros a b. rewrite bool_decide_eq_false, bool_decide_eq_true. lia.
  - intros a b c. rewrite !bool_decide_eq_true. lia.
Qed.

Lemma find_lowest ranges f r r' : ranges_sorted ranges → find f ranges = Some r → r' ∈ ranges → f r' = true → r.1.1 <= r'.1.1.
Proof.
  intros Hs. induction Hs as [|x l Hs IH Hall]; cbn; [done|]. destruct (f x) eqn:Ex.
  - intros [= <-] [->|Hin]%elem_of_cons _; [done|]. rewrite Forall_forall in Hall. specialize (Hall r' Hin). unfold range_le in Hall. by rewrite bool_decide_eq_true in Hall.
  - intros Hf [->|Hin]%elem_of_cons Hr; [congruence|]. by apply IH.
Qed.

Section image.
Context (ranges : list PlaceRange) (placed : BTree RegionKey Allocation) (h e : Z) (hname : string).
Context (Hranges : ranges_ok ranges) (Hsorted : ranges_sorted ranges) (Hhost : ((h, e), hname) ∈ ranges) (Hregions : regions_ok ranges placed).

(** What is known of a group of segments. *)
Definition group_in (segments : list LinkSegment) (g : string * list LinkSegment) : Prop :=
  g.2 ≠ [] ∧ ∀ s, s ∈ g.2 → s ∈ segments ∧ find_place ranges (ls_paddr s) = Some g.1.

Context (segments : list LinkSegment) (Hsegs : Forall (segment_ok ranges) segments) (Hone : one_mapping ranges segments).

(** One range of the place holds the segments of a group. *)
Lemma group_segments_range g :
  group_in segments g → ∃ r, r ∈ ranges ∧ r.2 = g.1 ∧ r.1.1 <= min_paddr g.2 < r.1.2 ∧ max_end g.2 <= r.1.2 ∧ min_paddr g.2 < max_end g.2.
Proof.
  intros [Hne Hin]. rewrite Forall_forall in Hsegs. destruct (min_paddr_spec g.2 Hne) as [_ (s & Hs & <-)].
  destruct (Hin s Hs) as [Hs1 (r & Hr & Hir & En)%find_place_range]. exists r.
  assert (∀ t, t ∈ g.2 → seg_end t <= r.1.2) as Hall.
  { intros t Ht. destruct (Hin t Ht) as [Ht1 (r' & Hr' & Hir' & En')%find_place_range].
    assert (r' = r) as -> by (apply (Hone t s); congruence). by apply (proj2 (Hsegs t Ht1)). }
  pose proof (proj1 (in_range_iff _ _) Hir) as Hrange. destruct (proj1 Hranges r Hr). destruct (proj1 (Hsegs s Hs1)) as (_ & Hlen & _ & _).
  pose proof (max_end_ge g.2 s Hs) as Hge. unfold seg_end in Hge. split_and!; [done|done|lia|lia| |lia]. apply max_end_le; [lia|done].
Qed.

(** It holds the blob, and its memory. *)
Lemma group_range g s :
  group_in segments g → place_blob ranges placed g s →
  ∃ r, r ∈ ranges ∧ r.2 = g.1 ∧ r.1.1 <= bs_dest s < r.1.2 ∧ bs_dest s + Z.of_nat (length (bs_data s)) <= r.1.2 ∧ mem_end s <= r.1.2.
Proof.
  intros Hg (r0 & Hf & (Ed & El & _ & _) & Hm & Hl). destruct (group_segments_range g Hg) as (r & Hr & En & Hmin & Hmax & Hlt). exists r.
  rewrite Ed in *. split_and!; [done|done|lia|lia|lia|]. pose proof (find_lowest ranges _ r0 r Hsorted Hf Hr ltac:(by rewrite bool_decide_eq_true)) as Hlow.
  apply find_some in Hf as [Hr0%list_elem_of_In _]. assert (max_end g.2 <= mem_end s) as Hge by (unfold mem_end; lia). rewrite Hm in *.
  destruct (mem_end_of_alloc placed r0.1 (max_end g.2) r0.1.2) as [->|Hle]; [|done|].
  - intros k a Hka Hr2. apply (Hregions k a r0); [done|done|by apply in_range_iff].
  - destruct (proj2 Hranges r0 r Hr0 Hr) as [->|[?|?]]; lia.
Qed.

Lemma group_in_ok g : group_in segments g → group_ok ranges placed g.
Proof.
  intros Hg. pose proof Hg as [Hne Hin]. split_and!; [done| |].
  - apply Forall_forall. intros s Hs. rewrite Forall_forall in Hsegs. by apply (Hsegs s), Hin.
  - intros r Hf. destruct (group_segments_range g Hg) as (r' & Hr' & _ & _ & Hmax & _). destruct (proj1 Hranges r' Hr'). apply find_some in Hf as [Hr%list_elem_of_In _].
    apply mem_end_of_le; [lia|]. intros k a Hka Hr2. destruct (proj1 Hranges r Hr). pose proof (Hregions k a r Hka Hr (proj2 (in_range_iff _ _) Hr2)). lia.
Qed.

Lemma host_resident_iff a : is_host_resident (Some (h, e)) a = true ↔ h <= a < e.
Proof. unfold is_host_resident. rewrite andb_true_iff, !bool_decide_eq_true. done. Qed.

Context (groups : list (string * list LinkSegment)) (segs : list BuilderSegment).
Context (Hgroups : Forall (group_in segments) groups) (Hnames : NoDup groups.*1).
Context (Hfirst : StronglySorted (λ a b, host_le (Some (h, e)) a b = true) groups).
Context (Hblobs : Forall2 (place_blob ranges placed) groups segs).

(** A segment of the image with the place it is from. *)
Lemma blob_range i s :
  segs !! i = Some s → ∃ g r, groups !! i = Some g ∧ r ∈ ranges ∧ r.2 = g.1 ∧ blob_of g.2 s ∧
    r.1.1 <= bs_dest s < r.1.2 ∧ bs_dest s + Z.of_nat (length (bs_data s)) <= r.1.2 ∧ mem_end s <= r.1.2 ∧
    Z.of_nat (length (bs_data s)) <= bs_mem_size s.
Proof.
  intros Hi. destruct (Forall2_lookup_r _ _ _ _ _ Hblobs Hi) as (g & Hg & Hblob). exists g.
  destruct (group_range g s (Forall_lookup_1 _ _ _ _ Hgroups Hg) Hblob) as (r & Hr & En & Hmin & Hmax & Hme).
  destruct Hblob as (_ & _ & Hb & _ & Hl). exists r. split_and!; try done; lia.
Qed.

Lemma ranges_differ i j g1 g2 r1 r2 :
  groups !! i = Some g1 → groups !! j = Some g2 → i ≠ j → r1 ∈ ranges → r2 ∈ ranges → r1.2 = g1.1 → r2.2 = g2.1 →
  r1.1.2 <= r2.1.1 ∨ r2.1.2 <= r1.1.1.
Proof.
  intros H1 H2 Hne Hr1 Hr2 E1 E2. destruct (proj2 Hranges r1 r2 Hr1 Hr2) as [->|?]; [|done].
  destruct Hne. apply (NoDup_lookup groups.*1 i j r2.2 Hnames); rewrite list_lookup_fmap; [rewrite H1|rewrite H2]; cbn; congruence.
Qed.

Lemma blobs_apart i j s t :
  segs !! i = Some s → segs !! j = Some t → i ≠ j → mem_end s <= bs_dest t ∨ mem_end t <= bs_dest s.
Proof.
  intros Hi Hj Hne. destruct (blob_range i s Hi) as (g1 & r1 & G1 & R1 & E1 & _ & ? & ? & ? & ?).
  destruct (blob_range j t Hj) as (g2 & r2 & G2 & R2 & E2 & _ & ? & ? & ? & ?).
  destruct (ranges_differ i j g1 g2 r1 r2 G1 G2 Hne R1 R2 E1 E2); lia.
Qed.

Lemma blobs_disjoint tail : packed_all (Some (h, e)) tail segs → segs_disjoint segs.
Proof.
  intros Hp. apply (packed_all_disjoint _ _ _ Hp). intros i j s t Hi Hj Hij Ht.
  destruct (blob_range i s Hi) as (g1 & r1 & G1 & _ & _ & (D1 & _) & _ & _ & _ & L1).
  destruct (blob_range j t Hj) as (g2 & r2 & G2 & _ & _ & (D2 & _) & _ & _ & _ & L2). split.
  - rewrite D1, D2 in *. pose proof (StronglySorted_lookup _ _ _ _ _ _ Hfirst G1 G2 Hij) as Hle. unfold host_le in Hle.
    rewrite Ht in Hle. by rewrite orb_false_r in Hle.
  - unfold mem_end in *. pose proof (blobs_apart i j s t Hi Hj ltac:(lia)) as Ha. unfold mem_end in Ha. lia.
Qed.
(** A blob is run from flash, or its place is not that of the image. *)
Lemma blob_resident tail i s :
  packed_all (Some (h, e)) tail segs → segs !! i = Some s → bs_dest s = h + bs_file_offset s ∨
  ∃ r, r ∈ ranges ∧ r.1.1 <= bs_dest s ∧ mem_end s <= r.1.2 ∧ (r.1.2 <= h ∨ e <= r.1.1).
Proof.
  intros Hp Hi. destruct (is_host_resident (Some (h, e)) (bs_dest s)) eqn:Er.
  - left. clear - Hp Hi Er. revert tail i Hp Hi. induction segs as [|t l IH]; intros tail i; [done|].
    intros (tl & (_ & _ & _ & _ & H5) & Hp) Hi. destruct i as [|i]; [|by eapply IH]. cbn in Hi. injection Hi as ->.
    destruct H5 as [[_ (h' & e' & [= <- <-] & ->)]|[? _]]; [lia|congruence].
  - right. destruct (blob_range i s Hi) as (g & r & _ & Hr & _ & _ & Hd & _ & Hm & Hl). exists r. split_and!; [done|lia|done|].
    destruct (proj2 Hranges r _ Hr Hhost) as [->|Ha]; [|done]. cbn in Hd.
    assert (is_host_resident (Some (h, e)) (bs_dest s) = true) by (by apply host_resident_iff). congruence.
Qed.

(** The blobs have memory of their own, for an image flashed to its place. *)
Lemma linked_placement b tail :
  b_segments b = segs → packed_all (Some (h, e)) tail segs → total_size b <= e - h → placement_ok b h.
Proof.
  intros Eb Hp Hfit. destruct (proj1 Hranges _ Hhost) as [Hh He]. cbn in Hh, He.
  unfold placement_ok. rewrite Eb. split_and!; [lia|lia| |].
  - intros i s Hi. destruct (blob_resident tail i s Hp Hi) as [?|(r & Hr & ? & ? & ?)]; [by left|right].
    destruct (proj1 Hranges r Hr). lia.
  - intros i j s t Hi Hj Hne. right. right. by eapply blobs_apart.
Qed.
End image.

(** * From ELF files to a running image *)

Lemma parse_digits_u16 s acc v : 0 <= acc < 2 ^ 16 → parse_digits s acc = Some v → is_u 16 v.
Proof.
  revert acc. induction s as [|c s IH]; intros acc Ha; cbn; [intros [= <-]; unfold is_u; lia|].
  unfold digit. case_decide; [|done]. case_decide; [|done]. apply IH. lia.
Qed.

Lemma parse_u16_u16 s v : parse_u16 s = Some v → is_u 16 v.
Proof.
  destruct s as [|c s]; [done|]. unfold parse_u16. destruct (Ascii.eqb c _); [|apply parse_digits_u16; lia].
  destruct s; [done|]. apply parse_digits_u16. lia.
Qed.

Lemma with_version_ok v b : version_ok (b_version b) → version_ok (b_version (with_version v b)).
Proof.
  intros Hb. destruct v as [s|]; [|done]. unfold with_version. destruct (omap parse_u16 (split_dot s)) as [|x [|y [|z l]]] eqn:E; try done.
  assert (∀ w, w ∈ x :: y :: z :: l → is_u 16 w) as Hw.
  { intros w Hw. rewrite <- E in Hw. apply list_elem_of_omap in Hw as (t & _ & Ht). by eapply parse_u16_u16. }
  cbn. split_and!; apply Hw; repeat constructor.
Qed.

(** What the loop over the places leaves alone. *)
Definition same_frame (b b' : PlacesBuilder) : Prop :=
  b_entry_point b' = b_entry_point b ∧ b_version b' = b_version b ∧ b_flash_timestamp b' = b_flash_timestamp b ∧ b_segments b' = b_segments b.

Lemma name_hash_u32 l : is_u 32 (name_hash l).
Proof.
  unfold name_hash. assert (∀ h, is_u 32 h → is_u 32 (foldl (λ h b, wrap 32 (Z.lxor h b * FNV_PRIME)) h l)) as H; [|apply H; by vm_compute].
  induction l as [|x l IH]; intros h Hh; cbn; [done|]. apply IH. apply wrap_is_u. lia.
Qed.

Lemma add_partitions_ok config places b :
  Forall part_ok (b_partitions b) →
  Forall part_ok (b_partitions (foldl (add_place_partition config) b places)) ∧ same_frame b (foldl (add_place_partition config) b places).
Proof.
  revert b. induction places as [|[n p] places IH]; intros b Hb; cbn [foldl]; [done|].
  assert (Forall part_ok (b_partitions (add_place_partition config b (n, p))) ∧ same_frame b (add_place_partition config b (n, p))) as [H1 H2].
  { unfold add_place_partition. cbn. destruct (pl_offset p) as [o|]; [|done]. split; [|done]. cbn. apply Forall_app. split; [done|].
    constructor; [|constructor]. unfold part_ok. cbn. split_and!; [apply name_hash_u32|apply wrap_is_u; lia|apply wrap_is_u; lia|].
    destruct (pl_unmapped p), (bool_decide _); by vm_compute. }
  destruct (IH _ H1) as [H3 (E1 & E2 & E3 & E4)]. split; [done|]. destruct H2 as (F1 & F2 & F3 & F4). unfold same_frame. split_and!; congruence.
Qed.

Lemma host_first_sorted host (groups : list (string * list LinkSegment)) :
  StronglySorted (λ a b, host_le host a b = true) (sort_by (host_le host) groups).
Proof.
  apply sort_by_sorted; unfold host_le; intros a b; [|intros c];
    destruct (is_host_resident host (min_paddr a.2)), (is_host_resident host (min_paddr b.2)); try done.
Qed.

(** The assumptions on a build: the place of the image, at its first mapping, is one of
    the ranges, these are apart, neither segments nor regions leave the range they start
    in, and the loadable segments of a place use one of its mappings. *)
Record build_fits (program_headers : list Z → option (list ProgramHeader)) (artifacts : list CompileArtifact)
    (config : AppConfig) (layout : Layout) (ip : Place) (now h e : Z) : Prop := mkFits {
  bf_host : host_range (Some ip) = Some (h, e);
  bf_named : ∃ name, ((h, e), name) ∈ add_image_place (Some ip) (build_place_ranges config);
  bf_ranges : ranges_ok (add_image_place (Some ip) (build_place_ranges config));
  bf_regions : regions_ok (add_image_place (Some ip) (build_place_ranges config)) (ly_placed layout);
  bf_segments : ∀ segs, collect_segments program_headers artifacts = Ok segs →
    Forall (segment_ok (add_image_place (Some ip) (build_place_ranges config))) segs ∧
    one_mapping (add_image_place (Some ip) (build_place_ranges config)) segs;
  bf_now : is_u 64 now;
}.

(** The image that is linked: it is well-formed, its segments are apart in the
    file and in memory, and each loadable segment is part of one. *)
Definition linked_ok (ranges : list PlaceRange) (segs : list LinkSegment) (code : Allocation) (h e : Z) (b : PlacesBuilder) : Prop :=
  b_entry_point b = wrap 32 (al_base code) ∧ offsets_ok b ∧ (total_size b <= e - h → total_size b < 2 ^ 32 → builder_ok b ∧ placement_ok b h) ∧ segs_disjoint (b_segments b) ∧
  (∀ s, s ∈ segs → ∃ i t, b_segments b !! i = Some t ∧
     ∀ k v, ls_data s !! k = Some v → bs_dest t <= ls_paddr s ∧ bs_data t !! (Z.to_nat (ls_paddr s - bs_dest t) + k)%nat = Some v) ∧
  (∀ i t, b_segments b !! i = Some t → bs_dest t = h + bs_file_offset t ∨
     ∃ r, r ∈ ranges ∧ r.1.1 <= bs_dest t ∧ mem_end t <= r.1.2 ∧ (r.1.2 <= h ∨ e <= r.1.1)).

(** The builder before the places are added. *)
Definition frame_ok (code : Allocation) (b : PlacesBuilder) : Prop :=
  b_entry_point b = wrap 32 (al_base code) ∧ version_ok (b_version b) ∧ is_u 64 (b_flash_timestamp b) ∧
  Forall part_ok (b_partitions b) ∧ b_segments b = [].

Lemma link_builder_inv program_headers artifacts config layout ip now st :
  is_u 64 now → link_builder program_headers artifacts config layout ip now = Ret (Ok st) →
  ∃ segs by_place code b0, collect_segments program_headers artifacts = Ok segs ∧
    group_segments (add_image_place ip (build_place_ranges config)) segs [] = Ok by_place ∧
    bt_get ("kernel"%string, "code"%string) (ly_placed layout) = Some code ∧ frame_ok code b0 ∧
    link_places (add_image_place ip (build_place_ranges config)) (ly_placed layout) (host_range ip)
      (sort_by (host_le (host_range ip)) by_place) (mkLinkState b0 0 []) = Ret (Ok st).
Proof.
  intros Hnow. unfold link_builder. destruct (collect_segments program_headers artifacts) as [[|s0 segs0]|err] eqn:Es; [done| |done].
  destruct (group_segments _ _ []) as [by_place|err] eqn:Eg; [|done].
  destruct (bt_get ("kernel"%string, "code"%string) (ly_placed layout)) as [code|] eqn:Ecode; [|done]. intros Hlink.
  set (b1 := with_version (ac_version config) (builder_new (wrap 32 (al_base code)))) in *.
  assert (version_ok (b_version b1)) as Hv by (apply with_version_ok; split_and!; by vm_compute).
  assert (b_entry_point b1 = wrap 32 (al_base code) ∧ b_segments b1 = [] ∧ b_partitions b1 = []) as (E1 & E2 & E3).
  { unfold b1, with_version. destruct (ac_version config); [|done]. by destruct (omap _ _) as [|? [|? [|? ?]]]. }
  destruct (add_partitions_ok config (ac_places config) (set_flash_timestamp b1 now)) as [Hp (F1 & F2 & F3 & F4)]; [cbn; by rewrite E3|].
  eexists (s0 :: segs0), by_place, code, _. split_and!; [done|exact Eg|done| |exact Hlink].
  unfold frame_ok. rewrite F1, F2, F3, F4. cbn. split_and!; done.
Qed.

(** The segments of the builder have the widths of the format. *)
Lemma blobs_ok ranges placed host groups segs tail :
  ranges_ok ranges → Forall2 (λ g s, ∃ r, r ∈ ranges ∧ r.1.1 <= bs_dest s < r.1.2 ∧ mem_end s <= r.1.2) groups segs →
  Forall2 (place_blob ranges placed) groups segs → packed_all host tail segs → Forall bseg_ok segs.
Proof.
  intros Hranges Hg Hf. revert tail. induction Hf as [|g s groups segs Hb Hf IH]; intros tail Hp; [constructor|].
  apply Forall2_cons_1 in Hg as [(r & Hin & H1 & H2) Hg]. destruct Hp as (tail' & (P1 & P2 & P3 & P4 & _) & Hp). constructor; [|by eapply IH].
  destruct Hb as (r0 & _ & (Ed & El & Hbytes & _) & Hm & Hl). destruct (proj1 Hranges r Hin).
  unfold bseg_ok, is_u. unfold mem_end, file_end in *. split_and!; try done; lia.
Qed.

Lemma link_builder_ok program_headers artifacts config layout ip now h e st :
  build_fits program_headers artifacts config layout ip now h e →
  link_builder program_headers artifacts config layout (Some ip) now = Ret (Ok st) →
  ∃ segs code, collect_segments program_headers artifacts = Ok segs ∧
    bt_get ("kernel"%string, "code"%string) (ly_placed layout) = Some code ∧
    linked_ok (add_image_place (Some ip) (build_place_ranges config)) segs code h e (lk_builder st).
Proof.
  intros [Ehost [hname Hhost] Hranges Hregions Hsegs Hnow] Hlink.
  destruct (link_builder_inv _ _ _ _ _ _ _ Hnow Hlink) as (segs & by_place & code & b0 & Es & Eg & Ecode & Hb0 & Hpl).
  pose proof (add_image_place_sorted ip (build_place_ranges config)) as Hsorted.
  set (ranges := add_image_place _ _) in *. rewrite Ehost in Hpl. destruct (Hsegs segs Es) as [Hsegs1 Hone]. clear Hsegs. rename Hsegs1 into Hsegs. exists segs, code. split; [done|]. split; [done|].
  apply group_segments_ok with (done_ := []) in Eg as (Hord & Hgrp & Hall).
  2:{ split_and!; [constructor|by intros ?? ?%elem_of_nil|by intros ? ?%elem_of_nil]. }
  set (groups := sort_by (host_le (Some (h, e))) by_place) in *. cbn [app] in *.
  assert (Forall (group_in ranges segs) groups) as Hgroups.
  { unfold groups. rewrite sort_by_perm. apply Forall_forall. intros [n l] Hin. exact (Hgrp n l Hin). }
  assert (NoDup groups.*1) as Hnames by (unfold groups; rewrite sort_by_perm; by apply ordered_nodup).
  pose proof (host_first_sorted (Some (h, e)) by_place) as Hfirst. fold groups in Hfirst.
  destruct (proj1 Hranges _ Hhost) as [Hh0 He0]. cbn in Hh0, He0.
  destruct (link_places_ok ranges (ly_placed layout) (Some (h, e)) groups (mkLinkState b0 0 []) st) as (bsegs & Eb & Hblobs & Hpack);
    [|cbn; lia|by intros ?? [= <- <-]|exact Hpl|].
  { eapply Forall_impl; [exact Hgroups|]. intros g. apply group_in_ok; done. }
  cbn [lk_builder lk_tail_cursor] in Eb, Hpack. destruct Hb0 as (B1 & B2 & B3 & B4 & B5). unfold append_segments in Eb. rewrite B5 in Eb. cbn [app] in Eb.
  assert (b_segments (lk_builder st) = bsegs) as Ebs by (by rewrite Eb).
  assert (Forall bseg_ok bsegs) as Hwidths.
  { eapply blobs_ok; [exact Hranges| |exact Hblobs|exact Hpack]. apply Forall2_same_length_lookup_2; [by eapply Forall2_length|]. intros i g s Hgi Hsi.
    destruct (group_range ranges (ly_placed layout) Hranges Hsorted Hregions segs Hsegs Hone g s) as (r & ? & _ & ? & _ & ?);
      [by eapply Forall_lookup_1|by eapply Forall2_lookup_lr|by exists r]. }
  unfold linked_ok. split_and!.
  - by rewrite Eb.
  - unfold offsets_ok. rewrite Ebs. eapply Forall_impl; [exact Hwidths|]. intros t (_ & [? _] & _). done.
  - intros Hfit Hlt. split; [|by eapply (linked_placement ranges (ly_placed layout) h e hname)].
    unfold builder_ok. rewrite Ebs. rewrite Eb. cbn [b_entry_point b_version b_flash_timestamp b_partitions]. rewrite B1.
    split_and!; [apply wrap_is_u; lia|done|done|done|done|by rewrite Eb in Hlt].
  - rewrite Ebs. by eapply (blobs_disjoint ranges (ly_placed layout) h e).
  - intros s Hs. destruct (Hall s Hs) as (n & l & Hin & Hsl).
    assert ((n, l) ∈ groups) as [i Hi]%list_elem_of_lookup by (unfold groups; by rewrite sort_by_perm).
    destruct (Forall2_lookup_l _ _ _ _ _ Hblobs Hi) as (t & Ht & r & _ & (Ed & _ & _ & Hdata) & _). exists i, t. rewrite Ebs. split; [done|].
    intros k v Hk. split; [|by apply Hdata]. rewrite Ed. apply min_paddr_spec; [|done]. cbn. intros E. rewrite E in Hsl. by apply elem_of_nil in Hsl.
  - rewrite Ebs. intros i t Hi. by apply (blob_resident ranges (ly_placed layout) h e hname Hranges Hsorted Hhost Hregions segs Hsegs Hone groups bsegs Hgroups Hblobs 0 i t).
Qed.

(** C12: a linked image runs. The host links the ELF files of the kernel and the
    tasks, writes the image to its place in flash, at the first mapping of it, and a
    flash table that names it. The places may be mapped at several addresses, as the
    flash and the PSRAM of the boards are; the ranges of the places are apart, segments
    and regions stay in the range they start in, and the loadable segments of a place
    use one of its mappings ([build_fits]). Then the bootloader jumps to the code of
    the kernel, with every loadable segment of every file in memory at its own address;
    nothing outside of the places has changed, nor the place of the image. Memory is a
    function of the address: that two mappings show the same bytes is not modelled. *)
Theorem linked_image_runs program_headers artifacts config layout ip now h e bin layouts m ftab_base src dest size l :
  build_fits program_headers artifacts config layout ip now h e →
  link_image program_headers artifacts config layout (Some ip) now = Ret (Ok (bin, layouts)) →
  Z.of_nat (length bin) <= e - h → e - h < 0xFFFFFFFF →
  build_ftab ftab_base src dest size [(FTAB_PLACES_SLOT_A, h, Z.of_nat (length bin))] = Ret l → bytes_at m FTAB_ADDR (length l) = l →
  bytes_at m h (length bin) = bin →
  ∃ segs code m', collect_segments program_headers artifacts = Ok segs ∧
    bt_get ("kernel"%string, "code"%string) (ly_placed layout) = Some code ∧
    bootloader_main m = Ret (Jump (wrap 32 (al_base code)) m') ∧
    (∀ s, s ∈ segs → bytes_at m' (ls_paddr s) (length (ls_data s)) = ls_data s) ∧
    (∀ x, h <= x < e ∨ (∀ r, r ∈ add_image_place (Some ip) (build_place_ranges config) → in_range x r = false) → m' x = m x).
Proof.
  intros Hfits Hlink Hsize Hmax El Hl Hbin. unfold link_image in Hlink.
  destruct (link_builder _ _ _ _ _ _) as [[st|err]|] eqn:Eb; cbn [ebind] in Hlink; [|discriminate Hlink|discriminate Hlink].
  destruct (build (lk_builder st)) as [bin'|] eqn:Ebuild; cbn [ebind] in Hlink; [|discriminate Hlink]. injection Hlink as -> _.
  destruct (link_builder_ok _ _ _ _ _ _ _ _ _ Hfits Eb) as (segs & code & Es & Ec & He & Ho & Hok & Hd & Hin & Hout).
  set (b := lk_builder st) in *. destruct (total_size_bin b bin Ho Ebuild) as [Ebin Elen]. destruct Hok as [Hb Hp]; [lia|lia|].
  set (f := mkFlashed b h (image_checksum b) STATE_DEFAULT_RAW). assert (flashed_in m f) as Hflash.
  { refine (flashed_intro m b h (image_checksum b) STATE_DEFAULT_RAW Hb Hd Hp _ (crc32_u32 _) _ _); [lia|const_u|]. rewrite <- Ebin. exact Hbin. }
  rewrite Elen in El. change (FTAB_PLACES_SLOT_A, h, total_size b) with (slot_a f) in El.
  destruct (lone_image_boots m f ftab_base src dest size l El Hl Hflash) as (o & Hboot & m' & -> & Hload & Hsame).
  exists segs, code, m'. split; [exact Es|]. split; [exact Ec|]. split; [rewrite Hboot, <- He; reflexivity|]. split.
  - intros s Hs. destruct (Hin s Hs) as (i & t & Ht & Hdata). apply bytes_at_eq. intros k v Hk. destruct (Hdata k v Hk) as [Hle Hv].
    destruct (Hload i t Ht) as [Hbytes _]. rewrite (bytes_at_eq m') in Hbytes. specialize (Hbytes _ _ Hv). rewrite <- Hbytes. f_equal. lia.
  - intros x Hx. apply Hsame. intros t [i Hi]%list_elem_of_lookup. destruct (Hout i t Hi) as [?|(r & Hr & H1 & H2 & H3)]; [by left|right].
    destruct Hx as [Hx|Hx]; [lia|]. intros Hin2. specialize (Hx r Hr). apply not_true_iff_false in Hx. apply Hx, in_range_iff. lia.
Qed.

(** * A build *)

Section example.
Open Scope string_scope.

(** The memory of the board: flash and PSRAM with two mappings each, and SRAM. *)
Definition ex_flash : Place :=
  mkPlace 0x7D000 [mkMapping 0x12000000 0xE000000 true false true; mkMapping 0x62000000 0x3E000000 true false false] (Some 0x5000) false (Some "code_generic").
Definition ex_psram : Place :=
  mkPlace 0x800000 [mkMapping 0x10000000 0x800000 true true true; mkMapping 0x60000000 0x800000 true true false] None false (Some "psram").
Definition ex_fast : Place := mkPlace 0x20000 [mkMapping 0x20020000 0x20000 true true true] None false (Some "fast").
Definition ex_bulk : Place := mkPlace 0x3FE00 [mkMapping 0x20040000 0x3FE00 true true true] None false (Some "bulk").

Definition ex_config : AppConfig :=
  mkApp (Some "1.4.2") [("bulk", ex_bulk); ("code_generic", ex_flash); ("fast", ex_fast); ("psram", ex_psram)] [] None [] [].

(** The kernel runs in SRAM, the task in flash; the frame buffers are in PSRAM. *)
Definition ex_layout : Layout :=
  mkLayout [(("compositor", "frame_buffers"), mkAlloc 0x60000000 0x80000); (("idle", "code"), mkAlloc 0x12005000 64);
    (("kernel", "code"), mkAlloc 0x20040000 32); (("kernel", "data"), mkAlloc 0x20020000 256)] [] [].

(** Files of 64 bytes of headers and the code. *)
Definition ex_file (code : list Z) : list Z := replicate 64 0 ++ code.
Definition ex_artifacts : list CompileArtifact :=
  [mkArtifact "kernel" (Some (ex_file [1; 2; 3; 4; 5])); mkArtifact "idle" (Some (ex_file [7; 8; 9]))].
Definition ex_headers (data : list Z) : option (list ProgramHeader) :=
  Some [mkPhdr PT_LOAD 0 0 64; mkPhdr PT_LOAD 64 (if bool_decide (length data = 69%nat) then 0x20040000 else 0x12005000) (Z.of_nat (length data) - 64)].

Definition ex_bin : list Z :=
  match link_image ex_headers ex_artifacts ex_config ex_layout (Some ex_flash) 1700000000 with Ret (Ok (bin, _)) => bin | _ => [] end.

Definition ex_layouts : BTree string PlaceLayout :=
  [("bulk", mkPlaceLayout 4 0x20040000); ("code_generic", mkPlaceLayout 0 0x12005000)].

Lemma ex_linked : link_image ex_headers ex_artifacts ex_config ex_layout (Some ex_flash) 1700000000 = Ret (Ok (ex_bin, ex_layouts)).
Proof. vm_compute. reflexivity. Qed.

Definition ex_range_list : list PlaceRange :=
  [((0x10000000, 0x10800000), "psram"); ((0x12005000, 0x12082000), "code_generic"); ((0x20020000, 0x20040000), "fast");
   ((0x20040000, 0x2007FE00), "bulk"); ((0x60000000, 0x60800000), "psram"); ((0x62005000, 0x62082000), "code_generic")].

Lemma ex_ranges : add_image_place (Some ex_flash) (build_place_ranges ex_config) = ex_range_list.
Proof. vm_compute. reflexivity. Qed.

Definition ex_segs : list LinkSegment := [mkLink 0x20040000 [1; 2; 3; 4; 5] "kernel"; mkLink 0x12005000 [7; 8; 9] "idle"].

Lemma ex_collected segs : collect_segments ex_headers ex_artifacts = Ok segs → segs = ex_segs.
Proof. intros H. vm_compute in H. by injection H. Qed.

(** The ranges of the example, one after the other. *)
Ltac each_range H := apply list_elem_of_In in H; cbn in H; destruct H as [<-|[<-|[<-|[<-|[<-|[<-|[]]]]]]]; cbn in *.

Lemma ex_fits : build_fits ex_headers ex_artifacts ex_config ex_layout ex_flash 1700000000 0x12005000 0x12082000.
Proof.
  constructor; rewrite ?ex_ranges.
  - reflexivity.
  - exists "code_generic". constructor. constructor.
  - split.
    + apply Forall_forall. repeat constructor; vm_compute; congruence.
    + intros r1 r2 H1 H2. each_range H1; each_range H2; first [by left | right; lia].
  - intros k a r Hk Hr. rewrite in_range_iff. apply list_elem_of_In in Hk. cbn in Hk.
    destruct Hk as [[= <- <-]|[[= <- <-]|[[= <- <-]|[[= <- <-]|[]]]]]; each_range Hr; lia.
  - intros segs ->%ex_collected. split.
    + apply Forall_cons_2; [|apply Forall_cons_2; [|constructor]].
      all: unfold segment_ok, link_seg_ok, seg_end; cbn [ls_paddr ls_data length]; split; [split_and!; [lia|lia|lia|]|].
      all: try (intros r Hr; rewrite in_range_iff; each_range Hr; lia).
      all: repeat (apply Forall_cons_2; [const_u|]); constructor.
    + intros s1 s2 r1 r2 H1 H2 H3 H4. rewrite !in_range_iff. apply list_elem_of_In in H1, H2. cbn in H1, H2.
      destruct H1 as [<-|[<-|[]]], H2 as [<-|[<-|[]]]; cbn [ls_paddr]; each_range H3; each_range H4; first [done | lia].
  - const_u.
Qed.

Definition ex_images : list (nat * Z * Z) := [(FTAB_PLACES_SLOT_A, 0x12005000, Z.of_nat (length ex_bin))].
Definition ex_ftab : list Z := sec_bytes (fill_sec FTAB_ADDR 0x12005000 0x20040000 6 ex_images) ++ replicate (Z.to_nat 9200) 0xFF.
Definition ex_device : Mem := store_bytes (store_bytes (λ _, 0xFF) FTAB_ADDR ex_ftab) 0x12005000 ex_bin.

Lemma ex_ftab_read : bytes_at ex_device FTAB_ADDR (length ex_ftab) = ex_ftab.
Proof.
  assert (Z.of_nat (length ex_ftab) = 20480) as Hl.
  { unfold ex_ftab. rewrite length_app, length_replicate. pose proof (length_sec_bytes FTAB_ADDR 0x12005000 0x20040000 6 ex_images). lia. }
  unfold ex_device. rewrite bytes_at_store_other by (left; rewrite Hl; by vm_compute). apply bytes_at_store.
Qed.

Lemma linked_image_runs_witness :
  ∃ m', bootloader_main ex_device = Ret (Jump 0x20040000 m') ∧ bytes_at m' 0x20040000 5 = [1; 2; 3; 4; 5] ∧ bytes_at m' 0x12005000 3 = [7; 8; 9].
Proof.
  destruct (linked_image_runs ex_headers ex_artifacts ex_config ex_layout ex_flash 1700000000 0x12005000 0x12082000 ex_bin ex_layouts
    ex_device FTAB_ADDR 0x12005000 0x20040000 6 ex_ftab) as (segs & code & m' & Es & Ec & Eb & Hsegs & _).
  - exact ex_fits.
  - exact ex_linked.
  - vm_compute. discriminate.
  - reflexivity.
  - apply build_ftab_ok.
  - exact ex_ftab_read.
  - apply bytes_at_store.
  - apply ex_collected in Es as ->. vm_compute in Ec. injection Ec as <-. exists m'. split; [exact Eb|]. split.
    + apply (Hsegs (mkLink 0x20040000 [1; 2; 3; 4; 5] "kernel")). constructor.
    + apply (Hsegs (mkLink 0x12005000 [7; 8; 9] "idle")). constructor. constructor.
Defined.
End example.
