(* ===== verification/Nor.v ===== *)
(** The flash memory and its driver ([sysmodule/mpi/src/main.rs]).

    The chip is a serial NOR flash: programming a page can only clear bits and
    wraps at the end of the page, erasing works on aligned blocks. What the chip
    and the controller do with a command is an event given from outside: the command
    completes, fails with an error of the driver, or the driver's task dies during
    the command; in the last two cases the bytes it was about to change are left in
    any state such a command can leave them in. Setting up the controller, choosing
    opcodes and polling registers are not modelled. *)

From S2P Require Import Prelude Memfns.

Open Scope Z_scope.

Definition PAGE_SIZE : Z := 256.
Definition ERASE_4K : Z := 4096.
Definition ERASE_32K : Z := 32 * 1024.
Definition ERASE_64K : Z := 64 * 1024.

Inductive MpiOperationError :=
  | TransferTimeout
  | RxFifoTimeout
  | TxFifoTimeout
  | WipTimeout
  | WriteEnableDidNotLatch
  | AddressOutOfRange
  | LengthTooLarge
  | InvalidAddressAlignment
  | InvalidLengthAlignment.

(** * The chip *)

(** What happens to a command. *)
Inductive HwEvent :=
  | HwOk
  | HwFail (e : MpiOperationError) (junk : Mem)
  | HwDie (junk : Mem).

Record Nor := mkNor {
  nor_mem : Mem;
  nor_events : list HwEvent;
}.

(** Page program: byte [i] of the data goes to the address [addr + i], modulo the
    page. Bits that are 1 in [junk] have not been cleared yet. *)
Definition programmed (m : Mem) (addr : Z) (data : list Z) (junk : Mem) : Mem := λ x,
  if decide (x / PAGE_SIZE = addr / PAGE_SIZE) then
    match data !! Z.to_nat ((x - addr) mod PAGE_SIZE) with
    | Some d => Z.land (m x) (Z.lor d (junk x))
    | None => m x
    end
  else m x.

(** Erasing the block of size [step] that [addr] is in. *)
Definition block_erased (m : Mem) (addr step : Z) (bytes : Mem) : Mem := λ x,
  if decide (x / step = addr / step) then bytes x else m x.

(** The answer of the driver: an IPC reply, or none because it died. *)
Inductive MpiRes (A : Type) :=
  | MOk (a : A)
  | MErr (e : MpiOperationError)
  | MDead.
Arguments MOk {A} _.
Arguments MErr {A} _.
Arguments MDead {A}.

(** A command that completes with [full] and is left unfinished with [part]. *)
Definition command {A} (n : Nor) (full : Mem) (part : Mem → Mem) (a : A) : MpiRes A * Nor :=
  match nor_events n with
  | [] => (MOk a, mkNor full [])
  | HwOk :: events => (MOk a, mkNor full events)
  | HwFail e junk :: events => (MErr e, mkNor (part junk) events)
  | HwDie junk :: events => (MDead, mkNor (part junk) events)
  end.

Definition page_program (n : Nor) (addr : Z) (data : list Z) : MpiRes unit * Nor :=
  command n (programmed (nor_mem n) addr data (λ _, 0)) (programmed (nor_mem n) addr data) tt.

Definition erase_block (n : Nor) (addr step : Z) : MpiRes unit * Nor :=
  command n (block_erased (nor_mem n) addr step (λ _, 0xFF)) (block_erased (nor_mem n) addr step) tt.

Definition read_bytes (n : Nor) (addr : Z) (len : nat) : MpiRes (list Z) * Nor :=
  command n (nor_mem n) (λ _, nor_mem n) (bytes_at (nor_mem n) addr len).

(** * The driver *)

Section driver.
Context (capacity_bytes : Z).

(** [address.checked_add(len)] and the comparison with the capacity. *)
Definition out_of_chip (address len : Z) : bool :=
  bool_decide (2 ^ 32 <= address + len) || bool_decide (capacity_bytes < address + len).

Definition mpi_read (n : Nor) (address : Z) (len : nat) : MpiRes (list Z) * Nor :=
  if decide (len = O) then (MOk [], n) else
  if decide (PAGE_SIZE < Z.of_nat len) then (MErr LengthTooLarge, n) else
  if out_of_chip address (Z.of_nat len) then (MErr AddressOutOfRange, n) else
  read_bytes n address len.

(** The pages of a write, of which there are no more than bytes. *)
Fixpoint write_pages (fuel : nat) (n : Nor) (addr : Z) (data : list Z) : MpiRes unit * Nor :=
  match fuel with
  | O => (MOk tt, n)
  | S fuel =>
      match data with
      | [] => (MOk tt, n)
      | _ =>
          let page_remaining := Z.to_nat (PAGE_SIZE - addr mod PAGE_SIZE) in
          let chunk := Nat.min (length data) page_remaining in
          match page_program n addr (take chunk data) with
          | (MOk _, n) => write_pages fuel n (addr + Z.of_nat chunk) (drop chunk data)
          | r => r
          end
      end
  end.

Definition mpi_write (n : Nor) (address : Z) (data : list Z) : MpiRes unit * Nor :=
  match data with
  | [] => (MOk tt, n)
  | _ => if out_of_chip address (Z.of_nat (length data)) then (MErr AddressOutOfRange, n)
         else write_pages (length data) n address data
  end.

(** The largest block that starts at [addr] and fits. *)
Definition erase_step (addr remaining : Z) : Z :=
  if decide (addr mod ERASE_64K = 0 ∧ ERASE_64K <= remaining) then ERASE_64K
  else if decide (addr mod ERASE_32K = 0 ∧ ERASE_32K <= remaining) then ERASE_32K
  else ERASE_4K.

(** At most [fuel] blocks of at least 4 KiB. *)
Fixpoint erase_blocks (fuel : nat) (n : Nor) (addr end_ : Z) : MpiRes unit * Nor :=
  match fuel with
  | O => (MOk tt, n)
  | S fuel =>
      if decide (addr < end_) then
        let step := erase_step addr (end_ - addr) in
        match erase_block n addr step with
        | (MOk _, n) => erase_blocks fuel n (addr + step) end_
        | r => r
        end
      else (MOk tt, n)
  end.

Definition mpi_erase (n : Nor) (address length : Z) : MpiRes unit * Nor :=
  if decide (address mod ERASE_4K ≠ 0) then (MErr InvalidAddressAlignment, n) else
  if decide (length mod ERASE_4K ≠ 0) then (MErr InvalidLengthAlignment, n) else
  if out_of_chip address length then (MErr AddressOutOfRange, n) else
  erase_blocks (Z.to_nat (length / ERASE_4K)) n address (address + length).
End driver.

(** * What the driver guarantees *)

(** Outside of [a, b) the memory is the same. *)
Definition same_outside (a b : Z) (m m' : Mem) : Prop := ∀ x, x < a ∨ b <= x → m' x = m x.

Lemma same_outside_refl a b m : same_outside a b m m.
Proof. by intros x _. Qed.

Lemma same_outside_trans a b m1 m2 m3 : same_outside a b m1 m2 → same_outside a b m2 m3 → same_outside a b m1 m3.
Proof. intros H1 H2 x Hx. rewrite H2, H1; done. Qed.

Lemma same_outside_wider a b a' b' m m' : a' <= a → b <= b' → same_outside a b m m' → same_outside a' b' m m'.
Proof. intros Ha Hb H x Hx. apply H. lia. Qed.

(** [data] can still be programmed at [addr]: no bit of it has been cleared. *)
Definition programmable (m : Mem) (addr : Z) (data : list Z) : Prop :=
  ∀ i d, data !! i = Some d → Z.land (m (addr + Z.of_nat i)) d = d.

(** Programming did not clear a bit that was to stay. *)
Definition cleared_by (m m' : Mem) (addr : Z) (data : list Z) : Prop :=
  ∀ i d, data !! i = Some d → ∃ j, m' (addr + Z.of_nat i) = Z.land (m (addr + Z.of_nat i)) (Z.lor d j).

Lemma programmed_at m addr data junk i d :
  0 <= addr → addr mod PAGE_SIZE + Z.of_nat (length data) <= PAGE_SIZE → data !! i = Some d →
  programmed m addr data junk (addr + Z.of_nat i) = Z.land (m (addr + Z.of_nat i)) (Z.lor d (junk (addr + Z.of_nat i))).
Proof.
  intros Ha Hp Hi. pose proof (lookup_lt_Some _ _ _ Hi). unfold programmed, PAGE_SIZE in *.
  rewrite decide_True by (pose proof (Z.mod_pos_bound addr 256); pose proof (Z.div_mod addr 256);
    symmetry; apply (Z.div_unique _ 256 _ (addr mod 256 + Z.of_nat i)); lia).
  replace (addr + Z.of_nat i - addr) with (Z.of_nat i) by lia. rewrite Z.mod_small by (pose proof (Z.mod_pos_bound addr 256); lia).
  by rewrite Nat2Z.id, Hi.
Qed.

Lemma programmed_outside m addr data junk :
  0 <= addr → addr mod PAGE_SIZE + Z.of_nat (length data) <= PAGE_SIZE →
  same_outside addr (addr + Z.of_nat (length data)) m (programmed m addr data junk).
Proof.
  intros Ha Hp x Hx. unfold programmed, PAGE_SIZE in *. case_decide as E; [|done].
  rewrite lookup_ge_None_2; [done|]. pose proof (Z.mod_pos_bound addr 256). pose proof (Z.div_mod addr 256). pose proof (Z.div_mod x 256).
  pose proof (Z.mod_pos_bound x 256). destruct Hx as [Hx|Hx].
  - assert ((x - addr) mod 256 = x - addr + 256) as -> by (symmetry; apply (Z.mod_unique _ _ (-1)); lia). lia.
  - rewrite Z.mod_small by lia. lia.
Qed.

Lemma cleared_by_refl m addr data : cleared_by m m addr data.
Proof. intros i d _. exists (-1). by rewrite Z.lor_m1_r, Z.land_m1_r. Qed.

(** A byte after a command: completed or not, only bits of the data were cleared. *)
Lemma page_program_ok n addr data r n' :
  0 <= addr → addr mod PAGE_SIZE + Z.of_nat (length data) <= PAGE_SIZE → page_program n addr data = (r, n') →
  same_outside addr (addr + Z.of_nat (length data)) (nor_mem n) (nor_mem n') ∧ cleared_by (nor_mem n) (nor_mem n') addr data ∧
  (r = MOk tt → ∀ i d, data !! i = Some d → nor_mem n' (addr + Z.of_nat i) = Z.land (nor_mem n (addr + Z.of_nat i)) d).
Proof.
  intros Ha Hp. unfold page_program, command.
  assert (∀ junk, cleared_by (nor_mem n) (programmed (nor_mem n) addr data junk) addr data) as Hc
    by (intros junk i d Hi; rewrite (programmed_at _ _ _ _ i d) by done; by eexists).
  assert (∀ i d, data !! i = Some d → programmed (nor_mem n) addr data (λ _, 0) (addr + Z.of_nat i) = Z.land (nor_mem n (addr + Z.of_nat i)) d) as Hfull
    by (intros i d Hi; by rewrite (programmed_at _ _ _ _ i d), Z.lor_0_r).
  destruct (nor_events n) as [|[|e junk|junk] events]; intros [= <- <-]; cbn; (split_and!; [by apply programmed_outside|apply Hc|done]).
Qed.

Lemma write_pages_ok fuel n addr data r n' :
  0 <= addr → (length data <= fuel)%nat → write_pages fuel n addr data = (r, n') →
  same_outside addr (addr + Z.of_nat (length data)) (nor_mem n) (nor_mem n') ∧ cleared_by (nor_mem n) (nor_mem n') addr data ∧
  (r = MOk tt → ∀ i d, data !! i = Some d → nor_mem n' (addr + Z.of_nat i) = Z.land (nor_mem n (addr + Z.of_nat i)) d).
Proof.
  revert n addr data. induction fuel as [|fuel IH]; intros n addr data Ha Hf; cbn [write_pages].
  { destruct data; [|cbn in Hf; lia]. intros [= <- <-]. split_and!; [apply same_outside_refl|apply cleared_by_refl|done]. }
  destruct data as [|d0 data']; [intros [= <- <-]; split_and!; [apply same_outside_refl|apply cleared_by_refl|done]|].
  set (data := d0 :: data') in *. assert (0 < length data)%nat as Hpos by (cbn; lia). clearbody data.
  set (chunk := Nat.min _ _). pose proof (Z.mod_pos_bound addr PAGE_SIZE eq_refl) as Hmod.
  assert (0 < chunk <= length data)%nat as Hchunk by (unfold chunk; lia).
  assert (Z.of_nat (length (take chunk data)) = Z.of_nat chunk) as Hl by (rewrite length_take; lia).
  destruct (page_program n addr (take chunk data)) as [r1 n1] eqn:E1.
  apply page_program_ok in E1 as (O1 & C1 & F1); [|done|rewrite Hl; unfold chunk; lia]. rewrite Hl in O1.
  assert (∀ i d, data !! i = Some d → (i < chunk)%nat → take chunk data !! i = Some d) as Ht by (intros; by rewrite lookup_take_lt).
  assert (∀ i d, data !! i = Some d → ~ (i < chunk)%nat → drop chunk data !! (i - chunk)%nat = Some d) as Hd.
  { intros i d Hi Hge. rewrite lookup_drop. by replace (chunk + (i - chunk))%nat with i by lia. }
  assert (same_outside addr (addr + Z.of_nat (length data)) (nor_mem n) (nor_mem n1) ∧ cleared_by (nor_mem n) (nor_mem n1) addr data) as [Ho Hc].
  { split; [eapply same_outside_wider; [..|exact O1]; lia|]. intros i d Hi. destruct (decide (i < chunk)%nat) as [Hlt|Hge]; [by apply C1, Ht|].
    exists (-1). rewrite O1 by lia. by rewrite Z.lor_m1_r, Z.land_m1_r. }
  destruct r1 as [[]|e|].
  - intros H2. apply IH in H2 as (O2 & C2 & F2); [|lia|rewrite length_drop; lia]. rewrite length_drop in O2. split_and!.
    + intros x Hx. rewrite O2, O1 by lia. done.
    + intros i d Hi. destruct (decide (i < chunk)%nat) as [Hlt|Hge].
      * rewrite O2 by lia. by apply C1, Ht.
      * destruct (C2 (i - chunk)%nat d) as [j Hj]; [by apply Hd|]. exists j. replace (addr + Z.of_nat chunk + Z.of_nat (i - chunk)) with (addr + Z.of_nat i) in Hj by lia.
        rewrite Hj. f_equal. apply O1. lia.
    + intros -> i d Hi. destruct (decide (i < chunk)%nat) as [Hlt|Hge].
      * rewrite O2 by lia. apply F1; [done|]. by apply Ht.
      * specialize (F2 eq_refl (i - chunk)%nat d (Hd i d Hi Hge)). replace (addr + Z.of_nat chunk + Z.of_nat (i - chunk)) with (addr + Z.of_nat i) in F2 by lia.
        rewrite F2. f_equal. apply O1. lia.
  - intros [= <- <-]. split_and!; done.
  - intros [= <- <-]. split_and!; done.
Qed.

Lemma mpi_write_ok capacity n address data r n' :
  0 <= address → mpi_write capacity n address data = (r, n') →
  same_outside address (address + Z.of_nat (length data)) (nor_mem n) (nor_mem n') ∧ cleared_by (nor_mem n) (nor_mem n') address data ∧
  (r = MOk tt → ∀ i d, data !! i = Some d → nor_mem n' (address + Z.of_nat i) = Z.land (nor_mem n (address + Z.of_nat i)) d).
Proof.
  intros Ha. unfold mpi_write. destruct data as [|d0 data'].
  { intros [= <- <-]. split_and!; [apply same_outside_refl|apply cleared_by_refl|done]. }
  destruct (out_of_chip _ _ _); [intros [= <- <-]; split_and!; [apply same_outside_refl|apply cleared_by_refl|done]|].
  intros H. apply write_pages_ok in H; [done|done|lia].
Qed.

(** Programming again, after an attempt that failed. *)
Lemma cleared_programmable m m' addr data : programmable m addr data → cleared_by m m' addr data → programmable m' addr data.
Proof.
  intros Hp Hc i d Hi. destruct (Hc i d Hi) as [j ->]. rewrite <- Z.land_assoc, (Z.land_comm _ d), Z.land_assoc.
  rewrite (Hp i d Hi). apply Z.bits_inj'. intros n Hn. rewrite Z.land_spec, Z.lor_spec. by destruct (Z.testbit d n).
Qed.

(** ** Erasing *)

Lemma erase_step_cases addr remaining :
  addr mod ERASE_4K = 0 → ERASE_4K <= remaining →
  let step := erase_step addr remaining in
  0 < step <= remaining ∧ addr mod step = 0 ∧ ERASE_4K <= step ∧ (addr + step) mod ERASE_4K = 0.
Proof.
  intros Ha Hr. unfold erase_step, ERASE_4K, ERASE_32K, ERASE_64K in *. cbv zeta. repeat case_decide; dlia.
Qed.

Lemma block_erased_spec m addr step bytes x :
  0 < step → addr mod step = 0 → block_erased m addr step bytes x = if decide (addr <= x < addr + step) then bytes x else m x.
Proof.
  intros Hs Ha. unfold block_erased. assert (x / step = addr / step ↔ addr <= x < addr + step) as Hiff.
  { pose proof (Z.div_mod addr step ltac:(lia)) as E. rewrite Ha in E. pose proof (Z.div_mod x step ltac:(lia)). pose proof (Z.mod_pos_bound x step Hs). split; [nia|].
    intros Hx. symmetry. apply (Z.div_unique _ step _ (x - addr)); lia. }
  destruct (decide (x / step = addr / step)) as [E|E]; [rewrite decide_True by tauto|rewrite decide_False by tauto]; done.
Qed.

Lemma erase_block_ok n addr step r n' :
  0 < step → addr mod step = 0 → erase_block n addr step = (r, n') →
  same_outside addr (addr + step) (nor_mem n) (nor_mem n') ∧
  (r = MOk tt → ∀ x, addr <= x < addr + step → nor_mem n' x = 0xFF).
Proof.
  intros Hs Ha. unfold erase_block, command.
  assert (∀ bytes, same_outside addr (addr + step) (nor_mem n) (block_erased (nor_mem n) addr step bytes)) as Ho
    by (intros bytes x Hx; rewrite block_erased_spec by done; by rewrite decide_False by lia).
  assert (∀ x, addr <= x < addr + step → block_erased (nor_mem n) addr step (λ _, 0xFF) x = 0xFF) as Hf
    by (intros x Hx; rewrite block_erased_spec by done; by rewrite decide_True).
  destruct (nor_events n) as [|[|e junk|junk] events]; intros [= <- <-]; cbn; (split; [apply Ho|done]).
Qed.

Lemma erase_blocks_ok fuel n addr end_ r n' :
  addr mod ERASE_4K = 0 → end_ mod ERASE_4K = 0 → end_ - addr <= ERASE_4K * Z.of_nat fuel → erase_blocks fuel n addr end_ = (r, n') →
  same_outside addr (Z.max addr end_) (nor_mem n) (nor_mem n') ∧
  (r = MOk tt → ∀ x, addr <= x < end_ → nor_mem n' x = 0xFF).
Proof.
  revert n addr. induction fuel as [|fuel IH]; intros n addr Ha He Hf; cbn [erase_blocks].
  { intros [= <- <-]. split; [apply same_outside_refl|]. intros _ x Hx. unfold ERASE_4K in *. lia. }
  case_decide as Hlt; [|intros [= <- <-]; split; [apply same_outside_refl|intros _ x Hx; lia]].
  destruct (erase_step_cases addr (end_ - addr) Ha) as (Hs1 & Hs2 & Hs3 & Hs4); [unfold ERASE_4K in *; dlia|].
  set (step := erase_step addr (end_ - addr)) in *. destruct (erase_block n addr step) as [r1 n1] eqn:E1.
  apply erase_block_ok in E1 as [O1 F1]; [|lia|done].
  assert (same_outside addr (Z.max addr end_) (nor_mem n) (nor_mem n1)) as Ho by (eapply same_outside_wider; [..|exact O1]; lia).
  destruct r1 as [[]|e|]; [|intros [= <- <-]; done|intros [= <- <-]; done].
  intros H2. apply IH in H2 as [O2 F2]; [|done|done|lia]. split.
  - intros x Hx. rewrite O2, O1 by lia. done.
  - intros Hr x Hx. destruct (decide (addr + step <= x)); [apply F2; [done|lia]|]. rewrite O2 by lia. apply F1; [done|lia].
Qed.

Lemma mpi_erase_ok capacity n address len r n' :
  0 <= len → mpi_erase capacity n address len = (r, n') →
  same_outside address (address + len) (nor_mem n) (nor_mem n') ∧
  (r = MOk tt → ∀ x, address <= x < address + len → nor_mem n' x = 0xFF).
Proof.
  intros Hl. unfold mpi_erase. case_decide as H1; [intros [= <- <-]; split; [apply same_outside_refl|done]|].
  case_decide as H2; [intros [= <- <-]; split; [apply same_outside_refl|done]|].
  destruct (out_of_chip _ _ _); [intros [= <- <-]; split; [apply same_outside_refl|done]|]. intros H.
  apply erase_blocks_ok in H as [Ho Hf]; [|unfold ERASE_4K in *; dlia..]. split; [by eapply same_outside_wider; [..|exact Ho]; lia|done].
Qed.

(** ** Reading *)

Lemma mpi_read_ok capacity n address len r n' :
  mpi_read capacity n address len = (r, n') →
  nor_mem n' = nor_mem n ∧ ∀ bytes, r = MOk bytes → bytes = bytes_at (nor_mem n) address len.
Proof.
  unfold mpi_read. case_decide as H0; [intros [= <- <-]; split; [done|]; intros bytes [= <-]; by rewrite H0|].
  case_decide; [intros [= <- <-]; done|]. destruct (out_of_chip _ _ _); [intros [= <- <-]; done|].
  unfold read_bytes, command. destruct (nor_events n) as [|[|e junk|junk] events]; intros [= <- <-]; cbn; split; congruence.
Qed.
