(* ===== verification/Storage.v ===== *)
(** The storage service ([sysmodule/storage/src/main.rs]): partitions of the flash,
    and the table of partitions of the installed image.

    The table of partitions and who may acquire them are generated by the build and
    parameters here; the driver is that of [Nor]. An access to a lease succeeds
    unless its owner has died, which is again an event from outside. Logging is left
    out. *)

From S2P Require Import Prelude Memfns Places Nor.

Open Scope Z_scope.

(** * Data *)

Record PartitionConfig := mkPartConfig {
  pc_name : list Z;
  pc_offset_bytes : Z;
  pc_size_bytes : Z;
  pc_flags : Z;
}.

Inductive StorageErrorKind := OutOfRange | Device | Alignment.

Record StorageError := mkStorageError {
  se_kind : StorageErrorKind;
  se_device_code : Z;
}.

Definition out_of_range : StorageError := mkStorageError OutOfRange 0.
Definition device_error (code : Z) : StorageError := mkStorageError Device code.
Definition alignment_error : StorageError := mkStorageError Alignment 0.

Inductive AcquireError := InUse | NotFound | ManagedByFilesystem | NotAllowed.

(** [storage_api::Geometry] *)
Record Geometry := mkGeometry {
  ge_total_size : Z;
  ge_erase_size : Z;
  ge_program_size : Z;
  ge_read_size : Z;
}.

(** [CachedGeometry], as [main] sets it. *)
Definition FLASH_ERASE_SIZE : Z := 4096.
Definition FLASH_PROGRAM_SIZE : Z := 256.
Definition FLASH_READ_SIZE : Z := 1.

Record PartitionResource := mkPartRes {
  pr_index : nat;
  pr_offset_bytes : Z;
  pr_size_bytes : Z;
}.

Definition MAX_PARTITIONS : nat := 16.
Definition MPI_IPC_MAX_ATTEMPTS : nat := 3.

(** The flash, the partitions that are taken, and what becomes of accesses to
    leases. *)
Record Storage := mkStorage {
  st_nor : Nor;
  st_acquired : list bool;
  st_leases : list bool;
}.

Definition storage_new (n : Nor) (leases : list bool) : Storage := mkStorage n (replicate MAX_PARTITIONS false) leases.

Definition set_nor (s : Storage) (n : Nor) : Storage := mkStorage n (st_acquired s) (st_leases s).

(** [lease.read_range] and [lease.write_range]: whether the owner is still there. *)
Definition lease_access (s : Storage) : bool * Storage :=
  match st_leases s with
  | [] => (true, s)
  | ok :: leases => (ok, mkStorage (st_nor s) (st_acquired s) leases)
  end.

Section service.
Context (capacity_bytes : Z) (PARTITIONS : list PartitionConfig)
  (is_partition_allowed : list Z → Z → bool) (fs_task : option Z).

(** * Calls to the driver *)

(** [mpi_retry_single]: again while the driver dies, three times in all. *)
Fixpoint retry_single {A} (attempts : nat) (op : Nor → MpiRes A * Nor) (s : Storage) : result A StorageError * Storage :=
  match attempts with
  | O => (Err (device_error 0xFFFE), s)
  | S attempts =>
      match op (st_nor s) with
      | (MOk v, n) => (Ok v, set_nor s n)
      | (MErr _, n) => (Err (device_error 0xFFFE), set_nor s n)
      | (MDead, n) => retry_single attempts op (set_nor s n)
      end
  end.

Definition mpi_retry_single {A} (op : Nor → MpiRes A * Nor) (s : Storage) : result A StorageError * Storage :=
  retry_single MPI_IPC_MAX_ATTEMPTS op s.

(** How one attempt at a chunked transfer ends. *)
Inductive Attempt :=
  | Finished
  | Again
  | Failed (e : StorageError).

(** The chunks of a read, into the caller's buffer; there are no more than bytes. *)
Fixpoint read_chunks (fuel : nat) (s : Storage) (address : Z) (buf : list Z) (offset : nat) : Attempt * Storage * list Z :=
  match fuel with
  | O => (Finished, s, buf)
  | S fuel =>
      if decide (offset < length buf)%nat then
        let chunk := Nat.min (length buf - offset) 256 in
        match mpi_read capacity_bytes (st_nor s) (wrap 32 (address + Z.of_nat offset)) chunk with
        | (MDead, n) => (Again, set_nor s n, buf)
        | (MErr _, n) => (Failed (device_error 0xFFFE), set_nor s n, buf)
        | (MOk tmp, n) =>
            let '(ok, s) := lease_access (set_nor s n) in
            if ok then read_chunks fuel s address (splice buf offset tmp) (offset + chunk)
            else (Failed (device_error 0xFFFD), s, buf)
        end
      else (Finished, s, buf)
  end.

Fixpoint read_attempts (attempts : nat) (s : Storage) (address : Z) (buf : list Z) : result unit StorageError * Storage * list Z :=
  match attempts with
  | O => (Err (device_error 0xFFFE), s, buf)
  | S attempts =>
      match read_chunks (S (length buf)) s address buf 0 with
      | (Finished, s, buf) => (Ok tt, s, buf)
      | (Failed e, s, buf) => (Err e, s, buf)
      | (Again, s, buf) => read_attempts attempts s address buf
      end
  end.

Definition mpi_read_to_lease (s : Storage) (address : Z) (buf : list Z) : result unit StorageError * Storage * list Z :=
  read_attempts MPI_IPC_MAX_ATTEMPTS s address buf.

Fixpoint program_chunks (fuel : nat) (s : Storage) (address : Z) (data : list Z) (offset : nat) : Attempt * Storage :=
  match fuel with
  | O => (Finished, s)
  | S fuel =>
      if decide (offset < length data)%nat then
        let chunk := Nat.min (length data - offset) 256 in
        let '(ok, s) := lease_access s in
        if negb ok then (Failed (device_error 0xFFFD), s) else
        let tmp := take chunk (drop offset data) in
        match mpi_write capacity_bytes (st_nor s) (wrap 32 (address + Z.of_nat offset)) tmp with
        | (MDead, n) => (Again, set_nor s n)
        | (MErr _, n) => (Failed (device_error 0xFFFE), set_nor s n)
        | (MOk _, n) => program_chunks fuel (set_nor s n) address data (offset + chunk)
        end
      else (Finished, s)
  end.

Fixpoint program_attempts (attempts : nat) (s : Storage) (address : Z) (data : list Z) : result unit StorageError * Storage :=
  match attempts with
  | O => (Err (device_error 0xFFFE), s)
  | S attempts =>
      match program_chunks (S (length data)) s address data 0 with
      | (Finished, s) => (Ok tt, s)
      | (Failed e, s) => (Err e, s)
      | (Again, s) => program_attempts attempts s address data
      end
  end.

Definition mpi_program_from_lease (s : Storage) (address : Z) (data : list Z) : result unit StorageError * Storage :=
  program_attempts MPI_IPC_MAX_ATTEMPTS s address data.

(** * Partitions *)

(** The name ends at the first zero byte. (Names of partitions are valid UTF-8, so
    that a name that is not is not found.) *)
Fixpoint until_zero (name : list Z) : list Z :=
  match name with [] => [] | b :: name => if decide (b = 0) then [] else b :: until_zero name end.

Definition storage_find_partition (name : list Z) : option (nat * PartitionConfig) :=
  list_find (λ p, pc_name p = until_zero name) PARTITIONS.

Definition is_managed (config : PartitionConfig) : bool := negb (bool_decide (Z.land (pc_flags config) PART_MANAGED = 0)).

Definition acquire (s : Storage) (caller : Z) (name : list Z) : exec (result PartitionResource AcquireError * Storage) :=
  match storage_find_partition name with
  | None => Ret (Err NotFound, s)
  | Some (index, config) =>
      let is_fs_task := match fs_task with Some id => bool_decide (caller = id) | None => false end in
      if is_managed config && negb is_fs_task then Ret (Err ManagedByFilesystem, s) else
      if negb (is_managed config) && negb (is_partition_allowed (pc_name config) caller) then Ret (Err NotAllowed, s) else
      let! taken := idx (st_acquired s) index in
      if taken then Ret (Err InUse, s) else
      Ret (Ok (mkPartRes index (wrap 32 (pc_offset_bytes config)) (wrap 32 (pc_size_bytes config))),
           mkStorage (st_nor s) (<[index := true]> (st_acquired s)) (st_leases s))
  end.

(** [Drop] *)
Definition release (s : Storage) (p : PartitionResource) : exec Storage :=
  let! acquired := set_idx (st_acquired s) (pr_index p) false in
  Ret (mkStorage (st_nor s) acquired (st_leases s)).

(** [offset.saturating_add(len) > self.size_bytes] *)
Definition beyond (p : PartitionResource) (offset len : Z) : bool :=
  bool_decide (Z.min (2 ^ 32 - 1) (offset + len) > pr_size_bytes p).

Definition misaligned (offset len : Z) : bool :=
  bool_decide (offset mod FLASH_ERASE_SIZE ≠ 0) || bool_decide (len mod FLASH_ERASE_SIZE ≠ 0).

Definition part_read (s : Storage) (p : PartitionResource) (offset : Z) (buf : list Z) : result unit StorageError * Storage * list Z :=
  let len := wrap 32 (Z.of_nat (length buf)) in
  if beyond p offset len then (Err out_of_range, s, buf) else
  mpi_read_to_lease s (wrap 32 (pr_offset_bytes p + offset)) buf.

Definition part_erase (s : Storage) (p : PartitionResource) (offset len : Z) : result unit StorageError * Storage :=
  if beyond p offset len then (Err out_of_range, s) else
  if misaligned offset len then (Err alignment_error, s) else
  let abs := wrap 32 (pr_offset_bytes p + offset) in
  mpi_retry_single (λ n, mpi_erase capacity_bytes n abs len) s.

Definition part_program (s : Storage) (p : PartitionResource) (offset : Z) (data : list Z) : result unit StorageError * Storage :=
  let len := wrap 32 (Z.of_nat (length data)) in
  if beyond p offset len then (Err out_of_range, s) else
  mpi_program_from_lease s (wrap 32 (pr_offset_bytes p + offset)) data.

Definition part_write (s : Storage) (p : PartitionResource) (offset : Z) (data : list Z) : result unit StorageError * Storage :=
  let len := wrap 32 (Z.of_nat (length data)) in
  if beyond p offset len then (Err out_of_range, s) else
  if misaligned offset len then (Err alignment_error, s) else
  let abs := wrap 32 (pr_offset_bytes p + offset) in
  match mpi_retry_single (λ n, mpi_erase capacity_bytes n abs len) s with
  | (Err e, s) => (Err e, s)
  | (Ok _, s) => mpi_program_from_lease s abs data
  end.

Definition geometry (p : PartitionResource) : Geometry :=
  mkGeometry (pr_size_bytes p) FLASH_ERASE_SIZE FLASH_PROGRAM_SIZE FLASH_READ_SIZE.

(** * The table of partitions of the installed image *)

Definition MPI2_MAPPING_BASE : Z := 0x12000000.
Definition SEC_CONFIG_MAGIC : Z := 0x53454346.
Definition SECFG_FTAB_OFFSET : Z := 4.
Definition FTAB_ENTRY_SIZE : Z := 16.
Definition FTAB_PLACES_SLOT : Z := 14.
Definition PLACES_MAGIC : Z := 0x504C4342.
Definition PLACES_FOOTER_SIZE : Z := 24.
Definition PLACES_PARTITION_SIZE : Z := 16.
Definition MAX_ENTRIES_PER_CALL : nat := 8.

Inductive FlashLayoutError := Unpartitioned | LayoutOutOfRange | ReadFailure.

Definition mpi_read_u32 (s : Storage) (address : Z) : result Z FlashLayoutError * Storage :=
  match mpi_retry_single (λ n, mpi_read capacity_bytes n address 4) s with
  | (Ok buf, s) => (Ok (le_val buf), s)
  | (Err _, s) => (Err ReadFailure, s)
  end.

(** The state and error monad of the following functions. *)
Definition lay (A : Type) : Type := Storage → result A FlashLayoutError * Storage.
Definition lay_ret {A} (a : A) : lay A := λ s, (Ok a, s).
Definition lay_fail {A} (e : FlashLayoutError) : lay A := λ s, (Err e, s).
Definition lay_bind {A B} (m : lay A) (f : A → lay B) : lay B := λ s,
  match m s with (Ok a, s) => f a s | (Err e, s) => (Err e, s) end.
Notation "'let?' x := m 'in' k" := (lay_bind m (λ x, k)) (at level 10, x pattern, m at level 100, k at level 200).

Definition read_u32_at (address : Z) : lay Z := λ s, mpi_read_u32 s (wrap 32 address).

Definition locate_places : lay (Z * Z) :=
  let? magic := read_u32_at 0 in
  if decide (magic ≠ SEC_CONFIG_MAGIC) then lay_fail Unpartitioned else
  let entry := SECFG_FTAB_OFFSET + FTAB_PLACES_SLOT * FTAB_ENTRY_SIZE in
  let? cpu_base := read_u32_at entry in
  let? size := read_u32_at (entry + 4) in
  if decide (cpu_base = 2 ^ 32 - 1 ∨ size = 2 ^ 32 - 1 ∨ size = 0) then lay_fail Unpartitioned else
  if decide (cpu_base < MPI2_MAPPING_BASE) then lay_fail Unpartitioned else
  lay_ret (cpu_base - MPI2_MAPPING_BASE, size).

(** [Layout], with the entries that are valid: [count] is their number, and the rest
    of the array is zero. *)
Record LayoutPage := mkLayoutPage {
  lo_total : Z;
  lo_start : Z;
  lo_entries : list Partition;
}.

Fixpoint read_entries (count : nat) (part : Z) : lay (list Partition) :=
  match count with
  | O => lay_ret []
  | S count =>
      let? name_hash := read_u32_at part in
      let? offset := read_u32_at (part + 4) in
      let? size := read_u32_at (part + 8) in
      let? flags := read_u32_at (part + 12) in
      let? rest := read_entries count (part + PLACES_PARTITION_SIZE) in
      lay_ret (mkPartition name_hash offset size flags :: rest)
  end.

Definition get_layout (start : Z) : lay LayoutPage :=
  let? (places_base, places_size) := locate_places in
  if decide (places_size < PLACES_FOOTER_SIZE) then lay_fail Unpartitioned else
  let footer := places_base + places_size - PLACES_FOOTER_SIZE in
  let? tables_offset := read_u32_at footer in
  let? _ := read_u32_at (footer + 4) in
  let? partition_count := read_u32_at (footer + 8) in
  let? magic := read_u32_at (footer + 20) in
  if decide (magic ≠ PLACES_MAGIC) then lay_fail Unpartitioned else
  if decide (partition_count <= start) then lay_fail LayoutOutOfRange else
  let count := Nat.min (Z.to_nat (partition_count - start)) MAX_ENTRIES_PER_CALL in
  let? entries := read_entries count (places_base + tables_offset + start * PLACES_PARTITION_SIZE) in
  lay_ret (mkLayoutPage partition_count start entries).
End service.
