(* ===== verification/StorageProps.v ===== *)
(** What a client of the storage service can rely on: what is written is what is
    read, whatever the driver goes through, and nothing outside of a partition
    changes; a partition has one owner; and the table of partitions that is reported
    is the one in the installed image. *)

From S2P Require Import Prelude Memfns Places PlacesBuild PlacesProps Ftab Boot BootProps Nor Storage.

Open Scope Z_scope.

(** * Programming *)

Lemma cleared_by_trans m1 m2 m3 addr data : cleared_by m1 m2 addr data → cleared_by m2 m3 addr data → cleared_by m1 m3 addr data.
Proof.
  intros H1 H2 i d Hi. destruct (H1 i d Hi) as [j1 E1], (H2 i d Hi) as [j2 E2]. exists (Z.land j1 j2). rewrite E2, E1, <- Z.land_assoc. f_equal.
  apply Z.bits_inj'. intros n Hn. rewrite !Z.land_spec, !Z.lor_spec, Z.land_spec. by destruct (Z.testbit d n), (Z.testbit j1 n), (Z.testbit j2 n).
Qed.

(** Programming the same data again clears no more. *)
Lemma cleared_land m m' addr data i d :
  cleared_by m m' addr data → data !! i = Some d → Z.land (m' (addr + Z.of_nat i)) d = Z.land (m (addr + Z.of_nat i)) d.
Proof.
  intros H Hi. destruct (H i d Hi) as [j ->]. rewrite <- Z.land_assoc. f_equal.
  apply Z.bits_inj'. intros n Hn. rewrite Z.land_spec, Z.lor_spec. by destruct (Z.testbit d n), (Z.testbit j n).
Qed.

Lemma cleared_part m m' addr data (off n : nat) :
  same_outside (addr + Z.of_nat off) (addr + Z.of_nat off + Z.of_nat (length (take n (drop off data)))) m m' →
  cleared_by m m' (addr + Z.of_nat off) (take n (drop off data)) → cleared_by m m' addr data.
Proof.
  intros Ho Hc i d Hi. pose proof (lookup_lt_Some _ _ _ Hi). rewrite length_take, length_drop in Ho.
  destruct (decide (off <= i < off + n)%nat) as [Hin|Hout].
  - destruct (Hc (i - off)%nat d) as [j Hj].
    { rewrite lookup_take_lt, lookup_drop by lia. by replace (off + (i - off))%nat with i by lia. }
    exists j. by replace (addr + Z.of_nat off + Z.of_nat (i - off)) with (addr + Z.of_nat i) in Hj by lia.
  - exists (-1). rewrite Z.lor_m1_r, Z.land_m1_r. apply Ho. lia.
Qed.

Section service.
Context (capacity_bytes : Z).

Lemma lease_access_nor s ok s' : lease_access s = (ok, s') → st_nor s' = st_nor s ∧ st_acquired s' = st_acquired s.
Proof. unfold lease_access. destruct (st_leases s); intros [= <- <-]; done. Qed.

Lemma program_chunks_ok fuel s address data offset r s' :
  0 <= address → address + Z.of_nat (length data) <= 2 ^ 32 → (length data - offset < fuel)%nat →
  program_chunks capacity_bytes fuel s address data offset = (r, s') →
  same_outside (address + Z.of_nat offset) (address + Z.of_nat (length data)) (nor_mem (st_nor s)) (nor_mem (st_nor s')) ∧
  cleared_by (nor_mem (st_nor s)) (nor_mem (st_nor s')) address data ∧ st_acquired s' = st_acquired s ∧
  (r = Finished → ∀ i d, (offset <= i)%nat → data !! i = Some d →
     nor_mem (st_nor s') (address + Z.of_nat i) = Z.land (nor_mem (st_nor s) (address + Z.of_nat i)) d).
Proof.
  intros Ha Hlen. revert s offset. induction fuel as [|fuel IH]; intros s offset Hf; [lia|]. cbn [program_chunks].
  pose proof (same_outside_refl (address + Z.of_nat offset) (address + Z.of_nat (length data)) (nor_mem (st_nor s))) as Ho.
  pose proof (cleared_by_refl (nor_mem (st_nor s)) address data) as Hc.
  case_decide as Hlt.
  2:{ intros [= <- <-]. split_and!; try done. intros _ i d Hi Hd. pose proof (lookup_lt_Some _ _ _ Hd). lia. }
  destruct (lease_access s) as [ok s1] eqn:El. apply lease_access_nor in El as [En Eacq].
  destruct ok; cbn [negb]; [|intros [= <- <-]; rewrite En; split_and!; done].
  set (chunk := Nat.min _ _). rewrite wrap_small by (unfold is_u; lia).
  assert (length (take chunk (drop offset data)) = chunk) as Hlc by (rewrite length_take, length_drop; lia).
  destruct (mpi_write capacity_bytes (st_nor s1) _ _) as [r1 n1] eqn:Ew. rewrite En in Ew.
  apply mpi_write_ok in Ew as (O1 & C1 & F1); [|lia].
  pose proof (cleared_part _ _ _ _ _ _ O1 C1) as C1'. rewrite Hlc in O1.
  assert (same_outside (address + Z.of_nat offset) (address + Z.of_nat (length data)) (nor_mem (st_nor s)) (nor_mem n1)) as O1'
    by (eapply same_outside_wider; [..|exact O1]; lia).
  destruct r1 as [[]|e|].
  - intros H2. apply IH in H2 as (O2 & C2 & A2 & F2); [|lia]. cbn in O2, C2, A2, F2. split_and!.
    + eapply same_outside_trans; [exact O1'|]. eapply same_outside_wider; [..|exact O2]; lia.
    + by eapply cleared_by_trans.
    + congruence.
    + intros -> i d Hi Hd. destruct (decide (offset + chunk <= i)%nat) as [Hge|Hin].
      * rewrite (F2 eq_refl i d Hge Hd). f_equal. apply O1. lia.
      * assert (nor_mem n1 (address + Z.of_nat i) = Z.land (nor_mem (st_nor s) (address + Z.of_nat i)) d) as E1.
        { specialize (F1 eq_refl (i - offset)%nat d). replace (address + Z.of_nat offset + Z.of_nat (i - offset)) with (address + Z.of_nat i) in F1 by lia.
          apply F1. rewrite lookup_take_lt, lookup_drop by lia. by replace (offset + (i - offset))%nat with i by lia. }
        rewrite <- E1. apply O2. lia.
  - intros [= <- <-]. split_and!; try done.
  - intros [= <- <-]. split_and!; try done.
Qed.

Lemma program_attempts_ok attempts s address data r s' :
  0 <= address → address + Z.of_nat (length data) <= 2 ^ 32 →
  program_attempts capacity_bytes attempts s address data = (r, s') →
  same_outside address (address + Z.of_nat (length data)) (nor_mem (st_nor s)) (nor_mem (st_nor s')) ∧
  cleared_by (nor_mem (st_nor s)) (nor_mem (st_nor s')) address data ∧ st_acquired s' = st_acquired s ∧
  (r = Ok tt → ∀ i d, data !! i = Some d →
     nor_mem (st_nor s') (address + Z.of_nat i) = Z.land (nor_mem (st_nor s) (address + Z.of_nat i)) d).
Proof.
  intros Ha Hlen. revert s. induction attempts as [|attempts IH]; intros s; cbn [program_attempts].
  { intros [= <- <-]. split_and!; [apply same_outside_refl|apply cleared_by_refl|done|done]. }
  destruct (program_chunks _ _ _ _ _ _) as [r1 s1] eqn:E1. apply program_chunks_ok in E1 as (O1 & C1 & A1 & F1); [|done|done|lia].
  rewrite Z.add_0_r in O1. destruct r1 as [| |e].
  - intros [= <- <-]. split_and!; try done. intros _ i d. apply F1; [done|lia].
  - intros H2. apply IH in H2 as (O2 & C2 & A2 & F2). split_and!.
    + by eapply same_outside_trans.
    + by eapply cleared_by_trans.
    + congruence.
    + intros Hr i d Hi. rewrite (F2 Hr i d Hi). by eapply cleared_land.
  - intros [= <- <-]. split_and!; done.
Qed.

(** * Erasing and reading *)

Lemma retry_erase_ok attempts s address len r s' :
  0 <= len → retry_single attempts (λ n, mpi_erase capacity_bytes n address len) s = (r, s') →
  same_outside address (address + len) (nor_mem (st_nor s)) (nor_mem (st_nor s')) ∧ st_acquired s' = st_acquired s ∧
  (r = Ok tt → ∀ x, address <= x < address + len → nor_mem (st_nor s') x = 0xFF).
Proof.
  intros Hl. revert s. induction attempts as [|attempts IH]; intros s; cbn [retry_single].
  { intros [= <- <-]. split_and!; [apply same_outside_refl|done|done]. }
  destruct (mpi_erase _ _ _ _) as [r1 n1] eqn:E1. apply mpi_erase_ok in E1 as [O1 F1]; [|done]. destruct r1 as [[]|e|].
  - intros [= <- <-]. split_and!; [done|done|]. intros _. by apply F1.
  - intros [= <- <-]. split_and!; done.
  - intros H2. apply IH in H2 as (O2 & A2 & F2). split_and!; [by eapply same_outside_trans|done|done].
Qed.

(** The bytes from [offset] have been read. *)
Lemma read_chunks_ok fuel s address buf offset r s' buf' :
  0 <= address → address + Z.of_nat (length buf) <= 2 ^ 32 → (length buf - offset < fuel)%nat →
  read_chunks capacity_bytes fuel s address buf offset = (r, s', buf') →
  nor_mem (st_nor s') = nor_mem (st_nor s) ∧ st_acquired s' = st_acquired s ∧ length buf' = length buf ∧
  (∀ i, (i < offset)%nat → buf' !! i = buf !! i) ∧
  (r = Finished → ∀ i, (offset <= i < length buf)%nat → buf' !! i = Some (nor_mem (st_nor s) (address + Z.of_nat i))).
Proof.
  intros Ha. revert s buf offset. induction fuel as [|fuel IH]; intros s buf offset Hlen Hf; [lia|]. cbn [read_chunks].
  case_decide as Hlt; [|intros [= <- <- <-]; split_and!; try done; intros _ i Hi; lia].
  set (chunk := Nat.min _ _). rewrite wrap_small by (unfold is_u; lia).
  destruct (mpi_read _ _ _ _) as [r1 n1] eqn:Er. apply mpi_read_ok in Er as [Em Eb]. destruct r1 as [tmp|e|].
  2,3: (intros [= <- <- <-]; split_and!; done).
  specialize (Eb tmp eq_refl). destruct (lease_access _) as [ok s1] eqn:El. apply lease_access_nor in El as [En Eacq]. cbn in En, Eacq.
  assert (nor_mem (st_nor s1) = nor_mem (st_nor s)) as Em1 by congruence.
  destruct ok; [|intros [= <- <- <-]; split_and!; done].
  assert (length tmp = chunk) as Htmp by (rewrite Eb; apply length_bytes_at).
  assert (offset + length tmp <= length buf)%nat as Hfit by (unfold chunk in Htmp; lia).
  pose proof (length_splice buf offset tmp Hfit) as Hls.
  intros H2. apply IH in H2 as (M2 & A2 & L2 & K2 & F2); [|rewrite Hls; lia|rewrite Hls; unfold chunk; lia]. rewrite Hls in *. split_and!.
  - congruence.
  - congruence.
  - done.
  - intros i Hi. rewrite K2 by lia. rewrite lookup_splice by done. by rewrite decide_False by lia.
  - intros -> i Hi. destruct (decide (offset + chunk <= i)%nat); [rewrite <- Em1; apply F2; [done|lia]|].
    rewrite K2 by lia. rewrite lookup_splice, decide_True, Eb by lia. rewrite lookup_bytes_at by lia. do 2 f_equal. lia.
Qed.

Lemma read_attempts_ok attempts s address buf r s' buf' :
  0 <= address → address + Z.of_nat (length buf) <= 2 ^ 32 →
  read_attempts capacity_bytes attempts s address buf = (r, s', buf') →
  nor_mem (st_nor s') = nor_mem (st_nor s) ∧ st_acquired s' = st_acquired s ∧ length buf' = length buf ∧
  (r = Ok tt → buf' = bytes_at (nor_mem (st_nor s)) address (length buf)).
Proof.
  intros Ha. revert s buf. induction attempts as [|attempts IH]; intros s buf Hlen; cbn [read_attempts].
  { intros [= <- <- <-]. done. }
  destruct (read_chunks _ _ _ _ _ _) as [[r1 s1] b1] eqn:E1. apply read_chunks_ok in E1 as (M1 & A1 & L1 & _ & F1); [|done|done|lia].
  destruct r1 as [| |e].
  - intros [= <- <- <-]. split_and!; try done. intros _. apply list_eq. intros i. destruct (decide (i < length buf)%nat).
    + rewrite lookup_bytes_at by done. apply F1; [done|lia].
    + rewrite !lookup_ge_None_2; [done| |lia]. rewrite length_bytes_at. lia.
  - intros H2. apply IH in H2 as (M2 & A2 & L2 & F2); [|congruence]. rewrite M1, L1 in *. split_and!; try done; congruence.
  - intros [= <- <- <-]. done.
Qed.
End service.

(** * Without faults *)

(** Nothing fails: every command completes and every lease can be used. *)
Definition no_faults (s : Storage) : Prop := nor_events (st_nor s) = [] ∧ st_leases s = [].

Lemma write_pages_quiet fuel n addr data :
  nor_events n = [] → ∃ n', write_pages fuel n addr data = (MOk tt, n') ∧ nor_events n' = [].
Proof.
  revert n addr data. induction fuel as [|fuel IH]; intros n addr data Hn; cbn [write_pages]; [by exists n|].
  destruct data; [by exists n|]. unfold page_program, command. rewrite Hn. by apply IH.
Qed.

Lemma erase_blocks_quiet fuel n addr end_ :
  nor_events n = [] → ∃ n', erase_blocks fuel n addr end_ = (MOk tt, n') ∧ nor_events n' = [].
Proof.
  revert n addr. induction fuel as [|fuel IH]; intros n addr Hn; cbn [erase_blocks]; [by exists n|].
  case_decide; [|by exists n]. unfold erase_block, command. rewrite Hn. by apply IH.
Qed.

Lemma in_chip capacity address len : address + len <= capacity → capacity < 2 ^ 32 → out_of_chip capacity address len = false.
Proof. intros H1 H2. unfold out_of_chip. by rewrite !bool_decide_eq_false_2 by lia. Qed.

Section quiet.
Context (capacity_bytes : Z) (Hcap : capacity_bytes < 2 ^ 32).

Lemma retry_erase_quiet s address len :
  no_faults s → address mod 4096 = 0 → len mod 4096 = 0 → address + len <= capacity_bytes →
  ∃ s', mpi_retry_single (λ n, mpi_erase capacity_bytes n address len) s = (Ok tt, s') ∧ no_faults s'.
Proof.
  intros [Hn Hl] H1 H2 H3. unfold mpi_retry_single, MPI_IPC_MAX_ATTEMPTS. cbn [retry_single]. unfold mpi_erase, ERASE_4K. rewrite !decide_False by (intros H; by apply H).
  rewrite in_chip by done. destruct (erase_blocks_quiet (Z.to_nat (len / 4096)) (st_nor s) address (address + len) Hn) as (n' & -> & Hn').
  eexists. split; [done|]. by split.
Qed.

Lemma program_chunks_quiet fuel s address data offset :
  no_faults s → 0 <= address → address + Z.of_nat (length data) <= capacity_bytes →
  ∃ s', program_chunks capacity_bytes fuel s address data offset = (Finished, s') ∧ no_faults s'.
Proof.
  intros Hs Ha Hc. revert s offset Hs. induction fuel as [|fuel IH]; intros s offset [Hn Hl]; cbn [program_chunks]; [by exists s|].
  case_decide; [|by exists s]. unfold lease_access. rewrite Hl. cbn [negb]. rewrite wrap_small by (unfold is_u; lia). unfold mpi_write.
  assert (length (take (Nat.min (length data - offset) 256) (drop offset data)) = Nat.min (length data - offset) 256) as Ht by (rewrite length_take, length_drop; lia).
  destruct (take _ _) as [|b tmp] eqn:Et; [by apply IH|]. rewrite in_chip by (rewrite ?Ht; lia).
  destruct (write_pages_quiet (length (b :: tmp)) (st_nor s) (address + Z.of_nat offset) (b :: tmp) Hn) as (n' & -> & Hn'). by apply IH.
Qed.

Lemma program_quiet s address data :
  no_faults s → 0 <= address → address + Z.of_nat (length data) <= capacity_bytes →
  ∃ s', mpi_program_from_lease capacity_bytes s address data = (Ok tt, s') ∧ no_faults s'.
Proof.
  intros Hs Ha Hc. unfold mpi_program_from_lease, MPI_IPC_MAX_ATTEMPTS. cbn [program_attempts].
  destruct (program_chunks_quiet (S (length data)) s address data 0 Hs Ha Hc) as (s' & -> & Hs'). by exists s'.
Qed.

Lemma read_chunks_quiet fuel s address buf offset :
  no_faults s → 0 <= address → address + Z.of_nat (length buf) <= capacity_bytes →
  ∃ s' buf', read_chunks capacity_bytes fuel s address buf offset = (Finished, s', buf') ∧ no_faults s'.
Proof.
  intros Hs Ha. revert s buf offset Hs. induction fuel as [|fuel IH]; intros s buf offset [Hn Hl] Hc; cbn [read_chunks]; [by eexists _, _|].
  case_decide; [|by eexists _, _]. rewrite wrap_small by (unfold is_u; lia). unfold mpi_read, PAGE_SIZE.
  rewrite decide_False by lia. rewrite decide_False by lia. rewrite in_chip by lia. unfold read_bytes, command. rewrite Hn.
  unfold lease_access. cbn [set_nor st_leases]. rewrite Hl. apply IH; [by split|]. rewrite length_splice; [done|]. rewrite length_bytes_at. lia.
Qed.

Lemma read_quiet s address buf :
  no_faults s → 0 <= address → address + Z.of_nat (length buf) <= capacity_bytes →
  ∃ s' buf', mpi_read_to_lease capacity_bytes s address buf = (Ok tt, s', buf') ∧ no_faults s'.
Proof.
  intros Hs Ha Hc. unfold mpi_read_to_lease, MPI_IPC_MAX_ATTEMPTS. cbn [read_attempts].
  destruct (read_chunks_quiet (S (length buf)) s address buf 0 Hs Ha Hc) as (s' & buf' & -> & Hs'). by eexists _, _.
Qed.
End quiet.

(** * Partitions *)

Definition part_fits (p : PartitionResource) : Prop :=
  0 <= pr_offset_bytes p ∧ 0 <= pr_size_bytes p ∧ pr_offset_bytes p + pr_size_bytes p < 2 ^ 32 - 1.

Definition part_start (p : PartitionResource) : Z := pr_offset_bytes p.
Definition part_end (p : PartitionResource) : Z := pr_offset_bytes p + pr_size_bytes p.

Definition flash_of (s : Storage) : Mem := nor_mem (st_nor s).

(** Only the partition changes, and nobody's claim to one. *)
Definition confined (p : PartitionResource) (s s' : Storage) : Prop :=
  same_outside (part_start p) (part_end p) (flash_of s) (flash_of s') ∧ st_acquired s' = st_acquired s.

Lemma beyond_false p offset len :
  part_fits p → is_u 32 offset → is_u 32 len → beyond p offset len = false → offset + len <= pr_size_bytes p.
Proof. intros (H1 & H2 & H3) [Ho _] [Hl _]. unfold beyond. rewrite bool_decide_eq_false. lia. Qed.

Section partitions.
Context (capacity_bytes : Z) (p : PartitionResource) (Hp : part_fits p).

Lemma confined_refl s : confined p s s.
Proof. split; [apply same_outside_refl|done]. Qed.

Lemma part_read_ok s offset buf r s' buf' :
  is_u 32 offset → Z.of_nat (length buf) < 2 ^ 32 → part_read capacity_bytes s p offset buf = (r, s', buf') →
  flash_of s' = flash_of s ∧ st_acquired s' = st_acquired s ∧ length buf' = length buf ∧
  (r = Ok tt → buf' = bytes_at (flash_of s) (part_start p + offset) (length buf)).
Proof.
  intros Ho Hl. unfold part_read. rewrite (wrap_small 32 (Z.of_nat _)) by (unfold is_u; lia).
  destruct (beyond _ _ _) eqn:Eb; [intros [= <- <- <-]; done|].
  apply beyond_false in Eb; [|done|done|unfold is_u; lia]. destruct Hp as (H1 & H2 & H3). unfold is_u in Ho.
  rewrite wrap_small by (unfold is_u; lia). intros H. apply read_attempts_ok in H; [done|lia|lia].
Qed.

Lemma part_erase_ok s offset len r s' :
  is_u 32 offset → is_u 32 len → part_erase capacity_bytes s p offset len = (r, s') →
  confined p s s' ∧ (r = Ok tt → offset + len <= pr_size_bytes p ∧
    same_outside (part_start p + offset) (part_start p + offset + len) (flash_of s) (flash_of s') ∧
    ∀ x, part_start p + offset <= x < part_start p + offset + len → flash_of s' x = 0xFF).
Proof.
  intros Ho Hl. unfold part_erase. destruct (beyond _ _ _) eqn:Eb; [intros [= <- <-]; split; [apply confined_refl|done]|].
  destruct (misaligned _ _); [intros [= <- <-]; split; [apply confined_refl|done]|].
  apply beyond_false in Eb; [|done..]. destruct Hp as (H1 & H2 & H3). unfold is_u in Ho, Hl.
  rewrite wrap_small by (unfold is_u; lia). intros H. apply retry_erase_ok in H as (O & A & F); [|lia].
  split; [split; [|done]|intros Hr; split_and!; [done|done|by apply F]]. unfold part_start, part_end. eapply same_outside_wider; [..|exact O]; lia.
Qed.

Lemma part_program_ok s offset data r s' :
  is_u 32 offset → Z.of_nat (length data) < 2 ^ 32 → part_program capacity_bytes s p offset data = (r, s') →
  confined p s s' ∧ (r = Ok tt → same_outside (part_start p + offset) (part_start p + offset + Z.of_nat (length data)) (flash_of s) (flash_of s') ∧
    ∀ i d, data !! i = Some d → flash_of s' (part_start p + offset + Z.of_nat i) = Z.land (flash_of s (part_start p + offset + Z.of_nat i)) d).
Proof.
  intros Ho Hl. unfold part_program. rewrite (wrap_small 32 (Z.of_nat _)) by (unfold is_u; lia).
  destruct (beyond _ _ _) eqn:Eb; [intros [= <- <-]; split; [apply confined_refl|done]|].
  apply beyond_false in Eb; [|done|done|unfold is_u; lia]. destruct Hp as (H1 & H2 & H3). unfold is_u in Ho.
  rewrite wrap_small by (unfold is_u; lia). intros H. apply program_attempts_ok in H as (O & _ & A & F); [|lia|lia].
  split; [split; [|done]|intros Hr; split; [done|by apply F]]. unfold part_start, part_end. eapply same_outside_wider; [..|exact O]; lia.
Qed.

(** Erased memory takes any bytes. *)
Lemma land_erased d : is_u 8 d → Z.land 0xFF d = d.
Proof. intros Hd. change 0xFF with (Z.ones 8). rewrite Z.land_comm, Z.land_ones by done. apply Z.mod_small. exact Hd. Qed.

Lemma part_write_ok s offset data r s' :
  is_u 32 offset → Z.of_nat (length data) < 2 ^ 32 → bytes_ok data → part_write capacity_bytes s p offset data = (r, s') →
  confined p s s' ∧ (r = Ok tt → same_outside (part_start p + offset) (part_start p + offset + Z.of_nat (length data)) (flash_of s) (flash_of s') ∧
    bytes_at (flash_of s') (part_start p + offset) (length data) = data).
Proof.
  intros Ho Hl Hd. unfold part_write. rewrite (wrap_small 32 (Z.of_nat _)) by (unfold is_u; lia).
  destruct (beyond _ _ _) eqn:Eb; [intros [= <- <-]; split; [apply confined_refl|done]|].
  destruct (misaligned _ _); [intros [= <- <-]; split; [apply confined_refl|done]|].
  apply beyond_false in Eb; [|done|done|unfold is_u; lia]. destruct Hp as (H1 & H2 & H3). unfold is_u in Ho.
  rewrite wrap_small by (unfold is_u; lia). unfold mpi_retry_single.
  destruct (retry_single _ _ s) as [r1 s1] eqn:E1. apply retry_erase_ok in E1 as (O1 & A1 & F1); [|lia].
  assert (∀ m', same_outside (pr_offset_bytes p + offset) (pr_offset_bytes p + offset + Z.of_nat (length data)) (flash_of s) m' →
    same_outside (part_start p) (part_end p) (flash_of s) m') as Hw.
  { intros m' H. unfold part_start, part_end. eapply same_outside_wider; [..|exact H]; lia. }
  destruct r1 as [[]|e]; [|intros [= <- <-]; split; [split; [by apply Hw|done]|done]].
  intros H. apply program_attempts_ok in H as (O2 & _ & A2 & F2); [|lia|lia].
  pose proof (same_outside_trans _ _ _ _ _ O1 O2) as O12. split; [split; [by apply Hw|congruence]|].
  intros Hr. split; [done|]. apply bytes_at_eq. intros i d Hi. pose proof (lookup_lt_Some _ _ _ Hi).
  unfold flash_of, part_start. rewrite (F2 Hr i d Hi). rewrite (F1 eq_refl) by lia. apply land_erased. by eapply Forall_lookup_1.
Qed.

(** ** Operations that nothing disturbs *)

(** The partition is in the chip, and starts at an erase block. *)
Definition part_in_chip : Prop := pr_offset_bytes p mod FLASH_ERASE_SIZE = 0 ∧ part_end p <= capacity_bytes < 2 ^ 32.

Lemma not_beyond offset len : 0 <= offset → 0 <= len → offset + len <= pr_size_bytes p → beyond p offset len = false.
Proof. intros. unfold beyond. apply bool_decide_eq_false. lia. Qed.

Lemma part_erase_quiet s offset len :
  part_in_chip → no_faults s → 0 <= offset → 0 <= len → offset + len <= pr_size_bytes p → misaligned offset len = false →
  ∃ s', part_erase capacity_bytes s p offset len = (Ok tt, s') ∧ no_faults s'.
Proof.
  intros [Ha [Hc1 Hc2]] Hs Ho Hl Hin Hm. unfold part_erase. rewrite not_beyond by done. rewrite Hm. destruct Hp as (H1 & H2 & H3).
  unfold misaligned, FLASH_ERASE_SIZE, part_end in *. apply orb_false_iff in Hm as [Hm1%bool_decide_eq_false Hm2%bool_decide_eq_false].
  rewrite wrap_small by (unfold is_u; lia). apply retry_erase_quiet; [done|done|dlia|dlia|lia].
Qed.

Lemma part_program_quiet s offset data :
  part_in_chip → no_faults s → 0 <= offset → offset + Z.of_nat (length data) <= pr_size_bytes p →
  ∃ s', part_program capacity_bytes s p offset data = (Ok tt, s') ∧ no_faults s'.
Proof.
  intros [Ha [Hc1 Hc2]] Hs Ho Hin. destruct Hp as (H1 & H2 & H3). unfold part_program, part_end in *.
  rewrite (wrap_small 32 (Z.of_nat _)) by (unfold is_u; lia). rewrite not_beyond by lia.
  rewrite wrap_small by (unfold is_u; lia). apply program_quiet; [done|done|lia|lia].
Qed.

Lemma part_read_quiet s offset buf :
  part_in_chip → no_faults s → 0 <= offset → offset + Z.of_nat (length buf) <= pr_size_bytes p →
  ∃ s', part_read capacity_bytes s p offset buf = (Ok tt, s', bytes_at (flash_of s) (part_start p + offset) (length buf)) ∧ no_faults s'.
Proof.
  intros [Ha [Hc1 Hc2]] Hs Ho Hin. destruct (part_read capacity_bytes s p offset buf) as [[r s'] buf'] eqn:E. pose proof E as E2.
  destruct Hp as (H1 & H2 & H3). apply part_read_ok in E as (_ & _ & _ & Hb); [|unfold is_u; lia|lia].
  unfold part_read, part_end in *. rewrite (wrap_small 32 (Z.of_nat _)) in E2 by (unfold is_u; lia). rewrite not_beyond in E2 by lia.
  rewrite wrap_small in E2 by (unfold is_u; lia).
  destruct (read_quiet capacity_bytes Hc2 s (pr_offset_bytes p + offset) buf Hs ltac:(lia) ltac:(lia)) as (s2 & b2 & E3 & Hs2).
  rewrite E3 in E2. injection E2 as <- <- <-. exists s2. by rewrite <- (Hb eq_refl).
Qed.

Lemma part_write_quiet s offset data :
  part_in_chip → no_faults s → 0 <= offset → offset + Z.of_nat (length data) <= pr_size_bytes p → misaligned offset (Z.of_nat (length data)) = false →
  ∃ s', part_write capacity_bytes s p offset data = (Ok tt, s') ∧ no_faults s'.
Proof.
  intros [Ha [Hc1 Hc2]] Hs Ho Hin Hm. destruct Hp as (H1 & H2 & H3). unfold part_write, part_end in *.
  rewrite (wrap_small 32 (Z.of_nat _)) by (unfold is_u; lia). rewrite not_beyond by lia. rewrite Hm.
  unfold misaligned, FLASH_ERASE_SIZE in *. apply orb_false_iff in Hm as [Hm1%bool_decide_eq_false Hm2%bool_decide_eq_false].
  rewrite wrap_small by (unfold is_u; lia).
  destruct (retry_erase_quiet capacity_bytes Hc2 s (pr_offset_bytes p + offset) (Z.of_nat (length data))) as (s1 & -> & Hs1); [done|dlia|dlia|lia|].
  apply program_quiet; [done|done|lia|lia].
Qed.
End partitions.

(** C16: what is written to a partition is what is read from it. Whatever the driver
    goes through (commands that fail, and deaths of its task that make the service
    start over on half-programmed pages), a write that reports success has replaced
    exactly the bytes it was given, and a later read that reports success returns
    them; a write that fails has changed nothing outside of its partition. When
    nothing fails, an aligned write in the partition and the read do report
    success. *)
Theorem storage_roundtrip capacity_bytes p s offset data r s' :
  part_fits p → is_u 32 offset → Z.of_nat (length data) < 2 ^ 32 → bytes_ok data →
  part_write capacity_bytes s p offset data = (r, s') →
  confined p s s' ∧
  (r = Ok tt →
     same_outside (part_start p + offset) (part_start p + offset + Z.of_nat (length data)) (flash_of s) (flash_of s') ∧
     ∀ t buf t' buf', flash_of t = flash_of s' → length buf = length data →
       part_read capacity_bytes t p offset buf = (Ok tt, t', buf') → buf' = data) ∧
  (part_in_chip capacity_bytes p → offset + Z.of_nat (length data) <= pr_size_bytes p → misaligned offset (Z.of_nat (length data)) = false →
   no_faults s → r = Ok tt ∧ no_faults s' ∧
     ∀ buf, length buf = length data → ∃ t', part_read capacity_bytes s' p offset buf = (Ok tt, t', data)).
Proof.
  intros Hp Ho Hl Hd Hw. destruct (part_write_ok capacity_bytes p Hp s offset data r s' Ho Hl Hd Hw) as [Hc Hok].
  split; [done|]. split.
  - intros Hr. destruct (Hok Hr) as [Hs Hb]. split; [done|]. intros t buf t' buf' Et Elen Hread.
    apply (part_read_ok capacity_bytes p Hp) in Hread as (_ & _ & _ & Hread); [|done|lia]. by rewrite (Hread eq_refl), Et, Elen.
  - intros Hchip Hin Hm Hq. destruct (part_write_quiet capacity_bytes p Hp s offset data) as (s2 & E & Hq2); [done|done|apply Ho|done|done|].
    rewrite E in Hw. injection Hw as <- <-. split_and!; [done|exact Hq2|]. intros buf Hb.
    destruct (part_read_quiet capacity_bytes p Hp s2 offset buf) as (t' & Er & _); [done|done|apply Ho|by rewrite Hb|].
    exists t'. rewrite Er, Hb. by rewrite (proj2 (Hok eq_refl)).
Qed.

(** A block is rewritten; the driver dies while it programs the second page. *)
Definition ex_part : PartitionResource := mkPartRes 0 0x10000 0x4000.
Definition ex_block : list Z := replicate 4096 0xA5.
Definition ex_disturbed : Storage := storage_new (mkNor (λ _, 0x5A) [HwOk; HwOk; HwDie (λ x, x)]) [].

Lemma storage_roundtrip_witness :
  ∃ s', part_write 0x1000000 ex_disturbed ex_part 0x1000 ex_block = (Ok tt, s') ∧ flash_of s' 0x12000 = 0x5A ∧
    ∀ t' buf', part_read 0x1000000 s' ex_part 0x1000 (replicate 4096 0) = (Ok tt, t', buf') → buf' = ex_block.
Proof.
  destruct (part_write 0x1000000 ex_disturbed ex_part 0x1000 ex_block) as [r s'] eqn:E.
  assert (r = Ok tt) as Hr by (change r with (r, s').1; rewrite <- E; vm_compute; reflexivity).
  destruct (storage_roundtrip 0x1000000 ex_part ex_disturbed 0x1000 ex_block r s') as (_ & H & _).
  - unfold part_fits. cbn. lia.
  - unfold is_u. lia.
  - reflexivity.
  - apply Forall_replicate. unfold is_u. lia.
  - exact E.
  - destruct (H Hr) as [Ho Hb]. exists s'. rewrite Hr. split; [reflexivity|]. split.
    + rewrite Ho; [reflexivity|]. right. vm_compute. discriminate.
    + intros t' buf' Hread. exact (Hb s' (replicate 4096 0) t' buf' eq_refl eq_refl Hread).
Defined.

(** * Histories of calls *)

Section histories.
Context (capacity_bytes : Z) (PARTITIONS : list PartitionConfig)
  (is_partition_allowed : list Z → Z → bool) (fs_task : option Z).

(** The partitions are in the chip's address space and apart, and there are not
    more than the service has room for. *)
Definition partitions_ok : Prop :=
  (length PARTITIONS <= MAX_PARTITIONS)%nat ∧
  Forall (λ c, 0 <= pc_offset_bytes c ∧ 0 <= pc_size_bytes c ∧ pc_offset_bytes c + pc_size_bytes c < 2 ^ 32 - 1) PARTITIONS ∧
  ∀ i j c d, PARTITIONS !! i = Some c → PARTITIONS !! j = Some d → i ≠ j →
    pc_offset_bytes c + pc_size_bytes c <= pc_offset_bytes d ∨ pc_offset_bytes d + pc_size_bytes d <= pc_offset_bytes c.

Context (Hparts : partitions_ok).

(** The tasks with the partitions they hold. *)
Record World := mkWorld {
  w_storage : Storage;
  w_held : list (Z * PartitionResource);
}.

Inductive StorageOp :=
  | OpAcquire (caller : Z) (name : list Z)
  | OpRelease (h : nat)
  | OpRead (h : nat) (offset : Z) (buf : list Z)
  | OpWrite (h : nat) (offset : Z) (data : list Z)
  | OpErase (h : nat) (offset len : Z)
  | OpProgram (h : nat) (offset : Z) (data : list Z).

(** An operation on the [h]-th partition that is held; others are refused by the
    dispatcher. *)
Definition on_held (w : World) (h : nat) (f : PartitionResource → Storage) : exec World :=
  match w_held w !! h with
  | None => Ret w
  | Some (_, p) => Ret (mkWorld (f p) (w_held w))
  end.

Definition run_storage_op (w : World) (op : StorageOp) : exec World :=
  let s := w_storage w in
  match op with
  | OpAcquire caller name =>
      let! (r, s) := acquire PARTITIONS is_partition_allowed fs_task s caller name in
      match r with
      | Ok p => Ret (mkWorld s (w_held w ++ [(caller, p)]))
      | Err _ => Ret (mkWorld s (w_held w))
      end
  | OpRelease h =>
      match w_held w !! h with
      | None => Ret w
      | Some (_, p) => let! s := release s p in Ret (mkWorld s (delete h (w_held w)))
      end
  | OpRead h offset buf => on_held w h (λ p, (part_read capacity_bytes s p offset buf).1.2)
  | OpWrite h offset data => on_held w h (λ p, (part_write capacity_bytes s p offset data).2)
  | OpErase h offset len => on_held w h (λ p, (part_erase capacity_bytes s p offset len).2)
  | OpProgram h offset data => on_held w h (λ p, (part_program capacity_bytes s p offset data).2)
  end.

Fixpoint run_storage (w : World) (ops : list StorageOp) : exec World :=
  match ops with
  | [] => Ret w
  | op :: ops => let! w := run_storage_op w op in run_storage w ops
  end.

(** Arguments have the widths of their types. *)
Definition storage_op_ok (op : StorageOp) : Prop :=
  match op with
  | OpRead _ offset buf => is_u 32 offset ∧ Z.of_nat (length buf) < 2 ^ 32
  | OpWrite _ offset data | OpProgram _ offset data => is_u 32 offset ∧ Z.of_nat (length data) < 2 ^ 32 ∧ bytes_ok data
  | OpErase _ offset len => is_u 32 offset ∧ is_u 32 len
  | _ => True
  end.

(** The task may have the partition. *)
Definition entitled (caller : Z) (c : PartitionConfig) : Prop :=
  if is_managed c then fs_task = Some caller else is_partition_allowed (pc_name c) caller = true.

(** A held partition is one of the table, and its holder may have it. *)
Definition held_ok (h : Z * PartitionResource) : Prop :=
  ∃ c, PARTITIONS !! pr_index h.2 = Some c ∧ pr_offset_bytes h.2 = pc_offset_bytes c ∧ pr_size_bytes h.2 = pc_size_bytes c ∧ entitled h.1 c.

Definition world_ok (w : World) : Prop :=
  length (st_acquired (w_storage w)) = MAX_PARTITIONS ∧ Forall held_ok (w_held w) ∧
  NoDup ((λ h, pr_index h.2) <$> w_held w) ∧
  ∀ i, st_acquired (w_storage w) !! i = Some true ↔ i ∈ ((λ h, pr_index h.2) <$> w_held w).

Lemma held_fits h : held_ok h → part_fits h.2.
Proof.
  intros (c & Hc & Eo & Es & _). destruct Hparts as (_ & Hall & _). pose proof (Forall_lookup_1 _ _ _ _ Hall Hc) as (? & ? & ?).
  unfold part_fits. rewrite Eo, Es. done.
Qed.

Lemma acquire_claims w caller name :
  world_ok w → ∃ r s', acquire PARTITIONS is_partition_allowed fs_task (w_storage w) caller name = Ret (r, s') ∧
  st_nor s' = st_nor (w_storage w) ∧
  match r with
  | Ok p => world_ok (mkWorld s' (w_held w ++ [(caller, p)]))
  | Err _ => s' = w_storage w
  end.
Proof.
  intros (Hlen & Hheld & Hnd & Hiff). unfold acquire, storage_find_partition.
  destruct (list_find _ PARTITIONS) as [[i c]|] eqn:Ef; [|by eexists _, _].
  apply list_find_Some in Ef as (Hc & _ & _). set (is_fs := match fs_task with Some id => _ | None => _ end).
  destruct (is_managed c && negb is_fs) eqn:E1; [by eexists _, _|].
  destruct (negb (is_managed c) && _) eqn:E2; [by eexists _, _|].
  destruct Hparts as (Hn & Hall & _). pose proof (Forall_lookup_1 _ _ _ _ Hall Hc) as (? & ? & ?). pose proof (lookup_lt_Some _ _ _ Hc) as Hi.
  destruct (lookup_lt_is_Some_2 (st_acquired (w_storage w)) i) as [taken Ht]; [lia|]. unfold idx. rewrite Ht. cbn [ebind].
  destruct taken; [by eexists _, _|]. eexists _, _. split; [done|]. split; [done|].
  assert (i ∉ ((λ h, pr_index h.2) <$> w_held w)) as Hfree by (rewrite <- Hiff, Ht; congruence).
  assert (entitled caller c) as Hent.
  { unfold entitled, is_fs in *. destruct (is_managed c); cbn in E1, E2; [|by destruct (is_partition_allowed _ _)].
    destruct fs_task as [id|]; [|done]. destruct (bool_decide (caller = id)) eqn:E; [|done]. apply bool_decide_eq_true in E as ->. done. }
  split_and!; cbn.
  - by rewrite length_insert.
  - apply Forall_app. split; [done|]. constructor; [|constructor]. exists c. cbn. rewrite !wrap_small by (unfold is_u; lia). done.
  - rewrite fmap_app. apply list.NoDup_app. split_and!; [done| |apply list.NoDup_singleton]. intros j Hj Hj2. apply list_elem_of_singleton in Hj2 as ->. done.
  - intros j. rewrite fmap_app, elem_of_app. cbn. rewrite list_elem_of_singleton. destruct (decide (j = i)) as [->|Hne].
    + rewrite list_lookup_insert_eq by lia. split; [by right|done].
    + rewrite list_lookup_insert_ne by done. rewrite Hiff. split; [by left|intros [?|?]; done].
Qed.

Lemma release_ok w h caller p :
  world_ok w → w_held w !! h = Some (caller, p) →
  ∃ s', release (w_storage w) p = Ret s' ∧ st_nor s' = st_nor (w_storage w) ∧ world_ok (mkWorld s' (delete h (w_held w))).
Proof.
  intros (Hlen & Hheld & Hnd & Hiff) Hh. pose proof (Forall_lookup_1 _ _ _ _ Hheld Hh) as (c & Hc & _). cbn in Hc.
  destruct Hparts as (Hn & _ & _). pose proof (lookup_lt_Some _ _ _ Hc) as Hi.
  unfold release. rewrite set_idx_ok by lia. cbn [ebind]. eexists. split; [done|]. split; [done|].
  pose proof (take_drop_middle _ _ _ Hh) as Esplit. rewrite delete_take_drop.
  rewrite <- Esplit, fmap_app, fmap_cons in Hnd. apply list.NoDup_app in Hnd as (N1 & N2 & N3). cbn in N2, N3. apply list.NoDup_cons in N3 as [N3 N4].
  split_and!; cbn.
  - by rewrite length_insert.
  - rewrite <- Esplit in Hheld. apply Forall_app in Hheld as [? [_ ?]%Forall_cons_1]. by apply Forall_app.
  - rewrite fmap_app. apply list.NoDup_app. split_and!; [done| |done]. intros j Hj1 Hj2. apply (N2 j Hj1). by constructor.
  - intros j. specialize (Hiff j). rewrite <- Esplit, fmap_app, fmap_cons, elem_of_app, elem_of_cons in Hiff. rewrite fmap_app, elem_of_app. cbn in Hiff.
    destruct (decide (j = pr_index p)) as [->|Hne].
    + rewrite list_lookup_insert_eq by lia. split; [done|]. intros [H|H]; [|done]. destruct (N2 _ H). constructor.
    + rewrite list_lookup_insert_ne by done. rewrite Hiff. tauto.
Qed.

(** The handle an operation uses. *)
Definition op_handle (op : StorageOp) : option nat :=
  match op with
  | OpAcquire _ _ => None
  | OpRelease h | OpRead h _ _ | OpWrite h _ _ | OpErase h _ _ | OpProgram h _ _ => Some h
  end.

(** The operation is one of the holder of the partition that [x] is in. *)
Definition by_holder (w : World) (op : StorageOp) (x : Z) : Prop :=
  ∃ h caller p, op_handle op = Some h ∧ w_held w !! h = Some (caller, p) ∧ part_start p <= x < part_end p.

Lemma confined_world w h caller p s' op :
  world_ok w → w_held w !! h = Some (caller, p) → op_handle op = Some h → confined p (w_storage w) s' →
  world_ok (mkWorld s' (w_held w)) ∧ ∀ x, flash_of s' x ≠ flash_of (w_storage w) x → by_holder w op x.
Proof.
  intros (Hlen & Hheld & Hnd & Hiff) Hh Ho [Hc Ha]. split.
  - split_and!; cbn; rewrite ?Ha; done.
  - intros x Hx. exists h, caller, p. split_and!; [done|done|..]; (apply Znot_gt_le || idtac).
    + destruct (Z_lt_le_dec x (part_start p)) as [Hlt|]; [|lia]. intros _. apply Hx, Hc. by left.
    + destruct (Z_lt_le_dec x (part_end p)) as [|Hge]; [done|]. destruct Hx. apply Hc. by right.
Qed.

Lemma on_held_ok w h op f :
  world_ok w → op_handle op = Some h →
  (∀ caller p, w_held w !! h = Some (caller, p) → part_fits p → confined p (w_storage w) (f p)) →
  ∃ w', on_held w h f = Ret w' ∧ world_ok w' ∧ ∀ x, flash_of (w_storage w') x ≠ flash_of (w_storage w) x → by_holder w op x.
Proof.
  intros Hw Ho Hf. unfold on_held. destruct (w_held w !! h) as [[caller p]|] eqn:Eh; [|exists w; split_and!; done].
  eexists. split; [done|]. eapply confined_world; [done|exact Eh|done|]. apply (Hf caller p); [done|].
  exact (held_fits _ (Forall_lookup_1 _ _ _ _ (proj1 (proj2 Hw)) Eh)).
Qed.

Lemma run_storage_op_ok w op :
  world_ok w → storage_op_ok op →
  ∃ w', run_storage_op w op = Ret w' ∧ world_ok w' ∧
    ∀ x, flash_of (w_storage w') x ≠ flash_of (w_storage w) x → by_holder w op x.
Proof.
  intros Hw Hop. destruct op as [caller name|h|h offset buf|h offset data|h offset len|h offset data]; unfold run_storage_op.
  - destruct (acquire_claims w caller name Hw) as (r & s' & E & En & Hr). rewrite E. cbn [ebind]. destruct r as [p|e].
    + eexists. split; [done|]. split; [done|]. intros x. cbn. unfold flash_of. by rewrite En.
    + subst s'. eexists. split; [done|]. split; [by destruct w|]. intros x. cbn. done.
  - destruct (w_held w !! h) as [[c p]|] eqn:Eh; [|exists w; split_and!; done].
    destruct (release_ok w h c p Hw Eh) as (s' & -> & En & Hw'). cbn [ebind]. eexists. split; [done|]. split; [done|].
    intros x. cbn. unfold flash_of. by rewrite En.
  - apply on_held_ok; [done|done|]. intros c p _ Hp. destruct Hop as [H1 H2].
    destruct (part_read _ _ _ _ _) as [[r s'] buf'] eqn:E. apply (part_read_ok capacity_bytes p Hp) in E as (Em & Ea & _ & _); [|done|done].
    split; [intros x _; cbn [fst snd]; by rewrite Em|done].
  - apply on_held_ok; [done|done|]. intros c p _ Hp. destruct Hop as (H1 & H2 & H3).
    destruct (part_write _ _ _ _ _) as [r s'] eqn:E. by apply (part_write_ok capacity_bytes p Hp) in E as [Hc _].
  - apply on_held_ok; [done|done|]. intros c p _ Hp. destruct Hop as (H1 & H2).
    destruct (part_erase _ _ _ _ _) as [r s'] eqn:E. by apply (part_erase_ok capacity_bytes p Hp) in E as [Hc _].
  - apply on_held_ok; [done|done|]. intros c p _ Hp. destruct Hop as (H1 & H2 & H3).
    destruct (part_program _ _ _ _ _) as [r s'] eqn:E. by apply (part_program_ok capacity_bytes p Hp) in E as [Hc _].
Qed.

Lemma run_storage_ok ops w :
  world_ok w → Forall storage_op_ok ops → ∃ w', run_storage w ops = Ret w' ∧ world_ok w'.
Proof.
  intros Hw Hops. revert w Hw. induction Hops as [|op ops Hop _ IH]; intros w Hw; cbn [run_storage]; [by exists w|].
  destruct (run_storage_op_ok w op Hw Hop) as (w1 & -> & Hw1 & _). cbn [ebind]. by apply IH.
Qed.

Lemma world_new_ok n leases : world_ok (mkWorld (storage_new n leases) []).
Proof.
  split_and!; cbn; [done|constructor|constructor|]. intros i. split; [|by intros ?%elem_of_nil].
  intros H. apply (lookup_replicate_1 MAX_PARTITIONS false) in H as [? _]. done.
Qed.

(** Two partitions that are held are apart. *)
Lemma held_apart w h1 h2 c1 c2 p1 p2 x :
  world_ok w → w_held w !! h1 = Some (c1, p1) → w_held w !! h2 = Some (c2, p2) → h1 ≠ h2 →
  part_start p1 <= x < part_end p1 → part_start p2 <= x < part_end p2 → False.
Proof.
  intros (_ & Hheld & Hnd & _) E1 E2 Hne H1 H2.
  pose proof (Forall_lookup_1 _ _ _ _ Hheld E1) as (d1 & D1 & O1 & S1 & _). pose proof (Forall_lookup_1 _ _ _ _ Hheld E2) as (d2 & D2 & O2 & S2 & _).
  cbn in *. destruct Hparts as (_ & _ & Hapart). destruct (decide (pr_index p1 = pr_index p2)) as [E|E].
  - apply Hne. apply (NoDup_lookup _ h1 h2 (pr_index p1) Hnd); rewrite list_lookup_fmap; [rewrite E1|rewrite E2]; cbn; congruence.
  - unfold part_start, part_end in *. destruct (Hapart _ _ _ _ D1 D2 E); lia.
Qed.
End histories.

(** C17: a partition belongs to one task at a time. After any history of calls the
    service has not panicked, the partitions that are held are those marked as
    acquired, each once and by a task that may have it (managed partitions by the
    file system only); and whatever the next call is, the bytes of the flash that it
    changes are in the partition of the handle it used, and in no other that is
    held. *)
Theorem partition_ownership capacity PARTITIONS allowed fs_task n leases ops :
  partitions_ok PARTITIONS → Forall storage_op_ok ops →
  ∃ w, run_storage capacity PARTITIONS allowed fs_task (mkWorld (storage_new n leases) []) ops = Ret w ∧
    world_ok PARTITIONS allowed fs_task w ∧
    ∀ op, storage_op_ok op → ∃ w', run_storage_op capacity PARTITIONS allowed fs_task w op = Ret w' ∧
      ∀ x, flash_of (w_storage w') x ≠ flash_of (w_storage w) x →
        ∃ h caller p, op_handle op = Some h ∧ w_held w !! h = Some (caller, p) ∧ part_start p <= x < part_end p ∧
          ∀ h2 caller2 p2, w_held w !! h2 = Some (caller2, p2) → h2 ≠ h → x < part_start p2 ∨ part_end p2 <= x.
Proof.
  intros Hp Hops. destruct (run_storage_ok capacity PARTITIONS allowed fs_task Hp ops _ (world_new_ok _ _ _ n leases) Hops) as (w & E & Hw).
  exists w. split_and!; [done|done|]. intros op Hop. destruct (run_storage_op_ok capacity PARTITIONS allowed fs_task Hp w op Hw Hop) as (w' & E' & _ & Hx).
  exists w'. split; [done|]. intros x Hne. destruct (Hx x Hne) as (h & caller & p & Ho & Hh & Hin). exists h, caller, p. split_and!; [done|done|lia|lia|].
  intros h2 c2 p2 H2 Hh2. destruct (Z_lt_le_dec x (part_start p2)); [by left|]. destruct (Z_lt_le_dec x (part_end p2)); [|by right].
  exfalso. eapply (held_apart PARTITIONS allowed fs_task Hp w h h2); [done|exact Hh|exact H2|done|exact Hin|done].
Qed.

(** Two partitions, one of the file system's; task 3 gets the other one, task 4 may
    not have it, and task 5 is late. *)
Definition ex_partitions : list PartitionConfig :=
  [mkPartConfig [102; 115] 0x10000 0x10000 PART_MANAGED; mkPartConfig [108; 111; 103] 0x20000 0x4000 0].
Definition ex_allowed (name : list Z) (caller : Z) : bool := bool_decide (caller = 3) || bool_decide (caller = 5).
Definition ex_history : list StorageOp :=
  [OpAcquire 3 [108; 111; 103; 0]; OpAcquire 4 [108; 111; 103]; OpAcquire 5 [108; 111; 103]; OpAcquire 3 [102; 115]; OpErase 0 0 0x4000].

Lemma ex_partitions_ok : partitions_ok ex_partitions.
Proof.
  split_and!; [cbn; unfold MAX_PARTITIONS; lia|repeat constructor; cbn; lia|].
  intros i j c d Hi Hj Hne. destruct i as [|[|?]], j as [|[|?]]; try done; cbn in Hi, Hj; injection Hi as <-; injection Hj as <-; cbn; lia.
Qed.

Lemma partition_ownership_witness :
  ∃ w, run_storage 0x1000000 ex_partitions ex_allowed (Some 7) (mkWorld (storage_new (mkNor (λ _, 0) []) []) []) ex_history = Ret w ∧
    w_held w = [(3, mkPartRes 1 0x20000 0x4000)] ∧ world_ok ex_partitions ex_allowed (Some 7) w.
Proof.
  destruct (partition_ownership 0x1000000 ex_partitions ex_allowed (Some 7) (mkNor (λ _, 0) []) [] ex_history) as (w & E & Hw & _).
  - exact ex_partitions_ok.
  - repeat constructor; cbn; unfold is_u; lia.
  - exists w. split; [exact E|]. split; [|exact Hw].
    assert (match run_storage 0x1000000 ex_partitions ex_allowed (Some 7) (mkWorld (storage_new (mkNor (λ _, 0) []) []) []) ex_history with
      Ret w => w_held w | Panic => [] end = [(3, mkPartRes 1 0x20000 0x4000)]) as H by (vm_compute; reflexivity).
    rewrite E in H. exact H.
Defined.
