(* ===== verification/StorageTable.v ===== *)
(** The table of partitions that [FlashLayout::get_layout] reports is the one the
    host put into the installed image. *)

From S2P Require Import Prelude Memfns Places PlacesBuild PlacesProps Ftab Boot BootProps Nor Storage StorageProps.

Open Scope Z_scope.

(** The flash as the processor sees it. *)
Definition mapped (m : Mem) : Mem := λ a, m (a - MPI2_MAPPING_BASE).

Lemma bytes_at_mapped m a n : bytes_at (mapped m) (MPI2_MAPPING_BASE + a) n = bytes_at m a n.
Proof. unfold bytes_at, mapped. apply list_fmap_ext. intros i x _. f_equal. lia. Qed.

(** * What a sequence of reads returns *)

(** [act] gives [a], unless the driver fails; it does give [a] when nothing fails. *)
Definition reads {A} (m : Mem) (act : lay A) (a : A) : Prop :=
  ∀ s, flash_of s = m → ∃ s', flash_of s' = m ∧ (act s = (Ok a, s') ∨ act s = (Err ReadFailure, s')) ∧
    (nor_events (st_nor s) = [] → act s = (Ok a, s') ∧ nor_events (st_nor s') = []).

Lemma reads_ret {A} m (a : A) : reads m (lay_ret a) a.
Proof. intros s Hs. exists s. split_and!; [done|by left|done]. Qed.

Lemma reads_bind {A B} m (act : lay A) (f : A → lay B) a b : reads m act a → reads m (f a) b → reads m (lay_bind act f) b.
Proof.
  intros Ha Hf s Hs. destruct (Ha s Hs) as (s1 & Hs1 & Hr & Hn). destruct (Hf s1 Hs1) as (s2 & Hs2 & Hr2 & Hn2). unfold lay_bind.
  destruct Hr as [E|E]; rewrite E.
  - exists s2. split_and!; [done|done|]. intros H0. apply Hn2, Hn, H0.
  - exists s1. split_and!; [done|by right|]. intros H0. destruct (Hn H0) as [E2 _]. congruence.
Qed.

Lemma reads_if {A} m (P : Prop) `{Decision P} (x y : lay A) a : ~ P → reads m y a → reads m (if decide P then x else y) a.
Proof. intros HP Hy. by rewrite decide_False. Qed.

Section table.
Context (capacity_bytes : Z) (Hcap : capacity_bytes < 2 ^ 32).

Lemma retry_read attempts s address len :
  (0 < len <= 256)%nat → 0 <= address → address + Z.of_nat len <= capacity_bytes →
  ∃ s', flash_of s' = flash_of s ∧
    (retry_single attempts (λ n, mpi_read capacity_bytes n address len) s = (Ok (bytes_at (flash_of s) address len), s') ∨
     ∃ e, retry_single attempts (λ n, mpi_read capacity_bytes n address len) s = (Err e, s')) ∧
    (nor_events (st_nor s) = [] → (0 < attempts)%nat →
     retry_single attempts (λ n, mpi_read capacity_bytes n address len) s = (Ok (bytes_at (flash_of s) address len), s') ∧ nor_events (st_nor s') = []).
Proof.
  intros Hl Ha Hc. assert (∀ n, mpi_read capacity_bytes n address len = read_bytes n address len) as Er.
  { intros n. unfold mpi_read, PAGE_SIZE. rewrite decide_False by lia. rewrite decide_False by lia. unfold out_of_chip.
    rewrite !bool_decide_eq_false_2 by lia. done. }
  revert s. induction attempts as [|attempts IH]; intros s; cbn [retry_single]; [exists s; split_and!; [done|right; by eexists|lia]|].
  rewrite Er. unfold read_bytes, command. destruct (nor_events (st_nor s)) as [|[|e junk|junk] events] eqn:Ee.
  - eexists. split_and!; [|left; reflexivity|intros _ _; split; reflexivity]. done.
  - eexists. split_and!; [|left; reflexivity|done]. done.
  - eexists. split_and!; [|right; eexists; reflexivity|done]. done.
  - destruct (IH (set_nor s (mkNor (nor_mem (st_nor s)) events))) as (s' & Hf & Hr & _). exists s'. split_and!; [exact Hf|exact Hr|done].
Qed.

Lemma reads_u32 m address :
  0 <= address → address + 4 <= capacity_bytes → reads m (read_u32_at capacity_bytes address) (read_word m address).
Proof.
  intros Ha Hc s Hs. unfold read_u32_at, mpi_read_u32, mpi_retry_single. rewrite wrap_small by (unfold is_u; lia).
  destruct (retry_read MPI_IPC_MAX_ATTEMPTS s address 4) as (s' & Hf & Hr & Hn); [lia|done|lia|]. exists s'. rewrite Hf, Hs in *. split_and!; [done| |].
  - destruct Hr as [E|[e E]]; rewrite E; [by left|by right].
  - intros H0. destruct (Hn H0) as [E E0]; [unfold MPI_IPC_MAX_ATTEMPTS; lia|]. rewrite E. done.
Qed.

Lemma reads_word m address v :
  0 <= address → address + 4 <= capacity_bytes → read_word m address = v → reads m (read_u32_at capacity_bytes address) v.
Proof. intros ?? <-. by apply reads_u32. Qed.

(** * The words of the image *)

Lemma word_piece M a l1 v l3 k :
  bytes_at M a (length (l1 ++ le_bytes 4 v ++ l3)) = l1 ++ le_bytes 4 v ++ l3 → is_u 32 v → k = Z.of_nat (length l1) → read_word M (a + k) = v.
Proof. intros H Hv ->. apply read_word_ok; [done|]. apply bytes_at_piece in H. by rewrite length_le_bytes in H. Qed.

Lemma bytes_at_suffix M a l1 l2 : bytes_at M a (length (l1 ++ l2)) = l1 ++ l2 → bytes_at M (a + Z.of_nat (length l1)) (length l2) = l2.
Proof. intros H. replace (l1 ++ l2) with (l1 ++ l2 ++ []) in H by by rewrite app_nil_r. by apply bytes_at_piece in H. Qed.

Lemma footer_words M base b ck st :
  builder_ok b → bytes_at M base (length (image_bytes b ck st)) = image_bytes b ck st →
  read_word M (base + total_size b - 24) = tables_at b ∧ read_word M (base + total_size b - 24 + 8) = Z.of_nat (length (b_partitions b)) ∧
  read_word M (base + total_size b - 24 + 20) = PLACES_MAGIC.
Proof.
  intros Hb H. pose proof (builder_offsets b Hb) as Ho. destruct (tables_at_ok b Ho) as [Hto _]. pose proof (length_image_bytes b ck st Ho) as Hl.
  destruct Hb as (_ & _ & _ & _ & _ & Ht). pose proof Ht as Ht2. unfold total_size, PARTITION_SIZE, SEGMENT_SIZE, FOOTER_V2_SIZE in Ht2.
  unfold image_bytes in H, Hl. rewrite !app_assoc in H, Hl. set (X := _ ++ le_bytes 4 st) in *.
  apply bytes_at_suffix in H. assert (length (footer_core b) = 24%nat) as Hf by (unfold footer_core; len). rewrite length_app, Hf in Hl.
  replace (base + Z.of_nat (length X)) with (base + total_size b - 24) in H by lia. unfold footer_core in H.
  rewrite !(wrap_small 32) in H by (unfold is_u; lia). split_and!.
  - rewrite <- (Z.add_0_r (base + total_size b - 24)). eapply (word_piece _ _ []); [exact H|unfold is_u; lia|done].
  - set (t := base + total_size b - 24) in *. rewrite app_assoc in H. eapply word_piece; [exact H|unfold is_u; lia|len].
  - set (t := base + total_size b - 24) in *. rewrite !app_assoc in H. rewrite <- (app_nil_r (_ ++ le_bytes 4 MAGIC)), <- app_assoc in H.
    eapply word_piece; [exact H|const_u|len].
Qed.

Lemma row_words M base b ck st i p :
  builder_ok b → bytes_at M base (length (image_bytes b ck st)) = image_bytes b ck st → b_partitions b !! i = Some p →
  let row := base + tables_at b + Z.of_nat i * 16 in
  read_word M row = p_name_hash p ∧ read_word M (row + 4) = p_offset p ∧ read_word M (row + 8) = p_size p ∧ read_word M (row + 12) = p_flags p.
Proof.
  intros Hb H Hi. pose proof (builder_offsets b Hb) as Ho. destruct (tables_at_ok b Ho) as [Hto _]. pose proof (length_data_region b Ho) as Hd.
  destruct Hb as (_ & _ & _ & Hparts & _ & _). pose proof (Forall_lookup_1 _ _ _ _ Hparts Hi) as (P1 & P2 & P3 & P4).
  destruct (concat_rows_lookup part_row (b_partitions b) i p) as (w & post & E & Hw); [intros; unfold part_row; len|done|].
  unfold image_bytes, image_body, part_table in H. rewrite E in H. set (D := data_region _ _) in *. rewrite <- !app_assoc in H.
  rewrite (app_assoc D w) in H. set (X := D ++ w) in *. assert (Z.of_nat (length X) = tables_at b + Z.of_nat i * 16) as HX by (unfold X; len).
  unfold part_row in H. rewrite <- !app_assoc in H. set (row := base + tables_at b + Z.of_nat i * 16). cbv zeta. split_and!.
  - replace row with (base + Z.of_nat (length X)) by (unfold row; lia). eapply word_piece; [exact H|done|done].
  - rewrite (app_assoc X) in H. replace (row + 4) with (base + Z.of_nat (length (X ++ le_bytes 4 (p_name_hash p)))) by (unfold row; len).
    eapply word_piece; [exact H|done|done].
  - rewrite (app_assoc X), (app_assoc (X ++ _)) in H.
    replace (row + 8) with (base + Z.of_nat (length ((X ++ le_bytes 4 (p_name_hash p)) ++ le_bytes 4 (p_offset p)))) by (unfold row; len).
    eapply word_piece; [exact H|done|done].
  - rewrite (app_assoc X), (app_assoc (X ++ _)), (app_assoc ((X ++ _) ++ _)) in H.
    replace (row + 12) with (base + Z.of_nat (length (((X ++ le_bytes 4 (p_name_hash p)) ++ le_bytes 4 (p_offset p)) ++ le_bytes 4 (p_size p)))) by (unfold row; len).
    eapply word_piece; [exact H|done|done].
Qed.

Lemma read_word_mapped m a : read_word (mapped m) (MPI2_MAPPING_BASE + a) = read_word m a.
Proof. unfold read_word. by rewrite bytes_at_mapped. Qed.

(** The image in the flash, at the offset [off], as the processor sees it. *)
Context (m : Mem) (f : Flashed) (off : Z) (Hf : flashed_in (mapped m) f) (Hbase : fl_base f = MPI2_MAPPING_BASE + off).
Context (Hoff : 0 <= off) (Hin : off + fl_size f <= capacity_bytes).

Lemma flashed_bytes : builder_ok (fl_builder f) ∧
  bytes_at m off (length (image_bytes (fl_builder f) (fl_checksum f) (fl_state f))) = image_bytes (fl_builder f) (fl_checksum f) (fl_state f).
Proof.
  destruct Hf as (Hb & _ & _ & _ & _ & _ & E). split; [done|]. unfold raw_parts in E. rewrite Hbase, bytes_at_mapped in E.
  pose proof (length_image_bytes (fl_builder f) (fl_checksum f) (fl_state f) (builder_offsets _ Hb)) as Hl.
  replace (length (image_bytes (fl_builder f) (fl_checksum f) (fl_state f))) with (Z.to_nat (fl_size f)); [exact E|]. unfold fl_size. lia.
Qed.

Lemma reads_entries count start :
  (start + count <= length (b_partitions (fl_builder f)))%nat →
  reads m (read_entries capacity_bytes count (off + tables_at (fl_builder f) + Z.of_nat start * PLACES_PARTITION_SIZE))
    (take count (drop start (b_partitions (fl_builder f)))).
Proof.
  destruct flashed_bytes as [Hb Hbytes]. destruct (tables_at_ok _ (builder_offsets _ Hb)) as [Hto _].
  unfold fl_size, total_size, PARTITION_SIZE, SEGMENT_SIZE, FOOTER_V2_SIZE in Hin. unfold PLACES_PARTITION_SIZE.
  revert start. induction count as [|count IH]; intros start Hc; cbn [read_entries take]; [apply reads_ret|].
  destruct (lookup_lt_is_Some_2 (b_partitions (fl_builder f)) start) as [p Hp]; [lia|].
  destruct (row_words m off _ _ _ start p Hb Hbytes Hp) as (R1 & R2 & R3 & R4). set (row := off + tables_at (fl_builder f) + Z.of_nat start * 16) in *.
  assert (0 <= row ∧ row + 16 <= capacity_bytes) as [Hr1 Hr2] by (unfold row; lia). rewrite (drop_S _ p) by done.
  do 4 (eapply reads_bind; [eapply reads_word; [lia|lia|first [exact R1|exact R2|exact R3|exact R4]]|]).
  eapply reads_bind; [|].
  - specialize (IH (S start) ltac:(lia)). unfold PLACES_PARTITION_SIZE. replace (row + 16) with (off + tables_at (fl_builder f) + Z.of_nat (S start) * 16) by (unfold row; lia).
    exact IH.
  - cbn [take]. destruct p. apply reads_ret.
Qed.

Lemma reads_locate ftab_base src dest size images l :
  build_ftab ftab_base src dest size (slot_a f :: images) = Ret l → bytes_at m 0 (length l) = l →
  Forall (λ i, i.1.1 ≠ FTAB_PLACES_SLOT_A) images → 20480 <= capacity_bytes → fl_size f < 2 ^ 32 - 1 →
  reads m (locate_places capacity_bytes) (off, fl_size f).
Proof.
  intros El Hl Hi Hc Hs. rewrite <- bytes_at_mapped, Z.add_0_r in Hl.
  pose proof (read_slot_a (mapped m) _ _ _ _ l f images El Hl Hf Hi) as Ea.
  assert (read_word m 0 = Storage.SEC_CONFIG_MAGIC) as W0.
  { apply build_ftab_app in El as [pad ->]. rewrite <- read_word_mapped. unfold sec_bytes in Hl. rewrite <- app_assoc in Hl.
    apply (word_piece (mapped m) MPI2_MAPPING_BASE [] _ _ 0) in Hl; [exact Hl|const_u|done]. }
  unfold read_ftab_slot in Ea. injection Ea as E1 E2.
  change (FTAB_ADDR + 4 + FTAB_SLOT_A * 16) with (MPI2_MAPPING_BASE + 228) in E1.
  change (FTAB_ADDR + 4 + FTAB_SLOT_A * 16 + 4) with (MPI2_MAPPING_BASE + 232) in E2. rewrite read_word_mapped in E1, E2.
  destruct flashed_bytes as [Hb _]. pose proof (total_size_pos _ Hb) as Hpos.
  unfold locate_places. eapply reads_bind; [eapply reads_word; [done|lia|exact W0]|]. rewrite decide_False by (intros H; by apply H).
  change (SECFG_FTAB_OFFSET + FTAB_PLACES_SLOT * FTAB_ENTRY_SIZE) with 228. change (228 + 4) with 232.
  eapply reads_bind; [eapply reads_word; [done|lia|exact E1]|]. eapply reads_bind; [eapply reads_word; [done|lia|exact E2]|].
  destruct (flashed_bounds (mapped m) f Hf) as (B1 & B2 & B3 & B4). unfold fl_size in *. unfold MPI2_MAPPING_BASE in *.
  apply reads_if; [lia|]. apply reads_if; [lia|]. rewrite Hbase. replace (0x12000000 + off - 0x12000000) with off by lia. apply reads_ret.
Qed.
End table.

(** The installed table of partitions. When the flash table names an image for
    slot A, [get_layout] returns the partitions that the host put into that image, at
    most eight from the one asked for, with their number; unless the driver fails,
    which is reported. *)
Theorem installed_table_reported capacity_bytes m f off ftab_base src dest size images l start :
  capacity_bytes < 2 ^ 32 → flashed_in (mapped m) f → fl_base f = MPI2_MAPPING_BASE + off → 0 <= off → off + fl_size f <= capacity_bytes →
  build_ftab ftab_base src dest size (slot_a f :: images) = Ret l → bytes_at m 0 (length l) = l →
  Forall (λ i, i.1.1 ≠ FTAB_PLACES_SLOT_A) images → 20480 <= capacity_bytes → (start < length (b_partitions (fl_builder f)))%nat →
  ∀ s, flash_of s = m → ∃ s', flash_of s' = m ∧
    (get_layout capacity_bytes (Z.of_nat start) s =
       (Ok (mkLayoutPage (Z.of_nat (length (b_partitions (fl_builder f)))) (Z.of_nat start)
              (take MAX_ENTRIES_PER_CALL (drop start (b_partitions (fl_builder f))))), s') ∨
     get_layout capacity_bytes (Z.of_nat start) s = (Err ReadFailure, s') ∧ nor_events (st_nor s) ≠ []).
Proof.
  intros Hcap Hf Hbase Hoff Hin El Hl Hi Hc Hstart.
  destruct (flashed_bytes m f off Hf Hbase) as [Hb Hbytes]. destruct (tables_at_ok _ (builder_offsets _ Hb)) as [Hto _].
  pose proof (total_size_pos _ Hb) as Hpos. pose proof Hf as (_ & _ & _ & Hmax & _).
  assert (reads m (get_layout capacity_bytes (Z.of_nat start)) (mkLayoutPage (Z.of_nat (length (b_partitions (fl_builder f)))) (Z.of_nat start)
    (take MAX_ENTRIES_PER_CALL (drop start (b_partitions (fl_builder f)))))) as Hr.
  { unfold get_layout. eapply reads_bind; [eapply (reads_locate capacity_bytes Hcap m f off Hf Hbase); [lia|exact Hin|exact El|exact Hl|exact Hi|lia|lia]|].
    cbv beta iota. unfold fl_size, PLACES_FOOTER_SIZE in *. apply reads_if; [lia|].
    destruct (footer_words m off _ _ _ Hb Hbytes) as (F1 & F2 & F3).
    eapply reads_bind; [eapply reads_word; [lia|lia|lia|exact F1]|]. eapply reads_bind; [eapply reads_u32; lia|].
    eapply reads_bind; [eapply reads_word; [lia|lia|lia|exact F2]|]. eapply reads_bind; [eapply reads_word; [lia|lia|lia|exact F3]|].
    apply reads_if; [intros H; by apply H|]. apply reads_if; [lia|]. set (count := Nat.min _ _).
    eapply reads_bind; [apply (reads_entries capacity_bytes Hcap m f off Hf Hbase Hoff Hin count start); unfold count; lia|].
    replace (take MAX_ENTRIES_PER_CALL (drop start (b_partitions (fl_builder f)))) with (take count (drop start (b_partitions (fl_builder f)))); [apply reads_ret|].
    unfold count. set (l0 := drop start _). assert (length l0 = Z.to_nat (Z.of_nat (length (b_partitions (fl_builder f))) - Z.of_nat start)) as <- by (unfold l0; rewrite length_drop; lia).
    rewrite Nat.min_comm, <- take_take. by rewrite (take_ge l0) by lia. }
  intros s Hs. destruct (Hr s Hs) as (s' & Hs' & Ho & Hn). exists s'. split; [done|].
  destruct Ho as [?|E]; [by left|]. right. split; [done|]. intros H0. destruct (Hn H0) as [E2 _]. rewrite E2 in E. discriminate E.
Qed.

(** ** A device *)

(** The chip of a device, which has its bytes from [MPI2_MAPPING_BASE] on. *)
Definition chip (M : Mem) : Mem := λ a, M (MPI2_MAPPING_BASE + a).

Lemma bytes_at_chip M a n : bytes_at (mapped (chip M)) a n = bytes_at M a n.
Proof. unfold bytes_at, mapped, chip. apply list_fmap_ext. intros i x _. f_equal. lia. Qed.

Lemma flashed_in_chip M f : flashed_in M f → flashed_in (mapped (chip M)) f.
Proof. unfold flashed_in, raw_parts. by rewrite bytes_at_chip. Qed.

Definition ex_storage : Storage := storage_new (mkNor (chip device) []) [].

Lemma installed_table_reported_witness :
  ∃ s', get_layout 0x1000000 0 ex_storage = (Ok (mkLayoutPage 1 0 [mkPartition (name_hash [105; 109; 103]) 0x5000 0x100000 PART_MANAGED]), s').
Proof.
  destruct (installed_table_reported 0x1000000 (chip device) device_a 0x5000 FTAB_ADDR 0x12005000 0x20040000 6 [slot_b device_b] device_ftab 0)
    with (s := ex_storage) as (s' & _ & H).
  - reflexivity.
  - apply flashed_in_chip, device_a_flashed.
  - reflexivity.
  - discriminate.
  - vm_compute. discriminate.
  - apply build_ftab_ok.
  - rewrite <- bytes_at_mapped. rewrite bytes_at_chip. apply device_ftab_read.
  - constructor; [discriminate|constructor].
  - discriminate.
  - cbn. lia.
  - reflexivity.
  - exists s'. destruct H as [H|[_ H]]; [exact H|]. destruct H. reflexivity.
Defined.
