(* ===== verification/Ring.v ===== *)
(** The ring writer of the storage API ([sysmodule/storage/api/src/ring.rs]): messages,
    COBS-encoded between zero bytes, on a partition of the storage service. Errors of
    the service are ignored by the writer. *)

From S2P Require Import Prelude Cobs Memfns Nor Storage.

Open Scope Z_scope.

Definition MAX_PROGRAM_SIZE : nat := 256.

Record RingWriter := mkRing {
  rw_pos : Z;
  rw_capacity : Z;
  rw_erase_size : Z;
  rw_program_size : nat;
  rw_counter : Z;
  rw_prog_buf : list Z;
  rw_prog_buf_start : Z;
  rw_prog_buf_len : nat;
  rw_cobs_buf : list Z;
  rw_cobs_len : nat;
  rw_in_message : bool;
}.

(** Updates of single fields. *)
Definition set_prog (w : RingWriter) (pos : Z) (buf : list Z) (start : Z) (len : nat) : RingWriter :=
  mkRing pos (rw_capacity w) (rw_erase_size w) (rw_program_size w) (rw_counter w) buf start len (rw_cobs_buf w) (rw_cobs_len w) (rw_in_message w).
Definition set_cobs (w : RingWriter) (buf : list Z) (len : nat) : RingWriter :=
  mkRing (rw_pos w) (rw_capacity w) (rw_erase_size w) (rw_program_size w) (rw_counter w) (rw_prog_buf w) (rw_prog_buf_start w) (rw_prog_buf_len w) buf len (rw_in_message w).
Definition set_message (w : RingWriter) (counter : Z) (in_message : bool) : RingWriter :=
  mkRing (rw_pos w) (rw_capacity w) (rw_erase_size w) (rw_program_size w) counter (rw_prog_buf w) (rw_prog_buf_start w) (rw_prog_buf_len w) (rw_cobs_buf w) (rw_cobs_len w) in_message.

(** [RingWriter::new]; the geometry is [None] when the service did not answer. *)
Definition ring_writer_new (geom : option Geometry) : exec RingWriter :=
  let geom := default (mkGeometry 0 4096 256 1) geom in
  if decide (ge_program_size geom <= Z.of_nat MAX_PROGRAM_SIZE) then
    Ret (mkRing 0 (ge_total_size geom) (ge_erase_size geom) (Z.to_nat (ge_program_size geom)) 0 (replicate MAX_PROGRAM_SIZE 0) 0 0 (replicate COBS_GROUP 0) 0 false)
  else Panic.

Section writer.
Context (capacity_bytes : Z) (p : PartitionResource).

(** The writer and the service. *)
Definition RingState : Type := RingWriter * Storage.

(** [for i in from..to { prog_buf[i] = 0 }] *)
Fixpoint pad_zero (n : nat) (buf : list Z) (i : nat) : exec (list Z) :=
  match n with
  | O => Ret buf
  | S n => let! buf := set_idx buf i 0 in pad_zero n buf (S i)
  end.

Definition flush_prog (r : RingState) : exec RingState :=
  let '(w, s) := r in
  if decide (rw_prog_buf_len w = O) then Ret (w, s) else
  let! buf := pad_zero (rw_program_size w - rw_prog_buf_len w) (rw_prog_buf w) (rw_prog_buf_len w) in
  let! data := slice buf 0 (rw_program_size w) in
  let s := (part_program capacity_bytes s p (rw_prog_buf_start w) data).2 in
  Ret (set_prog w (rw_pos w) buf (rw_prog_buf_start w) 0, s).

(** [a % b] on integers, which panics for zero. *)
Definition urem (a b : Z) : exec Z := if decide (b = 0) then Panic else Ret (a mod b).

Definition emit_byte (b : Z) (r : RingState) : exec RingState :=
  let '(w, s) := r in
  let! in_sector := urem (rw_pos w) (rw_erase_size w) in
  let s := if decide (in_sector = 0 ∧ rw_prog_buf_len w = O) then (part_erase capacity_bytes s p (rw_pos w) (rw_erase_size w)).2 else s in
  let start := if decide (rw_prog_buf_len w = O) then rw_pos w else rw_prog_buf_start w in
  let! buf := set_idx (rw_prog_buf w) (rw_prog_buf_len w) b in
  let! pos := urem (wrap 32 (rw_pos w + 1)) (rw_capacity w) in
  let w := set_prog w pos buf start (rw_prog_buf_len w + 1) in
  if decide (rw_prog_buf_len w = rw_program_size w) then flush_prog (w, s) else Ret (w, s).

(** [for i in from..from + n { emit_byte(cobs_buf[i]) }] *)
Fixpoint emit_cobs (n : nat) (i : nat) (r : RingState) : exec RingState :=
  match n with
  | O => Ret r
  | S n => let! b := idx (rw_cobs_buf r.1) i in let! r := emit_byte b r in emit_cobs n (S i) r
  end.

Definition cobs_flush (r : RingState) : exec RingState :=
  let n := rw_cobs_len r.1 in
  let! r := emit_byte (Z.of_nat n + 1) r in
  let! (w, s) := emit_cobs n 0 r in
  Ret (set_cobs w (rw_cobs_buf w) 0, s).

Definition cobs_flush_full (r : RingState) : exec RingState :=
  let! r := emit_byte 0xFF r in
  let! (w, s) := emit_cobs COBS_GROUP 0 r in
  Ret (set_cobs w (rw_cobs_buf w) 0, s).

Definition cobs_feed (b : Z) (r : RingState) : exec RingState :=
  if decide (b = 0) then cobs_flush r else
  let '(w, s) := r in
  let! buf := set_idx (rw_cobs_buf w) (rw_cobs_len w) b in
  let w := set_cobs w buf (rw_cobs_len w + 1) in
  if decide (rw_cobs_len w = COBS_GROUP) then cobs_flush_full (w, s) else Ret (w, s).

Fixpoint feed_all (data : list Z) (r : RingState) : exec RingState :=
  match data with
  | [] => Ret r
  | b :: data => let! r := cobs_feed b r in feed_all data r
  end.

Definition ring_end (r : RingState) : exec RingState :=
  if negb (rw_in_message r.1) then Ret r else
  let! r := cobs_flush r in
  let! r := emit_byte 0 r in
  let! (w, s) := flush_prog r in
  Ret (set_message w (wrap 32 (rw_counter w + 1)) false, s).

Definition ring_begin (r : RingState) : exec RingState :=
  let! (w, s) := if rw_in_message r.1 then ring_end r else Ret r in
  let w := set_cobs (set_message w (rw_counter w) true) (rw_cobs_buf w) 0 in
  let! r := emit_byte 0 (w, s) in
  feed_all (le_bytes 4 (rw_counter w)) r.

Definition ring_write (data : list Z) (r : RingState) : exec RingState := feed_all data r.

(** A message: [begin], [write], [end]. *)
Definition ring_message (data : list Z) (r : RingState) : exec RingState :=
  let! r := ring_begin r in
  let! r := ring_write data r in
  ring_end r.
End writer.
