(* ===== verification/RingProps.v ===== *)
(** The ring writer puts messages on the flash as COBS frames: what it emits decodes
    to the counter and the data, a message that starts at a page of erased flash is
    stored as it was emitted, and the message after one that did not fill its last
    page is lost. *)

From S2P Require Import Prelude Cobs Memfns Boot Nor Storage StorageProps Ring.

Open Scope Z_scope.

(** * What a message emits *)

(** The fields that emitting leaves alone. *)
Definition reframe (r : RingState) (buf : list Z) (len : nat) (counter : Z) (in_message : bool) : RingState :=
  let '(w, s) := r in
  (mkRing (rw_pos w) (rw_capacity w) (rw_erase_size w) (rw_program_size w) counter (rw_prog_buf w) (rw_prog_buf_start w) (rw_prog_buf_len w) buf len in_message, s).

Definition reframed (r r' : RingState) : RingState :=
  reframe r (rw_cobs_buf r'.1) (rw_cobs_len r'.1) (rw_counter r'.1) (rw_in_message r'.1).

Lemma reframed_self r : reframed r r = r.
Proof. destruct r as [[] s]. reflexivity. Qed.

Lemma reframe_twice r b1 n1 c1 i1 b2 n2 c2 i2 : reframe (reframe r b1 n1 c1 i1) b2 n2 c2 i2 = reframe r b2 n2 c2 i2.
Proof. destruct r as [[] s]. reflexivity. Qed.

Lemma ebind_assoc {A B C} (m : exec A) (f : A → exec B) (g : B → exec C) : ebind (ebind m f) g = ebind m (λ a, ebind (f a) g).
Proof. by destruct m. Qed.

Section emission.
Context (capacity_bytes : Z) (p : PartitionResource).

Local Abbreviation emit := (emit_byte capacity_bytes p).
Local Abbreviation flush := (flush_prog capacity_bytes p).

Fixpoint emit_all (bytes : list Z) (r : RingState) : exec RingState :=
  match bytes with
  | [] => Ret r
  | b :: bytes => let! r := emit b r in emit_all bytes r
  end.

Lemma emit_all_app l1 l2 r : emit_all (l1 ++ l2) r = let! r := emit_all l1 r in emit_all l2 r.
Proof. revert r. induction l1 as [|b l1 IH]; intros r; cbn; [done|]. rewrite ebind_assoc. destruct (emit b r); cbn; [apply IH|done]. Qed.

Lemma flush_reframe r buf n c i : flush (reframe r buf n c i) = let! r := flush r in Ret (reframe r buf n c i).
Proof.
  destruct r as [w s]. unfold flush_prog, reframe. cbn -[decide]. case_decide; [done|]. destruct (pad_zero _ _ _); cbn; [|done]. by destruct (slice _ _ _).
Qed.

Lemma emit_reframe b r buf n c i : emit b (reframe r buf n c i) = let! r := emit b r in Ret (reframe r buf n c i).
Proof.
  destruct r as [w s]. unfold emit_byte. cbn -[decide flush_prog]. destruct (urem (rw_pos w) _); cbn -[decide flush_prog]; [|done]. destruct (set_idx _ _ _); cbn -[decide flush_prog]; [|done].
  destruct (urem _ (rw_capacity w)); cbn -[decide flush_prog]; [|done]. destruct (decide (rw_prog_buf_len w + 1 = _)%nat); [|done]. match goal with |- _ = ebind (flush_prog _ _ ?r) _ => exact (flush_reframe r buf n c i) end.
Qed.

Lemma emit_all_reframe bytes r buf n c i : emit_all bytes (reframe r buf n c i) = let! r := emit_all bytes r in Ret (reframe r buf n c i).
Proof.
  revert r. induction bytes as [|b bytes IH]; intros r; cbn; [done|]. rewrite emit_reframe, !ebind_assoc. destruct (emit b r); cbn; [apply IH|done].
Qed.

(** The buffer of the encoder starts with the bytes of the unfinished group. *)
Definition holds_pend (buf pend : list Z) : Prop :=
  length buf = COBS_GROUP ∧ (length pend < COBS_GROUP)%nat ∧ take (length pend) buf = pend.

Lemma emit_cobs_all n k r buf len c i :
  (k + n <= length buf)%nat →
  emit_cobs capacity_bytes p n k (reframe r buf len c i) = let! r := emit_all (take n (drop k buf)) r in Ret (reframe r buf len c i).
Proof.
  revert k r. induction n as [|n IH]; intros k r Hk; cbn [emit_cobs]; [done|].
  assert (rw_cobs_buf (reframe r buf len c i).1 = buf) as -> by (by destruct r). destruct (idx_lt buf k) as (b & Hb & ->); [lia|].
  rewrite (drop_S buf b k Hb). cbn [take emit_all ebind]. rewrite emit_reframe, !ebind_assoc. destruct (emit b r); cbn [ebind]; [apply IH; lia|done].
Qed.

Lemma cobs_flush_all r buf pend c i :
  holds_pend buf pend →
  cobs_flush capacity_bytes p (reframe r buf (length pend) c i) =
  let! r := emit_all ((Z.of_nat (length pend) + 1) :: pend) r in Ret (reframe r buf 0 c i).
Proof.
  intros (H1 & H2 & H3). unfold cobs_flush. assert (rw_cobs_len (reframe r buf (length pend) c i).1 = length pend) as -> by (by destruct r).
  rewrite emit_reframe. cbn [emit_all]. rewrite !ebind_assoc. destruct (emit _ r) as [r1|]; cbn [ebind]; [|done].
  rewrite emit_cobs_all by lia. rewrite drop_0, H3, ebind_assoc. destruct (emit_all pend r1) as [[w s]|]; done.
Qed.

Lemma cobs_flush_full_all r buf len c i :
  length buf = COBS_GROUP →
  cobs_flush_full capacity_bytes p (reframe r buf len c i) = let! r := emit_all (0xFF :: buf) r in Ret (reframe r buf 0 c i).
Proof.
  intros H1. unfold cobs_flush_full. rewrite emit_reframe. cbn [emit_all]. rewrite !ebind_assoc. destruct (emit _ r) as [r1|]; cbn [ebind]; [|done].
  rewrite emit_cobs_all by lia. rewrite drop_0, <- H1, take_ge, ebind_assoc by lia. destruct (emit_all buf r1) as [[w s]|]; done.
Qed.

Lemma take_insert_snoc {A} (l : list A) n x : (n < length l)%nat → take (n + 1) (<[n := x]> l) = take n l ++ [x].
Proof. intros Hn. rewrite Nat.add_1_r, (take_S_r _ _ x) by (by apply list_lookup_insert_eq). by rewrite take_insert_ge by lia. Qed.

(** Feeding the encoder emits the groups that became complete. *)
Lemma feed_all_emits data r buf pend c i :
  holds_pend buf pend →
  ∃ buf', holds_pend buf' (cobs_run pend data).2 ∧
    feed_all capacity_bytes p data (reframe r buf (length pend) c i) =
    let! r := emit_all (cobs_run pend data).1 r in Ret (reframe r buf' (length (cobs_run pend data).2) c i).
Proof.
  revert r buf pend. induction data as [|b data IH]; intros r buf pend Hp; cbn [feed_all cobs_run].
  { exists buf. split; [done|reflexivity]. }
  assert (∀ buf2 head r0, length buf2 = COBS_GROUP →
    ∃ buf', holds_pend buf' (cobs_run [] data).2 ∧
      (let! r1 := (let! r := emit_all head r0 in Ret (reframe r buf2 0 c i)) in feed_all capacity_bytes p data r1) =
      let! r := emit_all (head ++ (cobs_run [] data).1) r0 in Ret (reframe r buf' (length (cobs_run [] data).2) c i)) as Hnext.
  { intros buf2 head r0 Hb. rewrite ebind_assoc, emit_all_app. assert (holds_pend buf2 []) as Hp2 by (split_and!; unfold COBS_GROUP in *; cbn in *; (done || lia)).
    destruct (emit_all head r0) as [r1|]; cbn [ebind].
    - exact (IH r1 buf2 [] Hp2).
    - destruct (IH r0 buf2 [] Hp2) as (b' & Hb' & _). by exists b'. }
  unfold cobs_feed. destruct Hp as (H1 & H2 & H3). destruct (decide (b = 0)) as [->|Hb0]; [|].
  - rewrite cobs_flush_all by done. destruct (Hnext buf ((Z.of_nat (length pend) + 1) :: pend) r H1) as (b' & Hb' & E). exists b'.
    destruct (cobs_run [] data) as [out rest]. cbn [fst snd] in *. by rewrite E.
  - destruct r as [w s]. cbn [reframe]. cbn [rw_cobs_buf rw_cobs_len]. rewrite set_idx_ok by lia. cbn [ebind].
    pose proof (take_insert_snoc buf (length pend) b ltac:(lia)) as Ht. rewrite H3 in Ht. cbn [set_cobs rw_cobs_len].
    destruct (decide (length pend + 1 = COBS_GROUP)%nat) as [Hfull|Hfull].
    + change (set_cobs _ _ _, s) with (reframe (w, s) (<[length pend:=b]> buf) (length pend + 1) c i).
      rewrite cobs_flush_full_all by (by rewrite length_insert). rewrite Hfull, take_ge in Ht by (rewrite length_insert; lia). rewrite Ht.
      destruct (Hnext (pend ++ [b]) (0xFF :: pend ++ [b]) (w, s)) as (b' & Hb' & E); [rewrite length_app; cbn; lia|]. exists b'.
      destruct (cobs_run [] data) as [out rest]. cbn [fst snd] in *. cbn [app] in E. rewrite <- app_assoc in E. by rewrite E.
    + cbn [ebind]. destruct (IH (w, s) (<[length pend:=b]> buf) (pend ++ [b])) as (b' & Hb' & E).
      { split_and!; [by rewrite length_insert|rewrite length_app; cbn; lia|rewrite length_app; exact Ht]. }
      exists b'. split; [done|]. rewrite <- E. rewrite length_app. reflexivity.
Qed.

(** A message between its delimiters. *)
Definition ring_frame (counter : Z) (data : list Z) : list Z := [0] ++ cobs (le_bytes 4 counter ++ data) ++ [0].

Lemma ring_message_emits data w s :
  length (rw_cobs_buf w) = COBS_GROUP → rw_in_message w = false →
  ∃ buf, length buf = COBS_GROUP ∧
    ring_message capacity_bytes p data (w, s) =
    let! r := emit_all (ring_frame (rw_counter w) data) (w, s) in
    let! r := flush r in
    Ret (reframe r buf 0 (wrap 32 (rw_counter w + 1)) false).
Proof.
  intros Hb Hm. unfold ring_message, ring_begin, ring_write, ring_frame. cbn [fst]. rewrite Hm. cbn [ebind].
  set (c := rw_counter w). change (set_cobs _ _ _, s) with (reframe (w, s) (rw_cobs_buf w) (length (@nil Z)) c true).
  change (rw_counter (set_cobs _ _ _)) with c. rewrite emit_reframe, !ebind_assoc. cbn [app emit_all].
  assert (holds_pend (rw_cobs_buf w) []) as Hp by (split_and!; unfold COBS_GROUP; cbn; (done || lia)).
  destruct (emit 0 (w, s)) as [r1|]; cbn [ebind]; [|by exists (rw_cobs_buf w)].
  destruct (feed_all_emits (le_bytes 4 c) r1 _ _ c true Hp) as (b1 & Hb1 & ->).
  assert (cobs (le_bytes 4 c ++ data) = (cobs_run [] (le_bytes 4 c)).1 ++ (cobs_run (cobs_run [] (le_bytes 4 c)).2 data).1 ++
    (Z.of_nat (length (cobs_run (cobs_run [] (le_bytes 4 c)).2 data).2) + 1) :: (cobs_run (cobs_run [] (le_bytes 4 c)).2 data).2) as ->
    by (unfold cobs; rewrite cobs_run_app, <- app_assoc; reflexivity).
  set (run1 := cobs_run [] (le_bytes 4 c)) in *. rewrite <- app_assoc, emit_all_app, ebind_assoc.
  destruct (emit_all run1.1 r1) as [r2|]; cbn [ebind]; [|by exists (rw_cobs_buf w)].
  destruct (feed_all_emits data r2 b1 _ c true Hb1) as (b2 & Hb2 & ->). set (run2 := cobs_run run1.2 data) in *. rewrite <- app_assoc, emit_all_app, !ebind_assoc.
  destruct (emit_all run2.1 r2) as [r3|]; cbn [ebind]; [|by exists (rw_cobs_buf w)].
  exists b2. split; [apply Hb2|]. unfold ring_end. assert (rw_in_message (reframe r3 b2 (length run2.2) c true).1 = true) as -> by (by destruct r3). cbn [negb].
  rewrite cobs_flush_all by done. rewrite emit_all_app, !ebind_assoc.
  destruct (emit_all (_ :: run2.2) r3) as [r4|]; cbn [ebind emit_all]; [|done]. rewrite emit_reframe, !ebind_assoc.
  destruct (emit 0 r4) as [r5|]; cbn [ebind]; [|done]. rewrite flush_reframe, ebind_assoc. by destruct (flush r5) as [[w6 s6]|].
Qed.
End emission.

(** * What a message leaves on the flash *)

(** The end of the sector that [x] is in, or [x] at the start of one. *)
Definition sector_end (x : Z) : Z := (x + 4095) / 4096 * 4096.

(** The flash as the ring sees it: the bytes of the partition, round and round. *)
Definition ring_mem (p : PartitionResource) (m : Mem) : Mem := λ y, m (part_start p + y mod pr_size_bytes p).

(** The flash from [x] to the end of the sector is erased. *)
Definition erased_from (p : PartitionResource) (s : Storage) (x end_ : Z) : Prop :=
  ∀ y, x <= y < end_ → ring_mem p (flash_of s) y = 0xFF.

(** A writer of the partition [p] as its geometry is. *)
Definition writer_of (p : PartitionResource) (w : RingWriter) : Prop :=
  rw_capacity w = pr_size_bytes p ∧ rw_erase_size w = 4096 ∧ rw_program_size w = 256%nat ∧ length (rw_prog_buf w) = 256%nat.

Section flash.
Context (capacity_bytes : Z) (p : PartitionResource) (Hp : part_fits p) (Hchip : part_in_chip capacity_bytes p)
  (Hsize : pr_size_bytes p mod 4096 = 0) (Hs : 0 < pr_size_bytes p).

(** Blocks of a size that divides the partition do not straddle its end. *)
Lemma mod_block g x :
  0 < g → pr_size_bytes p mod g = 0 →
  (x mod pr_size_bytes p) mod g = x mod g ∧ (x mod g = 0 → x mod pr_size_bytes p + g <= pr_size_bytes p).
Proof.
  intros Hg Hd. pose proof (Z.mod_pos_bound x (pr_size_bytes p) Hs) as Hb. pose proof (Z.div_mod x (pr_size_bytes p) ltac:(lia)) as Hx.
  pose proof (Z.div_mod (pr_size_bytes p) g ltac:(lia)) as Hk. rewrite Hd in Hk. set (k := pr_size_bytes p / g) in *. set (q := x / pr_size_bytes p) in *.
  assert ((x mod pr_size_bytes p) mod g = x mod g) as E.
  { rewrite Hx at 2. replace (pr_size_bytes p * q + x mod pr_size_bytes p) with (x mod pr_size_bytes p + (k * q) * g) by (rewrite Hk at 2; ring). by rewrite Z.mod_add by lia. }
  split; [done|]. intros H0. rewrite H0 in E. pose proof (Z.div_mod (x mod pr_size_bytes p) g ltac:(lia)) as Ha. rewrite E in Ha. set (j := x mod pr_size_bytes p / g) in *. assert (g * j < g * k) by lia. assert (j < k) by (apply (Z.mul_lt_mono_pos_l g); lia). nia.
Qed.

(** A change at [x], seen round the ring. *)
Lemma ring_same_outside m m' x n :
  x mod pr_size_bytes p + n <= pr_size_bytes p →
  same_outside (part_start p + x mod pr_size_bytes p) (part_start p + x mod pr_size_bytes p + n) m m' →
  (∀ y, x + n - pr_size_bytes p <= y < x ∨ x + n <= y < x + pr_size_bytes p → ring_mem p m' y = ring_mem p m y) ∧
  (∀ y, y < part_start p ∨ part_end p <= y → m' y = m y).
Proof.
  intros Hn Ho. pose proof (Z.mod_pos_bound x (pr_size_bytes p) Hs) as Hb. split.
  - intros y Hy. unfold ring_mem. apply Ho. pose proof (Z.mod_pos_bound y (pr_size_bytes p) Hs).
    pose proof (Z.div_mod x (pr_size_bytes p) ltac:(lia)). pose proof (Z.div_mod y (pr_size_bytes p) ltac:(lia)).
    set (size := pr_size_bytes p) in *. set (a := x / size) in *. set (b := y / size) in *. set (u := x mod size) in *. set (v := y mod size) in *.
    destruct (Z_lt_le_dec v u) as [|Huv]; [lia|]. destruct (Z_lt_le_dec v (u + n)) as [Hin|]; [|lia]. exfalso.
    assert (y - x = size * (b - a) + (v - u)) as E by lia. set (t := b - a) in *. assert (t <= -1 ∨ t = 0 ∨ 1 <= t) as [?|[Ht|?]] by lia; [nia|rewrite Ht in E; lia|nia].
  - intros y Hy. apply Ho. unfold part_end, part_start in *. lia.
Qed.

(** A range that stays inside of the partition is where it is on the flash. *)
Lemma ring_mem_flat m x n : 0 <= x → x + Z.of_nat n <= pr_size_bytes p → bytes_at (ring_mem p m) x n = bytes_at m (part_start p + x) n.
Proof.
  intros Hx Hn. apply list_eq. intros i. destruct (decide (i < n)%nat).
  - rewrite !lookup_bytes_at by lia. unfold ring_mem. rewrite Z.mod_small by lia. do 2 f_equal. lia.
  - rewrite !lookup_ge_None_2; [done|..]; rewrite length_bytes_at; lia.
Qed.

Lemma ring_mem_block m x n : x mod pr_size_bytes p + Z.of_nat n <= pr_size_bytes p →
  bytes_at (ring_mem p m) x n = bytes_at m (part_start p + x mod pr_size_bytes p) n.
Proof.
  intros Hn. pose proof (Z.mod_pos_bound x (pr_size_bytes p) Hs). rewrite <- ring_mem_flat by lia. apply list_eq. intros i. destruct (decide (i < n)%nat).
  - rewrite !lookup_bytes_at by lia. unfold ring_mem. by rewrite Zplus_mod_idemp_l.
  - rewrite !lookup_ge_None_2; [done|..]; rewrite length_bytes_at; lia.
Qed.

(** From [start] on, the bytes [full] are on the flash and [part] is in the buffer;
    the rest of the sector is erased. The sectors that were not reached, and what is
    outside of the partition, are as in [m0]. *)
Record stored (m0 : Mem) (start : Z) (full part : list Z) (r : RingState) : Prop := mkStored {
  sd_writer : writer_of p r.1;
  sd_quiet : no_faults r.2;
  sd_pages : start mod 256 = 0 ∧ Z.of_nat (length full) mod 256 = 0 ∧ (length part < 256)%nat;
  sd_pos : rw_pos r.1 = (start + Z.of_nat (length full) + Z.of_nat (length part)) mod pr_size_bytes p;
  sd_len : rw_prog_buf_len r.1 = length part;
  sd_start : part ≠ [] → rw_prog_buf_start r.1 = (start + Z.of_nat (length full)) mod pr_size_bytes p;
  sd_buf : take (length part) (rw_prog_buf r.1) = part;
  sd_full : bytes_at (ring_mem p (flash_of r.2)) start (length full) = full;
  sd_erased : erased_from p r.2 (start + Z.of_nat (length full)) (sector_end (start + Z.of_nat (length full) + Z.of_nat (length part)));
  sd_ahead : ∀ y, sector_end (start + Z.of_nat (length full) + Z.of_nat (length part)) <= y < start + pr_size_bytes p →
    ring_mem p (flash_of r.2) y = ring_mem p m0 y;
  sd_outside : ∀ x, x < part_start p ∨ part_end p <= x → flash_of r.2 x = m0 x;
}.

Lemma bytes_at_app m a n k : bytes_at m a (n + k) = bytes_at m a n ++ bytes_at m (a + Z.of_nat n) k.
Proof.
  apply list_eq. intros i. destruct (decide (i < n)%nat).
  - rewrite lookup_app_l by len. by rewrite !lookup_bytes_at by lia.
  - rewrite lookup_app_r by len. rewrite length_bytes_at. destruct (decide (i < n + k)%nat).
    + rewrite !lookup_bytes_at by lia. do 2 f_equal. lia.
    + rewrite !lookup_ge_None_2; [done|..]; rewrite length_bytes_at; lia.
Qed.

(** Programming erased flash stores the bytes. *)
Lemma program_stores s x data :
  no_faults s → x mod pr_size_bytes p + Z.of_nat (length data) <= pr_size_bytes p → bytes_ok data → erased_from p s x (x + Z.of_nat (length data)) →
  ∃ s', part_program capacity_bytes s p (x mod pr_size_bytes p) data = (Ok tt, s') ∧ no_faults s' ∧
    same_outside (part_start p + x mod pr_size_bytes p) (part_start p + x mod pr_size_bytes p + Z.of_nat (length data)) (flash_of s) (flash_of s') ∧
    bytes_at (ring_mem p (flash_of s')) x (length data) = data.
Proof.
  intros Hq Hfit Hb He. pose proof Hp as (P1 & P2 & P3). pose proof (Z.mod_pos_bound x (pr_size_bytes p) ltac:(lia)) as Hx.
  destruct (part_program_quiet capacity_bytes p Hp s (x mod pr_size_bytes p) data Hchip Hq ltac:(lia) Hfit) as (s' & E & Hq').
  exists s'. split; [done|]. split; [done|]. apply (part_program_ok capacity_bytes p Hp) in E as [_ H]; [|unfold is_u; lia|lia].
  destruct (H eq_refl) as [Ho Hd]. split; [done|]. rewrite ring_mem_block by lia. apply bytes_at_eq. intros i d Hi. pose proof (lookup_lt_Some _ _ _ Hi).
  rewrite (Hd i d Hi), <- Z.add_assoc. pose proof (He (x + Z.of_nat i) ltac:(lia)) as Hff. unfold ring_mem in Hff.
  rewrite <- Zplus_mod_idemp_l, Z.mod_small in Hff by lia. rewrite Hff. apply land_erased. by eapply Forall_lookup_1.
Qed.

Lemma pad_zero_ok n buf i :
  (i + n <= length buf)%nat → pad_zero n buf i = Ret (take i buf ++ replicate n 0 ++ drop (i + n) buf).
Proof.
  revert buf i. induction n as [|n IH]; intros buf i Hi; cbn [pad_zero].
  { cbn. by rewrite Nat.add_0_r, take_drop. }
  rewrite set_idx_ok by lia. cbn [ebind]. rewrite IH by (rewrite length_insert; lia). f_equal.
  rewrite <- (Nat.add_1_r i) at 1. rewrite take_insert_snoc by lia. rewrite <- app_assoc. cbn [replicate app]. do 3 f_equal.
  rewrite drop_insert_lt by lia. f_equal. lia.
Qed.

(** The bytes of a page: what is in the buffer, and zeros. *)
Definition page_of (part : list Z) : list Z := part ++ replicate (256 - length part) 0.

Lemma length_page_of part : (length part <= 256)%nat → length (page_of part) = 256%nat.
Proof. intros. unfold page_of. rewrite length_app, length_replicate. lia. Qed.

Lemma page_of_bytes part : bytes_ok part → bytes_ok (page_of part).
Proof. intros. apply Forall_app. split; [done|]. apply Forall_replicate. unfold is_u. lia. Qed.

(** Flushing programs a page. *)
Lemma flush_program w s part :
  writer_of p w → rw_prog_buf_len w = length part → (0 < length part <= 256)%nat → take (length part) (rw_prog_buf w) = part →
  ∃ buf, length buf = 256%nat ∧ flush_prog capacity_bytes p (w, s) =
    Ret (set_prog w (rw_pos w) buf (rw_prog_buf_start w) 0, (part_program capacity_bytes s p (rw_prog_buf_start w) (page_of part)).2).
Proof.
  intros (W1 & W2 & W3 & W4) Hl Hr Ht. unfold flush_prog. rewrite Hl, W3, decide_False by lia. rewrite pad_zero_ok by lia. cbn [ebind].
  replace (length part + (256 - length part))%nat with 256%nat by lia. rewrite (drop_ge _ 256) by lia. rewrite app_nil_r, Ht. change (part ++ _) with (page_of part).
  pose proof (length_page_of part ltac:(lia)) as Hlen. rewrite slice_ok by lia. cbn [ebind]. exists (page_of part). split; [done|]. by rewrite drop_0, take_ge by lia.
Qed.

(** Where a message that starts at [start] would come round to its own sector. *)
Definition lap (start : Z) : Z := start / 4096 * 4096 + pr_size_bytes p.

(** Entering a sector erases it. *)
Lemma enter_sector s start (full part : list Z) :
  let x := start + Z.of_nat (length full) + Z.of_nat (length part) in
  start mod 256 = 0 → Z.of_nat (length full) mod 256 = 0 → (length part < 256)%nat → x < lap start → no_faults s →
  bytes_at (ring_mem p (flash_of s)) start (length full) = full → erased_from p s (start + Z.of_nat (length full)) (sector_end x) →
  let s1 := if decide (x mod 4096 = 0 ∧ length part = O) then (part_erase capacity_bytes s p (x mod pr_size_bytes p) 4096).2 else s in
  no_faults s1 ∧ bytes_at (ring_mem p (flash_of s1)) start (length full) = full ∧ erased_from p s1 (start + Z.of_nat (length full)) (sector_end (x + 1)) ∧
  (∀ y, sector_end (x + 1) <= y < start + pr_size_bytes p → ring_mem p (flash_of s1) y = ring_mem p (flash_of s) y) ∧
  (∀ y, y < part_start p ∨ part_end p <= y → flash_of s1 y = flash_of s y).
Proof.
  intros x H1 H2 H3 Hx Hq Hf He. cbv zeta. case_decide as Hd.
  - destruct Hd as [Hm Hl]. assert (x = start + Z.of_nat (length full)) as Ex by lia. pose proof (Z.mod_pos_bound x (pr_size_bytes p) Hs) as Hb.
    destruct (mod_block 4096 x eq_refl Hsize) as [Hxm Hfit]. specialize (Hfit Hm). rewrite Hm in Hxm.
    assert (misaligned (x mod pr_size_bytes p) 4096 = false) as Hal by (unfold misaligned, FLASH_ERASE_SIZE; rewrite !bool_decide_eq_false_2; [done|intros H; by apply H|intros H; by apply H]).
    destruct (part_erase_quiet capacity_bytes p Hp s (x mod pr_size_bytes p) 4096 Hchip Hq ltac:(lia) ltac:(lia) Hfit Hal) as (s1 & E & Hq1). pose proof Hp as (P1 & P2 & P3).
    rewrite E. cbn [snd]. apply (part_erase_ok capacity_bytes p Hp) in E as [_ E]; [|unfold is_u; lia|unfold is_u; lia].
    destruct (E eq_refl) as (_ & Ho & Hff). apply ring_same_outside in Ho as [Hr Hout]; [|done]. unfold lap, sector_end in *. split; [done|]. split_and!.
    + rewrite <- Hf at 2. apply bytes_at_ext. intros y Hy. apply Hr. dlia.
    + intros y Hy. assert (0 <= y - x < 4096) as Hyx by (clear Hb Hfit Hxm Hal Hff; dlia).
      unfold ring_mem. apply Hff. replace y with (x + (y - x)) by lia. rewrite <- Zplus_mod_idemp_l. rewrite (Z.mod_small (x mod pr_size_bytes p + (y - x))) by lia. lia.
    + intros y Hy. apply Hr. dlia.
    + done.
  - split_and!; [done|done| |done|done]. intros y Hy. apply He. assert (x mod 256 = 0 → length part = O) as Hz by dlia.
    unfold sector_end in *. destruct (decide (length part = O)); [|dlia]. assert (x mod 4096 ≠ 0) by tauto. dlia.
Qed.

Lemma size_pages : pr_size_bytes p mod 256 = 0.
Proof. dlia. Qed.

Lemma emit_stored m0 start full part b r :
  stored m0 start full part r → bytes_ok (part ++ [b]) → start + Z.of_nat (length full) + Z.of_nat (length part) < lap start →
  ∃ full' part' r', emit_byte capacity_bytes p b r = Ret r' ∧ full' ++ part' = full ++ part ++ [b] ∧ bytes_ok part' ∧ stored m0 start full' part' r'.
Proof.
  intros [SW SQ (S1 & S2 & S3) SP SL SS SB SF SE SA SO] Hb Hx. destruct r as [w s]. cbn [fst snd] in *. pose proof Hp as (P1 & P2 & P3).
  set (x := start + Z.of_nat (length full) + Z.of_nat (length part)) in *. pose proof SW as (W1 & W2 & W3 & W4).
  pose proof (enter_sector s start full part S1 S2 S3 Hx SQ SF SE) as (Q1 & F1 & E1 & A1 & O1).
  destruct (mod_block 4096 x eq_refl Hsize) as [Hxm _]. pose proof (Z.mod_pos_bound x (pr_size_bytes p) Hs) as Hxb.
  unfold emit_byte, urem. rewrite SP, SL, W1, W2. rewrite (decide_False (P:=4096 = 0)) by lia. cbn [ebind]. rewrite Hxm.
  change (start + Z.of_nat (length full) + Z.of_nat (length part)) with x in Q1, F1, E1, A1, O1.
  set (s1 := if decide (x mod 4096 = 0 ∧ length part = O) then _ else s) in *.
  assert ((if decide (length part = O) then x mod pr_size_bytes p else rw_prog_buf_start w) = (start + Z.of_nat (length full)) mod pr_size_bytes p) as ->.
  { case_decide as Hd; [f_equal; lia|]. apply SS. by destruct part. }
  rewrite set_idx_ok by lia. cbn [ebind]. rewrite decide_False by lia. cbn [ebind]. rewrite wrap_small by (unfold is_u; lia). rewrite Zplus_mod_idemp_l.
  pose proof (take_insert_snoc (rw_prog_buf w) (length part) b ltac:(lia)) as Ht. rewrite SB in Ht. replace (length part + 1)%nat with (length (part ++ [b])) in Ht by len.
  set (w1 := set_prog w _ _ _ _). assert (writer_of p w1) as W1' by (split_and!; cbn; try done; by rewrite length_insert).
  change (rw_prog_buf_len w1) with (length part + 1)%nat. change (rw_program_size w1) with (rw_program_size w). rewrite W3.
  assert (∀ y, sector_end (x + 1) <= y < start + pr_size_bytes p → ring_mem p (flash_of s1) y = ring_mem p m0 y) as A2.
  { intros y Hy. rewrite A1 by done. apply SA. unfold sector_end in *. dlia. }
  case_decide as Hfull.
  - destruct (flush_program w1 s1 (part ++ [b])) as (buf & Hbuf & ->); [done|cbn; len|len|exact Ht|].
    assert (page_of (part ++ [b]) = part ++ [b]) as -> by (unfold page_of; rewrite length_app; cbn; replace (256 - _)%nat with O by lia; cbn; by rewrite app_nil_r).
    assert (Z.of_nat (length (part ++ [b])) = 256) as Hpg by (rewrite length_app; cbn; lia).
    destruct (mod_block 256 (start + Z.of_nat (length full)) eq_refl size_pages) as [_ Hfit]. specialize (Hfit ltac:(dlia)).
    destruct (program_stores s1 (start + Z.of_nat (length full)) (part ++ [b])) as (s2 & E2 & Q2 & O2 & D2); [done|lia|done| |].
    { intros y Hy. apply E1. unfold sector_end. dlia. }
    change (rw_prog_buf_start w1) with ((start + Z.of_nat (length full)) mod pr_size_bytes p). rewrite E2. cbn [snd]. rewrite Hpg in O2.
    apply ring_same_outside in O2 as [R2 O2]; [|done].
    assert (Z.of_nat (length (full ++ part ++ [b])) = Z.of_nat (length full) + 256) as Hlen by (rewrite length_app; lia).
    exists (full ++ part ++ [b]), [], (set_prog w1 (rw_pos w1) buf ((start + Z.of_nat (length full)) mod pr_size_bytes p) 0, s2). rewrite app_nil_r.
    split_and!; [done|done|constructor|]. unfold lap in Hx. constructor; cbn [fst snd].
    + split_and!; cbn; try done.
    + done.
    + rewrite Hlen. split_and!; [done|dlia|cbn; lia].
    + cbn [rw_pos set_prog w1]. f_equal. rewrite Hlen. cbn. lia.
    + done.
    + done.
    + done.
    + rewrite length_app, bytes_at_app. f_equal; [|done]. rewrite <- F1 at 2. apply bytes_at_ext. intros y Hy. apply R2. dlia.
    + rewrite Hlen. replace (start + (Z.of_nat (length full) + 256) + Z.of_nat (@length Z [])) with (x + 1) by (cbn; lia). intros y Hy. rewrite R2 by (unfold sector_end in Hy; dlia). apply E1. lia.
    + rewrite Hlen. replace (start + (Z.of_nat (length full) + 256) + Z.of_nat (@length Z [])) with (x + 1) by (cbn; lia). intros y Hy.
      rewrite R2 by (unfold sector_end in Hy; dlia). by apply A2.
    + intros y Hy. rewrite O2, O1, SO; done.
  - exists full, (part ++ [b]), (w1, s1). split_and!; [done|done|done|]. assert (Z.of_nat (length (part ++ [b])) = Z.of_nat (length part) + 1) as Hlen by (rewrite length_app; cbn; lia).
    constructor; cbn [fst snd]; [done|done|split_and!; [done|done|lia]|..].
    + cbn [rw_pos set_prog w1]. f_equal. lia.
    + cbn. lia.
    + done.
    + exact Ht.
    + done.
    + rewrite Hlen, Z.add_assoc. exact E1.
    + rewrite Hlen, Z.add_assoc. exact A2.
    + intros y Hy. rewrite O1, SO by done. done.
Qed.

Lemma emit_all_stored m0 start bytes full part r :
  stored m0 start full part r → bytes_ok part → bytes_ok bytes → start + Z.of_nat (length (full ++ part ++ bytes)) <= lap start →
  ∃ full' part' r', emit_all capacity_bytes p bytes r = Ret r' ∧ full' ++ part' = full ++ part ++ bytes ∧ bytes_ok part' ∧ stored m0 start full' part' r'.
Proof.
  intros St. revert full part r St. induction bytes as [|b bytes IH]; intros full part r St Hpt Hb Hfit; cbn [emit_all].
  { exists full, part, r. rewrite app_nil_r. done. }
  apply Forall_cons_1 in Hb as [Hb0 Hb]. rewrite !length_app in Hfit. cbn in Hfit.
  destruct (emit_stored m0 start full part b r St) as (f1 & p1 & r1 & -> & E1 & B1 & S1); [apply Forall_app; split; [done|by apply Forall_singleton]|lia|].
  cbn [ebind]. assert (f1 ++ p1 ++ bytes = full ++ part ++ b :: bytes) as E2 by (rewrite app_assoc, E1, <- !app_assoc; done).
  destruct (IH f1 p1 r1 S1 B1 Hb) as (f2 & p2 & r2 & ? & E3 & ? & ?); [rewrite E2, !length_app; cbn; lia|]. exists f2, p2, r2. by rewrite E3, E2.
Qed.

(** [l] and zeros to the end of the page. *)
Definition pad_page (l : list Z) : list Z := l ++ replicate (Z.to_nat (- Z.of_nat (length l) mod 256)) 0.

Lemma pad_page_split full part :
  Z.of_nat (length full) mod 256 = 0 → (length part < 256)%nat → part ≠ [] → pad_page (full ++ part) = full ++ page_of part.
Proof.
  intros Hf Hl Hne. unfold pad_page, page_of. rewrite <- app_assoc. do 3 f_equal. rewrite length_app. destruct part; [done|]. cbn in *. dlia.
Qed.

Lemma flush_stored m0 start full part r :
  stored m0 start full part r → bytes_ok part → start + Z.of_nat (length (full ++ part)) <= lap start →
  let out := pad_page (full ++ part) in
  ∃ r', flush_prog capacity_bytes p r = Ret r' ∧ writer_of p r'.1 ∧ no_faults r'.2 ∧ rw_prog_buf_len r'.1 = O ∧ rw_pos r'.1 = rw_pos r.1 ∧
    bytes_at (ring_mem p (flash_of r'.2)) start (length out) = out ∧
    (∀ y, sector_end (start + Z.of_nat (length (full ++ part))) <= y < start + pr_size_bytes p → ring_mem p (flash_of r'.2) y = ring_mem p m0 y) ∧
    (∀ x, x < part_start p ∨ part_end p <= x → flash_of r'.2 x = m0 x).
Proof.
  intros [SW SQ (S1 & S2 & S3) SP SL SS SB SF SE SA SO] Hb Hfit out. destruct r as [w s]. cbn [fst snd] in *. pose proof SW as (W1 & W2 & W3 & W4).
  destruct (decide (part = [])) as [->|Hne].
  - exists (w, s). unfold flush_prog. rewrite SL. cbn [length] in *. rewrite decide_True by done. assert (out = full) as Eo.
    { unfold out, pad_page. rewrite app_nil_r. replace (Z.to_nat _) with O by dlia. by rewrite app_nil_r. }
    rewrite Eo. rewrite Z.add_0_r in SA. rewrite app_nil_r. split_and!; done.
  - assert (0 < length part)%nat as Hpos by (destruct part; [done|cbn; lia]).
    destruct (flush_program w s part SW SL ltac:(lia) SB) as (buf & Hbuf & ->). rewrite (SS Hne). pose proof (length_page_of part ltac:(lia)) as Hpg.
    rewrite length_app in Hfit. destruct (mod_block 256 (start + Z.of_nat (length full)) eq_refl size_pages) as [_ Hpage]. specialize (Hpage ltac:(dlia)).
    destruct (program_stores s (start + Z.of_nat (length full)) (page_of part)) as (s2 & -> & Q2 & O2 & D2); [done|rewrite Hpg; lia|by apply page_of_bytes| |].
    { intros y Hy. apply SE. rewrite Hpg in Hy. unfold sector_end. dlia. }
    unfold out. rewrite pad_page_split by done. rewrite Hpg in O2, D2. apply ring_same_outside in O2 as [R2 O2]; [|done]. unfold lap in Hfit.
    eexists. split; [done|]. cbn [fst snd]. split_and!; try done.
    + rewrite length_app, Hpg, bytes_at_app. f_equal; [|done]. rewrite <- SF at 2. apply bytes_at_ext. intros y Hy. apply R2. dlia.
    + rewrite length_app. intros y Hy. rewrite R2 by (unfold sector_end in Hy; dlia). apply SA. unfold sector_end in *. dlia.
    + intros y Hy. rewrite O2, SO; done.
Qed.

(** Bytes that do not fill the buffer are kept in it. *)
Lemma emit_buffered bytes w s :
  writer_of p w → 0 <= rw_pos w → rw_pos w + Z.of_nat (length bytes) < pr_size_bytes p → (rw_prog_buf_len w + length bytes < 256)%nat →
  (rw_prog_buf_len w = O → rw_pos w mod 4096 ≠ 0) → (rw_prog_buf_len w ≠ O → rw_prog_buf_start w = rw_pos w - Z.of_nat (rw_prog_buf_len w)) →
  ∃ w', emit_all capacity_bytes p bytes (w, s) = Ret (w', s) ∧ writer_of p w' ∧ rw_pos w' = rw_pos w + Z.of_nat (length bytes) ∧
    rw_prog_buf_len w' = (rw_prog_buf_len w + length bytes)%nat ∧ take (rw_prog_buf_len w') (rw_prog_buf w') = take (rw_prog_buf_len w) (rw_prog_buf w) ++ bytes ∧
    (rw_prog_buf_len w' ≠ O → rw_prog_buf_start w' = rw_pos w - Z.of_nat (rw_prog_buf_len w)).
Proof.
  pose proof Hp as (P1 & P2 & P3). revert w. induction bytes as [|b bytes IH]; intros w SW H0 H1 H2 H3 H4; cbn [emit_all].
  { exists w. cbn in *. split_and!; [done|done|lia|lia|by rewrite app_nil_r|done]. }
  pose proof SW as (W1 & W2 & W3 & W4). unfold emit_byte, urem. rewrite W1, W2. rewrite (decide_False (P:=4096 = 0)) by lia. cbn [ebind].
  rewrite (decide_False (P:=rw_pos w mod 4096 = 0 ∧ rw_prog_buf_len w = O)) by tauto. cbn [length] in *. rewrite set_idx_ok by lia. cbn [ebind]. rewrite decide_False by lia. cbn [ebind].
  rewrite wrap_small by (unfold is_u; lia). rewrite Z.mod_small by lia. set (w1 := set_prog w _ _ _ _). cbn [rw_prog_buf_len rw_program_size set_prog w1].
  rewrite W3. rewrite decide_False by lia. cbn [ebind].
  assert (rw_prog_buf_start w1 = rw_pos w - Z.of_nat (rw_prog_buf_len w)) as Hst by (cbn; case_decide as Hd; [rewrite Hd; lia|by apply H4]).
  destruct (IH w1) as (w' & E & SW' & Hpos & Hlen & Hbuf & Hstart).
  - split_and!; cbn; try done. by rewrite length_insert.
  - cbn. lia.
  - cbn. lia.
  - cbn. lia.
  - cbn. lia.
  - intros _. rewrite Hst. cbn. lia.
  - exists w'. cbn in Hpos, Hlen, Hbuf, Hstart. split_and!; [done|done|lia|lia| |].
    + rewrite Hbuf. rewrite take_insert_snoc by lia. by rewrite <- app_assoc.
    + intros H. rewrite Hstart by done. lia.
Qed.
End flash.

(** Between messages. *)
Definition ring_ready (p : PartitionResource) (w : RingWriter) : Prop :=
  writer_of p w ∧ length (rw_cobs_buf w) = COBS_GROUP ∧ rw_in_message w = false ∧ rw_prog_buf_len w = O ∧ 0 <= rw_pos w < pr_size_bytes p.

(** The partition is made of sectors of the chip. *)
Definition ring_part (capacity_bytes : Z) (p : PartitionResource) : Prop :=
  part_fits p ∧ part_in_chip capacity_bytes p ∧ pr_size_bytes p mod 4096 = 0.

Lemma ring_frame_bytes counter data : bytes_ok data → bytes_ok (ring_frame counter data).
Proof.
  intros Hd. unfold ring_frame. destruct (cobs_ok (le_bytes 4 counter ++ data)) as [H _]; [apply Forall_app; split; [apply le_bytes_ok|done]|].
  apply Forall_app. split; [apply Forall_singleton; unfold is_u; lia|]. apply Forall_app. split; [|apply Forall_singleton; unfold is_u; lia].
  eapply Forall_impl; [|exact H]. by intros b [? _].
Qed.

(** The message fits: it does not come round to the sector in which it started. *)
Definition message_fits (p : PartitionResource) (w : RingWriter) (data : list Z) : Prop :=
  rw_pos w + Z.of_nat (length (ring_frame (rw_counter w) data)) <= lap p (rw_pos w).

(** The state after a message that starts at a page. *)
Definition message_at (p : PartitionResource) (w : RingWriter) (s : Storage) (data : list Z) (w' : RingWriter) (s' : Storage) : Prop :=
  let frame := ring_frame (rw_counter w) data in
  let out := pad_page frame in
  ring_ready p w' ∧ no_faults s' ∧ rw_counter w' = wrap 32 (rw_counter w + 1) ∧
  rw_pos w' = (rw_pos w + Z.of_nat (length frame)) mod pr_size_bytes p ∧
  bytes_at (ring_mem p (flash_of s')) (rw_pos w) (length out) = out ∧
  (∀ y, sector_end (rw_pos w + Z.of_nat (length frame)) <= y < rw_pos w + pr_size_bytes p → ring_mem p (flash_of s') y = ring_mem p (flash_of s) y) ∧
  (∀ x, x < part_start p ∨ part_end p <= x → flash_of s' x = flash_of s x).

Lemma ring_message_at capacity_bytes p w s data :
  ring_part capacity_bytes p → ring_ready p w → no_faults s → bytes_ok data →
  rw_pos w mod 256 = 0 → erased_from p s (rw_pos w) (sector_end (rw_pos w)) → message_fits p w data →
  ∃ w' s', ring_message capacity_bytes p data (w, s) = Ret (w', s') ∧ message_at p w s data w' s'.
Proof.
  intros (Hp & Hchip & Hsize) (SW & Hcobs & Hmsg & Hlen & Hpos) Hq Hd Hpage He Hfit. assert (0 < pr_size_bytes p) as Hs by lia.
  destruct (ring_message_emits capacity_bytes p data w s Hcobs Hmsg) as (cb & Hcb & ->). unfold message_fits in Hfit. set (frame := ring_frame _ _) in *.
  destruct (emit_all_stored capacity_bytes p Hp Hchip Hsize Hs (flash_of s) (rw_pos w) frame [] [] (w, s)) as (full & part & r1 & -> & E1 & B1 & S1).
  { constructor; cbn [fst snd length]; rewrite ?Z.add_0_r; try done; try (rewrite Z.mod_small; lia); split_and!; done || lia. }
  { constructor. } { by apply ring_frame_bytes. } { done. }
  cbn [app] in E1. cbn [ebind]. pose proof (sd_pos _ _ _ _ _ _ S1) as SP.
  destruct (flush_stored capacity_bytes p Hp Hchip Hsize Hs (flash_of s) (rw_pos w) full part r1 S1) as ([w2 s2] & -> & W2 & Q2 & L2 & P2 & D2 & A2 & O2); [done|by rewrite E1|].
  cbn [fst snd ebind] in *. rewrite E1 in D2, A2. cbn [reframe]. eexists _, _. split; [done|]. unfold message_at. fold frame. cbn [rw_counter rw_pos].
  assert (rw_pos w2 = (rw_pos w + Z.of_nat (length frame)) mod pr_size_bytes p) as Hp2 by (rewrite P2, SP, <- E1, length_app; f_equal; lia).
  split_and!; try done. split_and!; cbn; try done; try apply W2; rewrite Hp2; apply Z.mod_pos_bound; lia.
Qed.

(** C22: a message that starts at a page of erased flash is stored as a frame that can
    be read back, also one that goes round the end of the partition. With storage that
    does not fail, a writer between messages whose position is at a page and in front
    of which the sector is erased (a new writer, for one, which erases the first
    sector itself) writes a message that does not come round to the sector in which it
    started without panicking: on the flash, read round the partition from the
    position, there is a zero byte, the COBS encoding of the counter and the data,
    which contains no zero byte and decodes to them, a zero byte, and zeros to the end
    of the page. The sectors of the ring that the message did not reach, those before
    the position included, and the flash outside of the partition are as before, and
    the counter is one higher. *)
Theorem ring_message_stored capacity_bytes p w s data :
  ring_part capacity_bytes p → ring_ready p w → no_faults s → bytes_ok data →
  rw_pos w mod 256 = 0 → erased_from p s (rw_pos w) (sector_end (rw_pos w)) → message_fits p w data →
  ∃ w' s' enc pad, ring_message capacity_bytes p data (w, s) = Ret (w', s') ∧ ring_ready p w' ∧ no_faults s' ∧
    (let stored := [0] ++ enc ++ [0] ++ replicate pad 0 in
    bytes_at (ring_mem p (flash_of s')) (rw_pos w) (length stored) = stored ∧
    (0 ∉ enc) ∧ uncobs enc = Some (le_bytes 4 (rw_counter w) ++ data) ∧
    (pad < 256)%nat ∧ (rw_pos w + Z.of_nat (length stored)) mod 256 = 0 ∧
    (∀ y, sector_end (rw_pos w + Z.of_nat (length ([0] ++ enc ++ [0]))) <= y < rw_pos w + pr_size_bytes p → ring_mem p (flash_of s') y = ring_mem p (flash_of s) y) ∧
    (∀ x, x < part_start p ∨ part_end p <= x → flash_of s' x = flash_of s x) ∧
    rw_counter w' = wrap 32 (rw_counter w + 1) ∧ rw_pos w' = (rw_pos w + Z.of_nat (length ([0] ++ enc ++ [0]))) mod pr_size_bytes p).
Proof.
  intros Hp Hw Hq Hd Hpage He Hfit. destruct (ring_message_at capacity_bytes p w s data Hp Hw Hq Hd Hpage He Hfit) as (w' & s' & E & R & Q & C & P & D & A & O).
  destruct (cobs_ok (le_bytes 4 (rw_counter w) ++ data)) as [Hz Hun]; [apply Forall_app; split; [apply le_bytes_ok|done]|].
  set (frame := ring_frame (rw_counter w) data) in *.
  exists w', s', (cobs (le_bytes 4 (rw_counter w) ++ data)), (Z.to_nat (- Z.of_nat (length frame) mod 256)).
  split_and!; try done.
  assert ([0] ++ cobs (le_bytes 4 (rw_counter w) ++ data) ++ [0] ++ replicate (Z.to_nat (- Z.of_nat (length frame) mod 256)) 0 = pad_page frame) as ->
    by (unfold pad_page, frame, ring_frame; by rewrite <- !app_assoc).
  cbv zeta. split_and!; try done.
  - intros H0. apply list_elem_of_lookup in H0 as [i Hi]. by destruct (Forall_lookup_1 _ _ _ _ Hz Hi).
  - pose proof (Z.mod_pos_bound (- Z.of_nat (length frame)) 256). lia.
  - unfold pad_page. rewrite length_app, length_replicate. dlia.
Qed.

(** The message after one that did not fill its last page is lost. The page is
    completed with zeros, but the position is not moved to its end: the next message,
    if it fits in the rest of the page, is programmed over zeros, and all that is on
    the flash behind the first frame is zeros. *)
Theorem ring_next_message_lost capacity_bytes p w s data data2 :
  ring_part capacity_bytes p → ring_ready p w → no_faults s → bytes_ok data → bytes_ok data2 →
  rw_pos w mod 256 = 0 → erased_from p s (rw_pos w) (sector_end (rw_pos w)) →
  let frame := ring_frame (rw_counter w) data in
  let frame2 := ring_frame (wrap 32 (rw_counter w + 1)) data2 in
  rw_pos w + Z.of_nat (length frame) + 256 <= pr_size_bytes p →
  Z.of_nat (length frame) mod 256 ≠ 0 → Z.of_nat (length frame) mod 256 + Z.of_nat (length frame2) <= 256 →
  ∃ w' s' w2 s2, ring_message capacity_bytes p data (w, s) = Ret (w', s') ∧ ring_message capacity_bytes p data2 (w', s') = Ret (w2, s2) ∧
    rw_counter w2 = wrap 32 (wrap 32 (rw_counter w + 1) + 1) ∧
    bytes_at (flash_of s2) (part_start p + rw_pos w) (length frame + 256) = frame ++ replicate 256 0.
Proof.
  intros Hp Hw Hq Hd Hd2 Hpage He frame frame2 Hfit Hmod Hrest. assert (0 <= rw_pos w) as Hpos00 by apply Hw.
  destruct (ring_message_at capacity_bytes p w s data Hp Hw Hq Hd Hpage He ltac:(unfold message_fits, lap; fold frame; dlia)) as (w' & s' & E & R & Q & C & P & D & _ & O).
  fold frame in P, D. assert (Z.of_nat (length (pad_page frame)) <= Z.of_nat (length frame) + 255) as Hpl by (unfold pad_page; rewrite length_app, length_replicate; dlia).
  rewrite ring_mem_flat in D by lia. exists w', s'. rewrite E. destruct R as (SW & Hcobs & Hmsg & Hlen & Hpos). destruct Hp as (Hp & Hchip & Hsize). pose proof Hp as (P1 & P2 & P3).
  destruct Hw as (_ & _ & _ & _ & Hpos0). rewrite Z.mod_small in P by lia.
  destruct (ring_message_emits capacity_bytes p data2 w' s' Hcobs Hmsg) as (cb & _ & ->). rewrite C. fold frame2.
  pose proof (Z.mod_pos_bound (Z.of_nat (length frame)) 256 eq_refl) as Hmb. assert (0 < length frame2)%nat as Hf2 by (unfold frame2, ring_frame; cbn; lia).
  destruct (emit_buffered capacity_bytes p Hp ltac:(lia) frame2 w' s' SW) as (w1 & -> & SW1 & Hp1 & Hl1 & Hb1 & Hs1); [lia|lia|lia|intros _; dlia|done|].
  rewrite Hlen in *. cbn [take app plus] in *. cbn [ebind]. rewrite Hl1 in Hb1.
  destruct (flush_program capacity_bytes p w1 s' frame2 SW1 Hl1 ltac:(lia) Hb1) as (buf & _ & ->). cbn [ebind]. rewrite Hs1 by lia.
  pose proof (length_page_of frame2 ltac:(lia)) as Hpg. replace (rw_pos w' - Z.of_nat 0) with (rw_pos w') by lia.
  destruct (part_program_quiet capacity_bytes p Hp s' (rw_pos w') (page_of frame2) Hchip Q ltac:(lia) ltac:(lia)) as (s2 & E2 & _). rewrite E2. cbn [snd].
  apply (part_program_ok capacity_bytes p Hp) in E2 as [_ E2]; [|unfold is_u; lia|lia]. destruct (E2 eq_refl) as [Ho Hd']. rewrite Hpg in Ho.
  eexists _, _. split; [done|]. split; [done|]. split; [by cbn|]. rewrite bytes_at_app. f_equal.
  - apply bytes_at_eq. intros i d Hi. pose proof (lookup_lt_Some _ _ _ Hi). rewrite Ho by lia.
    rewrite bytes_at_eq in D. apply D. unfold pad_page. by rewrite lookup_app_l by lia.
  - replace 256%nat with (length (replicate 256 0)) at 1 by apply length_replicate. apply bytes_at_eq. intros i d Hi. apply lookup_replicate in Hi as [-> Hi].
    destruct (lookup_lt_is_Some_2 (page_of frame2) i ltac:(lia)) as [d2 Hd2']. replace (part_start p + rw_pos w + Z.of_nat (length frame)) with (part_start p + rw_pos w') by lia.
    rewrite (Hd' i d2 Hd2'). rewrite bytes_at_eq in D. destruct (decide (Z.of_nat i < - Z.of_nat (length frame) mod 256)) as [Hin|Hout].
    + replace (part_start p + rw_pos w' + Z.of_nat i) with (part_start p + rw_pos w + Z.of_nat (length frame + i)) by lia.
      rewrite (D (length frame + i)%nat 0); [done|]. unfold pad_page. rewrite lookup_app_r by lia. rewrite lookup_replicate_2; [done|lia].
    + assert (d2 = 0) as ->; [|by rewrite Z.land_0_r]. unfold page_of in Hd2'. rewrite lookup_app_r in Hd2' by dlia. by apply lookup_replicate in Hd2' as [-> _].
Qed.

(** A new writer on a partition of four sectors that holds old data. *)
Definition ex_ring_part : PartitionResource := mkPartRes 0 0x10000 0x4000.
Definition ex_ring_storage : Storage := storage_new (mkNor (λ _, 0x5A) []) [].
Definition ex_ring_writer : RingWriter :=
  match ring_writer_new (Some (geometry ex_ring_part)) with Ret w => w | Panic => mkRing 0 0 0 0 0 [] 0 0 [] 0 false end.

Lemma ex_ring_part_ok : ring_part 0x1000000 ex_ring_part.
Proof. unfold ring_part, part_fits, part_in_chip, part_end. split_and!; (reflexivity || (cbn; lia)). Qed.

Lemma ex_ring_ready : ring_ready ex_ring_part ex_ring_writer.
Proof. unfold ring_ready, writer_of. split_and!; (reflexivity || (vm_compute; discriminate)). Qed.

Lemma ex_ring_erased : erased_from ex_ring_part ex_ring_storage (rw_pos ex_ring_writer) (sector_end (rw_pos ex_ring_writer)).
Proof. intros y Hy. change (0 <= y < 0) in Hy. lia. Qed.

(** The writer further on, with one page of the last sector left and erased. *)
Definition ex_ring_end : RingWriter :=
  mkRing 0x3F00 (rw_capacity ex_ring_writer) (rw_erase_size ex_ring_writer) (rw_program_size ex_ring_writer) 5 (rw_prog_buf ex_ring_writer)
    (rw_prog_buf_start ex_ring_writer) 0 (rw_cobs_buf ex_ring_writer) 0 false.
Definition ex_ring_end_storage : Storage :=
  storage_new (mkNor (λ a, if bool_decide (0x13F00 <= a < 0x14000) then 0xFF else 0x5A) []) [].

Lemma ex_ring_end_ready : ring_ready ex_ring_part ex_ring_end.
Proof. unfold ring_ready, writer_of. split_and!; (reflexivity || (vm_compute; discriminate)). Qed.

Lemma ex_ring_end_erased : erased_from ex_ring_part ex_ring_end_storage (rw_pos ex_ring_end) (sector_end (rw_pos ex_ring_end)).
Proof.
  intros y Hy. change (0x3F00 <= y < 0x4000) in Hy. unfold ring_mem. change (pr_size_bytes ex_ring_part) with 0x4000. rewrite Z.mod_small by lia.
  change (part_start ex_ring_part) with 0x10000. cbn -[bool_decide]. by rewrite bool_decide_eq_true_2 by lia.
Qed.

(** The message starts in the last page of the partition and ends in its first one. *)
Lemma ring_message_stored_witness :
  ∃ w' s', ring_message 0x1000000 ex_ring_part (replicate 300 0xA5) (ex_ring_end, ex_ring_end_storage) = Ret (w', s') ∧
    bytes_at (flash_of s') 0x13F00 8 = [0; 2; 5; 1; 1; 0xFF; 0xA5; 0xA5] ∧ bytes_at (flash_of s') 0x10000 56 = replicate 4 0xA5 ++ [47] ++ replicate 46 0xA5 ++ [0; 0; 0; 0; 0] ∧
    flash_of s' 0xFFFF = 0x5A ∧ flash_of s' 0x13EFF = 0x5A.
Proof.
  destruct (ring_message_stored 0x1000000 ex_ring_part ex_ring_end ex_ring_end_storage (replicate 300 0xA5)) as (w' & s' & enc & pad & E & _ & _ & D & _ & _ & _ & _ & A & O & _ & P).
  - exact ex_ring_part_ok.
  - exact ex_ring_end_ready.
  - split; reflexivity.
  - apply Forall_replicate. unfold is_u. lia.
  - reflexivity.
  - exact ex_ring_end_erased.
  - vm_compute. discriminate.
  - exists w', s'. split; [exact E|].
    assert (match ring_message 0x1000000 ex_ring_part (replicate 300 0xA5) (ex_ring_end, ex_ring_end_storage) with Ret r => (bytes_at (flash_of r.2) 0x13F00 8, bytes_at (flash_of r.2) 0x10000 56, flash_of r.2 0x13EFF) | Panic => ([], [], 0) end
      = ([0; 2; 5; 1; 1; 0xFF; 0xA5; 0xA5], replicate 4 0xA5 ++ [47] ++ replicate 46 0xA5 ++ [0; 0; 0; 0; 0], 0x5A)) as H by (vm_compute; reflexivity). rewrite E in H. cbn [snd] in H. apply pair_eq in H as [H H3]. apply pair_eq in H as [H1 H2].
    split; [exact H1|]. split; [exact H2|]. split; [|exact H3]. rewrite O by (left; vm_compute; reflexivity). reflexivity.
Defined.

Lemma ring_next_message_lost_witness :
  ∃ w' s' w2 s2, ring_message 0x1000000 ex_ring_part [7; 0; 9] (ex_ring_writer, ex_ring_storage) = Ret (w', s') ∧
    ring_message 0x1000000 ex_ring_part [1; 2; 3] (w', s') = Ret (w2, s2) ∧ rw_counter w2 = 2 ∧
    bytes_at (flash_of s2) 0x10000 266 = [0; 1; 1; 1; 1; 2; 7; 2; 9; 0] ++ replicate 256 0.
Proof.
  destruct (ring_next_message_lost 0x1000000 ex_ring_part ex_ring_writer ex_ring_storage [7; 0; 9] [1; 2; 3]) as (w' & s' & w2 & s2 & E1 & E2 & C & D).
  - exact ex_ring_part_ok.
  - exact ex_ring_ready.
  - split; reflexivity.
  - repeat constructor; unfold is_u; lia.
  - repeat constructor; unfold is_u; lia.
  - reflexivity.
  - exact ex_ring_erased.
  - vm_compute. discriminate.
  - vm_compute. discriminate.
  - vm_compute. discriminate.
  - exists w', s', w2, s2. split_and!; [exact E1|exact E2|exact C|exact D].
Defined.

(** A writer that got no geometry panics at its first byte: the capacity is zero. *)
Lemma ring_without_geometry capacity_bytes p s :
  ∃ w, ring_writer_new None = Ret w ∧ ring_begin capacity_bytes p (w, s) = Panic.
Proof. eexists. split; reflexivity. Qed.

(** A sector that is entered in the middle of a buffer is not erased: the second of
    these messages goes over the end of the first sector, and is mixed there with the
    old bytes. *)
Lemma ring_sector_not_erased :
  match ring_message 0x1000000 ex_ring_part [7; 0; 9] (ex_ring_writer, ex_ring_storage) with
  | Ret r => match ring_message 0x1000000 ex_ring_part (replicate 5000 0xA5) r with Ret r => bytes_at (flash_of r.2) 0x11100 2 | Panic => [] end
  | Panic => []
  end = [Z.land 0x5A 0xA5; Z.land 0x5A 0xA5].
Proof. vm_compute. reflexivity. Qed.
