(* ===== verification/LogStore.v ===== *)
(** The storage log sink, [firmware/sysmodule/log_sink_storage/src/main.rs]: draining
    the log service into the ring writer, one message per entry. The drain is
    modelled without other tasks logging while it runs. *)

From S2P Require Import Prelude LogRing LogFormat LogService LogPipeline LogSink.
From S2P Require Import Memfns Boot Nor Storage StorageProps Ring RingProps.

Open Scope nat_scope.

Section sink.
Context (capacity_bytes : Z) (p : PartitionResource) (subscribers : list Z) (self : Sender).

(** The entries of a batch of [n] bytes, each written to the ring: the last id, the
    number of entries and the writer. *)
Fixpoint store_walk (fuel : nat) (buf : list Z) (n offset : nat) (last : Z) (count : nat) (r : RingState) : exec (Z * nat * RingState) :=
  match fuel with
  | O => Panic
  | S fuel =>
      if decide (offset + LOG_HEADER_SIZE ≤ n) then
        let! idb := slice buf offset (offset + 8) in
        let! b := idx buf (offset + 8) in
        let data_len := Z.to_nat b in
        if decide (n < offset + LOG_HEADER_SIZE + data_len) then Ret (last, count, r)
        else
          let! r := ring_begin capacity_bytes p r in
          let! entry := slice buf offset (offset + LOG_HEADER_SIZE + data_len) in
          let! r := ring_write capacity_bytes p entry r in
          let! r := ring_end capacity_bytes p r in
          store_walk fuel buf n (offset + (LOG_HEADER_SIZE + data_len)) (le_val idb) (S count) r
      else Ret (last, count, r)
  end.

(** [drain_logs]; [buf] is the stack buffer, [fuel] bounds the batches. *)
Fixpoint store_loop (fuel : nat) (s : LogState) (buf : list Z) (last : Z) (count : nat) (r : RingState) : exec (Z * nat * RingState) :=
  match fuel with
  | O => Panic
  | S fuel =>
      let! c := consume_since subscribers s self last (mkWLease true buf) in
      let n := match fst c with Ok n => n | Err _ => 0 end in
      let buf := wl_bytes (snd c) in
      if decide (n = 0) then Ret (last, count, r) else
      let! w := store_walk (S n) buf n 0 last count r in
      let '(last, count, r) := w in
      store_loop fuel s buf last count r
  end.

Definition store_logs (fuel : nat) (s : LogState) (last : Z) (r : RingState) : exec (Z * nat * RingState) :=
  store_loop fuel s (replicate SINK_BUF_SIZE 0%Z) last 0 r.

(** * One message per entry *)

Fixpoint ring_messages (entries : list (list Z)) (r : RingState) : exec RingState :=
  match entries with
  | [] => Ret r
  | e :: entries => let! r := ring_message capacity_bytes p e r in ring_messages entries r
  end.

Lemma ring_messages_app l1 l2 r : ring_messages (l1 ++ l2) r = let! r := ring_messages l1 r in ring_messages l2 r.
Proof. revert r. induction l1 as [|e l1 IH]; intros r; cbn; [done|]. rewrite ebind_assoc. destruct (ring_message _ _ _ _); cbn; [apply IH|done]. Qed.

(** The walk up to the next entry, and the message for it. *)
Lemma store_walk_step fuel pre e tail n last count r :
  entry_ok e → length (pre ++ entry_bytes e) ≤ n →
  store_walk (S fuel) (pre ++ entry_bytes e ++ tail) n (length pre) last count r =
  let! r := ring_message capacity_bytes p (entry_bytes e) r in
  store_walk fuel (pre ++ entry_bytes e ++ tail) n (length (pre ++ entry_bytes e)) (e_id e) (S count) r.
Proof.
  intros He Hn. cbn [store_walk]. pose proof (length_entry_header e) as Hh. pose proof (length_entry_bytes e) as Hl. rewrite length_app in Hn.
  rewrite decide_True by lia. destruct (header_id e He) as (b & Hsl & Hb).
  rewrite slice_ok in Hsl by (rewrite ?Hh; unfold LOG_HEADER_SIZE; lia). injection Hsl as Hsl.
  rewrite slice_ok by (rewrite ?length_app; unfold LOG_HEADER_SIZE in *; lia). cbn [ebind].
  rewrite drop_app_length. replace (length pre + 8 - length pre) with 8 by lia.
  assert (take 8 (entry_bytes e ++ tail) = b) as ->.
  { rewrite entry_bytes_split, <- app_assoc. rewrite take_app_le' by (rewrite ?Hh; unfold LOG_HEADER_SIZE; lia). exact Hsl. }
  rewrite (idx_ok _ _ (Z.of_nat (length (e_data e)))); cycle 1.
  { rewrite lookup_app_r by lia. replace (length pre + 8 - length pre) with 8 by lia. rewrite entry_bytes_split, <- app_assoc.
    rewrite lookup_app_l by (rewrite ?Hh; unfold LOG_HEADER_SIZE; lia). apply header_len. }
  cbn [ebind]. rewrite Nat2Z.id, decide_False by lia. unfold ring_message. rewrite ebind_assoc. destruct (ring_begin _ _ r) as [r1|]; cbn [ebind]; [|done].
  rewrite slice_ok by (rewrite ?length_app; lia). cbn [ebind]. rewrite drop_app_length, take_app_le', take_ge by lia.
  rewrite ebind_assoc. rewrite Hb. replace (length pre + (LOG_HEADER_SIZE + length (e_data e))) with (length (pre ++ entry_bytes e)) by (rewrite length_app, Hl; lia). done.
Qed.

Lemma store_walk_ok es rest fuel pre last count r :
  Forall entry_ok es → length es < fuel →
  store_walk fuel (pre ++ queue_bytes es ++ rest) (length (pre ++ queue_bytes es)) (length pre) last count r =
    let! r := ring_messages (entry_bytes <$> es) r in Ret (default last (e_id <$> list.last es), count + length es, r).
Proof.
  intros Hp. revert fuel pre last count r. induction Hp as [|e es He _ IH]; intros fuel pre last count r Hf;
    (destruct fuel as [|fuel]; [cbn in Hf; lia|]).
  { cbn [store_walk]. rewrite decide_False by (rewrite length_app; change (length (queue_bytes [])) with 0; unfold LOG_HEADER_SIZE; lia). cbn. by rewrite Nat.add_0_r. }
  rewrite queue_bytes_cons. rewrite <- (app_assoc (entry_bytes e)). rewrite store_walk_step; [|done|rewrite !length_app; lia]. cbn [fmap list_fmap ring_messages].
  rewrite !ebind_assoc. destruct (ring_message _ _ _ _) as [r1|]; cbn [ebind]; [|done].
  pose proof (IH fuel (pre ++ entry_bytes e) (e_id e) (S count) r1 ltac:(cbn in Hf; lia)) as IH1. rewrite <- !app_assoc in IH1. rewrite IH1.
  cbn [length]. rewrite Nat.add_succ_r. destruct (ring_messages _ r1); cbn [ebind]; [|done]. do 3 f_equal. destruct es as [|e' es]; [done|]. cbn [list.last].
  by destruct (list.last (e' :: es)) eqn:E; [|apply last_None in E].
Qed.

Section drain.
Context (s : LogState) (q : list Entry).
Hypothesis subscribed : task_index self ∈ subscribers.
Hypothesis stored : svc_ok s q.
Hypothesis distinct : ids_distinct q.

Lemma store_loop_ok fuel seen todo buf last count r :
  q = seen ++ todo → q_since last q = todo → length buf = SINK_BUF_SIZE → length todo < fuel →
  store_loop fuel s buf last count r =
    let! r := ring_messages (entry_bytes <$> todo) r in Ret (default last (e_id <$> list.last todo), count + length todo, r).
Proof.
  revert seen todo buf last count r. induction fuel as [|fuel IH]; intros seen todo buf last count r Hq Hsince Hbuf Hf; [lia|].
  cbn [store_loop]. destruct (consume_since_ok subscribers s q self last buf stored subscribed) as (rest & -> & Hl).
  rewrite Hsince, Hbuf in *. cbn [ebind fst snd wl_bytes].
  assert (Forall entry_ok todo) as Hok.
  { destruct stored as ((_ & _ & _ & _ & _ & Hq0 & _) & _). rewrite Hq in Hq0. by apply Forall_app in Hq0 as [_ ?]. }
  destruct todo as [|e1 todo1] eqn:Etodo.
  { cbn [fit_prefix]. rewrite decide_True by done. cbn. by rewrite Nat.add_0_r. }
  rewrite <- Etodo in *. destruct (fit_prefix_last todo SINK_BUF_SIZE) as (es & e & tl & Hfp & Htodo); [by subst todo|done|change SINK_BUF_SIZE with 512; lia|].
  rewrite Hfp in *. set (out := queue_bytes (es ++ [e])) in *. pose proof (length_queue_bytes (es ++ [e])) as Hlen. fold out in Hlen. rewrite length_app in Hlen. cbn [length] in Hlen.
  rewrite decide_False by lia.
  assert (Forall entry_ok (es ++ [e])) as Hpe by (rewrite Htodo, (cons_middle e es), app_assoc in Hok; by apply Forall_app in Hok as [? _]).
  pose proof (store_walk_ok (es ++ [e]) rest (S (length out)) [] last count r Hpe) as Hw. cbn [app length] in Hw. fold out in Hw.
  rewrite Hw by (rewrite length_app; cbn; lia). rewrite last_snoc, ebind_assoc. cbn [fmap option_fmap option_map from_option id].
  assert (entry_bytes <$> todo = (entry_bytes <$> es ++ [e]) ++ (entry_bytes <$> tl)) as -> by (rewrite Htodo, !fmap_app, <- app_assoc; done).
  rewrite ring_messages_app, ebind_assoc. change (list_fmap _ _ entry_bytes (es ++ [e])) with (entry_bytes <$> es ++ [e]).
  destruct (ring_messages (entry_bytes <$> es ++ [e]) r) as [r1|]; cbn [ebind]; [|done].
  assert (0 < e_id e)%Z as Hpos.
  { destruct stored as (_ & _ & _ & _ & Hids). rewrite Hq, Htodo in Hids. apply Forall_app in Hids as [_ Hids].
    apply Forall_app in Hids as [_ Hids]. apply Forall_cons_1 in Hids as [? _]. lia. }
  assert (q = (seen ++ es ++ [e]) ++ tl) as Hq2 by (rewrite Hq, Htodo, <- !app_assoc; done).
  rewrite (IH (seen ++ es ++ [e]) tl); [|done| |done|rewrite Htodo, length_app in Hf; cbn [length] in Hf; lia].
  - destruct (ring_messages _ r1); cbn [ebind]; [|done]. do 2 f_equal.
    rewrite Htodo, !length_app. cbn [length]. f_equal; [|lia]. rewrite last_app_cons. destruct tl as [|e2 tl]; [done|]. cbn [list.last].
    by destruct (list.last (e2 :: tl)) eqn:E; [|apply last_None in E].
  - assert (q = (seen ++ es) ++ e :: tl) as Hq3 by (rewrite Hq, Htodo, app_assoc; done).
    unfold q_since. rewrite decide_False by lia. rewrite Hq3. rewrite after_last_distinct; [done|]. by rewrite <- Hq3.
Qed.
End drain.
End sink.

(** Draining the log to storage writes one message per entry. When the stored
    entries have distinct ids, a drain by a subscriber that has seen the entries up
    to [last] does to the ring exactly what writing the entries behind [last] as
    messages does, in order and each once (and panics only where that does); it
    records the id of the last entry and counts all of them. *)
Theorem store_logs_writes_all capacity_bytes p subscribers self s q last r :
  task_index self ∈ subscribers → svc_ok s q → ids_distinct q →
  store_logs capacity_bytes p subscribers self (S (length (q_since last q))) s last r =
    let! r := ring_messages capacity_bytes p (entry_bytes <$> q_since last q) r in
    Ret (default last (e_id <$> list.last (q_since last q)), length (q_since last q), r).
Proof.
  intros Hin Hs Hd. destruct (iter_since_at (ring s) q last (proj1 Hs)) as (seen & off & _ & Hq & _).
  exact (store_loop_ok capacity_bytes p subscribers self s q Hin Hs Hd (S (length (q_since last q))) seen (q_since last q)
    (replicate SINK_BUF_SIZE 0%Z) last 0 r Hq eq_refl eq_refl ltac:(lia)).
Qed.

Lemma store_logs_writes_all_witness :
  ∃ s q, svc_log (λ raw, raw) log_state_new 5 (mkSender 2 0) LInfo 77 (mkLease 1 (Some [TAG_UNIT])) = Ret s ∧ length (q_since 0 q) = 1 ∧
    store_logs 0x1000000 ex_ring_part [4%Z] sink (S (length (q_since 0 q))) s 0 (ex_ring_writer, ex_ring_storage) =
      let! r := ring_messages 0x1000000 ex_ring_part (entry_bytes <$> q_since 0 q) (ex_ring_writer, ex_ring_storage) in
      Ret (default 0%Z (e_id <$> list.last (q_since 0 q)), length (q_since 0 q), r).
Proof.
  destruct (svc_log_ok (λ raw, raw) identity_bound log_state_new [] 5 (mkSender 2 0) LInfo 77
    (mkLease 1 (Some [TAG_UNIT])) svc_ok_new eq_refl eq_refl) as (s & Hlog & Hs & _).
  match type of Hs with svc_ok _ ?q => exists s, q end. split; [exact Hlog|]. split; [vm_compute; reflexivity|].
  apply (store_logs_writes_all 0x1000000 ex_ring_part [4%Z] sink s _ 0 (ex_ring_writer, ex_ring_storage)); [|exact Hs|].
  - apply list_elem_of_here.
  - vm_compute. split; constructor.
Defined.

(** Two short log statements in one drain: both are counted, and the first is on the
    flash with its end at 48, but behind it there are zeros only. *)
Example second_log_not_on_flash :
  match store_logs 0x1000000 ex_ring_part [4%Z] sink 5 (demo_state [demo_log [TAG_UNIT]; demo_log [TAG_UNIT]]) 0 (ex_ring_writer, ex_ring_storage) with
  | Ret (last, count, (w, s)) => (last, count, rw_counter w, rw_pos w, bytes_at (flash_of s) 0x10030 256)
  | Panic => (0%Z, 0, 0%Z, 0%Z, [])
  end = (2%Z, 2, 2%Z, 96%Z, replicate 256 0%Z).
Proof. vm_compute. reflexivity. Qed.
