(* ===== verification/Flash.v ===== *)
(** Flashing a device from the host ([host/app/src/state.rs]: [run_flash],
    [read_partition], [flash_partition]).

    The host calls the storage service of [Storage] over IPC. A call may be lost on
    its way, or its reply may be; which is an event given from outside. The archive is
    read with the zip and serde crates, which are parameters: [read_entry] gives the
    contents of an entry, [parse_info] the flash information. Progress messages and
    logging are left out. *)

From S2P Require Import Prelude BTree Layout Memfns Places Ftab Link Nor Storage.

Open Scope Z_scope.

(** * The archive *)

Record ImageFlashInfo := mkImageInfo {
  im_name : string;
  im_flash_addr : Z;
  im_ftab_slot : nat;
}.

Record FlashInfo := mkFlashInfo {
  fi_ftab_base : Z;
  fi_bootloader_file_offset : Z;
  fi_bootloader_sram_dest : Z;
  fi_bootloader_size : Z;
  fi_images : list ImageFlashInfo;
}.

(** * Calls to the device *)

Inductive IpcEvent :=
  | IpcDone
  | IpcLost
  | IpcNoReply.

Record Device := mkDevice {
  dv_storage : Storage;
  dv_ipc : list IpcEvent;
}.

(** [ResourceHandle::call_with_writeback] and [call_static]: [None] when no reply came. *)
Definition ipc_call {A} (d : Device) (call : Storage → exec (A * Storage)) : exec (option A * Device) :=
  match dv_ipc d with
  | [] => let! (a, s) := call (dv_storage d) in Ret (Some a, mkDevice s [])
  | IpcDone :: events => let! (a, s) := call (dv_storage d) in Ret (Some a, mkDevice s events)
  | IpcLost :: events => Ret (None, mkDevice (dv_storage d) events)
  | IpcNoReply :: events => let! (_, s) := call (dv_storage d) in Ret (None, mkDevice s events)
  end.

Inductive FlashError :=
  | NameTooLong
  | AcquireFailed
  | GeometryFailed
  | EraseSizeZero
  | EraseFailed
  | ProgramFailed (offset : nat)
  | VerifyReadFailed (offset : nat)
  | VerifyShortRead (offset : nat)
  | VerifyMismatch (offset : nat).

Definition CHUNK : nat := 4096.

Section host.
Context (capacity_bytes : Z) (PARTITIONS : list PartitionConfig)
  (is_partition_allowed : list Z → Z → bool) (fs_task : option Z).
(** The task of the device that makes the host's calls. *)
Context (proxy : Z).

(** The name in sixteen bytes. *)
Definition padded_name (partition_name : string) : list Z :=
  let name_bytes := string_bytes partition_name in name_bytes ++ replicate (16 - length name_bytes) 0.

(** [ipc_handle::acquire] *)
Definition acquire_handle (d : Device) (partition_name : string) : exec (option PartitionResource * Device) :=
  let! (reply, d) := ipc_call d (λ s, acquire PARTITIONS is_partition_allowed fs_task s proxy (padded_name partition_name)) in
  match reply with
  | Some (Ok p) => Ret (Some p, d)
  | _ => Ret (None, d)
  end.

(** [Drop] of the handle: the reply is not looked at. *)
Definition drop_handle (d : Device) (p : PartitionResource) : exec Device :=
  let! (_, d) := ipc_call d (λ s, let! s := release s p in Ret (tt, s)) in Ret d.

Definition call_geometry (d : Device) (p : PartitionResource) : exec (option Geometry * Device) :=
  ipc_call d (λ s, Ret (geometry p, s)).

Definition call_erase (d : Device) (p : PartitionResource) (offset len : Z) : exec (option (result unit StorageError) * Device) :=
  ipc_call d (λ s, Ret (part_erase capacity_bytes s p offset len)).

Definition call_program (d : Device) (p : PartitionResource) (offset : Z) (buf : list Z) : exec (option (result unit StorageError) * Device) :=
  ipc_call d (λ s, Ret (part_program capacity_bytes s p offset buf)).

(** With the bytes of the lease. *)
Definition call_read (d : Device) (p : PartitionResource) (offset : Z) (len : nat) : exec (option (result unit StorageError * list Z) * Device) :=
  ipc_call d (λ s, let '(r, s, buf) := part_read capacity_bytes s p offset (replicate len 0) in Ret ((r, buf), s)).

(** * Reading a partition *)

(** The reply of a read is not looked at, only the bytes of the lease. *)
Fixpoint read_loop (fuel : nat) (d : Device) (p : PartitionResource) (part_size offset : nat) (data : list Z) : exec (option (list Z) * Device) :=
  match fuel with
  | O => Ret (Some data, d)
  | S fuel =>
      if decide (offset < part_size)%nat then
        let end_ := Nat.min (offset + CHUNK) part_size in
        let! (reply, d) := call_read d p (wrap 32 (Z.of_nat offset)) (end_ - offset) in
        match reply with
        | None => Ret (None, d)
        | Some (_, writeback) => read_loop fuel d p part_size end_ (data ++ writeback)
        end
      else Ret (Some data, d)
  end.

Definition read_acquired (d : Device) (p : PartitionResource) : exec (option (list Z) * Device) :=
  let! (geometry, d) := call_geometry d p in
  match geometry with
  | None => Ret (None, d)
  | Some g =>
      let part_size := Z.to_nat (ge_total_size g) in
      if decide (part_size = O) then Ret (None, d) else
      read_loop (S (part_size / CHUNK)) d p part_size 0 []
  end.

Definition read_partition (d : Device) (partition_name : string) : exec (option (list Z) * Device) :=
  if decide (16 < length (string_bytes partition_name))%nat then Ret (None, d) else
  let! (handle, d) := acquire_handle d partition_name in
  match handle with
  | None => Ret (None, d)
  | Some p =>
      let! (r, d) := read_acquired d p in
      let! d := drop_handle d p in
      Ret (r, d)
  end.

(** * Writing a partition *)

Fixpoint program_loop (fuel : nat) (d : Device) (p : PartitionResource) (data : list Z) (offset : nat) : exec (result unit FlashError * Device) :=
  match fuel with
  | O => Ret (Ok tt, d)
  | S fuel =>
      if decide (offset < length data)%nat then
        let end_ := Nat.min (offset + CHUNK) (length data) in
        let! buf := slice data offset end_ in
        let! (reply, d) := call_program d p (wrap 32 (Z.of_nat offset)) buf in
        match reply with
        | Some (Ok _) => program_loop fuel d p data end_
        | _ => Ret (Err (ProgramFailed offset), d)
        end
      else Ret (Ok tt, d)
  end.

Fixpoint verify_loop (fuel : nat) (d : Device) (p : PartitionResource) (data : list Z) (offset : nat) : exec (result unit FlashError * Device) :=
  match fuel with
  | O => Ret (Ok tt, d)
  | S fuel =>
      if decide (offset < length data)%nat then
        let end_ := Nat.min (offset + CHUNK) (length data) in
        let chunk_len := (end_ - offset)%nat in
        let! (reply, d) := call_read d p (wrap 32 (Z.of_nat offset)) chunk_len in
        match reply with
        | Some (Ok _, writeback) =>
            if decide (length writeback ≠ chunk_len) then Ret (Err (VerifyShortRead offset), d) else
            let! want := slice data offset end_ in
            if decide (writeback ≠ want) then Ret (Err (VerifyMismatch offset), d) else
            verify_loop fuel d p data end_
        | _ => Ret (Err (VerifyReadFailed offset), d)
        end
      else Ret (Ok tt, d)
  end.

(** [data.len().div_ceil(erase_size) * erase_size] *)
Definition erase_length (len erase_size : Z) : Z := (len + erase_size - 1) / erase_size * erase_size.

Definition flash_acquired (d : Device) (p : PartitionResource) (data : list Z) : exec (result unit FlashError * Device) :=
  let! (geometry, d) := call_geometry d p in
  match geometry with
  | None => Ret (Err GeometryFailed, d)
  | Some g =>
      let erase_size := ge_erase_size g in
      if decide (erase_size = 0) then Ret (Err EraseSizeZero, d) else
      let erase_len := erase_length (Z.of_nat (length data)) erase_size in
      let! (reply, d) := call_erase d p 0 (wrap 32 erase_len) in
      match reply with
      | Some (Ok _) =>
          let! (r, d) := program_loop (S (length data / CHUNK)) d p data 0 in
          match r with
          | Err e => Ret (Err e, d)
          | Ok _ => verify_loop (S (length data / CHUNK)) d p data 0
          end
      | _ => Ret (Err EraseFailed, d)
      end
  end.

(** The handle is dropped on every way out. *)
Definition flash_partition (d : Device) (partition_name : string) (data : list Z) : exec (result unit FlashError * Device) :=
  if decide (16 < length (string_bytes partition_name))%nat then Ret (Err NameTooLong, d) else
  let! (handle, d) := acquire_handle d partition_name in
  match handle with
  | None => Ret (Err AcquireFailed, d)
  | Some p =>
      let! (r, d) := flash_acquired d p data in
      let! d := drop_handle d p in
      Ret (r, d)
  end.

(** * Flashing an archive *)

Inductive FlashOutcome :=
  | FlashComplete
  | MissingPlaces
  | FlashFailed (partition_name : string) (e : FlashError).

(** [PlacesImage::parse(d).ok()], on the host. *)
Definition parse_ok (data : option (list Z)) : exec (option PlacesImage) :=
  match data with
  | None => Ret None
  | Some data => let! r := parse 64 data in Ret (match r with Ok img => Some img | Err _ => None end)
  end.

Definition firmware_a : string := "firmware_a".
Definition firmware_b : string := "firmware_b".

(** Which slot is written, with what. *)
Definition choose_target (parsed_a parsed_b : option PlacesImage) (places_a : list Z) (places_b : option (list Z)) : exec (string * list Z) :=
  let write_b := match places_b with Some data => (firmware_b, data) | None => (firmware_a, places_a) end in
  match parsed_a, parsed_b with
  | Some a, Some b =>
      let! r := select_firmware a b in
      match r with
      | Ok (A, _) => Ret write_b
      | Ok (B, _) => Ret (firmware_a, places_a)
      | Err _ => Ret (firmware_a, places_a)
      end
  | Some _, None => Ret write_b
  | None, _ => Ret (firmware_a, places_a)
  end.

(** The slots are read, and the target chosen. *)
Definition select_target (d : Device) (places_a : list Z) (places_b : option (list Z)) : exec (string * list Z * Device) :=
  let! (cur_a, d) := read_partition d firmware_a in
  let! (cur_b, d) := read_partition d firmware_b in
  let! parsed_a := parse_ok cur_a in
  let! parsed_b := parse_ok cur_b in
  let! (target_partition, target_data) := choose_target parsed_a parsed_b places_a places_b in
  Ret (target_partition, target_data, d).

(** The entries of the flash table: all images of the archive. *)
Fixpoint ftab_entries (images : list ImageFlashInfo) (places_a : list Z) (places_b : option (list Z)) : list (nat * Z * Z) :=
  match images with
  | [] => []
  | img :: images =>
      let rest := ftab_entries images places_a places_b in
      if decide (im_ftab_slot img = FTAB_PLACES_SLOT_A) then (im_ftab_slot img, im_flash_addr img, wrap 32 (Z.of_nat (length places_a))) :: rest
      else match places_b with
           | Some pb => (im_ftab_slot img, im_flash_addr img, wrap 32 (Z.of_nat (length pb))) :: rest
           | None => rest
           end
  end.

Definition is_target (target_partition : string) (img : ImageFlashInfo) : Prop :=
  (target_partition = firmware_a ∧ im_ftab_slot img = FTAB_PLACES_SLOT_A) ∨ (target_partition = firmware_b ∧ im_ftab_slot img = FTAB_PLACES_SLOT_B).

#[export] Instance is_target_dec target img : Decision (is_target target img).
Proof. unfold is_target. apply _. Defined.

Definition flash_table (fi : FlashInfo) (target_partition : string) (places_a : list Z) (places_b : option (list Z)) : exec (list Z) :=
  let target_image := list_find (is_target target_partition) (fi_images fi) in
  let! flash_addr := match target_image with
                     | Some (_, img) => Ret (im_flash_addr img)
                     | None => let! img := idx (fi_images fi) 0 in Ret (im_flash_addr img)
                     end in
  let! loader_flash_src := add32 flash_addr (fi_bootloader_file_offset fi) in
  build_ftab (fi_ftab_base fi) loader_flash_src (fi_bootloader_sram_dest fi) (fi_bootloader_size fi)
    (ftab_entries (fi_images fi) places_a places_b).

Section archive.
Context (read_entry : string → option (list Z)) (parse_info : list Z → option FlashInfo).

Definition second_image (flash_info : option FlashInfo) : option (list Z) :=
  match flash_info with
  | None => None
  | Some fi => match fi_images fi !! 1%nat with Some img => read_entry ("places_" ++ im_name img ++ ".bin") | None => None end
  end.

(** The device is reset when it completes. *)
Definition run_flash (d : Device) : exec (FlashOutcome * Device) :=
  match read_entry "places.bin" with
  | None => Ret (MissingPlaces, d)
  | Some places_a =>
      let flash_info := match read_entry "flash-info.json" with Some b => parse_info b | None => None end in
      let places_b := second_image flash_info in
      let! (target_partition, target_data, d) := select_target d places_a places_b in
      let! (r, d) := flash_partition d target_partition target_data in
      match r, flash_info with
      | Err e, _ => Ret (FlashFailed target_partition e, d)
      | Ok _, None => Ret (FlashComplete, d)
      | Ok _, Some fi =>
          let! ftab := flash_table fi target_partition places_a places_b in
          let! (r, d) := flash_partition d "boot" ftab in
          match r with
          | Err e => Ret (FlashFailed "boot" e, d)
          | Ok _ => Ret (FlashComplete, d)
          end
      end
  end.
End archive.
End host.
