(* ===== verification/FlashProps.v ===== *)
(** What flashing does to a device: a partition that has been flashed holds the data
    and erased bytes behind, whatever goes wrong nothing else changes, and an archive
    that has been flashed completely is what the bootloader starts. But the image in
    use is overwritten. *)

From S2P Require Import Prelude BTree Layout Memfns Places PlacesBuild PlacesProps.
From S2P Require Import Ftab Boot BootProps Link Nor Storage StorageProps StorageTable Flash.

Open Scope Z_scope.

(** * Calls *)

Definition flash_at (d : Device) : Mem := flash_of (dv_storage d).

(** Nothing fails, neither on the way nor in the device. *)
Definition quiet (d : Device) : Prop := dv_ipc d = [] ∧ no_faults (dv_storage d).

Definition device_ok (d : Device) : Prop := length (st_acquired (dv_storage d)) = MAX_PARTITIONS.

(** The call was carried out, or not; a reply is the one of the call. *)
Lemma ipc_call_cases {A} d (call : Storage → exec (A * Storage)) a s :
  call (dv_storage d) = Ret (a, s) →
  ∃ reply d', ipc_call d call = Ret (reply, d') ∧ (reply = Some a ∨ reply = None) ∧
    (dv_storage d' = s ∨ dv_storage d' = dv_storage d ∧ reply = None) ∧ (dv_ipc d = [] → reply = Some a ∧ dv_ipc d' = []).
Proof.
  intros E. unfold ipc_call. destruct (dv_ipc d) as [|[| |] events]; rewrite ?E; cbn [ebind]; eexists _, _;
    (split; [done|]; split; [by (left + right)|]; split; [by (left + right)|done]).
Qed.

Lemma confined_trans p s1 s2 s3 : confined p s1 s2 → confined p s2 s3 → confined p s1 s3.
Proof. intros [O1 A1] [O2 A2]. split; [by eapply same_outside_trans|congruence]. Qed.

Section partition.
Context (capacity_bytes : Z) (p : PartitionResource) (Hp : part_fits p).

Lemma call_geometry_ok d :
  ∃ reply d', call_geometry d p = Ret (reply, d') ∧ dv_storage d' = dv_storage d ∧ (reply = Some (geometry p) ∨ reply = None) ∧
    (quiet d → reply = Some (geometry p) ∧ quiet d').
Proof.
  destruct (ipc_call_cases d (λ s, Ret (geometry p, s)) (geometry p) (dv_storage d) eq_refl) as (reply & d' & E & Hr & Hs & Hq).
  exists reply, d'. assert (dv_storage d' = dv_storage d) as Ed by (destruct Hs as [?|[? _]]; done).
  split_and!; [exact E|exact Ed|exact Hr|]. intros [Q1 Q2]. destruct (Hq Q1) as [? ?]. split; [done|]. split; [done|by rewrite Ed].
Qed.

Lemma call_erase_ok d offset len :
  is_u 32 offset → is_u 32 len → ∃ reply d', call_erase capacity_bytes d p offset len = Ret (reply, d') ∧ confined p (dv_storage d) (dv_storage d') ∧
    (reply = Some (Ok tt) → offset + len <= pr_size_bytes p ∧
       same_outside (part_start p + offset) (part_start p + offset + len) (flash_at d) (flash_at d') ∧
       ∀ x, part_start p + offset <= x < part_start p + offset + len → flash_at d' x = 0xFF) ∧
    (quiet d → part_in_chip capacity_bytes p → offset + len <= pr_size_bytes p → misaligned offset len = false → reply = Some (Ok tt) ∧ quiet d').
Proof.
  intros Ho Hl. unfold call_erase. destruct (part_erase capacity_bytes (dv_storage d) p offset len) as [r s'] eqn:E.
  destruct (ipc_call_cases d (λ s, Ret (part_erase capacity_bytes s p offset len)) r s') as (reply & d' & Ec & Hr & Hs & Hq); [by rewrite E|].
  pose proof E as E2. apply (part_erase_ok capacity_bytes p Hp) in E2 as [Hc Hok]; [|done|done].
  exists reply, d'. split; [exact Ec|]. split; [destruct Hs as [->|[-> _]]; [done|apply confined_refl]|]. split.
  - intros ->. destruct Hr as [[= <-]|?]; [|done]. destruct Hs as [Es|[_ ?]]; [|done]. unfold flash_at. rewrite Es. by apply Hok.
  - intros [Q1 Q2] Hch Hin Hm. destruct (part_erase_quiet capacity_bytes p Hp (dv_storage d) offset len) as (s2 & E3 & Q3); [done|done|apply Ho|apply Hl|done|done|].
    rewrite E in E3. injection E3 as -> ->. destruct (Hq Q1) as [-> ?]. split; [done|]. split; [done|]. destruct Hs as [->|[_ ?]]; done.
Qed.

Lemma call_program_ok d offset buf :
  is_u 32 offset → Z.of_nat (length buf) < 2 ^ 32 → ∃ reply d', call_program capacity_bytes d p offset buf = Ret (reply, d') ∧ confined p (dv_storage d) (dv_storage d') ∧
    (reply = Some (Ok tt) → same_outside (part_start p + offset) (part_start p + offset + Z.of_nat (length buf)) (flash_at d) (flash_at d') ∧
       ∀ i v, buf !! i = Some v → flash_at d' (part_start p + offset + Z.of_nat i) = Z.land (flash_at d (part_start p + offset + Z.of_nat i)) v) ∧
    (quiet d → part_in_chip capacity_bytes p → offset + Z.of_nat (length buf) <= pr_size_bytes p → reply = Some (Ok tt) ∧ quiet d').
Proof.
  intros Ho Hl. unfold call_program. destruct (part_program capacity_bytes (dv_storage d) p offset buf) as [r s'] eqn:E.
  destruct (ipc_call_cases d (λ s, Ret (part_program capacity_bytes s p offset buf)) r s') as (reply & d' & Ec & Hr & Hs & Hq); [by rewrite E|].
  pose proof E as E2. apply (part_program_ok capacity_bytes p Hp) in E2 as [Hc Hok]; [|done|done].
  exists reply, d'. split; [exact Ec|]. split; [destruct Hs as [->|[-> _]]; [done|apply confined_refl]|]. split.
  - intros ->. destruct Hr as [[= <-]|?]; [|done]. destruct Hs as [Es|[_ ?]]; [|done]. unfold flash_at. rewrite Es. by apply Hok.
  - intros [Q1 Q2] Hch Hin. destruct (part_program_quiet capacity_bytes p Hp (dv_storage d) offset buf) as (s2 & E3 & Q3); [done|done|apply Ho|done|].
    rewrite E in E3. injection E3 as -> ->. destruct (Hq Q1) as [-> ?]. split; [done|]. split; [done|]. destruct Hs as [->|[_ ?]]; done.
Qed.

Lemma call_read_ok d offset len :
  is_u 32 offset → Z.of_nat len < 2 ^ 32 → ∃ reply d', call_read capacity_bytes d p offset len = Ret (reply, d') ∧ confined p (dv_storage d) (dv_storage d') ∧
    flash_at d' = flash_at d ∧ (∀ r buf, reply = Some (r, buf) → length buf = len ∧ (r = Ok tt → buf = bytes_at (flash_at d) (part_start p + offset) len)) ∧
    (quiet d → part_in_chip capacity_bytes p → offset + Z.of_nat len <= pr_size_bytes p →
       reply = Some (Ok tt, bytes_at (flash_at d) (part_start p + offset) len) ∧ quiet d').
Proof.
  intros Ho Hl. unfold call_read. destruct (part_read capacity_bytes (dv_storage d) p offset (replicate len 0)) as [[r s'] buf] eqn:E.
  destruct (ipc_call_cases d (λ s, let '(r, s, buf) := part_read capacity_bytes s p offset (replicate len 0) in Ret ((r, buf), s)) (r, buf) s')
    as (reply & d' & Ec & Hr & Hs & Hq); [by rewrite E|].
  pose proof E as E2. apply (part_read_ok capacity_bytes p Hp) in E2 as (Hm & Ha & Hlen & Hok); [|done|by rewrite length_replicate]. rewrite length_replicate in Hlen, Hok.
  assert (flash_at d' = flash_at d ∧ st_acquired (dv_storage d') = st_acquired (dv_storage d)) as [Hm' Ha'] by (unfold flash_at; destruct Hs as [->|[-> _]]; done).
  exists reply, d'. split; [exact Ec|]. split; [split; [|done]; intros x _; unfold flash_at in Hm'; by rewrite Hm'|]. split; [done|]. split.
  - intros r2 buf2 ->. destruct Hr as [[= -> ->]|?]; done.
  - intros [Q1 Q2] Hch Hin. destruct (part_read_quiet capacity_bytes p Hp (dv_storage d) offset (replicate len 0)) as (s2 & E3 & Q3); [done|done|apply Ho|by rewrite length_replicate|].
    rewrite length_replicate in E3. rewrite E in E3. injection E3 as -> -> ->. destruct (Hq Q1) as [-> ?]. split; [done|]. split; [done|]. destruct Hs as [->|[_ ?]]; done.
Qed.

(** * Loops *)

Lemma program_loop_ok fuel d data offset :
  Z.of_nat (length data) < 2 ^ 32 → (length data - offset <= fuel * CHUNK)%nat →
  ∃ r d', program_loop capacity_bytes fuel d p data offset = Ret (r, d') ∧ confined p (dv_storage d) (dv_storage d') ∧
    (r = Ok tt → same_outside (part_start p + Z.of_nat offset) (part_start p + Z.of_nat (length data)) (flash_at d) (flash_at d') ∧
       ∀ i v, (offset <= i)%nat → data !! i = Some v → flash_at d' (part_start p + Z.of_nat i) = Z.land (flash_at d (part_start p + Z.of_nat i)) v) ∧
    (quiet d → part_in_chip capacity_bytes p → Z.of_nat (length data) <= pr_size_bytes p → r = Ok tt ∧ quiet d').
Proof.
  intros Hlen. revert d offset. induction fuel as [|fuel IH]; intros d offset Hf; cbn [program_loop].
  { eexists _, d. split; [done|]. split; [apply confined_refl|]. split; [|done]. intros _. split; [apply same_outside_refl|].
    intros i v Hi Hv. pose proof (lookup_lt_Some _ _ _ Hv). lia. }
  case_decide as Hlt.
  2:{ eexists _, d. split; [done|]. split; [apply confined_refl|]. split; [|done]. intros _. split; [apply same_outside_refl|].
    intros i v Hi Hv. pose proof (lookup_lt_Some _ _ _ Hv). lia. }
  set (end_ := Nat.min (offset + CHUNK) (length data)). assert (offset < end_ <= length data)%nat as He by (unfold end_, CHUNK; lia).
  rewrite slice_ok by lia. cbn [ebind]. set (buf := take _ _). assert (length buf = end_ - offset)%nat as Hb by (unfold buf; rewrite length_take, length_drop; lia).
  rewrite wrap_small by (unfold is_u; lia).
  destruct (call_program_ok d (Z.of_nat offset) buf) as (reply & d1 & -> & Hc & Hok & Hq); [unfold is_u; lia|lia|]. cbn [ebind]. rewrite Hb in Hok, Hq.
  destruct reply as [[[]|e]|].
  2,3: (eexists _, d1; split; [done|]; split; [done|]; split; [done|]; intros Q Hch Hin; destruct (Hq Q Hch) as [? _]; [lia|done]).
  destruct (Hok eq_refl) as [O1 F1]. destruct (IH d1 end_) as (r & d2 & -> & Hc2 & Hok2 & Hq2); [unfold end_, CHUNK in *; lia|].
  eexists r, d2. split; [done|]. split; [by eapply confined_trans|]. split.
  - intros Hr. destruct (Hok2 Hr) as [O2 F2]. split.
    + intros x Hx. rewrite O2, O1 by lia. done.
    + intros i v Hi Hv. destruct (decide (end_ <= i)%nat) as [Hge|Hin].
      * rewrite (F2 i v Hge Hv). f_equal. apply O1. lia.
      * rewrite O2 by lia. specialize (F1 (i - offset)%nat v). replace (part_start p + Z.of_nat offset + Z.of_nat (i - offset)) with (part_start p + Z.of_nat i) in F1 by lia.
        apply F1. unfold buf. rewrite lookup_take_lt, lookup_drop by lia. by replace (offset + (i - offset))%nat with i by lia.
  - intros Q Hch Hin. destruct (Hq Q Hch) as [_ Q1]; [lia|]. by apply Hq2.
Qed.

Lemma verify_loop_ok fuel d data offset :
  Z.of_nat (length data) < 2 ^ 32 → (length data - offset <= fuel * CHUNK)%nat →
  ∃ r d', verify_loop capacity_bytes fuel d p data offset = Ret (r, d') ∧ confined p (dv_storage d) (dv_storage d') ∧ flash_at d' = flash_at d ∧
    (r = Ok tt → ∀ i v, (offset <= i)%nat → data !! i = Some v → flash_at d (part_start p + Z.of_nat i) = v) ∧
    (quiet d → part_in_chip capacity_bytes p → Z.of_nat (length data) <= pr_size_bytes p →
       bytes_at (flash_at d) (part_start p) (length data) = data → r = Ok tt ∧ quiet d').
Proof.
  intros Hlen. revert d offset. induction fuel as [|fuel IH]; intros d offset Hf; cbn [verify_loop].
  { eexists _, d. split; [done|]. split; [apply confined_refl|]. split; [done|]. split; [|done]. intros _ i v Hi Hv. pose proof (lookup_lt_Some _ _ _ Hv). lia. }
  case_decide as Hlt.
  2:{ eexists _, d. split; [done|]. split; [apply confined_refl|]. split; [done|]. split; [|done]. intros _ i v Hi Hv. pose proof (lookup_lt_Some _ _ _ Hv). lia. }
  set (end_ := Nat.min (offset + CHUNK) (length data)). assert (offset < end_ <= length data)%nat as He by (unfold end_, CHUNK; lia).
  rewrite wrap_small by (unfold is_u; lia).
  destruct (call_read_ok d (Z.of_nat offset) (end_ - offset)) as (reply & d1 & -> & Hc & Hm & Hok & Hq); [unfold is_u; lia|lia|]. cbn [ebind].
  assert (quiet d → part_in_chip capacity_bytes p → Z.of_nat (length data) <= pr_size_bytes p → bytes_at (flash_at d) (part_start p) (length data) = data →
    reply = Some (Ok tt, take (end_ - offset) (drop offset data)) ∧ quiet d1) as Hq'.
  { intros Q Hch Hin Hd. destruct (Hq Q Hch) as [-> Q1]; [lia|]. split; [|done]. do 2 f_equal. apply list_eq. intros i.
    destruct (decide (i < end_ - offset)%nat) as [Hi|Hi].
    - rewrite lookup_bytes_at by done. rewrite lookup_take_lt, lookup_drop by done. rewrite <- Hd at 1. rewrite lookup_bytes_at by lia. do 2 f_equal. lia.
    - rewrite !lookup_ge_None_2; [done| |rewrite length_bytes_at; lia]. rewrite length_take. lia. }
  destruct reply as [[[[]|e] writeback]|].
  2,3: (eexists _, d1; split; [done|]; split; [done|]; split; [done|]; split; [done|]; intros Q Hch Hin Hd; by destruct (Hq' Q Hch Hin Hd) as [? _]).
  destruct (Hok _ _ eq_refl) as [Hwl Hw]. rewrite decide_False by (intros H; by apply H). rewrite slice_ok by lia. cbn [ebind].
  case_decide as Hne.
  { eexists _, d1. split; [done|]. split; [done|]. split; [done|]. split; [done|]. intros Q Hch Hin Hd. destruct (Hq' Q Hch Hin Hd) as [[= E] _]. destruct (Hne E). }
  destruct (IH d1 end_) as (r & d2 & -> & Hc2 & Hm2 & Hok2 & Hq2); [unfold end_, CHUNK in *; lia|]. rewrite Hm in *.
  eexists r, d2. split; [done|]. split; [by eapply confined_trans|]. split; [done|]. split.
  - intros Hr i v Hi Hv. destruct (decide (end_ <= i)%nat) as [Hge|Hin]; [by apply (Hok2 Hr)|].
    assert (writeback !! (i - offset)%nat = Some v) as E.
    { rewrite Hne, lookup_take_lt, lookup_drop by lia. by replace (offset + (i - offset))%nat with i by lia. }
    rewrite (Hw eq_refl), lookup_bytes_at in E by lia. injection E as <-. f_equal. lia.
  - intros Q Hch Hin Hd. destruct (Hq' Q Hch Hin Hd) as [_ Q1]. by apply Hq2.
Qed.
End partition.

(** * Partitions *)

(** [data] fits and is at the start of the partition, what was erased behind it is blank, and
    nothing else has changed. *)
Definition installed (p : PartitionResource) (data : list Z) (m m' : Mem) : Prop :=
  let elen := erase_length (Z.of_nat (length data)) FLASH_ERASE_SIZE in
  elen <= pr_size_bytes p ∧ bytes_at m' (part_start p) (length data) = data ∧
  (∀ x, part_start p + Z.of_nat (length data) <= x < part_start p + elen → m' x = 0xFF) ∧
  same_outside (part_start p) (part_start p + elen) m m'.

Lemma erase_length_spec len : 0 <= len → let e := erase_length len FLASH_ERASE_SIZE in len <= e < len + 4096 ∧ e mod 4096 = 0.
Proof. intros H. unfold erase_length, FLASH_ERASE_SIZE. cbv zeta. dlia. Qed.

Lemma fuel_enough n : (n - 0 <= S (n / CHUNK) * CHUNK)%nat.
Proof. unfold CHUNK. pose proof (Nat.div_mod_eq n 4096). pose proof (Nat.mod_upper_bound n 4096). lia. Qed.

Lemma flash_acquired_ok capacity_bytes p d data :
  part_fits p → bytes_ok data → Z.of_nat (length data) < 2 ^ 32 - 4096 →
  ∃ r d', flash_acquired capacity_bytes d p data = Ret (r, d') ∧ confined p (dv_storage d) (dv_storage d') ∧
    (r = Ok tt → installed p data (flash_at d) (flash_at d')) ∧
    (quiet d → part_in_chip capacity_bytes p → erase_length (Z.of_nat (length data)) FLASH_ERASE_SIZE <= pr_size_bytes p → r = Ok tt ∧ quiet d').
Proof.
  intros Hp Hd Hl. unfold flash_acquired. destruct (call_geometry_ok p d) as (g & d1 & -> & E1 & Hg & Hgq). cbn [ebind].
  pose proof (confined_refl p (dv_storage d)) as Hrefl. assert (flash_at d1 = flash_at d) as Em1 by (unfold flash_at; by rewrite E1).
  destruct g as [g|].
  2:{ eexists _, d1. rewrite E1. split; [done|]. split; [done|]. split; [done|]. intros Q _ _. by destruct (Hgq Q). }
  destruct Hg as [[= ->]|?]; [|done]. cbn [ge_erase_size geometry]. rewrite decide_False by done.
  destruct (erase_length_spec (Z.of_nat (length data))) as [He Hal]; [lia|]. set (elen := erase_length _ _) in *. rewrite wrap_small by (unfold is_u; lia).
  destruct (call_erase_ok capacity_bytes p Hp d1 0 elen) as (reply & d2 & -> & Hc2 & Hok2 & Hq2); [const_u|unfold is_u; lia|]. cbn [ebind]. rewrite E1 in Hc2.
  assert (quiet d → part_in_chip capacity_bytes p → elen <= pr_size_bytes p → reply = Some (Ok tt) ∧ quiet d2) as Hq2'.
  { intros Q Hch Hin. destruct (Hgq Q) as [_ Q1]. apply Hq2; [done|done|lia|]. unfold misaligned, FLASH_ERASE_SIZE. rewrite Hal. done. }
  destruct reply as [[[]|e]|].
  2,3: (eexists _, d2; split; [done|]; split; [done|]; split; [done|]; intros Q Hch Hin; by destruct (Hq2' Q Hch Hin)).
  destruct (Hok2 eq_refl) as (Hfit2 & O2 & F2). rewrite Z.add_0_r, Em1 in O2. rewrite Z.add_0_r in F2.
  destruct (program_loop_ok capacity_bytes p Hp (S (length data / CHUNK)) d2 data 0) as (r3 & d3 & -> & Hc3 & Hok3 & Hq3); [lia|apply fuel_enough|]. cbn [ebind].
  pose proof (confined_trans _ _ _ _ Hc2 Hc3) as Hc13. destruct r3 as [[]|e].
  2:{ eexists _, d3. split; [done|]. split; [done|]. split; [done|]. intros Q Hch Hin. destruct (Hq2' Q Hch Hin) as [_ Q2]. destruct (Hq3 Q2 Hch) as [? _]; [lia|done]. }
  destruct (Hok3 eq_refl) as [O3 F3]. rewrite Z.add_0_r in O3.
  assert (bytes_at (flash_at d3) (part_start p) (length data) = data) as Hdata.
  { apply bytes_at_eq. intros i v Hi. pose proof (lookup_lt_Some _ _ _ Hi). rewrite (F3 i v) by (done || lia). rewrite F2 by lia.
    apply land_erased. by eapply Forall_lookup_1. }
  destruct (verify_loop_ok capacity_bytes p Hp (S (length data / CHUNK)) d3 data 0) as (r4 & d4 & -> & Hc4 & Hm4 & _ & Hq4); [lia|apply fuel_enough|].
  eexists r4, d4. split; [done|]. split; [by eapply confined_trans|]. split.
  - intros _. rewrite Hm4. split_and!; [done|done| |].
    + intros x Hx. rewrite O3 by (right; fold elen in Hx; lia). apply F2. fold elen in Hx. lia.
    + fold elen. intros x Hx. rewrite O3, O2 by lia. done.
  - intros Q Hch Hin. destruct (Hq2' Q Hch Hin) as [_ Q2]. destruct (Hq3 Q2 Hch) as [_ Q3]; [lia|]. apply Hq4; [done|done|lia|done].
Qed.

Section table.
Context (capacity_bytes : Z) (PARTITIONS : list PartitionConfig) (is_partition_allowed : list Z → Z → bool) (fs_task : option Z) (proxy : Z).
Context (Hparts : partitions_ok PARTITIONS).

(** The partition with the name, as the service hands it out. *)
Definition named (name : string) (p : PartitionResource) : Prop :=
  ∃ c, storage_find_partition PARTITIONS (padded_name name) = Some (pr_index p, c) ∧
    pr_offset_bytes p = pc_offset_bytes c ∧ pr_size_bytes p = pc_size_bytes c.

(** The host may have the partition, and nobody has it. *)
Definition available (d : Device) (name : string) : Prop :=
  (length (string_bytes name) <= 16)%nat ∧
  ∃ i c, storage_find_partition PARTITIONS (padded_name name) = Some (i, c) ∧ entitled is_partition_allowed fs_task proxy c ∧
    st_acquired (dv_storage d) !! i = Some false.

Lemma named_fits name p : named name p → part_fits p ∧ (pr_index p < MAX_PARTITIONS)%nat.
Proof.
  intros (c & Hf & Eo & Es). unfold storage_find_partition in Hf. apply list_find_Some in Hf as (Hc & _ & _). destruct Hparts as (Hn & Hall & _).
  pose proof (Forall_lookup_1 _ _ _ _ Hall Hc) as (? & ? & ?). pose proof (lookup_lt_Some _ _ _ Hc). unfold part_fits. rewrite Eo, Es. split; [done|lia].
Qed.

(** A name has one partition. *)
Lemma named_unique name p q : named name p → named name q → p = q.
Proof. intros (c & Hf & E1 & E2) (c' & Hf' & E1' & E2'). rewrite Hf in Hf'. injection Hf' as Ei <-. destruct p, q. cbn in *. congruence. Qed.

Lemma acquire_cases s name :
  length (st_acquired s) = MAX_PARTITIONS →
  ∃ r s', acquire PARTITIONS is_partition_allowed fs_task s proxy (padded_name name) = Ret (r, s') ∧
    st_nor s' = st_nor s ∧ st_leases s' = st_leases s ∧ length (st_acquired s') = MAX_PARTITIONS ∧
    (∀ p, r = Ok p → named name p ∧ st_acquired s' = <[pr_index p := true]> (st_acquired s) ∧ st_acquired s !! pr_index p = Some false) ∧
    (∀ i c, storage_find_partition PARTITIONS (padded_name name) = Some (i, c) → entitled is_partition_allowed fs_task proxy c →
       st_acquired s !! i = Some false → ∃ p, r = Ok p).
Proof.
  intros Hlen. unfold acquire. destruct (storage_find_partition PARTITIONS (padded_name name)) as [[i c]|] eqn:Ef; [|by eexists _, _].
  pose proof Ef as Ef'. unfold storage_find_partition in Ef'. apply list_find_Some in Ef' as (Hc & _ & _).
  destruct Hparts as (Hn & Hall & _). pose proof (Forall_lookup_1 _ _ _ _ Hall Hc) as (? & ? & ?). pose proof (lookup_lt_Some _ _ _ Hc) as Hi.
  set (is_fs := match fs_task with Some id => _ | None => _ end).
  assert (entitled is_partition_allowed fs_task proxy c → is_managed c && negb is_fs = false ∧ negb (is_managed c) && negb (is_partition_allowed (pc_name c) proxy) = false) as Hent.
  { unfold entitled, is_fs. destruct (is_managed c); cbn; intros ->; [|done]. by rewrite bool_decide_eq_true_2. }
  destruct (is_managed c && negb is_fs) eqn:E1; [eexists _, _; split_and!; [done..|]; intros i' c' [= <- <-] He; by destruct (Hent He)|].
  destruct (negb (is_managed c) && _) eqn:E2; [eexists _, _; split_and!; [done..|]; intros i' c' [= <- <-] He; by destruct (Hent He)|].
  destruct (lookup_lt_is_Some_2 (st_acquired s) i) as [taken Ht]; [lia|]. unfold idx. rewrite Ht. cbn [ebind].
  destruct taken; [eexists _, _; split_and!; [done..|]; intros i' c' [= <- <-] _; congruence|].
  eexists _, _. split; [done|]. split_and!; [done|done|cbn; by rewrite length_insert| |by eauto].
  intros p [= <-]. cbn. split; [|done]. exists c. cbn. rewrite !wrap_small by (unfold is_u; lia). done.
Qed.

Lemma acquire_handle_ok d name :
  device_ok d → ∃ h d', acquire_handle PARTITIONS is_partition_allowed fs_task proxy d name = Ret (h, d') ∧ device_ok d' ∧ flash_at d' = flash_at d ∧
    (∀ p, h = Some p → named name p ∧ st_acquired (dv_storage d') = <[pr_index p := true]> (st_acquired (dv_storage d)) ∧
       st_acquired (dv_storage d) !! pr_index p = Some false) ∧
    (quiet d → quiet d' ∧ (available d name → ∃ p, h = Some p)).
Proof.
  intros Hd. unfold acquire_handle. destruct (acquire_cases (dv_storage d) name Hd) as (r & s' & E & En & El & Hlen & Hok & Hav).
  destruct (ipc_call_cases d (λ s, acquire PARTITIONS is_partition_allowed fs_task s proxy (padded_name name)) _ _ E) as (reply & d' & -> & Hr & Hs & Hq). cbn [ebind].
  assert (device_ok d' ∧ flash_at d' = flash_at d) as [Hd' Hm].
  { unfold device_ok, flash_at, flash_of. destruct Hs as [->|[-> _]]; [|done]. by rewrite En. }
  assert (quiet d → reply = Some r ∧ quiet d') as Hq'.
  { intros [Q1 [Q2 Q3]]. destruct (Hq Q1) as [-> Q4]. split; [done|]. split; [done|]. destruct Hs as [->|[_ ?]]; [|done]. split; congruence. }
  destruct Hr as [->| ->].
  - destruct Hs as [Es|[_ ?]]; [|done]. destruct r as [p|e].
    + eexists _, d'. split; [done|]. split; [done|]. split; [done|]. split; [|intros Q; split; [by apply Hq'|by eexists]].
      intros q [= <-]. rewrite Es. by apply Hok.
    + eexists _, d'. split; [done|]. split; [done|]. split; [done|]. split; [done|]. intros Q. split; [by apply Hq'|].
      intros (_ & i & c & Hf & He & Ha). by destruct (Hav i c Hf He Ha).
  - eexists _, d'. split; [done|]. split; [done|]. split; [done|]. split; [done|]. intros Q. by destruct (Hq' Q).
Qed.

Lemma drop_handle_ok d p :
  device_ok d → (pr_index p < MAX_PARTITIONS)%nat → ∃ d', drop_handle d p = Ret d' ∧ device_ok d' ∧ flash_at d' = flash_at d ∧
    (quiet d → quiet d' ∧ st_acquired (dv_storage d') = <[pr_index p := false]> (st_acquired (dv_storage d))).
Proof.
  intros Hd Hi. unfold drop_handle, device_ok in *.
  destruct (ipc_call_cases d (λ s, let! s := release s p in Ret (tt, s)) tt
    (mkStorage (st_nor (dv_storage d)) (<[pr_index p := false]> (st_acquired (dv_storage d))) (st_leases (dv_storage d)))) as (reply & d' & -> & _ & Hs & Hq).
  { unfold release. rewrite set_idx_ok by lia. done. }
  cbn [ebind]. exists d'. split; [done|]. split; [destruct Hs as [->|[-> _]]; cbn; rewrite ?length_insert; done|].
  split; [unfold flash_at; destruct Hs as [->|[-> _]]; done|]. intros [Q1 Q2]. destruct (Hq Q1) as [-> Q3]. destruct Hs as [Es|[_ ?]]; [|done].
  split; [split; [done|rewrite Es; done]|by rewrite Es].
Qed.

(** What is behind the claim below: the partition is taken, written and given back. *)
Lemma flash_partition_ok d name data :
  device_ok d → bytes_ok data → Z.of_nat (length data) < 2 ^ 32 - 4096 →
  ∃ r d', flash_partition capacity_bytes PARTITIONS is_partition_allowed fs_task proxy d name data = Ret (r, d') ∧ device_ok d' ∧
    (flash_at d' = flash_at d ∨ ∃ p, named name p ∧ same_outside (part_start p) (part_end p) (flash_at d) (flash_at d')) ∧
    (r = Ok tt → ∃ p, named name p ∧ installed p data (flash_at d) (flash_at d')) ∧
    (quiet d → available d name → (∀ p, named name p → part_in_chip capacity_bytes p ∧ erase_length (Z.of_nat (length data)) FLASH_ERASE_SIZE <= pr_size_bytes p) →
       r = Ok tt ∧ quiet d' ∧ st_acquired (dv_storage d') = st_acquired (dv_storage d)).
Proof.
  intros Hd Hb Hl. unfold flash_partition. case_decide as Hn.
  { eexists _, d. split; [done|]. split; [done|]. split; [by left|]. split; [done|]. intros _ [? _]. lia. }
  destruct (acquire_handle_ok d name Hd) as (h & d1 & -> & Hd1 & Hm1 & Hh & Hq1). cbn [ebind]. destruct h as [p|].
  2:{ eexists _, d1. split; [done|]. split; [done|]. split; [by left|]. split; [done|]. intros Q Hav _. destruct (Hq1 Q) as [_ Ha]. by destruct (Ha Hav). }
  destruct (Hh p eq_refl) as (Hnamed & Ea1 & Efree). destruct (named_fits name p Hnamed) as [Hfit Hi].
  destruct (flash_acquired_ok capacity_bytes p d1 data Hfit Hb Hl) as (r & d2 & -> & [Hc2 Ha2] & Hok2 & Hq2). cbn [ebind].
  assert (device_ok d2) as Hd2 by (unfold device_ok in *; congruence).
  destruct (drop_handle_ok d2 p Hd2 Hi) as (d3 & -> & Hd3 & Hm3 & Hq3). cbn [ebind]. fold (flash_at d1) (flash_at d2) in Hc2. rewrite Hm1 in *.
  eexists r, d3. rewrite Hm3. split; [done|]. split; [done|]. split; [right; by eexists|]. split; [intros Hr; exists p; split; [done|by apply Hok2]|].
  intros Q Hav Hch. destruct (Hq1 Q) as [Q1 _]. destruct (Hch p Hnamed) as [Hc He]. destruct (Hq2 Q1 Hc He) as [Hr Q2]. destruct (Hq3 Q2) as [Q3 Ea3].
  split_and!; [done|done|]. rewrite Ea3, Ha2, Ea1. rewrite list_insert_insert_eq. by apply list_insert_id.
Qed.
End table.

(** * Reading *)

Lemma bytes_at_bytes m a n : mem_ok m → bytes_ok (bytes_at m a n).
Proof. intros H. unfold bytes_ok, bytes_at. apply Forall_fmap, list.Forall_forall. intros i _. apply H. Qed.

Lemma splice_bytes buf offset src : bytes_ok buf → bytes_ok src → bytes_ok (splice buf offset src).
Proof. intros H1 H2. unfold splice. rewrite !bytes_ok_app. split_and!; [by apply bytes_ok_take|done|by apply bytes_ok_drop]. Qed.

Lemma read_chunks_bytes capacity_bytes fuel s address buf offset r s' buf' :
  mem_ok (flash_of s) → bytes_ok buf → read_chunks capacity_bytes fuel s address buf offset = (r, s', buf') →
  flash_of s' = flash_of s ∧ bytes_ok buf'.
Proof.
  revert s buf offset. induction fuel as [|fuel IH]; intros s buf offset Hm Hb; cbn [read_chunks]; [intros [= <- <- <-]; done|].
  case_decide; [|intros [= <- <- <-]; done]. destruct (mpi_read _ _ _ _) as [r1 n1] eqn:Er. apply mpi_read_ok in Er as [Em Eb].
  destruct r1 as [tmp|e|]; [|intros [= <- <- <-]; unfold flash_of; cbn; by rewrite Em..].
  specialize (Eb tmp eq_refl). destruct (lease_access _) as [ok s1] eqn:El. apply lease_access_nor in El as [En _]. cbn in En.
  assert (flash_of s1 = flash_of s) as Es1 by (unfold flash_of; congruence). destruct ok; [|intros [= <- <- <-]; done].
  intros H2. apply IH in H2 as [E2 B2]; [by rewrite E2|by rewrite Es1|]. apply splice_bytes; [done|]. rewrite Eb. by apply bytes_at_bytes.
Qed.

Lemma read_attempts_bytes capacity_bytes attempts s address buf r s' buf' :
  mem_ok (flash_of s) → bytes_ok buf → read_attempts capacity_bytes attempts s address buf = (r, s', buf') → bytes_ok buf'.
Proof.
  revert s buf. induction attempts as [|attempts IH]; intros s buf Hm Hb; cbn [read_attempts]; [by intros [= _ _ <-]|].
  destruct (read_chunks _ _ _ _ _ _) as [[r1 s1] b1] eqn:E1. apply read_chunks_bytes in E1 as [Es B1]; [|done|done].
  destruct r1 as [| |e]; [by intros [= _ _ <-]| |by intros [= _ _ <-]]. intros H2. apply IH in H2; [done|by rewrite Es|done].
Qed.

Lemma part_read_bytes capacity_bytes s p offset buf r s' buf' :
  mem_ok (flash_of s) → bytes_ok buf → part_read capacity_bytes s p offset buf = (r, s', buf') → bytes_ok buf'.
Proof. intros Hm Hb. unfold part_read. destruct (beyond _ _ _); [by intros [= _ _ <-]|]. by apply read_attempts_bytes. Qed.

Lemma call_read_bytes capacity_bytes d p offset len reply d' :
  mem_ok (flash_at d) → call_read capacity_bytes d p offset len = Ret (reply, d') → ∀ r buf, reply = Some (r, buf) → bytes_ok buf.
Proof.
  intros Hm E r buf ->. unfold call_read in E.
  destruct (part_read capacity_bytes (dv_storage d) p offset (replicate len 0)) as [[r1 s1] b1] eqn:E1.
  destruct (ipc_call_cases d (λ s, let '(r, s, buf) := part_read capacity_bytes s p offset (replicate len 0) in Ret ((r, buf), s)) (r1, b1) s1)
    as (reply2 & d2 & E2 & Hr & _ & _); [by rewrite E1|].
  rewrite E in E2. injection E2 as <- <-. destruct Hr as [[= -> ->]|?]; [|done].
  apply part_read_bytes in E1; [done|done|]. apply Forall_replicate. const_u.
Qed.

Section reading.
Context (capacity_bytes : Z) (p : PartitionResource) (Hp : part_fits p).

Lemma read_loop_ok fuel d size offset data :
  Z.of_nat size = pr_size_bytes p → (offset <= size)%nat → (size - offset <= fuel * CHUNK)%nat →
  ∃ r d', read_loop capacity_bytes fuel d p size offset data = Ret (r, d') ∧ confined p (dv_storage d) (dv_storage d') ∧ flash_at d' = flash_at d ∧
    (mem_ok (flash_at d) → bytes_ok data → ∀ l, r = Some l → bytes_ok l) ∧
    (quiet d → part_in_chip capacity_bytes p → data = bytes_at (flash_at d) (part_start p) offset →
       r = Some (bytes_at (flash_at d) (part_start p) size) ∧ quiet d').
Proof.
  intros Hsize. pose proof Hp as (P1 & P2 & P3). revert d offset data. induction fuel as [|fuel IH]; intros d offset data Ho Hf; cbn [read_loop].
  { eexists _, d. split; [done|]. split; [apply confined_refl|]. split; [done|]. split; [by intros _ H l [= <-]|]. intros Q _ ->. by replace size with offset by lia. }
  case_decide as Hlt.
  2:{ eexists _, d. split; [done|]. split; [apply confined_refl|]. split; [done|]. split; [by intros _ H l [= <-]|]. intros Q _ ->. by replace size with offset by lia. }
  set (end_ := Nat.min (offset + CHUNK) size). assert (offset < end_ <= size)%nat as He by (unfold end_, CHUNK; lia). rewrite wrap_small by (unfold is_u; lia).
  destruct (call_read_ok capacity_bytes p Hp d (Z.of_nat offset) (end_ - offset)) as (reply & d1 & Ec & Hc & Hm & Hok & Hq); [unfold is_u; lia|lia|].
  pose proof (call_read_bytes capacity_bytes d p (Z.of_nat offset) (end_ - offset) reply d1) as Hby. rewrite Ec in *. cbn [ebind].
  destruct reply as [[r wb]|].
  2:{ eexists _, d1. split; [done|]. split; [done|]. split; [done|]. split; [done|]. intros Q Hch _. destruct (Hq Q Hch) as [? _]; [lia|done]. }
  destruct (IH d1 end_ (data ++ wb)) as (r2 & d2 & -> & Hc2 & Hm2 & Hb2 & Hq2); [lia|unfold end_, CHUNK in *; lia|]. rewrite Hm in *.
  eexists r2, d2. split; [done|]. split; [by eapply confined_trans|]. split; [done|]. split.
  - intros Hmb Hd. apply Hb2; [done|]. apply bytes_ok_app. split; [done|]. exact (Hby Hmb eq_refl r wb eq_refl).
  - intros Q Hch ->. destruct (Hq Q Hch) as [[= -> ->] Q1]; [lia|]. apply Hq2; [done|done|]. apply list_eq. intros i.
    destruct (decide (i < offset)%nat) as [Hi|Hi].
    + rewrite lookup_app_l by (rewrite length_bytes_at; lia). by rewrite !lookup_bytes_at by lia.
    + rewrite lookup_app_r by (rewrite length_bytes_at; lia). rewrite length_bytes_at. destruct (decide (i < end_)%nat) as [Hj|Hj].
      * rewrite !lookup_bytes_at by lia. do 2 f_equal. lia.
      * rewrite !lookup_ge_None_2; [done| |]; rewrite length_bytes_at; lia.
Qed.

Lemma read_acquired_ok d :
  ∃ r d', read_acquired capacity_bytes d p = Ret (r, d') ∧ confined p (dv_storage d) (dv_storage d') ∧ flash_at d' = flash_at d ∧
    (mem_ok (flash_at d) → ∀ l, r = Some l → bytes_ok l) ∧
    (quiet d → part_in_chip capacity_bytes p → 0 < pr_size_bytes p →
       r = Some (bytes_at (flash_at d) (part_start p) (Z.to_nat (pr_size_bytes p))) ∧ quiet d').
Proof.
  unfold read_acquired. destruct (call_geometry_ok p d) as (g & d1 & -> & E1 & Hg & Hgq). cbn [ebind]. pose proof Hp as (P1 & P2 & P3).
  assert (flash_at d1 = flash_at d) as Em1 by (unfold flash_at; by rewrite E1). pose proof (confined_refl p (dv_storage d)) as Hrefl.
  destruct g as [g|].
  2:{ eexists _, d1. rewrite E1. split; [done|]. split; [done|]. split; [done|]. split; [done|]. intros Q _ _. by destruct (Hgq Q). }
  destruct Hg as [[= ->]|?]; [|done]. cbn [ge_total_size geometry]. case_decide as H0.
  { eexists _, d1. rewrite E1. split; [done|]. split; [done|]. split; [done|]. split; [done|]. lia. }
  destruct (read_loop_ok (S (Z.to_nat (pr_size_bytes p) / CHUNK)) d1 (Z.to_nat (pr_size_bytes p)) 0 []) as (r & d2 & -> & Hc & Hm & Hb & Hq); [lia|lia|apply fuel_enough|].
  rewrite Em1, E1 in *. eexists r, d2. split; [done|]. split; [done|]. split; [done|]. split; [intros H; apply Hb; [done|constructor]|].
  intros Q Hch _. destruct (Hgq Q) as [_ Q1]. by apply Hq.
Qed.
End reading.

Section reading_table.
Context (capacity_bytes : Z) (PARTITIONS : list PartitionConfig) (is_partition_allowed : list Z → Z → bool) (fs_task : option Z) (proxy : Z).
Context (Hparts : partitions_ok PARTITIONS).

Lemma read_partition_ok d name :
  device_ok d → ∃ r d', read_partition capacity_bytes PARTITIONS is_partition_allowed fs_task proxy d name = Ret (r, d') ∧ device_ok d' ∧ flash_at d' = flash_at d ∧
    (mem_ok (flash_at d) → ∀ l, r = Some l → bytes_ok l) ∧
    (quiet d → available PARTITIONS is_partition_allowed fs_task proxy d name → (∀ p, named PARTITIONS name p → part_in_chip capacity_bytes p ∧ 0 < pr_size_bytes p) →
       (∀ p, named PARTITIONS name p → r = Some (bytes_at (flash_at d) (part_start p) (Z.to_nat (pr_size_bytes p)))) ∧ quiet d' ∧
       st_acquired (dv_storage d') = st_acquired (dv_storage d)).
Proof.
  intros Hd. unfold read_partition. case_decide as Hn.
  { eexists _, d. split; [done|]. split; [done|]. split; [done|]. split; [done|]. intros _ [? _]. lia. }
  destruct (acquire_handle_ok PARTITIONS is_partition_allowed fs_task proxy Hparts d name Hd) as (h & d1 & -> & Hd1 & Hm1 & Hh & Hq1). cbn [ebind]. destruct h as [p|].
  2:{ eexists _, d1. split; [done|]. split; [done|]. split; [done|]. split; [done|]. intros Q Hav _. destruct (Hq1 Q) as [_ Ha]. by destruct (Ha Hav). }
  destruct (Hh p eq_refl) as (Hnamed & Ea1 & Efree). destruct (named_fits PARTITIONS Hparts name p Hnamed) as [Hfit Hi].
  destruct (read_acquired_ok capacity_bytes p Hfit d1) as (r & d2 & -> & [Hc2 Ha2] & Hm2 & Hb2 & Hq2). cbn [ebind].
  assert (device_ok d2) as Hd2 by (unfold device_ok in *; congruence).
  destruct (drop_handle_ok d2 p Hd2 Hi) as (d3 & -> & Hd3 & Hm3 & Hq3). cbn [ebind]. rewrite Hm1 in *.
  eexists r, d3. split; [done|]. split; [done|]. split; [congruence|]. split; [done|].
  intros Q Hav Hch. destruct (Hq1 Q) as [Q1 _]. destruct (Hch p Hnamed) as [Hc Hsz]. destruct (Hq2 Q1 Hc Hsz) as [Hr Q2]. destruct (Hq3 Q2) as [Q3 Ea3].
  split_and!; [intros q Hnq; by rewrite (named_unique _ _ _ _ Hnq Hnamed)|done|]. rewrite Ea3, Ha2, Ea1. rewrite list_insert_insert_eq. by apply list_insert_id.
Qed.
End reading_table.
