(* ===== verification/FlashRun.v ===== *)
(** Flashing an archive ([run_flash]): what has been flashed completely is what the
    bootloader starts; and the slot that is written is always the first one. *)

From S2P Require Import Prelude BTree Layout Memfns Places PlacesBuild PlacesProps.
From S2P Require Import Ftab Boot BootProps Link Nor Storage StorageProps StorageTable Flash FlashProps.

Open Scope Z_scope.

(** * Choosing the slot *)

Lemma parse_ok_safe data :
  (∀ l, data = Some l → bytes_ok l) → ∃ o, parse_ok data = Ret o ∧ ∀ img, o = Some img → ∃ st, firmware_state img = Ret st.
Proof.
  intros H. unfold parse_ok. destruct data as [l|]; [|by eexists]. destruct (parse_safe 64 l sums_fit_64 (H l eq_refl)) as (r & -> & Hr). cbn [ebind].
  destruct r as [img|e]; eexists; (split; [done|]); [|done]. intros img' [= <-]. destruct (Hr img eq_refl) as [Hwf _]. by apply firmware_state_safe.
Qed.

Lemma choose_target_cases a b places_a places_b :
  (∀ img, a = Some img → ∃ st, firmware_state img = Ret st) → (∀ img, b = Some img → ∃ st, firmware_state img = Ret st) →
  ∃ t, choose_target a b places_a places_b = Ret t ∧ (t = (firmware_a, places_a) ∨ ∃ data, places_b = Some data ∧ t = (firmware_b, data)).
Proof.
  intros Ha Hb. unfold choose_target. set (write_b := match places_b with Some data => _ | None => _ end).
  assert (write_b = (firmware_a, places_a) ∨ ∃ data, places_b = Some data ∧ write_b = (firmware_b, data)) as Hw by (unfold write_b; destruct places_b; eauto).
  destruct a as [a|]; [|by eauto]. destruct b as [b|]; [|by eauto].
  destruct (Ha a eq_refl) as [sa Ea], (Hb b eq_refl) as [sb Eb]. unfold select_firmware. rewrite Ea. cbn [ebind]. rewrite Eb. cbn [ebind].
  destruct (is_bootable sa), (is_bootable sb); cbn [ebind]; [|by eauto..].
  destruct (cmp_version _ _); cbn [ebind]; [|by eauto..]. destruct (_ ?= _); cbn [ebind]; by eauto.
Qed.

(** The last four bytes of the partition are erased. *)
Definition blank_end (p : PartitionResource) (m : Mem) : Prop := ∀ x, part_end p - 4 <= x < part_end p → m x = 0xFF.

(** The image parser looks for the footer at the end of the partition. *)
Lemma blank_not_parsed p m :
  24 <= pr_size_bytes p → blank_end p m → parse_ok (Some (bytes_at m (part_start p) (Z.to_nat (pr_size_bytes p)))) = Ret None.
Proof.
  intros Hs Hb. unfold parse_ok, parse. rewrite length_bytes_at, Z2Nat.id by lia. rewrite decide_False by (unfold FOOTER_V1_SIZE; lia).
  assert (read_u32 (bytes_at m (part_start p) (Z.to_nat (pr_size_bytes p))) (pr_size_bytes p - 4) = Ret 0xFFFFFFFF) as ->; [|done].
  set (l := bytes_at _ _ _). assert (length l = Z.to_nat (pr_size_bytes p)) as Hl by apply length_bytes_at.
  assert (l = take (Z.to_nat (pr_size_bytes p - 4)) l ++ [0xFF; 0xFF; 0xFF; 0xFF]) as E.
  { rewrite <- (take_drop (Z.to_nat (pr_size_bytes p - 4)) l) at 1. f_equal. apply list_eq. intros i. rewrite lookup_drop. destruct (decide (i < 4)%nat) as [Hi|Hi].
    - unfold l. rewrite lookup_bytes_at by lia. rewrite Hb by (unfold part_start, part_end; lia). by destruct i as [|[|[|[|?]]]]; [..|lia].
    - rewrite !lookup_ge_None_2; [done|cbn; lia|lia]. }
  unfold read_u32, read_le, get_range. rewrite E. set (w := take _ l). assert (length w = Z.to_nat (pr_size_bytes p - 4)) as Hw by (unfold w; rewrite length_take; lia).
  rewrite length_app, Hw. cbn [length]. rewrite decide_True by lia. cbn [ebind].
  rewrite drop_app_length' by done. by replace (Z.to_nat (pr_size_bytes p - 4 + 4 - (pr_size_bytes p - 4))) with 4%nat by lia.
Qed.

(** ** The flash table *)

Lemma concat_bytes {A} (f : A → list Z) l : Forall (λ x, bytes_ok (f x)) l → bytes_ok (concat (f <$> l)).
Proof. induction 1 as [|x l Hx _ IH]; cbn; [constructor|]. by apply bytes_ok_app. Qed.

Lemma erased_bytes n : bytes_ok (erased n).
Proof. apply Forall_replicate. const_u. Qed.

Lemma Ret_inj {A} (a b : A) : Ret a = Ret b → a = b.
Proof. by intros [= ->]. Qed.

Lemma build_ftab_bytes ftab_base src dest size images l :
  build_ftab ftab_base src dest size images = Ret l → bytes_ok l ∧ length l = Z.to_nat FTAB_SIZE.
Proof.
  rewrite build_ftab_ok. pose proof (length_sec_bytes ftab_base src dest size images) as Hl.
  set (sec := fill_sec ftab_base src dest size images) in *. intros <-%Ret_inj. split.
  - apply bytes_ok_app. split; [|apply Forall_replicate; const_u].
    assert (∀ ft, bytes_ok (ft_bytes ft)) as Hft by (intros ft; unfold ft_bytes; rewrite !bytes_ok_app; split_and!; apply le_bytes_ok).
    unfold sec_bytes. rewrite !bytes_ok_app. split_and!.
    + apply le_bytes_ok.
    + apply concat_bytes, list.Forall_forall. by intros.
    + apply erased_bytes.
    + apply erased_bytes.
    + apply concat_bytes. change (sc_imgs sec) with (alter (λ img, mkImg size 0 0 (ih_key img) (ih_sig img) (ih_ver img) (ih_reserved img)) DFU_FLASH_IMG_IDX_BL (replicate IMG_COUNT erased_img)).
      assert (∀ len a b, bytes_ok (img_bytes (mkImg len a b (ih_key erased_img) (ih_sig erased_img) (ih_ver erased_img) (ih_reserved erased_img)))) as Hi.
      { intros. unfold img_bytes. rewrite !bytes_ok_app. split_and!; (apply le_bytes_ok || apply erased_bytes). }
      apply list.Forall_forall. intros x Hx. apply list_elem_of_lookup in Hx as [k Hk]. destruct (decide (k = DFU_FLASH_IMG_IDX_BL)) as [->|Hne].
      * rewrite list_lookup_alter_eq in Hk. cbn in Hk. injection Hk as <-. apply Hi.
      * rewrite list_lookup_alter_ne in Hk by done. apply lookup_replicate_1 in Hk as [-> _]. apply Hi.
    + apply concat_bytes, list.Forall_forall. intros. apply le_bytes_ok.
  - rewrite length_app, length_replicate. unfold FTAB_SIZE. lia.
Qed.

Section device.
Context (capacity_bytes : Z) (PARTITIONS : list PartitionConfig) (is_partition_allowed : list Z → Z → bool) (fs_task : option Z) (proxy : Z).
Context (Hparts : partitions_ok PARTITIONS).

(** The host can use the partition: nobody has it, and it is whole blocks of the chip. *)
Definition usable (d : Device) (name : string) : Prop :=
  available PARTITIONS is_partition_allowed fs_task proxy d name ∧
  ∀ p, named PARTITIONS name p → part_in_chip capacity_bytes p ∧ 24 <= pr_size_bytes p ∧ pr_size_bytes p mod FLASH_ERASE_SIZE = 0.

Lemma usable_same d d' name : st_acquired (dv_storage d') = st_acquired (dv_storage d) → usable d name → usable d' name.
Proof. intros E [[Hl (i & c & Hf & He & Ha)] Hc]. split; [|done]. split; [done|]. exists i, c. by rewrite E. Qed.

Lemma select_target_ok d places_a places_b :
  device_ok d → mem_ok (flash_at d) →
  ∃ name data d', select_target capacity_bytes PARTITIONS is_partition_allowed fs_task proxy d places_a places_b = Ret (name, data, d') ∧
    device_ok d' ∧ flash_at d' = flash_at d ∧
    ((name, data) = (firmware_a, places_a) ∨ places_b = Some data ∧ name = firmware_b) ∧
    (quiet d → usable d firmware_a → usable d firmware_b →
       quiet d' ∧ st_acquired (dv_storage d') = st_acquired (dv_storage d) ∧
       (∀ p, named PARTITIONS firmware_a p → blank_end p (flash_at d) → (name, data) = (firmware_a, places_a))).
Proof.
  intros Hd Hm. unfold select_target.
  destruct (read_partition_ok capacity_bytes PARTITIONS is_partition_allowed fs_task proxy Hparts d firmware_a Hd) as (ra & d1 & -> & Hd1 & Hm1 & Hb1 & Hq1). cbn [ebind].
  destruct (read_partition_ok capacity_bytes PARTITIONS is_partition_allowed fs_task proxy Hparts d1 firmware_b Hd1) as (rb & d2 & -> & Hd2 & Hm2 & Hb2 & Hq2). cbn [ebind].
  rewrite Hm1 in *. destruct (parse_ok_safe ra (Hb1 Hm)) as (oa & Ea & Ha). destruct (parse_ok_safe rb (Hb2 Hm)) as (ob & Eb & Hb). rewrite Ea. cbn [ebind]. rewrite Eb. cbn [ebind].
  destruct (choose_target_cases oa ob places_a places_b Ha Hb) as ([name data] & Ec & Ht). rewrite Ec. cbn [ebind].
  eexists name, data, d2. split; [done|]. split; [done|]. split; [done|].
  split; [destruct Ht as [?|(x & ? & [= -> ->])]; [by left|by right]|].
  intros Q Ua Ub. destruct (Hq1 Q (proj1 Ua)) as (Hra & Q1 & A1).
  { intros p Hp. destruct (proj2 Ua p Hp) as (? & ? & _). split; [done|lia]. }
  destruct (Hq2 Q1 (proj1 (usable_same d d1 _ A1 Ub))) as (_ & Q2 & A2).
  { intros p Hp. destruct (proj2 Ub p Hp) as (? & ? & _). split; [done|lia]. }
  split; [done|]. split; [congruence|]. intros p Hp Hblank. destruct (proj2 Ua p Hp) as (_ & Hs & _).
  rewrite (Hra p Hp), blank_not_parsed in Ea by done. injection Ea as <-. cbn in Ec. congruence.
Qed.

Lemma flash_table_ok fi target places_a places_b :
  fi_images fi ≠ [] → Forall (λ img, im_flash_addr img + fi_bootloader_file_offset fi < 2 ^ 32) (fi_images fi) →
  ∃ src l, flash_table fi target places_a places_b = Ret l ∧
    build_ftab (fi_ftab_base fi) src (fi_bootloader_sram_dest fi) (fi_bootloader_size fi) (ftab_entries (fi_images fi) places_a places_b) = Ret l.
Proof.
  intros Hne Hall. unfold flash_table.
  assert (∃ addr, match list_find (is_target target) (fi_images fi) with Some (_, img) => Ret (im_flash_addr img)
    | None => let! img := idx (fi_images fi) 0 in Ret (im_flash_addr img) end = Ret addr ∧ addr + fi_bootloader_file_offset fi < 2 ^ 32) as (addr & -> & Ha).
  { destruct (list_find _ _) as [[i img]|] eqn:Ef.
    - apply list_find_Some in Ef as (Hi & _ & _). eexists. split; [done|]. exact (Forall_lookup_1 _ _ _ _ Hall Hi).
    - destruct (fi_images fi) as [|img images]; [done|]. eexists. split; [done|]. by apply Forall_cons_1 in Hall as [? _]. }
  cbn [ebind]. unfold add32. rewrite decide_True by done. cbn [ebind]. eexists _, _. split; apply build_ftab_ok.
Qed.

(** Partitions with different names are apart. *)
Lemma named_apart name name' p p' x :
  named PARTITIONS name p → named PARTITIONS name' p' → until_zero (padded_name name) ≠ until_zero (padded_name name') →
  part_start p <= x < part_end p → x < part_start p' ∨ part_end p' <= x.
Proof.
  intros (c & Hf & Eo & Es) (c' & Hf' & Eo' & Es') Hne Hx. unfold storage_find_partition in *. apply list_find_Some in Hf as (Hc & Hn & _), Hf' as (Hc' & Hn' & _).
  destruct Hparts as (_ & _ & Hapart). unfold part_start, part_end in *. rewrite Eo, Es in Hx. rewrite Eo', Es'.
  destruct (Hapart _ _ _ _ Hc Hc') as [?|?]; [|lia|lia]. intros E. rewrite E in Hc. congruence.
Qed.

Lemma installed_mem_ok p data m m' : bytes_ok data → mem_ok m → installed p data m m' → mem_ok m'.
Proof.
  intros Hd Hm (_ & Hb & He & Ho) x. destruct (erase_length_spec (Z.of_nat (length data))) as [Hl _]; [lia|]. set (elen := erase_length _ _) in *.
  destruct (Z_lt_le_dec x (part_start p)); [rewrite Ho by lia; apply Hm|].
  destruct (Z_lt_le_dec x (part_start p + Z.of_nat (length data))).
  - assert (data !! Z.to_nat (x - part_start p) = Some (m' x)) as E.
    { rewrite <- Hb. rewrite lookup_bytes_at by lia. do 2 f_equal. lia. }
    by eapply Forall_lookup_1.
  - destruct (Z_lt_le_dec x (part_start p + elen)); [rewrite He by lia; const_u|rewrite Ho by lia; apply Hm].
Qed.

(** * An archive *)

Definition info_of (read_entry : string → option (list Z)) (parse_info : list Z → option FlashInfo) : option FlashInfo :=
  match read_entry "flash-info.json" with Some b => parse_info b | None => None end.

(** The bytes of an image, of which there are less than 4 GiB. *)
Definition content_ok (data : list Z) : Prop := bytes_ok data ∧ Z.of_nat (length data) < 2 ^ 32 - 4096.

(** The archive has an image, and its information names images. *)
Definition archive_ok (read_entry : string → option (list Z)) (parse_info : list Z → option FlashInfo) (places_a : list Z) : Prop :=
  read_entry "places.bin" = Some places_a ∧ content_ok places_a ∧
  (∀ data, second_image read_entry (info_of read_entry parse_info) = Some data → content_ok data) ∧
  (∀ fi, info_of read_entry parse_info = Some fi →
     fi_images fi ≠ [] ∧ Forall (λ img, im_flash_addr img + fi_bootloader_file_offset fi < 2 ^ 32) (fi_images fi)).

Definition fits_in (name : string) (len : Z) : Prop := ∀ p, named PARTITIONS name p → len <= pr_size_bytes p.

Lemma fits_erase d name len :
  usable d name → 0 <= len → fits_in name len → ∀ p, named PARTITIONS name p → part_in_chip capacity_bytes p ∧ erase_length len FLASH_ERASE_SIZE <= pr_size_bytes p.
Proof.
  intros [_ Hu] H0 Hf p Hp. destruct (Hu p Hp) as (? & ? & Hm). split; [done|]. specialize (Hf p Hp).
  unfold erase_length, FLASH_ERASE_SIZE in *. dlia.
Qed.

(** The memory after a partition was to be flashed. *)
Definition touched (name : string) (m m' : Mem) : Prop :=
  m' = m ∨ ∃ p, named PARTITIONS name p ∧ same_outside (part_start p) (part_end p) m m'.

Definition holds (name : string) (data : list Z) (m m' : Mem) : Prop := ∃ p, named PARTITIONS name p ∧ installed p data m m'.

Lemma flash_step d name data :
  device_ok d → content_ok data → ∃ r d', flash_partition capacity_bytes PARTITIONS is_partition_allowed fs_task proxy d name data = Ret (r, d') ∧ device_ok d' ∧ touched name (flash_at d) (flash_at d') ∧
    (r = Ok tt → holds name data (flash_at d) (flash_at d')) ∧
    (quiet d → usable d name → fits_in name (Z.of_nat (length data)) → r = Ok tt ∧ quiet d' ∧ st_acquired (dv_storage d') = st_acquired (dv_storage d)).
Proof.
  intros Hd [Hb Hl]. destruct (flash_partition_ok capacity_bytes PARTITIONS is_partition_allowed fs_task proxy Hparts d name data Hd Hb Hl)
    as (r & d' & E & Hd' & Ht & Hok & Hq).
  exists r, d'. split_and!; [exact E|exact Hd'|exact Ht|exact Hok|]. intros Q Hu Hf. apply Hq; [done|apply Hu|]. apply (fits_erase d name); [done|lia|done].
Qed.

Lemma run_flash_ok read_entry parse_info places_a d :
  device_ok d → mem_ok (flash_at d) → archive_ok read_entry parse_info places_a →
  ∃ out d' name data m1, run_flash capacity_bytes PARTITIONS is_partition_allowed fs_task proxy read_entry parse_info d = Ret (out, d') ∧ device_ok d' ∧
    ((name, data) = (firmware_a, places_a) ∨ second_image read_entry (info_of read_entry parse_info) = Some data ∧ name = firmware_b) ∧
    touched name (flash_at d) m1 ∧ touched "boot" m1 (flash_at d') ∧
    (out = FlashComplete → holds name data (flash_at d) m1 ∧
       match info_of read_entry parse_info with
       | None => flash_at d' = m1
       | Some fi => ∃ src l, build_ftab (fi_ftab_base fi) src (fi_bootloader_sram_dest fi) (fi_bootloader_size fi)
           (ftab_entries (fi_images fi) places_a (second_image read_entry (Some fi))) = Ret l ∧ holds "boot" l m1 (flash_at d')
       end) ∧
    (quiet d → usable d firmware_a → usable d firmware_b → usable d "boot" → fits_in "boot" FTAB_SIZE → fits_in name (Z.of_nat (length data)) →
       out = FlashComplete ∧ quiet d' ∧ st_acquired (dv_storage d') = st_acquired (dv_storage d)) ∧
    (quiet d → usable d firmware_a → usable d firmware_b →
       ∀ p, named PARTITIONS firmware_a p → blank_end p (flash_at d) → (name, data) = (firmware_a, places_a)).
Proof.
  intros Hd Hm (Ea & Hca & Hcb & Hinfo). unfold run_flash. rewrite Ea. fold (info_of read_entry parse_info). set (places_b := second_image _ _) in *.
  destruct (select_target_ok d places_a places_b Hd Hm) as (name & data & d1 & -> & Hd1 & Hm1 & Ht & Hq1). cbn [ebind].
  assert (content_ok data) as Hcd by (destruct Ht as [[= _ ->]|[? _]]; auto).
  destruct (flash_step d1 name data Hd1 Hcd) as (r & d2 & -> & Hd2 & Ht2 & Hok2 & Hq2). cbn [ebind]. rewrite Hm1 in *.
  assert (quiet d → usable d firmware_a → usable d firmware_b → ∀ p, named PARTITIONS firmware_a p → blank_end p (flash_at d) → (name, data) = (firmware_a, places_a)) as Hblank.
  { intros Q Ua Ub. by apply Hq1. }
  assert (quiet d → usable d firmware_a → usable d firmware_b → fits_in name (Z.of_nat (length data)) →
    r = Ok tt ∧ quiet d2 ∧ st_acquired (dv_storage d2) = st_acquired (dv_storage d)) as Hq2'.
  { intros Q Ua Ub Hf. destruct (Hq1 Q Ua Ub) as (Q1 & A1 & _). rewrite <- A1. apply Hq2; [done| |done].
    apply (usable_same d d1 name A1). destruct Ht as [[= -> _]|[_ ->]]; done. }
  destruct r as [[]|e].
  2:{ eexists _, d2, name, data, (flash_at d2). split_and!; [done|done|done|done|by left|done| |done]. intros Q Ua Ub _ _ Hf. by destruct (Hq2' Q Ua Ub Hf). }
  destruct (info_of read_entry parse_info) as [fi|] eqn:Ei.
  2:{ eexists _, d2, name, data, (flash_at d2). split_and!; [done|done|done|done|by left|intros _; split; [by apply Hok2|done]| |done].
      intros Q Ua Ub _ _ Hf. by destruct (Hq2' Q Ua Ub Hf). }
  destruct (Hinfo fi eq_refl) as [Hne Hall]. destruct (flash_table_ok fi name places_a places_b Hne Hall) as (src & l & -> & El). cbn [ebind].
  destruct (build_ftab_bytes _ _ _ _ _ _ El) as [Hlb Hll].
  destruct (flash_step d2 "boot" l Hd2) as (r3 & d3 & -> & Hd3 & Ht3 & Hok3 & Hq3); [split; [done|]; rewrite Hll; by vm_compute|]. cbn [ebind].
  assert (Z.of_nat (length l) = FTAB_SIZE) as Hlz by (rewrite Hll; apply Z2Nat.id; done). rewrite Hlz in Hq3.
  assert (quiet d → usable d firmware_a → usable d firmware_b → usable d "boot" → fits_in "boot" FTAB_SIZE → fits_in name (Z.of_nat (length data)) →
    r3 = Ok tt ∧ quiet d3 ∧ st_acquired (dv_storage d3) = st_acquired (dv_storage d)) as Hq3'.
  { intros Q Ua Ub Uc Hfc Hf. destruct (Hq2' Q Ua Ub Hf) as (_ & Q2 & A2). rewrite <- A2. apply Hq3; [done| |done]. by apply (usable_same d d2). }
  destruct r3 as [[]|e].
  - eexists _, d3, name, data, (flash_at d2). split_and!; [done|done|done|done|done| | |done].
    + intros _. split; [by apply Hok2|]. exists src, l. split; [exact El|by apply Hok3].
    + intros Q Ua Ub Uc Hfc Hf. destruct (Hq3' Q Ua Ub Uc Hfc Hf) as (_ & ? & ?). done.
  - eexists _, d3, name, data, (flash_at d2). split_and!; [done|done|done|done|done|done| |done].
    intros Q Ua Ub Uc Hfc Hf. by destruct (Hq3' Q Ua Ub Uc Hfc Hf).
Qed.
End device.

(** C13: what is flashed is what runs. An archive with one image is flashed to a
    device, whatever is on it. Whatever goes wrong on the way (lost calls and replies,
    commands of the flash that fail, a driver that dies), the bytes that change are in
    the partitions of the first slot and of the table; and when the host reports
    completion, the bootloader starts the image of the archive after the reset, with
    its segments loaded. When nothing goes wrong, completion is reported. *)
Theorem flashed_archive_runs capacity PARTITIONS allowed fs_task proxy read_entry parse_info d b bin fi img pa pboot :
  partitions_ok PARTITIONS → device_ok d → mem_ok (flash_at d) → archive_ok read_entry parse_info bin →
  build b = Ret bin → builder_ok b → segs_disjoint (b_segments b) → placement_ok b (im_flash_addr img) →
  info_of read_entry parse_info = Some fi → fi_images fi = [img] → im_ftab_slot img = FTAB_PLACES_SLOT_A →
  im_flash_addr img = MPI2_MAPPING_BASE + part_start pa →
  named PARTITIONS firmware_a pa → named PARTITIONS "boot" pboot → part_start pboot = 0 →
  ∃ out d', run_flash capacity PARTITIONS allowed fs_task proxy read_entry parse_info d = Ret (out, d') ∧
    (∀ x, flash_at d' x ≠ flash_at d x → part_start pa <= x < part_end pa ∨ part_start pboot <= x < part_end pboot) ∧
    (out = FlashComplete → ∃ o, bootloader_main (mapped (flash_at d')) = Ret o ∧
       boots (mapped (flash_at d')) (mkFlashed b (im_flash_addr img) (image_checksum b) STATE_DEFAULT_RAW) o) ∧
    (quiet d → usable capacity PARTITIONS allowed fs_task proxy d firmware_a → usable capacity PARTITIONS allowed fs_task proxy d firmware_b →
     usable capacity PARTITIONS allowed fs_task proxy d "boot" → FTAB_SIZE <= pr_size_bytes pboot → Z.of_nat (length bin) <= pr_size_bytes pa →
     out = FlashComplete).
Proof.
  intros Hparts Hd Hm Har Hbuild Hb Hdis Hpl Hi Himg Hslot Haddr Hna Hnb H0.
  destruct (run_flash_ok capacity PARTITIONS allowed fs_task proxy Hparts read_entry parse_info bin d Hd Hm Har) as (out & d' & name & data & m1 & E & Hd' & Ht & T1 & T2 & Hok & Hq & _).
  rewrite Hi in *. cbn [second_image] in Ht, Hok. rewrite Himg in Ht, Hok. cbn in Ht. destruct Ht as [[= -> ->]|[? _]]; [|done].
  assert (∀ p, named PARTITIONS firmware_a p → p = pa) as Ua by (intros p Hp; exact (named_unique _ _ _ _ Hp Hna)).
  assert (∀ p, named PARTITIONS "boot" p → p = pboot) as Ub by (intros p Hp; exact (named_unique _ _ _ _ Hp Hnb)).
  assert (same_outside (part_start pa) (part_end pa) (flash_at d) m1) as O1 by (destruct T1 as [->|(p & Hp & H)]; [apply same_outside_refl|by rewrite (Ua p Hp) in H]).
  assert (same_outside (part_start pboot) (part_end pboot) m1 (flash_at d')) as O2 by (destruct T2 as [->|(p & Hp & H)]; [apply same_outside_refl|by rewrite (Ub p Hp) in H]).
  exists out, d'. split; [exact E|]. split_and!.
  - intros x Hx. destruct (decide (part_start pa <= x < part_end pa)) as [?|Na]; [by left|]. right.
    destruct (decide (part_start pboot <= x < part_end pboot)) as [?|Nb]; [done|]. destruct Hx. rewrite O2, O1 by lia. done.
  - intros ->. destruct (Hok eq_refl) as [(p & Hp & Hfit & Hin1 & _) (src & l & El & (q & Hq2 & _ & Hin2 & _))]. rewrite (Ua p Hp) in Hin1, Hfit. rewrite (Ub q Hq2), H0 in Hin2.
    destruct (total_size_bin b bin (builder_offsets b Hb) Hbuild) as [Ebin Elen]. destruct Har as (_ & [_ Hlen] & _).
    cbn [ftab_entries] in El. rewrite decide_True in El by done. rewrite Hslot, Haddr in El. rewrite Haddr in Hpl |- *. rewrite wrap_small in El by (unfold is_u; lia).
    set (f := mkFlashed b (MPI2_MAPPING_BASE + part_start pa) (image_checksum b) STATE_DEFAULT_RAW).
    rewrite Elen in El. change (FTAB_PLACES_SLOT_A, MPI2_MAPPING_BASE + part_start pa, total_size b) with (slot_a f) in El.
    eapply (lone_image_boots (mapped (flash_at d')) f); [exact El| |].
    + change FTAB_ADDR with (MPI2_MAPPING_BASE + 0). by rewrite bytes_at_mapped.
    + apply flashed_intro; [done|done|done|lia|apply crc32_u32|const_u|]. rewrite bytes_at_mapped, <- Ebin. rewrite <- Hin1 at 2. apply bytes_at_ext. intros x Hx.
      apply O2. destruct (erase_length_spec (Z.of_nat (length bin))) as [He _]; [lia|].
      apply (named_apart PARTITIONS Hparts firmware_a "boot" pa pboot x Hna Hnb); [by vm_compute|]. unfold part_end, part_start in *. lia.
  - intros Q U1 U2 U3 F1 F2. apply Hq; [done..| |].
    + intros p Hp. by rewrite (Ub p Hp).
    + intros p Hp. by rewrite (Ua p Hp).
Qed.

(** * One archive after the other *)

Definition Archive : Type := (string → option (list Z)) * (list Z → option FlashInfo).

Fixpoint run_flashes (capacity : Z) (PARTITIONS : list PartitionConfig) (allowed : list Z → Z → bool) (fs_task : option Z) (proxy : Z)
    (archives : list Archive) (d : Device) : exec Device :=
  match archives with
  | [] => Ret d
  | (read_entry, parse_info) :: archives =>
      let! (_, d) := run_flash capacity PARTITIONS allowed fs_task proxy read_entry parse_info d in
      run_flashes capacity PARTITIONS allowed fs_task proxy archives d
  end.

Section slots.
Context (capacity : Z) (PARTITIONS : list PartitionConfig) (allowed : list Z → Z → bool) (fs_task : option Z) (proxy : Z).
Context (Hparts : partitions_ok PARTITIONS) (pa pb pboot : PartitionResource).
Context (Ha : named PARTITIONS firmware_a pa) (Hb : named PARTITIONS firmware_b pb) (Hboot : named PARTITIONS "boot" pboot).

(** A device in order that nothing disturbs, with the end of the first slot erased. *)
Definition idle_device (d : Device) : Prop :=
  device_ok d ∧ mem_ok (flash_at d) ∧ quiet d ∧ usable capacity PARTITIONS allowed fs_task proxy d firmware_a ∧
  usable capacity PARTITIONS allowed fs_task proxy d firmware_b ∧ usable capacity PARTITIONS allowed fs_task proxy d "boot" ∧ blank_end pa (flash_at d).

(** An archive whose first image leaves at least four bytes of the first slot free. *)
Definition small_archive (a : Archive) (places_a : list Z) : Prop :=
  archive_ok a.1 a.2 places_a ∧ Z.of_nat (length places_a) <= pr_size_bytes pa - 4.

Lemma installed_blank_end data m m' :
  Z.of_nat (length data) <= pr_size_bytes pa - 4 → blank_end pa m → installed pa data m m' → blank_end pa m'.
Proof.
  intros Hl Hbl (_ & _ & He & Ho) x Hx. set (elen := erase_length _ _) in *. destruct (Z_lt_le_dec x (part_start pa + elen)).
  - apply He. unfold part_start, part_end in *. lia.
  - rewrite Ho by lia. by apply Hbl.
Qed.

Lemma flash_first_slot d a places_a :
  idle_device d → small_archive a places_a → FTAB_SIZE <= pr_size_bytes pboot →
  ∃ d', run_flash capacity PARTITIONS allowed fs_task proxy a.1 a.2 d = Ret (FlashComplete, d') ∧ idle_device d' ∧
    (∀ x, part_start pb <= x < part_end pb → flash_at d' x = flash_at d x) ∧
    bytes_at (flash_at d') (part_start pa) (length places_a) = places_a.
Proof.
  intros (Hd & Hm & Q & U1 & U2 & U3 & Hbl) [Har Hlen] Hsz.
  destruct (run_flash_ok capacity PARTITIONS allowed fs_task proxy Hparts a.1 a.2 places_a d Hd Hm Har) as (out & d' & name & data & m1 & E & Hd' & _ & T1 & T2 & Hok & Hq & Hs).
  specialize (Hs Q U1 U2 pa Ha Hbl). injection Hs as -> ->.
  assert (∀ p, named PARTITIONS firmware_a p → p = pa) as Ua by (intros p Hp; exact (named_unique _ _ _ _ Hp Ha)).
  assert (∀ p, named PARTITIONS "boot" p → p = pboot) as Ub by (intros p Hp; exact (named_unique _ _ _ _ Hp Hboot)).
  destruct Hq as (-> & Q' & A'); [done..|intros p Hp; by rewrite (Ub p Hp)|intros p Hp; rewrite (Ua p Hp); lia|].
  destruct (Hok eq_refl) as [(p & Hp & Hin) Htab]. rewrite (Ua p Hp) in Hin. clear p Hp.
  assert (same_outside (part_start pa) (part_end pa) (flash_at d) m1) as O1 by (destruct T1 as [->|(p & Hp & H)]; [apply same_outside_refl|by rewrite (Ua p Hp) in H]).
  assert (same_outside (part_start pboot) (part_end pboot) m1 (flash_at d')) as O2 by (destruct T2 as [->|(p & Hp & H)]; [apply same_outside_refl|by rewrite (Ub p Hp) in H]).
  assert (∀ x, part_start pa <= x < part_end pa → flash_at d' x = m1 x) as Oa.
  { intros x Hx. apply O2. apply (named_apart PARTITIONS Hparts firmware_a "boot" pa pboot x Ha Hboot); [by vm_compute|done]. }
  pose proof Har as (_ & [Hbytes _] & _). assert (mem_ok m1) as Hm1 by (eapply installed_mem_ok; [exact Hbytes|exact Hm|exact Hin]).
  assert (mem_ok (flash_at d')) as Hm'.
  { destruct (info_of a.1 a.2) as [fi|]; [|by rewrite Htab]. destruct Htab as (src & l & El & q & _ & Hinq). eapply installed_mem_ok; [|exact Hm1|exact Hinq].
    by apply build_ftab_bytes in El as [? _]. }
  exists d'. split; [exact E|]. split; [|split].
  - split_and!; [done|done|done|by eapply usable_same..|]. intros x Hx. rewrite Oa; [|destruct (named_fits PARTITIONS Hparts _ _ Ha) as [(_ & ? & _) _]; destruct (proj2 U1 pa Ha) as (_ & ? & _); unfold part_start, part_end in *; lia].
    by eapply installed_blank_end.
  - intros x Hx. rewrite O2; [apply O1; eapply (named_apart PARTITIONS Hparts firmware_b firmware_a pb pa x Hb Ha); [by vm_compute|done]|].
    eapply (named_apart PARTITIONS Hparts firmware_b "boot" pb pboot x Hb Hboot); [by vm_compute|done].
  - destruct Hin as (Hfit & Hin & _). rewrite <- Hin at 2. apply bytes_at_ext. intros x Hx. apply Oa.
    destruct (erase_length_spec (Z.of_nat (length places_a))) as [He _]; [lia|]. unfold part_start, part_end in *. lia.
Qed.

Lemma flash_slots archives d :
  idle_device d → FTAB_SIZE <= pr_size_bytes pboot → Forall (λ a, ∃ places_a, small_archive a places_a) archives →
  ∃ d', run_flashes capacity PARTITIONS allowed fs_task proxy archives d = Ret d' ∧
    (∀ x, part_start pb <= x < part_end pb → flash_at d' x = flash_at d x) ∧
    (∀ a, last archives = Some a → ∃ places_a, a.1 "places.bin"%string = Some places_a ∧ bytes_at (flash_at d') (part_start pa) (length places_a) = places_a).
Proof.
  intros Hd Hsz Hall. revert d Hd. induction Hall as [|a archives (places_a & Hsm) _ IH]; intros d Hd; cbn [run_flashes]; [by exists d|].
  destruct a as [re pi] eqn:Ea. destruct (flash_first_slot d (re, pi) places_a Hd Hsm Hsz) as (d1 & E1 & Hd1 & Hb1 & Ha1). cbn [fst snd] in E1. rewrite E1. cbn [ebind].
  destruct (IH d1 Hd1) as (d2 & E2 & Hb2 & Ha2). exists d2. split; [exact E2|]. split; [intros x Hx; rewrite Hb2 by done; by apply Hb1|].
  intros a' Hl. destruct archives as [|a2 archives].
  - cbn in Hl, E2. injection Hl as <-. injection E2 as <-. exists places_a. split; [apply Hsm|done].
  - apply Ha2. by rewrite last_cons_cons in Hl.
Qed.
End slots.

(** The second slot is never written. [run_flash] is to write the slot that is
    not in use, so that the other one stays as a fallback. It looks for the running
    image at the end of the partition, where an image that leaves at least four bytes
    of its partition free is not found. On such a device, with nothing going wrong,
    every archive is written to the first slot, over the image in it, and the bytes of
    the second one never change. *)
Theorem second_slot_never_written capacity PARTITIONS allowed fs_task proxy pa pb pboot d archives :
  partitions_ok PARTITIONS → named PARTITIONS firmware_a pa → named PARTITIONS firmware_b pb → named PARTITIONS "boot" pboot →
  idle_device capacity PARTITIONS allowed fs_task proxy pa d → FTAB_SIZE <= pr_size_bytes pboot →
  Forall (λ a, ∃ places_a, small_archive pa a places_a) archives →
  ∃ d', run_flashes capacity PARTITIONS allowed fs_task proxy archives d = Ret d' ∧
    (∀ x, part_start pb <= x < part_end pb → flash_at d' x = flash_at d x) ∧
    (∀ a, last archives = Some a → ∃ places_a, a.1 "places.bin"%string = Some places_a ∧ bytes_at (flash_at d') (part_start pa) (length places_a) = places_a).
Proof. intros Hp Ha Hb Hc Hd Hsz Hall. by apply (flash_slots capacity PARTITIONS allowed fs_task proxy Hp pa pb pboot Ha Hb Hc). Qed.

(** ** A device with two slots of one block *)

Definition ex_slots : list PartitionConfig :=
  [mkPartConfig (string_bytes "boot") 0 0x5000 0; mkPartConfig (string_bytes firmware_a) 0x5000 0x1000 0; mkPartConfig (string_bytes firmware_b) 0x6000 0x1000 0].
Definition ex_anyone (name : list Z) (caller : Z) : bool := true.
Definition ex_blank : Device := mkDevice (storage_new (mkNor (λ _, 0xFF) []) []) [].

Definition ex_boot_part : PartitionResource := mkPartRes 0 0 0x5000.
Definition ex_slot_a : PartitionResource := mkPartRes 1 0x5000 0x1000.
Definition ex_slot_b : PartitionResource := mkPartRes 2 0x6000 0x1000.

Definition ex_image_info : ImageFlashInfo := mkImageInfo "main" 0x12005000 FTAB_PLACES_SLOT_A.
Definition ex_info : FlashInfo := mkFlashInfo 0x12000000 0 0x20040000 6 [ex_image_info].
Definition ex_entry (name : string) : option (list Z) :=
  if decide (name = "places.bin") then Some sample_bytes else if decide (name = "flash-info.json") then Some [] else None.
Definition ex_parse (json : list Z) : option FlashInfo := Some ex_info.

Lemma ex_slots_ok : partitions_ok ex_slots.
Proof.
  split_and!; [cbn; unfold MAX_PARTITIONS; lia|repeat constructor; cbn; lia|].
  intros i j c d Hi Hj Hne. destruct i as [|[|[|?]]], j as [|[|[|?]]]; try done; cbn in Hi, Hj; injection Hi as <-; injection Hj as <-; cbn; lia.
Qed.

Lemma ex_named_boot : named ex_slots "boot" ex_boot_part.
Proof. eexists. split; [vm_compute; reflexivity|done]. Qed.

Lemma ex_named_a : named ex_slots firmware_a ex_slot_a.
Proof. eexists. split; [vm_compute; reflexivity|done]. Qed.

Lemma ex_named_b : named ex_slots firmware_b ex_slot_b.
Proof. eexists. split; [vm_compute; reflexivity|done]. Qed.

Lemma ex_usable name p :
  named ex_slots name p → (length (string_bytes name) <= 16)%nat → p ∈ [ex_boot_part; ex_slot_a; ex_slot_b] →
  usable 0x1000000 ex_slots ex_anyone None 9 ex_blank name.
Proof.
  intros Hn Hl Hp. split.
  - split; [done|]. pose proof Hn as (c & Hf & _). exists (pr_index p), c. split; [done|]. unfold storage_find_partition in Hf. apply list_find_Some in Hf as (Hc & _ & _).
    rewrite !elem_of_cons, elem_of_nil in Hp. destruct Hp as [->|[->|[->|[]]]]; cbn in Hc; injection Hc as <-; done.
  - intros q Hq. rewrite (named_unique _ _ _ _ Hq Hn). unfold part_in_chip.
    rewrite !elem_of_cons, elem_of_nil in Hp. destruct Hp as [->|[->|[->|[]]]]; vm_compute; split_and!; done.
Qed.

Lemma ex_build : build sample_builder = Ret sample_bytes.
Proof. vm_compute. reflexivity. Qed.

Lemma ex_archive_ok : archive_ok ex_entry ex_parse sample_bytes.
Proof.
  split_and!; [done| |by intros data H|].
  - split; [|by vm_compute]. apply (bool_decide_eq_true_1 _). vm_compute. reflexivity.
  - intros fi [= <-]. split; [done|]. constructor; [by vm_compute|constructor].
Qed.

Lemma ex_quiet : quiet ex_blank.
Proof. done. Qed.

Lemma ex_mem_ok : mem_ok (flash_at ex_blank).
Proof. intros x. const_u. Qed.

Lemma ex_usable_all :
  usable 0x1000000 ex_slots ex_anyone None 9 ex_blank firmware_a ∧ usable 0x1000000 ex_slots ex_anyone None 9 ex_blank firmware_b ∧
  usable 0x1000000 ex_slots ex_anyone None 9 ex_blank "boot".
Proof.
  split_and!; [eapply ex_usable; [exact ex_named_a|cbn; lia|rewrite !elem_of_cons; tauto]|eapply ex_usable; [exact ex_named_b|cbn; lia|rewrite !elem_of_cons; tauto]|
    eapply ex_usable; [exact ex_named_boot|cbn; lia|rewrite !elem_of_cons; tauto]].
Qed.

Lemma flashed_archive_runs_witness :
  ∃ d' o, run_flash 0x1000000 ex_slots ex_anyone None 9 ex_entry ex_parse ex_blank = Ret (FlashComplete, d') ∧
    bootloader_main (mapped (flash_at d')) = Ret o ∧ ∃ m', o = Jump 0x10000100 m'.
Proof.
  destruct ex_usable_all as (U1 & U2 & U3).
  destruct (flashed_archive_runs 0x1000000 ex_slots ex_anyone None 9 ex_entry ex_parse ex_blank sample_builder sample_bytes ex_info ex_image_info ex_slot_a ex_boot_part)
    as (out & d' & E & _ & Hb & Hq).
  - exact ex_slots_ok.
  - reflexivity.
  - exact ex_mem_ok.
  - exact ex_archive_ok.
  - exact ex_build.
  - apply sample_builder_ok.
  - apply sample_builder_ok.
  - apply sample_placement.
  - reflexivity.
  - reflexivity.
  - reflexivity.
  - reflexivity.
  - exact ex_named_a.
  - exact ex_named_boot.
  - reflexivity.
  - assert (out = FlashComplete) as Ho by (apply Hq; [exact ex_quiet|exact U1|exact U2|exact U3|discriminate|vm_compute; discriminate]).
    rewrite Ho in E. destruct (Hb Ho) as (o & Eo & m' & Em & _). exists d', o. split; [exact E|]. split; [exact Eo|]. exists m'. exact Em.
Defined.

Lemma second_slot_never_written_witness :
  ∃ d', run_flashes 0x1000000 ex_slots ex_anyone None 9 [(ex_entry, ex_parse); (ex_entry, ex_parse)] ex_blank = Ret d' ∧
    (∀ x, 0x6000 <= x < 0x7000 → flash_at d' x = 0xFF) ∧ bytes_at (flash_at d') 0x5000 (length sample_bytes) = sample_bytes.
Proof.
  destruct ex_usable_all as (U1 & U2 & U3).
  destruct (second_slot_never_written 0x1000000 ex_slots ex_anyone None 9 ex_slot_a ex_slot_b ex_boot_part ex_blank [(ex_entry, ex_parse); (ex_entry, ex_parse)])
    as (d' & E & Hb & Ha).
  - exact ex_slots_ok.
  - exact ex_named_a.
  - exact ex_named_b.
  - exact ex_named_boot.
  - split_and!; [reflexivity|exact ex_mem_ok|exact ex_quiet|exact U1|exact U2|exact U3|intros x _; reflexivity].
  - discriminate.
  - assert (small_archive ex_slot_a (ex_entry, ex_parse) sample_bytes) as Hs by (split; [exact ex_archive_ok|vm_compute; discriminate]).
    constructor; [exists sample_bytes; exact Hs|]. constructor; [exists sample_bytes; exact Hs|constructor].
  - exists d'. split; [exact E|]. split; [intros x Hx; rewrite (Hb x Hx); reflexivity|].
    destruct (Ha _ eq_refl) as (places & Ep & Hp). apply (f_equal (λ o, match o with Some l => l | None => [] end)) in Ep.
    change (sample_bytes = places) in Ep. rewrite <- Ep in Hp. exact Hp.
Defined.
