(* ===== verification/Heap.v ===== *)
(** The heap of the compositor, [firmware/sysmodule/compositor/src/heap.rs]: a list of
    free blocks in address order, threaded through the blocks themselves.

    The memory is a function from the addresses of words to words, on a device whose
    words have 32 bits; a null pointer is 0. The loops take fuel, [None] when it runs out.
    What the pointer [prev] of the loops points to is the head of the list or the link of
    a block. *)

From S2P Require Import Prelude.

Open Scope Z_scope.

Definition ALIGN : Z := 8.
Definition WORD : Z := 4.

(** [HEADER_SIZE] and the size of a [FreeNode]: a word, and two words at an alignment
    of 8. *)
Definition HEAP_HEADER_SIZE : Z := WORD.
Definition FREE_NODE_SIZE : Z := 8.

Record Heap := mkHeap { hp_head : Z; hp_mem : Z → Z }.

Definition heap_new (mem : Z → Z) : Heap := mkHeap 0 mem.

Definition set_word (h : Heap) (a v : Z) : Heap := mkHeap (hp_head h) (λ x, if decide (x = a) then v else hp_mem h x).

(** The fields of a node. *)
Definition node_size (h : Heap) (node : Z) : Z := hp_mem h node.
Definition node_next (h : Heap) (node : Z) : Z := hp_mem h (node + WORD).
Definition set_size (h : Heap) (node v : Z) : Heap := set_word h node v.
Definition set_next (h : Heap) (node v : Z) : Heap := set_word h (node + WORD) v.

(** A [*mut *mut FreeNode]. *)
Inductive NodeRef := HeadRef | NextRef (node : Z).

Definition load (h : Heap) (p : NodeRef) : Z :=
  match p with HeadRef => hp_head h | NextRef node => node_next h node end.

Definition store (h : Heap) (p : NodeRef) (v : Z) : Heap :=
  match p with HeadRef => mkHeap v (hp_mem h) | NextRef node => set_next h node v end.

(** [align_offset] *)
Definition align_offset (base : Z) : Z := (- base) mod ALIGN.

(** [x & !(ALIGN - 1)] *)
Definition align_down (x : Z) : Z := Z.land x (2 ^ 32 - ALIGN).

Definition heap_init (h : Heap) (base len : Z) : Heap :=
  let offset := align_offset base in
  if decide (len <= offset) then h else
  let aligned := base + offset in
  let usable := align_down (len - offset) in
  if decide (usable < FREE_NODE_SIZE) then h else
  store (set_next (set_size h aligned usable) aligned 0) HeadRef aligned.

Definition block_size_for (payload : Z) : Z :=
  let raw := Z.min (2 ^ 32 - 1) (HEAP_HEADER_SIZE + Z.max payload 1) in
  let rounded := align_down (wrap 32 (raw + ALIGN - 1)) in
  Z.max rounded FREE_NODE_SIZE.

(** Taking the block [cur], or its front. *)
Definition take_block (h : Heap) (prev : NodeRef) (cur total : Z) : Heap :=
  let cur_size := node_size h cur in
  let next := node_next h cur in
  let remainder := cur_size - total in
  if decide (FREE_NODE_SIZE <= remainder) then
    let leftover := cur + total in
    let h := set_size h leftover remainder in
    let h := set_next h leftover next in
    let h := store h prev leftover in
    set_word h cur total
  else set_word (store h prev next) cur cur_size.

Fixpoint alloc_loop (fuel : nat) (h : Heap) (prev : NodeRef) (total : Z) : option (Z * Heap) :=
  match fuel with
  | O => None
  | S fuel =>
      let cur := load h prev in
      if decide (cur = 0) then Some (0, h) else
      if decide (total <= node_size h cur) then Some (cur + HEAP_HEADER_SIZE, take_block h prev cur total)
      else alloc_loop fuel h (NextRef cur) total
  end.

Definition heap_alloc (fuel : nat) (h : Heap) (size align : Z) : option (Z * Heap) :=
  if decide (ALIGN < align) then Some (0, h) else alloc_loop fuel h HeadRef (block_size_for size).

(** Where the block belongs in the list. *)
Fixpoint insert_loop (fuel : nat) (h : Heap) (prev : NodeRef) (block : Z) : option NodeRef :=
  match fuel with
  | O => None
  | S fuel =>
      let cur := load h prev in
      if decide (cur = 0 ∨ block < cur) then Some prev else insert_loop fuel h (NextRef cur) block
  end.

(** The node in front of the block in the list, or null. *)
Fixpoint pred_loop (fuel : nat) (h : Heap) (prev_node cur block : Z) : option Z :=
  match fuel with
  | O => None
  | S fuel => if decide (cur ≠ 0 ∧ cur ≠ block) then pred_loop fuel h cur (node_next h cur) block else Some prev_node
  end.

Definition coalesce_next (h : Heap) (block : Z) : Heap :=
  let next := node_next h block in
  if decide (next ≠ 0 ∧ block + node_size h block = next) then
    let h := set_size h block (node_size h block + node_size h next) in
    set_next h block (node_next h next)
  else h.

Definition coalesce_prev (h : Heap) (prev_node block : Z) : Heap :=
  if decide (prev_node ≠ 0 ∧ prev_node + node_size h prev_node = block) then
    let h := set_size h prev_node (node_size h prev_node + node_size h block) in
    set_next h prev_node (node_next h block)
  else h.

Definition heap_dealloc (fuel : nat) (h : Heap) (ptr : Z) : option Heap :=
  let block := ptr - HEAP_HEADER_SIZE in
  let size := hp_mem h block in
  match insert_loop fuel h HeadRef block with
  | None => None
  | Some prev =>
      let h := set_size h block size in
      let h := set_next h block (load h prev) in
      let h := store h prev block in
      let h := coalesce_next h block in
      match pred_loop fuel h 0 (hp_head h) block with
      | None => None
      | Some prev_node => Some (coalesce_prev h prev_node block)
      end
  end.
