(* ===== verification/HeapProps.v ===== *)
(** The heap of the compositor: its free list, what allocating and freeing do to it, and what
    its clients can rely on over all sequences of both. *)

From S2P Require Import Prelude Heap.

Open Scope Z_scope.

(** * The specification *)

Inductive Block := Free (size : Z) | Used (size : Z).

Definition b_size (b : Block) : Z := match b with Free s | Used s => s end.

Definition blocks_size (bs : list Block) : Z := foldr (λ b n, b_size b + n) 0 bs.

(** First fit: the address of the block that was taken, and the blocks afterwards. *)
Fixpoint spec_alloc (base total : Z) (bs : list Block) : option (Z * list Block) :=
  match bs with
  | [] => None
  | b :: bs =>
      let later := match spec_alloc (base + b_size b) total bs with Some (a, bs) => Some (a, b :: bs) | None => None end in
      match b with
      | Free s =>
          if decide (total <= s) then Some (base, if decide (total = s) then Used s :: bs else Used total :: Free (s - total) :: bs)
          else later
      | Used _ => later
      end
  end.

(** Free neighbours become one block. *)
Definition join (b : Block) (bs : list Block) : list Block :=
  match b, bs with
  | Free s, Free s2 :: bs => Free (s + s2) :: bs
  | _, _ => b :: bs
  end.

Fixpoint spec_free (base addr : Z) (bs : list Block) : list Block :=
  match bs with
  | [] => []
  | b :: bs => if decide (base = addr) then join (Free (b_size b)) bs else join b (spec_free (base + b_size b) addr bs)
  end.

(** The addresses and sizes of the used blocks. *)
Fixpoint used_nodes (base : Z) (bs : list Block) : list (Z * Z) :=
  match bs with
  | [] => []
  | Used s :: bs => (base, s) :: used_nodes (base + s) bs
  | Free s :: bs => used_nodes (base + s) bs
  end.

Fixpoint free_nodes (base : Z) (bs : list Block) : list (Z * Z) :=
  match bs with
  | [] => []
  | Free s :: bs => (base, s) :: free_nodes (base + s) bs
  | Used s :: bs => free_nodes (base + s) bs
  end.

(** Sizes are multiples of 8, and no two free blocks are next to each other. *)
Fixpoint apart (bs : list Block) : Prop :=
  match bs with
  | Free _ :: (Free _ :: _) => False
  | _ :: bs => apart bs
  | [] => True
  end.

Definition size_ok (s : Z) : Prop := 8 <= s ∧ s mod 8 = 0.

Definition blocks_ok (bs : list Block) : Prop := Forall (λ b, size_ok (b_size b)) bs ∧ apart bs.

(** * The representation *)

(** The free list, from a reference on. *)
Fixpoint seg (h : Heap) (p : NodeRef) (l : list (Z * Z)) : Prop :=
  match l with
  | [] => True
  | (a, s) :: l => load h p = a ∧ node_size h a = s ∧ seg h (NextRef a) l
  end.

Fixpoint end_ref (p : NodeRef) (l : list (Z * Z)) : NodeRef :=
  match l with [] => p | (a, _) :: l => end_ref (NextRef a) l end.

Definition chain (h : Heap) (p : NodeRef) (l : list (Z * Z)) : Prop := seg h p l ∧ load h (end_ref p l) = 0.

Definition rep (h : Heap) (base : Z) (bs : list Block) : Prop :=
  0 < base ∧ base mod 8 = 0 ∧ blocks_ok bs ∧ chain h HeadRef (free_nodes base bs) ∧ ∀ a s, (a, s) ∈ used_nodes base bs → hp_mem h a = s.

(** ** Lists of blocks *)

Lemma blocks_size_app b1 b2 : blocks_size (b1 ++ b2) = blocks_size b1 + blocks_size b2.
Proof. induction b1 as [|b b1 IH]; cbn; [done|]. unfold blocks_size in *. lia. Qed.

Lemma free_nodes_app base b1 b2 : free_nodes base (b1 ++ b2) = free_nodes base b1 ++ free_nodes (base + blocks_size b1) b2.
Proof.
  revert base. induction b1 as [|[s|s] b1 IH]; intros base; cbn [app free_nodes blocks_size foldr b_size]; [by rewrite Z.add_0_r|..];
    rewrite IH; cbn; by rewrite Z.add_assoc.
Qed.

Lemma used_nodes_app base b1 b2 : used_nodes base (b1 ++ b2) = used_nodes base b1 ++ used_nodes (base + blocks_size b1) b2.
Proof.
  revert base. induction b1 as [|[s|s] b1 IH]; intros base; cbn [app used_nodes blocks_size foldr b_size]; [by rewrite Z.add_0_r|..];
    rewrite IH; cbn; by rewrite Z.add_assoc.
Qed.

(** A list of nodes within a stretch of memory, in order and apart. *)
Fixpoint within (lo hi : Z) (l : list (Z * Z)) : Prop :=
  match l with
  | [] => lo <= hi
  | (a, s) :: l => lo <= a ∧ a mod 8 = 0 ∧ size_ok s ∧ within (a + s) hi l
  end.

Lemma within_le lo hi l : within lo hi l → lo <= hi.
Proof. revert lo. induction l as [|[a s] l IH]; intros lo; cbn; [done|]. intros (H1 & _ & [H2 _] & H3). apply IH in H3. lia. Qed.

Lemma within_weaken lo lo' hi hi' l : within lo hi l → lo' <= lo → hi <= hi' → within lo' hi' l.
Proof.
  revert lo lo'. induction l as [|[a s] l IH]; intros lo lo'; cbn; [lia|]. intros (H1 & H2 & H3 & H4) ??. split_and!; [lia|done|done|]. by apply (IH (a + s)); [|lia|].
Qed.

Lemma within_elem lo hi l a s : within lo hi l → (a, s) ∈ l → lo <= a ∧ a + s <= hi ∧ a mod 8 = 0 ∧ size_ok s.
Proof.
  revert lo. induction l as [|[a' s'] l IH]; intros lo; cbn; [by rewrite elem_of_nil|]. intros (H1 & H2 & H3 & H4). rewrite elem_of_cons. intros [[= -> ->]|H].
  - apply within_le in H4. split_and!; try done; apply H3.
  - destruct (IH _ H4 H) as (?&?&?&?). destruct H3. split_and!; try done; try lia; apply H8.
Qed.

Lemma size_mod8 base bs : Forall (λ b, size_ok (b_size b)) bs → base mod 8 = 0 → (base + blocks_size bs) mod 8 = 0 ∧ 0 <= blocks_size bs.
Proof.
  intros H. revert base. induction H as [|b bs [Hb1 Hb2] _ IH]; intros base H0; cbn; [rewrite Z.add_0_r; by split|].
  destruct (IH (base + b_size b)) as [I1 I2]; [by rewrite Zplus_mod, H0, Hb2|]. unfold blocks_size in *. rewrite Z.add_assoc. split; [done|lia].
Qed.

Lemma free_within base bs : Forall (λ b, size_ok (b_size b)) bs → base mod 8 = 0 → within base (base + blocks_size bs) (free_nodes base bs).
Proof.
  intros H. revert base. induction H as [|b bs Hb _ IH]; intros base H0; cbn; [lia|].
  assert ((base + b_size b) mod 8 = 0) as H1 by (destruct Hb as [_ Hb]; by rewrite Zplus_mod, H0, Hb). specialize (IH _ H1). unfold blocks_size in *. cbn in *. rewrite Z.add_assoc.
  destruct Hb as [Hb1 Hb2]. destruct b as [s|s]; cbn in *; [split_and!; try done; lia|]. apply (within_weaken _ base _ _ _ IH); lia.
Qed.

Lemma used_within base bs : Forall (λ b, size_ok (b_size b)) bs → base mod 8 = 0 → within base (base + blocks_size bs) (used_nodes base bs).
Proof.
  intros H. revert base. induction H as [|b bs Hb _ IH]; intros base H0; cbn; [lia|].
  assert ((base + b_size b) mod 8 = 0) as H1 by (destruct Hb as [_ Hb]; by rewrite Zplus_mod, H0, Hb). specialize (IH _ H1). unfold blocks_size in *. cbn in *. rewrite Z.add_assoc.
  destruct Hb as [Hb1 Hb2]. destruct b as [s|s]; cbn in *; [|split_and!; try done; lia]. apply (within_weaken _ base _ _ _ IH); lia.
Qed.

(** ** The free list *)

Lemma set_word_same h a v : hp_mem (set_word h a v) a = v.
Proof. cbn. by rewrite decide_True. Qed.

Lemma set_word_other h a v w : w ≠ a → hp_mem (set_word h a v) w = hp_mem h w.
Proof. intros H. cbn. by rewrite decide_False. Qed.

Lemma seg_app h p l1 l2 : seg h p (l1 ++ l2) ↔ seg h p l1 ∧ seg h (end_ref p l1) l2.
Proof. revert p. induction l1 as [|[a s] l1 IH]; intros p; cbn; [tauto|]. rewrite IH. tauto. Qed.

Lemma end_ref_app p l1 l2 : end_ref p (l1 ++ l2) = end_ref (end_ref p l1) l2.
Proof. revert p. induction l1 as [|[a s] l1 IH]; intros p; cbn; [done|]. apply IH. Qed.

Lemma chain_app h p l1 l2 : chain h p (l1 ++ l2) ↔ seg h p l1 ∧ chain h (end_ref p l1) l2.
Proof. unfold chain. rewrite seg_app, end_ref_app. tauto. Qed.

Lemma chain_cons h p a s l : chain h p ((a, s) :: l) ↔ load h p = a ∧ node_size h a = s ∧ chain h (NextRef a) l.
Proof. unfold chain. cbn. tauto. Qed.

(** A list behind the words that changed. *)
Lemma chain_tail h h' p q lo hi l :
  chain h p l → within lo hi l → load h' q = load h p → (∀ w, lo <= w → hp_mem h' w = hp_mem h w) → chain h' q l.
Proof.
  revert p q lo. induction l as [|[a s] l IH]; intros p q lo; [unfold chain; cbn; intros [_ H] _ -> _; by split|].
  rewrite !chain_cons. intros (H1 & H2 & H3) (W1 & W2 & [W3 _] & W4) Hl Hm. split; [congruence|]. split; [unfold node_size in *; rewrite Hm; [done|lia]|].
  apply (IH (NextRef a) _ (a + s) H3 W4); [unfold load, node_next, WORD; apply Hm; lia|]. intros w Hw. apply Hm. lia.
Qed.

Lemma within_snoc lo hi l a s : within lo hi (l ++ [(a, s)]) → within lo a l ∧ a mod 8 = 0 ∧ size_ok s ∧ a + s <= hi.
Proof.
  revert lo. induction l as [|[a' s'] l IH]; intros lo; cbn; [intros (?&?&?&?); by split_and!|]. intros (H1 & H2 & H3 & H4). destruct (IH _ H4) as (?&?&?&?). by split_and!.
Qed.

(** Storing to the reference behind a list changes one word, in its last node. *)
Lemma store_end h lo hi l v w :
  within lo hi l → hi <= w ∨ w mod 8 = 0 → hp_mem (store h (end_ref HeadRef l) v) w = hp_mem h w.
Proof.
  induction l as [|[a s] l _] using rev_ind; [done|]. intros Hw Hc. apply within_snoc in Hw as (_ & Ha & [Hs _] & Hhi). rewrite end_ref_app. cbn [end_ref store].
  apply set_word_other. unfold WORD. intros ->. destruct Hc as [Hc|Hc]; [lia|]. rewrite Zplus_mod, Ha in Hc. done.
Qed.

Lemma load_store_end h l v : load (store h (end_ref HeadRef l) v) (end_ref HeadRef l) = v.
Proof. destruct (end_ref HeadRef l); [done|]. cbn. by rewrite decide_True. Qed.

Lemma seg_store h lo hi l v : within lo hi l → seg h HeadRef l → seg (store h (end_ref HeadRef l) v) HeadRef l.
Proof.
  induction l as [|[a s] l _] using rev_ind; [done|]. intros Hw Hs. apply within_snoc in Hw as (Hw & Ha & [Hs1 _] & Hhi). rewrite end_ref_app. cbn [end_ref store].
  apply seg_app in Hs as [Hs1' (Hs2 & Hs3 & _)]. assert (∀ w, w < a + 4 → hp_mem (set_next h a v) w = hp_mem h w) as Hm by (intros w ?; apply set_word_other; unfold WORD; lia).
  apply seg_app. split.
  - clear Hs2. assert (load (set_next h a v) HeadRef = load h HeadRef) as Hp by done. revert Hp Hw Hs1'. generalize HeadRef lo. clear lo. induction l as [|[x sx] l IH]; intros p lo Hp; [done|].
    intros (W1 & W2 & [W3 _] & W4) (S1 & S2 & S3). pose proof (within_le _ _ _ W4). split; [congruence|]. split; [unfold node_size in *; rewrite Hm by lia; done|].
    apply (IH (NextRef x) (x + sx)); try done. unfold load, node_next, WORD. apply Hm. lia.
  - cbn [seg]. split; [|split; [unfold node_size in *; rewrite Hm by lia; done|done]]. transitivity (load h (end_ref HeadRef l)); [|exact Hs2]. destruct l as [|[x sx] l _] using rev_ind; [done|]. rewrite end_ref_app.
    apply within_snoc in Hw as (_ & _ & [? _] & ?). unfold load, node_next, WORD. cbn [end_ref]. apply Hm. lia.
Qed.

(** A list in front of the words that changed, linked to something else. *)
Lemma seg_relink h h' lo hi l v :
  within lo hi l → seg h HeadRef l → hp_head h' = hp_head (store h (end_ref HeadRef l) v) →
  (∀ w, w < hi → hp_mem h' w = hp_mem (store h (end_ref HeadRef l) v) w) → seg h' HeadRef l ∧ load h' (end_ref HeadRef l) = v.
Proof.
  intros Hw Hs Hh Hm. pose proof (seg_store h lo hi l v Hw Hs) as Hs'. split.
  - revert Hs'. generalize (store h (end_ref HeadRef l) v) Hh Hm. clear Hh Hm Hs. intros h0 Hh Hm. assert (load h' HeadRef = load h0 HeadRef) as Hp by done. revert Hp Hw. generalize HeadRef lo. clear lo Hh.
    induction l as [|[x sx] l IH]; intros p lo Hp; [done|]. intros (W1 & W2 & [W3 _] & W4) (S1 & S2 & S3). pose proof (within_le _ _ _ W4). split; [congruence|].
    split; [unfold node_size in *; rewrite Hm by lia; done|]. apply (IH (NextRef x) (x + sx)); try done. unfold load, node_next, WORD. apply Hm. lia.
  - rewrite <- (load_store_end h l v). destruct l as [|[x sx] l _] using rev_ind; [done|]. rewrite !end_ref_app in *. cbn [end_ref] in *. apply within_snoc in Hw as (_ & _ & [? _] & ?).
    unfold load, node_next, WORD. apply Hm. lia.
Qed.

(** * Allocating *)

Lemma align_down_spec x : 0 <= x < 2 ^ 32 → align_down x = x / 8 * 8.
Proof.
  intros Hx. unfold align_down, ALIGN. change (2 ^ 32 - 8) with (Z.ldiff (Z.ones 32) (Z.ones 3)).
  assert (Z.land x (Z.ldiff (Z.ones 32) (Z.ones 3)) = Z.ldiff (Z.land x (Z.ones 32)) (Z.ones 3)) as ->.
  { apply Z.bits_inj'. intros n _. rewrite Z.land_spec, !Z.ldiff_spec, Z.land_spec. by rewrite andb_assoc. }
  rewrite Z.land_ones by lia. rewrite Z.mod_small by lia. rewrite Z.ldiff_ones_r by lia. rewrite Z.shiftl_mul_pow2, Z.shiftr_div_pow2 by lia. done.
Qed.

Lemma block_size_ok size : 0 <= size < 2 ^ 31 → size_ok (block_size_for size) ∧ size + HEAP_HEADER_SIZE <= block_size_for size.
Proof.
  intros Hs. unfold block_size_for, HEAP_HEADER_SIZE, WORD, ALIGN, FREE_NODE_SIZE, wrap. rewrite Z.min_r by lia.
  rewrite (Z.mod_small (_ - 1)) by lia. rewrite align_down_spec by lia. pose proof (Z.div_mod (4 + Z.max size 1 + 8 - 1) 8 ltac:(lia)) as Hd.
  pose proof (Z.mod_pos_bound (4 + Z.max size 1 + 8 - 1) 8 ltac:(lia)). rewrite Z.max_l by lia. split; [|lia]. split; [lia|]. by rewrite Z.mod_mul.
Qed.

Lemma alloc_loop_none l fuel h p lo hi total :
  chain h p l → within lo hi l → 0 < lo → Forall (λ n, n.2 < total) l → (length l < fuel)%nat → alloc_loop fuel h p total = Some (0, h).
Proof.
  revert fuel p lo. induction l as [|[a s] l IH]; intros [|fuel] p lo Hc Hw Hlo Hf Hl; try (cbn in Hl; lia); cbn [alloc_loop].
  - destruct Hc as [_ Hc]. cbn [end_ref] in Hc. by rewrite Hc, decide_True.
  - apply chain_cons in Hc as (H1 & H2 & H3). destruct Hw as (W1 & _ & [W3 _] & W4). apply Forall_cons_1 in Hf as [F1 F2]. cbn in F1. rewrite H1, H2.
    rewrite decide_False by lia. rewrite decide_False by lia. apply (IH fuel (NextRef a) (a + s)); try done; [lia|cbn in Hl; lia].
Qed.

Lemma alloc_loop_found l1 a s l2 fuel h p lo hi total :
  chain h p (l1 ++ (a, s) :: l2) → within lo hi (l1 ++ (a, s) :: l2) → 0 < lo → Forall (λ n, n.2 < total) l1 → total <= s → (length l1 < fuel)%nat →
  alloc_loop fuel h p total = Some (a + HEAP_HEADER_SIZE, take_block h (end_ref p l1) a total).
Proof.
  revert fuel p lo. induction l1 as [|[x sx] l1 IH]; intros [|fuel] p lo Hc Hw Hlo Hf Ht Hl; try (cbn in Hl; lia); cbn [alloc_loop app end_ref] in *.
  - apply chain_cons in Hc as (H1 & H2 & _). destruct Hw as (W1 & _). rewrite H1, H2. rewrite decide_False by lia. by rewrite decide_True by lia.
  - apply chain_cons in Hc as (H1 & H2 & H3). destruct Hw as (W1 & _ & [W3 _] & W4). apply Forall_cons_1 in Hf as [F1 F2]. cbn in F1. rewrite H1, H2.
    rewrite decide_False by lia. rewrite decide_False by lia. apply (IH fuel (NextRef x) (x + sx)); try done; [lia|cbn in Hl; lia].
Qed.

(** The blocks that taking [total] bytes of a free block leaves. *)
Definition taken (total s : Z) (post : list Block) : list Block := if decide (total = s) then Used s :: post else Used total :: Free (s - total) :: post.

Lemma spec_alloc_cases base total bs :
  (spec_alloc base total bs = None ∧ Forall (λ n, n.2 < total) (free_nodes base bs)) ∨
  (∃ pre s post, bs = pre ++ Free s :: post ∧ total <= s ∧ Forall (λ n, n.2 < total) (free_nodes base pre) ∧
     spec_alloc base total bs = Some (base + blocks_size pre, pre ++ taken total s post)).
Proof.
  revert base. induction bs as [|b bs IH]; intros base; [by left|]. destruct (IH (base + b_size b)) as [[E F]|(pre & s & post & -> & Ht & F & E)].
  - destruct b as [s|s]; cbn [spec_alloc free_nodes b_size] in *; rewrite E; [|by left]. case_decide as Hd; [|left; split; [done|]; constructor; [cbn; lia|done]].
    right. exists [], s, bs. split; [done|]. split; [done|]. split; [constructor|]. unfold taken. cbn. by rewrite Z.add_0_r.
  - destruct b as [s'|s']; cbn [spec_alloc free_nodes b_size] in *; rewrite E; [case_decide as Hd|].
    + right. exists [], s', (pre ++ Free s :: post). split; [done|]. split; [done|]. split; [constructor|]. unfold taken. cbn. by rewrite Z.add_0_r.
    + right. exists (Free s' :: pre), s, post. split; [done|]. split; [done|]. cbn. split; [constructor; [cbn; lia|done]|]. unfold blocks_size in *. by rewrite Z.add_assoc.
    + right. exists (Used s' :: pre), s, post. split; [done|]. split; [done|]. cbn. split; [done|]. unfold blocks_size in *. by rewrite Z.add_assoc.
Qed.

Lemma apart_app b1 b2 : apart (b1 ++ b2) → apart b1 ∧ apart b2.
Proof. induction b1 as [|[s|s] b1 IH]; [done| |exact IH]. destruct b1 as [|[s2|s2] b1]; cbn in *; [destruct b2 as [|[?|?] ?]; tauto|tauto|tauto]. Qed.

Lemma apart_replace b1 s b2 b3 : apart (b1 ++ Free s :: b2) → apart b3 → apart (b1 ++ Used s :: b3).
Proof.
  intros H H3. induction b1 as [|[x|x] b1 IH]; [done| |cbn in *; by apply IH]. destruct b1 as [|[y|y] b1]; cbn in *; [done|tauto|by apply IH].
Qed.

Lemma taken_ok total s pre post : blocks_ok (pre ++ Free s :: post) → size_ok total → total <= s → blocks_ok (pre ++ taken total s post).
Proof.
  intros [Hs Ha] [Ht1 Ht2] Hle. apply Forall_app in Hs as [Hs1 Hs2]. apply Forall_cons_1 in Hs2 as [Hs2 Hs3]. cbn in Hs2. unfold taken. case_decide as Hd.
  - split; [apply Forall_app; split; [done|by constructor]|]. apply (apart_replace pre s post); [done|]. apply apart_app in Ha as [_ Ha]. destruct post as [|[?|?] ?]; [done..|exact Ha].
  - destruct Hs2 as [Hs2 Hs2']. assert (s mod 8 = 0 ∧ (s - total) mod 8 = 0 ∧ 8 <= s - total) as (_ & Hm & H8).
    { assert ((s - total) mod 8 = 0) by (by rewrite Zminus_mod, Hs2', Ht2). split_and!; try done. assert (s - total ≠ 0) by lia. pose proof (Z.div_mod (s - total) 8 ltac:(lia)). lia. }
    split; [apply Forall_app; split; [done|]; constructor; [by split|]; constructor; [by split|done]|].
    change (pre ++ Used total :: Free (s - total) :: post) with (pre ++ Used total :: (Free (s - total) :: post)).
    assert (apart (Free (s - total) :: post)) as Hp by (apply apart_app in Ha as [_ Ha]; destruct post as [|[?|?] ?]; exact Ha).
    clear -Ha Hp. induction pre as [|[x|x] pre IH]; [done| |cbn in *; by apply IH]. destruct pre as [|[y|y] pre]; cbn in *; [done|tauto|by apply IH].
Qed.

(** Taking a block changes only words of the block and the link to it. *)
Lemma take_block_rep h base pre s post total :
  rep h base (pre ++ Free s :: post) → size_ok total → total <= s →
  rep (take_block h (end_ref HeadRef (free_nodes base pre)) (base + blocks_size pre) total) base (pre ++ taken total s post).
Proof.
  intros (Hb & Hb8 & Hok & Hc & Hu) Ht Hle. pose proof (taken_ok total s pre post Hok Ht Hle) as Hok'. pose proof Hok as [Hs _]. apply Forall_app in Hs as [Hs1 Hs2]. apply Forall_cons_1 in Hs2 as [Hs2 Hs3]. cbn in Hs2.
  set (a := base + blocks_size pre). set (La := free_nodes base pre). set (Lb := free_nodes (a + s) post).
  pose proof (free_within base pre Hs1 Hb8) as Wa. fold a La in Wa. destruct (size_mod8 base pre Hs1 Hb8) as [Ha8 Ha0]. fold a in Ha8.
  assert ((a + s) mod 8 = 0) as Has8 by (rewrite Zplus_mod, Ha8; destruct Hs2 as [_ ->]; done). pose proof (free_within (a + s) post Hs3 Has8) as Wb. fold Lb in Wb.
  pose proof (used_within base pre Hs1 Hb8) as Ua. fold a in Ua. pose proof (used_within (a + s) post Hs3 Has8) as Ub.
  rewrite free_nodes_app in Hc. fold a La in Hc. cbn [free_nodes] in Hc. fold Lb in Hc. apply chain_app in Hc as [Sa Hc]. apply chain_cons in Hc as (C1 & C2 & C3).
  rewrite used_nodes_app in Hu. fold a in Hu. cbn [used_nodes] in Hu. destruct Hs2 as [Hs2 Hs2']. destruct Ht as [Ht Ht'].
  unfold take_block. rewrite C2. unfold FREE_NODE_SIZE, taken in *. destruct (decide (total = s)) as [->|Hne].
  - rewrite decide_False by lia. set (h1 := store h (end_ref HeadRef La) (node_next h a)). set (h' := set_word h1 a s).
    assert (∀ w, w ≠ a → hp_mem h' w = hp_mem h1 w) as Hm by (intros w ?; by apply set_word_other).
    assert (∀ w, a <= w → hp_mem h1 w = hp_mem h w) as Hm1 by (intros w ?; apply (store_end h base a La); [done|by left]).
    split; [done|]. split; [done|]. split; [done|]. split.
    + rewrite free_nodes_app. fold a La. cbn [free_nodes]. fold Lb. apply chain_app. destruct (seg_relink h h' base a La (node_next h a) Wa Sa eq_refl) as [S1 S2]; [intros w ?; apply Hm; lia|].
      split; [done|]. apply (chain_tail h h' (NextRef a) _ (a + s) _ Lb C3 Wb S2). intros w ?. rewrite Hm by lia. apply Hm1. lia.
    + rewrite used_nodes_app. fold a. cbn [used_nodes]. intros x sx Hx. apply elem_of_app in Hx as [Hx|Hx].
      * destruct (within_elem _ _ _ _ _ Ua Hx) as (? & ? & Hx8 & [? _]). rewrite Hm by lia. unfold h1. rewrite (store_end h base a La) by (done || by right). apply Hu, elem_of_app. by left.
      * apply elem_of_cons in Hx as [[= -> ->]|Hx]; [apply set_word_same|]. destruct (within_elem _ _ _ _ _ Ub Hx) as (? & _). rewrite Hm by lia. rewrite Hm1 by lia. apply Hu, elem_of_app. by right.
  - assert (8 <= s - total) as H8.
    { assert ((s - total) mod 8 = 0) by (by rewrite Zminus_mod, Hs2', Ht'). pose proof (Z.div_mod (s - total) 8 ltac:(lia)). lia. }
    rewrite decide_True by done. cbv zeta. set (h0 := set_next (set_size h (a + total) (s - total)) (a + total) (node_next h a)).
    set (h1 := store h0 (end_ref HeadRef La) (a + total)). set (h' := set_word h1 a total).
    assert (∀ w, w ≠ a → hp_mem h' w = hp_mem h1 w) as Hm by (intros w ?; by apply set_word_other).
    assert (∀ w, a <= w → hp_mem h1 w = hp_mem h0 w) as Hm1 by (intros w ?; apply (store_end h0 base a La); [done|by left]).
    assert (∀ w, w < a + total ∨ a + total + 8 <= w → hp_mem h0 w = hp_mem h w) as Hm0 by (intros w ?; unfold h0, set_next, set_size, WORD; rewrite !set_word_other by lia; done).
    split; [done|]. split; [done|]. split; [done|]. split.
    + rewrite free_nodes_app. fold a La. cbn [free_nodes]. replace (a + total + (s - total)) with (a + s) by lia. fold Lb. apply chain_app.
      destruct (seg_relink h h' base a La (a + total) Wa Sa) as [S1 S2].
      { destruct La as [|[? ?] La _] using rev_ind; [done|]. unfold h', h1, h0. rewrite end_ref_app. done. }
      { intros w Hw. rewrite Hm by lia. unfold h1. destruct (end_ref HeadRef La) as [|n]; cbn [store]; [apply Hm0; lia|]. unfold set_next, set_word. cbn. case_decide; [done|]. apply Hm0. lia. }
      split; [done|]. apply chain_cons. split; [done|]. assert (node_size h' (a + total) = s - total ∧ node_next h' (a + total) = node_next h a) as [-> Hn].
      { unfold node_size, node_next, WORD. rewrite !Hm, !Hm1 by lia. unfold h0, set_next, set_size, WORD. rewrite set_word_same, set_word_other, set_word_same by lia. done. }
      split; [done|]. apply (chain_tail h h' (NextRef a) (NextRef (a + total)) (a + s) _ Lb C3 Wb Hn). intros w ?. rewrite Hm, Hm1 by lia. apply Hm0. lia.
    + rewrite used_nodes_app. fold a. cbn [used_nodes]. replace (a + total + (s - total)) with (a + s) by lia. intros x sx Hx. apply elem_of_app in Hx as [Hx|Hx].
      * destruct (within_elem _ _ _ _ _ Ua Hx) as (? & ? & Hx8 & [? _]). rewrite Hm by lia. unfold h1. rewrite (store_end h0 base a La) by (done || by right). rewrite Hm0 by lia. apply Hu, elem_of_app. by left.
      * apply elem_of_cons in Hx as [[= -> ->]|Hx]; [apply set_word_same|]. destruct (within_elem _ _ _ _ _ Ub Hx) as (? & _). rewrite Hm, Hm1, Hm0 by lia. apply Hu, elem_of_app. by right.
Qed.

Lemma free_nodes_length base bs : (length (free_nodes base bs) <= length bs)%nat.
Proof. revert base. induction bs as [|[s|s] bs IH]; intros base; cbn; [done|..]; specialize (IH (base + s)); lia. Qed.

(** Allocating is first fit. *)
Lemma heap_alloc_ok fuel h base bs size align :
  rep h base bs → 0 <= size < 2 ^ 31 → align <= ALIGN → (length bs < fuel)%nat →
  match spec_alloc base (block_size_for size) bs with
  | Some (a, bs') => ∃ h', heap_alloc fuel h size align = Some (a + HEAP_HEADER_SIZE, h') ∧ rep h' base bs'
  | None => heap_alloc fuel h size align = Some (0, h)
  end.
Proof.
  intros Hr Hsz Hal Hf. destruct (block_size_ok size Hsz) as [Ht _]. unfold heap_alloc. rewrite decide_False by lia. pose proof Hr as (Hb & Hb8 & [Hok _] & Hc & _).
  pose proof (free_within base bs Hok Hb8) as Hw. pose proof (free_nodes_length base bs) as Hn.
  destruct (spec_alloc_cases base (block_size_for size) bs) as [[-> Hall]|(pre & s & post & -> & Hle & Hall & ->)].
  - apply (alloc_loop_none _ _ _ _ _ _ _ Hc Hw); [done|done|lia].
  - eexists. split; [|by apply take_block_rep]. rewrite free_nodes_app in Hc, Hw. cbn [free_nodes] in Hc, Hw. pose proof (free_nodes_length base pre). rewrite length_app in Hf. cbn in Hf.
    apply (alloc_loop_found _ _ _ _ _ _ _ _ _ _ Hc Hw); [done|done|done|lia].
Qed.

(** * Freeing *)

(** The representation while free blocks may be next to each other. *)
Definition rep0 (h : Heap) (base : Z) (bs : list Block) : Prop :=
  0 < base ∧ base mod 8 = 0 ∧ Forall (λ b, size_ok (b_size b)) bs ∧ chain h HeadRef (free_nodes base bs) ∧ ∀ a s, (a, s) ∈ used_nodes base bs → hp_mem h a = s.

Lemma rep_rep0 h base bs : rep h base bs ↔ rep0 h base bs ∧ apart bs.
Proof. unfold rep, rep0, blocks_ok. tauto. Qed.

(** What a representation says around one block. *)
Lemma rep0_split h base pre b post :
  rep0 h base (pre ++ b :: post) →
  let a := base + blocks_size pre in
  0 < base ∧ base <= a ∧ base mod 8 = 0 ∧ a mod 8 = 0 ∧ size_ok (b_size b) ∧ (a + b_size b) mod 8 = 0 ∧
  Forall (λ b, size_ok (b_size b)) pre ∧ Forall (λ b, size_ok (b_size b)) post ∧
  within base a (free_nodes base pre) ∧ within (a + b_size b) (a + b_size b + blocks_size post) (free_nodes (a + b_size b) post) ∧
  within base a (used_nodes base pre) ∧ within (a + b_size b) (a + b_size b + blocks_size post) (used_nodes (a + b_size b) post) ∧
  seg h HeadRef (free_nodes base pre) ∧ chain h (end_ref HeadRef (free_nodes base pre)) (free_nodes a (b :: post)) ∧
  (∀ x s, (x, s) ∈ used_nodes base pre ++ used_nodes a (b :: post) → hp_mem h x = s).
Proof.
  intros (Hb & Hb8 & Hs & Hc & Hu) a. apply Forall_app in Hs as [Hs1 Hs2]. apply Forall_cons_1 in Hs2 as [Hs2 Hs3]. destruct (size_mod8 base pre Hs1 Hb8) as [Ha8 Ha0]. fold a in Ha8.
  assert ((a + b_size b) mod 8 = 0) as Has8 by (rewrite Zplus_mod, Ha8; destruct Hs2 as [_ ->]; done). rewrite free_nodes_app in Hc. apply chain_app in Hc as [Hc1 Hc2]. rewrite used_nodes_app in Hu.
  split_and!; try done; [lia|by apply free_within|by apply free_within|by apply used_within|by apply used_within].
Qed.

Lemma insert_loop_ok l fuel h p lo block :
  seg h p l → within lo block l → 0 < lo → (load h (end_ref p l) = 0 ∨ block < load h (end_ref p l)) → (length l < fuel)%nat →
  insert_loop fuel h p block = Some (end_ref p l).
Proof.
  revert fuel p lo. induction l as [|[x sx] l IH]; intros [|fuel] p lo Hs Hw Hlo He Hl; try (cbn in Hl; lia); cbn [insert_loop end_ref] in *; [by rewrite decide_True|].
  destruct Hs as (S1 & S2 & S3). destruct Hw as (W1 & _ & [W3 _] & W4). pose proof (within_le _ _ _ W4). rewrite S1. rewrite decide_False by lia.
  apply (IH fuel (NextRef x) (x + sx)); try done; [lia|cbn in Hl; lia].
Qed.

(** The block is linked in. *)
Lemma insert_rep fuel h base pre s post :
  rep0 h base (pre ++ Used s :: post) → (length (free_nodes base pre) < fuel)%nat →
  let a := base + blocks_size pre in let prev := end_ref HeadRef (free_nodes base pre) in
  hp_mem h a = s ∧ insert_loop fuel h HeadRef a = Some prev ∧
  rep0 (store (set_next (set_size h a s) a (load (set_size h a s) prev)) prev a) base (pre ++ Free s :: post).
Proof.
  intros Hr Hf a prev. pose proof Hr as (_ & _ & Hs & _). pose proof (rep0_split _ _ _ _ _ Hr) as (Hb & Hba & Hb8 & Ha8 & [Hs2 Hs2'] & Has8 & Hs1 & Hs3 & Wa & Wb & Ua & Ub & Sa & Cb & Hu).
  fold a in Hba, Ha8, Has8, Wa, Wb, Ua, Ub, Cb, Hu. cbn [b_size free_nodes used_nodes] in *. set (La := free_nodes base pre) in *. set (Lb := free_nodes (a + s) post) in *. fold prev in Cb.
  assert (hp_mem h a = s) as Hh by (apply Hu, elem_of_app; right; by left). split; [done|].
  assert (load h prev = 0 ∨ a < load h prev) as He by (destruct Lb as [|[x sx] Lb]; [left; apply Cb|right; apply chain_cons in Cb as (-> & _); destruct Wb as (? & _); lia]).
  split; [by apply (insert_loop_ok La fuel h HeadRef base a)|].
  assert (∀ p, load (set_size h a s) p = load h p) as Hl.
  { intros [|n]; [done|]. cbn. case_decide as E; [|done]. unfold WORD in E. unfold node_next, WORD. by rewrite E. }
  rewrite Hl. set (h0 := set_next (set_size h a s) a (load h prev)). set (h' := store h0 prev a).
  assert (∀ w, w ≠ a + 4 → hp_mem h0 w = hp_mem h w) as Hm0.
  { intros w ?. unfold h0, set_next, set_size, WORD. rewrite set_word_other by lia. destruct (decide (w = a)) as [->|]; [by rewrite set_word_same|by rewrite set_word_other]. }
  assert (∀ w, a <= w → hp_mem h' w = hp_mem h0 w) as Hm by (intros w ?; apply (store_end h0 base a La); [done|by left]).
  split; [done|]. split; [done|]. split; [by (apply Forall_app; apply Forall_app in Hs as [? Hs]; split; [done|]; apply Forall_cons_1 in Hs as [? ?]; constructor)|]. split.
  - rewrite free_nodes_app. fold a La. cbn [free_nodes]. fold Lb. apply chain_app. destruct (seg_relink h h' base a La a Wa Sa) as [S1 S2].
    { destruct La as [|[? ?] La _] using rev_ind; [done|]. unfold h', prev. rewrite end_ref_app. done. }
    { intros w Hw. unfold h', prev. destruct (end_ref HeadRef La) as [|n]; cbn [store]; [apply Hm0; lia|]. unfold set_next, set_word. cbn [hp_mem]. case_decide; [done|]. apply Hm0. lia. }
    split; [done|]. apply chain_cons. split; [done|]. split; [unfold node_size; rewrite Hm, Hm0 by lia; done|].
    apply (chain_tail h h' prev (NextRef a) (a + s) _ Lb Cb Wb).
    + unfold load at 1, node_next, WORD. rewrite Hm by lia. unfold h0, set_next, WORD. by rewrite set_word_same.
    + intros w ?. rewrite Hm, Hm0 by lia. done.
  - rewrite used_nodes_app. fold a. cbn [used_nodes]. intros x sx Hx. apply elem_of_app in Hx as [Hx|Hx].
    + destruct (within_elem _ _ _ _ _ Ua Hx) as (? & ? & Hx8 & [? _]). unfold h', prev. rewrite (store_end h0 base a La) by (done || by right). rewrite Hm0 by lia. apply Hu, elem_of_app. by left.
    + destruct (within_elem _ _ _ _ _ Ub Hx) as (? & _ & Hx8 & _). rewrite Hm, Hm0 by lia. apply Hu, elem_of_app. right. by right.
Qed.

(** Two neighbours become one. *)
Lemma merge_rep h base pre s1 s2 post :
  rep0 h base (pre ++ Free s1 :: Free s2 :: post) →
  let a := base + blocks_size pre in
  let h1 := set_size h a (node_size h a + node_size h (a + s1)) in
  node_size h a = s1 ∧ node_next h a = a + s1 ∧
  rep0 (set_next h1 a (node_next h1 (a + s1))) base (pre ++ Free (s1 + s2) :: post).
Proof.
  intros Hr a h1. pose proof Hr as (_ & _ & Hs & _). pose proof (rep0_split _ _ _ _ _ Hr) as (Hb & Hba & Hb8 & Ha8 & [Hs1 Hs1'] & Has8 & Hp1 & Hp2 & Wa & Wb & Ua & Ub & Sa & Cb & Hu).
  fold a in Hba, Ha8, Has8, Wa, Wb, Ua, Ub, Cb, Hu. cbn [b_size free_nodes used_nodes blocks_size foldr] in *. apply Forall_cons_1 in Hp2 as [[Hs2 Hs2'] Hp2]. cbn in Hs2, Hs2'.
  set (La := free_nodes base pre) in *. apply chain_cons in Cb as (C1 & C2 & Cb). apply chain_cons in Cb as (C3 & C4 & Cb). destruct Wb as (_ & _ & _ & Wb). cbn [load] in C3.
  split; [done|]. split; [done|]. unfold h1. rewrite C2, C4. set (h2 := set_size h a (s1 + s2)).
  assert (node_next h2 (a + s1) = node_next h (a + s1)) as -> by (apply set_word_other; unfold WORD; lia). set (h' := set_next h2 a _).
  assert (∀ w, w < a ∨ a + 8 <= w → hp_mem h' w = hp_mem h w) as Hm by (intros w ?; unfold h', h2, set_next, set_size, WORD; rewrite !set_word_other by lia; done).
  split; [done|]. split; [done|]. split.
  { apply Forall_app. split; [done|]. constructor; [|done]. cbn. split; [lia|]. by rewrite Zplus_mod, Hs1', Hs2'. }
  split.
  - rewrite free_nodes_app. fold a La. cbn [free_nodes]. replace (a + (s1 + s2)) with (a + s1 + s2) by lia. apply chain_app. split; [|apply chain_cons; split_and!].
    + destruct (seg_relink h h' base a La a Wa Sa) as [? _]; [|intros w ?; rewrite Hm by lia|done].
      * destruct (end_ref HeadRef La) eqn:E; [cbn in C1; by cbn|done].
      * destruct (end_ref HeadRef La) as [|n] eqn:E; [done|]. cbn. case_decide as Ew; [|done]. subst w. exact C1.
    + transitivity (load h (end_ref HeadRef La)); [clear C1|exact C1]. destruct La as [|[x sx] La _] using rev_ind; [done|]. rewrite end_ref_app. apply within_snoc in Wa as (_ & _ & [? _] & ?). unfold load, node_next, WORD. apply Hm. lia.
    + unfold node_size, h', h2, set_next, set_size, WORD. rewrite set_word_other, set_word_same by lia. done.
    + apply (chain_tail h h' (NextRef (a + s1)) (NextRef a) (a + s1 + s2) _ _ Cb Wb); [|intros w ?; apply Hm; lia]. unfold load at 1, node_next at 1, h', set_next. by rewrite set_word_same.
  - rewrite used_nodes_app. fold a. cbn [used_nodes]. replace (a + (s1 + s2)) with (a + s1 + s2) by lia. intros x sx Hx. apply elem_of_app in Hx as [Hx|Hx].
    + destruct (within_elem _ _ _ _ _ Ua Hx) as (? & ? & _ & [? _]). rewrite Hm by lia. apply Hu, elem_of_app. by left.
    + destruct (within_elem _ _ _ _ _ Ub Hx) as (? & _). pose proof (used_within (a + s1 + s2) post Hp2 ltac:(by rewrite Zplus_mod, Has8, Hs2')) as U2.
      destruct (within_elem _ _ _ _ _ U2 Hx) as (? & _). rewrite Hm by lia. apply Hu, elem_of_app. by right.
Qed.

Lemma coalesce_next_rep h base pre s post :
  rep0 h base (pre ++ Free s :: post) →
  ∃ t post', join (Free s) post = Free t :: post' ∧ rep0 (coalesce_next h (base + blocks_size pre)) base (pre ++ Free t :: post').
Proof.
  intros Hr. set (a := base + blocks_size pre). pose proof (rep0_split _ _ _ _ _ Hr) as (Hb & Hba & _ & _ & [Hs _] & _ & _ & Hp & _ & _ & _ & _ & _ & Cb & _). fold a in Hba, Cb.
  cbn [b_size free_nodes] in *. apply chain_cons in Cb as (_ & C2 & C3). unfold coalesce_next. destruct post as [|[s2|u] post].
  - exists s, []. split; [done|]. destruct C3 as [_ C3]. cbn in C3. rewrite C3, decide_False by tauto. done.
  - exists (s + s2), post. split; [done|]. destruct (merge_rep _ _ _ _ _ _ Hr) as (M1 & M2 & M3). fold a in M1, M2, M3. rewrite M2. rewrite decide_True by lia. rewrite M1 in *. exact M3.
  - exists s, (Used u :: post). split; [done|]. apply Forall_cons_1 in Hp as [[Hu _] Hp]. cbn [b_size free_nodes] in *. rewrite C2.
    rewrite decide_False; [done|]. intros [Hn He]. unfold chain in C3. change (node_next h a) with (load h (NextRef a)) in *.
    destruct (free_nodes (a + s + u) post) as [|[x sx] l] eqn:E; [cbn in C3; tauto|]. destruct C3 as [(C3 & _) _].
    assert ((x, sx) ∈ free_nodes (a + s + u) post) as Hx by (rewrite E; by left). clear E. assert (a + s + u <= x); [|lia]. clear -Hx Hp.
    revert Hx. generalize (a + s + u). induction Hp as [|b post [Hb _] _ IH]; intros lo Hx; [by apply elem_of_nil in Hx|].
    destruct b as [sb|sb]; cbn in *; [apply elem_of_cons in Hx as [[= -> ->]|Hx]; [lia|]|]; apply IH in Hx; lia.
Qed.

Definition ref_node (p : NodeRef) : Z := match p with HeadRef => 0 | NextRef n => n end.

Lemma pred_loop_ok l fuel h p lo block :
  seg h p l → within lo block l → 0 < lo → load h (end_ref p l) = block → (length l < fuel)%nat →
  pred_loop fuel h (ref_node p) (load h p) block = Some (ref_node (end_ref p l)).
Proof.
  revert fuel p lo. induction l as [|[x sx] l IH]; intros [|fuel] p lo Hs Hw Hlo He Hl; try (cbn in Hl; lia); cbn [pred_loop end_ref] in *; [rewrite He; by rewrite decide_False by tauto|].
  destruct Hs as (S1 & S2 & S3). destruct Hw as (W1 & _ & [W3 _] & W4). pose proof (within_le _ _ _ W4). rewrite S1. rewrite decide_True by lia.
  apply (IH fuel (NextRef x) (x + sx)); try done; [lia|cbn in Hl; lia].
Qed.

Lemma coalesce_prev_rep h base pre t post :
  rep0 h base (pre ++ Free t :: post) →
  let prev := ref_node (end_ref HeadRef (free_nodes base pre)) in
  (∃ pre' q, pre = pre' ++ [Free q] ∧ rep0 (coalesce_prev h prev (base + blocks_size pre)) base (pre' ++ Free (q + t) :: post)) ∨
  ((pre = [] ∨ ∃ pre' u, pre = pre' ++ [Used u]) ∧ coalesce_prev h prev (base + blocks_size pre) = h).
Proof.
  intros Hr prev. unfold coalesce_prev. destruct pre as [|b pre _] using rev_ind; [right; split; [by left|]; by rewrite decide_False by tauto|].
  pose proof (rep0_split _ _ _ _ _ Hr) as (Hb & _ & _ & _ & _ & _ & Hp & _ & _ & _ & _ & _ & Sa & _). rewrite <- app_assoc in Hr. cbn [app] in Hr.
  pose proof (rep0_split _ _ _ _ _ Hr) as (_ & Hba & _ & _ & [Hb8 _] & _ & Hp1 & _ & Wa & _). rewrite blocks_size_app, Z.add_assoc. cbn [blocks_size foldr]. rewrite Z.add_0_r. set (a := base + blocks_size pre) in *.
  unfold prev. rewrite free_nodes_app in Sa |- *. fold a in Sa |- *. destruct b as [q|u]; cbn [free_nodes b_size] in *.
  - left. exists pre, q. split; [done|]. rewrite end_ref_app. cbn [end_ref ref_node]. destruct (merge_rep _ _ _ _ _ _ Hr) as (M1 & M2 & M3). fold a in M1, M2, M3. rewrite M1 in *. rewrite decide_True by lia. exact M3.
  - right. split; [right; by exists pre, u|]. rewrite app_nil_r in *. rewrite decide_False; [done|]. intros [Hn He]. destruct (free_nodes base pre) as [|[x sx] l _] using rev_ind; [done|].
    rewrite end_ref_app in He. cbn [end_ref ref_node] in He. apply within_snoc in Wa as (_ & _ & _ & ?). apply seg_app in Sa as [_ (_ & Sx & _)]. lia.
Qed.

(** ** The specification of freeing *)

Lemma spec_free_join base pre s post :
  Forall (λ b, size_ok (b_size b)) pre → spec_free base (base + blocks_size pre) (pre ++ Used s :: post) = foldr join (join (Free s) post) pre.
Proof.
  intros H. revert base. induction H as [|b pre [Hb _] Hp IH]; intros base; cbn [app spec_free foldr blocks_size]; [by rewrite Z.add_0_r, decide_True|].
  destruct (size_mod8 0 pre Hp eq_refl) as [_ H0]. unfold blocks_size in *. rewrite decide_False by lia. rewrite Z.add_assoc, IH. done.
Qed.

Lemma join_apart b bs : apart (b :: bs) → join b bs = b :: bs.
Proof. destruct b as [s|s], bs as [|[t|t] bs]; done. Qed.

Lemma apart_tail b bs : apart (b :: bs) → apart bs.
Proof. destruct b, bs as [|[?|?] ?]; done. Qed.

Lemma foldr_join_apart pre b bs : apart (pre ++ b :: bs) → foldr join (b :: bs) pre = pre ++ b :: bs.
Proof. induction pre as [|x pre IH]; [done|]. intros H. cbn [foldr app]. rewrite IH by exact (apart_tail _ _ H). apply join_apart. exact H. Qed.

(** Changing a block that has used neighbours in front keeps blocks apart. *)
Lemma apart_snoc pre u bs : apart (pre ++ [Used u]) → apart bs → apart (pre ++ Used u :: bs).
Proof. intros H Hb. induction pre as [|[x|x] pre IH]; [done| |cbn in *; by apply IH]. destruct pre as [|[y|y] pre]; cbn in *; [done|tauto|by apply IH]. Qed.

Lemma apart_end pre q s : apart (pre ++ [Free q; Used s]) → ∀ t bs, apart (Free t :: bs) → apart (pre ++ Free t :: bs).
Proof. intros H t bs Hb. induction pre as [|[x|x] pre IH]; [done| |cbn in *; by apply IH]. destruct pre as [|[y|y] pre]; cbn in *; [tauto|tauto|by apply IH]. Qed.

Lemma heap_dealloc_ok fuel h base pre s post :
  rep h base (pre ++ Used s :: post) → (length (pre ++ Used s :: post) < fuel)%nat →
  ∃ h', heap_dealloc fuel h (base + blocks_size pre + HEAP_HEADER_SIZE) = Some h' ∧ rep h' base (spec_free base (base + blocks_size pre) (pre ++ Used s :: post)).
Proof.
  intros [Hr Ha]%rep_rep0 Hf. pose proof (free_nodes_length base pre) as Hl. rewrite length_app in Hf. cbn in Hf. pose proof Hr as (_ & _ & Hsz & _). apply Forall_app in Hsz as [Hsz _].
  destruct (insert_rep fuel h base pre s post Hr ltac:(lia)) as (Hh & Hi & H1). unfold heap_dealloc. replace (base + blocks_size pre + HEAP_HEADER_SIZE - HEAP_HEADER_SIZE) with (base + blocks_size pre) by lia.
  rewrite Hh, Hi. cbv zeta. destruct (coalesce_next_rep _ _ _ _ _ H1) as (t & post' & Hj & H2). set (h2 := coalesce_next _ _) in *.
  pose proof (rep0_split _ _ _ _ _ H2) as (Hb & _ & _ & _ & _ & _ & _ & _ & Wa & _ & _ & _ & Sa & Cb & _). cbn [free_nodes] in Cb. apply chain_cons in Cb as (C1 & _).
  rewrite (pred_loop_ok (free_nodes base pre) fuel h2 HeadRef base _ Sa Wa Hb C1 ltac:(lia) : pred_loop fuel h2 0 (hp_head h2) _ = _). eexists. split; [reflexivity|].
  rewrite spec_free_join by done. rewrite Hj. apply rep_rep0. apply apart_app in Ha as Hap. destruct Hap as [Hpre Hpost].
  assert (apart (Free t :: post')) as Ht by (destruct post as [|[s2|u] post]; injection Hj as <- <-; [done| |done]; destruct post as [|[?|?] ?]; done).
  destruct (coalesce_prev_rep _ _ _ _ _ H2) as [(pre' & q & -> & H3)|[Hu ->]].
  - rewrite foldr_app. cbn [foldr join]. assert (apart (pre' ++ Free (q + t) :: post')) as Ha2.
    { rewrite <- app_assoc in Ha. cbn [app] in Ha. assert (apart (pre' ++ [Free q; Used s])) as Hx by (change (pre' ++ Free q :: Used s :: post) with (pre' ++ [Free q; Used s] ++ post) in Ha; rewrite app_assoc in Ha; by apply apart_app in Ha as [? _]).
      apply (apart_end _ _ _ Hx). destruct post' as [|[?|?] ?]; done. }
    rewrite foldr_join_apart by done. by split.
  - assert (apart (pre ++ Free t :: post')) as Ha2 by (destruct Hu as [-> |(pre' & u & ->)]; [done|]; rewrite <- app_assoc; by apply apart_snoc).
    rewrite foldr_join_apart by done. by split.
Qed.

(** * What the owners of blocks rely on *)

(** ** Used blocks are not written to *)

Lemma nodes_disjoint base bs x sx y sy :
  Forall (λ b, size_ok (b_size b)) bs → (x, sx) ∈ used_nodes base bs → (y, sy) ∈ free_nodes base bs → x + sx <= y ∨ y + sy <= x.
Proof.
  intros H. revert base. induction H as [|b bs Hb Hbs IH]; intros base Hx Hy; [by apply elem_of_nil in Hx|].
  assert (∀ lo l, (x, sx) ∈ used_nodes lo l → Forall (λ b, size_ok (b_size b)) l → lo <= x ∧ 0 <= sx) as Hlo.
  { clear. intros lo l Hx Hl. revert lo Hx. induction Hl as [|b l [Hb _] _ IH]; intros lo Hx; [by apply elem_of_nil in Hx|].
    destruct b; cbn in *; [apply IH in Hx; lia|]. apply elem_of_cons in Hx as [[= -> ->]|Hx]; [lia|]. apply IH in Hx. lia. }
  assert (∀ lo l, (y, sy) ∈ free_nodes lo l → Forall (λ b, size_ok (b_size b)) l → lo <= y) as Hly.
  { clear. intros lo l Hx Hl. revert lo Hx. induction Hl as [|b l [Hb _] _ IH]; intros lo Hx; [by apply elem_of_nil in Hx|].
    destruct b; cbn in *; [apply elem_of_cons in Hx as [[= -> ->]|Hx]; [lia|]; apply IH in Hx; lia|]. apply IH in Hx. lia. }
  destruct b as [s|s]; cbn [used_nodes free_nodes] in *.
  - apply elem_of_cons in Hy as [[= -> ->]|Hy]; [right; by apply Hlo in Hx as [? _]|]. by apply (IH (base + s)).
  - apply elem_of_cons in Hx as [[= -> ->]|Hx]; [left; by apply Hly in Hy|]. by apply (IH (base + s)).
Qed.

(** The word is in a used block. *)
Definition in_used (base : Z) (bs : list Block) (w : Z) : Prop := ∃ x sx, (x, sx) ∈ used_nodes base bs ∧ x <= w < x + sx.

Lemma end_ref_elem p l : l ≠ [] → ∃ a s, (a, s) ∈ l ∧ end_ref p l = NextRef a.
Proof. induction l as [|[a s] l _] using rev_ind; [done|]. intros _. exists a, s. split; [apply elem_of_app; right; by left|]. by rewrite end_ref_app. Qed.

Lemma store_end_used h base bs v w :
  Forall (λ b, size_ok (b_size b)) bs → base mod 8 = 0 → in_used base bs w → hp_mem (store h (end_ref HeadRef (free_nodes base bs)) v) w = hp_mem h w.
Proof.
  intros Hs Hb (x & sx & Hx & Hw). destruct (decide (free_nodes base bs = [])) as [->|Hne]; [done|]. destruct (end_ref_elem HeadRef _ Hne) as (a & s & Ha & ->).
  destruct (within_elem _ _ _ _ _ (free_within base bs Hs Hb) Ha) as (_ & _ & _ & [? _]). cbn [store]. apply set_word_other. unfold WORD. destruct (nodes_disjoint base bs x sx a s Hs Hx Ha); lia.
Qed.

(** The words of used blocks around a free or freed one. *)
Definition elsewhere (base : Z) (pre post : list Block) (s w : Z) : Prop := in_used base pre w ∨ in_used (base + blocks_size pre + s) post w.

Lemma elsewhere_apart base pre b post w :
  Forall (λ b, size_ok (b_size b)) (pre ++ b :: post) → base mod 8 = 0 → elsewhere base pre post (b_size b) w →
  let a := base + blocks_size pre in
  (w < a ∧ in_used base pre w) ∨ (a + b_size b <= w ∧ ∀ h v, hp_mem (store h (end_ref HeadRef (free_nodes base pre)) v) w = hp_mem h w).
Proof.
  intros Hs Hb He a. apply Forall_app in Hs as [Hs1 Hs2]. apply Forall_cons_1 in Hs2 as [Hs2 Hs3]. destruct (size_mod8 base pre Hs1 Hb) as [Ha8 Ha0]. fold a in Ha8.
  assert ((a + b_size b) mod 8 = 0) as Has8 by (rewrite Zplus_mod, Ha8; destruct Hs2 as [_ ->]; done). destruct He as [(x & sx & Hx & Hw)|(x & sx & Hx & Hw)].
  - left. destruct (within_elem _ _ _ _ _ (used_within base pre Hs1 Hb) Hx) as (? & ? & _). fold a in H0. split; [lia|by exists x, sx].
  - right. fold a in Hx. destruct (within_elem _ _ _ _ _ (used_within (a + b_size b) post Hs3 Has8) Hx) as (? & _). destruct Hs2 as [Hs2 _]. split; [lia|]. intros h v.
    apply (store_end h base a); [by apply free_within|left; lia].
Qed.

Lemma take_block_frame h base pre s post total w :
  rep0 h base (pre ++ Free s :: post) → size_ok total → total <= s → elsewhere base pre post s w →
  hp_mem (take_block h (end_ref HeadRef (free_nodes base pre)) (base + blocks_size pre) total) w = hp_mem h w.
Proof.
  intros Hr [Ht _] Hle He. pose proof Hr as (_ & Hb8 & Hs & _). pose proof (rep0_split _ _ _ _ _ Hr) as (_ & _ & _ & _ & [Hs1 _] & _ & Hp & _ & _ & _ & _ & _ & _ & Cb & _). cbn [free_nodes b_size] in *.
  apply chain_cons in Cb as (_ & C2 & _). set (a := base + blocks_size pre) in *. unfold take_block, FREE_NODE_SIZE. rewrite C2. cbv zeta.
  destruct (elsewhere_apart base pre (Free s) post w Hs Hb8 He) as [[Hw Hu]|[Hw Hst]]; fold a in Hw; cbn [b_size] in Hw.
  - case_decide; rewrite set_word_other by lia; rewrite store_end_used by done; [unfold set_next, set_size, WORD; rewrite !set_word_other by lia|]; done.
  - case_decide; rewrite set_word_other by lia; rewrite Hst; [unfold set_next, set_size, WORD; rewrite !set_word_other by lia|]; done.
Qed.

Lemma coalesce_next_frame h block w : w ≠ block → w ≠ block + WORD → hp_mem (coalesce_next h block) w = hp_mem h w.
Proof. intros H1 H2. unfold coalesce_next. case_decide; [|done]. cbv zeta. unfold set_next, set_size. by rewrite !set_word_other. Qed.

Lemma coalesce_prev_frame h prev block w : prev = 0 ∨ (w ≠ prev ∧ w ≠ prev + WORD) → hp_mem (coalesce_prev h prev block) w = hp_mem h w.
Proof. intros H. unfold coalesce_prev. case_decide as E; [|done]. destruct H as [H|[H1 H2]]; [tauto|]. cbv zeta. unfold set_next, set_size. by rewrite !set_word_other. Qed.

Lemma dealloc_frame fuel h h' base pre s post w :
  rep0 h base (pre ++ Used s :: post) → (length (pre ++ Used s :: post) < fuel)%nat → elsewhere base pre post s w →
  heap_dealloc fuel h (base + blocks_size pre + HEAP_HEADER_SIZE) = Some h' → hp_mem h' w = hp_mem h w.
Proof.
  intros Hr Hf He. pose proof (free_nodes_length base pre) as Hl. rewrite length_app in Hf. cbn in Hf. pose proof Hr as (_ & Hb8 & Hsz & _). pose proof (rep0_split _ _ _ _ _ Hr) as (_ & _ & _ & _ & [Hs1 _] & _ & Hp & _).
  cbn [b_size] in Hs1. destruct (insert_rep fuel h base pre s post Hr ltac:(lia)) as (Hh & Hi & H1). unfold heap_dealloc. replace (base + blocks_size pre + HEAP_HEADER_SIZE - HEAP_HEADER_SIZE) with (base + blocks_size pre) by lia.
  rewrite Hh, Hi. cbv zeta. destruct (coalesce_next_rep _ _ _ _ _ H1) as (t & post' & _ & H2). set (a := base + blocks_size pre) in *. set (h1 := store _ _ _) in *. set (h2 := coalesce_next _ _) in *.
  pose proof (rep0_split _ _ _ _ _ H2) as (Hb & _ & _ & _ & _ & _ & _ & _ & Wa & _ & _ & _ & Sa & Cb & _). cbn [free_nodes] in Cb. apply chain_cons in Cb as (C1 & _). fold a in Wa, C1.
  rewrite (pred_loop_ok (free_nodes base pre) fuel h2 HeadRef base _ Sa Wa Hb C1 ltac:(lia) : pred_loop fuel h2 0 (hp_head h2) _ = _). intros [= <-].
  destruct (elsewhere_apart base pre (Used s) post w Hsz Hb8 He) as [[Hw Hu]|[Hw Hst]]; fold a in Hw; cbn [b_size] in Hw.
  - rewrite coalesce_prev_frame; [unfold h2; rewrite coalesce_next_frame by (unfold WORD; lia)|].
    + unfold h1. rewrite store_end_used by done. unfold set_next, set_size, WORD. by rewrite !set_word_other by lia.
    + destruct (decide (free_nodes base pre = [])) as [->|Hne]; [by left|]. right. destruct (end_ref_elem HeadRef _ Hne) as (n & sn & Hn & ->). cbn [ref_node]. destruct Hu as (x & sx & Hx & Hwx).
      destruct (within_elem _ _ _ _ _ (free_within base pre Hp Hb8) Hn) as (_ & _ & _ & [? _]). unfold WORD. destruct (nodes_disjoint base pre x sx n sn Hp Hx Hn); lia.
  - rewrite coalesce_prev_frame; [unfold h2; rewrite coalesce_next_frame by (unfold WORD; lia)|].
    + unfold h1. rewrite Hst. unfold set_next, set_size, WORD. by rewrite !set_word_other by lia.
    + destruct (decide (free_nodes base pre = [])) as [->|Hne]; [by left|]. right. destruct (end_ref_elem HeadRef _ Hne) as (n & sn & Hn & ->). cbn [ref_node].
      destruct (within_elem _ _ _ _ _ (free_within base pre Hp Hb8) Hn) as (? & ? & _ & [? _]). unfold WORD. lia.
Qed.

(** * Steps *)

Section heap.
Context (mem : Z → Z) (base len : Z) (fuel : nat).

(** The part of the region that is used, in whole blocks. *)
Definition heap_lo : Z := base + align_offset base.
Definition heap_usable : Z := align_down (len - align_offset base).

(** The heap, with the pointers that were given out and have not been freed, and the
    sizes that were asked for. A client may write to its memory. *)
Inductive heap_reachable : Heap → list (Z * Z) → Prop :=
  | reach_init : heap_reachable (heap_init (heap_new mem) base len) []
  | reach_alloc h live size align p h' :
      heap_reachable h live → 0 <= size < 2 ^ 31 → heap_alloc fuel h size align = Some (p, h') → heap_reachable h' (if decide (p = 0) then live else (p, size) :: live)
  | reach_free h l1 p n l2 h' :
      heap_reachable h (l1 ++ (p, n) :: l2) → heap_dealloc fuel h p = Some h' → heap_reachable h' (l1 ++ l2)
  | reach_write h live p n w v :
      heap_reachable h live → (p, n) ∈ live → p <= w < p + n → heap_reachable (set_word h w v) live.

(** The memory of the clients is not changed. *)
Definition kept (h h' : Heap) (live : list (Z * Z)) : Prop := ∀ q m w, (q, m) ∈ live → q <= w < q + m → hp_mem h' w = hp_mem h w.

(** The block of an allocation. *)
Definition block_of (n : Z * Z) : Z * Z := (n.1 - HEAP_HEADER_SIZE, block_size_for n.2).

Definition heap_inv (h : Heap) (live : list (Z * Z)) : Prop :=
  ∃ bs, rep h heap_lo bs ∧ blocks_size bs = heap_usable ∧ used_nodes heap_lo bs ≡ₚ block_of <$> live ∧ Forall (λ n, 0 <= n.2 < 2 ^ 31) live.

Hypothesis base_pos : 0 < base.
Hypothesis region_ok : base + len <= 2 ^ 32.
Hypothesis region_large : 16 <= len.
Hypothesis fuel_ok : heap_usable < Z.of_nat fuel.

Lemma region_bounds : base <= heap_lo ∧ heap_lo mod 8 = 0 ∧ size_ok heap_usable ∧ heap_lo + heap_usable <= base + len.
Proof.
  unfold heap_lo, heap_usable, align_offset, ALIGN, size_ok. pose proof (Z.mod_pos_bound (- base) 8 ltac:(lia)). rewrite align_down_spec by lia.
  pose proof (Z.div_mod (len - - base mod 8) 8 ltac:(lia)). pose proof (Z.mod_pos_bound (len - - base mod 8) 8 ltac:(lia)). split; [lia|]. split; [|split; [split; [lia|by rewrite Z.mod_mul]|lia]].
  pose proof (Z.div_mod (- base) 8 ltac:(lia)). replace (base + - base mod 8) with ((- (- base / 8)) * 8) by lia. by rewrite Z.mod_mul.
Qed.

Lemma inv_init : heap_inv (heap_init (heap_new mem) base len) [].
Proof.
  destruct region_bounds as (H1 & H2 & [H3 H4] & H5). exists [Free heap_usable]. assert (align_offset base < 8) by (unfold align_offset, ALIGN; pose proof (Z.mod_pos_bound (- base) 8); lia).
  split_and!; [|cbn; lia|done|constructor]. unfold heap_init. rewrite decide_False by lia. fold heap_usable heap_lo. cbv zeta. unfold FREE_NODE_SIZE. rewrite decide_False by lia.
  split; [lia|]. split; [done|]. split; [split; [by repeat constructor|done]|]. split; [|intros a s Ha; by apply elem_of_nil in Ha].
  cbn [free_nodes]. apply chain_cons. split; [done|]. split; [cbn; rewrite decide_False by (unfold WORD; lia); by rewrite decide_True|]. split; [done|]. cbn. by rewrite decide_True.
Qed.

Lemma blocks_length bs : Forall (λ b, size_ok (b_size b)) bs → Z.of_nat (length bs) <= blocks_size bs.
Proof. induction 1 as [|b bs [Hb _] _ IH]; cbn; [done|]. unfold blocks_size in *. lia. Qed.

Lemma inv_fuel h bs : rep h heap_lo bs → blocks_size bs = heap_usable → (length bs < fuel)%nat.
Proof. intros (_ & _ & [Hs _] & _) Hb. pose proof (blocks_length bs Hs). lia. Qed.

(** ** Room *)

(** A stretch that meets no used block lies in a free one. *)
Lemma gap_in_free lo bs a n :
  Forall (λ b, size_ok (b_size b)) bs → apart bs → lo <= a → 0 < n → a + n <= lo + blocks_size bs →
  (∀ x sx, (x, sx) ∈ used_nodes lo bs → x + sx <= a ∨ a + n <= x) → ∃ y sy, (y, sy) ∈ free_nodes lo bs ∧ n <= sy.
Proof.
  intros H. revert lo. induction H as [|b bs [Hb _] Hbs IH]; intros lo Ha Hlo Hn Hle Hu; cbn [blocks_size foldr] in Hle; [lia|]. fold (blocks_size bs) in Hle.
  destruct (decide (lo + b_size b <= a)) as [Hc|Hc].
  - destruct (IH (lo + b_size b) (apart_tail _ _ Ha) Hc Hn ltac:(lia)) as (y & sy & Hy & Hs); [|exists y, sy; split; [|done]; destruct b; cbn; [by right|done]].
    intros x sx Hx. apply Hu. destruct b; cbn; [done|by right].
  - destruct b as [s|s]; cbn [b_size used_nodes free_nodes] in *; [|destruct (Hu lo s); [by left|lia|lia]].
    destruct (decide (a + n <= lo + s)) as [Hin|Hout]; [exists lo, s; split; [by left|lia]|]. destruct bs as [|[t|t] bs]; cbn in Hle; [lia|done|].
    apply Forall_cons_1 in Hbs as [[Ht _] _]. cbn in Ht. destruct (Hu (lo + s) t); [by left|lia|lia].
Qed.

(** No stretch of the size is free of clients' blocks. *)
Definition no_room (size : Z) (live : list (Z * Z)) : Prop :=
  ∀ a, heap_lo <= a → a + block_size_for size <= heap_lo + heap_usable →
    ∃ q m, (q, m) ∈ live ∧ (block_of (q, m)).1 < a + block_size_for size ∧ a < (block_of (q, m)).1 + (block_of (q, m)).2.

Lemma no_room_intro h bs live size :
  rep h heap_lo bs → blocks_size bs = heap_usable → used_nodes heap_lo bs ≡ₚ block_of <$> live → 0 <= size < 2 ^ 31 →
  Forall (λ n, n.2 < block_size_for size) (free_nodes heap_lo bs) → no_room size live.
Proof.
  intros (_ & _ & [Hs Ha] & _) Hb Hp Hsz Hf a Hlo Hhi. destruct (block_size_ok size Hsz) as [[Hbs _] _].
  destruct (decide (Exists (λ n, (block_of n).1 < a + block_size_for size ∧ a < (block_of n).1 + (block_of n).2) live)) as [He|He].
  - apply Exists_exists in He as ([q m] & Hq%list_elem_of_In & H). exists q, m. split; [done|exact H].
  - exfalso. destruct (gap_in_free heap_lo bs a (block_size_for size) Hs Ha Hlo ltac:(lia) ltac:(lia)) as (y & sy & Hy & Hsy).
    + intros x sx Hx. rewrite Hp in Hx. apply list_elem_of_fmap in Hx as (n & E & Hn). destruct (decide (x + sx <= a)); [by left|]. right. apply Z.le_ngt. intros Hlt.
      apply He, Exists_exists. exists n. rewrite <- E. cbn. split; [by apply list_elem_of_In|lia].
    + rewrite Forall_forall in Hf. apply list_elem_of_In in Hy. specialize (Hf _ Hy). cbn in Hf. lia.
Qed.

(** ** Allocating *)

Lemma used_taken lo pre s post total :
  used_nodes lo (pre ++ taken total s post) = used_nodes lo pre ++ (lo + blocks_size pre, total) :: used_nodes (lo + blocks_size pre + s) post.
Proof.
  rewrite used_nodes_app. unfold taken. case_decide as E; cbn [used_nodes]; [by rewrite E|]. by replace (lo + blocks_size pre + total + (s - total)) with (lo + blocks_size pre + s) by lia.
Qed.

Lemma taken_size total s post : blocks_size (taken total s post) = s + blocks_size post.
Proof. unfold taken. case_decide; cbn; unfold blocks_size; lia. Qed.

(** A word of a client's memory is in its block. *)
Lemma live_word lo bs live q m w :
  used_nodes lo bs ≡ₚ block_of <$> live → Forall (λ n, 0 <= n.2 < 2 ^ 31) live → (q, m) ∈ live → q <= w < q + m → in_used lo bs w.
Proof.
  intros Hp Hs Hq Hw. pose proof Hs as Hs0. rewrite Forall_forall in Hs. specialize (Hs _ (proj1 (list_elem_of_In _ _) Hq)). cbn in Hs. destruct (block_size_ok m Hs) as [_ Hb]. unfold HEAP_HEADER_SIZE, WORD in Hb.
  exists (q - HEAP_HEADER_SIZE), (block_size_for m). unfold HEAP_HEADER_SIZE, WORD. split; [|lia]. rewrite Hp. apply list_elem_of_fmap. by exists (q, m).
Qed.

Lemma in_used_app lo pre post w : in_used lo (pre ++ post) w ↔ in_used lo pre w ∨ in_used (lo + blocks_size pre) post w.
Proof.
  unfold in_used. rewrite used_nodes_app. split.
  - intros (x & sx & Hx & Hw). apply elem_of_app in Hx as [Hx|Hx]; [left|right]; by exists x, sx.
  - intros [(x & sx & Hx & Hw)|(x & sx & Hx & Hw)]; exists x, sx; (split; [|done]); apply elem_of_app; [by left|by right].
Qed.

Lemma inv_alloc h live size align :
  heap_inv h live → 0 <= size < 2 ^ 31 →
  ∃ p h', heap_alloc fuel h size align = Some (p, h') ∧ kept h h' live ∧
    heap_inv h' (if decide (p = 0) then live else (p, size) :: live) ∧ (p = 0 → ALIGN < align ∨ no_room size live).
Proof.
  intros (bs & Hr & Hb & Hp & Hl) Hsz. pose proof (inv_fuel h bs Hr Hb) as Hf. destruct (decide (ALIGN < align)) as [Hal|Hal].
  { exists 0, h. unfold heap_alloc. rewrite decide_True by done. split; [done|]. split; [by intros ?|]. split; [by exists bs|]. by left. }
  pose proof (heap_alloc_ok fuel h heap_lo bs size align Hr Hsz ltac:(lia) Hf) as H.
  destruct (spec_alloc_cases heap_lo (block_size_for size) bs) as [[E Hall]|(pre & s & post & -> & Hle & Hall & E)]; rewrite E in H.
  - exists 0, h. split; [done|]. split; [by intros ?|]. split; [by exists bs|]. intros _. right. by apply (no_room_intro h bs).
  - pose proof Hr as [Hr0 _]%rep_rep0. destruct (block_size_ok size Hsz) as [Ht _]. pose proof Hr as (H0 & H8 & [Hs _] & Hc & _). unfold heap_alloc in *. rewrite decide_False in * by lia.
    rewrite free_nodes_app in Hc. cbn [free_nodes] in Hc. pose proof (free_within heap_lo _ Hs H8) as Hw. rewrite free_nodes_app in Hw. cbn [free_nodes] in Hw.
    pose proof (free_nodes_length heap_lo pre). rewrite length_app in Hf. cbn in Hf. rewrite (alloc_loop_found _ _ _ _ fuel _ _ _ _ _ Hc Hw H0 Hall Hle ltac:(lia)) in *. destruct H as (h' & [= <-] & Hr').
    pose proof (size_mod8 heap_lo pre ltac:(by apply Forall_app in Hs as [? _]) H8) as [_ Hpos]. eexists _, _. split; [reflexivity|]. rewrite decide_False by (unfold HEAP_HEADER_SIZE, WORD; lia). split; [|split].
    + intros q m w Hq Hqw. apply take_block_frame with (s := s) (post := post); [done..|]. pose proof (live_word _ _ _ q m w Hp Hl Hq Hqw) as Hu. apply in_used_app in Hu as [Hu|Hu]; [by left|right]. exact Hu.
    + exists (pre ++ taken (block_size_for size) s post). split; [done|]. split; [rewrite blocks_size_app, taken_size; rewrite blocks_size_app in Hb; exact Hb|]. split; [|by constructor].
      rewrite used_taken. rewrite used_nodes_app in Hp. cbn [used_nodes] in Hp. cbn [fmap list_fmap]. change (list_fmap _ _ block_of live) with (block_of <$> live). rewrite <- Hp.
      unfold block_of at 1. cbn [fst snd]. replace (heap_lo + blocks_size pre + HEAP_HEADER_SIZE - HEAP_HEADER_SIZE) with (heap_lo + blocks_size pre) by lia. by rewrite Permutation_middle.
    + unfold HEAP_HEADER_SIZE, WORD. lia.
Qed.

(** ** Freeing *)

Lemma used_split lo bs a s : (a, s) ∈ used_nodes lo bs → ∃ pre post, bs = pre ++ Used s :: post ∧ a = lo + blocks_size pre.
Proof.
  revert lo. induction bs as [|b bs IH]; intros lo Ha; [by apply elem_of_nil in Ha|]. destruct b as [t|t]; cbn in Ha.
  - destruct (IH _ Ha) as (pre & post & -> & ->). exists (Free t :: pre), post. split; [done|]. cbn. unfold blocks_size. lia.
  - apply elem_of_cons in Ha as [[= -> ->]|Ha]; [exists [], bs; split; [done|cbn; lia]|]. destruct (IH _ Ha) as (pre & post & -> & ->). exists (Used t :: pre), post. split; [done|]. cbn. unfold blocks_size. lia.
Qed.

Lemma used_join lo b bs : used_nodes lo (join b bs) = used_nodes lo (b :: bs).
Proof. destruct b as [s|s], bs as [|[t|t] bs]; cbn; try done. by rewrite Z.add_assoc. Qed.

Lemma size_join b bs : blocks_size (join b bs) = blocks_size (b :: bs).
Proof. destruct b as [s|s], bs as [|[t|t] bs]; cbn; try done. unfold blocks_size. lia. Qed.

Lemma joined pre s post lo :
  used_nodes lo (foldr join (join (Free s) post) pre) = used_nodes lo (pre ++ Free s :: post) ∧ blocks_size (foldr join (join (Free s) post) pre) = blocks_size (pre ++ Free s :: post).
Proof.
  revert lo. induction pre as [|b pre IH]; intros lo; cbn [foldr app]; [by rewrite used_join, size_join|]. rewrite used_join, size_join. destruct (IH (lo + b_size b)) as [I1 I2].
  destruct b; cbn [used_nodes b_size blocks_size foldr] in *; rewrite I1; unfold blocks_size in *; by rewrite I2.
Qed.

Lemma inv_free h l1 p n l2 :
  heap_inv h (l1 ++ (p, n) :: l2) → ∃ h', heap_dealloc fuel h p = Some h' ∧ kept h h' (l1 ++ l2) ∧ heap_inv h' (l1 ++ l2).
Proof.
  intros (bs & Hr & Hb & Hp & Hl). pose proof (inv_fuel h bs Hr Hb) as Hf. assert (block_of (p, n) ∈ used_nodes heap_lo bs) as Hin by (rewrite Hp; apply list_elem_of_fmap_2, elem_of_app; right; by left).
  unfold block_of in Hin. cbn [fst snd] in Hin. apply used_split in Hin as (pre & post & -> & Ha). set (s := block_size_for n) in *.
  destruct (heap_dealloc_ok fuel h heap_lo pre s post Hr Hf) as (h' & E & Hr'). rewrite <- Ha in E. replace (p - HEAP_HEADER_SIZE + HEAP_HEADER_SIZE) with p in E by lia.
  pose proof Hr as [Hr0 _]%rep_rep0. pose proof Hr as (_ & _ & [Hs _] & _). apply Forall_app in Hs as [Hs _].
  assert (Forall (λ n, 0 <= n.2 < 2 ^ 31) (l1 ++ l2)) as Hl' by (apply Forall_app in Hl as [? Hl]; apply Forall_app; split; [done|]; by apply Forall_cons_1 in Hl as [_ ?]).
  rewrite spec_free_join in Hr' by done. destruct (joined pre s post heap_lo) as [J1 J2].
  assert (used_nodes heap_lo (pre ++ Free s :: post) ≡ₚ block_of <$> (l1 ++ l2)) as Hp'.
  { rewrite used_nodes_app in Hp |- *. cbn [used_nodes] in Hp |- *. rewrite <- Permutation_middle, fmap_app in Hp. cbn [fmap list_fmap] in Hp. rewrite <- Permutation_middle in Hp. rewrite <- Ha in Hp |- *. change (block_of (p, n)) with (p - HEAP_HEADER_SIZE, s) in Hp.
    apply Permutation_cons_inv in Hp. rewrite Hp. by rewrite fmap_app. }
  exists h'. split; [done|]. split.
  - intros q m w Hq Hw. apply (dealloc_frame fuel h h' heap_lo pre s post w Hr0 Hf).
    + pose proof (live_word _ _ _ q m w Hp' Hl' Hq Hw) as Hu. apply in_used_app in Hu as [Hu|Hu]; [by left|right]. exact Hu.
    + rewrite <- Ha. replace (p - HEAP_HEADER_SIZE + HEAP_HEADER_SIZE) with p by lia. done.
  - exists (foldr join (join (Free s) post) pre). split; [done|]. split; [rewrite J2; rewrite !blocks_size_app in *; exact Hb|]. split; [by rewrite J1|done].
Qed.
(** ** Writing *)

Lemma chain_write h p l w v :
  chain h p l → (∀ n, p = NextRef n → w ≠ n + WORD) → (∀ x sx, (x, sx) ∈ l → w ≠ x ∧ w ≠ x + WORD) → chain (set_word h w v) p l.
Proof.
  revert p. induction l as [|[x sx] l IH]; intros p Hc Hp Hl.
  - destruct Hc as [_ Hc]. split; [done|]. cbn [end_ref] in *. rewrite <- Hc. destruct p as [|n]; [done|]. apply set_word_other. intros E. by apply (Hp n).
  - rewrite chain_cons in Hc |- *. destruct Hc as (C1 & C2 & C3). destruct (Hl x sx ltac:(by left)) as [L1 L2]. split; [|split].
    + rewrite <- C1. destruct p as [|n]; [done|]. apply set_word_other. intros E. by apply (Hp n).
    + unfold node_size in *. by rewrite set_word_other.
    + apply IH; [done| |intros y sy Hy; apply (Hl y sy); by right]. by intros n [= <-].
Qed.

Lemma inv_write h live p n w v : heap_inv h live → (p, n) ∈ live → p <= w < p + n → heap_inv (set_word h w v) live.
Proof.
  intros (bs & Hr & Hb & Hp & Hl) Hin Hw. exists bs. split; [|done]. destruct Hr as (H0 & H8 & [Hs Ha] & Hc & Hu). pose proof Hl as Hn. rewrite Forall_forall in Hn.
  specialize (Hn _ (proj1 (list_elem_of_In _ _) Hin)). cbn in Hn. destruct (block_size_ok n Hn) as [_ Hbs]. unfold HEAP_HEADER_SIZE, WORD in *.
  assert ((p - 4, block_size_for n) ∈ used_nodes heap_lo bs) as Hx by (rewrite Hp; apply list_elem_of_fmap; by exists (p, n)).
  split; [done|]. split; [done|]. split; [done|]. split.
  - apply chain_write; [done|done|]. intros x sx Hf. destruct (within_elem _ _ _ _ _ (free_within heap_lo bs Hs H8) Hf) as (_ & _ & _ & [? _]). unfold WORD.
    destruct (nodes_disjoint heap_lo bs _ _ x sx Hs Hx Hf); lia.
  - intros a s Has. rewrite set_word_other; [by apply Hu|]. intros <-. apply used_split in Hx as (pre & post & -> & Ea). rewrite used_nodes_app in Has. cbn [used_nodes] in Has.
    apply Forall_app in Hs as [Hs1 Hs2]. apply Forall_cons_1 in Hs2 as [Hs2 Hs3]. cbn in Hs2. destruct (size_mod8 _ pre Hs1 H8) as [Ha8 _]. rewrite <- Ea in *.
    apply elem_of_app in Has as [Has|Has]; [destruct (within_elem _ _ _ _ _ (used_within heap_lo pre Hs1 H8) Has) as (_ & ? & _ & [? _]); lia|].
    apply elem_of_cons in Has as [[= E _]|Has]; [lia|].
    assert ((p - 4 + block_size_for n) mod 8 = 0) as Hm by (rewrite Zplus_mod, Ha8; destruct Hs2 as [_ ->]; done).
    destruct (within_elem _ _ _ _ _ (used_within _ post Hs3 Hm) Has) as (? & _). lia.
Qed.

Lemma heap_reachable_inv h live : heap_reachable h live → heap_inv h live.
Proof.
  induction 1 as [|h live size align p h' _ IH Hs E|h l1 p n l2 h' _ IH E|h live p n w v _ IH Hin Hw].
  - exact inv_init.
  - destruct (inv_alloc h live size align IH Hs) as (p2 & h2 & E2 & _ & H & _). rewrite E in E2. injection E2 as <- <-. exact H.
  - destruct (inv_free h l1 p n l2 IH) as (h2 & E2 & _ & H). rewrite E in E2. injection E2 as <-. exact H.
  - by apply (inv_write h live p n).
Qed.

(** ** The view of a client *)

Lemma inv_bounds h live p n : heap_inv h live → (p, n) ∈ live → base <= p ∧ p + n <= base + len ∧ p mod 8 = 4.
Proof.
  intros (bs & (H0 & H8 & [Hs _] & _) & Hb & Hp & Hl) Hin. rewrite Forall_forall in Hl. specialize (Hl _ (proj1 (list_elem_of_In _ _) Hin)). cbn in Hl. destruct (block_size_ok n Hl) as [_ Hbs].
  assert (block_of (p, n) ∈ used_nodes heap_lo bs) as Hx by (rewrite Hp; by apply list_elem_of_fmap_2). unfold block_of in Hx. cbn [fst snd] in Hx.
  destruct (within_elem _ _ _ _ _ (used_within heap_lo bs Hs H8) Hx) as (B1 & B2 & B3 & _). unfold HEAP_HEADER_SIZE, WORD in *. pose proof region_bounds as (R1 & _ & _ & R4).
  split; [lia|]. split; [lia|]. replace p with (p - 4 + 4) by lia. by rewrite Zplus_mod, B3.
Qed.

Lemma within_order lo hi l i j x y : within lo hi l → l !! i = Some x → l !! j = Some y → (i < j)%nat → x.1 + x.2 <= y.1.
Proof.
  revert lo i j. induction l as [|[a s] l IH]; intros lo i j Hw Hi Hj Hij; [done|]. destruct Hw as (_ & _ & _ & Hw). destruct j as [|j]; [lia|]. cbn in Hj. destruct i as [|i]; cbn in Hi.
  - injection Hi as <-. apply list_elem_of_lookup_2 in Hj. destruct y as [b t]. destruct (within_elem _ _ _ _ _ Hw Hj) as (? & _). cbn. lia.
  - apply (IH _ i j Hw Hi Hj). lia.
Qed.

Lemma inv_disjoint h live i j p n q m :
  heap_inv h live → live !! i = Some (p, n) → live !! j = Some (q, m) → i ≠ j → p + n <= q ∨ q + m <= p.
Proof.
  intros (bs & (H0 & H8 & [Hs _] & _) & Hb & Hp & Hl) Hi Hj Hij. pose proof (used_within heap_lo bs Hs H8) as Hw. symmetry in Hp.
  apply Permutation_inj in Hp as (_ & f & Hinj & Hf). pose proof Hl as Hl2. rewrite Forall_lookup in Hl. pose proof (Hl _ _ Hi) as Hn. pose proof (Hl _ _ Hj) as Hm. cbn in Hn, Hm.
  destruct (block_size_ok n Hn) as [_ B1]. destruct (block_size_ok m Hm) as [_ B2]. unfold HEAP_HEADER_SIZE, WORD in *.
  assert (∀ k x, live !! k = Some x → used_nodes heap_lo bs !! f k = Some (block_of x)) as Hk by (intros k x Hx; rewrite <- Hf, list_lookup_fmap, Hx; done).
  apply Hk in Hi, Hj. assert (f i ≠ f j) as Hne by (intros E; by apply Hij, Hinj). unfold block_of, HEAP_HEADER_SIZE, WORD in Hi, Hj.
  destruct (decide (f i < f j)%nat) as [Hlt|Hge]; [left; pose proof (within_order _ _ _ _ _ _ _ Hw Hi Hj Hlt); cbn in *; lia|].
  right. pose proof (within_order _ _ _ _ _ _ _ Hw Hj Hi ltac:(lia)). cbn in *. lia.
Qed.

(** With nothing allocated there is one free block, the whole region. *)
Lemma inv_empty h : heap_inv h [] → hp_head h = heap_lo ∧ node_size h heap_lo = heap_usable ∧ node_next h heap_lo = 0.
Proof.
  intros (bs & (H0 & H8 & [Hs Ha] & Hc & _) & Hb & Hp & _). apply Permutation_nil_r in Hp. pose proof region_bounds as (_ & _ & [Hu _] & _).
  destruct bs as [|[s|s] bs]; [cbn in Hb; lia| |done]. destruct bs as [|[t|t] bs]; [|done|done].
  cbn in Hb. rewrite Z.add_0_r in Hb. cbn [free_nodes] in Hc. apply chain_cons in Hc as (C1 & C2 & _ & C3). subst s. done.
Qed.
End heap.

(** C21: the heap is an allocator. After any history of allocations, frees of what was
    allocated and writes to allocated memory, what the clients have lies in the region
    and does not overlap. Allocating and freeing come to an end, with fuel for the
    largest possible number of blocks, and change no byte of what other clients have. An
    allocation fails only if its alignment is above 8 or its block fits nowhere between
    the blocks of the clients; and once everything has been freed the region is one free
    block again. *)
Theorem heap_serves_clients mem base len fuel h live :
  0 < base → base + len <= 2 ^ 32 → 16 <= len → heap_usable base len < Z.of_nat fuel → heap_reachable mem base len fuel h live →
  (∀ p n, (p, n) ∈ live → base <= p ∧ p + n <= base + len) ∧
  (∀ i j p n q m, live !! i = Some (p, n) → live !! j = Some (q, m) → i ≠ j → p + n <= q ∨ q + m <= p) ∧
  (∀ size align, 0 <= size < 2 ^ 31 → ∃ p h', heap_alloc fuel h size align = Some (p, h') ∧ kept h h' live ∧ (p = 0 → ALIGN < align ∨ no_room base len size live)) ∧
  (∀ l1 p n l2, live = l1 ++ (p, n) :: l2 → ∃ h', heap_dealloc fuel h p = Some h' ∧ kept h h' (l1 ++ l2)) ∧
  (live = [] → hp_head h = heap_lo base ∧ node_size h (heap_lo base) = heap_usable base len ∧ node_next h (heap_lo base) = 0).
Proof.
  intros H1 H2 H3 H4 Hr. apply heap_reachable_inv in Hr; [|done..]. split; [|split; [|split; [|split]]].
  - intros p n Hin. destruct (inv_bounds base len fuel H1 H2 H3 h live p n Hr Hin) as (? & ? & _). done.
  - intros i j p n q m. by apply (inv_disjoint base len fuel h live).
  - intros size align Hs. destruct (inv_alloc base len fuel H4 h live size align Hr Hs) as (p & h' & E & K & _ & N). by exists p, h'.
  - intros l1 p n l2 ->. destruct (inv_free base len fuel H4 h l1 p n l2 Hr) as (h' & E & K & _). by exists h'.
  - intros ->. by apply (inv_empty base len fuel).
Qed.

(** ** Example *)

Definition ex_heap0 : Heap := heap_init (heap_new (λ _, 0)) 1000 64.
Definition ex_heap_alloc (h : Heap) (size : Z) : Z * Heap := default (0, h) (heap_alloc 70 h size 1).
Definition ex_heap1 : Z * Heap := ex_heap_alloc ex_heap0 10.
Definition ex_heap2 : Z * Heap := ex_heap_alloc ex_heap1.2 20.

Lemma ex_heap_reachable : heap_reachable (λ _, 0) 1000 64 70 ex_heap2.2 [(1020, 20); (1004, 10)].
Proof.
  apply (reach_alloc _ _ _ _ ex_heap1.2 [(1004, 10)] 20 1 1020 ex_heap2.2); [|lia|reflexivity].
  apply (reach_alloc _ _ _ _ ex_heap0 [] 10 1 1004 ex_heap1.2); [|lia|reflexivity]. apply reach_init.
Qed.

Lemma heap_serves_clients_witness :
  (∃ p h', heap_alloc 70 ex_heap2.2 4 8 = Some (p, h') ∧ kept ex_heap2.2 h' [(1020, 20); (1004, 10)]) ∧
  (∃ h', heap_dealloc 70 ex_heap2.2 1004 = Some h' ∧ kept ex_heap2.2 h' [(1020, 20)]).
Proof.
  destruct (heap_serves_clients (λ _, 0) 1000 64 70 ex_heap2.2 [(1020, 20); (1004, 10)] ltac:(lia) ltac:(lia) ltac:(lia) ltac:(reflexivity) ex_heap_reachable) as (_ & _ & Ha & Hf & _). split.
  - destruct (Ha 4 8 ltac:(lia)) as (p & h' & E & K & _). exists p, h'. split; [exact E|exact K].
  - exact (Hf [(1020, 20)] 1004 10 [] eq_refl).
Defined.

(** * Alignment *)

(** Memory with an alignment of 8 is never aligned to 8: the header in front of it has
    four bytes. *)
Lemma heap_misaligns mem base len fuel h live size align p h' :
  0 < base → base + len <= 2 ^ 32 → 16 <= len → heap_usable base len < Z.of_nat fuel → heap_reachable mem base len fuel h live →
  0 <= size < 2 ^ 31 → heap_alloc fuel h size align = Some (p, h') → p ≠ 0 → p mod 8 = 4.
Proof.
  intros H1 H2 H3 H4 Hr Hs E Hp. pose proof (reach_alloc _ _ _ _ _ _ _ _ _ _ Hr Hs E) as Hr'. rewrite decide_False in Hr' by done. apply heap_reachable_inv in Hr'; [|done..].
  destruct (inv_bounds base len fuel H1 H2 H3 h' _ p size Hr' ltac:(by left)) as (_ & _ & H). done.
Qed.
