(* ===== verification/Graphics.v ===== *)
(** The drawing library, [shared/lilla-oxid/src/graphics.rs]: surfaces of pixels that are
    packed into bytes, shapes, and copying surfaces onto each other.

    An image and a view of a part of it ([SubImage], [ROSubImage]) have the same fields:
    both are a [Surface], and drawing on a view changes the bytes of the image. Coordinates
    are 32-bit signed integers, indices have 32 bits, and both wrap, as they do in the
    firmware, which is built without overflow checks; an index outside of the bytes is a
    panic. Loops that are not over a range take fuel and give [Panic] without it. *)

From S2P Require Import Prelude.

Open Scope Z_scope.

Inductive Color := White | LightGrey | Grey | DarkGrey | Black.

#[export] Instance Color_eq_dec : EqDecision Color.
Proof. solve_decision. Defined.

Inductive ImageFormat := Mono | TwoBpp | EightBpp.

#[export] Instance ImageFormat_eq_dec : EqDecision ImageFormat.
Proof. solve_decision. Defined.

(** [format as usize] *)
Definition format_bits (f : ImageFormat) : Z := match f with Mono => 1 | TwoBpp => 2 | EightBpp => 8 end.

Record Point := mkPoint { p_x : Z; p_y : Z }.
Record Size := mkSize { s_w : Z; s_h : Z }.
Record Rect := mkRect { r_origin : Point; r_size : Size }.

Record Surface := mkSurface {
  sf_size : Size;
  sf_format : ImageFormat;
  sf_pitch : Z;
  sf_sub : Point;
  sf_data : list Z;
}.

Definition i32 (x : Z) : Z := to_signed 32 x.
Definition usize (x : Z) : Z := wrap 32 x.

Definition with_bytes (s : Surface) (data : list Z) : Surface := mkSurface (sf_size s) (sf_format s) (sf_pitch s) (sf_sub s) data.

(** [(size.w as usize * bpp + 7) / 8] *)
Definition pitch_for (size : Size) (format : ImageFormat) : Z := usize (usize (usize (s_w size) * format_bits format) + 7) / 8.

Definition image_new (size : Size) (format : ImageFormat) : Surface :=
  let pitch := pitch_for size format in
  mkSurface size format pitch (mkPoint 0 0) (replicate (Z.to_nat (usize (usize (s_h size) * pitch))) 0).

Definition from_vec (size : Size) (format : ImageFormat) (data : list Z) : option Surface :=
  let pitch := pitch_for size format in
  if decide (Z.of_nat (length data) < usize (usize (s_h size) * pitch)) then None
  else Some (mkSurface size format pitch (mkPoint 0 0) data).

(** [subimage] and [ro_subimage] *)
Definition subimage (s : Surface) (area : Rect) : Surface :=
  mkSurface (r_size area) (sf_format s) (sf_pitch s)
    (mkPoint (i32 (p_x (sf_sub s) + p_x (r_origin area))) (i32 (p_y (sf_sub s) + p_y (r_origin area)))) (sf_data s).

(** * Colours *)

Definition color_to_mono (p : Point) (c : Color) : bool :=
  match c with
  | White => false
  | Black => true
  | Grey => bool_decide (Z.rem (p_x p) 2 ≠ Z.rem (p_y p) 2)
  | LightGrey => bool_decide (Z.rem (p_x p) 2 = 1 ∧ Z.rem (p_y p) 3 = 2)
  | DarkGrey => bool_decide (Z.rem (p_x p) 2 ≠ 1 ∨ Z.rem (p_y p) 3 ≠ 2)
  end.

(** The derived order. *)
Definition color_as_u8 (c : Color) : Z := match c with White => 0 | LightGrey => 1 | Grey => 2 | DarkGrey => 3 | Black => 4 end.

Definition color_to_2bpp (c : Color) : Z :=
  if decide (color_as_u8 c < color_as_u8 LightGrey) then 0
  else if decide (color_as_u8 c < color_as_u8 DarkGrey) then 1
  else if decide (color_as_u8 c < color_as_u8 Black) then 2
  else 3.

Definition color_from_2bpp (v : Z) : Color :=
  if decide (v = 0) then White else if decide (v = 1) then LightGrey else if decide (v = 2) then DarkGrey else Black.

Definition color_from_u8 (v : Z) : Color :=
  if decide (v = 0) then White else if decide (v = 1) then LightGrey else if decide (v = 2) then Grey else if decide (v = 3) then DarkGrey else Black.

(** * Pixels *)

(** [(1u8 << bpp) - 1]; the distance of a shift is taken modulo 8. *)
Definition pixel_mask (f : ImageFormat) : Z := wrap 8 (wrap 8 (Z.shiftl 1 (format_bits f mod 8)) - 1).

(** The byte and the shift of a pixel. *)
Definition pixels_per_byte (f : ImageFormat) : Z := 8 / format_bits f.
Definition pixel_byte (s : Surface) (bx by_ : Z) : nat := Z.to_nat (usize (by_ * sf_pitch s + bx / pixels_per_byte (sf_format s))).
Definition pixel_shift (f : ImageFormat) (bx : Z) : Z := format_bits f * (pixels_per_byte f - 1 - bx mod pixels_per_byte f).

Definition read_pixel (s : Surface) (p : Point) : exec Color :=
  let bx := usize (p_x (sf_sub s) + p_x p) in
  let by_ := usize (p_y (sf_sub s) + p_y p) in
  match sf_format s with
  | Mono =>
      let! b := idx (sf_data s) (Z.to_nat (usize (by_ * sf_pitch s + bx / 8))) in
      Ret (if decide (Z.land b (Z.shiftl 1 (7 - bx mod 8)) ≠ 0) then Black else White)
  | f =>
      let mask := pixel_mask f in
      let shift := pixel_shift f bx in
      let! b := idx (sf_data s) (pixel_byte s bx by_) in
      let found := Z.shiftr (Z.land b (wrap 8 (Z.shiftl mask shift))) shift in
      Ret (match f with TwoBpp => color_from_2bpp found | EightBpp => color_from_u8 found | Mono => White end)
  end.

(** The complement of a byte. *)
Definition not8 (x : Z) : Z := Z.lxor x 255.

Definition draw_pixel (s : Surface) (p : Point) (c : Color) : exec Surface :=
  if decide (p_x p < 0 ∨ p_y p < 0 ∨ s_w (sf_size s) <= p_x p ∨ s_h (sf_size s) <= p_y p) then Ret s else
  let bx := usize (p_x (sf_sub s) + p_x p) in
  let by_ := usize (p_y (sf_sub s) + p_y p) in
  match sf_format s with
  | Mono =>
      let byte := Z.to_nat (usize (by_ * sf_pitch s + bx / 8)) in
      let bit := Z.shiftl 1 (7 - bx mod 8) in
      let! b := idx (sf_data s) byte in
      let! data := set_idx (sf_data s) byte (if color_to_mono p c then Z.lor b bit else Z.land b (not8 bit)) in
      Ret (with_bytes s data)
  | f =>
      let byte := pixel_byte s bx by_ in
      let mask := pixel_mask f in
      let shift := pixel_shift f bx in
      let! b := idx (sf_data s) byte in
      let cleared := Z.land b (not8 (wrap 8 (Z.shiftl mask shift))) in
      let to_write := match f with TwoBpp => color_to_2bpp c | EightBpp => color_as_u8 c | Mono => 0 end in
      let! data := set_idx (sf_data s) byte (Z.lor cleared (wrap 8 (Z.shiftl (Z.land to_write mask) shift))) in
      Ret (with_bytes s data)
  end.

(** * Loops *)

(** [lo..hi] *)
Definition range (lo hi : Z) : list Z := (λ i, lo + Z.of_nat i) <$> List.seq 0 (Z.to_nat (hi - lo)).

Fixpoint for_each {A S} (l : list A) (f : A → S → exec S) (s : S) : exec S :=
  match l with
  | [] => Ret s
  | a :: l => let! s := f a s in for_each l f s
  end.

Section shapes.
Context (fuel : nat).

(** * Lines, rectangles and circles *)

(** The square around a point of a line. *)
Definition draw_dot (s : Surface) (start : Point) (half : Z) (c : Color) : exec Surface :=
  for_each (range (- half) (half + 1)) (λ oy, for_each (range (- half) (half + 1)) (λ ox s,
    draw_pixel s (mkPoint (i32 (p_x start + ox)) (i32 (p_y start + oy))) c)) s.

Fixpoint line_loop (fuel : nat) (s : Surface) (start end_ : Point) (dx dy sx sy err half : Z) (c : Color) : exec Surface :=
  match fuel with
  | O => Panic
  | S fuel =>
      let! s := draw_dot s start half c in
      if decide (p_x start = p_x end_ ∧ p_y start = p_y end_) then Ret s else
      let e2 := err in
      let '(err, x) := if decide (- dx < e2) then (i32 (err - dy), i32 (p_x start + sx)) else (err, p_x start) in
      let '(err, y) := if decide (e2 < dy) then (i32 (err + dx), i32 (p_y start + sy)) else (err, p_y start) in
      line_loop fuel s (mkPoint x y) end_ dx dy sx sy err half c
  end.

Definition draw_line (s : Surface) (start end_ : Point) (c : Color) (thickness : option Z) : exec Surface :=
  let dx := Z.abs (i32 (p_x end_ - p_x start)) in
  let sx := if decide (p_x start < p_x end_) then 1 else -1 in
  let dy := Z.abs (i32 (p_y end_ - p_y start)) in
  let sy := if decide (p_y start < p_y end_) then 1 else -1 in
  let err := Z.quot (if decide (dy < dx) then dx else - dy) 2 in
  let half := Z.quot (i32 (Z.max (default 1 thickness) 1)) 2 in
  line_loop fuel s start end_ dx dy sx sy err half c.

Definition draw_rect (s : Surface) (rect : Rect) (c : Color) : exec Surface :=
  let x0 := p_x (r_origin rect) in
  let y0 := p_y (r_origin rect) in
  let x1 := i32 (x0 + s_w (r_size rect)) in
  let y1 := i32 (y0 + s_h (r_size rect)) in
  let! s := draw_line s (mkPoint x0 y0) (mkPoint x1 y0) c None in
  let! s := draw_line s (mkPoint x0 y0) (mkPoint x0 y1) c None in
  let! s := draw_line s (mkPoint x1 y0) (mkPoint x1 y1) c None in
  draw_line s (mkPoint x0 y1) (mkPoint x1 y1) c None.

Definition fill_rect (s : Surface) (rect : Rect) (c : Color) : exec Surface :=
  for_each (range 0 (s_h (r_size rect))) (λ yo s,
    draw_line s (mkPoint (p_x (r_origin rect)) (i32 (p_y (r_origin rect) + yo)))
      (mkPoint (i32 (p_x (r_origin rect) + s_w (r_size rect))) (i32 (p_y (r_origin rect) + yo))) c None) s.

(** A point relative to another one. *)
Definition off (p : Point) (x y : Z) : Point := mkPoint (i32 (p_x p + x)) (i32 (p_y p + y)).

(** The loop of Jesko's algorithm, which the circles and the rounded rectangles share; [draw]
    is its body. *)
Fixpoint arc_loop (fuel : nat) (draw : Z → Z → Surface → exec Surface) (s : Surface) (t1 fx fy : Z) : exec Surface :=
  match fuel with
  | O => Panic
  | S fuel =>
      if decide (fx < fy) then Ret s else
      let! s := draw fx fy s in
      let fy := fy + 1 in
      let t1 := t1 + fy in
      let t2 := t1 - fx in
      if decide (0 <= t2) then arc_loop fuel draw s t2 (fx - 1) fy else arc_loop fuel draw s t1 fx fy
  end.

(** Points that are drawn one after the other. *)
Definition draw_points (c : Color) (ps : list Point) (s : Surface) : exec Surface := for_each ps (λ p s, draw_pixel s p c) s.
Definition draw_lines (c : Color) (ls : list (Point * Point)) (s : Surface) : exec Surface := for_each ls (λ l s, draw_line s l.1 l.2 c None) s.

Definition draw_circle (s : Surface) (center : Point) (r : Z) (c : Color) : exec Surface :=
  arc_loop fuel (λ fx fy, draw_points c
    [off center fx fy; off center (- fx) (- fy); off center fx (- fy); off center (- fx) fy;
     off center fy fx; off center (- fy) (- fx); off center fy (- fx); off center (- fy) fx]) s (Z.quot r 16) r 0.

Definition fill_circle (s : Surface) (center : Point) (r : Z) (c : Color) : exec Surface :=
  arc_loop fuel (λ fx fy, draw_lines c
    [(off center (- fx) fy, off center fx fy); (off center (- fx) (- fy), off center fx (- fy));
     (off center (- fy) fx, off center fy fx); (off center (- fy) (- fx), off center fy (- fx))]) s (Z.quot r 16) r 0.

(** The corners of a rounded rectangle. *)
Definition corner_ul (b : Rect) (cr : Z) : Point := mkPoint (i32 (p_x (r_origin b) + cr)) (i32 (p_y (r_origin b) + cr)).
Definition corner_ur (b : Rect) (cr : Z) : Point := mkPoint (i32 (p_x (r_origin b) + s_w (r_size b) - cr)) (i32 (p_y (r_origin b) + cr)).
Definition corner_ll (b : Rect) (cr : Z) : Point := mkPoint (i32 (p_x (r_origin b) + cr)) (i32 (p_y (r_origin b) + s_h (r_size b) - cr)).
Definition corner_lr (b : Rect) (cr : Z) : Point := mkPoint (i32 (p_x (r_origin b) + s_w (r_size b) - cr)) (i32 (p_y (r_origin b) + s_h (r_size b) - cr)).

Definition draw_roundrect (s : Surface) (b : Rect) (cr : Z) (c : Color) : exec Surface :=
  let ul := corner_ul b cr in let ur := corner_ur b cr in let ll := corner_ll b cr in let lr := corner_lr b cr in
  let! s := arc_loop fuel (λ fx fy, draw_points c
    [off lr fx fy; off ul (- fx) (- fy); off ur fx (- fy); off ll (- fx) fy;
     off lr fy fx; off ul (- fy) (- fx); off ur fy (- fx); off ll (- fy) fx]) s (Z.quot cr 16) cr 0 in
  let x := p_x (r_origin b) in let y := p_y (r_origin b) in let w := s_w (r_size b) in let h := s_h (r_size b) in
  draw_lines c
    [(mkPoint (i32 (x + cr)) y, mkPoint (i32 (x + w - cr)) y);
     (mkPoint (i32 (x + cr)) (i32 (y + h)), mkPoint (i32 (x + w - cr)) (i32 (y + h)));
     (mkPoint x (i32 (y + cr)), mkPoint x (i32 (y + h - cr)));
     (mkPoint (i32 (x + w)) (i32 (y + cr)), mkPoint (i32 (x + w)) (i32 (y + h - cr)))] s.

Definition fill_roundrect (s : Surface) (b : Rect) (cr : Z) (c : Color) : exec Surface :=
  let ul := corner_ul b cr in let ur := corner_ur b cr in let ll := corner_ll b cr in let lr := corner_lr b cr in
  let! s := arc_loop fuel (λ fx fy, draw_lines c
    [(off ul (- fx) (- fy), mkPoint (i32 (p_x ur + fx)) (i32 (p_y ul - fy)));
     (off ul (- fy) (- fx), mkPoint (i32 (p_x ur + fy)) (i32 (p_y ul - fx)));
     (off ll (- fx) fy, mkPoint (i32 (p_x lr + fx)) (i32 (p_y ll + fy)));
     (off ll (- fy) fx, mkPoint (i32 (p_x lr + fy)) (i32 (p_y ll + fx)))]) s (Z.quot cr 16) cr 0 in
  fill_rect s (mkRect (mkPoint (p_x (r_origin b)) (p_y ul)) (mkSize (s_w (r_size b)) (i32 (p_y ll - p_y ul + 1)))) c.

(** * Whole surfaces *)

(** [data[start..start + len].fill(b)] *)
Definition fill_bytes (data : list Z) (start len b : Z) : exec (list Z) :=
  let! _ := slice data (Z.to_nat start) (Z.to_nat (usize (start + len))) in Ret (splice data (Z.to_nat start) (replicate (Z.to_nat len) b)).

(** The byte that the fast path of [clear] fills with. *)
Definition fill_byte (c : Color) : option Z := match c with White => Some 0 | Black => Some 255 | _ => None end.

Definition clear (s : Surface) (area : option Rect) (c : Color) : exec Surface :=
  let size := sf_size s in
  let dest := default (mkRect (mkPoint 0 0) size) area in
  let aligned := bool_decide (p_x (sf_sub s) = 0 ∧ p_x (r_origin dest) = 0 ∧ s_w (r_size dest) = s_w size) in
  match (if decide (sf_format s = Mono ∧ aligned = true) then fill_byte c else None) with
  | Some b =>
      let start := usize (usize (usize (p_y (sf_sub s)) + usize (p_y (r_origin dest))) * sf_pitch s) in
      let len := usize (usize (s_h (r_size dest)) * sf_pitch s) in
      let! data := fill_bytes (sf_data s) start len b in
      Ret (with_bytes s data)
  | None => fill_rect s dest c
  end.

Definition invert (s : Surface) (area : option Rect) : exec Surface :=
  if decide (sf_format s ≠ Mono) then Ret s else
  let area := default (mkRect (mkPoint 0 0) (sf_size s)) area in
  for_each (range (p_y (r_origin area)) (i32 (p_y (r_origin area) + s_h (r_size area)))) (λ py,
    for_each (range (p_x (r_origin area)) (i32 (p_x (r_origin area) + s_w (r_size area)))) (λ px s,
      let bx := usize (p_x (sf_sub s) + px) in
      let by_ := usize (p_y (sf_sub s) + py) in
      let byte := Z.to_nat (usize (by_ * sf_pitch s + bx / 8)) in
      let! b := idx (sf_data s) byte in
      let! data := set_idx (sf_data s) byte (Z.lxor b (Z.shiftl 1 (7 - bx mod 8))) in
      Ret (with_bytes s data))) s.

Definition scroll (s : Surface) (delta : Z) (clear_color : Color) : exec Surface :=
  if decide (delta = 0) then Ret s else
  let size := sf_size s in
  if decide (s_h size <= delta ∨ delta <= - s_h size) then clear s None clear_color else
  let! s :=
    if decide (0 < delta ∧ sf_format s = Mono ∧ p_x (sf_sub s) = 0) then
      let pitch := sf_pitch s in
      let row_start := usize (usize (p_y (sf_sub s)) * pitch) in
      let total := usize (usize (s_h size) * pitch) in
      let offset := usize (delta * pitch) in
      let! data := copy_within (sf_data s) (Z.to_nat (usize (row_start + offset))) (Z.to_nat (usize (row_start + total))) (Z.to_nat row_start) in
      Ret (with_bytes s data)
    else Ret s in
  clear s (Some (mkRect (mkPoint 0 (i32 (s_h size - delta))) (mkSize (s_w size) delta))) clear_color.

(** * Copying *)

(** The columns of the source that [draw_image] copies, [None] when there are none. *)
Definition clip_columns (pos_x src_w dest_w : Z) : option (Z * Z) :=
  if decide (pos_x < 0) then
    let iw := i32 (src_w + pos_x) in
    if decide (iw <= 0) then None else Some (i32 (- pos_x), iw)
  else if decide (dest_w <= pos_x) then None
  else if decide (dest_w < i32 (pos_x + src_w)) then Some (0, i32 (dest_w - pos_x))
  else Some (0, src_w).

Definition copy_pixel (src : Surface) (from to_ : Point) (dest : Surface) : exec Surface :=
  let! tgt := read_pixel src from in draw_pixel dest to_ tgt.

Definition draw_image (dest src : Surface) (pos : Point) : exec Surface :=
  match clip_columns (p_x pos) (s_w (sf_size src)) (s_w (sf_size dest)) with
  | None => Ret dest
  | Some (ixs, iw) =>
      for_each (range 0 (s_h (sf_size src))) (λ iy, for_each (range ixs (i32 (ixs + iw))) (λ ix,
        copy_pixel src (mkPoint ix iy) (mkPoint (i32 (p_x pos + ix)) (i32 (p_y pos + iy))))) dest
  end.

Definition draw_image_masked (dest src mask : Surface) (pos : Point) : exec Surface :=
  let w := Z.min (s_w (sf_size src)) (s_w (sf_size mask)) in
  let h := Z.min (s_h (sf_size src)) (s_h (sf_size mask)) in
  for_each (range 0 h) (λ iy, for_each (range 0 w) (λ ix dest,
    let! m := read_pixel mask (mkPoint ix iy) in
    if decide (m = Black) then copy_pixel src (mkPoint ix iy) (mkPoint (i32 (p_x pos + ix)) (i32 (p_y pos + iy))) dest else Ret dest)) dest.

Definition draw_image_mirrored (dest src : Surface) (pos : Point) : exec Surface :=
  let w := s_w (sf_size src) in
  let h := s_h (sf_size src) in
  for_each (range 0 h) (λ iy, for_each (range 0 w) (λ ix,
    copy_pixel src (mkPoint (i32 (w - 1 - ix)) (i32 (h - 1 - iy))) (mkPoint (i32 (p_x pos + ix)) (i32 (p_y pos + iy))))) dest.

(** [a % b] of [u32]; a remainder by zero panics. *)
Definition u32_rem (a b : Z) : exec Z := if decide (b = 0) then Panic else Ret (a mod b).

(** The next column or row of the source, from the first again behind the last. *)
Definition next_source (k extent : Z) : exec Z := u32_rem (wrap 32 (k + 1)) (wrap 32 extent).

(** One row of a clipped copy. *)
Definition clipped_row (src : Surface) (c_src c_dest : Rect) (dy sy : Z) (dest : Surface) : exec (Surface * Z) :=
  for_each (range (p_x (r_origin c_dest)) (i32 (p_x (r_origin c_dest) + s_w (r_size c_dest)) + 1)) (λ dx '(dest, sx),
    let! picked := read_pixel src (mkPoint (i32 (i32 sx + p_x (r_origin c_src))) (i32 (i32 sy + p_y (r_origin c_src)))) in
    let! dest := draw_pixel dest (mkPoint dx dy) picked in
    let! sx := next_source sx (s_w (r_size c_src)) in
    Ret (dest, sx)) (dest, 0).

Definition draw_image_clipped (dest src : Surface) (src_rect dest_rect : option Rect) : exec Surface :=
  let c_src := default (mkRect (mkPoint 0 0) (sf_size src)) src_rect in
  let c_dest := default (mkRect (mkPoint 0 0) (r_size c_src)) dest_rect in
  let c_dest := if decide (s_w (r_size c_dest) = 0 ∨ s_h (r_size c_dest) = 0) then mkRect (r_origin c_dest) (r_size c_src) else c_dest in
  let! r := for_each (range (p_y (r_origin c_dest)) (i32 (p_y (r_origin c_dest) + s_h (r_size c_dest)) + 1)) (λ dy '(dest, sy),
    let! row := clipped_row src c_src c_dest dy sy dest in
    let! sy := next_source sy (s_h (r_size c_src)) in
    Ret (row.1, sy)) (dest, 0) in
  Ret r.1.

(** * Masks *)

(** A search that stops at the first element that is found. *)
Fixpoint any_of {A} (l : list A) (f : A → exec bool) : exec bool :=
  match l with
  | [] => Ret false
  | a :: l => let! found := f a in if (found : bool) then Ret true else any_of l f
  end.

(** Whether a pixel of the image has another colour than [alpha]. *)
Definition differs (src : Surface) (alpha : Color) (p : Point) : exec bool :=
  let! c := read_pixel src p in Ret (bool_decide (c ≠ alpha)).

(** Whether a pixel of the mask is set. *)
Definition mask_set (src : Surface) (grow : Z) (alpha : Color) (x y : Z) : exec bool :=
  if decide (grow = 0) then differs src alpha (mkPoint x y) else
  any_of (range (i32 (- grow)) (grow + 1)) (λ dy, any_of (range (i32 (- grow)) (grow + 1)) (λ dx,
    let nx := i32 (x + dx) in
    let ny := i32 (y + dy) in
    if decide (0 <= nx ∧ 0 <= ny ∧ nx < s_w (sf_size src) ∧ ny < s_h (sf_size src)) then differs src alpha (mkPoint nx ny) else Ret false)).

Definition mask (src : Surface) (grow : option Z) (alpha : option Color) (dest : option Surface) : exec Surface :=
  let grow := i32 (default 0 grow) in
  let alpha := default Black alpha in
  let size := sf_size src in
  let! out := clear (default (image_new size Mono) dest) None White in
  for_each (range 0 (s_h size)) (λ y, for_each (range 0 (s_w size)) (λ x out,
    let! set := mask_set src grow alpha x y in
    if (set : bool) then draw_pixel out (mkPoint x y) Black else Ret out)) out.
End shapes.

(** * Image files

    Netpbm headers and pixels in a slice of bytes, and the bytes that the functions which
    save an image write. A position in the slice is the list of the bytes behind it. *)

Inductive ParseError := InvalidMagic | InvalidHeader | DataTooShort | UnsupportedFormat.

Definition is_ascii_whitespace (b : Z) : bool := bool_decide (b = 32 ∨ b = 9 ∨ b = 10 ∨ b = 12 ∨ b = 13).
Definition is_ascii_digit (b : Z) : bool := bool_decide (48 <= b <= 57).

(** Blanks and comments; [comment] says whether the position is in one, which the end of
    its line closes. *)
Fixpoint skip_blank (comment : bool) (data : list Z) : option (list Z) :=
  match data with
  | [] => None
  | b :: rest =>
      if comment then skip_blank (negb (bool_decide (b = 10))) rest
      else if decide (b = 35) then skip_blank true rest
      else if is_ascii_whitespace b then skip_blank false rest
      else Some data
  end.

Fixpoint pnm_digits (val : Z) (data : list Z) : Z * list Z :=
  match data with
  | [] => (val, [])
  | b :: rest => if is_ascii_digit b then pnm_digits (wrap 32 (wrap 32 (val * 10) + (b - 48))) rest else (val, data)
  end.

Definition parse_pnm_uint (data : list Z) : option (Z * list Z) :=
  match skip_blank false data with
  | Some ((b :: _) as data) =>
      if is_ascii_digit b then
        let '(val, rest) := pnm_digits 0 data in
        Some (val, match rest with b :: rest' => if is_ascii_whitespace b then rest' else rest | [] => [] end)
      else None
  | _ => None
  end.

(** [.ok_or(ParseError::InvalidHeader)?] *)
Definition header_uint {A} (data : list Z) (k : Z → list Z → exec (result A ParseError)) : exec (result A ParseError) :=
  match parse_pnm_uint data with Some (v, rest) => k v rest | None => Ret (Err InvalidHeader) end.

Definition image_parse_pbm (data : list Z) : exec (result Surface ParseError) :=
  if decide (¬ (2 <= length data)%nat ∨ take 2 data ≠ [80; 52]) then Ret (Err InvalidMagic) else
  header_uint (drop 2 data) (λ w rest, header_uint rest (λ h rest,
    let w := i32 w in
    let h := i32 h in
    let pitch := usize (usize w + 7) / 8 in
    let needed := usize (pitch * usize h) in
    if decide (Z.of_nat (length rest) < needed) then Ret (Err DataTooShort) else
    let image := image_new (mkSize w h) Mono in
    let! pixels := slice rest 0 (Z.to_nat needed) in
    if decide (length (sf_data image) = length pixels) then Ret (Ok (with_bytes image pixels)) else Panic)).

(** The five colours for a grey value. *)
Definition color_of_grey (v : Z) : Color :=
  if decide (v <= 50) then White else if decide (v <= 101) then LightGrey else if decide (v <= 153) then Grey else if decide (v <= 204) then DarkGrey else Black.

Definition scale_grey (maxval b : Z) : Z := if decide (maxval = 255) then b else wrap 32 (b * 255) / maxval.

(** [a % b] and [a / b] of [i32]; by zero, and where the quotient overflows, they panic. *)
Definition i32_divides (a b : Z) : bool := bool_decide (b ≠ 0 ∧ ¬ (a = - 2 ^ 31 ∧ b = -1)).

Definition draw_grey (maxval w : Z) (rest : list Z) (i : Z) (image : Surface) : exec Surface :=
  let! b := idx rest (Z.to_nat i) in
  if i32_divides (i32 i) w then draw_pixel image (mkPoint (Z.rem (i32 i) w) (Z.quot (i32 i) w)) (color_of_grey (scale_grey maxval b)) else Panic.

Definition image_parse_pgm (data : list Z) (format : ImageFormat) : exec (result Surface ParseError) :=
  if decide (¬ (2 <= length data)%nat ∨ take 2 data ≠ [80; 53]) then Ret (Err InvalidMagic) else
  header_uint (drop 2 data) (λ w rest, header_uint rest (λ h rest, header_uint rest (λ maxval rest,
    let w := i32 w in
    let h := i32 h in
    if decide (maxval = 0 ∨ 255 < maxval) then Ret (Err UnsupportedFormat) else
    let needed := usize (usize w * usize h) in
    if decide (Z.of_nat (length rest) < needed) then Ret (Err DataTooShort) else
    let! image := for_each (range 0 needed) (draw_grey maxval w rest) (image_new (mkSize w h) format) in
    Ret (Ok image)))).

(** The decimal digits of a number, with [n] for the longest one. *)
Fixpoint decimal (n : nat) (v : Z) : list Z :=
  match n with
  | O => []
  | S n => if decide (v < 10) then [48 + v] else decimal n (v / 10) ++ [48 + v mod 10]
  end.

(** [{}] of an [i32]. *)
Definition format_i32 (v : Z) : list Z := if decide (v < 0) then 45 :: decimal 10 (- v) else decimal 10 v.

(** One row of a saved image. *)
Definition pbm_row (s : Surface) (y : Z) : exec (list Z) :=
  let w := s_w (sf_size s) in
  for_each (range 0 w) (λ x row,
    let! c := read_pixel s (mkPoint x y) in
    if decide (c = Black) then
      let! b := idx row (Z.to_nat (x / 8)) in set_idx row (Z.to_nat (x / 8)) (Z.lor b (Z.shiftl 1 (7 - x mod 8)))
    else Ret row) (replicate (Z.to_nat (usize (usize w + 7) / 8)) 0).

(** What [image_save_pbm] writes into the file. *)
Definition image_save_pbm (s : Surface) : exec (list Z) :=
  let header := [80; 52; 10] ++ format_i32 (s_w (sf_size s)) ++ [32] ++ format_i32 (s_h (sf_size s)) ++ [10] in
  for_each (range 0 (s_h (sf_size s))) (λ y file, let! row := pbm_row s y in Ret (file ++ row)) header.

Definition grey_of_color (c : Color) : Z := match c with White => 0 | LightGrey => 85 | Grey => 128 | DarkGrey => 170 | Black => 255 end.

(** What [image_save_pgm] writes into the file. *)
Definition image_save_pgm (s : Surface) : exec (list Z) :=
  let header := [80; 53; 10] ++ format_i32 (s_w (sf_size s)) ++ [32] ++ format_i32 (s_h (sf_size s)) ++ [10; 50; 53; 53; 10] in
  for_each (range 0 (s_h (sf_size s))) (λ y, for_each (range 0 (s_w (sf_size s))) (λ x file,
    let! c := read_pixel s (mkPoint x y) in Ret (file ++ [grey_of_color c]))) header.
