(* ===== verification/GraphicsProps.v ===== *)
(** Surfaces as pictures: what drawing does to the pixels, and to nothing else. Lines end, are
    connected and go from their start to their end; clearing and filling. *)

From S2P Require Import Prelude Graphics.

Open Scope Z_scope.

(** * Bytes and pixels *)

Lemma i32_ok x : - 2 ^ 31 <= x < 2 ^ 31 → i32 x = x.
Proof.
  intros H. unfold i32, to_signed, wrap. destruct (Z.ltb_spec (x mod 2 ^ 32) (2 ^ (32 - 1))) as [Hl|Hl]; Z.to_euclidean_division_equations; lia.
Qed.

Lemma usize_small x : 0 <= x < 2 ^ 32 → usize x = x.
Proof. intros H. unfold usize, wrap. by apply Z.mod_small. Qed.

(** The pixel [k] of a byte. *)
Definition get1 (b k : Z) : bool := bool_decide (Z.land b (Z.shiftl 1 (7 - k)) ≠ 0).
Definition put1 (b k : Z) (v : bool) : Z := if v then Z.lor b (Z.shiftl 1 (7 - k)) else Z.land b (not8 (Z.shiftl 1 (7 - k))).
Definition get2 (b k : Z) : Z := Z.shiftr (Z.land b (wrap 8 (Z.shiftl 3 (2 * (3 - k))))) (2 * (3 - k)).
Definition put2 (b k v : Z) : Z := Z.lor (Z.land b (not8 (wrap 8 (Z.shiftl 3 (2 * (3 - k)))))) (wrap 8 (Z.shiftl (Z.land v 3) (2 * (3 - k)))).

Definition upto (n : nat) : list Z := Z.of_nat <$> List.seq 0 n.

Lemma elem_upto n x : 0 <= x < Z.of_nat n → x ∈ upto n.
Proof. intros H. apply list_elem_of_fmap. exists (Z.to_nat x). split; [lia|]. apply list_elem_of_In, in_seq. lia. Qed.

Lemma forallb_upto n (f : Z → bool) : forallb f (upto n) = true → ∀ x, 0 <= x < Z.of_nat n → f x = true.
Proof. intros H x Hx. rewrite forallb_forall in H. apply H, list_elem_of_In. by apply elem_upto. Qed.

(** A statement about small numbers, by evaluation. *)
Lemma forallb_upto3 n1 n2 n3 (f : Z → Z → Z → bool) :
  forallb (λ a, forallb (λ b, forallb (f a b) (upto n3)) (upto n2)) (upto n1) = true →
  ∀ a b c, 0 <= a < Z.of_nat n1 → 0 <= b < Z.of_nat n2 → 0 <= c < Z.of_nat n3 → f a b c = true.
Proof.
  intros H a b c Ha Hb Hc. pose proof (forallb_upto _ _ H a Ha) as H1. cbn beta in H1. pose proof (forallb_upto _ _ H1 b Hb) as H2. cbn beta in H2. by apply (forallb_upto _ _ H2).
Qed.

Definition check1 (b k k' : Z) : bool :=
  forallb (λ v, bool_decide (is_u 8 (put1 b k v)) && eqb (get1 (put1 b k v) k') (if decide (k' = k) then v else get1 b k')) [true; false].

Lemma check1_all : forallb (λ b, forallb (λ k, forallb (check1 b k) (upto 8)) (upto 8)) (upto 256) = true.
Proof. vm_compute. reflexivity. Qed.

Definition check2 (b k k' : Z) : bool :=
  forallb (λ v, bool_decide (is_u 8 (put2 b k v)) && Z.eqb (get2 (put2 b k v) k') (if decide (k' = k) then v else get2 b k')) [0; 1; 2; 3].

Lemma check2_all : forallb (λ b, forallb (λ k, forallb (check2 b k) (upto 4)) (upto 4)) (upto 256) = true.
Proof. vm_compute. reflexivity. Qed.

Lemma put1_ok b k k' v : is_u 8 b → 0 <= k < 8 → 0 <= k' < 8 → is_u 8 (put1 b k v) ∧ get1 (put1 b k v) k' = (if decide (k' = k) then v else get1 b k').
Proof.
  intros Hb Hk Hk'. pose proof (forallb_upto3 256 8 8 check1 check1_all b k k' Hb Hk Hk') as H. unfold check1 in H. rewrite forallb_forall in H.
  specialize (H v ltac:(destruct v; cbn; tauto)). apply andb_true_iff in H as [H1 H2]. apply bool_decide_eq_true in H1. by apply eqb_prop in H2.
Qed.

Lemma put2_ok b k k' v :
  is_u 8 b → 0 <= k < 4 → 0 <= k' < 4 → 0 <= v < 4 → is_u 8 (put2 b k v) ∧ get2 (put2 b k v) k' = (if decide (k' = k) then v else get2 b k').
Proof.
  intros Hb Hk Hk' Hv. pose proof (forallb_upto3 256 4 4 check2 check2_all b k k' Hb Hk Hk') as H. unfold check2 in H. rewrite forallb_forall in H.
  assert (In v [0; 1; 2; 3]) as Hin by (cbn; lia). specialize (H v Hin). apply andb_true_iff in H as [H1 H2]. apply bool_decide_eq_true in H1. by apply Z.eqb_eq in H2.
Qed.

(** * Pictures *)

(** All pixels of the surface are in its bytes. *)
Definition surface_ok (s : Surface) : Prop :=
  0 <= p_x (sf_sub s) ∧ 0 <= p_y (sf_sub s) ∧ 0 <= s_w (sf_size s) ∧ 0 <= s_h (sf_size s) ∧
  p_x (sf_sub s) + s_w (sf_size s) < 2 ^ 31 ∧ p_y (sf_sub s) + s_h (sf_size s) < 2 ^ 31 ∧
  (p_x (sf_sub s) + s_w (sf_size s)) * format_bits (sf_format s) <= 8 * sf_pitch s ∧
  (p_y (sf_sub s) + s_h (sf_size s)) * sf_pitch s <= Z.of_nat (length (sf_data s)) < 2 ^ 32 ∧ bytes_ok (sf_data s).

Definition inside (size : Size) (x y : Z) : bool := bool_decide (0 <= x < s_w size ∧ 0 <= y < s_h size).

(** The pixel at a place of the bytes. *)
Definition pixel_at (f : ImageFormat) (pitch : Z) (data : list Z) (bx by_ : Z) : Color :=
  let b := nth (Z.to_nat (by_ * pitch + bx / pixels_per_byte f)) data 0 in
  match f with
  | Mono => if get1 b (bx mod 8) then Black else White
  | TwoBpp => color_from_2bpp (get2 b (bx mod 4))
  | EightBpp => White
  end.

(** The picture that a surface shows. *)
Definition pic (s : Surface) (x y : Z) : Color := pixel_at (sf_format s) (sf_pitch s) (sf_data s) (p_x (sf_sub s) + x) (p_y (sf_sub s) + y).

(** What a surface shows of a colour. *)
Definition shown (f : ImageFormat) (p : Point) (c : Color) : Color :=
  match f with
  | Mono => if color_to_mono p c then Black else White
  | TwoBpp => color_from_2bpp (color_to_2bpp c)
  | EightBpp => White
  end.

(** A place within the rows of a buffer. *)
Definition in_rows (f : ImageFormat) (pitch : Z) (data : list Z) (bx by_ : Z) : Prop :=
  0 <= bx ∧ bx * format_bits f < 8 * pitch ∧ 0 <= by_ ∧ (by_ + 1) * pitch <= Z.of_nat (length data).

Lemma column_byte f bx pitch : 0 <= bx → bx * format_bits f < 8 * pitch → 0 <= bx / pixels_per_byte f < pitch.
Proof.
  intros H1 H2. unfold pixels_per_byte. destruct f; cbn [format_bits] in *; [change (8 / 1) with 8|change (8 / 2) with 4|change (8 / 8) with 1]; Z.to_euclidean_division_equations; lia.
Qed.

Lemma row_byte f pitch data bx by_ : in_rows f pitch data bx by_ → 0 <= by_ * pitch + bx / pixels_per_byte f < Z.of_nat (length data).
Proof. intros (H1 & H2 & H3 & H4). pose proof (column_byte f bx pitch H1 H2). nia. Qed.

(** Different pixels are in different bytes or different parts of a byte. *)
Lemma same_byte f pitch data bx by_ bx' by' :
  in_rows f pitch data bx by_ → in_rows f pitch data bx' by' →
  by_ * pitch + bx / pixels_per_byte f = by' * pitch + bx' / pixels_per_byte f → by_ = by' ∧ bx / pixels_per_byte f = bx' / pixels_per_byte f.
Proof.
  intros (H1 & H2 & H3 & H4) (G1 & G2 & G3 & G4) E. pose proof (column_byte f bx pitch H1 H2). pose proof (column_byte f bx' pitch G1 G2). assert (by_ = by') as -> by nia. split; [done|lia].
Qed.

Lemma in_rows_surface s x y : surface_ok s → inside (sf_size s) x y = true → in_rows (sf_format s) (sf_pitch s) (sf_data s) (p_x (sf_sub s) + x) (p_y (sf_sub s) + y).
Proof.
  intros (H1 & H2 & H3 & H4 & H5 & H6 & H7 & H8 & H9) [Hx Hy]%bool_decide_eq_true. assert (0 <= sf_pitch s) by (destruct (sf_format s); cbn [format_bits] in *; lia).
  split; [lia|]. split; [destruct (sf_format s); cbn [format_bits] in *; lia|]. split; [lia|]. nia.
Qed.

(** ** Reading and drawing a pixel *)

Lemma nth_idx (data : list Z) i : 0 <= i < Z.of_nat (length data) → data !! Z.to_nat i = Some (nth (Z.to_nat i) data 0).
Proof. intros H. destruct (lookup_lt_is_Some_2 data (Z.to_nat i)) as [y Hy]; [lia|]. by rewrite nth_lookup, Hy. Qed.

Lemma mask_values : pixel_mask TwoBpp = 3 ∧ pixel_mask EightBpp = 0.
Proof. by split. Qed.

Lemma land_255 b : is_u 8 b → Z.land b 255 = b.
Proof. intros H. change 255 with (Z.ones 8). rewrite Z.land_ones by lia. apply Z.mod_small, H. Qed.

(** The index of a pixel in the surface. *)
Lemma pixel_index s x y :
  surface_ok s → inside (sf_size s) x y = true →
  let bx := p_x (sf_sub s) + x in let by_ := p_y (sf_sub s) + y in
  usize bx = bx ∧ usize by_ = by_ ∧ usize (by_ * sf_pitch s + bx / pixels_per_byte (sf_format s)) = by_ * sf_pitch s + bx / pixels_per_byte (sf_format s) ∧
  sf_data s !! Z.to_nat (by_ * sf_pitch s + bx / pixels_per_byte (sf_format s)) = Some (nth (Z.to_nat (by_ * sf_pitch s + bx / pixels_per_byte (sf_format s))) (sf_data s) 0) ∧
  is_u 8 (nth (Z.to_nat (by_ * sf_pitch s + bx / pixels_per_byte (sf_format s))) (sf_data s) 0).
Proof.
  intros Hs Hin bx by_. pose proof (in_rows_surface s x y Hs Hin) as Hr. fold bx by_ in Hr. pose proof (row_byte _ _ _ _ _ Hr) as Hi. destruct Hs as (H1 & H2 & H3 & H4 & H5 & H6 & H7 & H8 & H9).
  apply bool_decide_eq_true in Hin as [Hx Hy]. pose proof (nth_idx _ _ Hi) as Hn. unfold bx, by_ in *. split; [apply usize_small; lia|]. split; [apply usize_small; lia|]. split; [apply usize_small; lia|]. split; [done|].
  unfold bytes_ok in H9. rewrite Forall_lookup in H9. by apply (H9 _ _ Hn).
Qed.

Lemma read_pixel_ok s x y : surface_ok s → inside (sf_size s) x y = true → read_pixel s (mkPoint x y) = Ret (pic s x y).
Proof.
  intros Hs Hin. destruct (pixel_index s x y Hs Hin) as (E1 & E2 & E3 & E4 & E5). unfold read_pixel, pic, pixel_at, pixel_byte. cbn [p_x p_y]. rewrite E1, E2.
  destruct (sf_format s) eqn:Ef; cbn [pixels_per_byte format_bits] in *.
  - change (pixels_per_byte Mono) with 8 in *. rewrite E3, (idx_ok _ _ _ E4). cbn [ebind]. unfold get1. f_equal. case_decide; case_bool_decide; done.
  - rewrite E3, (idx_ok _ _ _ E4). cbn [ebind]. reflexivity.
  - rewrite E3, (idx_ok _ _ _ E4). cbn [ebind]. destruct mask_values as [_ ->]. rewrite Z.shiftl_0_l. change (wrap 8 0) with 0. by rewrite Z.land_0_r, Z.shiftr_0_l.
Qed.

(** Surfaces that differ only in their pixels. *)
Definition like (s s' : Surface) : Prop :=
  sf_size s' = sf_size s ∧ sf_format s' = sf_format s ∧ sf_pitch s' = sf_pitch s ∧ sf_sub s' = sf_sub s ∧ length (sf_data s') = length (sf_data s) ∧ surface_ok s'.

Lemma like_refl s : surface_ok s → like s s.
Proof. done. Qed.

Lemma like_trans s1 s2 s3 : like s1 s2 → like s2 s3 → like s1 s3.
Proof. intros (?&?&?&?&?&?) (?&?&?&?&?&?). split_and!; congruence || done. Qed.

(** The value that drawing stores. *)
Definition stored (f : ImageFormat) (p : Point) (c : Color) (b bx : Z) : Z :=
  match f with
  | Mono => put1 b (bx mod 8) (color_to_mono p c)
  | TwoBpp => put2 b (bx mod 4) (color_to_2bpp c)
  | EightBpp => b
  end.

Lemma color_2bpp_range c : 0 <= color_to_2bpp c < 4.
Proof. destruct c; vm_compute; split; congruence. Qed.

Lemma stored_u8 f p c b bx : is_u 8 b → is_u 8 (stored f p c b bx).
Proof.
  intros Hb. pose proof (Z.mod_pos_bound bx 8 ltac:(lia)). pose proof (Z.mod_pos_bound bx 4 ltac:(lia)). destruct f; cbn; [|by apply (put2_ok b (bx mod 4) 0); [| |lia|apply color_2bpp_range]|done].
  apply (put1_ok b (bx mod 8) 0); lia || done.
Qed.

Lemma draw_pixel_stores s x y c :
  surface_ok s → inside (sf_size s) x y = true →
  let bx := p_x (sf_sub s) + x in let i := Z.to_nat ((p_y (sf_sub s) + y) * sf_pitch s + bx / pixels_per_byte (sf_format s)) in
  draw_pixel s (mkPoint x y) c = Ret (with_bytes s (<[i := stored (sf_format s) (mkPoint x y) c (nth i (sf_data s) 0) bx]> (sf_data s))).
Proof.
  intros Hs Hin bx i. destruct (pixel_index s x y Hs Hin) as (E1 & E2 & E3 & E4 & E5). fold bx in E1, E3, E4, E5. fold i in E4, E5. unfold draw_pixel. cbn [p_x p_y].
  apply bool_decide_eq_true in Hin. rewrite decide_False by lia. fold bx. rewrite E1, E2. pose proof (lookup_lt_Some _ _ _ E4) as Hi. unfold pixel_byte. destruct (sf_format s) eqn:Ef; cbn [stored] in *.
  - change (pixels_per_byte Mono) with 8 in *. rewrite E3. fold i. rewrite (idx_ok _ _ _ E4). cbn [ebind]. rewrite set_idx_ok by done. reflexivity.
  - rewrite ?Ef, E3. fold i. rewrite (idx_ok _ _ _ E4). cbn [ebind]. rewrite set_idx_ok by done. reflexivity.
  - rewrite ?Ef, E3. fold i. rewrite (idx_ok _ _ _ E4). cbn [ebind]. rewrite set_idx_ok by done. cbn [ebind]. do 3 f_equal. destruct mask_values as [_ ->].
    rewrite Z.land_0_r, !Z.shiftl_0_l. change (wrap 8 0) with 0. change (not8 0) with 255. by rewrite Z.lor_0_r, land_255.
Qed.

Lemma column_rest a b n : 0 < n → a / n = b / n → a ≠ b → a mod n ≠ b mod n.
Proof. intros Hn E H Em. apply H. rewrite (Z.div_mod a n), (Z.div_mod b n) by lia. congruence. Qed.

(** Drawing changes one pixel of the whole buffer. *)
Lemma draw_pixel_ok s x y c :
  surface_ok s → inside (sf_size s) x y = true →
  ∃ s', draw_pixel s (mkPoint x y) c = Ret s' ∧ like s s' ∧
    ∀ bx by_, in_rows (sf_format s) (sf_pitch s) (sf_data s) bx by_ →
      pixel_at (sf_format s) (sf_pitch s) (sf_data s') bx by_ =
        if decide (bx = p_x (sf_sub s) + x ∧ by_ = p_y (sf_sub s) + y) then shown (sf_format s) (mkPoint x y) c else pixel_at (sf_format s) (sf_pitch s) (sf_data s) bx by_.
Proof.
  intros Hs Hin. rewrite draw_pixel_stores by done. cbv zeta. set (X := p_x (sf_sub s) + x). set (Y := p_y (sf_sub s) + y). set (i := Z.to_nat (Y * sf_pitch s + X / pixels_per_byte (sf_format s))).
  destruct (pixel_index s x y Hs Hin) as (_ & _ & _ & E4 & E5). fold X Y in E4, E5. fold i in E4, E5. pose proof (lookup_lt_Some _ _ _ E4) as Hi.
  eexists. split; [reflexivity|]. split.
  - split_and!; try done; [cbn; by rewrite length_insert|]. destruct Hs as (H1 & H2 & H3 & H4 & H5 & H6 & H7 & H8 & H9). split_and!; try done; cbn; rewrite ?length_insert; try lia.
    apply Forall_insert; [done|]. by apply stored_u8.
  - intros bx by_ Hr. pose proof (in_rows_surface s x y Hs Hin) as Hr0. fold X Y in Hr0. unfold pixel_at. cbn [sf_data with_bytes].
    set (j := Z.to_nat (by_ * sf_pitch s + bx / pixels_per_byte (sf_format s))). pose proof (row_byte _ _ _ _ _ Hr) as Hj. pose proof (row_byte _ _ _ _ _ Hr0) as Hi0.
    assert (nth j (<[i := stored (sf_format s) (mkPoint x y) c (nth i (sf_data s) 0) X]> (sf_data s)) 0 = if decide (j = i) then stored (sf_format s) (mkPoint x y) c (nth i (sf_data s) 0) X else nth j (sf_data s) 0) as ->.
    { rewrite !nth_lookup. case_decide as E; [subst j; rewrite E; by rewrite list_lookup_insert_eq|]. by rewrite list_lookup_insert_ne by done. }
    destruct (decide (j = i)) as [E|E].
    + assert (by_ * sf_pitch s + bx / pixels_per_byte (sf_format s) = Y * sf_pitch s + X / pixels_per_byte (sf_format s)) as E' by (unfold j, i in E; lia).
      destruct (same_byte _ _ _ _ _ _ _ Hr Hr0 E') as [-> Ed]. subst j. rewrite E. pose proof (Z.mod_pos_bound X 8 ltac:(lia)). pose proof (Z.mod_pos_bound bx 8 ltac:(lia)).
      pose proof (Z.mod_pos_bound X 4 ltac:(lia)). pose proof (Z.mod_pos_bound bx 4 ltac:(lia)). destruct (sf_format s) eqn:Ef; cbn [stored shown] in *.
      * change (pixels_per_byte Mono) with 8 in Ed. destruct (put1_ok (nth i (sf_data s) 0) (X mod 8) (bx mod 8) (color_to_mono (mkPoint x y) c) E5) as [_ ->]; [lia|lia|].
        destruct (decide (bx = X)) as [->|Hne]; [by rewrite !decide_True|]. rewrite decide_False by (by apply column_rest). by rewrite decide_False by tauto.
      * change (pixels_per_byte TwoBpp) with 4 in Ed. destruct (put2_ok (nth i (sf_data s) 0) (X mod 4) (bx mod 4) (color_to_2bpp c) E5) as [_ ->]; [lia|lia|apply color_2bpp_range|].
        destruct (decide (bx = X)) as [->|Hne]; [by rewrite !decide_True|]. rewrite decide_False by (by apply column_rest). by rewrite decide_False by tauto.
      * by destruct (decide _).
    + rewrite decide_False; [done|]. intros [-> ->]. done.
Qed.

(** * Painting *)

(** [f] colours the pixels of the surface that are in [T] as [C] says, and changes no
    other pixel of the buffer. *)
Definition paints (s0 : Surface) (f : Surface → exec Surface) (T : Z → Z → bool) (C : Z → Z → Color) : Prop :=
  ∀ s, like s0 s → ∃ s', f s = Ret s' ∧ like s0 s' ∧
    ∀ bx by_, in_rows (sf_format s0) (sf_pitch s0) (sf_data s0) bx by_ →
      let x := bx - p_x (sf_sub s0) in let y := by_ - p_y (sf_sub s0) in
      pixel_at (sf_format s0) (sf_pitch s0) (sf_data s') bx by_ =
        if inside (sf_size s0) x y && T x y then C x y else pixel_at (sf_format s0) (sf_pitch s0) (sf_data s) bx by_.

Lemma like_rows s s' bx by_ : like s s' → in_rows (sf_format s) (sf_pitch s) (sf_data s) bx by_ → in_rows (sf_format s') (sf_pitch s') (sf_data s') bx by_.
Proof. intros (_ & E1 & E2 & _ & E3 & _). unfold in_rows. by rewrite E1, E2, E3. Qed.

Lemma paints_ext s0 f T T' C C' :
  (∀ x y, inside (sf_size s0) x y = true → T x y = T' x y ∧ (T x y = true → C x y = C' x y)) → paints s0 f T C → paints s0 f T' C'.
Proof.
  intros HT Hp s Hs. destruct (Hp s Hs) as (s' & E & L & H). exists s'. split; [done|]. split; [done|]. intros bx by_ Hr. cbv zeta. rewrite H by done. cbv zeta.
  destruct (inside _ _ _) eqn:Ei; [|done]. destruct (HT _ _ Ei) as [<- HC]. cbn [andb]. destruct (T _ _) eqn:Et; [by apply HC|done].
Qed.

Lemma paints_fun s0 f g T C : (∀ s, like s0 s → f s = g s) → paints s0 g T C → paints s0 f T C.
Proof. intros E Hp s Hs. rewrite E by done. by apply Hp. Qed.

Lemma paints_none s0 C : paints s0 Ret (λ _ _, false) C.
Proof. intros s Hs. exists s. split; [done|]. split; [done|]. intros bx by_ _. cbv zeta. by rewrite andb_false_r. Qed.

Lemma paints_seq s0 f g T1 T2 C :
  paints s0 f T1 C → paints s0 g T2 C → paints s0 (λ s, let! s := f s in g s) (λ x y, T1 x y || T2 x y) C.
Proof.
  intros Hf Hg s Hs. destruct (Hf s Hs) as (s1 & E1 & L1 & H1). destruct (Hg s1 L1) as (s2 & E2 & L2 & H2). exists s2. rewrite E1. cbn [ebind]. split; [done|]. split; [done|].
  intros bx by_ Hr. cbv zeta. rewrite H2, H1 by done. cbv zeta. destruct (inside _ _ _), (T1 _ _), (T2 _ _); done.
Qed.

Lemma paints_for_each {A} s0 (l : list A) f T C :
  (∀ a, a ∈ l → paints s0 (f a) (T a) C) → paints s0 (for_each l f) (λ x y, existsb (λ a, T a x y) l) C.
Proof.
  induction l as [|a l IH]; intros H; [apply paints_none|]. cbn [for_each existsb].
  apply (paints_seq s0 (f a) (for_each l f) (T a) (λ x y, existsb (λ a, T a x y) l)); [apply H; by left|]. apply IH. intros b Hb. apply H. by right.
Qed.

Lemma paints_pixel s0 p c C :
  (inside (sf_size s0) (p_x p) (p_y p) = true → C (p_x p) (p_y p) = shown (sf_format s0) p c) →
  paints s0 (λ s, draw_pixel s p c) (λ x y, bool_decide (x = p_x p ∧ y = p_y p)) C.
Proof.
  intros HC s Hs. pose proof Hs as (E1 & E2 & E3 & E4 & E5 & Hok). destruct p as [px py]. cbn [p_x p_y] in *. destruct (inside (sf_size s0) px py) eqn:Ei.
  - destruct (draw_pixel_ok s px py c Hok ltac:(by rewrite E1)) as (s' & E & L & H). exists s'. split; [done|]. split; [by apply (like_trans _ s)|]. rewrite E2, E3, E4 in H.
    intros bx by_ Hr. cbv zeta. rewrite H by (by unfold in_rows in *; rewrite E5). rewrite <- (HC eq_refl).
    destruct (decide (bx = p_x (sf_sub s0) + px ∧ by_ = p_y (sf_sub s0) + py)) as [[-> ->]|Hn].
    + replace (p_x (sf_sub s0) + px - p_x (sf_sub s0)) with px by lia. replace (p_y (sf_sub s0) + py - p_y (sf_sub s0)) with py by lia. rewrite Ei, bool_decide_eq_true_2 by done. done.
    + rewrite bool_decide_eq_false_2 by lia. by rewrite andb_false_r.
  - exists s. unfold draw_pixel. cbn [p_x p_y]. unfold inside in Ei. apply bool_decide_eq_false in Ei. rewrite E1, decide_True by lia. split; [done|]. split; [done|].
    intros bx by_ Hr. cbv zeta. case_bool_decide as Ep; [|by rewrite andb_false_r]. destruct Ep as [-> ->]. unfold inside. rewrite bool_decide_eq_false_2 by done. done.
Qed.

(** The pictures. *)
Lemma paints_pic s0 f T C s :
  paints s0 f T C → like s0 s → ∃ s', f s = Ret s' ∧ like s0 s' ∧ ∀ x y, inside (sf_size s0) x y = true → pic s' x y = if T x y then C x y else pic s x y.
Proof.
  intros Hp Hs. pose proof Hs as (E1 & E2 & E3 & E4 & E5 & Hok). destruct (Hp s Hs) as (s' & E & L & H). exists s'. split; [done|]. split; [done|]. intros x y Hin. pose proof L as (F1 & F2 & F3 & F4 & _).
  unfold pic. rewrite E2, E3, E4, F2, F3, F4. pose proof (in_rows_surface s x y Hok ltac:(by rewrite E1)) as Hr. rewrite E2, E3, E4 in Hr.
  rewrite H by (by unfold in_rows in *; rewrite <- E5). cbv zeta. replace (p_x (sf_sub s0) + x - p_x (sf_sub s0)) with x by lia. replace (p_y (sf_sub s0) + y - p_y (sf_sub s0)) with y by lia. by rewrite Hin.
Qed.

(** ** Ranges *)

Lemma elem_range lo hi i : i ∈ range lo hi ↔ lo <= i < hi.
Proof.
  unfold range. rewrite list_elem_of_fmap. split.
  - intros (n & -> & Hn). apply list_elem_of_In, in_seq in Hn. lia.
  - intros H. exists (Z.to_nat (i - lo)). split; [lia|]. apply list_elem_of_In, in_seq. lia.
Qed.

Lemma existsb_range lo hi f : existsb f (range lo hi) = true ↔ ∃ i, lo <= i < hi ∧ f i = true.
Proof.
  rewrite existsb_exists. split; intros (i & Hi & Hf); exists i; (split; [|done]); [by apply elem_range, list_elem_of_In|by apply list_elem_of_In, elem_range].
Qed.

(** ** Copying an image *)

(** Sizes and positions for which the coordinates stay within 32 bits. *)
Definition small (x : Z) : Prop := - 2 ^ 29 <= x < 2 ^ 29.

Lemma copy_pixel_paints s0 src ix iy p C :
  surface_ok src → inside (sf_size src) ix iy = true →
  (inside (sf_size s0) (p_x p) (p_y p) = true → C (p_x p) (p_y p) = shown (sf_format s0) p (pic src ix iy)) →
  paints s0 (copy_pixel src (mkPoint ix iy) p) (λ x y, bool_decide (x = p_x p ∧ y = p_y p)) C.
Proof. intros Hs Hin HC s. unfold copy_pixel. rewrite read_pixel_ok by done. cbn [ebind]. by apply paints_pixel. Qed.

(** The columns that are copied. *)
Lemma clip_columns_ok px sw dw :
  small px → 0 <= sw < 2 ^ 29 → 0 <= dw < 2 ^ 29 →
  match clip_columns px sw dw with
  | Some (ixs, iw) => 0 <= ixs ∧ i32 (ixs + iw) <= sw ∧ ∀ ix, 0 <= ix < sw → 0 <= px + ix < dw → ixs <= ix < i32 (ixs + iw)
  | None => ∀ ix, 0 <= ix < sw → ~ 0 <= px + ix < dw
  end.
Proof.
  unfold small. intros Hp Hs Hd. unfold clip_columns. case_decide; [rewrite (i32_ok (sw + px)) by lia; case_decide; [lia|rewrite !i32_ok by (rewrite ?i32_ok; lia); split_and!; try lia]|].
  case_decide; [lia|]. rewrite (i32_ok (px + sw)) by lia. case_decide; [rewrite (i32_ok (dw - px)) by lia|]; rewrite i32_ok by lia; split_and!; lia.
Qed.

Lemma draw_image_paints s0 src pos :
  surface_ok src → small (p_x pos) → small (p_y pos) → s_w (sf_size src) < 2 ^ 29 → s_h (sf_size src) < 2 ^ 29 → 0 <= s_w (sf_size s0) < 2 ^ 29 →
  paints s0 (λ dest, draw_image dest src pos) (λ x y, inside (sf_size src) (x - p_x pos) (y - p_y pos))
    (λ x y, shown (sf_format s0) (mkPoint x y) (pic src (x - p_x pos) (y - p_y pos))).
Proof.
  intros Hs Hx Hy Hw Hh Hd. set (C := λ x y, shown _ _ _). pose proof Hs as (_ & _ & W0 & H0 & _). pose proof (clip_columns_ok (p_x pos) _ _ Hx (conj W0 Hw) Hd) as Hc. unfold small in *.
  assert (∀ s, like s0 s → draw_image s src pos = match clip_columns (p_x pos) (s_w (sf_size src)) (s_w (sf_size s0)) with None => Ret s | Some (ixs, iw) =>
    for_each (range 0 (s_h (sf_size src))) (λ iy, for_each (range ixs (i32 (ixs + iw))) (λ ix, copy_pixel src (mkPoint ix iy) (mkPoint (i32 (p_x pos + ix)) (i32 (p_y pos + iy))))) s end) as Hdi.
  { intros s (E & _). unfold draw_image. by rewrite E. }
  destruct (clip_columns (p_x pos) (s_w (sf_size src)) (s_w (sf_size s0))) as [[ixs iw]|].
  - destruct Hc as (C1 & C2 & C3). set (hi := i32 (ixs + iw)) in *.
    assert (paints s0 (for_each (range 0 (s_h (sf_size src))) (λ iy, for_each (range ixs hi) (λ ix, copy_pixel src (mkPoint ix iy) (mkPoint (i32 (p_x pos + ix)) (i32 (p_y pos + iy))))))
      (λ x y, existsb (λ iy, existsb (λ ix, bool_decide (x = p_x pos + ix ∧ y = p_y pos + iy)) (range ixs hi)) (range 0 (s_h (sf_size src)))) C) as Hp.
    { apply paints_for_each. intros iy Hiy%elem_range. apply paints_for_each. intros ix Hix%elem_range. rewrite !i32_ok by lia. apply copy_pixel_paints; [done|apply bool_decide_eq_true; lia|].
      intros _. unfold C. cbn [p_x p_y]. by replace (p_x pos + ix - p_x pos) with ix by lia; replace (p_y pos + iy - p_y pos) with iy by lia. }
    eapply paints_fun; [intros s Ls; exact (Hdi s Ls)|]. refine (paints_ext s0 _ _ _ C C _ Hp). intros x y Hin. split; [|done]. apply bool_decide_eq_true in Hin. apply eq_true_iff_eq. rewrite existsb_range. unfold inside. rewrite bool_decide_eq_true. split.
    + intros (iy & Hiy & Hex). apply existsb_range in Hex as (ix & Hix & Hb). apply bool_decide_eq_true in Hb. lia.
    + intros H. exists (y - p_y pos). split; [lia|]. apply existsb_range. exists (x - p_x pos). split; [apply C3; lia|]. apply bool_decide_eq_true. lia.
  - eapply paints_fun; [intros s Ls; exact (Hdi s Ls)|]. apply (paints_ext s0 Ret (λ _ _, false) _ C C); [|apply paints_none]. intros x y Hin. split; [|done]. symmetry. unfold inside in *. apply bool_decide_eq_false. apply bool_decide_eq_true in Hin.
    intros [H1 H2]. apply (Hc (x - p_x pos)); lia.
Qed.

(** * Lines *)

(** Consecutive points touch. *)
Fixpoint connected (p : Point) (l : list Point) : Prop :=
  match l with
  | [] => True
  | q :: l => Z.abs (p_x q - p_x p) <= 1 ∧ Z.abs (p_y q - p_y p) <= 1 ∧ connected q l
  end.

(** The points of a line: from [p] to the last one. *)
Definition line_shape (p e : Point) (pts : list Point) : Prop := List.last (p :: pts) p = e ∧ connected p pts.

Lemma line_shape_cons p q e pts : line_shape q e pts → Z.abs (p_x q - p_x p) <= 1 → Z.abs (p_y q - p_y p) <= 1 → line_shape p e (q :: pts).
Proof.
  intros [Hl Hc] H1 H2. split; [|done]. rewrite <- Hl. clear. revert p q. induction pts as [|r pts IH]; intros p q; [done|]. cbn [List.last] in *. destruct pts; [done|]. apply (IH p q).
Qed.

Definition dots (half : Z) (c : Color) (pts : list Point) (s : Surface) : exec Surface := for_each pts (λ p s, draw_dot s p half c) s.

Lemma dots_cons half c p pts s : dots half c (p :: pts) s = let! s := draw_dot s p half c in dots half c pts s.
Proof. done. Qed.

Section line.
Context (end_ : Point) (dx dy sx sy half : Z) (c : Color).
Hypothesis end_x : small (p_x end_).
Hypothesis end_y : small (p_y end_).
Hypothesis sx_ok : sx = 1 ∨ sx = -1.
Hypothesis sy_ok : sy = 1 ∨ sy = -1.
Hypothesis dx_ok : 0 <= dx < 2 ^ 30.
Hypothesis dy_ok : 0 <= dy < 2 ^ 30.

(** Wider than high: every step goes to the next column. The error stays in [[0, dx)],
    so that as many rows have been passed as there are when all columns have been. *)
Lemma line_wide (k : nat) fuel j err E :
  dy < dx → 0 <= err < dx → 0 <= E < dx → err - Z.of_nat k * dy + j * dx = E → Z.of_nat k <= dx → (k < fuel)%nat →
  let p := mkPoint (p_x end_ - sx * Z.of_nat k) (p_y end_ - sy * j) in
  ∃ pts, length pts = k ∧ line_shape p end_ pts ∧
    (∀ i q, (p :: pts) !! i = Some q → p_x q = p_x end_ - sx * (Z.of_nat k - Z.of_nat i) ∧ ∃ j', p_y q = p_y end_ - sy * j' ∧ 0 <= j' <= j) ∧
    ∀ s, line_loop fuel s p end_ dx dy sx sy err half c = dots half c (p :: pts) s.
Proof.
  intros Hd. unfold small in end_x, end_y. revert fuel j err. induction k as [|k IH]; intros [|fuel] j err He HE Hinv Hk Hf p; try lia.
  - assert (j = 0) as -> by nia. exists []. split; [done|]. assert (p = end_) as Ep by (unfold p; destruct end_; cbn; f_equal; lia). split; [split; [exact Ep|done]|]. split.
    + intros [|i] q Hq; [|done]. injection Hq as <-. unfold p. cbn. split; [lia|]. exists 0. lia.
    + intros s. cbn [line_loop]. rewrite Ep, dots_cons. destruct (draw_dot s end_ half c); [|done]. cbn [ebind]. by rewrite decide_True.
  - assert (0 <= j <= dy) as Hj by nia.
    set (err1 := if decide (err < dy) then err - dy + dx else err - dy). set (j1 := if decide (err < dy) then j - 1 else j).
    assert (0 <= err1 < dx) as He1 by (unfold err1; case_decide; lia). assert (err1 - Z.of_nat k * dy + j1 * dx = E) as Hinv1 by (unfold err1, j1; case_decide; lia).
    assert (0 <= j1) as Hj1 by nia. destruct (IH fuel j1 err1 He1 HE Hinv1 ltac:(lia) ltac:(lia)) as (pts & Hl & Hsh & Hpos & Hloop).
    set (q := mkPoint (p_x end_ - sx * Z.of_nat k) (p_y end_ - sy * j1)) in *.
    assert (j1 = j ∨ j1 = j - 1) as Hjj by (unfold j1; case_decide; lia).
    exists (q :: pts). split; [cbn; lia|]. split; [apply line_shape_cons; [done| |]; unfold p, q; cbn; lia|]. split.
    + intros [|i] r Hr; [injection Hr as <-; unfold p; cbn [p_x p_y]; split; [lia|]; exists j; lia|]. destruct (Hpos i r Hr) as (X & j' & Y & Hj'). split; [lia|]. exists j'. split; [done|]. lia.
    + intros s. cbn [line_loop]. rewrite dots_cons. destruct (draw_dot s p half c) as [s1|]; [|done]. cbn [ebind]. rewrite decide_False by (unfold p; cbn; lia).
      rewrite decide_True by lia. assert (i32 (p_x p + sx) = p_x q) as -> by (unfold p, q; cbn; rewrite i32_ok; lia).
      rewrite (i32_ok (err - dy)) by lia. rewrite <- Hloop. unfold err1, j1, q in *. case_decide.
      * rewrite (i32_ok (err - dy + dx)) by lia. assert (i32 (p_y p + sy) = p_y end_ - sy * (j - 1)) as -> by (unfold p; cbn; rewrite i32_ok; lia). done.
      * done.
Qed.

(** Not wider than high: every step goes to the next row. *)
Lemma line_tall (k : nat) fuel j err E :
  dx <= dy → 0 < dy → - dy < err <= 0 → - dy < E <= 0 → err - j * dy + Z.of_nat k * dx = E → Z.of_nat k <= dy → (k < fuel)%nat →
  let p := mkPoint (p_x end_ - sx * j) (p_y end_ - sy * Z.of_nat k) in
  ∃ pts, length pts = k ∧ line_shape p end_ pts ∧ ∀ s, line_loop fuel s p end_ dx dy sx sy err half c = dots half c (p :: pts) s.
Proof.
  intros Hd Hdy. unfold small in end_x, end_y. revert fuel j err. induction k as [|k IH]; intros [|fuel] j err He HE Hinv Hk Hf p; try lia.
  - assert (j = 0) as -> by nia. exists []. split; [done|]. assert (p = end_) as Ep by (unfold p; destruct end_; cbn; f_equal; lia). split; [split; [exact Ep|done]|].
    intros s. cbn [line_loop]. rewrite Ep, dots_cons. destruct (draw_dot s end_ half c); [|done]. cbn [ebind]. by rewrite decide_True.
  - assert (0 <= j <= dx) as Hj by nia.
    set (err1 := if decide (- dx < err) then err - dy + dx else err + dx). set (j1 := if decide (- dx < err) then j - 1 else j).
    assert (- dy < err1 <= 0) as He1 by (unfold err1; case_decide; lia). assert (err1 - j1 * dy + Z.of_nat k * dx = E) as Hinv1 by (unfold err1, j1; case_decide; lia).
    destruct (IH fuel j1 err1 He1 HE Hinv1 ltac:(lia) ltac:(lia)) as (pts & Hl & Hsh & Hloop). set (q := mkPoint (p_x end_ - sx * j1) (p_y end_ - sy * Z.of_nat k)) in *.
    assert (j1 = j ∨ j1 = j - 1) as Hjj by (unfold j1; case_decide; lia).
    exists (q :: pts). split; [cbn; lia|]. split; [apply line_shape_cons; [done| |]; unfold p, q; cbn; lia|].
    intros s. cbn [line_loop]. rewrite dots_cons. destruct (draw_dot s p half c) as [s1|]; [|done]. cbn [ebind]. rewrite decide_False by (unfold p; cbn; lia). rewrite <- Hloop. unfold err1, j1, q in *.
    destruct (decide (err < dy)) as [_|]; [|lia]. assert (i32 (p_y p + sy) = p_y end_ - sy * Z.of_nat k) as -> by (unfold p; cbn; rewrite i32_ok; lia). case_decide.
    + rewrite (i32_ok (err - dy)) by lia. rewrite (i32_ok (err - dy + dx)) by lia. assert (i32 (p_x p + sx) = p_x end_ - sx * (j - 1)) as -> by (unfold p; cbn; rewrite i32_ok; lia). done.
    + rewrite (i32_ok (err + dx)) by lia. done.
Qed.
End line.

Section shapes.
Context (fuel : nat).

(** The half of a thickness. *)
Definition half_of (thickness : option Z) : Z := Z.quot (i32 (Z.max (default 1 thickness) 1)) 2.

(** Every line ends. *)
Lemma draw_line_points start end_ c th :
  small (p_x start) → small (p_y start) → small (p_x end_) → small (p_y end_) →
  let n := Z.max (Z.abs (p_x end_ - p_x start)) (Z.abs (p_y end_ - p_y start)) in
  n < Z.of_nat fuel →
  ∃ pts, Z.of_nat (length pts) = n ∧ line_shape start end_ pts ∧
    (p_y start = p_y end_ → p_x start <= p_x end_ → ∀ i q, (start :: pts) !! i = Some q → p_x q = p_x start + Z.of_nat i ∧ p_y q = p_y start) ∧
    ∀ s, draw_line fuel s start end_ c th = dots (half_of th) c (start :: pts) s.
Proof.
  intros H1 H2 H3 H4 n Hf. unfold small in H1, H2, H3, H4. unfold draw_line. fold (half_of th). rewrite !(i32_ok (_ - _)) by lia. set (dx := Z.abs (p_x end_ - p_x start)) in *. set (dy := Z.abs (p_y end_ - p_y start)) in *.
  set (sx := if decide (p_x start < p_x end_) then 1 else -1). set (sy := if decide (p_y start < p_y end_) then 1 else -1).
  assert ((sx = 1 ∨ sx = -1) ∧ p_x start = p_x end_ - sx * dx) as [Hsx Ex] by (unfold sx, dx; case_decide; lia). assert ((sy = 1 ∨ sy = -1) ∧ p_y start = p_y end_ - sy * dy) as [Hsy Ey] by (unfold sy, dy; case_decide; lia).
  destruct (decide (dy < dx)) as [Hd|Hd].
  - destruct (line_wide end_ dx dy sx sy (half_of th) c ltac:(unfold small; lia) ltac:(unfold small; lia) Hsx Hsy ltac:(lia) ltac:(lia) (Z.to_nat dx) fuel dy (Z.quot dx 2) (Z.quot dx 2) Hd) as (pts & Hl & Hs & Hp & Hloop);
      [Z.to_euclidean_division_equations; lia|Z.to_euclidean_division_equations; lia|lia|lia|lia|].
    rewrite Z2Nat.id in * by lia. assert (mkPoint (p_x end_ - sx * dx) (p_y end_ - sy * dy) = start) as E by (destruct start; cbn in *; f_equal; lia). rewrite E in *.
    exists pts. split; [lia|]. split; [done|]. split; [|exact Hloop]. intros Hy Hx i q Hq. destruct (Hp i q Hq) as (Px & j' & Py & Hj'). assert (sx = 1) as Hsx1 by (unfold sx, dx in *; case_decide; lia).
    rewrite Hsx1 in *. assert (dy = 0) by (unfold dy; lia). assert (j' = 0) as -> by lia. lia.
  - destruct (decide (dy = 0)) as [H0|H0].
    + assert (start = end_) as -> by (destruct start, end_; cbn in *; f_equal; lia). exists []. split; [cbn; lia|]. split; [by split|]. split.
      * intros _ _ [|i] q Hq; [|done]. injection Hq as <-. lia.
      * intros s. destruct fuel; [lia|]. cbn [line_loop]. rewrite dots_cons. destruct (draw_dot s end_ (half_of th) c); [|done]. cbn [ebind]. by rewrite decide_True.
    + destruct (line_tall end_ dx dy sx sy (half_of th) c ltac:(unfold small; lia) ltac:(unfold small; lia) Hsx Hsy ltac:(lia) ltac:(lia) (Z.to_nat dy) fuel dx (Z.quot (- dy) 2) (Z.quot (- dy) 2) ltac:(lia) ltac:(lia)) as (pts & Hl & Hs & Hloop);
        [Z.to_euclidean_division_equations; lia|Z.to_euclidean_division_equations; lia|lia|lia|lia|].
      rewrite Z2Nat.id in * by lia. assert (mkPoint (p_x end_ - sx * dx) (p_y end_ - sy * dy) = start) as E by (destruct start; cbn in *; f_equal; lia). rewrite E in *.
      exists pts. split; [lia|]. split; [done|]. split; [|exact Hloop]. intros Hy. unfold dy in H0. lia.
Qed.

(** The square around a point. *)
Definition near (half : Z) (p : Point) (x y : Z) : bool := bool_decide (Z.abs (x - p_x p) <= half ∧ Z.abs (y - p_y p) <= half).

Lemma draw_dot_paints s0 p half c :
  - 2 ^ 30 <= p_x p <= 2 ^ 30 → - 2 ^ 30 <= p_y p <= 2 ^ 30 → 0 <= half < 2 ^ 29 →
  paints s0 (λ s, draw_dot s p half c) (near half p) (λ x y, shown (sf_format s0) (mkPoint x y) c).
Proof.
  intros Hx Hy Hh. set (C := λ x y, shown _ _ _).
  assert (paints s0 (λ s, draw_dot s p half c) (λ x y, existsb (λ oy, existsb (λ ox, bool_decide (x = p_x p + ox ∧ y = p_y p + oy)) (range (- half) (half + 1))) (range (- half) (half + 1))) C) as Hp.
  { unfold draw_dot. apply (paints_for_each s0 _ (λ oy, for_each _ _)). intros oy Hoy%elem_range. apply (paints_for_each s0 _ (λ ox s, draw_pixel s _ c)). intros ox Hox%elem_range. rewrite !i32_ok by lia.
    apply paints_pixel. done. }
  refine (paints_ext s0 _ _ _ C C _ Hp). intros x y _. split; [|done]. unfold near. apply eq_true_iff_eq. rewrite existsb_range, bool_decide_eq_true. split.
  - intros (oy & Hoy & Hex). apply existsb_range in Hex as (ox & Hox & Hb). apply bool_decide_eq_true in Hb. lia.
  - intros H. exists (y - p_y p). split; [lia|]. apply existsb_range. exists (x - p_x p). split; [lia|]. apply bool_decide_eq_true. lia.
Qed.

Lemma connected_small p pts n q : connected p pts → (length pts <= n)%nat → q ∈ p :: pts → Z.abs (p_x q - p_x p) <= Z.of_nat n ∧ Z.abs (p_y q - p_y p) <= Z.of_nat n.
Proof.
  revert p n. induction pts as [|r pts IH]; intros p n Hc Hl Hq.
  - apply list_elem_of_singleton in Hq as ->. lia.
  - apply elem_of_cons in Hq as [->|Hq]; [lia|]. destruct Hc as (H1 & H2 & Hc). destruct n as [|n]; [cbn in Hl; lia|]. destruct (IH r n Hc ltac:(cbn in Hl; lia) Hq). lia.
Qed.

Lemma draw_line_paints s0 start end_ c th :
  small (p_x start) → small (p_y start) → small (p_x end_) → small (p_y end_) → default 1 th < 2 ^ 29 →
  let n := Z.max (Z.abs (p_x end_ - p_x start)) (Z.abs (p_y end_ - p_y start)) in
  n < Z.of_nat fuel → n < 2 ^ 28 →
  ∃ pts, Z.of_nat (length pts) = n ∧ line_shape start end_ pts ∧
    paints s0 (λ s, draw_line fuel s start end_ c th) (λ x y, existsb (λ p, near (half_of th) p x y) (start :: pts)) (λ x y, shown (sf_format s0) (mkPoint x y) c).
Proof.
  intros H1 H2 H3 H4 Ht n Hf Hn. destruct (draw_line_points start end_ c th H1 H2 H3 H4 Hf) as (pts & Hl & Hs & _ & Hd). exists pts. split; [done|]. split; [done|].
  eapply paints_fun; [intros s _; exact (Hd s)|]. unfold dots. apply (paints_for_each s0 (start :: pts) (λ p s, draw_dot s p (half_of th) c)). intros p Hp. destruct Hs as [Hlast Hc].
  assert (0 <= half_of th < 2 ^ 29) as Hh by (unfold half_of; rewrite i32_ok by lia; Z.to_euclidean_division_equations; lia).
  destruct (connected_small start pts (length pts) p Hc ltac:(lia) Hp). unfold small in *. apply draw_dot_paints; [lia|lia|done].
Qed.

(** C36: a line of any thickness is drawn completely, without a panic: with fuel for its
    longer extent the loop ends, having gone through points of which the first is the
    start, the last the end, and each touches the next, as many as the extent has steps;
    the pixels around them get the colour, as far as they are on the surface, and no
    other pixel of the buffer changes. *)
Theorem line_drawn s0 start end_ c th :
  small (p_x start) → small (p_y start) → small (p_x end_) → small (p_y end_) → default 1 th < 2 ^ 29 →
  let n := Z.max (Z.abs (p_x end_ - p_x start)) (Z.abs (p_y end_ - p_y start)) in
  n < Z.of_nat fuel → n < 2 ^ 28 →
  ∃ pts, Z.of_nat (length pts) = n ∧ line_shape start end_ pts ∧
    paints s0 (λ s, draw_line fuel s start end_ c th) (λ x y, existsb (λ p, near (half_of th) p x y) (start :: pts)) (λ x y, shown (sf_format s0) (mkPoint x y) c).
Proof. apply draw_line_paints. Qed.

(** * Rectangles *)

Lemma horizontal_line s0 x0 x1 y c :
  small x0 → small x1 → small y → x0 <= x1 → x1 - x0 < Z.of_nat fuel →
  paints s0 (λ s, draw_line fuel s (mkPoint x0 y) (mkPoint x1 y) c None) (λ x y', bool_decide (x0 <= x <= x1 ∧ y' = y)) (λ x y, shown (sf_format s0) (mkPoint x y) c).
Proof.
  intros H0 H1 Hy Hle Hf. set (C := λ x y, shown _ _ _). destruct (draw_line_points (mkPoint x0 y) (mkPoint x1 y) c None H0 Hy H1 Hy) as (pts & Hl & Hs & Hh & Hd); [cbn; lia|]. cbn [p_x p_y] in *.
  specialize (Hh eq_refl Hle). unfold small in *. assert (Z.of_nat (length pts) = x1 - x0) as Hlen by lia. eapply paints_fun; [intros s _; exact (Hd s)|].
  assert (∀ q, q ∈ mkPoint x0 y :: pts → x0 <= p_x q <= x1 ∧ p_y q = y) as Hq.
  { intros q Hq. apply list_elem_of_lookup_1 in Hq as [i Hi]. pose proof (lookup_lt_Some _ _ _ Hi) as Hil. cbn in Hil. destruct (Hh i q Hi). lia. }
  assert (paints s0 (dots (half_of None) c (mkPoint x0 y :: pts)) (λ x y', existsb (λ p, near (half_of None) p x y') (mkPoint x0 y :: pts)) C) as Hp.
  { unfold dots. apply (paints_for_each s0 _ (λ p s, draw_dot s p _ c)). intros p Hp. destruct (Hq p Hp). change (half_of None) with 0. apply draw_dot_paints; lia. }
  refine (paints_ext s0 _ _ _ C C _ Hp). intros x y' _. split; [|done]. apply eq_true_iff_eq. rewrite existsb_exists, bool_decide_eq_true. change (half_of None) with 0. unfold near. split.
  - intros (p & Hin & Hb). apply bool_decide_eq_true in Hb. apply list_elem_of_In in Hin. destruct (Hq p Hin). lia.
  - intros [Hx ->]. destruct (lookup_lt_is_Some_2 (mkPoint x0 y :: pts) (Z.to_nat (x - x0))) as [q Hi]; [cbn; lia|]. exists q. destruct (Hh _ _ Hi) as [X Y]. split; [apply list_elem_of_In; by apply list_elem_of_lookup_2 in Hi|].
    apply bool_decide_eq_true. lia.
Qed.

(** A rectangle is filled including the column behind it. *)
Lemma fill_rect_paints s0 rect c :
  let x0 := p_x (r_origin rect) in let y0 := p_y (r_origin rect) in let w := s_w (r_size rect) in let h := s_h (r_size rect) in
  small x0 → small y0 → small (x0 + w) → small (y0 + h) → 0 <= w → w < Z.of_nat fuel →
  paints s0 (λ s, fill_rect fuel s rect c) (λ x y, bool_decide (x0 <= x <= x0 + w ∧ y0 <= y < y0 + h)) (λ x y, shown (sf_format s0) (mkPoint x y) c).
Proof.
  intros x0 y0 w h Hx Hy Hxw Hyh Hw Hf. set (C := λ x y, shown _ _ _).
  assert (paints s0 (λ s, fill_rect fuel s rect c) (λ x y, existsb (λ yo, bool_decide (x0 <= x <= x0 + w ∧ y = y0 + yo)) (range 0 h)) C) as Hp.
  { unfold fill_rect. apply (paints_for_each s0 _ (λ yo s, draw_line fuel s _ _ c None)). intros yo Hyo%elem_range. fold x0 y0 w. unfold small in *. rewrite !i32_ok by lia. apply horizontal_line; unfold small; lia. }
  refine (paints_ext s0 _ _ _ C C _ Hp). intros x y _. split; [|done]. apply eq_true_iff_eq. rewrite existsb_range, bool_decide_eq_true. split.
  - intros (yo & Hyo & Hb). apply bool_decide_eq_true in Hb. lia.
  - intros H. exists (y - y0). split; [lia|]. apply bool_decide_eq_true. lia.
Qed.

(** * Clearing *)

Lemma get1_fill k : 0 <= k < 8 → get1 0 k = false ∧ get1 255 k = true.
Proof.
  intros Hk. pose proof (forallb_upto 8 (λ k, negb (get1 0 k) && get1 255 k) eq_refl k Hk) as H. apply andb_true_iff in H as [H1 H2]. by apply negb_true_iff in H1.
Qed.

Lemma fill_byte_shown c b p k : fill_byte c = Some b → 0 <= k < 8 → (if get1 b k then Black else White) = shown Mono p c ∧ is_u 8 b.
Proof. intros Hb Hk. destruct (get1_fill k Hk) as [H0 H1]. destruct c; try discriminate Hb; injection Hb as <-; [rewrite H0|rewrite H1]; (split; [done|unfold is_u; lia]). Qed.

Lemma row_between y0 y h pitch col : 0 <= y < h → 0 <= col < pitch → y0 * pitch <= (y0 + y) * pitch + col < y0 * pitch + h * pitch.
Proof. nia. Qed.

(** A surface is cleared completely, on either path. *)
Lemma clear_ok s c :
  surface_ok s → s_w (sf_size s) < 2 ^ 29 → s_h (sf_size s) < 2 ^ 29 → s_w (sf_size s) < Z.of_nat fuel →
  ∃ s', clear fuel s None c = Ret s' ∧ like s s' ∧ ∀ x y, inside (sf_size s) x y = true → pic s' x y = shown (sf_format s) (mkPoint x y) c.
Proof.
  intros Hs Hw Hh Hf. pose proof Hs as (S1 & S2 & S3 & S4 & S5 & S6 & S7 & S8 & S9). unfold clear. cbn [default from_option id r_origin r_size p_x p_y].
  destruct (if decide _ then fill_byte c else None) as [b|] eqn:Eb.
  - destruct (decide (sf_format s = Mono ∧ _)) as [[Em Ea]|]; [|done]. apply bool_decide_eq_true in Ea as (Ax & _). rewrite Em in *. cbn [format_bits] in S7.
    assert (0 <= sf_pitch s) as Hp by lia. assert (0 <= p_y (sf_sub s) * sf_pitch s ∧ 0 <= s_h (sf_size s) * sf_pitch s) as [Hp1 Hp2] by nia.
    change (usize 0) with 0. rewrite Z.add_0_r. rewrite !(usize_small (p_y (sf_sub s))) by (rewrite ?usize_small; lia). rewrite (usize_small (s_h (sf_size s))) by lia. rewrite (usize_small (_ * _)) by lia. rewrite (usize_small (s_h _ * _)) by lia.
    unfold fill_bytes. rewrite (usize_small (_ + _)) by lia. rewrite slice_ok by lia. cbn [ebind]. eexists. split; [reflexivity|]. set (start := Z.to_nat _). set (n := Z.to_nat (s_h (sf_size s) * sf_pitch s)).
    assert (length (splice (sf_data s) start (replicate n b)) = length (sf_data s)) as Hlen by (apply length_splice; rewrite length_replicate; lia).
    destruct (fill_byte_shown c b (mkPoint 0 0) 0 Eb ltac:(lia)) as [_ Hb]. split.
    + split_and!; try done. split_and!; cbn; rewrite ?Hlen, ?Em; cbn [format_bits]; try (done || lia). unfold bytes_ok, splice. apply Forall_app. split; [by apply Forall_take|]. apply Forall_app. split; [by apply Forall_replicate|by apply Forall_drop].
    + intros x y Hin. pose proof (in_rows_surface s x y Hs Hin) as Hr. rewrite Em in Hr. pose proof (row_byte _ _ _ _ _ Hr) as Hi. destruct Hr as (R1 & R2 & _). cbn [format_bits] in R2. pose proof (column_byte Mono _ _ R1 R2) as Hcol.
      apply bool_decide_eq_true in Hin as [_ Hy]. unfold pic, pixel_at. cbn [sf_format sf_pitch sf_data sf_sub with_bytes]. rewrite Em. set (i := Z.to_nat _).
      assert (nth i (splice (sf_data s) start (replicate n b)) 0 = b) as ->; [|apply (fill_byte_shown c b _ _ Eb), Z.mod_pos_bound; lia].
      pose proof (row_between (p_y (sf_sub s)) y (s_h (sf_size s)) (sf_pitch s) _ Hy Hcol) as Hrow. rewrite nth_lookup. unfold splice. rewrite lookup_app_r by (rewrite length_take; unfold i, start; lia). rewrite length_take.
      rewrite lookup_app_l by (rewrite length_replicate; unfold i, start, n; lia). rewrite lookup_replicate_2; [done|]. unfold i, start, n. lia.
  - destruct (paints_pic s _ _ _ s (fill_rect_paints s (mkRect (mkPoint 0 0) (sf_size s)) c ltac:(unfold small; cbn; lia) ltac:(unfold small; cbn; lia) ltac:(unfold small; cbn; lia) ltac:(unfold small; cbn; lia) S3 Hf) (like_refl s Hs))
      as (s' & E & L & H). exists s'. split; [done|]. split; [done|]. intros x y Hin. rewrite H by done. apply bool_decide_eq_true in Hin. cbn. by rewrite bool_decide_eq_true_2 by lia.
Qed.
End shapes.

(** ** Examples *)

Lemma line_drawn_witness :
  ∃ pts, length pts = 5%nat ∧ line_shape (mkPoint 1 1) (mkPoint 6 4) pts ∧
    paints (image_new (mkSize 8 8) Mono) (λ s, draw_line 6 s (mkPoint 1 1) (mkPoint 6 4) Black None) (λ x y, existsb (λ p, near (half_of None) p x y) (mkPoint 1 1 :: pts))
      (λ x y, shown (sf_format (image_new (mkSize 8 8) Mono)) (mkPoint x y) Black).
Proof.
  destruct (line_drawn 6 (image_new (mkSize 8 8) Mono) (mkPoint 1 1) (mkPoint 6 4) Black None) as (pts & Hl & Hs & Hp);
    try (unfold small; cbn; lia). exists pts. split; [|split; [exact Hs|exact Hp]]. change (Z.of_nat (length pts) = 5) in Hl. lia.
Defined.

(** The pixels of a surface with eight bits for each are always read as white. *)
Lemma eight_bits_white s x y : surface_ok s → sf_format s = EightBpp → inside (sf_size s) x y = true → read_pixel s (mkPoint x y) = Ret White.
Proof. intros Hs Hf Hin. rewrite read_pixel_ok by done. unfold pic, pixel_at. by rewrite Hf. Qed.

(** Clearing the left half of an image, by a view of it, clears all of it. *)
Lemma clear_view_clears_image :
  let im := with_bytes (image_new (mkSize 16 2) Mono) (replicate 4 255) in
  clear 20 (subimage im (mkRect (mkPoint 0 0) (mkSize 8 2))) None White = Ret (subimage (image_new (mkSize 16 2) Mono) (mkRect (mkPoint 0 0) (mkSize 8 2))).
Proof. vm_compute. reflexivity. Qed.

(** A rectangle of two columns is filled with three. *)
Lemma fill_rect_wide : fill_rect 9 (image_new (mkSize 8 1) Mono) (mkRect (mkPoint 1 0) (mkSize 2 1)) Black = Ret (with_bytes (image_new (mkSize 8 1) Mono) [112]).
Proof. vm_compute. reflexivity. Qed.

(** Scrolling down panics: the rows to be cleared have a negative height. *)
Lemma scroll_down_panics : scroll 20 (image_new (mkSize 8 4) Mono) (-1) White = Panic.
Proof. vm_compute. reflexivity. Qed.

(** So does clearing an area that is as wide as the surface and goes beyond its rows,
    inverting one that goes beyond its bytes, and copying a part of an image that goes
    beyond it, or an empty one. *)
Lemma beyond_panics :
  let s := image_new (mkSize 8 4) Mono in
  let beyond := mkRect (mkPoint 0 2) (mkSize 8 4) in
  clear 20 s (Some beyond) White = Panic ∧ invert s (Some beyond) = Panic ∧ draw_image_clipped s s (Some beyond) None = Panic ∧
  draw_image_clipped s s (Some (mkRect (mkPoint 0 0) (mkSize 0 4))) None = Panic.
Proof. vm_compute. done. Qed.

(** * All operations *)

(** An operation that returns a surface of the same shape, from any such surface. *)
Definition draws (s0 : Surface) (f : Surface → exec Surface) : Prop := ∀ s, like s0 s → ∃ s', f s = Ret s' ∧ like s0 s'.

Lemma paints_draws s0 f T C : paints s0 f T C → draws s0 f.
Proof. intros Hp s Hs. destruct (Hp s Hs) as (s' & E & L & _). by exists s'. Qed.

Lemma draws_ret s0 : draws s0 Ret.
Proof. intros s Hs. by exists s. Qed.

Lemma draws_seq s0 f g : draws s0 f → draws s0 g → draws s0 (λ s, let! s := f s in g s).
Proof. intros Hf Hg s Hs. destruct (Hf s Hs) as (s1 & -> & L1). cbn. by apply Hg. Qed.

Lemma draws_for_each {A} s0 (l : list A) f : (∀ a, a ∈ l → draws s0 (f a)) → draws s0 (for_each l f).
Proof.
  induction l as [|a l IH]; intros H; [apply draws_ret|]. apply (draws_seq s0 (f a) (for_each l f)); [apply H; by left|]. apply IH. intros b Hb. apply H. by right.
Qed.

Lemma draws_pixel s0 p c : draws s0 (λ s, draw_pixel s p c).
Proof. eapply paints_draws, (paints_pixel s0 p c (λ _ _, shown (sf_format s0) p c)). done. Qed.

Lemma draws_points s0 c ps : draws s0 (draw_points c ps).
Proof. apply draws_for_each. intros p _. apply draws_pixel. Qed.

(** Reading a pixel of an image and drawing it somewhere. *)
Lemma draws_copy s0 src x y p : surface_ok src → inside (sf_size src) x y = true → draws s0 (copy_pixel src (mkPoint x y) p).
Proof. intros Hs Hin s Hl. unfold copy_pixel. rewrite read_pixel_ok by done. cbn [ebind]. by apply draws_pixel. Qed.

Lemma in_grid w h x y : x ∈ range 0 w → y ∈ range 0 h → inside (mkSize w h) x y = true.
Proof. intros Hx%elem_range Hy%elem_range. apply bool_decide_eq_true. cbn. lia. Qed.

Lemma inside_eta sz x y : inside (mkSize (s_w sz) (s_h sz)) x y = inside sz x y.
Proof. by destruct sz. Qed.

Section bounded.
Context (fuel : nat) (D : Z).
Hypothesis D_ok : 0 < D <= 2 ^ 24.
Hypothesis fuel_ok : 8 * D < Z.of_nat fuel.

Definition within (k x : Z) : Prop := - (k * D) <= x <= k * D.

Definition point_in (k : Z) (p : Point) : Prop := within k (p_x p) ∧ within k (p_y p).

Lemma draws_line s0 a b c th : point_in 4 a → point_in 4 b → default 1 th < 2 ^ 29 → draws s0 (λ s, draw_line fuel s a b c th).
Proof.
  unfold point_in, within. intros [Ha1 Ha2] [Hb1 Hb2] Ht.
  destruct (draw_line_paints fuel s0 a b c th) as (pts & _ & _ & Hp); [unfold small; lia..|done|lia|lia|]. by eapply paints_draws.
Qed.

Definition rect_in (r : Rect) : Prop := point_in 1 (r_origin r) ∧ 0 <= s_w (r_size r) <= D ∧ 0 <= s_h (r_size r) <= D.

Lemma i32_in k x : within k x → 0 <= k <= 16 → i32 x = x.
Proof. unfold within. intros H Hk. apply i32_ok. nia. Qed.

Lemma draws_rect s0 r c : rect_in r → draws s0 (λ s, draw_rect fuel s r c).
Proof.
  intros ([Hx Hy] & Hw & Hh). unfold within in Hx, Hy. unfold draw_rect. rewrite !i32_ok by lia.
  repeat (apply draws_seq; [apply draws_line; [unfold point_in, within; cbn; lia..|cbn; lia]|]). apply draws_line; [unfold point_in, within; cbn; lia..|cbn; lia].
Qed.

Lemma draws_fill_rect s0 r c : point_in 2 (r_origin r) → 0 <= s_w (r_size r) <= D → s_h (r_size r) <= 2 * D → draws s0 (λ s, fill_rect fuel s r c).
Proof.
  intros [Hx Hy] Hw Hh. unfold within in Hx, Hy. unfold fill_rect. apply (draws_for_each s0 _ (λ yo s, draw_line fuel s _ _ c None)). intros yo Hyo%elem_range. rewrite !i32_ok by lia.
  apply draws_line; [unfold point_in, within; cbn; lia..|cbn; lia].
Qed.

(** The loop of the arcs: as many steps as the radius has pixels. *)
Lemma arc_loop_draws s0 draw r : (∀ fx fy, 0 <= fy <= fx → fx <= r → draws s0 (draw fx fy)) →
  ∀ n t1 fx fy, 0 <= fy → fx <= r → fx - fy + 1 < Z.of_nat n → (0 < n)%nat → draws s0 (λ s, arc_loop n draw s t1 fx fy).
Proof.
  intros Hd n. induction n as [|n IH]; intros t1 fx fy Hfy Hfx Hn Hp; [lia|]. intros s Hs. cbn [arc_loop]. case_decide; [by exists s|]. destruct (Hd fx fy ltac:(lia) Hfx s Hs) as (s1 & -> & L1). cbn [ebind].
  case_decide; apply IH; (done || lia).
Qed.

Lemma arc_draws s0 draw r : 0 <= r <= D → (∀ fx fy, 0 <= fy <= fx → fx <= r → draws s0 (draw fx fy)) → draws s0 (λ s, arc_loop fuel draw s (Z.quot r 16) r 0).
Proof. intros Hr Hd. apply (arc_loop_draws s0 draw r Hd); lia. Qed.

Lemma draws_circle s0 p r c : 0 <= r <= D → draws s0 (λ s, draw_circle fuel s p r c).
Proof. intros Hr. apply arc_draws; [done|]. intros fx fy _ _. apply draws_points. Qed.

Lemma off_in p x y k m : point_in k p → within m x → within m y → 0 <= k → 0 <= m → k + m <= 4 → point_in 4 (off p x y).
Proof. unfold point_in, within, off. intros [H1 H2] Hx Hy Hk Hm Hkm. cbn. rewrite !i32_ok by nia. nia. Qed.

(** Lists of lines. *)
Lemma draws_lines_nil s0 c : draws s0 (draw_lines fuel c []).
Proof. apply draws_ret. Qed.

Lemma draws_lines_cons s0 c a b ls : point_in 4 a → point_in 4 b → draws s0 (draw_lines fuel c ls) → draws s0 (draw_lines fuel c ((a, b) :: ls)).
Proof. intros Ha Hb Hl. apply (draws_seq s0 (λ s, draw_line fuel s a b c None) (draw_lines fuel c ls)); [apply draws_line; [done..|]; cbn; lia|done]. Qed.

Lemma draws_fill_circle s0 p r c : point_in 1 p → 0 <= r <= D → draws s0 (λ s, fill_circle fuel s p r c).
Proof.
  intros Hp Hr. apply arc_draws; [done|]. intros fx fy Hf Hfx. assert (∀ x y, - r <= x <= r → - r <= y <= r → point_in 4 (off p x y)) as Ho.
  { intros x y Hx Hy. apply (off_in p x y 1 1 Hp); unfold within; lia. }
  repeat (apply draws_lines_cons; [apply Ho; lia..|]). apply draws_lines_nil.
Qed.

Lemma corners_in b cr : rect_in b → 0 <= cr <= D → point_in 3 (corner_ul b cr) ∧ point_in 3 (corner_ur b cr) ∧ point_in 3 (corner_ll b cr) ∧ point_in 3 (corner_lr b cr).
Proof.
  intros ([Hx Hy] & Hw & Hh) Hc. unfold within in Hx, Hy. unfold point_in, within, corner_ul, corner_ur, corner_ll, corner_lr. cbn [p_x p_y]. rewrite !i32_ok by lia. lia.
Qed.

Lemma point_le a b x y : - (4 * D) <= x <= 4 * D → - (4 * D) <= y <= 4 * D → a = x → b = y → point_in 4 (mkPoint a b).
Proof. intros Hx Hy -> ->. split; unfold within; cbn [p_x p_y]; lia. Qed.

Lemma draws_roundrect s0 b cr c : rect_in b → 0 <= cr <= D → draws s0 (λ s, draw_roundrect fuel s b cr c).
Proof.
  intros Hb Hc. pose proof Hb as ([Hx Hy] & Hw & Hh). unfold within in Hx, Hy. unfold draw_roundrect. apply draws_seq; [apply arc_draws; [done|]; intros fx fy _ _; apply draws_points|].
  rewrite !i32_ok by lia. repeat (apply draws_lines_cons; [eapply point_le; [..|reflexivity|reflexivity]; lia..|]). apply draws_lines_nil.
Qed.

Lemma draws_fill_roundrect s0 b cr c : rect_in b → 0 <= cr <= D → draws s0 (λ s, fill_roundrect fuel s b cr c).
Proof.
  intros Hb Hc. pose proof Hb as ([Hx Hy] & Hw & Hh). destruct (corners_in b cr Hb Hc) as ([Ux Uy] & [Vx Vy] & [Lx Ly] & [Rx Ry]). unfold within in *. unfold fill_roundrect. cbv zeta. apply draws_seq.
  - apply arc_draws; [done|]. intros fx fy Hf Hfx. unfold off. rewrite !i32_ok by lia. repeat (apply draws_lines_cons; [eapply point_le; [..|reflexivity|reflexivity]; lia..|]). apply draws_lines_nil.
  - assert (p_y (corner_ul b cr) = p_y (r_origin b) + cr ∧ p_y (corner_ll b cr) = p_y (r_origin b) + s_h (r_size b) - cr) as [E1 E2] by (unfold corner_ul, corner_ll; cbn [p_y]; rewrite !i32_ok by lia; lia).
    rewrite E1, E2, !i32_ok by lia. apply draws_fill_rect; unfold point_in, within; cbn [r_origin r_size p_x p_y s_w s_h]; lia.
Qed.

(** A surface that has at most [D] columns and rows. *)
Definition surface_in (s : Surface) : Prop := surface_ok s ∧ s_w (sf_size s) <= D ∧ s_h (sf_size s) <= D.

Lemma draws_clear s0 c : surface_in s0 → draws s0 (λ s, clear fuel s None c).
Proof.
  intros (_ & Hw & Hh) s Hs. pose proof Hs as (E1 & _ & _ & _ & _ & Hok). destruct (clear_ok fuel s c Hok) as (s' & E & L & _); [rewrite E1; lia..|]. exists s'. split; [done|]. by apply (like_trans _ s).
Qed.

(** An area within the rows of the surface, and within its columns. *)
Definition rows_in (r : Rect) (s : Surface) : Prop :=
  0 <= p_y (r_origin r) ∧ p_y (r_origin r) + s_h (r_size r) <= s_h (sf_size s).
Definition columns_in (r : Rect) (s : Surface) : Prop :=
  0 <= p_x (r_origin r) ∧ p_x (r_origin r) + s_w (r_size r) <= s_w (sf_size s).

(** Writing bytes over bytes. *)
Lemma like_splice s i src :
  surface_ok s → bytes_ok src → (i + length src <= length (sf_data s))%nat → like s (with_bytes s (splice (sf_data s) i src)).
Proof.
  intros (H1 & H2 & H3 & H4 & H5 & H6 & H7 & H8 & H9) Hb Hl. unfold like, surface_ok. cbn. rewrite length_splice by done. do 5 (split; [done|]). do 8 (split; [done|]).
  unfold bytes_ok, splice. apply Forall_app. split; [by apply Forall_take|]. apply Forall_app. split; [done|by apply Forall_drop].
Qed.

(** Rows of the surface in its bytes. *)
Lemma rows_fit s y h :
  surface_ok s → 0 <= y → 0 <= h → y + h <= s_h (sf_size s) →
  0 <= (p_y (sf_sub s) + y) * sf_pitch s ∧ 0 <= h * sf_pitch s ∧ (p_y (sf_sub s) + y) * sf_pitch s + h * sf_pitch s <= Z.of_nat (length (sf_data s)) < 2 ^ 32.
Proof.
  intros (S1 & S2 & S3 & S4 & S5 & S6 & S7 & S8 & S9) Hy Hh Hyh. assert (0 <= format_bits (sf_format s)) as Hf by (destruct (sf_format s); cbn; lia).
  assert (0 <= sf_pitch s) as Hp by (pose proof (Z.mul_nonneg_nonneg (p_x (sf_sub s) + s_w (sf_size s)) (format_bits (sf_format s)) ltac:(lia) Hf); lia). split_and!; [nia|nia|nia|lia].
Qed.

(** Clearing an area, which must not go beyond the rows if it is as wide as the surface. *)
Lemma draws_clear_area s0 r c :
  surface_in s0 → rect_in r → (p_x (r_origin r) = 0 → s_w (r_size r) = s_w (sf_size s0) → rows_in r s0) → draws s0 (λ s, clear fuel s (Some r) c).
Proof.
  intros (_ & Hw & Hh) Hr Hrows s Hs. pose proof Hs as (E1 & _ & _ & _ & _ & Hok). unfold clear. cbn [default from_option id]. destruct (if decide _ then fill_byte c else None) as [b|] eqn:Eb.
  - destruct (decide (sf_format s = Mono ∧ _)) as [[Em Ea]|]; [|done]. apply bool_decide_eq_true in Ea as (Ax & Ao & Aw). rewrite E1 in Aw. destruct (Hrows Ao Aw) as [R1 R2]. destruct Hr as (Ho & Hrw & Hrh).
    destruct (rows_fit s (p_y (r_origin r)) (s_h (r_size r)) Hok R1 ltac:(lia) ltac:(rewrite E1; lia)) as (F1 & F2 & F3). pose proof Hok as (S1 & S2 & S3 & S4 & S5 & S6 & _).
    rewrite (usize_small (p_y (sf_sub s))), (usize_small (p_y (r_origin r))), (usize_small (s_h (r_size r))) by lia. rewrite (usize_small (p_y (sf_sub s) + _)) by lia. rewrite (usize_small ((_ + _) * _)), (usize_small (s_h _ * _)) by lia.
    unfold fill_bytes. rewrite (usize_small (_ + _)) by lia. rewrite slice_ok by lia. cbn [ebind]. eexists. split; [reflexivity|]. apply (like_trans _ s); [done|].
    destruct (fill_byte_shown c b (mkPoint 0 0) 0 Eb ltac:(lia)) as [_ Hb]. apply like_splice; [done|by apply Forall_replicate|rewrite length_replicate; lia].
  - destruct Hr as ([Hx Hy] & Hrw & Hrh). unfold within in *. apply (draws_fill_rect s0); [unfold point_in, within; lia|lia|lia|done].
Qed.

(** Scrolling up, or by more than the surface has rows. *)
Lemma draws_scroll s0 delta c :
  surface_in s0 → 0 <= delta ∨ delta <= - s_h (sf_size s0) → draws s0 (λ s, scroll fuel s delta c).
Proof.
  intros Hin Hd s Hs. pose proof Hin as (_ & Hw & Hh). pose proof Hs as (E1 & _). unfold scroll. case_decide; [by apply draws_ret|]. case_decide as Hall; [by apply draws_clear|]. rewrite E1 in *.
  pose proof Hs as (_ & _ & _ & _ & _ & Hok). pose proof Hok as (S1 & S2 & S3 & S4 & S5 & S6 & _). rewrite E1 in S3, S4, S5, S6.
  assert (∃ s1, (if decide (0 < delta ∧ sf_format s = Mono ∧ p_x (sf_sub s) = 0) then
      let! data := copy_within (sf_data s) (Z.to_nat (usize (usize (usize (p_y (sf_sub s)) * sf_pitch s) + usize (delta * sf_pitch s))))
        (Z.to_nat (usize (usize (usize (p_y (sf_sub s)) * sf_pitch s) + usize (usize (s_h (sf_size s0)) * sf_pitch s)))) (Z.to_nat (usize (usize (p_y (sf_sub s)) * sf_pitch s))) in
      Ret (with_bytes s data) else Ret s) = Ret s1 ∧ like s0 s1) as (s1 & -> & L1).
  { case_decide; [|by exists s]. destruct (rows_fit s 0 delta Hok ltac:(lia) ltac:(lia) ltac:(rewrite E1; lia)) as (F1 & F2 & F3). destruct (rows_fit s 0 (s_h (sf_size s0)) Hok ltac:(lia) ltac:(lia) ltac:(rewrite E1; lia)) as (_ & G2 & G3).
    destruct (rows_fit s delta (s_h (sf_size s0) - delta) Hok ltac:(lia) ltac:(lia) ltac:(rewrite E1; lia)) as (_ & K2 & K3). rewrite Z.add_0_r in *. rewrite Z.mul_sub_distr_r in K2.
    rewrite (usize_small (p_y (sf_sub s))), (usize_small (s_h _)) by lia. rewrite (usize_small (p_y _ * _)), (usize_small (delta * _)), (usize_small (s_h _ * _)) by lia. rewrite !(usize_small (_ + _)) by lia.
    unfold copy_within. rewrite slice_ok by lia. cbn [ebind]. set (part := take _ _). assert (length part <= Z.to_nat (s_h (sf_size s0) * sf_pitch s))%nat as Hpl by (unfold part; rewrite length_take; lia).
    rewrite copy_at_ok by lia. cbn [ebind]. eexists. split; [reflexivity|]. apply (like_trans _ s); [done|]. apply like_splice; [done|apply Forall_take, Forall_drop, Hok|lia]. }
  cbn [ebind]. rewrite i32_ok by lia. apply (draws_clear_area s0); [done| | |done].
  - unfold rect_in, point_in, within. cbn. lia.
  - intros _ _. unfold rows_in. cbn. lia.
Qed.

(** ** Images *)

Lemma draws_image s0 src pos : surface_in s0 → surface_in src → point_in 1 pos → draws s0 (λ s, draw_image s src pos).
Proof.
  intros (Hs0 & Hw & Hh) (Hs & Hsw & Hsh) [Hx Hy]. unfold within in *. pose proof Hs0 as (_ & _ & W0 & _).
  eapply paints_draws, draw_image_paints; [done|unfold small; lia..].
Qed.

(** A copy that goes through all pixels of an image. *)
Lemma draws_grid s0 w h (f : Z → Z → Surface → exec Surface) :
  (∀ x y, 0 <= x < w → 0 <= y < h → draws s0 (f y x)) → draws s0 (for_each (range 0 h) (λ y, for_each (range 0 w) (f y))).
Proof. intros Hf. apply draws_for_each. intros y Hy%elem_range. apply draws_for_each. intros x Hx%elem_range. by apply Hf. Qed.

Lemma draws_masked s0 src m pos : surface_ok src → surface_ok m → draws s0 (λ s, draw_image_masked s src m pos).
Proof.
  intros Hs Hm. unfold draw_image_masked. cbv zeta. apply (draws_grid s0 _ _ (λ iy ix s, _)). intros x y Hx Hy s Hl. rewrite read_pixel_ok; [|done|apply bool_decide_eq_true; lia]. cbn [ebind].
  case_decide; [|by apply draws_ret]. apply draws_copy; [done|apply bool_decide_eq_true; lia|done].
Qed.

Lemma draws_mirrored s0 src pos : surface_in src → draws s0 (λ s, draw_image_mirrored s src pos).
Proof.
  intros (Hs & Hw & Hh). apply (draws_grid s0 _ _ (λ iy ix, copy_pixel src _ _)). intros x y Hx Hy. rewrite (i32_ok (_ - 1 - x)), (i32_ok (_ - 1 - y)) by lia. apply draws_copy; [done|]. apply bool_decide_eq_true. lia.
Qed.

(** ** Clipped copies *)

(** An operation that also gives a number with a property. *)
Definition draws_with (s0 : Surface) (P : Z → Prop) (f : Surface * Z → exec (Surface * Z)) : Prop :=
  ∀ s k, like s0 s → P k → ∃ s' k', f (s, k) = Ret (s', k') ∧ like s0 s' ∧ P k'.

Lemma draws_with_each {A} s0 P (l : list A) f : (∀ a, a ∈ l → draws_with s0 P (f a)) → draws_with s0 P (for_each l f).
Proof.
  induction l as [|a l IH]; intros Hf s k Hs Hk; [by exists s, k|]. cbn [for_each]. destruct (Hf a ltac:(by left) s k Hs Hk) as (s1 & k1 & -> & L1 & P1). cbn [ebind]. apply IH; [|done|done]. intros b Hb. apply Hf. by right.
Qed.

Lemma next_source_ok k n : 0 <= k < n → n <= D → ∃ k', next_source k n = Ret k' ∧ 0 <= k' < n.
Proof.
  intros Hk Hn. unfold next_source, u32_rem. rewrite !usize_small by lia. rewrite decide_False by lia. eexists. split; [reflexivity|]. apply Z.mod_pos_bound. lia.
Qed.

(** A part of a surface that is not empty. *)
Definition part_in (r : Rect) (s : Surface) : Prop :=
  0 <= p_x (r_origin r) ∧ 0 <= p_y (r_origin r) ∧ 0 < s_w (r_size r) ∧ 0 < s_h (r_size r) ∧
  p_x (r_origin r) + s_w (r_size r) <= s_w (sf_size s) ∧ p_y (r_origin r) + s_h (r_size r) <= s_h (sf_size s).

Lemma draws_clipped_row s0 src c_src c_dest dy sy :
  surface_in src → part_in c_src src → 0 <= sy < s_h (r_size c_src) →
  ∀ s, like s0 s → ∃ s' k, clipped_row src c_src c_dest dy sy s = Ret (s', k) ∧ like s0 s'.
Proof.
  intros (Hs & Hw & Hh) (P1 & P2 & P3 & P4 & P5 & P6) Hsy s Hl. unfold clipped_row.
  destruct (draws_with_each s0 (λ k, 0 <= k < s_w (r_size c_src)) (range (p_x (r_origin c_dest)) (i32 (p_x (r_origin c_dest) + s_w (r_size c_dest)) + 1))
    (λ dx '(dest, sx), let! picked := read_pixel src (mkPoint (i32 (i32 sx + p_x (r_origin c_src))) (i32 (i32 sy + p_y (r_origin c_src)))) in
      let! dest := draw_pixel dest (mkPoint dx dy) picked in let! sx := next_source sx (s_w (r_size c_src)) in Ret (dest, sx))) with (s := s) (k := 0) as (s' & k & E & L & _);
    [|done|lia|exists s', k; by split].
  intros dx _ t sx Ht Hsx. rewrite !(i32_ok sx), !(i32_ok sy), !i32_ok by lia. rewrite read_pixel_ok; [|done|apply bool_decide_eq_true; lia]. cbn [ebind].
  destruct (draws_pixel s0 (mkPoint dx dy) (pic src (sx + p_x (r_origin c_src)) (sy + p_y (r_origin c_src))) t Ht) as (t' & -> & Lt). cbn [ebind].
  destruct (next_source_ok sx _ Hsx ltac:(lia)) as (k' & -> & Hk'). cbn [ebind]. by exists t', k'.
Qed.

Lemma draws_clipped s0 src src_rect dest_rect :
  surface_in src → part_in (default (mkRect (mkPoint 0 0) (sf_size src)) src_rect) src → draws s0 (λ s, draw_image_clipped s src src_rect dest_rect).
Proof.
  intros Hs Hp s Hl. unfold draw_image_clipped. cbv zeta. set (c_src := default _ src_rect) in *. set (c_dest := if decide _ then _ else _). pose proof Hs as (_ & Hw & Hh). pose proof Hp as (P1 & P2 & P3 & P4 & P5 & P6).
  destruct (draws_with_each s0 (λ k, 0 <= k < s_h (r_size c_src)) (range (p_y (r_origin c_dest)) (i32 (p_y (r_origin c_dest) + s_h (r_size c_dest)) + 1))
    (λ dy '(dest, sy), let! row := clipped_row src c_src c_dest dy sy dest in let! sy := next_source sy (s_h (r_size c_src)) in Ret (row.1, sy))) with (s := s) (k := 0) as (s' & k & E & L & _);
    [|done|lia|exists s'; rewrite E; by split].
  intros dy _ t sy Ht Hsy. destruct (draws_clipped_row s0 src c_src c_dest dy sy Hs Hp Hsy t Ht) as (t' & k & -> & Lt). cbn [ebind fst].
  destruct (next_source_ok sy _ Hsy ltac:(lia)) as (k' & -> & Hk'). cbn [ebind]. by exists t', k'.
Qed.

(** ** Inverting *)

Definition check_flip (b k k' : Z) : bool := bool_decide (is_u 8 (Z.lxor b (Z.shiftl 1 (7 - k)))).

Lemma check_flip_all : forallb (λ b, forallb (λ k, forallb (check_flip b k) (upto 1)) (upto 8)) (upto 256) = true.
Proof. vm_compute. reflexivity. Qed.

Lemma like_insert s i v : surface_ok s → is_u 8 v → like s (with_bytes s (<[i := v]> (sf_data s))).
Proof.
  intros (H1 & H2 & H3 & H4 & H5 & H6 & H7 & H8 & H9) Hv. unfold like, surface_ok. cbn. rewrite length_insert. do 5 (split; [done|]). do 8 (split; [done|]). by apply Forall_insert.
Qed.

Lemma draws_invert s0 area :
  surface_in s0 → (let r := default (mkRect (mkPoint 0 0) (sf_size s0)) area in rect_in r ∧ rows_in r s0 ∧ columns_in r s0) → draws s0 (λ s, invert s area).
Proof.
  intros ((_ & _ & W0 & H0 & _) & Hw & Hh) (Hr & Hrow & Hcol) s Hs. pose proof Hs as (E1 & _). unfold invert. case_decide as Hf; [by exists s|]. rewrite E1.
  set (r := default _ area) in *. destruct Hr as ([Hx Hy] & Hrw & Hrh). unfold within, rows_in, columns_in in *. rewrite !i32_ok by lia.
  assert (sf_format s0 = Mono) as Hf0 by (destruct Hs as (_ & E2 & _); destruct (decide (sf_format s = Mono)); [congruence|tauto]). clear Hf E1. revert s Hs.
  apply draws_for_each. intros y Hy'%elem_range. apply (draws_for_each s0 _ (λ px s, _)). intros x Hx'%elem_range s Hs. pose proof Hs as (E1 & E2 & E3 & E4 & E5 & Hok). assert (inside (sf_size s) x y = true) as Hin by (apply bool_decide_eq_true; rewrite E1; lia).
  destruct (pixel_index s x y Hok Hin) as (I1 & I2 & I3 & I4 & I5). rewrite E2, Hf0 in I3, I4, I5. change (pixels_per_byte Mono) with 8 in *. cbv zeta. rewrite I1, I2, I3, (idx_ok _ _ _ I4). cbn [ebind].
  rewrite set_idx_ok by (by eapply lookup_lt_Some). cbn [ebind]. eexists. split; [reflexivity|]. apply (like_trans _ s); [done|]. apply like_insert; [done|].
  pose proof (forallb_upto3 256 8 1 check_flip check_flip_all _ _ 0 I5 (Z.mod_pos_bound (p_x (sf_sub s) + x) 8 ltac:(lia)) ltac:(lia)) as Hc. by apply bool_decide_eq_true in Hc.
Qed.

(** ** Masks *)

Lemma any_of_total {A} (l : list A) f : (∀ a, a ∈ l → ∃ b, f a = Ret b) → ∃ b, any_of l f = Ret b.
Proof.
  induction l as [|a l IH]; intros Hf; cbn [any_of]; [by exists false|]. destruct (Hf a ltac:(by left)) as [b ->]. cbn [ebind]. destruct b; [by exists true|]. apply IH. intros a' Ha. apply Hf. by right.
Qed.

Lemma mask_set_total src grow alpha x y : surface_ok src → inside (sf_size src) x y = true → ∃ b, mask_set src grow alpha x y = Ret b.
Proof.
  intros Hs Hin. assert (∀ x y, inside (sf_size src) x y = true → ∃ b, differs src alpha (mkPoint x y) = Ret b) as Hd by (intros x' y' Hi; unfold differs; rewrite read_pixel_ok by done; by eexists).
  unfold mask_set. case_decide; [by apply Hd|]. apply any_of_total. intros dy _. apply any_of_total. intros dx _. case_decide; [|by exists false]. apply Hd, bool_decide_eq_true. lia.
Qed.

Lemma draws_mask s0 src grow alpha : surface_in s0 → surface_in src → draws s0 (λ s, mask fuel src grow alpha (Some s)).
Proof.
  intros H0 (Hs & _). unfold mask. cbv zeta. apply (draws_seq s0 (λ s, clear fuel s None White)); [by apply draws_clear|].
  apply (draws_grid s0 _ _ (λ y x s, _)). intros x y Hx Hy s Hl. destruct (mask_set_total src (i32 (default 0 grow)) (default Black alpha) x y Hs) as [b E]; [apply bool_decide_eq_true; lia|].
  rewrite E. cbn [ebind]. destruct b; [by apply draws_pixel|by apply draws_ret].
Qed.

(** ** The operations *)

Inductive Shape :=
  | SPixel (p : Point) (c : Color)
  | SLine (a b : Point) (c : Color) (thickness : option Z)
  | SRect (r : Rect) (c : Color)
  | SFillRect (r : Rect) (c : Color)
  | SCircle (p : Point) (r : Z) (c : Color)
  | SFillCircle (p : Point) (r : Z) (c : Color)
  | SRoundRect (r : Rect) (cr : Z) (c : Color)
  | SFillRoundRect (r : Rect) (cr : Z) (c : Color)
  | SClear (area : option Rect) (c : Color)
  | SInvert (area : option Rect)
  | SScroll (delta : Z) (c : Color)
  | SImage (src : Surface) (pos : Point)
  | SMasked (src m : Surface) (pos : Point)
  | SMirrored (src : Surface) (pos : Point)
  | SClipped (src : Surface) (src_rect dest_rect : option Rect)
  | SMask (src : Surface) (grow : option Z) (alpha : option Color).

Definition draw_shape (op : Shape) (s : Surface) : exec Surface :=
  match op with
  | SPixel p c => draw_pixel s p c
  | SLine a b c th => draw_line fuel s a b c th
  | SRect r c => draw_rect fuel s r c
  | SFillRect r c => fill_rect fuel s r c
  | SCircle p r c => draw_circle fuel s p r c
  | SFillCircle p r c => fill_circle fuel s p r c
  | SRoundRect r cr c => draw_roundrect fuel s r cr c
  | SFillRoundRect r cr c => fill_roundrect fuel s r cr c
  | SClear area c => clear fuel s area c
  | SInvert area => invert s area
  | SScroll delta c => scroll fuel s delta c
  | SImage src pos => draw_image s src pos
  | SMasked src m pos => draw_image_masked s src m pos
  | SMirrored src pos => draw_image_mirrored s src pos
  | SClipped src src_rect dest_rect => draw_image_clipped s src src_rect dest_rect
  | SMask src grow alpha => mask fuel src grow alpha (Some s)
  end.

(** Coordinates and extents within the bound, and images that are well-formed. A pixel, the
    centre of a circle and the place of a copy may be anywhere, and so may the target of a
    clipped copy. What the code does not check is required here: an area to be cleared
    that is as wide as the surface is within its rows, an area to be inverted is within the
    surface, the part of an image that is copied is a part of it and not empty, and a
    surface is scrolled up or away ([beyond_panics] and [scroll_down_panics] otherwise). *)
Definition shape_ok (s0 : Surface) (op : Shape) : Prop :=
  match op with
  | SPixel _ _ => True
  | SLine a b _ th => point_in 4 a ∧ point_in 4 b ∧ default 1 th < 2 ^ 29
  | SRect r _ | SFillRect r _ => rect_in r
  | SCircle _ r _ => 0 <= r <= D
  | SFillCircle p r _ => point_in 1 p ∧ 0 <= r <= D
  | SRoundRect r cr _ | SFillRoundRect r cr _ => rect_in r ∧ 0 <= cr <= D
  | SClear area _ => match area with None => True | Some r => rect_in r ∧ (p_x (r_origin r) = 0 → s_w (r_size r) = s_w (sf_size s0) → rows_in r s0) end
  | SInvert area => match area with None => True | Some r => rect_in r ∧ rows_in r s0 ∧ columns_in r s0 end
  | SScroll delta _ => 0 <= delta ∨ delta <= - s_h (sf_size s0)
  | SImage src pos => surface_in src ∧ point_in 1 pos
  | SMasked src m _ => surface_ok src ∧ surface_ok m
  | SMirrored src _ => surface_in src
  | SClipped src src_rect _ => surface_in src ∧ part_in (default (mkRect (mkPoint 0 0) (sf_size src)) src_rect) src
  | SMask src _ _ => surface_in src
  end.

Lemma shape_draws s0 op : surface_in s0 → shape_ok s0 op → draws s0 (draw_shape op).
Proof.
  intros Hs H. destruct op; cbn [shape_ok] in H; unfold draw_shape.
  - apply draws_pixel.
  - destruct H as (? & ? & ?). by apply draws_line.
  - by apply draws_rect.
  - destruct H as ([Hx Hy] & Hw & Hh). unfold within in *. apply draws_fill_rect; unfold point_in, within; lia.
  - by apply draws_circle.
  - destruct H. by apply draws_fill_circle.
  - destruct H. by apply draws_roundrect.
  - destruct H. by apply draws_fill_roundrect.
  - destruct area as [r|]; [destruct H; by apply draws_clear_area|by apply draws_clear].
  - apply draws_invert; [done|]. destruct area as [r|]; [done|]. destruct Hs as ((_ & _ & W0 & H0 & _) & Hw & Hh). unfold rect_in, point_in, within, rows_in, columns_in. cbn. lia.
  - by apply draws_scroll.
  - destruct H. by apply draws_image.
  - destruct H. by apply draws_masked.
  - by apply draws_mirrored.
  - destruct H. by apply draws_clipped.
  - by apply draws_mask.
Qed.
End bounded.

(** C35: the drawing operations are total on well-formed surfaces, within the limits that
    they do not check themselves. Whatever pixels, lines, outlined and filled rectangles,
    circles and rounded rectangles, clearings, inversions, scrollings, masks and copies of
    images (plain, masked, mirrored, clipped) are drawn one after the other, with
    coordinates and extents bounded by [D], at most 2^24 (and the thickness of a line by
    2^29), on the surface or outside of it, as long as an area that is cleared over the whole width is within the rows of the surface, an area
    that is inverted is within the surface, the source of a clipped copy is a part of the
    image and not empty, and a surface is not scrolled down by less than its height
    ([shape_ok]; others can panic, see [beyond_panics] and [scroll_down_panics]): with fuel
    for 8 [D] steps of a loop every operation returns, none panics, and what results is a
    well-formed surface of the same size, format, pitch and place in a buffer of the same
    length, of which every pixel can be read. *)
Theorem drawing_keeps_surface fuel D s ops :
  0 < D <= 2 ^ 24 → 8 * D < Z.of_nat fuel → surface_in D s → Forall (shape_ok D s) ops →
  ∃ s', for_each ops (draw_shape fuel) s = Ret s' ∧ like s s' ∧ ∀ x y, inside (sf_size s) x y = true → ∃ c, read_pixel s' (mkPoint x y) = Ret c.
Proof.
  intros HD Hf Hs Hops. assert (draws s (for_each ops (draw_shape fuel))) as Hd.
  { apply draws_for_each. intros op Hop. apply (shape_draws fuel D HD Hf); [done|]. rewrite Forall_forall in Hops. apply Hops. by apply list_elem_of_In. }
  destruct (Hd s (like_refl s (proj1 Hs))) as (s' & E & L). exists s'. split; [done|]. split; [done|]. intros x y Hin. destruct L as (E1 & _ & _ & _ & _ & Hok). eexists. apply read_pixel_ok; [done|]. by rewrite E1.
Qed.

Definition example_ops : list Shape :=
  [SClear None White; SFillRoundRect (mkRect (mkPoint (-3) 1) (mkSize 12 9)) 2 Grey; SLine (mkPoint (-5) 0) (mkPoint 20 7) Black (Some 3); SCircle (mkPoint 4 4) 3 Black; SInvert None;
   SClipped (image_new (mkSize 3 2) TwoBpp) None (Some (mkRect (mkPoint 2 2) (mkSize 0 0))); SClear (Some (mkRect (mkPoint 0 6) (mkSize 8 2))) Black; SScroll 3 White;
   SInvert (Some (mkRect (mkPoint 1 2) (mkSize 5 6)))].

Lemma drawing_keeps_surface_witness :
  ∃ s', for_each example_ops (draw_shape 200) (image_new (mkSize 8 8) Mono) = Ret s' ∧ like (image_new (mkSize 8 8) Mono) s' ∧
    ∀ x y, inside (mkSize 8 8) x y = true → ∃ c, read_pixel s' (mkPoint x y) = Ret c.
Proof.
  apply (drawing_keeps_surface 200 20); [lia|lia| |].
  - split; [|cbn; lia]. vm_compute. repeat split; try discriminate. repeat constructor; discriminate.
  - unfold example_ops. repeat apply Forall_cons; try split; try exact I; try apply Forall_nil; unfold shape_ok, rect_in, point_in, within, surface_in, part_in, rows_in, columns_in; cbn; try lia.
    + split; [|lia]. vm_compute. repeat split; try discriminate. repeat constructor; discriminate.
Defined.
