(* ===== verification/ImageProps.v ===== *)
(** Image files: what [image_save_pbm] and [image_save_pgm] of
    [shared/lilla-oxid/src/graphics.rs] write is read back by [image_parse_pbm] and
    [image_parse_pgm] as the same picture; and the masks of images. *)

From S2P Require Import Prelude Graphics GraphicsProps.

Open Scope Z_scope.

(** * Loops over a range *)

Lemma range_cons lo hi : lo < hi → range lo hi = lo :: range (lo + 1) hi.
Proof.
  intros H. unfold range. replace (Z.to_nat (hi - lo)) with (S (Z.to_nat (hi - (lo + 1)))) by lia. cbn [List.seq fmap list_fmap]. f_equal; [lia|].
  rewrite <- seq_shift. change (@fmap list _) with (@fmap list _). unfold fmap. rewrite <- (list_fmap_compose S). apply list_fmap_ext. intros i x _. cbn. lia.
Qed.

Lemma range_nil lo hi : hi <= lo → range lo hi = [].
Proof. intros H. unfold range. by replace (Z.to_nat (hi - lo)) with 0%nat by lia. Qed.

(** A loop that keeps an invariant returns with it. *)
Lemma for_each_range {S} (P : Z → S → Prop) (f : Z → S → exec S) hi :
  (∀ i s, i < hi → P i s → ∃ s', f i s = Ret s' ∧ P (i + 1) s') →
  ∀ lo s, lo <= hi → P lo s → ∃ s', for_each (range lo hi) f s = Ret s' ∧ P hi s'.
Proof.
  intros Hf lo s Hle. remember (Z.to_nat (hi - lo)) as n eqn:En. revert lo s Hle En. induction n as [|n IH]; intros lo s Hle En HP.
  - rewrite range_nil by lia. exists s. by replace hi with lo by lia.
  - rewrite range_cons by lia. cbn [for_each]. destruct (Hf lo s ltac:(lia) HP) as (s1 & -> & HP1). cbn [ebind]. apply IH; [lia|lia|done].
Qed.

(** * Decimal numbers *)

Lemma decimal_head n v : (0 < n)%nat → 0 <= v → ∃ b l, decimal n v = b :: l ∧ is_ascii_digit b = true.
Proof.
  revert v. induction n as [|n IH]; intros v Hn Hv; [lia|]. cbn [decimal]. case_decide.
  - exists (48 + v), []. split; [done|]. apply bool_decide_eq_true. lia.
  - destruct n as [|n]; [exists (48 + v mod 10), []; split; [done|]; apply bool_decide_eq_true; dlia|].
    destruct (IH (v / 10) ltac:(lia) ltac:(dlia)) as (b & l & -> & Hb). by exists b, (l ++ [48 + v mod 10]).
Qed.

Lemma pnm_digits_decimal n v r : (0 < n)%nat → 0 <= v < 2 ^ 32 → v < 10 ^ Z.of_nat n → pnm_digits 0 (decimal n v ++ r) = pnm_digits v r.
Proof.
  revert v r. induction n as [|n IH]; intros v r Hn Hv Hb; [lia|]. cbn [decimal]. case_decide as H10.
  - cbn [app pnm_digits]. unfold is_ascii_digit. rewrite bool_decide_eq_true_2 by lia. f_equal. rewrite !wrap_small; unfold is_u; rewrite ?wrap_small; unfold is_u; lia.
  - assert (n ≠ O) by (intros ->; cbn in Hb; lia). rewrite Nat2Z.inj_succ, Z.pow_succ_r in Hb by lia. rewrite <- app_assoc. rewrite IH by (try split; dlia || (apply Z.div_lt_upper_bound; lia) || lia).
    cbn [app pnm_digits]. unfold is_ascii_digit. rewrite bool_decide_eq_true_2 by dlia. f_equal. assert (is_u 32 (v / 10 * 10)) as Hu by (unfold is_u; dlia). rewrite (wrap_small 32 (v / 10 * 10)) by done. rewrite wrap_small by (unfold is_u; dlia). dlia.
Qed.

(** A number with a blank before and behind it. *)
Lemma parse_decimal (ws : list Z) v r : Forall (λ b, is_ascii_whitespace b = true) ws → 0 <= v < 2 ^ 31 → ∀ b, is_ascii_whitespace b = true → parse_pnm_uint (ws ++ format_i32 v ++ b :: r) = Some (v, r).
Proof.
  intros Hws Hv b Hb. assert (is_ascii_digit b = false) as Hbd by (apply bool_decide_eq_true in Hb; apply bool_decide_eq_false; lia).
  unfold format_i32. rewrite decide_False by lia. destruct (decimal_head 10 v ltac:(lia) ltac:(lia)) as (d & l & Ed & Hd).
  assert (skip_blank false (ws ++ decimal 10 v ++ b :: r) = Some (d :: l ++ b :: r)) as E.
  { induction Hws as [|w ws Hw _ IH]; cbn [app skip_blank].
    - rewrite Ed. cbn [app skip_blank]. apply bool_decide_eq_true in Hd. rewrite decide_False by lia. unfold is_ascii_whitespace. by rewrite bool_decide_eq_false_2 by lia.
    - apply bool_decide_eq_true in Hw as Hw'. rewrite decide_False by lia. by rewrite Hw. }
  assert (pnm_digits 0 (d :: l ++ b :: r) = (v, b :: r)) as Ep.
  { change (d :: l ++ b :: r) with ((d :: l) ++ b :: r). rewrite <- Ed, pnm_digits_decimal by lia. cbn [pnm_digits]. by rewrite Hbd. }
  unfold parse_pnm_uint. rewrite E, Hd. rewrite Ep. by rewrite Hb.
Qed.

(** * New images *)

Lemma pitch_for_ok w f : 0 <= w < 2 ^ 28 → pitch_for (mkSize w 0) f = (w * format_bits f + 7) / 8 ∧ 0 <= pitch_for (mkSize w 0) f.
Proof.
  intros Hw. unfold pitch_for. cbn [s_w]. destruct f; cbn [format_bits]; rewrite !usize_small by (rewrite ?usize_small; rewrite ?usize_small; lia); dlia.
Qed.

Lemma image_new_ok w h f :
  0 <= w < 2 ^ 28 → 0 <= h < 2 ^ 28 → h * pitch_for (mkSize w h) f < 2 ^ 32 →
  surface_ok (image_new (mkSize w h) f) ∧ Z.of_nat (length (sf_data (image_new (mkSize w h) f))) = h * pitch_for (mkSize w h) f.
Proof.
  intros Hw Hh Hl. destruct (pitch_for_ok w f Hw) as [Ep Hp]. change (pitch_for (mkSize w 0) f) with (pitch_for (mkSize w h) f) in *. set (p := pitch_for _ _) in *.
  assert (0 <= h * p) as H0 by nia. assert (Z.of_nat (length (sf_data (image_new (mkSize w h) f))) = h * p) as El.
  { cbn [image_new sf_data]. rewrite length_replicate. fold p. cbn [s_h]. rewrite !(usize_small h) by lia. rewrite usize_small by lia. lia. }
  split; [|done]. unfold surface_ok. rewrite El. cbn [image_new sf_sub sf_size sf_pitch sf_format sf_data p_x p_y s_w s_h]. fold p. split_and!; try lia.
  - rewrite Ep. destruct f; cbn [format_bits]; dlia.
  - unfold bytes_ok. apply Forall_replicate. const_u.
Qed.

(** A picture made of bytes of the right number. *)
Lemma like_bytes s bytes : surface_ok s → length bytes = length (sf_data s) → bytes_ok bytes → like s (with_bytes s bytes).
Proof. intros (H1 & H2 & H3 & H4 & H5 & H6 & H7 & H8 & H9) Hl Hb. unfold like, surface_ok. cbn. rewrite Hl. repeat split; (done || lia). Qed.

(** * Bitmaps *)

Lemma size_eta sz : mkSize (s_w sz) (s_h sz) = sz.
Proof. by destruct sz. Qed.

Section saved.
Context (s : Surface).
Hypothesis s_ok : surface_ok s.
Let w := s_w (sf_size s).
Let h := s_h (sf_size s).
Hypothesis w_small : w < 2 ^ 28.
Hypothesis h_small : h < 2 ^ 28.

Lemma saved_bounds : 0 <= w ∧ 0 <= h.
Proof using s_ok. destruct s_ok as (_ & _ & H1 & H2 & _). done. Qed.

Lemma read_saved x y : 0 <= x < w → 0 <= y < h → read_pixel s (mkPoint x y) = Ret (pic s x y).
Proof using s_ok. intros Hx Hy. apply read_pixel_ok; [done|]. by apply bool_decide_eq_true. Qed.

(** The bytes that a row takes. *)
Definition row_bytes : Z := (w + 7) / 8.

Lemma column_in_row x : 0 <= x < w → 0 <= x / 8 < row_bytes.
Proof. unfold row_bytes. intros H. dlia. Qed.

(** A row of which the first [k] pixels are written. *)
Definition row_ok (y k : Z) (row : list Z) : Prop :=
  Z.of_nat (length row) = row_bytes ∧ bytes_ok row ∧
  ∀ x, 0 <= x < w → get1 (nth (Z.to_nat (x / 8)) row 0) (x mod 8) = bool_decide (x < k ∧ pic s x y = Black).

Lemma row_step y k row : 0 <= y < h → 0 <= k < w → row_ok y k row →
  ∃ row', (let! c := read_pixel s (mkPoint k y) in
    if decide (c = Black) then let! b := idx row (Z.to_nat (k / 8)) in set_idx row (Z.to_nat (k / 8)) (Z.lor b (Z.shiftl 1 (7 - k mod 8))) else Ret row) = Ret row' ∧ row_ok y (k + 1) row'.
Proof using s_ok.
  intros Hy Hk (Hl & Hb & Hx). rewrite read_saved by done. cbn [ebind]. case_decide as Hc.
  - pose proof (column_in_row k Hk) as Hkb. pose proof (nth_idx row (k / 8) ltac:(lia)) as Hi. rewrite (idx_ok _ _ _ Hi). cbn [ebind]. rewrite set_idx_ok by lia. eexists. split; [reflexivity|]. set (b := nth _ row 0) in *.
    assert (is_u 8 b) as Hu by (unfold bytes_ok in Hb; rewrite Forall_lookup in Hb; by apply (Hb _ _ Hi)). pose proof (Z.mod_pos_bound k 8 ltac:(lia)) as Hm.
    change (Z.lor b (Z.shiftl 1 (7 - k mod 8))) with (put1 b (k mod 8) true). split; [by rewrite length_insert|]. split; [apply Forall_insert; [done|]; by apply (put1_ok b (k mod 8) 0); [| |lia]|].
    intros x Hxw. pose proof (Z.mod_pos_bound x 8 ltac:(lia)) as Hxm. destruct (decide (x / 8 = k / 8)) as [E|E].
    + rewrite E, nth_lookup, list_lookup_insert_eq by lia. cbn [default from_option id]. destruct (put1_ok b (k mod 8) (x mod 8) true Hu Hm Hxm) as [_ ->].
      case_decide as Em; [assert (x = k) as -> by dlia; symmetry; apply bool_decide_eq_true; split; [lia|done]|]. unfold b. rewrite <- E, Hx by done. apply bool_decide_ext. assert (x ≠ k) by congruence. split; intros [? ?]; (split; [lia|done]).
    + rewrite nth_lookup, list_lookup_insert_ne by (pose proof (column_in_row x Hxw); lia). rewrite <- nth_lookup, Hx by done. apply bool_decide_ext. assert (x ≠ k) by congruence. split; intros [? ?]; (split; [lia|done]).
  - eexists. split; [reflexivity|]. split; [done|]. split; [done|]. intros x Hxw. rewrite Hx by done. apply bool_decide_ext. split; intros [? Hp]; (split; [|done]); [lia|]. assert (x ≠ k) by congruence. lia.
Qed.

Lemma nth_replicate_0 i n : nth i (replicate n 0) 0 = 0.
Proof. revert i. induction n as [|n IH]; intros [|i]; cbn; done. Qed.

Lemma pbm_row_ok y : 0 <= y < h → ∃ row, pbm_row s y = Ret row ∧ row_ok y w row.
Proof using s_ok w_small.
  intros Hy. pose proof saved_bounds as [Hw _]. unfold pbm_row. fold w.
  match goal with |- context [for_each _ ?g ?r] => destruct (for_each_range (λ k row, 0 <= k ∧ row_ok y k row) g w) with (lo := 0) (s := r) as (row & E & _ & Hr) end.
  - intros k row Hk [Hk0 Hr]. destruct (row_step y k row Hy ltac:(lia) Hr) as (row' & E & Hr'). exists row'. split; [done|]. split; [lia|done].
  - done.
  - split; [lia|]. rewrite !(usize_small w) by lia. rewrite usize_small by lia. split; [rewrite length_replicate; unfold row_bytes; dlia|]. split; [apply Forall_replicate; const_u|].
    intros x Hx. rewrite nth_replicate_0. rewrite bool_decide_eq_false_2 by lia. destruct (get1_fill (x mod 8) (Z.mod_pos_bound x 8 ltac:(lia))) as [-> _]. done.
  - by exists row.
Qed.

(** The first [k] rows. *)
Definition rows_ok (k : Z) (body : list Z) : Prop :=
  Z.of_nat (length body) = k * row_bytes ∧ bytes_ok body ∧
  ∀ x y, 0 <= x < w → 0 <= y < k → get1 (nth (Z.to_nat (y * row_bytes + x / 8)) body 0) (x mod 8) = bool_decide (pic s x y = Black).

Lemma rows_step k body row : 0 <= k → rows_ok k body → row_ok k w row → rows_ok (k + 1) (body ++ row).
Proof.
  intros Hk (L1 & B1 & R1) (L2 & B2 & R2). split; [rewrite length_app; lia|]. split; [by apply Forall_app|]. intros x y Hx Hy. pose proof (column_in_row x Hx) as Hc. destruct (decide (y = k)) as [->|Hn].
  - rewrite app_nth2 by lia. replace (Z.to_nat (k * row_bytes + x / 8) - length body)%nat with (Z.to_nat (x / 8)) by lia. rewrite R2 by done. apply bool_decide_ext. split; [by intros [_ ?]|]. intros ?. split; [lia|done].
  - assert (y * row_bytes + row_bytes <= k * row_bytes) by nia. rewrite app_nth1 by nia. apply R1; [done|lia].
Qed.

Definition pbm_header : list Z := [80; 52; 10] ++ format_i32 w ++ [32] ++ format_i32 h ++ [10].

Lemma save_pbm_ok : ∃ body, image_save_pbm s = Ret (pbm_header ++ body) ∧ rows_ok h body.
Proof using s_ok w_small.
  pose proof saved_bounds as [_ Hh]. unfold image_save_pbm. fold w h pbm_header.
  destruct (for_each_range (λ k file, 0 <= k ∧ ∃ body, file = pbm_header ++ body ∧ rows_ok k body) (λ y file, let! row := pbm_row s y in Ret (file ++ row)) h) with (lo := 0) (s := pbm_header) as (file & E & _ & body & -> & Hr).
  - intros k file Hk (Hk0 & body & -> & Hr). destruct (pbm_row_ok k ltac:(lia)) as (row & -> & Hrow). cbn [ebind]. eexists. split; [reflexivity|]. split; [lia|]. exists (body ++ row). split; [by rewrite app_assoc|]. by apply rows_step.
  - done.
  - split; [lia|]. exists []. split; [by rewrite app_nil_r|]. split; [done|]. split; [by apply Forall_nil|]. intros; lia.
  - by exists body.
Qed.

(** What has been saved is read back. *)
Lemma parse_pbm_ok body : h * row_bytes < 2 ^ 32 → rows_ok h body →
  ∃ im, image_parse_pbm (pbm_header ++ body) = Ret (Ok im) ∧ surface_ok im ∧ sf_size im = sf_size s ∧ sf_format im = Mono ∧
    ∀ x y, inside (sf_size s) x y = true → pic im x y = if decide (pic s x y = Black) then Black else White.
Proof using s_ok w_small h_small.
  intros Hn (L & B & R). pose proof saved_bounds as [Hw Hh]. pose proof (pitch_for_ok w Mono ltac:(lia)) as [Ep _]. change (pitch_for (mkSize w 0) Mono) with (pitch_for (mkSize w h) Mono) in Ep. cbn [format_bits] in Ep. rewrite Z.mul_1_r in Ep. fold row_bytes in Ep.
  destruct (image_new_ok w h Mono ltac:(lia) ltac:(lia) ltac:(rewrite Ep; lia)) as [Hok Hlen]. rewrite Ep in Hlen.
  assert (pbm_header ++ body = [80; 52] ++ ([10] ++ format_i32 w ++ 32 :: (format_i32 h ++ 10 :: body))) as -> by (unfold pbm_header; by rewrite <- !app_assoc).
  unfold image_parse_pbm. rewrite decide_False by (cbn; intros [?|?]; [lia|done]). unfold header_uint. change (drop 2 ([80; 52] ++ ?r)) with r.
  rewrite (parse_decimal [10] w) by (done || lia || by repeat constructor). pose proof (parse_decimal [] h body ltac:(done) ltac:(lia) 10 ltac:(done)) as Eh. cbn [app] in Eh. rewrite Eh. cbv zeta. rewrite !i32_ok by lia. rewrite !(usize_small w), (usize_small h), (usize_small (w + 7)) by lia. fold row_bytes.
  rewrite (usize_small (row_bytes * h)) by (unfold row_bytes in *; split; [dlia|lia]). rewrite decide_False by lia. rewrite slice_ok by lia. cbn [ebind drop]. rewrite Nat.sub_0_r. rewrite drop_0, take_ge by lia. rewrite decide_True by lia.
  destruct (like_bytes (image_new (mkSize w h) Mono) body Hok ltac:(lia) B) as (E1 & E2 & E3 & E4 & E5 & Hok'). eexists. split; [reflexivity|]. split; [done|]. split; [cbn; unfold w, h; apply size_eta|]. split; [done|].
  intros x y Hin. apply bool_decide_eq_true in Hin. unfold pic at 1, pixel_at. cbn [sf_format with_bytes image_new sf_pitch sf_data sf_sub p_x p_y]. rewrite Ep, !Z.add_0_l. change (pixels_per_byte Mono) with 8. rewrite R by (unfold w, h; lia). case_bool_decide; by case_decide.
Qed.

(** ** Grey images *)

(** The first [n] pixels, in rows. *)
Definition greys (n : Z) (body : list Z) : Prop :=
  Z.of_nat (length body) = n ∧ ∀ i, 0 <= i < n → body !! Z.to_nat i = Some (grey_of_color (pic s (i mod w) (i / w))).

Lemma greys_step x y body : 0 <= x < w → 0 <= y → greys (y * w + x) body → greys (y * w + (x + 1)) (body ++ [grey_of_color (pic s x y)]).
Proof.
  intros Hx Hy [L G]. split; [rewrite length_app; cbn [length]; lia|]. intros i Hi. destruct (decide (i = y * w + x)) as [->|Hn].
  - rewrite lookup_app_r by lia. replace (Z.to_nat (y * w + x) - length body)%nat with 0%nat by lia. cbn. rewrite Z.add_comm, Z.mod_add, Z.div_add, Z.mod_small, Z.div_small by lia. done.
  - rewrite lookup_app_l by lia. apply G. lia.
Qed.

Definition pgm_header : list Z := [80; 53; 10] ++ format_i32 w ++ [32] ++ format_i32 h ++ [10; 50; 53; 53; 10].

Lemma save_pgm_row y body : 0 <= y < h → greys (y * w) body →
  ∃ body', for_each (range 0 w) (λ x file, let! c := read_pixel s (mkPoint x y) in Ret (file ++ [grey_of_color c])) (pgm_header ++ body) = Ret (pgm_header ++ body') ∧ greys ((y + 1) * w) body'.
Proof using s_ok.
  intros Hy Hg. pose proof saved_bounds as [Hw _].
  destruct (for_each_range (λ x file, 0 <= x ∧ ∃ body, file = pgm_header ++ body ∧ greys (y * w + x) body) (λ x file, let! c := read_pixel s (mkPoint x y) in Ret (file ++ [grey_of_color c])) w) with (lo := 0) (s := pgm_header ++ body) as (file & E & _ & body' & -> & Hr).
  - intros x file Hx (Hx0 & b & -> & Hb). rewrite read_saved by lia. cbn [ebind]. eexists. split; [reflexivity|]. split; [lia|]. eexists. split; [by rewrite <- app_assoc|]. apply greys_step; [lia|lia|done].
  - done.
  - split; [lia|]. exists body. split; [done|]. by rewrite Z.add_0_r.
  - exists body'. split; [done|]. by replace ((y + 1) * w) with (y * w + w) by lia.
Qed.

Lemma save_pgm_ok : ∃ body, image_save_pgm s = Ret (pgm_header ++ body) ∧ greys (h * w) body.
Proof using s_ok.
  pose proof saved_bounds as [_ Hh]. unfold image_save_pgm. fold w h pgm_header.
  match goal with |- context [for_each _ ?g ?r] => destruct (for_each_range (λ k file, 0 <= k ∧ ∃ body, file = pgm_header ++ body ∧ greys (k * w) body) g h) with (lo := 0) (s := r) as (file & E & _ & body & -> & Hr) end.
  - intros k file Hk (Hk0 & body & -> & Hr). destruct (save_pgm_row k body ltac:(lia) Hr) as (body' & -> & Hb'). eexists. split; [reflexivity|]. split; [lia|]. by exists body'.
  - done.
  - split; [lia|]. exists []. split; [by rewrite app_nil_r|]. split; [done|]. intros; lia.
  - by exists body.
Qed.

Lemma grey_color c : color_of_grey (scale_grey 255 (grey_of_color c)) = c.
Proof. by destruct c. Qed.

Lemma draw_grey_paints s0 f body i : greys (h * w) body → 0 <= i < h * w → h * w < 2 ^ 31 → sf_format s0 = f →
  paints s0 (draw_grey 255 w body i) (λ x y, bool_decide (x = i mod w ∧ y = i / w)) (λ x y, shown f (mkPoint x y) (pic s x y)).
Proof using s_ok.
  intros [L G] Hi Hn <-. pose proof saved_bounds as [Hw Hh]. assert (0 < w) as Hw0 by nia. eapply paints_fun with (g := λ t, draw_pixel t (mkPoint (i mod w) (i / w)) (pic s (i mod w) (i / w))).
  - intros t _. unfold draw_grey. rewrite (idx_ok _ _ _ (G i Hi)). cbn [ebind]. rewrite i32_ok by lia. unfold i32_divides. rewrite bool_decide_eq_true_2 by lia. rewrite Z.rem_mod_nonneg, Z.quot_div_nonneg by lia. by rewrite grey_color.
  - apply (paints_pixel s0 (mkPoint (i mod w) (i / w))). done.
Qed.

Lemma parse_pgm_ok f body : h * pitch_for (mkSize w h) f < 2 ^ 32 → h * w < 2 ^ 31 → greys (h * w) body →
  ∃ im, image_parse_pgm (pgm_header ++ body) f = Ret (Ok im) ∧ surface_ok im ∧ sf_size im = sf_size s ∧ sf_format im = f ∧
    ∀ x y, inside (sf_size s) x y = true → pic im x y = shown f (mkPoint x y) (pic s x y).
Proof using s_ok w_small h_small.
  intros Hp Hn Hg. pose proof saved_bounds as [Hw Hh]. destruct (image_new_ok w h f ltac:(lia) ltac:(lia) Hp) as [Hok _].
  assert (pgm_header ++ body = [80; 53] ++ ([10] ++ format_i32 w ++ 32 :: (format_i32 h ++ 10 :: (format_i32 255 ++ 10 :: body)))) as -> by (unfold pgm_header; rewrite <- !app_assoc; reflexivity).
  unfold image_parse_pgm. rewrite decide_False by (cbn; intros [?|?]; [lia|done]). unfold header_uint. change (drop 2 ([80; 53] ++ ?r)) with r.
  rewrite (parse_decimal [10] w) by (done || lia || by repeat constructor). pose proof (parse_decimal [] h (format_i32 255 ++ 10 :: body) ltac:(done) ltac:(lia) 10 ltac:(done)) as Eh. cbn [app] in Eh. rewrite Eh.
  pose proof (parse_decimal [] 255 body ltac:(done) ltac:(lia) 10 ltac:(done)) as Em. cbn [app] in Em. rewrite Em. cbv zeta. rewrite decide_False by lia. rewrite !i32_ok by lia. rewrite (usize_small w), (usize_small h) by lia. pose proof Hg as [L _].
  assert (0 <= w * h) by nia. rewrite (usize_small (w * h)) by lia. rewrite decide_False by lia.
  assert (paints (image_new (mkSize w h) f) (for_each (range 0 (w * h)) (draw_grey 255 w body)) (λ x y, existsb (λ i, bool_decide (x = i mod w ∧ y = i / w)) (range 0 (w * h))) (λ x y, shown f (mkPoint x y) (pic s x y))) as Hpt.
  { apply paints_for_each. intros i Hi%elem_range. apply draw_grey_paints; [done|lia|lia|done]. }
  destruct (paints_pic _ _ _ _ _ Hpt (like_refl _ Hok)) as (im & -> & (E1 & E2 & _ & _ & _ & Hok') & Hpic). cbn [ebind]. exists im. split; [done|]. split; [done|]. split; [rewrite E1; cbn; unfold w, h; apply size_eta|]. split; [done|].
  intros x y Hin. rewrite Hpic by (cbn [image_new sf_size]; unfold w, h; by rewrite size_eta). apply bool_decide_eq_true in Hin. fold w h in Hin. assert (existsb (λ i, bool_decide (x = i mod w ∧ y = i / w)) (range 0 (w * h)) = true) as ->; [|done].
  apply existsb_range. exists (x + y * w). split; [nia|]. apply bool_decide_eq_true. rewrite Z.mod_add, Z.div_add, Z.mod_small, Z.div_small by lia. lia.
Qed.
End saved.

(** A picture consists of colours that its format has. *)
Lemma shown_pic s x y p : shown (sf_format s) p (pic s x y) = pic s x y.
Proof.
  unfold pic, pixel_at. destruct (sf_format s); cbn [shown]; [by destruct (get1 _ _)| |done]. unfold color_from_2bpp at 2 3. by repeat case_decide.
Qed.

Lemma black_or_white s x y : sf_format s = Mono → (if decide (pic s x y = Black) then Black else White) = pic s x y.
Proof. intros E. unfold pic, pixel_at. rewrite E. by destruct (get1 _ _). Qed.

(** C37: saved images are read back. For every well-formed surface of up to 2^15 by 2^15
    pixels, an image or a view of a part of one, of any format, saving it as a bitmap or as
    a grey image does not panic, and the parsers accept what has been written: the bitmap
    gives an image of the same size with the same picture if the surface had one bit for a
    pixel, and otherwise with its black pixels black and all others white; the grey image,
    parsed for any format, gives an image of that format and the same size which shows the
    colours as this format can, and exactly the same picture for the same format. *)
Theorem saved_images_read_back s :
  surface_ok s → s_w (sf_size s) <= 2 ^ 15 → s_h (sf_size s) <= 2 ^ 15 →
  (∃ file im, image_save_pbm s = Ret file ∧ image_parse_pbm file = Ret (Ok im) ∧ surface_ok im ∧ sf_size im = sf_size s ∧
    (∀ x y, inside (sf_size s) x y = true → pic im x y = if decide (pic s x y = Black) then Black else White) ∧
    (sf_format s = Mono → ∀ x y, inside (sf_size s) x y = true → pic im x y = pic s x y)) ∧
  ∃ file, image_save_pgm s = Ret file ∧ ∀ f, ∃ im, image_parse_pgm file f = Ret (Ok im) ∧ surface_ok im ∧ sf_size im = sf_size s ∧ sf_format im = f ∧
    (∀ x y, inside (sf_size s) x y = true → pic im x y = shown f (mkPoint x y) (pic s x y)) ∧
    (f = sf_format s → ∀ x y, inside (sf_size s) x y = true → pic im x y = pic s x y).
Proof.
  intros Hs Hw Hh. pose proof (saved_bounds s Hs) as [Hw0 Hh0]. assert (0 <= (s_w (sf_size s) + 7) / 8 <= 2 ^ 13) as Hr by dlia. split.
  - destruct (save_pbm_ok s Hs ltac:(lia)) as (body & E & Hb). destruct (parse_pbm_ok s Hs ltac:(lia) ltac:(lia) body ltac:(unfold row_bytes; nia) Hb) as (im & Ei & Hok & Es & _ & Hp).
    exists (pbm_header s ++ body), im. do 5 (split; [done|]). intros Em x y Hin. rewrite Hp by done. by apply black_or_white.
  - destruct (save_pgm_ok s Hs) as (body & E & Hb). exists (pgm_header s ++ body). split; [done|]. intros f.
    assert (0 <= pitch_for (mkSize (s_w (sf_size s)) (s_h (sf_size s))) f <= 2 ^ 15 + 7) as Hp by (destruct (pitch_for_ok (s_w (sf_size s)) f ltac:(lia)) as [Ep Hp]; split; [done|]; change (pitch_for (mkSize (s_w (sf_size s)) 0) f) with (pitch_for (mkSize (s_w (sf_size s)) (s_h (sf_size s))) f) in Ep; rewrite Ep; destruct f; cbn [format_bits]; dlia).
    destruct (parse_pgm_ok s Hs ltac:(lia) ltac:(lia) f body ltac:(nia) ltac:(nia) Hb) as (im & Ei & Hok & Es & Ef & Hpic).
    exists im. do 5 (split; [done|]). intros -> x y Hin. rewrite Hpic by done. apply shown_pic.
Qed.

Definition example_view : Surface :=
  subimage (with_bytes (image_new (mkSize 16 3) TwoBpp) [27; 228; 255; 0; 1; 2; 3; 4; 5; 6; 7; 8]) (mkRect (mkPoint 1 1) (mkSize 9 2)).

Lemma saved_images_read_back_witness :
  (∃ file im, image_save_pbm example_view = Ret file ∧ image_parse_pbm file = Ret (Ok im) ∧ surface_ok im ∧ sf_size im = sf_size example_view ∧
    (∀ x y, inside (sf_size example_view) x y = true → pic im x y = if decide (pic example_view x y = Black) then Black else White) ∧
    (sf_format example_view = Mono → ∀ x y, inside (sf_size example_view) x y = true → pic im x y = pic example_view x y)) ∧
  ∃ file, image_save_pgm example_view = Ret file ∧ ∀ f, ∃ im, image_parse_pgm file f = Ret (Ok im) ∧ surface_ok im ∧ sf_size im = sf_size example_view ∧ sf_format im = f ∧
    (∀ x y, inside (sf_size example_view) x y = true → pic im x y = shown f (mkPoint x y) (pic example_view x y)) ∧
    (f = sf_format example_view → ∀ x y, inside (sf_size example_view) x y = true → pic im x y = pic example_view x y).
Proof. apply saved_images_read_back; [vm_compute; repeat split; try discriminate; repeat constructor; discriminate|vm_compute; discriminate..]. Defined.

(** The size of a bitmap is computed with 32 bits: for a header of 524288 by 65536 pixels no
    pixel at all is required, and reading one of the image panics. *)
Lemma pbm_size_wraps :
  ∃ im, image_parse_pbm ([80; 52; 32] ++ format_i32 524288 ++ [32] ++ format_i32 65536 ++ [10]) = Ret (Ok im) ∧
    sf_size im = mkSize 524288 65536 ∧ inside (sf_size im) 0 0 = true ∧ read_pixel im (mkPoint 0 0) = Panic.
Proof. eexists. split; [vm_compute; reflexivity|]. by vm_compute. Qed.

(** * Masks *)

Lemma any_of_ok {A} (l : list A) f (P : A → bool) : (∀ a, a ∈ l → f a = Ret (P a)) → any_of l f = Ret (existsb P l).
Proof.
  induction l as [|a l IH]; intros Hf; [done|]. cbn [any_of existsb]. rewrite (Hf a) by (by left). cbn [ebind]. destruct (P a); [done|]. apply IH. intros b Hb. apply Hf. by right.
Qed.

Section masks.
Context (fuel : nat) (src : Surface) (grow : Z) (alpha : Color).
Hypothesis src_ok : surface_ok src.
Let w := s_w (sf_size src).
Let h := s_h (sf_size src).
Hypothesis src_small : w < 2 ^ 28 ∧ h < 2 ^ 28 ∧ w < Z.of_nat fuel ∧ h * pitch_for (mkSize w h) Mono < 2 ^ 32.
Hypothesis grow_small : 0 <= grow < 2 ^ 28.

(** A pixel of another colour than [alpha], at most [grow] away. *)
Definition masked (x y : Z) : bool :=
  existsb (λ dy, existsb (λ dx, inside (sf_size src) (x + dx) (y + dy) && bool_decide (pic src (x + dx) (y + dy) ≠ alpha)) (range (- grow) (grow + 1))) (range (- grow) (grow + 1)).

Lemma mask_set_ok x y : 0 <= x < w → 0 <= y < h → mask_set src grow alpha x y = Ret (masked x y).
Proof using src_ok src_small grow_small.
  intros Hx Hy. assert (∀ x y, inside (sf_size src) x y = true → differs src alpha (mkPoint x y) = Ret (bool_decide (pic src x y ≠ alpha))) as Hd by (intros x' y' Hin; unfold differs; by rewrite read_pixel_ok).
  assert (inside (sf_size src) x y = true) as Hin by (by apply bool_decide_eq_true). unfold mask_set, masked. case_decide as Hg.
  - rewrite Hd, Hg by done. cbn [existsb range fmap list_fmap]. change (range (- 0) (0 + 1)) with [0]. cbn [existsb]. by rewrite !Z.add_0_r, Hin, !orb_false_r.
  - rewrite i32_ok by lia. apply any_of_ok. intros dy Hdy%elem_range. apply any_of_ok. intros dx Hdx%elem_range. cbv zeta. rewrite !i32_ok by lia. case_decide as Hc.
    + assert (inside (sf_size src) (x + dx) (y + dy) = true) as Hi by (apply bool_decide_eq_true; lia). by rewrite Hd, Hi.
    + unfold inside. by rewrite bool_decide_eq_false_2 by lia.
Qed.

(** The mask of an image is black exactly around its pixels of another colour. *)
Lemma mask_ok : ∃ out, mask fuel src (Some grow) (Some alpha) None = Ret out ∧ surface_ok out ∧ sf_size out = sf_size src ∧ sf_format out = Mono ∧
  ∀ x y, inside (sf_size src) x y = true → pic out x y = if masked x y then Black else White.
Proof using src_ok src_small grow_small.
  pose proof src_ok as (_ & _ & Hw & Hh & _). fold w in Hw. fold h in Hh. destruct (image_new_ok w h Mono ltac:(lia) ltac:(lia) ltac:(lia)) as [Hok _]. rewrite (size_eta (sf_size src) : mkSize w h = sf_size src) in Hok.
  unfold mask. cbn [default from_option id]. cbv zeta. fold w h. rewrite i32_ok by lia. set (im := image_new (sf_size src) Mono) in *.
  destruct (clear_ok fuel im White Hok) as (s1 & E1 & L1 & P1); [cbn [im image_new sf_size]; fold w h; lia..|]. rewrite E1. cbn [ebind].
  match goal with |- context [for_each ?l ?g s1] => assert (paints im (for_each l g) (λ x y, existsb (λ y', existsb (λ x', masked x y && bool_decide (x = x' ∧ y = y')) (range 0 w)) (range 0 h)) (λ x y, Black)) as Hp end.
  { apply (paints_for_each im _ (λ y, for_each _ _)). intros y Hy%elem_range. apply (paints_for_each im _ (λ x out, _)). intros x Hx%elem_range. eapply paints_fun with (g := λ out, if masked x y then draw_pixel out (mkPoint x y) Black else Ret out).
    - intros out _. by rewrite mask_set_ok.
    - destruct (masked x y) eqn:Em.
      + eapply paints_ext; [|apply (paints_pixel im (mkPoint x y) Black (λ _ _, Black)); done]. intros x' y' _. split; [|done]. cbn [p_x p_y]. case_bool_decide as E; [destruct E as [-> ->]; by rewrite Em|by rewrite andb_false_r].
      + eapply paints_ext; [|apply paints_none]. intros x' y' _. split; [|done]. case_bool_decide as E; [destruct E as [-> ->]; by rewrite Em|by rewrite andb_false_r]. }
  destruct (paints_pic _ _ _ _ s1 Hp L1) as (out & -> & (F1 & F2 & _ & _ & _ & Fok) & Hpic). exists out. split; [done|]. split; [done|]. split; [done|]. split; [done|]. intros x y Hin. rewrite Hpic by done. apply bool_decide_eq_true in Hin as Hin'.
  assert (existsb (λ y', existsb (λ x', masked x y && bool_decide (x = x' ∧ y = y')) (range 0 w)) (range 0 h) = masked x y) as ->.
  { apply eq_true_iff_eq. rewrite existsb_range. split; [intros (y' & _ & Hx'); apply existsb_range in Hx' as (x' & _ & Hb); by apply andb_true_iff in Hb as [? _]|].
    intros Hm. exists y. split; [unfold h; lia|]. apply existsb_range. exists x. split; [unfold w; lia|]. rewrite Hm. by apply bool_decide_eq_true. }
  destruct (masked x y); [done|]. rewrite P1 by done. done.
Qed.
End masks.
