(* ===== verification/Text.v ===== *)
(** Fonts and text, [shared/lilla-oxid/src/text.rs]: parsing a font, drawing characters and
    strings with kerning, and drawing text in lines of a given width.

    A string is the list of its characters, which are code points. The source keeps its
    places in a string as offsets of bytes, at which characters start: here they count
    characters. A [FontData] and the [Font] that borrows it have the same fields. *)

From S2P Require Import Prelude LogFormat Graphics GraphicsProps ImageProps.

Open Scope Z_scope.

Record Font := mkFont {
  fo_cols : Z;
  fo_rows : Z;
  fo_tile_w : Z;
  fo_tile_h : Z;
  fo_baseline : Z;
  fo_line_gap : Z;
  fo_space_w : Z;
  fo_num_glyphs : Z;
  fo_glyph_data : list Z;
  fo_kern_data : list Z;
  fo_sheet : Surface;
}.

Record GlyphInfo := mkGlyph { gl_lsb : Z; gl_adv : Z }.

(** [from_be_bytes] *)
Definition from_be (bs : list Z) : Z := fold_left (λ acc b, acc * 256 + b) bs 0.

(** [from_be_bytes(data[o..o + n].try_into().unwrap())] *)
Definition be_at (data : list Z) (o : Z) (n : nat) : exec Z :=
  let! bs := slice data (Z.to_nat o) (Z.to_nat (usize (o + Z.of_nat n))) in Ret (from_be bs).

(** * Glyphs *)

Definition glyph_at (font : Font) (i : Z) : exec (Z * GlyphInfo) :=
  let o := usize (i * 8) in
  let! cp := be_at (fo_glyph_data font) o 4 in
  let! lsb := be_at (fo_glyph_data font) (usize (o + 4)) 2 in
  let! adv := be_at (fo_glyph_data font) (usize (o + 6)) 2 in
  Ret (if is_char cp then cp else 0, mkGlyph (to_signed 16 lsb) (to_signed 16 adv)).

(** The first glyph of a list of places that is for the character. *)
Fixpoint find_from (font : Font) (ch : Z) (places : list Z) : exec (option (Z * GlyphInfo)) :=
  match places with
  | [] => Ret None
  | i :: places => let! (c, g) := glyph_at font i in if decide (c = ch) then Ret (Some (i, g)) else find_from font ch places
  end.

Definition find_glyph (font : Font) (ch : Z) : exec (option (Z * GlyphInfo)) := find_from font ch (range 0 (fo_num_glyphs font)).

(** * Kerning *)

(** [str::chars] of bytes that are UTF-8. *)
Fixpoint utf8_chars (s : list Z) : list Z :=
  match s with
  | [] => []
  | b0 :: s1 =>
      if decide (b0 < 0x80) then b0 :: utf8_chars s1 else
      match s1 with
      | [] => []
      | b1 :: s2 =>
          if decide (b0 < 0xE0) then ((b0 - 0xC0) * 64 + (b1 - 0x80)) :: utf8_chars s2 else
          match s2 with
          | [] => []
          | b2 :: s3 =>
              if decide (b0 < 0xF0) then ((b0 - 0xE0) * 4096 + (b1 - 0x80) * 64 + (b2 - 0x80)) :: utf8_chars s3 else
              match s3 with
              | [] => []
              | b3 :: s4 => ((b0 - 0xF0) * 262144 + (b1 - 0x80) * 4096 + (b2 - 0x80) * 64 + (b3 - 0x80)) :: utf8_chars s4
              end
          end
      end
  end.

(** Whether a record is for the pair: its first character, then any of the others. *)
Definition kern_matches (bytes : list Z) (left right : Z) : bool :=
  utf8_valid bytes &&
  match utf8_chars bytes with
  | c :: rest => bool_decide (c = left) && existsb (λ c, bool_decide (c = right)) rest
  | [] => false
  end.

Fixpoint kern_loop (fuel : nat) (data : list Z) (left right pos : Z) : exec Z :=
  match fuel with
  | O => Panic
  | S fuel =>
      let len := Z.of_nat (length data) in
      if decide (usize (pos + 6) <= len) then
        let! total := be_at data pos 4 in
        if decide (total < 6 ∨ len < usize (pos + total)) then Ret 0 else
        let! kern := be_at data (usize (pos + 4)) 2 in
        let! bytes := slice data (Z.to_nat (usize (pos + 6))) (Z.to_nat (usize (pos + total))) in
        if kern_matches bytes left right then Ret (to_signed 16 kern) else
        kern_loop fuel data left right (usize (pos + total))
      else Ret 0
  end.

(** Every record takes at least six bytes. *)
Definition kern_between (font : Font) (left right : Z) : exec Z :=
  kern_loop (S (length (fo_kern_data font))) (fo_kern_data font) left right 0.

(** * Parsing *)

Definition parse_sheet_from_bytes (data : list Z) : exec (result Surface ParseError) :=
  if decide (length data < 2)%nat then Ret (Err DataTooShort) else
  let! magic := slice data 0 2 in
  if decide (magic = [80; 52]) then image_parse_pbm data
  else if decide (magic = [80; 53]) then image_parse_pgm data EightBpp
  else Ret (Err UnsupportedFormat).

(** [u16::from_be_bytes([bytes[i], bytes[i + 1]])] *)
Definition be16_pair (bytes : list Z) (i : nat) : exec Z :=
  let! a := idx bytes i in let! b := idx bytes (i + 1) in Ret (from_be [a; b]).

Definition from_bytes (font_bytes sheet_bytes : list Z) : exec (result Font ParseError) :=
  if decide (length font_bytes < 22)%nat then Ret (Err DataTooShort) else
  let! magic := be16_pair font_bytes 0 in
  if decide (magic ≠ 0x1BF0) then Ret (Err InvalidMagic) else
  let! cols := be16_pair font_bytes 4 in
  let! rows := be16_pair font_bytes 6 in
  let! tile_w := be16_pair font_bytes 8 in
  let! tile_h := be16_pair font_bytes 10 in
  let! baseline := be16_pair font_bytes 12 in
  let! line_gap := be16_pair font_bytes 14 in
  let! space_w := be16_pair font_bytes 16 in
  let! num_glyphs := be16_pair font_bytes 18 in
  let glyph_end := 22 + num_glyphs * 8 in
  if decide (Z.of_nat (length font_bytes) < glyph_end) then Ret (Err DataTooShort) else
  let! glyph_data := slice font_bytes 22 (Z.to_nat glyph_end) in
  let! kern_data := slice font_bytes (Z.to_nat glyph_end) (length font_bytes) in
  let! sheet := parse_sheet_from_bytes sheet_bytes in
  match sheet with
  | Err e => Ret (Err e)
  | Ok sheet => Ret (Ok (mkFont cols rows tile_w tile_h baseline line_gap space_w num_glyphs glyph_data kern_data sheet))
  end.

(** [FontData::font] *)
Definition font_of (data : Font) : Font :=
  mkFont (fo_cols data) (fo_rows data) (fo_tile_w data) (fo_tile_h data) (fo_baseline data) (fo_line_gap data) (fo_space_w data)
    (fo_num_glyphs data) (fo_glyph_data data) (fo_kern_data data) (subimage (fo_sheet data) (mkRect (mkPoint 0 0) (sf_size (fo_sheet data)))).

(** * Drawing *)

Definition SPACE : Z := 32.

Definition draw_char (font : Font) (ch : Z) (at_ : Point) (c : Color) (dest : Surface) : exec (Surface * Z) :=
  if decide (ch = SPACE) then Ret (dest, fo_space_w font) else
  let! found := find_glyph font ch in
  match found with
  | None => Ret (dest, 0)
  | Some (i, glyph) =>
      if decide (fo_cols font = 0) then Panic else
      let tx0 := i32 (i32 (i mod fo_cols font) * fo_tile_w font) in
      let ty0 := i32 (i32 (i / fo_cols font) * fo_tile_h font) in
      let! dest := for_each (range 0 (fo_tile_h font)) (λ ty, for_each (range 0 (gl_adv glyph)) (λ tx dest,
        let! p := read_pixel (fo_sheet font) (mkPoint (i32 (tx0 + tx)) (i32 (ty0 + ty))) in
        if decide (p ≠ Black) then draw_pixel dest (mkPoint (i32 (i32 (p_x at_ + gl_lsb glyph) + tx)) (i32 (p_y at_ + ty))) c else Ret dest)) dest in
      Ret (dest, gl_adv glyph)
  end.

(** The kerning before a character. *)
Definition kern_after (font : Font) (prev : option Z) (ch x : Z) : exec Z :=
  match prev with Some p => let! k := kern_between font p ch in Ret (i32 (x + k)) | None => Ret x end.

Fixpoint draw_str_loop (font : Font) (s : list Z) (prev : option Z) (x y : Z) (c : Color) (dest : Surface) : exec (Surface * Z) :=
  match s with
  | [] => Ret (dest, x)
  | ch :: s =>
      let! x := kern_after font prev ch x in
      let! (dest, adv) := draw_char font ch (mkPoint x y) c dest in
      draw_str_loop font s (Some ch) (i32 (x + adv)) y c dest
  end.

Definition draw_str (font : Font) (s : list Z) (at_ : Point) (c : Color) (dest : Surface) : exec (Surface * Z) :=
  draw_str_loop font s None (p_x at_) (p_y at_) c dest.

(** The advance of a character. *)
Definition char_width (font : Font) (ch : Z) : exec Z :=
  if decide (ch = SPACE) then Ret (fo_space_w font) else
  let! found := find_glyph font ch in Ret (match found with Some (_, g) => gl_adv g | None => 0 end).

Fixpoint str_width_loop (font : Font) (s : list Z) (prev : option Z) (w : Z) : exec Z :=
  match s with
  | [] => Ret w
  | ch :: s =>
      let! w := kern_after font prev ch w in
      let! adv := char_width font ch in
      str_width_loop font s (Some ch) (i32 (w + adv))
  end.

Definition str_width (font : Font) (s : list Z) : exec Z := str_width_loop font s None 0.

(** * Lines *)

Inductive Align := AlignLeft | AlignRight | AlignCenter.

(** [char::is_whitespace] *)
Definition is_whitespace (c : Z) : bool :=
  bool_decide (9 <= c <= 13 ∨ c = 32 ∨ c = 0x85 ∨ c = 0xA0 ∨ c = 0x1680 ∨ 0x2000 <= c <= 0x200A ∨ c = 0x2028 ∨ c = 0x2029 ∨ c = 0x202F ∨ c = 0x205F ∨ c = 0x3000).

Fixpoint trim_start (s : list Z) : list Z :=
  match s with
  | [] => []
  | c :: rest => if is_whitespace c then trim_start rest else s
  end.

Fixpoint take_word (s : list Z) : list Z :=
  match s with
  | [] => []
  | c :: s => if is_whitespace c then [] else c :: take_word s
  end.

(** [split_whitespace], with the offset of every word. *)
Fixpoint split_from (i : nat) (in_word : bool) (s : list Z) : list (nat * list Z) :=
  match s with
  | [] => []
  | c :: rest =>
      if is_whitespace c then split_from (S i) false rest
      else if in_word then split_from (S i) true rest
      else (i, take_word s) :: split_from (S i) true rest
  end.

Definition split_whitespace (s : list Z) : list (nat * list Z) := split_from 0 false s.

Fixpoint break_loop (font : Font) (s : list Z) (max_w : Z) (words : list (nat * list Z)) (line_end : nat) (current_w : Z) : exec (list Z * list Z) :=
  match words with
  | [] => Ret (take line_end s, [])
  | (word_start, word) :: words =>
      let! ww := str_width font word in
      let gap_w := i32 (fo_space_w font + ww) in
      if decide (max_w < i32 (current_w + gap_w)) then Ret (take line_end s, drop word_start s)
      else break_loop font s max_w words (word_start + length word) (i32 (current_w + gap_w))
  end.

Definition find_line_break (font : Font) (s : list Z) (max_w : Z) : exec (list Z * list Z) :=
  match split_whitespace s with
  | [] => Ret ([], [])
  | (start, first) :: words =>
      let! fw := str_width font first in break_loop font s max_w words (start + length first) fw
  end.

Fixpoint measure_loop (font : Font) (words : list (nat * list Z)) (first : bool) (w : Z) : exec Z :=
  match words with
  | [] => Ret w
  | (_, word) :: words =>
      let w := if first then w else i32 (w + fo_space_w font) in
      let! ww := str_width font word in
      measure_loop font words false (i32 (w + ww))
  end.

Definition measure_line (font : Font) (line : list Z) : exec Z := measure_loop font (split_whitespace line) true 0.

Fixpoint draw_words_loop (font : Font) (words : list (nat * list Z)) (first : bool) (cx y : Z) (c : Color) (dest : Surface) : exec Surface :=
  match words with
  | [] => Ret dest
  | (_, word) :: words =>
      let cx := if first then cx else i32 (cx + fo_space_w font) in
      let! (dest, cx) := draw_str font word (mkPoint cx y) c dest in
      draw_words_loop font words false cx y c dest
  end.

(** [draw_line] of the module: the words of a line. *)
Definition draw_words (font : Font) (line : list Z) (at_ : Point) (c : Color) (dest : Surface) : exec Surface :=
  draw_words_loop font (split_whitespace line) true (p_x at_) (p_y at_) c dest.

Definition line_start (align : Align) (x max_w lw : Z) : Z :=
  match align with
  | AlignLeft => x
  | AlignRight => i32 (x + max_w - lw)
  | AlignCenter => i32 (x + Z.quot (i32 (max_w - lw)) 2)
  end.

Fixpoint wrapped_loop (fuel : nat) (font : Font) (remaining : list Z) (x y max_w : Z) (align : Align) (c : Color) (dest : Surface) : exec Surface :=
  match fuel with
  | O => Panic
  | S fuel =>
      if decide (remaining = []) then Ret dest else
      let! (line, rest) := find_line_break font remaining max_w in
      let! lw := measure_line font line in
      let! dest := draw_words font line (mkPoint (line_start align x max_w lw) y) c dest in
      wrapped_loop fuel font (trim_start rest) x (i32 (y + i32 (fo_tile_h font + fo_line_gap font))) max_w align c dest
  end.

(** Every line takes at least one character. *)
Definition draw_str_wrapped (font : Font) (s : list Z) (at_ : Point) (max_w : Z) (align : Align) (c : Color) (dest : Surface) : exec Surface :=
  wrapped_loop (S (length s)) font (trim_start s) (p_x at_) (p_y at_) max_w align c dest.

(** * Fonts that can be drawn *)

(** The length field of the kerning record at a place. *)
Definition kern_total (data : list Z) (pos : Z) : Z := from_be (take 4 (drop (Z.to_nat pos) data)).

(** Every glyph is in the data and in the sheet, and no length of a kerning record wraps around
    the address space. *)
Definition font_ok (font : Font) : Prop :=
  0 < fo_cols font < 2 ^ 16 ∧ is_u 16 (fo_tile_w font) ∧ is_u 16 (fo_tile_h font) ∧ is_u 16 (fo_space_w font) ∧ is_u 16 (fo_num_glyphs font) ∧
  Z.of_nat (length (fo_glyph_data font)) = 8 * fo_num_glyphs font ∧ Z.of_nat (length (fo_kern_data font)) < 2 ^ 31 ∧
  (∀ pos, 0 <= pos → pos + 6 <= Z.of_nat (length (fo_kern_data font)) → 0 <= kern_total (fo_kern_data font) pos < 2 ^ 32 - pos) ∧
  surface_ok (fo_sheet font) ∧
  ∀ i c g, 0 <= i < fo_num_glyphs font → glyph_at font i = Ret (c, g) →
    (i mod fo_cols font) * fo_tile_w font + gl_adv g <= s_w (sf_size (fo_sheet font)) ∧ (i / fo_cols font + 1) * fo_tile_h font <= s_h (sf_size (fo_sheet font)).

Lemma i32_add_l a b : i32 (i32 a + b) = i32 (a + b).
Proof.
  unfold i32, to_signed. assert (wrap 32 ((if wrap 32 a <? 2 ^ (32 - 1) then wrap 32 a else wrap 32 a - 2 ^ 32) + b) = wrap 32 (a + b)) as ->; [|done].
  destruct (wrap 32 a <? _); unfold wrap; Z.to_euclidean_division_equations; lia.
Qed.

Lemma i32_add_r a b : i32 (a + i32 b) = i32 (a + b).
Proof. by rewrite Z.add_comm, i32_add_l, Z.add_comm. Qed.

Lemma i32_idem a : i32 (i32 a) = i32 a.
Proof. pose proof (i32_add_l a 0) as H. by rewrite !Z.add_0_r in H. Qed.

Lemma signed16 x : - 2 ^ 15 <= to_signed 16 x < 2 ^ 15.
Proof. unfold to_signed, wrap. destruct (Z.ltb_spec (x mod 2 ^ 16) (2 ^ (16 - 1))); Z.to_euclidean_division_equations; lia. Qed.

Lemma be_at_ok data o n : 0 <= o → o + Z.of_nat n <= Z.of_nat (length data) < 2 ^ 32 → be_at data o n = Ret (from_be (take n (drop (Z.to_nat o) data))).
Proof.
  intros Ho Hn. unfold be_at. rewrite usize_small by lia. rewrite slice_ok by lia. cbn [ebind]. do 3 f_equal. lia.
Qed.

Lemma for_each_ext {A S} (l : list A) (f g : A → S → exec S) : (∀ a s, a ∈ l → f a s = g a s) → ∀ s, for_each l f s = for_each l g s.
Proof.
  induction l as [|a l IH]; intros H s; [done|]. cbn [for_each]. rewrite H by (by left). destruct (g a s); [|done]. cbn [ebind]. apply IH. intros b t Hb. apply H. by right.
Qed.

Section text.
Context (font : Font).
Hypothesis font_wf : font_ok font.

Lemma glyph_at_ok i : 0 <= i < fo_num_glyphs font → ∃ c g, glyph_at font i = Ret (c, g) ∧ - 2 ^ 15 <= gl_adv g < 2 ^ 15 ∧ - 2 ^ 15 <= gl_lsb g < 2 ^ 15.
Proof using font_wf.
  intros Hi. destruct font_wf as (_ & _ & _ & _ & Hn & Hl & _). unfold is_u in Hn. unfold glyph_at. cbv zeta. rewrite (usize_small (i * 8)) by lia. rewrite !usize_small by lia. rewrite !be_at_ok by lia. cbn [ebind].
  eexists _, _. split; [reflexivity|]. split; apply signed16.
Qed.

Lemma find_from_ok ch places : (∀ i, i ∈ places → 0 <= i < fo_num_glyphs font) →
  ∃ r, find_from font ch places = Ret r ∧ ∀ i g, r = Some (i, g) → 0 <= i < fo_num_glyphs font ∧ glyph_at font i = Ret (ch, g).
Proof using font_wf.
  induction places as [|i places IH]; intros Hp; [by exists None|]. cbn [find_from]. destruct (glyph_at_ok i (Hp i ltac:(by left))) as (c & g & E & _). rewrite E. cbn [ebind]. case_decide as Hc.
  - subst c. eexists. split; [reflexivity|]. intros i' g' [= <- <-]. split; [apply Hp; by left|done].
  - apply IH. intros j Hj. apply Hp. by right.
Qed.

Lemma find_glyph_ok ch : ∃ r, find_glyph font ch = Ret r ∧ ∀ i g, r = Some (i, g) → 0 <= i < fo_num_glyphs font ∧ glyph_at font i = Ret (ch, g).
Proof using font_wf. apply find_from_ok. intros i Hi. by apply elem_range in Hi. Qed.

(** The kerning of every pair is found within the fuel. *)
Lemma kern_loop_ok fuel l r pos : 0 <= pos → Z.of_nat (length (fo_kern_data font)) - pos < Z.of_nat fuel → (0 < fuel)%nat → pos <= Z.of_nat (length (fo_kern_data font)) →
  ∃ k, kern_loop fuel (fo_kern_data font) l r pos = Ret k ∧ - 2 ^ 15 <= k < 2 ^ 15.
Proof using font_wf.
  destruct font_wf as (_ & _ & _ & _ & _ & _ & Hl & Hk & _). revert pos. induction fuel as [|fuel IH]; intros pos Hpos Hf H0 Hle; [lia|]. cbn [kern_loop]. cbv zeta. rewrite !(usize_small (pos + 6)) by lia. case_decide as Hc; [|by exists 0].
  specialize (Hk pos Hpos Hc). rewrite be_at_ok by lia. cbn [ebind]. fold (kern_total (fo_kern_data font) pos). set (total := kern_total _ _) in *. rewrite (usize_small (pos + total)) by lia. case_decide as Ht; [by exists 0|].
  rewrite (usize_small (pos + 4)) by lia. rewrite be_at_ok by lia. cbn [ebind]. rewrite slice_ok by lia. cbn [ebind]. destruct (kern_matches _ _ _); [eexists; split; [reflexivity|apply signed16]|]. apply IH; lia.
Qed.

Lemma kern_between_ok l r : ∃ k, kern_between font l r = Ret k ∧ - 2 ^ 15 <= k < 2 ^ 15.
Proof using font_wf. apply kern_loop_ok; lia. Qed.

Lemma kern_after_ok prev ch : ∃ k, ∀ x, kern_after font prev ch (i32 x) = Ret (i32 (x + k)).
Proof using font_wf.
  destruct prev as [p|]; cbn [kern_after]; [|exists 0; intros x; by rewrite Z.add_0_r]. destruct (kern_between_ok p ch) as (k & -> & _). exists k. intros x. cbn [ebind]. by rewrite i32_add_l.
Qed.

(** ** Characters *)

(** The pixel of the sheet that a glyph has at a place. *)
Definition glyph_pixel (i tx ty : Z) : Color := pic (fo_sheet font) ((i mod fo_cols font) * fo_tile_w font + tx) ((i / fo_cols font) * fo_tile_h font + ty).

Lemma read_glyph i c g tx ty : 0 <= i < fo_num_glyphs font → glyph_at font i = Ret (c, g) → 0 <= tx < gl_adv g → 0 <= ty < fo_tile_h font →
  read_pixel (fo_sheet font) (mkPoint (i32 (i32 (i32 (i mod fo_cols font) * fo_tile_w font) + tx)) (i32 (i32 (i32 (i / fo_cols font) * fo_tile_h font) + ty))) = Ret (glyph_pixel i tx ty).
Proof using font_wf.
  intros Hi Hg Htx Hty. destruct font_wf as (Hc & Hw & Hh & _ & Hn & _ & _ & _ & Hs & Hin). unfold is_u in *. destruct (Hin i c g Hi Hg) as [H1 H2]. pose proof Hs as (S1 & S2 & S3 & S4 & S5 & S6 & _).
  pose proof (Z.mod_pos_bound i (fo_cols font) ltac:(lia)) as Hm. assert (0 <= i / fo_cols font < 2 ^ 16) as Hd by (split; [apply Z.div_pos; lia|apply Z.div_lt_upper_bound; nia]).
  assert (0 <= i mod fo_cols font * fo_tile_w font) by nia. assert (0 <= i / fo_cols font * fo_tile_h font) by nia.
  rewrite (i32_ok (i mod _)), (i32_ok (i / _)) by lia. rewrite (i32_ok (_ * fo_tile_w font)), (i32_ok (_ * fo_tile_h font)) by lia. rewrite !i32_ok by lia. unfold glyph_pixel. apply read_pixel_ok; [done|]. apply bool_decide_eq_true. lia.
Qed.

(** Drawing a character that the font has. *)
Lemma draw_char_glyph ch i g at_ c s : ch ≠ SPACE → find_glyph font ch = Ret (Some (i, g)) → 0 <= i < fo_num_glyphs font → glyph_at font i = Ret (ch, g) →
  draw_char font ch at_ c s = let! s := for_each (range 0 (fo_tile_h font)) (λ ty, for_each (range 0 (gl_adv g)) (λ tx s,
    if decide (glyph_pixel i tx ty ≠ Black) then draw_pixel s (mkPoint (i32 (i32 (p_x at_ + gl_lsb g) + tx)) (i32 (p_y at_ + ty))) c else Ret s)) s in Ret (s, gl_adv g).
Proof using font_wf.
  intros Hch Hf Hi Hg. unfold draw_char. rewrite decide_False by done. rewrite Hf. cbn [ebind]. pose proof font_wf as (Hc & _). rewrite decide_False by lia. cbv zeta. f_equal.
  apply for_each_ext. intros ty t Hty%elem_range. apply for_each_ext. intros tx t' Htx%elem_range. by rewrite (read_glyph i ch g) by done.
Qed.

Lemma draw_char_draws ch : ∃ adv, char_width font ch = Ret adv ∧ ∀ at_ c s0 s, like s0 s → ∃ s', draw_char font ch at_ c s = Ret (s', adv) ∧ like s0 s'.
Proof using font_wf.
  unfold char_width. destruct (decide (ch = SPACE)) as [->|Hch]; [eexists; split; [reflexivity|]; intros at_ c s0 s Hs; unfold draw_char; rewrite decide_True by done; by exists s|].
  destruct (find_glyph_ok ch) as ([[i g]|] & E & Hr); rewrite E; cbn [ebind]; (eexists; split; [reflexivity|]); intros at_ c s0 s Hs.
  - destruct (Hr i g eq_refl) as [Hi Hg]. rewrite (draw_char_glyph ch i g) by done.
    match goal with |- context [for_each ?l ?f s] => assert (draws s0 (for_each l f)) as Hd end.
    { apply (draws_for_each s0 _ (λ ty, for_each _ _)). intros ty _. apply (draws_for_each s0 _ (λ tx t, _)). intros tx _. case_decide; [apply draws_pixel|apply draws_ret]. }
    destruct (Hd s Hs) as (s' & -> & L). by exists s'.
  - unfold draw_char. rewrite decide_False by done. rewrite E. by exists s.
Qed.

(** The pixels of a character: those of the sheet that are not black. *)
Lemma draw_char_paints ch i g at_ c s0 : ch ≠ SPACE → find_glyph font ch = Ret (Some (i, g)) → small (p_x at_) → small (p_y at_) →
  paints s0 (λ s, let! (s, _) := draw_char font ch at_ c s in Ret s)
    (λ x y, let tx := x - p_x at_ - gl_lsb g in let ty := y - p_y at_ in bool_decide (0 <= tx < gl_adv g ∧ 0 <= ty < fo_tile_h font ∧ glyph_pixel i tx ty ≠ Black))
    (λ x y, shown (sf_format s0) (mkPoint x y) c).
Proof using font_wf.
  intros Hch Hf Hx Hy. unfold small in *. set (C := λ x y, shown _ _ _). destruct (find_glyph_ok ch) as (r & E & Hr). rewrite Hf in E. injection E as <-. destruct (Hr i g eq_refl) as [Hi Hg].
  destruct (glyph_at_ok i Hi) as (c' & g' & E' & Ha & Hl). rewrite Hg in E'. injection E' as <- <-. pose proof font_wf as (_ & _ & Hh & _). unfold is_u in Hh.
  eapply paints_fun with (g := for_each (range 0 (fo_tile_h font)) (λ ty, for_each (range 0 (gl_adv g)) (λ tx s,
    if decide (glyph_pixel i tx ty ≠ Black) then draw_pixel s (mkPoint (i32 (i32 (p_x at_ + gl_lsb g) + tx)) (i32 (p_y at_ + ty))) c else Ret s))).
  { intros s _. rewrite (draw_char_glyph ch i g) by done. by destruct (for_each _ _ s). }
  assert (∀ P : Z → Z → bool, P = (λ tx ty, bool_decide (glyph_pixel i tx ty ≠ Black)) → paints s0 (for_each (range 0 (fo_tile_h font)) (λ ty, for_each (range 0 (gl_adv g)) (λ tx s,
    if decide (glyph_pixel i tx ty ≠ Black) then draw_pixel s (mkPoint (i32 (i32 (p_x at_ + gl_lsb g) + tx)) (i32 (p_y at_ + ty))) c else Ret s)))
    (λ x y, existsb (λ ty, existsb (λ tx, P tx ty && bool_decide (x = p_x at_ + gl_lsb g + tx ∧ y = p_y at_ + ty)) (range 0 (gl_adv g))) (range 0 (fo_tile_h font))) C) as Hp.
  { intros P ->. apply (paints_for_each s0 _ (λ ty, for_each _ _)). intros ty Hty%elem_range. apply (paints_for_each s0 _ (λ tx s, _)). intros tx Htx%elem_range. rewrite (i32_ok (p_x at_ + gl_lsb g)), !i32_ok by lia. case_decide as Hb.
    - rewrite bool_decide_eq_true_2 by done. by apply (paints_pixel s0 (mkPoint (p_x at_ + gl_lsb g + tx) (p_y at_ + ty))).
    - rewrite bool_decide_eq_false_2 by tauto. apply paints_none. }
  refine (paints_ext s0 _ _ _ C C _ (Hp _ eq_refl)). intros x y _. split; [|done]. cbv zeta. apply eq_true_iff_eq. rewrite existsb_range, bool_decide_eq_true. split.
  - intros (ty & Hty & Hex). apply existsb_range in Hex as (tx & Htx & Hb). apply andb_true_iff in Hb as [Hb1 Hb2]. apply bool_decide_eq_true in Hb1. apply bool_decide_eq_true in Hb2 as [-> ->].
    replace (p_x at_ + gl_lsb g + tx - p_x at_ - gl_lsb g) with tx by lia. replace (p_y at_ + ty - p_y at_) with ty by lia. done.
  - intros (H1 & H2 & H3). exists (y - p_y at_). split; [lia|]. apply existsb_range. exists (x - p_x at_ - gl_lsb g). split; [lia|]. rewrite bool_decide_eq_true_2 by done. apply bool_decide_eq_true. lia.
Qed.

(** A sheet with eight bits for a pixel makes a solid block of every character. *)
Lemma eight_bit_glyphs_solid ch i g at_ c s0 : sf_format (fo_sheet font) = EightBpp → ch ≠ SPACE → find_glyph font ch = Ret (Some (i, g)) → small (p_x at_) → small (p_y at_) →
  paints s0 (λ s, let! (s, _) := draw_char font ch at_ c s in Ret s)
    (λ x y, bool_decide (0 <= x - p_x at_ - gl_lsb g < gl_adv g ∧ 0 <= y - p_y at_ < fo_tile_h font)) (λ x y, shown (sf_format s0) (mkPoint x y) c).
Proof using font_wf.
  intros He Hch Hf Hx Hy. refine (paints_ext s0 _ _ _ _ _ _ (draw_char_paints ch i g at_ c s0 Hch Hf Hx Hy)). intros x y _. split; [|done]. cbv zeta. apply bool_decide_ext.
  assert (∀ tx ty, glyph_pixel i tx ty ≠ Black) as Hw by (intros tx ty; unfold glyph_pixel, pic, pixel_at; by rewrite He). split; [tauto|]. intros [H1 H2]. split; [done|]. split; [done|]. apply Hw.
Qed.

(** ** Strings *)

Lemma draw_str_loop_ok s prev : ∃ w, (∀ v, str_width_loop font s prev (i32 v) = Ret (i32 (v + w))) ∧
  ∀ x y c s0 t, like s0 t → ∃ t', draw_str_loop font s prev (i32 x) y c t = Ret (t', i32 (x + w)) ∧ like s0 t'.
Proof using font_wf.
  revert prev. induction s as [|ch s IH]; intros prev.
  - exists 0. split; [intros v; by rewrite Z.add_0_r|]. intros x y c s0 t Ht. exists t. by rewrite Z.add_0_r.
  - destruct (kern_after_ok prev ch) as [k Hk]. destruct (draw_char_draws ch) as (adv & Ha & Hd). destruct (IH (Some ch)) as (w & Hw & Hl). exists (k + adv + w). split.
    + intros v. cbn [str_width_loop]. rewrite Hk. cbn [ebind]. rewrite Ha. cbn [ebind]. rewrite i32_add_l, Hw. do 2 f_equal. lia.
    + intros x y c s0 t Ht. cbn [draw_str_loop]. rewrite Hk. cbn [ebind]. destruct (Hd (mkPoint (i32 (x + k)) y) c s0 t Ht) as (t1 & -> & L1). cbn [ebind]. rewrite i32_add_l.
      destruct (Hl (x + k + adv) y c s0 t1 L1) as (t2 & E & L2). exists t2. rewrite E. split; [|done]. do 3 f_equal. lia.
Qed.

(** A string is drawn, and ends where its width says. *)
Lemma draw_str_ok s : ∃ w, str_width font s = Ret (i32 w) ∧ ∀ x y c s0 t, like s0 t → ∃ t', draw_str font s (mkPoint (i32 x) y) c t = Ret (t', i32 (x + w)) ∧ like s0 t'.
Proof using font_wf.
  destruct (draw_str_loop_ok s None) as (w & Hw & Hd). exists w. split; [apply (Hw 0)|]. intros x y c s0 t Ht. by apply Hd.
Qed.
End text.

(** * Words *)

Definition words_of (s : list Z) : list (list Z) := (split_whitespace s).*2.

(** The end of a word: the end of the string, or white space. *)
Definition ends_word (t : list Z) : bool := match t with [] => true | c :: _ => is_whitespace c end.

Lemma split_snd b s i j : (split_from i b s).*2 = (split_from j b s).*2.
Proof.
  revert b i j. induction s as [|c s IH]; intros b i j; [done|]. cbn [split_from]. destruct (is_whitespace c); [apply IH|]. destruct b; [apply IH|]. rewrite !fmap_cons. f_equal. apply IH.
Qed.

Lemma take_word_app a t : ends_word t = true → take_word (a ++ t) = take_word a.
Proof.
  intros Ht. induction a as [|c a IH]; cbn [app take_word]; [destruct t as [|c t]; [done|]; cbn in *; by rewrite Ht|]. destruct (is_whitespace c); [done|]. by rewrite IH.
Qed.

Lemma split_app b a t i : ends_word t = true → split_from i b (a ++ t) = split_from i b a ++ split_from (i + length a) false t.
Proof.
  intros Ht. revert i b. induction a as [|c a IH]; intros i b.
  - rewrite Nat.add_0_r. destruct t as [|c t]; [done|]. cbn in *. by rewrite Ht.
  - change ((c :: a) ++ t) with (c :: (a ++ t)). cbn [split_from length]. change (take_word (c :: a ++ t)) with (take_word ((c :: a) ++ t)). rewrite (take_word_app (c :: a) t Ht), !IH.
    replace (S i + length a)%nat with (i + S (length a))%nat by lia. destruct (is_whitespace c); [done|]. by destruct b.
Qed.

Lemma words_app a t : ends_word t = true → words_of (a ++ t) = words_of a ++ words_of t.
Proof. intros Ht. unfold words_of, split_whitespace. rewrite split_app by done. rewrite fmap_app. f_equal. apply split_snd. Qed.

(** The rest of a string behind the word that it starts with. *)
Lemma split_in_word s i : ∃ t, s = take_word s ++ t ∧ ends_word t = true ∧ split_from i true s = split_from (i + length (take_word s)) false t.
Proof.
  revert i. induction s as [|c s IH]; intros i; [by exists []|]. cbn [take_word split_from]. destruct (is_whitespace c) eqn:Ec.
  - exists (c :: s). split; [done|]. split; [done|]. cbn. by rewrite Nat.add_0_r, Ec.
  - destruct (IH (S i)) as (t & Es & Ht & E). exists t. split; [cbn; by rewrite <- Es|]. split; [done|]. rewrite E. cbn [length]. f_equal. lia.
Qed.

Lemma take_word_word s : Forall (λ c, is_whitespace c = false) (take_word s).
Proof. induction s as [|c s IH]; cbn; [done|]. destruct (is_whitespace c) eqn:E; [done|]. by constructor. Qed.

(** The first word of a string, and what follows it. *)
Lemma split_cons_inv i t p w ws : split_from i false t = (p, w) :: ws →
  ∃ gap t', t = gap ++ w ++ t' ∧ w ≠ [] ∧ Forall (λ c, is_whitespace c = false) w ∧ Forall (λ c, is_whitespace c = true) gap ∧ p = (i + length gap)%nat ∧ ends_word t' = true ∧ ws = split_from (p + length w) false t'.
Proof.
  revert i. induction t as [|c t IH]; intros i E; [done|]. cbn [split_from] in E. destruct (is_whitespace c) eqn:Ec.
  - destruct (IH (S i) E) as (gap & t' & -> & H1 & H2 & H3 & -> & H4 & H5). exists (c :: gap), t'. split; [done|]. do 2 (split; [done|]). split; [by constructor|]. split; [cbn; lia|]. by split.
  - change (if is_whitespace c then [] else c :: take_word t) with (take_word (c :: t)) in E. injection E as <- <- <-. change (if is_whitespace c then [] else c :: take_word t) with (take_word (c :: t)) in *. clear IH. destruct (split_in_word (c :: t) i) as (t' & Es & Ht & E). exists [], t'. split; [done|]. split; [cbn; by rewrite Ec|]. split; [apply take_word_word|]. split; [done|]. split; [cbn; lia|]. split; [done|].
    cbn [split_from] in E. by rewrite Ec in E.
Qed.

Lemma split_word w i : w ≠ [] → Forall (λ c, is_whitespace c = false) w → split_from i false w = [(i, w)].
Proof.
  intros Hw Hf. destruct w as [|c w]; [done|]. assert (take_word (c :: w) = c :: w) as Et by (clear Hw; induction Hf as [|c' w' Hc _ IH]; [done|]; cbn; by rewrite Hc, IH). assert (∀ j v, Forall (λ c, is_whitespace c = false) v → split_from j true v = []) as Hn.
  { intros j v Hv. revert j. induction Hv as [|d v Hd _ IH]; intros j; cbn; [done|]. by rewrite Hd. }
  inversion Hf as [|? ? Hc Hf']; subst. cbn [split_from]. by rewrite Hc, Et, Hn.
Qed.

Lemma split_gap gap t i : Forall (λ c, is_whitespace c = true) gap → split_from i false (gap ++ t) = split_from (i + length gap) false t.
Proof. intros Hg. revert i. induction Hg as [|c gap Hc _ IH]; intros i; cbn; [by rewrite Nat.add_0_r|]. rewrite Hc, IH. f_equal. lia. Qed.

Lemma words_gap_word gap w t : Forall (λ c, is_whitespace c = true) gap → w ≠ [] → Forall (λ c, is_whitespace c = false) w → ends_word t = true → words_of (gap ++ w ++ t) = w :: words_of t.
Proof.
  intros Hg Hw Hf Ht. unfold words_of at 1, split_whitespace. rewrite split_gap by done. rewrite split_app by done. rewrite split_word by done. cbn. f_equal. apply split_snd.
Qed.

Lemma trim_start_app s : ∃ gap, s = gap ++ trim_start s ∧ Forall (λ c, is_whitespace c = true) gap.
Proof.
  induction s as [|c s (gap & E & Hg)]; [by exists []|]. cbn [trim_start]. destruct (is_whitespace c) eqn:Ec; [|by exists []]. exists (c :: gap). split; [by rewrite E at 1|by constructor].
Qed.

Lemma words_trim s : words_of (trim_start s) = words_of s.
Proof. destruct (trim_start_app s) as (gap & E & Hg). rewrite E at 2. unfold words_of, split_whitespace. rewrite split_gap by done. apply split_snd. Qed.

Lemma trim_length s : (length (trim_start s) <= length s)%nat.
Proof. destruct (trim_start_app s) as (gap & E & _). rewrite E at 2. rewrite length_app. lia. Qed.

Lemma trim_trim s : trim_start (trim_start s) = trim_start s.
Proof. induction s as [|c s IH]; [done|]. cbn [trim_start]. destruct (is_whitespace c) eqn:E; [done|]. cbn. by rewrite E. Qed.

(** A string that starts with a word. *)
Lemma split_trimmed s : trim_start s = s → s ≠ [] → ∃ w ws, split_whitespace s = (0%nat, w) :: ws.
Proof.
  destruct s as [|c s]; [done|]. intros Ht _. cbn in Ht. unfold split_whitespace. cbn [split_from]. destruct (is_whitespace c); [|by eexists _, _].
  exfalso. pose proof (trim_length s) as H. rewrite Ht in H. cbn in H. lia.
Qed.

(** * Filling lines *)

Section lines.
Context (font : Font) (max_w : Z).
Hypothesis font_wf : font_ok font.

(** The width of words with spaces between them. *)
Definition words_width (ws : list (list Z)) : exec Z := measure_loop font (pair 0%nat <$> ws) true 0.

(** Words that may stand on a line. *)
Definition fits (ws : list (list Z)) : Prop := length ws = 1%nat ∨ ∃ w, words_width ws = Ret w ∧ w <= max_w.

(** Lines that are filled as far as the words go: a line ends where the next word does not
    fit any more. *)
Inductive filled : list (list (list Z)) → Prop :=
  | filled_nil : filled []
  | filled_last l : l ≠ [] → fits l → filled [l]
  | filled_cons l w r ls v : l ≠ [] → fits l → words_width (l ++ [w]) = Ret v → max_w < v → filled ((w :: r) :: ls) → filled (l :: (w :: r) :: ls).

Lemma measure_snd ws f w : measure_loop font ws f w = measure_loop font (pair 0%nat <$> ws.*2) f w.
Proof. revert f w. induction ws as [|[p word] ws IH]; intros f w; [done|]. rewrite !fmap_cons. cbn [measure_loop snd]. destruct (str_width font word); [|done]. cbn [ebind]. apply IH. Qed.

Lemma measure_line_words line : measure_line font line = words_width (words_of line).
Proof. apply measure_snd. Qed.

Lemma measure_app a word f w : measure_loop font (a ++ [(0%nat, word)]) f w =
  let! v := measure_loop font a f w in measure_loop font [(0%nat, word)] (f && bool_decide (a = [])) v.
Proof.
  revert f w. induction a as [|[p x] a IH]; intros f w; [by destruct f|]. cbn [app measure_loop]. destruct (str_width font x); [|done]. cbn [ebind]. rewrite IH.
  destruct (measure_loop font a false _); [|done]. cbn [ebind]. by rewrite andb_false_r.
Qed.

Lemma words_width_snoc ws word w v : ws ≠ [] → words_width ws = Ret (i32 w) → str_width font word = Ret (i32 v) → words_width (ws ++ [word]) = Ret (i32 (w + fo_space_w font + v)).
Proof.
  intros Hws Hw Hv. unfold words_width in *. rewrite fmap_app. change (pair 0%nat <$> [word]) with [(0%nat, word)]. rewrite measure_app, Hw. cbn [ebind]. assert ((pair 0%nat <$> ws) ≠ []) as Hn by (intros Hn; by apply fmap_nil_inv in Hn). rewrite bool_decide_eq_false_2 by done.
  cbn [andb measure_loop]. rewrite Hv. cbn [ebind]. by rewrite (i32_add_l w), i32_add_l, i32_add_r.
Qed.

Lemma words_width_one word v : str_width font word = Ret (i32 v) → words_width [word] = Ret (i32 v).
Proof. intros Hv. unfold words_width. change (pair 0%nat <$> [word]) with [(0%nat, word)]. cbn [measure_loop]. rewrite Hv. cbn [ebind measure_loop]. by rewrite Z.add_0_l, i32_idem. Qed.

(** ** Breaking a line *)

(** What a break gives: the words of the line and those of the rest are the words of the
    string, the line fits, and the first word of the rest would not. *)
Definition broken (s line rest : list Z) : Prop :=
  words_of line ++ words_of rest = words_of s ∧ words_of line ≠ [] ∧ fits (words_of line) ∧
  (∀ w r, words_of rest = w :: r → ∃ v, words_width (words_of line ++ [w]) = Ret v ∧ max_w < v) ∧ (length rest < length s)%nat.

Lemma break_loop_ok s ws : ∀ pre t v,
  s = pre ++ t → ends_word t = true → split_from (length pre) false t = ws → words_of pre ≠ [] → words_width (words_of pre) = Ret (i32 v) → fits (words_of pre) →
  ∃ line rest, break_loop font s max_w ws (length pre) (i32 v) = Ret (line, rest) ∧ broken s line rest.
Proof using font_wf.
  induction ws as [|[p w] ws IH]; intros pre t v Hs Ht Hsp Hpre Hw Hf; cbn [break_loop].
  - assert (words_of t = []) as Et by (unfold words_of, split_whitespace; by rewrite (split_snd _ _ _ (length pre)), Hsp). exists (take (length pre) s), []. split; [done|]. rewrite Hs, take_app_length. unfold broken.
    split; [by rewrite words_app, Et|]. split; [done|]. split; [done|]. split; [done|]. rewrite length_app. destruct pre; [done|]. cbn. lia.
  - destruct (split_cons_inv _ _ _ _ _ Hsp) as (gap & t' & -> & Hw0 & Hww & Hg & -> & Ht' & ->). destruct (draw_str_ok font font_wf w) as (u & Hu & _). rewrite Hu. cbn [ebind]. cbv zeta.
    assert (gap ≠ []) as Hg0 by (intros ->; destruct w as [|c w]; [done|]; inversion Hww; cbn in Ht; congruence).
    rewrite (i32_add_r (fo_space_w font) u), i32_add_l, i32_add_r. replace (v + (fo_space_w font + u)) with (v + fo_space_w font + u) by lia. pose proof (words_width_snoc (words_of pre) w v u Hpre Hw Hu) as Hsn. case_decide as Hm.
    + exists pre, (w ++ t'). rewrite Hs, take_app_length, (app_assoc pre gap (w ++ t')), drop_app_length' by (rewrite length_app; lia). split; [done|]. assert (words_of (w ++ t') = w :: words_of t') as Er by (by apply (words_gap_word [] w t')).
      rewrite <- app_assoc. split; [rewrite (words_app pre) by done; by rewrite Er, words_gap_word|]. split; [done|]. split; [done|]. split; [rewrite Er; intros w' r [= <- _]; by eexists|].
      rewrite !length_app. destruct gap; [done|]. cbn. lia.
    + assert (words_of (pre ++ gap ++ w) = words_of pre ++ [w]) as Ew.
      { rewrite words_app by (by destruct gap as [|c gap]; [done|]; inversion Hg). f_equal. pose proof (words_gap_word gap w [] Hg Hw0 Hww eq_refl) as H. by rewrite app_nil_r in H. }
      replace (length pre + length gap + length w)%nat with (length (pre ++ gap ++ w)) in IH |- * by (rewrite !length_app; lia).
      apply (IH (pre ++ gap ++ w) t'); [by rewrite Hs, <- !app_assoc|done|done|rewrite Ew; by destruct (words_of pre)|by rewrite Ew|rewrite Ew; right; eexists; split; [exact Hsn|lia]].
Qed.

Lemma find_line_break_ok s : trim_start s = s → s ≠ [] → ∃ line rest, find_line_break font s max_w = Ret (line, rest) ∧ broken s line rest.
Proof using font_wf.
  intros Ht Hs. destruct (split_trimmed s Ht Hs) as (w & ws & E). unfold find_line_break. rewrite E. destruct (split_cons_inv _ _ _ _ _ E) as (gap & t & Es & Hw0 & Hww & Hg & Hp & Hte & ->).
  assert (gap = []) as -> by (apply length_zero_iff_nil; lia). destruct (draw_str_ok font font_wf w) as (u & Hu & _). rewrite Hu. cbn [ebind app] in *. rewrite !Nat.add_0_l. pose proof (words_gap_word [] w [] Hg Hw0 Hww eq_refl) as Ew. cbn [app] in Ew. rewrite app_nil_r in Ew.
  apply (break_loop_ok s _ w t); [done|done|done|by rewrite Ew|rewrite Ew; by apply words_width_one|rewrite Ew; by left].
Qed.

(** ** Drawing the lines *)

Definition line_height : Z := i32 (fo_tile_h font + fo_line_gap font).

(** The lines below each other, each one placed by its width. *)
Fixpoint draw_text_lines (lines : list (list (list Z))) (x y : Z) (align : Align) (c : Color) (dest : Surface) : exec Surface :=
  match lines with
  | [] => Ret dest
  | line :: lines =>
      let! lw := words_width line in
      let! dest := draw_words_loop font (pair 0%nat <$> line) true (line_start align x max_w lw) y c dest in
      draw_text_lines lines x (i32 (y + line_height)) align c dest
  end.

Lemma draw_words_snd ws f x y c t : draw_words_loop font ws f x y c t = draw_words_loop font (pair 0%nat <$> ws.*2) f x y c t.
Proof. revert f x t. induction ws as [|[p word] ws IH]; intros f x t; [done|]. rewrite !fmap_cons. cbn [draw_words_loop snd]. destruct (draw_str font word _ c t) as [[t' x']|]; [|done]. cbn [ebind]. apply IH. Qed.

Lemma draw_words_ok ws f x y c s0 t : like s0 t → ∃ t', draw_words_loop font ws f (i32 x) y c t = Ret t' ∧ like s0 t'.
Proof using font_wf.
  revert f x t. induction ws as [|[p word] ws IH]; intros f x t Ht; [by exists t|]. cbn [draw_words_loop]. destruct (draw_str_ok font font_wf word) as (u & _ & Hd).
  assert ((if f then i32 x else i32 (i32 x + fo_space_w font)) = i32 (if f then x else x + fo_space_w font)) as -> by (destruct f; [done|apply i32_add_l]).
  destruct (Hd (if f then x else x + fo_space_w font) y c s0 t Ht) as (t1 & -> & L1). cbn [ebind]. by apply IH.
Qed.

Lemma words_width_ok ws : ∃ w, words_width ws = Ret (i32 w).
Proof using font_wf.
  assert (∀ ws f v, ∃ w, measure_loop font ws f (i32 v) = Ret (i32 w)) as H; [|exact (H (pair 0%nat <$> ws) true 0)]. clear ws. intros ws. induction ws as [|[p word] ws IH]; intros f v; [by eexists|]. cbn [measure_loop].
  destruct (draw_str_ok font font_wf word) as (u & -> & _). cbn [ebind]. rewrite i32_add_r. destruct f; rewrite ?(i32_add_l v), ?i32_add_l; apply IH.
Qed.

Lemma line_start_i32 align x lw : ∃ x', line_start align (i32 x) max_w lw = i32 x'.
Proof. destruct align; by eexists. Qed.

Lemma wrapped_loop_ok fuel : ∀ rem, (length rem < fuel)%nat → trim_start rem = rem →
  ∃ lines, concat lines = words_of rem ∧ filled lines ∧ ∀ x y align c s0 t, like s0 t →
    ∃ t', wrapped_loop fuel font rem (i32 x) y max_w align c t = Ret t' ∧ draw_text_lines lines (i32 x) y align c t = Ret t' ∧ like s0 t'.
Proof using font_wf.
  induction fuel as [|fuel IH]; intros rem Hl Htr; [lia|]. destruct (decide (rem = [])) as [->|Hr].
  - exists []. split; [done|]. split; [constructor|]. intros x y align c s0 t Ht. by exists t.
  - destruct (find_line_break_ok rem Htr Hr) as (line & rest & E & Hc & Hne & Hf & Hg & Hlen). pose proof (trim_length rest) as Hlt.
    destruct (IH (trim_start rest) ltac:(lia) (trim_trim rest)) as (lines & Hcl & Hfl & Hd). rewrite words_trim in Hcl. exists (words_of line :: lines). split; [cbn; by rewrite Hcl|]. split.
    + inversion Hfl as [Hx|l Hl0 Hlf Hx|l w r ls v Hl0 Hlf Hv Hm Hx]; subst lines; [by apply filled_last| |].
      * destruct l as [|w r]; [done|]. cbn in Hcl. rewrite app_nil_r in Hcl. destruct (Hg w r (eq_sym Hcl)) as (v & Hv & Hm). by eapply filled_cons.
      * destruct l as [|w' r']; [done|]. destruct (Hg w' (r' ++ concat ((w :: r) :: ls))) as (v' & Hv' & Hm'); [by rewrite <- Hcl|]. by eapply filled_cons.
    + intros x y align c s0 t Ht. cbn [wrapped_loop draw_text_lines]. rewrite decide_False by done. rewrite E. cbn [ebind]. rewrite measure_line_words. destruct (words_width_ok (words_of line)) as [lw Hlw]. rewrite Hlw. cbn [ebind].
      unfold draw_words. cbn [p_x p_y]. rewrite draw_words_snd. fold (words_of line). destruct (line_start_i32 align x (i32 lw)) as [x' ->]. destruct (draw_words_ok (pair 0%nat <$> words_of line) true x' y c s0 t Ht) as (t1 & -> & L1). cbn [ebind]. by apply Hd.
Qed.
End lines.

(** C38: text is wrapped completely. For a font whose glyphs lie in its data and its sheet,
    drawing any string in a column of any width returns without a panic, within one step for
    each character, and leaves a surface of the same shape. It draws lines, one below the
    other, whose words are exactly the words of the string in their order; every line has a
    word, is not wider than the column unless it is one word, and ends only where the next
    word would make it too wide. *)
Theorem wrapped_text_filled font s at_ max_w align c dest :
  font_ok font → surface_ok dest → - 2 ^ 31 <= p_x at_ < 2 ^ 31 →
  ∃ lines dest', concat lines = words_of s ∧ filled font max_w lines ∧ draw_str_wrapped font s at_ max_w align c dest = Ret dest' ∧
    draw_text_lines font max_w lines (p_x at_) (p_y at_) align c dest = Ret dest' ∧ like dest dest'.
Proof.
  intros Hf Hd Hx. unfold draw_str_wrapped. pose proof (trim_length s). destruct (wrapped_loop_ok font max_w Hf (S (length s)) (trim_start s) ltac:(lia) (trim_trim s)) as (lines & Hc & Hfl & Hw). rewrite words_trim in Hc.
  destruct (Hw (p_x at_) (p_y at_) align c dest dest (like_refl dest Hd)) as (t & E1 & E2 & L). rewrite i32_ok in E1, E2 by done. by exists lines, t.
Qed.

(** * Examples *)

(** A font with the characters A and B, three and four pixels wide, and one pixel less
    between the two. *)
Definition example_font_bytes : list Z :=
  [0x1B; 0xF0; 1; 0; 0; 2; 0; 1; 0; 4; 0; 2; 0; 2; 0; 1; 0; 2; 0; 2; 0; 0] ++
  [0; 0; 0; 65; 0; 0; 0; 3] ++ [0; 0; 0; 66; 0; 0; 0; 4] ++ [0; 0; 0; 8; 255; 255; 65; 66].

Definition pbm_sheet : list Z := [80; 52; 10; 56; 32; 50; 10; 0x5A; 0xA5].

Definition example_font : Font :=
  mkFont 2 1 4 2 2 1 2 2 [0; 0; 0; 65; 0; 0; 0; 3; 0; 0; 0; 66; 0; 0; 0; 4] [0; 0; 0; 8; 255; 255; 65; 66] (with_bytes (image_new (mkSize 8 2) Mono) [0x5A; 0xA5]).

Lemma example_font_parsed : from_bytes example_font_bytes pbm_sheet = Ret (Ok example_font).
Proof. vm_compute. reflexivity. Qed.

Lemma example_font_ok : font_ok example_font.
Proof.
  unfold font_ok. split; [cbn; lia|]. do 4 (split; [const_u|]). split; [done|]. split; [cbn; lia|]. split.
  - intros pos H1 H2. change (pos + 6 <= 8) in H2. assert (pos = 0 ∨ pos = 1 ∨ pos = 2) as [->|[->| ->]] by lia; vm_compute; split; (discriminate || reflexivity).
  - split; [vm_compute; repeat split; try discriminate; repeat constructor; discriminate|]. intros i c g Hi. change (0 <= i < 2) in Hi. assert (i = 0 ∨ i = 1) as [->| ->] by lia; intros E; vm_compute in E; injection E as <- <-; vm_compute; split; discriminate.
Qed.

Lemma wrapped_text_filled_witness :
  ∃ lines dest', concat lines = [[65; 66]; [66]; [65]] ∧ filled example_font 12 lines ∧
    draw_str_wrapped example_font [32; 65; 66; 32; 10; 66; 32; 65] (mkPoint 1 1) 12 AlignRight Black (image_new (mkSize 16 8) Mono) = Ret dest' ∧
    draw_text_lines example_font 12 lines 1 1 AlignRight Black (image_new (mkSize 16 8) Mono) = Ret dest' ∧ like (image_new (mkSize 16 8) Mono) dest'.
Proof.
  apply (wrapped_text_filled example_font [32; 65; 66; 32; 10; 66; 32; 65] (mkPoint 1 1) 12 AlignRight Black (image_new (mkSize 16 8) Mono)); [apply example_font_ok| |cbn; lia].
  vm_compute. repeat split; try discriminate. repeat constructor; discriminate.
Defined.

(** The same font with its sheet as a grey image, of which all pixels but those of the first
    tile's corners are black, draws the character A as a block of three by two pixels. *)
Definition pgm_sheet : list Z := [80; 53; 10; 56; 32; 50; 10; 50; 53; 53; 10] ++ [0; 255; 255; 255; 255; 255; 255; 255; 255; 255; 0; 255; 255; 255; 255; 255].

Lemma grey_font_draws_blocks : ∃ font,
  from_bytes example_font_bytes pgm_sheet = Ret (Ok font) ∧ draw_char font 65 (mkPoint 0 0) Black (image_new (mkSize 8 2) Mono) = Ret (with_bytes (image_new (mkSize 8 2) Mono) [0xE0; 0xE0], 3).
Proof. eexists. split; [vm_compute; reflexivity|]. vm_compute. reflexivity. Qed.

(** A font of which the sheet is too small is accepted, and drawing with it panics. *)
Lemma small_sheet_panics : ∃ font,
  from_bytes example_font_bytes [80; 52; 10; 52; 32; 49; 10; 0] = Ret (Ok font) ∧ draw_char font 65 (mkPoint 0 0) Black (image_new (mkSize 8 2) Mono) = Panic.
Proof. eexists. split; [vm_compute; reflexivity|]. vm_compute. reflexivity. Qed.

(** The length of a kerning record wraps around the address space: looking for a pair behind
    it panics. *)
Lemma kern_length_wraps :
  kern_between (mkFont 2 1 4 2 2 1 2 0 [] [0; 0; 0; 8; 255; 255; 65; 66; 255; 255; 255; 252; 0; 0] (fo_sheet example_font)) 66 65 = Panic.
Proof. vm_compute. reflexivity. Qed.
