(* ===== verification/Compositor.v ===== *)
(** The compositor, [firmware/sysmodule/compositor/src/main.rs] and its [api]: frame buffers
    and layers of its clients, and the frame that it shows.

    The resources are the records that the arena keeps for their holders. Whether the heap
    has room for an image, and what reading a lease gives, are arguments; a frame is what
    is handed to the display. The text of logs, the counting of frames and the
    notification that follows a frame are left out. *)

From S2P Require Import Prelude BTree Graphics.

Open Scope Z_scope.

Definition DISPLAY_WIDTH : Z := 128.
Definition DISPLAY_HEIGHT : Z := 64.
Definition DISPLAY_PAGES : Z := DISPLAY_HEIGHT / 8.
Definition DISPLAY_BUF_SIZE : Z := DISPLAY_WIDTH * DISPLAY_PAGES.
Definition MAX_FRAME_BUFFERS : nat := 32.
Definition MAX_LAYERS : nat := 32.
Definition MAX_IMAGE_DIM : Z := 4096.

Record FrameBufferEntry := mkFb { fb_id : Z; fb_image : Surface }.

(** The blend mode, of which there is only one, is not kept. *)
Record LayerEntry := mkLayer { ly_framebuffer_id : Z; ly_x : Z; ly_y : Z; ly_z : Z; ly_visible : bool }.

(** [REGISTRY], [LAYERS] and [SCRATCH]. *)
Record Compositor := mkComp {
  cp_slots : list (option FrameBufferEntry);
  cp_next_id : Z;
  cp_layers : list (option LayerEntry);
  cp_frame : Surface;
  cp_out : list Z;
}.

Record FrameBufferResource := mkFbRes { fr_slot : nat; fr_owner : Z; fr_id : Z }.
Record LayerResource := mkLayerRes { lr_slot : nat; lr_owner : Z }.

Record FrameBufferInfo := mkInfo { fi_format : ImageFormat; fi_width : Z; fi_height : Z }.

Inductive FrameBufferError := WrongSeedLength | FbOutOfMemory | FbNotOwner | InvalidDimensions | FbOutOfSlots.
Inductive LayerError := UnknownFrameBuffer | LyOutOfSlots | LyNotOwner.

Definition with_slots (c : Compositor) (slots : list (option FrameBufferEntry)) (next : Z) : Compositor := mkComp slots next (cp_layers c) (cp_frame c) (cp_out c).
Definition with_layer_slots (c : Compositor) (layers : list (option LayerEntry)) : Compositor := mkComp (cp_slots c) (cp_next_id c) layers (cp_frame c) (cp_out c).
Definition with_frame (c : Compositor) (frame : Surface) (out : list Z) : Compositor := mkComp (cp_slots c) (cp_next_id c) (cp_layers c) frame out.

(** [FrameBufferInfo::pitch] and [data_len], computed in 64 bits *)
Definition info_pitch (i : FrameBufferInfo) : Z := Z.min (2 ^ 32 - 1) (Z.min (2 ^ 64 - 1) (Z.min (2 ^ 64 - 1) (fi_width i * format_bits (fi_format i)) + 7) / 8).
Definition data_len (i : FrameBufferInfo) : Z := Z.min (2 ^ 32 - 1) (Z.min (2 ^ 64 - 1) (info_pitch i * fi_height i)).

(** [try_make_image_size]; [room] is the answer of the heap. *)
Definition try_make_image_size (size : Size) (format : ImageFormat) (room : bool) : option Surface :=
  let len := usize (usize (s_h size) * pitch_for size format) in
  if room then from_vec size format (replicate (Z.to_nat len) 0) else None.

Definition find_image (slots : list (option FrameBufferEntry)) (fid : Z) : option Surface :=
  match List.find (λ e, bool_decide (fb_id e = fid)) (omap (λ s, s) slots) with Some e => Some (fb_image e) | None => None end.

Definition contains (slots : list (option FrameBufferEntry)) (id : Z) : bool := match find_image slots id with Some _ => true | None => false end.

(** The first free slot. *)
Fixpoint first_free {A} (slots : list (option A)) (i : nat) : option nat :=
  match slots with
  | [] => None
  | None :: _ => Some i
  | Some _ :: slots => first_free slots (S i)
  end.

(** The bytes of an image after [seed_data.read_range] into it; a read that fails leaves
    them, and its result is ignored. *)
Definition seeded (image : Surface) (seed : option (list Z)) : Surface :=
  match seed with Some bytes => with_bytes image bytes | None => image end.

(** * Frame buffers *)

Definition fb_new (c : Compositor) (sender : Z) (info : FrameBufferInfo) (seed_len : Z) (seed : option (list Z)) (room : bool)
  : result FrameBufferResource FrameBufferError * Compositor :=
  if decide (fi_width info = 0 ∨ fi_height info = 0 ∨ MAX_IMAGE_DIM < fi_width info ∨ MAX_IMAGE_DIM < fi_height info) then (Err InvalidDimensions, c) else
  if decide (seed_len ≠ data_len info) then (Err WrongSeedLength, c) else
  match try_make_image_size (mkSize (fi_width info) (fi_height info)) (fi_format info) room with
  | None => (Err FbOutOfMemory, c)
  | Some image =>
      let image := seeded image seed in
      match first_free (cp_slots c) 0 with
      | None => (Err FbOutOfSlots, c)
      | Some i =>
          let id := cp_next_id c in
          let next := wrap 32 (id + 1) in
          (Ok (mkFbRes i sender id), with_slots c (<[i := Some (mkFb id image)]> (cp_slots c)) (if decide (next = 0) then 1 else next))
      end
  end.

Definition fb_write (c : Compositor) (sender : Z) (r : FrameBufferResource) (seed_len : Z) (seed : option (list Z)) : exec (result () FrameBufferError * Compositor) :=
  if decide (sender ≠ fr_owner r) then Ret (Err FbNotOwner, c) else
  let! slot := idx (cp_slots c) (fr_slot r) in
  match slot with
  | None => Panic
  | Some e =>
      if decide (seed_len ≠ Z.of_nat (length (sf_data (fb_image e)))) then Ret (Err WrongSeedLength, c) else
      let! slots := set_idx (cp_slots c) (fr_slot r) (Some (mkFb (fb_id e) (seeded (fb_image e) seed))) in
      Ret (Ok tt, with_slots c slots (cp_next_id c))
  end.

Definition fb_drop (c : Compositor) (r : FrameBufferResource) : exec Compositor :=
  let! slots := set_idx (cp_slots c) (fr_slot r) None in Ret (with_slots c slots (cp_next_id c)).

(** * Layers *)

Definition layer_new (c : Compositor) (sender framebuffer x y z : Z) : result LayerResource LayerError * Compositor :=
  if negb (contains (cp_slots c) framebuffer) then (Err UnknownFrameBuffer, c) else
  match first_free (cp_layers c) 0 with
  | None => (Err LyOutOfSlots, c)
  | Some i => (Ok (mkLayerRes i sender), with_layer_slots c (<[i := Some (mkLayer framebuffer x y z true)]> (cp_layers c)))
  end.

(** The entry of a layer that its owner changes. *)
Definition layer_update (c : Compositor) (sender : Z) (r : LayerResource) (f : LayerEntry → LayerEntry) : exec (result () LayerError * Compositor) :=
  if decide (sender ≠ lr_owner r) then Ret (Err LyNotOwner, c) else
  let! slot := idx (cp_layers c) (lr_slot r) in
  match slot with
  | None => Ret (Ok tt, c)
  | Some e => let! layers := set_idx (cp_layers c) (lr_slot r) (Some (f e)) in Ret (Ok tt, with_layer_slots c layers)
  end.

Definition set_framebuffer (c : Compositor) (sender : Z) (r : LayerResource) (framebuffer : Z) : exec (result () LayerError * Compositor) :=
  if decide (sender ≠ lr_owner r) then Ret (Err LyNotOwner, c) else
  if negb (contains (cp_slots c) framebuffer) then Ret (Err UnknownFrameBuffer, c) else
  layer_update c sender r (λ e, mkLayer framebuffer (ly_x e) (ly_y e) (ly_z e) (ly_visible e)).

Definition set_position (c : Compositor) (sender : Z) (r : LayerResource) (x y : Z) : exec (result () LayerError * Compositor) :=
  layer_update c sender r (λ e, mkLayer (ly_framebuffer_id e) x y (ly_z e) (ly_visible e)).

Definition set_z (c : Compositor) (sender : Z) (r : LayerResource) (z : Z) : exec (result () LayerError * Compositor) :=
  layer_update c sender r (λ e, mkLayer (ly_framebuffer_id e) (ly_x e) (ly_y e) z (ly_visible e)).

Definition set_visible (c : Compositor) (sender : Z) (r : LayerResource) (visible : bool) : exec (result () LayerError * Compositor) :=
  layer_update c sender r (λ e, mkLayer (ly_framebuffer_id e) (ly_x e) (ly_y e) (ly_z e) visible).

Definition layer_drop (c : Compositor) (r : LayerResource) : exec Compositor :=
  let! layers := set_idx (cp_layers c) (lr_slot r) None in Ret (with_layer_slots c layers).

(** * Frames *)

(** The index and the height of a layer, if it is visible. *)
Definition visible_entry (p : nat * option LayerEntry) : option (nat * Z) :=
  match p.2 with Some l => if ly_visible l then Some (p.1, ly_z l) else None | None => None end.

Definition visible_layers (layers : list (option LayerEntry)) : list (nat * Z) := omap visible_entry (imap pair layers).

Definition draw_order (layers : list (option LayerEntry)) : list (nat * Z) := sort_by (λ a b, bool_decide (a.2 <= b.2)) (visible_layers layers).

Definition draw_layer (c : Compositor) (e : nat * Z) (frame : Surface) : exec Surface :=
  let! slot := idx (cp_layers c) e.1 in
  match slot with
  | None => Ret frame
  | Some layer =>
      match find_image (cp_slots c) (ly_framebuffer_id layer) with
      | None => Ret frame
      | Some image => draw_image frame image (mkPoint (ly_x layer) (ly_y layer))
      end
  end.

(** The byte of eight pixels below each other. *)
Definition page_byte (src : Surface) (page col : Z) : exec Z :=
  for_each (range 0 8) (λ bit byte,
    let! p := read_pixel src (mkPoint col (page * 8 + bit)) in
    Ret (if decide (p = Black) then Z.lor byte (Z.shiftl 1 bit) else byte)) 0.

Definition mono_to_ssd1312 (src : Surface) (out : list Z) : exec (list Z) :=
  for_each (range 0 DISPLAY_PAGES) (λ page, for_each (range 0 DISPLAY_WIDTH) (λ col out,
    let! byte := page_byte src page col in
    set_idx out (Z.to_nat (page * DISPLAY_WIDTH + col)) byte)) (replicate (length out) 0).

(** [render_frame]: the state afterwards; its buffer is what the display gets. *)
Definition render_frame (fuel : nat) (c : Compositor) : exec Compositor :=
  let! frame := clear fuel (cp_frame c) None White in
  let! frame := for_each (draw_order (cp_layers c)) (draw_layer c) frame in
  let! out := mono_to_ssd1312 frame (cp_out c) in
  Ret (with_frame c frame out).

(** [main]: no frame buffers and layers; the heap has room for the frame. *)
Definition compositor_new : Compositor :=
  mkComp (replicate MAX_FRAME_BUFFERS None) 1 (replicate MAX_LAYERS None)
    (image_new (mkSize DISPLAY_WIDTH DISPLAY_HEIGHT) Mono) (replicate (Z.to_nat DISPLAY_BUF_SIZE) 0).


(** * Clients

    The calls that the server dispatches, with the resources that are alive; a resource is
    named by the number of its creation. The server renders a frame between calls. *)

Inductive Call :=
  | CallNewFb (sender : Z) (info : FrameBufferInfo) (seed_len : Z) (seed : option (list Z)) (room : bool)
  | CallWrite (sender : Z) (h : nat) (seed_len : Z) (seed : option (list Z))
  | CallDropFb (h : nat)
  | CallNewLayer (sender framebuffer x y z : Z)
  | CallSetFramebuffer (sender : Z) (h : nat) (framebuffer : Z)
  | CallSetPosition (sender : Z) (h : nat) (x y : Z)
  | CallSetZ (sender : Z) (h : nat) (z : Z)
  | CallSetVisible (sender : Z) (h : nat) (visible : bool)
  | CallDropLayer (h : nat)
  | Tick.

Record Service := mkService {
  sv_comp : Compositor;
  sv_fbs : list (option FrameBufferResource);
  sv_layers : list (option LayerResource);
}.

Definition with_comp (sv : Service) (c : Compositor) : Service := mkService c (sv_fbs sv) (sv_layers sv).

(** A call to a resource: one that is gone has no effect. *)
Definition with_resource {R} (rs : list (option R)) (h : nat) (sv : Service) (f : R → exec Service) : exec Service :=
  match rs !! h with Some (Some r) => f r | _ => Ret sv end.

Definition set_layer {E} (sv : Service) (h : nat) (f : LayerResource → exec (result () E * Compositor)) : exec Service :=
  with_resource (sv_layers sv) h sv (λ r, let! a := f r in Ret (with_comp sv a.2)).

Definition compositor_serve (fuel : nat) (sv : Service) (call : Call) : exec Service :=
  let c := sv_comp sv in
  match call with
  | CallNewFb sender info seed_len seed room =>
      let '(r, c) := fb_new c sender info seed_len seed room in
      Ret (mkService c (match r with Ok r => sv_fbs sv ++ [Some r] | Err _ => sv_fbs sv end) (sv_layers sv))
  | CallWrite sender h seed_len seed =>
      with_resource (sv_fbs sv) h sv (λ r, let! a := fb_write c sender r seed_len seed in Ret (with_comp sv a.2))
  | CallDropFb h =>
      with_resource (sv_fbs sv) h sv (λ r, let! c := fb_drop c r in Ret (mkService c (<[h := None]> (sv_fbs sv)) (sv_layers sv)))
  | CallNewLayer sender framebuffer x y z =>
      let '(r, c) := layer_new c sender framebuffer x y z in
      Ret (mkService c (sv_fbs sv) (match r with Ok r => sv_layers sv ++ [Some r] | Err _ => sv_layers sv end))
  | CallSetFramebuffer sender h framebuffer => set_layer sv h (λ r, set_framebuffer c sender r framebuffer)
  | CallSetPosition sender h x y => set_layer sv h (λ r, set_position c sender r x y)
  | CallSetZ sender h z => set_layer sv h (λ r, set_z c sender r z)
  | CallSetVisible sender h visible => set_layer sv h (λ r, set_visible c sender r visible)
  | CallDropLayer h =>
      with_resource (sv_layers sv) h sv (λ r, let! c := layer_drop c r in Ret (mkService c (sv_fbs sv) (<[h := None]> (sv_layers sv))))
  | Tick => let! c := render_frame fuel c in Ret (with_comp sv c)
  end.

Definition service_new : Service := mkService compositor_new [] [].

Definition serve_all (fuel : nat) (calls : list Call) (sv : Service) : exec Service := for_each calls (λ call sv, compositor_serve fuel sv call) sv.
