(* ===== verification/CompositorProps.v ===== *)
(** The compositor shows, at every pixel of the display, the topmost visible layer that
    covers it, whatever its clients have called, and never panics. *)

From S2P Require Import Prelude BTree Graphics GraphicsProps Compositor.

Open Scope Z_scope.

(** * What is to be seen *)

(** The colour that a layer has at a pixel of the display: none where it is hidden, has no
    frame buffer or does not reach. *)
Definition covering (c : Compositor) (i : nat) (x y : Z) : option Color :=
  match cp_layers c !! i with
  | Some (Some l) =>
      if ly_visible l then
        match find_image (cp_slots c) (ly_framebuffer_id l) with
        | Some im => if inside (sf_size im) (x - ly_x l) (y - ly_y l) then Some (pic im (x - ly_x l) (y - ly_y l)) else None
        | None => None
        end
      else None
  | _ => None
  end.

Definition height (c : Compositor) (i : nat) : Z := match cp_layers c !! i with Some (Some l) => ly_z l | _ => 0 end.

(** Layers are ordered by height, and by their slots where the heights are the same. *)
Definition below (c : Compositor) (j i : nat) : Prop := height c j < height c i ∨ (height c j = height c i ∧ (j < i)%nat).

(** The layer that is seen at a pixel. *)
Definition on_top (c : Compositor) (x y : Z) (i : nat) (col : Color) : Prop :=
  covering c i x y = Some col ∧ ∀ j, j ≠ i → covering c j x y ≠ None → below c j i.

(** Whether the display lights a pixel: eight rows are a page, of a byte per column. *)
Definition lit (out : list Z) (x y : Z) : bool := Z.testbit (nth (Z.to_nat (y / 8 * DISPLAY_WIDTH + x)) out 0) (y mod 8).

Definition on_display (x y : Z) : Prop := 0 <= x < DISPLAY_WIDTH ∧ 0 <= y < DISPLAY_HEIGHT.

(** * The state *)

Definition is_i16 (x : Z) : Prop := - 2 ^ 15 <= x < 2 ^ 15.

Definition image_ok (im : Surface) : Prop := surface_ok im ∧ 0 < s_w (sf_size im) <= MAX_IMAGE_DIM ∧ 0 < s_h (sf_size im) <= MAX_IMAGE_DIM.

Definition slot_ok (s : option FrameBufferEntry) : Prop := match s with Some e => image_ok (fb_image e) | None => True end.
Definition layer_ok (s : option LayerEntry) : Prop := match s with Some l => is_i16 (ly_x l) ∧ is_i16 (ly_y l) | None => True end.

Definition display_frame : Surface := image_new (mkSize DISPLAY_WIDTH DISPLAY_HEIGHT) Mono.

Definition comp_ok (c : Compositor) : Prop :=
  Forall slot_ok (cp_slots c) ∧ Forall layer_ok (cp_layers c) ∧ like display_frame (cp_frame c) ∧ length (cp_out c) = Z.to_nat DISPLAY_BUF_SIZE.

Lemma find_image_ok slots fid im : Forall slot_ok slots → find_image slots fid = Some im → image_ok im.
Proof.
  intros Hs. unfold find_image. destruct (List.find _ _) as [e|] eqn:E; [|done]. intros [= <-]. apply find_some in E as [Hin _]. apply list_elem_of_In, list_elem_of_omap in Hin as (s & Hin & ->).
  rewrite Forall_forall in Hs. exact (Hs (Some e) Hin).
Qed.

(** * The layers *)

(** A layer, drawn. *)
Definition over (c : Compositor) (x y : Z) (acc : Color) (e : nat * Z) : Color :=
  match covering c e.1 x y with Some col => shown Mono (mkPoint x y) col | None => acc end.

Definition drawable (c : Compositor) (e : nat * Z) : Prop := ∃ l, cp_layers c !! e.1 = Some (Some l) ∧ ly_visible l = true ∧ e.2 = ly_z l.

Lemma draw_layer_ok c e frame :
  comp_ok c → drawable c e → like display_frame frame →
  ∃ frame', draw_layer c e frame = Ret frame' ∧ like display_frame frame' ∧ ∀ x y, inside (sf_size display_frame) x y = true → pic frame' x y = over c x y (pic frame x y) e.
Proof.
  intros (Hs & Hl & _ & _) (l & El & Ev & _) Hf. unfold draw_layer, over, covering. rewrite (idx_ok _ _ _ El). cbn [ebind]. rewrite El, Ev.
  destruct (find_image _ _) as [im|] eqn:Ei; [|by exists frame]. destruct (find_image_ok _ _ _ Hs Ei) as (Hok & Hw & Hh). unfold MAX_IMAGE_DIM in Hw, Hh.
  rewrite Forall_lookup in Hl. destruct (Hl _ _ El) as [Hx Hy]. unfold is_i16 in Hx, Hy.
  destruct (paints_pic display_frame _ _ _ frame (draw_image_paints display_frame im (mkPoint (ly_x l) (ly_y l)) Hok ltac:(unfold small; cbn; lia) ltac:(unfold small; cbn; lia) ltac:(lia) ltac:(lia) ltac:(change (s_w (sf_size display_frame)) with 128; lia)) Hf)
    as (f' & E & L & H).
  exists f'. split; [done|]. split; [done|]. intros x y Hin. rewrite H by done. cbn [p_x p_y]. by destruct (inside (sf_size im) _ _).
Qed.

Lemma draw_layers_ok c l frame :
  comp_ok c → Forall (drawable c) l → like display_frame frame →
  ∃ frame', for_each l (draw_layer c) frame = Ret frame' ∧ like display_frame frame' ∧ ∀ x y, inside (sf_size display_frame) x y = true → pic frame' x y = foldl (over c x y) (pic frame x y) l.
Proof.
  intros Hc Hl. revert frame. induction Hl as [|e l He _ IH]; intros frame Hf; [by exists frame|]. cbn [for_each foldl].
  destruct (draw_layer_ok c e frame Hc He Hf) as (f1 & -> & L1 & H1). cbn [ebind]. destruct (IH f1 L1) as (f2 & E2 & L2 & H2). exists f2. split; [done|]. split; [done|]. intros x y Hin. by rewrite H2, H1.
Qed.

(** ** The order of the layers *)

Lemma visible_layers_drawable c e : e ∈ visible_layers (cp_layers c) ↔ drawable c e.
Proof.
  unfold visible_layers, drawable. rewrite list_elem_of_omap. split.
  - intros ([i s] & Hin & E). apply elem_of_lookup_imap in Hin as (i' & s' & [= -> ->] & Hi). destruct s' as [l|]; [|done]. unfold visible_entry in E. cbn in E. destruct (ly_visible l) eqn:Ev; [|done]. injection E as <-. by exists l.
  - intros (l & El & Ev & Ez). exists (e.1, Some l). split; [apply elem_of_lookup_imap; by exists e.1, (Some l)|]. unfold visible_entry. cbn. rewrite Ev, <- Ez. by destruct e.
Qed.

Lemma visible_layers_sorted layers : StronglySorted (λ a b : nat * Z, (a.1 < b.1)%nat) (visible_layers layers).
Proof.
  unfold visible_layers. set (from k layers := omap visible_entry (imap (λ i s, ((k + i)%nat, s)) layers)).
  enough (∀ k, StronglySorted (λ a b : nat * Z, (a.1 < b.1)%nat) (from k layers) ∧ Forall (λ e : nat * Z, (k <= e.1)%nat) (from k layers)) as H by exact (proj1 (H 0%nat)).
  induction layers as [|s layers IH]; intros k; [by repeat constructor|]. destruct (IH (S k)) as [H1 H2].
  assert (from k (s :: layers) = match visible_entry (k, s) with Some e => e :: from (S k) layers | None => from (S k) layers end) as ->.
  { unfold from. rewrite imap_cons, Nat.add_0_r. cbn [omap list_omap]. erewrite imap_ext; [reflexivity|]. intros i x _. cbn. f_equal. lia. }
  assert (Forall (λ e : nat * Z, (k <= e.1)%nat) (from (S k) layers)) as H3 by (eapply Forall_impl; [exact H2|]; intros; cbn in *; lia).
  unfold visible_entry. cbn. destruct s as [l|]; [|done]. destruct (ly_visible l); [|done]. split; constructor; done || (cbn; lia).
Qed.

Lemma draw_order_sorted layers : StronglySorted (λ a b : nat * Z, a.2 < b.2 ∨ (a.2 = b.2 ∧ (a.1 < b.1)%nat)) (draw_order layers).
Proof.
  pose proof (sort_by_stable (λ a b : nat * Z, bool_decide (a.2 <= b.2)) _ _ ltac:(intros a b H%bool_decide_eq_false; apply bool_decide_eq_true; lia)
    ltac:(intros a b d H1%bool_decide_eq_true H2%bool_decide_eq_true; apply bool_decide_eq_true; lia) (visible_layers_sorted layers)) as H. fold (draw_order layers) in H.
  induction H as [|a l Hl IH Ha]; constructor; [done|]. eapply Forall_impl; [exact Ha|]. intros b [Hb%bool_decide_eq_true HR]. destruct (decide (a.2 = b.2)) as [E|]; [right|left; lia]. split; [done|]. apply HR, bool_decide_eq_true. lia.
Qed.

(** ** The topmost layer *)

Lemma over_none c x y l acc : (∀ e, e ∈ l → covering c e.1 x y = None) → foldl (over c x y) acc l = acc.
Proof. revert acc. induction l as [|e l IH]; intros acc H; [done|]. cbn. rewrite IH by (intros e' He'; apply H; by right). unfold over. by rewrite H by (by left). Qed.

Lemma covering_visible c i x y col : covering c i x y = Some col → ∃ e, e ∈ draw_order (cp_layers c) ∧ e.1 = i.
Proof.
  unfold covering. destruct (cp_layers c !! i) as [[l|]|] eqn:El; try done. destruct (ly_visible l) eqn:Ev; [|done]. intros _. exists (i, ly_z l). split; [|done]. unfold draw_order. rewrite sort_by_perm.
  apply visible_layers_drawable. by exists l.
Qed.

Lemma drawable_height c e : drawable c e → e.2 = height c e.1.
Proof. intros (l & El & _ & ->). unfold height. by rewrite El. Qed.

Lemma draw_order_drawable c : Forall (drawable c) (draw_order (cp_layers c)).
Proof. unfold draw_order. rewrite sort_by_perm. apply Forall_forall. intros e He. by apply visible_layers_drawable. Qed.

Lemma over_top c x y i col acc : on_top c x y i col → foldl (over c x y) acc (draw_order (cp_layers c)) = shown Mono (mkPoint x y) col.
Proof.
  intros [Hc Ht]. destruct (covering_visible c i x y col Hc) as (e & Hin & <-). pose proof (draw_order_sorted (cp_layers c)) as Hs. pose proof (draw_order_drawable c) as Hd.
  apply list_elem_of_split in Hin as (l1 & l2 & El). rewrite El in Hs, Hd |- *. rewrite foldl_app. cbn [foldl]. rewrite over_none; [unfold over; by rewrite Hc|].
  intros b Hb. apply StronglySorted_app_1_r in Hs. apply StronglySorted_inv in Hs as [_ Hs]. rewrite Forall_forall in Hs, Hd. specialize (Hs b Hb).
  pose proof (drawable_height c b ltac:(apply Hd, elem_of_app; right; by right)) as Eb. pose proof (drawable_height c e ltac:(apply Hd, elem_of_app; right; by left)) as Ee.
  destruct (covering c b.1 x y) eqn:E; [|done]. exfalso. destruct (decide (b.1 = e.1)) as [E1|E1]; [rewrite E1 in Eb; lia|]. destruct (Ht b.1 E1 ltac:(by rewrite E)); lia.
Qed.

(** * The bytes of the display *)

Lemma page_byte_loop src page col l acc :
  surface_ok src → Forall (λ bit, 0 <= bit ∧ inside (sf_size src) col (page * 8 + bit) = true) l →
  ∃ byte, for_each l (λ bit byte, let! p := read_pixel src (mkPoint col (page * 8 + bit)) in Ret (if decide (p = Black) then Z.lor byte (Z.shiftl 1 bit) else byte)) acc = Ret byte ∧
    ∀ k, 0 <= k → Z.testbit byte k = Z.testbit acc k || (bool_decide (k ∈ l) && bool_decide (pic src col (page * 8 + k) = Black)).
Proof.
  intros Hs Hl. revert acc. induction Hl as [|bit l [Hb Hin] _ IH]; intros acc.
  - exists acc. split; [done|]. intros k _. rewrite (bool_decide_eq_false_2 (k ∈ [])) by apply not_elem_of_nil. by rewrite orb_false_r.
  - cbn [for_each]. rewrite read_pixel_ok by done. cbn [ebind]. set (acc1 := if decide _ then _ else acc). destruct (IH acc1) as (byte & E & H). exists byte. split; [done|]. intros k Hk. rewrite H by done.
    assert (Z.testbit acc1 k = Z.testbit acc k || (bool_decide (k = bit) && bool_decide (pic src col (page * 8 + k) = Black))) as ->.
    { unfold acc1. destruct (decide (k = bit)) as [->|Hne]; [rewrite (bool_decide_eq_true_2 (bit = bit)) by done|rewrite (bool_decide_eq_false_2 (k = bit)) by done]; case_decide as Hc.
      - rewrite (bool_decide_eq_true_2 (pic _ _ _ = _)) by done. rewrite Z.lor_spec, Z.shiftl_1_l, Z.pow2_bits_eqb, Z.eqb_refl by done. done.
      - rewrite (bool_decide_eq_false_2 (pic _ _ _ = _)) by done. by rewrite andb_false_r, orb_false_r.
      - rewrite Z.lor_spec, Z.shiftl_1_l, Z.pow2_bits_eqb by done. by rewrite (proj2 (Z.eqb_neq bit k)) by done.
      - by rewrite orb_false_r. }
    rewrite (bool_decide_ext (k ∈ bit :: l) (k = bit ∨ k ∈ l)) by apply elem_of_cons. rewrite bool_decide_or. by destruct (Z.testbit acc k), (bool_decide (k = bit)), (bool_decide (k ∈ l)), (bool_decide (pic _ _ _ = _)).
Qed.

Lemma page_byte_ok src page col :
  surface_ok src → (∀ k, 0 <= k < 8 → inside (sf_size src) col (page * 8 + k) = true) →
  ∃ byte, page_byte src page col = Ret byte ∧ ∀ k, 0 <= k < 8 → Z.testbit byte k = bool_decide (pic src col (page * 8 + k) = Black).
Proof.
  intros Hs Hin. destruct (page_byte_loop src page col (range 0 8) 0 Hs) as (byte & E & H).
  - apply Forall_forall. intros k Hk%elem_range. split; [lia|]. by apply Hin.
  - exists byte. split; [done|]. intros k Hk. rewrite H by lia. rewrite Z.testbit_0_l, (bool_decide_eq_true_2 (k ∈ _)) by (by apply elem_range). done.
Qed.

(** The place of a byte, and what it is to be. *)
Definition cell (page col : Z) : nat := Z.to_nat (page * DISPLAY_WIDTH + col).
Definition cell_shows (src : Surface) (page col byte : Z) : Prop := ∀ k, 0 <= k < 8 → Z.testbit byte k = bool_decide (pic src col (page * 8 + k) = Black).
Definition is_cell (page col : Z) : Prop := 0 <= page < DISPLAY_PAGES ∧ 0 <= col < DISPLAY_WIDTH.

Lemma cell_inj p c p' c' : is_cell p c → is_cell p' c' → cell p c = cell p' c' → p = p' ∧ c = c'.
Proof. unfold is_cell, cell, DISPLAY_WIDTH. lia. Qed.

Lemma cell_lt p c : is_cell p c → (cell p c < Z.to_nat DISPLAY_BUF_SIZE)%nat.
Proof. unfold is_cell, cell, DISPLAY_BUF_SIZE, DISPLAY_PAGES, DISPLAY_WIDTH, DISPLAY_HEIGHT. change (64 / 8) with 8. lia. Qed.

(** The cells of some places show the picture. *)
Definition cells_show (src : Surface) (done_ : Z → Z → Prop) (out : list Z) : Prop :=
  length out = Z.to_nat DISPLAY_BUF_SIZE ∧ ∀ p c, is_cell p c → done_ p c → ∃ b, out !! cell p c = Some b ∧ cell_shows src p c b.

Section display.
Context (src : Surface).
Hypothesis src_ok : like display_frame src.

Lemma src_inside page col k : is_cell page col → 0 <= k < 8 → inside (sf_size src) col (page * 8 + k) = true.
Proof.
  intros [Hp Hc] Hk. destruct src_ok as (-> & _). apply bool_decide_eq_true. change (sf_size display_frame) with (mkSize 128 64). unfold DISPLAY_PAGES, DISPLAY_WIDTH, DISPLAY_HEIGHT in *. change (64 / 8) with 8 in *. cbn. lia.
Qed.

Lemma column_loop page l D out :
  Forall (is_cell page) l → cells_show src D out →
  ∃ out', for_each l (λ col out, let! byte := page_byte src page col in set_idx out (Z.to_nat (page * DISPLAY_WIDTH + col)) byte) out = Ret out' ∧
    cells_show src (λ p c, D p c ∨ (p = page ∧ c ∈ l)) out'.
Proof.
  intros Hl. revert D out. induction Hl as [|col l Hc _ IH]; intros D out Ho.
  - exists out. split; [done|]. destruct Ho as [H1 H2]. split; [done|]. intros p c Hpc [?|[_ []%not_elem_of_nil]]. by apply H2.
  - destruct src_ok as (_ & _ & _ & _ & _ & Hok). destruct (page_byte_ok src page col Hok (λ k, src_inside page col k Hc)) as (byte & E & Hb). destruct Ho as [H1 H2]. cbn [for_each]. rewrite E. cbn [ebind]. fold (cell page col).
    rewrite set_idx_ok by (rewrite H1; by apply cell_lt). cbn [ebind].
    destruct (IH (λ p c, D p c ∨ (p = page ∧ c = col)) (<[cell page col := byte]> out)) as (out' & E' & G1 & G2).
    { split; [by rewrite length_insert|]. intros p c Hpc Hd. destruct (decide (p = page ∧ c = col)) as [[-> ->]|Hne].
      - exists byte. split; [|done]. apply list_lookup_insert_eq. rewrite H1. by apply cell_lt.
      - rewrite list_lookup_insert_ne by (intros Heq; apply Hne; by apply cell_inj). apply H2; [done|]. tauto. }
    exists out'. split; [done|]. split; [done|]. intros p c Hpc [Hd|[Hp Hin]]; apply G2; [done|tauto|done|]. apply elem_of_cons in Hin. tauto.
Qed.

Lemma page_loop l D out :
  Forall (λ page, 0 <= page < DISPLAY_PAGES) l → cells_show src D out →
  ∃ out', for_each l (λ page, for_each (range 0 DISPLAY_WIDTH) (λ col out, let! byte := page_byte src page col in set_idx out (Z.to_nat (page * DISPLAY_WIDTH + col)) byte)) out = Ret out' ∧
    cells_show src (λ p c, D p c ∨ p ∈ l) out'.
Proof.
  intros Hl. revert D out. induction Hl as [|page l Hp _ IH]; intros D out Ho.
  - exists out. split; [done|]. destruct Ho as [H1 H2]. split; [done|]. intros p c Hpc [?|[]%not_elem_of_nil]. by apply H2.
  - cbn [for_each]. destruct (column_loop page (range 0 DISPLAY_WIDTH) D out) as (out1 & E1 & H1); [apply Forall_forall; intros col Hc%elem_range; by split|done|]. rewrite E1. cbn [ebind].
    destruct (IH _ out1 H1) as (out' & E & G1 & G2). exists out'. split; [done|]. split; [done|]. intros p c Hpc Hd. apply G2; [done|]. rewrite elem_of_cons in Hd.
    destruct Hd as [|[->|]]; [tauto| |tauto]. left. right. split; [done|]. apply elem_range, Hpc.
Qed.

Lemma mono_to_ssd1312_ok out :
  length out = Z.to_nat DISPLAY_BUF_SIZE →
  ∃ out', mono_to_ssd1312 src out = Ret out' ∧ length out' = Z.to_nat DISPLAY_BUF_SIZE ∧ ∀ x y, on_display x y → lit out' x y = bool_decide (pic src x y = Black).
Proof.
  intros Hl. destruct (page_loop (range 0 DISPLAY_PAGES) (λ _ _, False) (replicate (length out) 0)) as (out' & E & H1 & H2).
  - apply Forall_forall. intros p Hp%elem_range. done.
  - split; [by rewrite length_replicate|done].
  - exists out'. split; [done|]. split; [done|]. intros x y [Hx Hy]. unfold DISPLAY_WIDTH, DISPLAY_HEIGHT in *. assert (0 <= y / 8 < 8 ∧ 0 <= y mod 8 < 8 ∧ y / 8 * 8 + y mod 8 = y) as (Hd & Hm & Ey) by (Z.to_euclidean_division_equations; lia).
    destruct (H2 (y / 8) x) as (b & Eb & Hb); [by split|right; by apply elem_range|]. unfold lit. rewrite nth_lookup. fold (cell (y / 8) x). rewrite Eb. cbn [default from_option]. rewrite Hb by done. by rewrite Ey.
Qed.
End display.

(** * A frame *)

Lemma display_frame_ok : surface_ok display_frame.
Proof.
  split_and!; [vm_compute; done..|]. apply Forall_replicate. unfold is_u. lia.
Qed.

Lemma render_frame_ok fuel c :
  comp_ok c → DISPLAY_WIDTH < Z.of_nat fuel →
  ∃ c', render_frame fuel c = Ret c' ∧ cp_slots c' = cp_slots c ∧ cp_next_id c' = cp_next_id c ∧ cp_layers c' = cp_layers c ∧ like display_frame (cp_frame c') ∧ length (cp_out c') = Z.to_nat DISPLAY_BUF_SIZE ∧
    ∀ x y, on_display x y → lit (cp_out c') x y = bool_decide (foldl (over c x y) White (draw_order (cp_layers c)) = Black).
Proof.
  intros Hc Hf. pose proof Hc as (_ & _ & Hlike & Hout). pose proof Hlike as (E1 & E2 & _ & _ & _ & Hok). unfold render_frame.
  destruct (clear_ok fuel (cp_frame c) White Hok) as (f1 & -> & L1 & H1); [rewrite E1; change (s_w (sf_size display_frame)) with 128; unfold DISPLAY_WIDTH in *; lia|rewrite E1; change (s_h (sf_size display_frame)) with 64; lia|rewrite E1; exact Hf|].
  cbn [ebind]. pose proof (like_trans _ _ _ Hlike L1) as L1'. destruct (draw_layers_ok c _ f1 Hc (draw_order_drawable c) L1') as (f2 & -> & L2 & H2). cbn [ebind].
  destruct (mono_to_ssd1312_ok f2 L2 (cp_out c) Hout) as (out & -> & Hl & H3). cbn [ebind]. eexists. split; [reflexivity|]. cbn. split_and!; try done. intros x y Hxy. rewrite H3 by done.
  assert (inside (sf_size display_frame) x y = true) as Hin by (apply bool_decide_eq_true; exact Hxy). rewrite H2 by done. rewrite H1 by (by rewrite E1). rewrite E2. done.
Qed.

(** * The topmost layer exists *)

Lemma last_covering c x y (l : list (nat * Z)) : (∀ e, e ∈ l → covering c e.1 x y = None) ∨ ∃ l1 e l2 col, l = l1 ++ e :: l2 ∧ covering c e.1 x y = Some col ∧ ∀ b, b ∈ l2 → covering c b.1 x y = None.
Proof.
  induction l as [|e l IH]; [left; by intros e []%not_elem_of_nil|]. destruct IH as [H|(l1 & b & l2 & col & -> & Hb & H2)]; [|right; by exists (e :: l1), b, l2, col].
  destruct (covering c e.1 x y) as [col|] eqn:E; [right; by exists [], e, l, col|left]. intros b [->|Hb]%elem_of_cons; [done|by apply H].
Qed.

(** What is seen at a pixel: the topmost layer there, or nothing, which is white. *)
Definition shows (c : Compositor) (x y : Z) (b : bool) : Prop :=
  (∃ i col, on_top c x y i col ∧ b = color_to_mono (mkPoint x y) col) ∨ ((∀ i, covering c i x y = None) ∧ b = false).

Lemma top_or_none c x y : (∃ i col, on_top c x y i col) ∨ ∀ i, covering c i x y = None.
Proof.
  destruct (last_covering c x y (draw_order (cp_layers c))) as [H|(l1 & e & l2 & col & El & He & H2)].
  - right. intros i. destruct (covering c i x y) as [col|] eqn:E; [|done]. destruct (covering_visible c i x y col E) as (e & Hin & <-). by rewrite H in E.
  - left. exists e.1, col. split; [done|]. intros j Hj Hc. destruct (covering c j x y) as [col'|] eqn:E; [|done]. destruct (covering_visible c j x y col' E) as (b & Hin & <-).
    pose proof (draw_order_sorted (cp_layers c)) as Hs. pose proof (draw_order_drawable c) as Hd. rewrite Forall_forall in Hd.
    pose proof (drawable_height c b (Hd b Hin)) as Hb. assert (e ∈ draw_order (cp_layers c)) as He' by (rewrite El; apply elem_of_app; right; by left). pose proof (drawable_height c e (Hd e He')) as Hh.
    rewrite El in Hs, Hin. apply elem_of_app in Hin as [Hin|[->|Hin]%elem_of_cons]; [|done|by rewrite H2 in E].
    pose proof (StronglySorted_app_1_elem_of _ _ _ _ _ Hs Hin ltac:(by left)) as R. unfold below. cbn in R. rewrite <- Hb, <- Hh. exact R.
Qed.

Lemma shown_mono p col : bool_decide (shown Mono p col = Black) = color_to_mono p col.
Proof. cbn. by destruct (color_to_mono p col). Qed.

Lemma frame_shows c x y : shows c x y (bool_decide (foldl (over c x y) White (draw_order (cp_layers c)) = Black)).
Proof.
  destruct (top_or_none c x y) as [(i & col & Ht)|Hn].
  - left. exists i, col. split; [done|]. rewrite (over_top c x y i col) by done. apply shown_mono.
  - right. split; [done|]. rewrite over_none; [done|]. intros e _. apply Hn.
Qed.

(** * Resources and their slots *)

(** The resources that are alive have the slots that are taken, one each. *)
Definition held {R E} (slot : R → nat) (P : R → E → Prop) (rs : list (option R)) (slots : list (option E)) : Prop :=
  (∀ h r, rs !! h = Some (Some r) → ∃ e, slots !! slot r = Some (Some e) ∧ P r e) ∧
  (∀ h h' r r', rs !! h = Some (Some r) → rs !! h' = Some (Some r') → slot r = slot r' → h = h') ∧
  (∀ i e, slots !! i = Some (Some e) → ∃ h r, rs !! h = Some (Some r) ∧ slot r = i).

Lemma first_free_ok {A} (slots : list (option A)) k i : first_free slots k = Some i → ∃ j, i = (k + j)%nat ∧ slots !! j = Some None.
Proof.
  revert k. induction slots as [|[a|] slots IH]; intros k; [done| |].
  - intros H. destruct (IH (S k) H) as (j & -> & Hj). exists (S j). split; [lia|done].
  - intros [= <-]. exists 0%nat. split; [lia|done].
Qed.

Section held.
Context {R E : Type} (slot : R → nat) (P : R → E → Prop).

Lemma held_new rs slots r e : held slot P rs slots → slots !! slot r = Some None → P r e → held slot P (rs ++ [Some r]) (<[slot r := Some e]> slots).
Proof.
  intros (H1 & H2 & H3) Hf HP. pose proof (lookup_lt_Some _ _ _ Hf) as Hlt.
  assert (∀ h r', (rs ++ [Some r]) !! h = Some (Some r') → (rs !! h = Some (Some r') ∧ slot r' ≠ slot r) ∨ (h = length rs ∧ r' = r)) as Hcase.
  { intros h r' Hh. apply lookup_app_Some in Hh as [Hh|[Hge Hh]].
    - left. split; [done|]. intros Heq. destruct (H1 h r' Hh) as (e' & He' & _). rewrite Heq in He'. congruence.
    - right. apply list_lookup_singleton_Some in Hh as [Hz [= ->]]. split; [lia|done]. }
  split_and!.
  - intros h r' Hh. destruct (Hcase h r' Hh) as [[Hr Hne]|[-> ->]].
    + rewrite list_lookup_insert_ne by done. by apply (H1 h).
    + exists e. by rewrite list_lookup_insert_eq.
  - intros h h' r1 r2 Hh Hh' Heq. destruct (Hcase _ _ Hh) as [[Hr Hne]|[-> ->]], (Hcase _ _ Hh') as [[Hr' Hne']|[-> ->]]; [by apply (H2 h h' r1 r2)|done..].
  - intros i e' Hi. destruct (decide (i = slot r)) as [->|Hne].
    + exists (length rs), r. by rewrite lookup_app_r, Nat.sub_diag by lia.
    + rewrite list_lookup_insert_ne in Hi by done. destruct (H3 i e' Hi) as (h & r' & Hr & Hs). exists h, r'. split; [|done]. by apply lookup_app_l_Some.
Qed.

Lemma held_update rs slots r e e' : held slot P rs slots → slots !! slot r = Some (Some e) → (∀ r', P r' e → P r' e') → held slot P rs (<[slot r := Some e']> slots).
Proof.
  intros (H1 & H2 & H3) He HP. pose proof (lookup_lt_Some _ _ _ He) as Hlt. split_and!; [|done|].
  - intros h r' Hr. destruct (H1 h r' Hr) as (e0 & He0 & HP0). destruct (decide (slot r' = slot r)) as [Heq|Hne].
    + exists e'. rewrite Heq, list_lookup_insert_eq by done. split; [done|]. apply HP. congruence.
    + exists e0. by rewrite list_lookup_insert_ne.
  - intros i x Hi. destruct (decide (i = slot r)) as [->|Hne]; [by apply (H3 _ e)|]. rewrite list_lookup_insert_ne in Hi by done. by apply (H3 i x).
Qed.

Lemma held_drop rs slots h r : held slot P rs slots → rs !! h = Some (Some r) → held slot P (<[h := None]> rs) (<[slot r := None]> slots).
Proof.
  intros (H1 & H2 & H3) Hr. pose proof (lookup_lt_Some _ _ _ Hr) as Hlt. destruct (H1 h r Hr) as (e & He & _). pose proof (lookup_lt_Some _ _ _ He) as Hlt'.
  assert (∀ h' r', <[h := None]> rs !! h' = Some (Some r') → h' ≠ h ∧ rs !! h' = Some (Some r')) as Hcase.
  { intros h' r' Hh'. destruct (decide (h' = h)) as [->|Hne]; [by rewrite list_lookup_insert_eq in Hh'|]. by rewrite list_lookup_insert_ne in Hh'. }
  split_and!.
  - intros h' r' Hh'. apply Hcase in Hh' as [Hne Hh']. rewrite list_lookup_insert_ne; [by apply (H1 h')|]. intros Heq. apply Hne. by apply (H2 h' h r' r).
  - intros h1 h2 r1 r2 Hh1 Hh2. apply Hcase in Hh1 as [_ Hh1]. apply Hcase in Hh2 as [_ Hh2]. by apply H2.
  - intros i x Hi. destruct (decide (i = slot r)) as [->|Hne]; [by rewrite list_lookup_insert_eq in Hi|]. rewrite list_lookup_insert_ne in Hi by done. destruct (H3 i x Hi) as (h' & r' & Hr' & Hs). exists h', r'.
    split; [|done]. rewrite list_lookup_insert_ne; [done|]. intros <-. congruence.
Qed.
End held.

(** * Images of frame buffers *)

(** What a lease has, when it can be read. *)
Definition seed_ok (len : Z) (seed : option (list Z)) : Prop := match seed with Some bytes => Z.of_nat (length bytes) = len ∧ bytes_ok bytes | None => True end.

Lemma seeded_ok im seed : image_ok im → seed_ok (Z.of_nat (length (sf_data im))) seed → image_ok (seeded im seed).
Proof.
  intros (Hs & Hw & Hh) Hseed. destruct seed as [bytes|]; [|done]. destruct Hseed as [Hl Hb]. split; [|done]. destruct Hs as (S1 & S2 & S3 & S4 & S5 & S6 & S7 & S8 & _). unfold seeded, surface_ok. cbn. rewrite Hl. split_and!; try done; lia.
Qed.

(** The lengths that clients and the compositor compute are the same. *)
Lemma image_lengths w h f :
  0 < w <= MAX_IMAGE_DIM → 0 < h <= MAX_IMAGE_DIM →
  let p := (w * format_bits f + 7) / 8 in
  pitch_for (mkSize w h) f = p ∧ usize (usize h * pitch_for (mkSize w h) f) = h * p ∧ data_len (mkInfo f w h) = h * p ∧ 0 <= p <= MAX_IMAGE_DIM ∧ w * format_bits f <= 8 * p.
Proof.
  intros Hw Hh p. unfold MAX_IMAGE_DIM in Hw, Hh |- *. assert (1 <= format_bits f <= 8) as Hf by (destruct f; cbn; lia). assert (0 <= w * format_bits f <= 32768) as Hb by nia.
  assert (0 <= p <= 4096 ∧ w * format_bits f <= 8 * p) as [Hp Hp'] by (unfold p; Z.to_euclidean_division_equations; lia). assert (0 <= h * p <= 16777216) as Hhp by nia.
  assert (pitch_for (mkSize w h) f = p) as Ep by (unfold pitch_for; cbn [s_w]; rewrite (usize_small w) by lia; rewrite !usize_small by (rewrite ?usize_small; lia); reflexivity).
  assert (info_pitch (mkInfo f w h) = p) as Ei by (unfold info_pitch; cbn [fi_width fi_format]; rewrite (Z.min_r _ (w * _)) by lia; rewrite (Z.min_r _ (_ + 7)) by lia; apply Z.min_r; unfold p in Hp; lia).
  split; [done|]. rewrite Ep. split; [rewrite (usize_small h) by lia; apply usize_small; lia|]. split; [|done]. unfold data_len. rewrite Ei. cbn [fi_height]. rewrite (Z.mul_comm p h). rewrite (Z.min_r _ (h * p)) by lia. apply Z.min_r. lia.
Qed.

Lemma make_image_ok w h f im :
  0 < w <= MAX_IMAGE_DIM → 0 < h <= MAX_IMAGE_DIM → try_make_image_size (mkSize w h) f true = Some im → image_ok im ∧ Z.of_nat (length (sf_data im)) = data_len (mkInfo f w h).
Proof.
  intros Hw Hh. destruct (image_lengths w h f Hw Hh) as (E1 & E2 & E3 & Hp & Hp'). unfold try_make_image_size. cbn [s_h]. rewrite E2. unfold from_vec. cbn [s_h]. rewrite E2, length_replicate. set (p := (w * format_bits f + 7) / 8) in *.
  unfold MAX_IMAGE_DIM in *. assert (0 <= h * p <= 16777216) as Hhp by nia. case_decide; [lia|]. intros [= <-]. split; [|cbn; rewrite length_replicate, E3; lia].
  split; [|by cbn]. unfold surface_ok. cbn. rewrite E1, length_replicate. split_and!; try lia. apply Forall_replicate. unfold is_u. lia.
Qed.

(** * The invariant *)

Definition fb_held : list (option FrameBufferResource) → list (option FrameBufferEntry) → Prop := held fr_slot (λ r e, fb_id e = fr_id r).
Definition layer_held : list (option LayerResource) → list (option LayerEntry) → Prop := held lr_slot (λ _ _, True).

Definition service_ok (sv : Service) : Prop := comp_ok (sv_comp sv) ∧ fb_held (sv_fbs sv) (cp_slots (sv_comp sv)) ∧ layer_held (sv_layers sv) (cp_layers (sv_comp sv)).

(** What clients can send. *)
Definition call_ok (call : Call) : Prop :=
  match call with
  | CallNewFb _ info seed_len seed _ => is_u 32 (fi_width info) ∧ is_u 32 (fi_height info) ∧ seed_ok seed_len seed
  | CallWrite _ _ seed_len seed => seed_ok seed_len seed
  | CallNewLayer _ _ x y z => is_i16 x ∧ is_i16 y ∧ is_i16 z
  | CallSetPosition _ _ x y => is_i16 x ∧ is_i16 y
  | CallSetZ _ _ z => is_i16 z
  | _ => True
  end.

Lemma held_init {R E} (slot : R → nat) (P : R → E → Prop) n : held slot P [] (replicate n None).
Proof. split_and!; [done..|]. intros i e [H _]%lookup_replicate. done. Qed.

Lemma service_new_ok : service_ok service_new.
Proof.
  split; [|split; apply held_init]. split_and!; [by apply Forall_replicate..| |done]. apply like_refl, display_frame_ok.
Qed.

Lemma service_ok_intro c fbs layers :
  Forall slot_ok (cp_slots c) → Forall layer_ok (cp_layers c) → like display_frame (cp_frame c) → length (cp_out c) = Z.to_nat DISPLAY_BUF_SIZE →
  fb_held fbs (cp_slots c) → layer_held layers (cp_layers c) → service_ok (mkService c fbs layers).
Proof. done. Qed.

Section serve.
Context (sv : Service).
Hypothesis sv_ok : service_ok sv.

Lemma fb_new_ok sender info seed_len seed room :
  call_ok (CallNewFb sender info seed_len seed room) → ∀ fuel, ∃ sv', compositor_serve fuel sv (CallNewFb sender info seed_len seed room) = Ret sv' ∧ service_ok sv'.
Proof.
  intros (Hw & Hh & Hseed) fuel. unfold is_u in Hw, Hh. destruct sv_ok as (Hc & Hf & Hl). cbn [compositor_serve]. unfold fb_new.
  assert (service_ok (mkService (sv_comp sv) (sv_fbs sv) (sv_layers sv))) as Hsame by (by split_and!).
  case_decide as Hdim; [by eexists|]. case_decide as Hlen; [by eexists|]. destruct room; [|by eexists]. destruct (try_make_image_size _ _ true) as [im|] eqn:Ei; [|by eexists].
  unfold MAX_IMAGE_DIM in Hdim. destruct (make_image_ok (fi_width info) (fi_height info) _ im ltac:(unfold MAX_IMAGE_DIM; lia) ltac:(unfold MAX_IMAGE_DIM; lia) Ei) as [Him Hlim].
  destruct (first_free _ _) as [i|] eqn:Ef; [|by eexists]. apply first_free_ok in Ef as (j & -> & Hj). cbn [Nat.add] in *. eexists. split; [reflexivity|]. destruct Hc as (C1 & C2 & C3 & C4). apply service_ok_intro; cbn; [|done|done|done| |done].
  - apply Forall_insert; [done|]. apply seeded_ok; [done|]. rewrite Hlim. destruct info; cbn in *. by rewrite <- Hlen.
  - apply (held_new fr_slot _ (sv_fbs sv) (cp_slots (sv_comp sv)) (mkFbRes j sender (cp_next_id (sv_comp sv))) (mkFb (cp_next_id (sv_comp sv)) (seeded im seed))); done.
Qed.

Lemma fb_write_ok sender h seed_len seed fuel :
  call_ok (CallWrite sender h seed_len seed) → ∃ sv', compositor_serve fuel sv (CallWrite sender h seed_len seed) = Ret sv' ∧ service_ok sv'.
Proof.
  intros Hseed. pose proof sv_ok as (Hc & Hf & Hl). cbn [compositor_serve]. unfold with_resource. destruct (sv_fbs sv !! h) as [[r|]|] eqn:Eh; [|by exists sv..].
  destruct (proj1 Hf h r Eh) as (e & He & Hid). unfold fb_write. case_decide; [by exists sv; destruct sv|]. rewrite (idx_ok _ _ _ He). cbn [ebind]. case_decide as Hlen; [by exists sv; destruct sv|].
  rewrite set_idx_ok by (by eapply lookup_lt_Some). cbn [ebind]. eexists. split; [reflexivity|]. destruct Hc as (C1 & C2 & C3 & C4). apply service_ok_intro; cbn; [|done|done|done| |done].
  - apply Forall_insert; [done|]. apply seeded_ok; [|by rewrite <- Hlen]. rewrite Forall_lookup in C1. exact (C1 _ _ He).
  - by apply (held_update fr_slot _ _ _ _ e).
Qed.

Lemma fb_drop_ok h fuel : ∃ sv', compositor_serve fuel sv (CallDropFb h) = Ret sv' ∧ service_ok sv'.
Proof.
  pose proof sv_ok as (Hc & Hf & Hl). cbn [compositor_serve]. unfold with_resource. destruct (sv_fbs sv !! h) as [[r|]|] eqn:Eh; [|by exists sv..].
  destruct (proj1 Hf h r Eh) as (e & He & _). unfold fb_drop. rewrite set_idx_ok by (by eapply lookup_lt_Some). cbn [ebind]. eexists. split; [reflexivity|]. destruct Hc as (C1 & C2 & C3 & C4).
  apply service_ok_intro; cbn; [by apply Forall_insert|done|done|done| |done]. by apply held_drop.
Qed.

Lemma layer_new_ok sender fid x y z fuel : call_ok (CallNewLayer sender fid x y z) → ∃ sv', compositor_serve fuel sv (CallNewLayer sender fid x y z) = Ret sv' ∧ service_ok sv'.
Proof.
  intros (Hx & Hy & _). pose proof sv_ok as (Hc & Hf & Hl). cbn [compositor_serve]. unfold layer_new. assert (service_ok (mkService (sv_comp sv) (sv_fbs sv) (sv_layers sv))) as Hsame by (by split_and!).
  destruct (contains _ _); [|by eexists]. cbn [negb]. destruct (first_free _ _) as [i|] eqn:Ef; [|by eexists]. apply first_free_ok in Ef as (j & -> & Hj). cbn [Nat.add] in *.
  eexists. split; [reflexivity|]. destruct Hc as (C1 & C2 & C3 & C4). apply service_ok_intro; cbn; [done|by apply Forall_insert|done|done|done|].
  apply (held_new lr_slot _ (sv_layers sv) _ (mkLayerRes j sender)); [exact Hl|exact Hj|done].
Qed.

(** All the changes of a layer. *)
Lemma layer_update_ok h sender f :
  (∀ l, layer_ok (Some l) → layer_ok (Some (f l))) →
  ∃ sv', set_layer sv h (λ r, layer_update (sv_comp sv) sender r f) = Ret sv' ∧ service_ok sv'.
Proof.
  intros Hok. pose proof sv_ok as (Hc & Hf & Hl). unfold set_layer, with_resource. destruct (sv_layers sv !! h) as [[r|]|] eqn:Eh; [|by exists sv..].
  destruct (proj1 Hl h r Eh) as (l & El & _). unfold layer_update. case_decide; [by exists sv; destruct sv|]. rewrite (idx_ok _ _ _ El). cbn [ebind]. rewrite set_idx_ok by (by eapply lookup_lt_Some). cbn [ebind].
  eexists. split; [reflexivity|]. destruct Hc as (C1 & C2 & C3 & C4). apply service_ok_intro; cbn; [done| |done|done|done|by apply (held_update lr_slot _ _ _ _ l)].
  apply Forall_insert; [done|]. apply Hok. rewrite Forall_lookup in C2. exact (C2 _ _ El).
Qed.

Lemma set_framebuffer_ok sender h fid fuel : ∃ sv', compositor_serve fuel sv (CallSetFramebuffer sender h fid) = Ret sv' ∧ service_ok sv'.
Proof.
  destruct (layer_update_ok h sender (λ e, mkLayer fid (ly_x e) (ly_y e) (ly_z e) (ly_visible e))) as (sv' & E & H); [done|]. cbn [compositor_serve]. unfold set_layer, with_resource, set_framebuffer in *.
  destruct (sv_layers sv !! h) as [[r|]|]; [|by exists sv..]. case_decide as Hs; [by exists sv; destruct sv|]. destruct (contains _ _); [|by exists sv; destruct sv]. cbn [negb]. by exists sv'.
Qed.

Lemma layer_drop_ok h fuel : ∃ sv', compositor_serve fuel sv (CallDropLayer h) = Ret sv' ∧ service_ok sv'.
Proof.
  pose proof sv_ok as (Hc & Hf & Hl). cbn [compositor_serve]. unfold with_resource. destruct (sv_layers sv !! h) as [[r|]|] eqn:Eh; [|by exists sv..].
  destruct (proj1 Hl h r Eh) as (e & He & _). unfold layer_drop. rewrite set_idx_ok by (by eapply lookup_lt_Some). cbn [ebind]. eexists. split; [reflexivity|]. destruct Hc as (C1 & C2 & C3 & C4).
  apply service_ok_intro; cbn; [done|by apply Forall_insert|done|done|done|]. by apply held_drop.
Qed.

Lemma tick_ok fuel : DISPLAY_WIDTH < Z.of_nat fuel → ∃ sv', compositor_serve fuel sv Tick = Ret sv' ∧ service_ok sv'.
Proof.
  intros Hf. pose proof sv_ok as (Hc & Hfb & Hl). cbn [compositor_serve]. destruct (render_frame_ok fuel _ Hc Hf) as (c' & -> & E1 & _ & E2 & L & Ho & _). cbn [ebind]. eexists. split; [reflexivity|].
  destruct Hc as (C1 & C2 & _). unfold service_ok, comp_ok, with_comp. cbn. rewrite E1, E2. done.
Qed.

Lemma call_served fuel call : DISPLAY_WIDTH < Z.of_nat fuel → call_ok call → ∃ sv', compositor_serve fuel sv call = Ret sv' ∧ service_ok sv'.
Proof.
  intros Hf Hok. destruct call; [by apply fb_new_ok|by apply fb_write_ok|by apply fb_drop_ok|by apply layer_new_ok|by apply set_framebuffer_ok| | | |by apply layer_drop_ok|by apply tick_ok];
    cbn [compositor_serve]; apply layer_update_ok; done.
Qed.
End serve.

Lemma serve_all_ok fuel calls sv : DISPLAY_WIDTH < Z.of_nat fuel → Forall call_ok calls → service_ok sv → ∃ sv', serve_all fuel calls sv = Ret sv' ∧ service_ok sv'.
Proof.
  intros Hf Hc. unfold serve_all. revert sv. induction Hc as [|call calls H1 _ IH]; intros sv Hsv; [by exists sv|]. cbn [for_each]. destruct (call_served sv Hsv fuel call Hf H1) as (sv1 & -> & Hsv1). by apply IH.
Qed.

(** C20: the compositor is never brought to panic by its clients, and its frames are what
    their layers say. After any sequence of calls, creating, writing, moving, hiding and
    dropping frame buffers and layers, with leases that can be read or not and a heap that
    has room or not, the resources that are alive are in different slots, which are all
    the slots in use; a frame is rendered; and each pixel of the display shows the colour
    that the topmost visible layer has there, by height and then by slot, dithered to
    black and white, or white where no layer reaches. *)
Theorem frame_shows_top_layer fuel calls :
  DISPLAY_WIDTH < Z.of_nat fuel → Forall call_ok calls →
  ∃ sv c', serve_all fuel calls service_new = Ret sv ∧ fb_held (sv_fbs sv) (cp_slots (sv_comp sv)) ∧ layer_held (sv_layers sv) (cp_layers (sv_comp sv)) ∧
    render_frame fuel (sv_comp sv) = Ret c' ∧ ∀ x y, on_display x y → shows (sv_comp sv) x y (lit (cp_out c') x y).
Proof.
  intros Hf Hc. destruct (serve_all_ok fuel calls service_new Hf Hc service_new_ok) as (sv & E & Hok & Hfb & Hl). destruct (render_frame_ok fuel _ Hok Hf) as (c' & E' & _ & _ & _ & _ & _ & H). exists sv, c'.
  split_and!; try done. intros x y Hxy. rewrite H by done. apply frame_shows.
Qed.

(** ** Examples *)

Definition ex_info : FrameBufferInfo := mkInfo Mono 8 8.

(** A black and a white frame buffer, and layers of them at the same height: the first one
    is dropped, and the last one gets its slot. *)
Definition ex_calls : list Call :=
  [CallNewFb 3 ex_info 8 (Some (replicate 8 255)) true; CallNewFb 3 ex_info 8 (Some (replicate 8 0)) true;
   CallNewLayer 3 1 0 0 0; CallNewLayer 3 2 4 0 0; CallDropLayer 0; CallNewLayer 3 1 2 0 0].

Definition ex_service : Service := match serve_all 200 ex_calls service_new with Ret sv => sv | Panic => service_new end.
Definition frame_out (r : exec Compositor) : list Z := match r with Ret c => cp_out c | Panic => [] end.
Definition ex_shown : list Z := frame_out (render_frame 200 (sv_comp ex_service)).

Lemma frame_shows_top_layer_witness :
  ∃ sv c', serve_all 200 ex_calls service_new = Ret sv ∧ render_frame 200 (sv_comp sv) = Ret c' ∧ ∀ x y, on_display x y → shows (sv_comp sv) x y (lit (cp_out c') x y).
Proof.
  destruct (frame_shows_top_layer 200 ex_calls ltac:(reflexivity)) as (sv & c' & E & _ & _ & E' & H).
  - repeat constructor; cbn; unfold is_i16; lia.
  - exists sv, c'. split; [exact E|]. split; [exact E'|exact H].
Defined.

(** The layer that was made last is below the other one: heights that are the same are
    ordered by slots, which are used again, and not by the order of creation. *)
Lemma later_layer_below : lit ex_shown 3 0 = true ∧ lit ex_shown 4 0 = false ∧ on_top (sv_comp ex_service) 4 0 1 White ∧ covering (sv_comp ex_service) 0 4 0 = Some Black.
Proof.
  split; [vm_compute; reflexivity|]. split; [vm_compute; reflexivity|]. split; [split; [vm_compute; reflexivity|]|vm_compute; reflexivity].
  intros [|[|j]] Hj Hc; [right; split; [vm_compute; reflexivity|lia]|done|]. exfalso. apply Hc. unfold covering.
  assert (drop 2 (cp_layers (sv_comp ex_service)) = replicate 30 None) as E by (vm_compute; reflexivity). change (S (S j)) with (2 + j)%nat. rewrite <- lookup_drop, E.
  destruct (replicate 30 None !! j) as [s|] eqn:Ej; [|done]. by apply lookup_replicate in Ej as [-> _].
Qed.

(** A frame buffer whose lease cannot be read is made all the same, and is white. *)
Lemma failed_read_ignored : ∃ sv, serve_all 200 [CallNewFb 3 ex_info 8 None true] service_new = Ret sv ∧ length (sv_fbs sv) = 1%nat ∧
  find_image (cp_slots (sv_comp sv)) 1 = Some (image_new (mkSize 8 8) Mono).
Proof. eexists. split; [reflexivity|]. split; vm_compute; reflexivity. Qed.
