(* ===== verification/Proxy.v ===== *)
(** The host proxy, [firmware/sysmodule/host_proxy/src/main.rs]: executing a request
    of the host as an IPC call, within the one buffer that the request came in.

    The call itself, [sys_send], is a parameter: it takes the target, the opcode, the
    message and the leases, and the rest of the system as a state, and gives the
    reply, or says that the target died. *)

From S2P Require Import Prelude UsbHeader UsbMessages UsbIpc UsbReader IpcServer.

Definition LEASE_POOL_SIZE : nat := Z.to_nat 8192.
Definition MAX_MESSAGE : nat := Z.to_nat 256.
Definition MAX_LEASES : nat := 4.

(** [MAX_DECODED_FRAME] and [TUNNEL_DATA_SIZE] *)
Definition MAX_DECODED_FRAME : nat := HEADER_SIZE + (6 + MAX_ARGS + MAX_LEASES * LEASE_DESCRIPTOR_SIZE + LEASE_POOL_SIZE).
Definition TUNNEL_DATA_SIZE : nat := MAX_DECODED_FRAME + 3.

(** * The call *)

(** A lease of the caller: whether it is writable, and its memory. *)
Record CallLease := mkCallLease { cl_writable : bool; cl_bytes : list Z }.

Record SendCall := mkCall {
  sc_target : Z;
  sc_opcode : Z;
  sc_message : list Z;
  sc_leases : list CallLease;
}.

(** The response code, the reply, and the memory of the leases afterwards. *)
Record SendReply := mkSent {
  sr_rc : Z;
  sr_reply : list Z;
  sr_leases : list (list Z);
}.

(** The reply, or the death of the target, which may have written to the leases. *)
Inductive SendResult :=
  | Sent (r : SendReply)
  | TargetDied (leases : list (list Z)).

(** * The proxy *)

Record LeaseSlot := mkLeaseSlot { ls_kind : LeaseKind; ls_offset : nat; ls_length : nat }.

Inductive DispatchOutcome :=
  | DReply (len : nat)
  | DError (len : nat)
  | DSkip.

Definition encode_tunnel_error (sq : Z) (c : TunnelErrorCode) (reply_buf : list Z) : exec (nat * list Z) :=
  let! (n, buf) := encode_simple (mkTunnelError c) reply_buf sq in
  Ret (default 0 n, buf).

(** [data.as_ptr() - buf.as_ptr()] for the data of lease [i]: the view's parts follow
    each other in the frame. *)
Definition lease_data_ptr (v : IpcRequestView) (i : nat) : exec nat :=
  let! off := lease_data_offset v i 0 0 in
  Ret (HEADER_SIZE + REQ_FIXED + rv_lease_count v * LEASE_DESCRIPTOR_SIZE + length (rv_args v) + off).

(** The layout of the leases; [None] for a bad one. *)
Fixpoint collect_leases (v : IpcRequestView) (n i : nat) (slots : list LeaseSlot) (srcs : list (nat * nat))
  : exec (option (list LeaseSlot * list (nat * nat))) :=
  match n with
  | O => Ret (Some (slots, srcs))
  | S n =>
      let! desc := view_lease v i in
      match desc with
      | None => Ret None
      | Some desc =>
          let! srcs :=
            if has_request_data (lkind desc) then
              let! data := view_lease_data v i in
              match data with
              | Some data => let! off := lease_data_ptr v i in set_idx srcs i (off, length data)
              | None => Ret srcs
              end
            else Ret srcs in
          let! slots := set_idx slots i (mkLeaseSlot (lkind desc) 0 (Z.to_nat (llength desc))) in
          collect_leases v n (S i) slots srcs
      end
  end.

(** Compacting the data of the leases at the start of the buffer; [Err] with the
    buffer when the pool is full. *)
Fixpoint compact (n i : nat) (slots : list LeaseSlot) (srcs : list (nat * nat)) (buf : list Z) (pool_end : nat)
  : exec (result (list LeaseSlot * list Z * nat) (list Z)) :=
  match n with
  | O => Ret (Ok (slots, buf, pool_end))
  | S n =>
      let! s := idx slots i in
      let len := ls_length s in
      if decide (LEASE_POOL_SIZE < pool_end + len) then Ret (Err buf) else
      let! slots := set_idx slots i (mkLeaseSlot (ls_kind s) pool_end len) in
      let! buf :=
        if has_request_data (ls_kind s) then
          let! src := idx srcs i in
          let copy_len := Nat.min (snd src) len in
          copy_within buf (fst src) (fst src + copy_len) pool_end
        else copy_at buf pool_end (replicate len 0%Z) in
      compact n (S i) slots srcs buf (pool_end + len)
  end.

(** [split_at_mut] of the pool into the leases of the call. *)
Fixpoint carve_leases (n i : nat) (slots : list LeaseSlot) (remaining : list Z) : exec (list CallLease) :=
  match n with
  | O => Ret []
  | S n =>
      let! s := idx slots i in
      let! region := slice remaining 0 (ls_length s) in
      let! rest := carve_leases n (S i) slots (drop (ls_length s) remaining) in
      Ret (mkCallLease (has_reply_data (ls_kind s)) region :: rest)
  end.

Fixpoint writeback_total (n i : nat) (slots : list LeaseSlot) : exec nat :=
  match n with
  | O => Ret 0
  | S n =>
      let! s := idx slots i in
      let! rest := writeback_total n (S i) slots in
      Ret ((if has_reply_data (ls_kind s) then ls_length s else 0) + rest)
  end.

(** The write leases, moved to the end of the buffer from the last one on. *)
Fixpoint gather (n : nat) (slots : list LeaseSlot) (buf : list Z) (cursor : nat) : exec (list Z) :=
  match n with
  | O => Ret buf
  | S n =>
      let! s := idx slots n in
      if has_reply_data (ls_kind s) then
        let! cursor := usub cursor (ls_length s) in
        let! buf := copy_within buf (ls_offset s) (ls_offset s + ls_length s) cursor in
        gather n slots buf cursor
      else gather n slots buf cursor
  end.

Section proxy.
Context {W : Type} (sys_send : SendCall → W → SendResult * W).

(** The buffer and [MSG_BUF]. *)
Record ProxyState := mkProxy { px_buf : list Z; px_msg : list Z; px_world : W }.

Definition error_outcome (sq : Z) (c : TunnelErrorCode) (buf : list Z) (tail : list Z) (msg : list Z) (w : W) : exec (DispatchOutcome * ProxyState) :=
  let! (n, buf) := encode_tunnel_error sq c buf in
  Ret (DError n, mkProxy (buf ++ tail) msg w).

(** Gathering the write leases and encoding the reply in front of them. *)
Definition encode_outcome (sq : Z) (rep : SendReply) (count : nat) (slots : list LeaseSlot) (buf msg : list Z) (w : W) : exec (DispatchOutcome * ProxyState) :=
  let! wb_total := writeback_total count 0 slots in
  let! wb_start := usub (length buf) wb_total in
  let! buf := gather count slots buf (length buf) in
  let effective_reply_len := Nat.max (length (sr_reply rep)) 1 in
  let reply_buf := take wb_start buf in
  let wb_buf := drop wb_start buf in
  let! return_value := slice msg 0 effective_reply_len in
  let! lease_writeback := slice wb_buf 0 wb_total in
  let! (n, reply_buf) := reply_encode_into (mkReply (sr_rc rep) return_value lease_writeback) reply_buf sq in
  match n with
  | Some n => if decide (0 < n) then Ret (DReply n, mkProxy (reply_buf ++ wb_buf) msg w)
              else error_outcome sq Internal reply_buf wb_buf msg w
  | None => error_outcome sq Internal reply_buf wb_buf msg w
  end.

(** The call, with the leases in the pool. *)
Definition send_outcome (sq target op : Z) (args_len count : nat) (slots : list LeaseSlot) (pool_end : nat) (buf msg : list Z) (w : W)
  : exec (DispatchOutcome * ProxyState) :=
  let! pool := slice buf 0 pool_end in
  let! leases := carve_leases count 0 slots pool in
  let! args := slice msg 0 args_len in
  let '(r, w) := sys_send (mkCall target op args leases) w in
  match r with
  | TargetDied leases =>
      let! buf := copy_at buf 0 (concat leases) in
      error_outcome sq TaskDead buf [] msg w
  | Sent rep =>
      let! buf := copy_at buf 0 (concat (sr_leases rep)) in
      let! msg := copy_at msg 0 (sr_reply rep) in
      encode_outcome sq rep count slots buf msg w
  end.

Definition dispatch_tunneled_request (p : ProxyState) (fetch_len : nat) : exec (DispatchOutcome * ProxyState) :=
  let buf := px_buf p in
  let! frame := slice buf 0 fetch_len in
  let! h := header_decode frame in
  match h with
  | Err _ => Ret (DSkip, p)
  | Ok h =>
      let frame_total := frame_size h in
      if decide (fetch_len < frame_total) then Ret (DSkip, p) else
      let! payload := slice buf HEADER_SIZE frame_total in
      let! view := as_ipc_request (mkFrame h payload) in
      match view with
      | None => Ret (DSkip, p)
      | Some v =>
          let count := Nat.min (rv_lease_count v) MAX_LEASES in
          let args_len := Nat.min (length (rv_args v)) MAX_MESSAGE in
          let! args := slice (rv_args v) 0 args_len in
          let! msg := copy_at (px_msg p) 0 args in
          let! layout := collect_leases v count 0 (replicate MAX_LEASES (mkLeaseSlot LRead 0 0)) (replicate MAX_LEASES (0, 0)) in
          match layout with
          | None => error_outcome (seq h) LeasePoolFull buf [] msg (px_world p)
          | Some (slots, srcs) =>
              let! pool := compact count 0 slots srcs buf 0 in
              match pool with
              | Err buf => error_outcome (seq h) LeasePoolFull buf [] msg (px_world p)
              | Ok (slots, buf, pool_end) =>
                  send_outcome (seq h) (rv_task_id v) (IpcServer.opcode (rv_resource_kind v) (rv_method v)) args_len count slots pool_end buf msg (px_world p)
              end
          end
      end
  end.
End proxy.

Arguments mkProxy {W} _ _ _.
Arguments px_buf {W} _.
Arguments px_msg {W} _.
Arguments px_world {W} _.
