(* ===== verification/ProxyProps.v ===== *)
(** A tunnelled request is the call it stands for: the proxy makes exactly one call,
    with the arguments and the first four leases of the request, and the frame it leaves
    in the buffer is the reply to it; or no call, and the error that says so, when these
    leases do not fit in its pool. Where the leases do not allow compacting in place, the
    data of a read lease is lost. *)

From S2P Require Import Prelude UsbHeader UsbMessages UsbIpc UsbReader IpcServer Proxy.

(** * The memory of the leases *)

Definition lease_len (d : LeaseDescriptor) : nat := Z.to_nat (llength d).

(** What the leases of a request hold when the call is made: the data of the request,
    and zeros where there is none. *)
Fixpoint lease_memory (leases : list LeaseDescriptor) (data : list (list Z)) : list (list Z) :=
  match leases with
  | [] => []
  | d :: leases =>
      if is_req d then
        match data with
        | [] => []
        | s :: data => s :: lease_memory leases data
        end
      else replicate (lease_len d) 0%Z :: lease_memory leases data
  end.

Definition lens_total (leases : list LeaseDescriptor) : nat := sum_list (lease_len <$> leases).

Lemma lens_total_cons d ls : lens_total (d :: ls) = lease_len d + lens_total ls.
Proof. reflexivity. Qed.

Lemma lens_total_app l1 l2 : lens_total (l1 ++ l2) = lens_total l1 + lens_total l2.
Proof. induction l1 as [|d l1 IH]; [done|]. cbn [app]. rewrite !lens_total_cons, IH. lia. Qed.

Lemma req_total_cons d ls : req_total (d :: ls) = (if is_req d then lease_len d else 0) + req_total ls.
Proof. reflexivity. Qed.

Lemma req_total_app l1 l2 : req_total (l1 ++ l2) = req_total l1 + req_total l2.
Proof. induction l1 as [|d l1 IH]; [done|]. cbn [app]. rewrite !req_total_cons, IH. lia. Qed.

Lemma lease_memory_ok leases data :
  lease_match leases data → length (lease_memory leases data) = length leases ∧ length (concat (lease_memory leases data)) = lens_total leases ∧
    length <$> lease_memory leases data = lease_len <$> leases.
Proof.
  induction 1 as [|d ls s ss Hr Hl _ (I1 & I2 & I3)|d ls ss Hr _ (I1 & I2 & I3)]; cbn [lease_memory]; [done|rewrite Hr..].
  - cbn. rewrite length_app, I1, I2, Hl. split_and!; [done|done|]. unfold lease_len at 1. f_equal. exact I3.
  - cbn. rewrite length_app, length_replicate, I1, I2. split_and!; [done|done|]. f_equal. exact I3.
Qed.

(** Where compacting in place is possible: the zeros of a write lease are not put over
    data that has yet to be moved. [D] is where the data starts in the frame. *)
Fixpoint pool_clear (D pool data : nat) (leases : list LeaseDescriptor) : Prop :=
  match leases with
  | [] => True
  | d :: leases =>
      if is_req d then pool_clear D (pool + lease_len d) (data + lease_len d) leases
      else (pool + lease_len d ≤ D + data ∨ req_total leases = 0) ∧ pool_clear D (pool + lease_len d) data leases
  end.

(** Data first is always possible. *)
Lemma pool_clear_data_first D pool data reqs writes :
  Forall (λ d, is_req d = true) reqs → Forall (λ d, is_req d = false) writes → pool_clear D pool data (reqs ++ writes).
Proof.
  intros Hr Hw. revert pool data. induction Hr as [|d reqs Hd _ IH]; intros pool data; cbn [app pool_clear]; [|rewrite Hd; apply IH].
  revert pool data. induction Hw as [|d writes Hd Hws IH]; intros pool data; cbn [pool_clear]; [done|]. rewrite Hd. split; [right|apply IH].
  clear IH. induction Hws as [|e writes He _ IH]; [done|]. by rewrite req_total_cons, He, IH.
Qed.

(** * The layout of the leases *)

Definition slot_of (d : LeaseDescriptor) : LeaseSlot := mkLeaseSlot (lkind d) 0 (lease_len d).

Fixpoint placed (pool : nat) (leases : list LeaseDescriptor) : list LeaseSlot :=
  match leases with
  | [] => []
  | d :: leases => mkLeaseSlot (lkind d) pool (lease_len d) :: placed (pool + lease_len d) leases
  end.

Fixpoint sources (D data : nat) (leases : list LeaseDescriptor) : list (nat * nat) :=
  match leases with
  | [] => []
  | d :: leases =>
      if is_req d then (D + data, lease_len d) :: sources D (data + lease_len d) leases
      else (0, 0) :: sources D data leases
  end.

Lemma length_placed pool leases : length (placed pool leases) = length leases.
Proof. revert pool. induction leases as [|d l IH]; intros pool; cbn; [done|]. by rewrite IH. Qed.

Lemma length_sources D data leases : length (sources D data leases) = length leases.
Proof. revert data. induction leases as [|d l IH]; intros data; cbn; [done|]. destruct (is_req d); cbn; by rewrite IH. Qed.

Lemma placed_app pool l1 l2 : placed pool (l1 ++ l2) = placed pool l1 ++ placed (pool + lens_total l1) l2.
Proof.
  revert pool. induction l1 as [|d l1 IH]; intros pool; cbn [placed app]; [by rewrite Nat.add_0_r|]. rewrite IH, lens_total_cons. cbn. do 3 f_equal. lia.
Qed.

Lemma sources_app D data l1 l2 : sources D data (l1 ++ l2) = sources D data l1 ++ sources D (data + req_total l1) l2.
Proof.
  revert data. induction l1 as [|d l1 IH]; intros data; cbn [sources app]; [by rewrite Nat.add_0_r|]. rewrite req_total_cons.
  destruct (is_req d); rewrite IH; cbn; do 3 f_equal; lia.
Qed.

Section layout.
Context (v : IpcRequestView) (leases : list LeaseDescriptor) (data : list (list Z)).
Hypothesis Hview : ∀ i, view_lease v i = Ret (leases !! i).
Hypothesis Hcount : rv_lease_count v = length leases.
Hypothesis Hdata : rv_lease_data v = concat data.
Hypothesis Hmatch : lease_match leases data.

(** Where the data starts in the frame. *)
Definition data_start : nat := HEADER_SIZE + REQ_FIXED + length leases * LEASE_DESCRIPTOR_SIZE + length (rv_args v).

Lemma collect_leases_ok n i k z :
  i + n ≤ length leases →
  collect_leases v n i ((slot_of <$> take i leases) ++ replicate (n + k) z) (sources data_start 0 (take i leases) ++ replicate (n + k) (0, 0)) =
    Ret (Some ((slot_of <$> take (i + n) leases) ++ replicate k z, sources data_start 0 (take (i + n) leases) ++ replicate k (0, 0))).
Proof.
  revert i. induction n as [|n IH]; intros i Hi; cbn [collect_leases].
  { by rewrite Nat.add_0_r. }
  destruct (lookup_lt_is_Some_2 leases i) as [d Hd]; [lia|]. rewrite Hview, Hd. cbn [ebind].
  pose proof (take_S_r leases i d Hd) as Ht. specialize (IH (S i) ltac:(lia)). rewrite Ht, fmap_app, sources_app in IH. cbn [Nat.add] in IH. rewrite <- Nat.add_succ_r in IH.
  assert (i = length (slot_of <$> take i leases)) as Hl1 by (rewrite length_fmap, length_take; lia).
  assert (i = length (sources data_start 0 (take i leases))) as Hl2 by (rewrite length_sources, length_take; lia).
  assert ((if has_request_data (lkind d) then
      let! o := view_lease_data v i in
      match o with
      | Some data0 => let! off := lease_data_ptr v i in set_idx (sources data_start 0 (take i leases) ++ replicate (S n + k) (0, 0)) i (off, length data0)
      | None => Ret (sources data_start 0 (take i leases) ++ replicate (S n + k) (0, 0))
      end
    else Ret (sources data_start 0 (take i leases) ++ replicate (S n + k) (0, 0))) =
    Ret ((sources data_start 0 (take i leases) ++ sources data_start (req_total (take i leases)) [d]) ++ replicate (n + k) (0, 0))) as ->.
  { cbn [sources]. unfold is_req. destruct (has_request_data (lkind d)) eqn:Hr.
    - rewrite (view_lease_data_ok v leases Hview data i d Hdata Hmatch Hd). unfold is_req. rewrite Hr.
      destruct (lease_match_data leases data i d Hmatch Hd Hr) as (sl & -> & Hsl & _). cbn [ebind].
      unfold lease_data_ptr. rewrite (lease_data_offset_ok v leases Hview) by lia. cbn [ebind]. rewrite drop_0, Hcount.
      rewrite set_idx_app by (rewrite ?length_replicate; lia). cbn [Nat.add replicate drop]. rewrite Hsl. done.
    - rewrite <- app_assoc. done. }
  cbn [ebind]. rewrite set_idx_app by (rewrite ?length_replicate; lia). cbn [Nat.add replicate drop ebind]. exact IH.
Qed.
End layout.

(** * Compacting *)

Lemma take_splice_end {A} (l : list A) off src : off + length src ≤ length l → take (off + length src) (splice l off src) = take off l ++ src.
Proof. intros H. unfold splice. rewrite app_assoc. rewrite take_app_le' by len. by rewrite take_ge by len. Qed.

Lemma drop_splice {A} (l : list A) off src n : off + length src ≤ n → off + length src ≤ length l → drop n (splice l off src) = drop n l.
Proof.
  intros H1 H2. unfold splice. rewrite app_assoc. rewrite drop_app_ge by len. rewrite drop_drop. f_equal. rewrite length_app, length_take. lia.
Qed.

Lemma lease_match_zero leases ss : lease_match leases ss → req_total leases = 0 → concat ss = [].
Proof. intros Hm H0. apply lease_match_total in Hm. destruct (concat ss); [done|cbn in Hm; lia]. Qed.

(** The data of the first lease, and of the rest. *)
Lemma data_split D data len tot (s : list Z) rest buf :
  length s = len → take (len + tot) (drop (D + data) buf) = s ++ rest → D + data + (len + tot) ≤ length buf →
  slice buf (D + data) (D + data + len) = Ret s ∧ take tot (drop (D + (data + len)) buf) = rest.
Proof.
  intros Hs Ht Hb. rewrite slice_ok by lia. replace (D + data + len - (D + data)) with len by lia. split.
  - f_equal. apply (f_equal (take len)) in Ht. rewrite take_take, Nat.min_l in Ht by lia. rewrite Ht, take_app_le' by lia. by rewrite take_ge by lia.
  - apply (f_equal (drop len)) in Ht. rewrite skipn_firstn_comm, drop_drop in Ht.
    replace (len + tot - len) with tot in Ht by lia. rewrite drop_app_length' in Ht by done. rewrite <- Ht. do 2 f_equal. lia.
Qed.

(** One lease is placed: the buffer with its bytes, and the rest. *)
Lemma placed_bytes {A} (buf : list A) pool s mem rest n :
  length buf ≥ pool + length s + n → length mem = n → rest = drop (pool + length s + n) (splice buf pool s) →
  take (pool + length s) (splice buf pool s) ++ mem ++ rest = take pool buf ++ s ++ mem ++ drop (pool + (length s + n)) buf.
Proof.
  intros Hb Hm ->. rewrite take_splice_end by lia. rewrite drop_splice by lia. rewrite <- !app_assoc. do 4 f_equal. lia.
Qed.

Lemma compact_ok D todo ss : lease_match todo ss → ∀ donel pad pad2 buf,
  let pool := lens_total donel in let data := req_total donel in
  take (req_total todo) (drop (D + data) buf) = concat ss → D + data + req_total todo ≤ length buf →
  pool + lens_total todo ≤ LEASE_POOL_SIZE → LEASE_POOL_SIZE ≤ length buf →
  pool_clear D pool data todo → (pool ≤ D + data ∨ req_total todo = 0) →
  compact (length todo) (length donel) (placed 0 donel ++ (slot_of <$> todo) ++ pad) (sources D 0 donel ++ sources D data todo ++ pad2) buf pool =
    Ret (Ok (placed 0 (donel ++ todo) ++ pad, take pool buf ++ concat (lease_memory todo ss) ++ drop (pool + lens_total todo) buf, pool + lens_total todo)).
Proof.
  induction 1 as [|d ls s ss Hr Hl Hm IH|d ls ss Hr Hm IH]; intros donel pad pad2 buf pool data Hd Hb Hp HL Hc Hinv.
  { cbn. rewrite !Nat.add_0_r, app_nil_r, take_drop. done. }
  all: pose proof (lease_memory_ok ls ss Hm) as (_ & Hmem & _).
  all: cbn [length compact fmap list_fmap]; rewrite lens_total_cons, req_total_cons, Hr in *; cbn [pool_clear] in Hc; rewrite Hr in Hc.
  all: rewrite (idx_ok _ _ (slot_of d)) by (rewrite lookup_app_r by (rewrite length_placed; lia); rewrite length_placed, Nat.sub_diag; done); cbn [ebind].
  all: change (ls_length (slot_of d)) with (lease_len d); rewrite decide_False by lia; cbn [app].
  all: rewrite set_idx_app by (rewrite ?length_placed; cbn; lia); cbn [ebind]; cbn [drop]; rewrite ?drop_0; pose proof Hr as Hk; unfold is_req in Hk; change (ls_kind (slot_of d)) with (lkind d); rewrite Hk.
  all: cbn [sources lease_memory]; rewrite !Hr; specialize (IH (donel ++ [d]) pad pad2); cbv zeta in IH.
  all: rewrite lens_total_app, req_total_app, placed_app, sources_app, length_app, <- !app_assoc in IH; cbn [length placed sources app] in IH; fold pool data in IH.
  all: rewrite (req_total_cons d []), (lens_total_cons d []), !Hr in IH; change (req_total []) with 0 in IH; change (lens_total []) with 0 in IH; rewrite ?Nat.add_0_r in IH.
  - rewrite (idx_ok _ _ (D + data, lease_len d)) by (rewrite lookup_app_r by (rewrite length_sources; lia); rewrite length_sources, Nat.sub_diag; done).
    cbn [ebind fst snd concat] in *. rewrite Nat.min_id. change (length s = lease_len d) in Hl. destruct (data_split D data (lease_len d) (req_total ls) s (concat ss) buf Hl Hd Hb) as [Es Ed].
    unfold copy_within. rewrite Es. cbn [ebind]. rewrite copy_at_ok by lia. cbn [ebind]. rewrite <- Hl in *.
    assert (length (splice buf pool s) = length buf) as Hlb by (apply length_splice; lia).
    specialize (IH (splice buf pool s)). rewrite Hlb in IH. cbn [Nat.add] in IH. rewrite Nat.add_1_r, <- !app_assoc in *. cbn [app] in *. rewrite IH; clear IH.
    + do 2 f_equal. f_equal; [f_equal|lia]. by apply placed_bytes; [lia|done|].
    + destruct (decide (req_total ls = 0)) as [E|E]; [rewrite E; by rewrite (lease_match_zero _ _ Hm E)|]. rewrite drop_splice by lia. done.
    + lia.
    + lia.
    + done.
    + done.
    + lia.
  - rewrite copy_at_ok by (rewrite length_replicate; lia). cbn [ebind]. set (s := replicate (lease_len d) 0%Z). assert (length s = lease_len d) as Hl by apply length_replicate.
    rewrite <- Hl in *. assert (length (splice buf pool s) = length buf) as Hlb by (apply length_splice; lia). destruct Hc as [Hc1 Hc2]. cbn [Nat.add] in Hd, Hb, Hinv.
    specialize (IH (splice buf pool s)). rewrite Hlb in IH. cbn [Nat.add] in IH. rewrite Nat.add_1_r, <- !app_assoc in *. cbn [app concat] in *. rewrite IH; clear IH.
    + do 2 f_equal. f_equal; [f_equal|lia]. rewrite <- app_assoc. by apply placed_bytes; [lia|done|].
    + destruct (decide (req_total ls = 0)) as [E|E]; [rewrite E; by rewrite (lease_match_zero _ _ Hm E)|]. rewrite drop_splice by lia. done.
    + lia.
    + lia.
    + done.
    + done.
    + lia.
Qed.

(** Compacting any leases: the pool gets bytes of the right number, or is found full. *)
Lemma compact_any D todo : ∀ donel pad pad2 buf,
  let pool := lens_total donel in let data := req_total donel in
  D + data + req_total todo ≤ length buf → LEASE_POOL_SIZE ≤ length buf → pool ≤ LEASE_POOL_SIZE →
  ∃ buf', length buf' = length buf ∧
    compact (length todo) (length donel) (placed 0 donel ++ (slot_of <$> todo) ++ pad) (sources D 0 donel ++ sources D data todo ++ pad2) buf pool =
    Ret (if decide (pool + lens_total todo ≤ LEASE_POOL_SIZE) then Ok (placed 0 (donel ++ todo) ++ pad, buf', pool + lens_total todo) else Err buf').
Proof.
  induction todo as [|d ls IH]; intros donel pad pad2 buf pool data Hb HL Hp.
  { exists buf. split; [done|]. cbn. rewrite Nat.add_0_r, app_nil_r, decide_True by done. done. }
  cbn [length compact fmap list_fmap]. rewrite lens_total_cons, req_total_cons in *.
  rewrite (idx_ok _ _ (slot_of d)) by (rewrite lookup_app_r by (rewrite length_placed; lia); rewrite length_placed, Nat.sub_diag; done). cbn [ebind].
  change (ls_length (slot_of d)) with (lease_len d). destruct (decide (LEASE_POOL_SIZE < pool + lease_len d)) as [Hfull|Hroom].
  { exists buf. split; [done|]. by rewrite decide_False by lia. }
  cbn [app]. rewrite set_idx_app by (rewrite ?length_placed; cbn; lia). cbn [ebind drop]. rewrite ?drop_0. change (ls_kind (slot_of d)) with (lkind d).
  assert (∃ s, length s = lease_len d ∧
    (if has_request_data (lkind d) then
       let! src := idx (sources D 0 donel ++ sources D data (d :: ls) ++ pad2) (length donel) in
       copy_within buf (fst src) (fst src + Nat.min (snd src) (lease_len d)) pool
     else copy_at buf pool (replicate (lease_len d) 0%Z)) = Ret (splice buf pool s)) as (s & Hs & ->).
  { destruct (has_request_data (lkind d)) eqn:Hr.
    - rewrite (idx_ok _ _ (D + data, lease_len d)).
      + cbn [ebind fst snd]. rewrite Nat.min_id. unfold copy_within. unfold is_req in Hb. rewrite Hr in Hb. rewrite slice_ok by lia. cbn [ebind].
        eexists. split; [|apply copy_at_ok]; rewrite length_take, length_drop; lia.
      + rewrite lookup_app_r by (rewrite length_sources; lia). rewrite length_sources, Nat.sub_diag. cbn [sources]. unfold is_req. by rewrite Hr.
    - eexists. split; [|apply copy_at_ok]; rewrite length_replicate; [done|lia]. }
  cbn [ebind]. assert (length (splice buf pool s) = length buf) as Hlb by (apply length_splice; lia).
  specialize (IH (donel ++ [d]) pad pad2 (splice buf pool s)). cbv zeta in IH. rewrite lens_total_app, req_total_app, placed_app, sources_app, length_app, Hlb, <- !app_assoc in IH.
  cbn [length placed sources app Nat.add] in IH. fold pool data in IH. rewrite (lens_total_cons d []), (req_total_cons d []) in IH. change (req_total []) with 0 in IH. change (lens_total []) with 0 in IH.
  rewrite !Nat.add_0_r in IH. destruct IH as (buf' & Hl' & E); [lia|done|lia|]. exists buf'. split; [done|]. cbn [app] in E |- *. rewrite Nat.add_1_r in E.
  replace (sources D data (d :: ls)) with ((if is_req d then [(D + data, lease_len d)] else [(0, 0)]) ++ sources D (data + (if is_req d then lease_len d else 0)) ls)
    by (cbn [sources]; destruct (is_req d); [done|by rewrite Nat.add_0_r]).
  replace (pool + (lease_len d + lens_total ls)) with (pool + lease_len d + lens_total ls) by lia. rewrite <- E. rewrite <- !app_assoc. by destruct (is_req d).
Qed.

(** * The leases of the call, and what comes back in them *)

Definition call_leases (leases : list LeaseDescriptor) (mems : list (list Z)) : list CallLease :=
  zip_with (λ d m, mkCallLease (has_reply_data (lkind d)) m) leases mems.

(** The memory of the write leases. *)
Fixpoint writeback (leases : list LeaseDescriptor) (mems : list (list Z)) : list Z :=
  match leases, mems with
  | d :: leases, m :: mems => (if has_reply_data (lkind d) then m else []) ++ writeback leases mems
  | _, _ => []
  end.

Definition wb_len (leases : list LeaseDescriptor) : nat := sum_list ((λ d, if has_reply_data (lkind d) then lease_len d else 0) <$> leases).

(** Memory of the size of the leases. *)
Definition mems_fit (leases : list LeaseDescriptor) (mems : list (list Z)) : Prop := Forall2 (λ d m, length m = lease_len d) leases mems.

Lemma mems_fit_total leases mems : mems_fit leases mems → length (concat mems) = lens_total leases.
Proof. induction 1 as [|d m ls ms H _ IH]; [done|]. cbn [concat]. rewrite length_app, lens_total_cons. lia. Qed.

Lemma length_writeback leases mems : mems_fit leases mems → length (writeback leases mems) = wb_len leases.
Proof. induction 1 as [|d m ls ms H _ IH]; [done|]. cbn [writeback]. rewrite length_app, IH. unfold wb_len. cbn. destruct (has_reply_data _); cbn; lia. Qed.

Lemma wb_len_le leases : wb_len leases ≤ lens_total leases.
Proof. induction leases as [|d ls IH]; [done|]. unfold wb_len, lens_total in *. cbn in *. destruct (has_reply_data _); lia. Qed.

Lemma wb_len_snoc leases d : wb_len (leases ++ [d]) = wb_len leases + (if has_reply_data (lkind d) then lease_len d else 0).
Proof. induction leases as [|e ls IH]; unfold wb_len in *; cbn in *; lia. Qed.

Lemma writeback_app l1 m1 l2 m2 : mems_fit l1 m1 → writeback (l1 ++ l2) (m1 ++ m2) = writeback l1 m1 ++ writeback l2 m2.
Proof. induction 1 as [|d m ls ms _ _ IH]; [done|]. cbn [app writeback]. by rewrite IH, app_assoc. Qed.

Lemma lease_memory_fit leases data : lease_match leases data → mems_fit leases (lease_memory leases data).
Proof.
  induction 1 as [|d ls s ss Hr Hl _ IH|d ls ss Hr _ IH]; cbn [lease_memory]; [constructor|rewrite Hr..]; constructor; try done. by rewrite length_replicate.
Qed.

Lemma idx_placed l1 d l2 pad : idx (placed 0 (l1 ++ d :: l2) ++ pad) (length l1) = Ret (mkLeaseSlot (lkind d) (lens_total l1) (lease_len d)).
Proof.
  apply idx_ok. rewrite placed_app. rewrite <- app_assoc. rewrite lookup_app_r by (rewrite length_placed; lia). by rewrite length_placed, Nat.sub_diag.
Qed.

Lemma carve_leases_ok l2 m2 : mems_fit l2 m2 → ∀ l1 pad,
  carve_leases (length l2) (length l1) (placed 0 (l1 ++ l2) ++ pad) (concat m2) = Ret (call_leases l2 m2).
Proof.
  induction 1 as [|d m ls ms Hm Hf IH]; intros l1 pad; [done|]. cbn [length carve_leases]. rewrite idx_placed. cbn [ebind ls_length concat].
  rewrite slice_ok by (rewrite ?length_app; lia). cbn [ebind]. rewrite drop_0, Nat.sub_0_r, <- Hm, take_app_length, drop_app_length.
  specialize (IH (l1 ++ [d]) pad). rewrite <- app_assoc, length_app, Nat.add_1_r in IH. cbn [app] in IH. rewrite IH. done.
Qed.

Lemma writeback_total_ok l2 l1 pad : writeback_total (length l2) (length l1) (placed 0 (l1 ++ l2) ++ pad) = Ret (wb_len l2).
Proof.
  revert l1. induction l2 as [|d l2 IH]; intros l1; [done|]. cbn [length writeback_total]. rewrite idx_placed. cbn [ebind ls_length ls_kind].
  specialize (IH (l1 ++ [d])). rewrite <- app_assoc, length_app, Nat.add_1_r in IH. cbn [app] in IH. rewrite IH. done.
Qed.

(** Gathering from the last lease on: the front of the pool is left alone. *)
Lemma gather_ok l1 m1 : mems_fit l1 m1 → ∀ l2 m2 pad buf cursor,
  take (lens_total l1) buf = concat m1 → drop cursor buf = writeback l2 m2 → cursor ≤ length buf → lens_total l1 ≤ cursor →
  ∃ buf', gather (length l1) (placed 0 (l1 ++ l2) ++ pad) buf cursor = Ret buf' ∧ length buf' = length buf ∧
    drop (cursor - wb_len l1) buf' = writeback l1 m1 ++ writeback l2 m2.
Proof.
  revert m1. induction l1 as [|d l1 IH] using rev_ind; intros m1 Hf l2 m2 pad buf cursor Ht Hd Hc Hl.
  { apply Forall2_nil_inv_l in Hf as ->. exists buf. cbn. rewrite Nat.sub_0_r. done. }
  apply Forall2_app_inv_l in Hf as (ms & mm & Hf & Hm & ->). apply Forall2_cons_inv_l in Hm as (m & nil & Hm & Hnil & ->). apply Forall2_nil_inv_l in Hnil as ->.
  rewrite lens_total_app in *. change (lens_total [d]) with (lease_len d + 0) in *. rewrite Nat.add_0_r in *. rewrite length_app, Nat.add_1_r. cbn [gather].
  rewrite <- app_assoc. cbn [app]. rewrite idx_placed. cbn [ebind ls_kind ls_length ls_offset]. rewrite concat_app in Ht. cbn [concat] in Ht. rewrite app_nil_r in Ht.
  pose proof (mems_fit_total l1 ms Hf) as Hms.
  assert (take (lens_total l1) buf = concat ms) as Ht1.
  { apply (f_equal (take (lens_total l1))) in Ht. rewrite take_take, Nat.min_l in Ht by lia. rewrite Ht, take_app_le' by lia. by rewrite take_ge by lia. }
  assert (wb_len (l1 ++ [d]) = wb_len l1 + (if has_reply_data (lkind d) then lease_len d else 0)) as Hwb by apply wb_len_snoc.
  rewrite writeback_app by done. cbn [writeback]. rewrite app_nil_r. destruct (has_reply_data (lkind d)) eqn:Hk.
  - rewrite usub_ok by lia. cbn [ebind]. unfold copy_within.
    assert (slice buf (lens_total l1) (lens_total l1 + lease_len d) = Ret m) as ->.
    { rewrite slice_ok by lia. f_equal. apply (f_equal (drop (lens_total l1))) in Ht. rewrite skipn_firstn_comm in Ht. rewrite Ht. by rewrite drop_app_length' by done. }
    cbn [ebind]. rewrite copy_at_ok by lia. cbn [ebind]. set (buf1 := splice buf (cursor - lease_len d) m).
    assert (length buf1 = length buf) as Hlb by (apply length_splice; lia).
    destruct (IH ms Hf (d :: l2) (m :: m2) pad buf1 (cursor - lease_len d)) as (buf' & E & Hlen & Hdrop).
    + unfold buf1, splice. rewrite take_app_le' by (rewrite length_take; lia). rewrite take_take, Nat.min_l by lia. done.
    + unfold buf1, splice. rewrite drop_app_length' by (rewrite length_take; lia). cbn [writeback]. rewrite Hk. f_equal. rewrite Hm.
      by replace (cursor - lease_len d + lease_len d) with cursor by lia.
    + lia.
    + lia.
    + exists buf'. split; [done|]. split; [lia|]. rewrite Hwb. replace (cursor - (wb_len l1 + lease_len d)) with (cursor - lease_len d - wb_len l1) by lia.
      rewrite Hdrop. cbn [writeback]. by rewrite Hk, <- app_assoc.
  - destruct (IH ms Hf (d :: l2) (m :: m2) pad buf cursor) as (buf' & E & Hlen & Hdrop); [done| |done|lia|].
    + cbn [writeback]. by rewrite Hk.
    + exists buf'. split; [done|]. split; [done|]. rewrite Hwb, Nat.add_0_r, Hdrop. cbn [writeback]. by rewrite Hk, app_nil_r.
Qed.

(** Bytes of the right number are memory for the leases, in one way. *)
Lemma mems_split leases bytes : length bytes = lens_total leases → ∃ mems, mems_fit leases mems ∧ concat mems = bytes.
Proof.
  revert bytes. induction leases as [|d ls IH]; intros bytes Hb.
  { exists []. split; [constructor|]. by destruct bytes. }
  rewrite lens_total_cons in Hb. destruct (IH (drop (lease_len d) bytes)) as (mems & Hf & Hc); [rewrite length_drop; lia|].
  exists (take (lease_len d) bytes :: mems). split; [constructor; [rewrite length_take; lia|done]|]. cbn [concat]. by rewrite Hc, take_drop.
Qed.

Lemma mems_unique leases m1 m2 : mems_fit leases m1 → mems_fit leases m2 → concat m1 = concat m2 → m1 = m2.
Proof.
  intros H1. revert m2. induction H1 as [|d m ls ms Hm _ IH]; intros m2 H2 Hc; [by apply Forall2_nil_inv_l in H2|].
  apply Forall2_cons_inv_l in H2 as (m' & ms' & Hm' & H2 & ->). cbn [concat] in Hc. apply app_inj_1 in Hc as [-> Hc]; [|lia]. f_equal. by apply IH.
Qed.

(** * The call of a request *)

(** The leases that the proxy looks at. *)
Definition served (r : IpcRequest) : list LeaseDescriptor := take MAX_LEASES (rq_leases r).

(** What they should hold when the call is made. *)
Definition served_memory (r : IpcRequest) : list (list Z) := take MAX_LEASES (lease_memory (rq_leases r) (rq_lease_data r)).

(** The call of the request, with the leases as they are. *)
Definition call_with (r : IpcRequest) (mems : list (list Z)) : SendCall :=
  mkCall (rq_task_id r) (IpcServer.opcode (rq_resource_kind r) (rq_method r)) (pad_empty (rq_args r)) (call_leases (served r) mems).

(** The data of the first leases comes first. *)
Lemma lease_match_take n leases ss :
  lease_match leases ss → ∃ ss1 ss2, ss = ss1 ++ ss2 ∧ lease_match (take n leases) ss1 ∧ lease_memory (take n leases) ss1 = take n (lease_memory leases ss).
Proof.
  intros Hm. revert n. induction Hm as [|d ls s ss Hr Hl Hm IH|d ls ss Hr Hm IH]; intros n.
  { exists [], []. rewrite !take_nil. split; [done|]. split; [exact lm_nil|by destruct n]. }
  all: destruct n as [|n]; [exists []; eexists; split; [done|]; split; [exact lm_nil|done]|].
  all: destruct (IH n) as (ss1 & ss2 & -> & H1 & H2); cbn [take lease_memory]; rewrite Hr.
  - exists (s :: ss1), ss2. split; [done|]. split; [by apply lm_data|]. cbn [take]. by rewrite H2.
  - exists ss1, ss2. split; [done|]. split; [by apply lm_none|]. cbn [take]. by rewrite H2.
Qed.

Definition tunnel_error_frame (sq : Z) (c : TunnelErrorCode) : list Z := frame_wire SimpleT sq [OP_TUNNEL_ERROR; tunnel_code_as_u8 c].

Lemma length_tunnel_error_frame sq c : length (tunnel_error_frame sq c) = 7.
Proof. unfold tunnel_error_frame. by rewrite length_frame_wire. Qed.

Lemma encode_tunnel_error_ok sq c buf :
  7 ≤ length buf → encode_tunnel_error sq c buf = Ret (7, tunnel_error_frame sq c ++ drop 7 buf).
Proof.
  intros Hb. unfold encode_tunnel_error. rewrite (encode_simple_ok (mkTunnelError c)) by (by cbn). change (simple_len (mkTunnelError c)) with 7.
  rewrite decide_True by lia. reflexivity.
Qed.

(** Where the data of a request starts in its frame. *)
Definition request_data_start (r : IpcRequest) : nat :=
  HEADER_SIZE + REQ_FIXED + length (rq_leases r) * LEASE_DESCRIPTOR_SIZE + Nat.max (length (rq_args r)) 1.

(** The leases can be compacted without loss. *)
Definition leases_clear (r : IpcRequest) : Prop := pool_clear (request_data_start r) 0 0 (served r).

Lemma leases_clear_data_first r reqs writes :
  served r = reqs ++ writes → Forall (λ d, is_req d = true) reqs → Forall (λ d, is_req d = false) writes → leases_clear r.
Proof. intros E Hr Hw. unfold leases_clear. rewrite E. by apply pool_clear_data_first. Qed.

(** What the kernel promises of a call: a 32-bit code, a reply no longer than the
    buffer for it, and leases that keep their size. *)
Definition kernel_ok {W} (sys_send : SendCall → W → SendResult * W) : Prop := ∀ c w,
  match fst (sys_send c w) with
  | Sent rep => is_u 32 (sr_rc rep) ∧ length (sr_reply rep) ≤ MAX_MESSAGE ∧ Forall2 (λ l m, length m = length (cl_bytes l)) (sc_leases c) (sr_leases rep)
  | TargetDied ms => Forall2 (λ l m, length m = length (cl_bytes l)) (sc_leases c) ms
  end.

(** The answer in the buffer. *)
Definition answer {W} (p : ProxyState (W:=W)) (frame : list Z) : Prop := take (length frame) (px_buf p) = frame.

(** The return value in the answer: the reply, or one byte if it is empty. *)
Definition return_of (rep : SendReply) (ret : list Z) : Prop :=
  (sr_reply rep ≠ [] ∧ ret = sr_reply rep) ∨ (sr_reply rep = [] ∧ length ret = 1).

(** The reply fits in front of the gathered write leases. *)
Definition reply_room (rep : SendReply) (leases : list LeaseDescriptor) : Prop :=
  HEADER_SIZE + REP_FIXED + Nat.max (length (sr_reply rep)) 1 + 2 * wb_len leases ≤ TUNNEL_DATA_SIZE.

Lemma call_leases_fit leases mems ms :
  mems_fit leases mems → Forall2 (λ l m, length m = length (cl_bytes l)) (call_leases leases mems) ms → mems_fit leases ms.
Proof.
  intros Hf. revert ms. induction Hf as [|d m ls mm Hm _ IH]; intros ms H.
  - apply Forall2_nil_inv_l in H as ->. constructor.
  - apply Forall2_cons_inv_l in H as (m' & ms' & Hm' & H & ->). constructor; [cbn in Hm'; lia|by apply IH].
Qed.

Lemma TUNNEL_DATA_SIZE_eq : TUNNEL_DATA_SIZE = Z.to_nat 8470.
Proof. reflexivity. Qed.
Lemma LEASE_POOL_SIZE_eq : LEASE_POOL_SIZE = Z.to_nat 8192.
Proof. reflexivity. Qed.

Section dispatch.
Context {W : Type} (sys_send : SendCall → W → SendResult * W).

Lemma error_outcome_ok sq c buf tail msg (w : W) :
  7 ≤ length buf → ∃ p, error_outcome sq c buf tail msg w = Ret (DError 7, p) ∧ px_world p = w ∧ px_msg p = msg ∧
    length (px_buf p) = length buf + length tail ∧ answer p (tunnel_error_frame sq c).
Proof.
  intros Hb. unfold error_outcome. rewrite encode_tunnel_error_ok by done. cbn [ebind]. eexists. split; [done|]. cbn [px_world px_msg px_buf].
  split_and!; [done|done|rewrite !length_app, length_tunnel_error_frame, length_drop; lia|].
  unfold answer. cbn [px_buf]. rewrite <- app_assoc. apply take_app_length.
Qed.

Lemma encode_outcome_ok sq rep leases pad buf msg (w : W) :
  mems_fit leases (sr_leases rep) → take (lens_total leases) buf = concat (sr_leases rep) → lens_total leases ≤ LEASE_POOL_SIZE →
  length buf = TUNNEL_DATA_SIZE → length msg = MAX_MESSAGE → length (sr_reply rep) ≤ MAX_MESSAGE → take (length (sr_reply rep)) msg = sr_reply rep →
  ∃ out p, encode_outcome sq rep (length leases) (placed 0 leases ++ pad) buf msg w = Ret (out, p) ∧
    px_world p = w ∧ px_msg p = msg ∧ length (px_buf p) = TUNNEL_DATA_SIZE ∧
    (reply_room rep leases → ∃ ret, return_of rep ret ∧
       let frame := frame_wire IpcReplyT sq (reply_payload (mkReply (sr_rc rep) ret (writeback leases (sr_leases rep)))) in
       out = DReply (length frame) ∧ answer p frame) ∧
    (~ reply_room rep leases → out = DError 7 ∧ answer p (tunnel_error_frame sq Internal)).
Proof.
  intros Hf Ht Hl Hb Hm Hr Hmt. pose proof (wb_len_le leases) as Hwb. pose proof TUNNEL_DATA_SIZE_eq as HT. pose proof LEASE_POOL_SIZE_eq as HP.
  assert (MAX_MESSAGE = Z.to_nat 256) as HM by reflexivity. unfold encode_outcome.
  pose proof (writeback_total_ok leases [] pad) as E1. cbn [app length] in E1. rewrite E1. cbn [ebind]. rewrite usub_ok by lia. cbn [ebind].
  destruct (gather_ok leases (sr_leases rep) Hf [] [] pad buf (length buf)) as (buf' & E2 & Hlen & Hdrop); [done|by rewrite drop_all|lia|lia|].
  rewrite app_nil_r in E2. rewrite E2. cbn [ebind]. cbn [writeback] in Hdrop. rewrite app_nil_r in Hdrop. rewrite Hdrop.
  pose proof (length_writeback leases (sr_leases rep) Hf) as Hlw. set (wb := writeback leases (sr_leases rep)) in *.
  rewrite slice_ok by lia. cbn [ebind]. rewrite drop_0, Nat.sub_0_r. rewrite slice_ok by lia. cbn [ebind]. rewrite drop_0, Nat.sub_0_r, (take_ge wb) by lia.
  set (ret := take (Nat.max (length (sr_reply rep)) 1) msg).
  assert (return_of rep ret) as Hret.
  { unfold return_of. destruct (sr_reply rep) as [|b reply] eqn:Er; [right; split; [done|]; unfold ret; cbn; rewrite length_take; lia|left; split; [done|]].
    unfold ret. rewrite Nat.max_l by (cbn; lia). exact Hmt. }
  assert (length ret = Nat.max (length (sr_reply rep)) 1) as Hlret by (unfold ret; rewrite length_take; lia).
  set (rp := mkReply (sr_rc rep) ret wb). assert (length (reply_payload rp) = REP_FIXED + Nat.max (length (sr_reply rep)) 1 + wb_len leases) as Hpl.
  { pose proof (length_reply_payload rp) as H. cbn [rp_return_value rp_lease_writeback rp] in H. rewrite Hlret, Hlw in H. lia. }
  rewrite reply_encode_into_ok. rewrite length_take, Hlen, Hb. assert (Nat.min (TUNNEL_DATA_SIZE - wb_len leases) TUNNEL_DATA_SIZE = TUNNEL_DATA_SIZE - wb_len leases) as -> by lia.
  assert (reply_valid rp) as Hv by (split; [cbn; rewrite Hlret; lia|unfold U16_MAX, REP_FIXED in *; lia]).
  assert (length (take (TUNNEL_DATA_SIZE - wb_len leases) buf') = TUNNEL_DATA_SIZE - wb_len leases) as Hlt by (rewrite length_take; lia).
  destruct (decide (reply_valid rp ∧ HEADER_SIZE + length (reply_payload rp) ≤ TUNNEL_DATA_SIZE - wb_len leases)) as [[_ Hroom]|Hno]; cbn [ebind].
  - rewrite decide_True by (unfold HEADER_SIZE; lia). eexists _, _. split; [done|]. cbn [px_world px_msg px_buf].
    split_and!; [done|done| |intros _|intros Hn; destruct Hn; unfold reply_room; lia].
    + rewrite !length_app, length_frame_wire, length_drop, Hlt, Hlw. unfold HEADER_SIZE in *. lia.
    + exists ret. split; [done|]. cbv zeta. fold rp. rewrite length_frame_wire. split; [done|]. unfold answer. cbn [px_buf]. rewrite <- app_assoc. apply take_app_length.
  - assert (~ reply_room rep leases) as Hn by (intros Hr'; apply Hno; split; [done|]; unfold reply_room in Hr'; lia).
    destruct (error_outcome_ok sq Internal (take (TUNNEL_DATA_SIZE - wb_len leases) buf') wb msg w) as (p & -> & P1 & P2 & P3 & P4); [rewrite Hlt; lia|].
    exists (DError 7), p. split; [reflexivity|]. split; [exact P1|]. split; [exact P2|]. split; [rewrite P3, Hlt; lia|].
    split; [intros Hr'; destruct (Hn Hr')|intros _; split; [reflexivity|exact P4]].
Qed.

(** The view of an encoded request, and its data in the buffer. *)
Lemma data_in_frame r sq rest :
  request_valid r →
  drop (request_data_start r) (frame_wire IpcRequestT sq (request_payload r) ++ rest) = concat (rq_lease_data r) ++ rest.
Proof.
  intros _. unfold frame_wire, request_payload. rewrite !app_assoc, <- (app_assoc _ (concat _)). apply drop_app_length'. unfold request_data_start.
  rewrite !length_app, length_header_bytes, length_le_bytes, length_desc_bytes, length_pad_empty. cbn [length]. unfold HEADER_SIZE, REQ_FIXED, LEASE_DESCRIPTOR_SIZE. lia.
Qed.

Lemma send_outcome_ok sq target op args leases mems pad buf msg (w : W) :
  kernel_ok sys_send → mems_fit leases mems → take (lens_total leases) buf = concat mems → lens_total leases ≤ LEASE_POOL_SIZE →
  length buf = TUNNEL_DATA_SIZE → length msg = MAX_MESSAGE → length args ≤ MAX_MESSAGE → take (length args) msg = args →
  let '(res, w') := sys_send (mkCall target op args (call_leases leases mems)) w in
  ∃ out p, send_outcome sys_send sq target op (length args) (length leases) (placed 0 leases ++ pad) (lens_total leases) buf msg w = Ret (out, p) ∧
    px_world p = w' ∧ length (px_msg p) = MAX_MESSAGE ∧ length (px_buf p) = TUNNEL_DATA_SIZE ∧
    match res with
    | TargetDied _ => out = DError 7 ∧ answer p (tunnel_error_frame sq TaskDead)
    | Sent rep =>
        (reply_room rep leases → ∃ ret, return_of rep ret ∧
           let frame := frame_wire IpcReplyT sq (reply_payload (mkReply (sr_rc rep) ret (writeback leases (sr_leases rep)))) in
           out = DReply (length frame) ∧ answer p frame) ∧
        (~ reply_room rep leases → out = DError 7 ∧ answer p (tunnel_error_frame sq Internal))
    end.
Proof.
  intros Hk Hf Ht Hl Hb Hm Ha Hat. pose proof TUNNEL_DATA_SIZE_eq as HT. pose proof LEASE_POOL_SIZE_eq as HP. unfold send_outcome.
  rewrite slice_ok by lia. cbn [ebind]. rewrite drop_0, Nat.sub_0_r, Ht. pose proof (carve_leases_ok leases mems Hf [] pad) as E1. cbn [app length] in E1. rewrite E1. cbn [ebind].
  rewrite slice_ok by lia. cbn [ebind]. rewrite drop_0, Nat.sub_0_r, Hat.
  specialize (Hk (mkCall target op args (call_leases leases mems)) w). destruct (sys_send _ w) as [[rep|ms] w'] eqn:Es; cbn [fst] in Hk.
  - destruct Hk as (K1 & K2 & K3). apply call_leases_fit in K3; [|done]. pose proof (mems_fit_total _ _ K3) as Htot.
    rewrite copy_at_0 by lia. cbn [ebind]. rewrite copy_at_0 by lia. cbn [ebind].
    destruct (encode_outcome_ok sq rep leases pad (concat (sr_leases rep) ++ drop (length (concat (sr_leases rep))) buf) (sr_reply rep ++ drop (length (sr_reply rep)) msg) w')
      as (out & p & E & P1 & P2 & P3 & P4); [done|by rewrite take_app_length' by done|done|rewrite length_app, length_drop; lia|rewrite length_app, length_drop; lia|done|by rewrite take_app_length|].
    exists out, p. split; [exact E|]. split; [exact P1|]. split; [rewrite P2, length_app, length_drop; lia|]. split; [exact P3|exact P4].
  - apply call_leases_fit in Hk; [|done]. pose proof (mems_fit_total _ _ Hk) as Htot. rewrite copy_at_0 by lia. cbn [ebind].
    destruct (error_outcome_ok sq TaskDead (concat ms ++ drop (length (concat ms)) buf) [] msg w') as (p & E & P1 & P2 & P3 & P4); [rewrite length_app, length_drop; lia|].
    exists (DError 7), p. split; [exact E|]. split; [exact P1|]. split; [by rewrite P2|]. split; [rewrite P3, length_app, length_drop; cbn; lia|]. split; [reflexivity|exact P4].
Qed.

(** Up to compacting, a request that was encoded is taken apart again. *)
Lemma dispatch_layout r sq rest msg (w : W) :
  request_typed r → request_valid r → is_u 16 sq → length msg = MAX_MESSAGE →
  let frame := frame_wire IpcRequestT sq (request_payload r) in
  let args := pad_empty (rq_args r) in
  let pad := MAX_LEASES - length (served r) in
  let msg' := args ++ drop (length args) msg in
  dispatch_tunneled_request sys_send (mkProxy (frame ++ rest) msg w) (length frame) =
    let! pool := compact (length (served r)) 0 ((slot_of <$> served r) ++ replicate pad (mkLeaseSlot LRead 0 0))
                   (sources (request_data_start r) 0 (served r) ++ replicate pad (0, 0)) (frame ++ rest) 0 in
    match pool with
    | Err buf => error_outcome sq LeasePoolFull buf [] msg' w
    | Ok (slots, buf, pool_end) =>
        send_outcome sys_send sq (rq_task_id r) (IpcServer.opcode (rq_resource_kind r) (rq_method r)) (length args) (length (served r)) slots pool_end buf msg' w
    end.
Proof.
  intros Ht Hv Hs Hm frame args pad msg'. pose proof (request_leases_encodable r Ht Hv) as Henc. pose proof Hv as (Ha & Hc2 & Hval & Hu).
  assert (MAX_MESSAGE = Z.to_nat 256) as HM by reflexivity.
  assert (length args ≤ MAX_MESSAGE) as Hpa by (unfold args; rewrite length_pad_empty; unfold MAX_ARGS in Ha; lia).
  pose proof (validate_leases_match _ _ 0 ltac:(lia) Hval) as Hmatch. rewrite drop_0 in Hmatch.
  destruct (frame_wire_decode IpcRequestT sq (request_payload r) []) as (Hd & Hz & _); [done|unfold is_u, U16_MAX in *; lia|]. fold frame in Hd, Hz. rewrite app_nil_r in Hd.
  unfold dispatch_tunneled_request. cbn [px_buf px_msg px_world].
  rewrite slice_ok by (rewrite ?length_app; lia). cbn [ebind]. rewrite drop_0, Nat.sub_0_r, take_app_length, Hd. cbn [ebind].
  rewrite Hz, decide_False by lia.
  assert (slice (frame ++ rest) HEADER_SIZE (length frame) = Ret (request_payload r)) as ->.
  { unfold frame, frame_wire. rewrite <- app_assoc. apply slice_app; [done|]. rewrite length_app. reflexivity. }
  cbn [ebind]. unfold as_ipc_request. cbn [fheader frame_type]. rewrite decide_False by (intros H; by apply H). cbn [fpayload].
  rewrite request_from_bytes_payload by done. cbn [ebind rv_lease_count rv_args rv_task_id rv_resource_kind rv_method]. fold args.
  rewrite (Nat.min_l (length args)) by lia. rewrite slice_ok by lia. cbn [ebind]. rewrite drop_0, Nat.sub_0_r, (take_ge args) by lia.
  rewrite copy_at_0 by lia. cbn [ebind]. set (v := mkReqView _ _ _ _ _ _ _).
  assert (∀ i, view_lease v i = Ret (rq_leases r !! i)) as Hview by (intros i; by apply view_lease_ok).
  assert (Nat.min (length (rq_leases r)) MAX_LEASES = length (served r)) as Hcount by (unfold served; rewrite length_take; lia). rewrite Hcount.
  pose proof (collect_leases_ok v (rq_leases r) (rq_lease_data r) Hview eq_refl eq_refl Hmatch (length (served r)) 0 pad (mkLeaseSlot LRead 0 0) ltac:(rewrite <- Hcount; lia)) as E1.
  rewrite !take_0 in E1. cbn [fmap list_fmap app sources Nat.add] in E1. replace (length (served r) + pad) with MAX_LEASES in E1 by (unfold pad; rewrite <- Hcount; lia).
  assert (take (length (served r)) (rq_leases r) = served r) as Hserved by (unfold served; rewrite length_take; destruct (decide (length (rq_leases r) ≤ MAX_LEASES)); [rewrite !take_ge by lia; done|by rewrite Nat.min_l by lia]).
  rewrite Hserved in E1. rewrite E1. cbn [ebind].
  assert (data_start v (rq_leases r) = request_data_start r) as -> by (unfold data_start, request_data_start; cbn [rv_args v]; unfold args; rewrite length_pad_empty; lia).
  reflexivity.
Qed.

(** The buffer after compacting, and the call; or the pool is full. *)
Lemma dispatch_sends r sq rest msg (w : W) :
  request_typed r → request_valid r → is_u 16 sq → length msg = MAX_MESSAGE →
  let frame := frame_wire IpcRequestT sq (request_payload r) in
  let msg' := pad_empty (rq_args r) ++ drop (length (pad_empty (rq_args r))) msg in
  length (frame ++ rest) = TUNNEL_DATA_SIZE →
  ∃ buf, length buf = TUNNEL_DATA_SIZE ∧
    if decide (lens_total (served r) ≤ LEASE_POOL_SIZE) then
      ∃ mems pad, mems_fit (served r) mems ∧ take (lens_total (served r)) buf = concat mems ∧ (leases_clear r → mems = served_memory r) ∧
        dispatch_tunneled_request sys_send (mkProxy (frame ++ rest) msg w) (length frame) =
          send_outcome sys_send sq (rq_task_id r) (IpcServer.opcode (rq_resource_kind r) (rq_method r)) (length (pad_empty (rq_args r)))
            (length (served r)) (placed 0 (served r) ++ pad) (lens_total (served r)) buf msg' w
    else dispatch_tunneled_request sys_send (mkProxy (frame ++ rest) msg w) (length frame) = error_outcome sq LeasePoolFull buf [] msg' w.
Proof.
  intros Ht Hv Hs Hm frame msg' Hlen. pose proof TUNNEL_DATA_SIZE_eq as HT. pose proof LEASE_POOL_SIZE_eq as HP.
  pose proof (dispatch_layout r sq rest msg w Ht Hv Hs Hm) as E0. cbv zeta in E0. fold frame msg' in E0. rewrite E0. clear E0.
  set (D := request_data_start r) in *. set (pad := MAX_LEASES - _).
  pose proof Hv as (_ & _ & Hval & _). pose proof (validate_leases_match _ _ 0 ltac:(lia) Hval) as Hmatch. rewrite drop_0 in Hmatch.
  destruct (lease_match_take MAX_LEASES _ _ Hmatch) as (ss1 & ss2 & Ess & Hm1 & Hmem). fold (served r) in Hm1, Hmem. fold (served_memory r) in Hmem.
  pose proof (lease_match_total _ _ Hm1) as Htot. pose proof (data_in_frame r sq rest Hv) as Hdata. fold frame D in Hdata. rewrite Ess, concat_app, <- app_assoc in Hdata.
  assert (D + req_total (served r) ≤ length (frame ++ rest)) as Hbound.
  { apply (f_equal length) in Hdata. rewrite length_drop, (length_app (concat ss1)), Htot in Hdata. assert (D ≤ length (frame ++ rest)); [|lia].
    rewrite length_app. unfold D, request_data_start, frame. rewrite length_frame_wire, length_request_payload. unfold HEADER_SIZE. lia. }
  destruct (compact_any D (served r) [] (replicate pad (mkLeaseSlot LRead 0 0)) (replicate pad (0, 0)) (frame ++ rest)) as (buf & Hbl & E1); [change (req_total []) with 0; lia|lia|change (lens_total []) with 0; lia|].
  change (lens_total []) with 0 in E1. change (req_total []) with 0 in E1. cbn [length app placed sources Nat.add] in E1. rewrite E1. cbn [ebind].
  exists buf. split; [lia|]. case_decide as Hpool; [|reflexivity].
  destruct (mems_split (served r) (take (lens_total (served r)) buf)) as (mems & Hf & Hc); [rewrite length_take; lia|]. exists mems, (replicate pad (mkLeaseSlot LRead 0 0)).
  split; [done|]. split; [done|]. split; [|reflexivity]. intros Hclear.
  pose proof (compact_ok D (served r) ss1 Hm1 [] (replicate pad (mkLeaseSlot LRead 0 0)) (replicate pad (0, 0)) (frame ++ rest)) as E2.
  cbv zeta in E2. change (lens_total []) with 0 in E2. change (req_total []) with 0 in E2.
  rewrite take_0 in E2. cbn [length app placed sources Nat.add] in E2. rewrite Nat.add_0_r in E2. rewrite E1 in E2.
  specialize (E2 ltac:(rewrite Hdata, <- Htot; apply take_app_length) ltac:(lia) ltac:(lia) ltac:(lia) Hclear ltac:(lia)). injection E2 as Eb.
  rewrite <- Hmem. apply (mems_unique (served r)); [done|by apply lease_memory_fit|]. rewrite Hc, Eb. apply take_app_length'. symmetry. by apply lease_memory_ok.
Qed.
End dispatch.

(** A tunnelled request is the call it stands for. For any request that the host
    encoded the proxy does not panic. If its first four leases do not fit in the pool it
    makes no call and leaves an error frame; otherwise it makes exactly one call: to the
    task, with the opcode and the arguments of the request, and with its first four
    leases, of the sizes and as writable as requested, that hold the data of the
    request, or zeros, if they can be compacted in place (data first, for one). The
    answer that it leaves in the buffer, under the sequence number of the request, is
    the reply with the response code, the return value (one byte that means nothing,
    if it is empty) and the contents of the write leases in order; or an error frame,
    if the target died or the reply has no room in front of the gathered leases. *)
Lemma dispatch_is_call {W} (sys_send : SendCall → W → SendResult * W) r sq rest msg w :
  kernel_ok sys_send → request_typed r → request_valid r → is_u 16 sq → length msg = MAX_MESSAGE →
  let frame := frame_wire IpcRequestT sq (request_payload r) in
  length (frame ++ rest) = TUNNEL_DATA_SIZE →
  ∃ out p, dispatch_tunneled_request sys_send (mkProxy (frame ++ rest) msg w) (length frame) = Ret (out, p) ∧
    length (px_msg p) = MAX_MESSAGE ∧ length (px_buf p) = TUNNEL_DATA_SIZE ∧
    if decide (lens_total (served r) ≤ LEASE_POOL_SIZE) then
      ∃ mems, mems_fit (served r) mems ∧ (leases_clear r → mems = served_memory r) ∧
      px_world p = snd (sys_send (call_with r mems) w) ∧
      match fst (sys_send (call_with r mems) w) with
      | TargetDied _ => out = DError 7 ∧ answer p (tunnel_error_frame sq TaskDead)
      | Sent rep =>
          (reply_room rep (served r) → ∃ ret, return_of rep ret ∧
             let reply := frame_wire IpcReplyT sq (reply_payload (mkReply (sr_rc rep) ret (writeback (served r) (sr_leases rep)))) in
             out = DReply (length reply) ∧ answer p reply) ∧
          (~ reply_room rep (served r) → out = DError 7 ∧ answer p (tunnel_error_frame sq Internal))
      end
    else px_world p = w ∧ out = DError 7 ∧ answer p (tunnel_error_frame sq LeasePoolFull).
Proof.
  intros Hk Ht Hv Hs Hm frame Hlen. destruct (dispatch_sends sys_send r sq rest msg w Ht Hv Hs Hm Hlen) as (buf & Hbl & E0). fold frame in E0.
  pose proof Hv as (Ha & _). assert (MAX_MESSAGE = Z.to_nat 256) as HM by reflexivity. pose proof (length_pad_empty (rq_args r)) as Hpa. unfold MAX_ARGS in Ha.
  assert (length (pad_empty (rq_args r) ++ drop (length (pad_empty (rq_args r))) msg) = MAX_MESSAGE) as Hml by (rewrite length_app, length_drop; lia).
  assert (length (pad_empty (rq_args r)) ≤ MAX_MESSAGE) as Hal by lia.
  destruct (decide (lens_total (served r) ≤ LEASE_POOL_SIZE)) as [Hp|Hp].
  - destruct E0 as (mems & pad & Hf & Hb & Hclear & E0). rewrite E0.
    pose proof (send_outcome_ok sys_send sq (rq_task_id r) (IpcServer.opcode (rq_resource_kind r) (rq_method r)) (pad_empty (rq_args r)) (served r)
      mems pad buf (pad_empty (rq_args r) ++ drop (length (pad_empty (rq_args r))) msg) w Hk Hf Hb Hp Hbl Hml Hal (take_app_length _ _)) as H.
    unfold call_with. destruct (sys_send _ w) as [res w'] eqn:Es. destruct H as (out & p & E & P1 & P2 & P3 & P4).
    exists out, p. split; [exact E|]. split; [exact P2|]. split; [exact P3|]. exists mems. rewrite Es. done.
  - destruct (error_outcome_ok sq LeasePoolFull buf [] (pad_empty (rq_args r) ++ drop (length (pad_empty (rq_args r))) msg) w) as (p & E & P1 & P2 & P3 & P4);
      [rewrite Hbl, TUNNEL_DATA_SIZE_eq; lia|]. rewrite E0. exists (DError 7), p. split; [exact E|]. split; [by rewrite P2|]. split; [rewrite P3, Hbl; apply Nat.add_0_r|]. done.
Qed.

(** * Where compacting loses data *)

Lemma compact_write n i slots srcs buf pool k o len :
  slots !! i = Some (mkLeaseSlot k o len) → has_request_data k = false → pool + len ≤ LEASE_POOL_SIZE → pool + len ≤ length buf →
  compact (S n) i slots srcs buf pool = compact n (S i) (<[i := mkLeaseSlot k pool len]> slots) srcs (splice buf pool (replicate len 0%Z)) (pool + len).
Proof.
  intros Hi Hk Hp Hb. pose proof (lookup_lt_Some _ _ _ Hi). cbn [compact]. rewrite (idx_ok _ _ _ Hi). cbn [ebind ls_length ls_kind]. rewrite decide_False by lia.
  rewrite set_idx_ok by done. cbn [ebind]. rewrite Hk. by rewrite copy_at_ok by (rewrite length_replicate; lia).
Qed.

Lemma compact_read n i slots srcs buf pool k o len a :
  slots !! i = Some (mkLeaseSlot k o len) → srcs !! i = Some (a, len) → has_request_data k = true → pool + len ≤ LEASE_POOL_SIZE → pool + len ≤ length buf → a + len ≤ length buf →
  compact (S n) i slots srcs buf pool = compact n (S i) (<[i := mkLeaseSlot k pool len]> slots) srcs (splice buf pool (take len (drop a buf))) (pool + len).
Proof.
  intros Hi Hs Hk Hp Hb Ha. pose proof (lookup_lt_Some _ _ _ Hi). cbn [compact]. rewrite (idx_ok _ _ _ Hi). cbn [ebind ls_length ls_kind]. rewrite decide_False by lia.
  rewrite set_idx_ok by done. cbn [ebind]. rewrite Hk, (idx_ok _ _ _ Hs). cbn [ebind fst snd]. rewrite Nat.min_id. unfold copy_within. rewrite slice_ok by lia. cbn [ebind].
  replace (a + len - a) with len by lia. by rewrite copy_at_ok by (rewrite length_take, length_drop; lia).
Qed.

(** A write lease in front of a read lease: its zeros are put over the data of the
    read lease, if they reach it, and the target of the call reads zeros. *)
Lemma read_lease_zeroed {W} (sys_send : SendCall → W → SendResult * W) task kind method args n (L : nat) s sq rest msg w :
  let r := mkRequest task kind method args [mkLease LWrite (Z.of_nat L); mkLease LRead (Z.of_nat n)] [s] in
  kernel_ok sys_send → request_typed r → request_valid r → is_u 16 sq → length msg = MAX_MESSAGE →
  request_data_start r + n ≤ L → L + n ≤ LEASE_POOL_SIZE →
  let frame := frame_wire IpcRequestT sq (request_payload r) in
  length (frame ++ rest) = TUNNEL_DATA_SIZE →
  ∃ out p, dispatch_tunneled_request sys_send (mkProxy (frame ++ rest) msg w) (length frame) = Ret (out, p) ∧
    px_world p = snd (sys_send (mkCall task (IpcServer.opcode kind method) (pad_empty args)
      [mkCallLease true (replicate L 0%Z); mkCallLease false (replicate n 0%Z)]) w).
Proof.
  intros r Hk Ht Hv Hs Hm HD HL frame Hlen. pose proof TUNNEL_DATA_SIZE_eq as HT. pose proof LEASE_POOL_SIZE_eq as HP.
  pose proof (dispatch_layout sys_send r sq rest msg w Ht Hv Hs Hm) as E0. cbv zeta in E0. fold frame in E0. rewrite E0. clear E0.
  change (served r) with (rq_leases r).
  set (D := request_data_start r) in *. set (slots := (slot_of <$> rq_leases r) ++ _). set (srcs := sources D 0 _ ++ _).
  assert (slots !! 0 = Some (mkLeaseSlot LWrite 0 L)) as S0 by (cbn; unfold slot_of, lease_len; cbn; by rewrite Nat2Z.id).
  assert (slots !! 1 = Some (mkLeaseSlot LRead 0 n)) as S1 by (cbn; unfold slot_of, lease_len; cbn; by rewrite Nat2Z.id).
  assert (srcs !! 1 = Some (D, n)) as S2 by (cbn; unfold lease_len; cbn; by rewrite Nat2Z.id, Nat.add_0_r).
  change (length (rq_leases r)) with 2. rewrite (compact_write _ _ _ _ _ _ _ _ _ S0) by (lia || done). cbn [Nat.add].
  set (buf1 := splice _ 0 _). assert (length buf1 = length (frame ++ rest)) as Hb1 by (apply length_splice; rewrite length_replicate; lia).
  rewrite (compact_read _ 1 (<[0:=_]> slots) srcs buf1 L LRead 0 n D) by (lia || done).
  assert (take n (drop D buf1) = replicate n 0%Z) as ->.
  { unfold buf1. rewrite splice_0. rewrite drop_app_le by (rewrite length_replicate; lia). rewrite drop_replicate. rewrite take_app_le' by (rewrite length_replicate; lia). rewrite take_replicate. f_equal. lia. }
  cbn [compact ebind].
  assert (<[1:=mkLeaseSlot LRead L n]> (<[0:=mkLeaseSlot LWrite 0 L]> slots) = placed 0 (rq_leases r) ++ [mkLeaseSlot LRead 0 0; mkLeaseSlot LRead 0 0]) as ->.
  { cbn. unfold slot_of, lease_len. cbn. by rewrite !Nat2Z.id. }
  assert (lens_total (rq_leases r) = L + n) as Htot by (unfold lens_total, lease_len; cbn; rewrite !Nat2Z.id; lia). rewrite <- Htot.
  pose proof Hv as (Ha & _). unfold MAX_ARGS in Ha. cbn [rq_args r] in Ha. assert (MAX_MESSAGE = Z.to_nat 256) as HM by reflexivity. pose proof (length_pad_empty args) as Hpa.
  pose proof (send_outcome_ok sys_send sq task (IpcServer.opcode kind method) (pad_empty args) (rq_leases r) [replicate L 0%Z; replicate n 0%Z]
    [mkLeaseSlot LRead 0 0; mkLeaseSlot LRead 0 0] (splice buf1 L (replicate n 0%Z)) (pad_empty args ++ drop (length (pad_empty args)) msg) w Hk) as H.
  change (call_leases (rq_leases r) _) with [mkCallLease true (replicate L 0%Z); mkCallLease false (replicate n 0%Z)] in H.
  destruct (sys_send _ w) as [res w'] eqn:Es. destruct H as (out & p & E & Hw & _).
  - repeat constructor; rewrite length_replicate; unfold lease_len; cbn [llength]; lia.
  - cbn [concat]. rewrite app_nil_r, Htot. replace (L + n) with (L + length (replicate n 0%Z)) by (rewrite length_replicate; lia).
    rewrite take_splice_end by (rewrite length_replicate; lia). f_equal. unfold buf1. rewrite splice_0. apply take_app_length'. by rewrite length_replicate.
  - lia.
  - rewrite length_splice by (rewrite length_replicate; lia). lia.
  - rewrite length_app, length_drop. lia.
  - lia.
  - apply take_app_length.
  - exists out, p. split; [exact E|]. exact Hw.
Qed.
