(* ===== verification/Tunnel.v ===== *)
(** The tunnel of host requests: the buffer that its tasks share
    ([shared/usb-proto/src/tunnel.rs]), its two transports over USB
    ([firmware/sysmodule/usb_protocol_host/src/main.rs]) and over the serial line
    ([firmware/sysmodule/log/src/transport.rs]), and the handler of the proxy that
    executes requests ([firmware/sysmodule/host_proxy/src/main.rs]).

    The endpoints are open and writing to them succeeds; what they deliver is a list
    of events, and so is what the decoder of the serial line (a library) makes of its
    bytes. Notifications that are pushed are collected. The handlers run one after the
    other. Logging and timing are left out, and so is the text about the identity of the
    device that the supervisor prints after an awake message. *)

From S2P Require Import Prelude UsbHeader UsbMessages UsbIpc UsbReader UsbCrc IpcServer Proxy.

(** * The shared buffer *)

Definition FREE : Z := 0.

Record TunnelBuffer := mkTunnel {
  tn_lock : Z;
  tn_len : nat;
  tn_data : list Z;
}.

Definition tunnel_new : TunnelBuffer := mkTunnel FREE 0 (replicate TUNNEL_DATA_SIZE 0%Z).

Definition set_lock (t : TunnelBuffer) (lock : Z) : TunnelBuffer := mkTunnel lock (tn_len t) (tn_data t).
Definition set_data (t : TunnelBuffer) (data : list Z) : TunnelBuffer := mkTunnel (tn_lock t) (tn_len t) data.

(** [compare_exchange] *)
Definition lock_exchange (t : TunnelBuffer) (current new : Z) : bool * TunnelBuffer :=
  if decide (tn_lock t = current) then (true, set_lock t new) else (false, t).

Definition try_acquire (t : TunnelBuffer) (tid : Z) : bool * TunnelBuffer := lock_exchange t FREE tid.

Definition try_acquire_or_wipe (refresh : Z → Z) (t : TunnelBuffer) (tid : Z) : bool * TunnelBuffer :=
  let '(ok, t) := try_acquire t tid in
  if ok then (true, t) else
  let current := tn_lock t in
  if decide (current = FREE) then try_acquire t tid else
  let refreshed := refresh current in
  if decide (refreshed ≠ current) then lock_exchange t current tid else (false, t).

Definition transfer_lock (t : TunnelBuffer) (new_owner : Z) : TunnelBuffer := set_lock t new_owner.
Definition release_lock (t : TunnelBuffer) : TunnelBuffer := set_lock t FREE.
Definition is_held (t : TunnelBuffer) : bool := negb (bool_decide (tn_lock t = FREE)).
Definition holder (t : TunnelBuffer) : Z := tn_lock t.
Definition set_len (t : TunnelBuffer) (len : nat) : TunnelBuffer := mkTunnel (tn_lock t) len (tn_data t).

(** * The transport over USB *)

Inductive UsbTunnelState := Idle | Accumulating | Overflowed | Staged | Retransmitting.

#[export] Instance UsbTunnelState_eq_dec : EqDecision UsbTunnelState.
Proof. solve_decision. Defined.

Inductive LastSent :=
  | LastNone
  | LastIpcReply
  | LastError (wire : list Z).

(** [ACCUM], [LAST_SENT] and [USB_DISCONNECTED], with the packets that were written and
    the codes that were pushed to the proxy. *)
Record UsbTransport := mkUsb {
  ut_state : UsbTunnelState;
  ut_len : nat;
  ut_last : LastSent;
  ut_disconnected : bool;
  ut_packets : list (list Z);
  ut_pushed : list Z;
}.

Definition usb_new : UsbTransport := mkUsb Idle 0 LastNone true [] [].

Definition ut_goto (u : UsbTransport) (st : UsbTunnelState) (len : nat) : UsbTransport :=
  mkUsb st len (ut_last u) (ut_disconnected u) (ut_packets u) (ut_pushed u).
Definition ut_write (u : UsbTransport) (packets : list (list Z)) : UsbTransport :=
  mkUsb (ut_state u) (ut_len u) (ut_last u) (ut_disconnected u) (ut_packets u ++ packets) (ut_pushed u).
Definition ut_push (u : UsbTransport) (code : Z) : UsbTransport :=
  mkUsb (ut_state u) (ut_len u) (ut_last u) (ut_disconnected u) (ut_packets u) (ut_pushed u ++ [code]).
Definition ut_sent (u : UsbTransport) (last : LastSent) : UsbTransport :=
  mkUsb (ut_state u) (ut_len u) last (ut_disconnected u) (ut_packets u) (ut_pushed u).
Definition ut_disconnect (u : UsbTransport) (b : bool) : UsbTransport :=
  mkUsb (ut_state u) (ut_len u) (ut_last u) b (ut_packets u) (ut_pushed u).

Inductive HostTransportError := NoPendingRequest | LeaseTooSmall | WireWriteFailed.

(** The state that the handlers share. *)
Definition UsbState : Type := UsbTransport * TunnelBuffer.

(** What a read of the endpoint returns. *)
Inductive UsbRead :=
  | ReadPacket (bytes : list Z)
  | ReadDisconnected
  | ReadNothing.

Section usb.
Context (SELF_TID : Z) (refresh_tid : Z → Z) (host_proxy : option Z).

Definition usb_fetch_pending_request (s : UsbState) : result nat HostTransportError :=
  let '(u, t) := s in
  if decide (ut_state u ≠ Staged) then Err NoPendingRequest else Ok (tn_len t).

Definition usb_deliver_reply (s : UsbState) : exec UsbState :=
  let '(u, t) := s in
  let! data := slice (tn_data t) 0 (tn_len t) in
  let! packets := deliver_reply_packets data in
  Ret (ut_goto (ut_sent (ut_write u packets) LastIpcReply) Idle 0, release_lock t).

(** Frame, checksum and pad in an array of 19 bytes; a short packet. *)
Definition write_tunnel_error (u : UsbTransport) (sq : Z) (c : TunnelErrorCode) : exec UsbTransport :=
  let! (n, frame) := encode_simple (mkTunnelError c) (replicate 16 0%Z) sq in
  match n with
  | None => Ret u
  | Some n =>
      let! frame := slice frame 0 n in
      let crc := crc16 frame in
      let! wire := copy_at (replicate 19 0%Z) 0 frame in
      let! wire := set_idx wire n (wrap 8 (Z.shiftr crc 8)) in
      let! wire := set_idx wire (n + 1) (wrap 8 crc) in
      let total := n + 2 in
      let! (wire, total) := if decide (total mod 64 = 0) then let! wire := set_idx wire total 0%Z in Ret (wire, total + 1) else Ret (wire, total) in
      let! wire := slice wire 0 total in
      Ret (ut_write (ut_sent u (LastError wire)) [wire])
  end.

Definition send_request_corrupted (u : UsbTransport) : exec UsbTransport := write_tunnel_error u 0xFFFF RequestCorrupted.

(** Back to [Idle], with the lock released. *)
Definition drop_transfer (s : UsbState) : UsbState := (ut_goto s.1 Idle 0, release_lock s.2).

Definition nack (s : UsbState) : exec (bool * UsbState) :=
  let '(u, t) := drop_transfer s in
  let! u := send_request_corrupted u in
  Ret (false, (u, t)).

(** The host asks for the last answer again. *)
Definition retransmit (s : UsbState) : UsbState :=
  let '(u, t) := s in
  let u := ut_goto u Retransmitting 0 in
  let t := release_lock t in
  match ut_last u with
  | LastIpcReply => (ut_push u 1, t)
  | LastError wire => (ut_goto (ut_write u [wire]) Idle 0, t)
  | LastNone => (ut_goto u Idle 0, t)
  end.

(** [process_accumulated_frame]: whether a request was staged. *)
Definition process_accumulated_frame (s : UsbState) : exec (bool * UsbState) :=
  let '(u, t) := s in
  let n := ut_len u in
  let data := tn_data t in
  if decide (ut_state u = Overflowed) then nack s else
  if decide (n < HEADER_SIZE + 2) then nack s else
  let! transfer := slice data 0 n in
  let! h := header_decode transfer in
  match h with
  | Err _ => nack s
  | Ok h =>
      let frame_size := HEADER_SIZE + Z.to_nat (length16 h) in
      if decide (n < frame_size + 2) then nack s else
      let! hi := idx data frame_size in
      let! lo := idx data (frame_size + 1) in
      let! frame := slice data 0 frame_size in
      if decide (be_val2 hi lo ≠ crc16 frame) then nack s else
      let! payload := slice data HEADER_SIZE frame_size in
      let raw := mkFrame h payload in
      let! err := frame_parse_simple TunnelError raw in
      match err with
      | Some e => if decide (code e = ReplyCorrupted) then Ret (false, retransmit s) else Ret (false, drop_transfer s)
      | None =>
          let! req := as_ipc_request raw in
          match req, host_proxy with
          | None, _ => Ret (false, drop_transfer s)
          | Some _, None =>
              let '(u, t) := drop_transfer s in
              let! u := write_tunnel_error u (seq h) NoHostForwarding in
              Ret (false, (u, t))
          | Some _, Some tid => Ret (true, (ut_goto u Staged n, transfer_lock (set_len t frame_size) tid))
          end
      end
  end.

(** A packet goes behind the others in the buffer. *)
Definition accumulate (s : UsbState) (bytes : list Z) : exec UsbState :=
  let '(u, t) := s in
  if decide (ut_state u = Overflowed) then Ret (u, t) else
  let '(ok, u, t) :=
    if decide (ut_state u = Idle) then
      let '(ok, t) := try_acquire_or_wipe refresh_tid t SELF_TID in
      if ok then (true, ut_goto u Accumulating (ut_len u), t) else (false, ut_goto u Overflowed (ut_len u), t)
    else (true, u, t) in
  if negb ok then Ret (u, t) else
  if decide (length (tn_data t) < ut_len u + length bytes) then Ret (ut_goto u Overflowed 0, t) else
  let! data := copy_at (tn_data t) (ut_len u) bytes in
  Ret (ut_goto u (ut_state u) (ut_len u + length bytes), set_data t data).

(** The loop of [handle_usb_event]. *)
Fixpoint usb_loop (reads : list UsbRead) (s : UsbState) : exec UsbState :=
  match reads with
  | [] | ReadNothing :: _ => Ret s
  | ReadPacket bytes :: reads =>
      if decide (length bytes = 0) then Ret s else
      let! s := accumulate (ut_disconnect s.1 false, s.2) bytes in
      if decide (length bytes < 64) then
        let! (staged, s) := process_accumulated_frame s in
        Ret (if staged then (ut_push s.1 0, s.2) else s)
      else usb_loop reads s
  | ReadDisconnected :: _ =>
      let '(u, t) := s in
      let was_connected := negb (ut_disconnected u) in
      let u := ut_disconnect u true in
      if was_connected then
        let u := ut_push u 0xFFFFFFFF in
        Ret (ut_goto u Idle 0, if decide (ut_state u ≠ Idle) then release_lock t else t)
      else Ret (u, t)
  end.

Definition handle_usb_event (reads : list UsbRead) (s : UsbState) : exec UsbState :=
  if decide (ut_state s.1 = Staged ∨ ut_state s.1 = Retransmitting) then Ret s else usb_loop reads s.
End usb.

(** * The transport over the serial line *)

Definition TYPE_IPC_REPLY : Z := 0x02.
Definition TYPE_IPC_REQUEST : Z := 0x03.
Definition TYPE_CONTROL_REQUEST : Z := 0x04.

(** [DecodeState] and [COBS_BUF], with the bytes of every write to the serial line and
    the codes that were pushed. *)
Record UsartTransport := mkUsart {
  ds_write_pos : nat;
  ds_staged_len : nat;
  ds_staged : bool;
  ds_truncated : bool;
  ds_locked : bool;
  ds_cobs_buf : list Z;
  ds_writes : list (list Z);
  ds_pushed : list Z;
}.

Definition usart_new : UsartTransport := mkUsart 0 0 false false false (replicate 255 0%Z) [] [].

Definition ds_set (d : UsartTransport) (pos : nat) (truncated locked : bool) : UsartTransport :=
  mkUsart pos (ds_staged_len d) (ds_staged d) truncated locked (ds_cobs_buf d) (ds_writes d) (ds_pushed d).
Definition ds_stage (d : UsartTransport) (len : nat) (staged locked : bool) : UsartTransport :=
  mkUsart (ds_write_pos d) len staged (ds_truncated d) locked (ds_cobs_buf d) (ds_writes d) (ds_pushed d).
Definition ds_write (d : UsartTransport) (bytes : list Z) : UsartTransport :=
  mkUsart (ds_write_pos d) (ds_staged_len d) (ds_staged d) (ds_truncated d) (ds_locked d) (ds_cobs_buf d) (ds_writes d ++ [bytes]) (ds_pushed d).
Definition ds_push (d : UsartTransport) (code : Z) : UsartTransport :=
  mkUsart (ds_write_pos d) (ds_staged_len d) (ds_staged d) (ds_truncated d) (ds_locked d) (ds_cobs_buf d) (ds_writes d) (ds_pushed d ++ [code]).
Definition ds_scratch (d : UsartTransport) (buf : list Z) : UsartTransport :=
  mkUsart (ds_write_pos d) (ds_staged_len d) (ds_staged d) (ds_truncated d) (ds_locked d) buf (ds_writes d) (ds_pushed d).

Definition UsartState : Type := UsartTransport * TunnelBuffer.

(** What the decoder makes of a byte. *)
Inductive DecodeResult :=
  | DataContinue (byte : Z)
  | DataComplete
  | NoData
  | DecodeError.

(** ** The streaming encoder *)

Record StreamingCobsEncoder := mkEncoder {
  en_usart : UsartTransport;
  en_buf : list Z;
  en_count : nat;
}.

Definition flush_block (e : StreamingCobsEncoder) (overhead : Z) : exec StreamingCobsEncoder :=
  let! buf := set_idx (en_buf e) 0 overhead in
  let! block := slice buf 0 (1 + en_count e) in
  Ret (mkEncoder (ds_write (en_usart e) block) buf 0).

Fixpoint encoder_push (data : list Z) (e : StreamingCobsEncoder) : exec StreamingCobsEncoder :=
  match data with
  | [] => Ret e
  | byte :: data =>
      let! e :=
        if decide (byte = 0%Z) then flush_block e (Z.of_nat (en_count e) + 1)
        else
          let! buf := set_idx (en_buf e) (1 + en_count e) byte in
          let e := mkEncoder (en_usart e) buf (en_count e + 1) in
          if decide (en_count e = 254) then flush_block e 0xFF else Ret e in
      encoder_push data e
  end.

Definition encoder_finalize (e : StreamingCobsEncoder) : exec UsartTransport :=
  let! e := flush_block e (Z.of_nat (en_count e) + 1) in
  Ret (ds_scratch (ds_write (en_usart e) [0%Z]) (en_buf e)).

Section usart.
(** The task itself and the proxy, the encoder of the library for small replies, and the
    identity of the device. *)
Context (SELF_TID : Z) (refresh_tid : Z → Z) (host_proxy : option Z) (cobs_encode : list Z → list Z) (identity : Awake).

Definition MAX_SMALL_REPLY : nat := 64.

Definition send_ipc_reply (d : UsartTransport) (body : list Z) : exec UsartTransport :=
  if decide (MAX_SMALL_REPLY < length body) then Ret d else
  Ret (ds_write d (cobs_encode (TYPE_IPC_REPLY :: body) ++ [0%Z])).

Definition send_tunnel_error (d : UsartTransport) (sq : Z) (c : TunnelErrorCode) : exec UsartTransport :=
  let! (n, body) := encode_simple (mkTunnelError c) (replicate 16 0%Z) sq in
  match n with
  | None => Ret d
  | Some n => let! body := slice body 0 n in send_ipc_reply d body
  end.

Definition send_awake (d : UsartTransport) (sq : Z) : exec UsartTransport :=
  let! (n, frame) := encode_simple identity (replicate (HEADER_SIZE + 1 + AWAKE_PAYLOAD_SIZE) 0%Z) sq in
  match n with
  | None => Panic
  | Some n => let! frame := slice frame 0 n in send_ipc_reply d frame
  end.

Definition handle_control_request (d : UsartTransport) (body : list Z) : exec UsartTransport :=
  let! h := header_decode body in
  match h with
  | Err _ => Ret d
  | Ok h =>
      if decide (frame_type h ≠ SimpleT) then Ret d else
      match body !! HEADER_SIZE with
      | None => Ret d
      | Some op => if decide (op ≠ OP_MOSHI_MOSHI) then Ret d else send_awake d (seq h)
      end
  end.

(** Whether the request was staged; the proxy has been notified then. *)
Definition stage_ipc_request (d : UsartTransport) (body : list Z) : exec (bool * UsartTransport) :=
  let! h := header_decode body in
  match h with
  | Err _ => Ret (false, d)
  | Ok h =>
      if decide (frame_type h ≠ IpcRequestT) then Ret (false, d) else
      match host_proxy with
      | None => let! d := send_tunnel_error d (seq h) NoHostForwarding in Ret (false, d)
      | Some _ => Ret (true, ds_push d 0)
      end
  end.

Definition usart_unlock (s : UsartState) : UsartState :=
  let '(d, t) := s in (ds_set d (ds_write_pos d) (ds_truncated d) false, release_lock t).

(** A byte of a frame goes into the shared buffer. *)
Definition data_continue (s : UsartState) (byte : Z) : exec UsartState :=
  let '(d, t) := s in
  if ds_truncated d then Ret s else
  let '(ok, d, t) :=
    if negb (ds_locked d) && negb (ds_staged d) then
      let '(ok, t) := try_acquire_or_wipe refresh_tid t SELF_TID in
      if ok then (true, ds_set d (ds_write_pos d) false true, t) else (false, ds_set d (ds_write_pos d) true (ds_locked d), t)
    else (true, d, t) in
  if negb ok then Ret (d, t) else
  if decide (ds_write_pos d < length (tn_data t)) then
    let! data := set_idx (tn_data t) (ds_write_pos d) byte in
    Ret (ds_set d (ds_write_pos d + 1) (ds_truncated d) (ds_locked d), set_data t data)
  else Ret (ds_set d (ds_write_pos d) true (ds_locked d), t).

(** A frame is complete: its first byte says what it is. *)
Definition data_complete (s : UsartState) : exec UsartState :=
  let '(d, t) := s in
  let decoded_len := ds_write_pos d in
  let was_truncated := ds_truncated d in
  let d := ds_set d 0 false (ds_locked d) in
  if decide (decoded_len = 0 ∨ was_truncated = true) then
    if ds_locked d then Ret (usart_unlock (d, t)) else Ret (d, t)
  else
  let! type_byte := idx (tn_data t) 0 in
  let! data := copy_within (tn_data t) 1 decoded_len 0 in
  let t := set_data t data in
  let body_len := decoded_len - 1 in
  let! body := slice data 0 body_len in
  if decide (type_byte = TYPE_IPC_REQUEST) then
    let! (staged, d) := stage_ipc_request d body in
    if staged then Ret (ds_stage d body_len true (ds_locked d), transfer_lock (set_len t body_len) (default 0%Z host_proxy))
    else Ret (usart_unlock (d, t))
  else if decide (type_byte = TYPE_CONTROL_REQUEST) then
    let! d := handle_control_request d body in Ret (usart_unlock (d, t))
  else Ret (usart_unlock (d, t)).

Definition usart_feed_byte (s : UsartState) (r : DecodeResult) : exec UsartState :=
  match r with
  | DataContinue byte => data_continue s byte
  | DataComplete => data_complete s
  | NoData => Ret s
  | DecodeError =>
      let '(d, t) := s in
      let '(d, t) := if ds_locked d then usart_unlock (d, t) else (d, t) in
      Ret (ds_set d 0 false (ds_locked d), t)
  end.

Fixpoint usart_feed_all (rs : list DecodeResult) (s : UsartState) : exec UsartState :=
  match rs with
  | [] => Ret s
  | r :: rs => let! s := usart_feed_byte s r in usart_feed_all rs s
  end.

(** [handle_usart_rx], on all bytes that have arrived. *)
Definition handle_usart_rx (rs : list DecodeResult) (s : UsartState) : exec UsartState :=
  if ds_staged s.1 then Ret s else usart_feed_all rs s.

Definition usart_fetch_pending_request (s : UsartState) : result nat HostTransportError :=
  if negb (ds_staged s.1) then Err NoPendingRequest else Ok (ds_staged_len s.1).

Definition usart_deliver_reply (s : UsartState) : exec UsartState :=
  let '(d, t) := s in
  let! data := slice (tn_data t) 0 (tn_len t) in
  let! e := encoder_push [TYPE_IPC_REPLY] (mkEncoder d (ds_cobs_buf d) 0) in
  let! e := encoder_push data e in
  let! d := encoder_finalize e in
  Ret (ds_stage d 0 false false, release_lock t).
End usart.

(** * The proxy's handler *)

(** What the proxy needs of a transport. *)
Class HostTransport (T : Type) := {
  fetch_pending_request : T * TunnelBuffer → result nat HostTransportError;
  deliver_reply : T * TunnelBuffer → exec (T * TunnelBuffer);
}.

#[export] Instance UsbTransport_HostTransport : HostTransport UsbTransport := {|
  fetch_pending_request := usb_fetch_pending_request;
  deliver_reply := usb_deliver_reply;
|}.

#[export] Instance UsartTransport_HostTransport : HostTransport UsartTransport := {|
  fetch_pending_request := usart_fetch_pending_request;
  deliver_reply := usart_deliver_reply;
|}.

Section handler.
Context {W : Type} (sys_send : SendCall → W → SendResult * W).

(** [LAST_DELIVERY] and [MSG_BUF]. *)
Record ProxyTask := mkProxyTask {
  pt_last_transport : Z;
  pt_last_len : nat;
  pt_msg : list Z;
  pt_world : W;
}.

Definition proxy_task_new (w : W) : ProxyTask := mkProxyTask 0 0 (replicate MAX_MESSAGE 0%Z) w.

Context (TASK_COUNT : nat).

Definition revoke_all_handles (w : W) : W :=
  foldl (λ w i, (sys_send (mkCall (Z.of_nat i) (IpcServer.opcode 0 REVOKE_ALL_METHOD) [] []) w).2) w (List.seq 0 TASK_COUNT).

Section transport.
(** The transport that the notification came from, its number and its task. *)
Context {T : Type} `{HostTransport T} (number transport_tid : Z).

Definition redeliver (p : ProxyTask) (s : T * TunnelBuffer) : exec (ProxyTask * (T * TunnelBuffer)) :=
  if decide (pt_last_len p = 0) then Ret (p, s) else
  if decide (pt_last_transport p ≠ number) then Ret (p, s) else
  let '(tr, t) := s in
  let owner := holder t in
  let! s := deliver_reply (tr, transfer_lock (set_len t (pt_last_len p)) owner) in
  Ret (p, s).

Definition serve_request (p : ProxyTask) (s : T * TunnelBuffer) : exec (ProxyTask * (T * TunnelBuffer)) :=
  match fetch_pending_request s with
  | Err _ => Ret (p, s)
  | Ok request_len =>
      if decide (request_len = 0) then Ret (p, s) else
      let '(tr, t) := s in
      let! (outcome, px) := dispatch_tunneled_request sys_send (mkProxy (tn_data t) (pt_msg p) (pt_world p)) request_len in
      let t := set_data t (px_buf px) in
      let len := match outcome with DReply len | DError len => len | DSkip => 0 end in
      if decide (len = 0) then Ret (mkProxyTask (pt_last_transport p) (pt_last_len p) (px_msg px) (px_world px), (tr, t)) else
      let! s := deliver_reply (tr, transfer_lock (set_len t len) transport_tid) in
      Ret (mkProxyTask number len (px_msg px) (px_world px), s)
  end.

(** [handle_host_request], for a sender that is one of the transports. *)
Definition handle_host_request (note : Z) (p : ProxyTask) (s : T * TunnelBuffer) : exec (ProxyTask * (T * TunnelBuffer)) :=
  if decide (note = 0xFFFFFFFF%Z) then
    Ret (mkProxyTask (pt_last_transport p) (pt_last_len p) (pt_msg p) (revoke_all_handles (pt_world p)), s)
  else if decide (note = 1%Z) then redeliver p s
  else serve_request p s.
End transport.
End handler.

Arguments mkProxyTask {W} _ _ _ _.
Arguments pt_last_transport {W} _.
Arguments pt_last_len {W} _.
Arguments pt_msg {W} _.
Arguments pt_world {W} _.
Arguments proxy_task_new {W} _.
