(* ===== verification/TunnelProps.v ===== *)
(** Calls of the host through the tunnel: over USB a request comes back as the reply of
    the call it stands for, as long as nothing else happens; and what goes wrong
    otherwise. *)

From S2P Require Import Prelude UsbHeader UsbMessages UsbIpc UsbReader UsbCrc IpcServer Proxy ProxyProps Tunnel.

(** * Receiving *)

(** A transfer: full packets and a short one. *)
Definition is_transfer (packets : list (list Z)) (bytes : list Z) : Prop :=
  ∃ init last, packets = init ++ [last] ∧ Forall (λ p, length p = 64) init ∧ 0 < length last < 64 ∧ concat packets = bytes.

(** Between transfers. *)
Definition usb_ready (u : UsbTransport) (t : TunnelBuffer) : Prop :=
  ut_state u = Idle ∧ ut_len u = 0 ∧ tn_lock t = FREE ∧ length (tn_data t) = TUNNEL_DATA_SIZE.

Section receive.
Context (SELF_TID : Z) (refresh_tid : Z → Z) (host_proxy : option Z).

(** The transport holds the lock, or can take it. *)
Definition receiving (u : UsbTransport) (t : TunnelBuffer) : Prop :=
  (ut_state u = Accumulating ∧ tn_lock t = SELF_TID) ∨ (ut_state u = Idle ∧ tn_lock t = FREE).

Lemma accumulate_ok u t bytes :
  receiving u t → ut_len u + length bytes ≤ length (tn_data t) →
  accumulate SELF_TID refresh_tid (u, t) bytes =
    Ret (ut_goto u Accumulating (ut_len u + length bytes), mkTunnel SELF_TID (tn_len t) (splice (tn_data t) (ut_len u) bytes)).
Proof.
  intros Hr Hl. unfold accumulate. destruct Hr as [[Hs Hk]|[Hs Hk]]; rewrite Hs.
  - rewrite decide_False by done. rewrite decide_False by done. cbn [negb]. rewrite decide_False by lia. rewrite copy_at_ok by lia. cbn [ebind].
    unfold set_data. by rewrite Hs, Hk.
  - rewrite decide_False by done. rewrite decide_True by done. unfold try_acquire_or_wipe, try_acquire, lock_exchange. rewrite Hk, decide_True by done. cbn [negb].
    cbn [tn_data set_lock ut_len ut_goto]. rewrite decide_False by lia. rewrite copy_at_ok by lia. reflexivity.
Qed.

Lemma splice_splice {A} (l : list A) off s1 s2 :
  off + length s1 + length s2 ≤ length l → splice (splice l off s1) (off + length s1) s2 = splice l off (s1 ++ s2).
Proof.
  intros H. unfold splice at 1. rewrite take_splice_end by lia. rewrite drop_splice by lia. unfold splice. rewrite <- !app_assoc. do 4 f_equal. rewrite length_app. lia.
Qed.

(** The packets of a transfer, up to its processing. *)
Lemma usb_loop_transfer init last more u t :
  Forall (λ p, length p = 64) init → 0 < length last < 64 → receiving u t → ut_len u + length (concat (init ++ [last])) ≤ length (tn_data t) →
  usb_loop SELF_TID refresh_tid host_proxy ((ReadPacket <$> init ++ [last]) ++ more) (u, t) =
    let! (staged, s) := process_accumulated_frame host_proxy
      (ut_goto (ut_disconnect u false) Accumulating (ut_len u + length (concat (init ++ [last]))),
       mkTunnel SELF_TID (tn_len t) (splice (tn_data t) (ut_len u) (concat (init ++ [last])))) in
    Ret (if staged then (ut_push s.1 0, s.2) else s).
Proof.
  intros Hi. revert u t. induction Hi as [|p init Hp _ IH]; intros u t Hl Hr Hb.
  - cbn [app fmap list_fmap usb_loop concat] in *. rewrite app_nil_r in *. rewrite decide_False by lia. cbn [fst snd].
    rewrite accumulate_ok by done. cbn [ebind]. rewrite decide_True by lia. reflexivity.
  - cbn [app fmap list_fmap usb_loop concat] in *. rewrite length_app in *. rewrite decide_False by lia. cbn [fst snd]. rewrite accumulate_ok by (done || (cbn; lia)). cbn [ebind].
    rewrite decide_False by lia. rewrite IH; clear IH; [|done|by left|cbn [ut_len ut_goto tn_data]; rewrite length_splice by (cbn; lia); cbn; lia].
    cbn [ut_len ut_goto ut_disconnect tn_data tn_len]. rewrite splice_splice by lia. rewrite <- Nat.add_assoc. reflexivity.
Qed.

(** ** A frame with its checksum *)

Definition raw_of (ty : FrameType) (sq : Z) (payload : list Z) : RawFrame := mkFrame (mkHeader ty sq (Z.of_nat (length payload))) payload.

Lemma raw_of_ok ty sq payload : is_u 16 sq → is_u 16 (Z.of_nat (length payload)) → raw_ok (raw_of ty sq payload).
Proof. intros Hs Hl. split; [by split|]. done. Qed.

(** What becomes of a frame that arrived intact. *)
Definition process_frame (s : UsbState) (f : RawFrame) : exec (bool * UsbState) :=
  let! err := frame_parse_simple TunnelError f in
  match err with
  | Some e => if decide (code e = ReplyCorrupted) then Ret (false, retransmit s) else Ret (false, drop_transfer s)
  | None =>
      let! req := as_ipc_request f in
      match req, host_proxy with
      | None, _ => Ret (false, drop_transfer s)
      | Some _, None =>
          let '(u, t) := drop_transfer s in
          let! u := write_tunnel_error u (seq (fheader f)) NoHostForwarding in
          Ret (false, (u, t))
      | Some _, Some tid => Ret (true, (ut_goto s.1 Staged (ut_len s.1), transfer_lock (set_len s.2 (raw_size f)) tid))
      end
  end.

Lemma process_wrapped u t f rest :
  raw_ok f → ut_state u ≠ Overflowed → tn_data t = wrap_frame (raw_wire f) ++ rest → ut_len u = length (wrap_frame (raw_wire f)) →
  process_accumulated_frame host_proxy (u, t) = process_frame (u, t) f.
Proof.
  intros Hf Hs Hd Hn. pose proof (length_raw_wire f Hf) as Hlen. destruct (wrap_frame_cons (raw_wire f)) as [pad Hw]. pose proof Hf as [Hh Hpl].
  unfold process_accumulated_frame. rewrite Hn, Hd. rewrite decide_False by done.
  assert (length (raw_wire f) + 2 ≤ length (wrap_frame (raw_wire f))) as Hl2 by (rewrite Hw, length_app; cbn; lia).
  assert (raw_size f = HEADER_SIZE + Z.to_nat (length16 (fheader f))) as Hsz by reflexivity.
  rewrite decide_False by lia. rewrite slice_ok by (rewrite ?length_app; lia). cbn [ebind]. rewrite drop_0, Nat.sub_0_r, take_app_length.
  assert (header_decode (wrap_frame (raw_wire f)) = Ret (Ok (fheader f))) as ->.
  { rewrite Hw. unfold raw_wire. rewrite <- app_assoc. by apply header_decode_app. }
  cbn [ebind]. rewrite <- Hsz. rewrite decide_False by lia. rewrite Hw, <- app_assoc. cbn [app]. rewrite <- Hlen.
  rewrite (idx_ok _ _ (crc16 (raw_wire f) / 256 mod 256)%Z) by (rewrite lookup_app_r, Nat.sub_diag by lia; done). cbn [ebind].
  rewrite (idx_ok _ _ (crc16 (raw_wire f) mod 256)%Z) by (rewrite lookup_app_r by lia; replace (length (raw_wire f) + 1 - length (raw_wire f)) with 1 by lia; done). cbn [ebind].
  rewrite slice_ok by (rewrite ?length_app; lia). cbn [ebind]. rewrite drop_0, Nat.sub_0_r, take_app_length. rewrite be_roundtrip by apply crc16_u16. rewrite decide_False by tauto.
  assert (slice (raw_wire f ++ (crc16 (raw_wire f) / 256 mod 256)%Z :: (crc16 (raw_wire f) mod 256)%Z :: pad ++ rest) HEADER_SIZE (length (raw_wire f)) = Ret (fpayload f)) as ->.
  { unfold raw_wire at 1. rewrite <- app_assoc. apply slice_app; [by rewrite length_header_bytes|]. unfold raw_wire. rewrite length_app, length_header_bytes. reflexivity. }
  cbn [ebind]. unfold process_frame. cbn [fst snd]. rewrite Hlen, Hn, Hw. by destruct f.
Qed.
End receive.

(** * A call over USB *)

Lemma frame_wire_raw ty sq payload : frame_wire ty sq payload = raw_wire (raw_of ty sq payload).
Proof. reflexivity. Qed.

Lemma length_wrap_frame f : length f + 2 ≤ length (wrap_frame f) ≤ length f + 3.
Proof. unfold wrap_frame. rewrite !length_app. cbn [length be_bytes2]. destruct (bool_decide _); cbn; lia. Qed.

(** A whole transfer from a ready transport. *)
Lemma usb_transfer SELF refresh proxy packets f u t :
  raw_ok f → is_transfer packets (wrap_frame (raw_wire f)) → usb_ready u t → length (wrap_frame (raw_wire f)) ≤ TUNNEL_DATA_SIZE →
  ∃ rest, length (wrap_frame (raw_wire f) ++ rest) = TUNNEL_DATA_SIZE ∧ rest = drop (length (wrap_frame (raw_wire f))) (tn_data t) ∧
  handle_usb_event SELF refresh proxy (ReadPacket <$> packets) (u, t) =
    let! (staged, s) := process_frame proxy
      (ut_goto (ut_disconnect u false) Accumulating (length (wrap_frame (raw_wire f))), mkTunnel SELF (tn_len t) (wrap_frame (raw_wire f) ++ rest)) f in
    Ret (if staged then (ut_push s.1 0, s.2) else s).
Proof.
  intros Hf (init & last & -> & Hi & Hl & Hc) (R1 & R2 & R3 & R4) Hsz. set (wire := wrap_frame (raw_wire f)) in *.
  exists (drop (length wire) (tn_data t)). split; [rewrite length_app, length_drop; lia|]. split; [done|].
  unfold handle_usb_event. cbn [fst]. rewrite R1, decide_False by (intros [?|?]; done).
  pose proof (usb_loop_transfer SELF refresh proxy init last [] u t Hi Hl (or_intror (conj R1 R3)) ltac:(rewrite Hc, R2, R4; lia)) as E.
  rewrite app_nil_r in E. rewrite E, Hc, R2, splice_0. clear E. cbn [Nat.add].
  pose proof (process_wrapped SELF refresh proxy (ut_goto (ut_disconnect u false) Accumulating (length wire)) (mkTunnel SELF (tn_len t) (wire ++ drop (length wire) (tn_data t)))
    f (drop (length wire) (tn_data t)) Hf ltac:(done) eq_refl eq_refl) as Ep. fold wire in Ep. by rewrite Ep.
Qed.

(** What the host makes of an answer. *)
Definition host_reads (ans : list Z) (resp : IpcResponse) : Prop :=
  ∃ h, header_decode ans = Ret (Ok h) ∧ frame_size h = length ans ∧ as_ipc_response (mkFrame h (frame_payload h ans)) = Ret (Some resp).

Lemma host_reads_reply sq rp :
  is_u 16 sq → is_u 32 (rp_rc rp) → reply_valid rp →
  host_reads (frame_wire IpcReplyT sq (reply_payload rp)) (mkResponse (Ok (mkRepView (rp_rc rp) (pad_empty (rp_return_value rp)) (rp_lease_writeback rp))) sq).
Proof.
  intros Hs Hr Hv. destruct (frame_wire_decode IpcReplyT sq (reply_payload rp) []) as (Hd & Hz & Hp); [done|destruct Hv as [_ Hv]; unfold is_u, U16_MAX in *; lia|].
  rewrite app_nil_r in *. eexists. split; [exact Hd|]. split; [exact Hz|]. rewrite Hp. unfold as_ipc_response. cbn [frame_type fheader fpayload seq].
  by rewrite reply_from_bytes_payload.
Qed.

(** An error frame, as the host parses it. *)
Definition host_reads_error (ans : list Z) (sq : Z) (c : TunnelErrorCode) : Prop :=
  ∃ resp, host_reads ans resp ∧ resp_seq resp = sq ∧ response_parse_simple TunnelError resp = Ret (Some (mkTunnelError c)).

Lemma host_reads_tunnel_error sq c : is_u 16 sq → host_reads_error (tunnel_error_frame sq c) sq c.
Proof.
  intros Hs. destruct (frame_wire_decode SimpleT sq [OP_TUNNEL_ERROR; tunnel_code_as_u8 c] []) as (Hd & Hz & Hp); [done|unfold is_u; cbn; lia|].
  rewrite app_nil_r in *. unfold host_reads_error, tunnel_error_frame. eexists. split; [eexists; split; [exact Hd|]; split; [exact Hz|]; rewrite Hp; reflexivity|]. split; [done|].
  cbn [response_parse_simple inner]. exact (simple_parse_own (mkTunnelError c) [] I).
Qed.

(** What the host gets for a call. *)
Definition call_answered (leases : list LeaseDescriptor) (sq : Z) (res : SendResult) (ans : list Z) : Prop :=
  match res with
  | TargetDied _ => host_reads_error ans sq TaskDead
  | Sent rep =>
      (reply_room rep leases → ∃ ret, return_of rep ret ∧
         host_reads ans (mkResponse (Ok (mkRepView (sr_rc rep) ret (writeback leases (sr_leases rep)))) sq)) ∧
      (~ reply_room rep leases → host_reads_error ans sq Internal)
  end.

(** What comes of a request, between the states [w] and [w'] of the system: one call, with
    its first four leases, and the answer to it; or no call, if they do not fit in the
    pool. *)
Definition request_served {W} (sys_send : SendCall → W → SendResult * W) (r : IpcRequest) (sq : Z) (w w' : W) (ans : list Z) : Prop :=
  if decide (lens_total (served r) ≤ LEASE_POOL_SIZE) then
    ∃ mems, mems_fit (served r) mems ∧ (leases_clear r → mems = served_memory r) ∧
      w' = (sys_send (call_with r mems) w).2 ∧ call_answered (served r) sq (sys_send (call_with r mems) w).1 ans
  else w' = w ∧ host_reads_error ans sq LeasePoolFull.

Section call.
Context {W : Type} (sys_send : SendCall → W → SendResult * W).
Hypothesis kernel : kernel_ok sys_send.

Lemma error_answer (p : ProxyState (W:=W)) out sq c :
  is_u 16 sq → out = DError 7 → answer p (tunnel_error_frame sq c) →
  let ans := frame_wire SimpleT sq [OP_TUNNEL_ERROR; tunnel_code_as_u8 c] in
  (out = DReply (length ans) ∨ out = DError (length ans)) ∧ answer p ans ∧ is_u 16 (Z.of_nat (length [OP_TUNNEL_ERROR; tunnel_code_as_u8 c])) ∧ host_reads_error ans sq c.
Proof. intros Hs Eo Ha. cbv zeta. split; [by right|]. split; [exact Ha|]. split; [unfold is_u; cbn; lia|]. by apply host_reads_tunnel_error. Qed.

(** The proxy's dispatch, with the answer as a frame that the host understands. *)
Lemma dispatch_answers r sq rest msg w :
  request_typed r → request_valid r → is_u 16 sq → length msg = MAX_MESSAGE →
  let frame := frame_wire IpcRequestT sq (request_payload r) in
  length (frame ++ rest) = TUNNEL_DATA_SIZE →
  ∃ out p ty payload, dispatch_tunneled_request sys_send (mkProxy (frame ++ rest) msg w) (length frame) = Ret (out, p) ∧
    length (px_msg p) = MAX_MESSAGE ∧ length (px_buf p) = TUNNEL_DATA_SIZE ∧
    let ans := frame_wire ty sq payload in
    (out = DReply (length ans) ∨ out = DError (length ans)) ∧ answer p ans ∧ is_u 16 (Z.of_nat (length payload)) ∧ length ans ≤ TUNNEL_DATA_SIZE ∧
    request_served sys_send r sq w (px_world p) ans.
Proof.
  intros Ht Hv Hs Hm frame Hlen. pose proof (dispatch_is_call sys_send r sq rest msg w kernel Ht Hv Hs Hm) as H. cbv zeta in H. fold frame in H. specialize (H Hlen).
  destruct H as (out & p & E & P2 & P3 & P4). unfold request_served.
  assert (∀ ans, answer p ans → length ans ≤ TUNNEL_DATA_SIZE) as Hal by (intros ans Ha; unfold answer in Ha; apply (f_equal length) in Ha; rewrite length_take in Ha; lia).
  destruct (decide (lens_total (served r) ≤ LEASE_POOL_SIZE)) as [Hp|Hp].
  2: { destruct P4 as (P1 & Eo & Ha). destruct (error_answer p out sq LeasePoolFull Hs Eo Ha) as (A1 & A2 & A3 & A4). eexists out, p, _, _.
       split; [exact E|]. split; [exact P2|]. split; [exact P3|]. cbv zeta. split; [exact A1|]. split; [exact A2|]. split; [exact A3|]. split; [by apply Hal|]. split; [exact P1|exact A4]. }
  destruct P4 as (mems & Hf & Hc & P1 & P4). pose proof (kernel (call_with r mems) w) as Hk. destruct (sys_send (call_with r mems) w) as [res w'] eqn:Es. cbn [fst snd] in Hk, P1, P4.
  assert (∀ ty payload, let ans := frame_wire ty sq payload in
    (out = DReply (length ans) ∨ out = DError (length ans)) ∧ answer p ans ∧ is_u 16 (Z.of_nat (length payload)) ∧ call_answered (served r) sq res ans →
    ∃ out p ty payload, dispatch_tunneled_request sys_send (mkProxy (frame ++ rest) msg w) (length frame) = Ret (out, p) ∧
      length (px_msg p) = MAX_MESSAGE ∧ length (px_buf p) = TUNNEL_DATA_SIZE ∧
      let ans := frame_wire ty sq payload in
      (out = DReply (length ans) ∨ out = DError (length ans)) ∧ answer p ans ∧ is_u 16 (Z.of_nat (length payload)) ∧ length ans ≤ TUNNEL_DATA_SIZE ∧
      ∃ mems, mems_fit (served r) mems ∧ (leases_clear r → mems = served_memory r) ∧
        px_world p = (sys_send (call_with r mems) w).2 ∧ call_answered (served r) sq (sys_send (call_with r mems) w).1 ans) as Hdone.
  { intros ty payload ans (A1 & A2 & A3 & A4). exists out, p, ty, payload. split; [exact E|]. split; [exact P2|]. split; [exact P3|]. cbv zeta. split; [exact A1|]. split; [exact A2|].
    split; [exact A3|]. split; [by apply Hal|]. exists mems. rewrite Es. done. }
  destruct res as [rep|ms].
  2: { destruct P4 as [Eo Ha]. eapply Hdone. by apply error_answer. }
  destruct Hk as (K1 & K2 & K3). destruct P4 as [Pr Pn]. destruct (decide (HEADER_SIZE + REP_FIXED + Nat.max (length (sr_reply rep)) 1 + 2 * wb_len (served r) ≤ TUNNEL_DATA_SIZE)) as [Hr|Hn].
  - destruct (Pr Hr) as (ret & Hret & Eo & Ha). apply (Hdone IpcReplyT (reply_payload (mkReply (sr_rc rep) ret (writeback (served r) (sr_leases rep))))).
    pose proof (Hal _ Ha) as Hla. rewrite length_frame_wire in Hla. pose proof TUNNEL_DATA_SIZE_eq as HT.
    assert (MAX_MESSAGE = Z.to_nat 256) as HM by reflexivity.
    assert (length ret ≤ 256 ∧ pad_empty ret = ret) as [Hlr Hpe] by (destruct Hret as [[E0 ->]|[E0 E1]]; [split; [lia|destruct (sr_reply rep); [destruct (E0 eq_refl)|reflexivity]]|split; [lia|destruct ret; [discriminate E1|reflexivity]]]).
    assert (reply_valid (mkReply (sr_rc rep) ret (writeback (served r) (sr_leases rep)))) as Hrv by (split; [done|unfold U16_MAX; lia]).
    cbv zeta. split; [by left|]. split; [exact Ha|]. split; [unfold is_u; lia|]. split; [|intros Hn; destruct (Hn Hr)]. intros _. exists ret. split; [done|].
    pose proof (host_reads_reply sq (mkReply (sr_rc rep) ret (writeback (served r) (sr_leases rep))) Hs K1 Hrv) as Hh. cbn [rp_rc rp_return_value rp_lease_writeback] in Hh. by rewrite Hpe in Hh.
  - destruct (Pn Hn) as [Eo Ha]. destruct (error_answer p out sq Internal Hs Eo Ha) as (A1 & A2 & A3 & A4). eapply Hdone. split; [exact A1|]. split; [exact A2|]. split; [exact A3|].
    split; [intros Hr; destruct (Hn Hr)|done].
Qed.
End call.

(** * Transports *)

(** What a transport promises to the proxy: it delivers the bytes in the buffer, in its
    own encoding, releases the buffer and has no request any more. *)
Class TransportLaws (T : Type) `{HostTransport T} := {
  transport_inv : T → Prop;
  delivered : T → T → list Z → Prop;
  deliver_reply_ok tr t :
    transport_inv tr → tn_len t ≤ length (tn_data t) → length (tn_data t) = TUNNEL_DATA_SIZE →
    ∃ tr', deliver_reply (tr, t) = Ret (tr', release_lock t) ∧ transport_inv tr' ∧
      delivered tr tr' (take (tn_len t) (tn_data t)) ∧ fetch_pending_request (tr', release_lock t) = Err NoPendingRequest;
}.

(** Over USB: one transfer with a checksum; the transport is idle again. *)
Definition usb_delivered (u u2 : UsbTransport) (data : list Z) : Prop :=
  ∃ packets, u2 = mkUsb Idle 0 LastIpcReply (ut_disconnected u) (ut_packets u ++ packets) (ut_pushed u) ∧ is_transfer packets (wrap_frame data).

Lemma usb_deliver_ok (u : UsbTransport) t :
  tn_len t ≤ length (tn_data t) → length (tn_data t) = TUNNEL_DATA_SIZE →
  ∃ u2, usb_deliver_reply (u, t) = Ret (u2, release_lock t) ∧ usb_delivered u u2 (take (tn_len t) (tn_data t)).
Proof.
  intros Hl Hd. unfold usb_deliver_reply. rewrite slice_ok by lia. cbn [ebind]. rewrite drop_0, Nat.sub_0_r.
  set (data := take _ _). assert (length data = tn_len t) as Hld by (unfold data; rewrite length_take; lia). pose proof TUNNEL_DATA_SIZE_eq as HT.
  destruct (transfer_packets_ok 66 data ltac:(lia)) as (init & last & Ep & Hc & Hi & Hla). unfold deliver_reply_packets. rewrite Ep. cbn [ebind].
  eexists. split; [reflexivity|]. exists (init ++ [last]). split; [reflexivity|]. exists init, last. split; [reflexivity|]. split; [exact Hi|]. split; [exact Hla|exact Hc].
Qed.

#[export, refine] Instance UsbTransport_laws : TransportLaws UsbTransport := {|
  transport_inv _ := True;
  delivered := usb_delivered;
|}.
Proof.
  intros u t _ Hl Hd. destruct (usb_deliver_ok u t Hl Hd) as (u2 & E & Hdel). exists u2. split; [exact E|]. split; [done|]. split; [done|]. destruct Hdel as (packets & -> & _). done.
Defined.

Section serve.
Context {W : Type} (sys_send : SendCall → W → SendResult * W) {T : Type} `{TransportLaws T} (number tid : Z).
Hypothesis kernel : kernel_ok sys_send.

(** The proxy serves a request that a transport has staged. *)
Lemma serve_staged r sq rest tr t p :
  request_typed r → request_valid r → is_u 16 sq → length (pt_msg p) = MAX_MESSAGE →
  let frame := frame_wire IpcRequestT sq (request_payload r) in
  transport_inv tr → fetch_pending_request (tr, t) = Ok (length frame) → tn_data t = frame ++ rest → length (tn_data t) = TUNNEL_DATA_SIZE →
  ∃ p2 tr2 t2 ty payload, let ans := frame_wire ty sq payload in
    serve_request sys_send number tid p (tr, t) = Ret (p2, (tr2, t2)) ∧
    tn_lock t2 = FREE ∧ length (tn_data t2) = TUNNEL_DATA_SIZE ∧ transport_inv tr2 ∧ fetch_pending_request (tr2, t2) = Err NoPendingRequest ∧
    length (pt_msg p2) = MAX_MESSAGE ∧
    is_u 16 (Z.of_nat (length payload)) ∧ delivered tr tr2 ans ∧ request_served sys_send r sq (pt_world p) (pt_world p2) ans.
Proof.
  intros Ht Hv Hs Hm frame Hinv Hst Hd Hlen. rewrite Hd in Hlen.
  destruct (dispatch_answers sys_send kernel r sq rest (pt_msg p) (pt_world p) Ht Hv Hs Hm Hlen) as (out & px & ty & payload & E & P2 & P3 & Eo & Ha & Hu & Hal & Hans).
  fold frame in E. set (ans := frame_wire ty sq payload) in *. assert (0 < length ans) as Hpos by (unfold ans; rewrite length_frame_wire; lia).
  unfold serve_request. rewrite Hst. rewrite decide_False by (unfold frame; rewrite length_frame_wire; lia). rewrite Hd, E. cbn [ebind].
  assert (match out with DReply len | DError len => len | DSkip => 0 end = length ans) as -> by (by destruct Eo as [-> | ->]). rewrite decide_False by lia.
  set (t1 := transfer_lock _ tid). destruct (deliver_reply_ok tr t1 Hinv) as (tr2 & Ed & Hi2 & Hdel & Hno); [change (length ans ≤ length (px_buf px)); lia|exact P3|]. rewrite Ed. cbn [ebind].
  unfold answer in Ha. change (take (tn_len t1) (tn_data t1)) with (take (length ans) (px_buf px)) in Hdel. rewrite Ha in Hdel.
  exists (mkProxyTask number (length ans) (px_msg px) (px_world px)), tr2, (release_lock t1), ty, payload. cbv zeta.
  split; [reflexivity|]. split; [reflexivity|]. split; [exact P3|]. done.
Qed.
End serve.

(** * Examples *)

(** A server that records its calls, answers 7, 8 and fills the write leases with 9. *)
Definition ex_server (c : SendCall) (w : list SendCall) : SendResult * list SendCall :=
  (Sent (mkSent 0 [7; 8]%Z ((λ l, if cl_writable l then replicate (length (cl_bytes l)) 9%Z else cl_bytes l) <$> sc_leases c)), w ++ [c]).

Lemma ex_server_ok : kernel_ok ex_server.
Proof.
  intros c w. cbn [ex_server fst sr_rc sr_reply sr_leases]. split_and!; [unfold is_u; lia|cbn; unfold MAX_MESSAGE; lia|].
  induction (sc_leases c) as [|l ls IH]; [constructor|]. cbn [fmap list_fmap]. constructor; [|exact IH]. destruct (cl_writable l); [|done]. apply length_replicate.
Qed.

Definition ex_tunnelled : IpcRequest := mkRequest 3 1 2 [1; 2; 3]%Z [mkLease LRead 2; mkLease LWrite 3] [[10; 11]%Z].

Lemma ex_tunnelled_ok : request_typed ex_tunnelled ∧ request_valid ex_tunnelled ∧ lens_total (served ex_tunnelled) ≤ LEASE_POOL_SIZE ∧ leases_clear ex_tunnelled.
Proof.
  split_and!.
  - split_and!; cbn; unfold is_u; try lia. repeat constructor; unfold is_u; cbn; lia.
  - split_and!; [cbn; unfold MAX_ARGS; lia|cbn; lia|reflexivity|vm_compute; discriminate].
  - change (5 ≤ LEASE_POOL_SIZE). rewrite LEASE_POOL_SIZE_eq. lia.
  - by apply (leases_clear_data_first _ [mkLease LRead 2] [mkLease LWrite 3]); [|repeat constructor..].
Qed.

(** Its call, as it should be. *)
Definition ex_call : SendCall := mkCall 3 (IpcServer.opcode 1 2) [1; 2; 3]%Z [mkCallLease false [10; 11]%Z; mkCallLease true [0; 0; 0]%Z].

Lemma ex_tunnelled_served w w' ans :
  request_served ex_server ex_tunnelled 77 w w' ans → w' = w ++ [ex_call] ∧ call_answered (served ex_tunnelled) 77 (ex_server ex_call w).1 ans.
Proof.
  destruct ex_tunnelled_ok as (_ & _ & Hp & Hc). unfold request_served. rewrite decide_True by exact Hp. intros (mems & _ & Hm & -> & Ha). rewrite (Hm Hc) in *. done.
Qed.

Definition ex_frame : list Z := frame_wire IpcRequestT 77 (request_payload ex_tunnelled).

Lemma ex_frame_size : length ex_frame ≤ MAX_DECODED_FRAME.
Proof. assert (length ex_frame ≤ 64) by (vm_compute; lia). unfold MAX_DECODED_FRAME. rewrite LEASE_POOL_SIZE_eq. lia. Qed.

Lemma one_packet bytes : 0 < length bytes < 64 → is_transfer [bytes] bytes.
Proof. intros H. exists [], bytes. split; [done|]. split; [constructor|]. split; [done|]. apply app_nil_r. Qed.

Lemma usb_new_ready : usb_ready usb_new tunnel_new.
Proof. split; [reflexivity|]. split; [reflexivity|]. split; [reflexivity|]. apply length_replicate. Qed.

Lemma proxy_new_msg {W} (w : W) : length (pt_msg (proxy_task_new w)) = MAX_MESSAGE.
Proof. apply length_replicate. Qed.

Lemma ex_request_transfer : is_transfer [wrap_frame ex_frame] (wrap_frame ex_frame).
Proof. apply one_packet. vm_compute. lia. Qed.

(** * A call *)

(** C14: a call of the host over USB. The host sends any request that it can encode and
    that fits in a frame, as packets, to a transport that is between transfers; the proxy
    is notified, gets the buffer and handles the notification. Nothing panics, and
    afterwards the transport is ready again and the buffer free. If the first four leases
    of the request do not fit in the pool of the proxy no call is made, and the host is
    told so. Otherwise exactly one call is made: to the task, with the opcode and the
    arguments of the request, and with its first four leases (the proxy does not look at
    further ones), which are as long and as writable as requested, and hold the data of
    the request, or zeros, if their data can be compacted in place ([leases_clear], for
    one when the leases with data come first; [read_lease_zeroed] is what else happens).
    The packets that were written are one transfer, which the host's check accepts as a
    frame that it reads as the reply, with the response code, the return value and the
    contents of the write leases among the four, under the sequence number of the
    request; or as the error that the target died, the leases had no room, or the reply
    had none. *)
Theorem usb_remote_call {W} (sys_send : SendCall → W → SendResult * W) SELF refresh proxy tid count r sq packets u t p :
  kernel_ok sys_send → request_typed r → request_valid r → is_u 16 sq →
  let frame := frame_wire IpcRequestT sq (request_payload r) in
  length frame ≤ MAX_DECODED_FRAME → usb_ready u t → length (pt_msg p) = MAX_MESSAGE → is_transfer packets (wrap_frame frame) →
  ∃ s1 p2 u2 t2 packets2 ans,
    handle_usb_event SELF refresh (Some proxy) (ReadPacket <$> packets) (u, t) = Ret s1 ∧
    ut_pushed s1.1 = ut_pushed u ++ [0%Z] ∧ tn_lock s1.2 = proxy ∧
    handle_host_request sys_send count 1 tid 0 p s1 = Ret (p2, (u2, t2)) ∧
    usb_ready u2 t2 ∧ length (pt_msg p2) = MAX_MESSAGE ∧
    ut_packets u2 = ut_packets u ++ packets2 ∧ is_transfer packets2 (wrap_frame ans) ∧ unwrap_frame (concat packets2) = Ret (Ok ans) ∧
    request_served sys_send r sq (pt_world p) (pt_world p2) ans.
Proof.
  intros Hk Ht Hv Hs frame Hsz Hready Hm Htr. pose proof Hv as (_ & _ & _ & Hu). unfold U16_MAX in Hu.
  assert (raw_ok (raw_of IpcRequestT sq (request_payload r))) as Hraw by (apply raw_of_ok; [done|unfold is_u; lia]).
  assert (length (wrap_frame frame) ≤ TUNNEL_DATA_SIZE) as Hsz2 by (pose proof (length_wrap_frame frame); unfold TUNNEL_DATA_SIZE; lia).
  destruct (usb_transfer SELF refresh (Some proxy) packets (raw_of IpcRequestT sq (request_payload r)) u t Hraw Htr Hready Hsz2) as (rest & Hlen & _ & E).
  change (raw_wire (raw_of IpcRequestT sq (request_payload r))) with frame in *. unfold process_frame, frame_parse_simple, as_simple, as_ipc_request in E. cbn [raw_of fheader frame_type fpayload] in E.
  rewrite decide_True in E by done. cbn [ebind] in E. rewrite decide_False in E by (intros H; by apply H). rewrite request_from_bytes_payload in E by done. cbn [ebind fst snd] in E.
  match type of E with _ = Ret ?x => set (s1 := x) in E end. destruct (wrap_frame_cons frame) as [pad Hw].
  assert (fetch_pending_request s1 = Ok (length frame)) as Hfetch.
  { change (Ok (E:=HostTransportError) (raw_size (raw_of IpcRequestT sq (request_payload r))) = Ok (length frame)). f_equal. symmetry. by apply (length_raw_wire (raw_of IpcRequestT sq (request_payload r))). }
  destruct (serve_staged sys_send (T:=UsbTransport) 1 tid Hk r sq ((crc16 frame / 256 mod 256)%Z :: (crc16 frame mod 256)%Z :: pad ++ rest) s1.1 s1.2 p Ht Hv Hs Hm)
    as (p2 & u2 & t2 & ty & payload & E2 & L2 & D2 & _ & _ & M2 & U2 & (packets2 & Eu & T2) & A2).
  - exact I.
  - exact Hfetch.
  - cbn [s1 snd tn_data transfer_lock set_lock set_len]. rewrite Hw, <- app_assoc. reflexivity.
  - exact Hlen.
  - exists s1, p2, u2, t2, packets2, (frame_wire ty sq payload). split; [exact E|]. split; [reflexivity|]. split; [reflexivity|]. split; [exact E2|].
    split; [split; [by rewrite Eu|split; [by rewrite Eu|split; [exact L2|exact D2]]]|]. split; [exact M2|]. split; [by rewrite Eu|]. split; [exact T2|]. split; [|exact A2].
    destruct T2 as (init & last & _ & _ & _ & ->). pose proof (unwrap_wrap (raw_of ty sq payload) [] (raw_of_ok ty sq payload Hs U2)) as Huw.
    rewrite app_nil_r in Huw. exact Huw.
Qed.

Lemma usb_remote_call_witness :
  ∃ s1 p2 u2 t2 packets2 ans,
    handle_usb_event 5 (λ tid, tid) (Some 6%Z) [ReadPacket (wrap_frame ex_frame)] (usb_new, tunnel_new) = Ret s1 ∧ tn_lock s1.2 = 6%Z ∧
    handle_host_request ex_server 10 1 5 0 (proxy_task_new []) s1 = Ret (p2, (u2, t2)) ∧ usb_ready u2 t2 ∧ pt_world p2 = [ex_call] ∧
    unwrap_frame (concat packets2) = Ret (Ok ans) ∧ call_answered (served ex_tunnelled) 77 (ex_server ex_call []).1 ans.
Proof.
  destruct ex_tunnelled_ok as (H1 & H2 & _).
  destruct (usb_remote_call ex_server 5 (λ tid, tid) 6 5 10 ex_tunnelled 77 [wrap_frame ex_frame] usb_new tunnel_new (proxy_task_new []) ex_server_ok H1 H2 ltac:(unfold is_u; lia)
    ex_frame_size usb_new_ready (proxy_new_msg []) ex_request_transfer) as (s1 & p2 & u2 & t2 & packets2 & ans & E1 & _ & E2 & E3 & E4 & _ & _ & _ & E6 & E7).
  apply ex_tunnelled_served in E7 as [E5 E7].
  exists s1, p2, u2, t2, packets2, ans. split; [exact E1|]. split; [exact E2|]. split; [exact E3|]. split; [exact E4|]. split; [exact E5|]. split; [exact E6|exact E7].
Defined.

(** * What goes wrong *)

Lemma length_tunnel_wire sq c : length (wrap_frame (tunnel_error_frame sq c)) = 9.
Proof. unfold wrap_frame. rewrite length_tunnel_error_frame. rewrite bool_decide_eq_false_2 by done. rewrite !length_app, length_tunnel_error_frame. reflexivity. Qed.

(** An error that the transport itself sends is a transfer that the host accepts. *)
Lemma write_tunnel_error_ok u sq c :
  let wire := wrap_frame (tunnel_error_frame sq c) in
  write_tunnel_error u sq c = Ret (ut_write (ut_sent u (LastError wire)) [wire]).
Proof.
  cbv zeta. unfold write_tunnel_error. rewrite (encode_simple_ok (mkTunnelError c)) by (by cbn). change (simple_len (mkTunnelError c)) with 7.
  rewrite decide_True by (rewrite length_replicate; lia). cbn [ebind]. change (frame_wire SimpleT sq (OPCODE TunnelError :: payload_bytes (mkTunnelError c))) with (tunnel_error_frame sq c).
  pose proof (length_tunnel_error_frame sq c) as Hl. rewrite slice_ok by (rewrite ?length_app; lia). cbn [ebind]. rewrite drop_0, Nat.sub_0_r, take_app_length' by done.
  set (f := tunnel_error_frame sq c) in *. change (replicate 19 0%Z) with (replicate 7 0%Z ++ replicate 12 0%Z). rewrite copy_at_0 by (rewrite length_app, !length_replicate; lia). cbn [ebind].
  rewrite drop_app_length' by (by rewrite length_replicate). rewrite set_idx_app by (rewrite ?length_replicate; lia). cbn [ebind]. rewrite set_idx_app by (rewrite ?length_app; cbn; lia). cbn [ebind].
  change ((7 + 2) mod 64) with 9. rewrite decide_False by lia. cbn [ebind]. rewrite slice_ok by (rewrite ?length_app; cbn; lia). cbn [ebind].
  rewrite drop_0, Nat.sub_0_r. rewrite take_app_length' by (rewrite !length_app; cbn; lia).
  assert ((f ++ [wrap 8 (Z.shiftr (crc16 f) 8)]) ++ [wrap 8 (crc16 f)] = wrap_frame f) as ->; [|reflexivity].
  unfold wrap_frame. rewrite Hl. change (bool_decide ((7 + 2) mod MAX_PACKET_SIZE = 0)) with false. cbv iota. rewrite app_nil_r, <- app_assoc. pose proof (crc16_u16 f) as Hc. revert Hc.
  generalize (crc16 f). intros crc Hc. rewrite shiftr8 by exact Hc. reflexivity.
Qed.

(** A transfer over USB that arrives while another task has the buffer takes it away.
    The transport cannot take the lock and treats the transfer as too long; when it
    rejects it, it releases the lock, although it is the other task that holds it. With
    the next packet it takes the lock and writes over the data of the other task, which
    is alive and has not released anything. *)
Theorem usb_takes_foreign_buffer SELF refresh proxy bytes bytes2 u t :
  ut_state u = Idle → tn_lock t ≠ FREE → refresh (tn_lock t) = tn_lock t → length (tn_data t) = TUNNEL_DATA_SIZE →
  0 < length bytes < 64 → length bytes2 = 64 →
  ∃ u1 t1 u2 t2,
    handle_usb_event SELF refresh proxy [ReadPacket bytes] (u, t) = Ret (u1, t1) ∧ tn_lock t1 = FREE ∧ tn_data t1 = tn_data t ∧
    handle_usb_event SELF refresh proxy [ReadPacket bytes2] (u1, t1) = Ret (u2, t2) ∧ tn_lock t2 = SELF ∧ take 64 (tn_data t2) = bytes2.
Proof.
  intros Hs Hl Hr Hd Hb Hb2. unfold handle_usb_event at 1. cbn [fst]. rewrite Hs, decide_False by (intros [?|?]; done). cbn [usb_loop]. rewrite decide_False by lia. cbn [fst snd].
  unfold accumulate at 1. cbn [ut_state ut_disconnect]. rewrite Hs. rewrite decide_False by done. rewrite decide_True by done.
  unfold try_acquire_or_wipe, try_acquire, lock_exchange. rewrite decide_False by done. rewrite decide_False by done. rewrite Hr, decide_False by tauto. cbn [negb ebind].
  rewrite decide_True by lia. unfold process_accumulated_frame. cbn [ut_state ut_goto]. rewrite decide_True by done. unfold nack. cbn [drop_transfer fst snd].
  unfold send_request_corrupted. rewrite write_tunnel_error_ok. cbn [ebind]. eexists _, _, _, _. split; [reflexivity|]. split; [reflexivity|]. split; [reflexivity|].
  unfold handle_usb_event. cbn [fst ut_state ut_write ut_sent ut_goto]. rewrite decide_False by (intros [?|?]; done). cbn [usb_loop]. rewrite decide_False by lia. cbn [fst snd].
  rewrite accumulate_ok; [|by right|cbn [ut_len ut_disconnect ut_write ut_sent ut_goto release_lock set_lock tn_data]; rewrite Hd, TUNNEL_DATA_SIZE_eq; lia].
  cbn [ebind]. rewrite decide_False by lia. split; [reflexivity|]. split; [reflexivity|].
  cbn [tn_data ut_len ut_disconnect ut_write ut_sent ut_goto release_lock set_lock]. rewrite splice_0, <- Hb2. apply take_app_length.
Qed.

Lemma usb_takes_foreign_buffer_witness :
  ∃ u1 t1 u2 t2,
    handle_usb_event 5 (λ tid, tid) (Some 6%Z) [ReadPacket [1%Z]] (usb_new, mkTunnel 6 0 (replicate TUNNEL_DATA_SIZE 0%Z)) = Ret (u1, t1) ∧ tn_lock t1 = FREE ∧
    handle_usb_event 5 (λ tid, tid) (Some 6%Z) [ReadPacket (replicate 64 2%Z)] (u1, t1) = Ret (u2, t2) ∧ tn_lock t2 = 5%Z ∧ take 64 (tn_data t2) = replicate 64 2%Z.
Proof.
  destruct (usb_takes_foreign_buffer 5 (λ tid, tid) (Some 6%Z) [1%Z] (replicate 64 2%Z) usb_new (mkTunnel 6 0 (replicate TUNNEL_DATA_SIZE 0%Z))
    eq_refl ltac:(discriminate) eq_refl (length_replicate _ _) ltac:(cbn; lia) eq_refl) as (u1 & t1 & u2 & t2 & E1 & E2 & _ & E3 & E4 & E5).
  exists u1, t1, u2, t2. split; [exact E1|]. split; [exact E2|]. split; [exact E3|]. split; [exact E4|exact E5].
Defined.

(** Asking for a retransmission does not bring the reply back. The request for it,
    which says that the last reply arrived damaged, is received into the buffer that the
    proxy sends the reply from once more: what the host gets is its own request, intact
    and accepted by its check, whatever the reply was. *)
Theorem retransmission_echoes_request {W} (sys_send : SendCall → W → SendResult * W) SELF refresh proxy tid count sq packets u t p :
  is_u 16 sq → usb_ready u t → ut_last u = LastIpcReply → pt_last_transport p = 1%Z → 9 ≤ pt_last_len p ≤ TUNNEL_DATA_SIZE →
  is_transfer packets (wrap_frame (tunnel_error_frame sq ReplyCorrupted)) →
  ∃ s1 u2 t2 packets2,
    handle_usb_event SELF refresh proxy (ReadPacket <$> packets) (u, t) = Ret s1 ∧ ut_pushed s1.1 = ut_pushed u ++ [1%Z] ∧
    handle_host_request sys_send count 1 tid 1 p s1 = Ret (p, (u2, t2)) ∧ usb_ready u2 t2 ∧
    ut_packets u2 = ut_packets u ++ packets2 ∧ unwrap_frame (concat packets2) = Ret (Ok (tunnel_error_frame sq ReplyCorrupted)).
Proof.
  intros Hs Hready Hlast Hnum Hlen Htr. set (f := raw_of SimpleT sq [OP_TUNNEL_ERROR; tunnel_code_as_u8 ReplyCorrupted]).
  assert (raw_ok f) as Hraw by (apply raw_of_ok; [done|unfold is_u; cbn; lia]). pose proof (length_tunnel_wire sq ReplyCorrupted) as Hw. pose proof TUNNEL_DATA_SIZE_eq as HT.
  change (tunnel_error_frame sq ReplyCorrupted) with (raw_wire f) in *. set (wire := wrap_frame (raw_wire f)) in *.
  destruct (usb_transfer SELF refresh proxy packets f u t Hraw Htr Hready ltac:(fold wire; lia)) as (rest & Hl & _ & E). fold wire in E, Hl.
  assert (frame_parse_simple TunnelError f = Ret (Some (mkTunnelError ReplyCorrupted))) as Hp by exact (simple_parse_own (mkTunnelError ReplyCorrupted) [] I).
  unfold process_frame in E. rewrite Hp in E. cbn [ebind code] in E. rewrite decide_True in E by done. cbn [ebind] in E.
  unfold retransmit in E. cbn [ut_last ut_goto ut_disconnect] in E. rewrite Hlast in E.
  match type of E with _ = Ret ?x => set (s1 := x) in E end. exists s1.
  set (data := take (pt_last_len p) (wire ++ rest)). assert (length data = pt_last_len p) as Hld by (unfold data; rewrite length_take; lia).
  destruct (usb_deliver_ok s1.1 (transfer_lock (set_len s1.2 (pt_last_len p)) (holder s1.2))) as (u2 & Ed & packets2 & -> & init & last & _ & _ & _ & Hc); [change (pt_last_len p ≤ length (wire ++ rest)); lia|exact Hl|].
  unfold handle_host_request. rewrite decide_False by done. rewrite decide_True by done. unfold redeliver. rewrite decide_False by lia. rewrite Hnum, decide_False by tauto.
  cbn [s1]. unfold deliver_reply, UsbTransport_HostTransport. cbn [s1 fst snd] in Ed. rewrite Ed. cbn [ebind].
  eexists _, _, packets2. split; [exact E|]. split; [reflexivity|]. split; [reflexivity|]. split; [split_and!; try reflexivity; exact Hl|]. split; [reflexivity|].
  rewrite Hc. change (take _ _) with data. destruct (wrap_frame_cons data) as [pad ->].
  assert (data = wire ++ take (pt_last_len p - 9) rest) as Hdata by (unfold data; rewrite take_app, Hw, take_ge by lia; done).
  set (tl := _ :: _). rewrite Hdata, <- app_assoc. by apply unwrap_wrap.
Qed.

Lemma retransmission_echoes_request_witness :
  ∃ s1 u2 t2 packets2,
    handle_usb_event 5 (λ tid, tid) (Some 6%Z) [ReadPacket (wrap_frame (tunnel_error_frame 78 ReplyCorrupted))] (ut_sent usb_new LastIpcReply, tunnel_new) = Ret s1 ∧
    handle_host_request ex_server 10 1 5 1 (mkProxyTask 1 20 [] []) s1 = Ret (mkProxyTask 1 20 [] [], (u2, t2)) ∧
    ut_packets u2 = packets2 ∧ unwrap_frame (concat packets2) = Ret (Ok (tunnel_error_frame 78 ReplyCorrupted)).
Proof.
  destruct (retransmission_echoes_request ex_server 5 (λ tid, tid) (Some 6%Z) 5 10 78 [wrap_frame (tunnel_error_frame 78 ReplyCorrupted)] (ut_sent usb_new LastIpcReply) tunnel_new
    (mkProxyTask 1 20 [] []) ltac:(unfold is_u; lia) usb_new_ready eq_refl eq_refl ltac:(rewrite TUNNEL_DATA_SIZE_eq; cbn [pt_last_len]; lia)
    (one_packet _ ltac:(rewrite length_tunnel_wire; lia))) as (s1 & u2 & t2 & packets2 & E1 & _ & E2 & _ & E3 & E4).
  exists s1, u2, t2, packets2. split; [exact E1|]. split; [exact E2|]. split; [exact E3|exact E4].
Defined.
