(* ===== verification/TunnelSerial.v ===== *)
(** Calls of the host over the serial line: the streaming encoder writes COBS, a request
    comes back as the reply of the call it stands for; and what goes wrong when more
    bytes follow the request at once, or when the request is malformed. *)

From S2P Require Import Prelude Cobs UsbHeader UsbMessages UsbIpc UsbReader UsbCrc IpcServer Proxy ProxyProps Tunnel TunnelProps.
Open Scope nat_scope.

(** * The streaming encoder *)

(** The buffer of the encoder: the bytes of the group behind the first one. *)
Definition holds_group (e : StreamingCobsEncoder) (pend : list Z) : Prop :=
  length (en_buf e) = 255 ∧ en_count e = length pend ∧ length pend < COBS_GROUP ∧ take (length pend) (drop 1 (en_buf e)) = pend.

(** The same transport but for what was written and the scratch buffer. *)
Definition only_wrote (d d' : UsartTransport) (bytes : list Z) : Prop :=
  ∃ blocks, concat blocks = bytes ∧ d' = mkUsart (ds_write_pos d) (ds_staged_len d) (ds_staged d) (ds_truncated d) (ds_locked d) (ds_cobs_buf d') (ds_writes d ++ blocks) (ds_pushed d).

Lemma only_wrote_trans d1 d2 d3 b1 b2 : only_wrote d1 d2 b1 → only_wrote d2 d3 b2 → only_wrote d1 d3 (b1 ++ b2).
Proof.
  intros (l1 & <- & E1) (l2 & <- & E2). exists (l1 ++ l2). rewrite concat_app. split; [done|]. rewrite E2, E1. cbn. by rewrite app_assoc.
Qed.

Lemma only_wrote_one d bytes : only_wrote d (ds_write d bytes) bytes.
Proof. exists [bytes]. split; [cbn; by rewrite app_nil_r|]. reflexivity. Qed.

Lemma flush_block_ok e pend overhead :
  length (en_buf e) = 255 → en_count e = length pend → length pend ≤ 254 → take (length pend) (drop 1 (en_buf e)) = pend →
  ∃ e', flush_block e overhead = Ret e' ∧ holds_group e' [] ∧ only_wrote (en_usart e) (en_usart e') (overhead :: pend).
Proof.
  intros H1 H2 H3 H4. unfold flush_block. rewrite set_idx_ok by lia. cbn [ebind]. rewrite slice_ok by (rewrite ?length_insert; lia). cbn [ebind].
  eexists. split; [reflexivity|]. split.
  - split_and!; cbn; [by rewrite length_insert|done|unfold COBS_GROUP; lia|done].
  - cbn [en_usart]. rewrite drop_0, Nat.sub_0_r, H2. destruct (en_buf e) as [|b0 buf]; [cbn in H1; lia|]. cbn [insert list_insert take drop Nat.add] in *.
    rewrite drop_0 in H4. rewrite H4. apply only_wrote_one.
Qed.

Lemma take_insert_next {A} (l : list A) n x : n + 1 < length l → take (n + 1) (drop 1 (<[1 + n := x]> l)) = take n (drop 1 l) ++ [x].
Proof.
  intros Hn. destruct l as [|y l]; [cbn in Hn; lia|]. change (drop 1 (<[1 + n := x]> (y :: l))) with (<[n := x]> l). change (drop 1 (y :: l)) with l. cbn [length] in Hn.
  rewrite Nat.add_1_r, (take_S_r _ _ x) by (apply list_lookup_insert_eq; lia). by rewrite take_insert_ge by lia.
Qed.

Lemma encoder_push_ok data e pend :
  holds_group e pend →
  ∃ e', encoder_push data e = Ret e' ∧ holds_group e' (cobs_run pend data).2 ∧ only_wrote (en_usart e) (en_usart e') (cobs_run pend data).1.
Proof.
  revert e pend. induction data as [|b data IH]; intros e pend He; cbn [encoder_push cobs_run].
  { exists e. split; [done|]. split; [done|]. exists []. split; [done|]. rewrite app_nil_r. by destruct (en_usart e). }
  pose proof He as (H1 & H2 & H3 & H4). unfold COBS_GROUP in H3.
  destruct (decide (b = 0%Z)) as [->|Hb].
  - rewrite H2. destruct (flush_block_ok e pend (Z.of_nat (length pend) + 1) H1 H2 ltac:(lia) H4) as (e1 & -> & G1 & O1). cbn [ebind].
    destruct (IH e1 [] G1) as (e2 & -> & G2 & O2). exists e2. split; [done|]. destruct (cobs_run [] data) as [out rest]. cbn [fst snd] in *. split; [done|].
    exact (only_wrote_trans _ _ _ _ _ O1 O2).
  - rewrite H2, set_idx_ok by lia. cbn [ebind en_count].
    pose proof (take_insert_next (en_buf e) (length pend) b ltac:(lia)) as Ht. rewrite H4 in Ht. set (e1 := mkEncoder _ _ _).
    assert (take (length (pend ++ [b])) (drop 1 (en_buf e1)) = pend ++ [b]) as Ht1 by (rewrite length_app; exact Ht).
    assert (length (en_buf e1) = 255) as Hl1 by (cbn; by rewrite length_insert). assert (en_count e1 = length (pend ++ [b])) as Hc1 by (cbn; rewrite length_app; done).
    destruct (decide (length pend + 1 = 254)) as [Hfull|Hn].
    + rewrite decide_True by done. destruct (flush_block_ok e1 (pend ++ [b]) 0xFF Hl1 Hc1 ltac:(rewrite length_app; cbn; lia) Ht1) as (e2 & -> & G2 & O2). cbn [ebind].
      destruct (IH e2 [] G2) as (e3 & -> & G3 & O3). exists e3. split; [done|]. destruct (cobs_run [] data) as [out rest]. cbn [fst snd] in *. split; [done|].
      pose proof (only_wrote_trans _ _ _ _ _ O2 O3) as O23. cbn [app] in O23. rewrite <- app_assoc in O23. exact O23.
    + rewrite decide_False by (unfold COBS_GROUP; lia). cbn [ebind]. destruct (IH e1 (pend ++ [b])) as (e2 & -> & G2 & O2).
      { split_and!; [done|done|rewrite length_app; cbn; unfold COBS_GROUP; lia|done]. }
      exists e2. done.
Qed.

(** A reply on the serial line: one frame, and no request any more. *)
Definition usart_delivered (d d2 : UsartTransport) (data : list Z) : Prop :=
  ds_write_pos d2 = ds_write_pos d ∧ ds_staged d2 = false ∧ ds_locked d2 = false ∧ ds_truncated d2 = ds_truncated d ∧ ds_pushed d2 = ds_pushed d ∧
  ∃ blocks, ds_writes d2 = ds_writes d ++ blocks ∧ concat blocks = cobs (TYPE_IPC_REPLY :: data) ++ [0%Z].

Lemma usart_deliver_ok d t :
  length (ds_cobs_buf d) = 255 → tn_len t ≤ length (tn_data t) →
  ∃ d', usart_deliver_reply (d, t) = Ret (d', release_lock t) ∧ length (ds_cobs_buf d') = 255 ∧ usart_delivered d d' (take (tn_len t) (tn_data t)).
Proof.
  intros Hc Hl. unfold usart_deliver_reply. rewrite slice_ok by lia. cbn [ebind]. rewrite drop_0, Nat.sub_0_r. set (data := take _ _).
  destruct (encoder_push_ok [TYPE_IPC_REPLY] (mkEncoder d (ds_cobs_buf d) 0) []) as (e1 & -> & G1 & O1); [split_and!; cbn; try done; unfold COBS_GROUP; lia|]. cbn [ebind].
  destruct (encoder_push_ok data e1 _ G1) as (e2 & -> & G2 & O2). cbn [ebind]. pose proof (cobs_run_app [] [TYPE_IPC_REPLY] data) as Er. cbn [app] in Er.
  unfold encoder_finalize. pose proof G2 as (B1 & B2 & B3 & B4). unfold COBS_GROUP in B3. rewrite B2.
  destruct (flush_block_ok e2 (cobs_run (cobs_run [] [TYPE_IPC_REPLY]).2 data).2 (Z.of_nat (length (cobs_run (cobs_run [] [TYPE_IPC_REPLY]).2 data).2) + 1) B1 B2 ltac:(lia) B4) as (e3 & -> & G3 & O3).
  cbn [ebind]. eexists. split; [reflexivity|]. pose proof (only_wrote_trans _ _ _ _ _ (only_wrote_trans _ _ _ _ _ O1 O2) O3) as (blocks & Hb & E). cbn [en_usart] in E.
  destruct G3 as (G3 & _). unfold usart_delivered. cbn [ds_cobs_buf ds_write_pos ds_staged ds_locked ds_truncated ds_pushed ds_writes ds_stage ds_scratch ds_write]. rewrite E. cbn [ds_write_pos ds_truncated ds_pushed ds_writes].
  split; [exact G3|]. split_and!; try reflexivity. exists (blocks ++ [[0%Z]]). split; [by rewrite app_assoc|]. rewrite concat_app, Hb. unfold cobs. rewrite Er. cbn [concat]. by rewrite <- !app_assoc.
Qed.

#[export, refine] Instance UsartTransport_laws : TransportLaws UsartTransport := {|
  transport_inv d := length (ds_cobs_buf d) = 255;
  delivered := usart_delivered;
|}.
Proof.
  intros d t Hc Hl _. destruct (usart_deliver_ok d t Hc Hl) as (d2 & E & Hc2 & Hdel). exists d2. split; [exact E|]. split; [exact Hc2|]. split; [exact Hdel|].
  destruct Hdel as (_ & Hs & _). unfold fetch_pending_request, UsartTransport_HostTransport, usart_fetch_pending_request. cbn [fst]. by rewrite Hs.
Defined.

(** * Receiving *)

(** Between frames. *)
Definition usart_ready (d : UsartTransport) (t : TunnelBuffer) : Prop :=
  ds_write_pos d = 0 ∧ ds_staged d = false ∧ ds_truncated d = false ∧ ds_locked d = false ∧ length (ds_cobs_buf d) = 255 ∧
  tn_lock t = FREE ∧ length (tn_data t) = TUNNEL_DATA_SIZE.

Section receive.
Context (SELF_TID : Z) (refresh_tid : Z → Z) (host_proxy : option Z) (cobs_encode : list Z → list Z) (identity : Awake).
Local Abbreviation feed_all := (usart_feed_all SELF_TID refresh_tid host_proxy cobs_encode identity).

Lemma feed_all_app rs1 rs2 s : feed_all (rs1 ++ rs2) s = let! s := feed_all rs1 s in feed_all rs2 s.
Proof. revert s. induction rs1 as [|r rs1 IH]; intros s; [done|]. cbn [app usart_feed_all]. destruct (usart_feed_byte _ _ _ _ _ s r); [|done]. apply IH. Qed.

(** Bytes of a frame while the lock is marked as held: they go into the buffer, whoever
    holds its lock. *)
Lemma feed_data bytes d t :
  ds_truncated d = false → ds_locked d = true → ds_write_pos d + length bytes ≤ length (tn_data t) →
  feed_all (DataContinue <$> bytes) (d, t) = Ret (ds_set d (ds_write_pos d + length bytes) false true, set_data t (splice (tn_data t) (ds_write_pos d) bytes)).
Proof.
  revert d t. induction bytes as [|b bytes IH]; intros d t Ht Hk Hl.
  - cbn [length fmap list_fmap usart_feed_all]. rewrite Nat.add_0_r. unfold splice. cbn [length app]. rewrite Nat.add_0_r, take_drop. destruct d, t. cbn in *. by subst.
  - cbn [length fmap list_fmap usart_feed_all usart_feed_byte] in *. unfold data_continue. rewrite Ht, Hk. cbn [negb andb]. rewrite decide_True by lia.
    rewrite set_idx_ok by lia. cbn [ebind]. change (list_fmap _ _ DataContinue bytes) with (DataContinue <$> bytes).
    rewrite IH; [|done|done|cbn [ds_set ds_write_pos set_data tn_data]; rewrite length_insert; lia].
    cbn [ds_write_pos ds_set ds_truncated ds_locked tn_data set_data tn_lock tn_len]. do 2 f_equal; [unfold ds_set; cbn; f_equal; lia|].
    unfold set_data. cbn. f_equal. change (b :: bytes) with ([b] ++ bytes). rewrite <- (splice_splice (tn_data t) (ds_write_pos d) [b] bytes) by (cbn; lia). cbn [length]. f_equal.
    unfold splice. cbn [length app]. rewrite insert_take_drop by lia. by rewrite Nat.add_1_r.
Qed.

(** A frame from a ready transport, up to its completion. *)
Lemma feed_frame b bytes more d t :
  usart_ready d t → 1 + length bytes ≤ TUNNEL_DATA_SIZE →
  feed_all ((DataContinue <$> b :: bytes) ++ [DataComplete] ++ more) (d, t) =
    let! s := data_complete host_proxy cobs_encode identity
      (ds_set d (1 + length bytes) false true, mkTunnel SELF_TID (tn_len t) (b :: bytes ++ drop (1 + length bytes) (tn_data t))) in
    feed_all more s.
Proof.
  intros (R1 & R2 & R3 & R4 & _ & R6 & R7) Hl. rewrite feed_all_app. cbn [fmap list_fmap usart_feed_all usart_feed_byte].
  unfold data_continue. rewrite R3, R4, R2. cbn [negb andb]. unfold try_acquire_or_wipe, try_acquire, lock_exchange. rewrite R6, decide_True by done. cbn [negb].
  cbn [ds_write_pos ds_set tn_data set_lock]. rewrite R1, R7, decide_True by lia. rewrite set_idx_ok by lia. cbn [ebind]. change (list_fmap _ _ DataContinue bytes) with (DataContinue <$> bytes).
  rewrite feed_data; [|done|done|cbn [ds_set ds_write_pos set_data tn_data]; rewrite length_insert; lia]. cbn [ebind app usart_feed_all usart_feed_byte].
  cbn [ds_write_pos ds_set ds_truncated ds_locked tn_data set_data tn_lock tn_len set_lock Nat.add ds_staged ds_staged_len ds_cobs_buf ds_writes ds_pushed].
  do 2 f_equal. unfold set_data. cbn [tn_lock tn_len tn_data]. do 2 f_equal. unfold splice. cbn [length Nat.add]. destruct (tn_data t) as [|x data]; [cbn [length] in R7; rewrite TUNNEL_DATA_SIZE_eq in R7; lia|]. done.
Qed.
End receive.

(** * A call over the serial line *)

(** What the decoder of the serial line makes of a frame. *)
Definition frame_events (ty : Z) (body : list Z) : list DecodeResult := (DataContinue <$> ty :: body) ++ [DataComplete].

Section call.
Context (SELF : Z) (refresh_tid : Z → Z) (proxy : Z) (cobs_encode : list Z → list Z) (identity : Awake).
Local Abbreviation feed_all := (usart_feed_all SELF refresh_tid (Some proxy) cobs_encode identity).

(** A request is staged whatever follows its header. *)
Definition staged_state (d : UsartTransport) (t : TunnelBuffer) (body : list Z) : UsartState :=
  (mkUsart 0 (length body) true false true (ds_cobs_buf d) (ds_writes d) (ds_pushed d ++ [0%Z]),
   mkTunnel proxy (length body) (body ++ drop (length body) (TYPE_IPC_REQUEST :: body ++ drop (1 + length body) (tn_data t)))).

Lemma feed_request body h more d t :
  usart_ready d t → 1 + length body ≤ TUNNEL_DATA_SIZE → header_decode body = Ret (Ok h) → frame_type h = IpcRequestT →
  handle_usart_rx SELF refresh_tid (Some proxy) cobs_encode identity (frame_events TYPE_IPC_REQUEST body ++ more) (d, t) =
    feed_all more (staged_state d t body).
Proof.
  intros Hr Hl Hh Hty. pose proof Hr as (R1 & R2 & R3 & R4 & R5 & R6 & R7). unfold handle_usart_rx. cbn [fst]. rewrite R2. unfold frame_events. rewrite <- app_assoc.
  rewrite feed_frame by done. unfold data_complete. cbn [ds_write_pos ds_truncated ds_set ds_locked]. rewrite decide_False by (intros [?|?]; [lia|done]).
  cbn [tn_data]. set (data := TYPE_IPC_REQUEST :: body ++ _). change data with ([TYPE_IPC_REQUEST] ++ body ++ drop (1 + length body) (tn_data t)). rewrite (idx_ok _ 0 TYPE_IPC_REQUEST) by done. cbn [ebind].
  unfold copy_within. rewrite (slice_app [TYPE_IPC_REQUEST] body) by (cbn; lia). cbn [ebind]. rewrite copy_at_0 by (rewrite !length_app; cbn; lia). cbn [ebind].
  rewrite slice_ok by (rewrite ?length_app; lia). cbn [ebind]. rewrite drop_0. replace (1 + length body - 1 - 0) with (length body) by lia. rewrite take_app_length.
  rewrite decide_True by done. unfold stage_ipc_request. rewrite Hh. cbn [ebind]. rewrite decide_False by (intros H; by apply H). cbn [ebind default from_option id].
  f_equal. unfold staged_state, ds_stage, ds_push, ds_set, transfer_lock, set_lock, set_len, set_data. cbn. rewrite Nat.sub_0_r. done.
Qed.
End call.

Lemma length_staged proxy d t body :
  length (tn_data t) = TUNNEL_DATA_SIZE → 1 + length body ≤ TUNNEL_DATA_SIZE → length (tn_data (staged_state proxy d t body).2) = TUNNEL_DATA_SIZE.
Proof. intros Ht Hb. cbn [staged_state snd tn_data]. rewrite length_app, length_drop. cbn [length]. rewrite length_app, length_drop. lia. Qed.

(** ** Examples *)

Definition ex_identity : Awake := mkAwake (replicate 16 0%Z) (replicate 16 0%Z) (replicate 16 0%Z).

Lemma usart_new_ready : usart_ready usart_new tunnel_new.
Proof. repeat (split; [reflexivity|]). apply length_replicate. Qed.

Lemma ex_frame_room : 1 + length ex_frame ≤ TUNNEL_DATA_SIZE.
Proof. pose proof ex_frame_size. unfold TUNNEL_DATA_SIZE. lia. Qed.

Definition ex_frame_header : FrameHeader := mkHeader IpcRequestT 77 (Z.of_nat (length (request_payload ex_tunnelled))).

(** C26: a call of the host over the serial line. The host sends any request that it can
    encode and that fits in a frame, as one frame with nothing behind it in the batch of
    bytes that the transport gets (bytes behind it would be written over the request:
    [usart_overwrites_staged]), to a transport that is between frames; the proxy is
    notified, gets the buffer and handles the notification. Nothing panics, the transport
    is ready again and the buffer free. As over USB ([request_served]), no call is made if
    the first four leases of the request do not fit in the pool, and otherwise exactly
    one, with the arguments of the request and its first four leases, which hold its data
    if that can be compacted in place. What was written is one frame in byte stuffing,
    closed by a zero; a decoder gets the answer back from it, behind the byte that marks
    it as a reply. *)
Theorem usart_remote_call {W} (sys_send : SendCall → W → SendResult * W) SELF refresh proxy cobs_encode identity tid count r sq d t p :
  kernel_ok sys_send → request_typed r → request_valid r → is_u 16 sq →
  let frame := frame_wire IpcRequestT sq (request_payload r) in
  length frame ≤ MAX_DECODED_FRAME → usart_ready d t → length (pt_msg p) = MAX_MESSAGE →
  ∃ s1 p2 d2 t2 ans blocks,
    handle_usart_rx SELF refresh (Some proxy) cobs_encode identity (frame_events TYPE_IPC_REQUEST frame) (d, t) = Ret s1 ∧
    ds_pushed s1.1 = ds_pushed d ++ [0%Z] ∧ tn_lock s1.2 = proxy ∧
    handle_host_request sys_send count 2 tid 0 p s1 = Ret (p2, (d2, t2)) ∧
    usart_ready d2 t2 ∧ length (pt_msg p2) = MAX_MESSAGE ∧
    ds_writes d2 = ds_writes d ++ blocks ∧ concat blocks = cobs (TYPE_IPC_REPLY :: ans) ++ [0%Z] ∧
    (bytes_ok ans → uncobs (cobs (TYPE_IPC_REPLY :: ans)) = Some (TYPE_IPC_REPLY :: ans)) ∧
    request_served sys_send r sq (pt_world p) (pt_world p2) ans.
Proof.
  intros Hk Ht Hv Hs frame Hsz Hready Hm. pose proof Hv as (_ & _ & _ & Hu). unfold U16_MAX in Hu. pose proof Hready as (_ & _ & _ & _ & R5 & _ & R7).
  assert (1 + length frame ≤ TUNNEL_DATA_SIZE) as Hl by (unfold TUNNEL_DATA_SIZE; lia).
  destruct (frame_wire_decode IpcRequestT sq (request_payload r) []) as (Hd & _ & _); [done|unfold is_u; lia|]. rewrite app_nil_r in Hd. fold frame in Hd.
  pose proof (feed_request SELF refresh proxy cobs_encode identity frame _ [] d t Hready Hl Hd eq_refl) as E. rewrite app_nil_r in E. cbn [usart_feed_all] in E.
  set (s1 := staged_state proxy d t frame) in E. pose proof (length_staged proxy d t frame R7 Hl) as Hlen. fold s1 in Hlen.
  destruct (serve_staged sys_send (T:=UsartTransport) 2 tid Hk r sq (drop (length frame) (TYPE_IPC_REQUEST :: frame ++ drop (1 + length frame) (tn_data t))) s1.1 s1.2 p Ht Hv Hs Hm)
    as (p2 & d2 & t2 & ty & payload & E2 & L2 & D2 & I2 & _ & M2 & _ & (X1 & X2 & X3 & X4 & X5 & blocks & X6 & X7) & A2); [exact R5|reflexivity|reflexivity|exact Hlen|].
  exists s1, p2, d2, t2, (frame_wire ty sq payload), blocks. split; [exact E|]. split; [reflexivity|]. split; [reflexivity|]. split; [exact E2|].
  split; [split_and!; [exact X1|exact X2|exact X4|exact X3|exact I2|exact L2|exact D2]|]. split; [exact M2|]. split; [exact X6|]. split; [exact X7|]. split; [|exact A2].
  intros Hb. apply cobs_ok. constructor; [unfold is_u, TYPE_IPC_REPLY; lia|exact Hb].
Qed.

Lemma usart_remote_call_witness :
  ∃ s1 p2 d2 t2 ans blocks,
    handle_usart_rx 7 (λ tid, tid) (Some 6%Z) cobs ex_identity (frame_events TYPE_IPC_REQUEST ex_frame) (usart_new, tunnel_new) = Ret s1 ∧
    handle_host_request ex_server 10 2 7 0 (proxy_task_new []) s1 = Ret (p2, (d2, t2)) ∧ usart_ready d2 t2 ∧ pt_world p2 = [ex_call] ∧
    ds_writes d2 = blocks ∧ concat blocks = cobs (TYPE_IPC_REPLY :: ans) ++ [0%Z] ∧ call_answered (served ex_tunnelled) 77 (ex_server ex_call []).1 ans.
Proof.
  destruct ex_tunnelled_ok as (H1 & H2 & _).
  destruct (usart_remote_call ex_server 7 (λ tid, tid) 6 cobs ex_identity 7 10 ex_tunnelled 77 usart_new tunnel_new (proxy_task_new []) ex_server_ok H1 H2 ltac:(unfold is_u; lia)
    ex_frame_size usart_new_ready (proxy_new_msg [])) as (s1 & p2 & d2 & t2 & ans & blocks & E1 & _ & _ & E2 & E3 & _ & E5 & E6 & _ & E7).
  apply ex_tunnelled_served in E7 as [E4 E7].
  exists s1, p2, d2, t2, ans, blocks. split; [exact E1|]. split; [exact E2|]. split; [exact E3|]. split; [exact E4|]. split; [exact E5|]. split; [exact E6|exact E7].
Defined.

(** * What goes wrong *)

(** Bytes that arrive together with a request, right behind it, are written over the
    request, although its buffer belongs to the proxy already, which has not looked at
    it: the transport still counts the buffer as its own. *)
Theorem usart_overwrites_staged SELF refresh proxy cobs_encode identity body h more d t :
  usart_ready d t → 1 + length body ≤ TUNNEL_DATA_SIZE → header_decode body = Ret (Ok h) → frame_type h = IpcRequestT → length more ≤ length body →
  ∃ d2 t2, handle_usart_rx SELF refresh (Some proxy) cobs_encode identity (frame_events TYPE_IPC_REQUEST body ++ (DataContinue <$> more)) (d, t) = Ret (d2, t2) ∧
    ds_pushed d2 = ds_pushed d ++ [0%Z] ∧ tn_lock t2 = proxy ∧ fetch_pending_request (d2, t2) = Ok (length body) ∧
    take (length body) (tn_data t2) = more ++ drop (length more) body.
Proof.
  intros Hr Hl Hh Hty Hm. pose proof Hr as (_ & _ & _ & _ & _ & _ & R7). rewrite (feed_request _ _ _ _ _ _ h) by done. pose proof (length_staged proxy d t body R7 Hl) as Hlen.
  unfold staged_state in *. cbn [snd tn_data] in Hlen. rewrite feed_data by (done || (cbn [ds_write_pos tn_data]; lia)).
  eexists _, _. split; [reflexivity|]. split; [reflexivity|]. split; [reflexivity|]. split; [reflexivity|].
  cbn [tn_data set_data ds_write_pos]. rewrite splice_0, drop_app_le by done. rewrite app_assoc. apply take_app_length'. rewrite length_app, length_drop. lia.
Qed.

Lemma usart_overwrites_staged_witness :
  ∃ d2 t2, handle_usart_rx 7 (λ tid, tid) (Some 6%Z) cobs ex_identity (frame_events TYPE_IPC_REQUEST ex_frame ++ (DataContinue <$> [1; 2; 3]%Z)) (usart_new, tunnel_new) = Ret (d2, t2) ∧
    tn_lock t2 = 6%Z ∧ take (length ex_frame) (tn_data t2) = [1; 2; 3]%Z ++ drop 3 ex_frame.
Proof.
  destruct (usart_overwrites_staged 7 (λ tid, tid) 6 cobs ex_identity ex_frame ex_frame_header [1; 2; 3]%Z usart_new tunnel_new usart_new_ready ex_frame_room eq_refl eq_refl ltac:(vm_compute; lia))
    as (d2 & t2 & E1 & _ & E2 & _ & E3). exists d2, t2. split; [exact E1|]. split; [exact E2|exact E3].
Defined.

(** A request over the serial line whose length field says more than was sent blocks
    the tunnel. The transport only looks at the type of the frame and stages it; the
    proxy finds it incomplete and drops it without an answer. The request stays staged
    and the buffer stays with the proxy: nothing that arrives on the serial line has an
    effect any more, and the next notification is handled in the same way. *)
Theorem short_request_blocks_serial {W} (sys_send : SendCall → W → SendResult * W) SELF refresh proxy cobs_encode identity tid count body h d t p :
  usart_ready d t → 1 + length body ≤ TUNNEL_DATA_SIZE → header_decode body = Ret (Ok h) → frame_type h = IpcRequestT → length body < frame_size h →
  ∃ s1, handle_usart_rx SELF refresh (Some proxy) cobs_encode identity (frame_events TYPE_IPC_REQUEST body) (d, t) = Ret s1 ∧
    handle_host_request sys_send count 2 tid 0 p s1 = Ret (p, s1) ∧ tn_lock s1.2 = proxy ∧
    ∀ more, handle_usart_rx SELF refresh (Some proxy) cobs_encode identity more s1 = Ret s1.
Proof.
  intros Hr Hl Hh Hty Hshort. pose proof (feed_request SELF refresh proxy cobs_encode identity body h [] d t Hr Hl Hh Hty) as E. rewrite app_nil_r in E. cbn [usart_feed_all] in E.
  exists (staged_state proxy d t body). split; [exact E|]. split; [|by split].
  unfold handle_host_request. rewrite decide_False by done. rewrite decide_False by done. unfold serve_request.
  change (fetch_pending_request (staged_state proxy d t body)) with (Ok (E:=HostTransportError) (length body)).
  cbv beta iota. destruct (decide (length body = 0)) as [|H0]; [reflexivity|]. unfold staged_state. unfold dispatch_tunneled_request. cbn [px_buf tn_data].
  rewrite slice_ok by (rewrite ?length_app; lia). cbn [ebind]. rewrite drop_0, Nat.sub_0_r, take_app_length, Hh. cbn [ebind]. rewrite decide_True by done. cbn [ebind].
  rewrite decide_True by done. cbn [px_buf px_msg px_world]. destruct p. reflexivity.
Qed.

Lemma short_request_blocks_serial_witness :
  let short := take 10 ex_frame in
  ∃ s1, handle_usart_rx 7 (λ tid, tid) (Some 6%Z) cobs ex_identity (frame_events TYPE_IPC_REQUEST short) (usart_new, tunnel_new) = Ret s1 ∧
    handle_host_request ex_server 10 2 7 0 (proxy_task_new []) s1 = Ret (proxy_task_new [], s1) ∧
    handle_usart_rx 7 (λ tid, tid) (Some 6%Z) cobs ex_identity (frame_events TYPE_IPC_REQUEST ex_frame) s1 = Ret s1.
Proof.
  destruct (short_request_blocks_serial ex_server 7 (λ tid, tid) 6 cobs ex_identity 7 10 (take 10 ex_frame) ex_frame_header usart_new tunnel_new (proxy_task_new []) usart_new_ready
    ltac:(rewrite TUNNEL_DATA_SIZE_eq; change (length (take 10 ex_frame)) with 10; lia) eq_refl eq_refl ltac:(vm_compute; lia)) as (s1 & E1 & E2 & _ & E3).
  exists s1. split; [exact E1|]. split; [exact E2|apply E3].
Defined.
