(* ===== verification/Reactor.v ===== *)
(** The reactor ([sysmodule/reactor/src/main.rs]): one bounded queue of
    notifications for groups of tasks, with a cursor per task.

    The groups, who may send to them and who subscribes to them are generated by the
    build and parameters here. The reactor's messages to other tasks are the events of
    a trace: reports of dropped notifications to the supervisor, and the notification
    bit posted to a task (which a second attempt delivers to a task that has been
    restarted). *)

From S2P Require Import Prelude.

Open Scope nat_scope.

Record Notification := mkNotification {
  n_sender_index : nat;
  n_group_id : nat;
  n_code : Z;
  n_priority : Z;
}.

#[export] Instance Notification_eq_dec : EqDecision Notification.
Proof. solve_decision. Defined.

Inductive OverflowStrategy := Reject | DropOldest | DropNewest.

Inductive ReactorError := NotAuthorized | PriorityOutOfRange | InvalidGroup | QueueFull.

Definition QUEUE_CAPACITY : nat := 32.

Record ReactorState := mkReactor {
  r_queue : list Notification;
  r_cursors : list nat;
}.

(** What the reactor sends. *)
Inductive Effect :=
  | DropReport (n : Notification) (dropped_for : nat)
  | Post (task : nat).

(** The tables of the build. *)
Class Notifications := {
  TASK_COUNT : nat;
  (** the lowest and the highest priority of each group *)
  GROUPS : list (Z * Z);
  is_sender_allowed : nat → nat → bool;
  group_subscribers : nat → list nat;
  is_subscriber : nat → nat → bool;
  SUBSCRIBER_TASKS : list nat;
}.

(** What the build promises of them. *)
Class NotificationsOk `(Notifications) : Prop := {
  is_subscriber_spec g t : is_subscriber g t = true ↔ t ∈ group_subscribers g;
  group_subscribers_nodup g : NoDup (group_subscribers g);
  group_subscribers_tasks g t : t ∈ group_subscribers g → t ∈ SUBSCRIBER_TASKS;
  subscriber_tasks_nodup : NoDup SUBSCRIBER_TASKS;
  subscriber_tasks_lt t : t ∈ SUBSCRIBER_TASKS → t < TASK_COUNT;
}.

Section reactor.
Context `{Notifications}.

Definition reactor_new : ReactorState := mkReactor [] (replicate TASK_COUNT 0).

Definition validate (sender_index group_id : nat) (priority : Z) : result unit ReactorError :=
  match GROUPS !! group_id with
  | None => Err InvalidGroup
  | Some (lo, hi) =>
      if negb (is_sender_allowed group_id sender_index) then Err NotAuthorized else
      if negb (bool_decide (lo <= priority <= hi)%Z) then Err PriorityOutOfRange else
      Ok tt
  end.

(** For every subscriber whose cursor has not passed the entry. *)
Fixpoint report_to (tasks : list nat) (state : ReactorState) (notif : Notification) (index : nat) : exec (list Effect) :=
  match tasks with
  | [] => Ret []
  | t :: tasks =>
      let! cursor := idx (r_cursors state) t in
      let! rest := report_to tasks state notif index in
      Ret (if decide (cursor <= index) then DropReport notif t :: rest else rest)
  end.

Definition report_eviction (state : ReactorState) (notif : Notification) (index : nat) : exec (list Effect) :=
  report_to (group_subscribers (n_group_id notif)) state notif index.

(** [queue.remove(index)] *)
Definition queue_remove (queue : list Notification) (index : nat) : exec (list Notification) :=
  if decide (index < length queue) then Ret (delete index queue) else Panic.

Fixpoint adjust_cursors (tasks : list nat) (cursors : list nat) (index : nat) : exec (list nat) :=
  match tasks with
  | [] => Ret cursors
  | t :: tasks =>
      let! c := idx cursors t in
      let! cursors := if decide (index < c) then set_idx cursors t (c - 1) else Ret cursors in
      adjust_cursors tasks cursors index
  end.

Definition remove_and_adjust_cursors (state : ReactorState) (index : nat) : exec ReactorState :=
  let! queue := queue_remove (r_queue state) index in
  let! cursors := adjust_cursors SUBSCRIBER_TASKS (r_cursors state) index in
  Ret (mkReactor queue cursors).

(** [position] and [rposition] *)
Definition queue_position (f : Notification → bool) (queue : list Notification) : option nat := fst <$> list_find f queue.

Definition queue_rposition (f : Notification → bool) (queue : list Notification) : option nat :=
  match list_find f (reverse queue) with Some (i, _) => Some (length queue - 1 - i) | None => None end.

Definition evict_at (state : ReactorState) (i : option nat) : exec (bool * ReactorState * list Effect) :=
  match i with
  | None => Ret (false, state, [])
  | Some i =>
      let! victim := idx (r_queue state) i in
      let! reports := report_eviction state victim i in
      let! state := remove_and_adjust_cursors state i in
      Ret (true, state, reports)
  end.

Definition evict (state : ReactorState) (priority : Z) (strategy : OverflowStrategy) : exec (bool * ReactorState * list Effect) :=
  match strategy with
  | Reject => Ret (false, state, [])
  | DropOldest => evict_at state (queue_position (λ n, bool_decide (n_priority n <= priority)%Z) (r_queue state))
  | DropNewest => evict_at state (queue_rposition (λ n, bool_decide (n_priority n <= priority)%Z) (r_queue state))
  end.

(** [.iter().all(|&t| state.cursors[t as usize] > 0)] *)
Fixpoint all_consumed (tasks : list nat) (state : ReactorState) : exec bool :=
  match tasks with
  | [] => Ret true
  | t :: tasks =>
      let! c := idx (r_cursors state) t in
      if decide (0 < c) then all_consumed tasks state else Ret false
  end.

(** The entry is removed at every round. *)
Fixpoint gc_loop (fuel : nat) (state : ReactorState) : exec ReactorState :=
  match fuel with
  | O => Ret state
  | S fuel =>
      match r_queue state with
      | [] => Ret state
      | n :: _ =>
          let! all := all_consumed (group_subscribers (n_group_id n)) state in
          if negb all then Ret state else
          let! state := remove_and_adjust_cursors state 0 in
          gc_loop fuel state
      end
  end.

Definition gc (state : ReactorState) : exec ReactorState := gc_loop (length (r_queue state)) state.

Definition notify_subscribers (group_id : nat) : list Effect := Post <$> group_subscribers group_id.

Definition has_more_for (state : ReactorState) (task_index : nat) : exec bool :=
  let! cursor := idx (r_cursors state) task_index in
  let! rest := slice (r_queue state) cursor (length (r_queue state)) in
  Ret (existsb (λ n, is_subscriber (n_group_id n) task_index) rest).

Definition is_full (state : ReactorState) : bool := bool_decide (length (r_queue state) = QUEUE_CAPACITY).

(** [queue.push(notif).unwrap()] *)
Definition queue_push (state : ReactorState) (notif : Notification) : exec ReactorState :=
  if decide (length (r_queue state) < QUEUE_CAPACITY) then Ret (mkReactor (r_queue state ++ [notif]) (r_cursors state)) else Panic.

(** The common end of [push] and [refresh]. *)
Definition enqueue (state : ReactorState) (notif : Notification) (strategy : OverflowStrategy) : exec (result unit ReactorError * ReactorState * list Effect) :=
  let! state := if is_full state then gc state else Ret state in
  let! (ok, state, reports) := if is_full state then evict state (n_priority notif) strategy else Ret (true, state, []) in
  if ok : bool then
    let! state := queue_push state notif in
    Ret (Ok tt, state, reports ++ notify_subscribers (n_group_id notif))
  else Ret (Err QueueFull, state, DropReport notif <$> group_subscribers (n_group_id notif)).

Definition push (state : ReactorState) (sender group_id : nat) (code priority : Z) (strategy : OverflowStrategy)
  : exec (result unit ReactorError * ReactorState * list Effect) :=
  match validate sender group_id priority with
  | Err e => Ret (Err e, state, [])
  | Ok _ => enqueue state (mkNotification sender group_id code priority) strategy
  end.

Definition matches (sender group_id : nat) (code : Z) (n : Notification) : bool :=
  bool_decide (n_sender_index n = sender) && bool_decide (n_group_id n = group_id) && bool_decide (n_code n = code).

Definition refresh (state : ReactorState) (sender group_id : nat) (code priority : Z) (strategy : OverflowStrategy)
  : exec (result unit ReactorError * ReactorState * list Effect) :=
  match validate sender group_id priority with
  | Err e => Ret (Err e, state, [])
  | Ok _ =>
      match queue_position (matches sender group_id code) (r_queue state) with
      | Some i =>
          let! old := idx (r_queue state) i in
          let! state := remove_and_adjust_cursors state i in
          enqueue state (mkNotification sender group_id code (Z.max priority (n_priority old))) strategy
      | None => enqueue state (mkNotification sender group_id code priority) strategy
      end
  end.

(** The scan of [pull] from the cursor on. *)
Fixpoint scan (fuel : nat) (queue : list Notification) (task_index i : nat) : exec (option (nat * Notification)) :=
  match fuel with
  | O => Ret None
  | S fuel =>
      if decide (i < length queue) then
        let! n := idx queue i in
        if is_subscriber (n_group_id n) task_index then Ret (Some (i, n)) else scan fuel queue task_index (S i)
      else Ret None
  end.

Definition pull (state : ReactorState) (task_index : nat) : exec (option Notification * ReactorState * list Effect) :=
  let! state := gc state in
  let! start := idx (r_cursors state) task_index in
  let! found := scan (length (r_queue state)) (r_queue state) task_index start in
  match found with
  | None => Ret (None, state, [])
  | Some (i, notif) =>
      let! cursors := set_idx (r_cursors state) task_index ((i + 1) mod 256) in
      let! state := gc (mkReactor (r_queue state) cursors) in
      let! more := has_more_for state task_index in
      Ret (Some notif, state, if more : bool then [Post task_index] else [])
  end.
End reactor.
