(* ===== verification/ReactorProps.v ===== *)
(** What the reactor promises to the tasks: every notification that is accepted for
    sending is, for each subscriber of its group, delivered once, still pending, reported
    as dropped or replaced by a newer one, in order; and a task with pending
    notifications has been notified. *)

From S2P Require Import Prelude Reactor.

Open Scope nat_scope.

Section props.
Context `{NotificationsOk}.

(** The number of entries the task has passed. *)
Definition cursor (st : ReactorState) (t : nat) : nat := default 0 (r_cursors st !! t).

(** What the task is still to get. *)
Definition pending (st : ReactorState) (t : nat) : list Notification :=
  filter (λ n, is_subscriber (n_group_id n) t = true) (drop (cursor st t) (r_queue st)).

Definition reactor_ok (st : ReactorState) : Prop :=
  length (r_cursors st) = TASK_COUNT ∧ length (r_queue st) <= QUEUE_CAPACITY ∧
  ∀ t, cursor st t <= length (r_queue st) ∧ (t ∉ SUBSCRIBER_TASKS → cursor st t = 0).

Lemma reactor_new_ok : reactor_ok reactor_new.
Proof.
  assert (∀ t, cursor reactor_new t = 0) as Hc.
  { intros t. unfold cursor, reactor_new. cbn. destruct (replicate TASK_COUNT 0 !! t) eqn:E; [|done]. by apply lookup_replicate_1 in E as [-> _]. }
  split; [apply length_replicate|]. split; [cbn; lia|]. intros t. rewrite Hc. split; [lia|done].
Qed.

Lemma idx_cursor st t : reactor_ok st → t < TASK_COUNT → idx (r_cursors st) t = Ret (cursor st t).
Proof.
  intros (Hl & _) Ht. destruct (lookup_lt_is_Some_2 (r_cursors st) t) as [c Hc]; [lia|]. unfold idx, cursor. by rewrite Hc.
Qed.

Lemma subscriber_lt g t : t ∈ group_subscribers g → t < TASK_COUNT.
Proof. intros Ht. by apply subscriber_tasks_lt, (group_subscribers_tasks g). Qed.

Lemma not_subscriber g t : t ∉ group_subscribers g → is_subscriber g t = false.
Proof. intros Ht. destruct (is_subscriber g t) eqn:E; [|done]. by apply is_subscriber_spec in E. Qed.

(** * Removing an entry *)

Lemma adjust_cursors_ok tasks cursors index :
  NoDup tasks → (∀ t, t ∈ tasks → t < length cursors) →
  ∃ cursors', adjust_cursors tasks cursors index = Ret cursors' ∧ length cursors' = length cursors ∧
    ∀ t, cursors' !! t = (λ c, if decide (t ∈ tasks ∧ index < c) then c - 1 else c) <$> cursors !! t.
Proof.
  intros Hnd. revert cursors. induction Hnd as [|x tasks Hx Hnd IH]; intros cursors Hin; cbn [adjust_cursors].
  { exists cursors. split; [done|]. split; [done|]. intros t. destruct (cursors !! t); cbn; [|done]. rewrite decide_False; [done|]. intros [Ht _]. by apply elem_of_nil in Ht. }
  destruct (lookup_lt_is_Some_2 cursors x) as [c Hc]; [apply Hin; constructor|]. unfold idx. rewrite Hc. cbn [ebind].
  set (cs := if decide (index < c) then <[x := c - 1]> cursors else cursors).
  assert ((if decide (index < c) then set_idx cursors x (c - 1) else Ret cursors) = Ret cs) as ->.
  { unfold cs. case_decide; [|done]. apply set_idx_ok. by eapply lookup_lt_Some. }
  cbn [ebind]. assert (length cs = length cursors) as Hl by (unfold cs; case_decide; by rewrite ?length_insert).
  destruct (IH cs) as (cs' & -> & Hl' & Hcs); [intros t Ht; rewrite Hl; apply Hin; by constructor|].
  exists cs'. split; [done|]. split; [congruence|]. intros t. rewrite Hcs. destruct (decide (t = x)) as [->|Hne].
  - assert (cs !! x = Some (if decide (index < c) then c - 1 else c)) as E.
    { unfold cs. case_decide; [|done]. rewrite list_lookup_insert_eq; [done|]. by eapply lookup_lt_Some. }
    rewrite E, Hc. cbn. rewrite decide_False by tauto. f_equal. repeat case_decide; try done; (exfalso; match goal with H : ~ _ |- _ => apply H end; split; [constructor|done]) || tauto.
  - assert (cs !! t = cursors !! t) as -> by (unfold cs; case_decide; [by rewrite list_lookup_insert_ne|done]).
    destruct (cursors !! t) as [c'|]; cbn; [|done]. f_equal.
    assert (t ∈ x :: tasks ↔ t ∈ tasks) as Ht by (rewrite elem_of_cons; tauto). repeat case_decide; tauto || done.
Qed.

Lemma drop_delete {A} (l : list A) i c x :
  l !! i = Some x → c <= i → ∃ l1 l2, drop c l = l1 ++ x :: l2 ∧ drop c (delete i l) = l1 ++ l2.
Proof.
  intros Hi Hc. pose proof (take_drop_middle l i x Hi) as E. pose proof (lookup_lt_Some _ _ _ Hi).
  exists (drop c (take i l)), (drop (S i) l). rewrite delete_take_drop. split.
  - rewrite <- E at 1. apply drop_app_le. rewrite length_take. lia.
  - apply drop_app_le. rewrite length_take. lia.
Qed.

Lemma drop_delete_behind {A} (l : list A) i c : i < c → i < length l → drop (c - 1) (delete i l) = drop c l.
Proof.
  intros Hc Hi. rewrite delete_take_drop. rewrite drop_app_ge by (rewrite length_take; lia). rewrite length_take, drop_drop. f_equal. lia.
Qed.

(** [victim] is taken from what the task is to get, if it was there. *)
Definition loses (st st' : ReactorState) (t : nat) (victim : Notification) : Prop :=
  ∃ l1 l2, pending st t = l1 ++ victim :: l2 ∧ pending st' t = l1 ++ l2.

Lemma queue_remove_ok st i victim :
  reactor_ok st → r_queue st !! i = Some victim →
  ∃ st', remove_and_adjust_cursors st i = Ret st' ∧ reactor_ok st' ∧ r_queue st' = delete i (r_queue st) ∧
    ∀ t, if decide (t ∈ group_subscribers (n_group_id victim) ∧ cursor st t <= i) then loses st st' t victim else pending st' t = pending st t.
Proof.
  intros (Hl & Hq & Hc) Hi. pose proof (lookup_lt_Some _ _ _ Hi) as Hlt. unfold remove_and_adjust_cursors, queue_remove. rewrite decide_True by done. cbn [ebind].
  destruct (adjust_cursors_ok SUBSCRIBER_TASKS (r_cursors st) i) as (cs & -> & Hlc & Hcs); [apply subscriber_tasks_nodup|intros t Ht; rewrite Hl; by apply subscriber_tasks_lt|].
  cbn [ebind]. eexists. split; [done|]. set (st' := mkReactor (delete i (r_queue st)) cs).
  assert (length (delete i (r_queue st)) = length (r_queue st) - 1) as Hld by (rewrite length_delete; [done|by eexists]).
  assert (∀ t, cursor st' t = if decide (t ∈ SUBSCRIBER_TASKS ∧ i < cursor st t) then cursor st t - 1 else cursor st t) as Hcur.
  { intros t. unfold cursor, st'. cbn. rewrite Hcs. destruct (r_cursors st !! t); cbn; [done|]. case_decide; [lia|done]. }
  assert (∀ t, i < cursor st t → t ∈ SUBSCRIBER_TASKS) as Hsub.
  { intros t Ht. destruct (decide (t ∈ SUBSCRIBER_TASKS)) as [|Hn]; [done|]. destruct (Hc t) as [_ H0']. rewrite (H0' Hn) in Ht. lia. }
  split; [|split; [done|]].
  - split; [cbn; congruence|]. split; [cbn; lia|]. intros t. rewrite Hcur. destruct (Hc t) as [H1 H2]. cbn [r_queue st']. rewrite Hld. split.
    + case_decide as Hd; [lia|]. destruct (decide (i < cursor st t)) as [Hi2|]; [|lia]. destruct Hd. split; [by apply Hsub|done].
    + intros Hn. rewrite decide_False by tauto. by apply H2.
  - intros t. destruct (decide (i < cursor st t)) as [Hbehind|Hfront].
    + rewrite decide_False by lia. unfold pending. rewrite Hcur, decide_True by (split; [by apply Hsub|done]). cbn [r_queue st']. by rewrite drop_delete_behind.
    + destruct (drop_delete (r_queue st) i (cursor st t) victim Hi) as (l1 & l2 & E1 & E2); [lia|].
      assert (cursor st' t = cursor st t) as Ec by (rewrite Hcur; apply decide_False; tauto).
      case_decide as Hd.
      * exists (filter (λ n, is_subscriber (n_group_id n) t = true) l1), (filter (λ n, is_subscriber (n_group_id n) t = true) l2).
        unfold pending. rewrite Ec, E1. cbn [r_queue st']. rewrite E2, !list.filter_app. split; [|done]. f_equal. rewrite list.filter_cons_True; [done|]. apply is_subscriber_spec, Hd.
      * unfold pending. rewrite Ec, E1. cbn [r_queue st']. rewrite E2, !list.filter_app. f_equal. rewrite list.filter_cons_False; [done|].
        rewrite not_subscriber; [done|]. intros Ht. apply Hd. split; [done|lia].
Qed.

(** * Reports *)

(** What was reported as dropped for the task. *)
Definition drops (t : nat) (effects : list Effect) : list Notification :=
  omap (λ e, match e with DropReport n t' => if decide (t' = t) then Some n else None | Post _ => None end) effects.

Lemma drops_app t l1 l2 : drops t (l1 ++ l2) = drops t l1 ++ drops t l2.
Proof. apply omap_app. Qed.

Lemma drops_posts t tasks : drops t (Post <$> tasks) = [].
Proof. by induction tasks. Qed.

Lemma drops_reports t n tasks : NoDup tasks → drops t (DropReport n <$> tasks) = if decide (t ∈ tasks) then [n] else [].
Proof.
  induction 1 as [|x tasks Hx Hnd IH]; cbn; [rewrite decide_False; [done|by intros ?%elem_of_nil]|]. unfold drops in IH. rewrite IH.
  destruct (decide (x = t)) as [->|Hne].
  - rewrite (decide_False (P := t ∈ tasks)) by done. by rewrite decide_True by constructor.
  - assert (t ∈ x :: tasks ↔ t ∈ tasks) as Hiff by (rewrite elem_of_cons; split; [intros [?|?]; [congruence|done]|tauto]).
    destruct (decide (t ∈ tasks)); [rewrite decide_True by tauto|rewrite decide_False by tauto]; done.
Qed.

Lemma report_to_ok tasks st notif index :
  reactor_ok st → (∀ t, t ∈ tasks → t < TASK_COUNT) →
  report_to tasks st notif index = Ret (DropReport notif <$> filter (λ t, cursor st t <= index) tasks).
Proof.
  intros Hst. induction tasks as [|x tasks IH]; intros Hin; [done|]. cbn [report_to]. rewrite idx_cursor by (done || apply Hin; constructor). cbn [ebind].
  rewrite IH by (intros t Ht; apply Hin; by constructor). cbn [ebind]. rewrite filter_cons. case_decide; done.
Qed.

(** * Collecting *)

Lemma all_consumed_ok tasks st :
  reactor_ok st → (∀ t, t ∈ tasks → t < TASK_COUNT) →
  ∃ b, all_consumed tasks st = Ret b ∧ (b = true → ∀ t, t ∈ tasks → 0 < cursor st t).
Proof.
  intros Hst. induction tasks as [|x tasks IH]; intros Hin; cbn [all_consumed]; [exists true; split; [done|]; by intros _ t ?%elem_of_nil|].
  rewrite idx_cursor by (done || apply Hin; constructor). cbn [ebind]. case_decide as Hc; [|by eexists].
  destruct IH as (b & -> & Hb); [intros t Ht; apply Hin; by constructor|]. exists b. split; [done|]. intros Hbt t [->|Ht]%elem_of_cons; [done|by apply Hb].
Qed.

(** Collecting takes nothing from anybody. *)
Lemma gc_loop_ok fuel st :
  reactor_ok st → ∃ st', gc_loop fuel st = Ret st' ∧ reactor_ok st' ∧ (∀ t, pending st' t = pending st t).
Proof.
  revert st. induction fuel as [|fuel IH]; intros st Hst; cbn [gc_loop]; [by exists st|].
  destruct (r_queue st) as [|n queue] eqn:Eq; [by exists st|].
  destruct (all_consumed_ok (group_subscribers (n_group_id n)) st Hst) as (b & -> & Hb); [intros t; apply subscriber_lt|]. cbn [ebind].
  destruct b; cbn [negb]; [|by exists st].
  destruct (queue_remove_ok st 0 n Hst) as (st1 & -> & Hst1 & _ & Hp); [by rewrite Eq|]. cbn [ebind].
  destruct (IH st1 Hst1) as (st2 & -> & Hst2 & Hp2). exists st2. split; [done|]. split; [done|]. intros t. rewrite Hp2. specialize (Hp t).
  rewrite decide_False in Hp; [done|]. intros [Ht H0']. specialize (Hb eq_refl t Ht). lia.
Qed.

(** * Evicting *)

Lemma position_ok f queue i : queue_position f queue = Some i → ∃ n, queue !! i = Some n ∧ f n = true.
Proof.
  unfold queue_position. destruct (list_find f queue) as [[j n]|] eqn:E; cbn; [|done]. intros [= <-]. apply list_find_Some in E as (Hj & Hf & _).
  exists n. split; [done|]. by destruct (f n).
Qed.

Lemma rposition_ok f queue i : queue_rposition f queue = Some i → ∃ n, queue !! i = Some n ∧ f n = true.
Proof.
  unfold queue_rposition. destruct (list_find f (reverse queue)) as [[j n]|] eqn:E; [|done]. intros [= <-]. apply list_find_Some in E as (Hj & Hf & _).
  exists n. pose proof (lookup_lt_Some _ _ _ Hj) as Hlt. rewrite length_reverse in Hlt. rewrite reverse_lookup in Hj by done.
  replace (length queue - 1 - j) with (length queue - S j) by lia. split; [done|]. by destruct (f n).
Qed.

(** At most one entry is evicted, and everybody who has not seen it is told. *)
Lemma evict_ok st priority strategy :
  reactor_ok st → ∃ ok st' reports, evict st priority strategy = Ret (ok, st', reports) ∧ reactor_ok st' ∧
    (∀ t, pending st t ≡ₚ pending st' t ++ drops t reports ∧ pending st' t `sublist_of` pending st t) ∧
    (∀ n t, DropReport n t ∈ reports → (n_priority n <= priority)%Z) ∧ (∀ t, Post t ∉ reports) ∧
    (if ok then length (r_queue st') < length (r_queue st) else st' = st ∧ reports = []).
Proof.
  intros Hst.
  assert (∀ i, (∀ j, i = Some j → ∃ n, r_queue st !! j = Some n ∧ (n_priority n <= priority)%Z) →
    ∃ ok st' reports, evict_at st i = Ret (ok, st', reports) ∧ reactor_ok st' ∧
    (∀ t, pending st t ≡ₚ pending st' t ++ drops t reports ∧ pending st' t `sublist_of` pending st t) ∧
    (∀ n t, DropReport n t ∈ reports → (n_priority n <= priority)%Z) ∧ (∀ t, Post t ∉ reports) ∧
    (if ok then length (r_queue st') < length (r_queue st) else st' = st ∧ reports = [])) as Hat.
  { intros i Hi. assert (∀ t, pending st t ≡ₚ pending st t ++ [] ∧ pending st t `sublist_of` pending st t) as Hrefl by (intros t; by rewrite app_nil_r).
    destruct i as [i|]; cbn [evict_at]; [|eexists false, st, []; split_and!; try done; [by intros ?? ?%elem_of_nil|by intros ? ?%elem_of_nil]].
    destruct (Hi i eq_refl) as (victim & Hv & Hprio). unfold idx. rewrite Hv. cbn [ebind]. unfold report_eviction.
    rewrite report_to_ok by (done || intros t; apply subscriber_lt). cbn [ebind].
    destruct (queue_remove_ok st i victim Hst Hv) as (st' & -> & Hst' & Eq & Hp). cbn [ebind].
    eexists true, st', _. split; [done|]. split; [done|]. split_and!.
    - intros t. rewrite drops_reports by (apply list.NoDup_filter, group_subscribers_nodup). specialize (Hp t).
      assert (t ∈ filter (λ t, cursor st t <= i) (group_subscribers (n_group_id victim)) ↔ t ∈ group_subscribers (n_group_id victim) ∧ cursor st t <= i) as Hiff
        by (rewrite list_elem_of_filter; tauto).
      destruct (decide (t ∈ group_subscribers (n_group_id victim) ∧ cursor st t <= i)).
      + rewrite decide_True by tauto. destruct Hp as (l1 & l2 & -> & ->). split; [by rewrite <- Permutation_middle, Permutation_cons_append|].
        apply sublist_app; [done|]. by apply sublist_cons.
      + rewrite decide_False by tauto. rewrite Hp. by rewrite app_nil_r.
    - intros n t Hin. apply list_elem_of_fmap in Hin as (? & [= -> ->] & _). done.
    - intros t Hin. by apply list_elem_of_fmap in Hin as (? & ? & _).
    - rewrite Eq. pose proof (lookup_lt_Some _ _ _ Hv). rewrite length_delete; [lia|by eexists]. }
  unfold evict. destruct strategy; [apply (Hat None); done|apply Hat|apply Hat].
  - intros j Hj. apply position_ok in Hj as (n & Hn & Hb). exists n. split; [done|]. by apply bool_decide_eq_true in Hb.
  - intros j Hj. apply rposition_ok in Hj as (n & Hn & Hb). exists n. split; [done|]. by apply bool_decide_eq_true in Hb.
Qed.

(** * Sending *)

(** What a notification adds for a task. *)
Definition addressed (n : Notification) (t : nat) : list Notification := if is_subscriber (n_group_id n) t then [n] else [].

Lemma addressed_spec n t : addressed n t = if decide (t ∈ group_subscribers (n_group_id n)) then [n] else [].
Proof.
  unfold addressed. case_decide as Ht; [|by rewrite not_subscriber]. apply is_subscriber_spec in Ht. by rewrite Ht.
Qed.

Lemma queue_push_ok st n :
  reactor_ok st → length (r_queue st) < QUEUE_CAPACITY →
  ∃ st', queue_push st n = Ret st' ∧ reactor_ok st' ∧ ∀ t, pending st' t = pending st t ++ addressed n t.
Proof.
  intros (Hl & Hq & Hc) Hlt. unfold queue_push. rewrite decide_True by done. eexists. split; [done|]. split.
  - split; [done|]. split; [cbn; rewrite length_app; cbn; lia|]. intros t. destruct (Hc t) as [H1 H2]. split; [|done]. cbn. rewrite length_app. unfold cursor in *. cbn. lia.
  - intros t. destruct (Hc t) as [H1 _]. unfold pending, cursor in *. cbn [r_queue r_cursors]. rewrite drop_app_le by done. rewrite list.filter_app. f_equal.
    unfold addressed. destruct (is_subscriber (n_group_id n) t) eqn:E; [by rewrite list.filter_cons_True|by rewrite list.filter_cons_False by (rewrite E; done)].
Qed.

(** What sending does to a task: nothing is lost but what is reported. *)
Definition sent (st st' : ReactorState) (n : Notification) (effects : list Effect) (t : nat) : Prop :=
  pending st t ++ addressed n t ≡ₚ pending st' t ++ drops t effects ∧ pending st' t `sublist_of` pending st t ++ addressed n t ∧
  (pending st t = [] → pending st' t ≠ [] → Post t ∈ effects).

Lemma enqueue_ok st n strategy :
  reactor_ok st → ∃ r st' effects, enqueue st n strategy = Ret (r, st', effects) ∧ reactor_ok st' ∧ (∀ t, sent st st' n effects t) ∧
    (r = Ok tt ∨ r = Err QueueFull) ∧ (∀ v t, DropReport v t ∈ effects → (n_priority v <= n_priority n)%Z).
Proof.
  intros Hst. unfold enqueue.
  assert (∃ st1, (if is_full st then gc st else Ret st) = Ret st1 ∧ reactor_ok st1 ∧ ∀ t, pending st1 t = pending st t) as (st1 & -> & Hst1 & Hp1).
  { destruct (is_full st); [by apply gc_loop_ok|by exists st]. }
  cbn [ebind]. assert (∃ ok st2 reports, (if is_full st1 then evict st1 (n_priority n) strategy else Ret (true, st1, [])) = Ret (ok, st2, reports) ∧ reactor_ok st2 ∧
    (∀ t, pending st1 t ≡ₚ pending st2 t ++ drops t reports ∧ pending st2 t `sublist_of` pending st1 t) ∧
    (∀ v t, DropReport v t ∈ reports → (n_priority v <= n_priority n)%Z) ∧ (∀ t, Post t ∉ reports) ∧
    (if ok then length (r_queue st2) < QUEUE_CAPACITY else st2 = st1 ∧ reports = [])) as (ok & st2 & reports & -> & Hst2 & Hp2 & Hprio & Hpost & Hok).
  { destruct (is_full st1) eqn:Ef.
    - destruct (evict_ok st1 (n_priority n) strategy Hst1) as (ok & st2 & reports & E & H1 & H2 & H3 & H4 & H5). exists ok, st2, reports. split_and!; try done.
      destruct ok; [|done]. destruct Hst1 as (_ & Hq & _). lia.
    - exists true, st1, []. split_and!; try done; [intros t; by rewrite app_nil_r|by intros ?? ?%elem_of_nil|by intros ? ?%elem_of_nil|].
      unfold is_full in Ef. apply bool_decide_eq_false in Ef. destruct Hst1 as (_ & Hq & _). lia. }
  cbn [ebind]. destruct ok.
  - destruct (queue_push_ok st2 n Hst2 Hok) as (st3 & -> & Hst3 & Hp3). cbn [ebind]. eexists _, st3, _. split; [done|]. split; [done|]. split_and!; [|by left|].
    + intros t. destruct (Hp2 t) as [P1 P2]. unfold sent. rewrite Hp3, drops_app. unfold notify_subscribers. rewrite drops_posts, app_nil_r. rewrite <- Hp1. split_and!.
      * rewrite P1, <- !app_assoc. f_equiv. apply Permutation_app_comm.
      * by apply sublist_app.
      * intros H1 Hn. assert (pending st2 t = []) as E2. { rewrite H1 in P2. by apply sublist_nil_r in P2. }
        rewrite E2, addressed_spec in Hn. case_decide as Ht; [|done]. apply elem_of_app. right. by apply list_elem_of_fmap_2.
    + intros v t [Hin|Hin]%elem_of_app; [by eapply Hprio|]. by apply list_elem_of_fmap in Hin as (? & ? & _).
  - destruct Hok as [-> ->]. eexists _, st1, _. split; [done|]. split; [done|]. split_and!; [|by right|].
    + intros t. unfold sent. rewrite drops_reports by apply group_subscribers_nodup. rewrite <- addressed_spec, Hp1. split_and!; [done|by apply sublist_inserts_r|].
      intros H1 H2. rewrite H1 in H2. done.
    + intros v t Hin. apply list_elem_of_fmap in Hin as (? & [= -> ->] & _). lia.
Qed.

(** What a refresh replaces, for a task. *)
Definition replaced (st : ReactorState) (sender group_id : nat) (code : Z) (t : nat) : list Notification :=
  match queue_position (matches sender group_id code) (r_queue st) with
  | Some i => match r_queue st !! i with
              | Some old => if decide (t ∈ group_subscribers (n_group_id old) ∧ cursor st t <= i) then [old] else []
              | None => []
              end
  | None => []
  end.

(** The notification that is sent in its place. *)
Definition refreshed (st : ReactorState) (sender group_id : nat) (code priority : Z) : Notification :=
  match queue_position (matches sender group_id code) (r_queue st) with
  | Some i => match r_queue st !! i with
              | Some old => mkNotification sender group_id code (Z.max priority (n_priority old))
              | None => mkNotification sender group_id code priority
              end
  | None => mkNotification sender group_id code priority
  end.

Lemma refresh_ok st sender group_id code priority strategy :
  reactor_ok st → validate sender group_id priority = Ok tt →
  ∃ r st' effects, refresh st sender group_id code priority strategy = Ret (r, st', effects) ∧ reactor_ok st' ∧
    let n := refreshed st sender group_id code priority in
    (∀ t, pending st t ++ addressed n t ≡ₚ pending st' t ++ drops t effects ++ replaced st sender group_id code t ∧
          pending st' t `sublist_of` pending st t ++ addressed n t ∧
          (pending st t = [] → pending st' t ≠ [] → Post t ∈ effects)) ∧
    (r = Ok tt ∨ r = Err QueueFull) ∧ (∀ v t, DropReport v t ∈ effects → (n_priority v <= n_priority n)%Z).
Proof.
  intros Hst Hv. unfold refresh. rewrite Hv. unfold refreshed, replaced. destruct (queue_position _ _) as [i|] eqn:Ep.
  - apply position_ok in Ep as (old & Hold & _). unfold idx. rewrite Hold. cbn [ebind].
    destruct (queue_remove_ok st i old Hst Hold) as (st1 & -> & Hst1 & _ & Hp). cbn [ebind].
    destruct (enqueue_ok st1 (mkNotification sender group_id code (Z.max priority (n_priority old))) strategy Hst1) as (r & st2 & effects & -> & Hst2 & Hs & Hr & Hprio).
    eexists r, st2, effects. split; [done|]. split; [done|]. cbv zeta. split_and!; [|done|done]. intros t. specialize (Hp t). destruct (Hs t) as (S1 & S2 & S3).
    destruct (decide (t ∈ group_subscribers (n_group_id old) ∧ cursor st t <= i)).
    + destruct Hp as (l1 & l2 & E & E1). rewrite E1 in *. rewrite E. split_and!.
      * rewrite (app_assoc (pending st2 t)), <- S1, <- Permutation_cons_append, <- Permutation_middle. done.
      * etrans; [exact S2|]. apply sublist_app; [|done]. apply sublist_app; [done|]. by apply sublist_cons.
      * intros Hnil. by destruct l1.
    + rewrite Hp in *. rewrite app_nil_r. done.
  - destruct (enqueue_ok st (mkNotification sender group_id code priority) strategy Hst) as (r & st2 & effects & -> & Hst2 & Hs & Hr & Hprio).
    eexists r, st2, effects. split; [done|]. split; [done|]. cbv zeta. split_and!; [|done|done]. intros t. rewrite app_nil_r. apply Hs.
Qed.

(** * Receiving *)

Lemma scan_ok fuel queue t i :
  length queue - i <= fuel →
  ∃ found, scan fuel queue t i = Ret found ∧
    match found with
    | None => filter (λ n, is_subscriber (n_group_id n) t = true) (drop i queue) = []
    | Some (j, n) => queue !! j = Some n ∧ is_subscriber (n_group_id n) t = true ∧
        filter (λ n, is_subscriber (n_group_id n) t = true) (drop i queue) = n :: filter (λ n, is_subscriber (n_group_id n) t = true) (drop (S j) queue)
    end.
Proof.
  revert i. induction fuel as [|fuel IH]; intros i Hf; cbn [scan]; [exists None; split; [done|]; by rewrite drop_ge by lia|].
  case_decide as Hlt; [|exists None; split; [done|]; by rewrite drop_ge by lia].
  destruct (lookup_lt_is_Some_2 queue i) as [n Hn]; [done|]. unfold idx. rewrite Hn. cbn [ebind]. destruct (is_subscriber (n_group_id n) t) eqn:E.
  - exists (Some (i, n)). split; [done|]. split; [done|]. split; [done|]. by rewrite (drop_S _ n) at 1 by done; rewrite list.filter_cons_True.
  - destruct (IH (S i)) as (found & -> & Hfound); [lia|]. exists found. split; [done|].
    rewrite (drop_S _ n) by done. rewrite list.filter_cons_False by (rewrite E; done). done.
Qed.

Lemma existsb_pending queue t :
  existsb (λ n, is_subscriber (n_group_id n) t) queue = negb (bool_decide (filter (λ n, is_subscriber (n_group_id n) t = true) queue = [])).
Proof.
  induction queue as [|n queue IH]; [done|]. cbn [existsb]. rewrite filter_cons. destruct (is_subscriber (n_group_id n) t) eqn:E; cbn.
  - rewrite decide_True by done. done.
  - rewrite decide_False by done. done.
Qed.

Lemma has_more_ok st t : reactor_ok st → t < TASK_COUNT → has_more_for st t = Ret (negb (bool_decide (pending st t = []))).
Proof.
  intros Hst Ht. unfold has_more_for. rewrite idx_cursor by done. cbn [ebind]. destruct Hst as (_ & _ & Hc). rewrite slice_ok by (done || apply Hc). cbn [ebind].
  rewrite take_ge by (rewrite length_drop; lia). by rewrite existsb_pending.
Qed.

Lemma pull_ok st t :
  reactor_ok st → t < TASK_COUNT →
  ∃ o st' effects, pull st t = Ret (o, st', effects) ∧ reactor_ok st' ∧ pending st t = option_list o ++ pending st' t ∧ (o = None → pending st' t = []) ∧
    (∀ u, u ≠ t → pending st' u = pending st u) ∧ effects = if decide (pending st' t = []) then [] else [Post t].
Proof.
  intros Hst Ht. unfold pull. destruct (gc_loop_ok (length (r_queue st)) st Hst) as (st1 & E1 & Hst1 & Hp1). unfold gc at 1. rewrite E1. cbn [ebind].
  rewrite idx_cursor by done. cbn [ebind]. destruct (scan_ok (length (r_queue st1)) (r_queue st1) t (cursor st1 t)) as (found & -> & Hfound); [lia|]. cbn [ebind].
  destruct found as [[j n]|].
  2:{ eexists None, st1, []. split; [done|]. fold (pending st1 t) in Hfound. split; [done|]. split; [by rewrite <- Hp1, Hfound|]. split; [done|]. split; [intros u _; apply Hp1|].
      by rewrite decide_True. }
  destruct Hfound as (Hj & Hsub & Hf). fold (pending st1 t) in Hf. pose proof Hst1 as (Hl & Hq & Hc). pose proof (lookup_lt_Some _ _ _ Hj) as Hlt. unfold QUEUE_CAPACITY in Hq.
  rewrite set_idx_ok by lia. cbn [ebind]. rewrite Nat.mod_small by lia. set (st2 := mkReactor (r_queue st1) (<[t := j + 1]> (r_cursors st1))).
  assert (cursor st2 t = S j) as Ec by (unfold cursor, st2; cbn; rewrite list_lookup_insert_eq by lia; cbn; lia).
  assert (∀ u, u ≠ t → cursor st2 u = cursor st1 u) as Ec' by (intros u Hu; unfold cursor, st2; cbn; by rewrite list_lookup_insert_ne).
  assert (reactor_ok st2) as Hst2.
  { split; [cbn; by rewrite length_insert|]. split; [done|]. intros u. destruct (decide (u = t)) as [->|Hu].
    - rewrite Ec. cbn [r_queue st2]. split; [lia|]. intros Hn. destruct Hn. apply is_subscriber_spec in Hsub. by apply group_subscribers_tasks in Hsub.
    - rewrite Ec' by done. apply Hc. }
  destruct (gc_loop_ok (length (r_queue st2)) st2 Hst2) as (st3 & E3 & Hst3 & Hp3). unfold gc. rewrite E3. cbn [ebind]. rewrite has_more_ok by done. cbn [ebind].
  assert (pending st3 t = filter (λ n, is_subscriber (n_group_id n) t = true) (drop (S j) (r_queue st1))) as Et by (rewrite Hp3; unfold pending; by rewrite Ec).
  eexists (Some n), st3, _. split; [done|]. split; [done|]. split; [by rewrite <- Hp1, Hf, Et|]. split; [done|]. split.
  - intros u Hu. rewrite Hp3, <- Hp1. unfold pending. by rewrite Ec'.
  - destruct (decide (pending st3 t = [])) as [E|E]; [by rewrite bool_decide_eq_true_2|by rewrite bool_decide_eq_false_2].
Qed.

(** * Histories *)

Inductive ReactorOp :=
  | OpPush (sender group_id : nat) (code priority : Z) (strategy : OverflowStrategy)
  | OpRefresh (sender group_id : nat) (code priority : Z) (strategy : OverflowStrategy)
  | OpPull (task : nat).

(** What happened: a notification was validated for sending, a task asked and was
    given one, one was reported as dropped or replaced for a task, a task was posted. *)
Inductive Event :=
  | Offered (n : Notification)
  | Pulled (t : nat) (o : option Notification)
  | Replaced (n : Notification) (t : nat)
  | Effected (e : Effect).

Definition sending (n : Notification) (replacing : list Event) (effects : list Effect) : list Event :=
  Offered n :: replacing ++ (Effected <$> effects).

Definition run_reactor_op (st : ReactorState) (op : ReactorOp) : exec (ReactorState * list Event) :=
  match op with
  | OpPush sender g code priority strategy =>
      let! (_, st', effects) := push st sender g code priority strategy in
      Ret (st', match validate sender g priority with Ok _ => sending (mkNotification sender g code priority) [] effects | Err _ => [] end)
  | OpRefresh sender g code priority strategy =>
      let! (_, st', effects) := refresh st sender g code priority strategy in
      Ret (st', match validate sender g priority with
                | Ok _ => sending (refreshed st sender g code priority)
                    (concat ((λ t, (λ n, Replaced n t) <$> replaced st sender g code t) <$> seq 0 TASK_COUNT)) effects
                | Err _ => []
                end)
  | OpPull t =>
      let! (o, st', effects) := pull st t in
      Ret (st', Pulled t o :: (Effected <$> effects))
  end.

Fixpoint run_reactor (st : ReactorState) (ops : list ReactorOp) : exec (ReactorState * list Event) :=
  match ops with
  | [] => Ret (st, [])
  | op :: ops =>
      let! (st, events) := run_reactor_op st op in
      let! (st, more) := run_reactor st ops in
      Ret (st, events ++ more)
  end.

Definition reactor_op_ok (op : ReactorOp) : Prop := match op with OpPull t => t < TASK_COUNT | _ => True end.

(** The history of one task. *)
Definition offered (t : nat) (events : list Event) : list Notification :=
  concat ((λ e, match e with Offered n => addressed n t | _ => [] end) <$> events).
Definition delivered (t : nat) (events : list Event) : list Notification :=
  omap (λ e, match e with Pulled t' o => if decide (t' = t) then o else None | _ => None end) events.
Definition dropped (t : nat) (events : list Event) : list Notification :=
  omap (λ e, match e with Effected (DropReport n t') => if decide (t' = t) then Some n else None | _ => None end) events.
Definition superseded (t : nat) (events : list Event) : list Notification :=
  omap (λ e, match e with Replaced n t' => if decide (t' = t) then Some n else None | _ => None end) events.

(** The task has been posted since it last asked. *)
Definition posted (t : nat) (before : bool) (events : list Event) : bool :=
  foldl (λ b e, match e with Pulled t' _ => if decide (t' = t) then false else b
                           | Effected (Post t') => if decide (t' = t) then true else b | _ => b end) before events.

(** ** What the effects of an operation add to the history *)

Lemma effects_history t b effects :
  offered t (Effected <$> effects) = [] ∧ delivered t (Effected <$> effects) = [] ∧ superseded t (Effected <$> effects) = [] ∧
  dropped t (Effected <$> effects) = drops t effects ∧ (b = true ∨ Post t ∈ effects → posted t b (Effected <$> effects) = true).
Proof.
  split_and!; [by induction effects|by induction effects|by induction effects| |].
  - induction effects as [|e effects IH]; [done|]. cbn. unfold dropped, drops in IH. rewrite IH. by destruct e.
  - revert b. induction effects as [|e effects IH]; intros b Hb; cbn; [destruct Hb as [?|?%elem_of_nil]; done|]. apply IH.
    destruct Hb as [->|[<-|Hin]%elem_of_cons]; [left; by destruct e; [|case_decide]|left; by rewrite decide_True|by right].
Qed.

Lemma history_app t l1 l2 :
  offered t (l1 ++ l2) = offered t l1 ++ offered t l2 ∧ delivered t (l1 ++ l2) = delivered t l1 ++ delivered t l2 ∧
  superseded t (l1 ++ l2) = superseded t l1 ++ superseded t l2 ∧ dropped t (l1 ++ l2) = dropped t l1 ++ dropped t l2 ∧
  ∀ b, posted t b (l1 ++ l2) = posted t (posted t b l1) l2.
Proof. unfold offered, delivered, superseded, dropped, posted. rewrite fmap_app, concat_app, !omap_app. split_and!; try done. intros b. apply foldl_app. Qed.

(** The events of a refresh. *)
Lemma replacing_history t (f : nat → list Notification) tasks :
  NoDup tasks → let events := concat ((λ u, (λ n, Replaced n u) <$> f u) <$> tasks) in
  offered t events = [] ∧ delivered t events = [] ∧ dropped t events = [] ∧ (∀ b, posted t b events = b) ∧
  superseded t events = if decide (t ∈ tasks) then f t else [].
Proof.
  assert (∀ u, offered t ((λ n, Replaced n u) <$> f u) = [] ∧ delivered t ((λ n, Replaced n u) <$> f u) = [] ∧ dropped t ((λ n, Replaced n u) <$> f u) = [] ∧
    (∀ b, posted t b ((λ n, Replaced n u) <$> f u) = b) ∧ superseded t ((λ n, Replaced n u) <$> f u) = if decide (u = t) then f u else []) as H1.
  { intros u. induction (f u) as [|n l (I1 & I2 & I3 & I4 & I5)]; [split_and!; try done; by case_decide|]. cbn. unfold superseded in I5. cbn in I5. rewrite I5. split_and!; try done. by case_decide. }
  induction 1 as [|x tasks Hx Hnd IH]; cbn zeta; cbn [fmap list_fmap concat].
  { split_and!; done. }
  destruct IH as (I1 & I2 & I3 & I4 & I5). destruct (H1 x) as (X1 & X2 & X3 & X4 & X5).
  destruct (history_app t ((λ n, Replaced n x) <$> f x) (concat ((λ u, (λ n, Replaced n u) <$> f u) <$> tasks))) as (A1 & A2 & A3 & A4 & A5).
  rewrite A1, A2, A3, A4, I1, I2, I3, I5, X1, X2, X3, X5. split_and!; [done|done|done|intros b; by rewrite A5, I4, X4|].
  destruct (decide (x = t)) as [->|Hne].
  - rewrite (decide_False (P := t ∈ tasks)) by done. rewrite decide_True by constructor. by rewrite app_nil_r.
  - cbn. assert (t ∈ x :: tasks ↔ t ∈ tasks) as Hiff by (rewrite elem_of_cons; split; [intros [?|?]; [congruence|done]|tauto]).
    destruct (decide (t ∈ tasks)); [rewrite decide_True by tauto|rewrite decide_False by tauto]; done.
Qed.

(** ** One operation *)

(** From one state to the next nothing is lost for the task, the order is kept, and it
    is posted when there is something to get. *)
Definition accounted (st st' : ReactorState) (events : list Event) (t : nat) : Prop :=
  pending st t ++ offered t events ≡ₚ delivered t events ++ pending st' t ++ dropped t events ++ superseded t events ∧
  delivered t events ++ pending st' t `sublist_of` pending st t ++ offered t events ∧
  ∀ b, (pending st t ≠ [] → b = true) → pending st' t ≠ [] → posted t b events = true.

Lemma sending_history t n replacing effects b :
  delivered t replacing = [] → dropped t replacing = [] → offered t replacing = [] → (∀ b, posted t b replacing = b) →
  offered t (sending n replacing effects) = addressed n t ∧ delivered t (sending n replacing effects) = [] ∧
  dropped t (sending n replacing effects) = drops t effects ∧ superseded t (sending n replacing effects) = superseded t replacing ∧
  (b = true ∨ Post t ∈ effects → posted t b (sending n replacing effects) = true).
Proof.
  intros R1 R2 R3 R4. destruct (effects_history t b effects) as (E1 & E2 & E3 & E4 & E5). destruct (history_app t replacing (Effected <$> effects)) as (A1 & A2 & A3 & A4 & A5).
  unfold sending. change (Offered n :: replacing ++ (Effected <$> effects)) with ([Offered n] ++ (replacing ++ (Effected <$> effects))).
  destruct (history_app t [Offered n] (replacing ++ (Effected <$> effects))) as (B1 & B2 & B3 & B4 & B5).
  rewrite B1, B2, B3, B4, B5, A1, A2, A3, A4, A5, E1, E2, E3, E4, R1, R2, R3, R4. split_and!; try done; [unfold offered; cbn; by rewrite !app_nil_r|cbn; by rewrite app_nil_r].
Qed.

Lemma accounted_refl st t : accounted st st [] t.
Proof. split_and!; [by rewrite !app_nil_r|by rewrite app_nil_r|]. intros b Hb Hn. by apply Hb. Qed.

Lemma run_reactor_op_ok st op :
  reactor_ok st → reactor_op_ok op → ∃ st' events, run_reactor_op st op = Ret (st', events) ∧ reactor_ok st' ∧ ∀ t, accounted st st' events t.
Proof.
  intros Hst Hop. destruct op as [sender g code priority strategy|sender g code priority strategy|task]; cbn [run_reactor_op].
  - unfold push. destruct (validate sender g priority) as [[]|e]; [|eexists st, []; split; [done|]; split; [done|intros t; apply accounted_refl]].
    destruct (enqueue_ok st (mkNotification sender g code priority) strategy Hst) as (r & st' & effects & -> & Hst' & Hs & _ & _). cbn [ebind].
    eexists st', _. split; [done|]. split; [done|]. intros t. destruct (Hs t) as (S1 & S2 & S3).
    pose proof (sending_history t (mkNotification sender g code priority) [] effects) as Hh. split_and!.
    + destruct (Hh true) as (-> & -> & -> & -> & _); try done. cbn. by rewrite app_nil_r.
    + destruct (Hh true) as (-> & -> & _); done.
    + intros b Hb Hn. apply Hh; try done. destruct (decide (pending st t = [])) as [E|E]; [right; by apply S3|left; by apply Hb].
  - destruct (validate sender g priority) as [[]|e] eqn:Ev; [|unfold refresh; rewrite Ev; eexists st, []; split; [done|]; split; [done|intros t; apply accounted_refl]].
    destruct (refresh_ok st sender g code priority strategy Hst Ev) as (r & st' & effects & -> & Hst' & Hs & _ & _). cbn [ebind].
    eexists st', _. split; [done|]. split; [done|]. intros t. destruct (Hs t) as (S1 & S2 & S3).
    destruct (replacing_history t (replaced st sender g code) (seq 0 TASK_COUNT)) as (R1 & R2 & R3 & R4 & R5); [apply base.NoDup_ListNoDup, List.seq_NoDup|].
    set (replacing := concat _) in *. pose proof (sending_history t (refreshed st sender g code priority) replacing effects) as Hh.
    assert (superseded t replacing = replaced st sender g code t) as Es.
    { rewrite R5. case_decide as Hin; [done|]. unfold replaced. destruct (queue_position _ _) as [i|]; [|done]. destruct (r_queue st !! i) as [old|]; [|done].
      rewrite decide_False; [done|]. intros [Ht _]. apply Hin, elem_of_seq. apply subscriber_lt in Ht. lia. }
    split_and!.
    + destruct (Hh true) as (-> & -> & -> & -> & _); try done. by rewrite Es.
    + destruct (Hh true) as (-> & -> & _); done.
    + intros b Hb Hn. apply Hh; try done. destruct (decide (pending st t = [])) as [E|E]; [right; by apply S3|left; by apply Hb].
  - destruct (pull_ok st task Hst Hop) as (o & st' & effects & -> & Hst' & Hp & Hnone & Hother & Heff). cbn [ebind].
    eexists st', _. split; [done|]. split; [done|]. intros t. destruct (effects_history t false effects) as (E1 & E2 & E3 & E4 & _).
    assert (drops t effects = []) as Ed by (rewrite Heff; by case_decide).
    change (Pulled task o :: (Effected <$> effects)) with ([Pulled task o] ++ (Effected <$> effects)).
    destruct (history_app t [Pulled task o] (Effected <$> effects)) as (A1 & A2 & A3 & A4 & A5).
    assert (delivered t [Pulled task o] = if decide (task = t) then option_list o else []) as Edl by (unfold delivered; cbn; destruct (decide (task = t)), o; done).
    assert (∀ b, posted t b [Pulled task o] = if decide (task = t) then false else b) as Ep by done.
    unfold accounted. rewrite A1, A2, A3, A4, E1, E2, E3, E4, Ed, Edl. change (offered t [Pulled task o]) with (@nil Notification).
    change (superseded t [Pulled task o]) with (@nil Notification). change (dropped t [Pulled task o]) with (@nil Notification). rewrite !app_nil_r. cbn [app].
    destruct (decide (task = t)) as [->|Hne].
    + rewrite <- Hp. split_and!; [done|done|]. intros b _ Hn. rewrite A5. apply effects_history. right. rewrite Heff, decide_False by done. constructor.
    + cbn [app]. rewrite Hother by done. split_and!; [done|done|]. intros b Hb Hn. rewrite A5, Ep. apply effects_history. left. by apply Hb.
Qed.

Lemma accounted_trans st1 st2 st3 e1 e2 t : accounted st1 st2 e1 t → accounted st2 st3 e2 t → accounted st1 st3 (e1 ++ e2) t.
Proof.
  intros (P1 & S1 & B1) (P2 & S2 & B2). destruct (history_app t e1 e2) as (A1 & A2 & A3 & A4 & A5). unfold accounted. rewrite A1, A2, A3, A4. split_and!.
  - rewrite app_assoc, P1. trans (delivered t e1 ++ (pending st2 t ++ offered t e2) ++ dropped t e1 ++ superseded t e1); [solve_Permutation|].
    rewrite P2. solve_Permutation.
  - rewrite <- app_assoc. etrans; [apply sublist_app; [reflexivity|exact S2]|]. rewrite !app_assoc. by apply sublist_app.
  - intros b Hb Hn. rewrite A5. apply B2; [|done]. intros Hn2. by apply B1.
Qed.

Lemma run_reactor_ok ops st :
  reactor_ok st → Forall reactor_op_ok ops → ∃ st' events, run_reactor st ops = Ret (st', events) ∧ reactor_ok st' ∧ ∀ t, accounted st st' events t.
Proof.
  intros Hst Hops. revert st Hst. induction Hops as [|op ops Hop _ IH]; intros st Hst; cbn [run_reactor]; [eexists st, []; split; [done|]; split; [done|intros t; apply accounted_refl]|].
  destruct (run_reactor_op_ok st op Hst Hop) as (st1 & e1 & -> & Hst1 & Ha1). cbn [ebind]. destruct (IH st1 Hst1) as (st2 & e2 & -> & Hst2 & Ha2). cbn [ebind].
  eexists st2, _. split; [done|]. split; [done|]. intros t. by eapply accounted_trans.
Qed.

Lemma pending_new t : pending reactor_new t = [].
Proof. unfold pending. cbn. by rewrite drop_nil. Qed.
End props.

(** C18: no notification is lost. After any history of calls the reactor has not
    panicked and its queue is bounded; for every task, the notifications that were
    accepted for its groups are, each once, those it was given, those it can still get,
    those reported to the supervisor as dropped for it and those replaced by a refresh;
    it gets them in the order they were sent; and whenever there is one to get, it has
    been notified since it last asked. *)
Theorem reactor_accounts_for_all `{NotificationsOk} ops :
  Forall reactor_op_ok ops →
  ∃ st events, run_reactor reactor_new ops = Ret (st, events) ∧ length (r_queue st) <= QUEUE_CAPACITY ∧
    ∀ t, offered t events ≡ₚ delivered t events ++ pending st t ++ dropped t events ++ superseded t events ∧
      delivered t events ++ pending st t `sublist_of` offered t events ∧
      (pending st t ≠ [] → posted t false events = true).
Proof.
  intros Hops. destruct (run_reactor_ok ops reactor_new reactor_new_ok Hops) as (st & events & E & (_ & Hq & _) & Ha).
  exists st, events. split_and!; [exact E|exact Hq|]. intros t. destruct (Ha t) as (H1 & H2 & H3). rewrite pending_new in *. split_and!; [done|done|]. by apply H3.
Qed.

(** ** A system with one group *)

#[local] Instance ex_notifications : Notifications := {|
  TASK_COUNT := 3;
  GROUPS := [(0, 10)%Z];
  is_sender_allowed g s := bool_decide (g = 0 ∧ s = 0);
  group_subscribers g := if decide (g = 0) then [1; 2] else [];
  is_subscriber g t := bool_decide (g = 0 ∧ (t = 1 ∨ t = 2));
  SUBSCRIBER_TASKS := [1; 2];
|}.

#[local] Instance ex_notifications_ok : NotificationsOk ex_notifications.
Proof.
  constructor; cbn.
  - intros g t. rewrite bool_decide_eq_true. case_decide; rewrite ?elem_of_cons, elem_of_nil; lia.
  - intros g. case_decide; apply (bool_decide_eq_true_1 _); by vm_compute.
  - intros g t. case_decide; [done|]. by intros ?%elem_of_nil.
  - apply (bool_decide_eq_true_1 _). by vm_compute.
  - intros t. rewrite !elem_of_cons, elem_of_nil. lia.
Qed.

(** The queue is filled, task 1 takes one entry, and two more are sent. *)
Definition ex_sends : list ReactorOp :=
  ((λ i, OpPush 0 0 (Z.of_nat i) 5 Reject) <$> seq 0 32) ++ [OpPull 1; OpPush 0 0 100 5 DropOldest; OpPush 0 0 101 4 Reject; OpRefresh 0 0 7 6 Reject].

Lemma reactor_accounts_for_all_witness :
  ∃ st events, run_reactor reactor_new ex_sends = Ret (st, events) ∧
    offered 2 events ≡ₚ delivered 2 events ++ pending st 2 ++ dropped 2 events ++ superseded 2 events ∧ length (offered 2 events) = 35 ∧
    n_code <$> delivered 1 events = [0%Z] ∧ n_code <$> dropped 1 events = [101%Z] ∧ n_code <$> dropped 2 events = [0%Z; 101%Z] ∧ n_code <$> superseded 2 events = [7%Z].
Proof.
  destruct (reactor_accounts_for_all ex_sends) as (st & events & E & _ & H).
  - repeat constructor.
  - exists st, events. split; [exact E|]. split; [apply H|]. vm_compute in E. injection E as <- <-. vm_compute. split_and!; reflexivity.
Defined.
