(* ===== verification/KernAccess.v ===== *)
(** The kernel's memory access check, [firmware/hubris/kerncore/src/lib.rs].

    The traits [UserSlice] and [MemoryRegion] are classes; [region_wf] is the
    invariant that the documentation of [MemoryRegion] states. Addresses are unsigned machine
    words; the check does no arithmetic on them. *)

From S2P Require Import Prelude.

Class UserSlice (S : Type) := {
  slice_is_empty : S → bool;
  slice_base : S → Z;
  slice_end : S → Z;
}.

Class MemoryRegion (R : Type) := {
  contains : R → Z → bool;
  base_addr : R → Z;
  end_addr : R → Z;
}.

(** * The standard library's [binary_search_by] *)

Section search.
Context {R : Type} (f : R → comparison) (table : list R).

Fixpoint search_loop (fuel base size : nat) : exec nat :=
  match fuel with
  | O => Panic
  | S fuel =>
      if decide (1 < size) then
        let half := size / 2 in
        let mid := base + half in
        let! r := idx table mid in
        search_loop fuel (match f r with Gt => base | _ => mid end) (size - half)
      else Ret base
  end.

Definition binary_search_by : exec (result nat nat) :=
  if decide (length table = 0) then Ret (Err 0) else
  let! base := search_loop (length table) 0 (length table) in
  let! r := idx table base in
  match f r with
  | Eq => Ret (Ok base)
  | Lt => Ret (Err (base + 1))
  | Gt => Ret (Err base)
  end.

(** If some entry matches, the search ends at one that does: no entry below a
    match compares greater, none above it less. *)
Lemma search_loop_ok k rk fuel base size :
  (∀ i j ri rj, i < j → table !! i = Some ri → table !! j = Some rj → f rj = Eq → f ri ≠ Gt) →
  (∀ i j ri rj, i < j → table !! i = Some ri → table !! j = Some rj → f ri = Eq → f rj ≠ Lt) →
  table !! k = Some rk → f rk = Eq →
  base ≤ k < base + size → base + size ≤ length table → size ≤ fuel →
  ∃ k' r, search_loop fuel base size = Ret k' ∧ table !! k' = Some r ∧ f r = Eq.
Proof.
  intros Hgt Hlt. revert base size k rk.
  induction fuel as [|fuel IH]; intros base size k rk Hrk Hk Hb Hlen Hf; [lia|].
  cbn [search_loop]. case_decide as Hs; [|exists k, rk; split; [f_equal; lia|done]].
  assert (0 < size / 2 < size) as Hh by (split; [apply Nat.div_str_pos|apply Nat.div_lt]; lia).
  pose proof (Nat.Div0.mul_div_le size 2) as H2.
  destruct (idx_lt table (base + size / 2)) as (r & Hr & ->); [lia|]. cbn [ebind].
  destruct (f r) eqn:Er.
  - apply (IH _ _ (base + size / 2) r); done || lia.
  - apply (IH _ _ k rk); try done; [|lia..]. destruct (Nat.lt_trichotomy k (base + size / 2)) as [E|[->|E]]; [|congruence|lia].
    by destruct (Hlt _ _ _ _ E Hrk Hr Hk).
  - apply (IH _ _ k rk); try done; [|lia..]. destruct (Nat.lt_trichotomy k (base + size / 2)) as [E|[->|E]]; [lia|congruence|].
    by destruct (Hgt _ _ _ _ E Hr Hrk Hk).
Qed.

Lemma search_loop_bounds fuel base size :
  0 < size → base + size ≤ length table → size ≤ fuel →
  ∃ k, search_loop fuel base size = Ret k ∧ k < length table.
Proof.
  revert base size. induction fuel as [|fuel IH]; intros base size Hs Hlen Hf; [lia|].
  cbn [search_loop]. case_decide; [|exists base; split; [done|lia]].
  assert (0 < size / 2 < size) as Hh by (split; [apply Nat.div_str_pos|apply Nat.div_lt]; lia).
  destruct (idx_lt table (base + size / 2)) as (r & _ & ->); [lia|]. cbn [ebind].
  destruct (f r); apply IH; lia.
Qed.
End search.

(** * The check *)

Section access.
Context {Sl R : Type} `{UserSlice Sl} `{MemoryRegion R}.

Definition region_compare (region : R) (addr : Z) : comparison :=
  if decide (addr < base_addr region)%Z then Gt
  else if decide (end_addr region <= addr)%Z then Lt
  else Eq.

Section check.
Context (region_ok : R → bool).

(** The scan over the regions that follow the first. *)
Fixpoint scan_regions (regions : list R) (scan_addr end_ : Z) : bool :=
  match regions with
  | [] => false
  | region :: regions =>
      if negb (contains region scan_addr) then false
      else if negb (region_ok region) then false
      else if decide (end_ <= end_addr region)%Z then true
      else scan_regions regions (end_addr region) end_
  end.

Definition can_access (slice : Sl) (table : list R) : exec bool :=
  if slice_is_empty slice then Ret true else
  let scan_addr := slice_base slice in
  let end_ := slice_end slice in
  let! found := binary_search_by (λ reg, region_compare reg scan_addr) table in
  match found with
  | Err _ => Ret false
  | Ok index =>
      let! first_region := idx table index in
      if negb (region_ok first_region) then Ret false else
      let scan_addr := end_addr first_region in
      if decide (end_ <= scan_addr)%Z then Ret true else
      let! rest := Prelude.slice table (index + 1) (length table) in
      Ret (scan_regions rest scan_addr end_)
  end.

(** * What it decides *)

(** The invariant of a region, and the table's precondition. The documentation
    forbids any overlap; the tables the build generates repeat the null region in
    unused entries, so a region may follow itself. *)
Definition region_wf (r : R) : Prop :=
  (base_addr r <= end_addr r)%Z ∧ ∀ a, contains r a = true ↔ (base_addr r <= a < end_addr r)%Z.

Definition precedes (r r' : R) : Prop := (end_addr r <= base_addr r')%Z ∨ r' = r.

Fixpoint table_wf (table : list R) : Prop :=
  match table with
  | [] => True
  | r :: rs => region_wf r ∧ Forall (precedes r) rs ∧ table_wf rs
  end.

(** No permitted region is repeated. *)
Fixpoint ok_once (table : list R) : Prop :=
  match table with
  | [] => True
  | r :: rs => (region_ok r = true → r ∉ rs) ∧ ok_once rs
  end.

(** Every address of [lo, hi) lies in a permitted region. *)
Definition covered (table : list R) (lo hi : Z) : Prop :=
  ∀ a, (lo <= a < hi)%Z → ∃ r, r ∈ table ∧ region_ok r = true ∧ (base_addr r <= a < end_addr r)%Z.

Lemma table_wf_region table r : table_wf table → r ∈ table → region_wf r.
Proof.
  induction table as [|x table IH]; [intros _ E; by apply elem_of_nil in E|].
  intros (Hx & _ & Ht) [->|Hr]%elem_of_cons; auto.
Qed.

Lemma table_wf_order table i j ri rj : table_wf table →
  table !! i = Some ri → table !! j = Some rj → i < j → precedes ri rj.
Proof.
  revert i j. induction table as [|x table IH]; intros i j Ht Hi Hj Hij; [done|].
  destruct Ht as (_ & Hx & Ht). destruct j as [|j]; [lia|]. destruct i as [|i].
  - injection Hi as ->. exact (Forall_lookup_1 _ _ _ _ Hx Hj).
  - apply (IH i j); try done. lia.
Qed.

Lemma table_wf_app t1 t2 : table_wf (t1 ++ t2) → table_wf t2.
Proof. induction t1 as [|r t1 IH]; [done|]. intros (_ & _ & ?). auto. Qed.

Lemma ok_once_app t1 t2 : ok_once (t1 ++ t2) → ok_once t2.
Proof. induction t1 as [|r t1 IH]; [done|]. intros (_ & ?). auto. Qed.

(** At most one region, possibly repeated, holds an address. *)
Lemma region_unique table r r' a : table_wf table → r ∈ table → r' ∈ table →
  (base_addr r <= a < end_addr r)%Z → (base_addr r' <= a < end_addr r')%Z → r' = r.
Proof.
  intros Ht [i Hi]%list_elem_of_lookup [j Hj]%list_elem_of_lookup Ha Ha'.
  destruct (Nat.lt_trichotomy i j) as [E|[->|E]]; [|congruence|].
  - destruct (table_wf_order _ _ _ _ _ Ht Hi Hj E); [lia|done].
  - destruct (table_wf_order _ _ _ _ _ Ht Hj Hi E); [lia|done].
Qed.

Lemma region_compare_eq r a : region_compare r a = Eq ↔ (base_addr r <= a < end_addr r)%Z.
Proof. unfold region_compare. case_decide; [|case_decide]; split; try done; lia. Qed.

(** The search finds the region that holds an address, if there is one. *)
Lemma search_region table a : table_wf table →
  match binary_search_by (λ reg, region_compare reg a) table with
  | Ret (Ok i) => ∃ r, table !! i = Some r ∧ (base_addr r <= a < end_addr r)%Z
  | Ret (Err _) => ∀ r, r ∈ table → ¬ (base_addr r <= a < end_addr r)%Z
  | Panic => False
  end.
Proof.
  intros Ht. unfold binary_search_by. case_decide as Hl.
  { intros r Hr. destruct table; [|done]. by apply elem_of_nil in Hr. }
  destruct (search_loop_bounds (λ reg, region_compare reg a) table (length table) 0 (length table))
    as (k & Hk & Hkl); [lia..|]. rewrite Hk. cbn [ebind].
  destruct (idx_lt table k Hkl) as (r & Hr & ->). cbn [ebind].
  assert (∀ r', r' ∈ table → (base_addr r' <= a < end_addr r')%Z → region_compare r a = Eq) as Hfound.
  { intros r' [i Hi]%list_elem_of_lookup Ha%region_compare_eq.
    destruct (search_loop_ok (λ reg, region_compare reg a) table i r' (length table) 0 (length table))
      as (k' & r'' & E & Hr'' & Hc); try done.
    - intros ? ? ri rj ? Hri Hrj Hj%region_compare_eq.
      pose proof (table_wf_region _ ri Ht (list_elem_of_lookup_2 _ _ _ Hri)) as [? _].
      destruct (table_wf_order _ _ _ _ _ Ht Hri Hrj) as [|E]; [done| |subst rj];
        unfold region_compare; repeat case_decide; done || lia.
    - intros ? ? ri rj ? Hri Hrj Hj%region_compare_eq.
      destruct (table_wf_order _ _ _ _ _ Ht Hri Hrj) as [|E]; [done| |subst rj];
        unfold region_compare; repeat case_decide; done || lia.
    - apply lookup_lt_Some in Hi. lia.
    - rewrite Hk in E. injection E as ->. rewrite Hr in Hr''. by injection Hr'' as ->. }
  destruct (region_compare r a) eqn:Ec.
  - exists r. split; [done|]. by apply region_compare_eq.
  - intros r' Hr' Ha. by specialize (Hfound r' Hr' Ha).
  - intros r' Hr' Ha. by specialize (Hfound r' Hr' Ha).
Qed.

Lemma covered_mono t1 t2 lo hi : (∀ r, r ∈ t1 → r ∈ t2) → covered t1 lo hi → covered t2 lo hi.
Proof. intros Hsub Hc a Ha. destruct (Hc a Ha) as (r & Hr & ? & ?). exists r. auto. Qed.

Lemma covered_join table lo mid hi : covered table lo mid → covered table mid hi → covered table lo hi.
Proof. intros H1 H2 a Ha. destruct (Z.lt_ge_cases a mid); [apply H1|apply H2]; lia. Qed.

Lemma covered_region table r lo : r ∈ table → region_ok r = true → (base_addr r <= lo)%Z →
  covered table lo (end_addr r).
Proof. intros Hr Hok Hlo a Ha. exists r. split; [done|]. split; [done|lia]. Qed.

(** A scan that succeeds saw the rest covered. *)
Lemma scan_regions_sound regions scan_addr end_ : table_wf regions →
  scan_regions regions scan_addr end_ = true → covered regions scan_addr end_.
Proof.
  revert scan_addr. induction regions as [|r rs IH]; intros scan_addr Ht Hs; [done|].
  destruct Ht as ([_ Hc] & _ & Ht). cbn [scan_regions] in Hs.
  destruct (contains r scan_addr) eqn:Ec; [|done]. destruct (region_ok r) eqn:Eo; [|done]. cbn [negb] in Hs.
  apply Hc in Ec. pose proof (covered_region (r :: rs) r scan_addr (list_elem_of_here _ _) Eo ltac:(lia)) as H1.
  case_decide.
  - intros a Ha. apply H1. lia.
  - apply (covered_join _ _ (end_addr r)); [done|]. eapply covered_mono; [|by apply IH].
    intros x Hx. by apply elem_of_cons; right.
Qed.

(** Behind a permitted region that is not repeated all regions lie above it. *)
Lemma above_ok r rs : Forall (precedes r) rs → r ∉ rs → Forall (λ x, end_addr r <= base_addr x)%Z rs.
Proof.
  intros Hord Hnot. apply Forall_lookup_2. intros i x Hx.
  destruct (Forall_lookup_1 _ _ _ _ Hord Hx) as [Hle| ->]; [done|].
  destruct Hnot. exact (list_elem_of_lookup_2 _ _ _ Hx).
Qed.

(** Without empty regions, a covered rest is scanned successfully. *)
Lemma scan_regions_complete regions scan_addr end_ : table_wf regions → ok_once regions →
  Forall (λ r, base_addr r < end_addr r)%Z regions → Forall (λ r, scan_addr <= base_addr r)%Z regions →
  (scan_addr < end_)%Z → covered regions scan_addr end_ → scan_regions regions scan_addr end_ = true.
Proof.
  revert scan_addr. induction regions as [|r rs IH]; intros scan_addr Ht Hon Hne Hge Hlt Hcov.
  { destruct (Hcov scan_addr) as (x & Hx & _); [lia|]. by apply elem_of_nil in Hx. }
  destruct Ht as ([Hr Hc] & Hord & Ht), Hon as [Hon1 Hon].
  apply Forall_cons_1 in Hne as [Hner Hne]. apply Forall_cons_1 in Hge as [Hger _].
  cbn [scan_regions].
  assert (region_ok r = true ∧ (base_addr r <= scan_addr)%Z) as [Hok Hb].
  { destruct (Hcov scan_addr) as (x & [->|Hx]%elem_of_cons & Hok & Hin); [lia|split; [done|lia]|].
    apply list_elem_of_lookup in Hx as [i Hi].
    destruct (Forall_lookup_1 _ _ _ _ Hord Hi) as [Hle| ->]; [lia|]. split; [done|lia]. }
  assert (contains r scan_addr = true) as -> by (apply Hc; lia). rewrite Hok. cbn [negb].
  case_decide; [done|]. apply IH; try done; [apply above_ok; auto|lia|].
  intros a Ha. destruct (Hcov a) as (x & [->|Hx]%elem_of_cons & ? & ?); [lia|lia|]. by exists x.
Qed.

(** The regions behind the one at [i], and which of them can hold an address
    that is not below it. *)
Lemma table_split (table : list R) i r : table !! i = Some r → table = take i table ++ r :: drop (i + 1) table.
Proof.
  intros Hr. rewrite <- (take_drop i table) at 1. f_equal. rewrite (drop_S _ _ _ Hr). by rewrite Nat.add_1_r.
Qed.

Lemma later_region table i r x a : table_wf table → table !! i = Some r → x ∈ table →
  (base_addr x <= a < end_addr x)%Z → (base_addr r <= a)%Z → x = r ∨ x ∈ drop (i + 1) table.
Proof.
  intros Ht Hr Hx Hxa Hra. apply list_elem_of_lookup in Hx as [j Hj].
  destruct (Nat.lt_trichotomy j i) as [Hji|[->|Hji]].
  - destruct (table_wf_order _ _ _ _ _ Ht Hj Hr Hji); [lia|by left].
  - left. congruence.
  - right. apply list_elem_of_lookup. exists (j - (i + 1)). rewrite lookup_drop.
    by replace (i + 1 + (j - (i + 1))) with j by lia.
Qed.

(** The region that holds the first address of a covered range is permitted. *)
Lemma first_region_ok table i r lo hi : table_wf table → table !! i = Some r →
  (base_addr r <= lo < end_addr r)%Z → (lo < hi)%Z → covered table lo hi → region_ok r = true.
Proof.
  intros Ht Hr Hin Hlt Hcov. destruct (Hcov lo) as (x & Hx & Hok & Hxa); [lia|].
  by rewrite (region_unique table x r lo Ht Hx (list_elem_of_lookup_2 _ _ _ Hr) Hxa Hin).
Qed.

(** The access check decides coverage. For a table sorted by address without
    overlaps, [can_access] never panics; if it allows a slice, every byte of the
    slice lies in a region that [region_ok] permits, whatever boundaries the
    slice spans; and when no region is empty and no permitted one is repeated, it
    allows every such slice. *)
Lemma can_access_decision (s : Sl) (table : list R) :
  table_wf table → (slice_is_empty s = true ↔ slice_base s = slice_end s) → (slice_base s <= slice_end s)%Z →
  ∃ b, can_access s table = Ret b ∧
    (b = true → covered table (slice_base s) (slice_end s)) ∧
    (Forall (λ r, base_addr r < end_addr r)%Z table → ok_once table → covered table (slice_base s) (slice_end s) → b = true).
Proof.
  intros Ht Hempty Hle. unfold can_access. destruct (slice_is_empty s) eqn:Ee.
  { exists true. split; [done|]. split; [|done]. intros _ a Ha. destruct Hempty as [E _]. specialize (E eq_refl). lia. }
  assert (slice_base s < slice_end s)%Z as Hlt.
  { destruct (decide (slice_base s = slice_end s)) as [E|]; [|lia]. by apply Hempty in E. }
  pose proof (search_region table (slice_base s) Ht) as Hs.
  destruct (binary_search_by _ table) as [[i|i]|]; [| |done]; cbn [ebind].
  2:{ exists false. split; [done|]. split; [done|]. intros _ _ Hcov.
      destruct (Hcov (slice_base s)) as (r & Hr & _ & Hin); [lia|]. by apply Hs in Hr. }
  destruct Hs as (r & Hr & Hin). rewrite (idx_ok _ _ _ Hr). cbn [ebind].
  pose proof (list_elem_of_lookup_2 _ _ _ Hr) as Hmem. pose proof (lookup_lt_Some _ _ _ Hr) as Hil.
  pose proof (table_split table i r Hr) as Hsplit.
  assert (table_wf (r :: drop (i + 1) table)) as Hwf by (rewrite Hsplit in Ht; by apply table_wf_app in Ht).
  pose proof (first_region_ok table i r _ _ Ht Hr Hin Hlt) as Hfirst.
  destruct (region_ok r) eqn:Eo; cbn [negb]; [|exists false; split; [done|]; split; [done|]; auto].
  assert (covered table (slice_base s) (end_addr r)) as Hc1 by (apply covered_region; [done..|apply Hin]).
  case_decide as Hfit.
  { exists true. split; [done|]. split; [|done]. intros _ a Ha. apply Hc1. lia. }
  rewrite slice_ok by lia. cbn [ebind]. rewrite take_ge by len. destruct Hwf as (_ & Hord & Hrest).
  eexists. split; [done|]. split.
  - intros Hscan%scan_regions_sound; [|done]. apply (covered_join _ _ (end_addr r)); [done|].
    eapply covered_mono; [|exact Hscan]. intros x Hx. rewrite Hsplit. apply elem_of_app. right. by apply elem_of_cons; right.
  - intros Hne Hon Hcov. rewrite Hsplit in Hon. apply ok_once_app in Hon as [Hon1 Hon].
    apply scan_regions_complete; try done; [|apply above_ok; auto|lia|].
    + rewrite Hsplit in Hne. apply Forall_app in Hne as [_ Hne]. by apply Forall_cons_1 in Hne as [_ ?].
    + intros a Ha. destruct (Hcov a) as (x & Hx & Hok & Hxa); [lia|].
      destruct (later_region table i r x a Ht Hr Hx Hxa) as [->|Hx']; [lia|lia|]. by exists x.
Qed.
End check.
End access.
