(* ===== verification/KernState.v ===== *)
(** The kernel's task table: the states of a task ([firmware/hubris/abi/src/lib.rs]),
    task and region descriptors and the hibernation table
    ([firmware/hubris/kern/src/descs.rs]), and the task itself ([task.rs]).

    [SavedState] has the registers that system calls use, under their ARM names;
    the rest of the context is not read by the kernel. The build refuses more
    than 32 hibernation regions, one per bit of the bitfield; a shift by more is
    masked, as the compiled code does. *)

From S2P Require Import Prelude KernAccess.

(** * Sets of hibernated regions *)

Definition bitmask (index : nat) : Z := wrap 32 (Z.shiftl 1 (Z.of_nat (index mod 32))).

Definition bf_empty : Z := 0.
Definition of_region (index : nat) : Z := bitmask index.
Definition bf_is_empty (bf : Z) : bool := bool_decide (bf = 0%Z).
Definition bf_insert (bf : Z) (index : nat) : Z := Z.lor bf (bitmask index).
Definition bf_take (bf : Z) (index : nat) : bool * Z :=
  (negb (bool_decide (Z.land bf (bitmask index) = 0%Z)), Z.ldiff bf (bitmask index)).

Fixpoint pos_trailing_zeros (p : positive) : nat :=
  match p with xO p => S (pos_trailing_zeros p) | _ => 0 end.

Definition trailing_zeros (mask : Z) : nat :=
  match mask with Z.pos p => pos_trailing_zeros p | _ => 32 end.

(** [BitSliceIter::next]; the fuel bounds the bits that remain. *)
Fixpoint bits_next {R} (fuel : nat) (mask : Z) (table : list R) : option (R * Z) :=
  match fuel with
  | O => None
  | S fuel =>
      if decide (mask = 0%Z) then None else
      let i := trailing_zeros mask in
      let mask := Z.land mask (mask - 1) in
      match table !! i with
      | Some item => Some (item, mask)
      | None => bits_next fuel mask table
      end
  end.

(** [Iterator::any] over it. *)
Fixpoint bits_any {R} (fuel : nat) (pred : R → bool) (mask : Z) (table : list R) : bool :=
  match fuel with
  | O => false
  | S fuel =>
      match bits_next 33 mask table with
      | None => false
      | Some (item, mask) => if pred item then true else bits_any fuel pred mask table
      end
  end.

(** * Faults and task states *)

Definition TaskId := Z.

Inductive UsageError :=
  | BadSyscallNumber | InvalidSlice | TaskOutOfRange | IllegalTask | LeaseOutOfRange | OffsetOutOfRange
  | NoIrq | BadKernelMessage | BadReplyFaultReason | NotSupervisor | ReplyTooBig.

Inductive FaultSource := SourceUser | SourceKernel.

Inductive ReplyFaultReason :=
  | UndefinedOperation | BadMessageSize | BadMessageContents | BadLeases | ReplyBufferTooSmall | AccessViolation.

Inductive FaultInfo :=
  | MemoryAccess (address : option Z) (source : FaultSource)
  | StackOverflow (address : Z)
  | BusError (address : option Z) (source : FaultSource)
  | DivideByZero
  | IllegalText
  | IllegalInstruction
  | InvalidOperation (code : Z)
  | SyscallUsage (e : UsageError)
  | FaultPanic
  | Injected (by_task : TaskId)
  | FromServer (server : TaskId) (reason : ReplyFaultReason)
  | LostRegion (regions : Z)
  | HibernatedMemoryAccess (address : Z).

Inductive SchedState :=
  | Stopped
  | Runnable
  | InSend (peer : TaskId)
  | InReply (peer : TaskId)
  | InSuspendedReply (peer : TaskId)
  | InRecv (specific_sender : option TaskId).

Inductive TaskState :=
  | Healthy (s : SchedState)
  | Faulted (fault : FaultInfo) (original_state : SchedState)
  | Suspended (original_healthy_state : SchedState) (original_fault_info : option FaultInfo)
      (hibernated_regions : Z) (debug_request : bool).

Definition default_state : TaskState := Healthy Stopped.

Definition can_accept_notification (s : TaskState) : bool :=
  match s with
  | Healthy (InRecv _) => true
  | Suspended (InRecv _) None _ _ => true
  | _ => false
  end.

(** * Memory regions *)

Record RegionDesc := mkRegion { rd_base : Z; rd_size : Z; rd_attributes : Z }.

Definition ATTR_READ : Z := 1.
Definition ATTR_WRITE : Z := 2.
Definition ATTR_EXECUTE : Z := 4.
Definition ATTR_DEVICE : Z := 8.
Definition ATTR_DMA : Z := 16.

Definition attrs_contain (a other : Z) : bool := bool_decide (Z.land a other = other).
Definition attrs_intersect (a other : Z) : bool := negb (bool_decide (Z.land a other = 0%Z)).

Definition region_end (r : RegionDesc) : Z := wrap 32 (rd_base r + rd_size r).

Definition region_contains (r : RegionDesc) (addr : Z) : bool :=
  let next_addr := wrap 32 (addr + 1) in
  if decide (next_addr < addr)%Z then false
  else bool_decide (rd_base r <= addr)%Z && bool_decide (next_addr <= region_end r)%Z.

#[export] Instance RegionDesc_region : MemoryRegion RegionDesc :=
  {| contains := region_contains; base_addr := rd_base; end_addr := region_end |}.

(** * Hibernation regions *)

Record HibernationRegionDesc := mkHib {
  hib_base : Z;
  hib_size : Z;
  hib_next_generation : Z;
  hib_active : bool;
}.

Definition hib_end (h : HibernationRegionDesc) : Z := wrap 32 (hib_base h + hib_size h).

Definition overlaps {R} `{MemoryRegion R} (h : HibernationRegionDesc) (region : R) : bool :=
  bool_decide (hib_base h < end_addr region)%Z && bool_decide (base_addr region < hib_end h)%Z.

Definition contains_span (h : HibernationRegionDesc) (offset length : Z) : bool :=
  bool_decide (hib_base h <= offset)%Z &&
  (if decide (length + offset < 2 ^ 32)%Z then bool_decide (length + offset <= hib_end h)%Z else false).

(** Event identifiers: the region's index below the generation. *)
Definition event_from_parts (index generation : Z) : option Z :=
  if decide (2 ^ 5 <= index)%Z then None
  else if decide (2 ^ 27 <= generation)%Z then None
  else Some (Z.lor (wrap 32 (Z.shiftl generation 5)) index).

Definition event_index (ev : Z) : Z := Z.land ev 31.
Definition event_generation (ev : Z) : Z := Z.shiftr ev 5.

Inductive SuspendError := AlreadyActive | GenerationOverflow.
Inductive RestoreError := NotActive | StaleEventId.

(** The region afterwards and the result. *)
Definition hibernate (h : HibernationRegionDesc) (index : Z)
  : HibernationRegionDesc * result Z SuspendError :=
  if hib_active h then (h, Err AlreadyActive) else
  let gen := hib_next_generation h in
  match event_from_parts index gen with
  | None => (h, Err GenerationOverflow)
  | Some event_id =>
      if decide (gen + 1 < 2 ^ 32)%Z then
        (mkHib (hib_base h) (hib_size h) (gen + 1) true, Ok event_id)
      else (h, Err GenerationOverflow)
  end.

Definition restore (h : HibernationRegionDesc) (event_id : Z)
  : HibernationRegionDesc * result unit RestoreError :=
  if negb (hib_active h) then (h, Err NotActive) else
  if decide (hib_next_generation h - 1 < 0)%Z then (h, Err StaleEventId) else
  let expected_gen := (hib_next_generation h - 1)%Z in
  if decide (event_generation event_id ≠ expected_gen) then (h, Err StaleEventId) else
  (mkHib (hib_base h) (hib_size h) (hib_next_generation h) false, Ok tt).

(** * Tasks *)

Definition FLAG_START_AT_BOOT : Z := 1.
Definition FLAG_PROTECTED : Z := 2.

Record TaskDesc := mkDesc {
  td_regions : list RegionDesc;
  td_entry_point : Z;
  td_initial_stack : Z;
  td_priority : Z;
  td_flags : Z;
  td_index : Z;
}.

Record SavedState := mkSaved {
  r4 : Z; r5 : Z; r6 : Z; r7 : Z; r8 : Z; r9 : Z; r10 : Z; r11 : Z; psp : Z; exc_return : Z;
}.

Definition default_saved : SavedState := mkSaved 0 0 0 0 0 0 0 0 0 0.

(** The timer's deadline and the notifications it posts. *)
Record TimerState := mkTimer { deadline : option Z; to_post : Z }.

Record Task := mkTask {
  t_save : SavedState;
  t_priority : Z;
  t_state : TaskState;
  t_timer : TimerState;
  t_generation : Z;
  t_notifications : Z;
  t_descriptor : TaskDesc;
  t_suspension_buffer : option (list Z);
}.

Definition from_descriptor (d : TaskDesc) : Task := {|
  t_priority := td_priority d;
  t_state := if attrs_contain (td_flags d) FLAG_START_AT_BOOT then Healthy Runnable else default_state;
  t_descriptor := d;
  t_generation := 0;
  t_notifications := 0;
  t_save := default_saved;
  t_timer := mkTimer None 0;
  t_suspension_buffer := None;
|}.

Definition region_table (t : Task) : list RegionDesc := td_regions (t_descriptor t).

Definition is_suspended (t : Task) : bool :=
  match t_state t with Suspended _ _ _ _ => true | _ => false end.

Definition is_runnable (t : Task) : bool :=
  match t_state t with Healthy Runnable => true | _ => false end.

Definition set_state (t : Task) (s : TaskState) : Task :=
  mkTask (t_save t) (t_priority t) s (t_timer t) (t_generation t) (t_notifications t) (t_descriptor t)
    (t_suspension_buffer t).

Definition set_saved (t : Task) (s : SavedState) : Task :=
  mkTask s (t_priority t) (t_state t) (t_timer t) (t_generation t) (t_notifications t) (t_descriptor t)
    (t_suspension_buffer t).

Definition set_notifications (t : Task) (n : Z) : Task :=
  mkTask (t_save t) (t_priority t) (t_state t) (t_timer t) (t_generation t) n (t_descriptor t)
    (t_suspension_buffer t).

Definition set_buffer (t : Task) (b : option (list Z)) : Task :=
  mkTask (t_save t) (t_priority t) (t_state t) (t_timer t) (t_generation t) (t_notifications t)
    (t_descriptor t) b.

(** The regions that keep the task suspended, [any] over which is what
    [with_hibernated_regions] is called for; [regions] is the hibernation table. *)
Definition any_hibernated (regions : list HibernationRegionDesc) (t : Task)
    (pred : HibernationRegionDesc → bool) : bool :=
  match t_state t with
  | Suspended _ _ hibernated_regions _ => bits_any 33 pred hibernated_regions regions
  | _ => bits_any 33 pred 0 []
  end.

(** * The bits of a mask *)

(** Range by bits. *)
Lemma is_u_bits w x : (0 <= w)%Z → is_u w x ↔ ∀ n, (w <= n)%Z → Z.testbit x n = false.
Proof.
  intros Hw. split.
  - intros Hx n Hn. rewrite <- (wrap_small w x Hx). by apply Z.mod_pow2_bits_high.
  - intros Hx. replace x with (wrap w x); [by apply wrap_is_u|]. apply Z.bits_inj'. intros n Hn.
    unfold wrap. destruct (Z.lt_ge_cases n w); [by rewrite Z.mod_pow2_bits_low|].
    by rewrite Z.mod_pow2_bits_high, Hx.
Qed.

Lemma land_u w x y : (0 <= w)%Z → is_u w x → is_u w (Z.land x y).
Proof. intros Hw. rewrite !is_u_bits by done. intros Hx n Hn. by rewrite Z.land_spec, Hx. Qed.

Lemma ldiff_u w x y : (0 <= w)%Z → is_u w x → is_u w (Z.ldiff x y).
Proof. intros Hw. rewrite !is_u_bits by done. intros Hx n Hn. by rewrite Z.ldiff_spec, Hx. Qed.

Lemma lor_u w x y : (0 <= w)%Z → is_u w x → is_u w y → is_u w (Z.lor x y).
Proof. intros Hw. rewrite !is_u_bits by done. intros Hx Hy n Hn. by rewrite Z.lor_spec, Hx, Hy. Qed.

Lemma pos_tz_bit p : Z.testbit (Z.pos p) (Z.of_nat (pos_trailing_zeros p)) = true.
Proof.
  induction p as [p IH|p IH|]; [done| |done]. cbn [pos_trailing_zeros].
  rewrite Nat2Z.inj_succ, (Pos2Z.inj_xO p), Z.double_bits_succ by lia. done.
Qed.

Lemma pos_tz_low p j : (0 <= j < Z.of_nat (pos_trailing_zeros p))%Z → Z.testbit (Z.pos p) j = false.
Proof.
  revert j. induction p as [p IH|p IH|]; intros j Hj; cbn [pos_trailing_zeros] in Hj; [lia| |lia].
  rewrite (Pos2Z.inj_xO p). destruct (decide (j = 0%Z)) as [->|]; [apply Z.testbit_even_0|].
  replace j with (Z.succ (j - 1)) by lia. rewrite Z.double_bits_succ. apply IH. lia.
Qed.

(** [mask & (mask - 1)] clears the lowest bit. *)
Lemma clear_lowest_pos p j : (0 <= j)%Z →
  Z.testbit (Z.land (Z.pos p) (Z.pos p - 1)) j =
  Z.testbit (Z.pos p) j && negb (bool_decide (j = Z.of_nat (pos_trailing_zeros p))).
Proof.
  revert j. induction p as [p IH|p IH|]; intros j Hj; rewrite Z.land_spec; cbn [pos_trailing_zeros].
  - replace (Z.pos p~1 - 1)%Z with (2 * Z.pos p)%Z by lia. rewrite (Pos2Z.inj_xI p).
    destruct (decide (j = 0%Z)) as [->|]; [by rewrite Z.testbit_even_0, andb_false_r, bool_decide_true, andb_false_r|].
    rewrite bool_decide_false by lia. replace j with (Z.succ (j - 1)) by lia.
    rewrite Z.testbit_odd_succ, Z.testbit_even_succ by lia. by destruct (Z.testbit _ _).
  - replace (Z.pos p~0 - 1)%Z with (2 * (Z.pos p - 1) + 1)%Z by lia. rewrite (Pos2Z.inj_xO p).
    destruct (decide (j = 0%Z)) as [->|]; [by rewrite Z.testbit_even_0|].
    replace j with (Z.succ (j - 1)) by lia. rewrite Z.testbit_odd_succ, Z.testbit_even_succ by lia.
    rewrite <- Z.land_spec, IH by lia. f_equal. f_equal. apply bool_decide_ext. lia.
  - destruct (decide (j = 0%Z)) as [->|]; [done|]. change (1 - 1)%Z with 0%Z.
    rewrite Z.bits_0, andb_false_r, (Z.bits_above_log2 1); [done|lia|cbn; lia].
Qed.

Lemma clear_lowest mask j : (0 < mask)%Z → (0 <= j)%Z →
  Z.testbit (Z.land mask (mask - 1)) j =
  Z.testbit mask j && negb (bool_decide (j = Z.of_nat (trailing_zeros mask))).
Proof. destruct mask as [|p|p]; try lia. intros _. apply clear_lowest_pos. Qed.

(** * What the iterator yields *)

Section bits.
Context {R : Type} (table : list R).
#[local] Abbreviation bit mask j := (Z.testbit mask (Z.of_nat j)).

(** A mask whose bits below [k] are clear. *)
Definition from_bit (k : nat) (mask : Z) : Prop :=
  is_u 32 mask ∧ ∀ j, j < k → bit mask j = false.

Lemma from_bit_zero mask : from_bit 32 mask → mask = 0%Z.
Proof.
  intros [Hu Hk]. destruct (decide (mask = 0%Z)) as [|Hne]; [done|].
  assert (0 < mask)%Z as Hp by (unfold is_u in Hu; lia).
  pose proof (Z.bit_log2 mask Hp) as Hb. assert (Z.log2 mask < 32)%Z by (apply Z.log2_lt_pow2; unfold is_u in Hu; lia).
  pose proof (Z.log2_nonneg mask). specialize (Hk (Z.to_nat (Z.log2 mask)) ltac:(lia)).
  rewrite Z2Nat.id in Hk by lia. congruence.
Qed.

Lemma trailing_zeros_spec mask : (0 < mask)%Z →
  bit mask (trailing_zeros mask) = true ∧ ∀ j, j < trailing_zeros mask → bit mask j = false.
Proof.
  destruct mask as [|p|p]; try lia. intros _. split; [apply pos_tz_bit|]. intros j Hj. apply pos_tz_low.
  cbn [trailing_zeros] in Hj. lia.
Qed.

Lemma clear_lowest_from mask k : from_bit k mask → (0 < mask)%Z →
  from_bit (S (trailing_zeros mask)) (Z.land mask (mask - 1)) ∧
  (∀ j, trailing_zeros mask < j → bit (Z.land mask (mask - 1)) j = bit mask j).
Proof.
  intros [Hu _] Hp. destruct (trailing_zeros_spec mask Hp) as [_ Hlow]. unfold is_u in Hu. split; [split|].
  - by apply land_u.
  - intros j Hj. rewrite clear_lowest by lia. destruct (decide (j = trailing_zeros mask)) as [->|].
    + by rewrite bool_decide_true, andb_false_r.
    + by rewrite Hlow by lia.
  - intros j Hj. rewrite clear_lowest by lia. rewrite bool_decide_false by lia. by rewrite andb_true_r.
Qed.

Lemma bits_next_spec fuel k mask : from_bit k mask → 32 < k + fuel →
  match bits_next fuel mask table with
  | None => ∀ j, bit mask j = true → table !! j = None
  | Some (r, mask') => ∃ i, k ≤ i ∧ bit mask i = true ∧ table !! i = Some r ∧ from_bit (S i) mask' ∧
      (∀ j, i < j → bit mask' j = bit mask j) ∧ (∀ j, j < i → bit mask j = true → table !! j = None)
  end.
Proof.
  revert k mask. induction fuel as [|fuel IH]; intros k mask Hk Hf.
  { cbn. assert (mask = 0%Z) as ->; [|intros j Hj; by rewrite Z.bits_0 in Hj].
    apply from_bit_zero. destruct Hk as [Hu Hk]. split; [done|]. intros j Hj. apply Hk. lia. }
  cbn [bits_next]. case_decide as Hz; [intros j Hj; by rewrite Hz, Z.bits_0 in Hj|].
  assert (0 < mask)%Z as Hp by (destruct Hk as [Hu _]; unfold is_u in Hu; lia).
  destruct (trailing_zeros_spec mask Hp) as [Hb Hlow]. destruct (clear_lowest_from mask k Hk Hp) as [Hc Hsame].
  assert (k ≤ trailing_zeros mask) as Hle.
  { apply Nat.nlt_ge. intros Hlt. destruct Hk as [_ Hk]. by rewrite (Hk _ Hlt) in Hb. }
  destruct (table !! trailing_zeros mask) as [r|] eqn:Et.
  { exists (trailing_zeros mask). do 5 (split; [done|]). intros j Hj Hbj. by rewrite Hlow in Hbj. }
  assert (∀ j, bit mask j = true → j = trailing_zeros mask ∨
    (trailing_zeros mask < j ∧ bit (Z.land mask (mask - 1)) j = true)) as Hsplit.
  { intros j Hj. destruct (Nat.lt_trichotomy j (trailing_zeros mask)) as [E|[->|E]]; [by rewrite Hlow in Hj|by left|].
    right. by rewrite Hsame. }
  specialize (IH _ _ Hc ltac:(lia)). destruct (bits_next fuel _ table) as [[r mask']|].
  - destruct IH as (i & Hi & Hbi & Hr & Hf' & Hs' & Hbelow). exists i. rewrite <- (Hsame i) by lia.
    split; [lia|]. do 3 (split; [done|]). split; [intros j Hj; rewrite Hs', Hsame by lia; done|].
    intros j Hj Hbj. destruct (Hsplit j Hbj) as [->|[_ ?]]; [done|]. by apply Hbelow.
  - intros j Hbj. destruct (Hsplit j Hbj) as [->|[_ ?]]; [done|]. by apply IH.
Qed.

Lemma bits_any_from pred fuel k mask : from_bit k mask → 32 < k + fuel →
  bits_any fuel pred mask table = true ↔ ∃ i r, bit mask i = true ∧ table !! i = Some r ∧ pred r = true.
Proof.
  revert k mask. induction fuel as [|fuel IH]; intros k mask Hk Hf.
  { assert (mask = 0%Z) as ->; [|split; [done|intros (i & r & Hi & _); by rewrite Z.bits_0 in Hi]].
    apply from_bit_zero. destruct Hk as [Hu Hk]. split; [done|]. intros j Hj. apply Hk. lia. }
  cbn [bits_any]. pose proof (bits_next_spec 33 k mask Hk ltac:(lia)) as Hn.
  destruct (bits_next 33 mask table) as [[r mask']|].
  2:{ split; [done|]. intros (i & r & Hi & Hr & _). by rewrite Hn in Hr. }
  destruct Hn as (i & Hi & Hbi & Hr & Hf' & Hsame & Hbelow).
  destruct (pred r) eqn:Ep; [split; [intros _; by exists i, r|done]|].
  rewrite (IH (S i) mask' Hf' ltac:(lia)). split.
  - intros (j & r' & Hj & Hr' & Hp). exists j, r'. split; [|done]. rewrite <- Hsame; [done|].
    apply Nat.nle_gt. intros Hle. destruct Hf' as [_ Hf']. by rewrite Hf' in Hj by lia.
  - intros (j & r' & Hj & Hr' & Hp). exists j, r'. split; [|done].
    destruct (Nat.lt_trichotomy j i) as [E|[->|E]]; [by rewrite Hbelow in Hr'|congruence|by rewrite Hsame].
Qed.

(** [any] over the iterator: some set bit's entry satisfies the predicate. *)
Lemma bits_any_spec pred mask : is_u 32 mask →
  bits_any 33 pred mask table = true ↔ ∃ i r, bit mask i = true ∧ table !! i = Some r ∧ pred r = true.
Proof. intros Hu. apply (bits_any_from pred 33 0); [split; [done|lia]|lia]. Qed.
End bits.

(** * The operations on sets of regions *)

Lemma bitmask_small i : i < 32 → bitmask i = (2 ^ Z.of_nat i)%Z.
Proof.
  intros Hi. unfold bitmask. rewrite Nat.mod_small by lia. rewrite Z.shiftl_1_l. apply wrap_small. unfold is_u.
  split; [lia|]. apply Z.pow_lt_mono_r; lia.
Qed.

Lemma bitmask_bit i j : i < 32 → Z.testbit (bitmask i) (Z.of_nat j) = bool_decide (i = j).
Proof.
  intros Hi. rewrite bitmask_small by done. destruct (decide (i = j)) as [->|].
  - by rewrite Z.pow2_bits_true, bool_decide_true by lia.
  - by rewrite Z.pow2_bits_false, bool_decide_false by lia.
Qed.

Lemma bitmask_u i : is_u 32 (bitmask i).
Proof. apply wrap_is_u. lia. Qed.

Lemma bf_insert_u bf i : is_u 32 bf → is_u 32 (bf_insert bf i).
Proof. intros H. apply lor_u; [lia|done|apply bitmask_u]. Qed.

Lemma bf_insert_bit bf i j : i < 32 →
  Z.testbit (bf_insert bf i) (Z.of_nat j) = Z.testbit bf (Z.of_nat j) || bool_decide (i = j).
Proof. intros Hi. unfold bf_insert. by rewrite Z.lor_spec, bitmask_bit. Qed.

Lemma bf_take_bit bf i j : i < 32 →
  Z.testbit (snd (bf_take bf i)) (Z.of_nat j) = Z.testbit bf (Z.of_nat j) && negb (bool_decide (i = j)).
Proof. intros Hi. cbn. by rewrite Z.ldiff_spec, bitmask_bit. Qed.

Lemma bf_take_had bf i : i < 32 → fst (bf_take bf i) = Z.testbit bf (Z.of_nat i).
Proof.
  intros Hi. cbn. destruct (Z.testbit bf (Z.of_nat i)) eqn:E.
  - rewrite bool_decide_false; [done|]. intros H0. apply (f_equal (λ z, Z.testbit z (Z.of_nat i))) in H0.
    by rewrite Z.land_spec, bitmask_bit, E, bool_decide_true, Z.bits_0 in H0.
  - rewrite bool_decide_true; [done|]. apply Z.bits_inj'. intros n Hn. rewrite Z.bits_0, Z.land_spec.
    rewrite <- (Z2Nat.id n) by done. rewrite bitmask_bit by done. case_bool_decide as En; [|by rewrite andb_false_r].
    by rewrite <- En, E.
Qed.

(** Does the task's state name the region at [i] as hibernated? *)
Definition hibernated_for (t : Task) (i : nat) : bool :=
  match t_state t with Suspended _ _ bits _ => Z.testbit bits (Z.of_nat i) | _ => false end.

Definition state_ok (s : TaskState) : Prop :=
  match s with Suspended _ _ bits _ => is_u 32 bits | _ => True end.

Lemma any_hibernated_spec regions t pred : state_ok (t_state t) →
  any_hibernated regions t pred = true ↔
  ∃ i h, hibernated_for t i = true ∧ regions !! i = Some h ∧ pred h = true.
Proof.
  unfold any_hibernated, hibernated_for. destruct (t_state t) as [s|f s|s f bits d]; cbn [state_ok]; intros Hu.
  1,2: split; [done|intros (i & h & E & _); done].
  by apply bits_any_spec.
Qed.

Lemma event_parts index gen ev : (0 <= index)%Z → (0 <= gen)%Z →
  event_from_parts index gen = Some ev → event_index ev = index ∧ event_generation ev = gen.
Proof.
  intros Hi Hg. unfold event_from_parts. case_decide; [done|]. case_decide; [done|]. intros [= <-].
  rewrite wrap_small by (unfold is_u; rewrite Z.shiftl_mul_pow2 by lia; lia).
  assert (is_u 5 index) as Hu by (unfold is_u; lia). split.
  - unfold event_index. change 31%Z with (Z.ones 5). rewrite Z.land_lor_distr_l, !Z.land_ones by lia.
    rewrite Z.shiftl_mul_pow2, Z.mod_mul, Z.lor_0_l by lia. by apply wrap_small.
  - unfold event_generation. rewrite Z.shiftr_lor, Z.shiftr_shiftl_l by lia. rewrite Z.sub_diag, Z.shiftl_0_r.
    rewrite (Z.shiftr_div_pow2 index 5) by lia. rewrite Z.div_small by (exact Hu). apply Z.lor_0_r.
Qed.

Lemma bitmask_nonzero i : i < 32 → bitmask i ≠ 0%Z.
Proof. intros Hi E. pose proof (bitmask_bit i i Hi) as Hb. by rewrite E, Z.bits_0, bool_decide_true in Hb. Qed.
