(* ===== verification/KernMem.v ===== *)
(** The kernel's handling of task memory: user slices and copies between tasks
    ([firmware/hubris/kern/src/umem.rs]) and the access assertions of a task
    ([task.rs]).

    Addresses are 32-bit. Memory is a function from addresses to bytes.
    [regions] is the hibernation table, which the code reads under its lock. *)

From S2P Require Import Prelude KernAccess KernState.

(** * User slices

    [size] and [align] are the element type's. *)

Record USlice := mkUSlice { us_base : Z; us_length : Z }.

(** The check that elements are not of size zero is made at compile time. *)
Definition uslice_from_raw (size align base_address length : Z) : result USlice UsageError :=
  if decide (base_address mod align ≠ 0)%Z then Err InvalidSlice else
  if decide (2 ^ 32 <= length * size)%Z then Err InvalidSlice else
  let size_in_bytes := (length * size)%Z in
  let highest_possible_base := (2 ^ 32 - 1 - size_in_bytes)%Z in
  if decide (base_address <= highest_possible_base)%Z then Ok (mkUSlice base_address length)
  else Err InvalidSlice.

Definition uslice_is_empty (s : USlice) : bool := bool_decide (us_length s = 0%Z).

Definition uslice_end (size : Z) (s : USlice) : Z :=
  wrap 32 (us_base s + wrap 32 (us_length s * size)).

Definition last_byte_addr (size : Z) (s : USlice) : option Z :=
  let size_in_bytes := wrap 32 (us_length s * size) in
  if decide (size_in_bytes = 0%Z) then None
  else Some (wrap 32 (wrap 32 (us_base s + size_in_bytes) - 1)).

Definition aliases (size : Z) (a b : USlice) : bool :=
  match last_byte_addr size a, last_byte_addr size b with
  | Some a_end, Some b_end => bool_decide (us_base b <= a_end)%Z && bool_decide (us_base a <= b_end)%Z
  | _, _ => false
  end.

Definition shorten_to_match (a b : USlice) : Z * USlice * USlice :=
  let n := Z.min (us_length a) (us_length b) in
  (n, mkUSlice (us_base a) n, mkUSlice (us_base b) n).

(** A lease, and its slice of bytes. *)
Record ULease := mkULease { ul_attributes : Z; ul_base : Z; ul_length : Z }.

Definition uslice_of_lease (l : ULease) : USlice := mkUSlice (ul_base l) (ul_length l).

(** The end of [borrow_lease]: the lease from [offset] on. *)
Definition offset_lease (l : ULease) (offset : Z) : result ULease UsageError :=
  if decide (offset <= ul_length l ∧ ul_base l + offset < 2 ^ 32)%Z then
    Ok (mkULease (ul_attributes l) (ul_base l + offset) (ul_length l - offset))
  else Err OffsetOutOfRange.

Definition uslice_user (size : Z) : UserSlice USlice :=
  {| slice_is_empty := uslice_is_empty; slice_base := us_base; slice_end := uslice_end size |}.

(** * Access assertions *)

Definition overlaps_slice (size : Z) (h : HibernationRegionDesc) (s : USlice) : bool :=
  bool_decide (hib_base h < uslice_end size s)%Z && bool_decide (us_base s < hib_end h)%Z.

Definition region_permits (desired forbidden : Z) (r : RegionDesc) : bool :=
  attrs_contain (rd_attributes r) desired && negb (attrs_intersect (rd_attributes r) forbidden).

Section access.
Context (regions : list HibernationRegionDesc).

Definition assert_access (size : Z) (t : Task) (s : USlice) (desired forbidden : Z)
  : exec (result unit FaultInfo) :=
  let forbidden := Z.lor forbidden ATTR_DEVICE in
  let! ok := can_access (Sl := USlice) (H := uslice_user size) (region_permits desired forbidden) s (region_table t) in
  if negb ok then Ret (Err (MemoryAccess (Some (us_base s)) SourceKernel)) else
  if any_hibernated regions t (λ h, overlaps_slice size h s) then
    Ret (Err (HibernatedMemoryAccess (us_base s)))
  else Ret (Ok tt).

Definition try_read (size : Z) (t : Task) (s : USlice) : exec (result unit FaultInfo) :=
  assert_access size t s ATTR_READ ATTR_DMA.
Definition try_read_dma (size : Z) (t : Task) (s : USlice) : exec (result unit FaultInfo) :=
  assert_access size t s ATTR_READ 0.
Definition try_write (size : Z) (t : Task) (s : USlice) : exec (result unit FaultInfo) :=
  assert_access size t s ATTR_WRITE ATTR_DMA.

(** * Copies between tasks *)

Record InteractFault := mkInteract { if_src : option FaultInfo; if_dst : option FaultInfo }.

Definition index2_distinct {A} (l : list A) (i j : nat) : exec (A * A) :=
  if decide (i ≠ j) then let! a := idx l i in let! b := idx l j in Ret (a, b) else Panic.

Definition err_of {A} (r : result A FaultInfo) : option FaultInfo :=
  match r with Ok _ => None | Err e => Some e end.

(** [copy_from_slice] of [n] bytes from [src] to [dst]. *)
Definition copy_mem (mem : Z → Z) (src dst n : Z) : Z → Z :=
  λ a, if decide (dst <= a < dst + n)%Z then mem (src + (a - dst))%Z else mem a.

(** What [safe_copy] and [safe_copy_dma] share, [read] being the check of the source. *)
Definition copy_checked (read : Task → USlice → exec (result unit FaultInfo)) (mem : Z → Z)
    (tasks : list Task) (from_index : nat) (from_slice : USlice) (to_index : nat) (to_slice : USlice)
    (copy_len : Z) : exec (result Z InteractFault * (Z → Z)) :=
  let! ft := index2_distinct tasks from_index to_index in
  let! src := read (fst ft) from_slice in
  let! dst :=
    if aliases 1 from_slice to_slice then
      Ret (Err (MemoryAccess (Some (us_base to_slice)) SourceKernel))
    else try_write 1 (snd ft) to_slice in
  match src, dst with
  | Ok _, Ok _ => Ret (Ok copy_len, copy_mem mem (us_base from_slice) (us_base to_slice) copy_len)
  | src, dst => Ret (Err (mkInteract (err_of src) (err_of dst)), mem)
  end.

Definition safe_copy (mem : Z → Z) (tasks : list Task) (from_index : nat) (from_slice : USlice)
    (to_index : nat) (to_slice : USlice) : exec (result Z InteractFault * (Z → Z)) :=
  let '(copy_len, from_slice, to_slice) := shorten_to_match from_slice to_slice in
  if decide (copy_len = 0%Z) then Ret (Ok 0%Z, mem) else
  copy_checked (try_read 1) mem tasks from_index from_slice to_index to_slice copy_len.

Definition safe_copy_dma (mem : Z → Z) (tasks : list Task) (from_index : nat) (from_slice : USlice)
    (to_index : nat) (to_slice : USlice) : exec (result Z InteractFault * (Z → Z)) :=
  let copy_len := Z.min (us_length from_slice) (us_length to_slice) in
  copy_checked (try_read_dma 1) mem tasks from_index from_slice to_index to_slice copy_len.

End access.

(** * Slices that do not wrap *)

(** A slice of bytes that ends below the top of the address space. *)
Definition uslice_ok (s : USlice) : Prop :=
  (0 <= us_base s ∧ 0 <= us_length s ∧ us_base s + us_length s < 2 ^ 32)%Z.

Definition in_uslice (s : USlice) (a : Z) : Prop := (us_base s <= a < us_base s + us_length s)%Z.

Lemma uslice_end_ok s : uslice_ok s → uslice_end 1 s = (us_base s + us_length s)%Z.
Proof.
  intros (H1 & H2 & H3). unfold uslice_end. rewrite Z.mul_1_r.
  rewrite !wrap_small; [done|..]; unfold is_u; rewrite ?wrap_small; unfold is_u; lia.
Qed.

Lemma last_byte_ok s : uslice_ok s →
  last_byte_addr 1 s = if decide (us_length s = 0%Z) then None else Some (us_base s + us_length s - 1)%Z.
Proof.
  intros (H1 & H2 & H3). unfold last_byte_addr. rewrite Z.mul_1_r.
  rewrite (wrap_small 32 (us_length s)) by (unfold is_u; lia). case_decide; [done|].
  rewrite (wrap_small 32 (us_base s + us_length s)) by (unfold is_u; lia).
  rewrite wrap_small by (unfold is_u; lia). done.
Qed.

(** [aliases] says whether two slices share a byte. *)
Lemma aliases_ok a b : uslice_ok a → uslice_ok b →
  aliases 1 a b = true ↔ ∃ x, in_uslice a x ∧ in_uslice b x.
Proof.
  intros Ha Hb. unfold aliases, in_uslice. rewrite (last_byte_ok a Ha), (last_byte_ok b Hb).
  destruct Ha as (? & ? & ?), Hb as (? & ? & ?).
  case_decide; [split; [done|intros (x & ? & ?); lia]|].
  case_decide; [split; [done|intros (x & ? & ?); lia]|].
  rewrite andb_true_iff, !bool_decide_eq_true. split.
  - intros [? ?]. exists (Z.max (us_base a) (us_base b)). lia.
  - intros (x & ? & ?). lia.
Qed.

(** * Regions *)

Definition rd_ok (r : RegionDesc) : Prop :=
  (0 <= rd_base r ∧ 0 <= rd_size r ∧ rd_base r + rd_size r < 2 ^ 32)%Z.

Definition in_region (r : RegionDesc) (a : Z) : Prop := (rd_base r <= a < rd_base r + rd_size r)%Z.

Lemma region_end_ok r : rd_ok r → region_end r = (rd_base r + rd_size r)%Z.
Proof. intros (? & ? & ?). apply wrap_small. unfold is_u. lia. Qed.

Lemma rd_region_wf r : rd_ok r → region_wf r.
Proof.
  intros Hr. pose proof (region_end_ok r Hr) as He. destruct Hr as (H1 & H2 & H3).
  split; cbn [base_addr end_addr contains RegionDesc_region]; rewrite He; [lia|]. intros a.
  unfold region_contains. rewrite He. destruct (decide (0 <= a < 2 ^ 32 - 1)%Z) as [Ha|Ha].
  - rewrite wrap_small by (unfold is_u; lia). rewrite decide_False by lia.
    rewrite andb_true_iff, !bool_decide_eq_true. lia.
  - pose proof (wrap_is_u 32 (a + 1) ltac:(lia)) as Hw. unfold is_u in Hw. split; [|lia].
    case_decide as Hlt; [done|]. rewrite andb_true_iff, !bool_decide_eq_true. intros [Hb _].
    exfalso. assert (2 ^ 32 - 1 <= a)%Z as Hge by lia. apply Hlt.
    destruct (decide (a = 2 ^ 32 - 1)%Z) as [->|]; [reflexivity|]. lia.
Qed.

(** The tables the build generates: sorted, without overlaps but for repeated
    entries. *)
Fixpoint regions_ok (rs : list RegionDesc) : Prop :=
  match rs with
  | [] => True
  | r :: rs => rd_ok r ∧ Forall (λ r', (rd_base r + rd_size r <= rd_base r')%Z ∨ r' = r) rs ∧ regions_ok rs
  end.

Lemma regions_table_wf rs : regions_ok rs → table_wf rs.
Proof.
  induction rs as [|r rs IH]; [done|]. intros (Hr & Ho & Hrs). split; [by apply rd_region_wf|].
  split; [|auto]. unfold precedes. cbn [end_addr base_addr RegionDesc_region]. by rewrite region_end_ok.
Qed.

Lemma regions_ok_in rs r : regions_ok rs → r ∈ rs → rd_ok r.
Proof.
  induction rs as [|x rs IH]; [intros _ E; by apply elem_of_nil in E|].
  intros (Hx & _ & Hrs) [->|?]%elem_of_cons; auto.
Qed.

(** * What a task may access *)

Definition hib_ok (h : HibernationRegionDesc) : Prop :=
  (0 <= hib_base h ∧ 0 <= hib_size h ∧ hib_base h + hib_size h < 2 ^ 32)%Z.

Definition in_hib (h : HibernationRegionDesc) (a : Z) : Prop := (hib_base h <= a < hib_base h + hib_size h)%Z.

Definition task_ok (t : Task) : Prop := regions_ok (region_table t) ∧ state_ok (t_state t).

(** The task may access the byte at [a] with [desired] and without [forbidden]. *)
Definition may_access (regions : list HibernationRegionDesc) (t : Task) (desired forbidden a : Z) : Prop :=
  (∃ r, r ∈ region_table t ∧ region_permits desired (Z.lor forbidden ATTR_DEVICE) r = true ∧ in_region r a) ∧
  ∀ i h, hibernated_for t i = true → regions !! i = Some h → ¬ in_hib h a.

Definition may_access_slice regions (t : Task) (desired forbidden : Z) (s : USlice) : Prop :=
  ∀ a, in_uslice s a → may_access regions t desired forbidden a.

(** No region is empty, and none that grants access is named twice. *)
Definition regions_proper (regions : list HibernationRegionDesc) (t : Task) (desired forbidden : Z) : Prop :=
  Forall (λ r, 0 < rd_size r)%Z (region_table t) ∧
  ok_once (region_permits desired (Z.lor forbidden ATTR_DEVICE)) (region_table t) ∧
  Forall (λ h, 0 < hib_size h)%Z regions.

Lemma overlaps_slice_ok h s : hib_ok h → uslice_ok s →
  overlaps_slice 1 h s = false → ∀ a, in_uslice s a → ¬ in_hib h a.
Proof.
  intros (H1 & H2 & H3) Hs Ho a Ha. unfold in_hib. unfold overlaps_slice in Ho. rewrite (uslice_end_ok s Hs) in Ho.
  unfold hib_end in Ho. rewrite wrap_small in Ho by (unfold is_u; lia). unfold in_uslice in Ha.
  apply andb_false_iff in Ho as [Ho|Ho]; apply bool_decide_eq_false in Ho; lia.
Qed.

Lemma overlaps_slice_shared h s : hib_ok h → uslice_ok s → (0 < hib_size h)%Z → (0 < us_length s)%Z →
  overlaps_slice 1 h s = true → ∃ a, in_uslice s a ∧ in_hib h a.
Proof.
  intros (H1 & H2 & H3) Hs Hh Hl Ho. unfold overlaps_slice in Ho. rewrite (uslice_end_ok s Hs) in Ho.
  unfold hib_end in Ho. rewrite wrap_small in Ho by (unfold is_u; lia).
  apply andb_true_iff in Ho as [Ho1%bool_decide_eq_true Ho2%bool_decide_eq_true].
  exists (Z.max (us_base s) (hib_base h)). unfold in_uslice, in_hib. lia.
Qed.

Lemma covered_iff t desired forbidden s : regions_ok (region_table t) → uslice_ok s →
  covered (region_permits desired forbidden) (region_table t) (us_base s) (uslice_end 1 s) ↔
  ∀ a, in_uslice s a → ∃ r, r ∈ region_table t ∧ region_permits desired forbidden r = true ∧ in_region r a.
Proof.
  intros Hr Hs. rewrite (uslice_end_ok s Hs). unfold covered, in_uslice, in_region.
  cbn [base_addr end_addr RegionDesc_region].
  split; intros Hc a Ha; destruct (Hc a Ha) as (r & Hin & Hp & Ha'); exists r;
    pose proof (region_end_ok r (regions_ok_in _ _ Hr Hin)) as E; rewrite E in *; auto.
Qed.

(** The assertion grants only what the task may access, and, of a non-empty
    slice, everything it may access when no region is empty and none that grants
    access is named twice. *)
Lemma assert_access_ok regions t s desired forbidden : task_ok t → Forall hib_ok regions → uslice_ok s →
  ∃ r, assert_access regions 1 t s desired forbidden = Ret r ∧
    (r = Ok tt → may_access_slice regions t desired forbidden s) ∧
    (regions_proper regions t desired forbidden → (0 < us_length s)%Z →
     may_access_slice regions t desired forbidden s → r = Ok tt).
Proof.
  intros [Hr Hst] Hh Hs. unfold assert_access. set (fb := Z.lor forbidden ATTR_DEVICE).
  destruct (can_access_decision (H := uslice_user 1) (region_permits desired fb) s (region_table t)) as (b & -> & Hsound & Hcomp).
  { by apply regions_table_wf. }
  { cbn. rewrite (uslice_end_ok s Hs). unfold uslice_is_empty. rewrite bool_decide_eq_true. lia. }
  { cbn. rewrite (uslice_end_ok s Hs). destruct Hs as (? & ? & ?). lia. }
  cbn [slice_base slice_end uslice_user] in *. rewrite (covered_iff t desired fb s Hr Hs) in Hsound, Hcomp.
  cbn [ebind]. destruct b; cbn [negb]; cycle 1.
  { eexists. split; [done|]. split; [done|]. intros (Hne & Honce & _) _ Hall. exfalso.
    assert (false = true) as E; [|done]. apply Hcomp; [|done|intros a Ha; apply (Hall a Ha)].
    apply Forall_lookup_2. intros i r Hi. cbn.
    rewrite (region_end_ok r (regions_ok_in _ _ Hr (list_elem_of_lookup_2 _ _ _ Hi))).
    pose proof (Forall_lookup_1 _ _ _ _ Hne Hi). cbn in *. lia. }
  specialize (Hsound eq_refl).
  pose proof (any_hibernated_spec regions t (λ h, overlaps_slice 1 h s) Hst) as Hany.
  destruct (any_hibernated _ _ _).
  - eexists. split; [done|]. split; [done|]. intros (_ & _ & Hne) Hl Hall. exfalso.
    destruct Hany as [(i & h & Hi & Hreg & Ho) _]; [done|].
    destruct (overlaps_slice_shared h s) as (a & Ha & Hha); try done;
      [exact (Forall_lookup_1 _ _ _ _ Hh Hreg)|exact (Forall_lookup_1 _ _ _ _ Hne Hreg)|].
    destruct (Hall a Ha) as [_ Hno]. exact (Hno i h Hi Hreg Hha).
  - eexists. split; [done|]. split; [|done]. intros _ a Ha. split; [by apply Hsound|].
    intros i h Hi Hreg. apply (overlaps_slice_ok h s); try done; [exact (Forall_lookup_1 _ _ _ _ Hh Hreg)|].
    destruct (overlaps_slice 1 h s) eqn:Eo; [|done].
    destruct Hany as [_ Hany]. enough (false = true) by done. apply Hany. by exists i, h.
Qed.

(** A slice that [from_raw] accepts does not reach the top of the address space. *)
Lemma from_raw_ok size align base len s : (0 < size)%Z → (0 <= base)%Z → (0 <= len)%Z →
  uslice_from_raw size align base len = Ok s →
  s = mkUSlice base len ∧ (base mod align = 0)%Z ∧ (base + len * size < 2 ^ 32)%Z.
Proof.
  intros Hs Hb Hl. unfold uslice_from_raw. repeat case_decide; try done. intros [= <-].
  split; [done|]. split; lia.
Qed.

Lemma from_raw_u8 base len s : (0 <= base)%Z → (0 <= len)%Z →
  uslice_from_raw 1 1 base len = Ok s → uslice_ok s.
Proof.
  intros Hb Hl H. apply from_raw_ok in H as (-> & _ & H); [|lia..]. unfold uslice_ok. cbn. lia.
Qed.

(** ** Slices of elements *)

(** The bytes of a slice whose elements have [size] bytes. *)
Definition byte_slice (size : Z) (s : USlice) : USlice := mkUSlice (us_base s) (us_length s * size).

(** A slice is checked as its bytes are. *)
Lemma assert_access_bytes regions size t s desired forbidden : state_ok (t_state t) → (0 < size)%Z → (0 <= us_length s)%Z → (us_length s * size < 2 ^ 32)%Z →
  assert_access regions size t s desired forbidden = assert_access regions 1 t (byte_slice size s) desired forbidden.
Proof.
  intros Hst Hs H0 Hl. assert (uslice_end size s = uslice_end 1 (byte_slice size s)) as E by (unfold uslice_end, byte_slice; cbn [us_base us_length]; by rewrite Z.mul_1_r).
  assert (uslice_is_empty s = uslice_is_empty (byte_slice size s)) as E0 by (unfold uslice_is_empty, byte_slice; cbn [us_length]; apply bool_decide_ext; nia).
  assert (∀ h, overlaps_slice size h s = overlaps_slice 1 h (byte_slice size s)) as Eo by (intros h; unfold overlaps_slice; by rewrite E).
  assert (can_access (Sl := USlice) (H := uslice_user size) (region_permits desired (Z.lor forbidden ATTR_DEVICE)) s (region_table t) =
    can_access (Sl := USlice) (H := uslice_user 1) (region_permits desired (Z.lor forbidden ATTR_DEVICE)) (byte_slice size s) (region_table t)) as Ec.
  { unfold can_access. cbn [slice_is_empty slice_base slice_end uslice_user]. by rewrite E, E0. }
  assert (any_hibernated regions t (λ h, overlaps_slice size h s) = any_hibernated regions t (λ h, overlaps_slice 1 h (byte_slice size s))) as Eh.
  { apply eq_true_iff_eq. rewrite !any_hibernated_spec by done. split; intros (i & h & H1 & H2 & H3); exists i, h; [rewrite <- Eo|rewrite Eo]; auto. }
  unfold assert_access. cbv zeta. rewrite Ec, Eh. reflexivity.
Qed.

(** * Copies *)

Lemma uslice_prefix s n : uslice_ok s → (0 <= n <= us_length s)%Z → uslice_ok (mkUSlice (us_base s) n).
Proof. unfold uslice_ok. cbn. lia. Qed.


Section copies.
Context (regions : list HibernationRegionDesc) (Hregions : Forall hib_ok regions).
Context (tasks : list Task) (i j : nat) (ti tj : Task).
Context (Hij : i ≠ j) (Hi : tasks !! i = Some ti) (Hj : tasks !! j = Some tj).
Context (Hti : task_ok ti) (Htj : task_ok tj).

(** Whom a refused copy blames, and for what. The source task is blamed if and only if its
    check refuses the source, with what the check reports. *)
Definition src_blame (desired forbidden : Z) (fs : USlice) (blame : option FaultInfo) : Prop :=
  match blame with
  | None => may_access_slice regions ti desired forbidden fs
  | Some e => assert_access regions 1 ti fs desired forbidden = Ret (Err e) ∧
      (regions_proper regions ti desired forbidden → (0 < us_length fs)%Z → ¬ may_access_slice regions ti desired forbidden fs)
  end.

(** The destination task is blamed if and only if the slices share a byte or its check refuses
    the destination. *)
Definition dst_blame (fs ts : USlice) (blame : option FaultInfo) : Prop :=
  match blame with
  | None => may_access_slice regions tj ATTR_WRITE ATTR_DMA ts ∧ ∀ a, in_uslice fs a → ¬ in_uslice ts a
  | Some e =>
      (e = MemoryAccess (Some (us_base ts)) SourceKernel ∧ ∃ a, in_uslice fs a ∧ in_uslice ts a) ∨
      (try_write regions 1 tj ts = Ret (Err e) ∧
       (regions_proper regions tj ATTR_WRITE ATTR_DMA → (0 < us_length ts)%Z → ¬ may_access_slice regions tj ATTR_WRITE ATTR_DMA ts))
  end.

Lemma refused t desired forbidden s e : task_ok t → uslice_ok s → assert_access regions 1 t s desired forbidden = Ret (Err e) →
  regions_proper regions t desired forbidden → (0 < us_length s)%Z → ¬ may_access_slice regions t desired forbidden s.
Proof using Hregions.
  intros Ht Hs E Hp Hl Hm. destruct (assert_access_ok regions t s desired forbidden Ht Hregions Hs) as (r & E' & _ & Hc). rewrite E in E'. injection E' as <-.
  by specialize (Hc Hp Hl Hm).
Qed.

(** What the checks of a copy establish, [desired] and [forbidden] being those of
    the source. *)
Lemma copy_checked_ok desired forbidden mem fs ts n : uslice_ok fs → uslice_ok ts →
  (0 <= n <= us_length fs)%Z → (n <= us_length ts)%Z →
  ∃ res mem',
    copy_checked regions (λ t s, assert_access regions 1 t s desired forbidden) mem tasks i fs j ts n = Ret (res, mem') ∧
    match res with
    | Ok m => m = n ∧ may_access_slice regions ti desired forbidden fs ∧
        may_access_slice regions tj ATTR_WRITE ATTR_DMA ts ∧
        (∀ a, in_uslice fs a → ¬ in_uslice ts a) ∧
        (∀ k, (0 <= k < n)%Z → mem' (us_base ts + k)%Z = mem (us_base fs + k)%Z) ∧
        (∀ a, ¬ (us_base ts <= a < us_base ts + n)%Z → mem' a = mem a)
    | Err f => mem' = mem ∧ (if_src f ≠ None ∨ if_dst f ≠ None) ∧
        src_blame desired forbidden fs (if_src f) ∧ dst_blame fs ts (if_dst f)
    end.
Proof.
  intros Hfs Hts Hn1 Hn2. unfold copy_checked, index2_distinct. rewrite decide_True by done.
  rewrite (idx_ok _ _ _ Hi), (idx_ok _ _ _ Hj). cbn [ebind fst snd].
  destruct (assert_access_ok regions ti fs desired forbidden Hti Hregions Hfs) as (rs & Es & Hsrc & _). rewrite Es. cbn [ebind].
  destruct (assert_access_ok regions tj ts ATTR_WRITE ATTR_DMA Htj Hregions Hts) as (rd & Ed & Hdst & _).
  assert (src_blame desired forbidden fs (err_of rs)) as Hsb by (destruct rs as [[]|e]; cbn; [auto|split; [done|by eapply refused]]).
  pose proof (aliases_ok fs ts Hfs Hts) as Hal. unfold try_write. rewrite Ed. destruct (aliases 1 fs ts) eqn:Ea; cbn [ebind].
  { assert (dst_blame fs ts (Some (MemoryAccess (Some (us_base ts)) SourceKernel))) as Hdb by (left; split; [done|by apply Hal]).
    destruct rs as [[]|e]; eexists _, mem; (split; [done|]); cbn; (split; [done|]); (split; [by right|]); by split. }
  assert (∀ a, in_uslice fs a → ¬ in_uslice ts a) as Hdis by (intros a Hf Ht; enough (false = true) by done; apply Hal; by exists a).
  assert (dst_blame fs ts (err_of rd)) as Hdb by (destruct rd as [[]|e]; cbn; [auto|right; split; [done|by eapply refused]]).
  destruct rs as [[]|es], rd as [[]|ed]; eexists _, _; (split; [done|]); cbn.
  - split; [done|]. split; [auto|]. split; [auto|]. split; [done|].
    split; [|intros a Ha; unfold copy_mem; by rewrite decide_False].
    intros k Hk. unfold copy_mem. rewrite decide_True by lia. f_equal. lia.
  - split; [done|]. split; [by right|]. by split.
  - split; [done|]. split; [by left|]. by split.
  - split; [done|]. split; [by left|]. by split.
Qed.
End copies.

(** * The properties *)

(** C5: The kernel's access check is exact. On the region tables the build
    generates, an access assertion never panics; when it grants a slice, every
    byte of it lies in a region of the task with the desired and none of the
    forbidden attributes, never in device memory and never in a region hibernated
    for the task; and it grants every non-empty slice of which this is true, also
    one that spans several regions. The slice does not wrap around the top of the
    address space. *)
Theorem access_check_exact regions t s desired forbidden :
  task_ok t → Forall hib_ok regions → uslice_ok s →
  (∃ r, assert_access regions 1 t s desired forbidden = Ret r) ∧
  (assert_access regions 1 t s desired forbidden = Ret (Ok tt) → may_access_slice regions t desired forbidden s) ∧
  (regions_proper regions t desired forbidden → (0 < us_length s)%Z →
   assert_access regions 1 t s desired forbidden = Ret (Ok tt) ↔ may_access_slice regions t desired forbidden s).
Proof.
  intros Ht Hr Hs. destruct (assert_access_ok regions t s desired forbidden Ht Hr Hs) as (r & -> & Hsound & Hcomp).
  split; [by exists r|]. split; [intros [= ->]; auto|]. intros Hp Hl. split; [intros [= ->]; auto|].
  intros Hall. by rewrite Hcomp.
Qed.

(** C6: Copies between tasks are confined. [safe_copy] between two tasks never
    panics. If it succeeds, it has copied the shorter of the two lengths, every
    byte it read was readable to the source task, every byte it wrote was
    writable to the destination task, neither was device, DMA or hibernated
    memory, the two ranges were disjoint, and no other byte of memory changed. If
    it fails, memory is unchanged and at least one task is blamed: the source task
    if and only if its check refused the part of its slice that would have been
    read, with the fault of the check; the destination task if and only if the two
    parts share a byte or its check refused the part that would have been written.
    A task that is not blamed did have access; one whose check refused did not,
    when no region is empty and none that grants access is named twice. The two
    slices do not wrap around the top of the address space, which [from_raw] ensures
    for all slices but those of leases. *)
Theorem safe_copy_confined regions mem tasks i j ti tj fs ts :
  Forall hib_ok regions → i ≠ j → tasks !! i = Some ti → tasks !! j = Some tj → task_ok ti → task_ok tj →
  uslice_ok fs → uslice_ok ts →
  let n := Z.min (us_length fs) (us_length ts) in
  ∃ res mem', safe_copy regions mem tasks i fs j ts = Ret (res, mem') ∧
    match res with
    | Ok m => m = n ∧
        (∀ k, (0 <= k < n)%Z →
          may_access regions ti ATTR_READ ATTR_DMA (us_base fs + k) ∧
          may_access regions tj ATTR_WRITE ATTR_DMA (us_base ts + k) ∧
          mem' (us_base ts + k)%Z = mem (us_base fs + k)%Z ∧
          mem' (us_base fs + k)%Z = mem (us_base fs + k)%Z) ∧
        (∀ a, ¬ (us_base ts <= a < us_base ts + n)%Z → mem' a = mem a)
    | Err f => mem' = mem ∧ (if_src f ≠ None ∨ if_dst f ≠ None) ∧
        src_blame regions ti ATTR_READ ATTR_DMA (mkUSlice (us_base fs) n) (if_src f) ∧
        dst_blame regions tj (mkUSlice (us_base fs) n) (mkUSlice (us_base ts) n) (if_dst f)
    end.
Proof.
  intros Hr Hij Hi Hj Hti Htj Hfs Hts n. unfold safe_copy, shorten_to_match. fold n.
  assert (0 <= n)%Z as Hn by (unfold uslice_ok in *; lia). case_decide as Hz.
  { do 2 eexists. split; [done|]. split; [done|]. split; [lia|done]. }
  destruct (copy_checked_ok regions Hr tasks i j ti tj Hij Hi Hj Hti Htj ATTR_READ ATTR_DMA mem
    (mkUSlice (us_base fs) n) (mkUSlice (us_base ts) n) n) as (res & mem' & Ec & H);
    [apply uslice_prefix; [done|lia]|apply uslice_prefix; [done|lia]|cbn; lia|cbn; lia|].
  exists res, mem'. split; [exact Ec|]. destruct res as [m|f]; [|done]. cbn [us_base us_length] in H.
  destruct H as (-> & Hsrc & Hdst & Hdis & Hcp & Hrest). split; [done|]. split; [|done]. intros k Hk.
  split; [apply Hsrc; unfold in_uslice; cbn; lia|]. split; [apply Hdst; unfold in_uslice; cbn; lia|].
  split; [auto|]. apply Hrest. specialize (Hdis (us_base fs + k)%Z). unfold in_uslice in Hdis. cbn in Hdis.
  intros Hin. apply Hdis; lia.
Qed.
