(* ===== verification/KernIrq.v ===== *)
(** The interrupt controller as the kernel drives it, [disable_irq], [enable_irq],
    [irq_status] and [pend_software_irq] of [firmware/hubris/kern/src/arch/arm_m.rs].

    The controller's registers are 16 words of enable bits and 16 of pending bits,
    as the [cortex_m] crate declares them; a bit written to a set or clear register
    sets or clears that bit, and the others are unaffected. *)

From S2P Require Import Prelude KernState.

Definition NVIC_WORDS : nat := 16.

Record Nvic := mkNvic { nv_enabled : nat → Z; nv_pending : nat → Z }.

Definition set_bits (regs : nat → Z) (reg : nat) (mask : Z) : nat → Z :=
  λ i, if decide (i = reg) then Z.lor (regs i) mask else regs i.
Definition clear_bits (regs : nat → Z) (reg : nat) (mask : Z) : nat → Z :=
  λ i, if decide (i = reg) then Z.ldiff (regs i) mask else regs i.

Definition irq_reg (n : Z) : nat := Z.to_nat (n / 32).
Definition irq_mask (n : Z) : Z := Z.shiftl 1 (n mod 32).

Definition irq_clear_pending (nv : Nvic) (n : Z) : Nvic :=
  mkNvic (nv_enabled nv) (clear_bits (nv_pending nv) (irq_reg n) (irq_mask n)).

Definition disable_irq (nv : Nvic) (n : Z) (also_clear_pending : bool) : result Nvic UsageError :=
  if decide (irq_reg n < NVIC_WORDS) then
    let nv := mkNvic (clear_bits (nv_enabled nv) (irq_reg n) (irq_mask n)) (nv_pending nv) in
    Ok (if also_clear_pending then irq_clear_pending nv n else nv)
  else Err NoIrq.

Definition enable_irq (nv : Nvic) (n : Z) (also_clear_pending : bool) : result Nvic UsageError :=
  if decide (irq_reg n < NVIC_WORDS) then
    let nv := if also_clear_pending then irq_clear_pending nv n else nv in
    Ok (mkNvic (set_bits (nv_enabled nv) (irq_reg n) (irq_mask n)) (nv_pending nv))
  else Err NoIrq.

(** [abi::IrqStatus] *)
Definition STATUS_ENABLED : Z := 1.
Definition STATUS_PENDING : Z := 2.
Definition STATUS_POSTED : Z := 4.

Definition flag (b : bool) (bit : Z) : Z := if b then bit else 0%Z.

Definition nvic_irq_status (nv : Nvic) (n : Z) : result Z UsageError :=
  if decide (irq_reg n < NVIC_WORDS) then
    let is_set regs := bool_decide (Z.land (regs (irq_reg n)) (irq_mask n) = irq_mask n) in
    Ok (Z.lor (flag (is_set (nv_enabled nv)) STATUS_ENABLED) (flag (is_set (nv_pending nv)) STATUS_PENDING))
  else Err NoIrq.

Definition pend_software_irq (nv : Nvic) (n : Z) : result Nvic UsageError :=
  if decide (irq_reg n < NVIC_WORDS) then
    Ok (mkNvic (nv_enabled nv) (set_bits (nv_pending nv) (irq_reg n) (irq_mask n)))
  else Err NoIrq.

(** [for irq in irqs { operation(irq).unwrap_lite() }] *)
Fixpoint each_irq (op : Nvic → Z → result Nvic UsageError) (irqs : list Z) (nv : Nvic) : exec Nvic :=
  match irqs with
  | [] => Ret nv
  | n :: irqs => match op nv n with Ok nv => each_irq op irqs nv | Err _ => Panic end
  end.

(** [irqs.iter().try_fold(..)] *)
Fixpoint fold_status (nv : Nvic) (status : Z) (irqs : list Z) : result Z UsageError :=
  match irqs with
  | [] => Ok status
  | n :: irqs => match nvic_irq_status nv n with Ok s => fold_status nv (Z.lor status s) irqs | Err e => Err e end
  end.

(** Interrupts the controller has. *)
Definition irq_ok (n : Z) : Prop := (0 <= n < 512)%Z.

Lemma irq_reg_ok n : irq_ok n → irq_reg n < NVIC_WORDS.
Proof. unfold irq_ok, irq_reg, NVIC_WORDS. intros H. assert (n / 32 < 16)%Z by (apply Z.div_lt_upper_bound; lia). lia. Qed.

(** Only the controller's own interrupts may be in the build's tables. *)
Lemma each_irq_ok op irqs nv : (∀ nv n, irq_ok n → ∃ nv', op nv n = Ok nv') → Forall irq_ok irqs →
  ∃ nv', each_irq op irqs nv = Ret nv'.
Proof.
  intros Hop H. revert nv. induction H as [|n irqs Hn _ IH]; intros nv; cbn; [by exists nv|].
  destruct (Hop nv n Hn) as [nv' ->]. apply IH.
Qed.

Lemma irq_ops_ok nv n b : irq_ok n →
  (∃ nv', disable_irq nv n b = Ok nv') ∧ (∃ nv', enable_irq nv n b = Ok nv') ∧ (∃ nv', pend_software_irq nv n = Ok nv').
Proof.
  intros H%irq_reg_ok. unfold disable_irq, enable_irq, pend_software_irq.
  repeat case_decide; try done. split; [by eexists|]. split; by eexists.
Qed.
