(* ===== verification/KernTask.v ===== *)
(** Tasks and the task table: the methods of a task, the arguments and results of
    system calls in its saved state, hibernation and suspension, timers, faults and
    the scheduler's scan ([firmware/hubris/kern/src/task.rs]). *)

From S2P Require Import Prelude KernAccess KernState KernMem.

(** * Arguments and results of system calls *)

Definition ULEASE_SIZE : Z := 12.
Definition ULEASE_ALIGN : Z := 4.

Record SendArgs := mkSendArgs {
  sa_callee : TaskId;
  sa_operation : Z;
  sa_message : result USlice UsageError;
  sa_response : result USlice UsageError;
  sa_lease_table : result USlice UsageError;
}.

Definition as_send_args (s : SavedState) : SendArgs := {|
  sa_callee := wrap 16 (Z.shiftr (r4 s) 16);
  sa_operation := wrap 16 (r4 s);
  sa_message := uslice_from_raw 1 1 (r5 s) (r6 s);
  sa_response := uslice_from_raw 1 1 (r7 s) (r8 s);
  sa_lease_table := uslice_from_raw ULEASE_SIZE ULEASE_ALIGN (r9 s) (r10 s);
|}.

Record RecvArgs := mkRecvArgs {
  ra_buffer : result USlice UsageError;
  ra_notification_mask : Z;
  ra_specific_sender : option TaskId;
}.

Definition as_recv_args (s : SavedState) : RecvArgs := {|
  ra_buffer := uslice_from_raw 1 1 (r4 s) (r5 s);
  ra_notification_mask := r6 s;
  ra_specific_sender :=
    let v := r7 s in
    if decide (Z.land v (Z.shiftl 1 31) ≠ 0%Z) then Some (wrap 16 v) else None;
|}.

Record ReplyArgs := mkReplyArgs {
  rp_callee : TaskId;
  rp_response_code : Z;
  rp_message : result USlice UsageError;
}.

Definition as_reply_args (s : SavedState) : ReplyArgs := {|
  rp_callee := wrap 16 (r4 s);
  rp_response_code := r5 s;
  rp_message := uslice_from_raw 1 1 (r6 s) (r7 s);
|}.

Definition reply_fault_reason (x : Z) : option ReplyFaultReason :=
  match x with
  | 0%Z => Some UndefinedOperation
  | 1%Z => Some BadMessageSize
  | 2%Z => Some BadMessageContents
  | 3%Z => Some BadLeases
  | 4%Z => Some ReplyBufferTooSmall
  | 5%Z => Some AccessViolation
  | _ => None
  end.

(** The callee and the reason. *)
Definition as_reply_fault_args (s : SavedState) : TaskId * result ReplyFaultReason UsageError :=
  (wrap 16 (r4 s),
   match reply_fault_reason (r5 s) with Some r => Ok r | None => Err BadReplyFaultReason end).

(** The deadline and the notifications to post. *)
Definition as_set_timer_args (s : SavedState) : option Z * Z :=
  (if decide (r4 s ≠ 0%Z) then Some (Z.lor (Z.shiftl (r6 s) 32) (r5 s)) else None, r7 s).

Record BorrowArgs := mkBorrowArgs {
  ba_lender : TaskId;
  ba_lease_number : Z;
  ba_offset : Z;
  ba_buffer : result USlice UsageError;
}.

Definition as_borrow_args (s : SavedState) : BorrowArgs := {|
  ba_lender := wrap 16 (r4 s);
  ba_lease_number := r5 s;
  ba_offset := r6 s;
  ba_buffer := uslice_from_raw 1 1 (r7 s) (r8 s);
|}.

Definition as_panic_args (s : SavedState) : result USlice UsageError := uslice_from_raw 1 1 (r4 s) (r5 s).

Definition as_refresh_task_id_args (s : SavedState) : TaskId := wrap 16 (r4 s).

(** The task and the notification bits. *)
Definition as_post_args (s : SavedState) : TaskId * Z := (wrap 16 (r4 s), r5 s).

(** The notification bits and the control word. *)
Definition as_irq_args (s : SavedState) : Z * Z := (r4 s, r5 s).

Definition as_irq_status_args (s : SavedState) : Z := r4 s.

Definition set_error_response (s : SavedState) (resp : Z) : SavedState :=
  mkSaved resp 0 (r6 s) (r7 s) (r8 s) (r9 s) (r10 s) (r11 s) (psp s) (exc_return s).

Definition set_send_response_and_length (s : SavedState) (resp len : Z) : SavedState :=
  mkSaved resp (wrap 32 len) (r6 s) (r7 s) (r8 s) (r9 s) (r10 s) (r11 s) (psp s) (exc_return s).

Definition set_recv_result (s : SavedState) (sender operation length response_capacity lease_count : Z) : SavedState :=
  mkSaved 0 sender operation (wrap 32 length) (wrap 32 response_capacity) (wrap 32 lease_count)
    (r10 s) (r11 s) (psp s) (exc_return s).

Definition set_borrow_response_and_length (s : SavedState) (resp len : Z) : SavedState :=
  mkSaved resp (wrap 32 len) (r6 s) (r7 s) (r8 s) (r9 s) (r10 s) (r11 s) (psp s) (exc_return s).

Definition set_borrow_info (s : SavedState) (atts len : Z) : SavedState :=
  mkSaved 0 atts (wrap 32 len) (r7 s) (r8 s) (r9 s) (r10 s) (r11 s) (psp s) (exc_return s).

Definition set_time_result (s : SavedState) (now : Z) (dl : option Z) (notif : Z) : SavedState :=
  let dl_u64 := default 0%Z dl in
  mkSaved (wrap 32 now) (wrap 32 (Z.shiftr now 32)) (match dl with Some _ => 1 | None => 0 end)
    (wrap 32 dl_u64) (wrap 32 (Z.shiftr dl_u64 32)) notif (r10 s) (r11 s) (psp s) (exc_return s).

Definition set_refresh_task_id_result (s : SavedState) (id : TaskId) : SavedState :=
  mkSaved id (r5 s) (r6 s) (r7 s) (r8 s) (r9 s) (r10 s) (r11 s) (psp s) (exc_return s).

Definition set_irq_status_result (s : SavedState) (status : Z) : SavedState :=
  mkSaved status (r5 s) (r6 s) (r7 s) (r8 s) (r9 s) (r10 s) (r11 s) (psp s) (exc_return s).

(** * Methods of a task *)

Definition has_notifications (t : Task) (mask : Z) : bool := bool_decide (Z.land (t_notifications t) mask ≠ 0%Z).

Definition set_healthy_state (t : Task) (s : SchedState) : exec Task :=
  match t_state t with
  | Healthy _ => Ret (set_state t (Healthy s))
  | Suspended _ None bits dbg => Ret (set_state t (Suspended s None bits dbg))
  | Faulted _ _ => Panic
  | Suspended _ (Some _) _ _ => Panic
  end.

Definition take_notifications (t : Task) : option Z * Task :=
  let firing := Z.land (t_notifications t) (ra_notification_mask (as_recv_args (t_save t))) in
  if decide (firing ≠ 0%Z) then (Some firing, set_notifications t (Z.ldiff (t_notifications t) firing))
  else (None, t).

Definition TASK_KERNEL : TaskId := 65535%Z.

Definition post (t : Task) (n : Z) : exec (bool * Task) :=
  let t := set_notifications t (Z.lor (t_notifications t) n) in
  if can_accept_notification (t_state t) then
    match take_notifications t with
    | (Some firing, t) =>
        let t := set_saved t (set_recv_result (t_save t) TASK_KERNEL firing 0 0 0) in
        let! t := set_healthy_state t Runnable in
        Ret (negb (is_suspended t), t)
    | (None, t) => Ret (false, t)
    end
  else Ret (false, t).

(** [dest[..len].copy_from_slice(&data[..len])]. *)
Definition write_mem (mem : Z → Z) (base : Z) (data : list Z) : Z → Z :=
  λ a, if decide (base <= a < base + Z.of_nat (length data))%Z
       then nth (Z.to_nat (a - base)) data 0%Z else mem a.

(** A region is now hibernated. *)
Definition task_hibernate_region (t : Task) (regions : list HibernationRegionDesc) (hibernating : nat) : exec Task :=
  let! region := idx regions hibernating in
  if negb (existsb (overlaps region) (region_table t)) then Ret t else
  match t_state t with
  | Healthy hs => Ret (set_state t (Suspended hs None (of_region hibernating) false))
  | Faulted fault hs => Ret (set_state t (Suspended hs (Some fault) (of_region hibernating) false))
  | Suspended hs fi bits dbg => Ret (set_state t (Suspended hs fi (bf_insert bits hibernating) dbg))
  end.

Definition request_debug (t : Task) : Task :=
  match t_state t with
  | Healthy hs => set_state t (Suspended hs None bf_empty true)
  | Faulted fault hs => set_state t (Suspended hs (Some fault) bf_empty true)
  | Suspended hs fi bits _ => set_state t (Suspended hs fi bits true)
  end.

Section restoring.
Context (regions : list HibernationRegionDesc).

Definition try_restore (mem : Z → Z) (t : Task) : exec (bool * Task * (Z → Z)) :=
  match t_state t with
  | Suspended hs fi bits dbg =>
      if negb (bf_is_empty bits) || dbg then Ret (false, t, mem) else
      let buffer := t_suspension_buffer t in
      let t := set_buffer t None in
      let! sm :=
        match fi, hs, buffer with
        | Some fault, hs, _ => Ret (Faulted fault hs, mem)
        | None, InSuspendedReply _, Some buffer =>
            match sa_response (as_send_args (t_save t)) with
            | Err e => Ret (Faulted (SyscallUsage e) hs, mem)
            | Ok dest_slice =>
                let! r := try_write regions 1 t dest_slice in
                match r with
                | Err fault => Ret (Faulted fault hs, mem)
                | Ok _ =>
                    let len := Nat.min (length buffer) (Z.to_nat (us_length dest_slice)) in
                    Ret (Healthy Runnable, write_mem mem (us_base dest_slice) (take len buffer))
                end
            end
        | None, InSuspendedReply _, None => Panic
        | None, _, Some _ => Panic
        | None, hs, None => Ret (Healthy hs, mem)
        end in
      let t := set_state t (fst sm) in
      Ret (match t_state t with Faulted _ _ => true | _ => false end, t, snd sm)
  | _ => Ret (false, t, mem)
  end.

Inductive RestoreMode := Restored | Lost.

Definition lost_fault (fi : option FaultInfo) (restoring : nat) : option FaultInfo :=
  match fi with
  | Some (LostRegion lost) => Some (LostRegion (bf_insert lost restoring))
  | _ => Some (LostRegion (of_region restoring))
  end.

Definition task_restore_region (mem : Z → Z) (t : Task) (restoring : nat) (mode : RestoreMode)
  : exec (bool * Task * (Z → Z)) :=
  match t_state t with
  | Suspended hs fi bits dbg =>
      let '(had_bit, bits) := bf_take bits restoring in
      let fi := match had_bit, mode with true, Lost => lost_fault fi restoring | _, _ => fi end in
      try_restore mem (set_state t (Suspended hs fi bits dbg))
  | _ => Ret (false, t, mem)
  end.

Definition disable_debug (mem : Z → Z) (t : Task) : exec (bool * Task * (Z → Z)) :=
  match t_state t with
  | Suspended hs fi bits _ => try_restore mem (set_state t (Suspended hs fi bits false))
  | _ => Ret (false, t, mem)
  end.
End restoring.

(** * Restarting a task

    The context of a restarted task, [arch::reinitialize] of [arch/arm_m.rs] for
    the profiles with a floating-point unit: 26 words of exception frame. *)

Definition FRAME_SIZE : Z := 104.
Definition FRAME_ALIGN : Z := 4.
Definition INITIAL_PSR : Z := Z.shiftl 1 24.
Definition INITIAL_FPSCR : Z := 0.
Definition EXC_RETURN_CONST : Z := 0xFFFFFFED.
Definition STACK_FILL : Z := 0xbaddcafe.

Definition words (l : list Z) : list Z := concat (map (le_bytes 4) l).

(** r0 to r3, r12, lr, pc, xpsr; sixteen FPU registers, fpscr and a reserved word. *)
Definition initial_frame (entry_point : Z) : list Z :=
  words ([0; 0; 0; 0; 0; 0xFFFFFFFF; Z.lor entry_point 1; INITIAL_PSR] ++ repeat 0 16 ++ [INITIAL_FPSCR; 0])%Z.

Definition unwrap_access (r : result unit FaultInfo) : exec unit :=
  match r with Ok _ => Ret tt | Err _ => Panic end.

Definition arch_reinitialize (regions : list HibernationRegionDesc) (mem : Z → Z) (t : Task)
  : exec (SavedState * (Z → Z)) :=
  let initial_stack := td_initial_stack (t_descriptor t) in
  if decide (Z.land initial_stack 7 ≠ 0%Z) then Panic else
  if decide (initial_stack < FRAME_SIZE)%Z then Panic else
  match uslice_from_raw FRAME_SIZE FRAME_ALIGN (initial_stack - FRAME_SIZE) 1 with
  | Err _ => Panic
  | Ok frame_uslice =>
      let! mem :=
        match find (λ region, contains region (Z.max 0 (initial_stack - 4))) (region_table t) with
        | None => Ret mem
        | Some region =>
            let len := Z.shiftr (wrap 32 (initial_stack - FRAME_SIZE - rd_base region)) 2 in
            match uslice_from_raw 4 4 (rd_base region) len with
            | Err _ => Ret mem
            | Ok uslice =>
                let! r := try_write regions 4 t uslice in
                let! _ := unwrap_access r in
                Ret (write_mem mem (us_base uslice) (words (repeat STACK_FILL (Z.to_nat len))))
            end
        end in
      let! r := try_write regions FRAME_SIZE t frame_uslice in
      let! _ := unwrap_access r in
      Ret (mkSaved 0 0 0 0 0 0 0 0 (us_base frame_uslice) EXC_RETURN_CONST,
           write_mem mem (us_base frame_uslice) (initial_frame (td_entry_point (t_descriptor t))))
  end.

(** A task that must not be suspended starts over, stopped. *)
Definition reinitialize (regions : list HibernationRegionDesc) (mem : Z → Z) (t : Task) : exec (Task * (Z → Z)) :=
  let t := {|
    t_generation := wrap 32 (t_generation t + 1);
    t_timer := mkTimer None 0;
    t_notifications := 0;
    t_state := default_state;
    t_save := t_save t;
    t_priority := t_priority t;
    t_descriptor := t_descriptor t;
    t_suspension_buffer := t_suspension_buffer t;
  |} in
  let! sm := arch_reinitialize regions mem t in
  Ret (set_saved t (fst sm), snd sm).

(** * The task table *)

Inductive NextTask := Same | Specific (i : nat) | Other.

Definition HUBRIS_FAULT_NOTIFICATION : Z := 1.

Definition fault_state (s : TaskState) (fault : FaultInfo) : TaskState :=
  match s with
  | Healthy hs => Faulted fault hs
  | Faulted _ hs => Faulted fault hs
  | Suspended hs _ bits dbg => Suspended hs (Some fault) bits dbg
  end.

(** The notification of the supervisor, task 0. *)
Definition post_supervisor (tasks : list Task) : exec (bool * list Task) :=
  let! t0 := idx tasks 0 in
  let! wt := post t0 HUBRIS_FAULT_NOTIFICATION in
  let! tasks := set_idx tasks 0 (snd wt) in
  Ret (fst wt, tasks).

Definition force_fault (tasks : list Task) (index : nat) (fault : FaultInfo) : exec (NextTask * list Task) :=
  let! t := idx tasks index in
  let t := set_state t (fault_state (t_state t) fault) in
  let! tasks := set_idx tasks index t in
  let! wt := if is_suspended t then Ret (false, tasks) else post_supervisor tasks in
  Ret (if fst wt : bool then Specific 0 else Other, snd wt).

Definition INDEX_BITS : Z := 10.

Definition for_index_and_gen (index gen : Z) : TaskId :=
  Z.lor (Z.land (wrap 16 index) 1023) (wrap 16 (Z.shiftl gen INDEX_BITS)).

Definition id_index (id : TaskId) : nat := Z.to_nat (Z.land id 1023).
Definition id_generation (id : TaskId) : Z := wrap 8 (Z.shiftr id INDEX_BITS).

(** The generation number of a task: six bits of its restart count. *)
Definition generation (t : Task) : Z := Z.land (wrap 8 (t_generation t)) 63.

Definition current_id (tasks : list Task) (index : nat) : exec TaskId :=
  let! t := idx tasks index in Ret (for_index_and_gen (Z.of_nat index) (generation t)).

Inductive UserError :=
  | Recoverable (code : Z) (hint : NextTask)
  | Unrecoverable (fault : FaultInfo).

Definition dead_response_code (new_generation : Z) : Z := Z.lor 0xffffff00 new_generation.

Definition check_task_id_against_table (tasks : list Task) (id : TaskId) : exec (result nat UserError) :=
  if decide (length tasks ≤ id_index id) then Ret (Err (Unrecoverable (SyscallUsage TaskOutOfRange))) else
  let! t := idx tasks (id_index id) in
  if decide (generation t ≠ id_generation id) then
    Ret (Err (Recoverable (dead_response_code (generation t)) Same))
  else Ret (Ok (id_index id)).

(** * Timers *)

Definition set_timer_state (t : Task) (tm : TimerState) : Task :=
  mkTask (t_save t) (t_priority t) (t_state t) tm (t_generation t) (t_notifications t) (t_descriptor t)
    (t_suspension_buffer t).

Definition combine (a b : NextTask) : NextTask :=
  match a, b with
  | Same, Same => Same
  | Other, Other => Other
  | Specific x, Specific y => if decide (x = y) then Specific x else Other
  | Specific x, _ => Specific x
  | _, Specific x => Specific x
  | Other, _ => Other
  | _, Other => Other
  end.

(** The loop's body: an expired timer is disabled and posts its notifications. *)
Definition fire_timer (index : nat) (sched_hint : NextTask) (t : Task) (current_time : Z) : exec (NextTask * Task) :=
  match deadline (t_timer t) with
  | Some dl =>
      if decide (dl <= current_time)%Z then
        let t := set_timer_state t (mkTimer None (to_post (t_timer t))) in
        let! wt := post t (to_post (t_timer t)) in
        let task_hint := if fst wt : bool then Specific index else Same in
        Ret (combine sched_hint task_hint, snd wt)
      else Ret (sched_hint, t)
  | None => Ret (sched_hint, t)
  end.

Fixpoint process_timers_from (index : nat) (sched_hint : NextTask) (tasks : list Task) (current_time : Z)
  : exec (NextTask * list Task) :=
  match tasks with
  | [] => Ret (sched_hint, [])
  | t :: tasks =>
      let! ht := fire_timer index sched_hint t current_time in
      let! rest := process_timers_from (S index) (fst ht) tasks current_time in
      Ret (fst rest, snd ht :: snd rest)
  end.

Definition process_timers (tasks : list Task) (current_time : Z) : exec (NextTask * list Task) :=
  process_timers_from 0 Same tasks current_time.

(** * The scheduler's scan *)

Definition is_more_important_than (p q : Z) : bool := bool_decide (p < q)%Z.

(** The position after [pos], mod the number of tasks. *)
Definition next_pos (n pos : nat) : nat := if decide (n ≤ pos + 1) then 0 else pos + 1.

Fixpoint scan_loop (steps : nat) (tasks : list Task) (pred : Task → bool) (pos : nat)
    (choice : option (nat * Task)) : exec (option (nat * Task)) :=
  match steps with
  | O => Ret choice
  | S steps =>
      let pos := next_pos (length tasks) pos in
      let! t := idx tasks pos in
      if negb (pred t) then scan_loop steps tasks pred pos choice else
      match choice with
      | Some (_, best_task) =>
          if negb (is_more_important_than (t_priority t) (t_priority best_task))
          then scan_loop steps tasks pred pos choice
          else scan_loop steps tasks pred pos (Some (pos, t))
      | None => scan_loop steps tasks pred pos (Some (pos, t))
      end
  end.

Definition priority_scan (previous : nat) (tasks : list Task) (pred : Task → bool) : exec (option (nat * Task)) :=
  scan_loop (length tasks) tasks pred previous None.

Definition select (previous : nat) (tasks : list Task) : exec Task :=
  let! r := priority_scan previous tasks is_runnable in
  match r with Some (_, t) => Ret t | None => Panic end.
