(* ===== verification/KernSyscalls.v ===== *)
(** The system calls, [firmware/hubris/kern/src/syscalls.rs], with the error types
    of [err.rs].

    The kernel's state is its task table, the hibernation table, the memory and the
    interrupt controller. A
    call is a computation [sys A]: it may panic, fail with a [UserError] or return,
    and carries the state along; [let*] is the [?] operator. *)

From S2P Require Import Prelude KernAccess KernState KernMem KernIrq KernTask.

Record Kernel := mkKernel {
  k_tasks : list Task;
  k_regions : list HibernationRegionDesc;
  k_mem : Z → Z;
  k_nvic : Nvic;
}.

Definition with_tasks (k : Kernel) (tasks : list Task) : Kernel := mkKernel tasks (k_regions k) (k_mem k) (k_nvic k).
Definition with_regions (k : Kernel) (regions : list HibernationRegionDesc) : Kernel :=
  mkKernel (k_tasks k) regions (k_mem k) (k_nvic k).
Definition with_mem (k : Kernel) (mem : Z → Z) : Kernel := mkKernel (k_tasks k) (k_regions k) mem (k_nvic k).
Definition with_nvic (k : Kernel) (nv : Nvic) : Kernel := mkKernel (k_tasks k) (k_regions k) (k_mem k) nv.

(** * Computations *)

Definition sys (A : Type) : Type := Kernel → exec (result A UserError * Kernel).

Definition sret {A} (a : A) : sys A := λ k, Ret (Ok a, k).
Definition sfail {A} (e : UserError) : sys A := λ k, Ret (Err e, k).
Definition fault {A} (f : FaultInfo) : sys A := sfail (Unrecoverable f).

Definition sbind {A B} (m : sys A) (f : A → sys B) : sys B := λ k,
  let! rk := m k in
  match fst rk with
  | Ok a => f a (snd rk)
  | Err e => Ret (Err e, snd rk)
  end.

Notation "'let*' x := m 'in' k" := (sbind m (λ x, k))
  (at level 10, x name, m at level 100, k at level 200).

Definition lift {A} (m : exec A) : sys A := λ k, let! a := m in Ret (Ok a, k).
Definition tasks_of : sys (list Task) := λ k, Ret (Ok (k_tasks k), k).
Definition put_tasks (tasks : list Task) : sys unit := λ k, Ret (Ok tt, with_tasks k tasks).

Definition of_result {A} (r : result A UsageError) : sys A :=
  match r with Ok a => sret a | Err e => fault (SyscallUsage e) end.

Definition task_at (i : nat) : sys Task := let* tasks := tasks_of in lift (idx tasks i).

Definition update_task (i : nat) (f : Task → exec Task) : sys unit :=
  let* tasks := tasks_of in
  let* t := lift (idx tasks i) in
  let* t := lift (f t) in
  let* tasks := lift (set_idx tasks i t) in
  put_tasks tasks.

Definition update_save (i : nat) (f : SavedState → SavedState) : sys unit :=
  update_task i (λ t, Ret (set_saved t (f (t_save t)))).

Definition set_healthy (i : nat) (s : SchedState) : sys unit := update_task i (λ t, set_healthy_state t s).

Definition sys_force_fault (i : nat) (f : FaultInfo) : sys NextTask :=
  let* tasks := tasks_of in
  let* nt := lift (force_fault tasks i f) in
  let* _ := put_tasks (snd nt) in
  sret (fst nt).

Definition id_of (i : nat) : sys TaskId := let* tasks := tasks_of in lift (current_id tasks i).

Definition check_id (id : TaskId) : sys nat :=
  let* tasks := tasks_of in
  let* r := lift (check_task_id_against_table tasks id) in
  match r with Ok i => sret i | Err e => sfail e end.

(** A check of a task's memory: the fault, if any. *)
Definition check_access (i : nat) (access : list HibernationRegionDesc → Task → exec (result unit FaultInfo))
  : sys (result unit FaultInfo) := λ k,
  let! t := idx (k_tasks k) i in
  let! r := access (k_regions k) t in
  Ret (Ok r, k).

Definition sys_copy (from_index : nat) (from_slice : USlice) (to_index : nat) (to_slice : USlice)
  : sys (result Z InteractFault) := λ k,
  let! cm := safe_copy (k_regions k) (k_mem k) (k_tasks k) from_index from_slice to_index to_slice in
  Ret (Ok (fst cm), with_mem k (snd cm)).

Definition read_mem (mem : Z → Z) (base : Z) (n : nat) : list Z :=
  map (λ i, mem (base + Z.of_nat i)%Z) (seq 0 n).

Definition memory : sys (Z → Z) := λ k, Ret (Ok (k_mem k), k).

(** * Faults in an interaction *)

Definition in_src (f : FaultInfo) : InteractFault := mkInteract (Some f) None.
Definition in_dst (f : FaultInfo) : InteractFault := mkInteract None (Some f).

Definition fault_opt (f : option FaultInfo) (i : nat) : sys NextTask :=
  match f with Some f => sys_force_fault i f | None => sret Same end.

Definition apply_to_src (f : InteractFault) (src : nat) : sys NextTask :=
  let* nt := fault_opt (if_src f) src in
  match if_dst f with Some f => fault f | None => sret nt end.

Definition apply_to_dst (f : InteractFault) (dst : nat) : sys NextTask :=
  let* nt := fault_opt (if_dst f) dst in
  match if_src f with Some f => fault f | None => sret nt end.

Definition apply_both (f : InteractFault) (src dst : nat) : sys unit :=
  let* _ := fault_opt (if_src f) src in
  let* _ := fault_opt (if_dst f) dst in
  sret tt.

(** * Sending and receiving *)

Definition can_accept_message_from (s : TaskState) (caller : TaskId) : bool :=
  match s with
  | Healthy (InRecv None) => true
  | Healthy (InRecv (Some peer)) => bool_decide (peer = caller)
  | _ => false
  end.

Definition is_sending_to (s : TaskState) (target : TaskId) : bool :=
  match s with
  | Healthy (InSend t) => bool_decide (t = target)
  | _ => false
  end.

Definition deliver (caller callee : nat) : sys (result unit InteractFault) :=
  let* caller_id := id_of caller in
  let* tc := task_at caller in
  let send_args := as_send_args (t_save tc) in
  match sa_message send_args with
  | Err e => sret (Err (in_src (SyscallUsage e)))
  | Ok src_slice =>
      match sa_response send_args with
      | Err e => sret (Err (in_src (SyscallUsage e)))
      | Ok response =>
          match sa_lease_table send_args with
          | Err e => sret (Err (in_src (SyscallUsage e)))
          | Ok leases =>
              let* te := task_at callee in
              match ra_buffer (as_recv_args (t_save te)) with
              | Err e => sret (Err (in_dst (SyscallUsage e)))
              | Ok dest_slice =>
                  let* r := sys_copy caller src_slice callee dest_slice in
                  match r with
                  | Err f => sret (Err f)
                  | Ok amount_copied =>
                      let* _ := update_save callee (λ s,
                        set_recv_result s caller_id (sa_operation send_args) amount_copied
                          (us_length response) (us_length leases)) in
                      let* callee_id := id_of callee in
                      let* _ := set_healthy caller (InReply callee_id) in
                      let* _ := set_healthy callee Runnable in
                      sret (Ok tt)
                  end
              end
          end
      end
  end.

(** [handle_kernel_message] is a parameter here. *)
Definition send (handle_kernel_message : nat → sys NextTask) (caller : nat) : sys NextTask :=
  let* tc := task_at caller in
  let callee_id := sa_callee (as_send_args (t_save tc)) in
  if decide (callee_id = TASK_KERNEL) then handle_kernel_message caller else
  let* callee := check_id callee_id in
  let* caller_id := id_of caller in
  let* te := task_at callee in
  let block (next_task : NextTask) :=
    let* _ := set_healthy caller (InSend callee_id) in
    sret (combine Other next_task) in
  if can_accept_message_from (t_state te) caller_id then
    let* r := deliver caller callee in
    match r with
    | Ok _ => sret (Specific callee)
    | Err interact =>
        let* next_task := apply_to_dst interact callee in
        block next_task
    end
  else block Same.

(** The search for senders of an open receive; [Some] is the result of the call,
    [None] that the caller must block. Each failed delivery faults a sender. *)
Fixpoint recv_open (fuel : nat) (caller : nat) (caller_id : TaskId) (last : nat) (next_task : NextTask)
  : sys (NextTask + NextTask) :=
  match fuel with
  | O => lift Panic
  | S fuel =>
      let* tasks := tasks_of in
      let* found := lift (priority_scan last tasks (λ t, is_sending_to (t_state t) caller_id)) in
      match found with
      | None => sret (inr next_task)
      | Some (sender, _) =>
          let* r := deliver sender caller in
          match r with
          | Ok _ => sret (inl next_task)
          | Err interact =>
              let* wake_hint := apply_to_src interact sender in
              recv_open fuel caller caller_id sender (combine next_task wake_hint)
          end
      end
  end.

Definition recv_closed (caller : nat) (caller_id sender_id : TaskId) : sys (NextTask + NextTask) :=
  let* sender_idx := check_id sender_id in
  let* ts := task_at sender_idx in
  if is_sending_to (t_state ts) caller_id then
    let* r := deliver sender_idx caller in
    match r with
    | Ok _ => sret (inl Same)
    | Err interact =>
        let* wake_hint := apply_to_src interact sender_idx in
        sret (inr (combine Same wake_hint))
    end
  else sret (inr Same).

Definition recv (caller : nat) : sys NextTask :=
  let* tc := task_at caller in
  match take_notifications tc with
  | (Some firing, tc) =>
      let* _ := update_task caller (λ _,
        Ret (set_saved tc (set_recv_result (t_save tc) TASK_KERNEL firing 0 0 0))) in
      sret Same
  | (None, _) =>
      let* caller_id := id_of caller in
      let specific_sender := ra_specific_sender (as_recv_args (t_save tc)) in
      let* r :=
        match specific_sender with
        | Some sender_id =>
            if decide (sender_id = TASK_KERNEL) then sret (inr Same) else recv_closed caller caller_id sender_id
        | None =>
            let* tasks := tasks_of in
            recv_open (S (length tasks)) caller caller_id caller Same
        end in
      match r with
      | inl next_task => sret next_task
      | inr next_task =>
          let* _ := set_healthy caller (InRecv specific_sender) in
          sret (combine Other next_task)
      end
  end.

(** * Replies *)

Definition BUFFER_CAPACITY : nat := 256.

(** [SuspensionBuffer::ok]; the buffer's length and its bytes. *)
Definition suspension_buffer_ok (data : list Z) : option (list Z) :=
  if decide (BUFFER_CAPACITY < length data) then None else Some data.

(** The data of a reply to a suspended task is kept until the task is restored. *)
Definition set_suspension_reply (caller : nat) (src_slice : USlice) (callee : nat) : sys (result Z InteractFault) :=
  let* r := check_access caller (λ regions t, try_read regions 1 t src_slice) in
  match r with
  | Err f => sret (Err (in_src f))
  | Ok _ =>
      let* mem := memory in
      let data := read_mem mem (us_base src_slice) (Z.to_nat (us_length src_slice)) in
      match suspension_buffer_ok data with
      | None => lift Panic
      | Some buffer =>
          let* _ := update_task callee (λ t, Ret (set_buffer t (Some buffer))) in
          sret (Ok (Z.of_nat (length buffer)))
      end
  end.

(** Is the task waiting for a reply of [caller_id], and is it suspended? *)
Definition awaits_reply (s : TaskState) (caller_id : TaskId) : option bool :=
  match s with
  | Healthy (InReply x) => if decide (x = caller_id) then Some false else None
  | Suspended (InReply x) None _ _ => if decide (x = caller_id) then Some true else None
  | _ => None
  end.

(** Stale identifiers end the call, without an error. *)
Definition check_callee (id : TaskId) : sys (nat + NextTask) :=
  let* tasks := tasks_of in
  let* r := lift (check_task_id_against_table tasks id) in
  match r with
  | Err (Recoverable _ hint) => sret (inr hint)
  | Err (Unrecoverable f) => fault f
  | Ok x => sret (inl x)
  end.

(** The end of [reply]: the reply fits, copy or keep it. *)
Definition deliver_reply (caller : nat) (caller_id : TaskId) (response_code : Z) (src_slice : USlice)
    (callee : nat) (dest_slice : USlice) (is_suspended : bool) : sys NextTask :=
  let* amount_copied :=
    if is_suspended then set_suspension_reply caller src_slice callee
    else sys_copy caller src_slice callee dest_slice in
  match amount_copied with
  | Err interact => apply_to_dst interact callee
  | Ok n =>
      let* _ := update_save callee (λ s, set_send_response_and_length s response_code n) in
      let* _ := set_healthy callee (if is_suspended then InSuspendedReply caller_id else Runnable) in
      sret Same
  end.

Definition reply (caller : nat) : sys NextTask :=
  let* tc := task_at caller in
  let reply_args := as_reply_args (t_save tc) in
  let* caller_id := id_of caller in
  let* checked := check_callee (rp_callee reply_args) in
  match checked with
  | inr hint => sret hint
  | inl callee =>
      let* te := task_at callee in
      match awaits_reply (t_state te) caller_id with
      | None => sret Same
      | Some is_suspended =>
          match rp_message reply_args with
          | Err _ => fault (SyscallUsage InvalidSlice)
          | Ok src_slice =>
              match sa_response (as_send_args (t_save te)) with
              | Err e => sys_force_fault callee (SyscallUsage e)
              | Ok dest_slice =>
                  if decide (us_length dest_slice < us_length src_slice)%Z then fault (SyscallUsage ReplyTooBig) else
                  if decide (256 < us_length src_slice)%Z then fault (SyscallUsage ReplyTooBig) else
                  deliver_reply caller caller_id (rp_response_code reply_args) src_slice callee dest_slice is_suspended
              end
          end
      end
  end.

Definition reply_fault (caller : nat) : sys NextTask :=
  let* caller_id := id_of caller in
  let* tc := task_at caller in
  let args := as_reply_fault_args (t_save tc) in
  let* reason := of_result (snd args) in
  let* checked := check_callee (fst args) in
  match checked with
  | inr hint => sret hint
  | inl callee =>
      let* te := task_at callee in
      match awaits_reply (t_state te) caller_id with
      | None => sret Same
      | Some _ =>
          let* _ := sys_force_fault callee (FromServer caller_id reason) in
          sret Same
      end
  end.

(** * Timers, notifications and identifiers *)

Definition set_timer (now : Z) (caller : nat) : sys NextTask :=
  let* tc := task_at caller in
  let '(dl, notification) := as_set_timer_args (t_save tc) in
  let expired := match dl with Some d => bool_decide (d <= now)%Z | None => false end in
  if expired then
    let* _ := update_task caller (λ t,
      let! wt := post (set_timer_state t (mkTimer None notification)) notification in Ret (snd wt)) in
    sret Same
  else
    let* _ := update_task caller (λ t, Ret (set_timer_state t (mkTimer dl notification))) in
    sret Same.

Definition get_timer (now : Z) (caller : nat) : sys NextTask :=
  let* tc := task_at caller in
  let* _ := update_save caller (λ s, set_time_result s now (deadline (t_timer tc)) (to_post (t_timer tc))) in
  sret Same.

Definition explicit_panic (caller : nat) : sys NextTask := sys_force_fault caller FaultPanic.

Definition refresh_task_id (caller : nat) : sys NextTask :=
  let* tc := task_at caller in
  let peer := id_index (as_refresh_task_id_args (t_save tc)) in
  let* tasks := tasks_of in
  if decide (peer < length tasks) then
    let* tid := id_of peer in
    let* _ := update_save caller (λ s, set_refresh_task_id_result s tid) in
    sret Same
  else fault (SyscallUsage TaskOutOfRange).

(** [Task::post] on a task of the table: was it woken? *)
Definition post_to (i : nat) (n : Z) : sys bool :=
  let* tasks := tasks_of in
  let* t := lift (idx tasks i) in
  let* wt := lift (post t n) in
  let* tasks := lift (set_idx tasks i (snd wt)) in
  let* _ := put_tasks tasks in
  sret (fst wt).

Definition sys_post (caller : nat) : sys NextTask :=
  let* tc := task_at caller in
  let args := as_post_args (t_save tc) in
  let* peer_idx := check_id (fst args) in
  let* woke := post_to peer_idx (snd args) in
  let* _ := update_save caller (λ s, set_error_response s 0) in
  let* tc := task_at caller in
  let* tp := task_at peer_idx in
  if woke && is_more_important_than (t_priority tp) (t_priority tc) then sret (Specific peer_idx) else sret Same.

(** * Leases *)

Definition LEASE_READ : Z := 1.
Definition LEASE_WRITE : Z := 2.
Definition DEFECT : Z := 1.
Definition HIBERNATED : Z := 2.

Definition read_u32 (mem : Z → Z) (addr : Z) : Z := le_val (read_mem mem addr 4).

(** A [ULease] of the table at [base]. *)
Definition lease_at (mem : Z → Z) (base : Z) (n : nat) : ULease :=
  let addr := (base + ULEASE_SIZE * Z.of_nat n)%Z in
  mkULease (read_u32 mem addr) (read_u32 mem (addr + 4)) (read_u32 mem (addr + 8)).

Definition is_hibernated_fault (f : option FaultInfo) : bool :=
  match f with Some (HibernatedMemoryAccess _) => true | _ => false end.

(** A healthy or suspended task that waits for a reply of the caller lends. *)
Definition borrow_lease (caller lender : nat) (lease_number offset : Z) : sys ULease :=
  let* caller_id := id_of caller in
  let* tl := task_at lender in
  match awaits_reply (t_state tl) caller_id with
  | None => sfail (Recoverable DEFECT Same)
  | Some _ =>
      match sa_lease_table (as_send_args (t_save tl)) with
      | Err e =>
          let* wake_hint := sys_force_fault lender (SyscallUsage e) in
          sfail (Recoverable DEFECT wake_hint)
      | Ok leases =>
          let* r := check_access lender (λ regions t, try_read regions ULEASE_SIZE t leases) in
          match r with
          | Err f =>
              if is_hibernated_fault (Some f) then sfail (Recoverable HIBERNATED Same) else
              let* wake_hint := sys_force_fault lender f in
              sfail (Recoverable DEFECT wake_hint)
          | Ok _ =>
              if decide (lease_number < us_length leases)%Z then
                let* mem := memory in
                of_result (offset_lease (lease_at mem (us_base leases) (Z.to_nat lease_number)) offset)
              else fault (SyscallUsage LeaseOutOfRange)
          end
      end
  end.

Definition borrow_read (caller : nat) : sys NextTask :=
  let* tc := task_at caller in
  let args := as_borrow_args (t_save tc) in
  let* buffer := of_result (ba_buffer args) in
  let* lender := check_id (ba_lender args) in
  let* lease := borrow_lease caller lender (ba_lease_number args) (ba_offset args) in
  if negb (attrs_contain (ul_attributes lease) LEASE_READ) then sfail (Recoverable DEFECT Same) else
  let* copy_result := sys_copy lender (uslice_of_lease lease) caller buffer in
  match copy_result with
  | Ok n =>
      let* _ := update_save caller (λ s, set_borrow_response_and_length s 0 n) in
      sret Same
  | Err interact =>
      if is_hibernated_fault (if_src interact) then
        match if_dst interact with
        | Some f => fault f
        | None => sfail (Recoverable HIBERNATED Same)
        end
      else
        let* wake_hint := apply_to_src interact lender in
        sfail (Recoverable DEFECT wake_hint)
  end.

Definition borrow_write (caller : nat) : sys NextTask :=
  let* tc := task_at caller in
  let args := as_borrow_args (t_save tc) in
  let* buffer := of_result (ba_buffer args) in
  let* lender := check_id (ba_lender args) in
  let* lease := borrow_lease caller lender (ba_lease_number args) (ba_offset args) in
  if negb (attrs_contain (ul_attributes lease) LEASE_WRITE) then sfail (Recoverable DEFECT Same) else
  let* copy_result := sys_copy caller buffer lender (uslice_of_lease lease) in
  match copy_result with
  | Ok n =>
      let* _ := update_save caller (λ s, set_borrow_response_and_length s 0 n) in
      sret Same
  | Err interact =>
      if is_hibernated_fault (if_dst interact) then
        match if_src interact with
        | Some f => fault f
        | None => sfail (Recoverable HIBERNATED Same)
        end
      else
        let* wake_hint := apply_to_dst interact lender in
        sfail (Recoverable DEFECT wake_hint)
  end.

Definition borrow_info (caller : nat) : sys NextTask :=
  let* tc := task_at caller in
  let args := as_borrow_args (t_save tc) in
  let* lender := check_id (ba_lender args) in
  let* lease := borrow_lease caller lender (ba_lease_number args) 0 in
  let* _ := update_save caller (λ s, set_borrow_info s (ul_attributes lease) (ul_length lease)) in
  sret Same.

(** * Interrupts

    The interrupts behind each notification of a task are in a table the build
    generates, the parameter [irq_lookup]: task and notification bits to numbers. *)

Section irq.
Context (irq_lookup : Z → Z → option (list Z)).

Definition nvic : sys Nvic := λ k, Ret (Ok (k_nvic k), k).
Definition put_nvic (nv : Nvic) : sys unit := λ k, Ret (Ok tt, with_nvic k nv).

Definition lookup_irqs (task : Z) (notification : Z) : sys (list Z) :=
  match irq_lookup task notification with Some irqs => sret irqs | None => fault (SyscallUsage NoIrq) end.

(** [abi::IrqControlArg] *)
Definition CONTROL_ENABLED : Z := 1.
Definition CONTROL_CLEAR_PENDING : Z := 2.
Definition control_from_bits (x : Z) : option Z :=
  if decide (Z.ldiff x (Z.lor CONTROL_ENABLED CONTROL_CLEAR_PENDING) = 0%Z) then Some x else None.

Definition irq_control (caller : nat) : sys NextTask :=
  let* tc := task_at caller in
  let '(notification_bitmask, control) := as_irq_args (t_save tc) in
  match control_from_bits control with
  | None => fault (SyscallUsage NoIrq)
  | Some control =>
      let operation := if attrs_contain control CONTROL_ENABLED then enable_irq else disable_irq in
      let also_clear_pending := attrs_contain control CONTROL_CLEAR_PENDING in
      let* irqs := lookup_irqs (Z.of_nat caller) notification_bitmask in
      let* nv := nvic in
      let* nv := lift (each_irq (λ nv i, operation nv i also_clear_pending) irqs nv) in
      let* _ := put_nvic nv in
      sret Same
  end.

Definition irq_status (caller : nat) : sys NextTask :=
  let* tc := task_at caller in
  let notification_bitmask := as_irq_status_args (t_save tc) in
  let* irqs := lookup_irqs (Z.of_nat caller) notification_bitmask in
  let* nv := nvic in
  let* status := of_result (fold_status nv 0 irqs) in
  let* tc := task_at caller in
  let posted := has_notifications tc notification_bitmask in
  let status := Z.lor (Z.ldiff status STATUS_POSTED) (flag posted STATUS_POSTED) in
  let* _ := update_save caller (λ s, set_irq_status_result s status) in
  sret Same.

End irq.

(** * The dispatcher *)

Inductive Sysnum :=
  | SysSend | SysRecv | SysReply | SysSetTimer | SysBorrowRead | SysBorrowWrite | SysBorrowInfo | SysIrqControl
  | SysPanic | SysGetTimer | SysRefreshTaskId | SysPost | SysReplyFault | SysIrqStatus.

Definition sysnum_try_from (x : Z) : option Sysnum :=
  match x with
  | 0%Z => Some SysSend | 1%Z => Some SysRecv | 2%Z => Some SysReply | 3%Z => Some SysSetTimer
  | 4%Z => Some SysBorrowRead | 5%Z => Some SysBorrowWrite | 6%Z => Some SysBorrowInfo
  | 7%Z => Some SysIrqControl | 8%Z => Some SysPanic | 9%Z => Some SysGetTimer
  | 10%Z => Some SysRefreshTaskId | 11%Z => Some SysPost | 12%Z => Some SysReplyFault
  | 13%Z => Some SysIrqStatus | _ => None
  end.

Section entry.
Context (handle_kernel_message : nat → sys NextTask) (irq_lookup : Z → Z → option (list Z)).
(** The time. *)
Context (now : Z).

Definition dispatch (nr : Z) (current : nat) : sys NextTask :=
  match sysnum_try_from nr with
  | Some SysSend => send handle_kernel_message current
  | Some SysRecv => recv current
  | Some SysReply => reply current
  | Some SysSetTimer => set_timer now current
  | Some SysBorrowRead => borrow_read current
  | Some SysBorrowWrite => borrow_write current
  | Some SysBorrowInfo => borrow_info current
  | Some SysIrqControl => irq_control irq_lookup current
  | Some SysPanic => explicit_panic current
  | Some SysGetTimer => get_timer now current
  | Some SysRefreshTaskId => refresh_task_id current
  | Some SysPost => sys_post current
  | Some SysReplyFault => reply_fault current
  | Some SysIrqStatus => irq_status irq_lookup current
  | None => fault (SyscallUsage BadSyscallNumber)
  end.

Definition safe_syscall_entry (nr : Z) (current : nat) (k : Kernel) : exec (NextTask * Kernel) :=
  let! res := dispatch nr current k in
  let '(r, k) := res in
  let! done :=
    match r with
    | Ok nt => Ret (Ok nt, k)
    | Err (Recoverable code hint) =>
        (let* _ := update_save current (λ s, set_error_response s code) in sret hint) k
    | Err (Unrecoverable f) => sys_force_fault current f k
    end in
  match fst done with
  | Ok nt => Ret (nt, snd done)
  | Err _ => Panic
  end.
End entry.
