(* ===== verification/KernKipc.v ===== *)
(** Messages to the kernel, [firmware/hubris/kern/src/kipc.rs]: task control, and the
    supervisor's requests to hibernate and restore memory and to suspend and
    restore tasks.

    Messages are encoded by the [ssmarshal] crate, the parameter [Marshal]; the
    addresses of the kernel's own regions are the linker's, the table of interrupts
    and the image's identifier the build's, parameters too. The dispatcher is that
    of a kernel built without the feature [dump], as the firmware builds it; the
    messages of that feature are at the end, apart. *)

From S2P Require Import Prelude KernAccess KernState KernMem KernIrq KernTask KernSyscalls.

(** * Encoded messages *)

(** The buffer after an attempt to serialize into it, and the outcome. *)
Inductive SerResult := SerOk (size : nat) | SerEndOfStream | SerError.

Class Marshal := {
  de_u32 : list Z → option Z;
  de_u32_bool : list Z → option (Z * bool);
  de_u32_u32 : list Z → option (Z * Z);
  de_event_mode : list Z → option (Z * RestoreMode);
  ser_u32 : Z → list Z → list Z * SerResult;
  ser_u64 : Z → list Z → list Z * SerResult;
  ser_state : TaskState → list Z → list Z * SerResult;
  size_of_state : Z;
}.

Definition deserialize_message {T} (de : list Z → option T) (i : nat) (message : USlice) : sys T :=
  let* r := check_access i (λ regions t, try_read regions 1 t message) in
  match r with
  | Err f => fault f
  | Ok _ =>
      let* mem := memory in
      match de (read_mem mem (us_base message) (Z.to_nat (us_length message))) with
      | Some msg => sret msg
      | None => fault (SyscallUsage BadKernelMessage)
      end
  end.

Definition put_memory (mem : Z → Z) : sys unit := λ k, Ret (Ok tt, with_mem k mem).

Definition serialize_response {T} (ser : T → list Z → list Z * SerResult) (size_of : Z) (i : nat)
    (buf : USlice) (val : T) : sys Z :=
  let* r := check_access i (λ regions t, try_write regions 1 t buf) in
  match r with
  | Err f => fault f
  | Ok _ =>
      let* mem := memory in
      let '(data, r) := ser val (read_mem mem (us_base buf) (Z.to_nat (us_length buf))) in
      let* _ := put_memory (write_mem mem (us_base buf) data) in
      match r with
      | SerOk size => sret (Z.of_nat size)
      | SerEndOfStream => sret size_of
      | SerError => fault (SyscallUsage BadKernelMessage)
      end
  end.

Definition respond (caller : nat) (len : Z) : sys NextTask :=
  let* _ := update_save caller (λ s, set_send_response_and_length s 0 len) in
  sret Same.

Definition regions_of : sys (list HibernationRegionDesc) := λ k, Ret (Ok (k_regions k), k).
Definition put_regions (regions : list HibernationRegionDesc) : sys unit :=
  λ k, Ret (Ok tt, with_regions k regions).

Definition require_supervisor (caller : nat) : sys unit :=
  if decide (caller ≠ 0) then fault (SyscallUsage NotSupervisor) else sret tt.

(** * After a restore

    A task restored to a receive may have senders blocked on it, one restored to a
    send a receiver. *)

Definition find_sender (receiver : nat) (receiver_id : TaskId) (specific_sender : option TaskId) : sys (option nat) :=
  let* tasks := tasks_of in
  match specific_sender with
  | Some sender_id =>
      let sender := id_index sender_id in
      if decide (sender < length tasks) then
        let* t := task_at sender in
        sret (if is_sending_to (t_state t) receiver_id then Some sender else None)
      else sret None
  | None =>
      let* r := lift (priority_scan receiver tasks (λ t, is_sending_to (t_state t) receiver_id)) in
      sret (fst <$> r)
  end.

Definition deliver_or_fault (sender receiver : nat) : sys unit :=
  let* r := deliver sender receiver in
  match r with
  | Ok _ => sret tt
  | Err interact => apply_both interact sender receiver
  end.

Definition reconcile_one (i : nat) : sys unit :=
  let* caller_id := id_of i in
  let* t := task_at i in
  match t_state t with
  | Healthy (InRecv specific_sender) =>
      let* s := find_sender i caller_id specific_sender in
      match s with
      | Some sender => deliver_or_fault sender i
      | None => sret tt
      end
  | Healthy (InSend peer_id) =>
      let* tasks := tasks_of in
      let* r := lift (check_task_id_against_table tasks peer_id) in
      match r with
      | Ok peer =>
          let* tp := task_at peer in
          if can_accept_message_from (t_state tp) caller_id then deliver_or_fault i peer else sret tt
      | Err _ => sret tt
      end
  | _ => sret tt
  end.

Fixpoint each_index (l : list nat) (f : nat → sys unit) : sys unit :=
  match l with
  | [] => sret tt
  | i :: l => let* _ := f i in each_index l f
  end.

Definition reconcile_ipc : sys unit :=
  let* tasks := tasks_of in
  each_index (seq 0 (length tasks)) reconcile_one.

(** A walk over all tasks with an accumulator. *)
Fixpoint each_task {X} (f : X → Task → exec (X * Task)) (x : X) (tasks : list Task) : exec (X * list Task) :=
  match tasks with
  | [] => Ret (x, [])
  | t :: tasks =>
      let! xt := f x t in
      let! rest := each_task f (fst xt) tasks in
      Ret (fst rest, snd xt :: snd rest)
  end.

Definition notify_supervisor (any_faulted : bool) : sys unit :=
  if any_faulted then let* _ := post_to 0 HUBRIS_FAULT_NOTIFICATION in sret tt else sret tt.

(** * Hibernation *)

Inductive HibernateError := NoMatchingRegion | AlreadyHibernated | HibGenerationOverflow | ProtectedMemory.

Definition hibernate_error_code (e : HibernateError) : Z :=
  match e with
  | NoMatchingRegion => 1 | AlreadyHibernated => 2 | HibGenerationOverflow => 3 | ProtectedMemory => 4
  end.

Definition hibernate_error (e : SuspendError) : HibernateError :=
  match e with AlreadyActive => AlreadyHibernated | GenerationOverflow => HibGenerationOverflow end.

Definition InvalidEventId : Z := 1.
Definition TaskSuspended : Z := 1.
Definition NotHibernated : Z := 1.
Definition MissingLease : Z := 2.
Definition LeaseNotUsable : Z := 3.

Section kipc.
Context `{Marshal} {K : Type} `{MemoryRegion K} (kernel_regions : list K).

Definition protected_task (i : nat) (t : Task) : bool :=
  bool_decide (i = 0) || attrs_contain (td_flags (t_descriptor t)) FLAG_PROTECTED.

Definition overlaps_protected_memory (region : HibernationRegionDesc) (tasks : list Task) : bool :=
  existsb (overlaps region) kernel_regions ||
  existsb (λ it, protected_task (fst it) (snd it) && existsb (overlaps region) (region_table (snd it)))
    (zip (seq 0 (length tasks)) tasks).

(** [iter().enumerate().find(..)] *)
Fixpoint find_region (base size : Z) (i : nat) (regions : list HibernationRegionDesc)
  : option (nat * HibernationRegionDesc) :=
  match regions with
  | [] => None
  | r :: regions =>
      if decide (hib_base r = base ∧ hib_size r = size) then Some (i, r) else find_region base size (S i) regions
  end.

(** The part of [hibernate_region] under the lock of the table. *)
Definition hibernate_locked (base size : Z) : sys (result Z HibernateError) :=
  let* regions := regions_of in
  let* tasks := tasks_of in
  match find_region base size 0 regions with
  | None => sret (Err NoMatchingRegion)
  | Some (i, region) =>
      if overlaps_protected_memory region tasks then sret (Err ProtectedMemory) else
      match hibernate region (Z.of_nat i mod 256) with
      | (_, Err e) => sret (Err (hibernate_error e))
      | (region, Ok event_id) =>
          let regions := <[i := region]> regions in
          let* _ := put_regions regions in
          let* ts := lift (each_task (λ _ t, let! t := task_hibernate_region t regions i in Ret (tt, t)) tt tasks) in
          let* _ := put_tasks (snd ts) in
          sret (Ok event_id)
      end
  end.

Definition hibernate_region (caller : nat) (message response : USlice) : sys NextTask :=
  let* _ := require_supervisor caller in
  let* bs := deserialize_message de_u32_u32 caller message in
  let* r := hibernate_locked (fst bs) (snd bs) in
  match r with
  | Ok event_id =>
      let* len := serialize_response ser_u32 4 caller response event_id in
      respond caller len
  | Err e => sfail (Recoverable (hibernate_error_code e) Same)
  end.

(** The part of [restore_region] under the lock: the region is active no more. *)
Definition restore_locked (event_id : Z) : sys (result nat unit) :=
  let index := Z.to_nat (event_index event_id) in
  let* regions := regions_of in
  match regions !! index with
  | None => sret (Err tt)
  | Some region =>
      match restore region event_id with
      | (_, Err _) => sret (Err tt)
      | (region, Ok _) =>
          let* _ := put_regions (<[index := region]> regions) in
          sret (Ok index)
      end
  end.

(** The walk over the tasks: has any faulted, and the memory. *)
Definition restore_tasks (regions : list HibernationRegionDesc) (mem : Z → Z) (tasks : list Task) (index : nat)
    (mode : RestoreMode) : exec ((bool * (Z → Z)) * list Task) :=
  each_task (λ fm t,
    let! r := task_restore_region regions (snd fm) t index mode in
    Ret ((fst fm || fst (fst r), snd r), snd (fst r))) (false, mem) tasks.

Definition restore_event (event_id : Z) (mode : RestoreMode) : sys unit :=
  let* locked := restore_locked event_id in
  match locked with
  | Err _ => sfail (Recoverable InvalidEventId Same)
  | Ok index =>
      let* regions := regions_of in
      let* mem := memory in
      let* tasks := tasks_of in
      let* r := lift (restore_tasks regions mem tasks index mode) in
      let* _ := put_tasks (snd r) in
      let* _ := put_memory (snd (fst r)) in
      let* _ := notify_supervisor (fst (fst r)) in
      reconcile_ipc
  end.

Definition restore_region (caller : nat) (message : USlice) : sys NextTask :=
  let* _ := require_supervisor caller in
  let* em := deserialize_message de_event_mode caller message in
  let* _ := restore_event (fst em) (snd em) in
  respond caller 0.

(** * Access to hibernated memory *)

Definition first_lease (caller : nat) : sys ULease :=
  let* tc := task_at caller in
  let* lease_table := of_result (sa_lease_table (as_send_args (t_save tc))) in
  let* r := check_access caller (λ regions t, try_read regions ULEASE_SIZE t lease_table) in
  match r with
  | Err f => fault f
  | Ok _ =>
      if decide (us_length lease_table = 0%Z) then sfail (Recoverable MissingLease Same) else
      let* mem := memory in
      sret (lease_at mem (us_base lease_table) 0)
  end.

Definition hibernated_span (addr len : Z) : sys unit :=
  let* regions := regions_of in
  if existsb (λ r, hib_active r && contains_span r addr len) regions then sret tt
  else sfail (Recoverable NotHibernated Same).

Definition read_hibernated_region (caller : nat) (message : USlice) : sys NextTask :=
  let* _ := require_supervisor caller in
  let* al := deserialize_message de_u32_u32 caller message in
  let '(addr, len) := al in
  let* _ := hibernated_span addr len in
  let* lease := first_lease caller in
  if negb (attrs_contain (ul_attributes lease) LEASE_WRITE) then sfail (Recoverable LeaseNotUsable Same) else
  let lease_slice := uslice_of_lease lease in
  let* r := check_access caller (λ regions t, try_write regions 1 t lease_slice) in
  match r with
  | Err f => fault f
  | Ok _ =>
      let copy_len := Z.min len (us_length lease_slice) in
      let* mem := memory in
      let* _ := put_memory (write_mem mem (us_base lease_slice) (read_mem mem addr (Z.to_nat copy_len))) in
      respond caller copy_len
  end.

Definition write_hibernated_region (caller : nat) (message : USlice) : sys NextTask :=
  let* _ := require_supervisor caller in
  let* al := deserialize_message de_u32_u32 caller message in
  let '(addr, len) := al in
  let* _ := hibernated_span addr len in
  let* lease := first_lease caller in
  if negb (attrs_contain (ul_attributes lease) LEASE_READ) then sfail (Recoverable LeaseNotUsable Same) else
  let lease_slice := uslice_of_lease lease in
  let* r := check_access caller (λ regions t, try_read regions 1 t lease_slice) in
  match r with
  | Err f => fault f
  | Ok _ =>
      let copy_len := Z.min len (us_length lease_slice) in
      let* mem := memory in
      let* _ := put_memory (write_mem mem addr (read_mem mem (us_base lease_slice) (Z.to_nat copy_len))) in
      respond caller copy_len
  end.

(** * Suspension of tasks *)

Definition suspend_task (caller : nat) (message : USlice) : sys NextTask :=
  let* _ := require_supervisor caller in
  let* index := deserialize_message de_u32 caller message in
  let index := Z.to_nat index in
  let* tasks := tasks_of in
  if decide (index = 0) then fault (SyscallUsage IllegalTask) else
  if decide (length tasks ≤ index) then fault (SyscallUsage TaskOutOfRange) else
  let* _ := update_task index (λ t, Ret (request_debug t)) in
  respond caller 0.

(** [disable_debug] on a task of the table: did it fault? *)
Definition disable_debug_at (index : nat) : sys bool :=
  let* regions := regions_of in
  let* mem := memory in
  let* t := task_at index in
  let* r := lift (disable_debug regions mem t) in
  let* _ := update_task index (λ _, Ret (snd (fst r))) in
  let* _ := put_memory (snd r) in
  sret (fst (fst r)).

Definition restore_task (caller : nat) (message : USlice) : sys NextTask :=
  let* _ := require_supervisor caller in
  let* index := deserialize_message de_u32 caller message in
  let index := Z.to_nat index in
  let* tasks := tasks_of in
  if decide (length tasks ≤ index) then fault (SyscallUsage TaskOutOfRange) else
  let* faulted := disable_debug_at index in
  let* _ := notify_supervisor faulted in
  let* _ := reconcile_ipc in
  respond caller 0.

(** * Control of tasks *)

Definition read_task_status (caller : nat) (message response : USlice) : sys NextTask :=
  let* index := deserialize_message de_u32 caller message in
  let* tasks := tasks_of in
  if decide (length tasks ≤ Z.to_nat index) then fault (SyscallUsage TaskOutOfRange) else
  let* t := task_at (Z.to_nat index) in
  let* len := serialize_response ser_state size_of_state caller response (t_state t) in
  respond caller len.

(** The peer a blocked, unfaulted task waits for. *)
Definition waits_for (s : TaskState) : option TaskId :=
  match s with
  | Healthy (InRecv (Some peer)) | Healthy (InSend peer) | Healthy (InReply peer) => Some peer
  | Suspended (InRecv (Some peer)) None _ _ | Suspended (InSend peer) None _ _ | Suspended (InReply peer) None _ _ =>
      Some peer
  | _ => None
  end.

(** Whoever waits for the restarted task gets a dead code. *)
Definition unblock (old_id : TaskId) (new_gen : Z) (i : nat) : sys unit :=
  let* t := task_at i in
  if decide (waits_for (t_state t) = Some old_id) then
    let* _ := update_save i (λ s, set_error_response s (dead_response_code new_gen)) in
    set_healthy i Runnable
  else sret tt.

Definition reinitialize_at (index : nat) : sys unit :=
  let* regions := regions_of in
  let* mem := memory in
  let* t := task_at index in
  let* tm := lift (reinitialize regions mem t) in
  let* _ := update_task index (λ _, Ret (fst tm)) in
  put_memory (snd tm).

Definition reinit_task (caller : nat) (message : USlice) : sys NextTask :=
  let* ix := deserialize_message de_u32_bool caller message in
  let '(index, start) := ix in
  let index := Z.to_nat index in
  let* tasks := tasks_of in
  if decide (length tasks ≤ index) then fault (SyscallUsage TaskOutOfRange) else
  let* old_id := id_of index in
  let* t := task_at index in
  if is_suspended t then sfail (Recoverable TaskSuspended Same) else
  let* _ := reinitialize_at index in
  let* _ := if start : bool then set_healthy index Runnable else sret tt in
  let* t := task_at index in
  let new_gen := generation t in
  let* _ := each_index (seq 0 (length tasks)) (λ i,
    if decide (i = caller ∨ i = index) then sret tt else unblock old_id new_gen i) in
  if decide (index = caller) then
    if start : bool then sret Same else sret Other
  else respond caller 0.

Definition fault_task (caller : nat) (message : USlice) : sys NextTask :=
  let* index := deserialize_message de_u32 caller message in
  let index := Z.to_nat index in
  let* tasks := tasks_of in
  if decide (index = 0 ∨ index = caller) then fault (SyscallUsage IllegalTask) else
  if decide (length tasks ≤ index) then fault (SyscallUsage TaskOutOfRange) else
  let* id := id_of caller in
  let* _ := sys_force_fault index (Injected id) in
  respond caller 0.

Definition is_faulted (t : Task) : bool := match t_state t with Faulted _ _ => true | _ => false end.

Fixpoint position {A} (p : A → bool) (l : list A) : option nat :=
  match l with
  | [] => None
  | x :: l => if p x then Some 0 else S <$> position p l
  end.

Definition find_faulted_task (caller : nat) (message response : USlice) : sys NextTask :=
  let* index := deserialize_message de_u32 caller message in
  let index := Z.to_nat index in
  let* tasks := tasks_of in
  if decide (length tasks < index) then fault (SyscallUsage TaskOutOfRange) else
  let* rest := lift (slice tasks index (length tasks)) in
  let i := match position is_faulted rest with Some i => i + index | None => 0 end in
  let* len := serialize_response ser_u32 4 caller response (Z.of_nat i) in
  respond caller len.

Definition TaskNotPanicked : Z := 1.
Definition BadPanicBuffer : Z := 2.
Definition PanicBufferHibernated : Z := 3.

Definition is_panicked (s : TaskState) : bool := match s with Faulted FaultPanic _ => true | _ => false end.

Definition read_panic_message (caller : nat) (message response : USlice) : sys NextTask :=
  let* index := deserialize_message de_u32 caller message in
  let index := Z.to_nat index in
  let* tasks := tasks_of in
  if decide (length tasks ≤ index) then fault (SyscallUsage TaskOutOfRange) else
  let* t := task_at index in
  if negb (is_panicked (t_state t)) then sfail (Recoverable TaskNotPanicked Same) else
  match as_panic_args (t_save t) with
  | Err _ => sfail (Recoverable BadPanicBuffer Same)
  | Ok panic_message =>
      let* r := sys_copy index panic_message caller response in
      match r with
      | Ok len => respond caller len
      | Err interact =>
          match if_dst interact with
          | Some f => fault f
          | None =>
              if is_hibernated_fault (if_src interact) then sfail (Recoverable PanicBufferHibernated Same)
              else sfail (Recoverable BadPanicBuffer Same)
          end
      end
  end.

(** * The chip *)

Context (irq_lookup : Z → Z → option (list Z)) (image_id : Z).

Definition read_image_id (caller : nat) (response : USlice) : sys NextTask :=
  let* len := serialize_response ser_u64 8 caller response image_id in
  respond caller len.

(** The chip restarts: the call does not return, which is what [Panic] says of it
    here. *)
Definition reset (caller : nat) (message : USlice) : sys NextTask := λ _, Panic.

Definition software_irq (caller : nat) (message : USlice) : sys NextTask :=
  let* _ := require_supervisor caller in
  let* mn := deserialize_message de_u32_u32 caller message in
  let '(index, notification) := mn in
  let* tasks := tasks_of in
  if decide (length tasks ≤ Z.to_nat index) then fault (SyscallUsage TaskOutOfRange) else
  let* irqs := lookup_irqs irq_lookup index notification in
  let* nv := nvic in
  let* nv := lift (each_irq pend_software_irq irqs nv) in
  let* _ := put_nvic nv in
  respond caller 0.

(** * The dispatcher *)

Definition handle_kernel_message (caller : nat) : sys NextTask :=
  let* tc := task_at caller in
  let args := as_send_args (t_save tc) in
  let message := of_result (sa_message args) in
  let response := of_result (sa_response args) in
  match sa_operation args with
  | 1%Z => let* m := message in let* r := response in read_task_status caller m r
  | 2%Z => let* m := message in reinit_task caller m
  | 3%Z => let* m := message in fault_task caller m
  | 4%Z => let* r := response in read_image_id caller r
  | 5%Z => let* m := message in reset caller m
  | 8%Z => let* m := message in software_irq caller m
  | 9%Z => let* m := message in let* r := response in find_faulted_task caller m r
  | 10%Z => let* m := message in let* r := response in read_panic_message caller m r
  | 0x81%Z => let* m := message in let* r := response in hibernate_region caller m r
  | 0x82%Z => let* m := message in read_hibernated_region caller m
  | 0x83%Z => let* m := message in write_hibernated_region caller m
  | 0x84%Z => let* m := message in restore_region caller m
  | 0x85%Z => let* m := message in suspend_task caller m
  | 0x86%Z => let* m := message in restore_task caller m
  | _ => fault (SyscallUsage BadKernelMessage)
  end.
End kipc.

(** * Crash dumps

    The kernel's messages for crash dumps, [get_task_dump_region] and
    [read_task_dump_region] of [firmware/hubris/kern/src/kipc.rs], which exist with the
    feature [dump]. The firmware's kernel is built without it, so the dispatcher
    above does not have them.

    Where a task's control block is and what its bytes are is up to the compiler,
    the parameters [tcb_base] and [tcb_bytes]. *)

Class DumpMarshal := {
  de_u32_region : list Z → option (Z * (Z * Z));
  ser_region_opt : option (Z * Z) → list Z → list Z * SerResult;
}.

(** Writable, and not device memory. *)
Definition dumpable (r : RegionDesc) : bool :=
  attrs_contain (rd_attributes r) ATTR_WRITE && negb (attrs_contain (rd_attributes r) ATTR_DEVICE).

Section dump.
Context `{Marshal} `{DumpMarshal} (tcb_base : nat → Z) (tcb_bytes : Task → list Z) (size_of_task : Z) (size_of_region_opt : Z).

(** A task's control block is its dump region 0, its memory the others. *)
Definition get_task_dump_region (caller : nat) (message response : USlice) : sys NextTask :=
  let* ir := deserialize_message de_u32_u32 caller message in
  let '(index, rindex) := ir in
  let* tasks := tasks_of in
  if decide (length tasks ≤ Z.to_nat index) then fault (SyscallUsage TaskOutOfRange) else
  let* t := task_at (Z.to_nat index) in
  let rval :=
    if decide (rindex = 0%Z) then Some (tcb_base (Z.to_nat index), size_of_task)
    else (λ r, (rd_base r, rd_size r)) <$> (List.filter dumpable (region_table t) !! (Z.to_nat rindex - 1)) in
  let* len := serialize_response ser_region_opt size_of_region_opt caller response rval in
  respond caller len.

(** The part of the block [tcb] at [base] that is asked for; [None] if [from] is not
    inside the block. *)
Definition tcb_part (tcb : list Z) (base : Z) (from : USlice) : exec (option (list Z)) :=
  let tcb_end := wrap 32 (base + Z.of_nat (length tcb)) in
  if decide (base <= us_base from ∧ uslice_end 1 from <= tcb_end)%Z then
    let offset := Z.to_nat (us_base from - base) in
    let! part := slice tcb offset (Z.to_nat (us_length from)) in
    Ret (Some part)
  else Ret None.

Definition read_task_dump_region (caller : nat) (message response : USlice) : sys NextTask :=
  let* _ := require_supervisor caller in
  let* ir := deserialize_message de_u32_region caller message in
  let '(index, (base, size)) := ir in
  let index := Z.to_nat index in
  let* tasks := tasks_of in
  if decide (index = caller ∨ length tasks ≤ index) then fault (SyscallUsage TaskOutOfRange) else
  let* ct := lift (index2_distinct tasks caller index) in
  let* from := of_result (uslice_from_raw 1 1 base size) in
  let* part := lift (tcb_part (tcb_bytes (snd ct)) (tcb_base index) from) in
  match part with
  | Some tcb =>
      let* r := check_access caller (λ regions t, try_write regions 1 t response) in
      match r with
      | Err f => fault f
      | Ok _ =>
          let copy_len := Nat.min (Z.to_nat (us_length response)) (length tcb) in
          let* mem := memory in
          let* _ := put_memory (write_mem mem (us_base response) (take copy_len tcb)) in
          respond caller (Z.of_nat copy_len)
      end
  | None => λ k,
      let! cm := safe_copy_dma (k_regions k) (k_mem k) (k_tasks k) index from caller response in
      match fst cm with
      | Err interact => apply_to_src interact caller (with_mem k (snd cm))
      | Ok len => respond caller len (with_mem k (snd cm))
      end
  end.
End dump.

(** A part that is inside the block is taken from its start to its length, not to
    its end: the kernel panics if it starts behind its own length, and otherwise the
    part is cut short by its offset. *)
Lemma tcb_part_spec tcb base from : (0 <= base)%Z → (base + Z.of_nat (length tcb) < 2 ^ 32)%Z → uslice_ok from →
  (base <= us_base from)%Z → (us_base from + us_length from <= base + Z.of_nat (length tcb))%Z →
  let offset := (us_base from - base)%Z in
  ((us_length from < offset)%Z → tcb_part tcb base from = Panic) ∧
  ((offset <= us_length from)%Z →
    tcb_part tcb base from = Ret (Some (take (Z.to_nat (us_length from - offset)) (drop (Z.to_nat offset) tcb)))).
Proof.
  intros Hb Hend Hok Hlo Hhi offset. unfold tcb_part. rewrite (uslice_end_ok from Hok).
  rewrite wrap_small by (unfold is_u; lia). rewrite decide_True by lia. fold offset. unfold uslice_ok in Hok. subst offset.
  split; intros Hlt.
  - unfold slice. rewrite decide_False by lia. done.
  - rewrite slice_ok by lia. cbn. do 3 f_equal. lia.
Qed.
