(* ===== verification/KernEntry.v ===== *)
(** The other ways into the kernel, [firmware/hubris/kern/src/arch/arm_m.rs]: the
    processor's faults, the timer's tick and the interrupts of devices. *)

From S2P Require Import Prelude KernAccess KernState KernMem KernIrq KernTask KernSyscalls.

(** * Faults *)

Inductive FaultType := MemoryManagement | BusFault | UsageFault.

(** Bits of the fault status register [Cfsr]; the kernel drops the others. *)
Definition IACCVIOL : Z := Z.shiftl 1 0.
Definition MSTKERR : Z := Z.shiftl 1 4.
Definition MMARVALID : Z := Z.shiftl 1 7.
Definition BFARVALID : Z := Z.shiftl 1 (8 + 7).
Definition UNDEFINSTR : Z := Z.shiftl 1 (16 + 0).
Definition DIVBYZERO : Z := Z.shiftl 1 (16 + 9).

(** All bits of [Cfsr] on ARMv8-M. *)
Definition CFSR_BITS : Z := 0x031FBFBB.

(** The fault status registers: [cfsr], [mmfar] and [bfar]. *)
Record Scb := mkScb { scb_cfsr : Z; scb_mmfar : Z; scb_bfar : Z }.

(** What the processor's fault was. *)
Definition diagnose (fault_type : FaultType) (scb : Scb) (psp : Z) : FaultInfo :=
  let cfsr := Z.land (scb_cfsr scb) CFSR_BITS in
  match fault_type with
  | MemoryManagement =>
      if attrs_contain cfsr MSTKERR then StackOverflow psp
      else if attrs_contain cfsr IACCVIOL then IllegalText
      else MemoryAccess (if attrs_contain cfsr MMARVALID then Some (scb_mmfar scb) else None) SourceUser
  | BusFault => BusError (if attrs_contain cfsr BFARVALID then Some (scb_bfar scb) else None) SourceUser
  | UsageFault =>
      if attrs_contain cfsr DIVBYZERO then DivideByZero
      else if attrs_contain cfsr UNDEFINSTR then IllegalInstruction
      else InvalidOperation cfsr
  end.

(** The bit of [exc_return] that says the processor was running a task. *)
Definition from_thread_mode (s : SavedState) : bool := bool_decide (Z.land (exc_return s) 8 ≠ 0%Z).

(** * The machine

    The current task is a pointer into the task table, here the place in it, which
    is also the index in the task's descriptor. The protection unit holds the
    regions of the task it was last loaded for. The time is two words, the lower
    one first. *)

Record Machine := mkMachine {
  m_kernel : Kernel;
  m_current : nat;
  m_mpu : list RegionDesc;
  m_ticks : Z * Z;
}.

Definition now (m : Machine) : Z := Z.lor (Z.shiftl (snd (m_ticks m)) 32) (fst (m_ticks m)).

Definition with_kernel (m : Machine) (k : Kernel) : Machine := mkMachine k (m_current m) (m_mpu m) (m_ticks m).

(** [apply_memory_protection] and [set_current_task]; [i] is the task's place. *)
Definition switch_to (m : Machine) (i : nat) (t : Task) : Machine :=
  mkMachine (m_kernel m) i (region_table t) (m_ticks m).

(** [task::select], with the place of the task. *)
Definition select_at (previous : nat) (tasks : list Task) : exec (nat * Task) :=
  let! r := priority_scan previous tasks is_runnable in
  match r with Some c => Ret c | None => Panic end.

Definition switch_other (m : Machine) (previous : nat) : exec Machine :=
  let! c := select_at previous (k_tasks (m_kernel m)) in
  Ret (switch_to m (fst c) (snd c)).

(** To the task a call or a fault of the current one names. *)
Definition switch_next (m : Machine) (nt : NextTask) : exec Machine :=
  match nt with
  | Same => Ret m
  | Specific i => let! t := idx (k_tasks (m_kernel m)) i in Ret (switch_to m i t)
  | Other => switch_other m (m_current m)
  end.

Section entries.
Context (handle_kernel_message : nat → sys NextTask) (irq_lookup : Z → Z → option (list Z)).

Definition syscall_entry (nr : Z) (m : Machine) : exec Machine :=
  let! r := safe_syscall_entry handle_kernel_message irq_lookup (now m) nr (m_current m) (m_kernel m) in
  switch_next (with_kernel m (snd r)) (fst r).

(** A fault of the kernel's own stops it; a fault of a task is recorded and another
    task run, or, should the hint name the faulted task, the kernel stops too. *)
Definition handle_fault (fault_type : FaultType) (scb : Scb) (m : Machine) : exec Machine :=
  let! t := idx (k_tasks (m_kernel m)) (m_current m) in
  if negb (from_thread_mode (t_save t)) then Panic else
  let fault := diagnose fault_type scb (psp (t_save t)) in
  let! r := force_fault (k_tasks (m_kernel m)) (m_current m) fault in
  let m1 := with_kernel m (with_tasks (m_kernel m) (snd r)) in
  let! m2 := switch_next m1 (fst r) in
  if decide (m_current m2 = m_current m) then Panic else Ret m2.

(** One more tick: the time, and the timers that have come due. The flag says that
    a switch is pended. *)
Definition tick (ticks : Z * Z) : exec (Z * Z) :=
  if decide (fst ticks + 1 < 2 ^ 32)%Z then Ret ((fst ticks + 1)%Z, snd ticks)
  else if decide (snd ticks + 1 < 2 ^ 32)%Z then Ret (0%Z, (snd ticks + 1)%Z)
  else Panic.

Definition SysTick (m : Machine) : exec (bool * Machine) :=
  let! ticks := tick (m_ticks m) in
  let m := mkMachine (m_kernel m) (m_current m) (m_mpu m) ticks in
  let! r := process_timers (k_tasks (m_kernel m)) (now m) in
  Ret (match fst r with Same => false | _ => true end, with_kernel m (with_tasks (m_kernel m) (snd r))).

(** The owner of an interrupt, task and notification bits, is in a table the build
    generates. *)
Context (irq_owner : Z → option (nat * Z)).

Definition DefaultHandler (exception_num : Z) (m : Machine) : exec (bool * Machine) :=
  if decide (16 <= exception_num)%Z then
    let irq_num := (exception_num - 16)%Z in
    match irq_owner irq_num with
    | None => Panic
    | Some (task, notification) =>
        let k := m_kernel m in
        let nv := match disable_irq (k_nvic k) irq_num false with Ok nv => nv | Err _ => k_nvic k end in
        let! t := idx (k_tasks k) task in
        let! wt := post t notification in
        let! tasks := set_idx (k_tasks k) task (snd wt) in
        Ret (fst wt, with_kernel m (with_nvic (with_tasks k tasks) nv))
    end
  else Panic.

(** The switch that the last two pend. *)
Definition pendsv_entry (m : Machine) : exec Machine := switch_other m (m_current m).

End entries.

(** * Boot *)

(** The task table [start_kernel] builds: a task per descriptor, with its initial
    frame on its stack. *)
Fixpoint start_tasks (regions : list HibernationRegionDesc) (mem : Z → Z) (descs : list TaskDesc)
  : exec (list Task * (Z → Z)) :=
  match descs with
  | [] => Ret ([], mem)
  | d :: descs =>
      let t := from_descriptor d in
      let! sm := arch_reinitialize regions mem t in
      let! rest := start_tasks regions (snd sm) descs in
      Ret (set_saved t (fst sm) :: fst rest, snd rest)
  end.

Definition start_kernel (regions : list HibernationRegionDesc) (mem : Z → Z) (nv : Nvic) (descs : list TaskDesc)
  : exec Machine :=
  let! tm := start_tasks regions mem descs in
  let k := mkKernel (fst tm) regions (snd tm) nv in
  let! last := usub (length (fst tm)) 1 in
  switch_other (mkMachine k 0 [] (0%Z, 0%Z)) last.
