(* ===== verification/KernInv.v ===== *)
(** The invariant of the kernel's state, a weakest-precondition calculus for
    system calls, and the specifications of the primitives they are made of. *)

From S2P Require Import Prelude KernAccess KernState KernMem KernIrq KernTask KernSyscalls KernKipc.

(** * The invariant of a task *)

(** What keeps the task suspended: hibernated regions and a debugger's request. *)
Definition hold (t : Task) : option (Z * bool) :=
  match t_state t with Suspended _ _ bits dbg => Some (bits, dbg) | _ => None end.

Definition in_suspended_reply (s : SchedState) : bool :=
  match s with InSuspendedReply _ => true | _ => false end.

(** A reply is buffered exactly while a suspended, unfaulted task waits for it. *)
Definition buffer_ok (t : Task) : Prop :=
  match t_state t with
  | Healthy s => t_suspension_buffer t = None ∧ in_suspended_reply s = false
  | Faulted _ _ => t_suspension_buffer t = None
  | Suspended s None _ _ => is_Some (t_suspension_buffer t) ↔ in_suspended_reply s = true
  | Suspended _ (Some _) _ _ => True
  end.

Definition touches (h : HibernationRegionDesc) (t : Task) : bool := existsb (overlaps h) (region_table t).

(** The task is held by exactly the active hibernation regions that overlap its
    memory. *)
Definition held (regions : list HibernationRegionDesc) (t : Task) : Prop :=
  ∀ i, hibernated_for t i = true ↔
    ∃ h, regions !! i = Some h ∧ hib_active h = true ∧ touches h t = true.

(** A suspended task has a reason to be. *)
Definition reason_ok (t : Task) : Prop :=
  match hold t with Some (bits, dbg) => bits ≠ 0%Z ∨ dbg = true | None => True end.

(** The task's stack can take its initial frame, as it did when the task was
    started. *)
Definition boots (d : TaskDesc) : Prop :=
  ∃ r, arch_reinitialize [] (λ _, 0%Z) (set_state (from_descriptor d) default_state) = Ret r.

Definition task_inv (regions : list HibernationRegionDesc) (t : Task) : Prop :=
  task_ok t ∧ buffer_ok t ∧ held regions t ∧ reason_ok t ∧ boots (t_descriptor t).

(** * The invariant of the kernel *)

Definition hib_wf (h : HibernationRegionDesc) : Prop :=
  hib_ok h ∧ is_u 32 (hib_next_generation h) ∧ (hib_active h = true → (1 <= hib_next_generation h)%Z).

Definition tasks_inv (regions : list HibernationRegionDesc) (tasks : list Task) : Prop :=
  Forall (task_inv regions) tasks ∧ ∃ t0, tasks !! 0 = Some t0 ∧ is_suspended t0 = false.

Definition kinv (k : Kernel) : Prop :=
  length (k_regions k) ≤ 32 ∧ Forall hib_wf (k_regions k) ∧ tasks_inv (k_regions k) (k_tasks k).

Lemma hibernated_for_hold t i :
  hibernated_for t i = match hold t with Some (bits, _) => Z.testbit bits (Z.of_nat i) | None => false end.
Proof. unfold hibernated_for, hold. by destruct (t_state t). Qed.

Lemma state_ok_hold t : state_ok (t_state t) ↔ match hold t with Some (bits, _) => is_u 32 bits | None => True end.
Proof. unfold hold, state_ok. by destruct (t_state t). Qed.

Lemma is_suspended_hold t : is_suspended t = match hold t with Some _ => true | None => false end.
Proof. unfold hold, is_suspended. by destruct (t_state t). Qed.

(** A task that is held as before keeps its invariant. *)
Lemma task_inv_same regions t t' : task_inv regions t →
  t_descriptor t' = t_descriptor t → hold t' = hold t → buffer_ok t' → task_inv regions t'.
Proof.
  intros ([Hr Hs] & _ & Hh & Hre & Hb) Hd Ho Hb'. unfold task_inv, task_ok, region_table.
  split; [split|split; [|split; [|split]]]; try done.
  - by rewrite Hd.
  - rewrite state_ok_hold, Ho. by apply state_ok_hold.
  - intros i. rewrite hibernated_for_hold, Ho, <- hibernated_for_hold. unfold touches, region_table. rewrite Hd. apply Hh.
  - unfold reason_ok. by rewrite Ho.
  - by rewrite Hd.
Qed.

(** * How the state of a bystander evolves *)

(** A notification may have ended its receive. *)
Inductive evolves : TaskState → TaskState → Prop :=
  | evolves_refl s : evolves s s
  | evolves_healthy x : evolves (Healthy (InRecv x)) (Healthy Runnable)
  | evolves_suspended x bits dbg : evolves (Suspended (InRecv x) None bits dbg) (Suspended Runnable None bits dbg).

Lemma evolves_trans s1 s2 s3 : evolves s1 s2 → evolves s2 s3 → evolves s1 s3.
Proof. intros [] H; inversion H; subst; constructor. Qed.

Definition healthy (s : TaskState) : Prop := ∃ x, s = Healthy x.

Lemma evolves_healthy_inv s s' : evolves s s' → healthy s → healthy s'.
Proof. intros [s0|y|y b d] [x E]; [by exists x|by eexists|done]. Qed.

Lemma evolves_sending s s' id : evolves s s' → is_sending_to s' id = true → is_sending_to s id = true.
Proof. by intros []. Qed.

(** All tasks but those of [T] are bystanders. *)
Definition bystanders (T : list nat) (tasks tasks' : list Task) : Prop :=
  length tasks' = length tasks ∧
  ∀ i t, i ∉ T → tasks !! i = Some t → ∃ t', tasks' !! i = Some t' ∧ evolves (t_state t) (t_state t').

Definition frame (T : list nat) (k k' : Kernel) : Prop :=
  k_regions k' = k_regions k ∧ bystanders T (k_tasks k) (k_tasks k').

Lemma frame_refl T k : frame T k k.
Proof. split; [done|]. split; [done|]. intros i t _ Hi. exists t. split; [done|constructor]. Qed.

Lemma frame_trans T1 T2 k1 k2 k3 : frame T1 k1 k2 → frame T2 k2 k3 → frame (T1 ++ T2) k1 k3.
Proof.
  intros (Hr1 & Hl1 & H1) (Hr2 & Hl2 & H2). split; [congruence|]. split; [congruence|]. intros i t Hi Ht.
  rewrite elem_of_app in Hi. destruct (H1 i t ltac:(tauto) Ht) as (t2 & Ht2 & E1).
  destruct (H2 i t2 ltac:(tauto) Ht2) as (t3 & Ht3 & E2). exists t3. split; [done|]. by eapply evolves_trans.
Qed.

Lemma frame_weaken T T' k k' : (∀ i, i ∈ T → i ∈ T') → frame T k k' → frame T' k k'.
Proof. intros Hs (Hr & Hl & H). split; [done|]. split; [done|]. intros i t Hi. apply H. auto. Qed.

Lemma frame_healthy T k k' i t : frame T k k' → i ∉ T → k_tasks k !! i = Some t → healthy (t_state t) →
  ∃ t', k_tasks k' !! i = Some t' ∧ healthy (t_state t').
Proof.
  intros (_ & _ & H) Hi Ht Hh. destruct (H i t Hi Ht) as (t' & Ht' & He). exists t'. split; [done|].
  by eapply evolves_healthy_inv.
Qed.

(** * Weakest preconditions

    The call does not panic, it neither adds nor removes tasks, what it returns
    satisfies [Q], and it keeps the invariant when it fails. *)

Definition wp {A} (m : sys A) (Q : A → Kernel → Prop) (k : Kernel) : Prop :=
  ∃ r k', m k = Ret (r, k') ∧ length (k_tasks k') = length (k_tasks k) ∧
    match r with Ok a => Q a k' | Err _ => kinv k' end.

Section rules.
Context {A B : Type}.
Implicit Types (Q : A → Kernel → Prop).

Lemma wp_ret Q a k : Q a k → wp (sret a) Q k.
Proof. intros H. by exists (Ok a), k. Qed.

Lemma wp_fail Q e k : kinv k → wp (sfail e) Q k.
Proof. intros H. by exists (Err e), k. Qed.

Lemma wp_bind (m : sys A) (f : A → sys B) (Q : B → Kernel → Prop) k :
  wp m (λ a k, wp (f a) Q k) k → wp (sbind m f) Q k.
Proof.
  intros (r & k1 & E & Hl & H). unfold wp, sbind. rewrite E. cbn [ebind fst snd].
  destruct r as [a|e]; [|by exists (Err e), k1]. destruct H as (r & k2 & E2 & Hl2 & H).
  exists r, k2. split; [done|]. split; [congruence|done].
Qed.

Lemma wp_bind_inv (m : sys A) (f : A → sys B) (Q : B → Kernel → Prop) k :
  (∀ r k', m k = Ret (r, k') → length (k_tasks k') = length (k_tasks k)) →
  wp (sbind m f) Q k → wp m (λ a k, wp (f a) Q k) k.
Proof.
  intros Hlen (r & k' & E & Hl & H). unfold sbind in E. apply ebind_inv in E as ([r1 k1] & E1 & E). cbn in E.
  pose proof (Hlen _ _ E1) as Hl1. exists r1, k1. split; [done|]. split; [done|].
  destruct r1 as [a|e]; [|injection E as <- <-; done]. exists r, k'. split; [done|]. split; [congruence|done].
Qed.

Lemma wp_mono (m : sys A) (Q Q' : A → Kernel → Prop) k :
  wp m Q k → (∀ a k', Q a k' → Q' a k') → wp m Q' k.
Proof. intros (r & k' & E & Hl & H) HQ. exists r, k'. split; [done|]. split; [done|]. destruct r; auto. Qed.

Lemma wp_lift Q (m : exec A) a k : m = Ret a → Q a k → wp (lift m) Q k.
Proof. intros -> H. by exists (Ok a), k. Qed.
End rules.

Lemma wp_tasks_of Q k : Q (k_tasks k) k → wp tasks_of Q k.
Proof. intros H. by exists (Ok (k_tasks k)), k. Qed.

Lemma wp_regions_of Q k : Q (k_regions k) k → wp regions_of Q k.
Proof. intros H. by exists (Ok (k_regions k)), k. Qed.

Lemma wp_memory Q k : Q (k_mem k) k → wp memory Q k.
Proof. intros H. by exists (Ok (k_mem k)), k. Qed.

Lemma wp_put_tasks (Q : unit → Kernel → Prop) tasks k :
  length tasks = length (k_tasks k) → Q tt (with_tasks k tasks) → wp (put_tasks tasks) Q k.
Proof. intros Hl H. by exists (Ok tt), (with_tasks k tasks). Qed.

Lemma wp_put_memory (Q : unit → Kernel → Prop) mem k :
  Q tt (with_mem k mem) → wp (put_memory mem) Q k.
Proof. intros H. by exists (Ok tt), (with_mem k mem). Qed.

Lemma wp_put_regions (Q : unit → Kernel → Prop) regions k :
  Q tt (with_regions k regions) → wp (put_regions regions) Q k.
Proof. intros H. by exists (Ok tt), (with_regions k regions). Qed.

Lemma wp_task_at (Q : Task → Kernel → Prop) i t k : k_tasks k !! i = Some t → Q t k → wp (task_at i) Q k.
Proof. intros Ht H. apply wp_bind, wp_tasks_of. eapply wp_lift; [by apply idx_ok|done]. Qed.

Lemma wp_fault {A} (Q : A → Kernel → Prop) f k : kinv k → wp (fault f) Q k.
Proof. apply wp_fail. Qed.

Lemma wp_of_result {A} (Q : A → Kernel → Prop) r k : kinv k → (∀ a, r = Ok a → Q a k) → wp (of_result r) Q k.
Proof. intros Hk H. destruct r as [a|e]; [apply wp_ret; auto|by apply wp_fail]. Qed.

(** * Updates of one task *)

Lemma kinv_task k i t : kinv k → k_tasks k !! i = Some t → task_inv (k_regions k) t.
Proof. intros (_ & _ & Hall & _) Ht. exact (Forall_lookup_1 _ _ _ _ Hall Ht). Qed.

Lemma kinv_lookup k i : i < length (k_tasks k) → ∃ t, k_tasks k !! i = Some t.
Proof. intros Hi. by apply lookup_lt_is_Some_2. Qed.

Lemma kinv_insert k i t t' : kinv k → k_tasks k !! i = Some t →
  task_inv (k_regions k) t' → (i = 0 → is_suspended t' = false) →
  kinv (with_tasks k (<[i := t']> (k_tasks k))).
Proof.
  intros (Hl & Hr & Hall & t0 & Ht0 & Hs) Ht Ht' H0. split; [done|]. split; [done|]. split; cbn.
  - by apply Forall_insert.
  - destruct (decide (i = 0)) as [->|]; [|by exists t0; rewrite list_lookup_insert_ne].
    exists t'. split; [|auto]. apply list_lookup_insert_eq. by eapply lookup_lt_Some.
Qed.

Lemma frame_insert k i t t' : k_tasks k !! i = Some t →
  frame [i] k (with_tasks k (<[i := t']> (k_tasks k))) ∧
  (evolves (t_state t) (t_state t') → frame [] k (with_tasks k (<[i := t']> (k_tasks k)))).
Proof.
  intros Ht. assert (i < length (k_tasks k)) as Hi by (by eapply lookup_lt_Some). split; [|intros He].
  - split; [done|]. split; [cbn; len|]. intros j u Hj Hu. exists u. cbn.
    rewrite list_lookup_insert_ne by (intros ->; apply Hj, elem_of_cons; by left). split; [done|constructor].
  - split; [done|]. split; [cbn; len|]. intros j u _ Hu. cbn. destruct (decide (i = j)) as [<-|].
    + exists t'. rewrite list_lookup_insert_eq by done. split; [done|]. congruence.
    + exists u. rewrite list_lookup_insert_ne by done. split; [done|constructor].
Qed.

Lemma wp_update_task i f t t' (Q : unit → Kernel → Prop) k :
  k_tasks k !! i = Some t → f t = Ret t' → Q tt (with_tasks k (<[i := t']> (k_tasks k))) →
  wp (update_task i f) Q k.
Proof.
  intros Ht Hf HQ. apply wp_bind, wp_tasks_of, wp_bind. eapply wp_lift; [by apply idx_ok|].
  apply wp_bind. eapply wp_lift; [done|]. apply wp_bind.
  eapply wp_lift; [apply set_idx_ok; by eapply lookup_lt_Some|]. apply wp_put_tasks; [len|done].
Qed.

(** The task stays held as it was. *)
Lemma wp_update_same i f t t' (Q : unit → Kernel → Prop) k :
  kinv k → k_tasks k !! i = Some t → f t = Ret t' →
  t_descriptor t' = t_descriptor t → hold t' = hold t → buffer_ok t' →
  (∀ k', kinv k' → frame [i] k k' → (evolves (t_state t) (t_state t') → frame [] k k') →
    k_tasks k' !! i = Some t' → Q tt k') →
  wp (update_task i f) Q k.
Proof.
  intros Hk Ht Hf Hd Ho Hb HQ. eapply wp_update_task; [done..|].
  assert (i < length (k_tasks k)) as Hi by (by eapply lookup_lt_Some).
  destruct (frame_insert k i t t' Ht) as [Hfr Hfr']. apply HQ; [|done|done|cbn; by apply list_lookup_insert_eq].
  apply (kinv_insert k i t); try done; [eapply task_inv_same; [by eapply kinv_task|done..]|].
  intros ->. destruct Hk as (_ & _ & _ & t0 & Ht0 & Hs). rewrite Ht0 in Ht. injection Ht as ->.
  by rewrite is_suspended_hold, Ho, <- is_suspended_hold.
Qed.

Lemma wp_update_save i f (Q : unit → Kernel → Prop) k :
  kinv k → i < length (k_tasks k) → (∀ k', kinv k' → frame [] k k' → Q tt k') → wp (update_save i f) Q k.
Proof.
  intros Hk Hi HQ. destruct (kinv_lookup k i Hi) as [t Ht].
  eapply wp_update_same; [done|exact Ht|done|done|done| |].
  - pose proof (kinv_task k i t Hk Ht) as (_ & Hb & _). exact Hb.
  - intros k' Hk' _ Hfr _. apply HQ; [done|]. apply Hfr. constructor.
Qed.

(** [set_healthy_state] does not panic on a task that is not faulted. *)
Definition with_sched (s : TaskState) (x : SchedState) : TaskState :=
  match s with
  | Healthy _ => Healthy x
  | Suspended _ None bits dbg => Suspended x None bits dbg
  | s => s
  end.

Definition live (s : TaskState) : Prop :=
  match s with Healthy _ | Suspended _ None _ _ => True | _ => False end.

Lemma set_healthy_ok t s : live (t_state t) → set_healthy_state t s = Ret (set_state t (with_sched (t_state t) s)).
Proof. unfold set_healthy_state. destruct (t_state t) as [| |? [] ? ?]; done. Qed.

Lemma wp_set_healthy i s t (Q : unit → Kernel → Prop) k :
  kinv k → k_tasks k !! i = Some t → live (t_state t) →
  buffer_ok (set_state t (with_sched (t_state t) s)) →
  (∀ k' t', kinv k' → frame [i] k k' → k_tasks k' !! i = Some t' → t_state t' = with_sched (t_state t) s → Q tt k') →
  wp (set_healthy i s) Q k.
Proof.
  intros Hk Ht Hlive Hb HQ. eapply wp_update_same; [done|exact Ht|by apply set_healthy_ok|done| |done|].
  - unfold hold. cbn. destruct (t_state t) as [| |? [] ? ?]; done.
  - intros k' Hk' Hfr _ Ht'. by eapply HQ.
Qed.

(** In particular a healthy task. *)
Lemma wp_set_healthy_healthy i s t (Q : unit → Kernel → Prop) k :
  kinv k → k_tasks k !! i = Some t → healthy (t_state t) → in_suspended_reply s = false →
  (∀ k' t', kinv k' → frame [i] k k' → k_tasks k' !! i = Some t' → t_state t' = Healthy s → Q tt k') →
  wp (set_healthy i s) Q k.
Proof.
  intros Hk Ht [x Hx] Hs HQ. pose proof (kinv_task k i t Hk Ht) as (_ & Hb & _). unfold buffer_ok in Hb. rewrite Hx in Hb.
  eapply wp_set_healthy; [done|exact Ht|by rewrite Hx| |].
  - unfold buffer_ok. cbn. rewrite Hx. cbn. split; [apply Hb|done].
  - intros k' t' Hk' Hfr Ht' E. rewrite Hx in E. by eapply HQ.
Qed.

(** * Notifications and faults *)

Lemma post_spec t n : buffer_ok t →
  ∃ b t', post t n = Ret (b, t') ∧ t_descriptor t' = t_descriptor t ∧ hold t' = hold t ∧ buffer_ok t' ∧
    evolves (t_state t) (t_state t').
Proof.
  intros Hb. unfold post, take_notifications. cbn [set_notifications t_notifications t_state t_save].
  destruct (can_accept_notification (t_state t)) eqn:Ea.
  2:{ eexists _, _. split; [done|]. split; [done|]. split; [done|]. split; [done|constructor]. }
  case_decide.
  2:{ eexists _, _. split; [done|]. split; [done|]. split; [done|]. split; [done|constructor]. }
  unfold set_healthy_state, hold, buffer_ok in *. cbn.
  destruct (t_state t) as [[]| |[] [] ? ?]; try done; cbn in *; eexists _, _; (split; [done|]); cbn;
    (split; [done|]); (split; [done|]); (split; [tauto|constructor]).
Qed.

(** A task of the table is notified. *)
Lemma post_table regions tasks i n t : tasks_inv regions tasks → tasks !! i = Some t →
  ∃ b t', post t n = Ret (b, t') ∧ tasks_inv regions (<[i := t']> tasks) ∧ evolves (t_state t) (t_state t').
Proof.
  intros [Hall (t0 & Ht0 & Hs0)] Ht. pose proof (Forall_lookup_1 _ _ _ _ Hall Ht) as Hti.
  destruct (post_spec t n) as (b & t' & E & Hd & Ho & Hb & He); [apply Hti|].
  exists b, t'. split; [done|]. split; [|done]. split.
  - apply Forall_insert; [done|]. by eapply task_inv_same.
  - destruct (decide (i = 0)) as [->|]; [|by exists t0; rewrite list_lookup_insert_ne].
    exists t'. split; [apply list_lookup_insert_eq; by eapply lookup_lt_Some|].
    rewrite Ht0 in Ht. injection Ht as ->. by rewrite is_suspended_hold, Ho, <- is_suspended_hold.
Qed.

Lemma wp_post_to i n (Q : bool → Kernel → Prop) k : kinv k → i < length (k_tasks k) →
  (∀ b k', kinv k' → frame [] k k' → Q b k') → wp (post_to i n) Q k.
Proof.
  intros Hk Hi HQ. destruct (kinv_lookup k i Hi) as [t Ht].
  destruct (post_table (k_regions k) (k_tasks k) i n t) as (b & t' & E & Hinv & He); [apply Hk|done|].
  apply wp_bind, wp_tasks_of, wp_bind. eapply wp_lift; [by apply idx_ok|].
  apply wp_bind. eapply wp_lift; [exact E|]. cbn [fst snd]. apply wp_bind. eapply wp_lift; [by apply set_idx_ok|].
  apply wp_bind, wp_put_tasks; [len|]. apply wp_ret, HQ.
  - destruct Hk as (Hl & Hr & _). by split; [|split].
  - by apply (proj2 (frame_insert k i t t' Ht)).
Qed.

Lemma fault_state_not_sending s f id : is_sending_to (fault_state s f) id = false.
Proof. by destruct s. Qed.

Lemma force_fault_task t f : buffer_ok t → buffer_ok (set_state t (fault_state (t_state t) f)).
Proof. unfold buffer_ok. cbn. destruct (t_state t) as [| |? ? ? ?]; cbn; tauto. Qed.

Lemma hold_fault t f : hold (set_state t (fault_state (t_state t) f)) = hold t.
Proof. unfold hold. cbn. by destruct (t_state t). Qed.

(** A fault reaches its task; the supervisor may be woken. *)
Lemma wp_force_fault i f t (Q : NextTask → Kernel → Prop) k :
  kinv k → k_tasks k !! i = Some t →
  (∀ nt k' t', kinv k' → frame [i] k k' → k_tasks k' !! i = Some t' → t_state t' = fault_state (t_state t) f → Q nt k') →
  wp (sys_force_fault i f) Q k.
Proof.
  intros Hk Ht HQ. pose proof (kinv_task k i t Hk Ht) as Hti. set (t1 := set_state t (fault_state (t_state t) f)).
  assert (i < length (k_tasks k)) as Hi by (by eapply lookup_lt_Some).
  assert (task_inv (k_regions k) t1) as Ht1.
  { eapply task_inv_same; [exact Hti|done|apply hold_fault|apply force_fault_task, Hti]. }
  assert (kinv (with_tasks k (<[i := t1]> (k_tasks k)))) as Hk1.
  { apply (kinv_insert k i t); try done. intros ->. destruct Hk as (_ & _ & _ & t0 & Ht0 & Hs).
    rewrite Ht0 in Ht. injection Ht as ->. by rewrite is_suspended_hold; unfold t1; rewrite hold_fault, <- is_suspended_hold. }
  destruct (frame_insert k i t t1 Ht) as [Hfr _].
  apply wp_bind, wp_tasks_of, wp_bind. unfold force_fault. rewrite (idx_ok _ _ _ Ht). cbn [ebind].
  fold t1. rewrite set_idx_ok by done. cbn [ebind]. destruct (is_suspended t1) eqn:Es.
  { eapply wp_lift; [done|]. cbn. apply wp_bind, wp_put_tasks; [len|]. apply wp_ret. eapply HQ; [done|done|cbn; by apply list_lookup_insert_eq|done]. }
  unfold post_supervisor. destruct Hk1 as (Hl & Hr & Hinv).
  pose proof Hinv as [_ (t0 & Ht0 & _)]. cbn [with_tasks k_tasks] in Ht0.
  destruct (post_table _ _ 0 HUBRIS_FAULT_NOTIFICATION t0 Hinv Ht0) as (b & t0' & E & Hinv' & He).
  rewrite (idx_ok _ _ _ Ht0). cbn [ebind]. rewrite E. cbn [ebind fst snd].
  rewrite set_idx_ok by (by eapply lookup_lt_Some). cbn [ebind fst snd].
  eapply wp_lift; [done|]. cbn [fst snd]. apply wp_bind, wp_put_tasks; [len|]. apply wp_ret.
  assert (t_state t1 = fault_state (t_state t) f) as E1 by done.
  assert (∃ t', <[0:=t0']> (<[i:=t1]> (k_tasks k)) !! i = Some t' ∧ t_state t' = fault_state (t_state t) f) as (t' & Ht' & Hs').
  { destruct (decide (i = 0)) as [->|].
    - exists t0'. rewrite list_lookup_insert_eq in Ht0 by done. injection Ht0 as <-. rewrite list_lookup_insert_eq by len.
      split; [done|]. rewrite E1 in He. clear -He. destruct (t_state t); cbn in *; inversion He; congruence.
    - exists t1. rewrite list_lookup_insert_ne by done. by rewrite list_lookup_insert_eq. }
  eapply HQ; [by split; [|split]| |exact Ht'|exact Hs'].
  apply (frame_weaken ([i] ++ [])); [intros j; by rewrite app_nil_r|].
  eapply frame_trans; [exact Hfr|].
  exact (proj2 (frame_insert (with_tasks k (<[i := t1]> (k_tasks k))) 0 t0 t0' Ht0) He).
Qed.

(** * Access to memory *)

Lemma can_access_total {Sl R} `{UserSlice Sl} `{MemoryRegion R} (ok : R → bool) (s : Sl) table :
  ∃ b, can_access ok s table = Ret b.
Proof.
  unfold can_access. destruct (slice_is_empty s); [by eexists|]. unfold binary_search_by.
  case_decide as Hl; [by eexists|].
  destruct (search_loop_bounds (λ reg, region_compare reg (slice_base s)) table (length table) 0 (length table))
    as (i & -> & Hi); [lia..|]. cbn [ebind]. destruct (idx_lt table i Hi) as (r & Hr & E). rewrite E. cbn [ebind].
  destruct (region_compare r _); cbn [ebind]; [|by eexists|by eexists]. rewrite E. cbn [ebind].
  destruct (negb (ok r)); [by eexists|]. case_decide; [by eexists|]. rewrite slice_ok by lia. by eexists.
Qed.

Lemma assert_access_total regions size t s desired forbidden :
  ∃ r, assert_access regions size t s desired forbidden = Ret r.
Proof.
  unfold assert_access. destruct (can_access_total (H := uslice_user size)
    (region_permits desired (Z.lor forbidden ATTR_DEVICE)) s (region_table t)) as [b ->].
  cbn [ebind]. destruct b; [|by eexists]. cbn. destruct (any_hibernated _ _ _); by eexists.
Qed.

Lemma wp_check_access i access (Q : result unit FaultInfo → Kernel → Prop) k :
  i < length (k_tasks k) → (∀ t, k_tasks k !! i = Some t → ∃ r, access (k_regions k) t = Ret r) →
  (∀ r, Q r k) → wp (check_access i access) Q k.
Proof.
  intros Hi Ha HQ. destruct (kinv_lookup k i Hi) as [t Ht]. destruct (Ha t Ht) as [r Hr].
  exists (Ok r), k. unfold check_access. rewrite (idx_ok _ _ _ Ht). cbn [ebind]. rewrite Hr. done.
Qed.

Definition blames (f : InteractFault) : Prop := if_src f ≠ None ∨ if_dst f ≠ None.

Lemma safe_copy_total regions mem tasks i fs j ts : i ≠ j → i < length tasks → j < length tasks →
  ∃ r mem', safe_copy regions mem tasks i fs j ts = Ret (r, mem') ∧ match r with Ok _ => True | Err f => blames f end.
Proof.
  intros Hij Hi Hj. unfold safe_copy, shorten_to_match. case_decide; [by eexists _, _|].
  unfold copy_checked, index2_distinct. rewrite decide_True by done.
  destruct (idx_lt tasks i Hi) as (ti & _ & ->). destruct (idx_lt tasks j Hj) as (tj & _ & ->). cbn [ebind fst snd].
  unfold try_read, try_write.
  match goal with |- context [assert_access regions 1 ti ?s ?d ?f] =>
    destruct (assert_access_total regions 1 ti s d f) as [rs ->] end. cbn [ebind].
  destruct (aliases _ _ _).
  - cbn [ebind]. destruct rs as [[]|]; eexists _, _; (split; [done|]); unfold blames; cbn; by right.
  - match goal with |- context [assert_access regions 1 tj ?s ?d ?f] =>
      destruct (assert_access_total regions 1 tj s d f) as [rd ->] end. cbn [ebind].
    destruct rs as [[]|], rd as [[]|]; eexists _, _; (split; [done|]); unfold blames; cbn; first [done|by left|by right].
Qed.

Lemma kinv_mem k mem : kinv k → kinv (with_mem k mem).
Proof. done. Qed.

Lemma frame_mem T k k' mem : frame T k k' → frame T k (with_mem k' mem).
Proof. done. Qed.

Lemma wp_copy i fs j ts (Q : result Z InteractFault → Kernel → Prop) k :
  kinv k → i ≠ j → i < length (k_tasks k) → j < length (k_tasks k) →
  (∀ r k', kinv k' → frame [] k k' → k_tasks k' = k_tasks k →
    match r with Ok _ => True | Err f => blames f end → Q r k') →
  wp (sys_copy i fs j ts) Q k.
Proof.
  intros Hk Hij Hi Hj HQ. destruct (safe_copy_total (k_regions k) (k_mem k) (k_tasks k) i fs j ts Hij Hi Hj) as (r & mem & E & Hr).
  exists (Ok r), (with_mem k mem). unfold sys_copy. rewrite E. cbn [ebind fst snd]. split; [done|]. split; [done|].
  apply HQ; [done|apply frame_mem, frame_refl|done|done].
Qed.

(** * Identifiers *)

Lemma wp_id_of i (Q : TaskId → Kernel → Prop) k : i < length (k_tasks k) →
  (∀ id, current_id (k_tasks k) i = Ret id → Q id k) → wp (id_of i) Q k.
Proof.
  intros Hi HQ. destruct (kinv_lookup k i Hi) as [t Ht]. apply wp_bind, wp_tasks_of.
  assert (current_id (k_tasks k) i = Ret (for_index_and_gen (Z.of_nat i) (generation t))) as E.
  { unfold current_id. by rewrite (idx_ok _ _ _ Ht). }
  eapply wp_lift; [exact E|]. auto.
Qed.

Lemma check_task_id_total tasks id :
  ∃ r, check_task_id_against_table tasks id = Ret r ∧
    match r with Ok i => i < length tasks | Err _ => True end.
Proof.
  unfold check_task_id_against_table. case_decide as Hl; [by eexists|].
  destruct (idx_lt tasks (id_index id)) as (t & _ & ->); [lia|]. cbn [ebind]. case_decide; eexists; (split; [done|]); cbn; [done|lia].
Qed.

Lemma wp_check_id id (Q : nat → Kernel → Prop) k : kinv k →
  (∀ i, i < length (k_tasks k) → Q i k) → wp (check_id id) Q k.
Proof.
  intros Hk HQ. destruct (check_task_id_total (k_tasks k) id) as (r & E & Hr).
  apply wp_bind, wp_tasks_of, wp_bind. eapply wp_lift; [exact E|]. destruct r; [by apply wp_ret, HQ|by apply wp_fail].
Qed.

Lemma wp_check_callee id (Q : nat + NextTask → Kernel → Prop) k : kinv k →
  (∀ i, i < length (k_tasks k) → Q (inl i) k) → (∀ nt, Q (inr nt) k) → wp (check_callee id) Q k.
Proof.
  intros Hk HQ HQ'. destruct (check_task_id_total (k_tasks k) id) as (r & E & Hr).
  apply wp_bind, wp_tasks_of, wp_bind. eapply wp_lift; [exact E|].
  destruct r as [i|[c h|f]]; [by apply wp_ret, HQ|apply wp_ret, HQ'|by apply wp_fail].
Qed.

Lemma frame_length T k k' : frame T k k' → length (k_tasks k') = length (k_tasks k).
Proof. by intros (_ & ? & _). Qed.

(** * Faults of an interaction *)

Lemma wp_fault_opt f i (Q : NextTask → Kernel → Prop) k :
  kinv k → i < length (k_tasks k) →
  (∀ nt k', kinv k' → frame [i] k k' →
    (f ≠ None → ∀ id t', k_tasks k' !! i = Some t' → is_sending_to (t_state t') id = false) → Q nt k') →
  wp (fault_opt f i) Q k.
Proof.
  intros Hk Hi HQ. destruct f as [f|]; cbn.
  - destruct (kinv_lookup k i Hi) as [t Ht]. eapply wp_force_fault; [done|exact Ht|].
    intros nt k' t' Hk' Hfr Ht' Hs. apply HQ; [done|done|]. intros _ id t'' E. rewrite Ht' in E. injection E as <-.
    rewrite Hs. apply fault_state_not_sending.
  - apply wp_ret, HQ; [done|apply frame_refl|done].
Qed.

Lemma wp_apply_to_src f i (Q : NextTask → Kernel → Prop) k :
  kinv k → i < length (k_tasks k) → blames f →
  (∀ nt k', kinv k' → frame [i] k k' →
    (∀ id t', k_tasks k' !! i = Some t' → is_sending_to (t_state t') id = false) → Q nt k') →
  wp (apply_to_src f i) Q k.
Proof.
  intros Hk Hi Hbl HQ. apply wp_bind, wp_fault_opt; [done|done|]. intros nt k' Hk' Hfr Hns.
  destruct (if_dst f) eqn:Ed; [by apply wp_fail|]. apply wp_ret, HQ; [done|done|]. apply Hns.
  destruct Hbl; [done|congruence].
Qed.

Lemma wp_apply_to_dst f i (Q : NextTask → Kernel → Prop) k :
  kinv k → i < length (k_tasks k) → (∀ nt k', kinv k' → frame [i] k k' → Q nt k') → wp (apply_to_dst f i) Q k.
Proof.
  intros Hk Hi HQ. apply wp_bind, wp_fault_opt; [done|done|]. intros nt k' Hk' Hfr _.
  destruct (if_src f); [by apply wp_fail|]. by apply wp_ret, HQ.
Qed.

Lemma wp_apply_both f i j (Q : unit → Kernel → Prop) k :
  kinv k → i < length (k_tasks k) → j < length (k_tasks k) → (∀ k', kinv k' → frame [i; j] k k' → Q tt k') →
  wp (apply_both f i j) Q k.
Proof.
  intros Hk Hi Hj HQ. apply wp_bind, wp_fault_opt; [done|done|]. intros _ k1 Hk1 Hf1 _.
  apply wp_bind, wp_fault_opt; [done|by rewrite (frame_length _ _ _ Hf1)|]. intros _ k2 Hk2 Hf2 _.
  apply wp_ret, HQ; [done|]. exact (frame_trans [i] [j] _ _ _ Hf1 Hf2).
Qed.
