(* ===== verification/KernSafe.v ===== *)
(** No system call makes the kernel panic, and every one keeps its invariant. *)

From S2P Require Import Prelude KernAccess KernState KernMem KernIrq KernTask KernSyscalls KernKipc KernInv.

(** * Small facts *)

Lemma frame_nil_trans T k1 k2 k3 : frame [] k1 k2 → frame T k2 k3 → frame T k1 k3.
Proof. apply (frame_trans []). Qed.

Lemma frame_trans_nil T k1 k2 k3 : frame T k1 k2 → frame [] k2 k3 → frame T k1 k3.
Proof. intros H1 H2. rewrite <- (app_nil_r T). by eapply frame_trans. Qed.

(** A healthy task that is no bystander's victim is still healthy, and in range. *)
Lemma frame_healthy_wp T k k' i t : frame T k k' → i ∉ T → k_tasks k !! i = Some t → healthy (t_state t) →
  ∃ t', k_tasks k' !! i = Some t' ∧ healthy (t_state t') ∧ i < length (k_tasks k').
Proof.
  intros Hf Hi Ht Hh. destruct (frame_healthy _ _ _ _ _ Hf Hi Ht Hh) as (t' & Ht' & ?). exists t'. split; [done|].
  split; [done|]. by eapply lookup_lt_Some.
Qed.

Lemma not_in_one (i j : nat) : i ≠ j → i ∉ [j].
Proof. intros Hij [->|H]%elem_of_cons; [done|]. by apply elem_of_nil in H. Qed.

Lemma not_in_nil (i : nat) : i ∉ [].
Proof. intros H. by apply elem_of_nil in H. Qed.

(** * Delivery of a message *)

Lemma wp_deliver i j ti tj (Q : result unit InteractFault → Kernel → Prop) k :
  kinv k → i ≠ j → k_tasks k !! i = Some ti → healthy (t_state ti) → k_tasks k !! j = Some tj → healthy (t_state tj) →
  (∀ k', kinv k' → frame [i; j] k k' → Q (Ok tt) k') →
  (∀ f k', kinv k' → frame [] k k' → blames f → Q (Err f) k') →
  wp (deliver i j) Q k.
Proof.
  intros Hk Hij Hi Hhi Hj Hhj HOk HErr.
  assert (i < length (k_tasks k)) as Hli by (by eapply lookup_lt_Some).
  assert (j < length (k_tasks k)) as Hlj by (by eapply lookup_lt_Some).
  assert (∀ f, blames f → wp (sret (Err f)) Q k) as Herr.
  { intros f Hf. apply wp_ret, HErr; [done|apply frame_refl|done]. }
  apply wp_bind, wp_id_of; [done|]. intros caller_id _. apply wp_bind, (wp_task_at _ _ ti); [done|].
  cbv beta zeta. destruct (sa_message _); [|apply Herr; by left]. destruct (sa_response _); [|apply Herr; by left].
  destruct (sa_lease_table _); [|apply Herr; by left]. apply wp_bind, (wp_task_at _ _ tj); [done|].
  destruct (ra_buffer _); [|apply Herr; by right].
  apply wp_bind, wp_copy; [done..|]. intros r k1 Hk1 Hf1 Et1 Hr.
  destruct r as [n|f]; [|apply wp_ret; by apply HErr].
  apply wp_bind, wp_update_save; [done|by rewrite Et1|]. intros k2 Hk2 Hf2.
  pose proof (frame_nil_trans _ _ _ _ Hf1 Hf2) as H12.
  destruct (frame_healthy_wp [] k k2 i ti) as (ti2 & Hi2 & Hhi2 & Hli2); [done|apply not_in_nil|done|done|].
  destruct (frame_healthy_wp [] k k2 j tj) as (tj2 & Hj2 & Hhj2 & Hlj2); [done|apply not_in_nil|done|done|].
  apply wp_bind, wp_id_of; [done|]. intros callee_id _.
  apply wp_bind. eapply wp_set_healthy_healthy; [done|exact Hi2|done|done|]. intros k3 ti3 Hk3 Hf3 _ _.
  destruct (frame_healthy_wp [i] k2 k3 j tj2) as (tj3 & Hj3 & Hhj3 & _); [done|by apply not_in_one|done|done|].
  apply wp_bind. eapply wp_set_healthy_healthy; [done|exact Hj3|done|done|]. intros k4 tj4 Hk4 Hf4 _ _.
  apply wp_ret, HOk; [done|]. eapply frame_nil_trans; [exact H12|]. exact (frame_trans [i] [j] _ _ _ Hf3 Hf4).
Qed.

Lemma can_accept_healthy s id : can_accept_message_from s id = true → ∃ x, s = Healthy (InRecv x).
Proof. destruct s as [[]| |]; try done. by eexists. Qed.

Lemma sending_healthy s id : is_sending_to s id = true → ∃ x, s = Healthy (InSend x).
Proof. destruct s as [[]| |]; try done. by eexists. Qed.

(** * The scan of the task table *)

Lemma next_pos_lt n pos : 0 < n → next_pos n pos < n.
Proof. intros Hn. unfold next_pos. case_decide; lia. Qed.

Lemma scan_loop_total steps tasks pred pos choice :
  (steps = 0 ∨ 0 < length tasks) →
  (∀ i t, choice = Some (i, t) → tasks !! i = Some t ∧ pred t = true) →
  ∃ r, scan_loop steps tasks pred pos choice = Ret r ∧
    ∀ i t, r = Some (i, t) → tasks !! i = Some t ∧ pred t = true.
Proof.
  revert pos choice. induction steps as [|steps IH]; intros pos choice Hn Hc; cbn [scan_loop]; [by exists choice|].
  destruct Hn as [?|Hn]; [done|].
  destruct (idx_lt tasks (next_pos (length tasks) pos)) as (t & Ht & ->); [by apply next_pos_lt|]. cbn [ebind].
  destruct (pred t) eqn:Ep; cbn [negb]; [|by apply IH; [right|]].
  assert (∀ i t', Some (next_pos (length tasks) pos, t) = Some (i, t') → tasks !! i = Some t' ∧ pred t' = true) as Hnew.
  { intros i t' [= <- <-]. done. }
  destruct choice as [[c tc]|]; [|by apply IH; [right|]].
  destruct (is_more_important_than _ _); cbn [negb]; by apply IH; [right|].
Qed.

Lemma priority_scan_total previous tasks pred :
  ∃ r, priority_scan previous tasks pred = Ret r ∧ ∀ i t, r = Some (i, t) → tasks !! i = Some t ∧ pred t = true.
Proof. apply scan_loop_total; [|done]. destruct tasks; [by left|right; cbn; lia]. Qed.

(** * Send *)

Lemma wp_send hkm k i t : (sa_callee (as_send_args (t_save t)) = TASK_KERNEL → wp (hkm i) (λ _ k', kinv k') k) →
  kinv k → k_tasks k !! i = Some t → t_state t = Healthy Runnable →
  wp (send hkm i) (λ _ k', kinv k') k.
Proof.
  intros Hhkm Hk Ht Hs. assert (i < length (k_tasks k)) as Hi by (by eapply lookup_lt_Some).
  assert (healthy (t_state t)) as Hh by (rewrite Hs; by eexists).
  apply wp_bind, (wp_task_at _ _ t); [done|]. cbv beta zeta. case_decide; [by eapply Hhkm|].
  apply wp_bind, wp_check_id; [done|]. intros j Hj. apply wp_bind, wp_id_of; [done|]. intros caller_id _.
  destruct (kinv_lookup k j Hj) as [tj Htj]. apply wp_bind, (wp_task_at _ _ tj); [done|]. cbv beta zeta.
  assert (∀ k' nt t', kinv k' → k_tasks k' !! i = Some t' → healthy (t_state t') →
    wp (let* _ := set_healthy i (InSend (sa_callee (as_send_args (t_save t)))) in sret (combine Other nt)) (λ _ k', kinv k') k') as Hblock.
  { intros k' nt t' Hk' Ht' Hh'. apply wp_bind. eapply wp_set_healthy_healthy; [done|exact Ht'|done|done|].
    intros k2 t2 Hk2 _ _ _. by apply wp_ret. }
  destruct (can_accept_message_from (t_state tj) caller_id) eqn:Ea; [|by eapply Hblock].
  apply can_accept_healthy in Ea as [x Ex].
  assert (i ≠ j) as Hij by (intros ->; rewrite Ht in Htj; injection Htj as ->; congruence).
  apply wp_bind. eapply wp_deliver; [done|exact Hij|exact Ht|done|exact Htj|by rewrite Ex; eexists|..].
  - intros k' Hk' _. by apply wp_ret.
  - intros f k1 Hk1 Hf1 _. apply wp_bind, wp_apply_to_dst; [done|by rewrite (frame_length _ _ _ Hf1)|].
    intros nt k2 Hk2 Hf2. destruct (frame_healthy_wp [j] k k2 i t) as (t2 & Ht2 & Hh2 & _);
      [by eapply frame_nil_trans|by apply not_in_one|done|done|]. by eapply Hblock.
Qed.

(** * Receive *)

Definition senders (id : TaskId) (tasks : list Task) : nat :=
  length (List.filter (λ t, is_sending_to (t_state t) id) tasks).

Lemma count_decrease {A B} (p : A → bool) (q : B → bool) (l : list A) (l' : list B) i x y :
  length l' = length l → (∀ j a b, l !! j = Some a → l' !! j = Some b → q b = true → p a = true) →
  l !! i = Some x → p x = true → l' !! i = Some y → q y = false →
  length (List.filter q l') < length (List.filter p l).
Proof.
  revert l' i. induction l as [|a l IH]; intros [|b l'] i Hlen Himp Hx Hpx Hy Hqy; try done.
  injection Hlen as Hlen. cbn [List.filter]. pose proof (Himp 0 a b eq_refl eq_refl) as H0.
  assert (∀ j a b, l !! j = Some a → l' !! j = Some b → q b = true → p a = true) as Himp'.
  { intros j. exact (Himp (S j)). }
  destruct i as [|i].
  - injection Hx as ->. injection Hy as ->. rewrite Hpx, Hqy. cbn. apply Nat.lt_succ_r. clear -Himp' Hlen.
    revert l' Hlen Himp'. induction l as [|a l IH]; intros [|b l'] Hlen Himp; try done. injection Hlen as Hlen.
    specialize (IH l' Hlen (λ j, Himp (S j))). pose proof (Himp 0 a b eq_refl eq_refl) as H0. cbn.
    destruct (q b); [rewrite H0 by done; cbn; lia|]. destruct (p a); cbn; lia.
  - specialize (IH l' i Hlen Himp' Hx Hpx Hy Hqy). destruct (q b); [rewrite H0 by done; cbn; lia|]. destruct (p a); cbn; lia.
Qed.

Lemma senders_decrease id k k' s t t' : frame [s] k k' → k_tasks k !! s = Some t → is_sending_to (t_state t) id = true →
  k_tasks k' !! s = Some t' → is_sending_to (t_state t') id = false →
  senders id (k_tasks k') < senders id (k_tasks k).
Proof.
  intros (_ & Hl & Hf) Ht Hs Ht' Hs'. eapply count_decrease; [exact Hl| |exact Ht|exact Hs|exact Ht'|exact Hs'].
  intros j a b Ha Hb Hsb. destruct (decide (j = s)) as [->|Hjs]; [congruence|].
  destruct (Hf j a ltac:(by apply not_in_one) Ha) as (b' & Hb' & He). rewrite Hb in Hb'. injection Hb' as <-.
  by eapply evolves_sending.
Qed.

(** The search ends: every delivery that fails faults its sender. *)
Lemma wp_recv_open fuel i id last nt k t :
  kinv k → k_tasks k !! i = Some t → t_state t = Healthy Runnable → senders id (k_tasks k) < fuel →
  wp (recv_open fuel i id last nt) (λ r k', kinv k' ∧
    (∀ x, r = inr x → ∃ t', k_tasks k' !! i = Some t' ∧ healthy (t_state t'))) k.
Proof.
  revert last nt k t. induction fuel as [|fuel IH]; intros last nt k t Hk Ht Hs Hfuel; [lia|].
  assert (healthy (t_state t)) as Hh by (rewrite Hs; by eexists).
  cbn [recv_open]. apply wp_bind, wp_tasks_of, wp_bind.
  destruct (priority_scan_total last (k_tasks k) (λ t, is_sending_to (t_state t) id)) as (r & E & Hr).
  eapply wp_lift; [exact E|]. destruct r as [[s ts]|].
  2:{ apply wp_ret. split; [done|]. intros x _. by exists t. }
  destruct (Hr s ts eq_refl) as [Hts Hsend]. pose proof Hsend as Hsend'. apply sending_healthy in Hsend' as [y Ey].
  assert (s ≠ i) as Hsi by (intros ->; rewrite Ht in Hts; injection Hts as ->; congruence).
  apply wp_bind. eapply wp_deliver; [done|exact Hsi|exact Hts|by rewrite Ey; eexists|exact Ht|done|..].
  - intros k' Hk' _. by apply wp_ret.
  - intros f k1 Hk1 Hf1 Hbl. apply wp_bind, wp_apply_to_src; [done| |done|].
    { rewrite (frame_length _ _ _ Hf1). by eapply lookup_lt_Some. }
    intros wh k2 Hk2 Hf2 Hns. pose proof (frame_nil_trans _ _ _ _ Hf1 Hf2) as H12.
    destruct H12 as (Hr12 & Hl12 & Hb12). destruct (Hb12 i t) as (t2 & Ht2 & He2); [by apply not_in_one|done|].
    destruct (kinv_lookup k2 s) as [ts2 Hts2]; [rewrite Hl12; by eapply lookup_lt_Some|].
    eapply (IH _ _ _ t2); [done|exact Ht2| |].
    + rewrite Hs in He2. by inversion He2.
    + assert (senders id (k_tasks k2) < senders id (k_tasks k)); [|lia].
      eapply senders_decrease; [by split; [|split]|exact Hts|done|exact Hts2|by eapply Hns].
Qed.

Lemma wp_recv_closed i id sender k t :
  kinv k → k_tasks k !! i = Some t → t_state t = Healthy Runnable →
  wp (recv_closed i id sender) (λ r k', kinv k' ∧
    (∀ x, r = inr x → ∃ t', k_tasks k' !! i = Some t' ∧ healthy (t_state t'))) k.
Proof.
  intros Hk Ht Hs. assert (healthy (t_state t)) as Hh by (rewrite Hs; by eexists).
  apply wp_bind, wp_check_id; [done|]. intros j Hj. destruct (kinv_lookup k j Hj) as [tj Htj].
  apply wp_bind, (wp_task_at _ _ tj); [done|].
  destruct (is_sending_to (t_state tj) id) eqn:Es; [|apply wp_ret; split; [done|intros x _; by exists t]].
  apply sending_healthy in Es as [y Ey].
  assert (j ≠ i) as Hji by (intros ->; rewrite Ht in Htj; injection Htj as ->; congruence).
  apply wp_bind. eapply wp_deliver; [done|exact Hji|exact Htj|by rewrite Ey; eexists|exact Ht|done|..].
  - intros k' Hk' _. by apply wp_ret.
  - intros f k1 Hk1 Hf1 Hbl. apply wp_bind, wp_apply_to_src; [done|by rewrite (frame_length _ _ _ Hf1)|done|].
    intros wh k2 Hk2 Hf2 _. apply wp_ret. split; [done|]. intros x _.
    destruct (frame_healthy_wp [j] k k2 i t) as (t2 & Ht2 & Hh2 & _); [by eapply frame_nil_trans|by apply not_in_one|done|done|].
    by exists t2.
Qed.

Lemma wp_recv k i t : kinv k → k_tasks k !! i = Some t → t_state t = Healthy Runnable →
  wp (recv i) (λ _ k', kinv k') k.
Proof.
  intros Hk Ht Hs. assert (i < length (k_tasks k)) as Hi by (by eapply lookup_lt_Some).
  pose proof (kinv_task k i t Hk Ht) as (_ & Hb & _). unfold buffer_ok in Hb. rewrite Hs in Hb.
  apply wp_bind, (wp_task_at _ _ t); [done|]. unfold take_notifications. case_decide.
  { apply wp_bind. eapply wp_update_same; [done|exact Ht|done|done|done| |].
    - unfold buffer_ok. cbn. by rewrite Hs.
    - intros k' Hk' _ _ _. by apply wp_ret. }
  apply wp_bind, wp_id_of; [done|]. intros id _. apply wp_bind.
  eapply (wp_mono _ (λ r k', kinv k' ∧ ∀ x, r = inr x → ∃ t', k_tasks k' !! i = Some t' ∧ healthy (t_state t'))).
  - destruct (ra_specific_sender _) as [sid|].
    + case_decide; [|by eapply wp_recv_closed]. apply wp_ret. split; [done|]. intros x _. exists t. rewrite Hs. split; [done|by eexists].
    + apply wp_bind, wp_tasks_of. eapply wp_recv_open; [done|exact Ht|done|]. unfold senders.
      pose proof (List.filter_length_le (λ t, is_sending_to (t_state t) id) (k_tasks k)). lia.
  - intros r k' [Hk' Hr]. destruct r as [x|x]; [by apply wp_ret|]. destruct (Hr x eq_refl) as (t' & Ht' & Hh').
    apply wp_bind. eapply wp_set_healthy_healthy; [done|exact Ht'|done|done|]. intros k2 t2 Hk2 _ _ _. by apply wp_ret.
Qed.

(** * Reply *)

Lemma awaits_reply_inv s id b : awaits_reply s id = Some b →
  if b then ∃ bits dbg, s = Suspended (InReply id) None bits dbg else s = Healthy (InReply id).
Proof.
  destruct s as [[]| |[] [] ? ?]; cbn; try done; case_decide; intros [= <-]; subst; [done|by eexists _, _].
Qed.

Lemma length_read_mem mem base n : length (read_mem mem base n) = n.
Proof. unfold read_mem. by rewrite length_map, length_seq. Qed.

Lemma with_tasks_insert k i t1 t2 :
  with_tasks (with_tasks k (<[i := t1]> (k_tasks k))) (<[i := t2]> (k_tasks (with_tasks k (<[i := t1]> (k_tasks k))))) =
  with_tasks k (<[i := t2]> (k_tasks k)).
Proof. unfold with_tasks. cbn. by rewrite list_insert_insert_eq. Qed.

Lemma update_task_length i f k r k' : update_task i f k = Ret (r, k') → length (k_tasks k') = length (k_tasks k).
Proof.
  unfold update_task, sbind, lift, tasks_of, put_tasks. cbn. destruct (idx (k_tasks k) i) as [t|] eqn:Ei; [|done]. cbn.
  destruct (f t) as [t'|]; [|done]. cbn. unfold set_idx. case_decide; [|done]. cbn. intros [= <- <-]. cbn. len.
Qed.

(** The three updates of a suspended callee, at the end of which a buffered reply
    awaits it. *)
Lemma wp_buffer_reply j tj data id resp n bits dbg (Q : NextTask → Kernel → Prop) k :
  kinv k → k_tasks k !! j = Some tj → t_state tj = Suspended (InReply id) None bits dbg →
  (∀ k' tj', kinv k' → k_tasks k' !! j = Some tj' → t_state tj' = Suspended (InSuspendedReply id) None bits dbg →
     t_suspension_buffer tj' = Some data → frame [j] k k' → Q Same k') →
  wp (let* _ := update_task j (λ t, Ret (set_buffer t (Some data))) in
      let* _ := update_save j (λ s, set_send_response_and_length s resp n) in
      let* _ := set_healthy j (InSuspendedReply id) in sret Same) Q k.
Proof.
  intros Hk Hj Es HQ. assert (j < length (k_tasks k)) as Hlj by (by eapply lookup_lt_Some).
  assert (∀ t, <[j := t]> (k_tasks k) !! j = Some t) as Hl by (intros; by apply list_lookup_insert_eq).
  apply wp_bind. eapply wp_update_task; [exact Hj|done|].
  apply wp_bind. eapply wp_update_task; [apply Hl|done|]. rewrite with_tasks_insert.
  apply wp_bind. eapply wp_update_task; [apply Hl|unfold set_healthy_state; cbn; by rewrite Es|].
  rewrite with_tasks_insert. apply wp_ret. eapply HQ; [|apply Hl|done|done|by apply frame_insert with tj].
  pose proof (kinv_task k j tj Hk Hj) as Hinv. apply (kinv_insert k j tj); try done.
  - eapply task_inv_same; [exact Hinv|done| |].
    + unfold hold. cbn. by rewrite Es.
    + unfold buffer_ok. cbn. split; [done|by intros _; eexists].
  - intros ->. destruct Hk as (_ & _ & _ & t0 & Ht0 & Hs0). rewrite Ht0 in Hj. injection Hj as ->.
    unfold is_suspended in Hs0. by rewrite Es in Hs0.
Qed.

Lemma wp_deliver_reply i j ti tj id resp src dest b k :
  kinv k → k_tasks k !! i = Some ti → t_state ti = Healthy Runnable →
  k_tasks k !! j = Some tj → awaits_reply (t_state tj) id = Some b → (us_length src <= 256)%Z →
  wp (deliver_reply i id resp src j dest b) (λ _ k', kinv k') k.
Proof.
  intros Hk Hi Hsi Hj Ha Hlen. assert (i < length (k_tasks k)) as Hli by (by eapply lookup_lt_Some).
  assert (j < length (k_tasks k)) as Hlj by (by eapply lookup_lt_Some).
  apply awaits_reply_inv in Ha. destruct b.
  - destruct Ha as (bits & dbg & Es). unfold deliver_reply, set_suspension_reply. apply wp_bind, wp_bind.
    apply wp_check_access; [done|intros; apply assert_access_total|]. intros [u|f].
    2:{ apply wp_ret, wp_apply_to_dst; [done..|]. intros nt k' Hk' _. done. }
    apply wp_bind, wp_memory. cbv beta zeta. unfold suspension_buffer_ok. rewrite length_read_mem.
    rewrite decide_False by (unfold BUFFER_CAPACITY; lia).
    apply wp_bind. eapply wp_mono; [|intros u0 k1 H1; apply wp_ret; exact H1].
    apply wp_bind_inv; [apply update_task_length|]. eapply (wp_buffer_reply j tj _ id resp _ bits dbg); [done|done|done|].
    intros k' tj' Hk' _ _ _ _. exact Hk'.
  - unfold deliver_reply. assert (i ≠ j) as Hij by (intros ->; rewrite Hj in Hi; injection Hi as ->; congruence).
    apply wp_bind, wp_copy; [done..|]. intros r k1 Hk1 Hf1 Et1 Hr. destruct r as [n|f].
    2:{ apply wp_apply_to_dst; [done|by rewrite Et1|]. intros nt k' Hk' _. done. }
    apply wp_bind, wp_update_save; [done|by rewrite Et1|]. intros k2 Hk2 Hf2.
    destruct (frame_healthy_wp [] k k2 j tj) as (tj2 & Hj2 & Hhj2 & _);
      [by eapply frame_nil_trans|apply not_in_nil|done|by rewrite Ha; eexists|].
    apply wp_bind. eapply wp_set_healthy_healthy; [done|exact Hj2|done|done|]. intros k3 t3 Hk3 _ _ _. by apply wp_ret.
Qed.

Lemma wp_reply k i t : kinv k → k_tasks k !! i = Some t → t_state t = Healthy Runnable →
  wp (reply i) (λ _ k', kinv k') k.
Proof.
  intros Hk Ht Hs. assert (i < length (k_tasks k)) as Hi by (by eapply lookup_lt_Some).
  apply wp_bind, (wp_task_at _ _ t); [done|]. cbv beta zeta. apply wp_bind, wp_id_of; [done|]. intros id _.
  apply wp_bind, wp_check_callee; [done| |intros; by apply wp_ret]. intros j Hj.
  destruct (kinv_lookup k j Hj) as [tj Htj]. apply wp_bind, (wp_task_at _ _ tj); [done|].
  destruct (awaits_reply (t_state tj) id) as [b|] eqn:Ea; [|by apply wp_ret].
  destruct (rp_message _) as [src|]; [|by apply wp_fail].
  destruct (sa_response _) as [dest|e].
  2:{ eapply wp_force_fault; [done|exact Htj|]. intros; done. }
  case_decide; [by apply wp_fail|]. case_decide; [by apply wp_fail|].
  eapply wp_deliver_reply; [done|exact Ht|done|exact Htj|done|lia].
Qed.

Lemma wp_reply_fault k i t : kinv k → k_tasks k !! i = Some t → wp (reply_fault i) (λ _ k', kinv k') k.
Proof.
  intros Hk Ht. assert (i < length (k_tasks k)) as Hi by (by eapply lookup_lt_Some).
  apply wp_bind, wp_id_of; [done|]. intros id _. apply wp_bind, (wp_task_at _ _ t); [done|]. cbv beta zeta.
  apply wp_bind, wp_of_result; [done|]. intros reason _.
  apply wp_bind, wp_check_callee; [done| |intros; by apply wp_ret]. intros j Hj.
  destruct (kinv_lookup k j Hj) as [tj Htj]. apply wp_bind, (wp_task_at _ _ tj); [done|].
  destruct (awaits_reply _ _); [|by apply wp_ret]. apply wp_bind.
  eapply wp_force_fault; [done|exact Htj|]. intros nt k' t' Hk' _ _ _. by apply wp_ret.
Qed.

(** * Timers, notifications and identifiers *)

Lemma wp_set_timer now k i t : kinv k → k_tasks k !! i = Some t → wp (set_timer now i) (λ _ k', kinv k') k.
Proof.
  intros Hk Ht. pose proof (kinv_task k i t Hk Ht) as (_ & Hb & _).
  apply wp_bind, (wp_task_at _ _ t); [done|]. destruct (as_set_timer_args (t_save t)) as [dl n].
  cbv zeta. case_match.
  - destruct (post_spec (set_timer_state t (mkTimer None n)) n) as (b & t' & E & Hd & Ho & Hb' & _); [exact Hb|].
    apply wp_bind. eapply wp_update_same; [done|exact Ht|cbn beta; rewrite E; reflexivity|exact Hd|exact Ho|exact Hb'|].
    intros k' Hk' _ _ _. by apply wp_ret.
  - apply wp_bind. eapply wp_update_same; [done|exact Ht|done|done|done|exact Hb|]. intros k' Hk' _ _ _. by apply wp_ret.
Qed.

Lemma wp_get_timer now k i t : kinv k → k_tasks k !! i = Some t → wp (get_timer now i) (λ _ k', kinv k') k.
Proof.
  intros Hk Ht. apply wp_bind, (wp_task_at _ _ t); [done|].
  apply wp_bind, wp_update_save; [done|by eapply lookup_lt_Some|]. intros k' Hk' _. by apply wp_ret.
Qed.

Lemma wp_explicit_panic k i t : kinv k → k_tasks k !! i = Some t → wp (explicit_panic i) (λ _ k', kinv k') k.
Proof. intros Hk Ht. eapply wp_force_fault; [done|exact Ht|]. intros; done. Qed.

Lemma wp_refresh_task_id k i t : kinv k → k_tasks k !! i = Some t → wp (refresh_task_id i) (λ _ k', kinv k') k.
Proof.
  intros Hk Ht. apply wp_bind, (wp_task_at _ _ t); [done|]. apply wp_bind, wp_tasks_of.
  case_decide; [|by apply wp_fail]. apply wp_bind, wp_id_of; [done|]. intros id _.
  apply wp_bind, wp_update_save; [done|by eapply lookup_lt_Some|]. intros k' Hk' _. by apply wp_ret.
Qed.

Lemma wp_sys_post k i t : kinv k → k_tasks k !! i = Some t → wp (sys_post i) (λ _ k', kinv k') k.
Proof.
  intros Hk Ht. assert (i < length (k_tasks k)) as Hi by (by eapply lookup_lt_Some).
  apply wp_bind, (wp_task_at _ _ t); [done|]. apply wp_bind, wp_check_id; [done|]. intros j Hj.
  apply wp_bind, wp_post_to; [done|done|]. intros woke k1 Hk1 Hf1.
  apply wp_bind, wp_update_save; [done|by rewrite (frame_length _ _ _ Hf1)|]. intros k2 Hk2 Hf2.
  pose proof (frame_length _ _ _ (frame_nil_trans _ _ _ _ Hf1 Hf2)) as Hl.
  destruct (kinv_lookup k2 i) as [ti2 Hi2]; [lia|]. destruct (kinv_lookup k2 j) as [tj2 Hj2]; [lia|].
  apply wp_bind, (wp_task_at _ _ ti2); [done|]. apply wp_bind, (wp_task_at _ _ tj2); [done|].
  case_match; by apply wp_ret.
Qed.

(** * Leases *)

Lemma wp_borrow_lease i j n off k t (Q : ULease → Kernel → Prop) : kinv k → k_tasks k !! i = Some t →
  t_state t = Healthy Runnable → j < length (k_tasks k) →
  (i ≠ j → ∀ l, Q l k) → wp (borrow_lease i j n off) Q k.
Proof.
  intros Hk Ht Hs Hj HQ. assert (i < length (k_tasks k)) as Hi by (by eapply lookup_lt_Some).
  apply wp_bind, wp_id_of; [done|]. intros id _. destruct (kinv_lookup k j Hj) as [tj Htj].
  apply wp_bind, (wp_task_at _ _ tj); [done|]. destruct (awaits_reply (t_state tj) id) as [b|] eqn:Ea; [|by apply wp_fail].
  assert (i ≠ j) as Hij.
  { intros ->. rewrite Ht in Htj. injection Htj as ->. by rewrite Hs in Ea. }
  destruct (sa_lease_table _) as [leases|e].
  2:{ apply wp_bind. eapply wp_force_fault; [done|exact Htj|]. intros; by apply wp_fail. }
  apply wp_bind, wp_check_access; [done|intros; apply assert_access_total|]. intros [u|f].
  - case_decide; [|by apply wp_fail]. apply wp_bind, wp_memory. apply wp_of_result; [done|]. intros l _. by apply HQ.
  - destruct (is_hibernated_fault _); [by apply wp_fail|]. apply wp_bind.
    eapply wp_force_fault; [done|exact Htj|]. intros; by apply wp_fail.
Qed.

(** A borrow that reaches the copy reports it, or blames the lender. *)
Lemma wp_borrow_read k i t : kinv k → k_tasks k !! i = Some t → t_state t = Healthy Runnable →
  wp (borrow_read i) (λ _ k', kinv k') k.
Proof.
  intros Hk Ht Hs. assert (i < length (k_tasks k)) as Hi by (by eapply lookup_lt_Some).
  apply wp_bind, (wp_task_at _ _ t); [done|]. cbv beta zeta. apply wp_bind, wp_of_result; [done|]. intros buf _.
  apply wp_bind, wp_check_id; [done|]. intros j Hj. apply wp_bind. eapply wp_borrow_lease; [done|exact Ht|done|done|].
  intros Hij l. destruct (negb _); [by apply wp_fail|]. apply wp_bind, wp_copy; [done|congruence|done|done|].
  intros r k1 Hk1 Hf1 Et1 Hr. destruct r as [n|f].
  - apply wp_bind, wp_update_save; [done|by rewrite Et1|]. intros k2 Hk2 _. by apply wp_ret.
  - destruct (is_hibernated_fault _); [destruct (if_dst f); by apply wp_fail|].
    apply wp_bind, wp_apply_to_src; [done|by rewrite Et1|done|]. intros; by apply wp_fail.
Qed.

Lemma wp_borrow_write k i t : kinv k → k_tasks k !! i = Some t → t_state t = Healthy Runnable →
  wp (borrow_write i) (λ _ k', kinv k') k.
Proof.
  intros Hk Ht Hs. assert (i < length (k_tasks k)) as Hi by (by eapply lookup_lt_Some).
  apply wp_bind, (wp_task_at _ _ t); [done|]. cbv beta zeta. apply wp_bind, wp_of_result; [done|]. intros buf _.
  apply wp_bind, wp_check_id; [done|]. intros j Hj. apply wp_bind. eapply wp_borrow_lease; [done|exact Ht|done|done|].
  intros Hij l. destruct (negb _); [by apply wp_fail|]. apply wp_bind, wp_copy; [done|congruence|done|done|].
  intros r k1 Hk1 Hf1 Et1 Hr. destruct r as [n|f].
  - apply wp_bind, wp_update_save; [done|by rewrite Et1|]. intros k2 Hk2 _. by apply wp_ret.
  - destruct (is_hibernated_fault _); [destruct (if_src f); by apply wp_fail|].
    apply wp_bind, wp_apply_to_dst; [done|by rewrite Et1|]. intros; by apply wp_fail.
Qed.

Lemma wp_borrow_info k i t : kinv k → k_tasks k !! i = Some t → t_state t = Healthy Runnable →
  wp (borrow_info i) (λ _ k', kinv k') k.
Proof.
  intros Hk Ht Hs. assert (i < length (k_tasks k)) as Hi by (by eapply lookup_lt_Some).
  apply wp_bind, (wp_task_at _ _ t); [done|]. cbv beta zeta.
  apply wp_bind, wp_check_id; [done|]. intros j Hj. apply wp_bind. eapply wp_borrow_lease; [done|exact Ht|done|done|].
  intros Hij l. apply wp_bind, wp_update_save; [done|done|]. intros k2 Hk2 _. by apply wp_ret.
Qed.

(** * The dispatcher *)

(** The tables of interrupts name only interrupts the controller has. *)
Definition irq_table_ok (irq_lookup : Z → Z → option (list Z)) : Prop :=
  ∀ task n irqs, irq_lookup task n = Some irqs → Forall irq_ok irqs.

Lemma wp_lookup_irqs lk task n (Q : list Z → Kernel → Prop) k : irq_table_ok lk → kinv k →
  (∀ irqs, Forall irq_ok irqs → Q irqs k) → wp (lookup_irqs lk task n) Q k.
Proof.
  intros Hlk Hk HQ. unfold lookup_irqs. destruct (lk task n) as [irqs|] eqn:E; [|by apply wp_fail].
  apply wp_ret, HQ. by eapply Hlk.
Qed.

Lemma wp_nvic (Q : Nvic → Kernel → Prop) k : Q (k_nvic k) k → wp nvic Q k.
Proof. intros HQ. by exists (Ok (k_nvic k)), k. Qed.

Lemma wp_put_nvic nv (Q : unit → Kernel → Prop) k : Q tt (with_nvic k nv) → wp (put_nvic nv) Q k.
Proof. intros HQ. by exists (Ok tt), (with_nvic k nv). Qed.

(** The controller is not part of what the invariant is about. *)
Lemma kinv_nvic k nv : kinv k → kinv (with_nvic k nv).
Proof. done. Qed.

Lemma wp_irqs lk task n op (f : sys NextTask) k : irq_table_ok lk → kinv k →
  (∀ nv n, irq_ok n → ∃ nv', op nv n = Ok nv') → (∀ nv, wp f (λ _ k', kinv k') (with_nvic k nv)) →
  wp (let* irqs := lookup_irqs lk task n in let* nv := nvic in let* nv := lift (each_irq op irqs nv) in
      let* _ := put_nvic nv in f) (λ _ k', kinv k') k.
Proof.
  intros Hlk Hk Hop Hf. apply wp_bind, wp_lookup_irqs; [done|done|]. intros irqs Hirqs. apply wp_bind, wp_nvic.
  destruct (each_irq_ok op irqs (k_nvic k) Hop Hirqs) as [nv E]. apply wp_bind. eapply wp_lift; [exact E|].
  apply wp_bind, wp_put_nvic, Hf.
Qed.

Lemma wp_irq_control lk k i t : irq_table_ok lk → kinv k → k_tasks k !! i = Some t →
  wp (irq_control lk i) (λ _ k', kinv k') k.
Proof.
  intros Hlk Hk Ht. apply wp_bind, (wp_task_at _ _ t); [done|]. destruct (as_irq_args _) as [n c].
  destruct (control_from_bits c) as [c'|]; [|by apply wp_fail]. cbv zeta. apply wp_irqs; [done|done| |].
  - intros nv m Hm. destruct (irq_ops_ok nv m (attrs_contain c' CONTROL_CLEAR_PENDING) Hm) as (? & ? & _). by case_match.
  - intros nv. by apply wp_ret.
Qed.

Lemma wp_irq_status lk k i t : irq_table_ok lk → kinv k → k_tasks k !! i = Some t →
  wp (irq_status lk i) (λ _ k', kinv k') k.
Proof.
  intros Hlk Hk Ht. apply wp_bind, (wp_task_at _ _ t); [done|]. cbv zeta. apply wp_bind, wp_lookup_irqs; [done|done|].
  intros irqs _. apply wp_bind, wp_nvic. apply wp_bind, wp_of_result; [done|]. intros st _.
  apply wp_bind, (wp_task_at _ _ t); [done|]. apply wp_bind, wp_update_save; [done|by eapply lookup_lt_Some|].
  intros k2 Hk2 _. by apply wp_ret.
Qed.

(** The message to the kernel, if the call sends one. *)
Definition kernel_send (nr : Z) (t : Task) : Prop :=
  sysnum_try_from nr = Some SysSend ∧ sa_callee (as_send_args (t_save t)) = TASK_KERNEL.

Lemma wp_dispatch hkm lk now nr k i t : (kernel_send nr t → wp (hkm i) (λ _ k', kinv k') k) → irq_table_ok lk →
  kinv k → k_tasks k !! i = Some t → t_state t = Healthy Runnable →
  wp (dispatch hkm lk now nr i) (λ _ k', kinv k') k.
Proof.
  intros Hh Hlk Hk Ht Hs. unfold kernel_send in Hh. unfold dispatch.
  destruct (sysnum_try_from nr) as [[]|]; [..|by apply wp_fail]; [eapply wp_send; eauto|..];
    eauto using wp_irq_control, wp_irq_status, wp_recv, wp_reply, wp_set_timer, wp_borrow_read, wp_borrow_write, wp_borrow_info,
      wp_explicit_panic, wp_get_timer, wp_refresh_task_id, wp_sys_post, wp_reply_fault.
Qed.

(** What ends a call cannot fail. *)
Lemma wp_no_err {A} (m : sys A) Q k : wp m Q k → (∀ e k', m k ≠ Ret (Err e, k')) → ∃ a k', m k = Ret (Ok a, k') ∧ Q a k'.
Proof. intros (r & k' & E & _ & H) Hne. destruct r as [a|e]; [by exists a, k'|]. by destruct (Hne e k'). Qed.

(** A call of a running task returns, and the kernel's state is in order. *)
Lemma syscall_entry_ok hkm lk now nr k i t : (kernel_send nr t → wp (hkm i) (λ _ k', kinv k') k) → irq_table_ok lk →
  kinv k → k_tasks k !! i = Some t → t_state t = Healthy Runnable →
  ∃ nt k', safe_syscall_entry hkm lk now nr i k = Ret (nt, k') ∧ kinv k' ∧ length (k_tasks k') = length (k_tasks k).
Proof.
  intros Hh Hlk Hk Ht Hs. destruct (wp_dispatch hkm lk now nr k i t) as (r & k1 & E & Hlen & Hr); [done..|].
  assert (i < length (k_tasks k1)) as Hi by (rewrite Hlen; by eapply lookup_lt_Some).
  destruct (kinv_lookup k1 i Hi) as [t1 Ht1].
  unfold safe_syscall_entry. rewrite E. cbn [ebind]. destruct r as [nt|[code hint|f]].
  - by exists nt, k1.
  - assert (wp (let* _ := update_save i (λ s, set_error_response s code) in sret hint)
      (λ _ k', kinv k' ∧ length (k_tasks k') = length (k_tasks k1)) k1) as W.
    { apply wp_bind, wp_update_save; [done|done|]. intros k2 Hk2 Hf2. apply wp_ret. split; [done|by apply frame_length in Hf2]. }
    apply wp_no_err in W as (nt & k2 & -> & Hk2 & Hl2); [cbn; exists nt, k2; split; [done|]; split; [done|congruence]|].
    intros e k2. unfold update_save, update_task, sbind, lift, tasks_of, put_tasks. cbn.
    rewrite (idx_ok _ _ _ Ht1). cbn. rewrite set_idx_ok by done. done.
  - assert (wp (sys_force_fault i f) (λ _ k', kinv k' ∧ length (k_tasks k') = length (k_tasks k1)) k1) as W.
    { eapply wp_force_fault; [done|exact Ht1|]. intros nt k2 t2 Hk2 Hf2 _ _. split; [done|by apply frame_length in Hf2]. }
    apply wp_no_err in W as (nt & k2 & -> & Hk2 & Hl2); [cbn; exists nt, k2; split; [done|]; split; [done|congruence]|].
    intros e k2. unfold sys_force_fault, sbind, lift, tasks_of, put_tasks. cbn.
    destruct (force_fault (k_tasks k1) i f) as [x|]; done.
Qed.
