(* ===== verification/KernKipcSafe.v ===== *)
(** The messages to the kernel keep its invariant and do not make it panic:
    hibernation and restoring of regions, suspension and restart of tasks. *)

From S2P Require Import Prelude KernAccess KernState KernMem KernIrq KernTask KernSyscalls KernKipc KernInv KernSafe.

(** * Suspended tasks and restoring them *)

(** The invariant of a task but for the reason of its suspension. *)
Definition task_pre (regions : list HibernationRegionDesc) (t : Task) : Prop :=
  task_ok t ∧ buffer_ok t ∧ held regions t ∧ boots (t_descriptor t).

Lemma bits_zero z : is_u 32 z → (∀ i, Z.testbit z (Z.of_nat i) = false) → z = 0%Z.
Proof. intros Hu Hb. apply (from_bit_zero z). split; [done|]. auto. Qed.

Lemma held_none regions t : hold t = None → (∀ i h, regions !! i = Some h → hib_active h = true → touches h t = false) →
  held regions t.
Proof.
  intros Ho Hno i. rewrite hibernated_for_hold, Ho. split; [done|]. intros (h & Hi & Ha & Ht). by rewrite (Hno i h) in Ht.
Qed.

(** A task that nothing holds any more is touched by no active region. *)
Lemma released_untouched regions t bits dbg : held regions t → hold t = Some (bits, dbg) → bits = 0%Z →
  ∀ i h, regions !! i = Some h → hib_active h = true → touches h t = false.
Proof.
  intros Hh Ho -> i h Hi Ha. destruct (touches h t) eqn:Et; [|done].
  assert (hibernated_for t i = true) as E by (apply Hh; eauto). by rewrite hibernated_for_hold, Ho, Z.bits_0 in E.
Qed.

(** [try_restore] does not panic: a suspended, unfaulted task has a buffered reply
    exactly when it waits for one. *)
Lemma try_restore_ok regions mem t : task_pre regions t →
  ∃ b t' mem', try_restore regions mem t = Ret (b, t', mem') ∧ task_inv regions t' ∧
    t_descriptor t' = t_descriptor t ∧ (hold t = None → t' = t).
Proof.
  intros (Hok & Hb & Hh & Hbt). unfold try_restore. destruct (t_state t) as [s|f s|s fi bits dbg] eqn:Es.
  1,2: eexists _, _, _; split; [done|]; split; [|done]; unfold task_inv, reason_ok, hold; rewrite Es; cbn; tauto.
  assert (hold t = Some (bits, dbg)) as Ho by (unfold hold; by rewrite Es).
  unfold bf_is_empty. case_bool_decide as Hz; cbn [negb orb].
  2:{ eexists _, _, _. split; [done|]. split; [|done]. unfold task_inv, reason_ok. rewrite Ho.
      do 3 (split; [done|]). split; [by left|done]. }
  destruct dbg; [eexists _, _, _; split; [done|]; split; [|done]; unfold task_inv, reason_ok; rewrite Ho; cbn;
    do 3 (split; [done|]); split; [by right|done]|].
  assert (∀ s', match s' with Suspended _ _ _ _ => False | Healthy (InSuspendedReply _) => False | _ => True end →
    task_inv regions (set_state (set_buffer t None) s')) as Hfin.
  { intros s' Hs'. unfold task_inv. split; [split; [apply Hok|]|split; [|split; [|split]]]; try done.
    - by destruct s'.
    - unfold buffer_ok. cbn. destruct s' as [[]| |]; done.
    - apply held_none; [by destruct s'|]. intros i h Hi Ha. exact (released_untouched regions t bits false Hh Ho Hz i h Hi Ha).
    - unfold reason_ok, hold. cbn. by destruct s'. }
  assert (∀ x (mem' : Z → Z), match x with Suspended _ _ _ _ => False | Healthy (InSuspendedReply _) => False | _ => True end →
    ∃ b t' mem'', (let t1 := set_state (set_buffer t None) (fst (x, mem')) in
      Ret (match t_state t1 with Faulted _ _ => true | _ => false end, t1, snd (x, mem'))) = Ret (b, t', mem'') ∧
      task_inv regions t' ∧ t_descriptor t' = t_descriptor t ∧ (hold t = None → t' = t)) as Hend.
  { intros x mem' Hx. eexists _, _, _. split; [done|]. split; [by apply Hfin|]. split; [done|]. by rewrite Ho. }
  unfold buffer_ok in Hb. rewrite Es in Hb. destruct fi as [fi|]; [cbn [ebind]; by apply Hend|].
  destruct (t_suspension_buffer t) as [buf|] eqn:Eb.
  - destruct s; try (destruct Hb as [Hb _]; discriminate (Hb (ex_intro _ _ eq_refl))).
    destruct (sa_response _) as [dest|e]; [|cbn [ebind]; by apply Hend]. unfold try_write.
    destruct (assert_access_total regions 1 (set_buffer t None) dest ATTR_WRITE ATTR_DMA) as [r ->]. cbn [ebind].
    destruct r; cbn [ebind]; by apply Hend.
  - destruct s; try (cbn [ebind]; by apply Hend). destruct Hb as [_ Hb]. by destruct (Hb eq_refl).
Qed.

(** * Hibernating a region *)

Section change.
Context (regions : list HibernationRegionDesc) (i : nat) (h h' : HibernationRegionDesc).
Context (Hi : regions !! i = Some h) (Hi32 : i < 32).
Context (Hbase : hib_base h' = hib_base h) (Hsize : hib_size h' = hib_size h).

#[local] Abbreviation regions' := (<[i := h']> regions).

Lemma overlaps_same {R} `{MemoryRegion R} (r : R) : overlaps h' r = overlaps h r.
Proof. unfold overlaps, hib_end. by rewrite Hbase, Hsize. Qed.

Lemma touches_same t : touches h' t = touches h t.
Proof. unfold touches. induction (region_table t) as [|r rs IH]; [done|]. cbn. by rewrite overlaps_same, IH. Qed.

Lemma changed_lookup : regions' !! i = Some h'.
Proof. apply list_lookup_insert_eq. by eapply lookup_lt_Some. Qed.

Lemma other_lookup j : j ≠ i → regions' !! j = regions !! j.
Proof. intros. by rewrite list_lookup_insert_ne. Qed.

(** How the bits of a task must change with the region. *)
Lemma held_change t t' : held regions t → region_table t' = region_table t →
  (∀ j, j ≠ i → hibernated_for t' j = hibernated_for t j) →
  hibernated_for t' i = hib_active h' && touches h t → held regions' t'.
Proof.
  intros Hh Hrt Hother Hself j.
  assert (∀ x, touches x t' = touches x t) as Htt by (intros; unfold touches; by rewrite Hrt).
  destruct (decide (j = i)) as [->|Hj].
  - rewrite Hself, changed_lookup, andb_true_iff. split.
    + intros [Ha Ht]. exists h'. rewrite Htt, touches_same. done.
    + intros (x & [= <-] & Ha & Ht). by rewrite Htt, touches_same in Ht.
  - rewrite Hother, other_lookup by done. pose proof (Hh j) as Hj'. rewrite Hj'.
    split; intros (x & Hx & Ha & Ht); exists x; rewrite Htt in *; done.
Qed.

Lemma hibernate_task_ok t : hib_active h = false → hib_active h' = true → task_inv regions t →
  ∃ t', task_hibernate_region t regions' i = Ret t' ∧ task_inv regions' t' ∧ (touches h t = false → t' = t).
Proof.
  intros Hoff Hon ([Hr Hst] & Hb & Hh & Hre & Hbt). assert (task_ok t) as Hok by done. unfold task_hibernate_region.
  rewrite (idx_ok _ _ _ changed_lookup). cbn [ebind]. change (existsb (overlaps h') (region_table t)) with (touches h' t).
  rewrite touches_same. assert (hibernated_for t i = false) as Hno.
  { destruct (hibernated_for t i) eqn:E; [|done]. apply Hh in E as (x & Hx & Ha & _). congruence. }
  destruct (touches h t) eqn:Et; cbn [negb].
  2:{ exists t. split; [done|]. split; [|done]. do 2 (split; [done|]). split; [|done].
      apply (held_change t); [done|done|done|]. by rewrite Hno, Et, andb_false_r. }
  unfold hibernated_for in Hno.
  destruct (t_state t) as [s|f s|s fi bits dbg] eqn:Es; (eexists; split; [done|]; split; [|done]);
    unfold task_inv, task_ok, buffer_ok, reason_ok, hold in *; rewrite Es in *; cbn [t_state set_state] in *.
  - split; [split; [done|apply bitmask_u]|]. split; [|split; [|split; [left; by apply bitmask_nonzero|done]]].
    + cbn. destruct Hb as [-> Hb]. split; [by intros [? ?]|congruence].
    + apply (held_change t); [done|done| |]; unfold hibernated_for; cbn; rewrite ?Es.
      * intros j Hj. unfold of_region. rewrite bitmask_bit by done. by rewrite bool_decide_false.
      * unfold of_region. rewrite bitmask_bit by done. by rewrite bool_decide_true, Hon, Et.
  - split; [split; [done|apply bitmask_u]|]. split; [done|]. split; [|split; [left; by apply bitmask_nonzero|done]].
    apply (held_change t); [done|done| |]; unfold hibernated_for; cbn; rewrite ?Es.
    + intros j Hj. unfold of_region. rewrite bitmask_bit by done. by rewrite bool_decide_false.
    + unfold of_region. rewrite bitmask_bit by done. by rewrite bool_decide_true, Hon, Et.
  - split; [split; [done|by apply bf_insert_u]|]. split; [by cbn|]. split; [|split; [|done]].
    + apply (held_change t); [done|done| |]; unfold hibernated_for; cbn; rewrite ?Es.
      * intros j Hj. rewrite bf_insert_bit by done. by rewrite bool_decide_false, orb_false_r.
      * rewrite bf_insert_bit by done. by rewrite bool_decide_true, orb_true_r, Hon, Et.
    + left. intros E. apply (f_equal (λ z, Z.testbit z (Z.of_nat i))) in E.
      by rewrite bf_insert_bit, bool_decide_true, orb_true_r, Z.bits_0 in E.
Qed.

(** * Restoring a region *)

Lemma restore_task_region_ok mode mem t : hib_active h' = false → task_inv regions t →
  ∃ b t' mem', task_restore_region regions' mem t i mode = Ret (b, t', mem') ∧ task_inv regions' t' ∧
    (hold t = None → t' = t).
Proof.
  intros Hoff ([Hr Hst] & Hb & Hh & Hre & Hbt). assert (task_ok t) as Hok by done. unfold task_restore_region.
  destruct (t_state t) as [s|f s|s fi bits dbg] eqn:Es.
  1,2: eexists _, _, _; split; [done|]; split; [|done]; do 2 (split; [done|]);
    split; [|done]; apply (held_change t); [done|done|done|]; rewrite Hoff; unfold hibernated_for; by rewrite Es.
  cbn [bf_take]. set (fi' := match negb _ with true => _ | false => _ end).
  match goal with |- context [try_restore _ _ ?t1] =>
    destruct (try_restore_ok regions' mem t1) as (b & t' & mem' & E & Hinv & _ & _) end.
  - split; [split; [done|by apply ldiff_u]|]. split; [|split; [|done]].
    + unfold buffer_ok in *. rewrite Es in Hb. cbn. subst fi'. destruct fi as [fi|].
      * destruct (negb _), mode; cbn; try done. by destruct fi.
      * destruct (negb _), mode; done.
    + apply (held_change t); [done|done| |]; unfold hibernated_for; cbn; rewrite ?Es.
      * intros j Hj. rewrite Z.ldiff_spec, bitmask_bit by done. by rewrite bool_decide_false, andb_true_r.
      * rewrite Z.ldiff_spec, bitmask_bit by done. by rewrite bool_decide_true, andb_false_r, Hoff.
  - exists b, t', mem'. split; [exact E|]. split; [done|]. unfold hold. by rewrite Es.
Qed.
End change.

(** * Walks over the task table *)

Lemma each_task_ok {X} (f : X → Task → exec (X * Task)) (P : Task → Prop) (R : Task → Task → Prop) x tasks :
  (∀ x t, P t → ∃ x' t', f x t = Ret (x', t') ∧ R t t') → Forall P tasks →
  ∃ x' tasks', each_task f x tasks = Ret (x', tasks') ∧ Forall2 R tasks tasks'.
Proof.
  intros Hf Hall. revert x. induction Hall as [|t tasks Ht _ IH]; intros x; cbn [each_task]; [by eexists _, _|].
  destruct (Hf x t Ht) as (x1 & t' & -> & Hr). cbn [ebind fst snd]. destruct (IH x1) as (x2 & ts & -> & Hrs).
  cbn [ebind fst snd]. eexists _, _. split; [done|]. by constructor.
Qed.

(** The supervisor is not suspended by a walk that leaves unsuspended tasks that
    qualify alone. *)
Lemma tasks_inv_walk regions regions' tasks tasks' (R : Task → Task → Prop) :
  tasks_inv regions tasks → Forall2 R tasks tasks' → (∀ t t', R t t' → task_inv regions' t') →
  (∀ t t', tasks !! 0 = Some t → R t t' → is_suspended t = false → is_suspended t' = false) →
  tasks_inv regions' tasks'.
Proof.
  intros [Hall (t0 & Ht0 & Hs0)] HR Hinv H0. split.
  - apply Forall_lookup_2. intros j t' Hj. destruct (Forall2_lookup_r _ _ _ _ _ HR Hj) as (t & _ & Hr). eauto.
  - destruct (Forall2_lookup_l _ _ _ _ _ HR Ht0) as (t0' & Ht0' & Hr). exists t0'. eauto.
Qed.

Lemma wp_length {A} (m : sys A) Q k : wp m Q k → wp m (λ a k', Q a k' ∧ length (k_tasks k') = length (k_tasks k)) k.
Proof. intros (r & k' & E & Hl & H). exists r, k'. split; [done|]. split; [done|]. by destruct r. Qed.

Lemma wp_each_index l f k : kinv k → Forall (λ i, i < length (k_tasks k)) l →
  (∀ i k, kinv k → i < length (k_tasks k) → wp (f i) (λ _ k', kinv k') k) →
  wp (each_index l f) (λ _ k', kinv k') k.
Proof.
  intros Hk Hl Hf. revert k Hk Hl. induction l as [|i l IH]; intros k Hk Hl; [by apply wp_ret|]. cbn [each_index].
  apply Forall_cons_1 in Hl as [Hi Hl]. apply wp_bind. eapply wp_mono; [apply wp_length, (Hf i k Hk Hi)|].
  cbn. intros u k1 [Hk1 Hlen]. apply IH; [done|]. by rewrite Hlen.
Qed.

Lemma seq_bounds n : Forall (λ i, i < n) (seq 0 n).
Proof. apply Forall_lookup_2. intros i x Hx. apply lookup_seq in Hx. lia. Qed.

(** * Message passing after a restore *)

Lemma wp_deliver_or_fault i j ti tj k : kinv k → i ≠ j →
  k_tasks k !! i = Some ti → healthy (t_state ti) → k_tasks k !! j = Some tj → healthy (t_state tj) →
  wp (deliver_or_fault i j) (λ _ k', kinv k') k.
Proof.
  intros Hk Hij Hi Hhi Hj Hhj. apply wp_bind. eapply wp_deliver; [done|done|exact Hi|done|exact Hj|done|..].
  - intros k' Hk' _. by apply wp_ret.
  - intros f k1 Hk1 Hf1 _. apply wp_apply_both; [done|..|done]; rewrite (frame_length _ _ _ Hf1); by eapply lookup_lt_Some.
Qed.

Lemma wp_find_sender i id specific k : kinv k →
  wp (find_sender i id specific) (λ r k', k' = k ∧ ∀ s, r = Some s →
    ∃ t, k_tasks k !! s = Some t ∧ is_sending_to (t_state t) id = true) k.
Proof.
  intros Hk. apply wp_bind, wp_tasks_of. destruct specific as [sid|].
  - cbv zeta. case_decide as Hl; [|apply wp_ret; done]. destruct (kinv_lookup k _ Hl) as [t Ht].
    apply wp_bind, (wp_task_at _ _ t); [done|]. apply wp_ret. split; [done|]. intros s.
    destruct (is_sending_to _ _) eqn:E; [|done]. intros [= <-]. eauto.
  - destruct (priority_scan_total i (k_tasks k) (λ t, is_sending_to (t_state t) id)) as (r & E & Hr).
    apply wp_bind. eapply wp_lift; [exact E|]. apply wp_ret. split; [done|]. intros s Hs.
    destruct r as [[s' t]|]; [|done]. injection Hs as ->. destruct (Hr s t eq_refl). eauto.
Qed.

Lemma wp_reconcile_one i k : kinv k → i < length (k_tasks k) → wp (reconcile_one i) (λ _ k', kinv k') k.
Proof.
  intros Hk Hi. apply wp_bind, wp_id_of; [done|]. intros id _. destruct (kinv_lookup k i Hi) as [t Ht].
  apply wp_bind, (wp_task_at _ _ t); [done|]. destruct (t_state t) as [[]| |] eqn:Es; try by apply wp_ret.
  - apply wp_bind, wp_tasks_of, wp_bind. destruct (check_task_id_total (k_tasks k) peer) as (r & E & Hr).
    eapply wp_lift; [exact E|]. destruct r as [j|]; [|by apply wp_ret]. destruct (kinv_lookup k j Hr) as [tj Htj].
    apply wp_bind, (wp_task_at _ _ tj); [done|]. destruct (can_accept_message_from _ _) eqn:Ea; [|by apply wp_ret].
    apply can_accept_healthy in Ea as [x Ex]. eapply wp_deliver_or_fault; [done| |exact Ht|by rewrite Es; eexists|exact Htj|by rewrite Ex; eexists].
    intros ->. rewrite Ht in Htj. injection Htj as ->. congruence.
  - apply wp_bind. eapply wp_mono; [by apply wp_find_sender|]. cbn. intros r k1 [-> Hr].
    destruct r as [s|]; [|by apply wp_ret]. destruct (Hr s eq_refl) as (ts & Hts & Hsend).
    apply sending_healthy in Hsend as [x Ex].
    eapply wp_deliver_or_fault; [done| |exact Hts|by rewrite Ex; eexists|exact Ht|by rewrite Es; eexists].
    intros ->. rewrite Ht in Hts. injection Hts as ->. congruence.
Qed.

Lemma wp_reconcile k : kinv k → wp reconcile_ipc (λ _ k', kinv k') k.
Proof.
  intros Hk. apply wp_bind, wp_tasks_of. apply wp_each_index; [done|apply seq_bounds|]. intros. by apply wp_reconcile_one.
Qed.

Lemma kinv_sup k : kinv k → 0 < length (k_tasks k).
Proof. intros (_ & _ & _ & t0 & Ht0 & _). by eapply lookup_lt_Some. Qed.

Lemma wp_notify b k : kinv k → wp (notify_supervisor b) (λ _ k', kinv k') k.
Proof.
  intros Hk. unfold notify_supervisor. destruct b; [|by apply wp_ret].
  apply wp_bind, wp_post_to; [done|by apply kinv_sup|]. intros b k' Hk' _. by apply wp_ret.
Qed.

(** * The handlers *)

Lemma wp_deserialize {T} (de : list Z → option T) i m (Q : T → Kernel → Prop) k : kinv k → i < length (k_tasks k) →
  (∀ a, Q a k) → wp (deserialize_message de i m) Q k.
Proof.
  intros Hk Hi HQ. apply wp_bind, wp_check_access; [done|intros; apply assert_access_total|]. intros [u|f]; [|by apply wp_fail].
  apply wp_bind, wp_memory. destruct (de _); [by apply wp_ret|by apply wp_fail].
Qed.

Lemma wp_serialize {T} (ser : T → list Z → list Z * SerResult) size i buf val (Q : Z → Kernel → Prop) k :
  kinv k → i < length (k_tasks k) →
  (∀ n k', kinv k' → k_tasks k' = k_tasks k → Q n k') → wp (serialize_response ser size i buf val) Q k.
Proof.
  intros Hk Hi HQ. apply wp_bind, wp_check_access; [done|intros; apply assert_access_total|]. intros [u|f]; [|by apply wp_fail].
  apply wp_bind, wp_memory. destruct (ser _ _) as [data r]. apply wp_bind, wp_put_memory.
  destruct r; [apply wp_ret; by apply HQ|apply wp_ret; by apply HQ|by apply wp_fail].
Qed.

Lemma wp_respond i n k : kinv k → i < length (k_tasks k) → wp (respond i n) (λ _ k', kinv k') k.
Proof. intros Hk Hi. apply wp_bind, wp_update_save; [done|done|]. intros k' Hk' _. by apply wp_ret. Qed.

Lemma wp_require_supervisor i (Q : unit → Kernel → Prop) k : kinv k → (i = 0 → Q tt k) → wp (require_supervisor i) Q k.
Proof. intros Hk HQ. unfold require_supervisor. case_decide; [by apply wp_fail|]. apply wp_ret, HQ. lia. Qed.

Lemma find_region_ok base size n regions i h : find_region base size n regions = Some (i, h) →
  n ≤ i ∧ regions !! (i - n) = Some h.
Proof.
  revert n. induction regions as [|r rs IH]; intros n; [done|]. cbn [find_region]. case_decide.
  - intros [= <- <-]. by rewrite Nat.sub_diag.
  - intros [Hn Hl]%IH. split; [lia|]. replace (i - n) with (S (i - S n)) by lia. done.
Qed.

Lemma hibernate_ok_inv h i h' ev : hibernate h i = (h', Ok ev) →
  hib_active h = false ∧ hib_active h' = true ∧ hib_base h' = hib_base h ∧ hib_size h' = hib_size h ∧
  hib_next_generation h' = (hib_next_generation h + 1)%Z ∧ event_from_parts i (hib_next_generation h) = Some ev ∧
  (hib_next_generation h + 1 < 2 ^ 32)%Z.
Proof.
  unfold hibernate. destruct (hib_active h); [done|]. destruct (event_from_parts i _) as [e|] eqn:Ee; [|done].
  case_decide; [|done]. by intros [= <- <-].
Qed.

Lemma hib_wf_hibernate h i h' ev : hib_wf h → hibernate h i = (h', Ok ev) → hib_wf h'.
Proof.
  intros (Hok & Hu & _) (_ & _ & Hb & Hs & Hg & _ & Hlt)%hibernate_ok_inv. unfold hib_wf, hib_ok, is_u in *.
  rewrite Hb, Hs, Hg. lia.
Qed.

Lemma restore_ok_inv h ev h' u : restore h ev = (h', Ok u) →
  hib_active h = true ∧ hib_active h' = false ∧ hib_base h' = hib_base h ∧ hib_size h' = hib_size h ∧
  hib_next_generation h' = hib_next_generation h ∧ event_generation ev = (hib_next_generation h - 1)%Z.
Proof.
  unfold restore. destruct (hib_active h); [|done]. cbn [negb]. case_decide; [done|]. case_decide as Hne; [done|].
  intros [= <- _]. cbn. repeat split; try done.
Qed.

Lemma hib_wf_restore h ev h' u : hib_wf h → restore h ev = (h', Ok u) → hib_wf h'.
Proof.
  intros (Hok & Hu & _) (_ & Hoff & Hb & Hs & Hg & _)%restore_ok_inv. unfold hib_wf, hib_ok in *.
  rewrite Hb, Hs, Hg, Hoff. done.
Qed.

Lemma regions_wf_insert regions i h' : Forall hib_wf regions → length regions ≤ 32 → hib_wf h' →
  Forall hib_wf (<[i := h']> regions) ∧ length (<[i := h']> regions) ≤ 32.
Proof. intros Hr Hl Hh. split; [by apply Forall_insert|len]. Qed.

Section handlers.
Context `{Marshal} {K : Type} `{MemoryRegion K} (kernel_regions : list K).

Lemma unprotected_supervisor region tasks t0 :
  overlaps_protected_memory kernel_regions region tasks = false → tasks !! 0 = Some t0 → touches region t0 = false.
Proof.
  unfold overlaps_protected_memory. intros [_ Hp]%orb_false_iff Ht0. destruct tasks as [|t ts]; [done|].
  injection Ht0 as ->. cbn in Hp. by apply orb_false_iff in Hp as [? _].
Qed.

(** A region is hibernated: every task with memory in it is suspended, the others
    and the supervisor are not touched. *)
Lemma wp_hibernate_locked base size k : kinv k →
  wp (hibernate_locked kernel_regions base size) (λ _ k', kinv k') k.
Proof.
  intros Hk. pose proof Hk as (Hl & Hr & Hinv). apply wp_bind, wp_regions_of, wp_bind, wp_tasks_of.
  destruct (find_region base size 0 (k_regions k)) as [[i h]|] eqn:Ef; [|by apply wp_ret].
  apply find_region_ok in Ef as [_ Hi]. rewrite Nat.sub_0_r in Hi.
  destruct (overlaps_protected_memory _ _ _) eqn:Ep; [by apply wp_ret|].
  destruct (hibernate h _) as [h' [ev|e]] eqn:Eh; [|by apply wp_ret].
  pose proof (hib_wf_hibernate _ _ _ _ (Forall_lookup_1 _ _ _ _ Hr Hi) Eh) as Hwf.
  apply hibernate_ok_inv in Eh as (Hoff & Hon & Hb & Hs & _). pose proof (lookup_lt_Some _ _ _ Hi) as Hlt.
  apply wp_bind, wp_put_regions. set (regions' := <[i := h']> (k_regions k)).
  destruct (each_task_ok (λ _ t, let! t := task_hibernate_region t regions' i in Ret (tt, t)) (task_inv (k_regions k))
    (λ t t', task_inv regions' t' ∧ (touches h t = false → t' = t)) tt (k_tasks k)) as (u & ts & E & HR).
  { intros [] t Ht. destruct (hibernate_task_ok (k_regions k) i h h' Hi ltac:(lia) Hb Hs t Hoff Hon Ht) as (t' & E & ? & ?).
    exists tt, t'. fold regions' in E. by rewrite E. }
  { apply Hinv. }
  apply wp_bind. eapply wp_lift; [exact E|]. apply wp_bind, wp_put_tasks; [symmetry; by eapply Forall2_length|].
  apply wp_ret. destruct (regions_wf_insert (k_regions k) i h' Hr Hl Hwf) as [Hr' Hl'].
  split; [done|]. split; [done|]. eapply tasks_inv_walk; [done|exact HR|by intros t t' [? _]|].
  intros t t' Ht [_ Heq] Hs0. rewrite Heq; [done|]. by eapply unprotected_supervisor.
Qed.

Lemma wp_hibernate_region i m r k : kinv k → i < length (k_tasks k) →
  wp (hibernate_region kernel_regions i m r) (λ _ k', kinv k') k.
Proof.
  intros Hk Hi. apply wp_bind, wp_require_supervisor; [done|]. intros _. apply wp_bind, wp_deserialize; [done|done|]. intros bs.
  apply wp_bind. eapply wp_mono; [by apply wp_length, wp_hibernate_locked|]. cbn. intros res k1 [Hk1 Hl1].
  destruct res as [ev|e]; [|by apply wp_fail]. apply wp_bind, wp_serialize; [done|by rewrite Hl1|].
  intros n k2 Hk2 Et2. apply wp_respond; [done|by rewrite Et2, Hl1].
Qed.

(** A region is restored: its tasks are let go, unless something else holds them. *)
Lemma wp_restore_event ev mode k : kinv k → wp (restore_event ev mode) (λ _ k', kinv k') k.
Proof.
  intros Hk. pose proof Hk as (Hl & Hr & Hinv). apply wp_bind, wp_bind, wp_regions_of. cbv zeta.
  set (i := Z.to_nat (event_index ev)). destruct (k_regions k !! i) as [h|] eqn:Hi; [|apply wp_ret; by apply wp_fail].
  destruct (restore h ev) as [h' [u|e]] eqn:Er; [|apply wp_ret; by apply wp_fail].
  pose proof (hib_wf_restore _ _ _ _ (Forall_lookup_1 _ _ _ _ Hr Hi) Er) as Hwf.
  apply restore_ok_inv in Er as (Hon & Hoff & Hb & Hs & _). pose proof (lookup_lt_Some _ _ _ Hi) as Hlt.
  apply wp_bind, wp_put_regions, wp_ret, wp_bind, wp_regions_of, wp_bind, wp_memory, wp_bind, wp_tasks_of.
  cbn [k_regions k_mem k_tasks]. set (regions' := <[i := h']> (k_regions k)).
  destruct (each_task_ok (λ fm t, let! r := task_restore_region regions' (snd fm) t i mode in
      Ret ((fst fm || fst (fst r), snd r), snd (fst r))) (task_inv (k_regions k))
    (λ t t', task_inv regions' t' ∧ (hold t = None → t' = t)) (false, k_mem k) (k_tasks k)) as ([b mem] & ts & E & HR).
  { intros fm t Ht. destruct (restore_task_region_ok (k_regions k) i h h' Hi ltac:(lia) Hb Hs mode (snd fm) t Hoff Ht)
      as (b & t' & mem' & E & ? & ?). fold regions' in E. rewrite E. by eexists _, _. }
  { apply Hinv. }
  apply wp_bind. eapply wp_lift; [exact E|]. cbn [fst snd].
  apply wp_bind, wp_put_tasks; [symmetry; by eapply Forall2_length|]. apply wp_bind, wp_put_memory.
  destruct (regions_wf_insert (k_regions k) i h' Hr Hl Hwf) as [Hr' Hl'].
  apply wp_bind. eapply wp_mono; [apply wp_notify|intros u0 k1 Hk1; by apply wp_reconcile].
  split; [done|]. split; [done|]. eapply tasks_inv_walk; [done|exact HR|by intros t t' [? _]|].
  intros t t' Ht [_ Heq] Hs0. rewrite Heq; [done|]. rewrite is_suspended_hold in Hs0. by destruct (hold t).
Qed.

Lemma wp_restore_region i m k : kinv k → i < length (k_tasks k) → wp (restore_region i m) (λ _ k', kinv k') k.
Proof.
  intros Hk Hi. apply wp_bind, wp_require_supervisor; [done|]. intros _. apply wp_bind, wp_deserialize; [done|done|]. intros em.
  apply wp_bind. eapply wp_mono; [by apply wp_length, wp_restore_event|]. cbn. intros u k1 [Hk1 Hl1].
  apply wp_respond; [done|by rewrite Hl1].
Qed.

(** * Hibernated memory *)

Lemma wp_first_lease i k (Q : ULease → Kernel → Prop) : kinv k → i < length (k_tasks k) → (∀ l, Q l k) → wp (first_lease i) Q k.
Proof.
  intros Hk Hi HQ. destruct (kinv_lookup k i Hi) as [t Ht]. apply wp_bind, (wp_task_at _ _ t); [done|].
  apply wp_bind, wp_of_result; [done|]. intros tbl _.
  apply wp_bind, wp_check_access; [done|intros; apply assert_access_total|]. intros [u|f]; [|by apply wp_fail].
  case_decide; [by apply wp_fail|]. apply wp_bind, wp_memory. by apply wp_ret.
Qed.

Lemma wp_hibernated_span a n (Q : unit → Kernel → Prop) k : kinv k → Q tt k → wp (hibernated_span a n) Q k.
Proof. intros Hk HQ. apply wp_bind, wp_regions_of. case_match; [by apply wp_ret|by apply wp_fail]. Qed.

Lemma wp_read_hibernated i m k : kinv k → i < length (k_tasks k) → wp (read_hibernated_region i m) (λ _ k', kinv k') k.
Proof.
  intros Hk Hi. apply wp_bind, wp_require_supervisor; [done|]. intros _. apply wp_bind, wp_deserialize; [done|done|]. intros [a n].
  apply wp_bind, wp_hibernated_span; [done|]. apply wp_bind, wp_first_lease; [done|done|]. intros l.
  case_match; [by apply wp_fail|]. apply wp_bind, wp_check_access; [done|intros; apply assert_access_total|].
  intros [u|f]; [|by apply wp_fail]. apply wp_bind, wp_memory, wp_bind, wp_put_memory. by apply wp_respond.
Qed.

Lemma wp_write_hibernated i m k : kinv k → i < length (k_tasks k) → wp (write_hibernated_region i m) (λ _ k', kinv k') k.
Proof.
  intros Hk Hi. apply wp_bind, wp_require_supervisor; [done|]. intros _. apply wp_bind, wp_deserialize; [done|done|]. intros [a n].
  apply wp_bind, wp_hibernated_span; [done|]. apply wp_bind, wp_first_lease; [done|done|]. intros l.
  case_match; [by apply wp_fail|]. apply wp_bind, wp_check_access; [done|intros; apply assert_access_total|].
  intros [u|f]; [|by apply wp_fail]. apply wp_bind, wp_memory, wp_bind, wp_put_memory. by apply wp_respond.
Qed.

(** * Suspension and restart *)

Lemma request_debug_inv regions t : task_inv regions t → task_inv regions (request_debug t).
Proof.
  intros ([Hr Hst] & Hb & Hh & Hre & Hbt). unfold request_debug, held, hibernated_for in *.
  unfold task_inv, task_ok, buffer_ok, held, reason_ok, hold, hibernated_for in *.
  destruct (t_state t) as [s|f s|s fi bits dbg] eqn:Es; cbn [t_state set_state t_suspension_buffer t_descriptor] in *.
  - split; [split; [done|const_u]|]. split; [destruct Hb as [-> ->]; by split; [intros [? ?]|]|].
    split; [|split; [by right|done]]. intros i. unfold bf_empty. rewrite Z.bits_0. apply Hh.
  - split; [split; [done|const_u]|]. split; [done|]. split; [|split; [by right|done]].
    intros i. unfold bf_empty. rewrite Z.bits_0. apply Hh.
  - split; [by split|]. split; [done|]. split; [done|]. split; [by right|done].
Qed.

Lemma wp_suspend_task i m k : kinv k → i < length (k_tasks k) → wp (suspend_task i m) (λ _ k', kinv k') k.
Proof.
  intros Hk Hi. apply wp_bind, wp_require_supervisor; [done|]. intros _. apply wp_bind, wp_deserialize; [done|done|]. intros n.
  cbv zeta. apply wp_bind, wp_tasks_of. case_decide; [by apply wp_fail|]. case_decide; [by apply wp_fail|].
  destruct (kinv_lookup k (Z.to_nat n)) as [t Ht]; [lia|]. apply wp_bind. eapply wp_update_task; [exact Ht|done|].
  apply wp_respond; [|cbn; len]. apply (kinv_insert k _ t); try done. by eapply request_debug_inv, kinv_task.
Qed.

Lemma disable_debug_ok regions mem t : task_inv regions t →
  ∃ b t' mem', disable_debug regions mem t = Ret (b, t', mem') ∧ task_inv regions t' ∧ (hold t = None → t' = t).
Proof.
  intros Hinv. pose proof Hinv as ([Hr Hst] & Hb & Hh & Hre & Hbt). unfold disable_debug.
  destruct (t_state t) as [s|f s|s fi bits dbg] eqn:Es; [by eexists _, _, _|by eexists _, _, _|].
  destruct (try_restore_ok regions mem (set_state t (Suspended s fi bits false))) as (b & t' & mem' & -> & Hi & _ & _).
  - split; [done|]. split; [unfold buffer_ok in *; by rewrite Es in Hb|]. split; [|done].
    intros i. specialize (Hh i). unfold hibernated_for in *. by rewrite Es in Hh.
  - exists b, t', mem'. split; [done|]. split; [done|]. unfold hold. by rewrite Es.
Qed.

Lemma wp_disable_debug_at n k : kinv k → n < length (k_tasks k) → wp (disable_debug_at n) (λ _ k', kinv k') k.
Proof.
  intros Hk Hn. destruct (kinv_lookup k n Hn) as [t Ht].
  destruct (disable_debug_ok (k_regions k) (k_mem k) t) as (b & t' & mem' & E & Hinv & Hsame); [by eapply kinv_task|].
  apply wp_bind, wp_regions_of, wp_bind, wp_memory, wp_bind, (wp_task_at _ _ t); [done|].
  apply wp_bind. eapply wp_lift; [exact E|]. apply wp_bind. eapply wp_update_task; [exact Ht|done|].
  apply wp_bind, wp_put_memory, wp_ret. apply (kinv_insert k n t); try done. cbn. intros ->.
  destruct Hk as (_ & _ & _ & t0 & Ht0 & Hs0). rewrite Ht0 in Ht. injection Ht as ->.
  rewrite Hsame; [done|]. rewrite is_suspended_hold in Hs0. by destruct (hold t).
Qed.

Lemma wp_restore_task i m k : kinv k → i < length (k_tasks k) → wp (restore_task i m) (λ _ k', kinv k') k.
Proof.
  intros Hk Hi. apply wp_bind, wp_require_supervisor; [done|]. intros _. apply wp_bind, wp_deserialize; [done|done|]. intros n.
  cbv zeta. apply wp_bind, wp_tasks_of. case_decide; [by apply wp_fail|].
  apply wp_bind. eapply wp_mono; [apply wp_length, wp_disable_debug_at; [done|lia]|]. cbn. intros b k1 [Hk1 Hl1].
  apply wp_bind. eapply wp_mono; [by apply wp_length, wp_notify|]. cbn. intros u k2 [Hk2 Hl2].
  apply wp_bind. eapply wp_mono; [by apply wp_length, wp_reconcile|]. cbn. intros u' k3 [Hk3 Hl3].
  apply wp_respond; [done|lia].
Qed.

(** * Control of tasks *)

Lemma any_hibernated_none regions t pred : hold t = None → any_hibernated regions t pred = false.
Proof. unfold hold, any_hibernated. by destruct (t_state t). Qed.

Lemma assert_access_desc regions regions' size t t' s desired forbidden :
  t_descriptor t' = t_descriptor t → hold t = None → hold t' = None →
  assert_access regions size t s desired forbidden = assert_access regions' size t' s desired forbidden.
Proof.
  intros Hd Ho Ho'. unfold assert_access, region_table. rewrite Hd. destruct (can_access _ _ _) as [[]|]; try done.
  cbn. by rewrite !any_hibernated_none.
Qed.

(** Whether the initial frame of a task that is not suspended can be written
    depends on its descriptor alone. *)
Lemma arch_reinitialize_transfer regions mem t regions0 mem0 t0 r0 :
  arch_reinitialize regions0 mem0 t0 = Ret r0 → t_descriptor t = t_descriptor t0 → hold t0 = None → hold t = None →
  ∃ r, arch_reinitialize regions mem t = Ret r.
Proof.
  intros Hr0 Hd Ho0 Ho. unfold arch_reinitialize in *. rewrite <- Hd in Hr0.
  assert (∀ size s, try_write regions size t s = try_write regions0 size t0 s) as Hw.
  { intros. unfold try_write. by apply assert_access_desc. }
  assert (region_table t0 = region_table t) as Ert by (unfold region_table; by rewrite Hd). rewrite Ert in Hr0.
  repeat case_decide; try done. destruct (uslice_from_raw FRAME_SIZE _ _ _) as [fu|]; [|done].
  assert (∀ m, (∃ r, (let! r := try_write regions0 FRAME_SIZE t0 fu in let! _ := unwrap_access r in Ret r) = Ret r) →
    ∃ r, (let! r := try_write regions FRAME_SIZE t fu in let! _ := unwrap_access r in
      Ret (mkSaved 0 0 0 0 0 0 0 0 (us_base fu) EXC_RETURN_CONST,
        write_mem m (us_base fu) (initial_frame (td_entry_point (t_descriptor t))))) = Ret r) as Hend.
  { intros m [r Hr]. rewrite Hw. destruct (try_write regions0 FRAME_SIZE t0 fu) as [[]|]; try done. by eexists. }
  assert (∀ m : Z → Z, (let! r := try_write regions0 FRAME_SIZE t0 fu in let! _ := unwrap_access r in
      Ret (mkSaved 0 0 0 0 0 0 0 0 (us_base fu) EXC_RETURN_CONST,
        write_mem m (us_base fu) (initial_frame (td_entry_point (t_descriptor t))))) = Ret r0 →
    ∃ r, (let! r := try_write regions0 FRAME_SIZE t0 fu in let! _ := unwrap_access r in Ret r) = Ret r) as Hst.
  { intros m Hr. destruct (try_write regions0 FRAME_SIZE t0 fu) as [[]|]; try done. by eexists. }
  destruct (find _ _) as [reg|]; [|cbn [ebind] in *; by eapply Hend, Hst].
  destruct (uslice_from_raw 4 4 _ _) as [u|]; [|cbn [ebind] in *; by eapply Hend, Hst].
  rewrite Hw. destruct (try_write regions0 4 t0 u) as [[]|]; try done. cbn [ebind unwrap_access] in *. by eapply Hend, Hst.
Qed.

Lemma arch_reinitialize_ok regions mem t : boots (t_descriptor t) → hold t = None →
  ∃ r, arch_reinitialize regions mem t = Ret r.
Proof. intros [r0 Hr0] Ho. by eapply arch_reinitialize_transfer. Qed.

Lemma reinitialize_ok regions mem t : task_inv regions t → hold t = None →
  ∃ t' mem', reinitialize regions mem t = Ret (t', mem') ∧ task_inv regions t' ∧ t_state t' = Healthy Stopped.
Proof.
  intros Hinv Ho. pose proof Hinv as (_ & Hb & _ & _ & Hbt). unfold reinitialize.
  match goal with |- context [arch_reinitialize regions mem ?t1] =>
    destruct (arch_reinitialize_ok regions mem t1) as [[sv mem'] ->]; [done|done|] end.
  eexists _, _. split; [done|]. split; [|done]. eapply task_inv_same; [exact Hinv|done| |].
  - by rewrite Ho.
  - unfold buffer_ok. cbn. split; [|done]. unfold hold, buffer_ok in *. by destruct (t_state t); try done; destruct Hb.
Qed.

Lemma wp_reinitialize_at n t k : kinv k → k_tasks k !! n = Some t → hold t = None →
  wp (reinitialize_at n) (λ _ k', kinv k' ∧ ∃ t', k_tasks k' !! n = Some t' ∧ healthy (t_state t')) k.
Proof.
  intros Hk Ht Ho. destruct (reinitialize_ok (k_regions k) (k_mem k) t) as (t' & mem' & E & Hinv & Hs');
    [by eapply kinv_task|done|].
  apply wp_bind, wp_regions_of, wp_bind, wp_memory, wp_bind, (wp_task_at _ _ t); [done|].
  apply wp_bind. eapply wp_lift; [exact E|]. apply wp_bind. eapply wp_update_task; [exact Ht|done|].
  apply wp_put_memory. split; [|exists t'; split; [cbn; apply list_lookup_insert_eq; by eapply lookup_lt_Some|by rewrite Hs'; eexists]].
  apply (kinv_insert k n t); try done. intros _. cbn [fst]. unfold is_suspended. by rewrite Hs'.
Qed.

Lemma waits_for_live s p : waits_for s = Some p → live s ∧ match s with Healthy x | Suspended x _ _ _ => in_suspended_reply x = false | _ => False end.
Proof. destruct s as [[| | | | |[]]| |[| | | | |[]] [] ? ?]; done. Qed.

Lemma wp_unblock id g i k : kinv k → i < length (k_tasks k) → wp (unblock id g i) (λ _ k', kinv k') k.
Proof.
  intros Hk Hi. destruct (kinv_lookup k i Hi) as [t Ht]. apply wp_bind, (wp_task_at _ _ t); [done|].
  case_decide as Hw; [|by apply wp_ret]. pose proof (waits_for_live _ _ Hw) as [Hlive Hsr].
  pose proof (kinv_task k i t Hk Ht) as (_ & Hb & _).
  apply wp_bind. eapply wp_update_same; [done|exact Ht|done|done|done|exact Hb|]. intros k1 Hk1 _ _ Ht1.
  eapply wp_set_healthy; [done|exact Ht1|done| |by intros].
  unfold buffer_ok in *. cbn in *. destruct (t_state t) as [x| |x [] ? ?]; try done; cbn; [by destruct Hb|].
  rewrite Hsr in Hb. done.
Qed.

(** The restart of a task, behind the reading of the message. *)
Definition reinit_index (caller index : nat) (start : bool) : sys NextTask :=
  let* tasks := tasks_of in
  if decide (length tasks ≤ index) then fault (SyscallUsage TaskOutOfRange) else
  let* old_id := id_of index in
  let* t := task_at index in
  if is_suspended t then sfail (Recoverable TaskSuspended Same) else
  let* _ := reinitialize_at index in
  let* _ := if start then set_healthy index Runnable else sret tt in
  let* t := task_at index in
  let* _ := each_index (seq 0 (length tasks)) (λ i,
    if decide (i = caller ∨ i = index) then sret tt else unblock old_id (generation t) i) in
  if decide (index = caller) then
    if start then sret Same else sret Other
  else respond caller 0.

Lemma wp_reinit_index i n start k : kinv k → i < length (k_tasks k) → wp (reinit_index i n start) (λ _ k', kinv k') k.
Proof.
  intros Hk Hi. apply wp_bind, wp_tasks_of.
  case_decide; [by apply wp_fail|]. destruct (kinv_lookup k n) as [t Ht]; [lia|].
  apply wp_bind, wp_id_of; [lia|]. intros old _. apply wp_bind, (wp_task_at _ _ t); [done|].
  destruct (is_suspended t) eqn:Es; [by apply wp_fail|].
  assert (hold t = None) as Ho by (rewrite is_suspended_hold in Es; by destruct (hold t)).
  apply wp_bind. eapply wp_mono; [apply wp_length; by eapply wp_reinitialize_at|]. cbn.
  intros u k1 [[Hk1 (t1 & Ht1 & Hh1)] Hl1].
  assert (wp (if start then set_healthy n Runnable else sret tt)
    (λ _ k', kinv k' ∧ length (k_tasks k') = length (k_tasks k1)) k1) as Hstart.
  { apply wp_length. destruct start; [|by apply wp_ret].
    eapply wp_set_healthy_healthy; [done|exact Ht1|done|done|]. by intros. }
  apply wp_bind. eapply wp_mono; [exact Hstart|]. cbn. intros u' k2 [Hk2 Hl2].
  destruct (kinv_lookup k2 n) as [t2 Ht2]; [lia|]. apply wp_bind, (wp_task_at _ _ t2); [done|].
  apply wp_bind. eapply wp_mono; [apply wp_length, wp_each_index; [done| |]|].
  - rewrite Hl2, Hl1. apply seq_bounds.
  - intros j k' Hk' Hj. case_decide; [by apply wp_ret|by apply wp_unblock].
  - cbn. intros u'' k3 [Hk3 Hl3]. case_decide; [destruct start; by apply wp_ret|]. apply wp_respond; [done|lia].
Qed.

Lemma wp_reinit_task i m k : kinv k → i < length (k_tasks k) → wp (reinit_task i m) (λ _ k', kinv k') k.
Proof. intros Hk Hi. apply wp_bind, wp_deserialize; [done|done|]. intros [n start]. by apply wp_reinit_index. Qed.

Lemma wp_fault_task i m k : kinv k → i < length (k_tasks k) → wp (fault_task i m) (λ _ k', kinv k') k.
Proof.
  intros Hk Hi. apply wp_bind, wp_deserialize; [done|done|]. intros n. cbv zeta. apply wp_bind, wp_tasks_of.
  case_decide; [by apply wp_fail|]. case_decide; [by apply wp_fail|].
  destruct (kinv_lookup k (Z.to_nat n)) as [t Ht]; [lia|]. apply wp_bind, wp_id_of; [done|]. intros id _.
  apply wp_bind. eapply wp_force_fault; [done|exact Ht|]. intros nt k1 t1 Hk1 Hf1 _ _.
  apply wp_respond; [done|by rewrite (frame_length _ _ _ Hf1)].
Qed.

Lemma wp_read_task_status i m r k : kinv k → i < length (k_tasks k) → wp (read_task_status i m r) (λ _ k', kinv k') k.
Proof.
  intros Hk Hi. apply wp_bind, wp_deserialize; [done|done|]. intros n. apply wp_bind, wp_tasks_of.
  case_decide; [by apply wp_fail|]. destruct (kinv_lookup k (Z.to_nat n)) as [t Ht]; [lia|].
  apply wp_bind, (wp_task_at _ _ t); [done|]. apply wp_bind, wp_serialize; [done|done|]. intros len k1 Hk1 Et1.
  apply wp_respond; [done|by rewrite Et1].
Qed.

Lemma wp_find_faulted_task i m r k : kinv k → i < length (k_tasks k) → wp (find_faulted_task i m r) (λ _ k', kinv k') k.
Proof.
  intros Hk Hi. apply wp_bind, wp_deserialize; [done|done|]. intros n. cbv zeta. apply wp_bind, wp_tasks_of.
  case_decide; [by apply wp_fail|]. apply wp_bind. eapply wp_lift; [apply slice_ok; lia|].
  apply wp_bind, wp_serialize; [done|done|]. intros len k1 Hk1 Et1. apply wp_respond; [done|by rewrite Et1].
Qed.

(** The caller runs, so it is not the task that has panicked. *)
Lemma wp_read_panic_message i m r t k : kinv k → k_tasks k !! i = Some t → t_state t = Healthy Runnable →
  wp (read_panic_message i m r) (λ _ k', kinv k') k.
Proof.
  intros Hk Ht Hs. assert (i < length (k_tasks k)) as Hi by (by eapply lookup_lt_Some).
  apply wp_bind, wp_deserialize; [done|done|]. intros n. cbv zeta. apply wp_bind, wp_tasks_of.
  case_decide; [by apply wp_fail|]. destruct (kinv_lookup k (Z.to_nat n)) as [tn Htn]; [lia|].
  apply wp_bind, (wp_task_at _ _ tn); [done|]. destruct (is_panicked (t_state tn)) eqn:Ep; [|by apply wp_fail].
  cbn [negb]. destruct (as_panic_args _); [|by apply wp_fail].
  apply wp_bind, wp_copy; [done| |lia|done|].
  { intros <-. rewrite Ht in Htn. injection Htn as <-. by rewrite Hs in Ep. }
  intros res k1 Hk1 _ Et1 _. destruct res as [len|f]; [apply wp_respond; [done|by rewrite Et1]|].
  destruct (if_dst f); [by apply wp_fail|]. case_match; by apply wp_fail.
Qed.

(** * The chip *)

Lemma wp_read_image_id id i r k : kinv k → i < length (k_tasks k) → wp (read_image_id id i r) (λ _ k', kinv k') k.
Proof.
  intros Hk Hi. apply wp_bind, wp_serialize; [done|done|]. intros len k1 Hk1 Et1. apply wp_respond; [done|by rewrite Et1].
Qed.

Lemma wp_software_irq lk i m k : irq_table_ok lk → kinv k → i < length (k_tasks k) →
  wp (software_irq lk i m) (λ _ k', kinv k') k.
Proof.
  intros Hlk Hk Hi. apply wp_bind, wp_require_supervisor; [done|]. intros _. apply wp_bind, wp_deserialize; [done|done|].
  intros [n b]. apply wp_bind, wp_tasks_of. case_decide; [by apply wp_fail|]. apply wp_irqs; [done|done| |].
  - intros nv q Hq. by apply (irq_ops_ok nv q true).
  - intros nv. by apply wp_respond.
Qed.

(** * The dispatcher *)

(** The task asks for a reset of the chip. *)
Definition asks_reset (t : Task) : Prop :=
  sa_operation (as_send_args (t_save t)) = 5%Z ∧ ∃ m, sa_message (as_send_args (t_save t)) = Ok m.

Lemma handle_kernel_message_safe lk id k i t : irq_table_ok lk → kinv k → k_tasks k !! i = Some t →
  t_state t = Healthy Runnable → ¬ asks_reset t →
  wp (handle_kernel_message kernel_regions lk id i) (λ _ k', kinv k') k.
Proof.
  intros Hlk Hk Ht Hs Hre. assert (i < length (k_tasks k)) as Hi by (by eapply lookup_lt_Some).
  apply wp_bind, (wp_task_at _ _ t); [done|]. cbv zeta.
  assert (∀ (r : result USlice UsageError) (f : USlice → sys NextTask),
    (∀ s, r = Ok s → wp (f s) (λ _ k', kinv k') k) → wp (let* x := of_result r in f x) (λ _ k', kinv k') k) as Harg.
  { intros r f Hf. apply wp_bind, wp_of_result; [done|]. intros s Hs'. by apply Hf. }
  assert (∀ m, sa_operation (as_send_args (t_save t)) = 5%Z → sa_message (as_send_args (t_save t)) = Ok m → False) as Hno.
  { intros m ? ?. apply Hre. by split; [|exists m]. }
  unfold asks_reset in Hre. clear Hre. repeat case_match; try by apply wp_fail.
  all: apply Harg; intros mm Emm; try (apply Harg; intros rr Err).
  all: try by exfalso; eapply Hno.
  all: eauto using wp_read_task_status, wp_reinit_task, wp_fault_task, wp_find_faulted_task, wp_read_panic_message,
    wp_hibernate_region, wp_read_hibernated, wp_write_hibernated, wp_restore_region, wp_suspend_task, wp_restore_task,
    wp_read_image_id, wp_software_irq.
Qed.
End handlers.
