(* ===== verification/KernRun.v ===== *)
(** What runs next. Every call of the kernel ends with a hint which task to return
    to; here: a task named by a hint is runnable. The proofs are about calls that
    return, those of [KernSafe] and [KernKipcSafe] say that they do. *)

From S2P Require Import Prelude KernAccess KernState KernMem KernIrq KernTask KernSyscalls KernKipc KernInv KernSafe.
From S2P Require Import KernKipcSafe KernEntry.

(** * Predicates on the task table *)

Definition table := nat → TaskState → Prop.

Definition on (φ : table) (k : Kernel) : Prop := ∀ j t, k_tasks k !! j = Some t → φ j (t_state t).

Definition run (i : nat) : table := λ j s, j = i → s = Healthy Runnable.

(** What a hint to the caller [i] promises. *)
Definition hinted (i : nat) (nt : NextTask) : table :=
  match nt with
  | Same => run i
  | Specific x => run x
  | Other => λ _ _, True
  end.

Definition both (φ ψ : table) : table := λ j s, φ j s ∧ ψ j s.

(** A hint to another task than [i]. *)
Definition away (i : nat) (nt : NextTask) : Prop := match nt with Specific x => x ≠ i | _ => True end.

(** The hint's task, if any. *)
Definition hint_task (nt : NextTask) : table := match nt with Specific x => run x | _ => λ _ _, True end.

Lemma on_mono (φ ψ : table) k : (∀ j s, φ j s → ψ j s) → on φ k → on ψ k.
Proof. intros H Hk j t Hj. apply H, (Hk j t Hj). Qed.

Lemma on_both φ ψ k : on (both φ ψ) k ↔ on φ k ∧ on ψ k.
Proof. split; [intros H; split; intros j t Hj; by apply (H j t Hj)|]. intros [H1 H2] j t Hj. split; eauto. Qed.

(** * Triples *)

Definition hp {A} (i : nat) (P : Kernel → Prop) (m : sys A) (Q : A → Kernel → Prop) : Prop :=
  ∀ k r k', P k → m k = Ret (r, k') →
  match r with
  | Ok a => Q a k'
  | Err (Recoverable _ h) => on (hinted i h) k'
  | Err (Unrecoverable _) => True
  end.

Section rules.
Context {A B : Type} (i : nat).
Implicit Types (P : Kernel → Prop) (Q : A → Kernel → Prop).

Lemma hp_ret P Q a : (∀ k, P k → Q a k) → hp i P (sret a) Q.
Proof. intros H k r k' HP [= <- <-]. auto. Qed.

Lemma hp_fault P Q f : hp i P (fault f) Q.
Proof. by intros k r k' _ [= <- <-]. Qed.

Lemma hp_fail P Q c h : (∀ k, P k → on (hinted i h) k) → hp i P (sfail (Recoverable c h)) Q.
Proof. intros H k r k' HP [= <- <-]. auto. Qed.

Lemma hp_bind P (m : sys A) (f : A → sys B) (R : A → Kernel → Prop) (Q : B → Kernel → Prop) :
  hp i P m R → (∀ a, hp i (R a) (f a) Q) → hp i P (sbind m f) Q.
Proof.
  intros Hm Hf k r k' HP E. unfold sbind in E. apply ebind_inv in E as ([r1 k1] & E1 & E). cbn in E.
  specialize (Hm _ _ _ HP E1). destruct r1 as [a|e]; [by eapply Hf|]. by injection E as <- <-.
Qed.

Lemma hp_pre P P' (m : sys A) Q : (∀ k, P' k → P k) → hp i P m Q → hp i P' m Q.
Proof. intros H Hm k r k' HP. apply Hm; auto. Qed.

Lemma hp_post P (m : sys A) Q Q' : hp i P m Q → (∀ a k, Q a k → Q' a k) → hp i P m Q'.
Proof. intros Hm H k r k' HP E. specialize (Hm _ _ _ HP E). destruct r; auto. Qed.

(** A fact that does not depend on the state. *)
Lemma hp_pure P (φ : Prop) (m : sys A) Q : (∀ k, P k → φ) → (φ → hp i P m Q) → hp i P m Q.
Proof. intros Hφ Hm k r k' HP. apply Hm; eauto. Qed.

Lemma hp_panic P Q : hp i P (lift Panic : sys A) Q.
Proof. by intros k r k' _ E. Qed.

(** Computations that leave the task table alone. *)
Definition quiet (m : sys A) : Prop := ∀ k r k', m k = Ret (r, k') →
  k_tasks k' = k_tasks k ∧ match r with Err (Recoverable _ h) => h = Same | _ => True end.

Lemma hp_quiet φ (m : sys A) : (∀ j s, φ j s → run i j s) → quiet m → hp i (on φ) m (λ _, on φ).
Proof.
  intros Hφ Hm k r k' HP E. destruct (Hm _ _ _ E) as [Et Hr].
  assert (on φ k') as H' by (intros j t; rewrite Et; apply HP). destruct r as [a|[c h|f]]; try done. subst h. cbn.
  by eapply on_mono.
Qed.
End rules.

Section quiet.
Context {A B : Type}.

Lemma quiet_ret (a : A) : quiet (sret a).
Proof. by intros k r k' [= <- <-]. Qed.
Lemma quiet_fault f : quiet (fault f : sys A).
Proof. by intros k r k' [= <- <-]. Qed.
Lemma quiet_fail c : quiet (sfail (Recoverable c Same) : sys A).
Proof. by intros k r k' [= <- <-]. Qed.
Lemma quiet_lift (m : exec A) : quiet (lift m).
Proof. intros k r k'. unfold lift. destruct m; [|done]. by intros [= <- <-]. Qed.
Lemma quiet_bind (m : sys A) (f : A → sys B) : quiet m → (∀ a, quiet (f a)) → quiet (sbind m f).
Proof.
  intros Hm Hf k r k' E. unfold sbind in E. apply ebind_inv in E as ([r1 k1] & E1 & E). cbn in E.
  destruct (Hm _ _ _ E1) as [Et Hr]. destruct r1 as [a|e]; [|by injection E as <- <-].
  destruct (Hf _ _ _ _ E) as [Et' ?]. split; [congruence|done].
Qed.
End quiet.

Lemma quiet_tasks_of : quiet tasks_of. Proof. by intros k r k' [= <- <-]. Qed.
Lemma quiet_regions_of : quiet regions_of. Proof. by intros k r k' [= <- <-]. Qed.
Lemma quiet_memory : quiet memory. Proof. by intros k r k' [= <- <-]. Qed.
Lemma quiet_nvic : quiet nvic. Proof. by intros k r k' [= <- <-]. Qed.
Lemma quiet_put_memory mem : quiet (put_memory mem). Proof. by intros k r k' [= <- <-]. Qed.
Lemma quiet_put_regions rs : quiet (put_regions rs). Proof. by intros k r k' [= <- <-]. Qed.
Lemma quiet_put_nvic nv : quiet (put_nvic nv). Proof. by intros k r k' [= <- <-]. Qed.

Lemma quiet_of_result {A} (r : result A UsageError) : quiet (of_result r).
Proof. destruct r; [apply quiet_ret|apply quiet_fault]. Qed.

Lemma quiet_check_access i a : quiet (check_access i a).
Proof.
  intros k r k'. unfold check_access. destruct (idx _ _) as [t|]; [|done]. cbn. destruct (a _ t); [|done]. by intros [= <- <-].
Qed.

Lemma quiet_copy i a j b : quiet (sys_copy i a j b).
Proof. intros k r k'. unfold sys_copy. destruct (safe_copy _ _ _ _ _ _ _); [|done]. by intros [= <- <-]. Qed.

Lemma check_id_same tasks id c h : check_task_id_against_table tasks id = Ret (Err (Recoverable c h)) → h = Same.
Proof.
  unfold check_task_id_against_table. case_decide; [done|]. destruct (idx _ _); [|done]. cbn. case_decide; [|done]. by intros [= _ <-].
Qed.

Lemma quiet_check_id id : quiet (check_id id).
Proof.
  intros k r k'. unfold check_id, sbind, tasks_of, lift. cbn. destruct (check_task_id_against_table _ _) as [[j|[c h|f]]|] eqn:E;
    cbn; try done; intros [= <- <-]; try done. split; [done|]. by eapply check_id_same.
Qed.

Create HintDb quiet.
#[export] Hint Resolve quiet_ret quiet_fault quiet_fail quiet_lift quiet_tasks_of quiet_regions_of quiet_memory quiet_nvic
  quiet_put_memory quiet_put_regions quiet_put_nvic quiet_of_result quiet_check_access quiet_copy quiet_check_id : quiet.

Ltac quiet_tac :=
  repeat first
  [ solve [auto with quiet]
  | apply quiet_bind; [|intros]
  | progress cbv zeta
  | case_match ].

Lemma quiet_task_at j : quiet (task_at j). Proof. unfold task_at. quiet_tac. Qed.
Lemma quiet_id_of j : quiet (id_of j). Proof. unfold id_of. quiet_tac. Qed.
#[export] Hint Resolve quiet_task_at quiet_id_of : quiet.

(** * Steps on the table *)

(** The state of task [j] is known. *)
Definition at_state (j : nat) (st : TaskState) : table := λ l s, l = j → s = st.

(** Nothing is known of task [j] any more. *)
Definition except (j : nat) (φ : table) : table := λ l s, l ≠ j → φ l s.

(** Task [j] was given the scheduling state [x]. *)
Definition scheduled (φ : table) (j : nat) (x : SchedState) : table := λ l s,
  if decide (l = j) then ∃ s0, φ j s0 ∧ live s0 ∧ s = with_sched s0 x else φ l s.

(** Notifications may wake tasks. *)
Definition stable (φ : table) : Prop := ∀ l s s', evolves s s' → φ l s → φ l s'.

Lemma stable_run i : stable (run i).
Proof. intros l s s' He H ->. specialize (H eq_refl). subst s. by inversion He. Qed.
Lemma stable_both φ ψ : stable φ → stable ψ → stable (both φ ψ).
Proof. intros H1 H2 l s s' He [??]. split; eauto. Qed.
Lemma stable_hint nt : stable (hint_task nt).
Proof. destruct nt; [done|apply stable_run|done]. Qed.
Lemma stable_except j φ : stable φ → stable (except j φ).
Proof. intros H l s s' He Hl Hj. eauto. Qed.
#[export] Hint Resolve stable_run stable_both stable_hint stable_except : quiet.

Section steps.
Context (i : nat).
Implicit Types (φ ψ : table).

Lemma hp_step {A B} φ (m : sys A) (f : A → sys B) (Q : B → Kernel → Prop) : (∀ j s, φ j s → run i j s) → quiet m →
  (∀ a, hp i (on φ) (f a) Q) → hp i (on φ) (sbind m f) Q.
Proof. intros Hφ Hm Hf. eapply hp_bind; [by apply hp_quiet|exact Hf]. Qed.

Lemma hp_task_at {B} φ j (f : Task → sys B) (Q : B → Kernel → Prop) :
  (∀ t, φ j (t_state t) → hp i (on (both φ (at_state j (t_state t)))) (f t) Q) → hp i (on φ) (sbind (task_at j) f) Q.
Proof.
  intros Hf k r k' HP E. unfold task_at, sbind, tasks_of, lift in E. cbn in E.
  destruct (idx (k_tasks k) j) as [t|] eqn:Ei; [|done]. cbn in E.
  assert (k_tasks k !! j = Some t) as Hj by (unfold idx in Ei; destruct (_ !! _); congruence).
  eapply (Hf t); [by apply (HP j)| |exact E]. apply on_both. split; [done|]. intros l u Hl ->. congruence.
Qed.

Lemma hp_update φ ψ j f : (∀ t t', f t = Ret t' → φ j (t_state t) → ψ j (t_state t')) → (∀ l s, l ≠ j → φ l s → ψ l s) →
  hp i (on φ) (update_task j f) (λ _, on ψ).
Proof.
  intros Hf Hne k r k' HP E. unfold update_task, sbind, lift, tasks_of, put_tasks in E. cbn in E.
  destruct (idx (k_tasks k) j) as [t|] eqn:Ei; [|done]. cbn in E. destruct (f t) as [t'|] eqn:Ef; [|done]. cbn in E.
  unfold set_idx in E. case_decide as Hl; [|done]. cbn in E. injection E as <- <-.
  assert (k_tasks k !! j = Some t) as Hj by (unfold idx in Ei; destruct (_ !! _); congruence).
  intros l u. cbn. destruct (decide (l = j)) as [->|Hlj].
  - rewrite list_lookup_insert_eq by done. intros [= <-]. eapply Hf; [done|by apply (HP j)].
  - rewrite list_lookup_insert_ne by done. intros Hu. apply Hne; [done|by apply (HP l)].
Qed.

Lemma hp_update_save φ j f : hp i (on φ) (update_save j f) (λ _, on φ).
Proof. apply hp_update; [|done]. intros t t' [= <-]. done. Qed.

Lemma set_healthy_inv t x t' : set_healthy_state t x = Ret t' → live (t_state t) ∧ t_state t' = with_sched (t_state t) x.
Proof. unfold set_healthy_state. destruct (t_state t) as [| |? [] ? ?]; try done; by intros [= <-]. Qed.

Lemma hp_set_healthy φ j x : hp i (on φ) (set_healthy j x) (λ _, on (scheduled φ j x)).
Proof.
  apply hp_update; unfold scheduled.
  - intros t t' E Hφ. rewrite decide_True by done. apply set_healthy_inv in E as [??]. by exists (t_state t).
  - intros l s Hl Hφ. by rewrite decide_False.
Qed.

(** A woken task is runnable, and it was not before. *)
Lemma post_woke t n b t' : post t n = Ret (b, t') → evolves (t_state t) (t_state t') ∧
  (b = true → t_state t' = Healthy Runnable ∧ t_state t ≠ Healthy Runnable).
Proof.
  unfold post, take_notifications. cbn [set_notifications t_notifications t_state t_save].
  destruct (can_accept_notification (t_state t)) eqn:Ea; [|intros [= <- <-]; split; [constructor|done]].
  case_decide; [|intros [= <- <-]; split; [constructor|done]].
  unfold set_healthy_state, is_suspended. cbn. destruct (t_state t) as [[]| |[] [] ? ?]; try done; cbn; intros [= <- <-]; cbn;
    (split; [constructor|done]).
Qed.

Lemma on_post φ k j t n b t' : stable φ → on φ k → k_tasks k !! j = Some t → post t n = Ret (b, t') →
  on (both φ (if b : bool then run j else λ _ _, True)) (with_tasks k (<[j := t']> (k_tasks k))).
Proof.
  intros Hst HP Hj E. apply post_woke in E as [He Hb]. intros l u. cbn.
  destruct (decide (l = j)) as [->|Hl].
  - rewrite list_lookup_insert_eq by (by eapply lookup_lt_Some). intros [= <-].
    split; [eapply Hst; [exact He|by apply (HP j)]|]. destruct b; [|done]. intros _. by apply Hb.
  - rewrite list_lookup_insert_ne by done. intros Hu. split; [by apply (HP l)|]. destruct b; [by intros ?|done].
Qed.

Lemma hp_post_to φ j n : stable φ → hp i (on φ) (post_to j n) (λ b, on (both φ (if b : bool then run j else λ _ _, True))).
Proof.
  intros Hst k r k' HP E. unfold post_to, sbind, lift, tasks_of, put_tasks in E. cbn in E.
  destruct (idx (k_tasks k) j) as [t|] eqn:Ei; [|done]. cbn in E. destruct (post t n) as [[b t']|] eqn:Ep; [|done]. cbn in E.
  unfold set_idx in E. case_decide as Hl; [|done]. cbn in E. injection E as <- <-. cbn.
  eapply on_post; [done|done| |exact Ep]. unfold idx in Ei. destruct (_ !! _); congruence.
Qed.

Lemma hp_force_fault φ j f : stable φ →
  hp i (on φ) (sys_force_fault j f) (λ nt k,
    on (both (except j φ) (hint_task nt)) k ∧ nt ≠ Same ∧ ((∀ s, φ i s → s = Healthy Runnable) → i ≠ j → away i nt)).
Proof.
  intros Hst k r k' HP E. unfold sys_force_fault, force_fault, sbind, lift, tasks_of, put_tasks in E. cbn in E.
  destruct (idx (k_tasks k) j) as [t|] eqn:Ei; [|done]. cbn [ebind] in E. unfold set_idx in E at 1. case_decide as Hl; [|done].
  cbn [ebind] in E. set (t1 := set_state t (fault_state (t_state t) f)) in *.
  set (k1 := with_tasks k (<[j := t1]> (k_tasks k))).
  assert (on (except j φ) k1) as H1.
  { intros l u. cbn. intros Hu Hlj. rewrite list_lookup_insert_ne in Hu by done. by apply (HP l). }
  destruct (is_suspended t1).
  { cbn in E. injection E as <- <-. cbn. split; [|split; [done|done]]. apply on_both. split; [exact H1|done]. }
  unfold post_supervisor in E. destruct (idx (<[j := t1]> (k_tasks k)) 0) as [t0|] eqn:E0; [|done]. cbn [ebind] in E.
  destruct (post t0 _) as [[b t0']|] eqn:Ep; [|done]. cbn [ebind fst snd] in E.
  unfold set_idx in E. case_decide as Hl0; [|done]. cbn in E. injection E as <- <-.
  assert (<[j := t1]> (k_tasks k) !! 0 = Some t0) as H0 by (unfold idx in E0; destruct (_ !! _); congruence).
  pose proof (on_post (except j φ) k1 0 t0 _ b t0' (stable_except j φ Hst) H1 H0 Ep) as H2.
  split; [|split; [by destruct b|]].
  - destruct b; exact H2.
  - intros Hi Hij. destruct b; [|done]. cbn. intros <-. apply post_woke in Ep as [_ Hb]. destruct (Hb eq_refl) as [_ Hne].
    apply Hne, Hi. by apply (H1 0 t0).
Qed.
End steps.

(** * Parts of the calls *)

Section parts.
Context (i : nat).
Implicit Types (φ : table).

(** The caller runs, and so does the task a hint names, if it is another. *)
Definition hinting (nt : NextTask) (k : Kernel) : Prop := on (both (run i) (hint_task nt)) k ∧ away i nt.

Lemma hinting_hinted nt k : hinting nt k → on (hinted i nt) k.
Proof. intros [[H1 H2]%on_both _]. by destruct nt. Qed.

(** The hint of a fault beside the one there was. *)
Lemma combine_hint nt nt' k : on (both (run i) (hint_task nt)) k → on (hint_task nt') k → away i nt → away i nt' →
  hinting (combine nt nt') k.
Proof.
  intros [H1 H2]%on_both H3 Ha Ha'. unfold hinting. rewrite on_both.
  destruct nt as [|x|], nt' as [|y|]; cbn in *; try (case_decide; cbn); done.
Qed.

Lemma hp_fault_opt φ f j : stable φ → (∀ s, φ i s → s = Healthy Runnable) → i ≠ j →
  hp i (on φ) (fault_opt f j) (λ nt k, on (both (except j φ) (hint_task nt)) k ∧ away i nt).
Proof.
  intros Hst Hi Hij. destruct f as [f|]; cbn.
  - eapply hp_post; [by apply hp_force_fault|]. intros nt k (H & _ & Ha). split; [done|auto].
  - apply hp_ret. intros k Hk. split; [|done]. apply on_both. split; [|done]. eapply on_mono; [|exact Hk]. by intros l s H ?.
Qed.

Lemma hp_apply_to_src φ f j : stable φ → (∀ s, φ i s → s = Healthy Runnable) → i ≠ j →
  hp i (on φ) (apply_to_src f j) (λ nt k, on (both (except j φ) (hint_task nt)) k ∧ away i nt).
Proof.
  intros Hst Hi Hij. eapply hp_bind; [by apply hp_fault_opt|]. cbn. intros nt. destruct (if_dst f); [apply hp_fault|by apply hp_ret].
Qed.

Lemma hp_apply_to_dst φ f j : stable φ → (∀ s, φ i s → s = Healthy Runnable) → i ≠ j →
  hp i (on φ) (apply_to_dst f j) (λ nt k, on (both (except j φ) (hint_task nt)) k ∧ away i nt).
Proof.
  intros Hst Hi Hij. eapply hp_bind; [by apply hp_fault_opt|]. cbn. intros nt. destruct (if_src f); [apply hp_fault|by apply hp_ret].
Qed.

(** A delivery: the receiver runs if it was healthy. *)
Definition delivered (φ : table) (sender receiver : nat) : table := λ l s,
  (l = receiver → s = Healthy Runnable) ∧ (l ≠ sender → l ≠ receiver → φ l s).

Lemma hp_deliver φ sender receiver : (∀ j s, φ j s → run i j s) → sender ≠ receiver → (∀ s, φ receiver s → healthy s) →
  hp i (on φ) (deliver sender receiver) (λ r, on (match r with Ok _ => delivered φ sender receiver | Err _ => φ end)).
Proof.
  intros Hφ Hne Hh. unfold deliver. apply hp_step; [done|auto with quiet|]. intros caller_id.
  apply hp_step; [done|auto with quiet|]. intros tc. cbv zeta.
  repeat case_match; try (by apply hp_ret).
  apply hp_step; [done|auto with quiet|]. intros te. case_match; [|by apply hp_ret].
  apply hp_step; [done|auto with quiet|]. intros [n|f]; [|by apply hp_ret].
  eapply hp_bind; [apply hp_update_save|]. intros ?. apply hp_step; [done|auto with quiet|]. intros callee_id.
  eapply hp_bind; [apply hp_set_healthy|]. intros ?. eapply hp_bind; [apply hp_set_healthy|]. intros ?. apply hp_ret.
  intros k Hk. eapply on_mono; [|exact Hk]. unfold scheduled, delivered. intros l s Hs. split.
  - intros ->. rewrite decide_True in Hs by done. destruct Hs as (s0 & Hs0 & _ & ->). rewrite decide_False in Hs0 by done.
    by destruct (Hh s0 Hs0) as [x ->].
  - intros Hls Hlr. rewrite !decide_False in Hs by done. done.
Qed.

(** A task that does something else is not the caller. *)
Lemma run_other φ j s : (∀ j s, φ j s → run i j s) → φ j s → s ≠ Healthy Runnable → i ≠ j.
Proof. intros Hφ H Hs Hij. subst j. by apply Hs, (Hφ i s). Qed.

(** One that sends, or waits for a reply, is not runnable. *)
Lemma sending_not_runnable s id : is_sending_to s id = true → s ≠ Healthy Runnable.
Proof. by intros H ->. Qed.
Lemma awaits_not_runnable s id b : awaits_reply s id = Some b → s ≠ Healthy Runnable.
Proof. by intros H ->. Qed.
Lemma accepts_not_runnable s id : can_accept_message_from s id = true → s ≠ Healthy Runnable.
Proof. by intros H ->. Qed.
End parts.

(** * The system calls *)

(** A call of [i]. *)
Definition runs (i : nat) (m : sys NextTask) : Prop := hp i (on (run i)) m (λ nt, on (hinted i nt)).

Lemma run_self i j s : run i j s → run i j s. Proof. done. Qed.
Lemma both_run i φ j s : both (run i) φ j s → run i j s. Proof. by intros [? _]. Qed.
#[export] Hint Resolve run_self both_run : quiet.

Ltac hstep := apply hp_step; [by eauto with quiet|by auto with quiet|].

Section calls.
Context (i : nat).

(** The task read is not the caller if its state is another. *)
Lemma hp_other {B} j (f : Task → sys B) (Q : B → Kernel → Prop) :
  (∀ t, (t_state t ≠ Healthy Runnable → i ≠ j) → hp i (on (both (run i) (at_state j (t_state t)))) (f t) Q) →
  hp i (on (run i)) (sbind (task_at j) f) Q.
Proof.
  intros Hf. apply hp_task_at. intros t Ht. apply Hf. intros Hne. intros <-. by apply Hne, Ht.
Qed.

Lemma forget_state {B} φ ψ (m : sys B) Q : hp i (on φ) m Q → hp i (on (both φ ψ)) m Q.
Proof. apply hp_pre. intros k [? _]%on_both. done. Qed.

(** Faults of another task. *)
Lemma hp_hint (m : sys NextTask) j : i ≠ j →
  hp i (on (run i)) m (λ nt k, on (both (except j (run i)) (hint_task nt)) k ∧ away i nt) →
  hp i (on (run i)) m (hinting i).
Proof.
  intros Hij Hm. eapply hp_post; [exact Hm|]. intros nt k [[H1 H2]%on_both Ha]. split; [|done].
  apply on_both. split; [|done]. eapply on_mono; [|exact H1]. intros l s Hl ->. by apply Hl.
Qed.

Lemma hp_fault_other j f : i ≠ j → hp i (on (run i)) (sys_force_fault j f) (hinting i).
Proof.
  intros Hij. apply (hp_hint _ j); [done|]. eapply hp_post; [apply hp_force_fault; auto with quiet|].
  intros nt k (H & _ & Ha). split; [done|]. apply Ha; [|done]. intros s Hs. by apply Hs.
Qed.

Lemma run_caller s : run i i s → s = Healthy Runnable. Proof. intros H. by apply H. Qed.

Lemma hp_src_other j f : i ≠ j → hp i (on (run i)) (apply_to_src f j) (hinting i).
Proof. intros Hij. apply (hp_hint _ j); [done|]. apply hp_apply_to_src; [auto with quiet|apply run_caller|done]. Qed.

Lemma hp_dst_other j f : i ≠ j → hp i (on (run i)) (apply_to_dst f j) (hinting i).
Proof. intros Hij. apply (hp_hint _ j); [done|]. apply hp_apply_to_dst; [auto with quiet|apply run_caller|done]. Qed.

(** The caller blocks. *)
Lemma hp_block s nt : hp i (hinting i nt) (let* _ := set_healthy i s in sret (combine Other nt)) (λ nt, on (hinted i nt)).
Proof.
  eapply hp_pure; [by intros k [_ Ha]; exact Ha|]. intros Ha. eapply hp_pre; [by intros k [H _]; exact H|].
  eapply hp_bind; [apply hp_set_healthy|]. intros ?. apply hp_ret. intros k Hk. destruct nt as [|x|]; cbn; try done.
  eapply on_mono; [|exact Hk]. unfold scheduled. intros l u Hu ->. rewrite decide_False in Hu by done. by apply Hu.
Qed.

Lemma hp_send hkm : runs i (hkm i) → runs i (send hkm i).
Proof.
  intros Hh. unfold runs, send. hstep. intros tc. cbv zeta. case_decide; [exact Hh|]. hstep. intros callee. hstep. intros id.
  apply hp_other. intros te Hne. destruct (can_accept_message_from _ _) eqn:Ea.
  2:{ apply forget_state. eapply hp_pre; [|apply (hp_block _ Same)]. intros k Hk. split; [|done]. by apply on_both. }
  assert (i ≠ callee) as Hic by (by eapply Hne, accepts_not_runnable).
  apply can_accept_healthy in Ea as [x Ex]. rewrite Ex.
  eapply hp_bind; [apply hp_deliver; [by eauto with quiet|done|]|].
  { intros s [_ Hs]. rewrite Hs by done. by eexists. }
  intros [u|f].
  - apply hp_ret. intros k Hk. eapply on_mono; [|exact Hk]. by intros l s [Hs _].
  - eapply hp_pre; [by intros k [Hk _]%on_both; exact Hk|]. eapply hp_bind; [by apply hp_dst_other|]. apply hp_block.
Qed.

(** What a search for senders ends with: the call's result, or a hint to go on
    with. *)
Definition search_post (r : NextTask + NextTask) (k : Kernel) : Prop :=
  match r with inl nt | inr nt => hinting i nt k end.

Lemma hp_deliver_from sender nt : i ≠ sender → away i nt → (∀ x, nt = Specific x → x ≠ sender) →
  hp i (on (both (run i) (hint_task nt))) (deliver sender i) (λ _, hinting i nt).
Proof.
  intros His Ha Hx. eapply hp_post; [apply hp_deliver; [by eauto with quiet|done|]|].
  { intros s [Hs _]. rewrite Hs by done. by eexists. }
  intros [u|f] k Hk; (split; [|done]); [|done]. eapply on_mono; [|exact Hk]. intros l s [Hi Ho]. split; [done|].
  destruct nt as [|x|]; try done. cbn in *. intros ->. apply (Ho (Hx x eq_refl) Ha). done.
Qed.

(** A fault of a sender, on top of an earlier hint. *)
Lemma hp_src_hint f sender nt : i ≠ sender → (∀ x, nt = Specific x → x ≠ sender) →
  hp i (hinting i nt) (apply_to_src f sender) (λ nt', hinting i (combine nt nt')).
Proof.
  intros His Hx. eapply hp_pure; [by intros k [_ Ha]; exact Ha|]. intros Ha. eapply hp_pre; [by intros k [H _]; exact H|].
  eapply hp_post; [apply hp_apply_to_src; [by auto with quiet| |done]|].
  { intros s [Hs _]. by apply run_caller. }
  intros nt' k [[H1 H2]%on_both Ha']. apply combine_hint; try done. eapply on_mono; [|exact H1].
  intros l s Hl. split; [intros ->; by apply Hl|]. destruct nt as [|x|]; try done. cbn. intros ->. apply Hl; [by apply Hx|done].
Qed.

Lemma hp_scan {B} φ last pred (f : option (nat * Task) → sys B) (Q : B → Kernel → Prop) :
  (∀ r, (∀ j t, r = Some (j, t) → φ j (t_state t) ∧ pred t = true) → hp i (on φ) (f r) Q) →
  hp i (on φ) (let* tasks := tasks_of in let* r := lift (priority_scan last tasks pred) in f r) Q.
Proof.
  intros Hf k r k' HP E. unfold sbind, tasks_of, lift in E. cbn in E.
  destruct (priority_scan_total last (k_tasks k) pred) as (c & Ec & Hc). rewrite Ec in E. cbn in E.
  eapply (Hf c); [|exact HP|exact E]. intros j t Ej. destruct (Hc j t Ej) as [Hj Hp]. split; [by apply (HP j)|done].
Qed.

(** A sender is neither the caller nor the task of an earlier hint. *)
Lemma sender_other nt j t id : both (run i) (hint_task nt) j (t_state t) → is_sending_to (t_state t) id = true →
  i ≠ j ∧ ∀ x, nt = Specific x → x ≠ j.
Proof.
  intros [H1 H2] Hs. split; [intros <-; rewrite H1 in Hs by done; done|].
  intros x -> ->. cbn in H2. by rewrite H2 in Hs.
Qed.

Lemma hp_recv_open fuel id last nt : away i nt →
  hp i (on (both (run i) (hint_task nt))) (recv_open fuel i id last nt) (search_post).
Proof.
  revert last nt. induction fuel as [|fuel IH]; intros last nt Ha; cbn [recv_open]; [apply hp_panic|].
  apply hp_scan. intros [[s ts]|] Hr; [|apply hp_ret; by intros k Hk].
  destruct (Hr s ts eq_refl) as [Hφ Hs]. destruct (sender_other nt s ts id Hφ Hs) as [His Hx].
  eapply hp_bind; [by apply hp_deliver_from|]. intros [u|f]; [apply hp_ret; by intros k Hk|].
  eapply hp_bind; [by apply hp_src_hint|]. intros nt'. eapply hp_pure; [by intros k [_ Ha']; exact Ha'|]. intros Ha'.
  eapply hp_pre; [by intros k [H _]; exact H|]. by apply IH.
Qed.

Lemma hp_recv_closed id sender : hp i (on (run i)) (recv_closed i id sender) (search_post).
Proof.
  unfold recv_closed. hstep. intros j. apply hp_task_at. intros t Ht.
  destruct (is_sending_to (t_state t) id) eqn:Es; apply forget_state.
  2:{ apply hp_ret. intros k Hk. split; [|done]. by apply on_both. }
  destruct (sender_other Same j t id) as [Hij Hx]; [by split|done|].
  eapply hp_pre; [|eapply hp_bind; [by apply (hp_deliver_from j Same)|]]; [intros k Hk; by apply on_both|].
  intros [u|f]; [apply hp_ret; by intros k Hk|]. eapply hp_bind; [by apply hp_src_hint|]. intros nt. apply hp_ret. by intros k Hk.
Qed.

Lemma hp_recv : runs i (recv i).
Proof.
  unfold runs, recv. apply hp_task_at. intros t Ht. specialize (Ht eq_refl). apply forget_state.
  unfold take_notifications. case_decide.
  { eapply hp_bind; [apply (hp_update i _ (run i))|].
    - intros t1 t2 [= <-] _ _. exact Ht.
    - done.
    - intros ?. apply hp_ret. by intros k Hk. }
  hstep. intros id. eapply (hp_bind _ _ _ _ (search_post)).
  - destruct (ra_specific_sender _) as [sid|].
    + case_decide; [|apply hp_recv_closed]. apply hp_ret. intros k Hk. split; [|done]. by apply on_both.
    + hstep. intros tasks. eapply hp_pre; [|by apply (hp_recv_open _ id _ Same)]. intros k Hk. by apply on_both.
  - intros [nt|nt].
    + apply hp_ret. intros k Hk. by apply hinting_hinted.
    + apply hp_block.
Qed.

Lemma hp_same : hp i (on (run i)) (sret Same) (λ nt, on (hinted i nt)).
Proof. apply hp_ret. by intros k Hk. Qed.

Lemma hinted_post (m : sys NextTask) P : hp i P m (hinting i) → hp i P m (λ nt, on (hinted i nt)).
Proof. intros H. eapply hp_post; [exact H|]. intros nt k. apply hinting_hinted. Qed.

(** A change to another task. *)
Lemma hp_set_other j x : i ≠ j → hp i (on (run i)) (set_healthy j x) (λ _, on (run i)).
Proof.
  intros Hij. eapply hp_post; [apply hp_set_healthy|]. intros ? k Hk. eapply on_mono; [|exact Hk].
  unfold scheduled. intros l s Hs ->. rewrite decide_False in Hs by done. by apply Hs.
Qed.

Lemma hp_update_other j f : i ≠ j → hp i (on (run i)) (update_task j f) (λ _, on (run i)).
Proof. intros Hij. apply hp_update; [|done]. intros t t' _ _ ->. done. Qed.

Lemma hp_save_same j f : hp i (on (run i)) (let* _ := update_save j f in sret Same) (λ nt, on (hinted i nt)).
Proof. eapply hp_bind; [apply hp_update_save|]. intros ?. apply hp_same. Qed.

Lemma hp_check_callee {B} id (f : nat + NextTask → sys B) (Q : B → Kernel → Prop) :
  (∀ j, hp i (on (run i)) (f (inl j)) Q) → hp i (on (run i)) (f (inr Same)) Q → hp i (on (run i)) (sbind (check_callee id) f) Q.
Proof.
  intros H1 H2. eapply (hp_bind _ _ _ _ (λ r k, on (run i) k ∧ match r with inl _ => True | inr nt => nt = Same end)).
  - intros k r k' HP E. unfold check_callee, sbind, tasks_of, lift in E. cbn in E.
    destruct (check_task_id_against_table _ _) as [[j|[c h|e]]|] eqn:Ec; cbn in E; try done; injection E as <- <-; try done.
    split; [done|]. by eapply check_id_same.
  - intros [j|nt].
    + eapply hp_pre; [by intros k [H _]; exact H|]. apply H1.
    + eapply hp_pure; [by intros k [_ H]; exact H|]. intros ->. eapply hp_pre; [by intros k [H _]; exact H|]. exact H2.
Qed.

Lemma hp_set_suspension_reply src j : i ≠ j → hp i (on (run i)) (set_suspension_reply i src j) (λ _, on (run i)).
Proof.
  intros Hij. unfold set_suspension_reply. hstep. intros [u|f]; [|by apply hp_ret]. hstep. intros mem. cbv zeta.
  case_match; [|apply hp_panic]. eapply hp_bind; [by apply hp_update_other|]. intros ?. by apply hp_ret.
Qed.

Lemma hp_reply : runs i (reply i).
Proof.
  unfold runs, reply. hstep. intros tc. cbv zeta. hstep. intros id. apply hp_check_callee; [|apply hp_same].
  intros j. apply hp_other. intros te Hne. apply forget_state.
  destruct (awaits_reply _ _) as [b|] eqn:Ea; [|apply hp_same].
  assert (i ≠ j) as Hij by (by eapply Hne, awaits_not_runnable).
  destruct (rp_message _); [|apply hp_fault]. destruct (sa_response _); [|by apply hinted_post, hp_fault_other].
  repeat (case_decide; [apply hp_fault|]). unfold deliver_reply. eapply (hp_bind _ _ _ _ (λ _, on (run i))).
  { destruct b; [by apply hp_set_suspension_reply|]. apply hp_quiet; auto with quiet. }
  intros [n|f]; [|by apply hinted_post, hp_dst_other].
  eapply hp_bind; [apply hp_update_save|]. intros ?. eapply hp_bind; [by apply hp_set_other|]. intros ?. apply hp_same.
Qed.

Lemma hp_reply_fault : runs i (reply_fault i).
Proof.
  unfold runs, reply_fault. hstep. intros id. hstep. intros tc. cbv zeta. hstep. intros reason.
  apply hp_check_callee; [|apply hp_same]. intros j. apply hp_other. intros te Hne. apply forget_state.
  destruct (awaits_reply _ _) as [b|] eqn:Ea; [|apply hp_same].
  eapply hp_bind; [apply hp_fault_other; by eapply Hne, awaits_not_runnable|]. intros nt. apply hp_ret.
  intros k [[H _]%on_both _]. exact H.
Qed.

Lemma hp_set_timer now : runs i (set_timer now i).
Proof.
  unfold runs, set_timer. hstep. intros tc. destruct (as_set_timer_args _) as [dl n]. cbv zeta. case_match.
  - eapply hp_bind; [apply (hp_update i _ (run i))|].
    + intros t t' E Hrun Hi. specialize (Hrun Hi). destruct (post _ n) as [[b t1]|] eqn:Ep; [|done].
      cbn in E. injection E as <-. apply post_woke in Ep as [He _]. cbn in He. rewrite Hrun in He. by inversion He.
    + done.
    + intros ?. apply hp_same.
  - eapply hp_bind; [apply (hp_update i _ (run i))|].
    + intros t t' [= <-] Hrun. exact Hrun.
    + done.
    + intros ?. apply hp_same.
Qed.

Lemma hp_get_timer now : runs i (get_timer now i).
Proof. unfold runs, get_timer. hstep. intros tc. apply hp_save_same. Qed.

Lemma hp_explicit_panic : runs i (explicit_panic i).
Proof.
  eapply hp_post; [apply hp_force_fault; auto with quiet|]. intros nt k ([_ H]%on_both & Hne & _). by destruct nt.
Qed.

Lemma hp_refresh_task_id : runs i (refresh_task_id i).
Proof.
  unfold runs, refresh_task_id. hstep. intros tc. cbv zeta. hstep. intros tasks. case_decide; [|apply hp_fault]. hstep. intros tid.
  apply hp_save_same.
Qed.

Lemma hp_sys_post : runs i (sys_post i).
Proof.
  unfold runs, sys_post. hstep. intros tc. cbv zeta. hstep. intros j. eapply hp_bind; [apply hp_post_to; auto with quiet|].
  intros woke. eapply hp_bind; [apply hp_update_save|]. intros ?. do 2 (hstep; intros ?).
  destruct woke; cbn [andb]; [|apply forget_state, hp_same]. case_match; [|apply forget_state, hp_same].
  apply hp_ret. intros k [_ Hk]%on_both. exact Hk.
Qed.

Lemma hp_borrow_lease j n off : hp i (on (run i)) (borrow_lease i j n off) (λ _ k, on (run i) k ∧ i ≠ j).
Proof.
  unfold borrow_lease. hstep. intros id. apply hp_other. intros tl Hne. apply forget_state.
  destruct (awaits_reply _ _) as [b|] eqn:Ea; [|by apply hp_fail].
  assert (i ≠ j) as Hij by (by eapply Hne, awaits_not_runnable).
  assert (∀ e c, hp i (on (run i)) (let* wh := sys_force_fault j e in sfail (Recoverable c wh) : sys ULease)
    (λ _ k, on (run i) k ∧ i ≠ j)) as Hdef.
  { intros e c. eapply hp_bind; [by apply hp_fault_other|]. intros nt. apply hp_fail. intros k. apply hinting_hinted. }
  destruct (sa_lease_table _); [|apply Hdef]. hstep. intros [u|f].
  - case_decide; [|apply hp_fault]. hstep. intros mem. destruct (offset_lease _ _); [|apply hp_fault]. by apply hp_ret.
  - destruct (is_hibernated_fault _); [by apply hp_fail|apply Hdef].
Qed.

Lemma hp_borrow {B} j n off (f : ULease → sys B) (Q : B → Kernel → Prop) :
  (i ≠ j → ∀ l, hp i (on (run i)) (f l) Q) → hp i (on (run i)) (sbind (borrow_lease i j n off) f) Q.
Proof.
  intros Hf. eapply hp_bind; [apply hp_borrow_lease|]. intros l. eapply hp_pure; [by intros k [_ H]; exact H|]. intros Hij.
  eapply hp_pre; [by intros k [H _]; exact H|]. by apply Hf.
Qed.

Lemma hp_borrow_read : runs i (borrow_read i).
Proof.
  unfold runs, borrow_read. hstep. intros tc. cbv zeta. hstep. intros buf. hstep. intros j. apply hp_borrow. intros Hij l.
  case_match; [by apply hp_fail|]. hstep. intros [n|f]; [apply hp_save_same|].
  destruct (is_hibernated_fault _); [destruct (if_dst f); [apply hp_fault|by apply hp_fail]|].
  eapply hp_bind; [by apply hp_src_other|]. intros nt. apply hp_fail. intros k. apply hinting_hinted.
Qed.

Lemma hp_borrow_write : runs i (borrow_write i).
Proof.
  unfold runs, borrow_write. hstep. intros tc. cbv zeta. hstep. intros buf. hstep. intros j. apply hp_borrow. intros Hij l.
  case_match; [by apply hp_fail|]. hstep. intros [n|f]; [apply hp_save_same|].
  destruct (is_hibernated_fault _); [destruct (if_src f); [apply hp_fault|by apply hp_fail]|].
  eapply hp_bind; [by apply hp_dst_other|]. intros nt. apply hp_fail. intros k. apply hinting_hinted.
Qed.

Lemma hp_borrow_info : runs i (borrow_info i).
Proof.
  unfold runs, borrow_info. hstep. intros tc. cbv zeta. hstep. intros j. apply hp_borrow. intros Hij l. apply hp_save_same.
Qed.

Lemma quiet_lookup_irqs lk a b : quiet (lookup_irqs lk a b).
Proof. unfold lookup_irqs. quiet_tac. Qed.
#[local] Hint Resolve quiet_lookup_irqs : quiet.

Lemma hp_irq_control lk : runs i (irq_control lk i).
Proof.
  unfold runs, irq_control. hstep. intros tc. destruct (as_irq_args _). case_match; [|apply hp_fault]. cbv zeta.
  do 4 (hstep; intros ?). apply hp_same.
Qed.

Lemma hp_irq_status lk : runs i (irq_status lk i).
Proof. unfold runs, irq_status. hstep. intros tc. cbv zeta. do 4 (hstep; intros ?). apply hp_save_same. Qed.
End calls.
