(* ===== verification/KernRunKipc.v ===== *)
(** What runs next after a message to the kernel, and after any entry to it. *)

From S2P Require Import Prelude KernAccess KernState KernMem KernIrq KernTask KernSyscalls KernKipc KernInv KernSafe.
From S2P Require Import KernKipcSafe KernEntry KernRun.

Section messages.
Context `{Marshal} {K : Type} `{MemoryRegion K} (kernel_regions : list K).
Context (i : nat).

Lemma quiet_deserialize {T} (de : list Z → option T) j m : quiet (deserialize_message de j m).
Proof. unfold deserialize_message. quiet_tac. Qed.
Lemma quiet_serialize {T} (ser : T → list Z → list Z * SerResult) size j buf v : quiet (serialize_response ser size j buf v).
Proof. unfold serialize_response. quiet_tac. Qed.
Lemma quiet_require j : quiet (require_supervisor j).
Proof. unfold require_supervisor. quiet_tac. Qed.
Lemma quiet_first_lease j : quiet (first_lease j).
Proof. unfold first_lease. quiet_tac. Qed.
Lemma quiet_span a n : quiet (hibernated_span a n).
Proof. unfold hibernated_span. quiet_tac. Qed.
Lemma quiet_find_sender j id s : quiet (find_sender j id s).
Proof. unfold find_sender. quiet_tac. Qed.
Lemma quiet_lookup lk a b : quiet (lookup_irqs lk a b).
Proof. unfold lookup_irqs. quiet_tac. Qed.
Lemma quiet_restore_locked ev : quiet (restore_locked ev).
Proof. unfold restore_locked. quiet_tac. Qed.
#[local] Hint Resolve quiet_restore_locked quiet_deserialize quiet_serialize quiet_require quiet_first_lease quiet_span quiet_find_sender
  quiet_lookup : quiet.

(** The messages only the supervisor may send. *)
Lemma hp_supervisor {B} (f : unit → sys B) (Q : B → Kernel → Prop) :
  (i = 0 → hp i (on (run i)) (f tt) Q) → hp i (on (run i)) (sbind (require_supervisor i) f) Q.
Proof.
  intros Hf. unfold require_supervisor. case_decide as Hi.
  - intros k r k' _ E. injection E as <- <-. done.
  - intros k r k' HP E. cbn in E. eapply Hf; [lia|exact HP|exact E].
Qed.

Lemma hp_respond n : runs i (respond i n).
Proof. apply hp_save_same. Qed.

Ltac reply_same := apply hp_respond.

Lemma hp_read_task_status m r : runs i (read_task_status i m r).
Proof.
  unfold runs, read_task_status. do 2 (hstep; intros ?). case_decide; [apply hp_fault|]. do 2 (hstep; intros ?). reply_same.
Qed.

Lemma hp_find_faulted_task m r : runs i (find_faulted_task i m r).
Proof.
  unfold runs, find_faulted_task. hstep. intros ?. cbv zeta. hstep. intros ?. case_decide; [apply hp_fault|].
  do 2 (hstep; intros ?). reply_same.
Qed.

Lemma hp_read_panic_message m r : runs i (read_panic_message i m r).
Proof.
  unfold runs, read_panic_message. hstep. intros ?. cbv zeta. hstep. intros ?. case_decide; [apply hp_fault|].
  hstep. intros t. case_match; [by apply hp_fail|]. case_match; [|by apply hp_fail]. hstep. intros [n|f]; [reply_same|].
  case_match; [apply hp_fault|]. case_match; by apply hp_fail.
Qed.

Lemma hp_fault_task m : runs i (fault_task i m).
Proof.
  unfold runs, fault_task. hstep. intros ?. cbv zeta. hstep. intros ?. case_decide as Hi; [apply hp_fault|].
  case_decide; [apply hp_fault|]. hstep. intros id. eapply hp_bind; [apply hp_fault_other; intros E; apply Hi; by right|].
  intros nt. eapply hp_pre; [|reply_same]. intros k [[Hk _]%on_both _]. exact Hk.
Qed.

Lemma hp_read_image_id id r : runs i (read_image_id id i r).
Proof. unfold runs, read_image_id. hstep. intros ?. reply_same. Qed.

Lemma hp_software_irq lk m : runs i (software_irq lk i m).
Proof.
  unfold runs, software_irq. hstep. intros ?. hstep. intros [n b]. hstep. intros ?. case_decide; [apply hp_fault|].
  do 4 (hstep; intros ?). reply_same.
Qed.

Lemma hp_read_hibernated m : runs i (read_hibernated_region i m).
Proof.
  unfold runs, read_hibernated_region. hstep. intros ?. hstep. intros [x n]. do 2 (hstep; intros ?).
  case_match; [by apply hp_fail|]. cbv zeta. hstep. intros [u|f]; [|apply hp_fault]. do 2 (hstep; intros ?). reply_same.
Qed.

Lemma hp_write_hibernated m : runs i (write_hibernated_region i m).
Proof.
  unfold runs, write_hibernated_region. hstep. intros ?. hstep. intros [x n]. do 2 (hstep; intros ?).
  case_match; [by apply hp_fail|]. cbv zeta. hstep. intros [u|f]; [|apply hp_fault]. do 2 (hstep; intros ?). reply_same.
Qed.

(** * Walks over the tasks *)

Lemma each_task_lookup {X} (f : X → Task → exec (X * Task)) x tasks x' tasks' j t' :
  each_task f x tasks = Ret (x', tasks') → tasks' !! j = Some t' →
  ∃ t y y', tasks !! j = Some t ∧ f y t = Ret (y', t').
Proof.
  revert x x' tasks' j. induction tasks as [|t tasks IH]; intros x x' tasks' j; cbn [each_task]; [by intros [= <- <-]|].
  intros ([y1 t1] & E1 & ([y2 ts] & E2 & E3)%ebind_inv)%ebind_inv. cbn in E2, E3. injection E3 as <- <-.
  destruct j as [|j]; cbn; [intros [= <-]; by exists t, x, y1|]. intros Hj. exact (IH _ _ _ _ E2 Hj).
Qed.

(** A walk under which runnable tasks stay so. *)
Lemma on_each_task {X} (f : X → Task → exec (X * Task)) x k x' tasks' j :
  (∀ t y y' t', k_tasks k !! j = Some t → f y t = Ret (y', t') → t_state t = Healthy Runnable → t_state t' = Healthy Runnable) →
  each_task f x (k_tasks k) = Ret (x', tasks') → on (run j) k → on (run j) (with_tasks k tasks').
Proof.
  intros Hf E Hk l t' Hl ->. cbn in Hl. destruct (each_task_lookup f x _ _ _ _ _ E Hl) as (t & y & y' & Ht & Ef).
  eapply Hf; [exact Ht|exact Ef|]. by apply (Hk j).
Qed.

(** * Restarting a task *)

(** The caller runs, if [b]. *)
Definition when (b : bool) : table := λ l s, b = true → run i l s.

Lemma hp_make_runnable b j : hp i (on (when b)) (set_healthy j Runnable) (λ _, on (when b)).
Proof.
  eapply hp_post; [apply hp_set_healthy|]. intros ? k Hk. eapply on_mono; [|exact Hk].
  unfold scheduled. intros l s Hs Hb ->. case_decide as Hd; [|by apply Hs].
  destruct Hs as (s0 & Hs0 & _ & ->). subst j. by rewrite Hs0.
Qed.

Lemma hp_unblock b id g j : hp i (on (when b)) (unblock id g j) (λ _, on (when b)).
Proof.
  unfold unblock. apply hp_task_at. intros t _. apply forget_state. case_decide; [|by apply hp_ret].
  eapply hp_bind; [apply hp_update_save|]. intros ?. apply hp_make_runnable.
Qed.

(** The restarted task is stopped. *)
Definition restarted (j : nat) : table := both (except j (run i)) (at_state j (Healthy Stopped)).

Lemma hp_reinitialize_at j : hp i (on (run i)) (reinitialize_at j) (λ _, on (restarted j)).
Proof.
  unfold reinitialize_at. do 3 (hstep; intros ?).
  eapply (hp_bind _ _ _ _ (λ tm k, on (run i) k ∧ t_state (fst tm) = Healthy Stopped)).
  { intros k r k' HP E. unfold lift in E. apply ebind_inv in E as ([t' mem'] & Er & E). injection E as <- <-.
    split; [done|]. unfold reinitialize in Er. apply ebind_inv in Er as (sm & _ & Er). by injection Er as <- _. }
  intros tm. eapply hp_pure; [by intros k [_ Hs]; exact Hs|]. intros Hs. eapply hp_pre; [by intros k [Hk _]; exact Hk|].
  eapply hp_bind; [apply (hp_update i _ (restarted j))|].
  - intros t t' [= <-] _. split; [by intros ?|]. intros _. exact Hs.
  - intros l s Hl Hrun. split; [by intros _|by intros ?].
  - intros ? k r k' HP [= <- <-]. exact HP.
Qed.

Lemma hp_start j (start : bool) :
  hp i (on (restarted j)) (if start then set_healthy j Runnable else sret tt) (λ _, on (when (start || negb (bool_decide (j = i))))).
Proof.
  destruct start.
  - eapply hp_post; [apply hp_set_healthy|]. intros ? k Hk. eapply on_mono; [|exact Hk]. unfold scheduled. intros l s Hs _ ->.
    case_decide as Hd; [|by apply Hs]. destruct Hs as (s0 & [_ Hs0] & _ & ->). by rewrite Hs0.
  - apply hp_ret. intros k Hk. eapply on_mono; [|exact Hk]. intros l s [Hs _] Hb ->. apply Hs; [|done].
    intros Hij. by rewrite bool_decide_true in Hb.
Qed.

Lemma hp_each_index b l f : (∀ j, hp i (on (when b)) (f j) (λ _, on (when b))) →
  hp i (on (when b)) (each_index l f) (λ _, on (when b)).
Proof.
  intros Hf. induction l as [|j l IH]; cbn; [by apply hp_ret|]. eapply hp_bind; [apply Hf|]. intros ?. exact IH.
Qed.

Lemma hp_reinit_task m : runs i (reinit_task i m).
Proof.
  unfold runs, reinit_task. hstep. intros [n start]. cbv zeta. hstep. intros tasks. case_decide; [apply hp_fault|].
  hstep. intros old. hstep. intros t. case_match; [by apply hp_fail|].
  eapply hp_bind; [apply hp_reinitialize_at|]. intros ?. eapply hp_bind; [apply hp_start|]. intros ?.
  apply hp_task_at. intros t' _. apply forget_state. eapply hp_bind.
  { apply hp_each_index. intros j. case_decide; [by apply hp_ret|apply hp_unblock]. }
  intros ?. case_decide as Hd.
  - destruct start; apply hp_ret; [|done]. intros k Hk. eapply on_mono; [|exact Hk]. intros l s Hs. by apply Hs.
  - eapply hp_pre; [|reply_same]. intros k Hk. eapply on_mono; [|exact Hk]. intros l s Hs. apply Hs.
    by rewrite bool_decide_false, orb_true_r.
Qed.

(** * Messages in wait *)

Lemma hp_deliver_or_fault s c : i ≠ s → i ≠ c → s ≠ c →
  hp i (on (both (run i) (λ l x, l = c → healthy x))) (deliver_or_fault s c) (λ _, on (run i)).
Proof.
  intros His Hic Hsc. unfold deliver_or_fault. eapply hp_bind.
  { apply hp_deliver; [by eauto with quiet|done|]. intros x [_ Hx]. by apply Hx. }
  intros [u|f].
  - apply hp_ret. intros k Hk. eapply on_mono; [|exact Hk]. intros l x [_ Hx] ->. by apply Hx.
  - unfold apply_both. apply forget_state. eapply hp_bind; [apply hp_fault_opt; [auto with quiet|by apply run_caller|exact His]|].
    intros nt. eapply hp_pre; [|eapply hp_bind; [apply (hp_fault_opt i (run i)); [auto with quiet|by apply run_caller|exact Hic]|]].
    + intros k [[Hk _]%on_both _]. eapply on_mono; [|exact Hk]. intros l x Hx ->. by apply Hx.
    + intros nt'. apply hp_ret. intros k [[Hk _]%on_both _]. eapply on_mono; [|exact Hk]. intros l x Hx ->. by apply Hx.
Qed.

Lemma hp_find_sender c id spec x :
  hp i (on (both (run i) (at_state c (Healthy (InRecv x))))) (find_sender c id spec)
    (λ r k, on (both (run i) (at_state c (Healthy (InRecv x)))) k ∧ match r with Some s => i ≠ s ∧ s ≠ c | None => True end).
Proof.
  set (φ := both (run i) (at_state c (Healthy (InRecv x)))).
  assert (∀ s t, φ s (t_state t) → is_sending_to (t_state t) id = true → i ≠ s ∧ s ≠ c) as Hs.
  { intros s t [H1 H2] Hs. split; [intros <-; by rewrite H1 in Hs|]. intros ->. by rewrite H2 in Hs. }
  unfold find_sender. destruct spec as [sid|].
  - apply hp_step; [by apply both_run|auto with quiet|]. intros tasks. cbv zeta. case_decide; [|by apply hp_ret].
    apply hp_task_at. intros t Ht. apply forget_state. destruct (is_sending_to _ _) eqn:E; [|by apply hp_ret].
    apply hp_ret. intros k Hk. split; [exact Hk|]. by eapply Hs.
  - apply hp_scan. intros [[s t]|] Hr; [|by apply hp_ret]. apply hp_ret. intros k Hk. split; [exact Hk|]. cbn.
    destruct (Hr s t eq_refl) as [H1 H2]. by eapply Hs.
Qed.

Lemma hp_reconcile_one c : hp i (on (run i)) (reconcile_one c) (λ _, on (run i)).
Proof.
  unfold reconcile_one. hstep. intros id. apply hp_other. intros t Hne.
  destruct (t_state t) as [[| |peer| | |x]| |] eqn:Es; try (apply forget_state; by apply hp_ret).
  - assert (i ≠ c) as Hic by (by apply Hne). hstep. intros tasks. hstep. intros [p|e]; [|apply forget_state; by apply hp_ret].
    apply hp_task_at. intros tp [H1 H2]. destruct (can_accept_message_from _ _) eqn:Ea; [|do 2 apply forget_state; by apply hp_ret].
    assert (i ≠ p) as Hip by (intros <-; rewrite H1 in Ea; done).
    assert (c ≠ p) as Hcp by (intros <-; rewrite H2 in Ea; done).
    apply can_accept_healthy in Ea as [y Ey]. rewrite Ey. eapply hp_pre; [|by apply hp_deliver_or_fault].
    intros k Hk. eapply on_mono; [|exact Hk]. intros l s [[Hl _] Hp]. split; [exact Hl|]. intros ->. rewrite Hp by done. by eexists.
  - assert (i ≠ c) as Hic by (by apply Hne). eapply hp_bind; [apply hp_find_sender|].
    intros [s|]; [|apply hp_ret; by intros k [[Hk _]%on_both _]].
    eapply hp_pure; [by intros k [_ Hs]; exact Hs|]. intros [His Hsc]. eapply hp_pre; [|by apply hp_deliver_or_fault].
    intros k [Hk _]. eapply on_mono; [|exact Hk]. intros l st [Hl Hc]. split; [exact Hl|]. intros ->. rewrite Hc by done. by eexists.
Qed.

Lemma hp_reconcile : hp i (on (run i)) reconcile_ipc (λ _, on (run i)).
Proof.
  unfold reconcile_ipc. hstep. intros tasks. generalize (seq 0 (length tasks)). intros l.
  induction l as [|j l IH]; cbn; [by apply hp_ret|]. eapply hp_bind; [apply hp_reconcile_one|]. intros ?. exact IH.
Qed.

Lemma hp_notify b : hp i (on (run i)) (notify_supervisor b) (λ _, on (run i)).
Proof.
  unfold notify_supervisor. destruct b; [|by apply hp_ret]. eapply hp_bind; [apply hp_post_to; auto with quiet|].
  intros w. apply hp_ret. by intros k [Hk _]%on_both.
Qed.

(** * Hibernation *)

Lemma hp_put_tasks φ tasks' : (∀ j t, tasks' !! j = Some t → φ j (t_state t)) →
  hp i (λ _, True) (put_tasks tasks') (λ _, on φ).
Proof. intros Hφ k r k' _ [= <- <-]. exact Hφ. Qed.

(** The supervisor's memory is protected, so that its region is not hibernated. *)
Lemma hp_hibernate_locked base size : i = 0 → hp i (on (run i)) (hibernate_locked kernel_regions base size) (λ _, on (run i)).
Proof.
  intros Hi. unfold hibernate_locked. hstep. intros regions.
  intros k r k' HP E. unfold sbind at 1, tasks_of in E. cbn [ebind fst snd] in E.
  destruct (find_region _ _ _ _) as [[j h]|] eqn:Ef; [|by injection E as <- <-].
  destruct (overlaps_protected_memory _ _ _) eqn:Eo; [by injection E as <- <-|].
  destruct (hibernate h _) as [h' [ev|e]] eqn:Eh; [|by injection E as <- <-].
  unfold sbind, put_regions, lift, put_tasks in E. cbn [ebind fst snd] in E.
  destruct (each_task _ _ _) as [[u ts]|] eqn:Et; [|done]. cbn in E. injection E as <- <-. cbn.
  eapply (on_each_task _ tt (with_regions k (<[j := h']> regions)) u ts i); [|exact Et|exact HP].
  intros t y y' t' Ht Ety Hs. cbn in Ht. subst i.
  pose proof (unprotected_supervisor kernel_regions h (k_tasks k) t Eo Ht) as Hno.
  apply ebind_inv in Ety as (t1 & E1 & E2). injection E2 as _ <-. unfold task_hibernate_region in E1.
  apply ebind_inv in E1 as (reg & E1 & E2). destruct (hibernate_ok_inv _ _ _ _ Eh) as (_ & _ & Hb & Hz & _).
  apply find_region_ok in Ef as [_ Hj%lookup_lt_Some]. rewrite Nat.sub_0_r in Hj.
  rewrite (idx_ok _ _ _ (list_lookup_insert_eq _ _ _ Hj)) in E1. injection E1 as <-.
  assert (existsb (overlaps h') (region_table t) = false) as E3.
  { rewrite <- Hno. unfold touches, overlaps, hib_end. by rewrite Hb, Hz. }
  rewrite E3 in E2. cbn in E2. by injection E2 as <-.
Qed.

Lemma hp_hibernate_region m r : runs i (hibernate_region kernel_regions i m r).
Proof.
  unfold runs, hibernate_region. apply hp_supervisor. intros Hi. hstep. intros bs.
  eapply hp_bind; [by apply hp_hibernate_locked|]. intros [ev|e]; [|by apply hp_fail]. hstep. intros len. reply_same.
Qed.

(** Tasks that are not suspended are left alone. *)
Lemma hp_restore_event ev mode : hp i (on (run i)) (restore_event ev mode) (λ _, on (run i)).
Proof.
  unfold restore_event. hstep. intros [index|e]; [|by apply hp_fail]. hstep. intros regions. hstep. intros mem.
  eapply (hp_bind _ _ _ _ (λ tasks k, on (run i) k ∧ k_tasks k = tasks)); [by intros k r k' HP [= <- <-]|]. intros tasks.
  eapply (hp_bind _ _ _ _ (λ r k, on (run i) (with_tasks k (snd r)))).
  { intros k r k' [HP <-] E. unfold lift in E. apply ebind_inv in E as ([fm ts] & Er & E). injection E as <- <-. cbn.
    eapply on_each_task; [|exact Er|exact HP]. intros t y y' t' _ Et Hs. apply ebind_inv in Et as (q & Eq & Et).
    injection Et as _ <-. unfold task_restore_region in Eq. rewrite Hs in Eq. by injection Eq as <-. }
  intros r. eapply (hp_bind _ _ _ _ (λ _, on (run i))).
  { intros k x k' HP E. injection E as <- <-. exact HP. }
  intros ?. hstep. intros ?. eapply hp_bind; [apply hp_notify|]. intros ?. apply hp_reconcile.
Qed.

Lemma hp_restore_region m : runs i (restore_region i m).
Proof.
  unfold runs, restore_region. do 2 (hstep; intros ?). eapply hp_bind; [apply hp_restore_event|]. intros ?. reply_same.
Qed.

Lemma hp_suspend_task m : runs i (suspend_task i m).
Proof.
  unfold runs, suspend_task. apply hp_supervisor. intros Hi. hstep. intros n. cbv zeta. hstep. intros tasks.
  case_decide as Hn; [apply hp_fault|]. case_decide; [apply hp_fault|].
  eapply hp_bind; [apply hp_update_other; congruence|]. intros ?. reply_same.
Qed.

Lemma hp_disable_debug_at j : hp i (on (run i)) (disable_debug_at j) (λ _, on (run i)).
Proof.
  unfold disable_debug_at. do 2 (hstep; intros ?). apply hp_task_at. intros t Ht. apply forget_state.
  eapply (hp_bind _ _ _ _ (λ r k, on (run i) k ∧ (t_state t = Healthy Runnable → snd (fst r) = t))).
  { intros k r k' HP E. unfold lift in E. apply ebind_inv in E as (q & Eq & E). injection E as <- <-. split; [done|].
    intros Hs. unfold disable_debug in Eq. rewrite Hs in Eq. by injection Eq as <-. }
  intros r. eapply hp_pure; [by intros k [_ Hr]; exact Hr|]. intros Hr. eapply hp_pre; [by intros k [Hk _]; exact Hk|].
  eapply hp_bind; [apply (hp_update i _ (run i))|].
  - intros t1 t2 [= <-] _ ->. specialize (Ht eq_refl). by rewrite Hr.
  - done.
  - intros ?. hstep. intros ?. by apply hp_ret.
Qed.

Lemma hp_restore_task m : runs i (restore_task i m).
Proof.
  unfold runs, restore_task. do 2 (hstep; intros ?). cbv zeta. hstep. intros tasks. case_decide; [apply hp_fault|].
  eapply hp_bind; [apply hp_disable_debug_at|]. intros ?. eapply hp_bind; [apply hp_notify|]. intros ?.
  eapply hp_bind; [apply hp_reconcile|]. intros ?. reply_same.
Qed.

(** Nothing runs after a reset. *)
Lemma hp_reset m : runs i (reset i m).
Proof. by intros k r k' _ E. Qed.

Lemma hp_kernel_message lk id : runs i (handle_kernel_message kernel_regions lk id i).
Proof.
  unfold runs, handle_kernel_message. hstep. intros tc. cbv zeta.
  repeat case_match; first [apply hp_fault|hstep; intros mm];
    first [apply hp_reset|apply hp_reinit_task|apply hp_fault_task|apply hp_read_hibernated|apply hp_write_hibernated|
      apply hp_restore_region|apply hp_suspend_task|apply hp_restore_task|apply hp_read_image_id|apply hp_software_irq|
      hstep; intros rr];
    first [apply hp_read_task_status|apply hp_find_faulted_task|apply hp_read_panic_message|apply hp_hibernate_region].
Qed.
End messages.

(** * Entries to the kernel *)

Lemma hp_dispatch hkm lk now nr i : runs i (hkm i) → runs i (dispatch hkm lk now nr i).
Proof.
  intros Hh. unfold dispatch. destruct (sysnum_try_from nr) as [[]|]; [..|apply hp_fault];
    eauto using hp_send, hp_recv, hp_reply, hp_set_timer, hp_borrow_read, hp_borrow_write, hp_borrow_info, hp_irq_control,
      hp_explicit_panic, hp_get_timer, hp_refresh_task_id, hp_sys_post, hp_reply_fault, hp_irq_status.
Qed.

(** After a call, the task of the hint is runnable. *)
Lemma entry_hinted hkm lk now nr i k nt k' : runs i (hkm i) → on (run i) k →
  safe_syscall_entry hkm lk now nr i k = Ret (nt, k') → on (hinted i nt) k'.
Proof.
  intros Hh HP E. unfold safe_syscall_entry in E. apply ebind_inv in E as ([r k1] & E1 & E).
  pose proof (hp_dispatch hkm lk now nr i Hh k r k1 HP E1) as H1.
  apply ebind_inv in E as ([r2 k2] & E2 & E). cbn in E. destruct r2 as [nt2|]; [|done]. injection E as <- <-.
  destruct r as [nt'|[c h|f]].
  - by injection E2 as <- <-.
  - exact (hp_bind i _ _ _ _ _ (hp_update_save i _ i _) (λ _, hp_ret i _ (λ nt, on (hinted i nt)) h (λ k Hk, Hk)) k1 (Ok nt2) k2 H1 E2).
  - pose proof (hp_force_fault i (λ _ _, True) i f ltac:(done) k1 _ _ ltac:(done) E2) as ([_ H2]%on_both & Hne & _).
    by destruct nt2.
Qed.
