(* ===== verification/KernDesc.v ===== *)
(** Tasks keep their descriptors: no entry to the kernel changes whose memory is
    whose. And hints name tasks that exist. *)

From S2P Require Import Prelude KernAccess KernState KernMem KernIrq KernTask KernSyscalls KernKipc KernInv KernSafe.
From S2P Require Import KernKipcSafe KernEntry KernRun KernRunKipc.

Definition descs (tasks : list Task) : list TaskDesc := map t_descriptor tasks.

Definition kept {A} (m : sys A) : Prop := ∀ k r k', m k = Ret (r, k') → descs (k_tasks k') = descs (k_tasks k).

Lemma descs_insert tasks j t t' : tasks !! j = Some t → t_descriptor t' = t_descriptor t →
  descs (<[j := t']> tasks) = descs tasks.
Proof.
  intros Hj Hd. apply list_eq. intros l. unfold descs. rewrite !list_lookup_fmap. destruct (decide (l = j)) as [->|Hl].
  - rewrite list_lookup_insert_eq by (by eapply lookup_lt_Some). rewrite Hj. cbn. by rewrite Hd.
  - by rewrite list_lookup_insert_ne.
Qed.

Lemma descs_lookup tasks tasks' j t : descs tasks' = descs tasks → tasks !! j = Some t →
  ∃ t', tasks' !! j = Some t' ∧ t_descriptor t' = t_descriptor t.
Proof.
  intros E Hj. apply (f_equal (.!! j)) in E. unfold descs in E. rewrite !list_lookup_fmap, Hj in E.
  destruct (tasks' !! j) as [t'|]; [|done]. exists t'. cbn in E. split; [done|congruence].
Qed.

Lemma idx_inv {A} (l : list A) j x : idx l j = Ret x → l !! j = Some x.
Proof. unfold idx. destruct (_ !! _); congruence. Qed.

Lemma set_idx_inv {A} (l : list A) j x l' : set_idx l j x = Ret l' → l' = <[j := x]> l.
Proof. unfold set_idx. case_decide; congruence. Qed.

Section rules.
Context {A B : Type}.

Lemma kept_bind (m : sys A) (f : A → sys B) : kept m → (∀ a, kept (f a)) → kept (sbind m f).
Proof.
  intros Hm Hf k r k' E. unfold sbind in E. apply ebind_inv in E as ([r1 k1] & E1 & E). cbn in E.
  specialize (Hm _ _ _ E1). destruct r1 as [a|e]; [|by injection E as <- <-]. rewrite <- Hm. by eapply Hf.
Qed.

Lemma kept_quiet (m : sys A) : quiet m → kept m.
Proof. intros Hm k r k' E. by destruct (Hm _ _ _ E) as [-> _]. Qed.

Lemma kept_fail e : kept (sfail e : sys A).
Proof. by intros k r k' [= <- <-]. Qed.
End rules.

Lemma kept_update j f : (∀ t t', f t = Ret t' → t_descriptor t' = t_descriptor t) → kept (update_task j f).
Proof.
  intros Hf k r k' E. unfold update_task, sbind, lift, tasks_of, put_tasks in E. cbn in E.
  destruct (idx (k_tasks k) j) as [t|] eqn:Ei; [|done]. cbn in E. destruct (f t) as [t'|] eqn:Ef; [|done]. cbn in E.
  destruct (set_idx _ _ _) as [l'|] eqn:Es; [|done]. cbn in E. injection E as <- <-. cbn.
  apply set_idx_inv in Es as ->. apply idx_inv in Ei. eapply descs_insert; eauto.
Qed.

Lemma set_healthy_desc t x t' : set_healthy_state t x = Ret t' → t_descriptor t' = t_descriptor t.
Proof. unfold set_healthy_state. destruct (t_state t) as [| |? [] ? ?]; try done; by intros [= <-]. Qed.

Lemma post_desc t n b t' : post t n = Ret (b, t') → t_descriptor t' = t_descriptor t.
Proof.
  unfold post, take_notifications. cbn [set_notifications t_notifications t_state t_save].
  destruct (can_accept_notification (t_state t)); [|by intros [= _ <-]]. case_decide; [|by intros [= _ <-]].
  intros (t1 & E1 & E)%ebind_inv. injection E as _ <-. apply set_healthy_desc in E1. exact E1.
Qed.

Lemma kept_set_healthy j x : kept (set_healthy j x).
Proof. apply kept_update. intros t t'. apply set_healthy_desc. Qed.
Lemma kept_update_save j f : kept (update_save j f).
Proof. apply kept_update. by intros t t' [= <-]. Qed.

Lemma force_fault_descs tasks j f nt tasks' : force_fault tasks j f = Ret (nt, tasks') → descs tasks' = descs tasks.
Proof.
  intros (t & Ei & (l1 & Es & (wt & Ew & E)%ebind_inv)%ebind_inv)%ebind_inv. injection E as _ <-.
  apply set_idx_inv in Es. apply idx_inv in Ei.
  assert (descs l1 = descs tasks) as H1 by (rewrite Es; by eapply descs_insert).
  case_match; [by injection Ew as <-|]. unfold post_supervisor in Ew.
  apply ebind_inv in Ew as (t0 & E0 & ([b t0'] & Ep & (l2 & Es2 & E)%ebind_inv)%ebind_inv). injection E as <-.
  apply set_idx_inv in Es2. apply idx_inv in E0. apply post_desc in Ep. cbn in *. rewrite <- H1, Es2. by eapply descs_insert.
Qed.

Lemma kept_force_fault j f : kept (sys_force_fault j f).
Proof.
  intros k r k' E. unfold sys_force_fault, sbind, lift, tasks_of, put_tasks in E. cbn in E.
  destruct (force_fault _ _ _) as [[nt l]|] eqn:Ef; [|done]. cbn in E. injection E as <- <-. by eapply force_fault_descs.
Qed.

Lemma kept_post_to j n : kept (post_to j n).
Proof.
  intros k r k' E. unfold post_to, sbind, lift, tasks_of, put_tasks in E. cbn in E.
  destruct (idx _ _) as [t|] eqn:Ei; [|done]. cbn in E. destruct (post t n) as [[b t']|] eqn:Ep; [|done]. cbn in E.
  destruct (set_idx _ _ _) as [l'|] eqn:Es; [|done]. cbn in E. injection E as <- <-. cbn.
  apply set_idx_inv in Es as ->. eapply descs_insert; [by apply idx_inv|by eapply post_desc].
Qed.

(** A walk over the tasks. *)
Lemma each_task_descs {X} (f : X → Task → exec (X * Task)) x tasks x' tasks' :
  (∀ y t y' t', f y t = Ret (y', t') → t_descriptor t' = t_descriptor t) →
  each_task f x tasks = Ret (x', tasks') → descs tasks' = descs tasks.
Proof.
  intros Hf. revert x x' tasks'. induction tasks as [|t tasks IH]; intros x x' tasks'; cbn [each_task]; [by intros [= <- <-]|].
  intros ([y1 t1] & E1 & ([y2 ts] & E2 & E3)%ebind_inv)%ebind_inv. cbn in E2, E3. injection E3 as <- <-.
  unfold descs in *. cbn. by rewrite (Hf _ _ _ _ E1), (IH _ _ _ E2).
Qed.

Create HintDb kept.
#[export] Hint Resolve kept_fail kept_set_healthy kept_update_save kept_force_fault kept_post_to : kept.

Ltac kept_tac :=
  repeat first
  [ solve [auto with kept]
  | apply kept_quiet; solve [auto with quiet]
  | lazymatch goal with |- kept (sbind _ _) => apply kept_bind; [|intros] end
  | progress cbv zeta
  | case_match ].

Lemma kept_fault_opt f j : kept (fault_opt f j). Proof. destruct f; cbn; kept_tac. Qed.
#[export] Hint Resolve kept_fault_opt : kept.
Lemma kept_to_src f j : kept (apply_to_src f j). Proof. unfold apply_to_src. kept_tac. Qed.
Lemma kept_to_dst f j : kept (apply_to_dst f j). Proof. unfold apply_to_dst. kept_tac. Qed.
Lemma kept_both f j l : kept (apply_both f j l). Proof. unfold apply_both. kept_tac. Qed.
Lemma kept_deliver s c : kept (deliver s c). Proof. unfold deliver. kept_tac. Qed.
#[export] Hint Resolve kept_to_src kept_to_dst kept_both kept_deliver : kept.

Section calls.
Context (i : nat).

Lemma kept_send hkm : kept (hkm i) → kept (send hkm i).
Proof. intros Hh. unfold send. kept_tac. Qed.

Lemma kept_recv_open fuel id last nt : kept (recv_open fuel i id last nt).
Proof. revert last nt. induction fuel as [|fuel IH]; intros last nt; cbn [recv_open]; kept_tac. Qed.
Lemma kept_recv_closed id s : kept (recv_closed i id s).
Proof. unfold recv_closed. kept_tac. Qed.
#[local] Hint Resolve kept_recv_open kept_recv_closed : kept.

(** An update computed from the task read before it. *)
Lemma kept_read_update {B} j (g : Task → sys B) : (∀ k t r k', k_tasks k !! j = Some t → g t k = Ret (r, k') →
  descs (k_tasks k') = descs (k_tasks k)) → kept (sbind (task_at j) g).
Proof.
  intros Hg k r k' E. unfold task_at, sbind, tasks_of, lift in E. cbn in E.
  destruct (idx (k_tasks k) j) as [t|] eqn:Ei; [|done]. cbn in E. eapply Hg; [by apply idx_inv|exact E].
Qed.

Lemma update_const_descs k j t0 t' r k' : k_tasks k !! j = Some t0 → t_descriptor t' = t_descriptor t0 →
  update_task j (λ _, Ret t') k = Ret (r, k') → descs (k_tasks k') = descs (k_tasks k).
Proof.
  intros Hj Hd E. unfold update_task, sbind, lift, tasks_of, put_tasks in E. cbn in E. rewrite (idx_ok _ _ _ Hj) in E. cbn in E.
  destruct (set_idx _ _ _) as [l'|] eqn:Es; [|done]. cbn in E. injection E as <- <-. cbn.
  apply set_idx_inv in Es as ->. by eapply descs_insert.
Qed.

Lemma kept_recv : kept (recv i).
Proof.
  apply kept_read_update. intros k t r k' Ht E. unfold take_notifications in E. case_decide.
  - unfold sbind in E. destruct (update_task _ _ k) as [[[u|e] k1]|] eqn:Eu; cbn in E; try done; injection E as <- <-;
      by eapply update_const_descs in Eu.
  - revert E. generalize (as_recv_args (t_save t)). intros args. cbv zeta. apply kept_bind; [kept_tac|]. intros id. kept_tac.
Qed.

Lemma kept_suspension_reply src j : kept (set_suspension_reply i src j).
Proof. unfold set_suspension_reply. kept_tac. apply kept_update. by intros t t' [= <-]. Qed.
#[local] Hint Resolve kept_suspension_reply : kept.

Lemma quiet_check_callee id : quiet (check_callee id).
Proof. unfold check_callee. quiet_tac. Qed.
#[local] Hint Resolve quiet_check_callee : quiet.

Lemma kept_deliver_reply id c s j d b : kept (deliver_reply i id c s j d b).
Proof. unfold deliver_reply. kept_tac. Qed.
#[local] Hint Resolve kept_deliver_reply : kept.

Lemma kept_reply : kept (reply i).
Proof. unfold reply. kept_tac. Qed.
Lemma kept_reply_fault : kept (reply_fault i).
Proof. unfold reply_fault. kept_tac. Qed.

Lemma kept_set_timer now : kept (set_timer now i).
Proof.
  unfold set_timer. kept_tac; apply kept_update; intros t t'; try (by intros [= <-]).
  all: intros ([b t1] & E1 & E)%ebind_inv; injection E as <-; by apply post_desc in E1.
Qed.

Lemma kept_get_timer now : kept (get_timer now i).
Proof. unfold get_timer. kept_tac. Qed.
Lemma kept_panic : kept (explicit_panic i).
Proof. apply kept_force_fault. Qed.
Lemma kept_refresh : kept (refresh_task_id i).
Proof. unfold refresh_task_id. kept_tac. Qed.
Lemma kept_sys_post : kept (sys_post i).
Proof. unfold sys_post. kept_tac. Qed.
Lemma kept_borrow_lease j n off : kept (borrow_lease i j n off).
Proof. unfold borrow_lease. kept_tac. Qed.
#[local] Hint Resolve kept_borrow_lease : kept.
Lemma kept_borrow_read : kept (borrow_read i).
Proof. unfold borrow_read. kept_tac. Qed.
Lemma kept_borrow_write : kept (borrow_write i).
Proof. unfold borrow_write. kept_tac. Qed.
Lemma kept_borrow_info : kept (borrow_info i).
Proof. unfold borrow_info. kept_tac. Qed.
Lemma kept_irq_control lk : kept (irq_control lk i).
Proof. unfold irq_control, lookup_irqs. kept_tac. Qed.
Lemma kept_irq_status lk : kept (irq_status lk i).
Proof. unfold irq_status, lookup_irqs. kept_tac. Qed.

Lemma kept_dispatch hkm lk now nr : kept (hkm i) → kept (dispatch hkm lk now nr i).
Proof.
  intros Hh. unfold dispatch. destruct (sysnum_try_from nr) as [[]|]; [..|apply kept_fail];
    eauto using kept_send, kept_recv, kept_reply, kept_set_timer, kept_borrow_read, kept_borrow_write, kept_borrow_info,
      kept_irq_control, kept_panic, kept_get_timer, kept_refresh, kept_sys_post, kept_reply_fault, kept_irq_status.
Qed.
End calls.
#[export] Hint Resolve kept_recv_open kept_recv_closed kept_suspension_reply kept_deliver_reply kept_borrow_lease : kept.
#[export] Hint Resolve quiet_check_callee : quiet.


(** * Messages to the kernel *)

Section messages.
Context `{Marshal} {K : Type} `{MemoryRegion K} (kernel_regions : list K).
Context (i : nat).

#[local] Hint Resolve quiet_deserialize quiet_serialize quiet_require quiet_first_lease quiet_span quiet_find_sender
  quiet_lookup quiet_restore_locked : quiet.

Lemma kept_respond n : kept (respond i n).
Proof. unfold respond. kept_tac. Qed.
#[local] Hint Resolve kept_respond : kept.

Lemma kept_each_index l f : (∀ j, kept (f j)) → kept (each_index l f).
Proof. intros Hf. induction l as [|j l IH]; cbn; kept_tac. Qed.

Lemma kept_reconcile : kept reconcile_ipc.
Proof.
  unfold reconcile_ipc. apply kept_bind; [kept_tac|]. intros tasks. apply kept_each_index. intros j.
  unfold reconcile_one, deliver_or_fault. kept_tac.
Qed.
Lemma kept_notify b : kept (notify_supervisor b).
Proof. unfold notify_supervisor. kept_tac. Qed.
#[local] Hint Resolve kept_reconcile kept_notify : kept.

Lemma hibernate_desc t regions j t' : task_hibernate_region t regions j = Ret t' → t_descriptor t' = t_descriptor t.
Proof. intros (r & _ & E)%ebind_inv. case_match; [by injection E as <-|]. by destruct (t_state t); injection E as <-. Qed.

Lemma try_restore_desc regions mem t b t' mem' : try_restore regions mem t = Ret (b, t', mem') → t_descriptor t' = t_descriptor t.
Proof.
  unfold try_restore. case_match; try by intros [= _ <- _]. case_match; [by intros [= _ <- _]|]. cbv zeta.
  intros (sm & _ & E)%ebind_inv. by injection E as _ <- _.
Qed.

Lemma restore_region_desc regions mem t j mode b t' mem' :
  task_restore_region regions mem t j mode = Ret (b, t', mem') → t_descriptor t' = t_descriptor t.
Proof.
  unfold task_restore_region. case_match; try by intros [= _ <- _]. destruct (bf_take _ _). intros E. by apply try_restore_desc in E.
Qed.

Lemma disable_debug_desc regions mem t b t' mem' : disable_debug regions mem t = Ret (b, t', mem') → t_descriptor t' = t_descriptor t.
Proof. unfold disable_debug. case_match; try by intros [= _ <- _]. intros E. by apply try_restore_desc in E. Qed.

Lemma reinitialize_desc regions mem t t' mem' : reinitialize regions mem t = Ret (t', mem') → t_descriptor t' = t_descriptor t.
Proof. intros (sm & _ & E)%ebind_inv. by injection E as <- _. Qed.

Lemma kept_hibernate_locked base size : kept (hibernate_locked kernel_regions base size).
Proof.
  intros k r k' E. unfold hibernate_locked, sbind, regions_of, tasks_of in E. cbn [ebind fst snd] in E.
  destruct (find_region _ _ _ _) as [[j h]|]; [|by injection E as <- <-].
  destruct (overlaps_protected_memory _ _ _); [by injection E as <- <-|].
  destruct (hibernate h _) as [h' [ev|e]]; [|by injection E as <- <-].
  unfold put_regions, lift, put_tasks in E. cbn [ebind fst snd] in E.
  destruct (each_task _ _ _) as [[u ts]|] eqn:Et; [|done]. cbn in E. injection E as <- <-. cbn.
  eapply each_task_descs; [|exact Et]. intros y t y' t' (t1 & E1 & E2)%ebind_inv. injection E2 as _ <-. by eapply hibernate_desc.
Qed.

(** The update of the tasks in a restore. *)
Lemma kept_restore_event ev mode : kept (restore_event ev mode).
Proof.
  unfold restore_event. apply kept_bind; [kept_tac|]. intros [index|e]; [|kept_tac]. do 2 (apply kept_bind; [kept_tac|]; intros ?).
  intros k r k' E. unfold sbind at 1, tasks_of in E. cbn [ebind fst snd] in E. unfold sbind at 1, lift in E.
  destruct (restore_tasks _ _ _ _ _) as [[[b m] ts]|] eqn:Et; [|done]. cbn [ebind fst snd] in E.
  unfold sbind at 1, put_tasks in E. cbn [ebind fst snd] in E.
  assert (descs ts = descs (k_tasks k)) as <-.
  { eapply each_task_descs; [|exact Et]. intros y t y' t' ([[b1 t1] m1] & E1 & E2)%ebind_inv. injection E2 as _ <-.
    by eapply restore_region_desc. }
  change ts with (k_tasks (with_tasks k ts)). revert E. apply kept_bind; [kept_tac|]. intros ?. kept_tac.
Qed.

Lemma kept_disable_debug_at j : kept (disable_debug_at j).
Proof.
  unfold disable_debug_at. do 2 (apply kept_bind; [kept_tac|]; intros ?). apply kept_read_update. intros k t r k' Ht E.
  unfold sbind at 1, lift in E. destruct (disable_debug _ _ _) as [[[b t'] m]|] eqn:Ed; [|done]. cbn [ebind fst snd] in E.
  unfold sbind at 1 in E. destruct (update_task _ _ k) as [[[u|e] k1]|] eqn:Eu; cbn in E; try done.
  - injection E as <- <-. cbn. eapply update_const_descs; [exact Ht| |exact Eu]. by eapply disable_debug_desc.
  - injection E as <- <-. eapply update_const_descs; [exact Ht| |exact Eu]. by eapply disable_debug_desc.
Qed.

Lemma kept_reinitialize_at j : kept (reinitialize_at j).
Proof.
  unfold reinitialize_at. do 2 (apply kept_bind; [kept_tac|]; intros ?). apply kept_read_update. intros k t r k' Ht E.
  unfold sbind at 1, lift in E. destruct (reinitialize _ _ _) as [[t' m]|] eqn:Ed; [|done]. cbn [ebind fst snd] in E.
  unfold sbind in E. destruct (update_task _ _ k) as [[[u|e] k1]|] eqn:Eu; cbn in E; try done.
  - injection E as <- <-. cbn. eapply update_const_descs; [exact Ht| |exact Eu]. by eapply reinitialize_desc.
  - injection E as <- <-. eapply update_const_descs; [exact Ht| |exact Eu]. by eapply reinitialize_desc.
Qed.

Lemma kept_unblock id g j : kept (unblock id g j).
Proof. unfold unblock. kept_tac. Qed.
#[local] Hint Resolve kept_hibernate_locked kept_restore_event kept_disable_debug_at kept_reinitialize_at kept_unblock : kept.

Lemma kept_reinit_task m : kept (reinit_task i m).
Proof.
  unfold reinit_task. do 12 kept_tac. all: apply kept_each_index; intros j; kept_tac.
Qed.

Lemma kept_suspend_task m : kept (suspend_task i m).
Proof. unfold suspend_task. kept_tac. apply kept_update. intros t t' [= <-]. unfold request_debug. by destruct (t_state t). Qed.

Lemma kept_kernel_message lk id : kept (handle_kernel_message kernel_regions lk id i).
Proof.
  unfold handle_kernel_message. apply kept_bind; [kept_tac|]. intros tc. cbv zeta.
  repeat case_match; first [apply kept_fail|apply kept_bind; [kept_tac|]; intros mm].
  all: first [by intros k r k' E|apply kept_reinit_task|apply kept_suspend_task|idtac].
  all: unfold read_task_status, fault_task, read_image_id, software_irq, find_faulted_task, read_panic_message, hibernate_region,
    read_hibernated_region, write_hibernated_region, restore_region, restore_task; kept_tac.
Qed.
End messages.
#[export] Hint Resolve kept_respond kept_reconcile kept_notify kept_hibernate_locked kept_restore_event kept_disable_debug_at
  kept_reinitialize_at kept_unblock kept_each_index : kept.
#[export] Hint Resolve quiet_deserialize quiet_serialize quiet_require quiet_first_lease quiet_span quiet_find_sender
  quiet_lookup quiet_restore_locked : quiet.


(** * Hints name tasks of the table *)

Definition hint_lt (n : nat) (nt : NextTask) : Prop := match nt with Specific x => x < n | _ => True end.

(** With [n] tasks, what the computation returns satisfies [R]; the hint of an error
    is in range. *)
Definition rng {A} (n : nat) (m : sys A) (R : A → Prop) : Prop := ∀ k r k', length (k_tasks k) = n → m k = Ret (r, k') →
  match r with Ok a => R a | Err (Recoverable _ h) => hint_lt n h | Err (Unrecoverable _) => True end.

(** As many tasks as before. *)
Definition as_many {A} (m : sys A) : Prop := ∀ k r k', m k = Ret (r, k') → length (k_tasks k') = length (k_tasks k).

Lemma update_as_many j f : as_many (update_task j f).
Proof. intros k r k'. apply update_task_length. Qed.

Lemma kept_as_many {A} (m : sys A) : kept m → as_many m.
Proof. intros Hm k r k' E. specialize (Hm _ _ _ E). apply (f_equal length) in Hm. unfold descs in Hm. by rewrite !length_map in Hm. Qed.

Section range.
Context (n : nat).

Lemma rng_bind {A B} (m : sys A) (f : A → sys B) R Q : as_many m → rng n m R → (∀ a, R a → rng n (f a) Q) → rng n (sbind m f) Q.
Proof.
  intros Hk Hm Hf k r k' Hl E. unfold sbind in E. apply ebind_inv in E as ([r1 k1] & E1 & E). cbn in E.
  pose proof (Hk _ _ _ E1) as Hl1. specialize (Hm _ _ _ Hl E1).
  destruct r1 as [a|e]; [eapply Hf; [exact Hm|by rewrite Hl1|exact E]|]. by injection E as <- <-.
Qed.

Lemma rng_ret {A} (a : A) (R : A → Prop) : R a → rng n (sret a) R.
Proof. intros Ha k r k' _ [= <- <-]. done. Qed.
Lemma rng_fault {A} f (R : A → Prop) : rng n (fault f) R.
Proof. by intros k r k' _ [= <- <-]. Qed.
Lemma rng_fail {A} c h (R : A → Prop) : hint_lt n h → rng n (sfail (Recoverable c h)) R.
Proof. intros Hh k r k' _ [= <- <-]. done. Qed.
Lemma rng_panic {A} (R : A → Prop) : rng n (lift Panic) R.
Proof. by intros k r k' _ E. Qed.

Lemma rng_quiet {A} (m : sys A) : quiet m → rng n m (λ _, True).
Proof. intros Hm k r k' _ E. destruct (Hm _ _ _ E) as [_ Hr]. destruct r as [|[]]; try done. by subst. Qed.

Lemma rng_update j f : rng n (update_task j f) (λ _, True).
Proof.
  intros k r k' _ E. unfold update_task, sbind, lift, tasks_of, put_tasks in E. cbn in E.
  destruct (idx _ _) as [t|]; [|done]. cbn in E. destruct (f t); [|done]. cbn in E. destruct (set_idx _ _ _); [|done].
  cbn in E. by injection E as <- <-.
Qed.

Lemma rng_force_fault j f : rng n (sys_force_fault j f) (hint_lt n).
Proof.
  intros k r k' Hl E. unfold sys_force_fault, sbind, lift, tasks_of, put_tasks in E. cbn in E.
  destruct (force_fault _ _ _) as [[nt l]|] eqn:Ef; [|done]. cbn in E. injection E as <- <-. cbn.
  apply ebind_inv in Ef as (t & Ei & (l1 & Es & (wt & _ & E)%ebind_inv)%ebind_inv). injection E as <- _.
  apply idx_inv, lookup_lt_Some in Ei. case_match; cbn; lia.
Qed.

Lemma rng_post_to j b : rng n (post_to j b) (λ _, j < n).
Proof.
  intros k r k' Hl E. unfold post_to, sbind, lift, tasks_of, put_tasks in E. cbn in E.
  destruct (idx _ _) as [t|] eqn:Ei; [|done]. cbn in E. destruct (post t b); [|done]. cbn in E.
  destruct (set_idx _ _ _); [|done]. cbn in E. injection E as <- <-. apply idx_inv, lookup_lt_Some in Ei. lia.
Qed.

Lemma rng_check_id id : rng n (check_id id) (λ j, j < n).
Proof.
  intros k r k' Hl E. destruct (quiet_check_id id _ _ _ E) as [_ Hr].
  unfold check_id, sbind, tasks_of, lift in E. cbn in E. destruct (check_task_id_total (k_tasks k) id) as (c & Ec & Hc).
  rewrite Ec in E. cbn in E. destruct c as [j|e]; injection E as <- <-; [lia|]. destruct e; [by subst|done].
Qed.

Lemma rng_check_callee id : rng n (check_callee id) (λ r, match r with inl _ => True | inr nt => hint_lt n nt end).
Proof.
  intros k r k' Hl E. unfold check_callee, sbind, tasks_of, lift in E. cbn in E.
  destruct (check_task_id_against_table _ _) as [[j|[c h|e]]|] eqn:Ec; cbn in E; try done; injection E as <- <-; try done.
  by rewrite (check_id_same _ _ _ _ Ec).
Qed.

Lemma rng_any {A} (m : sys A) R : rng n m R → rng n m (λ _, True).
Proof. intros Hm k r k' Hl E. specialize (Hm _ _ _ Hl E). by destruct r as [|[]]. Qed.

Lemma hint_combine a b : hint_lt n a → hint_lt n b → hint_lt n (combine a b).
Proof. destruct a, b; cbn; try case_decide; cbn; done. Qed.

Lemma rng_update_save j f : rng n (update_save j f) (λ _, True). Proof. apply rng_update. Qed.
Lemma rng_set_healthy j x : rng n (set_healthy j x) (λ _, True). Proof. apply rng_update. Qed.
End range.

Create HintDb rng.
#[export] Hint Resolve rng_fault rng_panic rng_force_fault rng_post_to rng_check_id rng_check_callee rng_update
  rng_update_save rng_set_healthy hint_combine : rng.
#[export] Hint Extern 1 (hint_lt _ _) => exact I : rng.
#[export] Hint Extern 1 True => exact I : rng.
#[export] Hint Resolve rng_quiet | 5 : rng.

Ltac rng_tac :=
  repeat first
  [ solve [eauto with rng quiet]
  | apply rng_ret; solve [eauto with rng | cbv beta in *; cbn; eauto with rng]
  | apply rng_fail; solve [eauto with rng quiet]
  | lazymatch goal with |- rng _ (sbind _ _) _ => eapply rng_bind; [solve [apply update_as_many | apply kept_as_many; kept_tac]|solve [eauto with rng quiet]|intros] end
  | progress cbv zeta
  | case_match ].

Section hints.
Context (n i : nat).

Lemma rng_fault_opt f j : rng n (fault_opt f j) (hint_lt n). Proof. destruct f; cbn; rng_tac. Qed.
#[local] Hint Resolve rng_fault_opt : rng.
Lemma rng_to_src f j : rng n (apply_to_src f j) (hint_lt n). Proof. unfold apply_to_src. rng_tac. Qed.
Lemma rng_to_dst f j : rng n (apply_to_dst f j) (hint_lt n). Proof. unfold apply_to_dst. rng_tac. Qed.
Lemma rng_deliver s c : rng n (deliver s c) (λ _, True). Proof. unfold deliver. rng_tac. Qed.
#[local] Hint Resolve rng_to_src rng_to_dst rng_deliver : rng.

Lemma rng_send hkm : rng n (hkm i) (hint_lt n) → rng n (send hkm i) (hint_lt n).
Proof. intros Hh. unfold send. rng_tac. Qed.

Lemma rng_recv_open fuel id last nt : hint_lt n nt →
  rng n (recv_open fuel i id last nt) (λ r, match r with inl nt | inr nt => hint_lt n nt end).
Proof.
  revert last nt. induction fuel as [|fuel IH]; intros last nt Hnt; cbn [recv_open]; [apply rng_panic|]. rng_tac.
Qed.
Lemma rng_recv_closed id s : rng n (recv_closed i id s) (λ r, match r with inl nt | inr nt => hint_lt n nt end).
Proof. unfold recv_closed. rng_tac. Qed.
#[local] Hint Resolve rng_recv_open rng_recv_closed : rng.

Lemma rng_recv : rng n (recv i) (hint_lt n).
Proof.
  unfold recv. eapply rng_bind; [apply kept_as_many; kept_tac|eauto with rng quiet|]. intros t _. unfold take_notifications.
  case_decide; [rng_tac|]. eapply rng_bind; [apply kept_as_many; kept_tac|eauto with rng quiet|]. intros id _. cbv zeta.
  eapply (rng_bind _ _ _ (λ r, match r with inl nt | inr nt => hint_lt n nt end)); [apply kept_as_many; kept_tac|rng_tac|].
  intros [nt|nt] Hnt; rng_tac.
Qed.

Lemma rng_deliver_reply id c s j d b : rng n (deliver_reply i id c s j d b) (hint_lt n).
Proof.
  unfold deliver_reply. eapply (rng_bind _ _ _ (λ _, True)); [apply kept_as_many; kept_tac| |].
  - unfold set_suspension_reply. rng_tac.
  - intros a _. rng_tac.
Qed.
#[local] Hint Resolve rng_deliver_reply : rng.
Lemma rng_reply : rng n (reply i) (hint_lt n). Proof. unfold reply. rng_tac. Qed.
Lemma rng_reply_fault : rng n (reply_fault i) (hint_lt n). Proof. unfold reply_fault. rng_tac. Qed.
Lemma rng_set_timer now : rng n (set_timer now i) (hint_lt n). Proof. unfold set_timer. rng_tac. Qed.
Lemma rng_get_timer now : rng n (get_timer now i) (hint_lt n). Proof. unfold get_timer. rng_tac. Qed.
Lemma rng_refresh : rng n (refresh_task_id i) (hint_lt n). Proof. unfold refresh_task_id. rng_tac. Qed.
Lemma rng_sys_post : rng n (sys_post i) (hint_lt n). Proof. unfold sys_post. rng_tac. Qed.
Lemma rng_borrow_lease j x off : rng n (borrow_lease i j x off) (λ _, True). Proof. unfold borrow_lease. rng_tac. Qed.
#[local] Hint Resolve rng_borrow_lease : rng.
Lemma rng_borrow_read : rng n (borrow_read i) (hint_lt n). Proof. unfold borrow_read. rng_tac. Qed.
Lemma rng_borrow_write : rng n (borrow_write i) (hint_lt n). Proof. unfold borrow_write. rng_tac. Qed.
Lemma rng_borrow_info : rng n (borrow_info i) (hint_lt n). Proof. unfold borrow_info. rng_tac. Qed.
Lemma rng_irq_control lk : rng n (irq_control lk i) (hint_lt n). Proof. unfold irq_control. rng_tac. Qed.
Lemma rng_irq_status lk : rng n (irq_status lk i) (hint_lt n). Proof. unfold irq_status. rng_tac. Qed.
Lemma rng_panic_call : rng n (explicit_panic i) (hint_lt n). Proof. apply rng_force_fault. Qed.

Lemma rng_dispatch hkm lk now nr : rng n (hkm i) (hint_lt n) → rng n (dispatch hkm lk now nr i) (hint_lt n).
Proof.
  intros Hh. unfold dispatch. destruct (sysnum_try_from nr) as [[]|]; [..|apply rng_fault];
    eauto using rng_send, rng_recv, rng_reply, rng_set_timer, rng_borrow_read, rng_borrow_write, rng_borrow_info, rng_irq_control,
      rng_panic_call, rng_get_timer, rng_refresh, rng_sys_post, rng_reply_fault, rng_irq_status.
Qed.
End hints.

Section message_hints.
Context `{Marshal} {K : Type} `{MemoryRegion K} (kernel_regions : list K).
Context (n i : nat).

(** Computations that end without a hint. *)
Lemma rng_respond x : rng n (respond i x) (hint_lt n).
Proof. unfold respond. rng_tac. Qed.

Lemma rng_each_index l f : (∀ j, kept (f j)) → (∀ j, rng n (f j) (λ _, True)) → rng n (each_index l f) (λ _, True).
Proof.
  intros Hk Hf. induction l as [|j l IH]; cbn; [by apply rng_ret|].
  eapply rng_bind; [apply kept_as_many, Hk|apply Hf|]. intros ? _. exact IH.
Qed.

Lemma rng_both f s c : rng n (apply_both f s c) (λ _, True).
Proof.
  unfold apply_both. eapply rng_bind; [apply kept_as_many; kept_tac|apply rng_fault_opt|]. intros ? _.
  eapply rng_bind; [apply kept_as_many; kept_tac|apply rng_fault_opt|]. intros ? _. by apply rng_ret.
Qed.
#[local] Hint Resolve rng_respond rng_deliver rng_both : rng.

Lemma rng_reconcile : rng n reconcile_ipc (λ _, True).
Proof.
  unfold reconcile_ipc. eapply rng_bind; [apply kept_as_many; kept_tac|eauto with rng quiet|]. intros tasks _.
  apply rng_each_index; intros j; unfold reconcile_one, deliver_or_fault; [kept_tac|rng_tac].
Qed.
Lemma rng_notify b : rng n (notify_supervisor b) (λ _, True).
Proof. unfold notify_supervisor. rng_tac. Qed.
Lemma rng_unblock id g j : rng n (unblock id g j) (λ _, True).
Proof. unfold unblock. rng_tac. Qed.
Lemma rng_put_tasks ts : rng n (put_tasks ts) (λ _, True).
Proof. by intros k r k' _ [= <- <-]. Qed.
#[local] Hint Resolve rng_reconcile rng_notify rng_unblock rng_put_tasks : rng.

(** No failure of these is recoverable but by the caller alone. *)
Lemma rng_hibernate_locked base size : rng n (hibernate_locked kernel_regions base size) (λ _, True).
Proof.
  intros k r k' _ E. unfold hibernate_locked, sbind, regions_of, tasks_of in E. cbn [ebind fst snd] in E.
  destruct (find_region _ _ _ _) as [[j h]|]; [|by injection E as <- <-].
  destruct (overlaps_protected_memory _ _ _); [by injection E as <- <-|].
  destruct (hibernate h _) as [h' [ev|e]]; [|by injection E as <- <-].
  unfold put_regions, lift, put_tasks in E. cbn [ebind fst snd] in E.
  destruct (each_task _ _ _) as [[u ts]|]; [|done]. cbn in E. by injection E as <- <-.
Qed.

Lemma rng_restore_event ev mode : rng n (restore_event ev mode) (λ _, True).
Proof.
  unfold restore_event. eapply rng_bind; [apply kept_as_many; kept_tac|eauto with rng quiet|].
  intros [index|e] _; [|by apply rng_fail].
  do 2 (eapply rng_bind; [apply kept_as_many; kept_tac|eauto with rng quiet|]; intros ? _).
  intros k r k' Hl E. unfold sbind at 1, tasks_of in E. cbn [ebind fst snd] in E. unfold sbind at 1, lift in E.
  destruct (restore_tasks _ _ _ _ _) as [[[b m] ts]|] eqn:Et; [|done]. cbn [ebind fst snd] in E.
  unfold sbind at 1, put_tasks in E. cbn [ebind fst snd] in E.
  assert (length ts = n) as Hts.
  { assert (descs ts = descs (k_tasks k)) as Hd; [|apply (f_equal length) in Hd; unfold descs in Hd; rewrite !length_map in Hd; congruence].
    eapply each_task_descs; [|exact Et]. intros y t y' t' ([[b1 t1] m1] & E1 & E2)%ebind_inv. injection E2 as _ <-.
    by eapply restore_region_desc. }
  revert E. eapply (rng_bind n _ _ _ (λ _, True)); [apply kept_as_many; kept_tac|eauto with rng quiet| |exact Hts]. intros ? _. rng_tac.
Qed.

Lemma rng_disable_debug_at j : rng n (disable_debug_at j) (λ _, True).
Proof. unfold disable_debug_at. rng_tac. Qed.
Lemma rng_reinitialize_at j : rng n (reinitialize_at j) (λ _, True).
Proof. unfold reinitialize_at. rng_tac. Qed.
#[local] Hint Resolve rng_hibernate_locked rng_restore_event rng_disable_debug_at rng_reinitialize_at : rng.

Lemma rng_reinit_task m : rng n (reinit_task i m) (hint_lt n).
Proof.
  unfold reinit_task. eapply rng_bind; [apply kept_as_many; kept_tac|eauto with rng quiet|]. intros [ix start] _. cbv zeta.
  eapply rng_bind; [apply kept_as_many; kept_tac|eauto with rng quiet|]. intros tasks _. case_decide; [apply rng_fault|].
  do 2 (eapply rng_bind; [apply kept_as_many; kept_tac|eauto with rng quiet|]; intros ? _). case_match; [by apply rng_fail|].
  eapply rng_bind; [apply kept_as_many; kept_tac|apply rng_reinitialize_at|]. intros ? _.
  eapply (rng_bind _ _ _ (λ _, True)); [apply kept_as_many; kept_tac|destruct start; rng_tac|]. intros ? _.
  eapply rng_bind; [apply kept_as_many; kept_tac|eauto with rng quiet|]. intros ? _.
  eapply rng_bind; [apply kept_as_many, kept_each_index; intros; kept_tac|apply rng_each_index; intros; [kept_tac|rng_tac]|].
  intros ? _. rng_tac.
Qed.

Lemma rng_kernel_message lk id : rng n (handle_kernel_message kernel_regions lk id i) (hint_lt n).
Proof.
  unfold handle_kernel_message. eapply rng_bind; [apply kept_as_many; kept_tac|eauto with rng quiet|]. intros tc _. cbv zeta.
  repeat case_match; first [apply rng_fault|eapply rng_bind; [apply kept_as_many; kept_tac|eauto with rng quiet|]; intros mm _].
  all: first [by intros k r k' _ E|apply rng_reinit_task|idtac].
  all: unfold read_task_status, fault_task, read_image_id, software_irq, find_faulted_task, read_panic_message, hibernate_region,
    read_hibernated_region, write_hibernated_region, restore_region, restore_task, suspend_task; rng_tac.
Qed.
End message_hints.

(** A call's hint names a task there is. *)
Lemma entry_hint_lt hkm lk now nr i k nt k' : (∀ n, rng n (hkm i) (hint_lt n)) →
  safe_syscall_entry hkm lk now nr i k = Ret (nt, k') → kept (hkm i) → hint_lt (length (k_tasks k)) nt.
Proof.
  intros Hh E Hk. set (n := length (k_tasks k)) in *. unfold safe_syscall_entry in E.
  apply ebind_inv in E as ([r k1] & E1 & ([r2 k3] & E2 & E)%ebind_inv).
  pose proof (rng_dispatch n i hkm lk now nr (Hh n) k r k1 eq_refl E1) as H1.
  pose proof (kept_as_many _ (kept_dispatch i hkm lk now nr Hk) _ _ _ E1) as Hl.
  cbn in E. destruct r2 as [nt2|]; [|done]. injection E as <- <-. destruct r as [|[c h|f]].
  - by injection E2 as <- _.
  - revert E2. unfold sbind. destruct (update_save _ _ _) as [[[] ?]|]; cbn; [|done..]. by intros [= <- _].
  - exact (rng_force_fault n i f k1 (Ok nt2) k3 Hl E2).
Qed.
