(* ===== verification/KernSched.v ===== *)
(** The scheduler's scan of the task table ([firmware/hubris/kern/src/task.rs],
    [priority_scan] and [select]): the most important of the eligible tasks, and
    the next one in rotation among equals. *)

From S2P Require Import Prelude KernAccess KernState KernMem KernTask.

(** The [k]-th task looked at when scanning after [previous]. *)
Definition visit (n previous k : nat) : nat := (previous + 1 + k) mod n.

Lemma visit_lt n previous k : previous < n → visit n previous k < n.
Proof. intros. apply Nat.mod_upper_bound. lia. Qed.

Lemma next_pos_visit n pos : pos < n → next_pos n pos = (pos + 1) mod n.
Proof.
  intros Hp. unfold next_pos. case_decide.
  - replace (pos + 1) with n by lia. by rewrite Nat.Div0.mod_same.
  - rewrite Nat.mod_small by lia. lia.
Qed.

Lemma next_visit n previous k : previous < n → next_pos n (visit n previous k) = visit n previous (S k).
Proof.
  intros Hp. rewrite next_pos_visit by (by apply visit_lt). unfold visit.
  rewrite Nat.Div0.add_mod_idemp_l. f_equal. lia.
Qed.

(** Every task is looked at. *)
Lemma visit_all n previous j : previous < n → j < n → ∃ k, k < n ∧ visit n previous k = j.
Proof.
  intros Hp Hj. unfold visit. destruct (decide (previous < j)).
  - exists (j - previous - 1). split; [lia|]. replace (previous + 1 + (j - previous - 1)) with j by lia. by apply Nat.mod_small.
  - exists (j + n - previous - 1). split; [lia|]. replace (previous + 1 + (j + n - previous - 1)) with (j + 1 * n) by lia.
    rewrite Nat.Div0.mod_add. by apply Nat.mod_small.
Qed.

Section scan.
Context (tasks : list Task) (pred : Task → bool) (previous : nat) (Hprev : previous < length tasks).
#[local] Abbreviation n := (length tasks).

(** [t], looked at as the [k]-th, is preferred to whatever eligible task is
    looked at as the [k']-th. *)
Definition preferred (k : nat) (t : Task) (k' : nat) : Prop :=
  ∀ u, tasks !! visit n previous k' = Some u → pred u = true →
    (t_priority t < t_priority u)%Z ∨ (t_priority t = t_priority u ∧ k ≤ k').

(** The choice after [s] tasks. *)
Definition chosen (s : nat) (choice : option (nat * Task)) : Prop :=
  match choice with
  | None => ∀ k u, k < s → tasks !! visit n previous k = Some u → pred u = false
  | Some (i, t) => ∃ k, k < s ∧ visit n previous k = i ∧ tasks !! i = Some t ∧ pred t = true ∧
      ∀ k', k' < s → preferred k t k'
  end.

Lemma chosen_skip s choice u : chosen s choice → tasks !! visit n previous s = Some u → pred u = false → chosen (S s) choice.
Proof.
  intros Hc Hu Hp. destruct choice as [[i t]|].
  - destruct Hc as (k & Hk & Hi & Ht & Hpt & Hpref). exists k. split; [lia|]. do 3 (split; [done|]). intros k' Hk'.
    destruct (decide (k' = s)) as [->|]; [intros v Hv Hpv; congruence|apply Hpref; lia].
  - intros k v Hk Hv. destruct (decide (k = s)) as [->|]; [congruence|apply (Hc k); [lia|done]].
Qed.

Lemma chosen_take s choice u : chosen s choice → tasks !! visit n previous s = Some u → pred u = true →
  (∀ i t, choice = Some (i, t) → (t_priority u < t_priority t)%Z) → chosen (S s) (Some (visit n previous s, u)).
Proof.
  intros Hc Hu Hp Hless. exists s. split; [lia|]. do 3 (split; [done|]). intros k' Hk' v Hv Hpv.
  destruct (decide (k' = s)) as [->|]; [right; rewrite Hu in Hv; injection Hv as ->; done|].
  destruct choice as [[i t]|].
  - destruct Hc as (k & Hk & _ & _ & _ & Hpref). specialize (Hless i t eq_refl).
    destruct (Hpref k' ltac:(lia) v Hv Hpv); lia.
  - exfalso. rewrite (Hc k' v) in Hpv; [done|lia|done].
Qed.

Lemma chosen_keep s i t u : chosen s (Some (i, t)) → tasks !! visit n previous s = Some u →
  ¬ (t_priority u < t_priority t)%Z → chosen (S s) (Some (i, t)).
Proof.
  intros (k & Hk & Hi & Ht & Hpt & Hpref) Hu Hge. exists k. split; [lia|]. do 3 (split; [done|]). intros k' Hk'.
  destruct (decide (k' = s)) as [->|]; [|apply Hpref; lia]. intros v Hv _. rewrite Hu in Hv. injection Hv as ->. lia.
Qed.

Lemma scan_loop_chosen steps s pos choice : next_pos n pos = visit n previous s → chosen s choice →
  ∃ r, scan_loop steps tasks pred pos choice = Ret r ∧ chosen (s + steps) r.
Proof.
  revert s pos choice. induction steps as [|steps IH]; intros s pos choice Hpos Hc; cbn [scan_loop].
  { exists choice. by rewrite Nat.add_0_r. }
  rewrite Hpos. destruct (idx_lt tasks (visit n previous s)) as (u & Hu & ->); [by apply visit_lt|]. cbn [ebind].
  rewrite <- Nat.add_succ_comm. pose proof (next_visit n previous s Hprev) as Hnext.
  destruct (pred u) eqn:Ep; cbn [negb]; [|by apply IH; [|by eapply chosen_skip]].
  destruct choice as [[i t]|]; [|by apply IH; [|by eapply chosen_take]].
  unfold is_more_important_than. case_bool_decide; cbn [negb]; apply IH; try done.
  - eapply chosen_take; [done..|]. by intros ? ? [= <- <-].
  - by eapply chosen_keep.
Qed.

Lemma priority_scan_chosen : ∃ r, priority_scan previous tasks pred = Ret r ∧ chosen n r.
Proof.
  apply (scan_loop_chosen n 0); [|intros k u Hk; lia]. rewrite next_pos_visit by done. unfold visit. f_equal. lia.
Qed.
End scan.

(** C9: The scheduler runs the most important task. Scanning the task table after
    a task of it, [select] panics exactly when no task is runnable; otherwise it
    returns a runnable task than which no runnable task has higher priority, and
    of those of equal priority the first in order after the previous task, so
    equals take turns. *)
Theorem select_most_important tasks previous : previous < length tasks →
  (select previous tasks = Panic ↔ ∀ j u, tasks !! j = Some u → is_runnable u = false) ∧
  (∀ t, select previous tasks = Ret t →
    ∃ k, k < length tasks ∧ tasks !! visit (length tasks) previous k = Some t ∧ is_runnable t = true ∧
      ∀ k' u, k' < length tasks → tasks !! visit (length tasks) previous k' = Some u → is_runnable u = true →
        (t_priority t < t_priority u)%Z ∨ (t_priority t = t_priority u ∧ k ≤ k')).
Proof.
  intros Hp. unfold select. destruct (priority_scan_chosen tasks is_runnable previous Hp) as (r & -> & Hc). cbn [ebind].
  destruct r as [[i t]|].
  - destruct Hc as (k & Hk & Hi & Ht & Hr & Hpref). split.
    + split; [done|]. intros Hno. by rewrite (Hno i t Ht) in Hr.
    + intros t' [= <-]. exists k. split; [done|]. split; [by rewrite Hi|]. split; [done|].
      intros k' u Hk' Hu Hru. by apply (Hpref k' Hk').
  - split; [|done]. split; [|done]. intros _ j u Hu.
    destruct (visit_all (length tasks) previous j Hp) as (k & Hk & Hj); [by eapply lookup_lt_Some|].
    apply (Hc k u Hk). by rewrite Hj.
Qed.
