(* ===== verification/KernProps.v ===== *)
(** The kernel as a state machine, and what holds in all its reachable states: it
    does not panic, the running task is runnable and the protection unit is loaded
    for it, hibernated memory is out of reach, suspended tasks are exactly those
    with a reason to be. *)

From S2P Require Import Prelude KernAccess KernState KernMem KernIrq KernTask KernSyscalls KernKipc KernInv KernSafe.
From S2P Require Import KernKipcSafe KernEntry KernRun KernRunKipc KernDesc KernSched.

Section machine.
Context `{Marshal} {K : Type} `{MemoryRegion K} (kernel_regions : list K).
Context (irq_lookup : Z → Z → option (list Z)) (irq_owner : Z → option (nat * Z)) (image_id : Z).

(** * Steps *)

(** The registers and the memory when the current task enters the kernel are
    whatever the task made of them. *)
Definition user_ran (save : SavedState) (mem : Z → Z) (m : Machine) : Machine :=
  let k := m_kernel m in
  with_kernel m (with_mem (with_tasks k (alter (λ t, set_saved t save) (m_current m) (k_tasks k))) mem).

Definition entry (nr : Z) : Machine → exec Machine :=
  syscall_entry (handle_kernel_message kernel_regions irq_lookup image_id) irq_lookup nr.

Inductive kstep : Machine → Machine → Prop :=
  | step_syscall m save mem nr m' : entry nr (user_ran save mem m) = Ret m' → kstep m m'
  | step_fault m save mem ty scb m' : handle_fault ty scb (user_ran save mem m) = Ret m' → kstep m m'
  | step_tick m b m' : SysTick m = Ret (b, m') → kstep m m'
  | step_interrupt m n b m' : DefaultHandler irq_owner n m = Ret (b, m') → kstep m m'
  | step_switch m m' : pendsv_entry m = Ret m' → kstep m m'
  (** A device raises an interrupt. *)
  | step_device m nv : nv_enabled nv = nv_enabled (k_nvic (m_kernel m)) →
      kstep m (with_kernel m (with_nvic (m_kernel m) nv)).

(** * Boot *)

Definition boot_region (h : HibernationRegionDesc) : Prop :=
  hib_ok h ∧ hib_active h = false ∧ hib_next_generation h = 0%Z.

(** What the build generates. *)
Definition build_ok (regions : list HibernationRegionDesc) (descs : list TaskDesc) : Prop :=
  length regions ≤ 32 ∧ Forall boot_region regions ∧ Forall (λ d, regions_ok (td_regions d)) descs.

Inductive reachable : Machine → Prop :=
  | reach_start regions mem nv descs m :
      build_ok regions descs → start_kernel regions mem nv descs = Ret m → reachable m
  | reach_step m m' : reachable m → kstep m m' → reachable m'.

(** * The invariant of the machine *)

Lemma boot_task_inv regions regions0 mem0 d sm : Forall boot_region regions → regions_ok (td_regions d) →
  arch_reinitialize regions0 mem0 (from_descriptor d) = Ret sm →
  task_inv regions (set_saved (from_descriptor d) (fst sm)) ∧ is_suspended (set_saved (from_descriptor d) (fst sm)) = false.
Proof.
  intros Hr Hrd Hre. set (t := set_saved (from_descriptor d) (fst sm)).
  assert (∃ s, t_state t = Healthy s ∧ in_suspended_reply s = false) as (s & Es & Hs).
  { cbn. destruct (attrs_contain _ _); by eexists. }
  assert (boots d) as Hb.
  { eapply arch_reinitialize_transfer; [exact Hre|done| |done]. unfold hold. cbn. by destruct (attrs_contain _ _). }
  unfold task_inv, task_ok, buffer_ok, reason_ok, hold, is_suspended. rewrite Es. split; [|done].
  split; [done|]. split; [done|]. split; [|done]. apply held_none; [unfold hold; by rewrite Es|].
  intros i h Hi Ha. destruct (Forall_lookup_1 _ _ _ _ Hr Hi) as (_ & ? & _). congruence.
Qed.

Lemma start_tasks_inv regions mem descs tasks mem' : Forall boot_region regions →
  Forall (λ d, regions_ok (td_regions d)) descs → start_tasks regions mem descs = Ret (tasks, mem') →
  Forall (λ t, task_inv regions t ∧ is_suspended t = false) tasks ∧ length tasks = length descs.
Proof.
  intros Hr Hd. revert mem tasks. induction Hd as [|d descs Hd _ IH]; intros mem tasks; cbn [start_tasks].
  - by intros [= <- <-].
  - intros (sm & E & (rest & E2 & E3)%ebind_inv)%ebind_inv. injection E3 as <- <-.
    destruct rest as [ts m2]. destruct (IH _ _ E2) as [Hts Hl]. split; [|cbn; by rewrite Hl].
    constructor; [by eapply boot_task_inv|done].
Qed.


(** The current task runs, with its own memory. *)
Definition minv (m : Machine) : Prop :=
  kinv (m_kernel m) ∧
  ∃ t, k_tasks (m_kernel m) !! m_current m = Some t ∧ t_state t = Healthy Runnable ∧ m_mpu m = region_table t.

Lemma select_at_ok previous tasks c : select_at previous tasks = Ret c →
  tasks !! fst c = Some (snd c) ∧ t_state (snd c) = Healthy Runnable.
Proof.
  unfold select_at. destruct (priority_scan_total previous tasks is_runnable) as (r & -> & Hr). cbn.
  destruct r as [[j t]|]; [|done]. intros [= <-]. destruct (Hr j t eq_refl) as [Hj Hp]. split; [done|]. cbn.
  unfold is_runnable in Hp. by destruct (t_state t) as [[]| |].
Qed.

Lemma switch_other_inv m p m' : kinv (m_kernel m) → switch_other m p = Ret m' → minv m' ∧ m_kernel m' = m_kernel m.
Proof.
  intros Hk (c & Ec & E)%ebind_inv. injection E as <-. apply select_at_ok in Ec as [Hc Hs]. split; [|done].
  split; [done|]. by exists (snd c).
Qed.

(** A switch to the task of a hint. *)
Lemma switch_next_inv m nt m' : kinv (m_kernel m) → on (hinted (m_current m) nt) (m_kernel m) →
  (∃ t, k_tasks (m_kernel m) !! m_current m = Some t ∧ m_mpu m = region_table t) →
  switch_next m nt = Ret m' → minv m' ∧ m_kernel m' = m_kernel m.
Proof.
  intros Hk Hh (t & Ht & Hm). destruct nt as [|j|]; cbn.
  - intros [= <-]. split; [|done]. split; [done|]. exists t. split; [done|]. split; [|done]. by apply (Hh _ _ Ht).
  - intros (tj & Ej%idx_inv & E)%ebind_inv. injection E as <-. split; [|done]. split; [done|]. exists tj.
    split; [done|]. split; [|done]. by apply (Hh _ _ Ej).
  - by apply switch_other_inv.
Qed.

Lemma select_at_total previous tasks t : previous < length tasks → t ∈ tasks → is_runnable t = true →
  ∃ c, select_at previous tasks = Ret c.
Proof.
  intros Hp [j Hj]%list_elem_of_lookup Hr. unfold select_at.
  destruct (priority_scan_chosen tasks is_runnable previous Hp) as (r & -> & Hc). cbn. destruct r as [c|]; [by exists c|].
  destruct (visit_all (length tasks) previous j Hp) as (q & Hq & Ej); [by eapply lookup_lt_Some|].
  cbn in Hc. rewrite (Hc q t Hq) in Hr; [done|by rewrite Ej].
Qed.

Lemma user_ran_tasks m save mem t : k_tasks (m_kernel m) !! m_current m = Some t →
  k_tasks (m_kernel (user_ran save mem m)) = <[m_current m := set_saved t save]> (k_tasks (m_kernel m)).
Proof.
  intros Ht. cbn. apply list_eq. intros j. destruct (decide (j = m_current m)) as [->|Hj].
  - rewrite list_lookup_alter_eq, Ht. cbn. symmetry. apply list_lookup_insert_eq. by eapply lookup_lt_Some.
  - by rewrite list_lookup_alter_ne, list_lookup_insert_ne.
Qed.

Lemma user_ran_inv m save mem t : minv m → k_tasks (m_kernel m) !! m_current m = Some t →
  minv (user_ran save mem m) ∧ k_tasks (m_kernel (user_ran save mem m)) !! m_current m = Some (set_saved t save).
Proof.
  intros [Hk (t' & Ht' & Hs & Hm)] Ht. rewrite Ht' in Ht. injection Ht as ->.
  assert (k_tasks (m_kernel (user_ran save mem m)) !! m_current m = Some (set_saved t save)) as Hl.
  { rewrite (user_ran_tasks m save mem t Ht'). apply list_lookup_insert_eq. by eapply lookup_lt_Some. }
  split; [|exact Hl]. split.
  - pose proof (kinv_task _ _ _ Hk Ht') as Hinv.
    assert (kinv (with_tasks (m_kernel m) (<[m_current m := set_saved t save]> (k_tasks (m_kernel m))))) as H1.
    { apply (kinv_insert _ _ t); [done|done| |intros _; unfold is_suspended; cbn; by rewrite Hs].
      eapply task_inv_same; [exact Hinv|done|done|]. apply Hinv. }
    rewrite <- (user_ran_tasks m save mem t Ht') in H1. exact H1.
  - exists (set_saved t save). split; [exact Hl|]. by split.
Qed.

(** A timer that fires may wake its task. *)
Definition stirred (regions : list HibernationRegionDesc) (t t' : Task) : Prop :=
  task_inv regions t' ∧ hold t' = hold t ∧ t_descriptor t' = t_descriptor t ∧ evolves (t_state t) (t_state t').

Lemma fire_timer_ok regions index hint t now : task_inv regions t →
  ∃ h t', fire_timer index hint t now = Ret (h, t') ∧ stirred regions t t'.
Proof.
  intros Ht. assert (stirred regions t t) as Hrefl by (repeat split; try done; try apply Ht; constructor).
  unfold fire_timer. destruct (deadline (t_timer t)) as [dl|]; [|by eexists _, _]. case_decide; [|by eexists _, _].
  cbv zeta. match goal with |- context [post ?u ?n] => destruct (post_spec u n) as (b & t' & E & Hd & Ho & Hb & He) end; [apply Ht|].
  rewrite E. cbn [ebind fst snd]. eexists _, _. split; [done|]. split; [|by split].
  eapply task_inv_same; [exact Ht|exact Hd|exact Ho|exact Hb].
Qed.

Lemma process_timers_ok regions index hint tasks now : Forall (task_inv regions) tasks →
  ∃ nt tasks', process_timers_from index hint tasks now = Ret (nt, tasks') ∧ Forall2 (stirred regions) tasks tasks'.
Proof.
  intros Hall. revert index hint. induction Hall as [|t tasks Ht _ IH]; intros index hint; cbn [process_timers_from];
    [by eexists _, _|].
  destruct (fire_timer_ok regions index hint t now Ht) as (h & t' & -> & Hst).
  cbn [ebind fst snd]. destruct (IH (S index) h) as (nt & ts & -> & HR). cbn [ebind fst snd].
  eexists _, _. split; [done|]. by constructor.
Qed.

(** The current task goes on running when tasks are only woken. *)
Lemma minv_stirred m tasks : minv m → Forall2 (stirred (k_regions (m_kernel m))) (k_tasks (m_kernel m)) tasks →
  minv (with_kernel m (with_tasks (m_kernel m) tasks)).
Proof.
  intros [(Hl & Hr & Hinv) (t & Ht & Hs & Hm)] HR. split.
  - split; [done|]. split; [done|]. eapply tasks_inv_walk; [exact Hinv|exact HR|by intros u u' (? & _)|].
    intros u u' _ (_ & Ho & _). by rewrite !is_suspended_hold, Ho.
  - destruct (Forall2_lookup_l _ _ _ _ _ HR Ht) as (t' & Ht' & _ & _ & Hd & He). exists t'. split; [exact Ht'|].
    rewrite Hs in He. split; [by inversion He|]. cbn. rewrite Hm. unfold region_table. by rewrite Hd.
Qed.

Lemma SysTick_total m : minv m → (fst (m_ticks m) + 1 < 2 ^ 32 ∨ snd (m_ticks m) + 1 < 2 ^ 32)%Z →
  ∃ b m', SysTick m = Ret (b, m').
Proof.
  intros [Hk _] Ht. unfold SysTick, tick. destruct Hk as (_ & _ & Hinv & _).
  assert (∃ tk, (if decide (fst (m_ticks m) + 1 < 2 ^ 32)%Z then Ret ((fst (m_ticks m) + 1)%Z, snd (m_ticks m))
     else if decide (snd (m_ticks m) + 1 < 2 ^ 32)%Z then Ret (0%Z, (snd (m_ticks m) + 1)%Z) else Panic) = Ret tk) as (tk & ->).
  { repeat case_decide; try by eexists. lia. }
  cbn [ebind]. match goal with |- context [process_timers _ ?n] =>
    destruct (process_timers_ok (k_regions (m_kernel m)) 0 Same (k_tasks (m_kernel m)) n Hinv) as (nt & ts & E & _) end.
  cbn [m_kernel]. unfold process_timers. rewrite E. by eexists _, _.
Qed.

Lemma SysTick_step m b m' : minv m → SysTick m = Ret (b, m') → minv m'.
Proof.
  intros Hm (tk & Etk & (r & Er & E)%ebind_inv)%ebind_inv. injection E as _ <-. cbn in Er.
  pose proof Hm as [(_ & _ & Hinv & _) _].
  destruct (process_timers_ok (k_regions (m_kernel m)) 0 Same (k_tasks (m_kernel m)) (now (mkMachine (m_kernel m) (m_current m) (m_mpu m) tk)) Hinv)
    as (nt & ts & E & HR). unfold process_timers in Er. rewrite E in Er. injection Er as <-.
  exact (minv_stirred m ts Hm HR).
Qed.

(** A task of the table is notified. *)
Lemma post_stirred regions tasks j t n b t' : Forall (task_inv regions) tasks → tasks !! j = Some t → post t n = Ret (b, t') →
  Forall2 (stirred regions) tasks (<[j := t']> tasks).
Proof.
  intros Hall Hj E. pose proof (Forall_lookup_1 _ _ _ _ Hall Hj) as Ht.
  destruct (post_spec t n) as (b' & t'' & E' & Hd & Ho & Hb & He); [apply Ht|]. rewrite E in E'. injection E' as <- <-.
  apply Forall2_same_length_lookup. split; [len|]. intros l x y Hx Hy. destruct (decide (l = j)) as [->|Hl].
  - rewrite list_lookup_insert_eq in Hy by (by eapply lookup_lt_Some). injection Hy as <-. rewrite Hj in Hx. injection Hx as <-.
    split; [|by split]. by eapply task_inv_same.
  - rewrite list_lookup_insert_ne in Hy by done. rewrite Hx in Hy. injection Hy as <-.
    split; [by eapply Forall_lookup_1|]. split; [done|]. split; [done|constructor].
Qed.

Lemma DefaultHandler_step m n b m' : minv m → DefaultHandler irq_owner n m = Ret (b, m') → minv m'.
Proof.
  intros Hm. unfold DefaultHandler. case_decide; [|done]. cbv zeta. destruct (irq_owner _) as [[j nb]|]; [|done].
  intros (t & Ei%idx_inv & ([w t'] & Ep & (l & El%set_idx_inv & E)%ebind_inv)%ebind_inv)%ebind_inv. injection E as _ <-.
  pose proof Hm as [(_ & _ & Hinv & _) _]. pose proof (post_stirred _ _ _ _ _ _ _ Hinv Ei Ep) as HR. cbn in El. rewrite <- El in HR.
  exact (minv_stirred m l Hm HR).
Qed.

(** * Calls and faults *)

Context (Hirq : irq_table_ok irq_lookup).

(** The call asks for a reset of the chip. *)
Definition resets (nr : Z) (t : Task) : Prop := kernel_send nr t ∧ asks_reset t.

Definition kernel_call (nr : Z) (m : Machine) : exec (NextTask * Kernel) :=
  safe_syscall_entry (handle_kernel_message kernel_regions irq_lookup image_id) irq_lookup (now m) nr (m_current m) (m_kernel m).

Lemma kernel_call_ok nr m t : minv m → k_tasks (m_kernel m) !! m_current m = Some t → ¬ resets nr t →
  ∃ nt k', kernel_call nr m = Ret (nt, k') ∧ kinv k' ∧ length (k_tasks k') = length (k_tasks (m_kernel m)).
Proof.
  intros [Hk (t' & Ht' & Hs & _)] Ht Hre. rewrite Ht' in Ht. injection Ht as ->.
  eapply syscall_entry_ok; [|done|done|exact Ht'|done]. intros Hsend. eapply handle_kernel_message_safe; [done..|].
  intros Ha. by apply Hre.
Qed.

Lemma task_at_run {B} j (f : Task → sys B) k t : k_tasks k !! j = Some t → sbind (task_at j) f k = f t k.
Proof. intros Ht. unfold sbind, task_at, sbind, tasks_of, lift. cbn. by rewrite (idx_ok _ _ _ Ht). Qed.

(** A reset does not return. *)
Lemma kernel_call_reset nr m t : k_tasks (m_kernel m) !! m_current m = Some t → resets nr t → kernel_call nr m = Panic.
Proof.
  intros Ht [[Hnr Hcallee] (Hop & msg & Hmsg)]. unfold kernel_call, safe_syscall_entry, dispatch. rewrite Hnr.
  unfold send. rewrite (task_at_run _ _ _ t Ht). cbv zeta. rewrite decide_True by done.
  unfold handle_kernel_message. rewrite (task_at_run _ _ _ t Ht). cbv zeta. by rewrite Hop, Hmsg.
Qed.

Lemma kernel_call_step nr m nt k' t : minv m → k_tasks (m_kernel m) !! m_current m = Some t → kernel_call nr m = Ret (nt, k') →
  kinv k' ∧ on (hinted (m_current m) nt) k' ∧
  ∃ t', k_tasks k' !! m_current m = Some t' ∧ t_descriptor t' = t_descriptor t.
Proof.
  intros Hm Ht E. pose proof Hm as [Hk (t1 & Ht1 & Hs & _)]. rewrite Ht1 in Ht. injection Ht as ->.
  assert (¬ resets nr t) as Hre by (intros Hre; by rewrite (kernel_call_reset nr m t Ht1 Hre) in E).
  destruct (kernel_call_ok nr m t Hm Ht1 Hre) as (nt' & k2 & E' & Hk' & _). rewrite E in E'. injection E' as <- <-.
  split; [done|]. split.
  { eapply entry_hinted; [|intros j u Hu ->; rewrite Ht1 in Hu; by injection Hu as <-|exact E]. apply hp_kernel_message. }
  eapply descs_lookup; [|exact Ht1].
  unfold kernel_call, safe_syscall_entry in E. apply ebind_inv in E as ([r k1] & E1 & ([r2 k3] & E2 & E)%ebind_inv).
  pose proof (kept_dispatch _ _ _ _ _ (kept_kernel_message kernel_regions _ irq_lookup image_id) _ _ _ E1) as H1.
  cbn in E. destruct r2; [|done]. injection E as <- <-. rewrite <- H1. destruct r as [|[]].
  - by injection E2 as <- <-.
  - revert E2. apply kept_bind; [apply kept_update_save|]. intros u. apply kept_quiet, quiet_ret.
  - by eapply kept_force_fault.
Qed.

Lemma entry_step nr m m' : minv m → entry nr m = Ret m' → minv m'.
Proof.
  intros Hm E. pose proof Hm as [_ (t & Ht & _ & Hmpu)]. unfold entry, syscall_entry in E.
  apply ebind_inv in E as ([nt k'] & E1 & E). destruct (kernel_call_step nr m nt k' t Hm Ht E1) as (Hk' & Hh & t' & Ht' & Hd).
  eapply switch_next_inv; [| | |exact E]; [done|exact Hh|]. exists t'. split; [exact Ht'|]. cbn. rewrite Hmpu. unfold region_table.
  by rewrite Hd.
Qed.

(** Some task can run. *)
Definition some_runnable (k : Kernel) : Prop := ∃ u, u ∈ k_tasks k ∧ is_runnable u = true.

Lemma switch_other_total m p : p < length (k_tasks (m_kernel m)) → some_runnable (m_kernel m) → ∃ m', switch_other m p = Ret m'.
Proof.
  intros Hp (u & Hu & Hr). unfold switch_other. destruct (select_at_total p _ u Hp Hu Hr) as [c ->]. by eexists.
Qed.

Lemma switch_next_total m nt : hint_lt (length (k_tasks (m_kernel m))) nt → m_current m < length (k_tasks (m_kernel m)) →
  some_runnable (m_kernel m) → ∃ m', switch_next m nt = Ret m'.
Proof.
  intros Hlt Hc Hr. destruct nt as [|j|]; cbn; [by eexists| |by apply switch_other_total].
  destruct (idx_lt _ _ Hlt) as (t & _ & ->). by eexists.
Qed.

Lemma entry_total nr m t : minv m → k_tasks (m_kernel m) !! m_current m = Some t → ¬ resets nr t →
  ∃ nt k', kernel_call nr m = Ret (nt, k') ∧ (some_runnable k' → ∃ m', entry nr m = Ret m').
Proof.
  intros Hm Ht Hre. destruct (kernel_call_ok nr m t Hm Ht Hre) as (nt & k' & E & Hk' & Hl). exists nt, k'. split; [done|].
  intros Hr. unfold entry, syscall_entry. unfold kernel_call in E. rewrite E. cbn [ebind fst snd].
  apply switch_next_total; cbn; [|rewrite Hl; by eapply lookup_lt_Some|done]. rewrite Hl.
  eapply entry_hint_lt; [|exact E|apply kept_kernel_message]. intros n. apply rng_kernel_message.
Qed.

(** A fault of the current task: the kernel's state after it, and the hint. *)
Lemma fault_spec m t f : minv m → k_tasks (m_kernel m) !! m_current m = Some t →
  ∃ nt tasks t', force_fault (k_tasks (m_kernel m)) (m_current m) f = Ret (nt, tasks) ∧
    kinv (with_tasks (m_kernel m) tasks) ∧ on (hinted (m_current m) nt) (with_tasks (m_kernel m) tasks) ∧ nt ≠ Same ∧
    hint_lt (length tasks) nt ∧ tasks !! m_current m = Some t' ∧ t_descriptor t' = t_descriptor t ∧ is_runnable t' = false.
Proof.
  intros [Hk (t1 & Ht1 & Hs & _)] Ht. rewrite Ht1 in Ht. injection Ht as ->. set (k := m_kernel m) in *. set (i := m_current m) in *.
  destruct (wp_force_fault i f t (λ _ k', kinv k' ∧ ∃ t', k_tasks k' !! i = Some t' ∧ is_runnable t' = false) k Hk Ht1)
    as (r & k2 & E & Hl & Hr).
  { intros nt k' t' Hk' _ Ht' Hs'. split; [done|]. exists t'. split; [done|]. unfold is_runnable. rewrite Hs', Hs. done. }
  pose proof (hp_force_fault i (λ _ _, True) i f ltac:(done) k r k2 ltac:(done) E) as Hh.
  pose proof (rng_force_fault (length (k_tasks k)) i f k r k2 eq_refl E) as Hn.
  unfold sys_force_fault, sbind, lift, tasks_of, put_tasks in E. cbn [ebind fst snd] in E.
  destruct (force_fault (k_tasks k) i f) as [[nt ts]|] eqn:Ef; [|done]. cbn in E. injection E as <- <-.
  destruct Hr as (Hk' & t' & Ht' & Hrun). destruct Hh as ([_ Hh]%on_both & Hne & _). cbn in Hl, Hn.
  destruct (descs_lookup _ _ _ _ (force_fault_descs _ _ _ _ _ Ef) Ht1) as (t'' & Ht'' & Hd). cbn in Ht'.
  rewrite Ht' in Ht''. injection Ht'' as <-.
  exists nt, ts, t'. split; [done|]. split; [done|]. split; [by destruct nt|]. split; [done|]. by rewrite Hl.
Qed.

Lemma handle_fault_step ty scb m m' : minv m → handle_fault ty scb m = Ret m' → minv m'.
Proof.
  intros Hm (t & Ei%idx_inv & E)%ebind_inv. case_match; [done|]. cbv zeta in E.
  apply ebind_inv in E as ([nt ts] & Ef & (m2 & E2 & E)%ebind_inv). case_decide; [done|]. injection E as <-.
  destruct (fault_spec m t (diagnose ty scb (psp (t_save t))) Hm Ei) as (nt' & ts' & t' & Ef' & Hk & Hh & _ & _ & Ht' & Hd & _).
  rewrite Ef in Ef'. injection Ef' as <- <-. eapply switch_next_inv; [| | |exact E2]; [exact Hk|exact Hh|].
  exists t'. split; [exact Ht'|]. cbn. pose proof Hm as [_ (t1 & Ht1 & _ & ->)]. rewrite Ht1 in Ei. injection Ei as ->.
  unfold region_table. by rewrite Hd.
Qed.

Lemma handle_fault_total ty scb m t : minv m → k_tasks (m_kernel m) !! m_current m = Some t → from_thread_mode (t_save t) = true →
  ∃ nt tasks, force_fault (k_tasks (m_kernel m)) (m_current m) (diagnose ty scb (psp (t_save t))) = Ret (nt, tasks) ∧
    (some_runnable (with_tasks (m_kernel m) tasks) → ∃ m', handle_fault ty scb m = Ret m').
Proof.
  intros Hm Ht Hmode.
  destruct (fault_spec m t (diagnose ty scb (psp (t_save t))) Hm Ht) as (nt & ts & t' & Ef & Hk & Hh & Hne & Hn & Ht' & Hd & Hrun).
  exists nt, ts. split; [done|]. intros Hr. unfold handle_fault. rewrite (idx_ok _ _ _ Ht). cbn [ebind]. rewrite Hmode. cbn [negb].
  rewrite Ef. cbn [ebind fst snd]. set (m1 := with_kernel m (with_tasks (m_kernel m) ts)).
  destruct (switch_next_total m1 nt Hn) as [m2 E2]; [by eapply lookup_lt_Some|done|]. rewrite E2. cbn [ebind].
  case_decide as Hc; [exfalso|by eexists].
  destruct (switch_next_inv m1 nt m2) as ([_ (t2 & Ht2 & Hs2 & _)] & Ek); [done|exact Hh| |exact E2|].
  { exists t'. split; [exact Ht'|]. cbn. pose proof Hm as [_ (t1 & Ht1 & _ & ->)]. rewrite Ht1 in Ht. injection Ht as ->.
    unfold region_table. by rewrite Hd. }
  rewrite Ek, Hc in Ht2. cbn in Ht2. rewrite Ht' in Ht2. injection Ht2 as <-. unfold is_runnable in Hrun. by rewrite Hs2 in Hrun.
Qed.

(** * Reachable states *)

Lemma start_inv regions mem nv descs m : build_ok regions descs → start_kernel regions mem nv descs = Ret m → minv m.
Proof.
  intros (Hl & Hr & Hd) ([ts mem'] & E & (last & El & E2)%ebind_inv)%ebind_inv. cbn [fst snd] in *.
  destruct (start_tasks_inv _ _ _ _ _ Hr Hd E) as [Ht Hlen].
  eapply switch_other_inv; [|exact E2]. cbn. split; [done|]. split.
  - eapply List.Forall_impl; [|exact Hr]. intros h (? & Ha & Hg). split; [done|]. rewrite Hg, Ha. split; [const_u|done].
  - split; [eapply List.Forall_impl; [|exact Ht]; by intros t [? _]|].
    destruct ts as [|t0 ts]; [by unfold usub in El; case_decide; [cbn in *; lia|]|]. exists t0. split; [done|].
    by apply Forall_cons_1 in Ht as [[_ ?] _].
Qed.

Lemma step_inv m m' : minv m → kstep m m' → minv m'.
Proof.
  intros Hm Hstep. pose proof Hm as [_ (t & Ht & _)].
  inversion Hstep as [? save mem nr ? E|? save mem ty scb ? E|? b ? E|? n b ? E|? ? E|? nv Hnv]; subst.
  - eapply entry_step; [|exact E]. by apply (user_ran_inv m save mem t).
  - eapply handle_fault_step; [|exact E]. by apply (user_ran_inv m save mem t).
  - by eapply SysTick_step.
  - by eapply DefaultHandler_step.
  - eapply switch_other_inv; [|exact E]. apply Hm.
  - exact Hm.
Qed.

Lemma reachable_inv m : reachable m → minv m.
Proof. induction 1; [by eapply start_inv|by eapply step_inv]. Qed.

(** * The properties *)

(** C1: The kernel does not panic, and its calls end. In every reachable state,
    whatever registers and memory the running task presents: each system call and
    kernel message returns, but for the request to reset the chip (this includes
    the open receive, whose search for senders is unbounded in the code); a fault
    of a task is recorded; a switch to another task follows if any can run; a
    deferred switch always finds a task; a tick of the timer is processed unless 2^64 ticks
    have passed; and so is every interrupt that has an owner in the task table. *)
Theorem kernel_never_panics m t : reachable m → k_tasks (m_kernel m) !! m_current m = Some t →
  (∀ save mem nr,
    (¬ resets nr (set_saved t save) →
      ∃ nt k', kernel_call nr (user_ran save mem m) = Ret (nt, k') ∧
        (some_runnable k' → ∃ m', entry nr (user_ran save mem m) = Ret m')) ∧
    (resets nr (set_saved t save) → kernel_call nr (user_ran save mem m) = Panic)) ∧
  (∀ save mem ty scb, from_thread_mode save = true →
    ∃ nt tasks, force_fault (k_tasks (m_kernel (user_ran save mem m))) (m_current m) (diagnose ty scb (psp save)) = Ret (nt, tasks) ∧
      (some_runnable (with_tasks (m_kernel (user_ran save mem m)) tasks) → ∃ m', handle_fault ty scb (user_ran save mem m) = Ret m')) ∧
  (∃ m', pendsv_entry m = Ret m') ∧
  ((fst (m_ticks m) + 1 < 2 ^ 32 ∨ snd (m_ticks m) + 1 < 2 ^ 32)%Z → ∃ b m', SysTick m = Ret (b, m')) ∧
  (∀ n j bits, (16 <= n)%Z → irq_owner (n - 16) = Some (j, bits) → j < length (k_tasks (m_kernel m)) →
    ∃ b m', DefaultHandler irq_owner n m = Ret (b, m')).
Proof.
  intros Hm%reachable_inv Ht. split; [|split; [|split; [|split]]].
  - intros save mem nr. destruct (user_ran_inv m save mem t Hm Ht) as [Hm1 Ht1].
    split; [by apply entry_total|by apply kernel_call_reset].
  - intros save mem ty scb Hmode. destruct (user_ran_inv m save mem t Hm Ht) as [Hm1 Ht1].
    by apply (handle_fault_total ty scb (user_ran save mem m) (set_saved t save)).
  - pose proof Hm as [_ (t1 & Ht1 & Hs & _)]. apply switch_other_total; [by eapply lookup_lt_Some|].
    exists t1. split; [by eapply list_elem_of_lookup_2|]. unfold is_runnable. by rewrite Hs.
  - by apply SysTick_total.
  - intros n j bits Hn Ho Hj. unfold DefaultHandler. rewrite decide_True by done. cbv zeta. rewrite Ho.
    destruct (idx_lt _ _ Hj) as (tj & Htj & ->). cbn [ebind].
    destruct (post_spec tj bits) as (b & t' & -> & _); [|cbn [ebind fst snd]; rewrite set_idx_ok by done; by eexists _, _].
    pose proof Hm as [Hk _]. by destruct (kinv_task _ _ _ Hk Htj) as (_ & ? & _).
Qed.

(** C2: The running task is one that may run. In every reachable state the current
    task is healthy and runnable: neither a system call, nor a kernel message, nor a
    fault, nor an interrupt ever returns to a task that is blocked, faulted, stopped
    or suspended, whatever hint it ends with. And the protection unit holds exactly
    that task's regions. *)
Theorem current_task_runnable m : reachable m →
  ∃ t, k_tasks (m_kernel m) !! m_current m = Some t ∧ t_state t = Healthy Runnable ∧ m_mpu m = region_table t.
Proof. by intros [_ Hm]%reachable_inv. Qed.

(** C3: Hibernated memory is out of reach. In every reachable state, while a
    hibernation region is active, no access check on behalf of any task, for any
    purpose, grants a slice with a byte of it, and the protection unit grants the
    running task no byte of it either. The slices are those of which [USlice::from_raw]
    accepts the base and the length, of elements of any size, and with them those of all
    leases that do not reach the top of the address space. The slice of a lease that wraps
    around it is not covered: [wrapping_lease_granted] shows that the check is not sound
    for it. *)
Theorem hibernated_memory_unreachable m j h : reachable m →
  k_regions (m_kernel m) !! j = Some h → hib_active h = true →
  (∀ i t size align base len s desired forbidden a, k_tasks (m_kernel m) !! i = Some t →
    (0 < size)%Z → (0 <= base)%Z → (0 <= len)%Z → uslice_from_raw size align base len = Ok s →
    (base <= a < base + len * size)%Z → in_hib h a →
    assert_access (k_regions (m_kernel m)) size t s desired forbidden ≠ Ret (Ok tt)) ∧
  (∀ i t l desired forbidden a, k_tasks (m_kernel m) !! i = Some t → (0 <= ul_base l)%Z → (0 <= ul_length l)%Z → (ul_base l + ul_length l < 2 ^ 32)%Z →
    in_uslice (uslice_of_lease l) a → in_hib h a →
    assert_access (k_regions (m_kernel m)) 1 t (uslice_of_lease l) desired forbidden ≠ Ret (Ok tt)) ∧
  (∀ r a, r ∈ m_mpu m → in_region r a → ¬ in_hib h a).
Proof.
  intros [Hk (tc & Htc & Hsc & ->)]%reachable_inv Hh Ha. set (k := m_kernel m) in *.
  assert (Forall hib_ok (k_regions k)) as Hhok.
  { destruct Hk as (_ & Hr & _). eapply List.Forall_impl; [|exact Hr]. by intros ? [? _]. }
  assert (∀ t r a, task_ok t → r ∈ region_table t → in_region r a → in_hib h a → touches h t = true) as Htouch.
  { intros t r a Hok Hr Hra Hha. apply existsb_exists. exists r. split; [by apply list_elem_of_In|].
    pose proof (Forall_lookup_1 _ _ _ _ Hhok Hh) as (? & ? & ?). unfold overlaps, hib_end, in_region, in_hib in *.
    cbn [base_addr end_addr RegionDesc_region]. rewrite (region_end_ok r) by (by eapply regions_ok_in; [apply Hok|]).
    rewrite wrap_small by (unfold is_u; lia). rewrite andb_true_iff, !bool_decide_eq_true. lia. }
  assert (∀ i t s desired forbidden a, k_tasks k !! i = Some t → uslice_ok s → in_uslice s a → in_hib h a →
    assert_access (k_regions k) 1 t s desired forbidden ≠ Ret (Ok tt)) as Hbytes.
  { intros i t s desired forbidden a Ht Hs Hsa Hha E. pose proof (kinv_task k i t Hk Ht) as (Hok & _ & Hheld & _).
    destruct (assert_access_ok (k_regions k) t s desired forbidden Hok Hhok Hs) as (r & E' & Hsound & _).
    rewrite E' in E. injection E as ->. destruct (Hsound eq_refl a Hsa) as [(r & Hr & _ & Hra) Hno].
    eapply (Hno j h); [|done|done]. apply Hheld. exists h. eauto. }
  split; [|split].
  - intros i t size align base len s desired forbidden a Ht Hsz Hb Hl Hs Hsa. apply from_raw_ok in Hs as (-> & _ & Htop); [|done..].
    pose proof (kinv_task k i t Hk Ht) as ((_ & Hst) & _). rewrite assert_access_bytes by (cbn; (done || lia)).
    apply (Hbytes i t _ _ _ a Ht); [unfold uslice_ok; cbn; nia|unfold in_uslice; cbn; lia].
  - intros i t l desired forbidden a Ht Hb Hl Htop. by apply (Hbytes i t _ _ _ a Ht).
  - intros r a Hr Hra Hha. pose proof (kinv_task k _ tc Hk Htc) as (Hok & _ & Hheld & _).
    assert (hibernated_for tc j = true) as E by (apply Hheld; exists h; eauto). unfold hibernated_for in E. by rewrite Hsc in E.
Qed.

(** C4: Tasks are suspended exactly for a reason. In every reachable state a task
    is suspended if and only if an active hibernation region overlaps its memory
    or a debugger asked for it: none runs without its memory, none is forgotten
    when its last region comes back. The supervisor is never suspended. *)
Theorem suspended_iff_held m i t : reachable m → k_tasks (m_kernel m) !! i = Some t →
  (is_suspended t = true ↔
    (∃ h, h ∈ k_regions (m_kernel m) ∧ hib_active h = true ∧ touches h t = true) ∨
    (∃ s f bits, t_state t = Suspended s f bits true)) ∧
  (i = 0 → is_suspended t = false).
Proof.
  intros [Hk _]%reachable_inv Ht. pose proof (kinv_task _ i t Hk Ht) as ([_ Hsto] & _ & Hheld & Hre & _).
  split; [split|].
  - intros Hs. unfold is_suspended in Hs. unfold reason_ok, hold in Hre. cbn in Hsto.
    destruct (t_state t) as [| |s f bits dbg] eqn:Es; try done. destruct dbg; [right; by eexists _, _, _|]. left.
    destruct Hre as [Hne|?]; [|done].
    destruct (decide (Exists (λ i, Z.testbit bits (Z.of_nat i) = true) (seq 0 32))) as [Hex|Hno].
    + apply list.Exists_exists in Hex as (n & _ & Hn).
      assert (hibernated_for t n = true) as E by (unfold hibernated_for; by rewrite Es).
      apply Hheld in E as (h & Hh & Ha & Htc). exists h. split; [by eapply list_elem_of_lookup_2|done].
    + exfalso. apply Hne. apply from_bit_zero. split; [done|]. intros n Hn. apply not_true_iff_false. intros Hb.
      apply Hno, list.Exists_exists. exists n. split; [|done]. apply list_elem_of_In, in_seq. lia.
  - intros [(h & [n Hn]%list_elem_of_lookup & Ha & Htc)|(s & f & bits & Es)]; [|unfold is_suspended; by rewrite Es].
    assert (hibernated_for t n = true) as E by (apply Hheld; eauto). unfold hibernated_for in E. unfold is_suspended.
    by destruct (t_state t).
  - intros ->. destruct Hk as (_ & _ & _ & t0 & Ht0 & Hs). rewrite Ht0 in Ht. by injection Ht as ->.
Qed.
End machine.
