(* ===== verification/KernReply.v ===== *)
(** Replies to suspended tasks ([firmware/hubris/kern/src/syscalls.rs], [reply], and
    [task.rs], [set_suspension_reply] and [try_restore]): a reply that is kept
    while its receiver is suspended has, once the receiver is restored, the effect
    that it would have had at once. Events of hibernation ([descs.rs]). *)

From S2P Require Import Prelude KernAccess KernState KernMem KernIrq KernTask KernSyscalls KernKipc KernInv KernSafe KernKipcSafe.

(** * Copies, as bytes *)

Lemma read_mem_nth mem base n i : i < n → nth i (read_mem mem base n) 0%Z = mem (base + Z.of_nat i)%Z.
Proof.
  intros Hi. unfold read_mem. erewrite nth_lookup_Some; [done|]. rewrite list_lookup_fmap, lookup_seq_lt by done. done.
Qed.

Lemma write_read_copy mem src dst n a : (0 <= n)%Z →
  write_mem mem dst (read_mem mem src (Z.to_nat n)) a = copy_mem mem src dst n a.
Proof.
  intros Hn. unfold write_mem, copy_mem. rewrite length_read_mem, Z2Nat.id by done. case_decide; [|done].
  rewrite read_mem_nth by lia. f_equal. lia.
Qed.

(** * Access of tasks that no hibernated region holds *)

(** Bits that are all clear hold nothing. *)
Definition not_held (t : Task) : Prop := hold t = None ∨ ∃ dbg, hold t = Some (0%Z, dbg).

Lemma not_held_any regions t pred : not_held t → any_hibernated regions t pred = false.
Proof.
  unfold not_held, hold, any_hibernated. intros [Ho|[dbg Ho]]; destruct (t_state t); try done. injection Ho as -> ->. done.
Qed.

Lemma access_not_held regions regions' size t t' s desired forbidden :
  region_table t' = region_table t → not_held t → not_held t' →
  assert_access regions size t s desired forbidden = assert_access regions' size t' s desired forbidden.
Proof.
  intros Hd Ho Ho'. unfold assert_access. rewrite Hd. destruct (can_access _ _ _) as [[]|]; try done.
  cbn. by rewrite !not_held_any.
Qed.

Lemma access_empty regions size t b desired forbidden : not_held t →
  assert_access regions size t (mkUSlice b 0) desired forbidden = Ret (Ok tt).
Proof. intros Ho. unfold assert_access, can_access. cbn. by rewrite not_held_any. Qed.

(** * The two ways of a reply *)

Section reply.
Context (k : Kernel) (i j : nat) (ti tj : Task) (id : TaskId) (resp : Z) (src dest : USlice).
Context (Hi : k_tasks k !! i = Some ti) (Hti : t_state ti = Healthy Runnable).
Context (Hj : k_tasks k !! j = Some tj) (Htj : t_state tj = Healthy (InReply id)).
Context (Hbuf : t_suspension_buffer tj = None).
Context (Hlen : (0 <= us_length src <= us_length dest)%Z) (Hcap : (us_length src <= 256)%Z).

#[local] Abbreviation n := (us_length src).

(** The receiver after an immediate reply. *)
Definition replied : Task :=
  set_state (set_saved tj (set_send_response_and_length (t_save tj) resp n)) (Healthy Runnable).

Lemma different : i ≠ j.
Proof using All. intros ->. rewrite Hi in Hj. injection Hj as ->. congruence. Qed.

(** A copy that succeeds found the source readable, and copied its bytes. *)
Lemma copy_succeeds r mem : safe_copy (k_regions k) (k_mem k) (k_tasks k) i src j dest = Ret (Ok r, mem) →
  r = n ∧ (∀ a, mem a = copy_mem (k_mem k) (us_base src) (us_base dest) n a) ∧
  try_read (k_regions k) 1 ti src = Ret (Ok tt).
Proof using All.
  assert (Z.min n (us_length dest) = n) as Hmin by lia. unfold safe_copy, shorten_to_match. rewrite Hmin. case_decide as Hz.
  { intros [= <- <-]. split; [done|]. split.
    - intros a. unfold copy_mem. by rewrite decide_False by lia.
    - replace src with (mkUSlice (us_base src) 0) by (destruct src; cbn in *; congruence).
      apply access_empty. left. unfold hold. by rewrite Hti. }
  unfold copy_checked, index2_distinct. rewrite decide_True by apply different.
  rewrite (idx_ok _ _ _ Hi), (idx_ok _ _ _ Hj). cbn [ebind fst snd].
  replace (mkUSlice (us_base src) n) with src by (by destruct src).
  destruct (try_read _ 1 ti src) as [rs|]; [|done]. cbn [ebind]. intros H.
  destruct (aliases _ _ _); cbn [ebind] in H; [by destruct rs|].
  destruct (try_write _ 1 tj _) as [rd|]; [|done]. cbn [ebind] in H. destruct rs as [[]|], rd; try done.
  by injection H as <- <-.
Qed.

Lemma immediate_reply k1 : deliver_reply i id resp src j dest false k = Ret (Ok Same, k1) →
  k_tasks k1 = <[j := replied]> (k_tasks k) ∧
  (∀ a, k_mem k1 a = copy_mem (k_mem k) (us_base src) (us_base dest) n a) ∧ try_read (k_regions k) 1 ti src = Ret (Ok tt).
Proof using All.
  unfold deliver_reply, sbind at 1. unfold sys_copy.
  destruct (safe_copy _ _ _ _ _ _ _) as [[[r|f] mem]|] eqn:Ec; cbn [ebind fst snd]; [| |done].
  - apply copy_succeeds in Ec as (-> & Hmem & Hread). pose proof (lookup_lt_Some _ _ _ Hj) as Hlj.
    unfold update_save, set_healthy, update_task, sbind, lift, tasks_of, put_tasks, sret. cbn.
    rewrite (idx_ok _ _ _ Hj). cbn. rewrite set_idx_ok by done. cbn.
    rewrite (idx_ok _ j (set_saved tj (set_send_response_and_length (t_save tj) resp n)))
      by (by apply list_lookup_insert_eq). cbn.
    unfold set_healthy_state. cbn. rewrite Htj. cbn. rewrite set_idx_ok by len. cbn.
    intros [= <-]. cbn. split; [by rewrite list_insert_insert_eq|done].
  - unfold apply_to_dst, sbind. destruct (if_dst f) as [fd|] eqn:Ed; cbn.
    + unfold sys_force_fault, sbind, lift, tasks_of, put_tasks. cbn. destruct (force_fault _ _ _) as [[nt ts]|] eqn:Ef; [|done].
      cbn. destruct (if_src f); [done|]. cbn. intros [= -> <-]. exfalso. unfold force_fault in Ef.
      apply ebind_inv in Ef as (t & _ & Ef). apply ebind_inv in Ef as (ts' & _ & Ef). apply ebind_inv in Ef as (w & _ & Ef).
      injection Ef as Ew _. by destruct (fst w).
    + destruct (if_src f) eqn:Es; [done|]. cbn. intros _. exfalso.
      destruct (safe_copy_total (k_regions k) (k_mem k) (k_tasks k) i src j dest different) as (r & m & E & Hb);
        [by eapply lookup_lt_Some|by eapply lookup_lt_Some|]. rewrite Ec in E. injection E as <- <-.
      destruct Hb; congruence.
Qed.

(** The receiver, suspended. *)
Definition suspended_in (bits : Z) (dbg : bool) : Kernel :=
  with_tasks k (<[j := set_state tj (Suspended (InReply id) None bits dbg)]> (k_tasks k)).

(** The receiver while a reply is kept for it. *)
Definition waiting (bits : Z) (dbg : bool) : Task :=
  set_state (set_buffer (set_saved tj (set_send_response_and_length (t_save tj) resp n))
    (Some (read_mem (k_mem k) (us_base src) (Z.to_nat n)))) (Suspended (InSuspendedReply id) None bits dbg).

Lemma deferred_reply bits dbg : try_read (k_regions k) 1 ti src = Ret (Ok tt) →
  ∃ k1, deliver_reply i id resp src j dest true (suspended_in bits dbg) = Ret (Ok Same, k1) ∧
    k_tasks k1 !! j = Some (waiting bits dbg) ∧ k_mem k1 = k_mem k.
Proof using All.
  intros Hread. pose proof (lookup_lt_Some _ _ _ Hj) as Hlj. pose proof different as Hij.
  unfold deliver_reply, set_suspension_reply, sbind, check_access, memory, suspended_in. cbn.
  rewrite (idx_ok _ i ti) by (by rewrite list_lookup_insert_ne). cbn. rewrite Hread. cbn.
  unfold suspension_buffer_ok. rewrite length_read_mem. rewrite decide_False by (unfold BUFFER_CAPACITY; lia).
  unfold update_save, set_healthy, update_task, sbind, lift, tasks_of, put_tasks, sret. cbn.
  rewrite (idx_ok _ j (set_state tj (Suspended (InReply id) None bits dbg))) by (by apply list_lookup_insert_eq). cbn.
  rewrite set_idx_ok by len. cbn. rewrite list_insert_insert_eq.
  erewrite (idx_ok _ j) by (by apply list_lookup_insert_eq). cbn. rewrite set_idx_ok by len. cbn. rewrite list_insert_insert_eq.
  erewrite (idx_ok _ j) by (by apply list_lookup_insert_eq). cbn. rewrite set_idx_ok by len. cbn. rewrite list_insert_insert_eq.
  eexists. split; [done|]. cbn. split; [|done]. rewrite list_lookup_insert_eq by done.
  unfold waiting, set_state, set_buffer, set_saved. cbn. rewrite length_read_mem, Z2Nat.id by lia. done.
Qed.

(** Restored with nothing left that holds it, the receiver gets the reply. *)
Lemma restore_delivers regions : sa_response (as_send_args (t_save tj)) = Ok dest →
  try_write [] 1 tj dest = Ret (Ok tt) →
  ∃ mem, try_restore regions (k_mem k) (waiting 0 false) = Ret (false, replied, mem) ∧
    ∀ a, mem a = copy_mem (k_mem k) (us_base src) (us_base dest) n a.
Proof using All.
  intros Hresp Hw. unfold try_restore, waiting. cbn [t_state set_state t_suspension_buffer set_buffer t_save set_saved].
  unfold bf_is_empty. cbn. unfold as_send_args in *. cbn in *. rewrite Hresp.
  match goal with |- context [try_write regions 1 ?t dest] =>
    assert (try_write regions 1 t dest = Ret (Ok tt)) as -> end.
  { rewrite <- Hw. apply access_not_held; [done|by right; eexists|left; unfold hold; by rewrite Htj]. }
  cbn. eexists. split.
  - unfold replied, set_state, set_buffer, set_saved. cbn. by rewrite Hbuf.
  - intros a. rewrite length_read_mem, Nat.min_l, take_ge by (rewrite ?length_read_mem; lia).
    apply write_read_copy. lia.
Qed.
End reply.

(** * The properties *)

(** C7: Suspension does not change what a reply does. Take a task that waits for
    a reply and the reply that would have reached it at once. If the task is
    suspended when the reply is sent, the reply still returns to its sender
    without touching memory, and when the task is restored (its hibernated regions
    back, no debugger holding it), task and memory are exactly what the immediate
    reply would have left. The whole response buffer must be writable, of which
    the immediate reply only needs the part it fills. *)
Theorem deferred_reply_equiv k i j ti tj id resp src dest bits dbg k1 regions :
  k_tasks k !! i = Some ti → t_state ti = Healthy Runnable →
  k_tasks k !! j = Some tj → t_state tj = Healthy (InReply id) → t_suspension_buffer tj = None →
  (0 <= us_length src <= us_length dest)%Z → (us_length src <= 256)%Z →
  sa_response (as_send_args (t_save tj)) = Ok dest → try_write [] 1 tj dest = Ret (Ok tt) →
  deliver_reply i id resp src j dest false k = Ret (Ok Same, k1) →
  ∃ k2 t2 t3 mem3,
    deliver_reply i id resp src j dest true
      (with_tasks k (<[j := set_state tj (Suspended (InReply id) None bits dbg)]> (k_tasks k))) = Ret (Ok Same, k2) ∧
    k_mem k2 = k_mem k ∧ k_tasks k2 !! j = Some t2 ∧ t_state t2 = Suspended (InSuspendedReply id) None bits dbg ∧
    try_restore regions (k_mem k2) (set_state t2 (Suspended (InSuspendedReply id) None 0 false)) = Ret (false, t3, mem3) ∧
    k_tasks k1 !! j = Some t3 ∧ t_state t3 = Healthy Runnable ∧ ∀ a, mem3 a = k_mem k1 a.
Proof.
  intros Hi Hti Hj Htj Hbuf Hlen Hcap Hresp Hw E.
  destruct (immediate_reply k i j ti tj id resp src dest Hi Hti Hj Htj Hbuf Hlen Hcap k1 E) as (Et1 & Hm1 & Hread).
  destruct (deferred_reply k i j ti tj id resp src dest Hi Hti Hj Htj Hbuf Hlen Hcap bits dbg Hread) as (k2 & E2 & Ht2 & Hm2).
  destruct (restore_delivers k i j ti tj id resp src dest Hi Hti Hj Htj Hbuf Hlen Hcap regions Hresp Hw) as (mem3 & E3 & Hm3).
  eexists k2, _, _, mem3. split; [exact E2|]. split; [exact Hm2|]. split; [exact Ht2|]. split; [done|].
  split; [rewrite Hm2; exact E3|]. split; [rewrite Et1; apply list_lookup_insert_eq; by eapply lookup_lt_Some|].
  split; [done|]. intros a. by rewrite Hm3, Hm1.
Qed.

(** * Events of hibernation *)

Inductive region_op := OpHibernate (index : Z) | OpRestore (event : Z).

(** What happens to a region in its table, whether or not it succeeds. *)
Definition run_op (h : HibernationRegionDesc) (op : region_op) : HibernationRegionDesc :=
  match op with
  | OpHibernate index => fst (hibernate h index)
  | OpRestore event => fst (restore h event)
  end.

Definition run_ops (ops : list region_op) (h : HibernationRegionDesc) : HibernationRegionDesc := fold_left run_op ops h.

(** Since the hibernation that made [h1]: still the same, or let go, or hibernated
    again under a later generation. *)
Definition later (h1 h : HibernationRegionDesc) : Prop :=
  h = h1 ∨ (hib_active h = false ∧ hib_next_generation h = hib_next_generation h1) ∨
  (hib_next_generation h1 < hib_next_generation h)%Z.

Lemma run_op_cases h op :
  run_op h op = h ∨
  (hib_active h = false ∧ hib_next_generation (run_op h op) = (hib_next_generation h + 1)%Z) ∨
  (hib_active (run_op h op) = false ∧ hib_next_generation (run_op h op) = hib_next_generation h).
Proof.
  destruct op as [i|e]; cbn.
  - unfold hibernate. destruct (hib_active h) eqn:Ea; [by left|]. destruct (event_from_parts _ _); [|by left].
    case_decide; [|by left]. right. left. done.
  - unfold restore. destruct (hib_active h) eqn:Ea; [|by left]. cbn [negb]. repeat (case_decide; [by left|]). right. by right.
Qed.

Lemma run_ops_later h1 ops h : later h1 h → later h1 (run_ops ops h).
Proof.
  revert h. induction ops as [|op ops IH]; intros h Hl; [done|]. change (later h1 (run_ops ops (run_op h op))). apply IH.
  destruct (run_op_cases h op) as [E|[(Ha & Hg)|(Ha & Hg)]]; rewrite ?E; [done|..]; unfold later in *.
  - right. right. destruct Hl as [->|[[_ Hl]|Hl]]; lia.
  - destruct Hl as [->|[[_ Hl]|Hl]]; [right; left; by rewrite Hg|right; left; by rewrite Hg|right; right; lia].
Qed.

(** C8: An event names one hibernation. The identifier returned when a region is
    hibernated carries the region's index, and however the region is hibernated
    and restored afterwards, the identifier restores it exactly as long as it is
    still in the hibernation that the identifier was returned for: it works at
    most once, and never on a later hibernation. *)
Theorem event_restores_once h index h1 ev ops : hib_wf h → (0 <= index)%Z → hibernate h index = (h1, Ok ev) →
  event_index ev = index ∧
  (snd (restore (run_ops ops h1) ev) = Ok tt ↔ run_ops ops h1 = h1).
Proof.
  intros (_ & Hu & _) Hi Hh. pose proof (hibernate_ok_inv _ _ _ _ Hh) as (_ & Hon & _ & _ & Hg & Hev & _).
  assert (0 <= hib_next_generation h)%Z as Hg0 by (unfold is_u in Hu; lia).
  destruct (event_parts _ _ _ Hi Hg0 Hev) as [Hidx Hgen]. split; [done|].
  pose proof (run_ops_later h1 ops h1 ltac:(by left)) as Hlater. set (h' := run_ops ops h1) in *. split.
  - intros Hr. destruct (restore h' ev) as [h2 r] eqn:Er. cbn in Hr. subst r.
    apply restore_ok_inv in Er as (Ha & _ & _ & _ & _ & Hge). rewrite Hgen in Hge.
    destruct Hlater as [?|[[? _]|?]]; [done|congruence|lia].
  - intros ->. unfold restore. rewrite Hon. cbn [negb]. unfold is_u in Hu. rewrite decide_False by lia.
    by rewrite decide_False by lia.
Qed.
