(* ===== verification/KernWitness.v ===== *)
(** A concrete system for the kernel's theorems, with their instances, and the
    inputs on which the code departs from its documentation. *)

From S2P Require Import Prelude KernAccess KernState KernMem KernIrq KernTask KernSyscalls KernKipc KernInv KernSafe.
From S2P Require Import KernKipcSafe KernEntry KernRun KernRunKipc KernDesc KernProps KernSched KernReply.

(** * A system of three tasks

    Region tables have eight entries, the null region filling those not used. *)

Definition null_region : RegionDesc := mkRegion 0 32 0.
Definition ram (base size : Z) : RegionDesc := mkRegion base size (Z.lor ATTR_READ ATTR_WRITE).
Definition flash (base size : Z) : RegionDesc := mkRegion base size (Z.lor ATTR_READ ATTR_EXECUTE).

Definition ex_desc (regions : list RegionDesc) (stack prio index : Z) : TaskDesc :=
  mkDesc regions 0x1000 stack prio FLAG_START_AT_BOOT index.

Definition supervisor_desc : TaskDesc :=
  ex_desc (repeat null_region 6 ++ [flash 0x1000 0x1000; ram 0x20000000 0x200]) 0x20000100 0 0.
Definition server_desc : TaskDesc :=
  ex_desc (repeat null_region 5 ++ [flash 0x2000 0x1000; ram 0x20001000 0x200; ram 0x20001200 0x100]) 0x20001100 1 1.
Definition client_desc : TaskDesc :=
  ex_desc (repeat null_region 6 ++ [flash 0x3000 0x1000; ram 0x60000000 0x1000]) 0x60000100 2 2.

(** External memory, which the client lives in. *)
Definition ex_regions : list HibernationRegionDesc := [mkHib 0x60000000 0x1000 0 false].

Definition zero_mem : Z → Z := λ _, 0%Z.

Definition zero_nvic : Nvic := mkNvic (λ _, 0%Z) (λ _, 0%Z).

Definition ex_boot := start_kernel ex_regions zero_mem zero_nvic [supervisor_desc; server_desc; client_desc].

Definition no_machine : Machine := mkMachine (mkKernel [] [] zero_mem zero_nvic) 0 [] (0%Z, 0%Z).
Definition result_of (r : exec Machine) : Machine := match r with Ret m => m | Panic => no_machine end.
Definition returns {A} (r : exec A) : bool := match r with Ret _ => true | Panic => false end.

Lemma returns_result r : returns r = true → r = Ret (result_of r).
Proof. by destruct r. Qed.

Definition ex_machine : Machine := result_of ex_boot.

Ltac regions_ok_tac :=
  repeat match goal with
  | |- Forall _ [] => constructor
  | |- Forall _ (_ :: _) => apply List.Forall_cons; [cbn; first [left; lia | right; reflexivity]|]
  | |- rd_ok _ => unfold rd_ok; cbn; lia
  | |- _ ∧ _ => split
  | |- True => exact I
  end.

Lemma supervisor_regions_ok : regions_ok (td_regions supervisor_desc).
Proof. cbn [supervisor_desc ex_desc td_regions repeat app regions_ok]. regions_ok_tac. Qed.
Lemma server_regions_ok : regions_ok (td_regions server_desc).
Proof. cbn [server_desc ex_desc td_regions repeat app regions_ok]. regions_ok_tac. Qed.
Lemma client_regions_ok : regions_ok (td_regions client_desc).
Proof. cbn [client_desc ex_desc td_regions repeat app regions_ok]. regions_ok_tac. Qed.

Lemma ex_build_ok : build_ok ex_regions [supervisor_desc; server_desc; client_desc].
Proof.
  split; [cbn; lia|]. split.
  - constructor; [|constructor]. unfold boot_region, hib_ok. cbn. lia.
  - apply List.Forall_cons; [apply supervisor_regions_ok|]. apply List.Forall_cons; [apply server_regions_ok|].
    apply List.Forall_cons; [apply client_regions_ok|constructor].
Qed.

(** Interrupt 7 is the server's. *)
Definition ex_irqs (task notification : Z) : option (list Z) :=
  if decide (task = 1 ∧ notification = 2)%Z then Some [7%Z] else None.
Definition ex_owner (irq : Z) : option (nat * Z) := if decide (irq = 7)%Z then Some (1, 2%Z) else None.

Lemma ex_irqs_ok : irq_table_ok ex_irqs.
Proof. intros task n irqs. unfold ex_irqs. case_decide; [|done]. intros [= <-]. constructor; [|constructor]. unfold irq_ok. lia. Qed.

(** Four bytes per word, little-endian. *)
#[export] Instance ex_marshal : Marshal := {|
  de_u32 := λ l, if decide (4 ≤ length l) then Some (le_val (take 4 l)) else None;
  de_u32_bool := λ l, if decide (5 ≤ length l) then Some (le_val (take 4 l), bool_decide (nth 4 l 0%Z ≠ 0%Z)) else None;
  de_u32_u32 := λ l, if decide (8 ≤ length l) then Some (le_val (take 4 l), le_val (take 4 (drop 4 l))) else None;
  de_event_mode := λ l, if decide (8 ≤ length l) then Some (le_val (take 4 l), Restored) else None;
  ser_u32 := λ z l, if decide (4 ≤ length l) then (splice l 0 (le_bytes 4 z), SerOk 4) else (l, SerEndOfStream);
  ser_u64 := λ z l, if decide (8 ≤ length l) then (splice l 0 (le_bytes 8 z), SerOk 8) else (l, SerEndOfStream);
  ser_state := λ _ l, (l, SerEndOfStream);
  size_of_state := 40;
|}.

Definition ex_entry := entry (K := RegionDesc) [] ex_irqs 0.
Definition ex_reachable := reachable (K := RegionDesc) [] ex_irqs ex_owner 0.

Lemma ex_machine_reachable : ex_reachable ex_machine.
Proof. eapply reach_start; [exact ex_build_ok|]. apply returns_result. vm_compute. reflexivity. Qed.

(** The supervisor asks the kernel to hibernate the external memory: message 0x81,
    base and size in its RAM, the event identifier to be written behind them. *)
Definition hibernate_args : SavedState :=
  mkSaved (Z.lor (Z.shiftl TASK_KERNEL 16) 0x81) 0x20000180 8 0x20000190 4 0x20000180 0 0 0 0.
Definition hibernate_mem : Z → Z := write_mem zero_mem 0x20000180 (le_bytes 4 0x60000000 ++ le_bytes 4 0x1000).

Definition ex_hibernated : Machine := result_of (ex_entry 0 (user_ran hibernate_args hibernate_mem ex_machine)).

Lemma ex_hibernated_reachable : ex_reachable ex_hibernated.
Proof.
  eapply reach_step; [exact ex_machine_reachable|]. eapply (step_syscall _ _ _ _ _ hibernate_args hibernate_mem 0).
  apply returns_result. vm_compute. reflexivity.
Qed.

(** The supervisor runs, the client is suspended, the server is not. *)
Example ex_client_suspended :
  m_current ex_hibernated = 0 ∧ map is_suspended (k_tasks (m_kernel ex_hibernated)) = [false; false; true] ∧
  map hib_active (k_regions (m_kernel ex_hibernated)) = [true].
Proof. split; [|split]; vm_compute; reflexivity. Qed.

(** * Instances of the theorems *)

Definition boss : Task := from_descriptor supervisor_desc.
Definition server : Task := from_descriptor server_desc.
Definition hib_task (i : nat) : Task := nth i (k_tasks (m_kernel ex_hibernated)) boss.

Lemma hib_task_0 : k_tasks (m_kernel ex_hibernated) !! m_current ex_hibernated = Some (hib_task 0).
Proof. vm_compute. reflexivity. Qed.

Lemma kernel_never_panics_witness :
  (∃ nt k', kernel_call (K := RegionDesc) [] ex_irqs 0 1 (user_ran default_saved zero_mem ex_hibernated) = Ret (nt, k')) ∧
  (∃ m', pendsv_entry ex_hibernated = Ret m') ∧ (∃ b m', SysTick ex_hibernated = Ret (b, m')) ∧
  (∃ b m', DefaultHandler ex_owner 23 ex_hibernated = Ret (b, m')).
Proof.
  destruct (kernel_never_panics (K := RegionDesc) [] ex_irqs ex_owner 0 ex_irqs_ok ex_hibernated (hib_task 0)
    ex_hibernated_reachable hib_task_0) as (Hcall & _ & Hsw & Htick & Hirq).
  split; [|split; [exact Hsw|split]].
  - destruct (proj1 (Hcall default_saved zero_mem 1%Z)) as (nt & k' & E & _); [|by exists nt, k']. intros [[Hnr _] _]. discriminate Hnr.
  - apply Htick. left. vm_compute. reflexivity.
  - apply (Hirq 23%Z 1 2%Z); [lia|reflexivity|vm_compute; lia].
Defined.

Lemma current_task_runnable_witness :
  ∃ t, k_tasks (m_kernel ex_hibernated) !! m_current ex_hibernated = Some t ∧ t_state t = Healthy Runnable ∧
    m_mpu ex_hibernated = region_table t.
Proof.
  exact (current_task_runnable (K := RegionDesc) [] ex_irqs ex_owner 0 ex_irqs_ok ex_hibernated ex_hibernated_reachable).
Defined.

Lemma hibernated_memory_unreachable_witness :
  assert_access (k_regions (m_kernel ex_hibernated)) 1 (hib_task 2) (mkUSlice 0x60000010 16) ATTR_READ 0 ≠ Ret (Ok tt).
Proof.
  refine (proj1 (hibernated_memory_unreachable (K := RegionDesc) [] ex_irqs ex_owner 0 ex_irqs_ok ex_hibernated
    0 (mkHib 0x60000000 0x1000 1 true) ex_hibernated_reachable _ _) 2 (hib_task 2) 1%Z 1%Z 0x60000010%Z 16%Z (mkUSlice 0x60000010 16) ATTR_READ 0%Z
    0x60000010%Z _ _ _ _ _ _ _).
  - vm_compute. reflexivity.
  - reflexivity.
  - vm_compute. reflexivity.
  - lia.
  - lia.
  - lia.
  - reflexivity.
  - lia.
  - unfold in_hib. cbn. lia.
Defined.

Lemma hib_task_2 : k_tasks (m_kernel ex_hibernated) !! 2 = Some (hib_task 2).
Proof. vm_compute. reflexivity. Qed.

Lemma suspended_iff_held_witness :
  ∃ h, h ∈ k_regions (m_kernel ex_hibernated) ∧ hib_active h = true ∧ touches h (hib_task 2) = true.
Proof.
  destruct (proj1 (proj1 (suspended_iff_held (K := RegionDesc) [] ex_irqs ex_owner 0 ex_irqs_ok ex_hibernated 2 (hib_task 2)
    ex_hibernated_reachable hib_task_2)) ltac:(vm_compute; reflexivity)) as [Hh|(s & f & bits & E)]; [exact Hh|].
  vm_compute in E. discriminate E.
Defined.

Lemma server_task_ok : task_ok server.
Proof. split; [exact server_regions_ok|]. vm_compute. exact I. Qed.
Lemma boss_task_ok : task_ok boss.
Proof. split; [exact supervisor_regions_ok|]. vm_compute. exact I. Qed.
Lemma ex_regions_ok : Forall hib_ok ex_regions.
Proof. constructor; [|constructor]. unfold hib_ok. cbn. lia. Qed.

(** A slice across the boundary of two regions. *)
Definition spanning : USlice := mkUSlice 0x200011F0 0x20.

Lemma access_check_exact_witness :
  assert_access ex_regions 1 server spanning ATTR_WRITE ATTR_DMA = Ret (Ok tt) ∧
  may_access_slice ex_regions server ATTR_WRITE ATTR_DMA spanning.
Proof.
  split; [vm_compute; reflexivity|].
  refine (proj1 (proj2 (access_check_exact ex_regions server spanning ATTR_WRITE ATTR_DMA server_task_ok ex_regions_ok _)) _).
  - unfold uslice_ok. cbn. lia.
  - vm_compute. reflexivity.
Defined.

Lemma safe_copy_confined_witness :
  ∃ res mem', safe_copy ex_regions zero_mem [boss; server] 0 (mkUSlice 0x20000000 8) 1 (mkUSlice 0x20001000 16) = Ret (res, mem') ∧
    ∀ a, ¬ (0x20001000 <= a < 0x20001008)%Z → mem' a = 0%Z.
Proof.
  destruct (safe_copy_confined ex_regions zero_mem [boss; server] 0 1 boss server (mkUSlice 0x20000000 8)
    (mkUSlice 0x20001000 16) ex_regions_ok ltac:(discriminate) eq_refl eq_refl boss_task_ok server_task_ok
    ltac:(unfold uslice_ok; cbn; lia) ltac:(unfold uslice_ok; cbn; lia)) as (res & mem' & E & H).
  exists res, mem'. split; [exact E|]. intros a Ha. destruct res as [m|f].
  - destruct H as (_ & _ & H). apply H. cbn. exact Ha.
  - destruct H as [-> _]. reflexivity.
Defined.

Lemma select_most_important_witness :
  select 0 [boss; server; from_descriptor client_desc] = Ret boss ∧
  ∃ k, k < 3 ∧ [boss; server; from_descriptor client_desc] !! visit 3 0 k = Some boss.
Proof.
  split; [vm_compute; reflexivity|].
  destruct (proj2 (select_most_important [boss; server; from_descriptor client_desc] 0 ltac:(cbn; lia)) boss
    ltac:(vm_compute; reflexivity)) as (k & Hk & Ht & _).
  exists k. split; [exact Hk|exact Ht].
Defined.

(** A client whose response buffer is in its RAM waits for the server's reply. *)
Definition waiting_client : Task :=
  set_state (set_saved (from_descriptor client_desc) (mkSaved 0 0 0 0x60000200 16 0 0 0 0 0)) (Healthy (InReply 1%Z)).
Definition reply_kernel : Kernel :=
  mkKernel [boss; server; waiting_client] ex_regions (write_mem zero_mem 0x20001000 [7; 8; 9]%Z) zero_nvic.
Definition immediate :=
  deliver_reply 1 1%Z 0%Z (mkUSlice 0x20001000 3) 2 (mkUSlice 0x60000200 16) false reply_kernel.

Lemma deferred_reply_equiv_witness :
  ∃ k2 t3 mem3, deliver_reply 1 1%Z 0%Z (mkUSlice 0x20001000 3) 2 (mkUSlice 0x60000200 16) true
      (with_tasks reply_kernel (<[2 := set_state waiting_client (Suspended (InReply 1%Z) None 1%Z false)]> (k_tasks reply_kernel)))
      = Ret (Ok Same, k2) ∧ t_state t3 = Healthy Runnable ∧ mem3 0x60000201%Z = 8%Z.
Proof.
  assert (match immediate with Ret (Ok Same, k1) => k_mem k1 0x60000201%Z =? 8 | _ => false end = true)%Z as Hc
    by (vm_compute; reflexivity).
  destruct immediate as [[[[]|e] k1]|] eqn:E; try discriminate Hc. apply Z.eqb_eq in Hc as Hm. clear Hc.
  destruct (deferred_reply_equiv reply_kernel 1 2 server waiting_client 1%Z 0%Z (mkUSlice 0x20001000 3) (mkUSlice 0x60000200 16)
    1%Z false k1 ex_regions eq_refl eq_refl eq_refl eq_refl eq_refl ltac:(cbn; lia) ltac:(cbn; lia)
    ltac:(vm_compute; reflexivity) ltac:(vm_compute; reflexivity) E)
    as (k2 & t2 & t3 & mem3 & E2 & _ & _ & _ & _ & _ & Hs & Hmem).
  exists k2, t3, mem3. split; [exact E2|]. split; [exact Hs|]. rewrite Hmem. exact Hm.
Defined.

Lemma event_restores_once_witness :
  snd (restore (run_ops [OpHibernate 3; OpRestore 99] (mkHib 0x60000000 0x1000 1 true)) 3) = Ok tt.
Proof.
  apply (event_restores_once (mkHib 0x60000000 0x1000 0 false) 3 (mkHib 0x60000000 0x1000 1 true) 3
    [OpHibernate 3; OpRestore 99]).
  - split; [unfold hib_ok; cbn; lia|]. split; [const_u|discriminate].
  - lia.
  - vm_compute. reflexivity.
  - vm_compute. reflexivity.
Defined.

(** * Where the code departs from its documentation *)

(** A lease that wraps around the top of the address space passes the check,
    though all but its first sixteen bytes are outside the task's memory:
    [USlice::from(&ULease)] makes slices that [from_raw] refuses. *)
Definition wrapping_lease : ULease := mkULease LEASE_WRITE 0x200001F0 (2 ^ 32 - 0x200001F0 + 16).

Example wrapping_lease_granted :
  uslice_from_raw 1 1 (ul_base wrapping_lease) (ul_length wrapping_lease) = Err InvalidSlice ∧
  try_write ex_regions 1 boss (uslice_of_lease wrapping_lease) = Ret (Ok tt) ∧
  ¬ may_access ex_regions boss ATTR_WRITE ATTR_DMA 0x20000200.
Proof.
  split; [vm_compute; reflexivity|]. split; [vm_compute; reflexivity|].
  intros [(r & Hr & Hp & Ha) _]. unfold region_table, boss in Hr. cbn in Hr.
  repeat (apply elem_of_cons in Hr as [->|Hr]; [unfold in_region in Ha; cbn in Ha; lia|]).
  by apply elem_of_nil in Hr.
Qed.

(** A part of a control block that starts behind its own length makes the kernel
    panic; one that does not is cut short by its offset. *)
Example dump_of_tcb_part :
  tcb_part (repeat 0%Z 64) 0x20000800 (mkUSlice 0x20000810 8) = Panic ∧
  tcb_part (map Z.of_nat (seq 0 64)) 0x20000800 (mkUSlice 0x20000804 8) = Ret (Some [4; 5; 6; 7]%Z).
Proof. split; vm_compute; reflexivity. Qed.

(** A task whose state says it has panicked is not suspended, so its panic
    message is never found hibernated. *)
Lemma panic_message_not_hibernated regions t s a :
  is_panicked (t_state t) = true → try_read regions 1 t s ≠ Ret (Err (HibernatedMemoryAccess a)).
Proof.
  intros Hp. unfold try_read, assert_access. destruct (can_access _ _ _) as [[]|]; cbn; try done.
  rewrite any_hibernated_none; [done|]. unfold hold. by destruct (t_state t).
Qed.

(** An empty region between two contiguous ones hides the second: the slice is
    covered, and refused. *)
Example empty_region_refused :
  let t := from_descriptor (ex_desc [ram 0x20000000 0x100; ram 0x20000100 0; ram 0x20000100 0x100] 0x20000100 0 0) in
  assert_access [] 1 t (mkUSlice 0x200000F0 0x20) ATTR_READ ATTR_DMA = Ret (Err (MemoryAccess (Some 0x200000F0%Z) SourceKernel)) ∧
  may_access_slice [] t ATTR_READ ATTR_DMA (mkUSlice 0x200000F0 0x20).
Proof.
  intros t. split; [vm_compute; reflexivity|]. intros a Ha. unfold in_uslice in Ha. cbn in Ha. split; [|by intros i h].
  destruct (decide (a < 0x20000100)%Z).
  - exists (ram 0x20000000 0x100). split; [by apply elem_of_cons; left|]. split; [vm_compute; reflexivity|].
    unfold in_region. cbn. lia.
  - exists (ram 0x20000100 0x100). split; [by apply elem_of_cons; right; apply elem_of_cons; right; apply elem_of_cons; left|].
    split; [vm_compute; reflexivity|]. unfold in_region. cbn. lia.
Qed.
