(* ===== verification/Supervisor.v ===== *)
(** The supervisor, [firmware/tasks/supervisor/src/main.rs], with the calls of
    [hubris/kipc/src/lib.rs] that it uses: restarting faulted tasks, and the messages of the
    reactor, the log service and the hibernation service.

    The rest of the system is a world, with the clock and the calls to the kernel as
    operations of a class; [KernKipc] models the calls themselves. A message is handled to
    its reply, together with what becomes of the sender's first lease. What is written to
    the serial line is kept as text; the registers of the port are left out, and names and
    peers of tasks, which the build generates, are parameters. *)

From Stdlib Require Import String Ascii.
From S2P Require Import Prelude KernState.

Open Scope Z_scope.
Open Scope list_scope.

(** * The system *)

(** What a call to the kernel returns: the code, the length of the response, the buffer
    with the response in it, and the leased memory. *)
Record KernelAnswer := mkAnswer { ka_rc : Z; ka_len : nat; ka_buf : list Z; ka_lease : list Z }.

Class Platform (W : Type) := {
  now : W → Z;
  (** operation, buffer, length of the message in it, leased memory *)
  send_to_kernel : Z → list Z → nat → list Z → W → KernelAnswer * W;
}.

Definition ReadTaskStatus : Z := 1.
Definition ReinitTask : Z := 2.
Definition FindFaultedTask : Z := 9.
Definition ReadPanicMessage : Z := 10.
Definition HibernateRegion : Z := 0x81.
Definition ReadHibernatedRegion : Z := 0x82.
Definition WriteHibernatedRegion : Z := 0x83.
Definition RestoreRegion : Z := 0x84.

Definition OP_DROP_REPORT : Z := 0xDEAD.
Definition OP_EMIT_LOG : Z := 0xE10C.
Definition OP_HIBERNATE_REGION : Z := 0x4801.
Definition OP_RESTORE_REGION : Z := 0x4802.
Definition OP_READ_HIBERNATED : Z := 0x4803.
Definition OP_WRITE_HIBERNATED : Z := 0x4804.
Definition EMIT_LOG_MAX : nat := 256.

(** * The monad *)

(** The world, what has been written, and the two static buffers of [handle_faults], which
    keep their contents. *)
Record Sup (W : Type) := mkSup { su_world : W; su_out : list Z; su_buf : list Z; su_panic_buf : list Z }.
Arguments mkSup {W}.
Arguments su_world {W}.
Arguments su_out {W}.
Arguments su_buf {W}.
Arguments su_panic_buf {W}.

Definition sup (W A : Type) : Type := Sup W → exec (A * Sup W).

Definition sup_ret {W A} (a : A) : sup W A := λ s, Ret (a, s).
Definition sup_bind {W A B} (m : sup W A) (k : A → sup W B) : sup W B := λ s, match m s with Ret (a, s) => k a s | Panic => Panic end.
Definition sup_lift {W A} (e : exec A) : sup W A := λ s, match e with Ret a => Ret (a, s) | Panic => Panic end.

Declare Scope sup_scope.
Delimit Scope sup_scope with sup.
Notation "'let@' x := m 'in' k" := (sup_bind m (λ x, k)) (at level 10, x pattern, m at level 100, k at level 200) : sup_scope.
Open Scope sup_scope.

Definition text (s : string) : list Z := (λ a, Z.of_nat (nat_of_ascii a)) <$> list_ascii_of_string s.
Definition crlf : list Z := [13; 10].

(** [task_index] of a task's identifier. *)
Definition index_of (t : TaskId) : Z := Z.land t 0x3FF.

Section supervisor.
Context {W : Type} `{Platform W}.
Context (TASK_NAMES : list (list Z)).
(** The indices of the peers, if they are part of the build, and the decoder of states. *)
Context (peer_log peer_hibernation : option TaskId).
Context (de_state : list Z → option TaskState).

Definition call (op : Z) (buf : list Z) (arg_len : nat) (lease : list Z) : sup W KernelAnswer :=
  λ s, let '(a, w) := send_to_kernel op buf arg_len lease (su_world s) in Ret (a, mkSup w (su_out s) (su_buf s) (su_panic_buf s)).

(** * Text *)

Definition usart_write_bytes (msg : list Z) : sup W unit := λ s, Ret (tt, mkSup (su_world s) (su_out s ++ msg) (su_buf s) (su_panic_buf s)).

Definition line (s : string) : sup W unit := usart_write_bytes (text s ++ crlf).

(** The digits, from the end of the buffer, of which [i] bytes are left. *)
Fixpoint dec_loop (i : nat) (val : Z) (digits : list Z) : list Z :=
  match i with
  | O => digits
  | S i => if decide (0 < val) then dec_loop i (val / 10) (48 + val mod 10 :: digits) else digits
  end.

Definition usart_write_u32 (val : Z) : sup W unit :=
  if decide (val = 0) then usart_write_bytes (text "0") else usart_write_bytes (dec_loop 10 val []).

Definition nibble (v : Z) : Z := if decide (v < 10) then 48 + v else 97 + v - 10.

Fixpoint hex_digits (i : nat) (val : Z) (digits : list Z) : list Z :=
  match i with
  | O => digits
  | S i => if decide (0 < val) then hex_digits i (Z.shiftr val 4) (nibble (Z.land val 15) :: digits) else digits
  end.

Definition usart_write_hex (val : Z) : sup W unit :=
  let@ _ := usart_write_bytes (text "0x") in
  if decide (val = 0) then usart_write_bytes (text "0") else usart_write_bytes (hex_digits 8 val []).

(** The sixteen digits, from the highest. *)
Fixpoint tick_digits (i : nat) (tick : Z) : list Z :=
  match i with
  | O => []
  | S i => nibble (Z.land (Z.shiftr tick (Z.of_nat i * 4)) 15) :: tick_digits i tick
  end.

Definition usart_write_tick_prefix : sup W unit := λ s, usart_write_bytes (text "T" ++ tick_digits 16 (now (su_world s)) ++ text " ") s.

Definition name_of_task (i : Z) : list Z := default (text "?") (TASK_NAMES !! Z.to_nat i).

(** The name is looked up by the whole identifier. *)
Definition usart_write_task_id (tid : TaskId) : sup W unit := usart_write_bytes (name_of_task tid).

Definition in_parens (name : string) (m : sup W unit) : sup W unit :=
  let@ _ := usart_write_bytes (text name ++ text "(") in let@ _ := m in usart_write_bytes (text ")").

Definition usart_write_sched_state (state : SchedState) : sup W unit :=
  match state with
  | Stopped => usart_write_bytes (text "Stopped")
  | Runnable => usart_write_bytes (text "Runnable")
  | InSend tid => in_parens "InSend" (usart_write_task_id tid)
  | InReply tid => in_parens "InReply" (usart_write_task_id tid)
  | InRecv (Some tid) => in_parens "InRecv" (usart_write_task_id tid)
  | InRecv None => usart_write_bytes (text "InRecv(*)")
  | InSuspendedReply tid => in_parens "InSuspendedReply" (usart_write_task_id tid)
  end.

Fixpoint write_regions (l : list nat) (bits : Z) (first : bool) : sup W unit :=
  match l with
  | [] => sup_ret tt
  | i :: l =>
      if Z.testbit bits (Z.of_nat i) then
        let@ _ := if first then sup_ret tt else usart_write_bytes (text ",") in
        let@ _ := usart_write_u32 (Z.of_nat i) in
        write_regions l bits false
      else write_regions l bits first
  end.

Definition usart_write_hibernated_regions (bits : Z) : sup W unit :=
  let@ _ := usart_write_bytes (text "[") in
  let@ _ := write_regions (seq 0 32) bits true in
  usart_write_bytes (text "]").

Definition write_address (address : option Z) (source : FaultSource) : sup W unit :=
  let@ _ := match address with Some a => usart_write_hex a | None => usart_write_bytes (text "?") end in
  usart_write_bytes (match source with SourceUser => text ", user" | SourceKernel => text ", kernel" end).

(** [as u32] *)
Definition usage_code (e : UsageError) : Z :=
  match e with
  | BadSyscallNumber => 0 | InvalidSlice => 1 | TaskOutOfRange => 2 | IllegalTask => 3 | LeaseOutOfRange => 4 | OffsetOutOfRange => 5
  | NoIrq => 6 | BadKernelMessage => 7 | BadReplyFaultReason => 8 | NotSupervisor => 9 | ReplyTooBig => 10
  end.

Definition reason_code (r : ReplyFaultReason) : Z :=
  match r with
  | UndefinedOperation => 0 | BadMessageSize => 1 | BadMessageContents => 2 | BadLeases => 3 | ReplyBufferTooSmall => 4 | AccessViolation => 5
  end.

Definition usart_write_fault_info (fault : FaultInfo) : sup W unit :=
  match fault with
  | MemoryAccess address source => in_parens "MemoryAccess" (write_address address source)
  | StackOverflow address => in_parens "StackOverflow" (usart_write_hex address)
  | BusError address source => in_parens "BusError" (write_address address source)
  | DivideByZero => usart_write_bytes (text "DivideByZero")
  | IllegalText => usart_write_bytes (text "IllegalText")
  | IllegalInstruction => usart_write_bytes (text "IllegalInstruction")
  | InvalidOperation code => in_parens "InvalidOperation" (usart_write_hex code)
  | SyscallUsage e => in_parens "SyscallUsage" (usart_write_u32 (usage_code e))
  | FaultPanic => usart_write_bytes (text "Panic")
  | Injected tid => in_parens "Injected" (usart_write_task_id tid)
  | FromServer tid reason =>
      in_parens "FromServer" (let@ _ := usart_write_task_id tid in let@ _ := usart_write_bytes (text ", ") in usart_write_u32 (reason_code reason))
  | LostRegion regions => in_parens "LostRegion" (usart_write_hibernated_regions regions)
  | HibernatedMemoryAccess address => in_parens "HibernatedMemoryAccess" (usart_write_hex address)
  end.

Definition usart_write_task_state (state : TaskState) : sup W unit :=
  match state with
  | Healthy sched => usart_write_sched_state sched
  | Faulted fault original_state =>
      in_parens "Faulted" (
        let@ _ := usart_write_fault_info fault in
        let@ _ := usart_write_bytes (text ", was ") in
        usart_write_sched_state original_state)
  | Suspended original_healthy_state original_fault_info hibernated_regions debug_request =>
      in_parens "Suspended" (
        let@ _ := usart_write_bytes (text "was ") in
        let@ _ := usart_write_sched_state original_healthy_state in
        let@ _ := match original_fault_info with
                  | Some fault => let@ _ := usart_write_bytes (text ", prior fault ") in usart_write_fault_info fault
                  | None => sup_ret tt
                  end in
        let@ _ := usart_write_bytes (text ", hibernated=") in
        let@ _ := usart_write_hibernated_regions hibernated_regions in
        if debug_request : bool then usart_write_bytes (text ", debug") else sup_ret tt)
  end.

(** * Faulted tasks *)

(** [kipc::find_faulted_task]; zero is no task. *)
Definition kipc_find_faulted_task (task_index : Z) : sup W (option Z) :=
  let@ a := call FindFaultedTask (le_bytes 4 task_index) 4 [] in
  let i := le_val (take 4 (ka_buf a)) in
  sup_ret (if decide (i = 0) then None else Some i).

(** [kipc::reinitialize_task] with [NewState::Runnable] *)
Definition reinitialize_task (task_index : Z) : sup W unit :=
  let@ _ := call ReinitTask (le_bytes 4 task_index ++ [1]) 5 [] in sup_ret tt.

Definition status_buf : sup W (list Z) := λ s, Ret (su_buf s, s).
Definition set_status_buf (buf : list Z) : sup W unit := λ s, Ret (tt, mkSup (su_world s) (su_out s) buf (su_panic_buf s)).
Definition panic_buf : sup W (list Z) := λ s, Ret (su_panic_buf s, s).
Definition set_panic_buf (buf : list Z) : sup W unit := λ s, Ret (tt, mkSup (su_world s) (su_out s) (su_buf s) buf).

(** [kipc::read_panic_message], into [PANIC_BUF] *)
Definition kipc_read_panic_message (task_index : Z) : sup W (result nat Z) :=
  let@ buf := panic_buf in
  let@ a := call ReadPanicMessage (splice buf 0 (le_bytes 4 task_index)) 4 [] in
  let@ _ := set_panic_buf (ka_buf a) in
  sup_ret (if decide (ka_rc a = 0) then Ok (ka_len a) else Err (ka_rc a)).

(** The state of a task, by way of [BUF] *)
Definition read_task_state (task_index : Z) : sup W (option TaskState) :=
  let@ buf := status_buf in
  let@ a := call ReadTaskStatus (splice buf 0 (le_bytes 4 task_index)) 4 [] in
  let@ _ := set_status_buf (ka_buf a) in
  sup_ret (de_state (ka_buf a)).

Definition is_panic (state : option TaskState) : bool := match state with Some (Faulted FaultPanic _) => true | _ => false end.

Definition report_panic (fault_index : Z) : sup W unit :=
  let@ r := kipc_read_panic_message fault_index in
  match r with
  | Ok len =>
      if decide (0 < len)%nat then
        let@ _ := usart_write_tick_prefix in
        let@ _ := usart_write_bytes (text "supervisor:   panic message: ") in
        let@ pbuf := panic_buf in
        let@ msg := sup_lift (slice pbuf 0 (Nat.min len 128)) in
        let@ _ := usart_write_bytes msg in
        usart_write_bytes crlf
      else sup_ret tt
  | Err _ => sup_ret tt
  end.

(** What is reported of a faulted task. *)
Definition report_fault (fault_index : Z) : sup W unit :=
  let@ state := read_task_state fault_index in
  let@ _ := usart_write_tick_prefix in
  let@ _ := usart_write_bytes (text "supervisor: task ") in
  let@ _ := usart_write_u32 fault_index in
  let@ _ := usart_write_bytes (text " (") in
  let@ _ := usart_write_bytes (name_of_task fault_index) in
  let@ _ := usart_write_bytes (text ") ") in
  let@ _ := match state with Some s => usart_write_task_state s | None => usart_write_bytes (text "faulted (unknown state)") end in
  let@ _ := usart_write_bytes crlf in
  if is_panic state then report_panic fault_index else sup_ret tt.

Fixpoint fault_loop (fuel : nat) (next_task : Z) : sup W unit :=
  match fuel with
  | O => sup_lift Panic
  | S fuel =>
      let@ found := kipc_find_faulted_task next_task in
      match found with
      | None => sup_ret tt
      | Some fault_index =>
          let@ _ := report_fault fault_index in
          let@ _ := reinitialize_task fault_index in
          fault_loop fuel (wrap 32 (fault_index + 1))
      end
  end.

Definition handle_faults (fuel : nat) : sup W unit := fault_loop fuel 1.

(** * Messages *)

(** A message; its contents are missing when they did not fit. The lease is the first one of
    the sender, if it grants the access that the operation needs. *)
Record SupMessage := mkMsg { ms_sender : TaskId; ms_operation : Z; ms_data : option (list Z); ms_lease : option (list Z) }.

Record SupReply := mkReply { rp_code : Z; rp_bytes : list Z; rp_lease : option (list Z) }.

Definition RC_SUCCESS : Z := 0.

Definition sup_reply (m : SupMessage) (code : Z) (bytes : list Z) : sup W SupReply := sup_ret (mkReply code bytes (ms_lease m)).

Definition handle_drop_report (m : SupMessage) (data : list Z) : sup W SupReply :=
  if decide (length data < 11)%nat then
    let@ _ := usart_write_tick_prefix in
    let@ _ := line "supervisor: malformed drop report" in
    sup_reply m RC_SUCCESS []
  else
    let notif_sender := le_val (take 2 data) in
    let group_id := le_val (take 2 (drop 2 data)) in
    let code := le_val (take 4 (drop 4 data)) in
    let priority := le_val (take 1 (drop 8 data)) in
    let dropped_for := le_val (take 2 (drop 9 data)) in
    let@ _ := usart_write_tick_prefix in
    let@ _ := usart_write_bytes (text "supervisor: notification dropped for=") in
    let@ _ := usart_write_u32 dropped_for in
    let@ _ := usart_write_bytes (text "(") in
    let@ _ := usart_write_bytes (name_of_task dropped_for) in
    let@ _ := usart_write_bytes (text ") sender=") in
    let@ _ := usart_write_u32 notif_sender in
    let@ _ := usart_write_bytes (text "(") in
    let@ _ := usart_write_bytes (name_of_task notif_sender) in
    let@ _ := usart_write_bytes (text ") group=") in
    let@ _ := usart_write_u32 group_id in
    let@ _ := usart_write_bytes (text " code=") in
    let@ _ := usart_write_hex code in
    let@ _ := usart_write_bytes (text " pri=") in
    let@ _ := usart_write_u32 priority in
    let@ _ := usart_write_bytes crlf in
    sup_reply m RC_SUCCESS [].

Definition is_peer (peer : option TaskId) (sender : TaskId) : bool :=
  match peer with Some id => bool_decide (index_of sender = index_of id) | None => false end.

Definition handle_emit_log (m : SupMessage) (data : list Z) : sup W SupReply :=
  let@ _ := usart_write_tick_prefix in
  let@ _ := usart_write_bytes (text "supervisor: emit_log entry sender=") in
  let@ _ := usart_write_u32 (index_of (ms_sender m)) in
  let@ _ := usart_write_bytes (text " len=") in
  let@ _ := usart_write_u32 (Z.of_nat (length data)) in
  let@ _ := usart_write_bytes crlf in
  if negb (is_peer peer_log (ms_sender m)) then
    let@ _ := usart_write_tick_prefix in
    let@ _ := line "supervisor: rejected emit_log from non-log sender" in
    sup_reply m RC_SUCCESS []
  else
    let@ _ := usart_write_tick_prefix in
    let@ _ := usart_write_bytes (take (Nat.min (length data) EMIT_LOG_MAX) data) in
    sup_reply m RC_SUCCESS [].

Definition acl_check_hibernation (sender : TaskId) : bool := is_peer peer_hibernation sender.

Definition read_u32_pair (data : list Z) : option (Z * Z) :=
  if decide (8 <= length data)%nat then Some (le_val (take 4 data), le_val (take 4 (drop 4 data))) else None.

Definition handle_hibernate_region (m : SupMessage) (data : list Z) : sup W SupReply :=
  if negb (acl_check_hibernation (ms_sender m)) then
    let@ _ := usart_write_tick_prefix in
    let@ _ := line "supervisor: rejected hibernate from wrong sender" in
    sup_reply m 0xFE []
  else
    match read_u32_pair data with
    | None => sup_reply m 0xFF []
    | Some (base, size) =>
        let@ a := call HibernateRegion (le_bytes 4 base ++ le_bytes 4 size) 8 [] in
        if decide (ka_rc a = RC_SUCCESS) then sup_reply m RC_SUCCESS (take 4 (ka_buf a)) else sup_reply m (ka_rc a) []
    end.

Definition handle_restore_region (m : SupMessage) (data : list Z) : sup W SupReply :=
  if negb (acl_check_hibernation (ms_sender m)) then
    let@ _ := usart_write_tick_prefix in
    let@ _ := line "supervisor: rejected restore from wrong sender" in
    sup_reply m 0xFE []
  else
    match read_u32_pair data with
    | None => sup_reply m 0xFF []
    | Some (id_raw, mode_raw) =>
        let@ a := call RestoreRegion (le_bytes 4 id_raw ++ le_bytes 4 mode_raw) 8 [] in
        if decide (ka_rc a = RC_SUCCESS) then sup_reply m RC_SUCCESS [] else sup_reply m (ka_rc a) []
    end.

(** [sys_borrow_write(sender, 0, 0, bytes)]: the lease afterwards. *)
Definition lease_write (lease : option (list Z)) (bytes : list Z) : option (list Z) :=
  match lease with Some l => Some (take (length l) bytes ++ drop (length bytes) l) | None => None end.

Definition handle_read_hibernated (m : SupMessage) (data : list Z) : sup W SupReply :=
  if negb (acl_check_hibernation (ms_sender m)) then sup_reply m 0xFE []
  else
    match read_u32_pair data with
    | None => sup_reply m 0xFF []
    | Some (addr, len) =>
        let n := Nat.min (Z.to_nat len) 256 in
        let@ a := call ReadHibernatedRegion (le_bytes 4 addr ++ le_bytes 4 len) 8 (replicate n 0) in
        let copied := Nat.min (ka_len a) n in
        if decide (ka_rc a = RC_SUCCESS) then
          let@ bytes := sup_lift (slice (ka_lease a) 0 copied) in
          sup_ret (mkReply RC_SUCCESS (le_bytes 4 (Z.of_nat copied)) (lease_write (ms_lease m) bytes))
        else sup_reply m (ka_rc a) []
    end.

Definition handle_write_hibernated (m : SupMessage) (data : list Z) : sup W SupReply :=
  if negb (acl_check_hibernation (ms_sender m)) then sup_reply m 0xFE []
  else
    match read_u32_pair data with
    | None => sup_reply m 0xFF []
    | Some (addr, len) =>
        let n := Nat.min (Z.to_nat len) 256 in
        match ms_lease m with
        | None => sup_reply m 0xFF []
        | Some l =>
            let read := Nat.min (length l) n in
            let@ a := call WriteHibernatedRegion (le_bytes 4 addr ++ le_bytes 4 (Z.of_nat read)) 8 (take read l) in
            let copied := Nat.min (ka_len a) read in
            if decide (ka_rc a = RC_SUCCESS) then sup_reply m RC_SUCCESS (le_bytes 4 (Z.of_nat copied)) else sup_reply m (ka_rc a) []
        end
    end.

(** The contents of a message, for the handler. *)
Definition with_data (m : SupMessage) (handler : list Z → sup W SupReply) : sup W SupReply :=
  match ms_data m with Some data => handler data | None => sup_reply m 0xFF [] end.

Definition malformed (m : SupMessage) (what : string) : sup W SupReply :=
  let@ _ := usart_write_tick_prefix in
  let@ _ := line what in
  sup_reply m RC_SUCCESS [].

(** A message that the loop of [main] receives, to its reply. *)
Definition handle_message (m : SupMessage) : sup W SupReply :=
  let op := ms_operation m in
  if decide (op = OP_DROP_REPORT) then
    match ms_data m with Some data => handle_drop_report m data | None => malformed m "supervisor: malformed drop report" end
  else if decide (op = OP_EMIT_LOG) then
    match ms_data m with Some data => handle_emit_log m data | None => malformed m "supervisor: malformed emit_log" end
  else if decide (op = OP_HIBERNATE_REGION) then with_data m (handle_hibernate_region m)
  else if decide (op = OP_RESTORE_REGION) then with_data m (handle_restore_region m)
  else if decide (op = OP_READ_HIBERNATED) then with_data m (handle_read_hibernated m)
  else if decide (op = OP_WRITE_HIBERNATED) then with_data m (handle_write_hibernated m)
  else malformed m "supervisor: Invalid Syscall Opcode".
End supervisor.
