(* ===== verification/SupervisorProps.v ===== *)
(** The supervisor: every faulted task is restarted, and only the hibernation service reaches
    the hibernation calls of the kernel. *)

From Stdlib Require Import String.
From S2P Require Import Prelude KernState Supervisor.

Open Scope Z_scope.
Open Scope list_scope.

(** * What the supervisor relies on *)

(** The kernel's promises about faults, for the calls that the supervisor makes: with the
    index of a task in the front of a buffer of the right size. *)
Class FaultWorld (W : Type) `{Platform W} := {
  world_ok : W → Prop;
  status_size : nat;
  status_room : (4 <= status_size)%nat;
  task_count : W → Z;
  faulted : W → Z → bool;
  count_range w : world_ok w → 1 <= task_count w < 2 ^ 32;
  (** the next faulted task, or zero *)
  find_law w next : world_ok w → 1 <= next <= task_count w →
    ∃ a w', send_to_kernel FindFaultedTask (le_bytes 4 next) 4 [] w = (a, w') ∧ world_ok w' ∧ task_count w' = task_count w ∧ (∀ j, faulted w' j = faulted w j) ∧
      let i := le_val (take 4 (ka_buf a)) in
      (i = 0 ∧ ∀ j, next <= j < task_count w → faulted w j = false) ∨
      (next <= i < task_count w ∧ ∀ j, next <= j < i → faulted w j = false);
  (** looking at a task changes none, and responses stay within the buffer *)
  look_law w op i rest a w' : world_ok w → 1 <= i < task_count w →
    (op = ReadTaskStatus ∧ (4 + length rest = status_size)%nat) ∨ (op = ReadPanicMessage ∧ (4 + length rest = 128)%nat) →
    send_to_kernel op (le_bytes 4 i ++ rest) 4 [] w = (a, w') →
    world_ok w' ∧ task_count w' = task_count w ∧ (∀ j, faulted w' j = faulted w j) ∧ length (ka_buf a) = (4 + length rest)%nat;
  (** a restarted task is not faulted, and no other one becomes it *)
  reinit_law w i a w' : world_ok w → 1 <= i < task_count w → send_to_kernel ReinitTask (le_bytes 4 i ++ [1]) 5 [] w = (a, w') →
    world_ok w' ∧ task_count w' = task_count w ∧ ∀ j, faulted w' j = faulted w j && negb (bool_decide (j = i));
}.

(** * Runs *)

Section returns_with.
Context {W : Type} `{Platform W}.

(** A run that returns, with a relation of the states. *)
Definition returns_with {A} (m : sup W A) (R : Sup W → Sup W → Prop) : Prop := ∀ s, ∃ a s', m s = Ret (a, s') ∧ R s s'.

(** Only the text changes. *)
Definition same_world (s s' : Sup W) : Prop := su_world s' = su_world s ∧ su_buf s' = su_buf s ∧ su_panic_buf s' = su_panic_buf s.

Definition silent {A} (m : sup W A) : Prop := returns_with m same_world.

Lemma silent_ret {A} (a : A) : silent (sup_ret a).
Proof. intros s. by exists a, s. Qed.

Lemma silent_bind {A B} (m : sup W A) (k : A → sup W B) : silent m → (∀ a, silent (k a)) → silent (sup_bind m k).
Proof.
  intros Hm Hk s. destruct (Hm s) as (a & s1 & E1 & R1). destruct (Hk a s1) as (b & s2 & E2 & R2). exists b, s2. unfold sup_bind. rewrite E1. split; [done|].
  destruct R1 as (?&?&?), R2 as (?&?&?). split_and!; congruence.
Qed.

Lemma silent_bytes msg : silent (usart_write_bytes msg).
Proof. intros s. by eexists _, _. Qed.

Lemma silent_prefix : silent usart_write_tick_prefix.
Proof. intros s. by eexists _, _. Qed.
End returns_with.

Create HintDb silent.
#[export] Hint Resolve silent_ret silent_bytes silent_prefix : silent.

(** Steps of silent programs. *)
Ltac silent_step :=
  match goal with
  | |- silent (sup_bind _ _) => apply silent_bind; [|intros ?]
  | |- silent (if ?b then _ else _) => destruct b
  | |- silent (match ?x with _ => _ end) => destruct x
  | |- silent _ => solve [auto with silent]
  end.
Ltac silent := repeat silent_step.

Section printing.
Context {W : Type} `{Platform W} (names : list (list Z)).

Lemma silent_line s : silent (line (W:=W) s).
Proof. apply silent_bytes. Qed.

Lemma silent_u32 v : silent (usart_write_u32 (W:=W) v).
Proof. unfold usart_write_u32. silent. Qed.

Lemma silent_hex v : silent (usart_write_hex (W:=W) v).
Proof. unfold usart_write_hex. silent. Qed.

Lemma silent_task_id t : silent (usart_write_task_id (W:=W) names t).
Proof. apply silent_bytes. Qed.

Lemma silent_parens n (m : sup W unit) : silent m → silent (in_parens n m).
Proof. intros Hm. unfold in_parens. silent. Qed.
#[local] Hint Resolve silent_u32 silent_hex silent_task_id silent_parens : silent.

Lemma silent_sched st : silent (usart_write_sched_state (W:=W) names st).
Proof. destruct st as [| | | | |[]]; cbn; silent. Qed.

Lemma silent_write_regions l bits first : silent (write_regions (W:=W) l bits first).
Proof. revert first. induction l as [|i l IH]; intros first; cbn [write_regions]; silent; apply IH. Qed.
#[local] Hint Resolve silent_sched silent_write_regions : silent.

Lemma silent_regions bits : silent (usart_write_hibernated_regions (W:=W) bits).
Proof. unfold usart_write_hibernated_regions. silent. Qed.

Lemma silent_address a src : silent (write_address (W:=W) a src).
Proof. unfold write_address. silent. Qed.
#[local] Hint Resolve silent_regions silent_address : silent.

Lemma silent_fault f : silent (usart_write_fault_info (W:=W) names f).
Proof. destruct f; cbn; try apply silent_parens; silent. Qed.
#[local] Hint Resolve silent_fault : silent.

Lemma silent_state st : silent (usart_write_task_state (W:=W) names st).
Proof. destruct st; cbn; try apply silent_parens; silent. Qed.
End printing.
#[export] Hint Resolve silent_line silent_u32 silent_hex silent_task_id silent_sched silent_regions silent_fault silent_state : silent.

(** * Faulted tasks *)

Section faults.
Context {W : Type} `{FaultWorld W} (names : list (list Z)) (de_state : list Z → option TaskState).

(** The buffers have their sizes. *)
Definition sup_ok (s : Sup W) : Prop := world_ok (su_world s) ∧ length (su_buf s) = status_size ∧ length (su_panic_buf s) = 128%nat.

Lemma splice_front (buf : list Z) i : (4 <= length buf)%nat → splice buf 0 (le_bytes 4 i) = le_bytes 4 i ++ drop 4 buf.
Proof. intros _. unfold splice. rewrite take_0, app_nil_l, length_le_bytes. done. Qed.

Definition same_faults (s s' : Sup W) : Prop := task_count (su_world s') = task_count (su_world s) ∧ ∀ j, faulted (su_world s') j = faulted (su_world s) j.

(** A program that only looks, at tasks that there are. *)
Definition looks (n : Z) {A} (m : sup W A) : Prop :=
  ∀ s, sup_ok s → task_count (su_world s) = n → ∃ a s', m s = Ret (a, s') ∧ sup_ok s' ∧ same_faults s s'.

Lemma silent_looks n {A} (m : sup W A) : silent m → looks n m.
Proof.
  intros Hq s Hs _. destruct (Hq s) as (a & s' & E & E1 & E2 & E3). exists a, s'. split; [done|]. unfold sup_ok, same_faults. rewrite E1, E2, E3. done.
Qed.

Lemma looks_bind n {A B} (m : sup W A) (k : A → sup W B) : looks n m → (∀ a, looks n (k a)) → looks n (sup_bind m k).
Proof.
  intros Hm Hk s Hs Hn. destruct (Hm s Hs Hn) as (a & s1 & E1 & Hs1 & C1 & F1). destruct (Hk a s1 Hs1 ltac:(lia)) as (b & s2 & E2 & Hs2 & C2 & F2). exists b, s2. unfold sup_bind. rewrite E1. split; [done|]. split; [done|].
  split; [congruence|]. intros j. by rewrite F2, F1.
Qed.

Lemma looks_state n i : 1 <= i < n → looks n (read_task_state de_state i).
Proof.
  intros Hi s (Hw & Hb & Hp) Hn. pose proof status_room as Hroom. unfold read_task_state, sup_bind, status_buf, call, set_status_buf, sup_ret. rewrite splice_front by lia. destruct (send_to_kernel _ _ _ _ _) as [a w'] eqn:E.
  assert (4 + length (drop 4 (su_buf s)) = status_size)%nat as HL by (rewrite length_drop; lia).
  destruct (look_law (su_world s) ReadTaskStatus i (drop 4 (su_buf s)) a w' Hw ltac:(lia) (or_introl (conj eq_refl HL)) E) as (Hw' & C & F & L). eexists _, _. split; [done|]. split; [|by split]. split; [done|]. split; [|done].
  cbn [su_buf]. rewrite L, length_drop. lia.
Qed.

Lemma looks_panic_message n i : 1 <= i < n → looks n (kipc_read_panic_message i).
Proof.
  intros Hi s (Hw & Hb & Hp) Hn. unfold kipc_read_panic_message, sup_bind, panic_buf, call, set_panic_buf, sup_ret. rewrite splice_front by lia. destruct (send_to_kernel _ _ _ _ _) as [a w'] eqn:E.
  assert (4 + length (drop 4 (su_panic_buf s)) = 128)%nat as HL by (rewrite length_drop; lia).
  destruct (look_law (su_world s) ReadPanicMessage i (drop 4 (su_panic_buf s)) a w' Hw ltac:(lia) (or_intror (conj eq_refl HL)) E) as (Hw' & C & F & L). eexists _, _. split; [done|]. split; [|by split]. split; [done|]. split; [done|].
  cbn [su_panic_buf]. rewrite L, length_drop. lia.
Qed.

(** Printing the message: it is in the buffer. *)
Lemma looks_print_panic c n : (n <= 128)%nat → looks c (let@ pbuf := panic_buf in let@ msg := sup_lift (slice pbuf 0 n) in let@ _ := usart_write_bytes msg in usart_write_bytes crlf).
Proof.
  intros Hn s Hs _. pose proof Hs as (Hw & _ & Hp). unfold sup_bind, panic_buf, sup_lift. rewrite slice_ok by lia. by eexists _, _.
Qed.

Lemma looks_report n i : 1 <= i < n → looks n (report_panic i).
Proof.
  intros Hi. unfold report_panic. apply looks_bind; [by apply looks_panic_message|]. intros [len|]; [|apply silent_looks, silent_ret]. case_decide; [|apply silent_looks, silent_ret].
  do 2 (apply looks_bind; [apply silent_looks; auto with silent|intros _]). apply looks_print_panic. lia.
Qed.

Lemma reinitialize_task_ok i s :
  sup_ok s → 1 <= i < task_count (su_world s) →
  ∃ s', reinitialize_task i s = Ret (tt, s') ∧ sup_ok s' ∧ task_count (su_world s') = task_count (su_world s) ∧
    ∀ j, faulted (su_world s') j = faulted (su_world s) j && negb (bool_decide (j = i)).
Proof.
  intros (Hw & Hb & Hp) Hi. unfold reinitialize_task, sup_bind, call. destruct (send_to_kernel _ _ _ _ _) as [a w'] eqn:E. destruct (reinit_law _ _ _ _ Hw Hi E) as (Hw' & C' & F'). eexists. split; [done|]. by split.
Qed.

Lemma looks_report_fault n i : 1 <= i < n → looks n (report_fault names de_state i).
Proof.
  intros Hi. apply looks_bind; [by apply looks_state|]. intros st. do 6 (apply looks_bind; [apply silent_looks; auto with silent|intros _]). apply looks_bind; [apply silent_looks; destruct st; auto with silent|intros _].
  apply looks_bind; [apply silent_looks; auto with silent|intros _]. destruct (is_panic st); [by apply looks_report|apply silent_looks, silent_ret].
Qed.

Lemma fault_loop_ok fuel next s :
  sup_ok s → 1 <= next <= task_count (su_world s) → task_count (su_world s) - next < Z.of_nat fuel →
  ∃ s', fault_loop names de_state fuel next s = Ret (tt, s') ∧ sup_ok s' ∧ task_count (su_world s') = task_count (su_world s) ∧
    ∀ j, 0 <= j < task_count (su_world s) → faulted (su_world s') j = faulted (su_world s) j && bool_decide (j < next).
Proof.
  revert next s. induction fuel as [|fuel IH]; intros next s Hs Hn Hf; [lia|]. pose proof Hs as (Hw & Hb & Hp). cbn [fault_loop]. unfold kipc_find_faulted_task. unfold sup_bind at 1 2. unfold call at 1.
  destruct (find_law (su_world s) next Hw Hn) as (a & w' & -> & Hw' & C & F & Hi). cbv zeta in Hi. set (i := le_val (take 4 (ka_buf a))) in *. unfold sup_ret at 1. set (s1 := mkSup w' _ _ _).
  pose proof (count_range _ Hw) as Hc. destruct Hi as [[-> Hnone]|[Hi Hnone]].
  - exists s1. split; [done|]. split; [done|]. split; [done|]. intros j Hj. cbn. rewrite F. case_bool_decide as Hlt; [by rewrite andb_true_r|]. rewrite andb_false_r. apply Hnone. lia.
  - rewrite decide_False by lia. assert (1 <= i < task_count (su_world s)) as Hi1 by lia. destruct (looks_report_fault (task_count (su_world s)) i Hi1 s1) as ([] & s2 & E2 & Hs2 & C2 & F2); [by split|done|]. unfold sup_bind at 1. rewrite E2.
    assert (task_count (su_world s1) = task_count (su_world s)) as C1 by done. destruct (reinitialize_task_ok i s2 Hs2 ltac:(lia)) as (s3 & E3 & Hs3 & C3 & F3). unfold sup_bind. rewrite E3.
    rewrite wrap_small by (unfold is_u; lia). destruct (IH (i + 1) s3 Hs3 ltac:(lia) ltac:(lia)) as (s4 & E4 & Hs4 & C4 & F4). exists s4. split; [done|]. split; [done|]. split; [lia|]. intros j Hj.
    rewrite F4 by lia. rewrite F3, F2. cbn [su_world s1]. rewrite F. destruct (decide (j < next)).
    + rewrite (bool_decide_eq_true_2 (j < next)), (bool_decide_eq_true_2 (j < i + 1)), (bool_decide_eq_false_2 (j = i)) by lia. by destruct (faulted (su_world s) j).
    + rewrite (bool_decide_eq_false_2 (j < next)) by lia. rewrite andb_false_r. destruct (decide (j < i)); [by rewrite Hnone by lia|].
      destruct (decide (j = i)) as [->|]; [rewrite (bool_decide_eq_true_2 (i = i)) by done; by rewrite andb_false_r|rewrite (bool_decide_eq_false_2 (j < i + 1)) by lia; by rewrite !andb_false_r].
Qed.

(** When the kernel reports faults, the supervisor restarts them all: with fuel for the
    number of tasks its loop ends without a panic, and afterwards no task but the supervisor
    itself is faulted, and no task has become it. [SupervisorKernel] has this of the
    modelled kernel. *)
Lemma faults_all_restarted fuel s :
  sup_ok s → task_count (su_world s) <= Z.of_nat fuel →
  ∃ s', handle_faults names de_state fuel s = Ret (tt, s') ∧ sup_ok s' ∧ task_count (su_world s') = task_count (su_world s) ∧
    ∀ j, 0 <= j < task_count (su_world s) → faulted (su_world s') j = faulted (su_world s) j && bool_decide (j = 0).
Proof.
  intros Hs Hf. pose proof (count_range _ (proj1 Hs)) as Hc. destruct (fault_loop_ok fuel 1 s Hs ltac:(lia) ltac:(lia)) as (s' & E & Hs' & C & F). exists s'. split; [done|]. split; [done|]. split; [done|]. intros j Hj. rewrite F by done.
  f_equal. apply bool_decide_ext. lia.
Qed.
End faults.

(** * Messages *)

(** A message of any task but the hibernation service is answered without a call to the
    kernel. *)
Lemma strangers_only_print {W} `{Platform W} names peer_log peer_hibernation m :
  is_peer peer_hibernation (ms_sender m) = false → silent (W:=W) (handle_message names peer_log peer_hibernation m).
Proof.
  intros Hp. assert (∀ what, silent (W:=W) (malformed m what)) as Hmal by (intros what; unfold malformed; apply silent_bind; [apply silent_prefix|intros _]; apply silent_bind; [apply silent_line|intros _]; apply silent_ret).
  unfold handle_message. unfold with_data, handle_hibernate_region, handle_restore_region, handle_read_hibernated, handle_write_hibernated, acl_check_hibernation. rewrite Hp. cbn [negb]. unfold sup_reply.
  repeat case_decide; try apply Hmal; destruct (ms_data m); try apply Hmal; try apply silent_ret; unfold handle_drop_report, handle_emit_log, sup_reply; silent.
Qed.

(** A task that has been restarted is not named in the reports of others: its name is looked
    up by the identifier with the generation. *)
Lemma restarted_peer_unnamed names tid : (length names <= 1024)%nat → 1024 <= tid → name_of_task names tid = text "?".
Proof. intros Hl Ht. unfold name_of_task. rewrite lookup_ge_None_2 by lia. done. Qed.
