(* ===== verification/Hibernation.v ===== *)
(** The hibernation service, [firmware/sysmodule/region_hibernation/src/main.rs] and its
    [api]: guards of hibernated regions, by way of the supervisor. A region is hibernated
    exactly as long as a guard holds it; and how much the service reads.

    Sending to the supervisor runs its model. The service itself is the sender, with the
    lease that it passes. Whether a part of the client's lease can be reached is an argument;
    the text of the log is left out. *)

From S2P Require Import Prelude KernState Supervisor SupervisorProps.

Open Scope Z_scope.
Open Scope list_scope.

Definition CHUNK_SIZE : nat := 240.

Inductive HibError := HeNoMatchingRegion | HeAlreadyHibernated | HeGenerationOverflow | HeProtectedMemory | HeSupervisorRejected.
Inductive ResError := ReInvalidToken | ReSupervisorRejected.
Inductive RegionIoError := IoNotHibernated | IoSupervisorRejected.

Record HibernationGuard := mkGuard { gd_event_id : Z; gd_restored : bool }.

Section service.
Context {W : Type} `{Platform W}.
Context (TASK_NAMES : list (list Z)) (peer_log peer_hibernation : option TaskId).
(** The service's own identifier. *)
Context (self : TaskId).

(** The code, the length of the reply, the buffer with the reply in it, and the lease. *)
Definition send_to_supervisor (op : Z) (buf : list Z) (arg_len : nat) (lease : option (list Z)) : sup W (Z * nat * list Z * option (list Z)) :=
  let@ r := handle_message TASK_NAMES peer_log peer_hibernation (mkMsg self op (Some (take arg_len buf)) lease) in
  let n := Nat.min (length (rp_bytes r)) (length buf) in
  sup_ret (rp_code r, n, splice buf 0 (take n (rp_bytes r)), rp_lease r).

Definition supervisor_hibernate (base size : Z) : sup W (result Z HibError) :=
  let@ a := send_to_supervisor OP_HIBERNATE_REGION (le_bytes 4 base ++ le_bytes 4 size) 8 None in let '(rc, len, buf, _) := a in
  if decide (rc ≠ RC_SUCCESS) then
    sup_ret (Err (if decide (rc = 1) then HeNoMatchingRegion else if decide (rc = 2) then HeAlreadyHibernated
                  else if decide (rc = 3) then HeGenerationOverflow else if decide (rc = 4) then HeProtectedMemory else HeSupervisorRejected))
  else if decide (len < 4)%nat then sup_ret (Err HeSupervisorRejected)
  else sup_ret (Ok (le_val (take 4 buf))).

Definition supervisor_restore (event_id : Z) (contents_lost : bool) : sup W (result unit ResError) :=
  let mode := if contents_lost then 1 else 0 in
  let@ a := send_to_supervisor OP_RESTORE_REGION (le_bytes 4 event_id ++ le_bytes 4 mode) 8 None in let '(rc, _, _, _) := a in
  sup_ret (if decide (rc ≠ RC_SUCCESS) then Err (if decide (rc = 1) then ReInvalidToken else ReSupervisorRejected) else Ok tt).

Definition io_error (rc : Z) : RegionIoError := if decide (rc = 1) then IoNotHibernated else IoSupervisorRejected.

(** What the supervisor copied is taken to be the length of its reply. *)
Definition supervisor_read (address len : Z) (dest : list Z) : sup W (result nat RegionIoError * list Z) :=
  let@ a := send_to_supervisor OP_READ_HIBERNATED (le_bytes 4 address ++ le_bytes 4 len) 8 (Some dest) in let '(rc, copied, _, lease) := a in
  sup_ret (if decide (rc ≠ RC_SUCCESS) then Err (io_error rc) else Ok copied, default dest lease).

Definition supervisor_write (address : Z) (src : list Z) : sup W (result nat RegionIoError) :=
  let@ a := send_to_supervisor OP_WRITE_HIBERNATED (le_bytes 4 address ++ le_bytes 4 (Z.of_nat (length src))) 8 (Some src) in let '(rc, copied, _, _) := a in
  sup_ret (if decide (rc ≠ RC_SUCCESS) then Err (io_error rc) else Ok copied).

(** * Guards *)

Definition guard_hibernate (base size : Z) : sup W (result HibernationGuard HibError) :=
  let@ r := supervisor_hibernate base size in
  sup_ret (match r with Ok event_id => Ok (mkGuard event_id false) | Err e => Err e end).

Definition guard_restore (g : HibernationGuard) : sup W (result unit ResError * HibernationGuard) :=
  if gd_restored g then sup_ret (Ok tt, g) else
  let@ r := supervisor_restore (gd_event_id g) false in
  sup_ret (match r with Ok _ => (Ok tt, mkGuard (gd_event_id g) true) | Err e => (Err e, g) end).

(** [Drop for HibernationGuard] *)
Definition guard_drop (g : HibernationGuard) : sup W unit :=
  if gd_restored g then sup_ret tt else let@ _ := supervisor_restore (gd_event_id g) true in sup_ret tt.

(** [buf.write_range(offset, src)] into the client's lease *)
Definition lease_write_range (reach : nat → bool) (lease : list Z) (offset : nat) (src : list Z) : option (list Z) :=
  if reach offset then Some (take offset lease ++ take (length lease - offset) src ++ drop (offset + length src) lease) else None.

(** The result and the lease of the client. *)
Fixpoint region_read_loop (fuel : nat) (reach : nat → bool) (address : Z) (lease scratch : list Z) (done_ : nat) : sup W (result Z RegionIoError * list Z) :=
  match fuel with
  | O => sup_lift Panic
  | S fuel =>
      if decide (done_ < length lease)%nat then
        let chunk := Nat.min (length lease - done_) CHUNK_SIZE in
        let@ dest := sup_lift (slice scratch 0 chunk) in
        let@ a := supervisor_read (wrap 32 (address + Z.of_nat done_)) (Z.of_nat chunk) dest in let '(r, dest) := a in
        match r with
        | Err e => sup_ret (Err e, lease)
        | Ok n =>
            let scratch := splice scratch 0 dest in
            let@ part := sup_lift (slice scratch 0 n) in
            match lease_write_range reach lease done_ part with
            | None => sup_ret (Err IoSupervisorRejected, lease)
            | Some lease =>
                let done_ := (done_ + n)%nat in
                if decide (n < chunk)%nat then sup_ret (Ok (Z.of_nat done_), lease)
                else region_read_loop fuel reach address lease scratch done_
            end
        end
      else sup_ret (Ok (Z.of_nat done_), lease)
  end.

Definition guard_read (reach : nat → bool) (address : Z) (lease : list Z) : sup W (result Z RegionIoError * list Z) :=
  region_read_loop (S (length lease)) reach address lease (replicate CHUNK_SIZE 0) 0.

Fixpoint region_write_loop (fuel : nat) (reach : nat → bool) (address : Z) (data : list Z) (done_ : nat) : sup W (result Z RegionIoError) :=
  match fuel with
  | O => sup_lift Panic
  | S fuel =>
      if decide (done_ < length data)%nat then
        let chunk := Nat.min (length data - done_) CHUNK_SIZE in
        if reach done_ then
          let@ r := supervisor_write (wrap 32 (address + Z.of_nat done_)) (take chunk (drop done_ data)) in
          match r with
          | Err e => sup_ret (Err e)
          | Ok n =>
              let done_ := (done_ + n)%nat in
              if decide (n < chunk)%nat then sup_ret (Ok (Z.of_nat done_)) else region_write_loop fuel reach address data done_
          end
        else sup_ret (Err IoSupervisorRejected)
      else sup_ret (Ok (Z.of_nat done_))
  end.

Definition guard_write (reach : nat → bool) (address : Z) (data : list Z) : sup W (result Z RegionIoError) :=
  region_write_loop (S (length data)) reach address data 0.

(** * Clients *)

(** The calls, with the guards that are alive; a guard is named by the number of its
    creation. *)
Inductive RegionCall :=
  | CallHibernate (base size : Z)
  | CallRestore (h : nat)
  | CallRead (h : nat) (reach : nat → bool) (address : Z) (lease : list Z)
  | CallWrite (h : nat) (reach : nat → bool) (address : Z) (data : list Z)
  | CallDrop (h : nat).

(** A call to a guard; one that is gone has no effect. *)
Definition with_guard (gs : list (option HibernationGuard)) (h : nat) (f : HibernationGuard → sup W (list (option HibernationGuard))) : sup W (list (option HibernationGuard)) :=
  match gs !! h with Some (Some g) => f g | _ => sup_ret gs end.

Definition serve_call (gs : list (option HibernationGuard)) (c : RegionCall) : sup W (list (option HibernationGuard)) :=
  match c with
  | CallHibernate base size =>
      let@ r := guard_hibernate base size in sup_ret (match r with Ok g => gs ++ [Some g] | Err _ => gs end)
  | CallRestore h => with_guard gs h (λ g, let@ a := guard_restore g in let '(_, g) := a in sup_ret (<[h := Some g]> gs))
  | CallRead h reach address lease => with_guard gs h (λ _, let@ _ := guard_read reach address lease in sup_ret gs)
  | CallWrite h reach address data => with_guard gs h (λ _, let@ _ := guard_write reach address data in sup_ret gs)
  | CallDrop h => with_guard gs h (λ g, let@ _ := guard_drop g in sup_ret (<[h := None]> gs))
  end.

Fixpoint serve_calls (gs : list (option HibernationGuard)) (cs : list RegionCall) : sup W (list (option HibernationGuard)) :=
  match cs with
  | [] => sup_ret gs
  | c :: cs => let@ gs := serve_call gs c in serve_calls gs cs
  end.
End service.

(** * What the service relies on *)

(** The kernel's promises about hibernated regions. *)
Class RegionWorld (W : Type) `{Platform W} := {
  region_ok : W → Prop;
  (** the events whose regions are hibernated *)
  active : W → Z → bool;
  hibernate_law w base size a w' : region_ok w → send_to_kernel HibernateRegion (le_bytes 4 base ++ le_bytes 4 size) 8 [] w = (a, w') →
    region_ok w' ∧
    ((ka_rc a ≠ 0 ∧ ∀ e, active w' e = active w e) ∨
     (ka_rc a = 0 ∧ ∃ ev, is_u 32 ev ∧ take 4 (ka_buf a) = le_bytes 4 ev ∧ active w ev = false ∧ ∀ e, active w' e = active w e || bool_decide (e = ev)));
  restore_law w ev mode a w' : region_ok w → is_u 32 ev → mode = 0 ∨ mode = 1 → send_to_kernel RestoreRegion (le_bytes 4 ev ++ le_bytes 4 mode) 8 [] w = (a, w') →
    region_ok w' ∧
    if active w ev then ka_rc a = 0 ∧ ∀ e, active w' e = active w e && negb (bool_decide (e = ev)) else ka_rc a ≠ 0 ∧ ∀ e, active w' e = active w e;
  access_law w op buf lease a w' : region_ok w → op = ReadHibernatedRegion ∨ op = WriteHibernatedRegion → send_to_kernel op buf 8 lease w = (a, w') →
    region_ok w' ∧ (∀ e, active w' e = active w e) ∧ length (ka_lease a) = length lease;
}.

Lemma pair_of_bytes a b : is_u 32 a → is_u 32 b → read_u32_pair (le_bytes 4 a ++ le_bytes 4 b) = Some (a, b).
Proof.
  intros Ha Hb. unfold read_u32_pair. rewrite length_app, !length_le_bytes. rewrite decide_True by lia. rewrite take_app_length' by (by rewrite length_le_bytes). rewrite drop_app_length' by (by rewrite length_le_bytes).
  rewrite (firstn_all2 (le_bytes 4 b)) by (by rewrite length_le_bytes). rewrite !le_val_le_bytes. unfold is_u in *. rewrite !Z.mod_small by lia. done.
Qed.

Section service.
Context {W : Type} `{RegionWorld W}.
Context (names : list (list Z)) (peer_log peer_hibernation : option TaskId) (self : TaskId).
Hypothesis self_peer : is_peer peer_hibernation self = true.


Definition keeps (s s' : Sup W) : Prop := region_ok (su_world s') ∧ ∀ e, active (su_world s') e = active (su_world s) e.

Lemma keeps_refl s : region_ok (su_world s) → keeps s s.
Proof. done. Qed.

Lemma keeps_trans s1 s2 s3 : keeps s1 s2 → keeps s2 s3 → keeps s1 s3.
Proof. intros [_ A] [? B]. split; [done|]. intros e. by rewrite B, A. Qed.

(** The message is as long as the buffer. *)
Lemma whole_buffer a b : take 8 (le_bytes 4 a ++ le_bytes 4 b) = le_bytes 4 a ++ le_bytes 4 b.
Proof. apply firstn_all2. by rewrite length_app, !length_le_bytes. Qed.

Lemma supervisor_hibernate_ok base size s :
  is_u 32 base → is_u 32 size → region_ok (su_world s) →
  ∃ r s', supervisor_hibernate names peer_log peer_hibernation self base size s = Ret (r, s') ∧ region_ok (su_world s') ∧
    match r with
    | Ok ev => is_u 32 ev ∧ active (su_world s) ev = false ∧ ∀ e, active (su_world s') e = active (su_world s) e || bool_decide (e = ev)
    | Err _ => ∀ e, active (su_world s') e = active (su_world s) e
    end.
Proof.
  intros Hb Hsz Hw. unfold supervisor_hibernate, send_to_supervisor. rewrite whole_buffer. unfold sup_bind at 1 2.
  change (handle_message names peer_log peer_hibernation ?m s) with (handle_hibernate_region peer_hibernation m (le_bytes 4 base ++ le_bytes 4 size) s).
  unfold handle_hibernate_region, acl_check_hibernation. cbn [ms_sender]. rewrite self_peer. cbn [negb]. rewrite pair_of_bytes by done. unfold sup_bind, call.
  destruct (send_to_kernel _ _ _ _ _) as [a w'] eqn:E. destruct (hibernate_law _ _ _ _ _ Hw E) as (Hw' & [[Hrc Hsame]|(Hrc & ev & Hev & Hbuf & Hact & Hadd)]).
  - rewrite decide_False by done. unfold sup_reply, sup_ret. cbn [rp_code rp_bytes]. rewrite decide_True by done. eexists _, _. split; [reflexivity|]. done.
  - rewrite decide_True by done. unfold sup_reply, sup_ret. cbn [rp_code rp_bytes]. rewrite decide_False by (unfold RC_SUCCESS; lia). rewrite Hbuf, length_app, !length_le_bytes. rewrite decide_False by lia.
    eexists _, _. split; [reflexivity|]. split; [done|].
    assert (le_val (take 4 (splice (le_bytes 4 base ++ le_bytes 4 size) 0 (take (Nat.min 4 (4 + 4)) (le_bytes 4 ev)))) = ev) as ->; [|done].
    rewrite (firstn_all2 (le_bytes 4 ev)) by (rewrite length_le_bytes; cbn; lia). unfold splice. rewrite take_0, app_nil_l, take_app_length' by (by rewrite length_le_bytes). rewrite le_val_le_bytes. unfold is_u in Hev. rewrite Z.mod_small; [done|lia].
Qed.

Lemma supervisor_restore_ok ev lost s :
  is_u 32 ev → region_ok (su_world s) →
  ∃ r s', supervisor_restore names peer_log peer_hibernation self ev lost s = Ret (r, s') ∧ region_ok (su_world s') ∧
    if active (su_world s) ev then r = Ok tt ∧ ∀ e, active (su_world s') e = active (su_world s) e && negb (bool_decide (e = ev))
    else (∃ e, r = Err e) ∧ ∀ e, active (su_world s') e = active (su_world s) e.
Proof.
  intros Hev Hw. unfold supervisor_restore, send_to_supervisor. set (mode := if lost then 1 else 0). assert (mode = 0 ∨ mode = 1) as Hm by (unfold mode; destruct lost; tauto).
  rewrite whole_buffer. unfold sup_bind at 1 2. change (handle_message names peer_log peer_hibernation ?m s) with (handle_restore_region peer_hibernation m (le_bytes 4 ev ++ le_bytes 4 mode) s).
  unfold handle_restore_region, acl_check_hibernation. cbn [ms_sender]. rewrite self_peer. cbn [negb]. rewrite pair_of_bytes by (done || (unfold is_u; lia)). unfold sup_bind, call.
  destruct (send_to_kernel _ _ _ _ _) as [a w'] eqn:E. destruct (restore_law _ _ _ _ _ Hw Hev Hm E) as (Hw' & Hr). destruct (active (su_world s) ev); destruct Hr as [Hrc Hact].
  - rewrite decide_True by done. unfold sup_reply, sup_ret. cbn [rp_code]. rewrite decide_False by (unfold RC_SUCCESS; lia). by eexists _, _.
  - rewrite decide_False by done. unfold sup_reply, sup_ret. cbn [rp_code]. rewrite decide_True by done. eexists _, _. split; [reflexivity|]. split; [done|]. split; [by eexists|done].
Qed.

(** ** Reading and writing *)

Definition world_step (s : Sup W) (w : W) : Sup W := mkSup w (su_out s) (su_buf s) (su_panic_buf s).

(** A read: what the kernel copied is in the lease, and the count is the length of the
    sup_reply. *)
Lemma supervisor_read_eq address len dest s a w' :
  let n := Nat.min (Z.to_nat len) 256 in
  is_u 32 address → is_u 32 len → send_to_kernel ReadHibernatedRegion (le_bytes 4 address ++ le_bytes 4 len) 8 (replicate n 0) (su_world s) = (a, w') → length (ka_lease a) = n →
  supervisor_read names peer_log peer_hibernation self address len dest s =
    Ret (if decide (ka_rc a = 0) then let bytes := take (Nat.min (ka_len a) n) (ka_lease a) in (Ok 4%nat, take (length dest) bytes ++ drop (length bytes) dest)
         else (Err (io_error (ka_rc a)), dest), world_step s w').
Proof.
  intros n Ha Hl E Hlen. unfold supervisor_read, send_to_supervisor. rewrite whole_buffer. unfold sup_bind at 1 2.
  change (handle_message names peer_log peer_hibernation ?m s) with (handle_read_hibernated peer_hibernation m (le_bytes 4 address ++ le_bytes 4 len) s).
  unfold handle_read_hibernated, acl_check_hibernation. cbn [ms_sender]. rewrite self_peer. cbn [negb]. rewrite pair_of_bytes by done. unfold sup_bind at 1, call. fold n. rewrite E. case_decide as Hrc.
  - unfold sup_bind, sup_lift. rewrite slice_ok by lia. unfold sup_ret. cbn [rp_code rp_bytes rp_lease ms_lease lease_write default from_option]. rewrite decide_False by (unfold RC_SUCCESS; lia).
    rewrite Hrc. rewrite decide_True by done. rewrite length_app, !length_le_bytes. rewrite drop_0, Nat.sub_0_r. done.
  - unfold sup_reply, sup_ret. cbn [rp_code rp_bytes rp_lease ms_lease default from_option]. rewrite decide_True by done. rewrite decide_False by done. done.
Qed.

Lemma supervisor_write_eq address src s a w' :
  let n := Nat.min (length src) (Nat.min (Z.to_nat (Z.of_nat (length src))) 256) in
  is_u 32 address → is_u 32 (Z.of_nat (length src)) → send_to_kernel WriteHibernatedRegion (le_bytes 4 address ++ le_bytes 4 (Z.of_nat n)) 8 (take n src) (su_world s) = (a, w') →
  supervisor_write names peer_log peer_hibernation self address src s = Ret (if decide (ka_rc a = 0) then Ok 4%nat else Err (io_error (ka_rc a)), world_step s w').
Proof.
  intros n Ha Hl E. unfold supervisor_write, send_to_supervisor. rewrite whole_buffer. unfold sup_bind at 1 2.
  change (handle_message names peer_log peer_hibernation ?m s) with (handle_write_hibernated peer_hibernation m (le_bytes 4 address ++ le_bytes 4 (Z.of_nat (length src))) s).
  unfold handle_write_hibernated, acl_check_hibernation. cbn [ms_sender]. rewrite self_peer. cbn [negb]. rewrite pair_of_bytes by done. cbn [ms_lease]. fold n. unfold sup_bind at 1, call. rewrite E. case_decide as Hrc.
  - unfold sup_reply, sup_ret. cbn [rp_code rp_bytes]. rewrite decide_False by (unfold RC_SUCCESS; lia). rewrite decide_True by done. by rewrite length_app, !length_le_bytes.
  - unfold sup_reply, sup_ret. cbn [rp_code rp_bytes]. rewrite decide_True by done. by rewrite decide_False by done.
Qed.

Lemma write_range_length reach lease k part lease' : lease_write_range reach lease k part = Some lease' → (k <= length lease)%nat → length lease' = length lease.
Proof. unfold lease_write_range. destruct (reach k); [|done]. intros [= <-] Hk. rewrite !length_app, !length_take, length_drop. lia. Qed.

Lemma region_read_loop_ok fuel reach address lease scratch k s :
  region_ok (su_world s) → length scratch = CHUNK_SIZE → (length lease - k < fuel)%nat →
  ∃ r s', region_read_loop names peer_log peer_hibernation self fuel reach address lease scratch k s = Ret (r, s') ∧ keeps s s'.
Proof.
  revert lease scratch k s. induction fuel as [|fuel IH]; intros lease scratch k s Hw Hsc Hf; [lia|]. cbn [region_read_loop].
  destruct (decide (k < length lease)%nat) as [Hk|Hk]; [|by eexists _, _]. set (chunk := Nat.min (length lease - k) CHUNK_SIZE). assert (0 < chunk <= CHUNK_SIZE)%nat as Hc by (unfold chunk, CHUNK_SIZE; lia).
  unfold sup_bind at 1, sup_lift at 1. rewrite slice_ok by lia. unfold sup_bind at 1. set (addr := wrap 32 _). set (n := Nat.min (Z.to_nat (Z.of_nat chunk)) 256).
  destruct (send_to_kernel ReadHibernatedRegion (le_bytes 4 addr ++ le_bytes 4 (Z.of_nat chunk)) 8 (replicate n 0) (su_world s)) as [a w'] eqn:E.
  destruct (access_law _ _ _ _ _ _ Hw (or_introl eq_refl) E) as (Hw' & Hact & Hl). rewrite length_replicate in Hl. assert (keeps s (world_step s w')) as Hkeep by done.
  rewrite (supervisor_read_eq addr (Z.of_nat chunk) _ s a w'); [|apply wrap_is_u; lia|unfold is_u, CHUNK_SIZE in *; lia|exact E|exact Hl].
  case_decide; [|by eexists _, _]. cbv zeta. set (d := take _ _ ++ _). assert (length d = chunk) as Hd by (unfold d; len).
  unfold sup_bind at 1, sup_lift at 1. assert (length (splice scratch 0 d) = CHUNK_SIZE) as Hsp by (rewrite length_splice; [done|unfold CHUNK_SIZE in *; lia]).
  rewrite slice_ok by (rewrite ?Hsp; unfold CHUNK_SIZE; lia). destruct (lease_write_range reach lease k _) as [lease'|] eqn:Ew; [|by eexists _, _]. case_decide; [by eexists _, _|].
  pose proof (write_range_length _ _ _ _ _ Ew ltac:(lia)) as Hl'. destruct (IH lease' (splice scratch 0 d) (k + 4)%nat (world_step s w')) as (r & s' & E' & Hk'); [done|done|lia|].
  exists r, s'. split; [done|]. by eapply keeps_trans.
Qed.

Lemma region_write_loop_ok fuel reach address data k s :
  region_ok (su_world s) → (length data - k < fuel)%nat →
  ∃ r s', region_write_loop names peer_log peer_hibernation self fuel reach address data k s = Ret (r, s') ∧ keeps s s'.
Proof.
  revert k s. induction fuel as [|fuel IH]; intros k s Hw Hf; [lia|]. cbn [region_write_loop]. destruct (decide (k < length data)%nat) as [Hk|Hk]; [|by eexists _, _].
  set (chunk := Nat.min (length data - k) CHUNK_SIZE). assert (0 < chunk <= CHUNK_SIZE)%nat as Hc by (unfold chunk, CHUNK_SIZE; lia). destruct (reach k); [|by eexists _, _].
  unfold sup_bind at 1. set (addr := wrap 32 _). set (src := take chunk (drop k data)). assert (length src = chunk) as Hsrc by (unfold src; rewrite length_take, length_drop; lia).
  set (n := Nat.min (length src) (Nat.min (Z.to_nat (Z.of_nat (length src))) 256)).
  destruct (send_to_kernel WriteHibernatedRegion (le_bytes 4 addr ++ le_bytes 4 (Z.of_nat n)) 8 (take n src) (su_world s)) as [a w'] eqn:E.
  destruct (access_law _ _ _ _ _ _ Hw (or_intror eq_refl) E) as (Hw' & Hact & _). assert (keeps s (world_step s w')) as Hkeep by done.
  rewrite (supervisor_write_eq addr src s a w'); [|apply wrap_is_u; lia|unfold is_u, CHUNK_SIZE in *; lia|exact E].
  case_decide; [|by eexists _, _]. case_decide; [by eexists _, _|]. destruct (IH (k + 4)%nat (world_step s w')) as (r & s' & E' & Hk'); [done|lia|]. exists r, s'. split; [done|]. by eapply keeps_trans.
Qed.

(** * Guards *)

(** A guard that has not been restored holds its event. *)
Definition holds_event (e : Z) (g : option HibernationGuard) : bool := match g with Some g => negb (gd_restored g) && bool_decide (gd_event_id g = e) | None => false end.

Definition held_by (gs : list (option HibernationGuard)) (e : Z) : bool := existsb (holds_event e) gs.

(** The events of the guards, against those that were active before. *)
Definition guards_ok (w0 : W) (gs : list (option HibernationGuard)) (s : Sup W) : Prop :=
  region_ok (su_world s) ∧ (∀ e, active (su_world s) e = active w0 e || held_by gs e) ∧
  (∀ e, held_by gs e = true → is_u 32 e ∧ active w0 e = false) ∧
  (∀ h h' g g', gs !! h = Some (Some g) → gs !! h' = Some (Some g') → gd_restored g = false → gd_restored g' = false → gd_event_id g = gd_event_id g' → h = h').

Lemma held_by_elem gs e : held_by gs e = true ↔ ∃ h g, gs !! h = Some (Some g) ∧ gd_restored g = false ∧ gd_event_id g = e.
Proof.
  unfold held_by. rewrite existsb_exists. split.
  - intros (o & Hin & Ho). apply list_elem_of_In, list_elem_of_lookup_1 in Hin as [h Hh]. destruct o as [g|]; [|done]. cbn in Ho. apply andb_true_iff in Ho as [H1 H2]. apply negb_true_iff in H1. apply bool_decide_eq_true in H2. by exists h, g.
  - intros (h & g & Hh & Hr & He). exists (Some g). split; [apply list_elem_of_In; by eapply list_elem_of_lookup_2|]. cbn. rewrite Hr. by rewrite bool_decide_eq_true_2.
Qed.

Lemma guards_add w0 gs s s' ev :
  guards_ok w0 gs s → region_ok (su_world s') → is_u 32 ev → active (su_world s) ev = false → (∀ e, active (su_world s') e = active (su_world s) e || bool_decide (e = ev)) →
  guards_ok w0 (gs ++ [Some (mkGuard ev false)]) s'.
Proof.
  intros (_ & Ha & Hh & Hd) Hr Hu Hev Hadd. assert (active w0 ev = false ∧ held_by gs ev = false) as [Hz Hg] by (rewrite Ha in Hev; by apply orb_false_iff in Hev).
  assert (∀ e, held_by (gs ++ [Some (mkGuard ev false)]) e = held_by gs e || bool_decide (e = ev)) as Happ.
  { intros e. unfold held_by. rewrite existsb_app. cbn. rewrite orb_false_r. f_equal. apply bool_decide_ext. lia. }
  split; [done|]. split; [intros e; rewrite Happ, Hadd, Ha; by rewrite orb_assoc|]. split.
  - intros e. rewrite Happ. intros [He|He%bool_decide_eq_true]%orb_true_iff; [by apply Hh|by subst].
  - assert (∀ h g, (gs ++ [Some (mkGuard ev false)]) !! h = Some (Some g) → gd_restored g = false → (gs !! h = Some (Some g) ∧ gd_event_id g ≠ ev) ∨ (h = length gs ∧ gd_event_id g = ev)) as Hcase.
    { intros h g Hl Hres. apply lookup_app_Some in Hl as [Hl|[Hge Hl]].
      - left. split; [done|]. intros He. assert (held_by gs ev = true) by (apply held_by_elem; by exists h, g). congruence.
      - right. apply list_lookup_singleton_Some in Hl as [Hlz [= <-]]. split; [lia|done]. }
    intros h h' g g' H1 H2 R1 R2 He. destruct (Hcase _ _ H1 R1) as [[L1 N1]|[-> E1]], (Hcase _ _ H2 R2) as [[L2 N2]|[-> E2]]; [by apply (Hd h h' g g')|congruence..|done].
Qed.

(** A guard that holds no event any more, or is gone. *)
Lemma guards_release w0 gs s s' h g x :
  guards_ok w0 gs s → gs !! h = Some (Some g) → gd_restored g = false → match x with Some g' => gd_restored g' = true | None => True end →
  region_ok (su_world s') → (∀ e, active (su_world s') e = active (su_world s) e && negb (bool_decide (e = gd_event_id g))) →
  guards_ok w0 (<[h := x]> gs) s'.
Proof.
  intros (_ & Ha & Hh & Hd) Hg Hres Hx Hr Hdel. pose proof (lookup_lt_Some _ _ _ Hg) as Hlt.
  assert (∀ h' g', <[h := x]> gs !! h' = Some (Some g') → gd_restored g' = false → h' ≠ h ∧ gs !! h' = Some (Some g')) as Hcase.
  { intros h' g' Hl R. destruct (decide (h' = h)) as [->|Hne]; [rewrite list_lookup_insert_eq in Hl by done; injection Hl as ->; congruence|]. by rewrite list_lookup_insert_ne in Hl. }
  assert (∀ e, held_by (<[h := x]> gs) e = held_by gs e && negb (bool_decide (e = gd_event_id g))) as Hrel.
  { intros e. apply eq_true_iff_eq. rewrite andb_true_iff, negb_true_iff, bool_decide_eq_false, !held_by_elem. split.
    - intros (h' & g' & Hl & R & He). apply Hcase in Hl as [Hne Hl]; [|done]. split; [by exists h', g'|]. intros ->. apply Hne. by apply (Hd h' h g' g).
    - intros [(h' & g' & Hl & R & He) Hne]. exists h', g'. split; [|done]. rewrite list_lookup_insert_ne; [done|]. intros <-. congruence. }
  assert (active w0 (gd_event_id g) = false) as Hz by (apply Hh, held_by_elem; by exists h, g).
  split; [done|]. split.
  - intros e. rewrite Hrel, Hdel, Ha. destruct (decide (e = gd_event_id g)) as [->|Hne]; [rewrite bool_decide_eq_true_2 by done; by rewrite !andb_false_r, Hz|]. by rewrite bool_decide_eq_false_2, !andb_true_r by done.
  - split; [intros e He; apply Hh; rewrite Hrel in He; by apply andb_true_iff in He as [He _]|]. intros h1 h2 g1 g2 H1 H2 R1 R2 He. apply Hcase in H1 as [_ H1]; [|done]. apply Hcase in H2 as [_ H2]; [|done]. by apply (Hd h1 h2 g1 g2).
Qed.

Lemma guards_keep w0 gs s s' : guards_ok w0 gs s → keeps s s' → guards_ok w0 gs s'.
Proof. intros (_ & Ha & Hh & Hd) [Hr Hk]. split; [done|]. split; [intros e; by rewrite Hk|by split]. Qed.

Definition call_ok (c : RegionCall) : Prop := match c with CallHibernate base size => is_u 32 base ∧ is_u 32 size | _ => True end.

(** Restoring or dropping a guard that holds its event. *)
Lemma guard_releases w0 gs s h g lost :
  guards_ok w0 gs s → gs !! h = Some (Some g) → gd_restored g = false →
  ∃ s', supervisor_restore names peer_log peer_hibernation self (gd_event_id g) lost s = Ret (Ok tt, s') ∧
    ∀ x, match x with Some g' => gd_restored g' = true | None => True end → guards_ok w0 (<[h := x]> gs) s'.
Proof.
  intros Hok Hg Hres. pose proof Hok as (Hr & Ha & Hh & _). assert (held_by gs (gd_event_id g) = true) as Hheld by (apply held_by_elem; by exists h, g).
  destruct (supervisor_restore_ok (gd_event_id g) lost s ltac:(by apply Hh) Hr) as (r & s' & E & Hr' & Hact). rewrite Ha, Hheld, orb_true_r in Hact. destruct Hact as [-> Hdel]. exists s'. split; [done|].
  intros x Hx. by apply (guards_release w0 gs s s' h g x).
Qed.

Lemma serve_call_ok w0 gs s c :
  guards_ok w0 gs s → call_ok c → ∃ gs' s', serve_call names peer_log peer_hibernation self gs c s = Ret (gs', s') ∧ guards_ok w0 gs' s'.
Proof.
  intros Hok Hc. pose proof Hok as (Hr & _). destruct c as [base size|h|h reach address lease|h reach address data|h]; cbn [serve_call].
  - destruct Hc as [Hb Hs]. destruct (supervisor_hibernate_ok base size s Hb Hs Hr) as (r & s' & E & Hr' & H'). unfold guard_hibernate, sup_bind. rewrite E. unfold sup_ret. destruct r as [ev|e].
    + destruct H' as (Hu & Hev & Hadd). eexists _, _. split; [reflexivity|]. by eapply guards_add.
    + eexists _, _. split; [reflexivity|]. by eapply guards_keep.
  - unfold with_guard. destruct (gs !! h) as [[g|]|] eqn:Hg; [|by eexists _, _..]. unfold guard_restore. destruct (gd_restored g) eqn:Hres.
    + eexists _, _. split; [reflexivity|]. by rewrite list_insert_id.
    + destruct (guard_releases w0 gs s h g false Hok Hg Hres) as (s' & E & H'). unfold sup_bind. rewrite E. eexists _, _. split; [reflexivity|]. by apply H'.
  - unfold with_guard. destruct (gs !! h) as [[g|]|]; [|by eexists _, _..]. destruct (region_read_loop_ok (S (length lease)) reach address lease (replicate CHUNK_SIZE 0) 0 s Hr (length_replicate _ _) ltac:(lia)) as (r & s' & E & Hk).
    unfold guard_read, sup_bind. rewrite E. eexists _, _. split; [reflexivity|]. by eapply guards_keep.
  - unfold with_guard. destruct (gs !! h) as [[g|]|]; [|by eexists _, _..]. destruct (region_write_loop_ok (S (length data)) reach address data 0 s Hr ltac:(lia)) as (r & s' & E & Hk).
    unfold guard_write, sup_bind. rewrite E. eexists _, _. split; [reflexivity|]. by eapply guards_keep.
  - unfold with_guard. destruct (gs !! h) as [[g|]|] eqn:Hg; [|by eexists _, _..]. unfold guard_drop. destruct (gd_restored g) eqn:Hres.
    + eexists _, _. split; [reflexivity|]. destruct Hok as (H1 & H2 & H3 & H4). pose proof (lookup_lt_Some _ _ _ Hg) as Hlt.
      assert (∀ h' g', <[h := None]> gs !! h' = Some (Some g') → gs !! h' = Some (Some g')) as Hcase.
      { intros h' g' Hl. destruct (decide (h' = h)) as [->|Hne]; [by rewrite list_lookup_insert_eq in Hl|by rewrite list_lookup_insert_ne in Hl]. }
      assert (∀ e, held_by (<[h := None]> gs) e = held_by gs e) as Hsame.
      { intros e. apply eq_true_iff_eq. rewrite !held_by_elem. split; intros (h' & g' & Hl & R & He); exists h', g'; (split; [|done]); [by apply Hcase|]. rewrite list_lookup_insert_ne; [done|]. intros <-. congruence. }
      split; [done|]. split; [intros e; by rewrite H2, Hsame|]. split; [intros e; rewrite Hsame; apply H3|]. intros h1 h2 g1 g2 L1 L2. apply H4; by apply Hcase.
    + destruct (guard_releases w0 gs s h g true Hok Hg Hres) as (s' & E & H'). unfold sup_bind. rewrite E. eexists _, _. split; [reflexivity|]. by apply H'.
Qed.

(** C19: regions are hibernated exactly as long as guards hold them. After any calls of
    clients to the hibernation service, each passed by the supervisor to the kernel, neither
    has panicked, and the events whose regions are hibernated are those that were before
    and, each of one guard, those of the guards that are alive and have not been restored:
    restoring or dropping a guard, or any failure of a call, leaves no region hibernated
    that no guard can restore. *)
Theorem guards_hold_regions s cs :
  region_ok (su_world s) → Forall call_ok cs →
  ∃ gs s', serve_calls names peer_log peer_hibernation self [] cs s = Ret (gs, s') ∧
    (∀ e, active (su_world s') e = active (su_world s) e || held_by gs e) ∧
    (∀ h h' g g', gs !! h = Some (Some g) → gs !! h' = Some (Some g') → gd_restored g = false → gd_restored g' = false → gd_event_id g = gd_event_id g' → h = h').
Proof.
  intros Hr Hcs. assert (∀ gs t, guards_ok (su_world s) gs t → ∃ gs' t', serve_calls names peer_log peer_hibernation self gs cs t = Ret (gs', t') ∧ guards_ok (su_world s) gs' t') as Hrun.
  { induction Hcs as [|c cs Hc _ IH]; intros gs t Ht; [by eexists _, _|]. cbn [serve_calls]. destruct (serve_call_ok (su_world s) gs t c Ht Hc) as (gs1 & t1 & E & H1). unfold sup_bind. rewrite E. by apply IH. }
  destruct (Hrun [] s) as (gs & s' & E & _ & Ha & _ & Hd); [split; [done|]; split; [intros e; by rewrite orb_false_r|done]|]. by exists gs, s'.
Qed.

(** * What is read *)

(** C40: a successful read of a hibernated region reports four bytes and copies at most four,
    and a successful write reports four, however many were asked for and however many the
    kernel has copied: the length of the supervisor's reply, which is the count in four
    bytes, is taken for the count. *)
Theorem transfers_report_four s reach address lease a w' :
  let n := Nat.min (length lease) CHUNK_SIZE in
  reach 0%nat = true → is_u 32 address → (0 < length lease)%nat → ka_rc a = 0 →
  (send_to_kernel ReadHibernatedRegion (le_bytes 4 address ++ le_bytes 4 (Z.of_nat n)) 8 (replicate n 0) (su_world s) = (a, w') → ka_len a = n → length (ka_lease a) = n →
   guard_read names peer_log peer_hibernation self reach address lease s = Ret ((Ok 4, take 4 (ka_lease a) ++ drop 4 lease), world_step s w')) ∧
  (send_to_kernel WriteHibernatedRegion (le_bytes 4 address ++ le_bytes 4 (Z.of_nat n)) 8 (take n lease) (su_world s) = (a, w') →
   guard_write names peer_log peer_hibernation self reach address lease s = Ret (Ok 4, world_step s w')).
Proof.
  intros n Hreach Ha Hl Hrc. assert (n <= 240)%nat as Hn by (unfold n, CHUNK_SIZE; lia). assert (is_u 32 (Z.of_nat n)) as Hnu by (unfold is_u; lia). assert (wrap 32 (address + Z.of_nat 0) = address) as Haddr by (rewrite Z.add_0_r; by apply wrap_small). split.
  - intros E Hlen Hlease. unfold guard_read. cbn [region_read_loop]. rewrite decide_True by done. rewrite Nat.sub_0_r. fold n. unfold sup_bind at 1, sup_lift at 1. rewrite slice_ok by (rewrite ?length_replicate; unfold CHUNK_SIZE; lia). unfold sup_bind at 1. rewrite Haddr.
    rewrite (supervisor_read_eq address (Z.of_nat n) _ s a w'); [|done|done|rewrite Nat2Z.id, Nat.min_l by lia; exact E|rewrite Nat2Z.id; lia]. rewrite decide_True by done. rewrite Nat2Z.id, Hlen, (Nat.min_l n 256), Nat.min_id by lia. cbv zeta.
    rewrite (firstn_all2 (ka_lease a)) by lia. set (d := take _ (ka_lease a) ++ _). assert (d = ka_lease a) as ->.
    { unfold d. rewrite firstn_all2 by (rewrite ?length_take, ?length_drop, ?length_replicate, Hlease; unfold CHUNK_SIZE; lia). rewrite Hlease. rewrite (drop_ge _ n) by (rewrite length_take, length_drop, length_replicate; lia). apply app_nil_r. }
    unfold sup_bind at 1, sup_lift at 1. rewrite slice_ok by (rewrite ?length_splice; rewrite ?length_replicate; unfold CHUNK_SIZE; lia). set (part := take (4 - 0) _).
    assert (part = take 4 (ka_lease a ++ drop n (replicate CHUNK_SIZE 0))) as Hpart by (unfold part, splice; rewrite drop_0, take_0, app_nil_l, Hlease; reflexivity). unfold lease_write_range. rewrite Hreach, take_0, app_nil_l, Nat.sub_0_r. cbn [Nat.add].
    assert (length part = 4%nat) as Hlp by (rewrite Hpart, length_take, length_app, length_drop, length_replicate, Hlease; unfold CHUNK_SIZE; lia). rewrite Hlp.
    assert (take (length lease) part ++ drop 4 lease = take 4 (ka_lease a) ++ drop 4 lease) as Hres.
    { f_equal. rewrite Hpart. rewrite take_take. destruct (decide (4 <= n)%nat).
      - rewrite !take_app_le by lia. f_equal. unfold n in *. lia.
      - assert (n = length lease) as Hnl by (unfold n, CHUNK_SIZE in *; lia). rewrite Nat.min_l by lia. rewrite take_app_length' by lia. by rewrite firstn_all2 by lia. }
    rewrite Hres. case_decide as Hsmall; [done|]. assert (n = length lease) as Hnl by (unfold n, CHUNK_SIZE in *; lia). destruct (length lease) as [|m] eqn:Em; [lia|]. cbn [region_read_loop]. rewrite decide_False; [done|].
    rewrite length_app, length_take, length_drop, Hlease, Em. lia.
  - intros E. unfold guard_write. cbn [region_write_loop]. rewrite decide_True by done. rewrite Hreach, Nat.sub_0_r, drop_0. fold n. unfold sup_bind at 1. rewrite Haddr.
    assert (length (take n lease) = n) as Hlt by (rewrite length_take; lia). rewrite (supervisor_write_eq address (take n lease) s a w'); [|done|by rewrite Hlt|rewrite Hlt, Nat2Z.id, Nat.min_l by lia; rewrite take_take, Nat.min_id; exact E].
    rewrite decide_True by done. cbn [Nat.add]. case_decide; [done|]. assert (n = length lease) as Hnl by (unfold n, CHUNK_SIZE in *; lia). destruct (length lease) as [|m] eqn:Em; [lia|]. cbn [region_write_loop]. rewrite Em. by rewrite decide_False by lia.
Qed.
End service.
