(* ===== verification/SupervisorKernel.v ===== *)
(** The kernel keeps the promises that the supervisor and the hibernation service rely on:
    instances of their interfaces.

    The supervisor's calls are system calls of the modelled kernel, from the registers that
    [sys_send_to_kernel] of [hubris/userlib/src/arch/arm_m.rs] loads to those that it reads,
    with the buffer in the supervisor's memory: [safe_syscall_entry] runs [handle_kernel_message].
    The hibernation service's are taken from the point where the kernel has read its message,
    to the point where it writes its response. A small system shows them at work. *)

From S2P Require Import Prelude KernAccess KernState KernMem KernTask KernSyscalls KernKipc KernEntry KernInv KernSafe KernKipcSafe KernRun KernProps KernReply KernWitness.
From S2P Require Import Supervisor SupervisorProps Hibernation.

Open Scope Z_scope.
Open Scope list_scope.

(** * How computations end *)

Definition ends {A} (m : sys A) (Q : result A UserError → Kernel → Prop) (k : Kernel) : Prop := ∀ r k', m k = Ret (r, k') → Q r k'.

Section ends.
Context {A B : Type}.
Implicit Types (Q : result A UserError → Kernel → Prop).

Lemma ends_ret Q a k : Q (Ok a) k → ends (sret a) Q k.
Proof. by intros H r k' [= <- <-]. Qed.

Lemma ends_fail Q e k : Q (Err e) k → ends (sfail e) Q k.
Proof. by intros H r k' [= <- <-]. Qed.

Lemma ends_lift Q (m : exec A) k : (∀ a, m = Ret a → Q (Ok a) k) → ends (lift m) Q k.
Proof. intros H r k'. unfold lift. destruct m as [a|]; [|done]. intros [= <- <-]. by apply H. Qed.

Lemma ends_bind (m : sys A) (f : A → sys B) (Q : result B UserError → Kernel → Prop) k :
  ends m (λ r k1, match r with Ok a => ends (f a) Q k1 | Err e => Q (Err e) k1 end) k → ends (sbind m f) Q k.
Proof.
  intros H r k'. unfold sbind. destruct (m k) as [[[a|e] k1]|] eqn:E; [| |done]; specialize (H _ _ E); cbn; [apply H|]. by intros [= <- <-].
Qed.

Lemma ends_mono (m : sys A) (Q Q' : result A UserError → Kernel → Prop) k : ends m Q k → (∀ r k', Q r k' → Q' r k') → ends m Q' k.
Proof. intros H HQ r k' E. by apply HQ, H. Qed.

Lemma ends_eq (m m' : sys A) Q k : m k = m' k → ends m' Q k → ends m Q k.
Proof. intros E H r k'. rewrite E. apply H. Qed.
End ends.

Lemma ends_tasks_of (Q : result (list Task) UserError → Kernel → Prop) k : Q (Ok (k_tasks k)) k → ends tasks_of Q k.
Proof. by intros H r k' [= <- <-]. Qed.

Lemma ends_regions_of (Q : result (list HibernationRegionDesc) UserError → Kernel → Prop) k : Q (Ok (k_regions k)) k → ends regions_of Q k.
Proof. by intros H r k' [= <- <-]. Qed.

Lemma ends_memory (Q : result (Z → Z) UserError → Kernel → Prop) k : Q (Ok (k_mem k)) k → ends memory Q k.
Proof. by intros H r k' [= <- <-]. Qed.

Lemma ends_put_memory mem (Q : result unit UserError → Kernel → Prop) k : Q (Ok tt) (with_mem k mem) → ends (put_memory mem) Q k.
Proof. by intros H r k' [= <- <-]. Qed.

Lemma ends_task_at i (Q : result Task UserError → Kernel → Prop) k : (∀ t, k_tasks k !! i = Some t → Q (Ok t) k) → ends (task_at i) Q k.
Proof. intros H. apply ends_bind, ends_tasks_of, ends_lift. intros t E. apply H. unfold idx in E. destruct (k_tasks k !! i); [|done]. by injection E as ->. Qed.

Lemma ends_update i f (Q : result unit UserError → Kernel → Prop) k :
  (∀ t t', k_tasks k !! i = Some t → f t = Ret t' → Q (Ok tt) (with_tasks k (<[i := t']> (k_tasks k)))) → ends (update_task i f) Q k.
Proof.
  intros H. apply ends_bind, ends_tasks_of, ends_bind, ends_lift. intros t Et. apply ends_bind, ends_lift. intros t' Et'. apply ends_bind, ends_lift. intros l El. intros r k' [= <- <-].
  unfold idx in Et. destruct (k_tasks k !! i) as [u|] eqn:Eu; [|done]. injection Et as ->. rewrite set_idx_ok in El by (by eapply lookup_lt_Some). injection El as <-. by eapply H.
Qed.

Lemma ends_each_index l f (I : Kernel → Prop) (Q : result unit UserError → Kernel → Prop) k :
  I k → (∀ i k, I k → ends (f i) (λ r k', r = Ok tt ∧ I k') k) → (∀ k', I k' → Q (Ok tt) k') → ends (each_index l f) Q k.
Proof.
  intros Hk Hf HQ. revert k Hk. induction l as [|i l IH]; intros k Hk; cbn [each_index]; [by apply ends_ret, HQ|].
  apply ends_bind. eapply ends_mono; [by apply Hf|]. intros r k' [-> Hk']. by apply IH.
Qed.

(** * Tasks that are left alone *)

Definition faulted_at (k : Kernel) (i : nat) : bool := match k_tasks k !! i with Some t => is_faulted t | None => false end.

(** The task is faulted if it was; the state of the supervisor is as it was, and so is
    all of any other task that is faulted. *)
Definition calm_task (j : nat) (t t' : Task) : Prop :=
  t_descriptor t' = t_descriptor t ∧ is_faulted t' = is_faulted t ∧ (j = O → t_state t' = t_state t) ∧ (j ≠ O → is_faulted t = true → t' = t).

Lemma calm_task_trans j t1 t2 t3 : calm_task j t1 t2 → calm_task j t2 t3 → calm_task j t1 t3.
Proof.
  intros (D1 & F1 & S1 & K1) (D2 & F2 & S2 & K2). split; [congruence|]. split; [congruence|]. split; [intros; rewrite S2, S1; done|]. intros Hj Hf.
  specialize (K1 Hj Hf). subst t2. by apply K2.
Qed.

(** A task of the table: one that has been started over, [x], is not faulted. *)
Definition touch (x : option nat) (j : nat) (t t' : Task) : Prop := if decide (x = Some j) then is_faulted t' = false else calm_task j t t'.

Definition calm (x : option nat) (tasks tasks' : list Task) : Prop :=
  length tasks' = length tasks ∧ ∀ j t t', tasks !! j = Some t → tasks' !! j = Some t' → touch x j t t'.

Lemma calm_refl x tasks : (∀ j t, x = Some j → tasks !! j = Some t → is_faulted t = false) → calm x tasks tasks.
Proof. intros Hx. split; [done|]. intros j t t' Ht Ht'. rewrite Ht in Ht'. injection Ht' as <-. unfold touch. case_decide; [by eapply Hx|done]. Qed.

Lemma calm_none_refl tasks : calm None tasks tasks.
Proof. by apply calm_refl. Qed.

Lemma calm_trans x tasks1 tasks2 tasks3 : calm None tasks1 tasks2 → calm x tasks2 tasks3 → calm x tasks1 tasks3.
Proof.
  intros [L1 H1] [L2 H2]. split; [congruence|]. intros j t t' Ht Ht'. destruct (lookup_lt_is_Some_2 tasks2 j) as [u Hu]; [rewrite L1; by eapply lookup_lt_Some|].
  specialize (H1 j t u Ht Hu). specialize (H2 j u t' Hu Ht'). unfold touch in *. rewrite decide_False in H1 by done. case_decide; [done|]. by eapply calm_task_trans.
Qed.

(** One more task of the table is changed. *)
Lemma calm_insert x tasks0 tasks i t t' : calm x tasks0 tasks → tasks !! i = Some t → touch x i t t' → calm x tasks0 (<[i := t']> tasks).
Proof.
  intros [L H] Ht Hi. split; [by rewrite length_insert|]. intros j u u' Hu Hu'. destruct (decide (i = j)) as [<-|Hij]; [|rewrite list_lookup_insert_ne in Hu' by done; by eapply H].
  rewrite list_lookup_insert_eq in Hu' by (by eapply lookup_lt_Some). injection Hu' as <-. specialize (H i u t Hu Ht). unfold touch in *. case_decide; [done|]. by eapply calm_task_trans.
Qed.

(** Starting a task over: from any table of which the others are left alone. *)
Lemma calm_start i tasks t t' : tasks !! i = Some t → is_faulted t' = false → calm (Some i) tasks (<[i := t']> tasks).
Proof.
  intros Ht Hf. split; [by rewrite length_insert|]. intros j u u' Hu Hu'. unfold touch. destruct (decide (i = j)) as [<-|Hij].
  - rewrite decide_True by done. rewrite list_lookup_insert_eq in Hu' by (by eapply lookup_lt_Some). by injection Hu' as <-.
  - rewrite decide_False by congruence. rewrite list_lookup_insert_ne in Hu' by done. rewrite Hu in Hu'. by injection Hu' as <-.
Qed.

Lemma calm_faulted x k k' j : calm x (k_tasks k) (k_tasks k') → faulted_at k' j = faulted_at k j && negb (bool_decide (x = Some j)).
Proof.
  intros [L H]. unfold faulted_at. destruct (k_tasks k !! j) as [t|] eqn:Et; [|rewrite lookup_ge_None_2; [done|rewrite L; by apply lookup_ge_None_1]].
  destruct (lookup_lt_is_Some_2 (k_tasks k') j) as [t' Et']; [rewrite L; by eapply lookup_lt_Some|]. rewrite Et'. specialize (H j t t' Et Et'). unfold touch in H.
  case_decide as Hx; [rewrite bool_decide_eq_true_2, andb_false_r by done; done|]. rewrite bool_decide_eq_false_2, andb_true_r by done. apply H.
Qed.

(** The registers of the supervisor, or of a task that is not faulted. *)
Lemma calm_save x j t s : x ≠ Some j → (j = O ∨ is_faulted t = false) → touch x j t (set_saved t s).
Proof. intros Hx Hj. unfold touch. rewrite decide_False by done. split; [done|]. split; [done|]. split; [done|]. intros Hn Hf. destruct Hj as [|E]; [done|]. by rewrite E in Hf. Qed.

(** ** Restarting a task *)

Lemma waits_unfaulted t p : waits_for (t_state t) = Some p → is_faulted t = false.
Proof. unfold is_faulted. by destruct (t_state t). Qed.

Lemma set_healthy_unfaulted t s t' : set_healthy_state t s = Ret t' → t_descriptor t' = t_descriptor t ∧ is_faulted t = false ∧ is_faulted t' = false.
Proof. unfold set_healthy_state, is_faulted. destruct (t_state t) as [| |? []]; try done; by intros [= <-]. Qed.

Lemma touch_healthy x j t s t' : j ≠ O → set_healthy_state t s = Ret t' → touch x j t t'.
Proof.
  intros Hj E. destruct (set_healthy_unfaulted _ _ _ E) as (D & F & F'). unfold touch. case_decide; [done|]. split; [done|]. split; [congruence|]. split; [done|]. intros _ Hf. congruence.
Qed.

Lemma unblock_calm x tasks0 id g i k : i ≠ O → x ≠ Some i → calm x tasks0 (k_tasks k) → ends (unblock id g i) (λ r k', r = Ok tt ∧ calm x tasks0 (k_tasks k')) k.
Proof.
  intros Hi Hx Hc. apply ends_bind, ends_task_at. intros t Ht. case_decide as Hw; [|by apply ends_ret]. apply waits_unfaulted in Hw.
  apply ends_bind, ends_update. intros t1 t1' Ht1 [= <-]. rewrite Ht in Ht1. injection Ht1 as <-. apply ends_update. intros t2 t2' Ht2 E2. split; [done|].
  cbn [k_tasks with_tasks] in *. eapply calm_insert; [eapply calm_insert; [exact Hc|exact Ht|by apply calm_save; [|right]]|exact Ht2|by eapply touch_healthy].
Qed.

Lemma reinitialize_at_calm i k : ends (reinitialize_at i) (λ r k', r = Ok tt ∧ calm (Some i) (k_tasks k) (k_tasks k')) k.
Proof.
  apply ends_bind, ends_regions_of, ends_bind, ends_memory, ends_bind, ends_task_at. intros t Ht. apply ends_bind, ends_lift. intros [t' mem'] Er. apply ends_bind, ends_update. intros u u' Hu [= <-]. apply ends_put_memory.
  split; [done|]. apply (calm_start i _ t); [done|]. unfold reinitialize in Er. destruct (arch_reinitialize _ _ _); [|done]. by injection Er as <- <-.
Qed.

(** What the handlers of the kernel leave: the caller goes on, and the tasks are left alone. *)
Definition goes_on {A} (r : result A UserError) (next : A → Prop) : Prop :=
  match r with Ok a => next a | Err (Recoverable _ hint) => hint = Same | Err (Unrecoverable _) => False end.

Definition answers (x : option nat) (k : Kernel) (r : result NextTask UserError) (k' : Kernel) : Prop :=
  goes_on r (λ nt, nt = Same) ∧ calm x (k_tasks k) (k_tasks k').

Lemma respond_answers x k0 n k : x ≠ Some O → calm x (k_tasks k0) (k_tasks k) → ends (respond 0 n) (λ r k', answers x k0 r k' ∧ k_mem k' = k_mem k) k.
Proof.
  intros Hx Hc. apply ends_bind, ends_update. intros t t' Ht [= <-]. apply ends_ret. split; [|done]. split; [done|]. eapply calm_insert; [exact Hc|exact Ht|]. apply calm_save; [done|by left].
Qed.

Lemma reinit_index_answers i start k : (0 < i < length (k_tasks k))%nat → ends (reinit_index 0 i start) (answers (Some i) k) k.
Proof.
  intros Hi. apply ends_bind, ends_tasks_of. rewrite decide_False by lia. apply ends_bind, ends_bind, ends_tasks_of, ends_lift. intros old _. apply ends_bind, ends_task_at. intros t Ht. destruct (is_suspended t) eqn:Es.
  { apply ends_fail. split; [done|]. apply calm_refl. intros j u [= <-] Hu. rewrite Ht in Hu. injection Hu as <-. unfold is_suspended, is_faulted in *. by destruct (t_state t). }
  apply ends_bind. eapply ends_mono; [apply reinitialize_at_calm|]. intros r k1 [-> Hc]. apply ends_bind.
  assert (ends (if start then set_healthy i Runnable else sret tt) (λ r k', r = Ok tt ∧ calm (Some i) (k_tasks k) (k_tasks k')) k1) as Hs.
  { destruct start; [|by apply ends_ret]. apply ends_update. intros u u' Hu Eu. split; [done|]. eapply calm_insert; [exact Hc|exact Hu|]. eapply touch_healthy; [lia|done]. }
  eapply ends_mono; [exact Hs|]. intros r k2 [-> Hc2]. apply ends_bind, ends_task_at. intros t2 _. apply ends_bind. eapply (ends_each_index _ _ (λ k', calm (Some i) (k_tasks k) (k_tasks k'))); [done| |].
  - intros j k' Hk'. case_decide as Hj; [by apply ends_ret|]. apply unblock_calm; [tauto|intros [= ->]; tauto|done].
  - intros k3 Hc3. rewrite decide_False by lia. eapply ends_mono; [apply (respond_answers (Some i) k); [intros [= E]; lia|exact Hc3]|]. by intros ? ? [].
Qed.

(** ** Finding a task *)

Lemma position_spec {A} (p : A → bool) l :
  match position p l with
  | Some i => (∃ x, l !! i = Some x ∧ p x = true) ∧ ∀ j x, (j < i)%nat → l !! j = Some x → p x = false
  | None => ∀ j x, l !! j = Some x → p x = false
  end.
Proof.
  induction l as [|y l IH]; cbn [position]; [done|]. destruct (p y) eqn:Ey; [split; [by exists y|]; intros j x Hj; lia|]. destruct (position p l) as [i|]; cbn [fmap option_fmap option_map].
  - destruct IH as [H1 H2]. split; [done|]. intros [|j] x Hj Hx; [by injection Hx as <-|]. apply (H2 j); [lia|done].
  - intros [|j] x Hx; [by injection Hx as <-|by apply (IH j)].
Qed.

Lemma find_index_spec k next : (next <= length (k_tasks k))%nat →
  match position is_faulted (drop next (k_tasks k)) with
  | Some i => (i + next < length (k_tasks k))%nat ∧ ∀ j, (next <= j < i + next)%nat → faulted_at k j = false
  | None => ∀ j, (next <= j)%nat → faulted_at k j = false
  end.
Proof.
  intros Hn. assert (∀ j, (next <= j)%nat → k_tasks k !! j = drop next (k_tasks k) !! (j - next)%nat) as Hd by (intros j Hj; rewrite lookup_drop; f_equal; lia).
  pose proof (position_spec is_faulted (drop next (k_tasks k))) as H. destruct (position _ _) as [i|].
  - destruct H as [(x & Hx & _) H]. split; [apply lookup_lt_Some in Hx; rewrite length_drop in Hx; lia|]. intros j Hj. unfold faulted_at. rewrite Hd by lia. destruct (drop _ _ !! (j - next)%nat) as [t|] eqn:E; [|done]. apply (H (j - next)%nat); [lia|done].
  - intros j Hj. unfold faulted_at. rewrite Hd by lia. destruct (drop _ _ !! (j - next)%nat) as [t|] eqn:E; [|done]. by apply (H (j - next)%nat).
Qed.

Lemma index_bytes i l : 0 <= i < 2 ^ 32 → le_val (take 4 (le_bytes 4 i ++ l)) = i.
Proof. intros Hi. rewrite take_app_length' by (by rewrite length_le_bytes). rewrite le_val_le_bytes. by rewrite Z.mod_small by lia. Qed.

(** The kernel's handler is the reading of its message and the restart. *)
Lemma reinit_task_reads `{Marshal} caller message k :
  reinit_task caller message k = sbind (deserialize_message de_u32_bool caller message) (λ ix, reinit_index caller (Z.to_nat (fst ix)) (snd ix)) k.
Proof. unfold reinit_task. unfold sbind at 1. symmetry. unfold sbind at 1. destruct (deserialize_message _ _ _ k) as [[[[index start]|] k1]|]; reflexivity. Qed.

(** * The supervisor's calls *)

(** What the supervisor sends and what it finds: words in four bytes, lowest first. *)
Record MarshalLaws `{Marshal} : Prop := {
  law_u32 i : is_u 32 i → de_u32 (le_bytes 4 i) = Some i;
  law_u32_bool i : is_u 32 i → de_u32_bool (le_bytes 4 i ++ [1]) = Some (i, true);
  law_ser_u32 i l : is_u 32 i → length l = 4%nat → ser_u32 i l = (le_bytes 4 i, SerOk 4);
  law_ser_state s l : snd (ser_state s l) ≠ SerError;
}.

(** The task may read and write the bytes from [base] on, one or more of them. *)
Definition grants (t : Task) (base : Z) (n : nat) : Prop :=
  0 <= base ∧ base + Z.of_nat n < 2 ^ 32 ∧
  ∀ m, 0 < m <= Z.of_nat n → try_read [] 1 t (mkUSlice base m) = Ret (Ok tt) ∧ try_write [] 1 t (mkUSlice base m) = Ret (Ok tt).

Lemma grants_same t t' base n : t_descriptor t' = t_descriptor t → hold t = None → hold t' = None → grants t base n → grants t' base n.
Proof.
  intros Hd Ho Ho' (H1 & H2 & H3). split; [done|]. split; [done|]. intros m Hm. destruct (H3 m Hm) as [Hr Hw]. unfold try_read, try_write in *.
  by rewrite !(assert_access_desc [] [] 1 t' t) by done.
Qed.

Lemma grants_access t base n m regions : hold t = None → grants t base n → 0 < m <= Z.of_nat n →
  try_read regions 1 t (mkUSlice base m) = Ret (Ok tt) ∧ try_write regions 1 t (mkUSlice base m) = Ret (Ok tt).
Proof. intros Ho (_ & _ & H) Hm. unfold try_read, try_write in *. rewrite !(assert_access_desc regions [] 1 t t) by done. by apply H. Qed.

Lemma read_write mem base (data : list Z) n : (n <= length data)%nat → read_mem (write_mem mem base data) base n = take n data.
Proof.
  intros Hn. apply list_eq. intros i. unfold read_mem. destruct (decide (i < n)%nat) as [Hi|Hi].
  - rewrite list_lookup_fmap, lookup_seq_lt by done. cbn. rewrite lookup_take_lt by done. unfold write_mem. rewrite decide_True by lia. replace (Z.to_nat _) with i by lia. rewrite nth_lookup.
    by destruct (lookup_lt_is_Some_2 data i) as [x ->]; [lia|].
  - rewrite !lookup_ge_None_2; [done| |]; rewrite ?length_take, ?length_map, ?length_seq; lia.
Qed.

Section supervisor_calls.
Context `{Marshal} {K : Type} `{MemoryRegion K} (kernel_regions : list K) (irq_lookup : Z → Z → option (list Z)) (image_id : Z).
(** The size of the buffer for states, where the buffers are, and the clock. *)
Context (size : nat) (buf_at : Z → Z) (clock : Kernel → Z).

#[local] Abbreviation handle := (handle_kernel_message kernel_regions irq_lookup image_id 0).

Definition PANIC_BUF_SIZE : nat := 128.

(** The size of the buffer of a call. *)
Definition buf_size (op : Z) : nat :=
  if decide (op = FindFaultedTask) then 4 else if decide (op = ReinitTask) then 5 else if decide (op = ReadTaskStatus) then size else PANIC_BUF_SIZE.

Definition fault_calls : list Z := [FindFaultedTask; ReinitTask; ReadTaskStatus; ReadPanicMessage].

Definition supervisor_ok (t : Task) : Prop := t_state t = Healthy Runnable ∧ ∀ op, op ∈ fault_calls → grants t (buf_at op) (buf_size op).

(** The message of a task that has panicked is not in the buffer that it is read into. *)
Definition message_apart (t : Task) : Prop :=
  is_panicked (t_state t) = true → is_u 32 (r4 (t_save t)) ∧ is_u 32 (r5 (t_save t)) ∧
  ∀ a, r4 (t_save t) <= a < r4 (t_save t) + r5 (t_save t) → ¬ (buf_at ReadPanicMessage <= a < buf_at ReadPanicMessage + Z.of_nat PANIC_BUF_SIZE).

Definition kernel_ready (k : Kernel) : Prop :=
  kinv k ∧ Z.of_nat (length (k_tasks k)) < 2 ^ 32 ∧ (∃ t, k_tasks k !! O = Some t ∧ supervisor_ok t) ∧ ∀ j t, j ≠ O → k_tasks k !! j = Some t → message_apart t.

(** The registers of [sys_send_to_kernel], without leases. *)
Definition send_regs (op base : Z) (arg_len len : nat) (s : SavedState) : SavedState :=
  mkSaved (Z.lor (Z.shiftl TASK_KERNEL 16) op) base (Z.of_nat arg_len) base (Z.of_nat len) ULEASE_ALIGN 0 0 (psp s) (exc_return s).

(** The kernel as the supervisor, task [t], enters it. *)
Definition entered (op : Z) (buf : list Z) (arg_len : nat) (t : Task) (k : Kernel) : Kernel :=
  with_mem (with_tasks k (<[O := set_saved t (send_regs op (buf_at op) arg_len (length buf) (t_save t))]> (k_tasks k))) (write_mem (k_mem k) (buf_at op) buf).

(** A system call of the supervisor. If the kernel has it go on, it finds the code and the
    length in its registers and the response in its buffer; otherwise there is no answer. *)
Definition call_kernel (op : Z) (buf : list Z) (arg_len : nat) (lease : list Z) (k : Kernel) : KernelAnswer * Kernel :=
  let no_answer k := (mkAnswer 0 0 [] lease, k) in
  match k_tasks k !! O with
  | None => no_answer k
  | Some t =>
      match safe_syscall_entry (handle_kernel_message kernel_regions irq_lookup image_id) irq_lookup (clock k) 0 0 (entered op buf arg_len t k) with
      | Ret (Same, k) =>
          match k_tasks k !! O with
          | None => no_answer k
          | Some t => (mkAnswer (r4 (t_save t)) (Z.to_nat (r5 (t_save t))) (read_mem (k_mem k) (buf_at op) (length buf)) lease, k)
          end
      | Ret (_, k) => no_answer k
      | Panic => no_answer k
      end
  end.

Context (Hmarshal : MarshalLaws) (Hirq : irq_table_ok irq_lookup) (Hsize : (4 <= size)%nat).

Lemma runnable_free t : t_state t = Healthy Runnable → hold t = None.
Proof. intros E. unfold hold. by rewrite E. Qed.

(** ** The parts of a call *)

Lemma ends_deserialize {T} (de : list Z → option T) t base sz n v (Q : result T UserError → Kernel → Prop) k :
  k_tasks k !! O = Some t → hold t = None → grants t base sz → (0 < n <= sz)%nat → de (read_mem (k_mem k) base n) = Some v →
  Q (Ok v) k → ends (deserialize_message de 0 (mkUSlice base (Z.of_nat n))) Q k.
Proof.
  intros Ht Ho Hg Hn Hde HQ. apply ends_bind. intros r k'. unfold check_access. rewrite (idx_ok _ _ _ Ht). cbn [ebind]. rewrite (proj1 (grants_access t base sz (Z.of_nat n) (k_regions k) Ho Hg ltac:(lia))). cbn [ebind]. intros [= <- <-].
  apply ends_bind, ends_memory. cbn [us_base us_length]. rewrite Nat2Z.id, Hde. by apply ends_ret.
Qed.

Lemma ends_serialize {T} (ser : T → list Z → list Z * SerResult) size_of t base sz v data res (Q : result Z UserError → Kernel → Prop) k :
  k_tasks k !! O = Some t → hold t = None → grants t base sz → (0 < sz)%nat → ser v (read_mem (k_mem k) base sz) = (data, res) → res ≠ SerError →
  (∀ n, Q (Ok n) (with_mem k (write_mem (k_mem k) base data))) → ends (serialize_response ser size_of 0 (mkUSlice base (Z.of_nat sz)) v) Q k.
Proof.
  intros Ht Ho Hg Hsz Hser Hres HQ. apply ends_bind. intros r k'. unfold check_access. rewrite (idx_ok _ _ _ Ht). cbn [ebind]. rewrite (proj2 (grants_access t base sz (Z.of_nat sz) (k_regions k) Ho Hg ltac:(lia))). cbn [ebind]. intros [= <- <-].
  apply ends_bind, ends_memory. cbn [us_base us_length]. rewrite Nat2Z.id, Hser. apply ends_bind, ends_put_memory. destruct res; [by apply ends_ret|by apply ends_ret|done].
Qed.

Lemma aliases_apart a b : uslice_ok a → uslice_ok b → (∀ x, in_uslice a x → ¬ in_uslice b x) → aliases 1 a b = false.
Proof. intros Ha Hb Hx. destruct (aliases 1 a b) eqn:E; [|done]. apply aliases_ok in E as (x & H1 & H2); [|done..]. by destruct (Hx x H1). Qed.

(** A copy to the supervisor's buffer does not fault the supervisor. *)
Lemma ends_copy i from t base sz (Q : result (result Z InteractFault) UserError → Kernel → Prop) k :
  i ≠ O → k_tasks k !! O = Some t → hold t = None → grants t base sz → uslice_ok from → (∀ x, in_uslice from x → ¬ (base <= x < base + Z.of_nat sz)) →
  (∀ r mem, match r with Ok _ => True | Err f => if_dst f = None end → Q (Ok r) (with_mem k mem)) →
  ends (sys_copy i from 0 (mkUSlice base (Z.of_nat sz))) Q k.
Proof.
  intros Hi Ht Ho Hg Hf Hx HQ r k'. pose proof Hf as (F1 & F2 & F3). pose proof Hg as (G1 & G2 & _). unfold in_uslice in Hx. unfold sys_copy, safe_copy, shorten_to_match. cbn [us_base us_length]. set (n := Z.min _ _). case_decide as En; [intros [= <- <-]; by apply HQ|].
  unfold copy_checked, index2_distinct. rewrite decide_True by done. destruct (idx (k_tasks k) i) as [u|]; [|done]. rewrite (idx_ok _ _ _ Ht). cbn [ebind fst snd].
  rewrite aliases_apart; [|unfold uslice_ok; cbn; lia|unfold uslice_ok; cbn; lia|intros x; unfold in_uslice; cbn; intros Hin; specialize (Hx x); lia].
  rewrite (proj2 (grants_access t base sz n (k_regions k) Ho Hg ltac:(lia))). destruct (try_read _ _ _ _) as [[v|f]|]; [..|done]; cbn; intros [= <- <-]; by apply HQ.
Qed.

(** ** From the registers to the handler *)

Lemma call_args op arg_len t : op ∈ fault_calls → supervisor_ok t → (arg_len <= buf_size op)%nat →
  let args := as_send_args (send_regs op (buf_at op) arg_len (buf_size op) (t_save t)) in
  sa_callee args = TASK_KERNEL ∧ sa_operation args = op ∧
  sa_message args = Ok (mkUSlice (buf_at op) (Z.of_nat arg_len)) ∧ sa_response args = Ok (mkUSlice (buf_at op) (Z.of_nat (buf_size op))).
Proof.
  intros Hop [_ Hg] Hn. destruct (Hg op Hop) as (G1 & G2 & _). cbv zeta. cbn [as_send_args sa_callee sa_operation sa_message sa_response send_regs KernState.r4 r5 r6 r7 r8].
  assert (∀ n, (n <= buf_size op)%nat → uslice_from_raw 1 1 (buf_at op) (Z.of_nat n) = Ok (mkUSlice (buf_at op) (Z.of_nat n))) as Hraw.
  { intros n Hl. unfold uslice_from_raw. rewrite Z.mod_1_r, Z.mul_1_r. rewrite decide_False by lia. rewrite decide_False by lia. cbv zeta. by rewrite decide_True by lia. }
  rewrite !Hraw by lia. split; [|split; [|done]]; clear -Hop; unfold fault_calls in Hop; repeat (apply elem_of_cons in Hop as [->|Hop]; [vm_compute; reflexivity|]); by apply elem_of_nil in Hop.
Qed.

Lemma dispatch_kernel hkm lk time t k : k_tasks k !! O = Some t → sa_callee (as_send_args (t_save t)) = TASK_KERNEL → dispatch hkm lk time 0 0 k = hkm O k.
Proof.
  intros Ht Hc. unfold dispatch. change (sysnum_try_from 0) with (Some SysSend). cbv beta iota. unfold send. unfold sbind at 1, task_at at 1. unfold sbind at 1, tasks_of at 1, lift at 1. cbn [ebind fst snd].
  rewrite (idx_ok _ _ _ Ht). cbn [ebind fst snd]. cbv zeta. by rewrite decide_True.
Qed.

(** The end of a call that has the supervisor go on. *)
Lemma entry_answers x hkm lk time t k (P : (Z → Z) → Prop) nt k2 :
  x ≠ Some O → k_tasks k !! O = Some t → sa_callee (as_send_args (t_save t)) = TASK_KERNEL →
  ends (hkm O) (λ r k', answers x k r k' ∧ P (k_mem k')) k → safe_syscall_entry hkm lk time 0 0 k = Ret (nt, k2) →
  nt = Same ∧ calm x (k_tasks k) (k_tasks k2) ∧ P (k_mem k2).
Proof.
  intros Hx Ht Hc Hends. unfold safe_syscall_entry. rewrite (dispatch_kernel _ _ _ t) by done. destruct (hkm O k) as [[r k1]|] eqn:E; [|done]. destruct (Hends _ _ E) as [[Hgo Hcalm] HP]. cbn [ebind].
  destruct r as [nt'|[code hint|f]]; [by intros [= <- <-]| |done]. cbn in Hgo. subst hint.
  assert (ends (let* _ := update_save 0 (λ s, set_error_response s code) in sret Same) (λ r k', r = Ok Same ∧ calm x (k_tasks k) (k_tasks k') ∧ P (k_mem k')) k1) as He.
  { apply ends_bind, ends_update. intros u u' Hu [= <-]. apply ends_ret. split; [done|]. split; [|done]. eapply calm_insert; [exact Hcalm|exact Hu|]. apply calm_save; [done|by left]. }
  destruct (sbind _ _ k1) as [[r k3]|] eqn:E3; [|done]. destruct (He _ _ E3) as (-> & H3). cbn. by intros [= <- <-].
Qed.

(** ** The state between the calls *)

Lemma entered_lookup op buf arg_len t k : k_tasks k !! O = Some t → k_tasks (entered op buf arg_len t k) !! O = Some (set_saved t (send_regs op (buf_at op) arg_len (length buf) (t_save t))).
Proof. intros Ht. cbn. apply list_lookup_insert_eq. by eapply lookup_lt_Some. Qed.

Lemma entered_calm op buf arg_len t k : k_tasks k !! O = Some t → calm None (k_tasks k) (k_tasks (entered op buf arg_len t k)).
Proof. intros Ht. cbn. eapply calm_insert; [apply calm_none_refl|exact Ht|]. apply calm_save; [done|by left]. Qed.

Lemma entered_inv op buf arg_len t k : kinv k → k_tasks k !! O = Some t → t_state t = Healthy Runnable → kinv (entered op buf arg_len t k).
Proof.
  intros Hk Ht Hs. apply kinv_mem, (kinv_insert k O t); [done|done| |unfold is_suspended; cbn; by rewrite Hs]. pose proof (kinv_task k O t Hk Ht) as Hinv. eapply task_inv_same; [exact Hinv|done|done|]. exact (proj1 (proj2 Hinv)).
Qed.

Lemma kernel_ready_calm x k k' : x ≠ Some O → kernel_ready k → kinv k' → calm x (k_tasks k) (k_tasks k') → kernel_ready k'.
Proof.
  intros Hx (_ & Hl & (t & Ht & Hs & Hg) & Hm) Hk' [L C]. split; [done|]. split; [lia|]. split.
  - destruct (lookup_lt_is_Some_2 (k_tasks k') O) as [t' Ht']; [rewrite L; by eapply lookup_lt_Some|]. exists t'. split; [done|]. specialize (C O t t' Ht Ht'). unfold touch in C. rewrite decide_False in C by done.
    destruct C as (D & _ & S & _). specialize (S eq_refl). split; [congruence|]. intros op Hop. eapply grants_same; [exact D|by apply runnable_free|apply runnable_free; congruence|by apply Hg].
  - intros j t' Hj Ht' Hp. destruct (lookup_lt_is_Some_2 (k_tasks k) j) as [u Hu]; [rewrite <- L; by eapply lookup_lt_Some|]. specialize (C j u t' Hu Ht').
    assert (is_faulted t' = true) as Hf by (unfold is_faulted; unfold is_panicked in Hp; by destruct (t_state t')). unfold touch in C. case_decide; [congruence|]. destruct C as (_ & F & _ & S).
    specialize (S Hj ltac:(congruence)). subst u. by apply (Hm j t').
Qed.

(** A call that the kernel answers. *)
Lemma call_ok x op buf arg_len lease k (P : (Z → Z) → Prop) :
  x ≠ Some O → kernel_ready k → op ∈ fault_calls → length buf = buf_size op → (arg_len <= length buf)%nat →
  (∀ t, k_tasks k !! O = Some t → supervisor_ok t → ends handle (λ r k', answers x (entered op buf arg_len t k) r k' ∧ P (k_mem k')) (entered op buf arg_len t k)) →
  ∃ a k', call_kernel op buf arg_len lease k = (a, k') ∧ kernel_ready k' ∧ calm x (k_tasks k) (k_tasks k') ∧ ∃ mem, P mem ∧ ka_buf a = read_mem mem (buf_at op) (length buf).
Proof.
  intros Hx Hok Hop Hlen Harg Hends. pose proof Hok as (Hk & Hl & (t & Ht & Hsup) & Hm). pose proof (entered_lookup op buf arg_len t k Ht) as Ht1. pose proof (entered_inv op buf arg_len t k Hk Ht (proj1 Hsup)) as Hk1.
  destruct (call_args op arg_len t Hop Hsup ltac:(lia)) as (Ecal & Eop & _). rewrite <- Hlen in Ecal, Eop.
  destruct (syscall_entry_ok (handle_kernel_message kernel_regions irq_lookup image_id) irq_lookup (clock k) 0 _ O _ ltac:(intros _; eapply handle_kernel_message_safe; [exact Hirq|exact Hk1|exact Ht1|exact (proj1 Hsup)|]; intros [E5 _]; cbn [t_save set_saved] in E5; rewrite Eop in E5; subst op; revert Hop; clear; unfold fault_calls; rewrite !elem_of_cons; intros [?|[?|[?|[?|?%elem_of_nil]]]]; done) Hirq Hk1 Ht1 (proj1 Hsup)) as (nt & k2 & E & Hk2 & L2).
  destruct (entry_answers x _ _ _ _ _ P nt k2 Hx Ht1 Ecal (Hends t Ht Hsup) E) as (-> & Hc2 & HP). pose proof (calm_trans _ _ _ _ (entered_calm op buf arg_len t k Ht) Hc2) as Hc.
  unfold call_kernel. rewrite Ht, E. destruct (lookup_lt_is_Some_2 (k_tasks k2) O) as [t2 Ht2]; [rewrite (proj1 Hc); by eapply lookup_lt_Some|]. rewrite Ht2. eexists _, _. split; [done|]. split; [by eapply kernel_ready_calm|]. split; [done|]. by exists (k_mem k2).
Qed.

(** ** The handlers *)

Lemma ends_handle op buf arg_len t k (Q : result NextTask UserError → Kernel → Prop) : k_tasks k !! O = Some t → supervisor_ok t → op ∈ fault_calls → length buf = buf_size op → (arg_len <= length buf)%nat →
  ends (let m := mkUSlice (buf_at op) (Z.of_nat arg_len) in
     let r := mkUSlice (buf_at op) (Z.of_nat (length buf)) in
     if decide (op = FindFaultedTask) then find_faulted_task 0 m r else if decide (op = ReinitTask) then reinit_task 0 m
     else if decide (op = ReadTaskStatus) then read_task_status 0 m r else read_panic_message 0 m r) Q (entered op buf arg_len t k) →
  ends handle Q (entered op buf arg_len t k).
Proof.
  intros Ht Hsup Hop Hlen Harg Hends r k' E. apply Hends. rewrite <- E. destruct (call_args op arg_len t Hop Hsup ltac:(lia)) as (_ & Eop & Em & Er). rewrite <- Hlen in *. unfold handle_kernel_message. unfold sbind at 1, task_at at 1. unfold sbind at 1, tasks_of at 1, lift at 1. cbn [ebind fst snd].
  rewrite (idx_ok _ _ _ (entered_lookup op buf arg_len t k Ht)). cbn [ebind fst snd t_save set_saved]. cbv zeta. rewrite Eop, Em, Er. clear -Hop.
  unfold fault_calls in Hop. repeat (apply elem_of_cons in Hop as [->|Hop]; [reflexivity|]). by apply elem_of_nil in Hop.
Qed.

(** The supervisor may access its buffer, in which the kernel finds the message. *)
Lemma entered_grants op buf arg_len t k : k_tasks k !! O = Some t → supervisor_ok t → op ∈ fault_calls → length buf = buf_size op → (arg_len <= length buf)%nat →
  ∃ t1, k_tasks (entered op buf arg_len t k) !! O = Some t1 ∧ hold t1 = None ∧ grants t1 (buf_at op) (length buf) ∧
    read_mem (k_mem (entered op buf arg_len t k)) (buf_at op) arg_len = take arg_len buf.
Proof.
  intros Ht [Hs Hg] Hop Hlen Harg. eexists. split; [by apply entered_lookup|]. split; [by apply runnable_free|]. rewrite Hlen. split; [|by apply read_write].
  eapply grants_same; [| | |by apply Hg]; [done|by apply runnable_free..].
Qed.

Lemma entered_length op buf arg_len t k : length (k_tasks (entered op buf arg_len t k)) = length (k_tasks k).
Proof. cbn. by rewrite length_insert. Qed.

(** The next faulted task of the table, or zero. *)
Definition next_faulted (k : Kernel) (next i : nat) : Prop :=
  (i = O ∧ ∀ j, (next <= j)%nat → faulted_at k j = false) ∨ ((next <= i < length (k_tasks k))%nat ∧ ∀ j, (next <= j < i)%nat → faulted_at k j = false).

Lemma find_answers next t k : kernel_ready k → k_tasks k !! O = Some t → supervisor_ok t → 0 <= next <= Z.of_nat (length (k_tasks k)) →
  let k1 := entered FindFaultedTask (le_bytes 4 next) 4 t k in
  ends handle (λ r k', answers None k1 r k' ∧ ∃ i, next_faulted k (Z.to_nat next) i ∧ is_u 32 (Z.of_nat i) ∧ read_mem (k_mem k') (buf_at FindFaultedTask) 4 = le_bytes 4 (Z.of_nat i)) k1.
Proof.
  intros (_ & Hl & _) Ht Hsup Hn k1. assert (length (k_tasks k1) = length (k_tasks k)) as L1 by apply entered_length. assert (FindFaultedTask ∈ fault_calls) as Hop by (by left). assert (length (le_bytes 4 next) = 4%nat) as Hlen by apply length_le_bytes.
  destruct (entered_grants _ (le_bytes 4 next) 4 t k Ht Hsup Hop Hlen ltac:(lia)) as (t1 & Ht1 & Ho1 & Hg1 & Hrd). rewrite take_ge in Hrd by lia. apply ends_handle; [done|done|done|done|lia|]. fold k1 in Ht1, Hrd |- *. cbv zeta. rewrite decide_True by done. rewrite Hlen in *.
  apply ends_bind. eapply ends_deserialize; [exact Ht1|done|exact Hg1|lia|rewrite Hrd; apply law_u32; [done|unfold is_u; lia]|]. cbv zeta.
  apply ends_bind, ends_tasks_of. rewrite decide_False by (lia). apply ends_bind, ends_lift. intros rest Erest. rewrite slice_ok in Erest by (lia). injection Erest as <-. rewrite take_ge by (by rewrite length_drop).
  set (i := match position _ _ with Some _ => _ | None => _ end).
  assert (next_faulted k (Z.to_nat next) i) as Hi.
  { pose proof (find_index_spec k1 (Z.to_nat next) ltac:(lia)) as Hf. pose proof (λ j, calm_faulted None k k1 j (entered_calm _ _ _ t k Ht)) as Hcf. subst i. unfold next_faulted. destruct (position _ _) as [i|].
    - right. destruct Hf as [H1 H2]. split; [lia|]. intros j Hj. specialize (H2 j ltac:(lia)). rewrite Hcf in H2. by rewrite andb_true_r in H2.
    - left. split; [done|]. intros j Hj. specialize (Hf j Hj). rewrite Hcf in Hf. by rewrite andb_true_r in Hf. }
  assert (is_u 32 (Z.of_nat i)) as Hu by (unfold is_u; destruct Hi as [[-> _]|[? _]]; lia).
  apply ends_bind. eapply (ends_serialize _ _ t1); [exact Ht1|done|exact Hg1|lia|apply law_ser_u32; [done|done|apply length_read_mem]|done|]. intros n.
  eapply ends_mono; [apply (respond_answers None k1); [done|apply calm_none_refl]|]. intros r k' [Ha Em]. split; [done|]. exists i. split; [done|]. split; [done|]. rewrite Em. cbn [k_mem with_mem]. rewrite read_write by (by rewrite length_le_bytes). by rewrite take_ge by (by rewrite length_le_bytes).
Qed.

Lemma index_message i (rest : list Z) : take 4 (le_bytes 4 i ++ rest) = le_bytes 4 i.
Proof. apply take_app_length'. by rewrite length_le_bytes. Qed.

Lemma status_answers i rest t k : kernel_ready k → k_tasks k !! O = Some t → supervisor_ok t → 0 <= i < Z.of_nat (length (k_tasks k)) → (4 + length rest = size)%nat →
  let k1 := entered ReadTaskStatus (le_bytes 4 i ++ rest) 4 t k in ends handle (λ r k', answers None k1 r k' ∧ True) k1.
Proof.
  intros (_ & Hl & _) Ht Hsup Hi Hrest k1. assert (length (k_tasks k1) = length (k_tasks k)) as L1 by apply entered_length. assert (ReadTaskStatus ∈ fault_calls) as Hop by (do 2 right; by left). assert (length (le_bytes 4 i ++ rest) = size) as Hlen by (rewrite length_app, length_le_bytes; lia).
  destruct (entered_grants _ (le_bytes 4 i ++ rest) 4 t k Ht Hsup Hop Hlen ltac:(lia)) as (t1 & Ht1 & Ho1 & Hg1 & Hrd). rewrite index_message in Hrd. apply ends_handle; [done|done|done|done|lia|]. fold k1 in Ht1, Hrd |- *. cbv zeta. do 2 rewrite decide_False by done. rewrite decide_True by done. rewrite Hlen in *.
  apply ends_bind. eapply (ends_deserialize _ t1 _ size); [exact Ht1|done|exact Hg1|lia|rewrite Hrd; apply law_u32; [done|unfold is_u; lia]|].
  apply ends_bind, ends_tasks_of. rewrite decide_False by (lia). apply ends_bind, ends_task_at. intros u _. destruct (ser_state (t_state u) (read_mem (k_mem k1) (buf_at ReadTaskStatus) size)) as [data res] eqn:Es.
  apply ends_bind. eapply (ends_serialize _ _ t1); [exact Ht1|done|exact Hg1|lia|exact Es| |].
  - intros ->. apply (law_ser_state Hmarshal (t_state u) (read_mem (k_mem k1) (buf_at ReadTaskStatus) size)). by rewrite Es.
  - intros n. eapply ends_mono; [apply (respond_answers None k1); [done|apply calm_none_refl]|]. by intros r k' [? _].
Qed.

Lemma panic_answers i rest t k : kernel_ready k → k_tasks k !! O = Some t → supervisor_ok t → 1 <= i < Z.of_nat (length (k_tasks k)) → (4 + length rest = PANIC_BUF_SIZE)%nat →
  let k1 := entered ReadPanicMessage (le_bytes 4 i ++ rest) 4 t k in ends handle (λ r k', answers None k1 r k' ∧ True) k1.
Proof.
  intros (_ & Hl & _ & Hm) Ht Hsup Hi Hrest k1. assert (length (k_tasks k1) = length (k_tasks k)) as L1 by apply entered_length. assert (ReadPanicMessage ∈ fault_calls) as Hop by (do 3 right; by left). assert (length (le_bytes 4 i ++ rest) = PANIC_BUF_SIZE) as Hlen by (rewrite length_app, length_le_bytes; lia).
  destruct (entered_grants _ (le_bytes 4 i ++ rest) 4 t k Ht Hsup Hop Hlen ltac:(unfold PANIC_BUF_SIZE in *; lia)) as (t1 & Ht1 & Ho1 & Hg1 & Hrd). rewrite index_message in Hrd. apply ends_handle; [done|done|done|done|unfold PANIC_BUF_SIZE in *; lia|]. fold k1 in Ht1, Hrd |- *. cbv zeta. do 3 rewrite decide_False by done. rewrite Hlen in *.
  assert (∀ e, answers None k1 (Err (Recoverable e Same)) k1) as Herr by (intros e; split; [done|apply calm_none_refl]).
  apply ends_bind. eapply (ends_deserialize _ t1 _ PANIC_BUF_SIZE); [exact Ht1|done|exact Hg1|unfold PANIC_BUF_SIZE; lia|rewrite Hrd; apply law_u32; [done|unfold is_u; lia]|]. cbv zeta.
  apply ends_bind, ends_tasks_of. rewrite decide_False by (lia). apply ends_bind, ends_task_at. intros u Hu. destruct (is_panicked (t_state u)) eqn:Ep; [|by apply ends_fail]. cbn [negb].
  assert (message_apart u) as Hap by (apply (Hm (Z.to_nat i)); [lia|]; cbn in Hu; by rewrite list_lookup_insert_ne in Hu by lia). destruct (Hap Ep) as ([A1 A2] & [B1 B2] & Happ).
  unfold as_panic_args. destruct (uslice_from_raw _ _ _ _) as [s|] eqn:Eraw; [|by apply ends_fail]. pose proof (from_raw_u8 _ _ _ A1 B1 Eraw) as Hsok. apply from_raw_ok in Eraw as (-> & _ & _); [|lia..].
  apply ends_bind. eapply ends_copy; [|exact Ht1|done|exact Hg1|exact Hsok|exact Happ|]; [lia|]. intros [n|f] mem Hf.
  - eapply ends_mono; [apply (respond_answers None k1); [done|apply calm_none_refl]|]. by intros r k' [? _].
  - rewrite Hf. case_match; apply ends_fail; (split; [|done]); (split; [done|apply calm_none_refl]).
Qed.

Lemma reinit_answers i t k : kernel_ready k → k_tasks k !! O = Some t → supervisor_ok t → 1 <= i < Z.of_nat (length (k_tasks k)) →
  let k1 := entered ReinitTask (le_bytes 4 i ++ [1]) 5 t k in ends handle (λ r k', answers (Some (Z.to_nat i)) k1 r k' ∧ True) k1.
Proof.
  intros (_ & Hl & _) Ht Hsup Hi k1. assert (length (k_tasks k1) = length (k_tasks k)) as L1 by apply entered_length. assert (ReinitTask ∈ fault_calls) as Hop by (right; by left). assert (length (le_bytes 4 i ++ [1]) = 5%nat) as Hlen by (rewrite length_app, length_le_bytes; done).
  destruct (entered_grants _ (le_bytes 4 i ++ [1]) 5 t k Ht Hsup Hop Hlen ltac:(lia)) as (t1 & Ht1 & Ho1 & Hg1 & Hrd). rewrite take_ge in Hrd by lia. apply ends_handle; [done|done|done|done|lia|]. fold k1 in Ht1, Hrd |- *. cbv zeta. rewrite decide_False by done. rewrite decide_True by done. rewrite Hlen in *. eapply ends_eq; [apply reinit_task_reads|].
  apply ends_bind. eapply (ends_deserialize _ t1 _ 5); [exact Ht1|done|exact Hg1|lia|rewrite Hrd; apply law_u32_bool; [done|unfold is_u; lia]|]. cbn [fst snd].
  eapply ends_mono; [apply reinit_index_answers; lia|]. by intros.
Qed.

(** ** The interface *)

#[local] Instance kernel_platform : Platform Kernel := {| now := clock; send_to_kernel := call_kernel |}.

#[local] Program Instance kernel_faults : FaultWorld Kernel := {|
  world_ok := kernel_ready;
  status_size := size;
  status_room := Hsize;
  task_count k := Z.of_nat (length (k_tasks k));
  faulted k j := faulted_at k (Z.to_nat j);
|}.
Next Obligation.
  intros k (_ & Hl & (t & Ht & _) & _). apply lookup_lt_Some in Ht. lia.
Qed.
Next Obligation.
  intros k next Hk Hn. cbn beta in *. pose proof (length_le_bytes 4 next) as Hlen.
  destruct (call_ok None FindFaultedTask (le_bytes 4 next) 4 [] k (λ mem, ∃ i, next_faulted k (Z.to_nat next) i ∧ is_u 32 (Z.of_nat i) ∧ read_mem mem (buf_at FindFaultedTask) 4 = le_bytes 4 (Z.of_nat i)) ltac:(done) Hk ltac:(by left) Hlen ltac:(lia) (λ t Ht Hsup, find_answers next t k Hk Ht Hsup ltac:(lia))) as (a & k' & E & Hk' & Hc & mem & (i & Hi & Hu & Hm) & Eb).
  exists a, k'. split; [exact E|]. split; [done|]. rewrite (proj1 Hc). split; [done|]. split; [intros j; rewrite (calm_faulted None k k'), andb_true_r by done; done|]. cbv zeta. rewrite Eb, Hlen, Hm. rewrite take_ge by (by rewrite length_le_bytes). rewrite le_val_le_bytes, Z.mod_small by exact Hu.
  destruct Hi as [[-> Hnone]|[Hi Hnone]]; [left|right]; (split; [lia|]); intros j Hj; apply Hnone; lia.
Qed.
Next Obligation.
  intros k op i rest a k' Hk Hi Hop. cbn beta in *. change (send_to_kernel ?o ?b ?n ?l ?w) with (call_kernel o b n l w). intros E.
  assert (∃ a k', call_kernel op (le_bytes 4 i ++ rest) 4 [] k = (a, k') ∧ kernel_ready k' ∧ calm None (k_tasks k) (k_tasks k') ∧ ∃ mem, True ∧ ka_buf a = read_mem mem (buf_at op) (length (le_bytes 4 i ++ rest))) as (a1 & k1 & E1 & Hk1 & Hc & mem & _ & Eb).
  { destruct Hop as [[-> Hr] | [-> Hr]].
    - apply (call_ok None ReadTaskStatus _ 4 [] k (λ _, True)); [done|done|by do 2 right; left|rewrite length_app, length_le_bytes; exact Hr|rewrite length_app, length_le_bytes; lia|]. intros t Ht Hsup. apply status_answers; [done|done|done|lia|done].
    - apply (call_ok None ReadPanicMessage _ 4 [] k (λ _, True)); [done|done|by do 3 right; left|rewrite length_app, length_le_bytes; exact Hr|rewrite length_app, length_le_bytes; lia|]. intros t Ht Hsup. by apply panic_answers. }
  rewrite E1 in E. injection E as <- <-. split; [done|]. rewrite (proj1 Hc). split; [done|]. split; [intros j; rewrite (calm_faulted None k k1), andb_true_r by done; done|]. rewrite Eb, length_read_mem, length_app, length_le_bytes. done.
Qed.
Next Obligation.
  intros k i a k' Hk Hi. cbn beta in *. change (send_to_kernel ?o ?b ?n ?l ?w) with (call_kernel o b n l w). intros E.
  destruct (call_ok (Some (Z.to_nat i)) ReinitTask (le_bytes 4 i ++ [1]) 5 [] k (λ _, True)) as (a1 & k1 & E1 & Hk1 & Hc & _); [intros [= E0]; lia|done|by right; left|by rewrite length_app, length_le_bytes|rewrite length_app, length_le_bytes; cbn; lia|intros t Ht Hsup; by apply reinit_answers|].
  rewrite E1 in E. injection E as <- <-. split; [done|]. rewrite (proj1 Hc). split; [done|]. intros j. rewrite (calm_faulted (Some (Z.to_nat i)) k k1) by done. do 2 f_equal. apply bool_decide_ext. split; [intros [= E]; lia|by intros ->].
Qed.
(** C10: when the kernel reports faults, the supervisor restarts every faulted task, by way
    of the kernel's own handlers of its calls: its loop ends without a panic when it has fuel
    for the number of tasks, afterwards no task is faulted, and the kernel's state is in order,
    with as many tasks as before. Before, it is in order too: it has the kernel's invariant,
    as every reachable state has ([reachable_inv]), with less than 2^32 tasks. The supervisor runs and has access to its buffers, one
    of the size of a [TaskState], at least four bytes, and one of 128 bytes; nothing else runs
    meanwhile, which its priority provides for; and no task has panicked with a message
    that is in the supervisor's own buffer (with such a message the call that reads it
    faults the supervisor, [panic_message_faults_supervisor]). Of the encoding of messages
    it is used that words are four bytes, lowest first, that a flag is a byte behind them,
    and that the state of a task is encoded without an error other than the end of the buffer;
    of the interrupt table, that its interrupts are valid. *)
Theorem faulted_tasks_restarted names de_state fuel s :
  kernel_ready (su_world s) → length (su_buf s) = size → length (su_panic_buf s) = PANIC_BUF_SIZE → (length (k_tasks (su_world s)) <= fuel)%nat →
  ∃ s', handle_faults names de_state fuel s = Ret (tt, s') ∧ kernel_ready (su_world s') ∧ length (k_tasks (su_world s')) = length (k_tasks (su_world s)) ∧
    ∀ j, faulted_at (su_world s') j = false.
Proof.
  intros Hk Hb Hp Hf. destruct (faults_all_restarted names de_state fuel s) as (s' & E & (Hk' & _) & C & F); [by split|cbn; lia|]. exists s'. split; [done|]. split; [done|]. split; [cbn in C; lia|]. intros j. destruct (decide (j = O)) as [->|Hj].
  - destruct Hk' as (_ & _ & (t & Ht & Hs & _) & _). unfold faulted_at. rewrite Ht. unfold is_faulted. by rewrite Hs.
  - destruct (decide (j < length (k_tasks (su_world s')))%nat) as [Hl|Hl]; [|unfold faulted_at; by rewrite lookup_ge_None_2 by lia]. specialize (F (Z.of_nat j) ltac:(cbn in *; lia)). rewrite bool_decide_eq_false_2, andb_false_r in F by lia. cbn in F. by rewrite Nat2Z.id in F.
Qed.
End supervisor_calls.

(** * Hibernated regions

    The table of regions, with the parts of the calls that the kernel makes under its
    lock; the tasks are left out. *)

Section table.
Context (protected : HibernationRegionDesc → bool).

Definition region_call (op : Z) (buf : list Z) (arg_len : nat) (lease : list Z) (regions : list HibernationRegionDesc) : KernelAnswer * list HibernationRegionDesc :=
  let a := le_val (take 4 buf) in
  let b := le_val (take 4 (drop 4 buf)) in
  let refuse rc := (mkAnswer rc 0 buf lease, regions) in
  if decide (op = HibernateRegion) then
    match find_region a b 0 regions with
    | None => refuse (hibernate_error_code NoMatchingRegion)
    | Some (i, region) =>
        if protected region then refuse (hibernate_error_code ProtectedMemory) else
        match hibernate region (Z.of_nat i mod 256) with
        | (_, Err e) => refuse (hibernate_error_code (hibernate_error e))
        | (region, Ok event_id) => (mkAnswer 0 4 (splice buf 0 (le_bytes 4 event_id)) lease, <[i := region]> regions)
        end
    end
  else if decide (op = RestoreRegion) then
    match regions !! Z.to_nat (event_index a) with
    | None => refuse InvalidEventId
    | Some region =>
        match restore region a with
        | (_, Err _) => refuse InvalidEventId
        | (region, Ok _) => (mkAnswer 0 0 buf lease, <[Z.to_nat (event_index a) := region]> regions)
        end
    end
  else (mkAnswer 0 (length lease) buf lease, regions).

Instance table_world : Platform (list HibernationRegionDesc) := {| now _ := 0; send_to_kernel := region_call |}.

(** An event whose region is in its hibernation. *)
Definition event_active (regions : list HibernationRegionDesc) (ev : Z) : bool :=
  match regions !! Z.to_nat (event_index ev) with
  | Some r => hib_active r && bool_decide (event_generation ev = hib_next_generation r - 1)
  | None => false
  end.

Lemma event_index_range ev : 0 <= event_index ev < 32.
Proof. unfold event_index. change 31 with (Z.ones 5). rewrite Z.land_ones by lia. apply Z.mod_pos_bound. lia. Qed.

Lemma event_eq e e' : event_index e = event_index e' → event_generation e = event_generation e' → e = e'.
Proof.
  unfold event_index, event_generation. change 31 with (Z.ones 5). rewrite !Z.land_ones, !Z.shiftr_div_pow2 by lia. intros H1 H2. rewrite (Z.div_mod e (2 ^ 5)), (Z.div_mod e' (2 ^ 5)) by lia. congruence.
Qed.

(** Changing one region: the events of the others are as before. *)
Lemma event_active_insert regions i r' e : (i < length regions)%nat →
  event_active (<[i := r']> regions) e = if decide (Z.to_nat (event_index e) = i) then hib_active r' && bool_decide (event_generation e = hib_next_generation r' - 1) else event_active regions e.
Proof. intros Hi. unfold event_active. case_decide as E; [rewrite E, list_lookup_insert_eq by done; done|by rewrite list_lookup_insert_ne]. Qed.

Lemma event_word i g ev : 0 <= i → 0 <= g → event_from_parts i g = Some ev → is_u 32 ev.
Proof.
  intros Hi Hg E. destruct (event_parts _ _ _ Hi Hg E) as [H1 H2]. unfold event_from_parts in E. case_decide; [done|]. case_decide; [done|]. clear E. unfold event_index, event_generation in *. change 31 with (Z.ones 5) in H1.
  rewrite Z.land_ones in H1 by lia. rewrite Z.shiftr_div_pow2 in H2 by lia. unfold is_u. rewrite (Z.div_mod ev (2 ^ 5)) by lia. lia.
Qed.

Definition table_ok (regions : list HibernationRegionDesc) : Prop := Forall hib_wf regions ∧ (length regions <= 32)%nat.

Lemma hibernate_call_ok regions base size a regions' :
  table_ok regions → region_call HibernateRegion (le_bytes 4 base ++ le_bytes 4 size) 8 [] regions = (a, regions') →
  table_ok regions' ∧
  ((ka_rc a ≠ 0 ∧ ∀ e, event_active regions' e = event_active regions e) ∨
   (ka_rc a = 0 ∧ ∃ ev, is_u 32 ev ∧ take 4 (ka_buf a) = le_bytes 4 ev ∧ event_active regions ev = false ∧ ∀ e, event_active regions' e = event_active regions e || bool_decide (e = ev))).
Proof.
  intros [Hr Hl]. unfold region_call. rewrite decide_True by done. cbv zeta. set (x := le_val _). set (y := le_val _). destruct (find_region x y 0 regions) as [[i h]|] eqn:Ef; [|intros [= <- <-]; split; [done|by left]].
  apply find_region_ok in Ef as [_ Hi]. rewrite Nat.sub_0_r in Hi. pose proof (lookup_lt_Some _ _ _ Hi) as Hlt. destruct (protected h); [intros [= <- <-]; split; [done|by left]|].
  destruct (hibernate h _) as [h' [ev|e]] eqn:Eh; [|intros [= <- <-]; split; [done|left; split; [by destruct e|done]]]. intros [= <- <-]. pose proof (Forall_lookup_1 _ _ _ _ Hr Hi) as Hwf.
  destruct (regions_wf_insert regions i h' Hr Hl (hib_wf_hibernate _ _ _ _ Hwf Eh)) as [Hr' Hl']. split; [done|]. right. split; [done|]. rewrite Z.mod_small in Eh by lia.
  apply hibernate_ok_inv in Eh as (Hoff & Hon & _ & _ & Hg & Hev & _). destruct Hwf as (_ & Hu & _). destruct (event_parts _ _ _ (Nat2Z.is_nonneg i) (proj1 Hu) Hev) as [Hidx Hgen].
  exists ev. split; [by eapply event_word; [| |exact Hev]; [lia|apply Hu]|]. split; [cbn [ka_buf]; unfold splice; rewrite take_0, app_nil_l; apply take_app_length'; by rewrite length_le_bytes|].
  assert (∀ e, Z.to_nat (event_index e) = i → event_active regions e = false) as Hno by (intros e E; unfold event_active; by rewrite E, Hi, Hoff).
  split; [apply Hno; lia|]. intros e. rewrite event_active_insert by done. case_decide as E.
  - rewrite (Hno e E), Hon, Hg. cbn. apply bool_decide_ext. split; [|intros ->; lia]. intros He. pose proof (event_index_range e). apply event_eq; lia.
  - rewrite (bool_decide_eq_false_2 (e = ev)) by (intros ->; lia). by rewrite orb_false_r.
Qed.

Lemma restore_call_ok regions ev mode a regions' :
  table_ok regions → is_u 32 ev → region_call RestoreRegion (le_bytes 4 ev ++ le_bytes 4 mode) 8 [] regions = (a, regions') →
  table_ok regions' ∧
  if event_active regions ev then ka_rc a = 0 ∧ ∀ e, event_active regions' e = event_active regions e && negb (bool_decide (e = ev)) else ka_rc a ≠ 0 ∧ ∀ e, event_active regions' e = event_active regions e.
Proof.
  intros [Hr Hl] Hev. unfold region_call. rewrite decide_False by done. rewrite decide_True by done. cbv zeta. rewrite index_bytes by exact Hev. unfold event_active at 1. set (i := Z.to_nat (event_index ev)).
  destruct (regions !! i) as [h|] eqn:Hi; [|by intros [= <- <-]]. pose proof (lookup_lt_Some _ _ _ Hi) as Hlt. pose proof (Forall_lookup_1 _ _ _ _ Hr Hi) as Hwf.
  destruct (restore h ev) as [h' [u|e]] eqn:Er; intros [= <- <-].
  - destruct (regions_wf_insert regions i h' Hr Hl (hib_wf_restore _ _ _ _ Hwf Er)) as [Hr' Hl']. split; [done|]. apply restore_ok_inv in Er as (Hon & Hoff & _ & _ & Hg & Hgen). rewrite Hon, bool_decide_eq_true_2 by done. split; [done|].
    intros e. rewrite event_active_insert by done. case_decide as E.
    + rewrite Hoff. cbn. unfold event_active. rewrite E, Hi, Hon. cbn. symmetry. apply andb_false_iff. destruct (decide (e = ev)) as [->|Hne]; [right; by rewrite bool_decide_eq_true_2|left]. apply bool_decide_eq_false. intros He. apply Hne.
      pose proof (event_index_range e). pose proof (event_index_range ev). apply event_eq; [unfold i in E; lia|lia].
    + rewrite (bool_decide_eq_false_2 (e = ev)) by (intros ->; done). by rewrite andb_true_r.
  - split; [done|]. destruct Hwf as (_ & _ & Hge). unfold restore in Er. destruct (hib_active h); [|done]. specialize (Hge eq_refl). cbn [negb] in Er. rewrite decide_False in Er by lia. case_decide as Hne; [|done]. by rewrite bool_decide_eq_false_2.
Qed.

#[export] Program Instance table_regions : RegionWorld (list HibernationRegionDesc) := {| region_ok := table_ok; active := event_active |}.
Next Obligation.
  intros. by eapply hibernate_call_ok.
Qed.
Next Obligation.
  intros. by eapply restore_call_ok.
Qed.
Next Obligation.
  intros w op buf lease a w' Hw Hop. cbn [send_to_kernel table_world]. unfold region_call. destruct Hop as [-> | ->]; rewrite !decide_False by done; by intros [= <- <-].
Qed.
End table.

(** * A faulted task *)

Definition kernel_of {A} (r : exec (result A UserError * Kernel)) : Kernel := match r with Ret (_, k) => k | Panic => m_kernel no_machine end.

(** The machine of three tasks, of which the second one has divided by zero. *)
Definition ex_faulted : Kernel := kernel_of (sys_force_fault 1 DivideByZero (m_kernel ex_machine)).

Lemma ex_faulted_inv : kinv ex_faulted.
Proof.
  assert (kinv (m_kernel ex_machine)) as Hk by apply (reachable_inv _ _ _ _ ex_irqs_ok _ ex_machine_reachable).
  destruct (wp_force_fault 1 DivideByZero (nth 1 (k_tasks (m_kernel ex_machine)) boss) (λ _ k', kinv k') (m_kernel ex_machine) Hk ltac:(vm_compute; reflexivity)) as (r & k' & E & _ & H'); [by intros|].
  unfold ex_faulted, kernel_of. rewrite E. by destruct r.
Qed.

(** The buffers, in the memory of the supervisor. *)
Definition ex_buf_at (op : Z) : Z :=
  if decide (op = FindFaultedTask) then 0x200001B0 else if decide (op = ReinitTask) then 0x200001B8 else if decide (op = ReadTaskStatus) then 0x20000180 else 0x20000100.

Definition ex_kernel_call : Z → list Z → nat → list Z → Kernel → KernelAnswer * Kernel := call_kernel (K := RegionDesc) [] ex_irqs 0 ex_buf_at (λ _, 0).

Lemma ex_marshal_laws : MarshalLaws.
Proof.
  split.
  - intros i Hi. cbn [de_u32 ex_marshal]. rewrite decide_True by (by rewrite length_le_bytes). rewrite take_ge by (by rewrite length_le_bytes). by rewrite le_val_le_bytes, Z.mod_small by exact Hi.
  - intros i Hi. cbn [de_u32_bool ex_marshal]. rewrite decide_True by (by rewrite length_app, length_le_bytes). by rewrite index_bytes by exact Hi.
  - intros i l Hi Hl. cbn [ser_u32 ex_marshal]. rewrite decide_True by lia. unfold splice. rewrite take_0, app_nil_l, length_le_bytes. by rewrite drop_ge, app_nil_r by lia.
  - done.
Qed.

Definition ex_sup : Sup Kernel := mkSup ex_faulted [] (replicate 40 0) (replicate 128 0).

(** The checks of the kernel, one for every length. *)
Definition granted (t : Task) (base : Z) (n : nat) : bool :=
  forallb (λ m, match try_read [] 1 t (mkUSlice base (Z.of_nat m)), try_write [] 1 t (mkUSlice base (Z.of_nat m)) with Ret (Ok _), Ret (Ok _) => true | _, _ => false end) (seq 1 n).

Lemma granted_ok t base n : 0 <= base → base + Z.of_nat n < 2 ^ 32 → granted t base n = true → grants t base n.
Proof.
  intros H1 H2 H3. split; [done|]. split; [done|]. intros m Hm. unfold granted in H3. rewrite forallb_forall in H3. specialize (H3 (Z.to_nat m)). rewrite in_seq in H3. specialize (H3 ltac:(lia)). rewrite Z2Nat.id in H3 by lia.
  destruct (try_read _ _ _ _) as [[[]|]|]; [|done..]. by destruct (try_write _ _ _ _) as [[[]|]|].
Qed.

Lemma ex_faulted_ok : kernel_ready 40 ex_buf_at ex_faulted.
Proof.
  split; [exact ex_faulted_inv|]. split; [vm_compute; reflexivity|]. split.
  - eexists. split; [vm_compute; reflexivity|]. split; [reflexivity|]. intros op Hop. unfold fault_calls in Hop. rewrite !elem_of_cons in Hop. destruct Hop as [->|[->|[->|[->|Hop%elem_of_nil]]]]; [..|done];
      (apply granted_ok; [vm_compute; discriminate|vm_compute; reflexivity|vm_compute; reflexivity]).
  - intros j t Hj Ht Hp. exfalso. assert ((t_state <$> k_tasks ex_faulted) = [Healthy Runnable; Faulted DivideByZero Runnable; Healthy Runnable]) as E by (vm_compute; reflexivity).
    apply (f_equal (λ l, l !! j)) in E. rewrite list_lookup_fmap, Ht in E. clear Ht. destruct j as [|[|[|j]]]; [done|..|done]; injection E as E; by rewrite E in Hp.
Qed.

Lemma faulted_tasks_restarted_witness :
  faulted_at ex_faulted 1 = true ∧
  ∃ s', handle_faults (H := kernel_platform (K := RegionDesc) [] ex_irqs 0 ex_buf_at (λ _, 0)) [] (λ _, Some (Faulted FaultPanic Runnable)) 3 ex_sup = Ret (tt, s') ∧ faulted_at (su_world s') 1 = false.
Proof.
  split; [vm_compute; reflexivity|].
  destruct (faulted_tasks_restarted (K := RegionDesc) [] ex_irqs 0 40 ex_buf_at (λ _, 0) ex_marshal_laws ex_irqs_ok ltac:(lia) [] (λ _, Some (Faulted FaultPanic Runnable)) 3 ex_sup ex_faulted_ok ltac:(reflexivity) ltac:(reflexivity) ltac:(vm_compute; lia)) as (s' & E & _ & _ & F).
  exists s'. split; [exact E|apply F].
Defined.

(** The second task panics instead, and says that its message is in the buffer of the
    supervisor. *)
Definition ex_panicked : Kernel :=
  kernel_of ((let* _ := update_save 1 (λ s, mkSaved 0x20000108 16 0 0 0 0 0 0 (psp s) (exc_return s)) in explicit_panic 1) (m_kernel ex_machine)).

(** The call that reads the message faults the supervisor: a copy between overlapping
    slices is taken for a fault of the destination. *)
Lemma panic_message_faults_supervisor :
  (t_state <$> k_tasks ex_panicked) = [Healthy Runnable; Faulted FaultPanic Runnable; Healthy Runnable] ∧
  (t_state <$> k_tasks (snd (ex_kernel_call ReadPanicMessage (le_bytes 4 1 ++ replicate 124 0) 4 [] ex_panicked))) =
    [Faulted (MemoryAccess (Some 0x20000100) SourceKernel) Runnable; Faulted FaultPanic Runnable; Healthy Runnable].
Proof. split; vm_compute; reflexivity. Qed.

(** * Hibernated regions *)

Definition no_protection (r : HibernationRegionDesc) : bool := false.
#[local] Instance ex_world : Platform (list HibernationRegionDesc) := table_world no_protection.
#[local] Instance ex_region_world : RegionWorld (list HibernationRegionDesc) := table_regions no_protection.

Definition ex_table : Sup (list HibernationRegionDesc) := mkSup ex_regions [] [] [].

(** A region is hibernated, restored, hibernated again and left; then once more, and kept. *)
Definition ex_region_calls : list RegionCall :=
  [CallHibernate 0x60000000 0x1000; CallHibernate 0x60000000 0x1000; CallRestore 0; CallHibernate 0x60000000 0x1000; CallDrop 1; CallHibernate 0x60000000 0x1000].

Lemma guards_hold_regions_witness :
  ∃ gs s', serve_calls [] None (Some 5) 5 [] ex_region_calls ex_table = Ret (gs, s') ∧ ∀ e, event_active (su_world s') e = event_active ex_regions e || held_by gs e.
Proof.
  destruct (guards_hold_regions [] None (Some 5) 5 ltac:(reflexivity) ex_table ex_region_calls) as (gs & s' & E & Ha & _).
  - split; [|vm_compute; lia]. repeat constructor; try (vm_compute; congruence).
  - repeat constructor; vm_compute; congruence.
  - exists gs, s'. split; [exact E|exact Ha].
Defined.

(** The third hibernation is in effect, and its guard holds it. *)
Lemma ex_region_calls_result : serve_calls [] None (Some 5) 5 [] ex_region_calls ex_table =
  Ret ([Some (mkGuard 0 true); None; Some (mkGuard 64 false)], mkSup [mkHib 0x60000000 0x1000 3 true] [] [] []).
Proof. vm_compute. reflexivity. Qed.

Definition ex_lease : list Z := replicate 8 7.

Lemma transfers_report_four_witness :
  guard_read [] None (Some 5) 5 (λ _, true) 0x60000000 ex_lease ex_table = Ret ((Ok 4, [0; 0; 0; 0; 7; 7; 7; 7]), ex_table).
Proof.
  exact (proj1 (transfers_report_four [] None (Some 5) 5 ltac:(reflexivity) ex_table (λ _, true) 0x60000000 ex_lease (mkAnswer 0 8 (le_bytes 4 0x60000000 ++ le_bytes 4 8) (replicate 8 0)) ex_regions
    ltac:(reflexivity) ltac:(vm_compute; intuition congruence) ltac:(cbn; lia) ltac:(reflexivity)) ltac:(vm_compute; reflexivity) ltac:(reflexivity) ltac:(reflexivity)).
Defined.
